(* ===== verification/_CoqProject ===== *)
-Q . S2P
Prelude.v
Slices.v
ScriptError.v
ScriptNum.v
Stack.v
Opcodes.v
Tokenizer.v
WireCommon.v
MsgTx.v
MsgBlock.v
Script.v
Crypto.v
SigHash.v
SigCache.v
EngineState.v
SigCheck.v
OpcodeExec.v
ScriptBuilder.v
Engine.v
Triples.v
EngineInv.v
EngineRuns.v
Multisig.v
OpcodeNum.v
AppTypes.v
AppStore.v
AppDht.v
AppPeer.v
AppNet.v
AppTransfer.v
BtcUtil.v
Vlq.v
Compress.v
Merkle.v
WorkMath.v
BlockIndex.v
Difficulty.v
TxRules.v
Validate.v
UtxoView.v
Supply.v
Bucket.v
Chainio.v
SizeHelper.v
UtxoCache.v
ChainView.v
Threshold.v
ScriptVal.v
Connect.v
ConnectSpec.v
Votes.v
ReorgView.v
Chain.v
ChainInv.v
ChainSpec.v
BestChain.v
Orphans.v
Process.v
TreeSpec.v
ProcessSpec.v
Processing.v
Commands.v
CommandSpec.v
Invalidation.v
Queries.v
Float64.v
Policy.v
Mempool.v
PolicySpec.v
OrphanPool.v
PoolRemoval.v
Replacement.v
PoolAccept.v
PoolOps.v
PoolSync.v
PoolChain.v
PoolMine.v
PoolEnds.v
PoolProps.v
