(* ===== verification/Prelude.v ===== *)
(** * The core of SquidCoin

    The repository is a coin built on forks of btcd (src/btcd) and btcwallet
    (src/btcwallet), with a file sharing application (src/application-layer)
    and a desktop client (src/client) on top.  This development models the
    parts on which the value of every coin and the state of every shared file
    depend: the wire format of transactions and blocks (src/btcd/wire), the
    scripts that lock and unlock outputs (src/btcd/txscript), the rules that a
    chain of blocks obeys and the encoding of the outputs it leaves unspent
    (src/btcd/blockchain, src/btcd/btcutil), the memory pool of transactions that
    are not in a block yet (src/btcd/mempool), and the handlers of a file sharing
    node with the files and the DHT records they keep.

    ** How the parts interact

    A transaction arrives as bytes and is decoded by [MsgTx], alone or inside a
    block of [MsgBlock]; [BtcUtil] wraps both and memoizes their hashes.  To
    validate one of its inputs, [Engine.NewEngine] receives the script of the
    output being spent and sets up the engine's state ([EngineState.Engine]).
    [Engine.Execute] calls [Engine.Step], which asks the tokenizer
    ([Tokenizer.Next]) for an opcode and hands it to [Engine.executeOpcode],
    which dispatches to the handler the opcode table ([Opcodes]) names
    ([OpcodeExec.run_opfunc]).  The handlers work on the two stacks ([Stack])
    and on script numbers ([ScriptNum]).  OP_CHECKSIG and its relatives build a
    verifier ([SigCheck]), which checks encodings ([EngineState]), computes the
    digest of the transaction ([SigHash], which uses [MsgTx] to serialize), and
    consults the signature cache ([SigCache]).  At the end of a script the
    engine appends the redeem script or the witness script.

    The header of a block commits to its transactions by a Merkle root
    ([Merkle]) and claims a proof of work by its bits ([WorkMath]); its node
    in the block tree ([BlockIndex]) implements the interface
    [BlockIndex.HeaderCtx] that the difficulty rules ([Difficulty]) are written
    against.  A block that arrives goes to [Process.ProcessBlock]: it is checked on its
    own ([Validate.checkBlockSanity]) and against the last checkpoint, waits in
    the pool of [Orphans] while its parent is unknown, and is checked in its
    context, where deployments are counted ([Threshold]), stored and given a node
    by [Process.maybeAcceptBlock].  [Chain.connectBestChain] then extends the best
    chain, leaves the block on a side branch or reorganizes.  Connecting checks
    the inputs against a view ([UtxoView]) that is filled from the cache
    ([UtxoCache]), which is filled from a bucket ([Chainio], [Bucket]); it runs
    all scripts ([ScriptVal], which runs [Engine]), spends the coins in the
    cache, writes the journal of spent coins and moves the view of the best
    chain ([ChainView]).  Disconnecting brings the coins back from the journal.
    The meaning of a view, of the cache over its bucket and of the journal is
    the same abstract ledger: a finite map from outpoints to coins, changed by
    [UtxoView.apply_txs]; [ChainInv.coins_at] is the ledger after a branch.
    [Commands] invalidate and reconsider blocks by the same reorganizations, and
    [Queries] read the view and the index.

    A transaction that arrives alone goes to [Mempool.ProcessTransaction].  The
    pool fetches a view of its inputs from the chain (the field
    [Mempool.FetchUtxoView] of its configuration, which [PoolMine.cache_speaks]
    discharges with the cache of the chain) and adds what other transactions of
    the pool make; it applies the rules of [TxRules], the policy of [Policy] and
    the script engine under the standard flags.  A transaction whose parents are
    unknown waits as an orphan; one that spends what others of the pool spend has
    to replace them.  The handlers of [PoolSync] run when the chain has connected
    or disconnected a block.

    On top of that, nodes share files: a node announces a file and writes its
    metadata to the DHT ([AppDht.UpdateFileInDHT]), another asks for it over a
    libp2p stream, receives it in chunks ([AppPeer.receiveFile]), and may vote
    on it ([AppDht.votingHelper]); each keeps its entries in JSON files
    ([AppStore]).  [AppNet] composes the handlers into a network.

    ** Conventions

    - A Go integer of w bits is a Z; conversions that wrap are written
      [wrapU w] and [wrapS w] (abbreviated [uint32], [int32], ...).  A big.Int
      is a Z.
    - A byte slice is a [list byte] (abbreviated [bytes]); a nil slice is the
      empty list, except where the code distinguishes the two, where it is an
      option.  Where the code slices a slice again beyond its length, as Go
      allows up to the capacity, the slice is [Slices.slice], a window on its
      backing array.
    - [outcome E A] is the result of a Go call: a value, an error or a panic
      (an index out of range, a nil dereference, log.Fatal).  A method with a
      pointer receiver is a state transformer [M S E A] that keeps the state it
      had reached when it fails.
    - A loop over a tokenizer has one more unit of fuel than the script has
      bytes, and running out of it is a panic, so that the theorems that exclude
      panics include termination.  [Engine.step_loop] returns [None] when it is
      out of fuel; [EngineInv.execute_terminates] shows that some fuel is
      always enough, whatever the scripts.  [OpcodeExec.multisig_loop] has two
      more units than there are keys, one of which every iteration uses up.
      The loops of [Merkle] run at most 64 times, the width of their counters;
      those of [Vlq] divide by 128, so that 10 rounds empty a uint64; those of
      [BlockIndex] and [Difficulty] go down by a height and get it as fuel.
    - The hash functions, the curve operations, the iteration order of Go
      maps, the DHT and public key serialization are not code of the
      repository: they are the type classes [Crypto.Crypto],
      [SigCache.MapOrder], [AppTypes.DHTService] and [Compress.PubKeys], with
      their documented properties in classes of laws and concrete instances
      for the examples.
    - In the application, a call to the operating system or to libp2p takes its
      answer from a list of [faults], so that every theorem holds for every
      combination of failures; a JSON file is what encoding/json reads it as.

    ** The files

    - [Prelude]: outcomes, the state monad, machine integers, bytes, slices;
      [Slices]: slices with their backing array.
    - [ScriptError] (error.go), [ScriptNum] (scriptnum.go), [Stack] (stack.go
      and the stack copies of engine.go), [Opcodes] (the table of opcode.go),
      [Tokenizer] (tokenizer.go).
    - [WireCommon] (wire/common.go), [MsgTx] (wire/msgtx.go), [MsgBlock]
      (wire/msgblock.go, wire/blockheader.go).  [WireCommon.Codec] and
      [MsgTx.SlabCodec] are the contracts of a reader and a writer.
    - [Script] (script.go and the recognisers of standard.go).
    - [Crypto], [SigHash] (sighash.go, hashcache.go), [SigCache]
      (sigcache.go), [EngineState] (the fields and encoding checks of
      engine.go), [SigCheck] (sigvalidate.go, taproot.go).
    - [OpcodeExec] (the handlers of opcode.go), [ScriptBuilder]
      (scriptbuilder.go and the builders of standard.go), [Engine] (engine.go).
    - [Triples]: framed triples over the state monad.  [EngineInv]: limits and
      termination of the engine.  [EngineRuns]: complete runs.  [Multisig],
      [OpcodeNum]: what the opcodes compute.
    - [AppTypes] (models, the machine of a node), [AppStore] (the JSON files),
      [AppDht] (metadata and votes in the DHT), [AppPeer] (the handlers),
      [AppNet] (a network of nodes), [AppTransfer] (a transfer end to end).
    - [BtcUtil] (btcutil/tx.go, btcutil/block.go), [Vlq] and [Compress]
      (blockchain/compress.go).
    - [Merkle] (merkle.go, rolling_merkle.go), [WorkMath]
      (internal/workmath/difficulty.go), [BlockIndex] (blockindex.go,
      interfaces.go), [Difficulty] (difficulty.go, the subsidy of validate.go,
      chaincfg/params.go), all under src/btcd/blockchain.
    - [TxRules] (the rules for one transaction in validate.go, weight.go and
      error.go), [Validate] (the sanity of headers and blocks, coinbase heights,
      witness commitments and the context of a header in validate.go).
    - [UtxoView] (utxoviewpoint.go): entries, views and the ledger they stand
      for; [Supply]: what applying transactions does to the sum of all coins.
    - [Bucket]: the buckets of the database as a class with laws; [Chainio]
      (chainio.go) stores coins, journals, indexes and states in them.
      [SizeHelper] (sizehelper.go) and [UtxoCache] (utxocache.go).
    - [ChainView] (chainview.go); [Threshold] (thresholdstate.go, versionbits.go
      and chaincfg/deployment_time_frame.go) and [Votes] on top of it.
    - [ScriptVal] (scriptval.go); [Connect] ([checkConnectBlock] and what it calls
      in validate.go, chain.go and checkpoints.go) with [ConnectSpec].
    - [Chain] (the index of blocks in blockindex.go; connecting, disconnecting,
      reorganizing and choosing the best chain in chain.go; pruning), with
      [ReorgView], [ChainInv] and [ChainSpec] for its invariant and [BestChain]
      for its properties.
    - [Orphans] (the pool of orphans of chain.go), [Process] (process.go,
      accept.go, checkpoints.go), with [TreeSpec] and [ProcessSpec] for growing
      trees and [Processing] for the properties.
    - [Commands] (InvalidateBlock, ReconsiderBlock and ChainTips of chain.go),
      with [CommandSpec] and [Invalidation]; [Queries] (the ranges and locators
      of chain.go).
    - [Float64] (floating point), [Policy] (mempool/policy.go, error.go and
      mining/policy.go) with [PolicySpec]; [Mempool] (mempool/mempool.go), with
      [OrphanPool], [PoolRemoval], [Replacement], [PoolAccept], [PoolOps] and
      [PoolEnds] for its invariants and the end of its methods; [PoolSync] (the
      handler of blocks in netsync/manager.go) with [PoolChain] and [PoolMine];
      [PoolProps] for the properties.
    ** What the theorems show

    - Formats: script numbers, tokens, variable length integers and quantities,
      transactions, blocks and entries of the unspent output set are read back
      as they were written, and only canonical forms are accepted; computed
      sizes and offsets are those of the encoding.
    - Opcodes: the stack methods refine an abstract stack; numeric opcodes are
      exact; OP_CHECKMULTISIG decides an order-preserving matching; DER
      signatures are recognised exactly.
    - The engine: resource limits as an invariant of all reachable states, and
      termination.
    - Digests and caches: a legacy digest commits to the fields that are signed; the
      signature cache does not change a result and stays within its bound; the
      memoized hashes of transactions and blocks are those the wire methods
      compute.
    - The chain: both computations of a Merkle root agree with a reference
      definition, and a root commits to its transactions; compact bits keep the
      largest target they can; retargeting for any headers behind the
      interface; skip pointers find what parents find; the supply is bounded.
    - Blocks: exactly the sane blocks pass the sanity check, with every count and
      sum exact, and the hash of a sane block determines its transactions.
    - Coins: connecting an applicable block to a view gives the ledger after it
      and the journal of its coins, and disconnecting goes back; the cache over
      its bucket refines the ledger; a block that passes the checks before
      connecting is applicable, adds at most the subsidy and runs all its scripts
      above the last checkpoint; checking scripts in any order ends.
    - The best chain: the invariant [ChainInv.chain_ok] (the view is the branch of
      the tip, the cache stands for its coins, the journals of the branch are
      right, what is marked valid is applicable) is kept by every block and by
      every outcome of it; a reorganization is done as a whole or not at all; a
      known branch with more work is adopted; locators, ranges and what is sent
      to a peer are those of the branch.
    - Processing: whatever blocks of such a universe come in whatever order, the
      chain, the tree, the
      files and the pool of orphans stay right and the work of the tip never goes
      down; the orphans above a block are taken in a number of steps that is
      enough for every order and outcome.
    - Commands: an invalidated block leaves the best chain, whether the command
      succeeds or fails, and reconsidering never leaves a worse tip.
    - The memory pool: what its methods reach is consistent (one spender for an
      output, exact indexes, a bounded number of orphans), and they end; an
      accepted transaction is as [PoolProps.accepted] says, and it replaces
      others exactly under [Replacement.replaces]; the pool stays a
      valid sequence of transactions on top of the ledger, except when a block is
      disconnected ([PoolProps.stranded_transaction]).
    - Votes: the cached state of a deployment is the state machine of BIP 9 run
      over the whole chain, with the end of a deployment counting only from its
      start, and the warnings are given exactly when they should.
    - The application: in every reachable network each metadata record has the
      rating and the number of raters its providers voted for, whatever is lost
      or fails, unless a console or a proxy has written to its key; the JSON
      files refine finite maps, as long as writing them does not fail half-way; a
      download without failures
      leaves the bytes of the provider; a vote is counted once.
    - Defects: a pay-to-script-hash input that makes the engine panic, a message
      that makes the decoder panic, offsets that are short by two, a wrapped
      block that reports wrong hashes, damaged output entries that panic or are
      accepted, six defects of the file sharing handlers, the parameters of the
      main network, whose difficulty can always be avoided, an output that is
      spent before it is made, a transaction that stays in the memory pool without
      its parent, and answers of the chain and of the commands on
      blocks that say something else than what happened.

    ** Not modelled

    Texts (error descriptions, disassembly, logging) and the debugging callback;
    locks and free lists (each modelled method runs under its lock, and buffers
    are values, except for the script slab of the transaction decoder, whose
    sharing and size matter); signing; address types; the proxy streams, the
    websocket and the wallet service of the application, which are input and
    output around child processes.  The handlers of a node run one at a time; a
    crash comes between two handlers or where a handler ends the process, not in
    the middle of writing a file; and a node starts with the files its last
    process left.

    Of the chain: notifications are recorded, but the chain lock is released
    while they are delivered and other calls could come in between; the index
    manager is absent, as it is by default; database writes do not fail, and a
    failing transaction is undone as the database documents; the clock has one
    value through a call; a nil entry in the list of orphans of a parent, which
    the code looks for but never makes, does not exist in the model; creating and
    loading the chain state, recovery of the cache after a crash
    (InitConsistentState) and the change of the pruning at the start are left
    out.  The theorems about the chain assume a chain that is not pruned
    ([ChainInv.world]), that a hash belongs to one block, that the transactions of
    a block are in order and that no transaction has the id of one in a block
    below it ([TreeSpec.universe], [ReorgView.good_branch]; blocks of different
    branches may share transactions).  The code does not enforce the last two for
    every block: [ConnectSpec.early_spend] and [ConnectSpec.early_spend_again] are
    blocks out of order that it accepts, below the height of BIP 34 or in a
    reorganization, and [UtxoCache.cache_resurrects] shows what a repeated id does.  [Chain.Network] holds the budget of steps for a
    script; running out of it is an error of the model, and
    [ScriptVal.script_validation] shows that a large enough one is never used up.
    [Process.orphan_fuel] is two steps for every orphan and one for the block.

    Of the memory pool: the address index and the fee estimator, which are
    optional, and the announcements to peers are left out.  The clock and the
    order of maps are answers of [Mempool.World], by the number of calls so far.
    The theorems assume that hashes do not collide and that no transaction
    contains its own hash, as a rank of hashes ([PoolRemoval.universe]); the
    recursions have one unit of fuel more than the pool or the orphans have
    entries, and [PoolEnds] shows that it is never used up.  Of the rest of the repository, the
    database, the network, the RPC layers, the wallet's storage and the user
    interfaces are input and output around third-party code.

    Planned next: nothing further; base58, bech32 and the wallet's fee estimation would
    be next. *)
From Stdlib Require Import ZArith Lia List.
From Stdlib Require Export Strings.Byte.
From stdpp Require Export base list numbers option strings gmap.

(** * Notation scope of the development *)

Declare Scope go_scope.
Delimit Scope go_scope with go.
#[global] Open Scope Z_scope.
#[global] Open Scope go_scope.

(** * Outcomes of Go code

    A Go function that returns [(A, error)] either returns a value, returns an
    error value, or panics (index or slice bounds out of range, nil
    dereference).  The three cases are kept apart. *)

Inductive outcome (E A : Type) : Type :=
| Ok (a : A)
| Err (e : E)
| Panic.
Arguments Ok {E A} a.
Arguments Err {E A} e.
Arguments Panic {E A}.

Definition is_ok {E A} (o : outcome E A) : bool :=
  match o with Ok _ => true | _ => false end.

Definition is_panic {E A} (o : outcome E A) : bool :=
  match o with Panic => true | _ => false end.

(** * State and outcome monad

    A method with a pointer receiver is a function of the receiver's state
    that yields an outcome together with the state it leaves behind.  The
    state is kept on errors as well: Go does not roll anything back. *)

Definition M (S E A : Type) : Type := S -> outcome E A * S.

Section Monad.
Context {S E : Type}.

Definition ret {A} (a : A) : M S E A := fun s => (Ok a, s).
Definition fail {A} (e : E) : M S E A := fun s => (Err e, s).
Definition panic {A} : M S E A := fun s => (Panic, s).
Definition get : M S E S := fun s => (Ok s, s).
Definition put (s' : S) : M S E unit := fun _ => (Ok tt, s').
Definition gets {A} (f : S -> A) : M S E A := fun s => (Ok (f s), s).
Definition modify (f : S -> S) : M S E unit := fun s => (Ok tt, f s).

Definition bind {A B} (m : M S E A) (k : A -> M S E B) : M S E B :=
  fun s =>
    match m s with
    | (Ok a, s') => k a s'
    | (Err e, s') => (Err e, s')
    | (Panic, s') => (Panic, s')
    end.

(** [_ = f()]: run a method and discard its error. *)
Definition ignore_err {A} (m : M S E A) : M S E unit :=
  fun s =>
    match m s with
    | (Panic, s') => (Panic, s')
    | (_, s') => (Ok tt, s')
    end.

(** An outcome computed without touching the state. *)
Definition lift {A} (o : outcome E A) : M S E A := fun s => (o, s).

(** [if b { return err }] *)
Definition guard (b : bool) (e : E) : M S E unit :=
  if b then fail e else ret tt.
End Monad.

(** Run a method on a component of a larger state. *)
Definition zoom {S T E A} (proj : S -> T) (upd : T -> S -> S) (m : M T E A)
  : M S E A :=
  fun s => let '(o, t) := m (proj s) in (o, upd t s).

Notation "x <- m ;; k" := (bind m (fun x => k))
  (at level 100, m at next level, right associativity) : go_scope.
Notation "m ;; k" := (bind m (fun _ => k))
  (at level 100, right associativity) : go_scope.

(** The pure fragment: outcomes without state. *)
Definition obind {E A B} (o : outcome E A) (k : A -> outcome E B) : outcome E B :=
  match o with
  | Ok a => k a
  | Err e => Err e
  | Panic => Panic
  end.

Notation "'let!' x := m 'in' k" := (obind m (fun x => k))
  (at level 10, x name, m at level 100, k at level 200) : go_scope.

Section MonadLemmas.
Context {S E : Type}.

Lemma bind_eq {A B} (m : M S E A) (k : A -> M S E B) s :
  bind m k s = match m s with
               | (Ok a, s') => k a s'
               | (Err e, s') => (Err e, s')
               | (Panic, s') => (Panic, s')
               end.
Proof. reflexivity. Qed.

Lemma bind_Ok {A B} (m : M S E A) (k : A -> M S E B) s a s' :
  m s = (Ok a, s') -> bind m k s = k a s'.
Proof. intros H. unfold bind. now rewrite H. Qed.

Lemma bind_Err {A B} (m : M S E A) (k : A -> M S E B) s e s' :
  m s = (Err e, s') -> bind m k s = (Err e, s').
Proof. intros H. unfold bind. now rewrite H. Qed.

Lemma bind_inv_Ok {A B} (m : M S E A) (k : A -> M S E B) s b s' :
  bind m k s = (Ok b, s') ->
  exists a s1, m s = (Ok a, s1) /\ k a s1 = (Ok b, s').
Proof.
  unfold bind. destruct (m s) as [[a|e|] s1]; intros H; try discriminate.
  eauto.
Qed.

Lemma bind_not_Panic {A B} (m : M S E A) (k : A -> M S E B) s :
  fst (m s) <> Panic ->
  (forall a s1, m s = (Ok a, s1) -> fst (k a s1) <> Panic) ->
  fst (bind m k s) <> Panic.
Proof.
  unfold bind. destruct (m s) as [[a|e|] s1]; cbn; intros H1 H2;
    [ now apply H2 | discriminate | congruence ].
Qed.

Lemma bind_assoc {A B C} (m : M S E A) (k : A -> M S E B) (h : B -> M S E C) s :
  bind (bind m k) h s = bind m (fun a => bind (k a) h) s.
Proof. unfold bind. now destruct (m s) as [[a|e|] s1]. Qed.

Lemma guard_true (e : E) (s : S) : guard true e s = (Err e, s).
Proof. reflexivity. Qed.

Lemma guard_false (e : E) (s : S) : guard false e s = (Ok tt, s).
Proof. reflexivity. Qed.
End MonadLemmas.

(** The state and result of a primitive statement. *)
Ltac ok_inv H := first [injection H as ? ? | injection H as ? | clear H]; subst.

(** Split a successful run of a sequence of statements into its steps. *)
Ltac run_inv :=
  repeat match goal with
  | H : bind _ _ _ = (Ok _, _) |- _ =>
      apply bind_inv_Ok in H; destruct H as (? & ? & ? & H)
  | H : ret _ _ = (Ok _, _) |- _ => unfold ret in H; ok_inv H
  | H : get _ = (Ok _, _) |- _ => unfold get in H; ok_inv H
  | H : gets _ _ = (Ok _, _) |- _ => unfold gets in H; ok_inv H
  | H : put _ _ = (Ok _, _) |- _ => unfold put in H; ok_inv H
  | H : modify _ _ = (Ok _, _) |- _ => unfold modify in H; ok_inv H
  | H : lift _ _ = (Ok _, _) |- _ => unfold lift in H; ok_inv H
  | H : fail _ _ = (Ok _, _) |- _ => unfold fail in H; discriminate H
  | H : panic _ = (Ok _, _) |- _ => unfold panic in H; discriminate H
  | H : guard ?b _ _ = (Ok _, _) |- _ =>
      unfold guard in H; destruct b eqn:?; [unfold fail in H; discriminate H |]
  end.

(** * Machine integers

    A [w]-bit integer is a [Z]; a conversion writes its wrap-around out. *)

Definition wrapU (w z : Z) : Z := z mod 2 ^ w.
Definition wrapS (w z : Z) : Z := (z + 2 ^ (w - 1)) mod 2 ^ w - 2 ^ (w - 1).

Abbreviation uint8 := (wrapU 8).
Abbreviation uint16 := (wrapU 16).
Abbreviation uint32 := (wrapU 32).
Abbreviation uint64 := (wrapU 64).
Abbreviation int32 := (wrapS 32).
Abbreviation int64 := (wrapS 64).

Lemma parity_cases n : n mod 2 = 0 \/ n mod 2 = 1.
Proof. pose proof (Z.mod_pos_bound n 2 ltac:(lia)). lia. Qed.

Lemma wrapU_range w z : 0 <= w -> 0 <= wrapU w z < 2 ^ w.
Proof. intros. apply Z.mod_pos_bound. apply Z.pow_pos_nonneg; lia. Qed.

Lemma wrapU_small w z : 0 <= z < 2 ^ w -> wrapU w z = z.
Proof. apply Z.mod_small. Qed.

Lemma wrapS_range w z : 0 < w -> - 2 ^ (w - 1) <= wrapS w z < 2 ^ (w - 1).
Proof.
  intros. unfold wrapS.
  pose proof (Z.mod_pos_bound (z + 2 ^ (w - 1)) (2 ^ w)
                ltac:(apply Z.pow_pos_nonneg; lia)).
  replace (2 ^ w) with (2 * 2 ^ (w - 1)) in *; [lia |].
  rewrite <- Z.pow_succ_r by lia. f_equal. lia.
Qed.

Lemma wrapS_small w z : 0 < w -> - 2 ^ (w - 1) <= z < 2 ^ (w - 1) -> wrapS w z = z.
Proof.
  intros Hw Hz. unfold wrapS. rewrite Z.mod_small; [lia |].
  replace (2 ^ w) with (2 * 2 ^ (w - 1)); [lia |].
  rewrite <- Z.pow_succ_r by lia. f_equal. lia.
Qed.

Lemma uint8_small z : 0 <= z < 256 -> uint8 z = z.
Proof. exact (wrapU_small 8 z). Qed.

Lemma uint32_small z : 0 <= z < 2 ^ 32 -> uint32 z = z.
Proof. exact (wrapU_small 32 z). Qed.

Lemma int32_small z : - 2 ^ 31 <= z < 2 ^ 31 -> int32 z = z.
Proof. intros. apply wrapS_small; lia. Qed.

Lemma int64_small z : - 2 ^ 63 <= z < 2 ^ 63 -> int64 z = z.
Proof. intros. apply wrapS_small; lia. Qed.

(** A two's complement value survives a trip through its unsigned form. *)
Lemma wrapS_wrapU w z :
  0 < w -> - 2 ^ (w - 1) <= z < 2 ^ (w - 1) -> wrapS w (wrapU w z) = z.
Proof.
  intros Hw Hz. unfold wrapS, wrapU.
  rewrite Zplus_mod_idemp_l. now apply wrapS_small.
Qed.

Lemma wrapU_wrapS w z : 0 < w -> 0 <= z < 2 ^ w -> wrapU w (wrapS w z) = z.
Proof.
  intros Hw Hz. unfold wrapS, wrapU.
  rewrite Zminus_mod_idemp_l, Z.add_simpl_r. now apply Z.mod_small.
Qed.

(** * Bytes *)

Definition b2z (b : byte) : Z := Z.of_N (Byte.to_N b).

Definition z2b (z : Z) : byte :=
  match Byte.of_N (Z.to_N (z mod 256)) with
  | Some b => b
  | None => Byte.x00
  end.

#[global] Instance byte_eq_dec : EqDecision byte := Byte.byte_eq_dec.

Lemma b2z_range b : 0 <= b2z b < 256.
Proof.
  unfold b2z. pose proof (Byte.to_N_bounded b). lia.
Qed.

Lemma b2z_inj a b : b2z a = b2z b -> a = b.
Proof.
  unfold b2z. intros H%N2Z.inj.
  pose proof (Byte.of_to_N a) as Ha. rewrite H, Byte.of_to_N in Ha. congruence.
Qed.

Lemma b2z_z2b z : b2z (z2b z) = z mod 256.
Proof.
  unfold z2b, b2z. pose proof (Z.mod_pos_bound z 256 ltac:(lia)) as Hz.
  destruct (Byte.of_N (Z.to_N (z mod 256))) as [b|] eqn:Hb.
  - apply Byte.to_of_N in Hb. rewrite Hb. now rewrite Z2N.id by lia.
  - apply Byte.of_N_None_iff in Hb. lia.
Qed.

Lemma b2z_z2b_small z : 0 <= z < 256 -> b2z (z2b z) = z.
Proof. intros. rewrite b2z_z2b. now apply Z.mod_small. Qed.

Lemma z2b_b2z b : z2b (b2z b) = b.
Proof.
  apply b2z_inj. rewrite b2z_z2b. apply Z.mod_small, b2z_range.
Qed.

#[global] Instance byte_countable : Countable byte.
Proof.
  apply (inj_countable' b2z z2b). intros b. apply z2b_b2z.
Defined.

Abbreviation bytes := (list byte).

(** [int(len(v))] *)
Definition zlen {A} (l : list A) : Z := Z.of_nat (length l).

Lemma zlen_nonneg {A} (l : list A) : 0 <= zlen l.
Proof. unfold zlen. lia. Qed.

Lemma zlen_nil {A} : zlen (@nil A) = 0.
Proof. reflexivity. Qed.

Lemma zlen_cons {A} (x : A) l : zlen (x :: l) = 1 + zlen l.
Proof. unfold zlen. cbn [length]. lia. Qed.

Lemma zlen_app {A} (l k : list A) : zlen (l ++ k) = zlen l + zlen k.
Proof. unfold zlen. rewrite length_app. lia. Qed.

Lemma zlen_0_nil {A} (l : list A) : zlen l = 0 -> l = [].
Proof. unfold zlen. destruct l; cbn; [done | lia]. Qed.

(** [v[i]] with a signed index: out of range is a panic. *)
Definition znth {A} (l : list A) (i : Z) : option A :=
  if decide (0 <= i) then l !! Z.to_nat i else None.

Definition index {E A} (l : list A) (i : Z) : outcome E A :=
  match znth l i with Some x => Ok x | None => Panic end.

Lemma znth_Some_range {A} (l : list A) i x : znth l i = Some x -> 0 <= i < zlen l.
Proof.
  unfold znth, zlen. case_decide; [| done]. intros Hx%lookup_lt_Some. lia.
Qed.

Lemma znth_in_range {A} (l : list A) i : 0 <= i < zlen l -> exists x, znth l i = Some x.
Proof.
  intros Hi. unfold znth, zlen in *. rewrite decide_True by lia.
  apply lookup_lt_is_Some. lia.
Qed.

Lemma znth_app_r {A} (l k : list A) i :
  zlen l <= i -> znth (l ++ k) i = znth k (i - zlen l).
Proof.
  intros Hi. pose proof (zlen_nonneg l). unfold znth, zlen in *.
  rewrite !decide_True by lia. rewrite lookup_app_r by lia. f_equal. lia.
Qed.

Lemma znth_app_l {A} (l k : list A) i :
  i < zlen l -> znth (l ++ k) i = znth l i.
Proof.
  intros Hi. unfold znth, zlen in *. case_decide; [| done].
  now rewrite lookup_app_l by lia.
Qed.

Lemma znth_app_exact {A} (p rest : list A) x i :
  i = zlen p -> znth (p ++ x :: rest) i = Some x.
Proof.
  intros ->. rewrite znth_app_r by lia. now rewrite Z.sub_diag.
Qed.

(** Slices [v[:i]] and [v[i:]] with indices already known to be in range. *)
Definition ztake {A} (i : Z) (l : list A) : list A := take (Z.to_nat i) l.
Definition zdrop {A} (i : Z) (l : list A) : list A := drop (Z.to_nat i) l.

Lemma zlen_ztake {A} i (l : list A) : 0 <= i <= zlen l -> zlen (ztake i l) = i.
Proof. unfold zlen, ztake. rewrite length_take. lia. Qed.

Lemma zlen_zdrop {A} i (l : list A) : 0 <= i <= zlen l -> zlen (zdrop i l) = zlen l - i.
Proof. unfold zlen, zdrop. rewrite length_drop. lia. Qed.

Lemma ztake_app {A} (l k : list A) : ztake (zlen l) (l ++ k) = l.
Proof. unfold ztake, zlen. rewrite Nat2Z.id. apply take_app_length. Qed.

Lemma zdrop_app {A} (l k : list A) : zdrop (zlen l) (l ++ k) = k.
Proof. unfold zdrop, zlen. rewrite Nat2Z.id. apply drop_app_length. Qed.

Lemma ztake_zdrop {A} i (l : list A) : ztake i l ++ zdrop i l = l.
Proof. apply take_drop. Qed.

(** * Little-endian integers (encoding/binary) *)

Fixpoint le_bytes (n : nat) (z : Z) : bytes :=
  match n with
  | O => []
  | S n => z2b z :: le_bytes n (z / 256)
  end.

Fixpoint le_val (bs : bytes) : Z :=
  match bs with
  | [] => 0
  | b :: bs => b2z b + 256 * le_val bs
  end.

Lemma length_le_bytes n z : length (le_bytes n z) = n.
Proof. revert z. induction n; intros; cbn; auto. Qed.

Lemma zlen_le_bytes n z : zlen (le_bytes n z) = Z.of_nat n.
Proof. unfold zlen. now rewrite length_le_bytes. Qed.

Lemma le_val_le_bytes n z : le_val (le_bytes n z) = z mod 256 ^ Z.of_nat n.
Proof.
  revert z. induction n as [|n IH]; intros z; cbn [le_bytes le_val].
  - now rewrite Z.mod_1_r.
  - rewrite IH, b2z_z2b, Nat2Z.inj_succ, Z.pow_succ_r by lia.
    rewrite Z.rem_mul_r; [reflexivity | lia |].
    apply Z.pow_pos_nonneg; lia.
Qed.

Lemma le_val_le_bytes_small n z :
  0 <= z < 256 ^ Z.of_nat n -> le_val (le_bytes n z) = z.
Proof. intros. rewrite le_val_le_bytes. now apply Z.mod_small. Qed.

Lemma le_val_range bs : 0 <= le_val bs < 256 ^ zlen bs.
Proof.
  unfold zlen. induction bs as [|b bs IH]; cbn [le_val length].
  - lia.
  - rewrite Nat2Z.inj_succ, Z.pow_succ_r by lia.
    pose proof (b2z_range b). lia.
Qed.

Lemma le_bytes_le_val bs : le_bytes (length bs) (le_val bs) = bs.
Proof.
  induction bs as [|b bs IH]; cbn [le_bytes le_val length]; [done |].
  pose proof (b2z_range b). f_equal.
  - apply b2z_inj. rewrite b2z_z2b.
    rewrite Z.mul_comm, Z_mod_plus_full. now apply Z.mod_small.
  - replace ((b2z b + 256 * le_val bs) / 256) with (le_val bs); [done |].
    rewrite Z.mul_comm, Z_div_plus_full, Z.div_small by lia. lia.
Qed.

Lemma le_val_app l k : le_val (l ++ k) = le_val l + 256 ^ zlen l * le_val k.
Proof.
  induction l as [|b l IH]; cbn [le_val app].
  - change (256 ^ zlen (@nil byte)) with 1. lia.
  - rewrite IH, zlen_cons, Z.pow_add_r by (pose proof (zlen_nonneg l); lia). lia.
Qed.

(** Big-endian value of a byte string ([big.Int.SetBytes]). *)
Definition be_val (bs : bytes) : Z := le_val (reverse bs).

(** * Shared automation *)

Create HintDb go discriminated.
#[export] Hint Resolve zlen_nonneg b2z_range le_val_range : go.
Create Rewrite HintDb zlen.
#[export] Hint Rewrite @zlen_nil @zlen_cons @zlen_app zlen_le_bytes : zlen.

(** Case on the boolean comparison a Go [if] tests. *)
Ltac zcase :=
  match goal with
  | |- context [?a <? ?b] => destruct (Z.ltb_spec a b)
  | |- context [?a <=? ?b] => destruct (Z.leb_spec a b)
  | |- context [?a =? ?b] => destruct (Z.eqb_spec a b)
  end.

Ltac zcase_in H :=
  match type of H with
  | context [?a <? ?b] => destruct (Z.ltb_spec a b)
  | context [?a <=? ?b] => destruct (Z.leb_spec a b)
  | context [?a =? ?b] => destruct (Z.eqb_spec a b)
  end.

(** Evaluate the comparisons of a goal that linear arithmetic decides. *)
Ltac ztest1 t :=
  first [ replace t with true by (symmetry; lia)
        | replace t with false by (symmetry; lia) ].

Ltac ztest :=
  repeat match goal with
  | |- context [?a <? ?b] => ztest1 (a <? b)
  | |- context [?a <=? ?b] => ztest1 (a <=? b)
  | |- context [?a >? ?b] => ztest1 (a >? b)
  | |- context [?a >=? ?b] => ztest1 (a >=? b)
  | |- context [?a =? ?b] => ztest1 (a =? b)
  end; cbn [andb orb negb].
