(* ===== verification/Slices.v ===== *)
(** Byte slices of Go that are sliced again: a window on a backing array. *)

From S2P Require Import Prelude.

(** The backing array from the first element of the slice on, as far as its
    capacity goes, and the length of the slice. *)
Record slice := mkSlice { s_arr : bytes; s_len : Z }.

(** The elements of a slice. *)
Definition contents (s : slice) : bytes := ztake (s_len s) (s_arr s).

(** [s[a:b]]: the bounds are checked against the capacity. *)
Definition reslice {E} (s : slice) (a b : Z) : outcome E slice :=
  if (0 <=? a) && (a <=? b) && (b <=? zlen (s_arr s))
  then Ok (mkSlice (zdrop a (s_arr s)) (b - a)) else Panic.

(** A slice of a whole array. *)
Definition whole (b : bytes) : slice := mkSlice b (zlen b).

(** [b[lo:hi]] of a byte string, within its bounds *)
Definition sub (b : bytes) (lo hi : Z) : bytes := ztake (hi - lo) (zdrop lo b).

Definition slice_ok (s : slice) : Prop := 0 <= s_len s <= zlen (s_arr s).

Lemma whole_ok b : slice_ok (whole b).
Proof. unfold slice_ok, whole. cbn [s_len s_arr]. pose proof (zlen_nonneg b). lia. Qed.

Lemma contents_whole b : contents (whole b) = b.
Proof. unfold contents, whole. cbn [s_len s_arr]. rewrite <- (app_nil_r b) at 2. apply ztake_app. Qed.

Lemma contents_app data rest : contents (mkSlice (data ++ rest) (zlen data)) = data.
Proof. apply ztake_app. Qed.

Lemma zlen_contents s : slice_ok s -> zlen (contents s) = s_len s.
Proof. intros Hs. now apply zlen_ztake. Qed.

Lemma reslice_app {E} pre data rest l b :
  b = zlen pre + zlen data ->
  @reslice E (mkSlice (pre ++ data ++ rest) l) (zlen pre) b
  = Ok (mkSlice (data ++ rest) (zlen data)).
Proof.
  intros ->. pose proof (zlen_nonneg pre). pose proof (zlen_nonneg data). pose proof (zlen_nonneg rest).
  unfold reslice. cbn [s_arr]. rewrite !zlen_app.
  replace (_ && _ && _) with true by lia. rewrite zdrop_app. do 2 f_equal. lia.
Qed.

(** Slicing within the length is slicing the contents. *)
Lemma reslice_within {E} s a b :
  slice_ok s -> 0 <= a <= b -> b <= s_len s ->
  exists s', @reslice E s a b = Ok s' /\ slice_ok s' /\ s_len s' = b - a /\
             contents s' = sub (contents s) a b.
Proof.
  unfold slice_ok. intros Hs Ha Hb. unfold reslice.
  replace (_ && _ && _) with true by lia. eexists. split; [done |]. cbn [s_len s_arr].
  rewrite zlen_zdrop by lia. split; [lia |]. split; [done |].
  unfold sub, contents, ztake, zdrop. cbn [s_len s_arr].
  rewrite skipn_firstn_comm, take_take. f_equal. lia.
Qed.

(** The parts of a byte string that is put together from parts. *)
Lemma sub_app pre data rest lo hi :
  lo = zlen pre -> hi = zlen pre + zlen data -> sub (pre ++ data ++ rest) lo hi = data.
Proof.
  intros -> ->. unfold sub. rewrite zdrop_app. replace (_ - _) with (zlen data) by lia. apply ztake_app.
Qed.

Lemma sub_app_head data rest hi : hi = zlen data -> sub (data ++ rest) 0 hi = data.
Proof. intros ->. apply (sub_app []); [done | reflexivity]. Qed.
