(* ===== verification/ScriptError.v ===== *)
(** Error values of package txscript (src/btcd/txscript/error.go): the error
    codes, and the [error] interface value the engine's methods return, which is
    either a txscript [Error] carrying a code or an error of another package
    (a signature or public key that does not parse). *)
From S2P Require Import Prelude.

Inductive ErrorCode : Set :=
| ErrInternal
| ErrInvalidFlags
| ErrInvalidIndex
| ErrUnsupportedAddress
| ErrNotMultisigScript
| ErrTooManyRequiredSigs
| ErrTooMuchNullData
| ErrUnsupportedScriptVersion
| ErrEarlyReturn
| ErrEmptyStack
| ErrEvalFalse
| ErrScriptUnfinished
| ErrInvalidProgramCounter
| ErrScriptTooBig
| ErrElementTooBig
| ErrTooManyOperations
| ErrStackOverflow
| ErrInvalidPubKeyCount
| ErrInvalidSignatureCount
| ErrNumberTooBig
| ErrVerify
| ErrEqualVerify
| ErrNumEqualVerify
| ErrCheckSigVerify
| ErrCheckMultiSigVerify
| ErrDisabledOpcode
| ErrReservedOpcode
| ErrMalformedPush
| ErrInvalidStackOperation
| ErrUnbalancedConditional
| ErrMinimalData
| ErrInvalidSigHashType
| ErrSigTooShort
| ErrSigTooLong
| ErrSigInvalidSeqID
| ErrSigInvalidDataLen
| ErrSigMissingSTypeID
| ErrSigMissingSLen
| ErrSigInvalidSLen
| ErrSigInvalidRIntID
| ErrSigZeroRLen
| ErrSigNegativeR
| ErrSigTooMuchRPadding
| ErrSigInvalidSIntID
| ErrSigZeroSLen
| ErrSigNegativeS
| ErrSigTooMuchSPadding
| ErrSigHighS
| ErrNotPushOnly
| ErrSigNullDummy
| ErrPubKeyType
| ErrCleanStack
| ErrNullFail
| ErrWitnessMalleated
| ErrWitnessMalleatedP2SH
| ErrDiscourageUpgradableNOPs
| ErrNegativeLockTime
| ErrUnsatisfiedLockTime
| ErrMinimalIf
| ErrDiscourageUpgradableWitnessProgram
| ErrWitnessProgramEmpty
| ErrWitnessProgramMismatch
| ErrWitnessProgramWrongLength
| ErrWitnessUnexpected
| ErrWitnessPubKeyType
| ErrDiscourageOpSuccess
| ErrDiscourageUpgradeableTaprootVersion
| ErrTapscriptCheckMultisig
| ErrDiscourageUpgradeablePubKeyType
| ErrTaprootSigInvalid
| ErrTaprootMerkleProofInvalid
| ErrTaprootOutputKeyParityMismatch
| ErrControlBlockTooSmall
| ErrControlBlockTooLarge
| ErrControlBlockInvalidLength
| ErrWitnessHasNoAnnex
| ErrInvalidTaprootSigLen
| ErrTaprootPubkeyIsEmpty
| ErrTaprootMaxSigOps
| ErrNonConstScriptCode
| ErrCodeSeparator.

#[global] Instance ErrorCode_eq_dec : EqDecision ErrorCode.
Proof. solve_decision. Defined.

Inductive Error : Set :=
| scriptError (c : ErrorCode)
| otherError.

#[global] Instance Error_eq_dec : EqDecision Error.
Proof. solve_decision. Defined.

(** [errors.As(err, &scriptErr)]. *)
Definition isScriptError (e : Error) : bool :=
  match e with scriptError _ => true | otherError => false end.

Definition IsErrorCode (e : Error) (c : ErrorCode) : bool :=
  match e with scriptError c' => bool_decide (c' = c) | otherError => false end.

(** Outcomes of functions of the package, and methods on a state [S]. *)
Abbreviation res := (outcome Error).
Abbreviation SM S := (M S Error).
