(* ===== verification/ScriptNum.v ===== *)
(** Script numbers (src/btcd/txscript/scriptnum.go): the little-endian
    sign-magnitude integers of the data stack.  A [scriptNum] is an int64; its
    wire form is a byte string.  The theorems relate [Bytes] and
    [MakeScriptNum]: they are inverse to each other on the minimal encodings,
    and the accepted range is the one the numeric opcodes rely on. *)
From S2P Require Import Prelude ScriptError.

Definition maxInt32 : Z := 2 ^ 31 - 1.
Definition minInt32 : Z := - 2 ^ 31.
Definition maxScriptNumLen : Z := 4.
Definition cltvMaxScriptNumLen : Z := 5.

Definition checkMinimalDataEncoding (v : bytes) : res unit :=
  if zlen v =? 0 then Ok tt else
  let! top := index v (zlen v - 1) in
  if Z.land (b2z top) 0x7f =? 0 then
    if zlen v =? 1 then Err (scriptError ErrMinimalData) else
    let! second := index v (zlen v - 2) in
    if Z.land (b2z second) 0x80 =? 0
    then Err (scriptError ErrMinimalData)
    else Ok tt
  else Ok tt.

(** [for n > 0 { result = append(result, byte(n&0xff)); n >>= 8 }].  A
    positive int64 has at most 8 bytes, so 8 rounds empty it. *)
Fixpoint bytes_loop (fuel : nat) (n : Z) (result : bytes) : bytes :=
  match fuel with
  | O => result
  | S fuel =>
      if 0 <? n
      then bytes_loop fuel (Z.shiftr n 8) (result ++ [z2b (Z.land n 0xff)])
      else result
  end.

(** The final byte of [result] updated to [f] of it. *)
Definition map_last (f : byte -> byte) (l : bytes) : bytes :=
  match last l with
  | Some x => take (length l - 1) l ++ [f x]
  | None => l
  end.

(** [scriptNum.Bytes].  [-n] wraps at the int64 minimum, where the loop does
    not run and [result[len(result)-1]] is out of range. *)
Definition Bytes (n : Z) : res bytes :=
  if n =? 0 then Ok [] else
  let isNegative := n <? 0 in
  let n := if isNegative then int64 (- n) else n in
  let result := bytes_loop 8 n [] in
  let! top := index result (zlen result - 1) in
  if negb (Z.land (b2z top) 0x80 =? 0)
  then Ok (result ++ [if isNegative then x80 else x00])
  else if isNegative
  then Ok (map_last (fun b => z2b (Z.lor (b2z b) 0x80)) result)
  else Ok result.

(** [scriptNum.Int32]: clamping, not truncation. *)
Definition Int32 (n : Z) : Z :=
  if n >? maxInt32 then maxInt32
  else if n <? minInt32 then minInt32
  else int32 n.

(** [for i, val := range v { result |= int64(val) << uint8(8*i) }] *)
Fixpoint decode_loop (i : Z) (v : bytes) (result : Z) : Z :=
  match v with
  | [] => result
  | val :: v =>
      decode_loop (i + 1) v
        (Z.lor result (int64 (Z.shiftl (b2z val) (uint8 (8 * i)))))
  end.

Definition MakeScriptNum (v : bytes) (requireMinimal : bool) (scriptNumLen : Z)
  : res Z :=
  if zlen v >? scriptNumLen then Err (scriptError ErrNumberTooBig) else
  let! _ := (if requireMinimal then checkMinimalDataEncoding v else Ok tt) in
  if zlen v =? 0 then Ok 0 else
  let result := decode_loop 0 v 0 in
  let! top := index v (zlen v - 1) in
  if negb (Z.land (b2z top) 0x80 =? 0) then
    let result := Z.land result
      (Z.lnot (int64 (Z.shiftl 0x80 (uint8 (8 * (zlen v - 1)))))) in
    Ok (int64 (- result))
  else Ok result.

(** * The meaning of an encoding

    [sm_val r t] is the integer a byte string [r ++ [t]] stands for: the
    magnitude in little endian, the sign in the top bit of the last byte. *)

Definition sm_val (r : bytes) (t : byte) : Z :=
  let m := le_val r + 256 ^ zlen r * (b2z t mod 128) in
  if 128 <=? b2z t then - m else m.

(** [r ++ [t]] is the shortest encoding of its value. *)
Definition sm_minimal (r : bytes) (t : byte) : bool :=
  negb (b2z t mod 128 =? 0) ||
  match last r with Some u => 128 <=? b2z u | None => false end.

Section Bits.
Lemma lor_shiftl_add a b k :
  0 <= k -> 0 <= a < 2 ^ k -> Z.lor a (Z.shiftl b k) = a + b * 2 ^ k.
Proof.
  intros Hk Ha. rewrite <- (Z.shiftl_mul_pow2 b k) by lia.
  rewrite <- Z.lxor_lor, Z.add_nocarry_lxor; [reflexivity | |];
  apply Z.bits_inj'; intros n Hn; rewrite Z.land_spec, Z.bits_0;
  (destruct (Z.lt_ge_cases n k) as [H | H];
   [ rewrite Z.shiftl_spec_low by lia; apply andb_false_r
   | destruct (Z.eq_dec a 0) as [-> |];
     [ now rewrite Z.bits_0
     | rewrite Z.bits_above_log2; [reflexivity | lia |];
       apply Z.log2_lt_pow2; [lia |];
       apply Z.lt_le_trans with (2 ^ k); [lia |];
       apply Z.pow_le_mono_r; lia ] ]).
Qed.

Lemma byte_hi_zero t : (Z.land (b2z t) 0x80 =? 0) = negb (128 <=? b2z t).
Proof. destruct t; reflexivity. Qed.

Lemma byte_lo_zero t : Z.land (b2z t) 0x7f = b2z t mod 128.
Proof. destruct t; reflexivity. Qed.

Lemma byte_set_hi t : b2z t < 128 -> b2z (z2b (Z.lor (b2z t) 0x80)) = b2z t + 128.
Proof. destruct t; intros H; vm_compute in H |- *; first [reflexivity | discriminate]. Qed.
End Bits.

Lemma index_snoc_last {E} (r : bytes) t :
  index (E := E) (r ++ [t]) (zlen (r ++ [t]) - 1) = Ok t.
Proof.
  unfold index. rewrite znth_app_r; autorewrite with zlen; [| lia].
  now replace (zlen r + (1 + 0) - 1 - zlen r) with 0 by lia.
Qed.

Lemma index_snoc_second {E} (r : bytes) t u :
  index (E := E) ((r ++ [u]) ++ [t]) (zlen ((r ++ [u]) ++ [t]) - 2) = Ok u.
Proof.
  unfold index. rewrite znth_app_l, znth_app_r; autorewrite with zlen; try lia.
  now replace (zlen r + (1 + 0) + (1 + 0) - 2 - zlen r) with 0 by lia.
Qed.

Lemma checkMinimalDataEncoding_snoc r t :
  checkMinimalDataEncoding (r ++ [t]) =
  if sm_minimal r t then Ok tt else Err (scriptError ErrMinimalData).
Proof.
  unfold checkMinimalDataEncoding, sm_minimal. pose proof (zlen_nonneg r).
  rewrite index_snoc_last. cbn [obind]. rewrite byte_lo_zero.
  replace (zlen (r ++ [t]) =? 0) with false
    by (autorewrite with zlen; symmetry; apply Z.eqb_neq; lia).
  destruct (Z.eqb_spec (b2z t mod 128) 0); [| done]. cbn [negb orb].
  destruct r as [|u r _] using rev_ind; [done |].
  rewrite last_snoc, index_snoc_second. cbn [obind]. rewrite byte_hi_zero.
  replace (zlen ((r ++ [u]) ++ [t]) =? 1) with false
    by (autorewrite with zlen; pose proof (zlen_nonneg r); symmetry; apply Z.eqb_neq; lia).
  now destruct (128 <=? b2z u).
Qed.

Lemma decode_loop_spec v : forall i acc,
  0 <= i -> i + zlen v <= 7 -> 0 <= acc < 256 ^ i ->
  decode_loop i v acc = acc + 256 ^ i * le_val v.
Proof.
  induction v as [|b v IH]; intros i acc Hi Hv Hacc; cbn [decode_loop le_val]; [lia |].
  rewrite zlen_cons in Hv. pose proof (zlen_nonneg v). pose proof (b2z_range b).
  assert (Hp : 2 ^ (8 * i) = 256 ^ i) by (rewrite Z.pow_mul_r by lia; reflexivity).
  assert (Hlt : 256 ^ i * 256 <= 2 ^ 56).
  { change (2 ^ 56) with (256 ^ 7). rewrite Z.mul_comm.
    replace (256 * 256 ^ i) with (256 ^ Z.succ i) by (rewrite Z.pow_succ_r; lia).
    apply Z.pow_le_mono_r; lia. }
  rewrite (wrapU_small 8) by lia.
  rewrite int64_small by (rewrite Z.shiftl_mul_pow2, Hp by lia; nia).
  rewrite lor_shiftl_add, Hp by lia.
  rewrite IH by (rewrite ?Z.pow_add_r by lia; nia).
  rewrite Z.pow_add_r by lia. lia.
Qed.

Lemma land_lnot_pow2 x k :
  0 <= k -> 0 <= x < 2 ^ k -> Z.land (x + 2 ^ k) (Z.lnot (2 ^ k)) = x.
Proof.
  intros Hk Hx. rewrite <- Z.ldiff_land, <- Z.sub_nocarry_ldiff; [lia |].
  apply Z.bits_inj'. intros n Hn.
  rewrite Z.ldiff_spec, Z.bits_0, Z.pow2_bits_eqb by lia.
  destruct (Z.eqb_spec k n) as [<- |]; [| done]. cbn.
  replace (x + 2 ^ k) with (x + 1 * 2 ^ k) by lia.
  rewrite <- lor_shiftl_add, Z.lor_spec, Z.shiftl_spec, Z.sub_diag by lia.
  now rewrite orb_true_r.
Qed.

Lemma le_val_snoc r t : le_val (r ++ [t]) = le_val r + 256 ^ zlen r * b2z t.
Proof. rewrite le_val_app. cbn [le_val]. lia. Qed.

(** What [MakeScriptNum] does on a non-empty string. *)
Lemma MakeScriptNum_snoc r t requireMinimal L :
  zlen r + 1 <= L -> L <= 7 ->
  MakeScriptNum (r ++ [t]) requireMinimal L =
  if requireMinimal && negb (sm_minimal r t) then Err (scriptError ErrMinimalData)
  else Ok (sm_val r t).
Proof.
  intros HL HL7. unfold MakeScriptNum. pose proof (zlen_nonneg r) as Hr.
  rewrite checkMinimalDataEncoding_snoc, index_snoc_last.
  assert (Hlen : zlen (r ++ [t]) = zlen r + 1) by (autorewrite with zlen; lia).
  rewrite Hlen. replace (zlen r + 1 >? L) with false by (symmetry; lia).
  replace (zlen r + 1 =? 0) with false by (symmetry; lia).
  enough (Hv : (if negb (Z.land (b2z t) 0x80 =? 0)
                then Ok (int64 (- Z.land (decode_loop 0 (r ++ [t]) 0)
                       (Z.lnot (int64 (Z.shiftl 0x80 (uint8 (8 * (zlen r + 1 - 1))))))))
                else Ok (decode_loop 0 (r ++ [t]) 0)) = Ok (E := Error) (sm_val r t)).
  { destruct requireMinimal, (sm_minimal r t); cbn [obind andb negb]; auto. }
  rewrite byte_hi_zero, negb_involutive.
  rewrite decode_loop_spec by (rewrite ?Hlen; lia).
  rewrite le_val_snoc, Z.pow_0_r, Z.mul_1_l, Z.add_0_l, Z.add_simpl_r.
  pose proof (b2z_range t) as Ht. pose proof (le_val_range r) as Hl.
  assert (Hp : 256 ^ zlen r <= 256 ^ 6) by (apply Z.pow_le_mono_r; lia).
  unfold sm_val. destruct (Z.leb_spec 128 (b2z t)) as [Hs | Hs];
    [| now rewrite (Z.mod_small (b2z t)) by lia].
  assert (Hm : b2z t mod 128 = b2z t - 128) by (symmetry; apply Zmod_unique with 1; lia).
  assert (Hk : 0x80 * 256 ^ zlen r = 2 ^ (8 * zlen r + 7)).
  { rewrite Z.pow_add_r, Z.pow_mul_r by lia. change (2 ^ 8) with 256. lia. }
  rewrite (wrapU_small 8), Z.shiftl_mul_pow2 by lia.
  replace (2 ^ (8 * zlen r)) with (256 ^ zlen r) by (rewrite Z.pow_mul_r by lia; reflexivity).
  rewrite (int64_small (_ * _)), Hk by lia.
  replace (le_val r + 256 ^ zlen r * b2z t)
    with ((le_val r + 256 ^ zlen r * (b2z t - 128)) + 2 ^ (8 * zlen r + 7)) by lia.
  rewrite land_lnot_pow2, Hm by nia.
  rewrite int64_small by nia. done.
Qed.

(** Two byte strings without a leading zero byte and of the same value agree. *)
Lemma le_val_top r t :
  b2z t <> 0 -> 256 ^ zlen r <= le_val (r ++ [t]) < 256 ^ (zlen r + 1).
Proof.
  intros Ht. pose proof (b2z_range t). pose proof (le_val_range r).
  rewrite le_val_snoc, Z.pow_add_r by auto using zlen_nonneg with lia. nia.
Qed.

Lemma le_val_unique r t r' t' :
  b2z t <> 0 -> b2z t' <> 0 -> le_val (r ++ [t]) = le_val (r' ++ [t']) ->
  r ++ [t] = r' ++ [t'].
Proof.
  intros Ht Ht' Heq.
  pose proof (le_val_top r t Ht) as H1. pose proof (le_val_top r' t' Ht') as H2.
  rewrite <- Heq in H2. pose proof (zlen_nonneg r). pose proof (zlen_nonneg r').
  assert (zlen r = zlen r') as Hlen.
  { destruct (Z.lt_trichotomy (zlen r) (zlen r')) as [Hc | [Hc | Hc]]; [| done |];
      (pose proof (Z.pow_le_mono_r 256 (zlen r + 1) (zlen r'));
       pose proof (Z.pow_le_mono_r 256 (zlen r' + 1) (zlen r)); lia). }
  rewrite <- (le_bytes_le_val (r ++ [t])), <- (le_bytes_le_val (r' ++ [t'])), Heq.
  f_equal. rewrite !length_app. unfold zlen in Hlen. cbn. lia.
Qed.

(** The loop of [Bytes] produces the shortest little-endian form. *)
Lemma bytes_loop_spec fuel : forall n acc,
  0 < n < 256 ^ Z.of_nat fuel ->
  exists r t, bytes_loop fuel n acc = acc ++ r ++ [t] /\ b2z t <> 0 /\
              le_val (r ++ [t]) = n.
Proof.
  induction fuel as [|fuel IH]; intros n acc Hn.
  - cbn in Hn. lia.
  - cbn [bytes_loop]. destruct (Z.ltb_spec 0 n); [| lia].
    rewrite Nat2Z.inj_succ, Z.pow_succ_r in Hn by lia.
    rewrite Z.shiftr_div_pow2 by lia. change (2 ^ 8) with 256.
    change 0xff with (Z.ones 8). rewrite Z.land_ones by lia. change (2 ^ 8) with 256.
    pose proof (Z.div_mod n 256 ltac:(lia)). pose proof (Z.mod_pos_bound n 256 ltac:(lia)).
    assert (0 <= n / 256) by (apply Z.div_pos; lia).
    destruct (Z.eq_dec (n / 256) 0) as [Hz | Hz].
    + exists [], (z2b (n mod 256)). rewrite Hz.
      assert (bytes_loop fuel 0 (acc ++ [z2b (n mod 256)]) = acc ++ [z2b (n mod 256)])
        as -> by now destruct fuel.
      cbn [app le_val]. rewrite b2z_z2b_small by lia. split_and!; [done | lia | lia].
    + destruct (IH (n / 256) (acc ++ [z2b (n mod 256)])) as (r & t & Heq & Ht & Hv); [lia |].
      exists (z2b (n mod 256) :: r), t. rewrite Heq. split_and!; [| done |].
      * rewrite <- !app_assoc. done.
      * cbn [app le_val]. rewrite Hv, b2z_z2b_small; lia.
Qed.

Lemma bytes_loop_top r t :
  b2z t <> 0 -> zlen r <= 7 -> bytes_loop 8 (le_val (r ++ [t])) [] = r ++ [t].
Proof.
  intros Ht Hr. pose proof (le_val_top r t Ht) as Hv. pose proof (zlen_nonneg r).
  assert (256 ^ (zlen r + 1) <= 256 ^ 8) by (apply Z.pow_le_mono_r; lia).
  assert (0 < 256 ^ zlen r) by (apply Z.pow_pos_nonneg; lia).
  destruct (bytes_loop_spec 8 (le_val (r ++ [t])) []) as (r' & t' & Heq & Ht' & Hv');
    [change (Z.of_nat 8) with 8; lia |].
  rewrite Heq. now apply le_val_unique.
Qed.

Lemma map_last_snoc f r t : map_last f (r ++ [t]) = r ++ [f t].
Proof.
  unfold map_last. rewrite last_snoc, length_app. cbn.
  now rewrite Nat.add_sub, take_app_length.
Qed.

(** [Bytes] on the value with magnitude [r ++ [t]] and sign [neg]. *)
Lemma Bytes_snoc (neg : bool) r t :
  b2z t <> 0 -> zlen r <= 7 -> le_val (r ++ [t]) < 2 ^ 63 ->
  Bytes (if neg then - le_val (r ++ [t]) else le_val (r ++ [t])) =
  Ok (if 128 <=? b2z t then (r ++ [t]) ++ [if neg then x80 else x00]
      else if neg then r ++ [z2b (Z.lor (b2z t) 0x80)] else r ++ [t]).
Proof.
  intros Ht Hr Hlt. pose proof (le_val_top r t Ht) as [Hv _].
  assert (0 < 256 ^ zlen r) by (apply Z.pow_pos_nonneg; auto using zlen_nonneg with lia).
  unfold Bytes.
  set (n := if neg then - le_val (r ++ [t]) else le_val (r ++ [t])).
  replace (n =? 0) with false by (symmetry; destruct neg; lia).
  replace (n <? 0) with neg by (destruct neg; symmetry; lia).
  replace (if neg then int64 (- n) else n) with (le_val (r ++ [t]))
    by (subst n; destruct neg; [rewrite Z.opp_involutive, int64_small by lia |]; done).
  rewrite bytes_loop_top, index_snoc_last by done. cbn [obind].
  rewrite byte_hi_zero, negb_involutive, map_last_snoc.
  now destruct (128 <=? b2z t), neg.
Qed.

Lemma sm_val_append_sign (neg : bool) r t :
  sm_val (r ++ [t]) (if neg then x80 else x00) =
  if neg then - le_val (r ++ [t]) else le_val (r ++ [t]).
Proof.
  unfold sm_val. destruct neg; cbn -[le_val Z.mul Z.pow];
    rewrite Z.mul_0_r, Z.add_0_r; reflexivity.
Qed.

Lemma sm_minimal_append_sign (neg : bool) r t :
  128 <= b2z t -> sm_minimal (r ++ [t]) (if neg then x80 else x00) = true.
Proof.
  intros Ht. unfold sm_minimal. rewrite last_snoc.
  apply orb_true_iff. right. now apply Z.leb_le.
Qed.

(** What a minimal encoding looks like: either the sign sits in a spare bit of
    the most significant magnitude byte, or in an extra byte. *)
Lemma sm_minimal_cases r t :
  sm_minimal r t = true ->
  (exists (neg : bool) u, b2z u <> 0 /\ b2z u < 128 /\
     t = (if neg then z2b (Z.lor (b2z u) 0x80) else u) /\
     sm_val r t = (if neg then - le_val (r ++ [u]) else le_val (r ++ [u]))) \/
  (exists (neg : bool) r' u, r = r' ++ [u] /\ 128 <= b2z u /\
     t = (if neg then x80 else x00) /\
     sm_val r t = (if neg then - le_val (r' ++ [u]) else le_val (r' ++ [u]))).
Proof.
  intros Hmin. pose proof (b2z_range t) as Ht.
  pose proof (Z.mod_pos_bound (b2z t) 128 ltac:(lia)) as Hm.
  pose proof (Z.div_mod (b2z t) 128 ltac:(lia)) as Hdm.
  destruct (Z.eq_dec (b2z t mod 128) 0) as [Hz | Hz].
  - right. unfold sm_minimal in Hmin. rewrite Hz in Hmin. cbn in Hmin.
    destruct r as [|u r _] using rev_ind; [done |].
    rewrite last_snoc in Hmin. apply Z.leb_le in Hmin.
    exists (128 <=? b2z t), r, u.
    assert (t = (if 128 <=? b2z t then x80 else x00)) as Heq.
    { apply b2z_inj. destruct (Z.leb_spec 128 (b2z t)); cbn; lia. }
    split_and!; [done | done | done |]. rewrite Heq at 1. apply sm_val_append_sign.
  - left. exists (128 <=? b2z t), (z2b (b2z t mod 128)).
    rewrite b2z_z2b_small by lia. split_and!; [done | lia | |].
    + apply b2z_inj. destruct (Z.leb_spec 128 (b2z t)).
      * rewrite <- (b2z_z2b_small (b2z t mod 128)), byte_set_hi, b2z_z2b_small by
          (rewrite ?b2z_z2b_small; lia). lia.
      * rewrite b2z_z2b_small; lia.
    + unfold sm_val. now rewrite le_val_snoc, b2z_z2b_small by lia.
Qed.

Lemma sm_val_range r t : Z.abs (sm_val r t) < 2 ^ (8 * (zlen r + 1) - 1).
Proof.
  pose proof (le_val_range r). pose proof (zlen_nonneg r).
  pose proof (Z.mod_pos_bound (b2z t) 128 ltac:(lia)).
  replace (2 ^ (8 * (zlen r + 1) - 1)) with (256 ^ zlen r * 128).
  - unfold sm_val. destruct (128 <=? b2z t); rewrite ?Z.abs_opp, Z.abs_eq; nia.
  - replace (8 * (zlen r + 1) - 1) with (8 * zlen r + 7) by lia.
    rewrite Z.pow_add_r, Z.pow_mul_r by lia. reflexivity.
Qed.

(** [MakeScriptNum] in full: the length check, the minimality check and the
    decoded value; it never panics on the lengths the engine admits. *)
Lemma MakeScriptNum_eq v requireMinimal L :
  L <= 7 ->
  MakeScriptNum v requireMinimal L =
  if zlen v >? L then Err (scriptError ErrNumberTooBig) else
  match last v with
  | None => Ok 0
  | Some t =>
      let r := take (length v - 1) v in
      if requireMinimal && negb (sm_minimal r t)
      then Err (scriptError ErrMinimalData) else Ok (sm_val r t)
  end.
Proof.
  intros HL. destruct (Z.gtb_spec (zlen v) L) as [Hl | Hl].
  { unfold MakeScriptNum. now rewrite (proj2 (Z.gtb_lt _ _)) by lia. }
  destruct v as [|t r _] using rev_ind.
  - unfold MakeScriptNum. rewrite zlen_nil in *.
    replace (0 >? L) with false by (symmetry; lia).
    now destruct requireMinimal.
  - rewrite last_snoc, length_app. cbn [length]. rewrite Nat.add_sub, take_app_length.
    apply MakeScriptNum_snoc; [| done].
    revert Hl. autorewrite with zlen. lia.
Qed.

(** A magnitude below [2^(8L-1)] fits [L] bytes with its sign. *)
Lemma magnitude_fits r t L :
  b2z t <> 0 -> 1 <= L -> le_val (r ++ [t]) < 2 ^ (8 * L - 1) ->
  zlen r + (if 128 <=? b2z t then 2 else 1) <= L.
Proof.
  intros Ht HL Hlt. pose proof (zlen_nonneg r). pose proof (le_val_range r).
  pose proof (b2z_range t). rewrite le_val_snoc in Hlt.
  apply Z.nlt_ge. intros Hc.
  assert (2 ^ (8 * L - 1) <= 256 ^ zlen r * (if 128 <=? b2z t then 128 else 1)).
  { destruct (128 <=? b2z t).
    - change 128 with (2 ^ 7). change 256 with (2 ^ 8).
      rewrite <- Z.pow_mul_r, <- Z.pow_add_r by lia. apply Z.pow_le_mono_r; lia.
    - change 256 with (2 ^ 8).
      rewrite <- Z.pow_mul_r, Z.mul_1_r by lia. apply Z.pow_le_mono_r; lia. }
  destruct (Z.leb_spec 128 (b2z t)); nia.
Qed.

(** Decoding what [Bytes_snoc] says [Bytes] produces. *)
Lemma MakeScriptNum_encoded (neg : bool) r t L :
  b2z t <> 0 -> L <= 7 -> zlen r + (if 128 <=? b2z t then 2 else 1) <= L ->
  MakeScriptNum
    (if 128 <=? b2z t then (r ++ [t]) ++ [if neg then x80 else x00]
     else if neg then r ++ [z2b (Z.lor (b2z t) 0x80)] else r ++ [t]) true L =
  Ok (if neg then - le_val (r ++ [t]) else le_val (r ++ [t])).
Proof.
  intros Ht HL Hlen. pose proof (b2z_range t).
  destruct (Z.leb_spec 128 (b2z t)) as [Hhi | Hlow].
  { rewrite MakeScriptNum_snoc by (autorewrite with zlen; lia).
    now rewrite sm_minimal_append_sign, sm_val_append_sign by lia. }
  assert (Hmin : forall u, b2z u mod 128 = b2z t -> sm_minimal r u = true).
  { intros u Hu. unfold sm_minimal. rewrite Hu.
    now replace (b2z t =? 0) with false by (symmetry; lia). }
  pose proof (byte_set_hi t Hlow) as Hset.
  destruct neg; rewrite MakeScriptNum_snoc by lia.
  - assert (Hu : b2z (z2b (Z.lor (b2z t) 0x80)) mod 128 = b2z t)
      by (rewrite Hset; symmetry; apply Zmod_unique with 1; lia).
    rewrite Hmin by done. cbn [andb negb]. unfold sm_val. rewrite Hu, Hset.
    rewrite (proj2 (Z.leb_le _ _)) by lia. now rewrite <- le_val_snoc.
  - assert (Hu : b2z t mod 128 = b2z t) by (apply Z.mod_small; lia).
    rewrite Hmin by done. cbn [andb negb]. unfold sm_val. rewrite Hu.
    rewrite (proj2 (Z.leb_gt _ _)) by lia. now rewrite <- le_val_snoc.
Qed.

(** Every non-zero number has a sign and a top magnitude byte. *)
Lemma magnitude_of n :
  n <> 0 -> Z.abs n < 2 ^ 63 ->
  exists (neg : bool) r t, b2z t <> 0 /\ zlen r <= 7 /\ le_val (r ++ [t]) = Z.abs n /\
    n = if neg then - le_val (r ++ [t]) else le_val (r ++ [t]).
Proof.
  intros Hnz Hn.
  destruct (bytes_loop_spec 8 (Z.abs n) []) as (r & t & _ & Ht & Hv);
    [change (256 ^ Z.of_nat 8) with (2 ^ 64); lia |].
  exists (n <? 0), r, t. split_and!; [done | | done |].
  - pose proof (le_val_top r t Ht) as [Hlo _]. apply Z.nlt_ge. intros Hc.
    assert (256 ^ 8 <= 256 ^ zlen r) by (apply Z.pow_le_mono_r; lia). lia.
  - destruct (Z.ltb_spec n 0); lia.
Qed.

Lemma Bytes_Ok n : Z.abs n < 2 ^ 63 -> exists v, Bytes n = Ok v.
Proof.
  intros Hn. destruct (Z.eq_dec n 0) as [-> | Hnz]; [now exists [] |].
  destruct (magnitude_of n Hnz Hn) as (neg & r & t & Ht & Hr & Hv & ->).
  rewrite Bytes_snoc by (try done; lia). eauto.
Qed.

Lemma Bytes_minimal r t :
  zlen r <= 6 -> sm_minimal r t = true -> Bytes (sm_val r t) = Ok (r ++ [t]).
Proof.
  intros Hr Hmin. pose proof (zlen_nonneg r).
  assert (Hp : forall k, k <= 7 -> 256 ^ k <= 2 ^ 56)
    by (intros; change (2 ^ 56) with (256 ^ 7); apply Z.pow_le_mono_r; lia).
  destruct (sm_minimal_cases r t Hmin)
    as [(neg & u & Hu & Hu2 & -> & ->) | (neg & r' & u & -> & Hu & -> & ->)].
  - pose proof (le_val_top r u Hu). pose proof (Hp (zlen r + 1) ltac:(lia)).
    rewrite Bytes_snoc by (try done; lia).
    rewrite (proj2 (Z.leb_gt _ _)) by lia. now destruct neg.
  - assert (b2z u <> 0) as Hnz by lia. revert Hr. autorewrite with zlen. intros Hr.
    pose proof (le_val_top r' u Hnz). pose proof (Hp (zlen r' + 1) ltac:(lia)).
    rewrite Bytes_snoc by (try done; lia).
    now rewrite (proj2 (Z.leb_le _ _)) by lia.
Qed.

Lemma MakeScriptNum_range v requireMinimal L n :
  1 <= L <= 7 -> MakeScriptNum v requireMinimal L = Ok n ->
  Z.abs n < 2 ^ (8 * L - 1).
Proof.
  intros HL. rewrite MakeScriptNum_eq by lia.
  destruct (Z.gtb_spec (zlen v) L) as [|Hl]; [done |].
  destruct v as [|t r _] using rev_ind.
  - intros [= <-]. rewrite Z.abs_0. apply Z.pow_pos_nonneg; lia.
  - rewrite last_snoc, length_app. cbn [length]. rewrite Nat.add_sub, take_app_length.
    cbn zeta. destruct (_ && _); [done |]. intros [= <-].
    revert Hl. autorewrite with zlen. intros Hl.
    pose proof (sm_val_range r t). pose proof (zlen_nonneg r).
    assert (2 ^ (8 * (zlen r + 1) - 1) <= 2 ^ (8 * L - 1)); [| lia].
    apply Z.pow_le_mono_r; lia.
Qed.

Lemma Bytes_roundtrip n L :
  1 <= L <= 7 -> Z.abs n < 2 ^ (8 * L - 1) ->
  exists v, Bytes n = Ok v /\ zlen v <= L /\ MakeScriptNum v true L = Ok n.
Proof.
  intros HL Hn. destruct (Z.eq_dec n 0) as [-> | Hnz].
  { exists []. split_and!; [done | rewrite zlen_nil; lia |].
    rewrite MakeScriptNum_eq, zlen_nil by lia.
    now replace (0 >? L) with false by (symmetry; lia). }
  assert (Hp : 2 ^ (8 * L - 1) <= 2 ^ 55) by (apply Z.pow_le_mono_r; lia).
  destruct (magnitude_of n Hnz ltac:(lia)) as (neg & r & t & Ht & Hr & Hv & ->).
  pose proof (magnitude_fits r t L Ht ltac:(lia) ltac:(lia)) as Hfit.
  rewrite Bytes_snoc by lia. eexists. split; [reflexivity |]. split.
  - revert Hfit. destruct (128 <=? b2z t), neg; autorewrite with zlen; lia.
  - now apply MakeScriptNum_encoded.
Qed.

(** * Theorems *)

Lemma MakeScriptNum_canonical v L n :
  L <= 7 -> MakeScriptNum v true L = Ok n -> Bytes n = Ok v.
Proof.
  intros HL. rewrite MakeScriptNum_eq by done.
  destruct (Z.gtb_spec (zlen v) L) as [|Hl]; [done |].
  destruct v as [|t r _] using rev_ind; [now intros [= <-] |].
  rewrite last_snoc, length_app. cbn [length]. rewrite Nat.add_sub, take_app_length.
  cbn zeta. destruct (sm_minimal r t) eqn:Hmin; [| done]. intros [= <-].
  apply Bytes_minimal; [| done]. revert Hl. autorewrite with zlen. lia.
Qed.

(** Every number that fits [L] bytes survives encoding with [Bytes] and
    decoding with [MakeScriptNum] under the minimal-encoding rule, and its
    encoding respects the length limit of [L] bytes (4 for numeric opcodes, 5
    for the lock-time opcodes).  The minimal encoding is unique: a string
    accepted by [MakeScriptNum] under that rule is exactly what [Bytes] prints
    for its value, so no two accepted strings denote the same number. *)
Lemma scriptNum_roundtrip :
  (forall n L, 1 <= L <= 7 -> Z.abs n < 2 ^ (8 * L - 1) ->
     exists v, Bytes n = Ok v /\ zlen v <= L /\ MakeScriptNum v true L = Ok n) /\
  (forall v L n, L <= 7 -> MakeScriptNum v true L = Ok n -> Bytes n = Ok v).
Proof. split; [exact Bytes_roundtrip | exact MakeScriptNum_canonical]. Qed.

Lemma scriptNum_roundtrip_witness :
  (exists v, Bytes (-255) = Ok v /\ zlen v <= 4 /\ MakeScriptNum v true 4 = Ok (-255)) /\
  Bytes (-255) = Ok [xff; x80].
Proof.
  split.
  - apply (proj1 scriptNum_roundtrip (-255) 4); vm_compute; split; congruence || reflexivity.
  - apply (proj2 scriptNum_roundtrip [xff; x80] 4 (-255)); [lia | reflexivity].
Defined.
