(* ===== verification/Stack.v ===== *)
(** The data stack of the script engine (src/btcd/txscript/stack.go).  The
    state is the Go slice with the top item at its end, and every method is a
    state transformer that keeps whatever it had already popped or pushed when
    it fails.  The second half of the file gives the abstract stack (a list
    with the top item first) and proves that each method implements the
    transformation its Go comment documents. *)
From S2P Require Import Prelude ScriptError ScriptNum.

(** [for i := range t { if t[i] != 0 { ... } }] *)
Fixpoint asBool (t : bytes) : bool :=
  match t with
  | [] => false
  | b :: rest =>
      if negb (b2z b =? 0)
      then negb (bool_decide (rest = []) && (b2z b =? 0x80))
      else asBool rest
  end.

Definition fromBool (v : bool) : bytes := if v then [x01] else [].

Record stack : Type := mkStack {
  stk : list bytes;
  verifyMinimalData : bool;
}.

Definition set_stk (l : list bytes) (s : stack) : stack :=
  mkStack l (verifyMinimalData s).

Definition Depth (s : stack) : Z := int32 (zlen (stk s)).

Definition PushByteArray (so : bytes) : SM stack unit :=
  modify (fun s => set_stk (stk s ++ [so]) s).

Definition PushInt (val : Z) : SM stack unit :=
  b <- lift (Bytes val);;
  PushByteArray b.

Definition PushBool (val : bool) : SM stack unit := PushByteArray (fromBool val).

Definition PeekByteArray (idx : Z) : SM stack bytes :=
  s <- get;;
  let sz := int32 (zlen (stk s)) in
  if (idx <? 0) || (idx >=? sz) then fail (scriptError ErrInvalidStackOperation)
  else lift (index (stk s) (int32 (sz - idx - 1))).

(** [nipN]: remove and return the item [idx] below the top.  The three slice
    manipulations of the source are kept apart. *)
Definition nipN (idx : Z) : SM stack bytes :=
  s <- get;;
  let sz := int32 (zlen (stk s)) in
  if (idx <? 0) || (idx >? int32 (sz - 1))
  then fail (scriptError ErrInvalidStackOperation) else
  so <- lift (index (stk s) (int32 (sz - idx - 1)));;
  (if idx =? 0 then put (set_stk (ztake (sz - 1) (stk s)) s)
   else if idx =? sz - 1 then put (set_stk (zdrop 1 (stk s)) s)
   else let s1 := zdrop (sz - idx) (stk s) in
        put (set_stk (ztake (sz - idx - 1) (stk s) ++ s1) s));;
  ret so.

Definition PopByteArray : SM stack bytes := nipN 0.

Definition PopInt : SM stack Z :=
  so <- PopByteArray;;
  s <- get;;
  lift (MakeScriptNum so (verifyMinimalData s) maxScriptNumLen).

Definition PopBool : SM stack bool :=
  so <- PopByteArray;;
  ret (asBool so).

Definition PeekInt (idx : Z) : SM stack Z :=
  so <- PeekByteArray idx;;
  s <- get;;
  lift (MakeScriptNum so (verifyMinimalData s) maxScriptNumLen).

Definition PeekBool (idx : Z) : SM stack bool :=
  so <- PeekByteArray idx;;
  ret (asBool so).

Definition NipN (idx : Z) : SM stack unit := nipN idx;; ret tt.

Definition Tuck : SM stack unit :=
  so2 <- PopByteArray;;
  so1 <- PopByteArray;;
  PushByteArray so2;;
  PushByteArray so1;;
  PushByteArray so2.

(** [for i := n; i > 0; i-- { body }] *)
Fixpoint times (n : nat) (body : SM stack unit) : SM stack unit :=
  match n with
  | O => ret tt
  | S n => body;; times n body
  end.

Definition DropN (n : Z) : SM stack unit :=
  guard (n <? 1) (scriptError ErrInvalidStackOperation);;
  times (Z.to_nat n) (PopByteArray;; ret tt).

Definition DupN (n : Z) : SM stack unit :=
  guard (n <? 1) (scriptError ErrInvalidStackOperation);;
  times (Z.to_nat n) (so <- PeekByteArray (n - 1);; PushByteArray so).

Definition RotN (n : Z) : SM stack unit :=
  guard (n <? 1) (scriptError ErrInvalidStackOperation);;
  let entry := int32 (3 * n - 1) in
  times (Z.to_nat n) (so <- nipN entry;; PushByteArray so).

Definition SwapN (n : Z) : SM stack unit :=
  guard (n <? 1) (scriptError ErrInvalidStackOperation);;
  let entry := int32 (2 * n - 1) in
  times (Z.to_nat n) (so <- nipN entry;; PushByteArray so).

Definition OverN (n : Z) : SM stack unit :=
  guard (n <? 1) (scriptError ErrInvalidStackOperation);;
  let entry := int32 (2 * n - 1) in
  times (Z.to_nat n) (so <- PeekByteArray entry;; PushByteArray so).

Definition PickN (n : Z) : SM stack unit :=
  so <- PeekByteArray n;;
  PushByteArray so.

Definition RollN (n : Z) : SM stack unit :=
  so <- nipN n;;
  PushByteArray so.

(** [getStack] of engine.go: the contents bottom up, read item by item. *)
Definition getStack (s : stack) : list bytes :=
  map (fun k => match fst (PeekByteArray (Depth s - Z.of_nat k - 1) s) with
                | Ok so => so
                | _ => []
                end)
      (seq 0 (Z.to_nat (Depth s))).

(** [setStack] of engine.go.  It ignores the error [DropN] reports when the
    stack is empty. *)
Fixpoint push_all (data : list bytes) : SM stack unit :=
  match data with
  | [] => ret tt
  | x :: data => PushByteArray x;; push_all data
  end.

Definition setStack (data : list bytes) : SM stack unit :=
  s <- get;;
  ignore_err (DropN (Depth s));;
  push_all data.

(** * The abstract stack

    [St l f] is the stack whose items are [l], top first. *)

Definition St (l : list bytes) (f : bool) : stack := mkStack (reverse l) f.

Definition abs (s : stack) : list bytes := reverse (stk s).

(** Small enough for an int32 depth. *)
Definition fits (l : list bytes) : Prop := zlen l < 2 ^ 31.

Lemma St_abs s : s = St (abs s) (verifyMinimalData s).
Proof. destruct s. unfold St, abs. cbn [stk verifyMinimalData]. now rewrite reverse_involutive. Qed.

Lemma abs_St l f : abs (St l f) = l.
Proof. apply reverse_involutive. Qed.

Lemma zlen_reverse {A} (l : list A) : zlen (reverse l) = zlen l.
Proof. unfold zlen. now rewrite length_reverse. Qed.

Lemma znth_reverse {A} (l : list A) i :
  0 <= i < zlen l -> znth (reverse l) (zlen l - i - 1) = znth l i.
Proof.
  intros Hi. unfold znth, zlen in *. rewrite !decide_True by lia.
  rewrite reverse_lookup by lia. f_equal. lia.
Qed.

Lemma znth_None {A} (l : list A) i : i < 0 \/ zlen l <= i -> znth l i = None.
Proof.
  intros Hi. unfold znth, zlen in *. case_decide; [| done].
  apply lookup_ge_None. lia.
Qed.

Lemma Depth_St l f : fits l -> Depth (St l f) = zlen l.
Proof.
  intros Hl. unfold Depth, St, fits in *. cbn [stk]. rewrite zlen_reverse.
  pose proof (zlen_nonneg l). apply int32_small. lia.
Qed.

Lemma PushByteArray_St x l f : PushByteArray x (St l f) = (Ok tt, St (x :: l) f).
Proof. unfold PushByteArray, modify, St, set_stk. cbn [stk verifyMinimalData]. now rewrite reverse_cons. Qed.

Lemma PeekByteArray_St idx l f :
  fits l ->
  PeekByteArray idx (St l f) =
  (match znth l idx with
   | Some x => Ok x
   | None => Err (scriptError ErrInvalidStackOperation)
   end, St l f).
Proof.
  intros Hl. pose proof (Depth_St l f Hl) as Hd. pose proof (zlen_nonneg l).
  unfold PeekByteArray, bind, get. unfold Depth in Hd. rewrite Hd.
  unfold fits in Hl.
  destruct (Z.ltb_spec idx 0); cbn [orb]; [now rewrite znth_None by lia |].
  destruct (Z.geb_spec idx (zlen l)); [now rewrite znth_None by lia |].
  unfold lift, index. rewrite int32_small by lia. cbn [St stk].
  rewrite znth_reverse by lia. now destruct (znth_in_range l idx) as [x ->]; [lia |].
Qed.

Lemma reverse_delete {A} (l : list A) (i : nat) :
  (i < length l)%nat ->
  reverse (delete i l) =
  take (length l - i - 1) (reverse l) ++ drop (length l - i) (reverse l).
Proof.
  intros Hi. rewrite delete_take_drop, reverse_app, reverse_drop, reverse_take.
  do 2 f_equal. lia.
Qed.

Lemma nipN_St idx l f :
  fits l ->
  nipN idx (St l f) =
  match znth l idx with
  | Some x => (Ok x, St (delete (Z.to_nat idx) l) f)
  | None => (Err (scriptError ErrInvalidStackOperation), St l f)
  end.
Proof.
  intros Hl. pose proof (Depth_St l f Hl) as Hd. pose proof (zlen_nonneg l).
  unfold nipN, bind, get. unfold Depth in Hd. rewrite Hd. unfold fits in Hl.
  rewrite int32_small by lia.
  destruct (Z.ltb_spec idx 0); cbn [orb]; [now rewrite znth_None by lia |].
  destruct (Z.gtb_spec idx (zlen l - 1)); [now rewrite znth_None by lia |].
  unfold lift, index. rewrite int32_small by lia. cbn [St stk].
  rewrite znth_reverse by lia. destruct (znth_in_range l idx) as [x ->]; [lia |].
  unfold zlen in *.
  assert (Hdel := reverse_delete l (Z.to_nat idx) ltac:(lia)).
  unfold put, ret, St, set_stk, ztake, zdrop. cbn [stk verifyMinimalData].
  destruct (Z.eqb_spec idx 0) as [-> |]; [| destruct (Z.eqb_spec idx (Z.of_nat (length l) - 1))].
  - rewrite Hdel. rewrite drop_ge by (rewrite length_reverse; lia).
    rewrite app_nil_r. do 3 f_equal; lia.
  - rewrite Hdel. replace (length l - Z.to_nat idx - 1)%nat with 0%nat by lia.
    replace (length l - Z.to_nat idx)%nat with 1%nat by lia. done.
  - rewrite Hdel. do 3 f_equal; f_equal; lia.
Qed.

(** Repeatedly moving item [m - 1] to the top brings the deepest of the first
    [m] items up in order: the loop of [RotN], [SwapN] and [RollN]. *)
Lemma times_nip_push q : forall p rest f,
  fits (p ++ q ++ rest) ->
  times (length q) (so <- nipN (zlen p + zlen q - 1);; PushByteArray so)
    (St (p ++ q ++ rest) f) = (Ok tt, St (q ++ p ++ rest) f).
Proof.
  induction q as [|x q IH] using rev_ind; intros p rest f Hfit; [done |].
  rewrite length_app, Nat.add_comm. cbn [length Nat.add times].
  rewrite !bind_eq. rewrite nipN_St by done.
  rewrite <- app_assoc. cbn [app]. rewrite app_assoc.
  rewrite (znth_app_exact (p ++ q) rest x) by (autorewrite with zlen; lia).
  replace (Z.to_nat _) with (length (p ++ q))
    by (autorewrite with zlen; unfold zlen; rewrite length_app; lia).
  rewrite delete_middle, PushByteArray_St, <- app_assoc.
  replace (zlen p + zlen (q ++ [x]) - 1) with (zlen (x :: p) + zlen q - 1)
    by (autorewrite with zlen; lia).
  change (x :: p ++ q ++ rest) with ((x :: p) ++ q ++ rest).
  rewrite (IH (x :: p) rest f); [by rewrite <- app_assoc |].
  revert Hfit. unfold fits. autorewrite with zlen. lia.
Qed.

(** Repeatedly pushing a copy of item [m - 1] copies a block to the top: the
    loop of [DupN], [OverN] and [PickN]. *)
Lemma times_peek_push q : forall p rest f,
  fits (q ++ p ++ q ++ rest) ->
  times (length q) (so <- PeekByteArray (zlen p + zlen q - 1);; PushByteArray so)
    (St (p ++ q ++ rest) f) = (Ok tt, St (q ++ p ++ q ++ rest) f).
Proof.
  induction q as [|x q IH] using rev_ind; intros p rest f Hfit; [done |].
  rewrite length_app, Nat.add_comm. cbn [length Nat.add times].
  assert (Hfit' : fits (p ++ (q ++ [x]) ++ rest))
    by (revert Hfit; unfold fits; autorewrite with zlen; pose proof (zlen_nonneg q); lia).
  rewrite !bind_eq, PeekByteArray_St by done.
  rewrite <- (app_assoc q). cbn [app]. rewrite app_assoc.
  rewrite (znth_app_exact (p ++ q) rest x) by (autorewrite with zlen; lia).
  rewrite PushByteArray_St, <- app_assoc.
  replace (zlen p + zlen (q ++ [x]) - 1) with (zlen (x :: p) + zlen q - 1)
    by (autorewrite with zlen; lia).
  change (x :: p ++ q ++ x :: rest) with ((x :: p) ++ q ++ x :: rest).
  rewrite (IH (x :: p) (x :: rest) f); [by rewrite <- app_assoc |].
  revert Hfit. unfold fits. autorewrite with zlen. lia.
Qed.

Lemma times_pop q : forall rest f,
  fits (q ++ rest) ->
  times (length q) (PopByteArray;; ret tt) (St (q ++ rest) f) = (Ok tt, St rest f).
Proof.
  induction q as [|x q IH]; intros rest f Hfit; [done |].
  cbn [length times app]. rewrite !bind_eq. unfold PopByteArray.
  rewrite nipN_St by done. change (znth (x :: q ++ rest) 0) with (Some x).
  apply IH. revert Hfit. unfold fits. autorewrite with zlen. lia.
Qed.

Lemma times_pop_underflow n : forall l f,
  fits l -> zlen l < Z.of_nat n ->
  times n (PopByteArray;; ret tt) (St l f) =
  (Err (scriptError ErrInvalidStackOperation), St [] f).
Proof.
  induction n as [|n IH]; intros l f Hfit Hl; [pose proof (zlen_nonneg l); lia |].
  cbn [times]. rewrite !bind_eq. unfold PopByteArray. rewrite nipN_St by done.
  destruct l as [|x l]; [done |]. change (znth (x :: l) 0) with (Some x).
  change (delete (Z.to_nat 0) (x :: l)) with l. cbn [ret].
  apply IH; revert Hfit Hl; unfold fits; autorewrite with zlen; lia.
Qed.

(** * Specification and refinement

    The stack operations as a small instruction set, with the documented
    meaning of each on the list of items, top first.  [None] is an error. *)

Inductive stack_op : Type :=
| SPush (x : bytes) | STuck
| SNip (n : Z) | SPick (n : Z) | SRoll (n : Z)
| SDrop (n : Z) | SDup (n : Z) | SOver (n : Z) | SRot (n : Z) | SSwap (n : Z).

Definition run_op (op : stack_op) : SM stack unit :=
  match op with
  | SPush x => PushByteArray x
  | STuck => Tuck
  | SNip n => NipN n
  | SPick n => PickN n
  | SRoll n => RollN n
  | SDrop n => DropN n
  | SDup n => DupN n
  | SOver n => OverN n
  | SRot n => RotN n
  | SSwap n => SwapN n
  end.

(** Items the operation needs on the stack, and the smallest valid argument. *)
Definition op_needs (op : stack_op) : Z :=
  match op with
  | SPush _ => 0
  | STuck => 2
  | SNip n | SPick n | SRoll n => n + 1
  | SDrop n | SDup n => n
  | SOver n | SSwap n => 2 * n
  | SRot n => 3 * n
  end.

Definition op_valid (op : stack_op) : bool :=
  match op with
  | SPush _ | STuck => true
  | SNip n | SPick n | SRoll n => 0 <=? n
  | SDrop n | SDup n | SOver n | SRot n | SSwap n => 1 <=? n
  end.

Definition op_result (op : stack_op) (l : list bytes) : list bytes :=
  match op with
  | SPush x => x :: l
  | STuck => match l with x2 :: x1 :: r => x2 :: x1 :: x2 :: r | _ => l end
  | SNip n => ztake n l ++ zdrop (n + 1) l
  | SPick n => ztake 1 (zdrop n l) ++ l
  | SRoll n => ztake 1 (zdrop n l) ++ ztake n l ++ zdrop (n + 1) l
  | SDrop n => zdrop n l
  | SDup n => ztake n l ++ l
  | SOver n => ztake n (zdrop n l) ++ l
  | SRot n => ztake n (zdrop (2 * n) l) ++ ztake (2 * n) l ++ zdrop (3 * n) l
  | SSwap n => ztake n (zdrop n l) ++ ztake n l ++ zdrop (2 * n) l
  end.

Definition op_spec (op : stack_op) (l : list bytes) : option (list bytes) :=
  if op_valid op && (op_needs op <=? zlen l) then Some (op_result op l) else None.

(** A list split at the counts an operation uses. *)
Lemma split_block (l : list bytes) n :
  0 <= n <= zlen l ->
  l = ztake n l ++ zdrop n l /\ zlen (ztake n l) = n /\
  length (ztake n l) = Z.to_nat n /\ zlen (zdrop n l) = zlen l - n.
Proof.
  intros Hn. split_and!.
  - symmetry. apply ztake_zdrop.
  - now apply zlen_ztake.
  - pose proof (zlen_ztake n l Hn). unfold zlen in *. lia.
  - now apply zlen_zdrop.
Qed.

Lemma zdrop_zdrop {A} i j (l : list A) :
  0 <= i -> 0 <= j -> zdrop i (zdrop j l) = zdrop (i + j) l.
Proof. intros. unfold zdrop. rewrite drop_drop. f_equal. lia. Qed.

Lemma times_fail n e l f (body : SM stack unit) :
  0 < n -> body (St l f) = (Err e, St l f) ->
  times (Z.to_nat n) body (St l f) = (Err e, St l f).
Proof.
  intros Hn Hb. destruct (Z.to_nat n) eqn:?; [lia |].
  cbn [times]. now rewrite bind_eq, Hb.
Qed.

Section OpLemmas.
Context (f : bool).

Lemma RotSwap_spec (m n : Z) l :
  1 <= n <= m -> m < 2 ^ 31 -> fits l -> m <= zlen l ->
  times (Z.to_nat n) (so <- nipN (int32 (m - 1));; PushByteArray so) (St l f) =
  (Ok tt, St (ztake n (zdrop (m - n) l) ++ ztake (m - n) l ++ zdrop m l) f).
Proof.
  intros Hn Hm Hl Hlen. rewrite int32_small by lia.
  destruct (split_block l (m - n)) as (E1 & L1 & _ & L2); [lia |].
  destruct (split_block (zdrop (m - n) l) n) as (E2 & L3 & L4 & _); [lia |].
  rewrite zdrop_zdrop in E2 by lia. replace (n + (m - n)) with m in E2 by lia.
  rewrite <- L4. replace (m - 1) with
    (zlen (ztake (m - n) l) + zlen (ztake n (zdrop (m - n) l)) - 1) by lia.
  assert (El : St l f = St (ztake (m - n) l ++ ztake n (zdrop (m - n) l) ++ zdrop m l) f)
    by (rewrite <- E2, <- E1; done).
  rewrite El. apply times_nip_push. now rewrite <- E2, <- E1.
Qed.

Lemma DupOver_spec (m n : Z) l idx :
  1 <= n <= m -> m < 2 ^ 31 -> zlen l + n < 2 ^ 31 -> m <= zlen l -> idx = m - 1 ->
  times (Z.to_nat n) (so <- PeekByteArray idx;; PushByteArray so) (St l f) =
  (Ok tt, St (ztake n (zdrop (m - n) l) ++ l) f).
Proof.
  intros Hn Hm Hl Hlen ->.
  destruct (split_block l (m - n)) as (E1 & L1 & _ & L2); [lia |].
  destruct (split_block (zdrop (m - n) l) n) as (E2 & L3 & L4 & _); [lia |].
  rewrite zdrop_zdrop in E2 by lia. replace (n + (m - n)) with m in E2 by lia.
  rewrite <- L4. replace (m - 1) with
    (zlen (ztake (m - n) l) + zlen (ztake n (zdrop (m - n) l)) - 1) by lia.
  assert (El : l = ztake (m - n) l ++ ztake n (zdrop (m - n) l) ++ zdrop m l)
    by (rewrite <- E2; done).
  pose proof (times_peek_push (ztake n (zdrop (m - n) l)) (ztake (m - n) l) (zdrop m l) f)
    as H. rewrite <- El in H. apply H.
  unfold fits. rewrite zlen_app. lia.
Qed.

Lemma nipN_short n l :
  fits l -> n < 0 \/ zlen l <= n ->
  nipN n (St l f) = (Err (scriptError ErrInvalidStackOperation), St l f).
Proof. intros Hl Hn. now rewrite nipN_St, znth_None. Qed.

Lemma Peek_short n l :
  fits l -> n < 0 \/ zlen l <= n ->
  PeekByteArray n (St l f) = (Err (scriptError ErrInvalidStackOperation), St l f).
Proof. intros Hl Hn. now rewrite PeekByteArray_St, znth_None. Qed.

Lemma znth_take_drop n (l : list bytes) :
  0 <= n < zlen l ->
  exists x, znth l n = Some x /\ ztake 1 (zdrop n l) = [x] /\
            delete (Z.to_nat n) l = ztake n l ++ zdrop (n + 1) l.
Proof.
  intros Hn. destruct (znth_in_range l n Hn) as [x Hx]. exists x. split; [done |].
  unfold znth in Hx. rewrite decide_True in Hx by lia.
  unfold ztake, zdrop. rewrite (drop_S l x (Z.to_nat n)) by done. cbn. split; [done |].
  rewrite delete_take_drop. do 2 f_equal. lia.
Qed.
End OpLemmas.

(** The two outcomes an operation can have on the abstract stack. *)
Definition refines (m : SM stack unit) (l : list bytes) (f : bool)
    (spec : option (list bytes)) : Prop :=
  match spec with
  | Some l' => m (St l f) = (Ok tt, St l' f)
  | None => exists s', m (St l f) = (Err (scriptError ErrInvalidStackOperation), s')
  end.

Section Refinement.
Context (l : list bytes) (f : bool).

(** The loops behind a guarded argument: below 1 it is an error, with too few
    items it is an error, otherwise the loop's lemma applies. *)
Lemma refines_loop n needs (body : SM stack unit) l' :
  (1 <= n -> needs <= zlen l ->
   times (Z.to_nat n) body (St l f) = (Ok tt, St l' f)) ->
  (1 <= n -> zlen l < needs ->
   exists s', times (Z.to_nat n) body (St l f) =
              (Err (scriptError ErrInvalidStackOperation), s')) ->
  refines (guard (n <? 1) (scriptError ErrInvalidStackOperation);;
           times (Z.to_nat n) body) l f
    (if (1 <=? n) && (needs <=? zlen l) then Some l' else None).
Proof.
  intros Hok Herr. unfold refines. rewrite bind_eq.
  destruct (Z.leb_spec 1 n); cbn [andb].
  - replace (n <? 1) with false by (symmetry; lia). rewrite guard_false.
    destruct (Z.leb_spec needs (zlen l)); auto.
  - replace (n <? 1) with true by (symmetry; lia). rewrite guard_true. eauto.
Qed.

Lemma refines_nip_loop n m :
  1 <= n -> fits l -> n <= m < 2 ^ 31 -> zlen l < m ->
  exists s', times (Z.to_nat n) (so <- nipN (int32 (m - 1));; PushByteArray so) (St l f) =
             (Err (scriptError ErrInvalidStackOperation), s').
Proof.
  intros Hn Hl Hm Hlen. exists (St l f). apply times_fail; [lia |].
  rewrite int32_small, bind_eq, nipN_short by (try done; lia). done.
Qed.

Lemma refines_peek_loop n idx :
  1 <= n -> fits l -> zlen l <= idx ->
  exists s', times (Z.to_nat n) (so <- PeekByteArray idx;; PushByteArray so) (St l f) =
             (Err (scriptError ErrInvalidStackOperation), s').
Proof.
  intros Hn Hl Hlen. exists (St l f). apply times_fail; [lia |].
  rewrite bind_eq, Peek_short by (try done; lia). done.
Qed.

Hypothesis Hfit : fits l.

Lemma refines_single n (m : SM stack unit) l' :
  (forall x, znth l n = Some x -> ztake 1 (zdrop n l) = [x] ->
     delete (Z.to_nat n) l = ztake n l ++ zdrop (n + 1) l ->
     m (St l f) = (Ok tt, St l' f)) ->
  (n < 0 \/ zlen l <= n ->
     m (St l f) = (Err (scriptError ErrInvalidStackOperation), St l f)) ->
  refines m l f (if (0 <=? n) && (n + 1 <=? zlen l) then Some l' else None).
Proof.
  intros Hok Herr. unfold refines.
  destruct (Z.leb_spec 0 n); cbn [andb]; [| eauto].
  destruct (Z.leb_spec (n + 1) (zlen l)); [| eexists; apply Herr; lia].
  destruct (znth_take_drop n l) as (x & ? & ? & ?); eauto. lia.
Qed.

Lemma NipN_refines n : refines (NipN n) l f (op_spec (SNip n) l).
Proof.
  apply refines_single; [intros x Hx _ Hdel | intros Hn];
    unfold NipN; rewrite bind_eq, nipN_St by done.
  - now rewrite Hx, Hdel.
  - now rewrite znth_None.
Qed.

Lemma PickN_refines n : refines (PickN n) l f (op_spec (SPick n) l).
Proof.
  apply refines_single; [intros x Hx Ht _ | intros Hn];
    unfold PickN; rewrite bind_eq, PeekByteArray_St by done.
  - now rewrite Hx, PushByteArray_St; cbn [op_result]; rewrite Ht.
  - now rewrite znth_None.
Qed.

Lemma RollN_refines n : refines (RollN n) l f (op_spec (SRoll n) l).
Proof.
  apply refines_single; [intros x Hx Ht Hdel | intros Hn];
    unfold RollN; rewrite bind_eq, nipN_St by done.
  - now rewrite Hx, PushByteArray_St, Hdel; cbn [op_result]; rewrite Ht.
  - now rewrite znth_None.
Qed.

Lemma Tuck_refines : refines Tuck l f (op_spec STuck l).
Proof.
  unfold refines, op_spec, Tuck, PopByteArray. rewrite !bind_eq, nipN_St by done.
  destruct l as [|x2 [|x1 r]]; cbn [op_valid op_needs andb].
  - eexists. reflexivity.
  - eexists. reflexivity.
  - replace (2 <=? zlen (x2 :: x1 :: r)) with true
      by (symmetry; autorewrite with zlen; pose proof (zlen_nonneg r); lia).
    change (znth (x2 :: x1 :: r) 0) with (Some x2). cbn [op_result].
    change (delete (Z.to_nat 0) (x2 :: x1 :: r)) with (x1 :: r). cbv beta iota.
    rewrite !bind_eq, nipN_St
      by (revert Hfit; unfold fits; autorewrite with zlen; lia).
    change (znth (x1 :: r) 0) with (Some x1).
    change (delete (Z.to_nat 0) (x1 :: r)) with r. cbv beta iota.
    rewrite bind_eq, PushByteArray_St. cbv beta iota.
    rewrite bind_eq, PushByteArray_St. apply PushByteArray_St.
Qed.

Lemma DropN_refines n : n < 2 ^ 31 -> refines (DropN n) l f (op_spec (SDrop n) l).
Proof.
  intros Hn. apply refines_loop; cbn [op_needs]; intros H1 H2.
  - destruct (split_block l n) as (E & _ & L & _); [lia |].
    pose proof (times_pop (ztake n l) (zdrop n l) f) as H. rewrite L, <- E in H.
    now apply H.
  - eexists. apply times_pop_underflow; [done | lia].
Qed.
End Refinement.

(** Every stack operation implements the transformation its comment in
    stack.go documents: on a stack with enough items it succeeds and yields
    exactly the documented stack, and otherwise, or with an argument below the
    documented minimum, it fails with ErrInvalidStackOperation.  No call
    panics.  The premise keeps the int32 arithmetic of the methods in range. *)
Lemma stack_ops_refine op l f :
  zlen l + Z.max 1 (op_needs op) < 2 ^ 31 ->
  refines (run_op op) l f (op_spec op l).
Proof.
  intros Hb. pose proof (zlen_nonneg l) as Hl0.
  assert (Hfit : fits l) by (unfold fits; lia).
  destruct op as [x | | n | n | n | n | n | n | n | n]; cbn [run_op op_needs] in *.
  - unfold refines, op_spec. cbn [op_valid op_needs andb].
    rewrite (proj2 (Z.leb_le _ _)) by done. apply PushByteArray_St.
  - now apply Tuck_refines.
  - now apply NipN_refines.
  - now apply PickN_refines.
  - now apply RollN_refines.
  - apply DropN_refines; [done | lia].
  - apply refines_loop; cbn [op_needs]; intros H1 H2; [| apply refines_peek_loop; [done | done | lia]].
    rewrite (DupOver_spec f n n) by lia. now rewrite Z.sub_diag.
  - apply refines_loop; cbn [op_needs]; intros H1 H2; rewrite int32_small by lia;
      [| apply refines_peek_loop; [done | done | lia]].
    rewrite (DupOver_spec f (2 * n) n) by lia. now replace (2 * n - n) with n by lia.
  - apply refines_loop; cbn [op_needs]; intros H1 H2; [| apply refines_nip_loop; [done | done | lia | lia]].
    rewrite (RotSwap_spec f (3 * n) n) by (try done; lia).
    now replace (3 * n - n) with (2 * n) by lia.
  - apply refines_loop; cbn [op_needs]; intros H1 H2; [| apply refines_nip_loop; [done | done | lia | lia]].
    rewrite (RotSwap_spec f (2 * n) n) by (try done; lia).
    now replace (2 * n - n) with n by lia.
Qed.

Lemma stack_ops_refine_witness :
  run_op (SRot 2) (St [[x06]; [x05]; [x04]; [x03]; [x02]; [x01]; [x00]] true) =
  (Ok tt, St [[x02]; [x01]; [x06]; [x05]; [x04]; [x03]; [x00]] true).
Proof.
  apply (stack_ops_refine (SRot 2) [[x06]; [x05]; [x04]; [x03]; [x02]; [x01]; [x00]] true).
  vm_compute. reflexivity.
Defined.

(** * Reading and replacing the whole stack *)

Lemma getStack_St l f : fits l -> getStack (St l f) = reverse l.
Proof.
  intros Hl. unfold getStack. rewrite Depth_St by done.
  apply list_eq. intros i. rewrite list_lookup_fmap.
  unfold zlen. rewrite Nat2Z.id.
  destruct (decide (i < length l)%nat) as [Hi | Hi].
  - rewrite lookup_seq_lt by done. cbn [fmap option_fmap option_map Nat.add].
    rewrite PeekByteArray_St by done. unfold znth. rewrite decide_True by lia.
    rewrite reverse_lookup by done.
    replace (Z.to_nat (Z.of_nat (length l) - Z.of_nat i - 1)) with (length l - S i)%nat by lia.
    destruct (lookup_lt_is_Some_2 l (length l - S i)%nat) as [x ->]; [lia | done].
  - rewrite lookup_seq_ge by lia. symmetry. apply lookup_ge_None. rewrite length_reverse. lia.
Qed.

Lemma push_all_St data : forall l f,
  push_all data (St l f) = (Ok tt, St (reverse data ++ l) f).
Proof.
  induction data as [|x data IH]; intros l f; [done |].
  cbn [push_all]. rewrite bind_eq, PushByteArray_St, IH, reverse_cons.
  now rewrite <- app_assoc.
Qed.

Lemma DropN_all l f :
  fits l -> ignore_err (DropN (zlen l)) (St l f) = (Ok tt, St [] f).
Proof.
  intros Hl. unfold ignore_err, DropN. rewrite bind_eq.
  destruct l as [|x l]; [done |].
  replace (zlen (x :: l) <? 1) with false
    by (symmetry; rewrite zlen_cons; pose proof (zlen_nonneg l); lia).
  rewrite guard_false. unfold zlen. rewrite Nat2Z.id.
  pose proof (times_pop (x :: l) [] f) as H. rewrite app_nil_r in H.
  now rewrite H.
Qed.

Lemma setStack_St data l f :
  fits l -> setStack data (St l f) = (Ok tt, St (reverse data) f).
Proof.
  intros Hl. unfold setStack. rewrite bind_eq. unfold get. rewrite bind_eq.
  rewrite Depth_St, DropN_all by done. rewrite push_all_St. now rewrite app_nil_r.
Qed.
