(* ===== verification/Opcodes.v ===== *)
(** The opcode table (src/btcd/txscript/opcode.go): the opcode values, the
    256-entry table of value, name, length and handler, and the tapscript
    success opcodes.  Handlers are named here and given their meaning in
    OpcodeExec. *)
From S2P Require Import Prelude.
Local Open Scope string_scope.
Local Open Scope Z_scope.

(** * Opcode values *)

Definition OP_0 : Z := 0x00.
Definition OP_FALSE : Z := 0x00.
Definition OP_DATA_1 : Z := 0x01.
Definition OP_DATA_2 : Z := 0x02.
Definition OP_DATA_3 : Z := 0x03.
Definition OP_DATA_4 : Z := 0x04.
Definition OP_DATA_5 : Z := 0x05.
Definition OP_DATA_6 : Z := 0x06.
Definition OP_DATA_7 : Z := 0x07.
Definition OP_DATA_8 : Z := 0x08.
Definition OP_DATA_9 : Z := 0x09.
Definition OP_DATA_10 : Z := 0x0a.
Definition OP_DATA_11 : Z := 0x0b.
Definition OP_DATA_12 : Z := 0x0c.
Definition OP_DATA_13 : Z := 0x0d.
Definition OP_DATA_14 : Z := 0x0e.
Definition OP_DATA_15 : Z := 0x0f.
Definition OP_DATA_16 : Z := 0x10.
Definition OP_DATA_17 : Z := 0x11.
Definition OP_DATA_18 : Z := 0x12.
Definition OP_DATA_19 : Z := 0x13.
Definition OP_DATA_20 : Z := 0x14.
Definition OP_DATA_21 : Z := 0x15.
Definition OP_DATA_22 : Z := 0x16.
Definition OP_DATA_23 : Z := 0x17.
Definition OP_DATA_24 : Z := 0x18.
Definition OP_DATA_25 : Z := 0x19.
Definition OP_DATA_26 : Z := 0x1a.
Definition OP_DATA_27 : Z := 0x1b.
Definition OP_DATA_28 : Z := 0x1c.
Definition OP_DATA_29 : Z := 0x1d.
Definition OP_DATA_30 : Z := 0x1e.
Definition OP_DATA_31 : Z := 0x1f.
Definition OP_DATA_32 : Z := 0x20.
Definition OP_DATA_33 : Z := 0x21.
Definition OP_DATA_34 : Z := 0x22.
Definition OP_DATA_35 : Z := 0x23.
Definition OP_DATA_36 : Z := 0x24.
Definition OP_DATA_37 : Z := 0x25.
Definition OP_DATA_38 : Z := 0x26.
Definition OP_DATA_39 : Z := 0x27.
Definition OP_DATA_40 : Z := 0x28.
Definition OP_DATA_41 : Z := 0x29.
Definition OP_DATA_42 : Z := 0x2a.
Definition OP_DATA_43 : Z := 0x2b.
Definition OP_DATA_44 : Z := 0x2c.
Definition OP_DATA_45 : Z := 0x2d.
Definition OP_DATA_46 : Z := 0x2e.
Definition OP_DATA_47 : Z := 0x2f.
Definition OP_DATA_48 : Z := 0x30.
Definition OP_DATA_49 : Z := 0x31.
Definition OP_DATA_50 : Z := 0x32.
Definition OP_DATA_51 : Z := 0x33.
Definition OP_DATA_52 : Z := 0x34.
Definition OP_DATA_53 : Z := 0x35.
Definition OP_DATA_54 : Z := 0x36.
Definition OP_DATA_55 : Z := 0x37.
Definition OP_DATA_56 : Z := 0x38.
Definition OP_DATA_57 : Z := 0x39.
Definition OP_DATA_58 : Z := 0x3a.
Definition OP_DATA_59 : Z := 0x3b.
Definition OP_DATA_60 : Z := 0x3c.
Definition OP_DATA_61 : Z := 0x3d.
Definition OP_DATA_62 : Z := 0x3e.
Definition OP_DATA_63 : Z := 0x3f.
Definition OP_DATA_64 : Z := 0x40.
Definition OP_DATA_65 : Z := 0x41.
Definition OP_DATA_66 : Z := 0x42.
Definition OP_DATA_67 : Z := 0x43.
Definition OP_DATA_68 : Z := 0x44.
Definition OP_DATA_69 : Z := 0x45.
Definition OP_DATA_70 : Z := 0x46.
Definition OP_DATA_71 : Z := 0x47.
Definition OP_DATA_72 : Z := 0x48.
Definition OP_DATA_73 : Z := 0x49.
Definition OP_DATA_74 : Z := 0x4a.
Definition OP_DATA_75 : Z := 0x4b.
Definition OP_PUSHDATA1 : Z := 0x4c.
Definition OP_PUSHDATA2 : Z := 0x4d.
Definition OP_PUSHDATA4 : Z := 0x4e.
Definition OP_1NEGATE : Z := 0x4f.
Definition OP_RESERVED : Z := 0x50.
Definition OP_1 : Z := 0x51.
Definition OP_TRUE : Z := 0x51.
Definition OP_2 : Z := 0x52.
Definition OP_3 : Z := 0x53.
Definition OP_4 : Z := 0x54.
Definition OP_5 : Z := 0x55.
Definition OP_6 : Z := 0x56.
Definition OP_7 : Z := 0x57.
Definition OP_8 : Z := 0x58.
Definition OP_9 : Z := 0x59.
Definition OP_10 : Z := 0x5a.
Definition OP_11 : Z := 0x5b.
Definition OP_12 : Z := 0x5c.
Definition OP_13 : Z := 0x5d.
Definition OP_14 : Z := 0x5e.
Definition OP_15 : Z := 0x5f.
Definition OP_16 : Z := 0x60.
Definition OP_NOP : Z := 0x61.
Definition OP_VER : Z := 0x62.
Definition OP_IF : Z := 0x63.
Definition OP_NOTIF : Z := 0x64.
Definition OP_VERIF : Z := 0x65.
Definition OP_VERNOTIF : Z := 0x66.
Definition OP_ELSE : Z := 0x67.
Definition OP_ENDIF : Z := 0x68.
Definition OP_VERIFY : Z := 0x69.
Definition OP_RETURN : Z := 0x6a.
Definition OP_TOALTSTACK : Z := 0x6b.
Definition OP_FROMALTSTACK : Z := 0x6c.
Definition OP_2DROP : Z := 0x6d.
Definition OP_2DUP : Z := 0x6e.
Definition OP_3DUP : Z := 0x6f.
Definition OP_2OVER : Z := 0x70.
Definition OP_2ROT : Z := 0x71.
Definition OP_2SWAP : Z := 0x72.
Definition OP_IFDUP : Z := 0x73.
Definition OP_DEPTH : Z := 0x74.
Definition OP_DROP : Z := 0x75.
Definition OP_DUP : Z := 0x76.
Definition OP_NIP : Z := 0x77.
Definition OP_OVER : Z := 0x78.
Definition OP_PICK : Z := 0x79.
Definition OP_ROLL : Z := 0x7a.
Definition OP_ROT : Z := 0x7b.
Definition OP_SWAP : Z := 0x7c.
Definition OP_TUCK : Z := 0x7d.
Definition OP_CAT : Z := 0x7e.
Definition OP_SUBSTR : Z := 0x7f.
Definition OP_LEFT : Z := 0x80.
Definition OP_RIGHT : Z := 0x81.
Definition OP_SIZE : Z := 0x82.
Definition OP_INVERT : Z := 0x83.
Definition OP_AND : Z := 0x84.
Definition OP_OR : Z := 0x85.
Definition OP_XOR : Z := 0x86.
Definition OP_EQUAL : Z := 0x87.
Definition OP_EQUALVERIFY : Z := 0x88.
Definition OP_RESERVED1 : Z := 0x89.
Definition OP_RESERVED2 : Z := 0x8a.
Definition OP_1ADD : Z := 0x8b.
Definition OP_1SUB : Z := 0x8c.
Definition OP_2MUL : Z := 0x8d.
Definition OP_2DIV : Z := 0x8e.
Definition OP_NEGATE : Z := 0x8f.
Definition OP_ABS : Z := 0x90.
Definition OP_NOT : Z := 0x91.
Definition OP_0NOTEQUAL : Z := 0x92.
Definition OP_ADD : Z := 0x93.
Definition OP_SUB : Z := 0x94.
Definition OP_MUL : Z := 0x95.
Definition OP_DIV : Z := 0x96.
Definition OP_MOD : Z := 0x97.
Definition OP_LSHIFT : Z := 0x98.
Definition OP_RSHIFT : Z := 0x99.
Definition OP_BOOLAND : Z := 0x9a.
Definition OP_BOOLOR : Z := 0x9b.
Definition OP_NUMEQUAL : Z := 0x9c.
Definition OP_NUMEQUALVERIFY : Z := 0x9d.
Definition OP_NUMNOTEQUAL : Z := 0x9e.
Definition OP_LESSTHAN : Z := 0x9f.
Definition OP_GREATERTHAN : Z := 0xa0.
Definition OP_LESSTHANOREQUAL : Z := 0xa1.
Definition OP_GREATERTHANOREQUAL : Z := 0xa2.
Definition OP_MIN : Z := 0xa3.
Definition OP_MAX : Z := 0xa4.
Definition OP_WITHIN : Z := 0xa5.
Definition OP_RIPEMD160 : Z := 0xa6.
Definition OP_SHA1 : Z := 0xa7.
Definition OP_SHA256 : Z := 0xa8.
Definition OP_HASH160 : Z := 0xa9.
Definition OP_HASH256 : Z := 0xaa.
Definition OP_CODESEPARATOR : Z := 0xab.
Definition OP_CHECKSIG : Z := 0xac.
Definition OP_CHECKSIGVERIFY : Z := 0xad.
Definition OP_CHECKMULTISIG : Z := 0xae.
Definition OP_CHECKMULTISIGVERIFY : Z := 0xaf.
Definition OP_NOP1 : Z := 0xb0.
Definition OP_NOP2 : Z := 0xb1.
Definition OP_CHECKLOCKTIMEVERIFY : Z := 0xb1.
Definition OP_NOP3 : Z := 0xb2.
Definition OP_CHECKSEQUENCEVERIFY : Z := 0xb2.
Definition OP_NOP4 : Z := 0xb3.
Definition OP_NOP5 : Z := 0xb4.
Definition OP_NOP6 : Z := 0xb5.
Definition OP_NOP7 : Z := 0xb6.
Definition OP_NOP8 : Z := 0xb7.
Definition OP_NOP9 : Z := 0xb8.
Definition OP_NOP10 : Z := 0xb9.
Definition OP_CHECKSIGADD : Z := 0xba.
Definition OP_UNKNOWN187 : Z := 0xbb.
Definition OP_UNKNOWN188 : Z := 0xbc.
Definition OP_UNKNOWN189 : Z := 0xbd.
Definition OP_UNKNOWN190 : Z := 0xbe.
Definition OP_UNKNOWN191 : Z := 0xbf.
Definition OP_UNKNOWN192 : Z := 0xc0.
Definition OP_UNKNOWN193 : Z := 0xc1.
Definition OP_UNKNOWN194 : Z := 0xc2.
Definition OP_UNKNOWN195 : Z := 0xc3.
Definition OP_UNKNOWN196 : Z := 0xc4.
Definition OP_UNKNOWN197 : Z := 0xc5.
Definition OP_UNKNOWN198 : Z := 0xc6.
Definition OP_UNKNOWN199 : Z := 0xc7.
Definition OP_UNKNOWN200 : Z := 0xc8.
Definition OP_UNKNOWN201 : Z := 0xc9.
Definition OP_UNKNOWN202 : Z := 0xca.
Definition OP_UNKNOWN203 : Z := 0xcb.
Definition OP_UNKNOWN204 : Z := 0xcc.
Definition OP_UNKNOWN205 : Z := 0xcd.
Definition OP_UNKNOWN206 : Z := 0xce.
Definition OP_UNKNOWN207 : Z := 0xcf.
Definition OP_UNKNOWN208 : Z := 0xd0.
Definition OP_UNKNOWN209 : Z := 0xd1.
Definition OP_UNKNOWN210 : Z := 0xd2.
Definition OP_UNKNOWN211 : Z := 0xd3.
Definition OP_UNKNOWN212 : Z := 0xd4.
Definition OP_UNKNOWN213 : Z := 0xd5.
Definition OP_UNKNOWN214 : Z := 0xd6.
Definition OP_UNKNOWN215 : Z := 0xd7.
Definition OP_UNKNOWN216 : Z := 0xd8.
Definition OP_UNKNOWN217 : Z := 0xd9.
Definition OP_UNKNOWN218 : Z := 0xda.
Definition OP_UNKNOWN219 : Z := 0xdb.
Definition OP_UNKNOWN220 : Z := 0xdc.
Definition OP_UNKNOWN221 : Z := 0xdd.
Definition OP_UNKNOWN222 : Z := 0xde.
Definition OP_UNKNOWN223 : Z := 0xdf.
Definition OP_UNKNOWN224 : Z := 0xe0.
Definition OP_UNKNOWN225 : Z := 0xe1.
Definition OP_UNKNOWN226 : Z := 0xe2.
Definition OP_UNKNOWN227 : Z := 0xe3.
Definition OP_UNKNOWN228 : Z := 0xe4.
Definition OP_UNKNOWN229 : Z := 0xe5.
Definition OP_UNKNOWN230 : Z := 0xe6.
Definition OP_UNKNOWN231 : Z := 0xe7.
Definition OP_UNKNOWN232 : Z := 0xe8.
Definition OP_UNKNOWN233 : Z := 0xe9.
Definition OP_UNKNOWN234 : Z := 0xea.
Definition OP_UNKNOWN235 : Z := 0xeb.
Definition OP_UNKNOWN236 : Z := 0xec.
Definition OP_UNKNOWN237 : Z := 0xed.
Definition OP_UNKNOWN238 : Z := 0xee.
Definition OP_UNKNOWN239 : Z := 0xef.
Definition OP_UNKNOWN240 : Z := 0xf0.
Definition OP_UNKNOWN241 : Z := 0xf1.
Definition OP_UNKNOWN242 : Z := 0xf2.
Definition OP_UNKNOWN243 : Z := 0xf3.
Definition OP_UNKNOWN244 : Z := 0xf4.
Definition OP_UNKNOWN245 : Z := 0xf5.
Definition OP_UNKNOWN246 : Z := 0xf6.
Definition OP_UNKNOWN247 : Z := 0xf7.
Definition OP_UNKNOWN248 : Z := 0xf8.
Definition OP_UNKNOWN249 : Z := 0xf9.
Definition OP_SMALLINTEGER : Z := 0xfa.
Definition OP_PUBKEYS : Z := 0xfb.
Definition OP_UNKNOWN252 : Z := 0xfc.
Definition OP_PUBKEYHASH : Z := 0xfd.
Definition OP_PUBKEY : Z := 0xfe.
Definition OP_INVALIDOPCODE : Z := 0xff.

(** * Conditional execution constants *)

Inductive OpCond : Set := OpCondFalse | OpCondTrue | OpCondSkip.

#[global] Instance OpCond_eq_dec : EqDecision OpCond.
Proof. solve_decision. Defined.

(** * The table *)

(** The handler functions the table refers to. *)
Inductive opfunc : Set :=
| F_opcodeFalse
| F_opcodePushData
| F_opcode1Negate
| F_opcodeReserved
| F_opcodeN
| F_opcodeNop
| F_opcodeIf
| F_opcodeNotIf
| F_opcodeElse
| F_opcodeEndif
| F_opcodeVerify
| F_opcodeReturn
| F_opcodeToAltStack
| F_opcodeFromAltStack
| F_opcode2Drop
| F_opcode2Dup
| F_opcode3Dup
| F_opcode2Over
| F_opcode2Rot
| F_opcode2Swap
| F_opcodeIfDup
| F_opcodeDepth
| F_opcodeDrop
| F_opcodeDup
| F_opcodeNip
| F_opcodeOver
| F_opcodePick
| F_opcodeRoll
| F_opcodeRot
| F_opcodeSwap
| F_opcodeTuck
| F_opcodeDisabled
| F_opcodeSize
| F_opcodeEqual
| F_opcodeEqualVerify
| F_opcode1Add
| F_opcode1Sub
| F_opcodeNegate
| F_opcodeAbs
| F_opcodeNot
| F_opcode0NotEqual
| F_opcodeAdd
| F_opcodeSub
| F_opcodeBoolAnd
| F_opcodeBoolOr
| F_opcodeNumEqual
| F_opcodeNumEqualVerify
| F_opcodeNumNotEqual
| F_opcodeLessThan
| F_opcodeGreaterThan
| F_opcodeLessThanOrEqual
| F_opcodeGreaterThanOrEqual
| F_opcodeMin
| F_opcodeMax
| F_opcodeWithin
| F_opcodeRipemd160
| F_opcodeSha1
| F_opcodeSha256
| F_opcodeHash160
| F_opcodeHash256
| F_opcodeCodeSeparator
| F_opcodeCheckSig
| F_opcodeCheckSigVerify
| F_opcodeCheckMultiSig
| F_opcodeCheckMultiSigVerify
| F_opcodeCheckLockTimeVerify
| F_opcodeCheckSequenceVerify
| F_opcodeCheckSigAdd
| F_opcodeInvalid.

Record opcode : Set := mkOp {
  op_value : Z;
  op_name : string;
  op_length : Z;
  op_func : opfunc;
}.

Definition opcodeArray : list opcode := [
  mkOp OP_FALSE "OP_0" 1 F_opcodeFalse;
  mkOp OP_DATA_1 "OP_DATA_1" 2 F_opcodePushData;
  mkOp OP_DATA_2 "OP_DATA_2" 3 F_opcodePushData;
  mkOp OP_DATA_3 "OP_DATA_3" 4 F_opcodePushData;
  mkOp OP_DATA_4 "OP_DATA_4" 5 F_opcodePushData;
  mkOp OP_DATA_5 "OP_DATA_5" 6 F_opcodePushData;
  mkOp OP_DATA_6 "OP_DATA_6" 7 F_opcodePushData;
  mkOp OP_DATA_7 "OP_DATA_7" 8 F_opcodePushData;
  mkOp OP_DATA_8 "OP_DATA_8" 9 F_opcodePushData;
  mkOp OP_DATA_9 "OP_DATA_9" 10 F_opcodePushData;
  mkOp OP_DATA_10 "OP_DATA_10" 11 F_opcodePushData;
  mkOp OP_DATA_11 "OP_DATA_11" 12 F_opcodePushData;
  mkOp OP_DATA_12 "OP_DATA_12" 13 F_opcodePushData;
  mkOp OP_DATA_13 "OP_DATA_13" 14 F_opcodePushData;
  mkOp OP_DATA_14 "OP_DATA_14" 15 F_opcodePushData;
  mkOp OP_DATA_15 "OP_DATA_15" 16 F_opcodePushData;
  mkOp OP_DATA_16 "OP_DATA_16" 17 F_opcodePushData;
  mkOp OP_DATA_17 "OP_DATA_17" 18 F_opcodePushData;
  mkOp OP_DATA_18 "OP_DATA_18" 19 F_opcodePushData;
  mkOp OP_DATA_19 "OP_DATA_19" 20 F_opcodePushData;
  mkOp OP_DATA_20 "OP_DATA_20" 21 F_opcodePushData;
  mkOp OP_DATA_21 "OP_DATA_21" 22 F_opcodePushData;
  mkOp OP_DATA_22 "OP_DATA_22" 23 F_opcodePushData;
  mkOp OP_DATA_23 "OP_DATA_23" 24 F_opcodePushData;
  mkOp OP_DATA_24 "OP_DATA_24" 25 F_opcodePushData;
  mkOp OP_DATA_25 "OP_DATA_25" 26 F_opcodePushData;
  mkOp OP_DATA_26 "OP_DATA_26" 27 F_opcodePushData;
  mkOp OP_DATA_27 "OP_DATA_27" 28 F_opcodePushData;
  mkOp OP_DATA_28 "OP_DATA_28" 29 F_opcodePushData;
  mkOp OP_DATA_29 "OP_DATA_29" 30 F_opcodePushData;
  mkOp OP_DATA_30 "OP_DATA_30" 31 F_opcodePushData;
  mkOp OP_DATA_31 "OP_DATA_31" 32 F_opcodePushData;
  mkOp OP_DATA_32 "OP_DATA_32" 33 F_opcodePushData;
  mkOp OP_DATA_33 "OP_DATA_33" 34 F_opcodePushData;
  mkOp OP_DATA_34 "OP_DATA_34" 35 F_opcodePushData;
  mkOp OP_DATA_35 "OP_DATA_35" 36 F_opcodePushData;
  mkOp OP_DATA_36 "OP_DATA_36" 37 F_opcodePushData;
  mkOp OP_DATA_37 "OP_DATA_37" 38 F_opcodePushData;
  mkOp OP_DATA_38 "OP_DATA_38" 39 F_opcodePushData;
  mkOp OP_DATA_39 "OP_DATA_39" 40 F_opcodePushData;
  mkOp OP_DATA_40 "OP_DATA_40" 41 F_opcodePushData;
  mkOp OP_DATA_41 "OP_DATA_41" 42 F_opcodePushData;
  mkOp OP_DATA_42 "OP_DATA_42" 43 F_opcodePushData;
  mkOp OP_DATA_43 "OP_DATA_43" 44 F_opcodePushData;
  mkOp OP_DATA_44 "OP_DATA_44" 45 F_opcodePushData;
  mkOp OP_DATA_45 "OP_DATA_45" 46 F_opcodePushData;
  mkOp OP_DATA_46 "OP_DATA_46" 47 F_opcodePushData;
  mkOp OP_DATA_47 "OP_DATA_47" 48 F_opcodePushData;
  mkOp OP_DATA_48 "OP_DATA_48" 49 F_opcodePushData;
  mkOp OP_DATA_49 "OP_DATA_49" 50 F_opcodePushData;
  mkOp OP_DATA_50 "OP_DATA_50" 51 F_opcodePushData;
  mkOp OP_DATA_51 "OP_DATA_51" 52 F_opcodePushData;
  mkOp OP_DATA_52 "OP_DATA_52" 53 F_opcodePushData;
  mkOp OP_DATA_53 "OP_DATA_53" 54 F_opcodePushData;
  mkOp OP_DATA_54 "OP_DATA_54" 55 F_opcodePushData;
  mkOp OP_DATA_55 "OP_DATA_55" 56 F_opcodePushData;
  mkOp OP_DATA_56 "OP_DATA_56" 57 F_opcodePushData;
  mkOp OP_DATA_57 "OP_DATA_57" 58 F_opcodePushData;
  mkOp OP_DATA_58 "OP_DATA_58" 59 F_opcodePushData;
  mkOp OP_DATA_59 "OP_DATA_59" 60 F_opcodePushData;
  mkOp OP_DATA_60 "OP_DATA_60" 61 F_opcodePushData;
  mkOp OP_DATA_61 "OP_DATA_61" 62 F_opcodePushData;
  mkOp OP_DATA_62 "OP_DATA_62" 63 F_opcodePushData;
  mkOp OP_DATA_63 "OP_DATA_63" 64 F_opcodePushData;
  mkOp OP_DATA_64 "OP_DATA_64" 65 F_opcodePushData;
  mkOp OP_DATA_65 "OP_DATA_65" 66 F_opcodePushData;
  mkOp OP_DATA_66 "OP_DATA_66" 67 F_opcodePushData;
  mkOp OP_DATA_67 "OP_DATA_67" 68 F_opcodePushData;
  mkOp OP_DATA_68 "OP_DATA_68" 69 F_opcodePushData;
  mkOp OP_DATA_69 "OP_DATA_69" 70 F_opcodePushData;
  mkOp OP_DATA_70 "OP_DATA_70" 71 F_opcodePushData;
  mkOp OP_DATA_71 "OP_DATA_71" 72 F_opcodePushData;
  mkOp OP_DATA_72 "OP_DATA_72" 73 F_opcodePushData;
  mkOp OP_DATA_73 "OP_DATA_73" 74 F_opcodePushData;
  mkOp OP_DATA_74 "OP_DATA_74" 75 F_opcodePushData;
  mkOp OP_DATA_75 "OP_DATA_75" 76 F_opcodePushData;
  mkOp OP_PUSHDATA1 "OP_PUSHDATA1" (-1) F_opcodePushData;
  mkOp OP_PUSHDATA2 "OP_PUSHDATA2" (-2) F_opcodePushData;
  mkOp OP_PUSHDATA4 "OP_PUSHDATA4" (-4) F_opcodePushData;
  mkOp OP_1NEGATE "OP_1NEGATE" 1 F_opcode1Negate;
  mkOp OP_RESERVED "OP_RESERVED" 1 F_opcodeReserved;
  mkOp OP_TRUE "OP_1" 1 F_opcodeN;
  mkOp OP_2 "OP_2" 1 F_opcodeN;
  mkOp OP_3 "OP_3" 1 F_opcodeN;
  mkOp OP_4 "OP_4" 1 F_opcodeN;
  mkOp OP_5 "OP_5" 1 F_opcodeN;
  mkOp OP_6 "OP_6" 1 F_opcodeN;
  mkOp OP_7 "OP_7" 1 F_opcodeN;
  mkOp OP_8 "OP_8" 1 F_opcodeN;
  mkOp OP_9 "OP_9" 1 F_opcodeN;
  mkOp OP_10 "OP_10" 1 F_opcodeN;
  mkOp OP_11 "OP_11" 1 F_opcodeN;
  mkOp OP_12 "OP_12" 1 F_opcodeN;
  mkOp OP_13 "OP_13" 1 F_opcodeN;
  mkOp OP_14 "OP_14" 1 F_opcodeN;
  mkOp OP_15 "OP_15" 1 F_opcodeN;
  mkOp OP_16 "OP_16" 1 F_opcodeN;
  mkOp OP_NOP "OP_NOP" 1 F_opcodeNop;
  mkOp OP_VER "OP_VER" 1 F_opcodeReserved;
  mkOp OP_IF "OP_IF" 1 F_opcodeIf;
  mkOp OP_NOTIF "OP_NOTIF" 1 F_opcodeNotIf;
  mkOp OP_VERIF "OP_VERIF" 1 F_opcodeReserved;
  mkOp OP_VERNOTIF "OP_VERNOTIF" 1 F_opcodeReserved;
  mkOp OP_ELSE "OP_ELSE" 1 F_opcodeElse;
  mkOp OP_ENDIF "OP_ENDIF" 1 F_opcodeEndif;
  mkOp OP_VERIFY "OP_VERIFY" 1 F_opcodeVerify;
  mkOp OP_RETURN "OP_RETURN" 1 F_opcodeReturn;
  mkOp OP_TOALTSTACK "OP_TOALTSTACK" 1 F_opcodeToAltStack;
  mkOp OP_FROMALTSTACK "OP_FROMALTSTACK" 1 F_opcodeFromAltStack;
  mkOp OP_2DROP "OP_2DROP" 1 F_opcode2Drop;
  mkOp OP_2DUP "OP_2DUP" 1 F_opcode2Dup;
  mkOp OP_3DUP "OP_3DUP" 1 F_opcode3Dup;
  mkOp OP_2OVER "OP_2OVER" 1 F_opcode2Over;
  mkOp OP_2ROT "OP_2ROT" 1 F_opcode2Rot;
  mkOp OP_2SWAP "OP_2SWAP" 1 F_opcode2Swap;
  mkOp OP_IFDUP "OP_IFDUP" 1 F_opcodeIfDup;
  mkOp OP_DEPTH "OP_DEPTH" 1 F_opcodeDepth;
  mkOp OP_DROP "OP_DROP" 1 F_opcodeDrop;
  mkOp OP_DUP "OP_DUP" 1 F_opcodeDup;
  mkOp OP_NIP "OP_NIP" 1 F_opcodeNip;
  mkOp OP_OVER "OP_OVER" 1 F_opcodeOver;
  mkOp OP_PICK "OP_PICK" 1 F_opcodePick;
  mkOp OP_ROLL "OP_ROLL" 1 F_opcodeRoll;
  mkOp OP_ROT "OP_ROT" 1 F_opcodeRot;
  mkOp OP_SWAP "OP_SWAP" 1 F_opcodeSwap;
  mkOp OP_TUCK "OP_TUCK" 1 F_opcodeTuck;
  mkOp OP_CAT "OP_CAT" 1 F_opcodeDisabled;
  mkOp OP_SUBSTR "OP_SUBSTR" 1 F_opcodeDisabled;
  mkOp OP_LEFT "OP_LEFT" 1 F_opcodeDisabled;
  mkOp OP_RIGHT "OP_RIGHT" 1 F_opcodeDisabled;
  mkOp OP_SIZE "OP_SIZE" 1 F_opcodeSize;
  mkOp OP_INVERT "OP_INVERT" 1 F_opcodeDisabled;
  mkOp OP_AND "OP_AND" 1 F_opcodeDisabled;
  mkOp OP_OR "OP_OR" 1 F_opcodeDisabled;
  mkOp OP_XOR "OP_XOR" 1 F_opcodeDisabled;
  mkOp OP_EQUAL "OP_EQUAL" 1 F_opcodeEqual;
  mkOp OP_EQUALVERIFY "OP_EQUALVERIFY" 1 F_opcodeEqualVerify;
  mkOp OP_RESERVED1 "OP_RESERVED1" 1 F_opcodeReserved;
  mkOp OP_RESERVED2 "OP_RESERVED2" 1 F_opcodeReserved;
  mkOp OP_1ADD "OP_1ADD" 1 F_opcode1Add;
  mkOp OP_1SUB "OP_1SUB" 1 F_opcode1Sub;
  mkOp OP_2MUL "OP_2MUL" 1 F_opcodeDisabled;
  mkOp OP_2DIV "OP_2DIV" 1 F_opcodeDisabled;
  mkOp OP_NEGATE "OP_NEGATE" 1 F_opcodeNegate;
  mkOp OP_ABS "OP_ABS" 1 F_opcodeAbs;
  mkOp OP_NOT "OP_NOT" 1 F_opcodeNot;
  mkOp OP_0NOTEQUAL "OP_0NOTEQUAL" 1 F_opcode0NotEqual;
  mkOp OP_ADD "OP_ADD" 1 F_opcodeAdd;
  mkOp OP_SUB "OP_SUB" 1 F_opcodeSub;
  mkOp OP_MUL "OP_MUL" 1 F_opcodeDisabled;
  mkOp OP_DIV "OP_DIV" 1 F_opcodeDisabled;
  mkOp OP_MOD "OP_MOD" 1 F_opcodeDisabled;
  mkOp OP_LSHIFT "OP_LSHIFT" 1 F_opcodeDisabled;
  mkOp OP_RSHIFT "OP_RSHIFT" 1 F_opcodeDisabled;
  mkOp OP_BOOLAND "OP_BOOLAND" 1 F_opcodeBoolAnd;
  mkOp OP_BOOLOR "OP_BOOLOR" 1 F_opcodeBoolOr;
  mkOp OP_NUMEQUAL "OP_NUMEQUAL" 1 F_opcodeNumEqual;
  mkOp OP_NUMEQUALVERIFY "OP_NUMEQUALVERIFY" 1 F_opcodeNumEqualVerify;
  mkOp OP_NUMNOTEQUAL "OP_NUMNOTEQUAL" 1 F_opcodeNumNotEqual;
  mkOp OP_LESSTHAN "OP_LESSTHAN" 1 F_opcodeLessThan;
  mkOp OP_GREATERTHAN "OP_GREATERTHAN" 1 F_opcodeGreaterThan;
  mkOp OP_LESSTHANOREQUAL "OP_LESSTHANOREQUAL" 1 F_opcodeLessThanOrEqual;
  mkOp OP_GREATERTHANOREQUAL "OP_GREATERTHANOREQUAL" 1 F_opcodeGreaterThanOrEqual;
  mkOp OP_MIN "OP_MIN" 1 F_opcodeMin;
  mkOp OP_MAX "OP_MAX" 1 F_opcodeMax;
  mkOp OP_WITHIN "OP_WITHIN" 1 F_opcodeWithin;
  mkOp OP_RIPEMD160 "OP_RIPEMD160" 1 F_opcodeRipemd160;
  mkOp OP_SHA1 "OP_SHA1" 1 F_opcodeSha1;
  mkOp OP_SHA256 "OP_SHA256" 1 F_opcodeSha256;
  mkOp OP_HASH160 "OP_HASH160" 1 F_opcodeHash160;
  mkOp OP_HASH256 "OP_HASH256" 1 F_opcodeHash256;
  mkOp OP_CODESEPARATOR "OP_CODESEPARATOR" 1 F_opcodeCodeSeparator;
  mkOp OP_CHECKSIG "OP_CHECKSIG" 1 F_opcodeCheckSig;
  mkOp OP_CHECKSIGVERIFY "OP_CHECKSIGVERIFY" 1 F_opcodeCheckSigVerify;
  mkOp OP_CHECKMULTISIG "OP_CHECKMULTISIG" 1 F_opcodeCheckMultiSig;
  mkOp OP_CHECKMULTISIGVERIFY "OP_CHECKMULTISIGVERIFY" 1 F_opcodeCheckMultiSigVerify;
  mkOp OP_NOP1 "OP_NOP1" 1 F_opcodeNop;
  mkOp OP_CHECKLOCKTIMEVERIFY "OP_CHECKLOCKTIMEVERIFY" 1 F_opcodeCheckLockTimeVerify;
  mkOp OP_CHECKSEQUENCEVERIFY "OP_CHECKSEQUENCEVERIFY" 1 F_opcodeCheckSequenceVerify;
  mkOp OP_NOP4 "OP_NOP4" 1 F_opcodeNop;
  mkOp OP_NOP5 "OP_NOP5" 1 F_opcodeNop;
  mkOp OP_NOP6 "OP_NOP6" 1 F_opcodeNop;
  mkOp OP_NOP7 "OP_NOP7" 1 F_opcodeNop;
  mkOp OP_NOP8 "OP_NOP8" 1 F_opcodeNop;
  mkOp OP_NOP9 "OP_NOP9" 1 F_opcodeNop;
  mkOp OP_NOP10 "OP_NOP10" 1 F_opcodeNop;
  mkOp OP_CHECKSIGADD "OP_CHECKSIGADD" 1 F_opcodeCheckSigAdd;
  mkOp OP_UNKNOWN187 "OP_UNKNOWN187" 1 F_opcodeInvalid;
  mkOp OP_UNKNOWN188 "OP_UNKNOWN188" 1 F_opcodeInvalid;
  mkOp OP_UNKNOWN189 "OP_UNKNOWN189" 1 F_opcodeInvalid;
  mkOp OP_UNKNOWN190 "OP_UNKNOWN190" 1 F_opcodeInvalid;
  mkOp OP_UNKNOWN191 "OP_UNKNOWN191" 1 F_opcodeInvalid;
  mkOp OP_UNKNOWN192 "OP_UNKNOWN192" 1 F_opcodeInvalid;
  mkOp OP_UNKNOWN193 "OP_UNKNOWN193" 1 F_opcodeInvalid;
  mkOp OP_UNKNOWN194 "OP_UNKNOWN194" 1 F_opcodeInvalid;
  mkOp OP_UNKNOWN195 "OP_UNKNOWN195" 1 F_opcodeInvalid;
  mkOp OP_UNKNOWN196 "OP_UNKNOWN196" 1 F_opcodeInvalid;
  mkOp OP_UNKNOWN197 "OP_UNKNOWN197" 1 F_opcodeInvalid;
  mkOp OP_UNKNOWN198 "OP_UNKNOWN198" 1 F_opcodeInvalid;
  mkOp OP_UNKNOWN199 "OP_UNKNOWN199" 1 F_opcodeInvalid;
  mkOp OP_UNKNOWN200 "OP_UNKNOWN200" 1 F_opcodeInvalid;
  mkOp OP_UNKNOWN201 "OP_UNKNOWN201" 1 F_opcodeInvalid;
  mkOp OP_UNKNOWN202 "OP_UNKNOWN202" 1 F_opcodeInvalid;
  mkOp OP_UNKNOWN203 "OP_UNKNOWN203" 1 F_opcodeInvalid;
  mkOp OP_UNKNOWN204 "OP_UNKNOWN204" 1 F_opcodeInvalid;
  mkOp OP_UNKNOWN205 "OP_UNKNOWN205" 1 F_opcodeInvalid;
  mkOp OP_UNKNOWN206 "OP_UNKNOWN206" 1 F_opcodeInvalid;
  mkOp OP_UNKNOWN207 "OP_UNKNOWN207" 1 F_opcodeInvalid;
  mkOp OP_UNKNOWN208 "OP_UNKNOWN208" 1 F_opcodeInvalid;
  mkOp OP_UNKNOWN209 "OP_UNKNOWN209" 1 F_opcodeInvalid;
  mkOp OP_UNKNOWN210 "OP_UNKNOWN210" 1 F_opcodeInvalid;
  mkOp OP_UNKNOWN211 "OP_UNKNOWN211" 1 F_opcodeInvalid;
  mkOp OP_UNKNOWN212 "OP_UNKNOWN212" 1 F_opcodeInvalid;
  mkOp OP_UNKNOWN213 "OP_UNKNOWN213" 1 F_opcodeInvalid;
  mkOp OP_UNKNOWN214 "OP_UNKNOWN214" 1 F_opcodeInvalid;
  mkOp OP_UNKNOWN215 "OP_UNKNOWN215" 1 F_opcodeInvalid;
  mkOp OP_UNKNOWN216 "OP_UNKNOWN216" 1 F_opcodeInvalid;
  mkOp OP_UNKNOWN217 "OP_UNKNOWN217" 1 F_opcodeInvalid;
  mkOp OP_UNKNOWN218 "OP_UNKNOWN218" 1 F_opcodeInvalid;
  mkOp OP_UNKNOWN219 "OP_UNKNOWN219" 1 F_opcodeInvalid;
  mkOp OP_UNKNOWN220 "OP_UNKNOWN220" 1 F_opcodeInvalid;
  mkOp OP_UNKNOWN221 "OP_UNKNOWN221" 1 F_opcodeInvalid;
  mkOp OP_UNKNOWN222 "OP_UNKNOWN222" 1 F_opcodeInvalid;
  mkOp OP_UNKNOWN223 "OP_UNKNOWN223" 1 F_opcodeInvalid;
  mkOp OP_UNKNOWN224 "OP_UNKNOWN224" 1 F_opcodeInvalid;
  mkOp OP_UNKNOWN225 "OP_UNKNOWN225" 1 F_opcodeInvalid;
  mkOp OP_UNKNOWN226 "OP_UNKNOWN226" 1 F_opcodeInvalid;
  mkOp OP_UNKNOWN227 "OP_UNKNOWN227" 1 F_opcodeInvalid;
  mkOp OP_UNKNOWN228 "OP_UNKNOWN228" 1 F_opcodeInvalid;
  mkOp OP_UNKNOWN229 "OP_UNKNOWN229" 1 F_opcodeInvalid;
  mkOp OP_UNKNOWN230 "OP_UNKNOWN230" 1 F_opcodeInvalid;
  mkOp OP_UNKNOWN231 "OP_UNKNOWN231" 1 F_opcodeInvalid;
  mkOp OP_UNKNOWN232 "OP_UNKNOWN232" 1 F_opcodeInvalid;
  mkOp OP_UNKNOWN233 "OP_UNKNOWN233" 1 F_opcodeInvalid;
  mkOp OP_UNKNOWN234 "OP_UNKNOWN234" 1 F_opcodeInvalid;
  mkOp OP_UNKNOWN235 "OP_UNKNOWN235" 1 F_opcodeInvalid;
  mkOp OP_UNKNOWN236 "OP_UNKNOWN236" 1 F_opcodeInvalid;
  mkOp OP_UNKNOWN237 "OP_UNKNOWN237" 1 F_opcodeInvalid;
  mkOp OP_UNKNOWN238 "OP_UNKNOWN238" 1 F_opcodeInvalid;
  mkOp OP_UNKNOWN239 "OP_UNKNOWN239" 1 F_opcodeInvalid;
  mkOp OP_UNKNOWN240 "OP_UNKNOWN240" 1 F_opcodeInvalid;
  mkOp OP_UNKNOWN241 "OP_UNKNOWN241" 1 F_opcodeInvalid;
  mkOp OP_UNKNOWN242 "OP_UNKNOWN242" 1 F_opcodeInvalid;
  mkOp OP_UNKNOWN243 "OP_UNKNOWN243" 1 F_opcodeInvalid;
  mkOp OP_UNKNOWN244 "OP_UNKNOWN244" 1 F_opcodeInvalid;
  mkOp OP_UNKNOWN245 "OP_UNKNOWN245" 1 F_opcodeInvalid;
  mkOp OP_UNKNOWN246 "OP_UNKNOWN246" 1 F_opcodeInvalid;
  mkOp OP_UNKNOWN247 "OP_UNKNOWN247" 1 F_opcodeInvalid;
  mkOp OP_UNKNOWN248 "OP_UNKNOWN248" 1 F_opcodeInvalid;
  mkOp OP_UNKNOWN249 "OP_UNKNOWN249" 1 F_opcodeInvalid;
  mkOp OP_SMALLINTEGER "OP_SMALLINTEGER" 1 F_opcodeInvalid;
  mkOp OP_PUBKEYS "OP_PUBKEYS" 1 F_opcodeInvalid;
  mkOp OP_UNKNOWN252 "OP_UNKNOWN252" 1 F_opcodeInvalid;
  mkOp OP_PUBKEYHASH "OP_PUBKEYHASH" 1 F_opcodeInvalid;
  mkOp OP_PUBKEY "OP_PUBKEY" 1 F_opcodeInvalid;
  mkOp OP_INVALIDOPCODE "OP_INVALIDOPCODE" 1 F_opcodeInvalid
].

(** [&opcodeArrayRef[b]]: the table has an entry for every byte. *)
Definition opcode_of (b : byte) : opcode :=
  nth (Z.to_nat (b2z b)) opcodeArray
    (mkOp OP_INVALIDOPCODE "OP_INVALIDOPCODE" 1 F_opcodeInvalid).

(** * Success opcodes of tapscript *)

Definition successOpcodes : list Z := [
  OP_RESERVED;
  OP_VER;
  OP_CAT;
  OP_SUBSTR;
  OP_LEFT;
  OP_RIGHT;
  OP_INVERT;
  OP_AND;
  OP_OR;
  OP_XOR;
  OP_RESERVED1;
  OP_RESERVED2;
  OP_2MUL;
  OP_2DIV;
  OP_MUL;
  OP_DIV;
  OP_MOD;
  OP_LSHIFT;
  OP_RSHIFT;
  OP_UNKNOWN187;
  OP_UNKNOWN188;
  OP_UNKNOWN189;
  OP_UNKNOWN190;
  OP_UNKNOWN191;
  OP_UNKNOWN192;
  OP_UNKNOWN193;
  OP_UNKNOWN194;
  OP_UNKNOWN195;
  OP_UNKNOWN196;
  OP_UNKNOWN197;
  OP_UNKNOWN198;
  OP_UNKNOWN199;
  OP_UNKNOWN200;
  OP_UNKNOWN201;
  OP_UNKNOWN202;
  OP_UNKNOWN203;
  OP_UNKNOWN204;
  OP_UNKNOWN205;
  OP_UNKNOWN206;
  OP_UNKNOWN207;
  OP_UNKNOWN208;
  OP_UNKNOWN209;
  OP_UNKNOWN210;
  OP_UNKNOWN211;
  OP_UNKNOWN212;
  OP_UNKNOWN213;
  OP_UNKNOWN214;
  OP_UNKNOWN215;
  OP_UNKNOWN216;
  OP_UNKNOWN217;
  OP_UNKNOWN218;
  OP_UNKNOWN219;
  OP_UNKNOWN220;
  OP_UNKNOWN221;
  OP_UNKNOWN222;
  OP_UNKNOWN223;
  OP_UNKNOWN224;
  OP_UNKNOWN225;
  OP_UNKNOWN226;
  OP_UNKNOWN227;
  OP_UNKNOWN228;
  OP_UNKNOWN229;
  OP_UNKNOWN230;
  OP_UNKNOWN231;
  OP_UNKNOWN232;
  OP_UNKNOWN233;
  OP_UNKNOWN234;
  OP_UNKNOWN235;
  OP_UNKNOWN236;
  OP_UNKNOWN237;
  OP_UNKNOWN238;
  OP_UNKNOWN239;
  OP_UNKNOWN240;
  OP_UNKNOWN241;
  OP_UNKNOWN242;
  OP_UNKNOWN243;
  OP_UNKNOWN244;
  OP_UNKNOWN245;
  OP_UNKNOWN246;
  OP_UNKNOWN247;
  OP_UNKNOWN248;
  OP_UNKNOWN249;
  OP_SMALLINTEGER;
  OP_PUBKEYS;
  OP_UNKNOWN252;
  OP_PUBKEYHASH;
  OP_PUBKEY
].

Definition isSuccessOpcode (v : Z) : bool := existsb (Z.eqb v) successOpcodes.

(** * Facts about the table *)

Lemma length_opcodeArray : length opcodeArray = 256%nat.
Proof. reflexivity. Qed.

(** Every entry sits at its own value. *)
Lemma opcode_of_value b : op_value (opcode_of b) = b2z b.
Proof. destruct b; reflexivity. Qed.

(** Lengths are 1, or the direct push length, or one of the three PUSHDATA
    markers; none is zero. *)
Lemma opcode_of_length b :
  op_length (opcode_of b) =
  (if (1 <=? b2z b) && (b2z b <=? 75) then b2z b + 1
   else if b2z b =? OP_PUSHDATA1 then -1
   else if b2z b =? OP_PUSHDATA2 then -2
   else if b2z b =? OP_PUSHDATA4 then -4
   else 1).
Proof. destruct b; reflexivity. Qed.
