(* ===== verification/Tokenizer.v ===== *)
(** The script tokenizer (src/btcd/txscript/tokenizer.go): a cursor over a raw
    script that yields one opcode and its data per call of [Next].  The file
    ends with the grammar of scripts and the theorems that the tokenizer
    recognises exactly that grammar, always advances and never panics. *)
From Stdlib Require Import Wf_nat.
From S2P Require Import Prelude ScriptError Opcodes.

Record ScriptTokenizer : Type := mkTok {
  t_script : bytes;
  t_version : Z;
  t_offset : Z;
  t_opcodePos : Z;
  t_op : option opcode;
  t_data : bytes;
  t_err : option Error;
}.

Definition Done (t : ScriptTokenizer) : bool :=
  match t_err t with Some _ => true | None => false end ||
  (t_offset t >=? int32 (zlen (t_script t))).

Definition tok_fail (t : ScriptTokenizer) : ScriptTokenizer :=
  mkTok (t_script t) (t_version t) (t_offset t) (int32 (t_opcodePos t + 1))
    (t_op t) (t_data t) (Some (scriptError ErrMalformedPush)).

Definition tok_advance (t : ScriptTokenizer) (n : Z) (op : opcode) (data : bytes)
  : ScriptTokenizer :=
  mkTok (t_script t) (t_version t) (int32 (t_offset t + n)) (int32 (t_opcodePos t + 1))
    (Some op) data (t_err t).

(** [dataLen] of the OP_PUSHDATA opcodes; [None] is the default case. *)
Definition pushdata_len (oplen : Z) (script : bytes) : option Z :=
  if oplen =? -1 then Some (int32 (le_val (ztake 1 script)))
  else if oplen =? -2 then Some (int32 (le_val (ztake 2 script)))
  else if oplen =? -4 then Some (int32 (le_val (ztake 4 script)))
  else None.

Definition Next : M ScriptTokenizer Error bool := fun t =>
  if Done t then (Ok false, t) else
  match index (E := Error) (t_script t) (t_offset t) with
  | Ok b =>
      let op := opcode_of b in
      if op_length op =? 1 then (Ok true, tok_advance t 1 op [])
      else if op_length op >? 1 then
        let script := zdrop (t_offset t) (t_script t) in
        if zlen script <? op_length op then (Ok false, tok_fail t)
        else (Ok true, tok_advance t (op_length op) op (zdrop 1 (ztake (op_length op) script)))
      else if op_length op <? 0 then
        let script := zdrop (t_offset t + 1) (t_script t) in
        if zlen script <? - op_length op then (Ok false, tok_fail t) else
        match pushdata_len (op_length op) script with
        | None => (Ok false, tok_fail t)
        | Some dataLen =>
            let script := zdrop (- op_length op) script in
            if (dataLen >? int32 (zlen script)) || (dataLen <? 0)
            then (Ok false, tok_fail t)
            else (Ok true, tok_advance t (1 + - op_length op + dataLen) op
                             (ztake dataLen script))
        end
      else (Panic, t)
  | _ => (Panic, t)
  end.

Definition ByteIndex (t : ScriptTokenizer) : Z := t_offset t.
Definition OpcodePosition (t : ScriptTokenizer) : Z := t_opcodePos t.

(** [t.op.value]; only called after a successful [Next]. *)
Definition Opcode (t : ScriptTokenizer) : Z :=
  match t_op t with Some op => op_value op | None => 0 end.

Definition MakeScriptTokenizer (scriptVersion : Z) (script : bytes) : ScriptTokenizer :=
  mkTok script scriptVersion 0 (-1) None []
    (if scriptVersion =? 0 then None
     else Some (scriptError ErrUnsupportedScriptVersion)).

(** [for tokenizer.Next() { body }]: [body] either returns from the enclosing
    function ([inl]) or goes on with the updated locals ([inr]); [k] is the code
    after the loop.  The fuel is one more than the length of the script; running
    out of it would count as a panic, so the no-panic theorem covers
    termination. *)
Fixpoint for_next {A R} (fuel : nat) (t : ScriptTokenizer) (acc : A)
    (body : ScriptTokenizer -> A -> R + A) (k : ScriptTokenizer -> A -> R)
  : res R :=
  match fuel with
  | O => Panic
  | S fuel =>
      match Next t with
      | (Ok true, t') =>
          match body t' acc with
          | inl r => Ok r
          | inr acc' => for_next fuel t' acc' body k
          end
      | (Ok false, t') => Ok (k t' acc)
      | (Err e, _) => Err e
      | (Panic, _) => Panic
      end
  end.

Definition loop_tokens {A R} (scriptVersion : Z) (script : bytes) (acc : A)
    (body : ScriptTokenizer -> A -> R + A) (k : ScriptTokenizer -> A -> R) : res R :=
  for_next (S (length script)) (MakeScriptTokenizer scriptVersion script) acc body k.

(** * The grammar of scripts *)

(** A token: the opcode byte and the data it pushes. *)
Definition token : Type := byte * bytes.

(** The bytes between the opcode and the data. *)
Definition len_bytes (b : byte) (data : bytes) : bytes :=
  if b2z b =? OP_PUSHDATA1 then le_bytes 1 (zlen data)
  else if b2z b =? OP_PUSHDATA2 then le_bytes 2 (zlen data)
  else if b2z b =? OP_PUSHDATA4 then le_bytes 4 (zlen data)
  else [].

Definition enc_token (tk : token) : bytes :=
  fst tk :: len_bytes (fst tk) (snd tk) ++ snd tk.

Definition enc_tokens (l : list token) : bytes := concat (map enc_token l).

(** The data length an opcode admits. *)
Definition token_ok (tk : token) : bool :=
  let b := b2z (fst tk) in let n := zlen (snd tk) in
  if (1 <=? b) && (b <=? 75) then n =? b
  else if b =? OP_PUSHDATA1 then n <? 2 ^ 8
  else if b =? OP_PUSHDATA2 then n <? 2 ^ 16
  else if b =? OP_PUSHDATA4 then n <? 2 ^ 31
  else n =? 0.

(** One step of a reference parser on the unread bytes. *)
Definition split_data (b : byte) (rest : bytes) (n : Z) : option (token * bytes) :=
  if zlen rest <? n then None else Some ((b, ztake n rest), zdrop n rest).

Definition parse_pushdata (b : byte) (w : Z) (rest : bytes) : option (token * bytes) :=
  if zlen rest <? w then None
  else let n := le_val (ztake w rest) in
       if n >=? 2 ^ 31 then None else split_data b (zdrop w rest) n.

Definition parse_token (script : bytes) : option (token * bytes) :=
  match script with
  | [] => None
  | b :: rest =>
      if (1 <=? b2z b) && (b2z b <=? 75) then split_data b rest (b2z b)
      else if b2z b =? OP_PUSHDATA1 then parse_pushdata b 1 rest
      else if b2z b =? OP_PUSHDATA2 then parse_pushdata b 2 rest
      else if b2z b =? OP_PUSHDATA4 then parse_pushdata b 4 rest
      else Some ((b, []), rest)
  end.

(** The tokens of a script as the tokenizer yields them, and whether it
    stopped without an error. *)
Definition tokenize (script : bytes) : res (list token * option Error) :=
  loop_tokens 0 script []
    (fun t acc => inr (acc ++ [(z2b (Opcode t), t_data t)]))
    (fun t acc => (acc, t_err t)).

(** * The tokenizer against the grammar *)

(** The cursor between [pre] (read) and [rest] (unread). *)
Definition tok_at (pre rest : bytes) (pos : Z) (prev : option token) : ScriptTokenizer :=
  mkTok (pre ++ rest) 0 (zlen pre) pos
    (match prev with Some tk => Some (opcode_of (fst tk)) | None => None end)
    (match prev with Some tk => snd tk | None => [] end) None.

Definition tok_stuck (pre rest : bytes) (pos : Z) (prev : option token) : ScriptTokenizer :=
  mkTok (pre ++ rest) 0 (zlen pre) pos
    (match prev with Some tk => Some (opcode_of (fst tk)) | None => None end)
    (match prev with Some tk => snd tk | None => [] end)
    (Some (scriptError ErrMalformedPush)).

Lemma split_data_inv b rest n tk rest' :
  0 <= n -> split_data b rest n = Some (tk, rest') ->
  tk = (b, ztake n rest) /\ zlen (ztake n rest) = n /\ rest = ztake n rest ++ rest'.
Proof.
  unfold split_data. intros Hn. destruct (Z.ltb_spec (zlen rest) n); [done |].
  intros [= <- <-]. rewrite zlen_ztake, ztake_zdrop by lia. done.
Qed.

Lemma split_data_app b data rest :
  split_data b (data ++ rest) (zlen data) = Some ((b, data), rest).
Proof.
  unfold split_data. rewrite zlen_app. pose proof (zlen_nonneg rest).
  destruct (Z.ltb_spec (zlen data + zlen rest) (zlen data)); [lia |].
  now rewrite ztake_app, zdrop_app.
Qed.

Lemma parse_pushdata_inv b w rest tk rest' :
  0 <= w -> parse_pushdata b w rest = Some (tk, rest') ->
  fst tk = b /\ zlen (snd tk) < 256 ^ w /\ zlen (snd tk) < 2 ^ 31 /\
  rest = le_bytes (Z.to_nat w) (zlen (snd tk)) ++ snd tk ++ rest'.
Proof.
  unfold parse_pushdata. intros Hw. destruct (Z.ltb_spec (zlen rest) w) as [|Hl]; [done |].
  set (n := le_val (ztake w rest)). pose proof (le_val_range (ztake w rest)) as Hr.
  rewrite zlen_ztake in Hr by lia.
  destruct (Z.geb_spec n (2 ^ 31)); [done |].
  intros (-> & Hz & Hrest)%split_data_inv; [| lia]. cbn [fst snd]. rewrite Hz.
  split_and!; [done | lia | lia |].
  rewrite <- Hrest. rewrite <- (ztake_zdrop w rest) at 1. f_equal.
  rewrite <- (le_bytes_le_val (ztake w rest)). f_equal.
  unfold ztake. rewrite length_take. unfold zlen in Hl. lia.
Qed.

Lemma parse_pushdata_enc b w data rest :
  0 <= w -> zlen data < 256 ^ w -> zlen data < 2 ^ 31 ->
  parse_pushdata b w (le_bytes (Z.to_nat w) (zlen data) ++ data ++ rest) =
  Some ((b, data), rest).
Proof.
  intros Hw Hd Hd2. unfold parse_pushdata.
  pose proof (zlen_nonneg data). pose proof (zlen_nonneg rest).
  assert (Hlen : zlen (le_bytes (Z.to_nat w) (zlen data)) = w)
    by (rewrite zlen_le_bytes; lia).
  rewrite !zlen_app, Hlen.
  destruct (Z.ltb_spec (w + (zlen data + zlen rest)) w); [lia |].
  assert (Ht : forall x, ztake w (le_bytes (Z.to_nat w) (zlen data) ++ x) =
                         le_bytes (Z.to_nat w) (zlen data))
    by (intros x; rewrite <- Hlen at 1; apply ztake_app).
  assert (Hx : forall x, zdrop w (le_bytes (Z.to_nat w) (zlen data) ++ x) = x)
    by (intros x; rewrite <- Hlen at 1; apply zdrop_app).
  rewrite Ht, Hx, le_val_le_bytes_small by (rewrite Z2Nat.id; lia).
  destruct (Z.geb_spec (zlen data) (2 ^ 31)); [lia |]. apply split_data_app.
Qed.

Ltac push_cases b :=
  unfold OP_PUSHDATA1, OP_PUSHDATA2, OP_PUSHDATA4 in *;
  destruct (Z.leb_spec 1 (b2z b)); destruct (Z.leb_spec (b2z b) 75); cbn [andb];
  destruct (Z.eqb_spec (b2z b) 0x4c); try lia;
  destruct (Z.eqb_spec (b2z b) 0x4d); try lia;
  destruct (Z.eqb_spec (b2z b) 0x4e); try lia.

(** A parsed token is well formed and its encoding is what was read. *)
Lemma parse_token_inv script tk rest :
  parse_token script = Some (tk, rest) ->
  token_ok tk = true /\ script = enc_token tk ++ rest.
Proof.
  destruct script as [|b s]; [done |]. unfold parse_token, enc_token, len_bytes, token_ok.
  pose proof (b2z_range b).
  push_cases b; cbn [andb]; intros Hp;
    try (apply split_data_inv in Hp as (-> & Hz & Hs); [| lia]);
    try (apply parse_pushdata_inv in Hp as (Hf & Hz & Hz2 & Hs); [| lia]);
    try (injection Hp as <- <-).
  all: try (destruct tk as [b' d]; cbn [fst snd] in *; subst b').
  all: cbn [fst snd app].
  all: try rewrite zlen_nil; ztest; cbn [app].
  all: split; [done |].
  all: rewrite <- ?app_assoc; now f_equal.
Qed.

Lemma parse_token_enc tk rest :
  token_ok tk = true -> parse_token (enc_token tk ++ rest) = Some (tk, rest).
Proof.
  destruct tk as [b d]. unfold token_ok, enc_token, parse_token, len_bytes. cbn [fst snd app].
  pose proof (b2z_range b).
  push_cases b; intros Hok; cbn [app];
    (apply Z.eqb_eq in Hok || apply Z.ltb_lt in Hok);
    rewrite <- ?app_assoc; cbn [app].
  all: try (rewrite <- Hok; apply split_data_app).
  all: try (apply parse_pushdata_enc; lia).
  all: now apply zlen_0_nil in Hok as ->.
Qed.

Lemma enc_token_len tk : 1 <= zlen (enc_token tk).
Proof.
  unfold enc_token. autorewrite with zlen.
  pose proof (zlen_nonneg (len_bytes (fst tk) (snd tk))).
  pose proof (zlen_nonneg (snd tk)). lia.
Qed.

Lemma zdrop_app_exact {A} (l k : list A) i : i = zlen l -> zdrop i (l ++ k) = k.
Proof. intros ->. apply zdrop_app. Qed.

Lemma tok_advance_at pre b s pos prev d rest' n :
  zlen (pre ++ b :: s) < 2 ^ 31 -> parse_token (b :: s) = Some ((b, d), rest') ->
  n = zlen (enc_token (b, d)) ->
  tok_advance (tok_at pre (b :: s) pos prev) n (opcode_of b) d =
  tok_at (pre ++ enc_token (b, d)) rest' (int32 (pos + 1)) (Some (b, d)).
Proof.
  intros Hlen Hparse ->. apply parse_token_inv in Hparse as [_ Hs].
  unfold tok_advance, tok_at. cbn [t_script t_version t_offset t_opcodePos t_err fst snd].
  rewrite Hs, app_assoc in *. rewrite zlen_app in Hlen. rewrite zlen_app in *.
  pose proof (zlen_nonneg pre). pose proof (zlen_nonneg rest').
  pose proof (enc_token_len (b, d)). rewrite int32_small by lia. done.
Qed.

(** The int32 length read by OP_PUSHDATA4 is rejected exactly when it was sign
    extended or does not fit. *)
Lemma pushdata_cases {A} (L m : Z) (x : A) (k : Z -> A) :
  0 <= L < 2 ^ 32 -> 0 <= m < 2 ^ 31 ->
  (if (int32 L >? int32 m) || (int32 L <? 0) then x else k (int32 L)) =
  (if L >=? 2 ^ 31 then x else if m <? L then x else k L).
Proof.
  intros HL Hm. rewrite (int32_small m) by lia.
  destruct (Z.geb_spec L (2 ^ 31)).
  - assert (int32 L < 0) as Hneg.
    { replace L with ((L - 2 ^ 32) + 1 * 2 ^ 32) by lia. unfold wrapS.
      rewrite <- Z.add_assoc, (Z.add_comm (1 * _)), Z.add_assoc, Z_mod_plus_full.
      rewrite Z.mod_small; lia. }
    now ztest.
  - rewrite int32_small by lia. destruct (Z.ltb_spec m L); ztest; done.
Qed.

(** What a step of the reference parser makes of the cursor. *)
Definition step_result (pre rest : bytes) (pos : Z) (prev : option token)
  : res bool * ScriptTokenizer :=
  match parse_token rest with
  | Some (tk, rest') => (Ok true, tok_at (pre ++ enc_token tk) rest' (int32 (pos + 1)) (Some tk))
  | None => (Ok false, tok_stuck pre rest (int32 (pos + 1)) prev)
  end.

Lemma Next_pushdata pre b s pos prev w :
  1 <= w <= 4 -> zlen (pre ++ b :: s) < 2 ^ 31 ->
  parse_token (b :: s) = parse_pushdata b w s ->
  pushdata_len (- w) s = Some (int32 (le_val (ztake w s))) ->
  (forall d, zlen (len_bytes b d) = w) ->
  (if zlen s <? w then (Ok false, tok_stuck pre (b :: s) (int32 (pos + 1)) prev) else
   match pushdata_len (- w) s with
   | None => (Ok false, tok_stuck pre (b :: s) (int32 (pos + 1)) prev)
   | Some dataLen =>
       let script := zdrop w s in
       if (dataLen >? int32 (zlen script)) || (dataLen <? 0)
       then (Ok false, tok_stuck pre (b :: s) (int32 (pos + 1)) prev)
       else (Ok true, tok_advance (tok_at pre (b :: s) pos prev) (1 + w + dataLen)
                        (opcode_of b) (ztake dataLen script))
   end) = step_result pre (b :: s) pos prev.
Proof.
  intros Hw Hlen Hparse Hpl Hlb. unfold step_result. rewrite Hparse, Hpl.
  pose proof (tok_advance_at pre b s pos prev) as Hadv. rewrite Hparse in Hadv.
  unfold parse_pushdata, split_data in *.
  assert (zlen s < 2 ^ 31)
    by (revert Hlen; autorewrite with zlen; pose proof (zlen_nonneg pre); lia).
  destruct (Z.ltb_spec (zlen s) w); [done |].
  pose proof (le_val_range (ztake w s)) as Hr. rewrite zlen_ztake in Hr by lia.
  assert (256 ^ w <= 2 ^ 32) by (change (2 ^ 32) with (256 ^ 4); apply Z.pow_le_mono_r; lia).
  pose proof (zlen_zdrop w s ltac:(lia)) as Hzd.
  cbn zeta.
  rewrite (pushdata_cases (le_val (ztake w s)) (zlen (zdrop w s)) _
    (fun n => (Ok true, tok_advance (tok_at pre (b :: s) pos prev) (1 + w + n)
                        (opcode_of b) (ztake n (zdrop w s))))) by lia.
  destruct (Z.geb_spec (le_val (ztake w s)) (2 ^ 31)); [done |].
  destruct (Z.ltb_spec (zlen (zdrop w s)) (le_val (ztake w s))); [done |].
  f_equal. apply Hadv; [done | done |].
  unfold enc_token. cbn [fst snd]. rewrite zlen_cons, zlen_app, Hlb, zlen_ztake by lia. lia.
Qed.

(** [Next] on a cursor that has unread bytes does one step of the reference
    parser. *)
Lemma Next_spec pre rest pos prev :
  rest <> [] -> zlen (pre ++ rest) < 2 ^ 31 ->
  Next (tok_at pre rest pos prev) = step_result pre rest pos prev.
Proof.
  intros Hne Hlen. destruct rest as [|b s]; [done |].
  pose proof (zlen_nonneg pre) as Hp. pose proof (zlen_nonneg s) as Hs0.
  assert (Htot : zlen (pre ++ b :: s) = zlen pre + 1 + zlen s) by (autorewrite with zlen; lia).
  pose proof (tok_advance_at pre b s pos prev) as Hadv.
  unfold Next, Done. cbn [tok_at t_err t_offset t_script orb]. rewrite Htot.
  rewrite int32_small by lia. ztest. unfold index. rewrite (znth_app_exact pre s b) by done.
  rewrite zdrop_app, opcode_of_length.
  replace (zdrop (zlen pre + 1) (pre ++ b :: s)) with s
    by (replace (pre ++ b :: s) with ((pre ++ [b]) ++ s) by (rewrite <- app_assoc; done);
        symmetry; apply zdrop_app_exact; autorewrite with zlen; lia).
  fold (tok_at pre (b :: s) pos prev).
  change (tok_fail (tok_at pre (b :: s) pos prev))
    with (tok_stuck pre (b :: s) (int32 (pos + 1)) prev).
  pose proof (b2z_range b) as Hb. pose proof (Next_pushdata pre b s pos prev) as Hpush.
  unfold parse_token, len_bytes in Hadv, Hpush. revert Hadv Hpush.
  push_cases b; intros Hadv Hpush; ztest;
    [ | apply (Hpush 1) | apply (Hpush 2) | apply (Hpush 4) | | ];
    try lia; try done; try (intros; apply zlen_le_bytes);
    unfold step_result, parse_token; unfold OP_PUSHDATA1, OP_PUSHDATA2, OP_PUSHDATA4; ztest.
  - unfold split_data in *. rewrite zlen_cons.
    destruct (Z.ltb_spec (zlen s) (b2z b)); ztest; [done |].
    replace (zdrop 1 (ztake (b2z b + 1) (b :: s))) with (ztake (b2z b) s)
      by (unfold ztake, zdrop; replace (Z.to_nat (b2z b + 1)) with (S (Z.to_nat (b2z b))) by lia;
          done).
    f_equal. apply Hadv; [done | done |]. unfold enc_token, len_bytes. cbn [fst snd].
    unfold OP_PUSHDATA1, OP_PUSHDATA2, OP_PUSHDATA4. ztest.
    rewrite zlen_cons, zlen_app, zlen_nil, zlen_ztake by lia. lia.
  - f_equal. apply Hadv; [done | done |]. unfold enc_token, len_bytes. cbn [fst snd].
    unfold OP_PUSHDATA1, OP_PUSHDATA2, OP_PUSHDATA4. now ztest.
  - f_equal. apply Hadv; [done | done |]. unfold enc_token, len_bytes. cbn [fst snd].
    unfold OP_PUSHDATA1, OP_PUSHDATA2, OP_PUSHDATA4. now ztest.
Qed.

Lemma Next_end pre pos prev :
  zlen pre < 2 ^ 31 -> Next (tok_at pre [] pos prev) = (Ok false, tok_at pre [] pos prev).
Proof.
  intros Hp. unfold Next, Done. cbn [tok_at t_err t_offset t_script orb].
  rewrite app_nil_r. pose proof (zlen_nonneg pre). rewrite int32_small by lia. now ztest.
Qed.

(** * Loops over a script *)

(** Where the grammar stops: at the end, or at bytes that start no token. *)
Definition stuck (tail : bytes) : Prop := tail = [] \/ parse_token tail = None.

(** The run of a loop over the tokens [toks] of a script. *)
Fixpoint run_tokens {A R} (pre : bytes) (toks : list token) (tail : bytes) (pos : Z)
    (prev : option token) (acc : A)
    (body : ScriptTokenizer -> A -> R + A) (k : ScriptTokenizer -> A -> R) : R :=
  match toks with
  | [] => match tail with
          | [] => k (tok_at pre [] pos prev) acc
          | _ => k (tok_stuck pre tail (int32 (pos + 1)) prev) acc
          end
  | tk :: toks' =>
      let pre' := pre ++ enc_token tk in
      let pos' := int32 (pos + 1) in
      match body (tok_at pre' (enc_tokens toks' ++ tail) pos' (Some tk)) acc with
      | inl r => r
      | inr acc' => run_tokens pre' toks' tail pos' (Some tk) acc' body k
      end
  end.

Lemma enc_tokens_cons tk toks : enc_tokens (tk :: toks) = enc_token tk ++ enc_tokens toks.
Proof. reflexivity. Qed.

Lemma enc_tokens_app l k : enc_tokens (l ++ k) = enc_tokens l ++ enc_tokens k.
Proof. unfold enc_tokens. now rewrite map_app, concat_app. Qed.

Lemma enc_token_ne tk rest : enc_token tk ++ rest <> [].
Proof. discriminate. Qed.

Lemma for_next_run {A R} (body : ScriptTokenizer -> A -> R + A) k toks :
  forall fuel pre tail pos prev acc,
  Forall (fun tk => token_ok tk = true) toks -> stuck tail ->
  zlen (pre ++ enc_tokens toks ++ tail) < 2 ^ 31 -> (length toks < fuel)%nat ->
  for_next fuel (tok_at pre (enc_tokens toks ++ tail) pos prev) acc body k =
  Ok (run_tokens pre toks tail pos prev acc body k).
Proof.
  induction toks as [|tk toks IH]; intros fuel pre tail pos prev acc Hok Htail Hlen Hfuel;
    (destruct fuel as [|fuel]; [cbn in Hfuel; lia |]); cbn [for_next run_tokens].
  - change (enc_tokens [] ++ tail) with tail in *. destruct tail as [|b tail].
    + rewrite app_nil_r in Hlen. now rewrite Next_end.
    + destruct Htail as [|Htail]; [done |].
      rewrite Next_spec by done. unfold step_result. now rewrite Htail.
  - inversion_clear Hok as [|? ? H1 H2]. rewrite enc_tokens_cons, <- app_assoc in *.
    rewrite Next_spec by (done || apply enc_token_ne). unfold step_result.
    rewrite parse_token_enc by done. destruct (body _ _) as [r|acc']; [done |].
    apply IH; [done | done | | cbn in Hfuel; lia]. now rewrite <- app_assoc.
Qed.

Lemma parse_all script : exists toks tail,
  script = enc_tokens toks ++ tail /\ Forall (fun tk => token_ok tk = true) toks /\ stuck tail.
Proof.
  induction script as [script IH] using (induction_ltof1 _ (@length byte)). unfold ltof in IH.
  destruct (parse_token script) as [[tk rest]|] eqn:Hp; [| exists [], script; by (split_and!; [| | right])].
  apply parse_token_inv in Hp as [Hok ->].
  destruct (IH rest) as (toks & tail & -> & Hall & Hs).
  { rewrite length_app. unfold enc_token. cbn [length]. lia. }
  exists (tk :: toks), tail. rewrite enc_tokens_cons, <- app_assoc. auto.
Qed.

Lemma length_enc_tokens toks : (length toks <= length (enc_tokens toks))%nat.
Proof.
  induction toks as [|tk toks IH]; [done |].
  rewrite enc_tokens_cons, length_app. unfold enc_token. cbn [length]. lia.
Qed.

(** Every loop over a script runs to its end on the script's tokens. *)
Lemma loop_tokens_run {A R} toks tail (acc : A) (body : ScriptTokenizer -> A -> R + A) k :
  Forall (fun tk => token_ok tk = true) toks -> stuck tail ->
  zlen (enc_tokens toks ++ tail) < 2 ^ 31 ->
  loop_tokens 0 (enc_tokens toks ++ tail) acc body k =
  Ok (run_tokens [] toks tail (-1) None acc body k).
Proof.
  intros Hok Ht Hlen. unfold loop_tokens.
  apply (for_next_run body k toks _ [] tail (-1) None acc); [done | done | done |].
  rewrite length_app. pose proof (length_enc_tokens toks). lia.
Qed.

Lemma loop_tokens_Ok {A R} script (acc : A) (body : ScriptTokenizer -> A -> R + A) k :
  zlen script < 2 ^ 31 -> exists r, loop_tokens 0 script acc body k = Ok r.
Proof.
  intros Hlen. destruct (parse_all script) as (toks & tail & -> & Hok & Hs).
  rewrite loop_tokens_run by done. eauto.
Qed.

Lemma tok_at_token pre rest pos tk :
  (z2b (Opcode (tok_at pre rest pos (Some tk))), t_data (tok_at pre rest pos (Some tk))) = tk.
Proof.
  destruct tk as [b d]. unfold Opcode. cbn [tok_at t_op t_data fst snd].
  now rewrite opcode_of_value, z2b_b2z.
Qed.

Lemma run_tokens_collect toks : forall pre tail pos prev acc,
  run_tokens pre toks tail pos prev acc
    (fun t acc => inr (acc ++ [(z2b (Opcode t), t_data t)]))
    (fun t acc => (acc, t_err t)) =
  (acc ++ toks, match tail with [] => None | _ => Some (scriptError ErrMalformedPush) end).
Proof.
  induction toks as [|tk toks IH]; intros; cbn [run_tokens].
  - rewrite app_nil_r. now destruct tail.
  - rewrite tok_at_token, IH, <- app_assoc. done.
Qed.

(** * Theorems *)

(** Printing a list of well-formed tokens and tokenizing the result gives
    the tokens back, with no error. *)
Lemma tokenize_roundtrip toks :
  Forall (fun tk => token_ok tk = true) toks -> zlen (enc_tokens toks) < 2 ^ 31 ->
  tokenize (enc_tokens toks) = Ok (toks, None).
Proof.
  intros Hok Hlen. pose proof (app_nil_r (enc_tokens toks)) as Hnil.
  rewrite <- Hnil in Hlen |- *. unfold tokenize.
  rewrite loop_tokens_run by (done || now left). now rewrite run_tokens_collect.
Qed.

Lemma tokenize_roundtrip_witness :
  tokenize (enc_tokens [(x76, []); (x4c, [xff; x00]); (x02, [x01; x02])]) =
  Ok ([(x76, []); (x4c, [xff; x00]); (x02, [x01; x02])], None).
Proof.
  apply (tokenize_roundtrip [(x76, []); (x4c, [xff; x00]); (x02, [x01; x02])]);
    [repeat constructor | reflexivity].
Defined.

(** On every script shorter than 2^31 bytes the tokenizer terminates
    without a panic; the tokens it yields are well formed and are exactly a
    prefix of the script, and it reports ErrMalformedPush just when bytes are
    left that start no well-formed token. *)
Lemma tokenize_sound script :
  zlen script < 2 ^ 31 ->
  exists toks tail err,
    tokenize script = Ok (toks, err) /\ script = enc_tokens toks ++ tail /\
    Forall (fun tk => token_ok tk = true) toks /\
    (err = None /\ tail = [] \/
     err = Some (scriptError ErrMalformedPush) /\ tail <> [] /\
     forall tk rest, token_ok tk = true -> tail <> enc_token tk ++ rest).
Proof.
  intros Hlen. destruct (parse_all script) as (toks & tail & -> & Hok & Hs).
  exists toks, tail. eexists. split.
  { unfold tokenize. rewrite loop_tokens_run by done. now rewrite run_tokens_collect. }
  split_and!; [done | done |]. destruct tail as [|b tail]; [by left |]. right.
  split_and!; [done | done |]. intros tk rest Htk Heq.
  destruct Hs as [|Hs]; [done |]. rewrite Heq, parse_token_enc in Hs; done.
Qed.

Lemma tokenize_sound_witness :
  exists toks tail err,
    tokenize [x76; x4c; x05; x01] = Ok (toks, err) /\
    [x76; x4c; x05; x01] = enc_tokens toks ++ tail /\
    Forall (fun tk => token_ok tk = true) toks /\
    (err = None /\ tail = [] \/
     err = Some (scriptError ErrMalformedPush) /\ tail <> [] /\
     forall tk rest, token_ok tk = true -> tail <> enc_token tk ++ rest).
Proof. apply (tokenize_sound [x76; x4c; x05; x01]). reflexivity. Defined.
