(* ===== verification/WireCommon.v ===== *)
(** Primitive encodings of the wire protocol (src/btcd/wire/common.go):
    variable length integers and length-prefixed byte strings.  A reader is the
    list of bytes still to be read; a writer is the list of bytes written (the
    writers of the program are in-memory buffers and hash states, which do not
    fail).  [Codec] is the contract a pair of read and write functions gives
    its callers: what is written is read back, and what is read is exactly what
    would be written. *)
From S2P Require Import Prelude.

Inductive WireError : Set :=
| EOF                    (* io.EOF *)
| UnexpectedEOF          (* io.ErrUnexpectedEOF *)
| MessageError           (* *wire.MessageError *)
| SuperfluousWitness.    (* errSuperfluousWitnessRecord *)

#[global] Instance WireError_eq_dec : EqDecision WireError.
Proof. solve_decision. Defined.

Abbreviation Rd := (M bytes WireError).

(** [io.ReadFull(r, buf[:n])] *)
Definition ReadFull (n : Z) : Rd bytes := fun r =>
  if n <=? 0 then (Ok [], r)
  else if zlen r =? 0 then (Err EOF, r)
  else if zlen r <? n then (Err UnexpectedEOF, [])
  else (Ok (ztake n r), zdrop n r).

Definition readUint (n : Z) : Rd Z :=
  buf <- ReadFull n;;
  ret (le_val buf).

Definition MaxMessagePayload : Z := 1024 * 1024 * 32.

Definition ReadVarIntBuf : Rd Z :=
  d <- readUint 1;;
  if d =? 0xff then
    rv <- readUint 8;;
    if rv <? 0x100000000 then fail MessageError else ret rv
  else if d =? 0xfe then
    rv <- readUint 4;;
    if rv <? 0x10000 then fail MessageError else ret rv
  else if d =? 0xfd then
    rv <- readUint 2;;
    if rv <? 0xfd then fail MessageError else ret rv
  else ret d.

Definition WriteVarIntBuf (val : Z) : bytes :=
  if val <? 0xfd then le_bytes 1 val
  else if val <=? 2 ^ 16 - 1 then xfd :: le_bytes 2 val
  else if val <=? 2 ^ 32 - 1 then xfe :: le_bytes 4 val
  else xff :: le_bytes 8 val.

Definition VarIntSerializeSize (val : Z) : Z :=
  if val <? 0xfd then 1
  else if val <=? 2 ^ 16 - 1 then 3
  else if val <=? 2 ^ 32 - 1 then 5
  else 9.

Definition ReadVarBytesBuf (maxAllowed : Z) : Rd bytes :=
  count <- ReadVarIntBuf;;
  guard (count >? maxAllowed) MessageError;;
  ReadFull count.

Definition WriteVarBytesBuf (b : bytes) : bytes := WriteVarIntBuf (zlen b) ++ b.

(** [readVarStringBuf] and [writeVarStringBuf]: a Go string is its bytes. *)
Definition readVarStringBuf : Rd bytes :=
  count <- ReadVarIntBuf;;
  guard (count >? MaxMessagePayload) MessageError;;
  ReadFull count.

Definition writeVarStringBuf (str : bytes) : bytes :=
  WriteVarIntBuf (zlen str) ++ str.

(** * Codecs *)

Class Codec {A : Type} (ok : A -> Prop) (enc : A -> bytes) (dec : Rd A) : Prop := {
  (** what is written is read back, and nothing more is consumed *)
  codec_roundtrip : forall a rest, ok a -> dec (enc a ++ rest) = (Ok a, rest);
  (** what is read is admissible and is the only thing that encodes to the
      bytes consumed *)
  codec_canonical : forall r a r', dec r = (Ok a, r') -> ok a /\ r = enc a ++ r';
}.

(** A reader that cannot panic. *)
Class PanicFree {A : Type} (dec : Rd A) : Prop :=
  panic_free : forall r, fst (dec r) <> Panic.

(** A reader only consumes. *)
Lemma codec_consumes {A} (ok : A -> Prop) enc dec `{!Codec ok enc dec} r a r' :
  dec r = (Ok a, r') -> zlen r' = zlen r - zlen (enc a).
Proof. intros [_ ->]%(codec_canonical (Codec := Codec0)). rewrite zlen_app. lia. Qed.

(** * Primitive codecs *)

#[global] Instance ReadFull_codec n :
  0 <= n -> Codec (fun b => zlen b = n) (fun b => b) (ReadFull n).
Proof.
  intros Hn. split.
  - intros a rest Ha. unfold ReadFull. rewrite zlen_app. pose proof (zlen_nonneg rest).
    destruct (Z.leb_spec n 0).
    + assert (a = []) as -> by (apply zlen_0_nil; lia). done.
    + ztest. rewrite <- Ha, ztake_app, zdrop_app. done.
  - intros r a r'. unfold ReadFull. pose proof (zlen_nonneg r).
    destruct (Z.leb_spec n 0); [intros [= <- <-]; rewrite zlen_nil; split; [lia | done] |].
    destruct (Z.eqb_spec (zlen r) 0); [done |].
    destruct (Z.ltb_spec (zlen r) n); [done |].
    intros [= <- <-]. split; [apply zlen_ztake; lia | symmetry; apply ztake_zdrop].
Qed.

#[global] Instance ReadFull_panic_free n : PanicFree (ReadFull n).
Proof.
  intros r. unfold ReadFull. repeat case_match; done.
Qed.

#[global] Instance readUint_codec n :
  0 <= n -> Codec (fun z => 0 <= z < 256 ^ n) (le_bytes (Z.to_nat n)) (readUint n).
Proof.
  intros Hn. pose proof (ReadFull_codec n Hn) as C. split.
  - intros z rest Hz. unfold readUint.
    rewrite (bind_Ok _ _ _ (le_bytes (Z.to_nat n) z) rest).
    + unfold ret. rewrite le_val_le_bytes_small by (rewrite Z2Nat.id; lia). done.
    + apply (codec_roundtrip (Codec := C)). rewrite zlen_le_bytes. lia.
  - intros r z r' H. unfold readUint in H. run_inv.
    match goal with H : ReadFull _ _ = _ |- _ =>
      apply (codec_canonical (Codec := C)) in H as [Hlen ->] end.
    pose proof (le_val_range x) as Hr. rewrite Hlen in Hr. split; [done |].
    f_equal. rewrite <- (le_bytes_le_val x) at 1. f_equal. unfold zlen in Hlen. lia.
Qed.

#[global] Instance bind_panic_free {A B} (m : Rd A) (k : A -> Rd B) :
  PanicFree m -> (forall a, PanicFree (k a)) -> PanicFree (bind m k).
Proof. intros Hm Hk r. apply bind_not_Panic; [apply Hm | intros; apply Hk]. Qed.

#[global] Instance ret_panic_free {A} (a : A) : PanicFree (ret a).
Proof. by intros r. Qed.

#[global] Instance fail_panic_free {A} e : PanicFree (A := A) (fail e).
Proof. by intros r. Qed.

#[global] Instance guard_panic_free b e : PanicFree (guard b e).
Proof. unfold guard. destruct b; apply _. Qed.

#[global] Instance if_panic_free {A} (b : bool) (m k : Rd A) :
  PanicFree m -> PanicFree k -> PanicFree (if b then m else k).
Proof. by destruct b. Qed.

#[global] Instance readUint_panic_free n : PanicFree (readUint n).
Proof. apply _. Qed.

#[global] Instance ReadVarIntBuf_panic_free : PanicFree ReadVarIntBuf.
Proof. apply _. Qed.

(** Run the next integer read on bytes that start with its encoding, and invert
    a successful one. *)
Lemma readUint_app n z rest :
  0 <= n -> 0 <= z < 256 ^ n ->
  readUint n (le_bytes (Z.to_nat n) z ++ rest) = (Ok z, rest).
Proof. intros Hn. apply (codec_roundtrip (Codec := readUint_codec n Hn)). Qed.

Lemma readUint_inv n r z r' :
  0 <= n -> readUint n r = (Ok z, r') ->
  0 <= z < 256 ^ n /\ r = le_bytes (Z.to_nat n) z ++ r'.
Proof. intros Hn. apply (codec_canonical (Codec := readUint_codec n Hn)). Qed.

Ltac read_inv :=
  repeat match goal with
  | H : readUint ?n _ = (Ok _, _) |- _ =>
      apply readUint_inv in H; [destruct H as [? ?] | lia]
  end; subst.

#[global] Instance ReadVarIntBuf_codec :
  Codec (fun v => 0 <= v < 2 ^ 64) WriteVarIntBuf ReadVarIntBuf.
Proof.
  split.
  - intros v rest Hv. unfold WriteVarIntBuf, ReadVarIntBuf.
    destruct (Z.ltb_spec v 0xfd).
    { rewrite (bind_Ok _ _ _ v rest) by (apply (readUint_app 1); lia). ztest. done. }
    destruct (Z.leb_spec v (2 ^ 16 - 1)); [| destruct (Z.leb_spec v (2 ^ 32 - 1))].
    + rewrite (bind_Ok _ _ _ 0xfd (le_bytes 2 v ++ rest)) by (apply (readUint_app 1 0xfd); lia).
      cbn [Z.eqb Pos.eqb].
      rewrite (bind_Ok _ _ _ v rest) by (apply (readUint_app 2); lia). now ztest.
    + rewrite (bind_Ok _ _ _ 0xfe (le_bytes 4 v ++ rest)) by (apply (readUint_app 1 0xfe); lia).
      cbn [Z.eqb Pos.eqb].
      rewrite (bind_Ok _ _ _ v rest) by (apply (readUint_app 4); lia). now ztest.
    + rewrite (bind_Ok _ _ _ 0xff (le_bytes 8 v ++ rest)) by (apply (readUint_app 1 0xff); lia).
      cbn [Z.eqb Pos.eqb].
      rewrite (bind_Ok _ _ _ v rest) by (apply (readUint_app 8); lia). now ztest.
  - intros r v r' Hrd. unfold ReadVarIntBuf in Hrd. run_inv. unfold WriteVarIntBuf.
    destruct (Z.eqb_spec x 0xff); [| destruct (Z.eqb_spec x 0xfe);
      [| destruct (Z.eqb_spec x 0xfd)]]; run_inv;
      try match goal with H : (if ?a <? ?b then _ else _) _ = _ |- _ =>
        destruct (Z.ltb_spec a b); [discriminate H |]; injection H as -> -> end;
      read_inv; (split; [lia |]); ztest; done.
Qed.

Lemma zlen_WriteVarIntBuf v : zlen (WriteVarIntBuf v) = VarIntSerializeSize v.
Proof.
  unfold WriteVarIntBuf, VarIntSerializeSize. repeat case_match; reflexivity.
Qed.

Lemma VarIntSerializeSize_range v : 1 <= VarIntSerializeSize v <= 9.
Proof. unfold VarIntSerializeSize. repeat case_match; lia. Qed.

(** Length-prefixed bytes with an upper bound on the length. *)
Lemma readCounted_codec maxAllowed :
  0 <= maxAllowed < 2 ^ 64 ->
  Codec (fun b => zlen b <= maxAllowed) WriteVarBytesBuf
    (count <- ReadVarIntBuf;; guard (count >? maxAllowed) MessageError;; ReadFull count).
Proof.
  intros Hmax. split.
  - intros b rest Hb. unfold WriteVarBytesBuf. rewrite <- app_assoc. pose proof (zlen_nonneg b).
    rewrite (bind_Ok _ _ _ (zlen b) (b ++ rest))
      by (apply (codec_roundtrip (Codec := ReadVarIntBuf_codec)); lia).
    ztest. rewrite bind_eq, guard_false. now apply (codec_roundtrip (Codec := ReadFull_codec _ H)).
  - intros r b r' H. run_inv.
    match goal with H : ReadVarIntBuf _ = _ |- _ =>
      apply (codec_canonical (Codec := ReadVarIntBuf_codec)) in H as [Hx ->] end.
    apply (codec_canonical (Codec := ReadFull_codec x (proj1 Hx))) in H as [Hl ->].
    unfold WriteVarBytesBuf. rewrite Hl, <- app_assoc. split; [lia | done].
Qed.

#[global] Instance ReadVarBytesBuf_codec maxAllowed :
  0 <= maxAllowed < 2 ^ 64 ->
  Codec (fun b => zlen b <= maxAllowed) WriteVarBytesBuf (ReadVarBytesBuf maxAllowed).
Proof. apply readCounted_codec. Qed.

#[global] Instance readVarStringBuf_codec :
  Codec (fun b => zlen b <= MaxMessagePayload) writeVarStringBuf readVarStringBuf.
Proof. apply (readCounted_codec MaxMessagePayload). split; [discriminate | reflexivity]. Qed.

Lemma zlen_WriteVarBytesBuf b :
  zlen (WriteVarBytesBuf b) = VarIntSerializeSize (zlen b) + zlen b.
Proof. unfold WriteVarBytesBuf. now rewrite zlen_app, zlen_WriteVarIntBuf. Qed.

(** * Theorems *)

(** Variable length integers: every uint64 is read back from its encoding
    with nothing else consumed, the encoding has the length
    [VarIntSerializeSize] announces, and every accepted encoding is the shortest
    one, so no integer has two. *)
Lemma varint_codec v r rest :
  (0 <= v < 2 ^ 64 ->
   ReadVarIntBuf (WriteVarIntBuf v ++ rest) = (Ok v, rest) /\
   zlen (WriteVarIntBuf v) = VarIntSerializeSize v) /\
  (ReadVarIntBuf r = (Ok v, rest) -> 0 <= v < 2 ^ 64 /\ r = WriteVarIntBuf v ++ rest).
Proof.
  split.
  - intros Hv. split; [| apply zlen_WriteVarIntBuf].
    now apply (codec_roundtrip (Codec := ReadVarIntBuf_codec)).
  - apply (codec_canonical (Codec := ReadVarIntBuf_codec)).
Qed.

Lemma varint_codec_witness :
  ReadVarIntBuf [xfd; xfd; x00; x07] = (Ok 253, [x07]) /\
  0 <= 253 < 2 ^ 64 /\ [xfd; xfd; x00; x07] = WriteVarIntBuf 253 ++ [x07].
Proof.
  split; [reflexivity |].
  apply (proj2 (varint_codec 253 [xfd; xfd; x00; x07] [x07])). reflexivity.
Defined.
