(* ===== verification/MsgTx.v ===== *)
(** The transaction message (src/btcd/wire/msgtx.go): decoding through the
    shared script slab, encoding and size accounting. *)
From S2P Require Import Prelude WireCommon.

(** * Data *)

Definition HashSize : Z := 32.

Record OutPoint := mkOutPoint {
  Hash : bytes;
  Index : Z;
}.

Record TxIn := mkTxIn {
  PreviousOutPoint : OutPoint;
  SignatureScript : bytes;
  Witness : list bytes;
  Sequence : Z;
}.

Record TxOut := mkTxOut {
  Value : Z;
  PkScript : bytes;
}.

Record MsgTx := mkMsgTx {
  Version : Z;
  TxIns : list TxIn;      (* field TxIn *)
  TxOuts : list TxOut;    (* field TxOut *)
  LockTime : Z;
}.

#[global] Instance OutPoint_eq_dec : EqDecision OutPoint.
Proof. solve_decision. Defined.
#[global] Instance TxIn_eq_dec : EqDecision TxIn.
Proof. solve_decision. Defined.
#[global] Instance TxOut_eq_dec : EqDecision TxOut.
Proof. solve_decision. Defined.
#[global] Instance MsgTx_eq_dec : EqDecision MsgTx.
Proof. solve_decision. Defined.

Inductive MessageEncoding := BaseEncoding | WitnessEncoding.

Definition is_WitnessEncoding (enc : MessageEncoding) : bool :=
  match enc with WitnessEncoding => true | BaseEncoding => false end.

Definition TxVersion : Z := 1.
Definition MaxTxInSequenceNum : Z := 0xffffffff.
Definition MaxPrevOutIndex : Z := 0xffffffff.
Definition SequenceLockTimeDisabled : Z := Z.shiftl 1 31.
Definition SequenceLockTimeIsSeconds : Z := Z.shiftl 1 22.
Definition SequenceLockTimeMask : Z := 0x0000ffff.
Definition minTxInPayload : Z := 9 + HashSize.
Definition maxTxInPerMessage : Z := MaxMessagePayload / minTxInPayload + 1.
Definition MinTxOutPayload : Z := 9.
Definition maxTxOutPerMessage : Z := MaxMessagePayload / MinTxOutPayload + 1.
Definition maxWitnessItemsPerInput : Z := 4000000.
Definition maxWitnessItemSize : Z := 4000000.
Definition scriptSlabSize : Z := Z.shiftl 1 22.
Definition TxFlagMarker : Z := 0x00.
Definition WitnessFlag : Z := 0x01.

(** * The script slab

    Every script of a transaction is first read into one borrowed slab of
    [scriptSlabSize] bytes.  [sbuf] is the part of it that is still free: what
    matters is its capacity, since [s[:count]] panics beyond it, and the scripts
    read so far lie below it, so no later read overwrites them.
    [totalScriptSize] is the sum of their lengths. *)
Record slab := mkSlab {
  scap : Z;
  totalScriptSize : Z;
}.

(** [totalScriptSize += uint64(n); sbuf = sbuf[n:]] *)
Definition use (sb : slab) (n : Z) : slab :=
  {| scap := scap sb - n; totalScriptSize := totalScriptSize sb + n |}.

Definition readOutPointBuf : Rd OutPoint :=
  h <- ReadFull HashSize;;
  i <- readUint 4;;
  ret {| Hash := h; Index := i |}.

Definition readScriptBuf (s : Z) : Rd bytes :=
  count <- ReadVarIntBuf;;
  guard (count >? maxWitnessItemSize) MessageError;;
  if count >? s then panic else ReadFull count.

Definition readTxInBuf (s : Z) : Rd TxIn :=
  op <- readOutPointBuf;;
  sc <- readScriptBuf s;;
  sq <- readUint 4;;
  ret {| PreviousOutPoint := op; SignatureScript := sc; Witness := []; Sequence := sq |}.

Definition readTxOutBuf (s : Z) : Rd TxOut :=
  v <- readUint 8;;
  sc <- readScriptBuf s;;
  ret {| Value := int64 v; PkScript := sc |}.

(** The loops of [btcDecode]: one iteration reads an element and advances the
    slab. *)
Fixpoint read_loop {A} (body : slab -> Rd (A * slab)) (n : nat) (sb : slab)
  : Rd (list A * slab) :=
  match n with
  | O => ret ([], sb)
  | S n =>
      p <- body sb;;
      q <- read_loop body n (snd p);;
      ret (fst p :: fst q, snd q)
  end.

Definition txin_body (sb : slab) : Rd (TxIn * slab) :=
  ti <- readTxInBuf (scap sb);;
  ret (ti, use sb (zlen (SignatureScript ti))).

Definition txout_body (sb : slab) : Rd (TxOut * slab) :=
  to <- readTxOutBuf (scap sb);;
  ret (to, use sb (zlen (PkScript to))).

Definition witness_item_body (sb : slab) : Rd (bytes * slab) :=
  item <- readScriptBuf (scap sb);;
  ret (item, use sb (zlen item)).

Definition witness_body (sb : slab) : Rd (list bytes * slab) :=
  witCount <- ReadVarIntBuf;;
  guard (witCount >? maxWitnessItemsPerInput) MessageError;;
  read_loop witness_item_body (Z.to_nat witCount) sb.

Definition set_Witness (ti : TxIn) (w : list bytes) : TxIn :=
  {| PreviousOutPoint := PreviousOutPoint ti; SignatureScript := SignatureScript ti;
     Witness := w; Sequence := Sequence ti |}.

Definition HasWitness (msg : MsgTx) : bool :=
  existsb (fun ti => negb (zlen (Witness ti) =? 0)) (TxIns msg).

(** * Compaction

    The scripts are moved from the slab into one buffer of exactly
    [totalScriptSize] bytes; each field becomes a view of that buffer, so its
    value is what the buffer holds there at the end, after all the copies. *)
Definition view : Type := Z * Z.

Definition compactM := M (bytes * Z) WireError.

(** [copy(scripts[offset:], src); end := offset + len(src);
    ... = scripts[offset:end:end]; offset += len(src)] *)
Definition place (src : bytes) : compactM view := fun st =>
  let '(scripts, offset) := st in
  if offset >? zlen scripts then (Panic, st)
  else
    let n := Z.min (zlen scripts - offset) (zlen src) in
    let scripts' := ztake offset scripts ++ ztake n src ++ zdrop (offset + n) scripts in
    let end_ := offset + zlen src in
    if end_ >? zlen scripts' then (Panic, (scripts', offset))
    else (Ok (offset, end_), (scripts', end_)).

Definition resolve (scripts : bytes) (v : view) : bytes :=
  ztake (snd v - fst v) (zdrop (fst v) scripts).

Fixpoint mapM {S E A B} (f : A -> M S E B) (l : list A) : M S E (list B) :=
  match l with
  | [] => ret []
  | a :: l => b <- f a;; bs <- mapM f l;; ret (b :: bs)
  end.

Definition place_txin (ti : TxIn) : compactM (view * list view) :=
  v <- place (SignatureScript ti);;
  vs <- mapM place (Witness ti);;
  ret (v, vs).

Definition compact (msg : MsgTx) (totalScriptSize : Z) : outcome WireError MsgTx :=
  let scripts := replicate (Z.to_nat totalScriptSize) x00 in
  match (ins <- mapM place_txin (TxIns msg);;
         outs <- mapM (fun to => place (PkScript to)) (TxOuts msg);;
         ret (ins, outs)) (scripts, 0) with
  | (Ok (ins, outs), (scripts, _)) =>
      Ok {| Version := Version msg;
            TxIns := zip_with (fun ti vs =>
              {| PreviousOutPoint := PreviousOutPoint ti;
                 SignatureScript := resolve scripts (fst vs);
                 Witness := resolve scripts <$> snd vs;
                 Sequence := Sequence ti |}) (TxIns msg) ins;
            TxOuts := zip_with (fun to v =>
              {| Value := Value to; PkScript := resolve scripts v |}) (TxOuts msg) outs;
            LockTime := LockTime msg |}
  | (Err e, _) => Err e
  | (Panic, _) => Panic
  end.

(** * Decoding *)

(** The flag and the input count: a count of zero is the flag marker. *)
Definition read_txin_count (enc : MessageEncoding) : Rd (Z * Z) :=
  count <- ReadVarIntBuf;;
  if (count =? TxFlagMarker) && is_WitnessEncoding enc then
    flag <- readUint 1;;
    guard (negb (flag =? WitnessFlag)) MessageError;;
    count <- ReadVarIntBuf;;
    ret (flag, count)
  else ret (0, count).

(** The witnesses of all inputs, when the flag announces them. *)
Definition read_witnesses (enc : MessageEncoding) (flag : Z) (txins : list TxIn) (sb : slab)
  : Rd (list TxIn * slab) :=
  if negb (flag =? 0) && is_WitnessEncoding enc then
    w <- read_loop witness_body (length txins) sb;;
    let txins := zip_with set_Witness txins (fst w) in
    guard (negb (HasWitness (mkMsgTx 0 txins [] 0))) SuperfluousWitness;;
    ret (txins, snd w)
  else ret (txins, sb).

Definition btcDecode (enc : MessageEncoding) (sbuf : Z) : Rd MsgTx :=
  ver <- readUint 4;;
  fc <- read_txin_count enc;;
  let flag := fst fc in
  let count := snd fc in
  guard (count >? maxTxInPerMessage) MessageError;;
  p <- read_loop txin_body (Z.to_nat count) {| scap := sbuf; totalScriptSize := 0 |};;
  count <- ReadVarIntBuf;;
  guard (count >? maxTxOutPerMessage) MessageError;;
  q <- read_loop txout_body (Z.to_nat count) (snd p);;
  w <- read_witnesses enc flag (fst p) (snd q);;
  lt <- readUint 4;;
  lift (compact {| Version := int32 ver; TxIns := fst w; TxOuts := fst q; LockTime := lt |}
                (totalScriptSize (snd w))).

Definition BtcDecode (enc : MessageEncoding) : Rd MsgTx := btcDecode enc scriptSlabSize.
Definition Deserialize : Rd MsgTx := BtcDecode WitnessEncoding.
Definition DeserializeNoWitness : Rd MsgTx := BtcDecode BaseEncoding.

(** * Encoding *)

Definition writeOutPointBuf (op : OutPoint) : bytes := Hash op ++ le_bytes 4 (Index op).

Definition writeTxInBuf (ti : TxIn) : bytes :=
  writeOutPointBuf (PreviousOutPoint ti) ++
  WriteVarBytesBuf (SignatureScript ti) ++
  le_bytes 4 (Sequence ti).

Definition WriteTxOutBuf (to : TxOut) : bytes :=
  le_bytes 8 (uint64 (Value to)) ++ WriteVarBytesBuf (PkScript to).

Definition writeTxWitnessBuf (wit : list bytes) : bytes :=
  WriteVarIntBuf (zlen wit) ++ concat (WriteVarBytesBuf <$> wit).

Definition btcEncode (enc : MessageEncoding) (msg : MsgTx) : bytes :=
  let doWitness := is_WitnessEncoding enc && HasWitness msg in
  le_bytes 4 (uint32 (Version msg)) ++
  (if doWitness then [z2b TxFlagMarker; z2b WitnessFlag] else []) ++
  WriteVarIntBuf (zlen (TxIns msg)) ++
  concat (writeTxInBuf <$> TxIns msg) ++
  WriteVarIntBuf (zlen (TxOuts msg)) ++
  concat (WriteTxOutBuf <$> TxOuts msg) ++
  (if doWitness then concat ((fun ti => writeTxWitnessBuf (Witness ti)) <$> TxIns msg) else []) ++
  le_bytes 4 (LockTime msg).

Definition BtcEncode (enc : MessageEncoding) (msg : MsgTx) : bytes := btcEncode enc msg.
Definition Serialize (msg : MsgTx) : bytes := BtcEncode WitnessEncoding msg.
Definition SerializeNoWitness (msg : MsgTx) : bytes := BtcEncode BaseEncoding msg.

(** * Sizes *)

Definition zsum {A} (f : A -> Z) (l : list A) : Z := foldr (fun a n => f a + n) 0 l.

Definition TxIn_SerializeSize (t : TxIn) : Z :=
  40 + VarIntSerializeSize (zlen (SignatureScript t)) + zlen (SignatureScript t).

Definition TxWitness_SerializeSize (t : list bytes) : Z :=
  VarIntSerializeSize (zlen t) +
  zsum (fun witItem => VarIntSerializeSize (zlen witItem) + zlen witItem) t.

Definition TxOut_SerializeSize (t : TxOut) : Z :=
  8 + VarIntSerializeSize (zlen (PkScript t)) + zlen (PkScript t).

Definition baseSize (msg : MsgTx) : Z :=
  8 + VarIntSerializeSize (zlen (TxIns msg)) + VarIntSerializeSize (zlen (TxOuts msg)) +
  zsum TxIn_SerializeSize (TxIns msg) + zsum TxOut_SerializeSize (TxOuts msg).

Definition SerializeSize (msg : MsgTx) : Z :=
  baseSize msg +
  (if HasWitness msg then
     2 + zsum (fun ti => TxWitness_SerializeSize (Witness ti)) (TxIns msg)
   else 0).

Definition SerializeSizeStripped (msg : MsgTx) : Z := baseSize msg.

(** [PkScriptLocs] tests whether the first input's witness is the nil slice,
    which a list cannot tell from an empty one: [firstWitnessNotNil] stands for
    [msg.TxIn[0].Witness != nil]. *)
Fixpoint pkScriptLocs_loop (n : Z) (outs : list TxOut) : list Z :=
  match outs with
  | [] => []
  | to :: outs =>
      let n := n + 8 + VarIntSerializeSize (zlen (PkScript to)) in
      n :: pkScriptLocs_loop (n + zlen (PkScript to)) outs
  end.

Definition PkScriptLocs (firstWitnessNotNil : bool) (msg : MsgTx) : list Z :=
  let numTxOut := zlen (TxOuts msg) in
  if numTxOut =? 0 then []
  else
    let n := 4 + VarIntSerializeSize (zlen (TxIns msg)) + VarIntSerializeSize numTxOut in
    let n := if (zlen (TxIns msg) >? 0) && firstWitnessNotNil then n + 2 else n in
    let n := n + zsum TxIn_SerializeSize (TxIns msg) in
    pkScriptLocs_loop n (TxOuts msg).

(** * Construction *)

Definition NewOutPoint (hash : bytes) (index : Z) : OutPoint := mkOutPoint hash index.
Definition NewTxIn (prevOut : OutPoint) (signatureScript : bytes) (witness : list bytes) : TxIn :=
  mkTxIn prevOut signatureScript witness MaxTxInSequenceNum.
Definition NewTxOut (value : Z) (pkScript : bytes) : TxOut := mkTxOut value pkScript.
Definition NewMsgTx (version : Z) : MsgTx := mkMsgTx version [] [] 0.
Definition AddTxIn (msg : MsgTx) (ti : TxIn) : MsgTx :=
  mkMsgTx (Version msg) (TxIns msg ++ [ti]) (TxOuts msg) (LockTime msg).
Definition AddTxOut (msg : MsgTx) (to : TxOut) : MsgTx :=
  mkMsgTx (Version msg) (TxIns msg) (TxOuts msg ++ [to]) (LockTime msg).

(** * Slab codecs

    The contract of a decoder that stores what it reads in the slab: [sz a] is
    the space element [a] takes there. *)
Class SlabCodec {A : Type} (ok : A -> Prop) (enc : A -> bytes) (sz : A -> Z)
    (dec : slab -> Rd (A * slab)) : Prop := {
  sc_roundtrip : forall a sb rest, ok a -> sz a <= scap sb ->
    dec sb (enc a ++ rest) = (Ok (a, use sb (sz a)), rest);
  sc_canonical : forall sb r a sb' r', dec sb r = (Ok (a, sb'), r') ->
    ok a /\ (0 <= scap sb -> sz a <= scap sb) /\ sb' = use sb (sz a) /\ r = enc a ++ r';
  (** no slice of the slab is out of range while the unread input and one more
      script of maximal size fit into it *)
  sc_safe : forall sb r, zlen r + maxWitnessItemSize <= scap sb -> fst (dec sb r) <> Panic;
  sc_size : forall a, 0 <= sz a <= zlen (enc a);
}.

Lemma use_use sb a b : use (use sb a) b = use sb (a + b).
Proof. unfold use. cbn [scap totalScriptSize]. f_equal; lia. Qed.

Lemma use_0 sb : use sb 0 = sb.
Proof. destruct sb. unfold use. cbn [scap totalScriptSize]. f_equal; lia. Qed.

(** After a successful read the slab still has room for the rest. *)
Lemma sc_room {A} (ok : A -> Prop) enc sz dec `{!SlabCodec ok enc sz dec} sb r a sb' r' :
  dec sb r = (Ok (a, sb'), r') -> zlen r + maxWitnessItemSize <= scap sb ->
  zlen r' + maxWitnessItemSize <= scap sb'.
Proof.
  intros (_ & _ & -> & ->)%(sc_canonical (SlabCodec := SlabCodec0)) Hr.
  pose proof (sc_size (SlabCodec := SlabCodec0) a). cbn [use scap]. rewrite zlen_app in Hr. lia.
Qed.

(** A plain codec of length-prefixed scripts, read into the slab. *)
Lemma readScriptBuf_roundtrip s b rest :
  zlen b <= maxWitnessItemSize -> zlen b <= s ->
  readScriptBuf s (WriteVarBytesBuf b ++ rest) = (Ok b, rest).
Proof.
  intros H1 H2. unfold readScriptBuf, WriteVarBytesBuf. rewrite <- app_assoc.
  pose proof (zlen_nonneg b) as Hb. unfold maxWitnessItemSize in *.
  rewrite (bind_Ok _ _ _ (zlen b) (b ++ rest))
    by (apply (codec_roundtrip (Codec := ReadVarIntBuf_codec)); lia).
  ztest. rewrite bind_eq, guard_false. now apply (codec_roundtrip (Codec := ReadFull_codec _ Hb)).
Qed.

Lemma readScriptBuf_canonical s r b r' :
  readScriptBuf s r = (Ok b, r') ->
  zlen b <= maxWitnessItemSize /\ zlen b <= s /\ r = WriteVarBytesBuf b ++ r'.
Proof.
  intros H. unfold readScriptBuf in H. run_inv.
  match goal with H : ReadVarIntBuf _ = _ |- _ =>
    apply (codec_canonical (Codec := ReadVarIntBuf_codec)) in H as [Hx ->] end.
  destruct (x >? s) eqn:Hs; [discriminate |].
  apply (codec_canonical (Codec := ReadFull_codec x (proj1 Hx))) in H as [Hl ->].
  unfold WriteVarBytesBuf. rewrite Hl, <- app_assoc. split_and!; [lia | lia | done].
Qed.

Lemma readScriptBuf_safe s r : maxWitnessItemSize <= s -> fst (readScriptBuf s r) <> Panic.
Proof.
  intros Hs. unfold readScriptBuf. apply bind_not_Panic; [apply ReadVarIntBuf_panic_free |].
  intros x r1 _. apply bind_not_Panic; [apply guard_panic_free |].
  intros [] r2. unfold guard. destruct (x >? maxWitnessItemSize) eqn:Hx; [done |]. intros _.
  replace (x >? s) with false by lia. apply ReadFull_panic_free.
Qed.

(** Readers that use the slab only through [readScriptBuf]. *)
Ltac script_safe :=
  repeat first
    [ done
    | apply readScriptBuf_safe; lia
    | apply panic_free
    | apply bind_not_Panic; [| intros ? ? _] ].

Lemma zlen_le_WriteVarBytesBuf b : zlen b <= zlen (WriteVarBytesBuf b).
Proof. rewrite zlen_WriteVarBytesBuf. pose proof (VarIntSerializeSize_range (zlen b)). lia. Qed.

(** * Elements *)

Definition outpoint_ok (op : OutPoint) : Prop :=
  zlen (Hash op) = HashSize /\ 0 <= Index op < 2 ^ 32.

Definition txin_ok (ti : TxIn) : Prop :=
  outpoint_ok (PreviousOutPoint ti) /\ zlen (SignatureScript ti) <= maxWitnessItemSize /\
  Witness ti = [] /\ 0 <= Sequence ti < 2 ^ 32.

Definition txout_ok (to : TxOut) : Prop :=
  - 2 ^ 63 <= Value to < 2 ^ 63 /\ zlen (PkScript to) <= maxWitnessItemSize.

Definition witness_ok (w : list bytes) : Prop :=
  zlen w <= maxWitnessItemsPerInput /\ Forall (fun i => zlen i <= maxWitnessItemSize) w.

#[global] Instance readOutPointBuf_codec : Codec outpoint_ok writeOutPointBuf readOutPointBuf.
Proof.
  pose proof (ReadFull_codec HashSize ltac:(discriminate)) as CH.
  split.
  - intros [h i] rest [Hh Hi]. unfold readOutPointBuf, writeOutPointBuf in *. cbn [Hash Index] in *.
    rewrite <- app_assoc, (bind_Ok _ _ _ h (le_bytes 4 i ++ rest))
      by now apply (codec_roundtrip (Codec := CH)).
    rewrite (bind_Ok _ _ _ i rest) by (apply (readUint_app 4); lia). done.
  - intros r op r' H. unfold readOutPointBuf in H. run_inv.
    match goal with H : ReadFull _ _ = _ |- _ =>
      apply (codec_canonical (Codec := CH)) in H as [Hh ->] end.
    read_inv. unfold outpoint_ok, writeOutPointBuf. cbn [Hash Index].
    rewrite <- app_assoc. done.
Qed.

#[global] Instance txin_codec :
  SlabCodec txin_ok writeTxInBuf (fun ti => zlen (SignatureScript ti)) txin_body.
Proof.
  split.
  - intros [op sc w sq] sb rest (Hop & Hsc & Hw & Hsq) Hs.
    cbn [SignatureScript Witness Sequence PreviousOutPoint] in *. subst w.
    unfold txin_body, readTxInBuf, writeTxInBuf. rewrite bind_assoc.
    cbn [SignatureScript Sequence PreviousOutPoint]. rewrite <- !app_assoc.
    erewrite bind_Ok by (apply (codec_roundtrip (Codec := readOutPointBuf_codec)), Hop).
    rewrite bind_assoc. erewrite bind_Ok by now apply readScriptBuf_roundtrip.
    rewrite bind_assoc. erewrite bind_Ok by (apply (readUint_app 4); lia). done.
  - intros sb r ti sb' r' H. unfold txin_body, readTxInBuf in H. run_inv.
    match goal with H : readOutPointBuf _ = _ |- _ =>
      apply (codec_canonical (Codec := readOutPointBuf_codec)) in H as [Hop ->] end.
    match goal with H : readScriptBuf _ _ = _ |- _ =>
      apply readScriptBuf_canonical in H as (Hsz & Hcap & ->) end.
    read_inv. unfold txin_ok, writeTxInBuf.
    cbn [SignatureScript Witness Sequence PreviousOutPoint] in *.
    rewrite <- !app_assoc. split_and!; auto; lia.
  - intros sb r Hr. pose proof (zlen_nonneg r). unfold txin_body, readTxInBuf, readOutPointBuf.
    script_safe.
  - intros ti. pose proof (zlen_le_WriteVarBytesBuf (SignatureScript ti)).
    unfold writeTxInBuf. rewrite !zlen_app, zlen_le_bytes.
    pose proof (zlen_nonneg (writeOutPointBuf (PreviousOutPoint ti))).
    pose proof (zlen_nonneg (SignatureScript ti)). lia.
Qed.

#[global] Instance txout_codec :
  SlabCodec txout_ok WriteTxOutBuf (fun to => zlen (PkScript to)) txout_body.
Proof.
  split.
  - intros [v sc] sb rest (Hv & Hsc) Hs. cbn [Value PkScript] in *.
    unfold txout_body, readTxOutBuf, WriteTxOutBuf. rewrite bind_assoc.
    cbn [Value PkScript]. rewrite <- !app_assoc.
    erewrite bind_Ok by (apply (readUint_app 8); [lia | apply wrapU_range; lia]).
    rewrite bind_assoc. erewrite bind_Ok by now apply readScriptBuf_roundtrip.
    unfold bind, ret. rewrite wrapS_wrapU by lia. done.
  - intros sb r to sb' r' H. unfold txout_body, readTxOutBuf in H. run_inv.
    match goal with H : readScriptBuf _ _ = _ |- _ =>
      apply readScriptBuf_canonical in H as (Hsz & Hcap & ->) end.
    read_inv. unfold txout_ok, WriteTxOutBuf. cbn [Value PkScript] in *.
    rewrite <- !app_assoc, wrapU_wrapS by lia.
    pose proof (wrapS_range 64 x1 ltac:(lia)). split_and!; auto; lia.
  - intros sb r Hr. pose proof (zlen_nonneg r). unfold txout_body, readTxOutBuf.
    script_safe.
  - intros to. pose proof (zlen_le_WriteVarBytesBuf (PkScript to)).
    unfold WriteTxOutBuf. rewrite !zlen_app, zlen_le_bytes.
    pose proof (zlen_nonneg (PkScript to)). lia.
Qed.

#[global] Instance witness_item_codec :
  SlabCodec (fun i => zlen i <= maxWitnessItemSize) WriteVarBytesBuf zlen witness_item_body.
Proof.
  split.
  - intros b sb rest Hb Hs. unfold witness_item_body.
    erewrite bind_Ok by now apply readScriptBuf_roundtrip. done.
  - intros sb r b sb' r' H. unfold witness_item_body in H. run_inv.
    match goal with H : readScriptBuf _ _ = _ |- _ =>
      apply readScriptBuf_canonical in H as (Hsz & Hcap & ->) end. auto.
  - intros sb r Hr. pose proof (zlen_nonneg r). unfold witness_item_body.
    apply bind_not_Panic; [| done]. apply readScriptBuf_safe; lia.
  - intros b. pose proof (zlen_le_WriteVarBytesBuf b). pose proof (zlen_nonneg b). lia.
Qed.

(** * Loops *)

Lemma zsum_cons {A} (f : A -> Z) a l : zsum f (a :: l) = f a + zsum f l.
Proof. reflexivity. Qed.

Lemma zsum_app {A} (f : A -> Z) l k : zsum f (l ++ k) = zsum f l + zsum f k.
Proof. induction l; cbn [app]; rewrite ?zsum_cons; [cbn; lia | lia]. Qed.

Lemma zlen_concat {A} (f : A -> bytes) l : zlen (concat (f <$> l)) = zsum (fun a => zlen (f a)) l.
Proof.
  induction l as [|a l IH]; [done |]. rewrite fmap_cons. cbn [concat].
  now rewrite zlen_app, zsum_cons, IH.
Qed.

Lemma zsum_reverse {A} (f : A -> Z) l : zsum f (reverse l) = zsum f l.
Proof.
  induction l as [|a l IH]; [done |]. rewrite reverse_cons, zsum_app, !zsum_cons, IH.
  change (zsum f []) with 0. lia.
Qed.

Lemma zsum_ext {A} (f g : A -> Z) l : (forall a, f a = g a) -> zsum f l = zsum g l.
Proof. intros H. induction l; [done |]. rewrite !zsum_cons. congruence. Qed.

Lemma zsum_bounds {A} (f g : A -> Z) l :
  (forall a, 0 <= f a <= g a) -> 0 <= zsum f l <= zsum g l.
Proof.
  intros H. induction l as [|a l IH]; [done |]. rewrite !zsum_cons. specialize (H a). lia.
Qed.

Section Loop.
Context {A : Type} (ok : A -> Prop) (enc : A -> bytes) (sz : A -> Z)
  (dec : slab -> Rd (A * slab)) `{!SlabCodec ok enc sz dec}.

#[local] Instance loop_sc : SlabCodec ok enc sz dec := SlabCodec0.

Lemma read_loop_roundtrip l sb rest :
  Forall ok l -> zsum sz l <= scap sb ->
  read_loop dec (length l) sb (concat (enc <$> l) ++ rest) = (Ok (l, use sb (zsum sz l)), rest).
Proof.
  intros Hok. revert sb. induction Hok as [|a l Ha Hl IH]; intros sb Hs.
  - cbn. now rewrite use_0.
  - rewrite fmap_cons. cbn [concat length read_loop]. rewrite zsum_cons in *.
    pose proof (zsum_bounds sz _ l sc_size). rewrite <- app_assoc.
    erewrite bind_Ok by (apply sc_roundtrip; [done | lia]).
    erewrite bind_Ok by (cbn [snd]; apply IH; cbn [use scap]; lia).
    unfold ret. cbn [fst snd]. now rewrite use_use.
Qed.

Lemma read_loop_canonical n sb r l sb' r' :
  read_loop dec n sb r = (Ok (l, sb'), r') ->
  length l = n /\ Forall ok l /\ (0 <= scap sb -> zsum sz l <= scap sb) /\
  sb' = use sb (zsum sz l) /\ r = concat (enc <$> l) ++ r'.
Proof.
  revert sb r l. induction n as [|n IH]; intros sb r l H; cbn [read_loop] in H; run_inv.
  - cbn [zsum foldr]. now rewrite use_0.
  - destruct x as [a sb1], x1 as [l1 sb2]. cbn [fst snd] in *.
    match goal with H : dec _ _ = _ |- _ =>
      apply (sc_canonical (SlabCodec := SlabCodec0)) in H as (Ha & Hs & -> & ->) end.
    match goal with H : read_loop _ _ _ _ = _ |- _ =>
      apply IH in H as (Hlen & Hl & Hsum & -> & ->) end.
    cbn [use scap] in Hsum. rewrite zsum_cons, use_use, fmap_cons. cbn [concat length].
    rewrite <- app_assoc. split_and!; auto; lia.
Qed.

Lemma read_loop_safe n sb r :
  zlen r + maxWitnessItemSize <= scap sb -> fst (read_loop dec n sb r) <> Panic.
Proof.
  revert sb r. induction n as [|n IH]; intros sb r Hr; [done |]. cbn [read_loop].
  apply bind_not_Panic; [now apply sc_safe |]. intros [a sb1] r1 H1.
  apply bind_not_Panic; [| done]. apply IH. cbn [snd].
  eapply sc_room; eauto using SlabCodec0.
Qed.

Lemma read_loop_room n sb r l sb' r' :
  read_loop dec n sb r = (Ok (l, sb'), r') -> zlen r + maxWitnessItemSize <= scap sb ->
  zlen r' + maxWitnessItemSize <= scap sb'.
Proof.
  intros (_ & _ & _ & -> & ->)%read_loop_canonical Hr.
  rewrite zlen_app, zlen_concat in Hr. pose proof (zsum_bounds sz _ l sc_size).
  cbn [use scap]. lia.
Qed.
End Loop.

#[global] Instance witness_codec :
  SlabCodec witness_ok writeTxWitnessBuf (zsum zlen) witness_body.
Proof.
  split.
  - intros w sb rest [Hn Hw] Hs. unfold witness_body, writeTxWitnessBuf.
    pose proof (zlen_nonneg w). unfold maxWitnessItemsPerInput in *.
    rewrite <- app_assoc. erewrite bind_Ok
      by (apply (codec_roundtrip (Codec := ReadVarIntBuf_codec)); lia).
    ztest. rewrite bind_eq, guard_false.
    replace (Z.to_nat (zlen w)) with (length w) by (unfold zlen; lia).
    now apply (read_loop_roundtrip _ _ _ _ (SlabCodec0 := witness_item_codec)).
  - intros sb r w sb' r' H. unfold witness_body in H. run_inv.
    match goal with H : ReadVarIntBuf _ = _ |- _ =>
      apply (codec_canonical (Codec := ReadVarIntBuf_codec)) in H as [Hx ->] end.
    apply (read_loop_canonical _ _ _ _ (SlabCodec0 := witness_item_codec)) in H
      as (Hlen & Hl & Hsum & -> & ->).
    unfold witness_ok, writeTxWitnessBuf. rewrite <- app_assoc.
    assert (zlen w = x) as -> by (unfold zlen; lia). split_and!; auto; lia.
  - intros sb r Hr. unfold witness_body.
    apply bind_not_Panic; [apply panic_free |]. intros x r1 Hx.
    apply (codec_canonical (Codec := ReadVarIntBuf_codec)) in Hx as [_ ->].
    rewrite zlen_app in Hr. pose proof (zlen_nonneg (WriteVarIntBuf x)).
    apply bind_not_Panic; [apply panic_free |].
    intros [] r2 Hg. assert (r2 = r1) as -> by (unfold guard in Hg; case_match; by inversion Hg).
    apply (read_loop_safe _ _ _ _ (SlabCodec0 := witness_item_codec)). lia.
  - intros w. unfold writeTxWitnessBuf. rewrite zlen_app, zlen_concat.
    pose proof (zsum_bounds _ _ w (sc_size (SlabCodec := witness_item_codec))).
    pose proof (zlen_nonneg (WriteVarIntBuf (zlen w))). lia.
Qed.

(** * Compaction is the identity on values *)

(** [v] shows [src] in every buffer that starts with [done]. *)
Definition shows (done : bytes) (v : view) (src : bytes) : Prop :=
  forall rest, resolve (done ++ rest) v = src.

Lemma shows_extend done more v src : shows done v src -> shows (done ++ more) v src.
Proof. intros H rest. rewrite <- app_assoc. apply H. Qed.

(** One copy: the buffer holds [done] below the offset and [junk] above. *)
Lemma place_spec done junk src :
  zlen src <= zlen junk ->
  exists v junk',
    place src (done ++ junk, zlen done) =
      (Ok v, ((done ++ src) ++ junk', zlen (done ++ src))) /\
    zlen junk' = zlen junk - zlen src /\ shows (done ++ src) v src.
Proof.
  intros Hlen. pose proof (zlen_nonneg done). pose proof (zlen_nonneg src).
  exists (zlen done, zlen done + zlen src), (zdrop (zlen src) junk).
  split_and!.
  - unfold place. rewrite !zlen_app. ztest.
    replace (Z.min _ _) with (zlen src) by lia. rewrite ztake_app.
    replace (ztake (zlen src) src) with src
      by (rewrite <- (app_nil_r src) at 3; now rewrite ztake_app).
    replace (zdrop (zlen done + zlen src) (done ++ junk)) with (zdrop (zlen src) junk).
    2: { unfold zdrop. rewrite Z2Nat.inj_add, <- drop_drop by lia.
         f_equal. symmetry. apply zdrop_app. }
    rewrite zlen_zdrop by lia. ztest. now rewrite app_assoc.
  - rewrite zlen_zdrop; lia.
  - intros rest. unfold resolve. cbn [fst snd]. rewrite <- app_assoc, zdrop_app.
    replace (zlen done + zlen src - zlen done) with (zlen src) by lia. apply ztake_app.
Qed.

(** A computation that copies the scripts [src a] of a value [a]. *)
Definition places {A B} (src : A -> bytes) (shown : bytes -> A -> B -> Prop)
    (f : A -> compactM B) : Prop :=
  forall a done junk, zlen (src a) <= zlen junk ->
  exists b junk',
    f a (done ++ junk, zlen done) =
      (Ok b, ((done ++ src a) ++ junk', zlen (done ++ src a))) /\
    zlen junk' = zlen junk - zlen (src a) /\ shown (done ++ src a) a b.

Lemma mapM_places {A B} (src : A -> bytes) (shown : bytes -> A -> B -> Prop) f :
  places src shown f ->
  (forall done more a b, shown done a b -> shown (done ++ more) a b) ->
  places (fun l => concat (src <$> l)) (fun done => Forall2 (shown done)) (mapM f).
Proof.
  intros Hf Hext l. induction l as [|a l IH]; intros done junk Hlen; cbn [mapM].
  - exists [], junk. cbn [fmap list_fmap concat]. rewrite app_nil_r, zlen_nil.
    split_and!; [done | lia | constructor].
  - rewrite fmap_cons in *. cbn [concat] in *.
    pose proof (zlen_app (src a) (concat (src <$> l))).
    pose proof (zlen_nonneg (concat (src <$> l))).
    destruct (Hf a done junk) as (b & j1 & H1 & Hj1 & Hs1); [lia |].
    destruct (IH (done ++ src a) j1) as (bs & j2 & H2 & Hj2 & Hs2); [lia |].
    exists (b :: bs), j2. rewrite (bind_Ok _ _ _ _ _ H1), (bind_Ok _ _ _ _ _ H2), !app_assoc.
    split_and!; [done | lia | constructor; auto].
Qed.

Definition txin_src (ti : TxIn) : bytes := SignatureScript ti ++ concat (Witness ti).

Definition txin_shown (done : bytes) (ti : TxIn) (vs : view * list view) : Prop :=
  shows done (fst vs) (SignatureScript ti) /\
  Forall2 (fun i v => shows done v i) (Witness ti) (snd vs).

Lemma place_places : places (fun b => b) (fun done b v => shows done v b) place.
Proof. intros a done junk Hl. now apply place_spec. Qed.

Lemma place_txin_places : places txin_src txin_shown place_txin.
Proof.
  intros ti done junk Hl. unfold txin_src, place_txin in *.
  pose proof (zlen_app (SignatureScript ti) (concat (Witness ti))).
  pose proof (zlen_nonneg (concat (Witness ti))).
  destruct (place_places (SignatureScript ti) done junk) as (v & j1 & H1 & Hj1 & Hs1); [lia |].
  destruct (mapM_places _ _ _ place_places (fun d m a b => shows_extend d m b a)
    (Witness ti) (done ++ SignatureScript ti) j1) as (vs & j2 & H2 & Hj2 & Hs2);
    rewrite list_fmap_id in *; [lia |].
  exists (v, vs), j2. rewrite (bind_Ok _ _ _ _ _ H1), (bind_Ok _ _ _ _ _ H2), !app_assoc.
  split_and!; [done | lia |]. split; cbn [fst snd]; auto using shows_extend.
Qed.

Lemma txin_shown_extend done more ti vs : txin_shown done ti vs -> txin_shown (done ++ more) ti vs.
Proof.
  intros [H1 H2]. split; [now apply shows_extend |].
  eapply Forall2_impl; [exact H2 | cbn; auto using shows_extend].
Qed.

(** All scripts of a transaction, in the order of the buffer. *)
Definition script_bytes (msg : MsgTx) : bytes :=
  concat (txin_src <$> TxIns msg) ++ concat (PkScript <$> TxOuts msg).

Lemma zip_with_rebuild {A B} (f : A -> B -> A) (R : A -> B -> Prop) l k :
  Forall2 R l k -> (forall a b, R a b -> f a b = a) -> zip_with f l k = l.
Proof. intros H Hf. induction H; cbn; [done |]. now rewrite Hf, IHForall2. Qed.

Lemma compact_id msg : compact msg (zlen (script_bytes msg)) = Ok msg.
Proof.
  unfold compact, script_bytes. rewrite zlen_app.
  set (ib := concat (txin_src <$> TxIns msg)). set (ob := concat (PkScript <$> TxOuts msg)).
  pose proof (zlen_nonneg ib). pose proof (zlen_nonneg ob).
  set (junk := replicate (Z.to_nat (zlen ib + zlen ob)) x00).
  assert (zlen junk = zlen ib + zlen ob) as Hj
    by (unfold junk, zlen at 1; rewrite length_replicate; lia).
  destruct (mapM_places _ _ _ place_txin_places txin_shown_extend (TxIns msg) [] junk)
    as (ins & j1 & H1 & Hj1 & Hs1); [fold ib; lia |].
  fold ib in H1, Hj1, Hs1. cbn [app] in H1, Hs1.
  destruct (mapM_places PkScript (fun d to v => shows d v (PkScript to))
    (fun to => place (PkScript to)) (fun to => place_places (PkScript to)) (fun d m a b => shows_extend d m b _)
    (TxOuts msg) ib j1) as (outs & j2 & H2 & Hj2 & Hs2); [fold ob; lia |].
  fold ob in H2, Hj2, Hs2. change (zlen (@nil byte)) with 0 in H1.
  rewrite (bind_Ok _ _ _ _ _ H1), (bind_Ok _ _ _ _ _ H2). unfold ret. f_equal.
  destruct msg as [v ins0 outs0 lt]. cbn [Version TxIns TxOuts LockTime] in *. f_equal.
  - eapply zip_with_rebuild; [exact Hs1 |]. intros [op sc w sq] vs [Hv Hvs].
    cbn [SignatureScript Witness PreviousOutPoint Sequence] in *. f_equal.
    + rewrite <- app_assoc. apply Hv.
    + clear -Hvs. induction Hvs as [|? ? ? ? Hs]; [done |]. rewrite fmap_cons. f_equal; [| done].
      rewrite <- app_assoc. apply Hs.
  - eapply zip_with_rebuild; [exact Hs2 |]. intros [x sc] vw Hv.
    cbn [Value PkScript] in *. f_equal. apply Hv.
Qed.

(** * The transaction codec *)

(** The transactions an encoding can carry.  The witness encoding has no room
    for a transaction without inputs: its input count is the flag marker. *)
Definition tx_ok (enc : MessageEncoding) (sbuf : Z) (msg : MsgTx) : Prop :=
  - 2 ^ 31 <= Version msg < 2 ^ 31 /\ 0 <= LockTime msg < 2 ^ 32 /\
  zlen (TxIns msg) <= maxTxInPerMessage /\ zlen (TxOuts msg) <= maxTxOutPerMessage /\
  Forall (fun ti => txin_ok (set_Witness ti [])) (TxIns msg) /\
  Forall txout_ok (TxOuts msg) /\
  zlen (script_bytes msg) <= sbuf /\
  match enc with
  | BaseEncoding => Forall (fun ti => Witness ti = []) (TxIns msg)
  | WitnessEncoding => TxIns msg <> [] /\ Forall (fun ti => witness_ok (Witness ti)) (TxIns msg)
  end.

Definition strip (ti : TxIn) : TxIn := set_Witness ti [].

Lemma zsum_fmap {A B} (f : B -> Z) (g : A -> B) l : zsum f (g <$> l) = zsum (fun a => f (g a)) l.
Proof. induction l; [done |]. rewrite fmap_cons, !zsum_cons. congruence. Qed.

Lemma zsum_plus {A} (f g : A -> Z) l : zsum (fun a => f a + g a) l = zsum f l + zsum g l.
Proof. induction l; [done |]. rewrite !zsum_cons. lia. Qed.

Lemma zlen_concat_id (l : list bytes) : zlen (concat l) = zsum zlen l.
Proof. rewrite <- (list_fmap_id l) at 1. apply zlen_concat. Qed.

Lemma zlen_script_bytes msg :
  zlen (script_bytes msg) =
    zsum (fun ti => zlen (SignatureScript ti)) (strip <$> TxIns msg) +
    zsum (fun to => zlen (PkScript to)) (TxOuts msg) +
    zsum (zsum zlen) (Witness <$> TxIns msg).
Proof.
  unfold script_bytes. rewrite zlen_app, !zlen_concat, !zsum_fmap. cbn [strip set_Witness SignatureScript].
  rewrite (zsum_ext (fun ti => zlen (txin_src ti))
    (fun ti => zlen (SignatureScript ti) + zsum zlen (Witness ti))).
  - rewrite zsum_plus. lia.
  - intros ti. unfold txin_src. now rewrite zlen_app, zlen_concat_id.
Qed.

Lemma writeTxInBuf_strip (ins : list TxIn) : writeTxInBuf <$> (strip <$> ins) = writeTxInBuf <$> ins.
Proof. rewrite <- list_fmap_compose. reflexivity. Qed.

Lemma zip_strip (ins : list TxIn) : zip_with set_Witness (strip <$> ins) (Witness <$> ins) = ins.
Proof. induction ins as [|[] ins IH]; [done |]. rewrite !fmap_cons. cbn [zip_with]. now rewrite IH. Qed.

Lemma strip_id ins : Forall (fun ti => Witness ti = []) ins -> strip <$> ins = ins.
Proof.
  induction 1 as [|[op sc w sq] l Hw Hl IH]; [done |]. rewrite fmap_cons, IH.
  cbn [Witness] in Hw. now subst w.
Qed.

Lemma HasWitness_false ins v os lt :
  HasWitness (mkMsgTx v ins os lt) = false <-> Forall (fun ti => Witness ti = []) ins.
Proof.
  unfold HasWitness. cbn [TxIns]. induction ins as [|ti ins IH]; cbn [existsb]; [by split |].
  rewrite Forall_cons, orb_false_iff, IH, negb_false_iff, Z.eqb_eq.
  split; intros [H1 H2]; split; auto; [now apply zlen_0_nil | now rewrite H1].
Qed.

Lemma HasWitness_fields v os lt v' os' lt' ins :
  HasWitness (mkMsgTx v ins os lt) = HasWitness (mkMsgTx v' ins os' lt').
Proof. reflexivity. Qed.

Definition doWitness (enc : MessageEncoding) (ins : list TxIn) : bool :=
  is_WitnessEncoding enc && HasWitness (mkMsgTx 0 ins [] 0).

(** What the witness section of an encoding requires of the inputs. *)
Definition witnesses_ok (enc : MessageEncoding) (ins : list TxIn) : Prop :=
  match enc with
  | BaseEncoding => Forall (fun ti => Witness ti = []) ins
  | WitnessEncoding => ins <> [] /\ Forall (fun ti => witness_ok (Witness ti)) ins
  end.

Definition enc_flag (b : bool) : bytes :=
  if b then [z2b TxFlagMarker; z2b WitnessFlag] else [].

Definition enc_witnesses (b : bool) (ins : list TxIn) : bytes :=
  if b then concat ((fun ti => writeTxWitnessBuf (Witness ti)) <$> ins) else [].

Lemma enc_witnesses_true ins :
  enc_witnesses true ins = concat (writeTxWitnessBuf <$> (Witness <$> ins)).
Proof. cbn [enc_witnesses]. now rewrite <- list_fmap_compose. Qed.

Lemma read_txin_count_roundtrip enc ins rest :
  zlen ins <= maxTxInPerMessage -> witnesses_ok enc ins ->
  read_txin_count enc (enc_flag (doWitness enc ins) ++ WriteVarIntBuf (zlen ins) ++ rest) =
    (Ok (if doWitness enc ins then 1 else 0, zlen ins), rest).
Proof.
  intros Hn Hok. assert (0 <= zlen ins < 2 ^ 64) as Hr
    by (split; [apply zlen_nonneg | eapply Z.le_lt_trans; [exact Hn | reflexivity]]).
  unfold read_txin_count. destruct (doWitness enc ins) eqn:Hd; cbn [enc_flag].
  - destruct enc; [discriminate |].
    erewrite (bind_Ok ReadVarIntBuf _ _ 0)
      by (apply (codec_roundtrip (Codec := ReadVarIntBuf_codec) 0 (x01 :: _)); lia).
    cbn [Z.eqb TxFlagMarker is_WitnessEncoding andb].
    erewrite (bind_Ok _ _ _ 1) by (apply (readUint_app 1 1); lia).
    cbn [Z.eqb WitnessFlag negb Pos.eqb]. rewrite bind_eq, guard_false. cbv beta iota.
    now erewrite bind_Ok by now apply (codec_roundtrip (Codec := ReadVarIntBuf_codec)).
  - erewrite bind_Ok by now apply (codec_roundtrip (Codec := ReadVarIntBuf_codec)).
    replace (_ && _) with false; [done |]. symmetry. apply andb_false_iff.
    destruct enc; [by right | left]. destruct Hok as [Hne _].
    unfold TxFlagMarker. destruct ins; [done |]. rewrite zlen_cons.
    pose proof (zlen_nonneg ins). lia.
Qed.

Lemma read_txin_count_canonical enc r flag count r' :
  read_txin_count enc r = (Ok (flag, count), r') ->
  0 <= count < 2 ^ 64 /\
  (flag = 1 /\ enc = WitnessEncoding \/ flag = 0 /\ (enc = WitnessEncoding -> count <> 0)) /\
  r = enc_flag (flag =? 1) ++ WriteVarIntBuf count ++ r'.
Proof.
  intros H. unfold read_txin_count in H. run_inv.
  match goal with H : ReadVarIntBuf _ = _ |- _ =>
    apply (codec_canonical (Codec := ReadVarIntBuf_codec)) in H as [Hx ->] end.
  destruct ((x =? TxFlagMarker) && is_WitnessEncoding enc) eqn:Hc; run_inv.
  - apply andb_true_iff in Hc as [Hx0%Z.eqb_eq Henc]. unfold TxFlagMarker, WitnessFlag in *. subst x.
    match goal with H : ReadVarIntBuf _ = _ |- _ =>
      apply (codec_canonical (Codec := ReadVarIntBuf_codec)) in H as [Hc ->] end.
    assert (flag = 1) as -> by lia. read_inv. cbn [Z.eqb Pos.eqb enc_flag].
    destruct enc; [discriminate |]. split_and!; [lia | lia | auto | reflexivity].
  - cbn [Z.eqb enc_flag app]. split_and!; [lia | lia | | done]. right. split; [done |].
    intros ->. cbn in Hc. unfold TxFlagMarker in Hc. lia.
Qed.

Lemma read_witnesses_roundtrip enc ins sb rest :
  witnesses_ok enc ins -> zsum (zsum zlen) (Witness <$> ins) <= scap sb ->
  read_witnesses enc (if doWitness enc ins then 1 else 0) (strip <$> ins) sb
    (enc_witnesses (doWitness enc ins) ins ++ rest) =
    (Ok (ins, use sb (zsum (zsum zlen) (Witness <$> ins))), rest).
Proof.
  intros Hok Hs. unfold read_witnesses. destruct (doWitness enc ins) eqn:Hd.
  - unfold doWitness in Hd. apply andb_true_iff in Hd as [Henc Hw]. rewrite Henc.
    destruct enc; [discriminate |]. destruct Hok as [_ Hok].
    cbn [Z.eqb negb andb].
    rewrite length_fmap, <- (length_fmap Witness), enc_witnesses_true.
    erewrite bind_Ok
      by (apply (read_loop_roundtrip _ _ _ _ (SlabCodec0 := witness_codec));
          [now apply Forall_fmap | done]).
    cbn [fst snd]. now rewrite zip_strip, Hw, bind_eq, guard_false.
  - assert (Forall (fun ti => Witness ti = []) ins) as Hnil.
    { destruct enc; [done |]. now apply (HasWitness_false ins 0 [] 0). }
    cbn [Z.eqb negb andb enc_witnesses app]. rewrite strip_id by done.
    replace (zsum _ _) with 0; [now rewrite use_0 |].
    clear -Hnil. induction Hnil as [|ti l Hw Hl IH]; [done |].
    rewrite fmap_cons, zsum_cons, Hw, <- IH. reflexivity.
Qed.

Lemma zip_set_Witness ins ws :
  Forall (fun ti => Witness ti = []) ins -> length ws = length ins ->
  strip <$> zip_with set_Witness ins ws = ins /\ Witness <$> zip_with set_Witness ins ws = ws.
Proof.
  intros H. revert ws. induction H as [|[op sc w sq] l Hw Hl IH]; intros [|x ws] Hlen; try done.
  cbn [zip_with]. rewrite !fmap_cons. destruct (IH ws) as [-> ->]; [cbn in Hlen; lia |].
  cbn [Witness] in Hw. by subst w.
Qed.

Lemma read_witnesses_canonical enc flag ins sb r ins' sb' r' :
  Forall (fun ti => Witness ti = []) ins -> 0 <= scap sb ->
  (flag = 1 /\ enc = WitnessEncoding \/ flag = 0 /\ (enc = WitnessEncoding -> ins <> [])) ->
  read_witnesses enc flag ins sb r = (Ok (ins', sb'), r') ->
  strip <$> ins' = ins /\ witnesses_ok enc ins' /\ (flag =? 1) = doWitness enc ins' /\
  sb' = use sb (zsum (zsum zlen) (Witness <$> ins')) /\
  zsum (zsum zlen) (Witness <$> ins') <= scap sb /\
  r = enc_witnesses (flag =? 1) ins' ++ r'.
Proof.
  intros Hnil Hcap Hflag H. unfold read_witnesses in H. destruct Hflag as [[-> ->] | [-> Hne]].
  - cbn [Z.eqb negb andb is_WitnessEncoding] in H. run_inv. destruct x as [ws sb1].
    match goal with H : read_loop _ _ _ _ = _ |- _ =>
      apply (read_loop_canonical _ _ _ _ (SlabCodec0 := witness_codec)) in H
        as (Hlen & Hws & Hsum & -> & ->) end.
    cbn [fst snd] in *. destruct (zip_set_Witness ins ws Hnil Hlen) as [Hstrip Hwit].
    set (ins' := zip_with set_Witness ins ws) in *.
    cbn [Z.eqb Pos.eqb]. rewrite enc_witnesses_true, Hwit.
    unfold doWitness. cbn [is_WitnessEncoding andb].
    assert (HasWitness (mkMsgTx 0 ins' [] 0) = true) as Hhas by now apply negb_false_iff.
    split_and!; auto. split.
    + intros Hn. now rewrite Hn in Hhas.
    + rewrite <- Hwit in Hws. now rewrite Forall_fmap in Hws.
  - cbn [Z.eqb negb andb] in H. run_inv.
    assert (zsum (zsum zlen) (Witness <$> ins') = 0) as Hz.
    { clear -Hnil. induction Hnil as [|ti l Hw Hl IH]; [done |].
      rewrite fmap_cons, zsum_cons, Hw, IH. reflexivity. }
    assert (doWitness enc ins' = false) as Hd.
    { unfold doWitness. apply andb_false_iff. right. now apply HasWitness_false. }
    rewrite Hz, use_0, Hd. split_and!; auto using strip_id.
    destruct enc; [done |]. split; [auto |]. eapply Forall_impl; [exact Hnil |].
    intros ti ->. split; [discriminate | constructor].
Qed.

Lemma btcEncode_eq enc msg :
  btcEncode enc msg =
    le_bytes 4 (uint32 (Version msg)) ++
    enc_flag (doWitness enc (TxIns msg)) ++ WriteVarIntBuf (zlen (TxIns msg)) ++
    concat (writeTxInBuf <$> (strip <$> TxIns msg)) ++
    WriteVarIntBuf (zlen (TxOuts msg)) ++ concat (WriteTxOutBuf <$> TxOuts msg) ++
    enc_witnesses (doWitness enc (TxIns msg)) (TxIns msg) ++
    le_bytes 4 (LockTime msg).
Proof. rewrite writeTxInBuf_strip. destruct msg. reflexivity. Qed.

Lemma tx_ok_witnesses enc sbuf msg : tx_ok enc sbuf msg -> witnesses_ok enc (TxIns msg).
Proof. by intros (_ & _ & _ & _ & _ & _ & _ & H). Qed.

Lemma txins_strip_ok ins :
  Forall (fun ti => txin_ok (set_Witness ti [])) ins -> Forall txin_ok (strip <$> ins).
Proof. intros H. now apply Forall_fmap. Qed.

Lemma btcDecode_roundtrip enc sbuf msg rest :
  0 <= sbuf -> tx_ok enc sbuf msg -> btcDecode enc sbuf (btcEncode enc msg ++ rest) = (Ok msg, rest).
Proof.
  intros Hsb Hok. pose proof (tx_ok_witnesses _ _ _ Hok) as Hwok.
  destruct Hok as (Hv & Hlt & Hni & Hno & Hins & Houts & Hsz & _).
  rewrite zlen_script_bytes in Hsz.
  pose proof (zsum_bounds _ _ (strip <$> TxIns msg) (sc_size (SlabCodec := txin_codec))).
  pose proof (zsum_bounds _ _ (TxOuts msg) (sc_size (SlabCodec := txout_codec))).
  pose proof (zsum_bounds _ _ (Witness <$> TxIns msg) (sc_size (SlabCodec := witness_codec))).
  rewrite btcEncode_eq, <- !app_assoc. unfold btcDecode.
  erewrite bind_Ok by (apply (readUint_app 4); [lia | apply (wrapU_range 32); lia]).
  erewrite bind_Ok by now apply read_txin_count_roundtrip.
  cbn [fst snd]. ztest. rewrite bind_eq, guard_false. cbv beta iota.
  replace (Z.to_nat (zlen (TxIns msg))) with (length (strip <$> TxIns msg))
    by (rewrite length_fmap; unfold zlen; lia).
  erewrite bind_Ok by (apply (read_loop_roundtrip _ _ _ _ (SlabCodec0 := txin_codec));
    [now apply txins_strip_ok | cbn [scap]; lia]).
  pose proof (zlen_nonneg (TxOuts msg)).
  erewrite bind_Ok by (apply (codec_roundtrip (Codec := ReadVarIntBuf_codec)); split;
    [lia | eapply Z.le_lt_trans; [exact Hno | reflexivity]]).
  ztest. rewrite bind_eq, guard_false. cbv beta iota.
  replace (Z.to_nat (zlen (TxOuts msg))) with (length (TxOuts msg)) by (unfold zlen; lia).
  erewrite bind_Ok by (apply (read_loop_roundtrip _ _ _ _ (SlabCodec0 := txout_codec));
    [done | cbn [snd use scap]; lia]).
  cbn [fst snd].
  erewrite bind_Ok by (apply read_witnesses_roundtrip; [done | cbn [use scap]; lia]).
  erewrite bind_Ok by (apply (readUint_app 4); lia).
  cbn [fst snd]. rewrite !use_use. cbn [use totalScriptSize]. unfold lift.
  rewrite wrapS_wrapU by lia.
  replace (mkMsgTx _ _ _ _) with msg by now destruct msg.
  rewrite Z.add_0_l, Z.add_assoc, <- zlen_script_bytes. now rewrite compact_id.
Qed.

Lemma txin_ok_nil ins : Forall txin_ok ins -> Forall (fun ti => Witness ti = []) ins.
Proof. intros H. eapply Forall_impl; [exact H |]. by intros ti (_ & _ & Hw & _). Qed.

(** The parts read before the compaction determine the transaction and the
    bytes consumed. *)
Lemma decoded_parts enc sbuf v flag ins' outs lt :
  0 <= v < 2 ^ 32 -> 0 <= lt < 2 ^ 32 ->
  zlen ins' <= maxTxInPerMessage -> zlen outs <= maxTxOutPerMessage ->
  Forall txin_ok (strip <$> ins') -> Forall txout_ok outs -> witnesses_ok enc ins' ->
  (flag =? 1) = doWitness enc ins' ->
  zsum (fun ti => zlen (SignatureScript ti)) (strip <$> ins') +
    zsum (fun to => zlen (PkScript to)) outs + zsum (zsum zlen) (Witness <$> ins') <= sbuf ->
  let msg := mkMsgTx (int32 v) ins' outs lt in
  tx_ok enc sbuf msg /\
  btcEncode enc msg =
    le_bytes 4 v ++ enc_flag (flag =? 1) ++ WriteVarIntBuf (zlen ins') ++
    concat (writeTxInBuf <$> (strip <$> ins')) ++ WriteVarIntBuf (zlen outs) ++
    concat (WriteTxOutBuf <$> outs) ++ enc_witnesses (flag =? 1) ins' ++ le_bytes 4 lt.
Proof.
  intros Hv Hlt Hni Hno Hins Houts Hw Hflag Hsz msg. split.
  - unfold tx_ok. rewrite zlen_script_bytes. subst msg. cbn [Version TxIns TxOuts LockTime].
    pose proof (wrapS_range 32 v ltac:(lia)). apply (Forall_fmap strip) in Hins.
    split_and!; try done; lia.
  - rewrite btcEncode_eq. subst msg. cbn [Version TxIns TxOuts LockTime].
    now rewrite wrapU_wrapS, Hflag by lia.
Qed.

Lemma btcDecode_canonical enc sbuf r msg r' :
  0 <= sbuf -> btcDecode enc sbuf r = (Ok msg, r') ->
  tx_ok enc sbuf msg /\ r = btcEncode enc msg ++ r'.
Proof.
  intros Hsb H. unfold btcDecode in H. run_inv.
  destruct x1 as [flag count], x5 as [ins sb1], x11 as [outs sb2], x13 as [ins' sb3].
  cbn [fst snd] in *.
  match goal with H : read_txin_count _ _ = _ |- _ =>
    apply read_txin_count_canonical in H as (Hcount & Hflag & ->) end.
  match goal with H : read_loop txin_body _ _ _ = _ |- _ =>
    apply (read_loop_canonical _ _ _ _ (SlabCodec0 := txin_codec)) in H
      as (Hli & Hins & Hsi & -> & ->) end.
  match goal with H : ReadVarIntBuf _ = _ |- _ =>
    apply (codec_canonical (Codec := ReadVarIntBuf_codec)) in H as [Hoc ->] end.
  match goal with H : read_loop txout_body _ _ _ = _ |- _ =>
    apply (read_loop_canonical _ _ _ _ (SlabCodec0 := txout_codec)) in H
      as (Hlo & Houts & Hso & -> & ->) end.
  match goal with H : read_witnesses _ _ _ _ _ = _ |- _ =>
    apply read_witnesses_canonical in H as (Hst & Hwok & Hfl & -> & Hsw & ->) end;
    [| now apply txin_ok_nil | cbn [use scap] in *; lia
     | destruct Hflag as [|[-> Hc]]; [by left | right; split; [done |]];
       intros He%Hc ->; cbn in Hli; lia ].
  read_inv. rewrite !use_use in *. cbn [use scap totalScriptSize] in *.
  rewrite length_fmap in Hli.
  assert (zlen ins' = count) as <- by (unfold zlen; lia).
  assert (zlen outs = x7) as <- by (unfold zlen; lia).
  rewrite Z.add_0_l, Z.add_assoc in H.
  match type of H with compact ?m _ = _ =>
    pose proof (zlen_script_bytes m) as Hz; cbn [TxIns TxOuts] in Hz end.
  rewrite <- Hz, compact_id in H. injection H as <-.
  edestruct (decoded_parts enc sbuf x flag ins' outs x15) as [Hok ->]; try done; try lia.
  split; [done |]. now rewrite <- !app_assoc.
Qed.

(** * Absence of panics *)

#[global] Instance read_txin_count_panic_free enc : PanicFree (read_txin_count enc).
Proof. unfold read_txin_count. apply _. Qed.

Lemma read_witnesses_safe enc flag ins sb r :
  zlen r + maxWitnessItemSize <= scap sb -> fst (read_witnesses enc flag ins sb r) <> Panic.
Proof.
  intros Hr. unfold read_witnesses. case_match; [| done].
  apply bind_not_Panic; [now apply (read_loop_safe _ _ _ _ (SlabCodec0 := witness_codec)) |].
  intros w r1 _. apply (bind_panic_free (guard _ _) (fun _ => ret _) _ _).
Qed.

(** The total the loops accumulate is the size of the scripts they read, so
    that the compaction never slices out of range. *)
Lemma compact_decoded enc flag ins outs sbuf r ins' sb' r' v lt :
  let sz := zsum (fun ti => zlen (SignatureScript ti)) ins +
            zsum (fun to => zlen (PkScript to)) outs in
  Forall txin_ok ins -> 0 <= sbuf - sz ->
  (flag = 1 /\ enc = WitnessEncoding \/ flag = 0 /\ (enc = WitnessEncoding -> ins <> [])) ->
  read_witnesses enc flag ins (mkSlab (sbuf - sz) sz) r = (Ok (ins', sb'), r') ->
  compact (mkMsgTx v ins' outs lt) (totalScriptSize sb') = Ok (mkMsgTx v ins' outs lt).
Proof.
  intros sz Hins Hcap Hflag H.
  apply read_witnesses_canonical in H as (Hst & _ & _ & -> & _ & _);
    [| now apply txin_ok_nil | done | done].
  cbn [use totalScriptSize]. subst sz. rewrite <- Hst.
  pose proof (zlen_script_bytes (mkMsgTx v ins' outs lt)) as Hz. cbn [TxIns TxOuts] in Hz.
  rewrite <- Hz. apply compact_id.
Qed.

Lemma guard_inv {S E} b (e : E) (s s' : S) u : guard b e s = (Ok u, s') -> b = false /\ s' = s.
Proof. destruct b; [done |]. by intros [= _ <-]. Qed.

(** Decoding does not panic while the input and one more script of maximal size
    fit into the slab. *)
Lemma btcDecode_safe enc sbuf r :
  zlen r + maxWitnessItemSize <= sbuf -> fst (btcDecode enc sbuf r) <> Panic.
Proof.
  intros Hr. unfold btcDecode.
  apply bind_not_Panic; [apply panic_free |]. intros ver r1 [_ ->]%readUint_inv; [| lia].
  apply bind_not_Panic; [apply panic_free |].
  intros [flag count] r2 (Hcount & Hflag & ->)%read_txin_count_canonical. cbn [fst snd].
  apply bind_not_Panic; [apply panic_free |]. intros u1 r3 [_ ->]%guard_inv.
  rewrite !zlen_app in Hr. pose proof (zlen_nonneg (enc_flag (flag =? 1))).
  pose proof (zlen_nonneg (WriteVarIntBuf count)). rewrite zlen_le_bytes in Hr.
  assert (zlen r2 + maxWitnessItemSize <= sbuf) as Hr2 by lia.
  apply bind_not_Panic; [now apply (read_loop_safe _ _ _ _ (SlabCodec0 := txin_codec)) |].
  intros [ins sb1] r4 Hrd1. pose proof Hrd1 as Hroom.
  apply (read_loop_room _ _ _ _ (SlabCodec0 := txin_codec)) in Hroom; [| done].
  apply (read_loop_canonical _ _ _ _ (SlabCodec0 := txin_codec)) in Hrd1
    as (Hli & Hins & Hsi & -> & ->).
  apply bind_not_Panic; [apply panic_free |].
  intros ocount r5 [Hoc ->]%(codec_canonical (Codec := ReadVarIntBuf_codec)).
  rewrite zlen_app in Hroom. pose proof (zlen_nonneg (WriteVarIntBuf ocount)).
  apply bind_not_Panic; [apply panic_free |]. intros u2 r6 [_ ->]%guard_inv. cbn [fst snd].
  apply bind_not_Panic; [apply (read_loop_safe _ _ _ _ (SlabCodec0 := txout_codec)); lia |].
  intros [outs sb2] r7 Hrd2. pose proof Hrd2 as Hroom2.
  apply (read_loop_room _ _ _ _ (SlabCodec0 := txout_codec)) in Hroom2; [| lia].
  apply (read_loop_canonical _ _ _ _ (SlabCodec0 := txout_codec)) in Hrd2
    as (_ & _ & _ & -> & _).
  apply bind_not_Panic; [now apply read_witnesses_safe |].
  intros [ins' sb3] r8 Hrd3. cbn [fst snd] in *.
  apply bind_not_Panic; [apply panic_free |]. intros lt r9 _.
  rewrite use_use in *. cbn [use scap totalScriptSize] in *. unfold use in Hrd3.
  cbn [scap totalScriptSize] in Hrd3. rewrite Z.add_0_l in Hrd3. unfold lift. cbn [fst].
  erewrite compact_decoded; [done | exact Hins | | | exact Hrd3].
  - pose proof (zlen_nonneg r7). unfold maxWitnessItemSize in *. lia.
  - destruct Hflag as [|[-> Hc]]; [by left | right; split; [done |]].
    intros He%Hc ->. cbn in Hli. lia.
Qed.

Lemma scriptSlabSize_eq : scriptSlabSize = 4194304.
Proof. reflexivity. Qed.

(** A transaction of two inputs whose second script claims the maximal size. *)
Definition oversized (sc : bytes) : bytes :=
  let op := mkOutPoint (replicate 32 x00) 0 in
  le_bytes 4 1 ++ WriteVarIntBuf 2 ++
  writeTxInBuf (mkTxIn op sc [] 0) ++ writeOutPointBuf op ++ WriteVarIntBuf maxWitnessItemSize.

Lemma oversized_panics enc sc :
  scriptSlabSize - maxWitnessItemSize < zlen sc <= maxWitnessItemSize ->
  fst (BtcDecode enc (oversized sc)) = Panic.
Proof.
  intros Hsc. unfold BtcDecode, btcDecode, oversized.
  set (op := mkOutPoint _ _). set (ti := mkTxIn op sc [] 0).
  assert (outpoint_ok op) as Hop by (repeat split; reflexivity || discriminate).
  erewrite bind_Ok by (apply (readUint_app 4); lia).
  erewrite (bind_Ok (read_txin_count enc) _ _ (0, 2)).
  2: { unfold read_txin_count. erewrite bind_Ok by
         (apply (codec_roundtrip (Codec := ReadVarIntBuf_codec)); lia). reflexivity. }
  cbn [fst snd]. replace (2 >? maxTxInPerMessage) with false by reflexivity.
  rewrite bind_eq, guard_false. cbv beta iota.
  change (Z.to_nat 2) with 2%nat. cbn [read_loop]. rewrite bind_assoc.
  erewrite bind_Ok; [| apply (sc_roundtrip (SlabCodec := txin_codec) ti)];
    [| split_and!; try done; cbn [ti SignatureScript]; lia
     | cbn [ti SignatureScript scap]; rewrite scriptSlabSize_eq; unfold maxWitnessItemSize in *; lia].
  rewrite bind_assoc. cbn [fst snd].
  set (sb := use _ _). assert (scap sb < maxWitnessItemSize) as Hcap
    by (subst sb; cbn [use scap ti SignatureScript]; lia).
  rewrite bind_assoc. unfold txin_body, readTxInBuf. rewrite !bind_assoc.
  erewrite bind_Ok by now apply (codec_roundtrip (Codec := readOutPointBuf_codec)).
  unfold readScriptBuf. rewrite !bind_assoc, <- (app_nil_r (WriteVarIntBuf _)).
  erewrite bind_Ok by (apply (codec_roundtrip (Codec := ReadVarIntBuf_codec)); split; [discriminate | reflexivity]).
  replace (maxWitnessItemSize >? maxWitnessItemSize) with false by reflexivity.
  rewrite !bind_assoc, bind_eq, guard_false. cbv beta iota.
  replace (maxWitnessItemSize >? scap sb) with true by lia. reflexivity.
Qed.

(** * Sizes *)

Lemma zlen_writeTxInBuf ti :
  zlen (Hash (PreviousOutPoint ti)) = HashSize -> zlen (writeTxInBuf ti) = TxIn_SerializeSize ti.
Proof.
  intros Hh. unfold writeTxInBuf, writeOutPointBuf, TxIn_SerializeSize.
  rewrite !zlen_app, Hh, !zlen_le_bytes, zlen_WriteVarBytesBuf. unfold HashSize. lia.
Qed.

Lemma zlen_WriteTxOutBuf to : zlen (WriteTxOutBuf to) = TxOut_SerializeSize to.
Proof.
  unfold WriteTxOutBuf, TxOut_SerializeSize.
  rewrite !zlen_app, !zlen_le_bytes, zlen_WriteVarBytesBuf. lia.
Qed.

Lemma zlen_writeTxWitnessBuf w : zlen (writeTxWitnessBuf w) = TxWitness_SerializeSize w.
Proof.
  unfold writeTxWitnessBuf, TxWitness_SerializeSize.
  rewrite zlen_app, zlen_WriteVarIntBuf, zlen_concat. f_equal. apply zsum_ext, zlen_WriteVarBytesBuf.
Qed.

Definition hashes_ok (msg : MsgTx) : Prop :=
  Forall (fun ti => zlen (Hash (PreviousOutPoint ti)) = HashSize) (TxIns msg).

Lemma zsum_writeTxInBuf ins :
  Forall (fun ti => zlen (Hash (PreviousOutPoint ti)) = HashSize) ins ->
  zsum (fun ti => zlen (writeTxInBuf ti)) ins = zsum TxIn_SerializeSize ins.
Proof. induction 1; [done |]. rewrite !zsum_cons, zlen_writeTxInBuf by done. lia. Qed.

Lemma zlen_btcEncode enc msg :
  hashes_ok msg ->
  zlen (btcEncode enc msg) =
    baseSize msg +
    (if is_WitnessEncoding enc && HasWitness msg then
       2 + zsum (fun ti => TxWitness_SerializeSize (Witness ti)) (TxIns msg)
     else 0).
Proof.
  intros Hh. unfold btcEncode, baseSize.
  rewrite !zlen_app, !zlen_WriteVarIntBuf, !zlen_le_bytes, !zlen_concat, zsum_writeTxInBuf by done.
  rewrite (zsum_ext _ _ _ zlen_WriteTxOutBuf).
  destruct (is_WitnessEncoding enc && HasWitness msg); [| rewrite !zlen_nil; lia].
  rewrite zlen_concat, (zsum_ext (fun ti => zlen (writeTxWitnessBuf (Witness ti)))
    (fun ti => TxWitness_SerializeSize (Witness ti))) by (intros; apply zlen_writeTxWitnessBuf).
  change (zlen [z2b TxFlagMarker; z2b WitnessFlag]) with 2. lia.
Qed.

(** * Script locations *)

Lemma slice_mid (pre src post : bytes) n :
  n = zlen pre -> ztake (zlen src) (zdrop n (pre ++ src ++ post)) = src.
Proof. intros ->. now rewrite zdrop_app, ztake_app. Qed.

Lemma pkScriptLocs_loop_spec outs : forall pre post n, n = zlen pre ->
  Forall2 (fun loc to =>
    ztake (zlen (PkScript to)) (zdrop loc (pre ++ concat (WriteTxOutBuf <$> outs) ++ post)) =
    PkScript to) (pkScriptLocs_loop n outs) outs.
Proof.
  induction outs as [|to outs IH]; intros pre post n ->; cbn [pkScriptLocs_loop]; constructor.
  - rewrite fmap_cons. cbn [concat]. unfold WriteTxOutBuf at 1, WriteVarBytesBuf.
    set (hd := le_bytes 8 _). set (vi := WriteVarIntBuf _).
    replace (pre ++ _ ++ _) with ((pre ++ hd ++ vi) ++ PkScript to ++
      concat (WriteTxOutBuf <$> outs) ++ post) by now rewrite <- !app_assoc.
    apply slice_mid. rewrite !zlen_app. subst hd vi. rewrite zlen_le_bytes, zlen_WriteVarIntBuf. lia.
  - rewrite fmap_cons. cbn [concat].
    replace (pre ++ (_ ++ _) ++ post) with ((pre ++ WriteTxOutBuf to) ++
      concat (WriteTxOutBuf <$> outs) ++ post) by now rewrite <- !app_assoc.
    apply IH. rewrite zlen_app, zlen_WriteTxOutBuf. unfold TxOut_SerializeSize. lia.
Qed.

Lemma PkScriptLocs_spec nn msg :
  hashes_ok msg -> (zlen (TxIns msg) >? 0) && nn = HasWitness msg ->
  Forall2 (fun loc to =>
    ztake (zlen (PkScript to)) (zdrop loc (Serialize msg)) = PkScript to)
    (PkScriptLocs nn msg) (TxOuts msg).
Proof.
  intros Hh Hnn. unfold PkScriptLocs, Serialize, BtcEncode, btcEncode. rewrite Hnn.
  cbn [is_WitnessEncoding andb].
  destruct (Z.eqb_spec (zlen (TxOuts msg)) 0) as [Ho%zlen_0_nil|_]; [rewrite Ho; constructor |].
  set (ver := le_bytes 4 _). set (fl := if HasWitness msg then [_; _] else []).
  set (pre := ver ++ fl ++ WriteVarIntBuf (zlen (TxIns msg)) ++
    concat (writeTxInBuf <$> TxIns msg) ++ WriteVarIntBuf (zlen (TxOuts msg))).
  match goal with |- context [zdrop _ (_ ++ _ ++ _ ++ _ ++ _ ++ _ ++ ?p)] => set (post := p) end.
  replace (ver ++ _) with (pre ++ concat (WriteTxOutBuf <$> TxOuts msg) ++ post)
    by (subst pre; now rewrite <- !app_assoc).
  apply pkScriptLocs_loop_spec. subst pre ver fl.
  rewrite !zlen_app, !zlen_WriteVarIntBuf, zlen_le_bytes, zlen_concat, zsum_writeTxInBuf by done.
  destruct (HasWitness msg); rewrite ?zlen_cons, ?zlen_nil; lia.
Qed.

(** * Theorems *)

(** C14: transactions: a transaction that fits the encoding is decoded from its
    encoding with nothing else consumed, and a transaction that is decoded is
    one that fits and is encoded by exactly the bytes consumed; so the two
    encodings are injective and no transaction has two of them. *)
Theorem tx_codec enc msg r rest :
  (tx_ok enc scriptSlabSize msg -> BtcDecode enc (BtcEncode enc msg ++ rest) = (Ok msg, rest)) /\
  (BtcDecode enc r = (Ok msg, rest) ->
   tx_ok enc scriptSlabSize msg /\ r = BtcEncode enc msg ++ rest).
Proof.
  split; [apply btcDecode_roundtrip | apply btcDecode_canonical]; discriminate.
Qed.

Definition example_tx : MsgTx :=
  mkMsgTx 2 [mkTxIn (mkOutPoint (replicate 32 x00) 1) [x51] [[x01; x02]; []] 0xffffffff]
    [mkTxOut 5000 [x51; x52]] 17.

Lemma tx_codec_witness :
  BtcDecode WitnessEncoding (BtcEncode WitnessEncoding example_tx) = (Ok example_tx, []) /\
  tx_ok WitnessEncoding scriptSlabSize example_tx.
Proof.
  assert (tx_ok WitnessEncoding scriptSlabSize example_tx) as Hok.
  { repeat (split || constructor); try discriminate; reflexivity. }
  split; [| exact Hok].
  rewrite <- (app_nil_r (BtcEncode _ _)).
  apply (proj1 (tx_codec WitnessEncoding example_tx [] [])), Hok.
Defined.

(** [SerializeSize] and [SerializeSizeStripped] are the lengths of the
    serializations with and without witnesses. *)
Lemma tx_sizes msg :
  hashes_ok msg ->
  zlen (Serialize msg) = SerializeSize msg /\
  zlen (SerializeNoWitness msg) = SerializeSizeStripped msg.
Proof.
  intros Hh. unfold Serialize, SerializeNoWitness, BtcEncode, SerializeSize, SerializeSizeStripped.
  rewrite !zlen_btcEncode by done. cbn [is_WitnessEncoding andb]. lia.
Qed.

(** A first script that takes one byte more than the slab can spare. *)
Lemma oversized_example enc :
  exists r, zlen r = 194396 /\ fst (BtcDecode enc r) = Panic.
Proof.
  exists (oversized (replicate (Z.to_nat 194305) x00)).
  assert (zlen (replicate (Z.to_nat 194305) x00) = 194305) as Hl
    by (unfold zlen; rewrite length_replicate; lia).
  split.
  - unfold oversized, writeTxInBuf, writeOutPointBuf. cbn [PreviousOutPoint SignatureScript Sequence].
    rewrite !zlen_app, !zlen_le_bytes, !zlen_WriteVarIntBuf, zlen_WriteVarBytesBuf, Hl. reflexivity.
  - apply oversized_panics. rewrite Hl. vm_compute. split; [reflexivity | discriminate].
Qed.

(** No input of at most [scriptSlabSize - maxWitnessItemSize] = 194,304 bytes
    makes the decoder panic.  Beyond that bound the size check of
    [readScriptBuf] does not protect the slab: in both encodings a message of
    194,396 bytes, whose first script takes one byte more than the slab can
    spare and whose second one claims the maximal size, makes the decoder slice
    out of range. *)
Lemma tx_decode_no_panic enc :
  (forall r, zlen r <= scriptSlabSize - maxWitnessItemSize -> fst (BtcDecode enc r) <> Panic) /\
  (exists r, zlen r = 194396 /\ fst (BtcDecode enc r) = Panic).
Proof.
  split; [| apply oversized_example]. intros r Hr. apply btcDecode_safe. lia.
Qed.

Lemma tx_decode_no_panic_witness : fst (BtcDecode BaseEncoding (oversized [x51])) <> Panic.
Proof. apply (proj1 (tx_decode_no_panic BaseEncoding)). vm_compute. discriminate. Defined.

Definition late_witness_tx : MsgTx :=
  mkMsgTx 2 [mkTxIn (mkOutPoint (replicate 32 x00) 1) [] [] 0;
             mkTxIn (mkOutPoint (replicate 32 x00) 2) [] [[x07]] 0]
    [mkTxOut 5000 [x51; x52]] 0.

(** [PkScriptLocs] gives the offset of each output script in the
    serialization, when the first input's witness is non-nil exactly if some
    input has a witness, as it is for decoded transactions.  Without that
    condition the offsets are wrong: a transaction built with a witness on its
    second input only gets offsets that are two bytes short. *)
Lemma pkscript_locs :
  (forall firstWitnessNotNil msg,
     hashes_ok msg -> (zlen (TxIns msg) >? 0) && firstWitnessNotNil = HasWitness msg ->
     Forall2 (fun loc to =>
       ztake (zlen (PkScript to)) (zdrop loc (Serialize msg)) = PkScript to)
       (PkScriptLocs firstWitnessNotNil msg) (TxOuts msg)) /\
  (exists loc, PkScriptLocs false late_witness_tx = [loc] /\
     ztake 2 (zdrop (loc + 2) (Serialize late_witness_tx)) = [x51; x52] /\
     ztake 2 (zdrop loc (Serialize late_witness_tx)) <> [x51; x52]).
Proof.
  split; [exact PkScriptLocs_spec |].
  eexists. split; [reflexivity |]. split; [reflexivity | vm_compute; discriminate].
Qed.

Lemma pkscript_locs_witness : PkScriptLocs true example_tx = [59] /\
  Forall2 (fun loc to =>
    ztake (zlen (PkScript to)) (zdrop loc (Serialize example_tx)) = PkScript to)
    (PkScriptLocs true example_tx) (TxOuts example_tx).
Proof.
  split; [reflexivity |]. apply (proj1 pkscript_locs); [repeat constructor | reflexivity].
Defined.
