(* ===== verification/MsgBlock.v ===== *)
(** Block headers and block messages (src/btcd/wire/blockheader.go,
    src/btcd/wire/msgblock.go). *)
From S2P Require Import Prelude WireCommon MsgTx.

(** * Block headers *)

(** A [Timestamp] is its Unix time in seconds. *)
Record BlockHeader := mkBlockHeader {
  bh_Version : Z;
  PrevBlock : bytes;
  MerkleRoot : bytes;
  Timestamp : Z;
  Bits : Z;
  Nonce : Z;
}.

Definition blockHeaderLen : Z := 80.

Definition readBlockHeaderBuf : Rd BlockHeader :=
  version <- readUint 4;;
  prev <- ReadFull HashSize;;
  root <- ReadFull HashSize;;
  ts <- readUint 4;;
  bits <- readUint 4;;
  nonce <- readUint 4;;
  ret {| bh_Version := int32 version; PrevBlock := prev; MerkleRoot := root;
         Timestamp := int64 ts; Bits := bits; Nonce := nonce |}.

Definition writeBlockHeaderBuf (bh : BlockHeader) : bytes :=
  le_bytes 4 (uint32 (bh_Version bh)) ++ PrevBlock bh ++ MerkleRoot bh ++
  le_bytes 4 (uint32 (Timestamp bh)) ++ le_bytes 4 (Bits bh) ++ le_bytes 4 (Nonce bh).

(** * Blocks *)

Record MsgBlock := mkMsgBlock {
  Header : BlockHeader;
  Transactions : list MsgTx;
}.

Record TxLoc := mkTxLoc {
  TxStart : Z;
  TxLen : Z;
}.

Definition MaxBlockPayload : Z := 4000000.
Definition minTxPayload : Z := 10.
Definition maxTxPerBlock : Z := MaxBlockPayload / minTxPayload + 1.

(** [for i := uint64(0); i < n; i++] around a read *)
Fixpoint read_list {A} (body : Rd A) (n : nat) : Rd (list A) :=
  match n with
  | O => ret []
  | S n => a <- body;; l <- read_list body n;; ret (a :: l)
  end.

Definition block_BtcDecode (enc : MessageEncoding) : Rd MsgBlock :=
  h <- readBlockHeaderBuf;;
  txCount <- ReadVarIntBuf;;
  guard (txCount >? maxTxPerBlock) MessageError;;
  txs <- read_list (btcDecode enc scriptSlabSize) (Z.to_nat txCount);;
  ret {| Header := h; Transactions := txs |}.

(** [DeserializeTxLoc]: the reader is a buffer whose length gives the position. *)
Definition txloc_body (fullLen : Z) : Rd (MsgTx * TxLoc) :=
  start <- gets (fun r => fullLen - zlen r);;
  tx <- btcDecode WitnessEncoding scriptSlabSize;;
  stop <- gets (fun r => fullLen - zlen r);;
  ret (tx, {| TxStart := start; TxLen := stop - start |}).

Definition DeserializeTxLoc : Rd (MsgBlock * list TxLoc) :=
  fullLen <- gets zlen;;
  h <- readBlockHeaderBuf;;
  txCount <- ReadVarIntBuf;;
  guard (txCount >? maxTxPerBlock) MessageError;;
  l <- read_list (txloc_body fullLen) (Z.to_nat txCount);;
  ret ({| Header := h; Transactions := fst <$> l |}, snd <$> l).

Definition block_BtcEncode (enc : MessageEncoding) (msg : MsgBlock) : bytes :=
  writeBlockHeaderBuf (Header msg) ++ WriteVarIntBuf (zlen (Transactions msg)) ++
  concat (btcEncode enc <$> Transactions msg).

Definition block_Serialize (msg : MsgBlock) : bytes := block_BtcEncode WitnessEncoding msg.
Definition block_SerializeNoWitness (msg : MsgBlock) : bytes := block_BtcEncode BaseEncoding msg.

Definition block_SerializeSize (msg : MsgBlock) : Z :=
  blockHeaderLen + VarIntSerializeSize (zlen (Transactions msg)) +
  zsum SerializeSize (Transactions msg).

Definition block_SerializeSizeStripped (msg : MsgBlock) : Z :=
  blockHeaderLen + VarIntSerializeSize (zlen (Transactions msg)) +
  zsum SerializeSizeStripped (Transactions msg).

(** * Codecs *)

Definition header_ok (bh : BlockHeader) : Prop :=
  - 2 ^ 31 <= bh_Version bh < 2 ^ 31 /\ zlen (PrevBlock bh) = HashSize /\
  zlen (MerkleRoot bh) = HashSize /\ 0 <= Timestamp bh < 2 ^ 32 /\
  0 <= Bits bh < 2 ^ 32 /\ 0 <= Nonce bh < 2 ^ 32.

Definition hash_codec : Codec (fun b => zlen b = HashSize) (fun b => b) (ReadFull HashSize) :=
  ReadFull_codec HashSize ltac:(discriminate).

#[global] Instance header_codec : Codec header_ok writeBlockHeaderBuf readBlockHeaderBuf.
Proof.
  split.
  - intros [v p m t b n] rest (Hv & Hp & Hm & Ht & Hb & Hn). unfold readBlockHeaderBuf, writeBlockHeaderBuf.
    cbn [bh_Version PrevBlock MerkleRoot Timestamp Bits Nonce] in *. rewrite <- !app_assoc.
    erewrite bind_Ok by (apply (readUint_app 4); [lia | apply (wrapU_range 32); lia]).
    erewrite bind_Ok by now apply (codec_roundtrip (Codec := hash_codec)).
    erewrite bind_Ok by now apply (codec_roundtrip (Codec := hash_codec)).
    erewrite bind_Ok by (apply (readUint_app 4); [lia | apply (wrapU_range 32); lia]).
    erewrite bind_Ok by (apply (readUint_app 4); lia).
    erewrite bind_Ok by (apply (readUint_app 4); lia).
    unfold ret. rewrite wrapS_wrapU, wrapU_small, int64_small by lia. done.
  - intros r bh r' H. unfold readBlockHeaderBuf in H. run_inv.
    repeat match goal with H : ReadFull _ _ = _ |- _ =>
      apply (codec_canonical (Codec := hash_codec)) in H as [? ->] end.
    read_inv. unfold header_ok, writeBlockHeaderBuf.
    cbn [bh_Version PrevBlock MerkleRoot Timestamp Bits Nonce].
    rewrite int64_small, wrapU_wrapS, (wrapU_small 32) by lia.
    match goal with |- context [int32 ?v] => pose proof (wrapS_range 32 v ltac:(lia)) end.
    rewrite <- !app_assoc. split_and!; auto; lia.
Qed.

#[global] Instance header_panic_free : PanicFree readBlockHeaderBuf.
Proof. unfold readBlockHeaderBuf. apply _. Qed.

Lemma zlen_writeBlockHeaderBuf bh : header_ok bh -> zlen (writeBlockHeaderBuf bh) = blockHeaderLen.
Proof.
  intros (_ & Hp & Hm & _). unfold writeBlockHeaderBuf.
  rewrite !zlen_app, !zlen_le_bytes, Hp, Hm. reflexivity.
Qed.

#[global] Instance tx_codec_inst enc :
  Codec (tx_ok enc scriptSlabSize) (btcEncode enc) (btcDecode enc scriptSlabSize).
Proof.
  split; intros; [apply btcDecode_roundtrip | apply btcDecode_canonical]; done.
Qed.

Section ReadList.
Context {A : Type} (ok : A -> Prop) (enc : A -> bytes) (dec : Rd A) `{C : !Codec ok enc dec}.

Lemma read_list_roundtrip l rest :
  Forall ok l -> read_list dec (length l) (concat (enc <$> l) ++ rest) = (Ok l, rest).
Proof.
  induction 1 as [|a l Ha Hl IH]; [done |]. rewrite fmap_cons. cbn [length read_list concat].
  rewrite <- app_assoc. erewrite bind_Ok by now apply codec_roundtrip.
  erewrite bind_Ok by exact IH. done.
Qed.

Lemma read_list_canonical n r l r' :
  read_list dec n r = (Ok l, r') ->
  length l = n /\ Forall ok l /\ r = concat (enc <$> l) ++ r'.
Proof.
  revert r l. induction n as [|n IH]; intros r l H; cbn [read_list] in H; run_inv; [done |].
  match goal with H : dec _ = _ |- _ => apply (codec_canonical (Codec := C)) in H as [Ha ->] end.
  match goal with H : read_list _ _ _ = _ |- _ => apply IH in H as (Hlen & Hl & ->) end.
  rewrite fmap_cons. cbn [length concat]. rewrite <- app_assoc. split_and!; auto.
Qed.
End ReadList.

Definition block_ok (enc : MessageEncoding) (b : MsgBlock) : Prop :=
  header_ok (Header b) /\ zlen (Transactions b) <= maxTxPerBlock /\
  Forall (tx_ok enc scriptSlabSize) (Transactions b).

#[global] Instance block_codec enc : Codec (block_ok enc) (block_BtcEncode enc) (block_BtcDecode enc).
Proof.
  split.
  - intros [h txs] rest (Hh & Hn & Htx). unfold block_BtcDecode, block_BtcEncode.
    cbn [Header Transactions] in *. rewrite <- !app_assoc. pose proof (zlen_nonneg txs).
    erewrite bind_Ok by now apply (codec_roundtrip (Codec := header_codec)).
    erewrite bind_Ok by (apply (codec_roundtrip (Codec := ReadVarIntBuf_codec)); split;
      [lia | eapply Z.le_lt_trans; [exact Hn | reflexivity]]).
    ztest. rewrite bind_eq, guard_false. cbv beta iota.
    replace (Z.to_nat (zlen txs)) with (length txs) by (unfold zlen; lia).
    erewrite bind_Ok by now apply (read_list_roundtrip (tx_ok enc scriptSlabSize) _ _). done.
  - intros r [h txs] r' H. unfold block_BtcDecode in H. run_inv.
    match goal with H : readBlockHeaderBuf _ = _ |- _ =>
      apply (codec_canonical (Codec := header_codec)) in H as [Hh ->] end.
    match goal with H : ReadVarIntBuf _ = _ |- _ =>
      apply (codec_canonical (Codec := ReadVarIntBuf_codec)) in H as [Hc ->] end.
    match goal with H : read_list _ _ _ = _ |- _ =>
      apply (read_list_canonical (tx_ok enc scriptSlabSize) _ _) in H as (Hlen & Htx & ->) end.
    unfold block_ok, block_BtcEncode. cbn [Header Transactions]. rewrite <- !app_assoc.
    match type of Hlen with _ = Z.to_nat ?x => assert (zlen txs = x) as Hx by (unfold zlen; lia) end.
    rewrite Hx. split_and!; auto. lia.
Qed.

(** * Transaction locations *)

Definition map_out {E A B S} (f : A -> B) (x : outcome E A * S) : outcome E B * S :=
  match x with
  | (Ok a, s) => (Ok (f a), s)
  | (Err e, s) => (Err e, s)
  | (Panic, s) => (Panic, s)
  end.

Lemma map_out_bind {E A B C S} (g : B -> C) (m : M S E A) (k : A -> M S E B) s :
  map_out g (bind m k s) = bind m (fun a s => map_out g (k a s)) s.
Proof. unfold bind. by destruct (m s) as [[]]. Qed.

Lemma bind_map_out {E A B C S} (f : A -> B) (m : M S E A) (m' : M S E B) (k : B -> M S E C) s :
  map_out f (m s) = m' s -> bind m' k s = bind m (fun a => k (f a)) s.
Proof. intros H. unfold bind. rewrite <- H. by destruct (m s) as [[]]. Qed.

Lemma bind_ext {E A B S} (m : M S E A) (k k' : A -> M S E B) s :
  (forall a s, k a s = k' a s) -> bind m k s = bind m k' s.
Proof. intros H. unfold bind. destruct (m s) as [[]]; auto. Qed.

(** Recording positions does not change what is read. *)
Lemma txloc_body_fst F r :
  map_out fst (txloc_body F r) = btcDecode WitnessEncoding scriptSlabSize r.
Proof.
  unfold txloc_body, bind, gets, ret. destruct (btcDecode _ _ r) as [[] ?]; reflexivity.
Qed.

Lemma read_txlocs_fst F n r :
  map_out (fmap fst) (read_list (txloc_body F) n r) =
  read_list (btcDecode WitnessEncoding scriptSlabSize) n r.
Proof.
  revert r. induction n as [|n IH]; intros r; [done |]. cbn [read_list].
  rewrite map_out_bind. symmetry. rewrite (bind_map_out _ _ _ _ _ (txloc_body_fst F r)).
  apply bind_ext. intros p r1. rewrite map_out_bind, (bind_map_out _ _ _ _ _ (IH r1)).
  by apply bind_ext.
Qed.

Lemma DeserializeTxLoc_fst r :
  map_out fst (DeserializeTxLoc r) = block_BtcDecode WitnessEncoding r.
Proof.
  unfold DeserializeTxLoc, block_BtcDecode. unfold bind at 1, gets.
  rewrite map_out_bind. apply bind_ext. intros h r1.
  rewrite map_out_bind. apply bind_ext. intros c r2.
  rewrite map_out_bind. apply bind_ext. intros _ r3.
  rewrite map_out_bind, (bind_map_out _ _ _ _ _ (read_txlocs_fst (zlen r) _ r3)).
  by apply bind_ext.
Qed.

(** [loc] frames the encoding of [tx] in [raw]. *)
Definition loc_of (raw : bytes) (tx : MsgTx) (loc : TxLoc) : Prop :=
  ztake (TxLen loc) (zdrop (TxStart loc) raw) = btcEncode WitnessEncoding tx.

Lemma read_txlocs_loc n : forall pre r l r',
  read_list (txloc_body (zlen (pre ++ r))) n r = (Ok l, r') ->
  Forall (fun p => loc_of (pre ++ r) (fst p) (snd p)) l.
Proof.
  induction n as [|n IH]; intros pre r l r' H; cbn [read_list] in H; run_inv; [constructor |].
  unfold txloc_body in *. run_inv.
  match goal with H : btcDecode _ _ _ = _ |- _ =>
    apply (codec_canonical (Codec := tx_codec_inst _)) in H as [_ ->] end.
  constructor.
  - unfold loc_of. cbn [fst snd TxStart TxLen]. rewrite !zlen_app.
    match goal with |- ztake ?a (zdrop ?b _) = btcEncode _ ?x =>
      replace a with (zlen (btcEncode WitnessEncoding x)) by lia;
      apply slice_mid; lia end.
  - rewrite app_assoc in *. eauto.
Qed.

(** * Theorems *)

(** Blocks: a block within the limits is decoded from its encoding with
    nothing else consumed, and a decoded block is within the limits and encoded
    by exactly the bytes consumed. *)
Lemma block_codec_laws enc b r rest :
  (block_ok enc b -> block_BtcDecode enc (block_BtcEncode enc b ++ rest) = (Ok b, rest)) /\
  (block_BtcDecode enc r = (Ok b, rest) -> block_ok enc b /\ r = block_BtcEncode enc b ++ rest).
Proof.
  split; [apply (codec_roundtrip (Codec := block_codec enc))
         | apply (codec_canonical (Codec := block_codec enc))].
Qed.

Definition example_block : MsgBlock :=
  mkMsgBlock (mkBlockHeader 4 (replicate 32 x01) (replicate 32 x02) 1231006505 0x1d00ffff 7)
    [example_tx].

Lemma example_block_ok : block_ok WitnessEncoding example_block.
Proof. repeat (split || constructor); try discriminate; reflexivity. Qed.

Lemma block_codec_laws_witness :
  block_BtcDecode WitnessEncoding (block_Serialize example_block ++ [x99]) =
    (Ok example_block, [x99]).
Proof. apply (proj1 (block_codec_laws WitnessEncoding example_block [] [x99])), example_block_ok. Defined.

(** The sizes that transactions and blocks announce are the lengths of
    their serializations, with and without witnesses. *)
Lemma block_sizes :
  (forall msg, hashes_ok msg ->
     zlen (Serialize msg) = SerializeSize msg /\
     zlen (SerializeNoWitness msg) = SerializeSizeStripped msg) /\
  (forall b, header_ok (Header b) -> Forall hashes_ok (Transactions b) ->
     zlen (block_Serialize b) = block_SerializeSize b /\
     zlen (block_SerializeNoWitness b) = block_SerializeSizeStripped b).
Proof.
  split; [exact tx_sizes |]. intros b Hh Htx.
  unfold block_Serialize, block_SerializeNoWitness, block_BtcEncode,
    block_SerializeSize, block_SerializeSizeStripped.
  rewrite !zlen_app, zlen_writeBlockHeaderBuf, !zlen_WriteVarIntBuf, !zlen_concat by done.
  enough (zsum (fun a => zlen (btcEncode WitnessEncoding a)) (Transactions b) =
            zsum SerializeSize (Transactions b) /\
          zsum (fun a => zlen (btcEncode BaseEncoding a)) (Transactions b) =
            zsum SerializeSizeStripped (Transactions b)) by lia.
  induction Htx as [|tx l Hx Hl [IH1 IH2]]; [done |]. rewrite !zsum_cons, IH1, IH2.
  rewrite !zlen_btcEncode by done. unfold SerializeSize, SerializeSizeStripped.
  cbn [is_WitnessEncoding andb]. lia.
Qed.

Lemma block_sizes_witness : zlen (block_Serialize example_block) = 151.
Proof.
  rewrite (proj1 (proj2 block_sizes example_block (proj1 example_block_ok) ltac:(repeat constructor))).
  vm_compute. reflexivity.
Defined.

(** [DeserializeTxLoc] reads what [Deserialize] reads, with the same errors,
    and each location frames the serialization of its transaction in the raw
    block. *)
Lemma block_tx_locs r b locs r' :
  map_out fst (DeserializeTxLoc r) = block_BtcDecode WitnessEncoding r /\
  (DeserializeTxLoc r = (Ok (b, locs), r') -> Forall2 (loc_of r) (Transactions b) locs).
Proof.
  split; [apply DeserializeTxLoc_fst |]. intros H. unfold DeserializeTxLoc in H. run_inv.
  match goal with H : readBlockHeaderBuf _ = _ |- _ =>
    apply (codec_canonical (Codec := header_codec)) in H as [_ ->] end.
  match goal with H : ReadVarIntBuf _ = _ |- _ =>
    apply (codec_canonical (Codec := ReadVarIntBuf_codec)) in H as [_ ->] end.
  rewrite app_assoc in *. match goal with H : read_list _ _ _ = _ |- _ =>
    apply read_txlocs_loc in H end.
  cbn [Transactions]. apply Forall2_fmap. now apply Forall_Forall2_diag.
Qed.

Lemma block_tx_locs_witness :
  DeserializeTxLoc (block_Serialize example_block) =
    (Ok (example_block, [mkTxLoc 81 70]), []) /\
  Forall2 (loc_of (block_Serialize example_block)) [example_tx] [mkTxLoc 81 70].
Proof.
  assert (DeserializeTxLoc (block_Serialize example_block) =
    (Ok (example_block, [mkTxLoc 81 70]), [])) as H by (vm_compute; reflexivity).
  split; [exact H |]. exact (proj2 (block_tx_locs _ _ _ _) H).
Defined.
