(* ===== verification/Script.v ===== *)
(** Script inspection (src/btcd/txscript/script.go and the recognisers of
    src/btcd/txscript/standard.go): predicates on raw scripts, removal of
    opcodes and signature operation counting.  The functions that loop over a
    tokenizer return [res], whose [Panic] stands for a loop that does not end;
    [loop_tokens_Ok] shows that it never happens. *)
From S2P Require Import Prelude ScriptError Opcodes Tokenizer MsgTx.

(** * Constants *)

Definition TaprootAnnexTag : Z := 0x50.
Definition TaprootLeafMask : Z := 0xfe.
Definition MaxOpsPerScript : Z := 201.
Definition MaxPubKeysPerMultiSig : Z := 20.
Definition MaxScriptElementSize : Z := 520.
Definition MaxStackSize : Z := 1000.
Definition MaxScriptSize : Z := 10000.
Definition payToWitnessPubKeyHashDataSize : Z := 20.
Definition payToWitnessScriptHashDataSize : Z := 32.
Definition payToTaprootDataSize : Z := 32.
Definition BaseSegwitWitnessVersion : Z := 0.
Definition TaprootWitnessVersion : Z := 1.
Definition MaxDataCarrierSize : Z := 80.
Definition witnessV0PubKeyHashLen : Z := 22.
Definition witnessV0ScriptHashLen : Z := 34.
Definition witnessV1TaprootLen : Z := 34.

(** [script[i]] behind a length test that makes the index valid. *)
Definition byte_at (script : bytes) (i : Z) : Z :=
  match znth script i with Some b => b2z b | None => -1 end.

(** [script[i:j]] with indices in range *)
Definition slice (script : bytes) (i j : Z) : bytes := ztake (j - i) (zdrop i script).

Definition is_some {A} (o : option A) : bool := match o with Some _ => true | None => false end.

(** * Small integers *)

Definition IsSmallInt (op : Z) : bool :=
  (op =? OP_0) || ((op >=? OP_1) && (op <=? OP_16)).

Definition AsSmallInt (op : Z) : Z :=
  if op =? OP_0 then 0 else uint8 (op - (OP_1 - 1)).

(** * Whole-script predicates *)

Definition checkScriptParses (scriptVersion : Z) (script : bytes) : res (option Error) :=
  loop_tokens scriptVersion script tt (fun _ u => inr u) (fun t _ => t_err t).

Definition IsPushOnlyScript (script : bytes) : res bool :=
  loop_tokens 0 script tt
    (fun t u => if Opcode t >? OP_16 then inl false else inr u)
    (fun t _ => negb (is_some (t_err t))).

Definition ScriptHasOpSuccess (witnessScript : bytes) : res bool :=
  loop_tokens 0 witnessScript tt
    (fun t u => if isSuccessOpcode (Opcode t) then inl true else inr u)
    (fun _ _ => false).

(** A nil slice is the empty list. *)
Definition finalOpcodeData (scriptVersion : Z) (script : bytes) : res bytes :=
  if zlen script =? 0 then Ok []
  else loop_tokens scriptVersion script []
         (fun t _ => inr (t_data t))
         (fun t data => if is_some (t_err t) then [] else data).

Definition IsUnspendable (pkScript : bytes) : res bool :=
  if (zlen pkScript >? 0) && (byte_at pkScript 0 =? OP_RETURN) then Ok true
  else if zlen pkScript >? MaxScriptSize then Ok true
  else let! e := checkScriptParses 0 pkScript in Ok (is_some e).

(** * Removing opcodes *)

(** One opcode of the removal loops: [result] is nil until the first opcode is
    dropped, and then holds what was kept so far. *)
Definition drop_or_copy (script : bytes) (hit : bool) (prevOffset byteIndex : Z)
    (result : option bytes) : option bytes :=
  if hit then
    match result with
    | None => Some (slice script 0 prevOffset)
    | Some r => Some r
    end
  else
    match result with
    | None => None
    | Some r => Some (r ++ slice script prevOffset byteIndex)
    end.

Definition removeOpcodeRaw (script : bytes) (opcode : Z) : res bytes :=
  if zlen script =? 0 then Ok script
  else loop_tokens 0 script (None, 0)
    (fun t st =>
       let '(result, prevOffset) := st in
       inr (drop_or_copy script (Opcode t =? opcode) prevOffset (ByteIndex t) result,
            ByteIndex t))
    (fun _ st => default script (fst st)).

Definition isCanonicalPush (opcode : Z) (data : bytes) : bool :=
  let dataLen := zlen data in
  if opcode >? OP_16 then true
  else if ((opcode <? OP_PUSHDATA1) && (opcode >? OP_0)) &&
          ((dataLen =? 1) && (byte_at data 0 <=? 16)) then false
  else if (opcode =? OP_PUSHDATA1) && (dataLen <? OP_PUSHDATA1) then false
  else if (opcode =? OP_PUSHDATA2) && (dataLen <=? 0xff) then false
  else if (opcode =? OP_PUSHDATA4) && (dataLen <=? 0xffff) then false
  else true.

Definition removeOpcodeCanonical (t : ScriptTokenizer) (script dataToRemove : bytes)
    (prevOffset : Z) (result : option bytes) : option bytes * Z * bool :=
  let found := isCanonicalPush (Opcode t) (t_data t) && bool_decide (t_data t = dataToRemove) in
  (drop_or_copy script found prevOffset (ByteIndex t) result, ByteIndex t, found).

Definition removeOpcodeByData (script dataToRemove : bytes) : res (bytes * bool) :=
  if (zlen script =? 0) || (zlen dataToRemove =? 0) then Ok (script, false)
  else loop_tokens 0 script (None, 0, false)
    (fun t st =>
       let '(result, prevOffset, mtch) := st in
       let '(result, prevOffset, found) :=
         removeOpcodeCanonical t script dataToRemove prevOffset result in
       inr (result, prevOffset, if found : bool then true else mtch))
    (fun _ st => let '(result, _, mtch) := st in (default script result, mtch)).

(** * Signature operations *)

Definition countSigOpsV0 (script : bytes) (precise : bool) : res Z :=
  loop_tokens 0 script (0, OP_INVALIDOPCODE)
    (fun t st =>
       let '(numSigOps, prevOp) := st in
       let op := Opcode t in
       let numSigOps :=
         if (op =? OP_CHECKSIG) || (op =? OP_CHECKSIGVERIFY) then numSigOps + 1
         else if (op =? OP_CHECKMULTISIG) || (op =? OP_CHECKMULTISIGVERIFY) then
           if precise && (prevOp >=? OP_1) && (prevOp <=? OP_16)
           then numSigOps + AsSmallInt prevOp
           else numSigOps + MaxPubKeysPerMultiSig
         else numSigOps in
       inr (numSigOps, op))
    (fun _ st => fst st).

Definition GetSigOpCount (script : bytes) : res Z := countSigOpsV0 script false.

(** * Standard forms *)

Definition extractCompressedPubKey (script : bytes) : option bytes :=
  if (zlen script =? 35) && (byte_at script 34 =? OP_CHECKSIG) &&
     (byte_at script 0 =? OP_DATA_33) &&
     ((byte_at script 1 =? 0x02) || (byte_at script 1 =? 0x03))
  then Some (slice script 1 34) else None.

Definition extractUncompressedPubKey (script : bytes) : option bytes :=
  if (zlen script =? 67) && (byte_at script 66 =? OP_CHECKSIG) &&
     (byte_at script 0 =? OP_DATA_65) &&
     ((byte_at script 1 =? 0x04) || (byte_at script 1 =? 0x06) || (byte_at script 1 =? 0x07))
  then Some (slice script 1 66) else None.

Definition extractPubKey (script : bytes) : option bytes :=
  match extractCompressedPubKey script with
  | Some pubKey => Some pubKey
  | None => extractUncompressedPubKey script
  end.

Definition isPubKeyScript (script : bytes) : bool := is_some (extractPubKey script).

Definition extractPubKeyHash (script : bytes) : option bytes :=
  if (zlen script =? 25) && (byte_at script 0 =? OP_DUP) && (byte_at script 1 =? OP_HASH160) &&
     (byte_at script 2 =? OP_DATA_20) && (byte_at script 23 =? OP_EQUALVERIFY) &&
     (byte_at script 24 =? OP_CHECKSIG)
  then Some (slice script 3 23) else None.

Definition isPubKeyHashScript (script : bytes) : bool := is_some (extractPubKeyHash script).

Definition extractScriptHash (script : bytes) : option bytes :=
  if (zlen script =? 23) && (byte_at script 0 =? OP_HASH160) &&
     (byte_at script 1 =? OP_DATA_20) && (byte_at script 22 =? OP_EQUAL)
  then Some (slice script 2 22) else None.

Definition isScriptHashScript (script : bytes) : bool := is_some (extractScriptHash script).

Definition extractWitnessPubKeyHash (script : bytes) : option bytes :=
  if (zlen script =? witnessV0PubKeyHashLen) && (byte_at script 0 =? OP_0) &&
     (byte_at script 1 =? OP_DATA_20)
  then Some (slice script 2 witnessV0PubKeyHashLen) else None.

Definition isWitnessPubKeyHashScript (script : bytes) : bool :=
  is_some (extractWitnessPubKeyHash script).

Definition extractWitnessV0ScriptHash (script : bytes) : option bytes :=
  if (zlen script =? witnessV0ScriptHashLen) && (byte_at script 0 =? OP_0) &&
     (byte_at script 1 =? OP_DATA_32)
  then Some (slice script 2 34) else None.

Definition extractWitnessV1KeyBytes (script : bytes) : option bytes :=
  if (zlen script =? witnessV1TaprootLen) && (byte_at script 0 =? OP_1) &&
     (byte_at script 1 =? OP_DATA_32)
  then Some (slice script 2 34) else None.

Definition isWitnessScriptHashScript (script : bytes) : bool :=
  is_some (extractWitnessV0ScriptHash script).

Definition isWitnessTaprootScript (script : bytes) : bool :=
  is_some (extractWitnessV1KeyBytes script).

Definition isStrictPubKeyEncoding (pubKey : bytes) : bool :=
  if (zlen pubKey =? 33) && ((byte_at pubKey 0 =? 0x02) || (byte_at pubKey 0 =? 0x03)) then true
  else if zlen pubKey =? 65 then
    (byte_at pubKey 0 =? 0x04) || (byte_at pubKey 0 =? 0x06) || (byte_at pubKey 0 =? 0x07)
  else false.

(** A call of [Next] that the code follows with [!tokenizer.Next() || ...]. *)
Definition next (t : ScriptTokenizer) : res (bool * ScriptTokenizer) :=
  match Next t with
  | (Ok b, t') => Ok (b, t')
  | (Err e, _) => Err e
  | (Panic, _) => Panic
  end.

(** [version], [program] and [valid] *)
Definition extractWitnessProgramInfo (script : bytes) : res (Z * bytes * bool) :=
  if (zlen script <? 4) || (zlen script >? 42) then Ok (0, [], false) else
  let! p := next (MakeScriptTokenizer 0 script) in
  if negb (fst p) || negb (IsSmallInt (Opcode (snd p))) then Ok (0, [], false) else
  let version := AsSmallInt (Opcode (snd p)) in
  let! q := next (snd p) in
  if negb (fst q) || negb (isCanonicalPush (Opcode (snd q)) (t_data (snd q)))
  then Ok (0, [], false) else
  Ok (version, t_data (snd q), Done (snd q) && negb (is_some (t_err (snd q)))).

Definition isWitnessProgramScript (script : bytes) : res bool :=
  let! p := extractWitnessProgramInfo script in Ok (snd p).

Definition IsWitnessProgram (script : bytes) : res bool := isWitnessProgramScript script.

Definition ExtractWitnessProgramInfo (script : bytes) : res (Z * bytes) :=
  let! p := extractWitnessProgramInfo script in
  if negb (snd p) then Err otherError else Ok (fst p).

Definition isAnnexedWitness (witness : list bytes) : bool :=
  if zlen witness <? 2 then false
  else match last witness with
       | Some lastElement => (zlen lastElement >? 0) && (byte_at lastElement 0 =? TaprootAnnexTag)
       | None => false
       end.

Definition extractAnnex (witness : list bytes) : res bytes :=
  if negb (isAnnexedWitness witness) then Err (scriptError ErrWitnessHasNoAnnex)
  else match last witness with Some lastElement => Ok lastElement | None => Panic end.

(** * Counting with redeem and witness scripts *)

Definition GetPreciseSigOpCount (scriptSig scriptPubKey : bytes) : res Z :=
  if negb (isScriptHashScript scriptPubKey) then countSigOpsV0 scriptPubKey true else
  if zlen scriptSig =? 0 then Ok 0 else
  let! po := IsPushOnlyScript scriptSig in
  if negb po then Ok 0 else
  let! redeemScript := finalOpcodeData 0 scriptSig in
  if zlen redeemScript =? 0 then Ok 0 else countSigOpsV0 redeemScript true.

Definition getWitnessSigOps (pkScript : bytes) (witness : list bytes) : res Z :=
  match ExtractWitnessProgramInfo pkScript with
  | Err _ => Ok 0
  | Panic => Panic
  | Ok (witnessVersion, witnessProgram) =>
      if witnessVersion =? BaseSegwitWitnessVersion then
        if zlen witnessProgram =? payToWitnessPubKeyHashDataSize then Ok 1
        else if (zlen witnessProgram =? payToWitnessScriptHashDataSize) && (zlen witness >? 0) then
          match last witness with
          | Some witnessScript => countSigOpsV0 witnessScript true
          | None => Panic
          end
        else Ok 0
      else Ok 0
  end.

Definition GetWitnessSigOpCount (sigScript pkScript : bytes) (witness : list bytes) : res Z :=
  let! w := isWitnessProgramScript pkScript in
  if w then getWitnessSigOps pkScript witness else
  if negb (isScriptHashScript pkScript) then Ok 0 else
  let! po := IsPushOnlyScript sigScript in
  if negb po then Ok 0 else
  if negb (zlen sigScript >? 0) then Ok 0 else
  let! w := isWitnessProgramScript (zdrop 1 sigScript) in
  if w then getWitnessSigOps (zdrop 1 sigScript) witness else Ok 0.

(** * Reference functions on tokens *)

Definition tokens_ok (toks : list token) : Prop := Forall (fun tk => token_ok tk = true) toks.

Definition tail_err (tail : bytes) : option Error :=
  match tail with [] => None | _ => Some (scriptError ErrMalformedPush) end.

Definition tok_op (tk : token) : Z := b2z (fst tk).

(** Signature operations of a list of tokens after opcode [prev]. *)
Fixpoint sigops (precise : bool) (prev : Z) (toks : list token) : Z :=
  match toks with
  | [] => 0
  | tk :: toks =>
      let op := tok_op tk in
      (if (op =? OP_CHECKSIG) || (op =? OP_CHECKSIGVERIFY) then 1
       else if (op =? OP_CHECKMULTISIG) || (op =? OP_CHECKMULTISIGVERIFY) then
         if precise && (OP_1 <=? prev) && (prev <=? OP_16) then prev - 80 else 20
       else 0) + sigops precise op toks
  end.

Lemma Opcode_at pre rest pos tk : Opcode (tok_at pre rest pos (Some tk)) = tok_op tk.
Proof. unfold Opcode, tok_op. cbn [tok_at t_op]. apply opcode_of_value. Qed.

Lemma data_at pre rest pos tk : t_data (tok_at pre rest pos (Some tk)) = snd tk.
Proof. reflexivity. Qed.

Lemma ByteIndex_at pre rest pos prev : ByteIndex (tok_at pre rest pos prev) = zlen pre.
Proof. reflexivity. Qed.

Lemma run_tokens_parses toks : forall pre tail pos prev,
  run_tokens pre toks tail pos prev tt (fun _ u => inr u) (fun t _ => t_err t) = tail_err tail.
Proof. induction toks; intros; cbn [run_tokens]; [by destruct tail | auto]. Qed.

Lemma checkScriptParses_spec toks tail :
  tokens_ok toks -> stuck tail -> zlen (enc_tokens toks ++ tail) < 2 ^ 31 ->
  checkScriptParses 0 (enc_tokens toks ++ tail) = Ok (tail_err tail).
Proof.
  intros. unfold checkScriptParses. rewrite loop_tokens_run by done.
  now rewrite run_tokens_parses.
Qed.

(** A script that parses is the encoding of its tokens. *)
Lemma checkScriptParses_inv script :
  zlen script < 2 ^ 31 -> checkScriptParses 0 script = Ok None ->
  exists toks, tokens_ok toks /\ script = enc_tokens toks.
Proof.
  intros Hlen H. destruct (parse_all script) as (toks & tail & -> & Hok & Hs).
  rewrite checkScriptParses_spec in H by done. destruct tail; [| done].
  exists toks. by rewrite app_nil_r.
Qed.

Lemma run_tokens_pushonly toks : forall pre tail pos prev,
  run_tokens pre toks tail pos prev tt
    (fun t u => if Opcode t >? OP_16 then inl false else inr u)
    (fun t _ => negb (is_some (t_err t))) =
  forallb (fun tk => tok_op tk <=? OP_16) toks && bool_decide (tail = []).
Proof.
  induction toks as [|tk toks IH]; intros; cbn [run_tokens forallb].
  - by destruct tail.
  - rewrite Opcode_at. destruct (tok_op tk >? OP_16) eqn:H; ztest; [done |]. apply IH.
Qed.

Lemma IsPushOnlyScript_spec toks tail :
  tokens_ok toks -> stuck tail -> zlen (enc_tokens toks ++ tail) < 2 ^ 31 ->
  IsPushOnlyScript (enc_tokens toks ++ tail) =
  Ok (forallb (fun tk => tok_op tk <=? OP_16) toks && bool_decide (tail = [])).
Proof.
  intros. unfold IsPushOnlyScript. rewrite loop_tokens_run by done.
  now rewrite run_tokens_pushonly.
Qed.

Lemma AsSmallInt_range op : OP_1 <= op <= OP_16 -> AsSmallInt op = op - 80.
Proof.
  unfold AsSmallInt, OP_0, OP_1, OP_16. intros H. ztest. apply wrapU_small. lia.
Qed.

Lemma run_tokens_sigops precise toks : forall pre tail pos prev n prevOp,
  run_tokens pre toks tail pos prev (n, prevOp)
    (fun t st =>
       let '(numSigOps, prevOp) := st in
       let op := Opcode t in
       let numSigOps :=
         if (op =? OP_CHECKSIG) || (op =? OP_CHECKSIGVERIFY) then numSigOps + 1
         else if (op =? OP_CHECKMULTISIG) || (op =? OP_CHECKMULTISIGVERIFY) then
           if precise && (prevOp >=? OP_1) && (prevOp <=? OP_16)
           then numSigOps + AsSmallInt prevOp
           else numSigOps + MaxPubKeysPerMultiSig
         else numSigOps in
       inr (numSigOps, op))
    (fun _ st => fst st) = n + sigops precise prevOp toks.
Proof.
  induction toks as [|tk toks IH]; intros; cbn [run_tokens sigops].
  - destruct tail; cbn [fst]; lia.
  - rewrite Opcode_at, IH. rewrite Z.add_assoc. f_equal. rewrite Z.geb_leb.
    destruct ((tok_op tk =? OP_CHECKSIG) || (tok_op tk =? OP_CHECKSIGVERIFY)); [done |].
    destruct ((tok_op tk =? OP_CHECKMULTISIG) || (tok_op tk =? OP_CHECKMULTISIGVERIFY)); [| lia].
    destruct (precise && (OP_1 <=? prevOp) && (prevOp <=? OP_16)) eqn:H; [| done].
    rewrite AsSmallInt_range; [done |]. destruct precise; [cbn [andb] in H; lia | done].
Qed.

Lemma countSigOpsV0_spec precise toks tail :
  tokens_ok toks -> stuck tail -> zlen (enc_tokens toks ++ tail) < 2 ^ 31 ->
  countSigOpsV0 (enc_tokens toks ++ tail) precise = Ok (sigops precise OP_INVALIDOPCODE toks).
Proof.
  intros. unfold countSigOpsV0. rewrite loop_tokens_run by done.
  now rewrite run_tokens_sigops.
Qed.

Lemma sigops_bounds prev toks :
  0 <= sigops true prev toks <= sigops false prev toks.
Proof.
  revert prev. induction toks as [|tk toks IH]; intros prev; cbn [sigops andb]; [lia |].
  specialize (IH (tok_op tk)). unfold OP_1, OP_16.
  repeat (case_match; try lia).
Qed.

Lemma sigops_max prev toks : sigops false prev toks <= 20 * zlen toks.
Proof.
  revert prev. induction toks as [|tk toks IH]; intros prev; cbn [sigops andb]; [done |].
  specialize (IH (tok_op tk)). rewrite zlen_cons. repeat (case_match; try lia).
Qed.

(** * Removal keeps exactly the other opcodes *)

Definition kept (drop : token -> bool) (toks : list token) : list token :=
  List.filter (fun tk => negb (drop tk)) toks.

(** The loop variable [result] after the tokens [done]. *)
Definition result_of (drop : token -> bool) (done : list token) : option bytes :=
  if existsb drop done then Some (enc_tokens (kept drop done)) else None.

Lemma kept_none drop toks : existsb drop toks = false -> kept drop toks = toks.
Proof.
  unfold kept. induction toks as [|tk toks IH]; cbn [existsb List.filter]; [done |].
  intros [-> ?]%orb_false_iff. cbn [negb]. now rewrite IH.
Qed.

Lemma kept_app drop l k : kept drop (l ++ k) = kept drop l ++ kept drop k.
Proof. apply List.filter_app. Qed.

Lemma enc_tokens_one tk : enc_tokens [tk] = enc_token tk.
Proof. unfold enc_tokens. cbn [map concat]. apply app_nil_r. Qed.

Lemma enc_tokens_snoc done tk : enc_tokens (done ++ [tk]) = enc_tokens done ++ enc_token tk.
Proof. now rewrite enc_tokens_app, enc_tokens_one. Qed.

Lemma drop_or_copy_step drop done tk rest :
  drop_or_copy (enc_tokens done ++ enc_token tk ++ rest) (drop tk)
    (zlen (enc_tokens done)) (zlen (enc_tokens (done ++ [tk]))) (result_of drop done) =
  result_of drop (done ++ [tk]).
Proof.
  unfold drop_or_copy, result_of, slice. rewrite existsb_app, enc_tokens_app, kept_app.
  cbn [existsb]. rewrite orb_false_r. destruct (existsb drop done) eqn:Hd; cbn [orb].
  - rewrite enc_tokens_app. unfold kept at 2 4. cbn [List.filter].
    destruct (drop tk); cbn [negb]; [now rewrite app_nil_r |].
    rewrite zlen_app, zdrop_app. replace (_ - _) with (zlen (enc_tokens [tk])) by lia.
    rewrite enc_tokens_one. now rewrite ztake_app.
  - destruct (drop tk) eqn:Ht; [| done]. rewrite Z.sub_0_r.
    change (zdrop 0 ?l) with l. rewrite ztake_app, (kept_none drop done Hd).
    unfold kept. cbn [List.filter]. rewrite Ht. cbn [negb]. now rewrite app_nil_r.
Qed.

Lemma default_result_of drop toks :
  default (enc_tokens toks) (result_of drop toks) = enc_tokens (kept drop toks).
Proof.
  unfold result_of. destruct (existsb drop toks) eqn:H; [done |]. now rewrite kept_none.
Qed.

Lemma run_tokens_remove_raw opcode script drop :
  (forall tk, drop tk = (tok_op tk =? opcode)) ->
  forall toks done pos prev, script = enc_tokens done ++ enc_tokens toks ->
  run_tokens (enc_tokens done) toks [] pos prev
    (result_of drop done, zlen (enc_tokens done))
    (fun t st =>
       let '(result, prevOffset) := st in
       inr (drop_or_copy script (Opcode t =? opcode) prevOffset (ByteIndex t) result,
            ByteIndex t))
    (fun _ st => default script (fst st)) = enc_tokens (kept drop (done ++ toks)).
Proof.
  intros Hdrop toks. induction toks as [|tk toks IH]; intros done pos prev Hs; cbn [run_tokens].
  - rewrite app_nil_r. cbn [fst]. change (enc_tokens []) with (@nil byte) in Hs.
    rewrite app_nil_r in Hs. rewrite Hs. apply default_result_of.
  - rewrite Opcode_at, ByteIndex_at, <- Hdrop.
    rewrite <- enc_tokens_snoc, (cons_middle tk done toks), app_assoc. rewrite Hs at 1.
    rewrite enc_tokens_cons, drop_or_copy_step. apply IH.
    now rewrite Hs, enc_tokens_cons, app_assoc, enc_tokens_snoc.
Qed.

Lemma run_tokens_remove_data dataToRemove script drop :
  (forall tk, drop tk = isCanonicalPush (tok_op tk) (snd tk) && bool_decide (snd tk = dataToRemove)) ->
  forall toks done pos prev, script = enc_tokens done ++ enc_tokens toks ->
  run_tokens (enc_tokens done) toks [] pos prev
    (result_of drop done, zlen (enc_tokens done), existsb drop done)
    (fun t st =>
       let '(result, prevOffset, mtch) := st in
       let '(result, prevOffset, found) :=
         removeOpcodeCanonical t script dataToRemove prevOffset result in
       inr (result, prevOffset, if found : bool then true else mtch))
    (fun _ st => let '(result, _, mtch) := st in (default script result, mtch)) =
  (enc_tokens (kept drop (done ++ toks)), existsb drop (done ++ toks)).
Proof.
  intros Hdrop toks. induction toks as [|tk toks IH]; intros done pos prev Hs; cbn [run_tokens].
  - rewrite app_nil_r. change (enc_tokens []) with (@nil byte) in Hs.
    rewrite app_nil_r in Hs. rewrite Hs. f_equal. apply default_result_of.
  - unfold removeOpcodeCanonical at 1.
    rewrite Opcode_at, ByteIndex_at, data_at, <- Hdrop.
    rewrite <- enc_tokens_snoc, (cons_middle tk done toks), app_assoc. rewrite Hs at 1.
    rewrite enc_tokens_cons, drop_or_copy_step.
    replace (if drop tk then true else existsb drop done) with (existsb drop (done ++ [tk]))
      by (rewrite existsb_app; cbn [existsb]; rewrite orb_false_r; now destruct (drop tk), (existsb drop done)).
    apply IH. now rewrite Hs, enc_tokens_cons, app_assoc, enc_tokens_snoc.
Qed.

Lemma enc_tokens_nil_len toks : zlen (enc_tokens toks) = 0 -> toks = [].
Proof.
  destruct toks as [|tk toks]; [done |]. rewrite enc_tokens_cons, zlen_app.
  pose proof (enc_token_len tk). pose proof (zlen_nonneg (enc_tokens toks)). lia.
Qed.

Lemma removeOpcodeRaw_spec toks opcode :
  tokens_ok toks -> zlen (enc_tokens toks) < 2 ^ 31 ->
  removeOpcodeRaw (enc_tokens toks) opcode =
  Ok (enc_tokens (kept (fun tk => tok_op tk =? opcode) toks)).
Proof.
  intros Hok Hlen. unfold removeOpcodeRaw.
  destruct (Z.eqb_spec (zlen (enc_tokens toks)) 0) as [H0%enc_tokens_nil_len|_]; [now subst |].
  rewrite <- (app_nil_r (enc_tokens toks)) at 1.
  rewrite loop_tokens_run by (rewrite ?app_nil_r; done || now left). f_equal.
  now apply (run_tokens_remove_raw opcode (enc_tokens toks) _ (fun _ => eq_refl) toks []).
Qed.

Lemma removeOpcodeByData_spec toks dataToRemove :
  tokens_ok toks -> zlen (enc_tokens toks) < 2 ^ 31 -> dataToRemove <> [] ->
  let drop tk := isCanonicalPush (tok_op tk) (snd tk) && bool_decide (snd tk = dataToRemove) in
  removeOpcodeByData (enc_tokens toks) dataToRemove =
  Ok (enc_tokens (kept drop toks), existsb drop toks).
Proof.
  intros Hok Hlen Hne drop. unfold removeOpcodeByData.
  replace (zlen dataToRemove =? 0) with false
    by (symmetry; apply Z.eqb_neq; intros ?%zlen_0_nil; done). rewrite orb_false_r.
  destruct (Z.eqb_spec (zlen (enc_tokens toks)) 0) as [H0%enc_tokens_nil_len|_]; [now subst |].
  rewrite <- (app_nil_r (enc_tokens toks)) at 1.
  rewrite loop_tokens_run by (rewrite ?app_nil_r; done || now left). f_equal.
  now apply (run_tokens_remove_data dataToRemove (enc_tokens toks) drop (fun _ => eq_refl) toks []).
Qed.

(** * Witness programs *)

Lemma next_at pre rest pos prev :
  rest <> [] -> zlen (pre ++ rest) < 2 ^ 31 ->
  next (tok_at pre rest pos prev) =
  match parse_token rest with
  | Some (tk, rest') => Ok (true, tok_at (pre ++ enc_token tk) rest' (int32 (pos + 1)) (Some tk))
  | None => Ok (false, tok_stuck pre rest (int32 (pos + 1)) prev)
  end.
Proof.
  intros. unfold next. rewrite Next_spec by done. unfold step_result.
  by destruct (parse_token rest) as [[]|].
Qed.

Lemma next_end pre pos prev :
  zlen pre < 2 ^ 31 -> next (tok_at pre [] pos prev) = Ok (false, tok_at pre [] pos prev).
Proof. intros. unfold next. by rewrite Next_end. Qed.

Lemma Done_at pre rest pos prev :
  zlen (pre ++ rest) < 2 ^ 31 -> Done (tok_at pre rest pos prev) = bool_decide (rest = []).
Proof.
  intros Hlen. unfold Done. cbn [tok_at t_err t_offset t_script orb].
  pose proof (zlen_nonneg (pre ++ rest)). rewrite int32_small by lia. rewrite zlen_app.
  destruct rest as [|b rest]; [rewrite zlen_nil | rewrite zlen_cons; pose proof (zlen_nonneg rest)];
    ztest; done.
Qed.

Lemma IsSmallInt_cases b : IsSmallInt b = true <-> b = 0 \/ 81 <= b <= 96.
Proof. unfold IsSmallInt, OP_0, OP_1, OP_16. lia. Qed.

Lemma small_int_token tk :
  IsSmallInt (tok_op tk) = true -> token_ok tk = true -> enc_token tk = [fst tk].
Proof.
  destruct tk as [b d]. unfold tok_op, token_ok, enc_token, len_bytes. cbn [fst snd].
  rewrite IsSmallInt_cases. push_cases b; intros Hs Hok; ztest; try lia;
    apply Z.eqb_eq, zlen_0_nil in Hok as ->; done.
Qed.

(** The witness programs of a given length range are direct pushes. *)
Lemma witness_push_token tk :
  token_ok tk = true -> isCanonicalPush (tok_op tk) (snd tk) = true ->
  3 <= zlen (enc_token tk) <= 41 ->
  enc_token tk = z2b (zlen (snd tk)) :: snd tk /\ 2 <= zlen (snd tk) <= 40.
Proof.
  destruct tk as [b d]. unfold tok_op, token_ok, isCanonicalPush, enc_token, len_bytes.
  cbn [fst snd]. unfold OP_16, OP_0. intros Hok Hc.
  pose proof (zlen_nonneg d). revert Hok Hc.
  push_cases b; intros Hok Hc; rewrite ?zlen_cons, ?zlen_app, ?zlen_le_bytes, ?zlen_nil; intros Hl;
    revert Hc; ztest; intros Hc; try discriminate; try lia.
  cbn [app]. split; [| lia]. f_equal. apply Z.eqb_eq in Hok. rewrite Hok. symmetry. apply z2b_b2z.
Qed.

Lemma witness_push_ok prog :
  2 <= zlen prog <= 40 ->
  token_ok (z2b (zlen prog), prog) = true /\
  enc_token (z2b (zlen prog), prog) = z2b (zlen prog) :: prog /\
  isCanonicalPush (zlen prog) prog = true.
Proof.
  intros Hp. unfold token_ok, enc_token, len_bytes, isCanonicalPush. cbn [fst snd].
  rewrite b2z_z2b_small by lia. unfold OP_PUSHDATA1, OP_PUSHDATA2, OP_PUSHDATA4, OP_16, OP_0.
  ztest. done.
Qed.

(** The scripts recognised: a small integer and a direct push of 2 to 40 bytes. *)
Definition witness_form (script : bytes) (v : Z) (prog : bytes) : Prop :=
  exists b, script = b :: z2b (zlen prog) :: prog /\ IsSmallInt (b2z b) = true /\
            v = AsSmallInt (b2z b) /\ 2 <= zlen prog <= 40.

Lemma extract_of_form script v prog :
  witness_form script v prog -> extractWitnessProgramInfo script = Ok (v, prog, true).
Proof.
  intros (b & -> & Hb & -> & Hp). unfold extractWitnessProgramInfo.
  rewrite !zlen_cons. ztest. destruct (witness_push_ok prog Hp) as (Hok & Henc & Hcan).
  assert (token_ok (b, []) = true) as Hok1.
  { apply IsSmallInt_cases in Hb. unfold token_ok. cbn [fst snd].
    unfold OP_PUSHDATA1, OP_PUSHDATA2, OP_PUSHDATA4. rewrite zlen_nil. ztest.
    destruct Hb as [-> | Hb]; ztest; done. }
  assert (enc_token (b, []) = [b]) as He1 by now apply small_int_token.
  change (MakeScriptTokenizer 0 ?s) with (tok_at [] s (-1) None).
  rewrite next_at by (try done; rewrite ?app_nil_l, !zlen_cons; lia).
  replace (b :: z2b (zlen prog) :: prog) with (enc_token (b, []) ++ z2b (zlen prog) :: prog)
    by now rewrite He1.
  rewrite parse_token_enc by done. cbn [obind fst snd]. rewrite !Opcode_at.
  unfold tok_op at 1. cbn [fst]. rewrite Hb. cbn [negb orb].
  rewrite next_at by (try done; rewrite He1; cbn [app]; rewrite !zlen_cons; lia).
  rewrite <- (app_nil_r prog) at 2. rewrite app_comm_cons, <- Henc, parse_token_enc by done.
  cbn [obind fst snd]. rewrite Opcode_at, data_at. unfold tok_op at 1. cbn [fst snd].
  rewrite b2z_z2b_small, Hcan by lia. cbn [negb orb].
  rewrite Done_at by (rewrite He1, Henc; cbn [app]; rewrite app_nil_r, !zlen_cons; lia). done.
Qed.

Lemma extract_form script v prog :
  extractWitnessProgramInfo script = Ok (v, prog, true) -> witness_form script v prog.
Proof.
  unfold extractWitnessProgramInfo.
  destruct ((zlen script <? 4) || (zlen script >? 42)) eqn:Hl; [discriminate |].
  change (MakeScriptTokenizer 0 script) with (tok_at [] script (-1) None).
  rewrite next_at by (try (intros ->; discriminate); cbn [app]; lia).
  destruct (parse_token script) as [[tk1 rest1]|] eqn:Hp1; [| discriminate].
  apply parse_token_inv in Hp1 as [Hok1 ->]. cbn [obind fst snd]. rewrite Opcode_at.
  destruct (IsSmallInt (tok_op tk1)) eqn:Hs; [| discriminate]. cbn [negb orb app].
  rewrite (small_int_token tk1) in * by done. cbn [app] in *. rewrite zlen_cons in Hl.
  rewrite next_at by (try (intros ->; discriminate); cbn [app]; rewrite zlen_cons; lia).
  destruct (parse_token rest1) as [[tk2 rest2]|] eqn:Hp2; [| discriminate].
  apply parse_token_inv in Hp2 as [Hok2 ->]. cbn [obind fst snd]. rewrite Opcode_at, data_at.
  destruct (isCanonicalPush (tok_op tk2) (snd tk2)) eqn:Hc; [| discriminate]. cbn [negb orb].
  rewrite Done_at by (rewrite <- app_assoc; cbn [app]; rewrite zlen_cons; lia).
  intros [= <- <- Hd%andb_true_iff]. destruct Hd as [->%bool_decide_eq_true_1 _].
  rewrite app_nil_r in Hl |- *. destruct (witness_push_token tk2) as [-> Hr]; [done | done | lia |].
  exists (fst tk1). done.
Qed.

(** * Theorems *)

(** [IsPushOnlyScript] always answers, and answers yes exactly for the
    scripts that parse completely into opcodes up to OP_16. *)
Lemma push_only_iff script :
  zlen script < 2 ^ 31 ->
  exists b, IsPushOnlyScript script = Ok b /\
    (b = true <-> exists toks, tokens_ok toks /\ script = enc_tokens toks /\
                               Forall (fun tk => tok_op tk <= OP_16) toks).
Proof.
  intros Hlen. destruct (parse_all script) as (toks & tail & -> & Hok & Hs).
  eexists. split; [now apply IsPushOnlyScript_spec |].
  rewrite andb_true_iff, bool_decide_eq_true, forallb_forall. split.
  - intros [Hall ->]. exists toks. rewrite app_nil_r. split_and!; [done | done |].
    apply List.Forall_forall. intros tk Htk%Hall. lia.
  - intros (toks' & Hok' & Heq & Hall).
    pose proof (IsPushOnlyScript_spec toks tail Hok Hs Hlen) as H1.
    rewrite Heq, <- (app_nil_r (enc_tokens toks')) in H1. rewrite Heq in Hlen.
    rewrite IsPushOnlyScript_spec in H1 by (rewrite ?app_nil_r; done || now left).
    injection H1 as H1. change (bool_decide (@nil byte = [])) with true in H1.
    rewrite andb_true_r in H1.
    replace (forallb (fun tk => tok_op tk <=? OP_16) toks') with true in H1.
    + symmetry in H1. apply andb_true_iff in H1 as [H1 H2%bool_decide_eq_true]. split; [| done].
      now apply forallb_forall.
    + symmetry. apply forallb_forall. intros tk Htk. eapply List.Forall_forall in Hall; [| exact Htk]. lia.
Qed.

Lemma push_only_iff_witness :
  exists b, IsPushOnlyScript [x51; x01; x07] = Ok b /\
    (b = true <-> exists toks, tokens_ok toks /\ [x51; x01; x07] = enc_tokens toks /\
                               Forall (fun tk => tok_op tk <= OP_16) toks).
Proof. apply push_only_iff. reflexivity. Defined.

(** On a script that parses, [removeOpcodeRaw] returns the script without
    the occurrences of the opcode and [removeOpcodeByData] the script without
    the canonical pushes of the data, reporting whether there was one; nothing
    else changes. *)
Lemma remove_opcodes toks opcode dataToRemove :
  tokens_ok toks -> zlen (enc_tokens toks) < 2 ^ 31 -> dataToRemove <> [] ->
  let pushes tk := isCanonicalPush (tok_op tk) (snd tk) && bool_decide (snd tk = dataToRemove) in
  removeOpcodeRaw (enc_tokens toks) opcode =
    Ok (enc_tokens (List.filter (fun tk => negb (tok_op tk =? opcode)) toks)) /\
  removeOpcodeByData (enc_tokens toks) dataToRemove =
    Ok (enc_tokens (List.filter (fun tk => negb (pushes tk)) toks), existsb pushes toks).
Proof.
  intros Hok Hlen Hne pushes. split; [now apply removeOpcodeRaw_spec | now apply removeOpcodeByData_spec].
Qed.

Lemma remove_opcodes_witness :
  removeOpcodeRaw [xab; x02; x01; x02; xab; x51] OP_CODESEPARATOR = Ok [x02; x01; x02; x51] /\
  removeOpcodeByData [xab; x02; x01; x02; xab; x51] [x01; x02] = Ok ([xab; xab; x51], true).
Proof.
  apply (remove_opcodes [(xab, []); (x02, [x01; x02]); (xab, []); (x51, [])]
           OP_CODESEPARATOR [x01; x02]); [repeat constructor | reflexivity | discriminate].
Defined.

(** Signature operation counting always answers with the count over the
    opcodes before the first parse failure; the precise count is at most the
    quick one, which is at most 20 per opcode. *)
Lemma sigop_counts script :
  zlen script < 2 ^ 31 ->
  exists toks tail np nq,
    script = enc_tokens toks ++ tail /\ tokens_ok toks /\ stuck tail /\
    countSigOpsV0 script true = Ok np /\ GetSigOpCount script = Ok nq /\
    np = sigops true OP_INVALIDOPCODE toks /\ nq = sigops false OP_INVALIDOPCODE toks /\
    0 <= np <= nq /\ nq <= 20 * zlen toks.
Proof.
  intros Hlen. destruct (parse_all script) as (toks & tail & -> & Hok & Hs).
  exists toks, tail. do 2 eexists. unfold GetSigOpCount.
  rewrite !countSigOpsV0_spec by done.
  split_and!; try done; (apply sigops_bounds || apply sigops_max).
Qed.

Lemma sigop_counts_witness :
  exists toks tail np nq,
    [x52; xae; xac] = enc_tokens toks ++ tail /\ tokens_ok toks /\ stuck tail /\
    countSigOpsV0 [x52; xae; xac] true = Ok np /\ GetSigOpCount [x52; xae; xac] = Ok nq /\
    np = sigops true OP_INVALIDOPCODE toks /\ nq = sigops false OP_INVALIDOPCODE toks /\
    0 <= np <= nq /\ nq <= 20 * zlen toks.
Proof. apply sigop_counts. reflexivity. Defined.

(** a script is recognised as a witness program with version [v] and program
    [prog] exactly when it is a small integer opcode of value [v] followed by
    one direct push of [prog], which has 2 to 40 bytes. *)
Lemma witness_program_iff script v prog :
  extractWitnessProgramInfo script = Ok (v, prog, true) <->
  exists b, script = b :: z2b (zlen prog) :: prog /\ IsSmallInt (b2z b) = true /\
            v = AsSmallInt (b2z b) /\ 2 <= zlen prog <= 40.
Proof. split; [apply extract_form | apply extract_of_form]. Qed.
