(* ===== verification/Crypto.v ===== *)
(** The cryptographic interface.  Hash functions (crypto/sha256,
    golang.org/x/crypto/ripemd160, crypto/sha1) and the curve operations that
    btcec takes from the secp256k1 library are not code of the repository, so
    they are parameters:
    [Crypto] lists the operations the repository calls and [CryptoLaws] the
    documented facts its correctness relies on.  The hashes of
    src/btcd/chaincfg/chainhash are defined on top of them. *)
From S2P Require Import Prelude.

Class Crypto : Type := {
  sha256 : bytes -> bytes;
  ripemd160 : bytes -> bytes;
  sha1 : bytes -> bytes;
  PublicKey : Type;
  EcdsaSignature : Type;
  SchnorrSignature : Type;
  (** btcec.ParsePubKey, ecdsa.ParseDERSignature, ecdsa.ParseSignature; an
      error is [None] *)
  ParsePubKey : bytes -> option PublicKey;
  ParseDERSignature : bytes -> option EcdsaSignature;
  ParseSignature : bytes -> option EcdsaSignature;
  ecdsa_Verify : EcdsaSignature -> bytes -> PublicKey -> bool;
  (** schnorr.ParsePubKey, schnorr.ParseSignature *)
  schnorr_ParsePubKey : bytes -> option PublicKey;
  schnorr_ParseSignature : bytes -> option SchnorrSignature;
  schnorr_Verify : SchnorrSignature -> bytes -> PublicKey -> bool;
  schnorr_SerializePubKey : PublicKey -> bytes;
  SerializeCompressed : PublicKey -> bytes;
  (** point addition of a key and a scalar multiple of the generator *)
  AddTweak : PublicKey -> bytes -> PublicKey;
  (** btcec.S256().N *)
  S256_N : Z;
}.

Class CryptoLaws `{Crypto} : Prop := {
  sha256_len : forall b, zlen (sha256 b) = 32;
  ripemd160_len : forall b, zlen (ripemd160 b) = 20;
  sha1_len : forall b, zlen (sha1 b) = 20;
  (** compressed and uncompressed or hybrid keys *)
  ParsePubKey_len : forall b k, ParsePubKey b = Some k -> zlen b = 33 \/ zlen b = 65;
  (** x-only keys *)
  schnorr_ParsePubKey_len : forall b k, schnorr_ParsePubKey b = Some k -> zlen b = 32;
  (** strict DER is a subset of what the lax parser accepts *)
  ParseDERSignature_sub : forall b s, ParseDERSignature b = Some s -> ParseSignature b = Some s;
}.

Section Hashes.
Context `{Crypto}.

(** chainhash.HashB and chainhash.HashH *)
Definition HashB (b : bytes) : bytes := sha256 b.

(** chainhash.DoubleHashB, DoubleHashH, DoubleHashRaw *)
Definition DoubleHashB (b : bytes) : bytes := sha256 (sha256 b).

(** chainhash.TaggedHash; the precomputed tags are the hashes of the tags *)
Definition TaggedHash (tag : bytes) (msgs : list bytes) : bytes :=
  let shaTag := sha256 tag in
  sha256 (shaTag ++ shaTag ++ concat msgs).

(** [calcHash(sha256(buf), ripemd160.New())] *)
Definition Hash160 (buf : bytes) : bytes := ripemd160 (sha256 buf).
End Hashes.

Definition ascii_bytes (s : string) : bytes :=
  map (fun a => z2b (Z.of_N (Ascii.N_of_ascii a))) (String.list_ascii_of_string s).

Definition TagTapSighash : bytes := ascii_bytes "TapSighash".
Definition TagTapLeaf : bytes := ascii_bytes "TapLeaf".
Definition TagTapBranch : bytes := ascii_bytes "TapBranch".
Definition TagTapTweak : bytes := ascii_bytes "TapTweak".

(** An instance for evaluating examples: hashes that keep the length of the
    input in their first byte, keys that are their own serialization, and
    signatures that verify when they repeat the digest. *)
Definition fold_hash (n : nat) (b : bytes) : bytes :=
  z2b (zlen b) :: take (n - 1) (b ++ replicate n x00).

Definition toy_crypto : Crypto := {|
  sha256 := fold_hash 32; ripemd160 := fold_hash 20; sha1 := fold_hash 20;
  PublicKey := bytes; EcdsaSignature := bytes; SchnorrSignature := bytes;
  ParsePubKey b := if (zlen b =? 33) || (zlen b =? 65) then Some b else None;
  ParseDERSignature b := if zlen b =? 32 then Some b else None;
  ParseSignature b := if zlen b =? 32 then Some b else None;
  ecdsa_Verify s h _ := bool_decide (s = h);
  schnorr_ParsePubKey b := if zlen b =? 32 then Some b else None;
  schnorr_ParseSignature b := Some b;
  schnorr_Verify s h _ := bool_decide (s = h ++ h);
  schnorr_SerializePubKey k := ztake 32 k;
  SerializeCompressed k := x02 :: ztake 32 k;
  AddTweak k t := fold_hash 32 (k ++ t);
  S256_N := 0xfffffffffffffffffffffffffffffffebaaedce6af48a03bbfd25e8cd0364141;
|}.

Lemma zlen_fold_hash n b : (0 < n)%nat -> zlen (fold_hash n b) = Z.of_nat n.
Proof.
  intros Hn. unfold fold_hash. rewrite zlen_cons. unfold zlen.
  rewrite length_take, length_app, length_replicate. lia.
Qed.

Lemma toy_laws : @CryptoLaws toy_crypto.
Proof.
  split; cbn; intros; try (apply zlen_fold_hash; lia); try (case_match; lia || done).
Qed.
