(* ===== verification/SigHash.v ===== *)
(** Signature hashes (src/btcd/txscript/sighash.go, hashcache.go): the message a
    signature commits to, for legacy, segwit v0 and taproot spends.  Every digest
    is defined as a hash of a preimage, and the theorems say what the preimage
    pins down. *)
From S2P Require Import Prelude WireCommon ScriptError Opcodes Tokenizer MsgTx Script Crypto.

Definition SigHashDefault : Z := 0x00.
Definition SigHashOld : Z := 0x0.
Definition SigHashAll : Z := 0x1.
Definition SigHashNone : Z := 0x2.
Definition SigHashSingle : Z := 0x3.
Definition SigHashAnyOneCanPay : Z := 0x80.
Definition sigHashMask : Z := 0x1f.
Definition blankCodeSepValue : Z := 2 ^ 32 - 1.

(** * The modified transaction of legacy signatures *)

Definition set_SignatureScript (ti : TxIn) (s : bytes) : TxIn :=
  {| PreviousOutPoint := PreviousOutPoint ti; SignatureScript := s;
     Witness := Witness ti; Sequence := Sequence ti |}.

Definition set_Sequence (ti : TxIn) (q : Z) : TxIn :=
  {| PreviousOutPoint := PreviousOutPoint ti; SignatureScript := SignatureScript ti;
     Witness := Witness ti; Sequence := q |}.

(** [for i := range txCopy.TxIn { if i == idx ... else ... }] *)
Definition on_inputs (idx : Z) (same other : TxIn -> TxIn) (ins : list TxIn) : list TxIn :=
  imap (fun i ti => if Z.of_nat i =? idx then same ti else other ti) ins.

Definition zero_sequences (idx : Z) (ins : list TxIn) : list TxIn :=
  on_inputs idx (fun ti => ti) (fun ti => set_Sequence ti 0) ins.

(** The transaction that is serialized, for a script without code separators
    and an index in range. *)
Definition sighash_tx (sigScript : bytes) (hashType : Z) (tx : MsgTx) (idx : Z) : MsgTx :=
  let ins := on_inputs idx (fun ti => set_SignatureScript ti sigScript)
                           (fun ti => set_SignatureScript ti []) (TxIns tx) in
  let '(ins, outs) :=
    if Z.land hashType sigHashMask =? SigHashNone then (zero_sequences idx ins, [])
    else if Z.land hashType sigHashMask =? SigHashSingle then
      (zero_sequences idx ins,
       imap (fun i to => if Z.of_nat i <? idx then mkTxOut (-1) [] else to)
            (ztake (idx + 1) (TxOuts tx)))
    else (ins, TxOuts tx) in
  let ins := if negb (Z.land hashType SigHashAnyOneCanPay =? 0)
             then ztake 1 (zdrop idx ins) else ins in
  mkMsgTx (Version tx) ins outs (LockTime tx).

Section Legacy.
Context `{Crypto}.

Definition legacy_preimage (sigScript : bytes) (hashType : Z) (tx : MsgTx) (idx : Z) : bytes :=
  SerializeNoWitness (sighash_tx sigScript hashType tx idx) ++ le_bytes 4 hashType.

(** The slice [txCopy.TxIn[idx : idx+1]] panics out of range. *)
Definition calcSignatureHash (sigScript : bytes) (hashType : Z) (tx : MsgTx) (idx : Z)
  : res bytes :=
  if (Z.land hashType sigHashMask =? SigHashSingle) && (idx >=? zlen (TxOuts tx)) then
    Ok (x01 :: replicate 31 x00)
  else
    let! sigScript := removeOpcodeRaw sigScript OP_CODESEPARATOR in
    if negb (Z.land hashType SigHashAnyOneCanPay =? 0) &&
       ((idx <? 0) || (idx >=? zlen (TxIns tx))) then Panic
    else Ok (DoubleHashB (legacy_preimage sigScript hashType tx idx)).
End Legacy.

(** * Midstates *)

Record TxSigHashes := mkTxSigHashes {
  HashPrevOutsV0 : bytes;
  HashSequenceV0 : bytes;
  HashOutputsV0 : bytes;
  HashPrevOutsV1 : bytes;
  HashSequenceV1 : bytes;
  HashOutputsV1 : bytes;
  HashInputScriptsV1 : bytes;
  HashInputAmountsV1 : bytes;
}.

Definition zeroHash : bytes := replicate 32 x00.

(** A [PrevOutputFetcher]; a nil output is [None]. *)
Definition PrevOutputFetcher : Type := OutPoint -> option TxOut.

Section Midstate.
Context `{Crypto}.

Definition calcHashPrevOuts (tx : MsgTx) : bytes :=
  HashB (concat ((fun i => Hash (PreviousOutPoint i) ++ le_bytes 4 (Index (PreviousOutPoint i)))
                 <$> TxIns tx)).

Definition calcHashSequence (tx : MsgTx) : bytes :=
  HashB (concat ((fun i => le_bytes 4 (Sequence i)) <$> TxIns tx)).

Definition calcHashOutputs (tx : MsgTx) : bytes :=
  HashB (concat (WriteTxOutBuf <$> TxOuts tx)).

(** [prevOut] is dereferenced for every input: nil panics. *)
Fixpoint fetch_all (fetch : PrevOutputFetcher) (ins : list TxIn) : res (list TxOut) :=
  match ins with
  | [] => Ok []
  | i :: ins =>
      match fetch (PreviousOutPoint i) with
      | None => Panic
      | Some o => let! l := fetch_all fetch ins in Ok (o :: l)
      end
  end.

Definition calcHashInputAmounts (tx : MsgTx) (fetch : PrevOutputFetcher) : res bytes :=
  let! outs := fetch_all fetch (TxIns tx) in
  Ok (HashB (concat ((fun o => le_bytes 8 (uint64 (Value o))) <$> outs))).

Definition calcHashInputScripts (tx : MsgTx) (fetch : PrevOutputFetcher) : res bytes :=
  let! outs := fetch_all fetch (TxIns tx) in
  Ok (HashB (concat ((fun o => WriteVarBytesBuf (PkScript o)) <$> outs))).

(** Which kinds of inputs the transaction spends; the loop stops when both
    are found. *)
Fixpoint input_kinds (fetch : PrevOutputFetcher) (ins : list TxIn) (v0 v1 : bool)
  : res (bool * bool) :=
  match ins with
  | [] => Ok (v0, v1)
  | i :: ins =>
      let op := PreviousOutPoint i in
      if (Index op =? 2 ^ 32 - 1) && bool_decide (Hash op = zeroHash)
      then input_kinds fetch ins true v1
      else
        match fetch op with
        | None => Panic
        | Some prevOut =>
            let v1' := if isWitnessTaprootScript (PkScript prevOut) then true else v1 in
            let v0' := if isWitnessTaprootScript (PkScript prevOut) then v0 else true in
            if v0' && v1' then Ok (v0', v1') else input_kinds fetch ins v0' v1'
        end
  end.

Definition NewTxSigHashes (tx : MsgTx) (fetch : PrevOutputFetcher) : res TxSigHashes :=
  let! k := input_kinds fetch (TxIns tx) false false in
  let po := calcHashPrevOuts tx in
  let sq := calcHashSequence tx in
  let os := calcHashOutputs tx in
  let! am := if snd k then calcHashInputAmounts tx fetch else Ok zeroHash in
  let! sc := if snd k then calcHashInputScripts tx fetch else Ok zeroHash in
  Ok {| HashPrevOutsV0 := if fst k then HashB po else zeroHash;
        HashSequenceV0 := if fst k then HashB sq else zeroHash;
        HashOutputsV0 := if fst k then HashB os else zeroHash;
        HashPrevOutsV1 := po; HashSequenceV1 := sq; HashOutputsV1 := os;
        HashInputScriptsV1 := sc; HashInputAmountsV1 := am |}.
End Midstate.

(** * Segwit v0 *)

Section Witness.
Context `{Crypto}.

Definition script_code (subScript : bytes) : bytes :=
  match extractWitnessPubKeyHash subScript with
  | Some h => z2b 0x19 :: z2b OP_DUP :: z2b OP_HASH160 :: z2b OP_DATA_20 ::
              h ++ [z2b OP_EQUALVERIFY; z2b OP_CHECKSIG]
  | None => WriteVarBytesBuf subScript
  end.

Definition witness_preimage (subScript : bytes) (sigHashes : TxSigHashes) (hashType : Z)
    (tx : MsgTx) (idx : Z) (amt : Z) (txIn : TxIn) : bytes :=
  let acp := negb (Z.land hashType SigHashAnyOneCanPay =? 0) in
  let base := Z.land hashType sigHashMask in
  le_bytes 4 (uint32 (Version tx)) ++
  (if negb acp then HashPrevOutsV0 sigHashes else zeroHash) ++
  (if negb acp && negb (base =? SigHashSingle) && negb (base =? SigHashNone)
   then HashSequenceV0 sigHashes else zeroHash) ++
  Hash (PreviousOutPoint txIn) ++ le_bytes 4 (Index (PreviousOutPoint txIn)) ++
  script_code subScript ++
  le_bytes 8 (uint64 amt) ++ le_bytes 4 (Sequence txIn) ++
  (if negb (base =? SigHashSingle) && negb (base =? SigHashNone) then HashOutputsV0 sigHashes
   else if (base =? SigHashSingle) && (idx <? zlen (TxOuts tx)) then
     match znth (TxOuts tx) idx with
     | Some o => DoubleHashB (WriteTxOutBuf o)
     | None => []
     end
   else zeroHash) ++
  le_bytes 4 (LockTime tx) ++ le_bytes 4 hashType.

Definition calcWitnessSignatureHashRaw (subScript : bytes) (sigHashes : TxSigHashes)
    (hashType : Z) (tx : MsgTx) (idx : Z) (amt : Z) : res bytes :=
  if idx >? zlen (TxIns tx) - 1 then Err otherError
  else let! txIn := index (TxIns tx) idx in
       Ok (DoubleHashB (witness_preimage subScript sigHashes hashType tx idx amt txIn)).
End Witness.

(** * Taproot *)

(** The options of a taproot digest: the annex, and the leaf hash and code
    separator position of a tapscript spend. *)
Record taprootSigHashOptions := mkTapOpts {
  opt_annex : option bytes;
  opt_tapscript : option (Z * bytes);
}.

Definition isValidTaprootSigHash (hashType : Z) : bool :=
  existsb (Z.eqb hashType)
    [SigHashDefault; SigHashAll; SigHashNone; SigHashSingle; 0x81; 0x82; 0x83].

Section Taproot.
Context `{Crypto}.

Definition annexHash (opts : taprootSigHashOptions) : option bytes :=
  match opt_annex opts with
  | Some annex => Some (HashB (WriteVarBytesBuf annex))
  | None => None
  end.

Definition writeDigestExtensions (opts : taprootSigHashOptions) : bytes :=
  match opt_tapscript opts with
  | None => []
  | Some (codeSepPos, tapLeafHash) => tapLeafHash ++ x00 :: le_bytes 4 codeSepPos
  end.

Definition taproot_msg (sigHashes : TxSigHashes) (hType : Z) (tx : MsgTx) (idx : Z)
    (fetch : PrevOutputFetcher) (opts : taprootSigHashOptions) (input : TxIn) : res bytes :=
  let acp := Z.land hType SigHashAnyOneCanPay =? SigHashAnyOneCanPay in
  let! ins :=
    if acp then
      match fetch (PreviousOutPoint input) with
      | None => Panic
      | Some prevOut => Ok (writeOutPointBuf (PreviousOutPoint input) ++
                            WriteTxOutBuf prevOut ++ le_bytes 4 (Sequence input))
      end
    else Ok (le_bytes 4 (uint32 idx)) in
  let! single :=
    if Z.land hType sigHashMask =? SigHashSingle then
      if idx >=? zlen (TxOuts tx) then Err otherError
      else let! o := index (TxOuts tx) idx in Ok (sha256 (WriteTxOutBuf o))
    else Ok [] in
  let spendType := (if is_some (opt_tapscript opts) then 2 else 0) +
                   (if is_some (opt_annex opts) then 1 else 0) in
  Ok (x00 :: z2b hType :: le_bytes 4 (uint32 (Version tx)) ++ le_bytes 4 (LockTime tx) ++
      (if negb acp then HashPrevOutsV1 sigHashes ++ HashInputAmountsV1 sigHashes ++
                        HashInputScriptsV1 sigHashes ++ HashSequenceV1 sigHashes else []) ++
      (if negb (Z.land hType SigHashSingle =? SigHashSingle) &&
          negb (Z.land hType SigHashSingle =? SigHashNone) then HashOutputsV1 sigHashes else []) ++
      [z2b spendType] ++ ins ++ default [] (annexHash opts) ++ single ++
      writeDigestExtensions opts).

(** A nil [sigHashes] is dereferenced for the midstates it is read for. *)
Definition calcTaprootSignatureHashRaw (sigHashes : option TxSigHashes) (hType : Z)
    (tx : MsgTx) (idx : Z) (fetch : PrevOutputFetcher) (opts : taprootSigHashOptions)
  : res bytes :=
  if negb (isValidTaprootSigHash hType) then Err otherError
  else if idx >? zlen (TxIns tx) - 1 then Err otherError
  else
    let! input := index (TxIns tx) idx in
    let needed := negb (Z.land hType SigHashAnyOneCanPay =? SigHashAnyOneCanPay) ||
                  (negb (Z.land hType SigHashSingle =? SigHashSingle) &&
                   negb (Z.land hType SigHashSingle =? SigHashNone)) in
    match sigHashes with
    | None => if needed then Panic
              else let! m := taproot_msg (mkTxSigHashes [] [] [] [] [] [] [] []) hType tx idx fetch opts input in
                   Ok (TaggedHash TagTapSighash [m])
    | Some sh => let! m := taproot_msg sh hType tx idx fetch opts input in
                 Ok (TaggedHash TagTapSighash [m])
    end.
End Taproot.

(** * What a legacy signature commits to *)

Definition strip_tx (tx : MsgTx) : MsgTx :=
  mkMsgTx (Version tx) (strip <$> TxIns tx) (TxOuts tx) (LockTime tx).

Lemma SerializeNoWitness_strip tx : SerializeNoWitness tx = SerializeNoWitness (strip_tx tx).
Proof.
  unfold SerializeNoWitness, BtcEncode, btcEncode, strip_tx. cbn [is_WitnessEncoding andb].
  cbn [Version TxIns TxOuts LockTime]. rewrite writeTxInBuf_strip.
  unfold zlen. now rewrite length_fmap.
Qed.

(** Equal preimages come from equal modified transactions and hash types. *)
Lemma legacy_preimage_inj sb s1 h1 t1 i1 s2 h2 t2 i2 :
  0 <= sb -> 0 <= h1 < 2 ^ 32 -> 0 <= h2 < 2 ^ 32 ->
  tx_ok BaseEncoding sb (strip_tx (sighash_tx s1 h1 t1 i1)) ->
  tx_ok BaseEncoding sb (strip_tx (sighash_tx s2 h2 t2 i2)) ->
  legacy_preimage s1 h1 t1 i1 = legacy_preimage s2 h2 t2 i2 ->
  strip_tx (sighash_tx s1 h1 t1 i1) = strip_tx (sighash_tx s2 h2 t2 i2) /\ h1 = h2.
Proof.
  intros Hsb Hh1 Hh2 Hok1 Hok2 Heq. unfold legacy_preimage in Heq.
  rewrite (SerializeNoWitness_strip (sighash_tx s1 h1 t1 i1)),
    (SerializeNoWitness_strip (sighash_tx s2 h2 t2 i2)) in Heq.
  apply (f_equal (btcDecode BaseEncoding sb)) in Heq.
  unfold SerializeNoWitness, BtcEncode in Heq.
  rewrite !btcDecode_roundtrip in Heq by done.
  pose proof (f_equal snd Heq) as Hh. apply (f_equal fst) in Heq. cbn [fst snd] in *.
  split; [congruence |]. apply (f_equal le_val) in Hh. rewrite !le_val_le_bytes_small in Hh by lia. done.
Qed.

Definition input_core (ti : TxIn) : OutPoint * Z := (PreviousOutPoint ti, Sequence ti).

Lemma on_inputs_core idx f g ins :
  (forall ti, input_core (f ti) = input_core ti) -> (forall ti, input_core (g ti) = input_core ti) ->
  input_core <$> (strip <$> on_inputs idx f g ins) = input_core <$> ins.
Proof.
  intros Hf Hg. unfold on_inputs. apply list_eq. intros i.
  rewrite !list_lookup_fmap, list_lookup_imap. destruct (ins !! i) as [ti|]; [| done].
  cbn [fmap option_fmap option_map]. f_equal. destruct (_ =? _); [exact (Hf ti) | exact (Hg ti)].
Qed.

Lemma on_inputs_script idx s ins i :
  (SignatureScript <$> (strip <$> on_inputs idx (fun ti => set_SignatureScript ti s)
     (fun ti => set_SignatureScript ti []) ins)) !! i =
  (fun _ => if Z.of_nat i =? idx then s else []) <$> (ins !! i).
Proof.
  unfold on_inputs. rewrite !list_lookup_fmap, list_lookup_imap.
  destruct (ins !! i) as [ti|]; [| done]. cbn [fmap option_fmap option_map]. by destruct (_ =? _).
Qed.

(** A hash type that covers all inputs and all outputs. *)
Definition covers_all (h : Z) : Prop :=
  Z.land h sigHashMask <> SigHashNone /\ Z.land h sigHashMask <> SigHashSingle /\
  Z.land h SigHashAnyOneCanPay = 0.

Lemma sighash_tx_all s h tx idx :
  covers_all h ->
  sighash_tx s h tx idx =
  mkMsgTx (Version tx)
    (on_inputs idx (fun ti => set_SignatureScript ti s) (fun ti => set_SignatureScript ti []) (TxIns tx))
    (TxOuts tx) (LockTime tx).
Proof.
  intros (H1 & H2 & H3). unfold sighash_tx. rewrite H3.
  rewrite (proj2 (Z.eqb_neq _ _) H1), (proj2 (Z.eqb_neq _ _) H2). reflexivity.
Qed.

(** ** The modified transaction can be encoded *)

Lemma tx_ok_more enc sb sb' t : tx_ok enc sb t -> sb <= sb' -> tx_ok enc sb' t.
Proof. intros (Hv & Hl & Hni & Hno & Hi & Ho & Hs & He) Hle. split_and!; try done; lia. Qed.

Lemma Forall_on_inputs (P Q : TxIn -> Prop) idx f g ins :
  (forall ti, P ti -> Q (f ti)) -> (forall ti, P ti -> Q (g ti)) -> Forall P ins -> Forall Q (on_inputs idx f g ins).
Proof.
  intros Hf Hg Hp. apply Forall_lookup. intros i ti. unfold on_inputs. rewrite list_lookup_imap.
  destruct (ins !! i) as [x |] eqn:Hx; [| discriminate]. intros [= <-]. rewrite Forall_lookup in Hp. specialize (Hp i x Hx).
  destruct (_ =? _); auto.
Qed.

Lemma zlen_on_inputs idx f g ins : zlen (on_inputs idx f g ins) = zlen ins.
Proof. unfold on_inputs, zlen. now rewrite length_imap. Qed.

Lemma zlen_take_le {A} n (l : list A) : zlen (take n l) <= zlen l.
Proof. unfold zlen. rewrite length_take. lia. Qed.

Lemma zlen_drop_le {A} n (l : list A) : zlen (drop n l) <= zlen l.
Proof. unfold zlen. rewrite length_drop. lia. Qed.

(** A transaction that an encoding can carry. *)
Definition carried (t : MsgTx) : Prop := exists enc sb, tx_ok enc sb t.

Lemma sighash_tx_ok s h t idx : carried t -> zlen s <= maxWitnessItemSize ->
  exists sb, 0 <= sb /\ tx_ok BaseEncoding sb (strip_tx (sighash_tx s h t idx)).
Proof.
  intros (enc & sb & Hv & Hl & Hni & Hno & Hi & Ho & _ & _) Hs. set (x := sighash_tx s h t idx).
  set (ins0 := on_inputs idx (fun ti => set_SignatureScript ti s) (fun ti => set_SignatureScript ti []) (TxIns t)).
  assert (Hi0 : Forall (fun ti => txin_ok (strip ti)) ins0).
  { apply (Forall_on_inputs (fun ti => txin_ok (strip ti))); [| | exact Hi]; intros ti (Hop & _ & Hw & Hq);
      (split; [exact Hop | split; [first [exact Hs | vm_compute; discriminate] | split; [done | exact Hq]]]). }
  assert (Hz : Forall (fun ti => txin_ok (strip ti)) (zero_sequences idx ins0)).
  { apply (Forall_on_inputs (fun ti => txin_ok (strip ti))); [done | | exact Hi0]. intros ti (Hop & Hsc & Hw & _).
    split; [exact Hop | split; [exact Hsc | split; [done | cbn; lia]]]. }
  assert (Hn0 : zlen ins0 = zlen (TxIns t)) by apply zlen_on_inputs.
  assert (Hx : Version x = Version t /\ LockTime x = LockTime t /\ zlen (TxIns x) <= maxTxInPerMessage /\
    zlen (TxOuts x) <= maxTxOutPerMessage /\ Forall (fun ti => txin_ok (strip ti)) (TxIns x) /\ Forall txout_ok (TxOuts x)).
  { assert (Hcut : forall b (l : list TxIn), zlen l <= maxTxInPerMessage -> Forall (fun ti => txin_ok (strip ti)) l ->
      zlen (if b : bool then ztake 1 (zdrop idx l) else l) <= maxTxInPerMessage /\
      Forall (fun ti => txin_ok (strip ti)) (if b then ztake 1 (zdrop idx l) else l)).
    { intros [|] l Hlen Hl'; [| done]. split; [| now apply Forall_take, Forall_drop].
      etransitivity; [apply zlen_take_le |]. etransitivity; [apply zlen_drop_le | exact Hlen]. }
    unfold x, sighash_tx. fold ins0. destruct (_ =? SigHashNone); [| destruct (_ =? SigHashSingle)]; cbn [Version LockTime TxIns TxOuts].
    - destruct (Hcut (negb (Z.land h SigHashAnyOneCanPay =? 0)) (zero_sequences idx ins0)) as [H1 H2]; [unfold zero_sequences; rewrite zlen_on_inputs; lia | done |].
      split_and!; try done. 
    - destruct (Hcut (negb (Z.land h SigHashAnyOneCanPay =? 0)) (zero_sequences idx ins0)) as [H1 H2]; [unfold zero_sequences; rewrite zlen_on_inputs; lia | done |].
      split_and!; try done.
      + unfold zlen. rewrite length_imap. etransitivity; [apply (zlen_take_le (Z.to_nat (idx + 1)) (TxOuts t)) | exact Hno].
      + apply Forall_lookup. intros i o. rewrite list_lookup_imap. destruct (_ !! i) as [o' |] eqn:Ho'; [| discriminate]. intros [= <-].
        pose proof (Forall_take _ (Z.to_nat (idx + 1)) _ Ho) as Ht. rewrite Forall_lookup in Ht. specialize (Ht i o' Ho').
        destruct (_ <? _); [| exact Ht]. split; [cbn; lia | discriminate].
    - destruct (Hcut (negb (Z.land h SigHashAnyOneCanPay =? 0)) ins0) as [H1 H2]; [lia | done |]. split_and!; done. }
  destruct Hx as (Hvx & Hlx & Hnx & Hox & Hix & Hoox). exists (zlen (script_bytes (strip_tx x))). split; [apply zlen_nonneg |].
  unfold tx_ok, strip_tx. cbn [Version LockTime TxIns TxOuts]. rewrite Hvx, Hlx. split_and!; try done; try lia.
  - unfold zlen. now rewrite length_fmap.
  - apply Forall_fmap. exact Hix.
  - apply Forall_fmap, Forall_forall. done.
Qed.

(** * Theorems *)

(** The SIGHASH_SINGLE quirk: for an input without a matching output the
    digest is the constant 1, whatever the script and the transaction; in every
    other case with an index in range it is the double hash of the preimage of
    the script without its code separators. *)
Lemma legacy_sighash_cases `{Crypto} toks hashType tx idx :
  tokens_ok toks -> zlen (enc_tokens toks) < 2 ^ 31 -> 0 <= idx < zlen (TxIns tx) ->
  calcSignatureHash (enc_tokens toks) hashType tx idx =
  Ok (if (Z.land hashType sigHashMask =? SigHashSingle) && (zlen (TxOuts tx) <=? idx)
      then x01 :: replicate 31 x00
      else DoubleHashB (legacy_preimage
             (enc_tokens (List.filter (fun tk => negb (tok_op tk =? OP_CODESEPARATOR)) toks))
             hashType tx idx)).
Proof.
  intros Hok Hlen Hi. unfold calcSignatureHash. rewrite Z.geb_leb.
  destruct (_ && _); [done |]. rewrite removeOpcodeRaw_spec by done. cbn [obind].
  ztest. now rewrite andb_false_r.
Qed.

(** The script that is signed: without its code separators. *)
Definition signed_code (toks : list token) : bytes := enc_tokens (kept (fun tk => tok_op tk =? OP_CODESEPARATOR) toks).

Lemma signed_code_len toks : zlen (signed_code toks) <= zlen (enc_tokens toks).
Proof.
  unfold signed_code, kept. induction toks as [| tk toks IH]; [done |]. cbn [List.filter].
  pose proof (zlen_nonneg (enc_token tk)). destruct (negb _); rewrite ?enc_tokens_cons, ?zlen_app; lia.
Qed.

(** What two signatures are made for: the same hash type, version, lock time,
    outputs, outpoints and sequence numbers, the same script but for the code
    separators, and the same input, if the script says anything. *)
Record same_signed (toks1 : list token) (h1 : Z) (t1 : MsgTx) (i1 : Z) (toks2 : list token) (h2 : Z) (t2 : MsgTx) (i2 : Z) : Prop := {
  ss_type : h1 = h2;
  ss_version : Version t1 = Version t2;
  ss_lock : LockTime t1 = LockTime t2;
  ss_outs : TxOuts t1 = TxOuts t2;
  ss_ins : input_core <$> TxIns t1 = input_core <$> TxIns t2;
  ss_code : signed_code toks1 = signed_code toks2;
  ss_index : signed_code toks1 <> [] -> i1 = i2;
}.

(** What can be asked to be signed: a script of whole opcodes, a hash type of four
    bytes, and an input of a transaction that can be encoded. *)
Record signable (toks : list token) (h : Z) (t : MsgTx) (i : Z) : Prop := {
  sg_toks : tokens_ok toks;
  sg_len : zlen (enc_tokens toks) <= maxWitnessItemSize;
  sg_type : 0 <= h < 2 ^ 32;
  sg_tx : carried t;
  sg_input : 0 <= i < zlen (TxIns t);
}.

Lemma strip_ins_eq (ins1 ins2 : list TxIn) :
  strip <$> ins1 = strip <$> ins2 <->
  input_core <$> ins1 = input_core <$> ins2 /\ SignatureScript <$> ins1 = SignatureScript <$> ins2.
Proof.
  revert ins2. induction ins1 as [| [op sc w q] l IH]; intros [| [op' sc' w' q'] l']; rewrite ?fmap_cons; try (split; [discriminate | now intros []]).
  - done.
  - specialize (IH l'). unfold strip, set_Witness, input_core in *. cbn [PreviousOutPoint SignatureScript Sequence] in *. split.
    + intros [= -> -> -> Hl]. apply IH in Hl as [-> ->]. done.
    + intros [[= -> -> H1] [= -> H2]]. f_equal. now apply IH.
Qed.

(** The inputs that are serialized, for two signatures. *)
Lemma signed_ins_eq s1 i1 ins1 s2 i2 ins2 : 0 <= i1 < zlen ins1 -> 0 <= i2 < zlen ins2 ->
  strip <$> on_inputs i1 (fun ti => set_SignatureScript ti s1) (fun ti => set_SignatureScript ti []) ins1 =
  strip <$> on_inputs i2 (fun ti => set_SignatureScript ti s2) (fun ti => set_SignatureScript ti []) ins2 <->
  input_core <$> ins1 = input_core <$> ins2 /\ s1 = s2 /\ (s1 <> [] -> i1 = i2).
Proof.
  intros Hi1 Hi2.
  pose proof (on_inputs_core i1 (fun ti => set_SignatureScript ti s1) (fun ti => set_SignatureScript ti []) ins1
    (fun _ => eq_refl) (fun _ => eq_refl)) as Hc1.
  pose proof (on_inputs_core i2 (fun ti => set_SignatureScript ti s2) (fun ti => set_SignatureScript ti []) ins2
    (fun _ => eq_refl) (fun _ => eq_refl)) as Hc2.
  pose proof (on_inputs_script i1 s1 ins1) as Hs1. pose proof (on_inputs_script i2 s2 ins2) as Hs2. split.
  - intros Heq. rewrite Heq in Hc1, Hs1. split; [congruence |].
    assert (Hat : forall i, (fun _ : TxIn => if Z.of_nat i =? i1 then s1 else []) <$> ins1 !! i =
      (fun _ : TxIn => if Z.of_nat i =? i2 then s2 else []) <$> ins2 !! i) by (intros i; now rewrite <- Hs1, <- Hs2).
    assert (Hlen : length ins1 = length ins2).
    { rewrite <- (length_fmap input_core ins1), <- (length_fmap input_core ins2). congruence. }
    destruct (lookup_lt_is_Some_2 ins1 (Z.to_nat i1)) as [a Ha]; [unfold zlen in *; lia |].
    destruct (lookup_lt_is_Some_2 ins2 (Z.to_nat i1)) as [a' Ha']; [unfold zlen in *; lia |].
    destruct (lookup_lt_is_Some_2 ins1 (Z.to_nat i2)) as [b Hb]; [unfold zlen in *; lia |].
    destruct (lookup_lt_is_Some_2 ins2 (Z.to_nat i2)) as [b' Hb']; [unfold zlen in *; lia |].
    pose proof (Hat (Z.to_nat i1)) as H1. pose proof (Hat (Z.to_nat i2)) as H2. rewrite Ha, Ha' in H1. rewrite Hb, Hb' in H2.
    cbn in H1, H2. injection H1 as H1. injection H2 as H2. rewrite !Z2Nat.id, Z.eqb_refl in H1, H2 by lia.
    destruct (Z.eqb_spec i1 i2) as [Heqi | Hne]; [split; [exact H1 | done] |].
    destruct (Z.eqb_spec i2 i1); [congruence |]. subst s1. split; [exact H2 | done].
  - intros (Hcore & -> & Hidx). apply strip_ins_eq. split.
    + rewrite <- (list_fmap_compose strip input_core) in Hc1, Hc2. etransitivity; [exact Hc1 |]. now rewrite Hcore.
    + apply list_eq. intros i. rewrite <- (list_fmap_compose strip SignatureScript) in Hs1.
      specialize (Hs1 i). specialize (Hs2 i). rewrite <- (list_fmap_compose strip SignatureScript) in Hs2.
      etransitivity; [exact Hs1 |]. etransitivity; [| symmetry; exact Hs2].
      assert (Hlen : length ins1 = length ins2).
      { rewrite <- (length_fmap input_core ins1), <- (length_fmap input_core ins2). congruence. }
      destruct (ins1 !! i) as [a |] eqn:Ha, (ins2 !! i) as [a' |] eqn:Ha'; [| apply lookup_lt_Some in Ha; apply lookup_ge_None in Ha'; lia
        | apply lookup_lt_Some in Ha'; apply lookup_ge_None in Ha; lia | done].
      cbn. f_equal. destruct s2 as [| x s2]; [now destruct (_ =? i1), (_ =? i2) |]. now rewrite Hidx.
Qed.

(** Equal preimages are made for the same, when the first covers everything. *)
Lemma legacy_preimage_signed toks1 h1 t1 i1 toks2 h2 t2 i2 :
  signable toks1 h1 t1 i1 -> signable toks2 h2 t2 i2 -> covers_all h1 ->
  legacy_preimage (signed_code toks1) h1 t1 i1 = legacy_preimage (signed_code toks2) h2 t2 i2 <->
  same_signed toks1 h1 t1 i1 toks2 h2 t2 i2.
Proof.
  intros [_ Hl1 Hh1 Ht1 Hi1] [_ Hl2 Hh2 Ht2 Hi2] Hall.
  pose proof (signed_code_len toks1). pose proof (signed_code_len toks2). split.
  - intros Heq. destruct (sighash_tx_ok (signed_code toks1) h1 t1 i1 Ht1 ltac:(lia)) as (sb1 & Hsb1 & Hok1).
    destruct (sighash_tx_ok (signed_code toks2) h2 t2 i2 Ht2 ltac:(lia)) as (sb2 & Hsb2 & Hok2).
    destruct (legacy_preimage_inj (Z.max sb1 sb2) (signed_code toks1) h1 t1 i1 (signed_code toks2) h2 t2 i2) as [Htx <-]; try done; [lia | | |].
    1, 2: eapply tx_ok_more; [eassumption | lia].
    rewrite !sighash_tx_all in Htx by done. unfold strip_tx in Htx. cbn [Version TxIns TxOuts LockTime] in Htx.
    injection Htx as Hv Hins Ho Hlk. apply signed_ins_eq in Hins as (Hc & Hs & Hidx); [| done | done]. now constructor.
  - intros [<- Hv Hlk Ho Hins Hc Hidx]. unfold legacy_preimage.
    rewrite (SerializeNoWitness_strip (sighash_tx (signed_code toks1) h1 t1 i1)),
      (SerializeNoWitness_strip (sighash_tx (signed_code toks2) h1 t2 i2)), !sighash_tx_all by done.
    unfold strip_tx. cbn [Version TxIns TxOuts LockTime]. rewrite Hv, Hlk, Ho. do 3 f_equal.
    now apply signed_ins_eq.
Qed.

(** The digest for an input of SIGHASH_SINGLE without an output. *)
Definition single_digest : bytes := x01 :: replicate 31 x00.

(** C38: a legacy digest of a hash type that covers all inputs and outputs commits to
    what is signed.  [calcSignatureHash] computes a digest for whatever can be
    signed, and two digests, the first of such a hash type, are equal exactly if the
    hash type, the version, the lock time, the outputs, the outpoints and the
    sequence numbers, the script without its code separators and (unless that script is
    empty) the index of the input are the same; this is provided that the two
    preimages do not collide and that the first does not hash to the constant of the
    SIGHASH_SINGLE case without an output.  The signature scripts and the witnesses
    of the transactions are not covered, and may differ. *)
Theorem legacy_sighash_binding `{Crypto} toks1 h1 t1 i1 toks2 h2 t2 i2 :
  signable toks1 h1 t1 i1 -> signable toks2 h2 t2 i2 -> covers_all h1 ->
  (let m1 := legacy_preimage (signed_code toks1) h1 t1 i1 in
   let m2 := legacy_preimage (signed_code toks2) h2 t2 i2 in
   (DoubleHashB m1 = DoubleHashB m2 -> m1 = m2) /\ DoubleHashB m1 <> single_digest) ->
  exists d1 d2, calcSignatureHash (enc_tokens toks1) h1 t1 i1 = Ok d1 /\
    calcSignatureHash (enc_tokens toks2) h2 t2 i2 = Ok d2 /\
    (d1 = d2 <-> same_signed toks1 h1 t1 i1 toks2 h2 t2 i2).
Proof.
  intros Hs1 Hs2 Hall [Hcol Hconst]. pose proof (legacy_preimage_signed _ _ _ _ _ _ _ _ Hs1 Hs2 Hall) as Hpre.
  assert (Hmax : maxWitnessItemSize < 2 ^ 31) by reflexivity.
  pose proof Hs1 as [Hok1 Hl1 _ _ Hi1]. pose proof Hs2 as [Hok2 Hl2 _ _ Hi2].
  rewrite !legacy_sighash_cases by (done || lia). do 2 eexists. split_and!; [reflexivity | reflexivity |].
  destruct Hall as (_ & Hsingle & _). rewrite (proj2 (Z.eqb_neq _ _) Hsingle). cbn [andb].
  fold (kept (fun tk => tok_op tk =? OP_CODESEPARATOR) toks1) (kept (fun tk => tok_op tk =? OP_CODESEPARATOR) toks2).
  fold (signed_code toks1) (signed_code toks2) single_digest. destruct (_ && _) eqn:Hq.
  - split; [done |]. intros Hsame. exfalso. apply Hsingle. apply andb_prop in Hq as [Hq _]. apply Z.eqb_eq in Hq.
    now rewrite (ss_type _ _ _ _ _ _ _ _ Hsame).
  - rewrite <- Hpre. split; [exact Hcol | now intros ->].
Qed.

Definition sighash_example_tx (version : Z) (sigScript : bytes) (witness : list bytes) : MsgTx :=
  mkMsgTx version [mkTxIn (mkOutPoint (replicate 32 x01) 0) sigScript witness 7] [mkTxOut 5000 [x51]] 0.

Lemma example_signable version sigScript witness : - 2 ^ 31 <= version < 2 ^ 31 -> zlen sigScript <= 100 -> witness_ok witness ->
  signable [(xab, []); (x51, [])] SigHashAll (sighash_example_tx version sigScript witness) 0.
Proof.
  intros Hv Hs Hw. constructor; [repeat constructor | discriminate | done | | done].
  exists WitnessEncoding, (zlen (script_bytes (sighash_example_tx version sigScript witness))).
  unfold tx_ok. cbn [Version LockTime TxIns TxOuts sighash_example_tx]. split; [exact Hv |]. split; [done |].
  split; [discriminate |]. split; [discriminate |]. split; [| split; [| split; [lia | split; [done |]]]]; repeat constructor; try done.
  cbn. unfold maxWitnessItemSize. lia. all: apply Hw.
Qed.

(** Other scripts and witnesses, the same digest; another version, another digest. *)
Lemma legacy_sighash_binding_witness :
  let H := toy_crypto in
  let digest t := calcSignatureHash [xab; x51] SigHashAll t 0 in
  digest (sighash_example_tx 1 [x51] []) = digest (sighash_example_tx 1 [] [[x07]]) /\
  digest (sighash_example_tx 1 [x51] []) <> digest (sighash_example_tx 2 [x51] []).
Proof.
  intros H digest.
  assert (Hs : forall v sc w, - 2 ^ 31 <= v < 2 ^ 31 -> zlen sc <= 100 -> witness_ok w -> signable [(xab, []); (x51, [])] SigHashAll (sighash_example_tx v sc w) 0)
    by exact example_signable.
  assert (Hall : covers_all SigHashAll) by (split_and!; discriminate || reflexivity).
  destruct (legacy_sighash_binding [(xab, []); (x51, [])] SigHashAll (sighash_example_tx 1 [x51] []) 0
    [(xab, []); (x51, [])] SigHashAll (sighash_example_tx 1 [] [[x07]]) 0) as (d1 & d2 & H1 & H2 & Heq).
  1, 2: apply Hs; [lia | discriminate | repeat constructor; discriminate].
  1: exact Hall.
  1: split; [intros _; vm_compute; reflexivity | vm_compute; discriminate].
  destruct (legacy_sighash_binding [(xab, []); (x51, [])] SigHashAll (sighash_example_tx 1 [x51] []) 0
    [(xab, []); (x51, [])] SigHashAll (sighash_example_tx 2 [x51] []) 0) as (d3 & d4 & H3 & H4 & Hne).
  1, 2: apply Hs; [lia | discriminate | repeat constructor; discriminate].
  1: exact Hall.
  1: split; [intros Hd; exfalso; revert Hd; vm_compute; discriminate | vm_compute; discriminate].
  unfold digest. change [xab; x51] with (enc_tokens [(xab, []); (x51, [])]). rewrite H1, H2, H4. split.
  - f_equal. apply Heq. now constructor.
  - intros [= Hd]. rewrite H3 in H1. injection H1 as <-. apply Hne in Hd. discriminate (ss_version _ _ _ _ _ _ _ _ Hd).
Defined.

Lemma legacy_sighash_cases_witness :
  @calcSignatureHash toy_crypto (enc_tokens [(xab, []); (x51, [])]) SigHashSingle
    (mkMsgTx 1 [mkTxIn (mkOutPoint zeroHash 0) [] [] 0] [] 0) 0 = Ok (x01 :: replicate 31 x00).
Proof.
  exact (@legacy_sighash_cases toy_crypto [(xab, []); (x51, [])] SigHashSingle
    (mkMsgTx 1 [mkTxIn (mkOutPoint zeroHash 0) [] [] 0] [] 0) 0
    ltac:(repeat constructor) eq_refl ltac:(split; [discriminate | reflexivity])).
Defined.
