(* ===== verification/SigCache.v ===== *)
(** The signature cache (src/btcd/txscript/sigcache.go): a bounded map from a
    signature hash to the signature and key that were found valid for it.  The
    lock of the source makes each method atomic, so a method is a function of
    the map.  The entry evicted from a full cache is the first one of a Go map
    iteration, whose order is unspecified: it is the parameter [first_key]. *)
From S2P Require Import Prelude.

Record sigCacheEntry := mkEntry {
  e_sig : bytes;
  e_pubKey : bytes;
}.

#[global] Instance sigCacheEntry_eq_dec : EqDecision sigCacheEntry.
Proof. solve_decision. Defined.

Record SigCache := mkSigCache {
  validSigs : gmap bytes sigCacheEntry;
  maxEntries : Z;
}.

Definition NewSigCache (maxEntries : Z) : SigCache := mkSigCache ∅ maxEntries.

Definition Exists (s : SigCache) (sigHash sig pubKey : bytes) : bool :=
  match validSigs s !! sigHash with
  | Some entry => bool_decide (e_pubKey entry = pubKey) && bool_decide (e_sig entry = sig)
  | None => false
  end.

(** [for k := range m { ...; break }]: a key of the map, none when it is empty. *)
Class MapOrder : Type := first_key : gmap bytes sigCacheEntry -> option bytes.

Class MapOrderLaws `{MapOrder} : Prop := {
  first_key_in : forall m k, first_key m = Some k -> is_Some (m !! k);
  first_key_some : forall m, m <> ∅ -> is_Some (first_key m);
}.

Definition Add `{MapOrder} (s : SigCache) (sigHash sig pubKey : bytes) : SigCache :=
  if maxEntries s <=? 0 then s else
  let m :=
    if Z.of_nat (size (validSigs s)) + 1 >? maxEntries s then
      match first_key (validSigs s) with
      | Some k => delete k (validSigs s)
      | None => validSigs s
      end
    else validSigs s in
  mkSigCache (<[sigHash := mkEntry sig pubKey]> m) (maxEntries s).

(** The order of [map_to_list], for examples. *)
Definition list_order : MapOrder := fun m => fst <$> head (map_to_list m).

Lemma list_order_laws : @MapOrderLaws list_order.
Proof.
  split; unfold first_key, list_order.
  - intros m k Hk. destruct (map_to_list m) as [|[k' v] l] eqn:Hm; [done |].
    injection Hk as <-. exists v. apply elem_of_map_to_list. rewrite Hm. left.
  - intros m Hm. destruct (map_to_list m) as [|p l] eqn:Hl; [| by eexists].
    now apply map_to_list_empty_iff in Hl.
Qed.

(** * Properties *)

(** The cache respects its bound. *)
Definition bounded (s : SigCache) : Prop := Z.of_nat (size (validSigs s)) <= Z.max 0 (maxEntries s).

(** Every entry is one of the accepted triples. *)
Definition all_valid (P : bytes -> bytes -> bytes -> Prop) (s : SigCache) : Prop :=
  forall h e, validSigs s !! h = Some e -> P h (e_sig e) (e_pubKey e).

Section Laws.
Context `{MapOrderLaws}.

Lemma Add_bounded s h sig pk : bounded s -> bounded (Add s h sig pk).
Proof.
  unfold bounded, Add. intros Hb. destruct (Z.leb_spec (maxEntries s) 0); [done |].
  cbn [validSigs maxEntries].
  destruct (Z.of_nat (size (validSigs s)) + 1 >? maxEntries s) eqn:Hfull.
  - destruct (decide (validSigs s = ∅)) as [He|Hne].
    + rewrite He in *. destruct (first_key ∅) as [k|] eqn:Hk.
      * apply first_key_in in Hk as [? Hk]. by rewrite lookup_empty in Hk.
      * rewrite map_size_insert, lookup_empty, map_size_empty. lia.
    + destruct (first_key_some _ Hne) as [k Hk]. rewrite Hk.
      apply first_key_in in Hk. rewrite map_size_insert, (map_size_delete_Some _ _ Hk).
      destruct (_ !! h); unfold id; lia.
  - rewrite map_size_insert. destruct (_ !! h); unfold id; lia.
Qed.

Lemma Add_hit s h sig pk : 0 < maxEntries s -> Exists (Add s h sig pk) h sig pk = true.
Proof.
  intros Hm. unfold Add, Exists. ztest. cbn [validSigs]. rewrite lookup_insert_eq.
  cbn [e_pubKey e_sig]. by rewrite !bool_decide_eq_true_2.
Qed.

Lemma Add_lookup s h sig pk h' e :
  validSigs (Add s h sig pk) !! h' = Some e ->
  (h' = h /\ e = mkEntry sig pk) \/ validSigs s !! h' = Some e.
Proof.
  unfold Add. destruct (maxEntries s <=? 0); [by right |]. cbn [validSigs].
  destruct (decide (h' = h)) as [->|Hne].
  - rewrite lookup_insert_eq. intros [= <-]. by left.
  - rewrite lookup_insert_ne by done. intros He. right.
    destruct (_ >? _); [| done]. destruct (first_key _); [| done].
    apply lookup_delete_Some in He as [_ He]. done.
Qed.

Lemma Add_valid P s h sig pk : all_valid P s -> P h sig pk -> all_valid P (Add s h sig pk).
Proof.
  intros Hs HP h' e [[-> ->]|He]%Add_lookup; [exact HP | now apply Hs].
Qed.

Lemma Exists_valid P s h sig pk : all_valid P s -> Exists s h sig pk = true -> P h sig pk.
Proof.
  unfold Exists. intros Hs. destruct (validSigs s !! h) as [e|] eqn:He; [| done].
  rewrite andb_true_iff, !bool_decide_eq_true. intros [<- <-]. now apply Hs.
Qed.

(** The states a cache goes through. *)
Inductive cache_reach (max : Z) : SigCache -> Prop :=
| reach_new : cache_reach max (NewSigCache max)
| reach_add s h sig pk : cache_reach max s -> cache_reach max (Add s h sig pk).

Lemma cache_reach_max max s : cache_reach max s -> maxEntries s = max.
Proof. induction 1; [done |]. unfold Add. by destruct (_ <=? _). Qed.
End Laws.

(** * Theorems *)

(** A cache built by any sequence of additions never holds more entries
    than its limit; unless the limit is zero, the triple just added is found;
    and what is found was added before: no other triple is ever reported. *)
Lemma sigcache_correct `{MapOrderLaws} max s h sig pk :
  cache_reach max s ->
  Z.of_nat (size (validSigs s)) <= Z.max 0 max /\
  (0 < max -> Exists (Add s h sig pk) h sig pk = true) /\
  (forall h' sig' pk', Exists (Add s h sig pk) h' sig' pk' = true ->
     (h', sig', pk') = (h, sig, pk) \/ Exists s h' sig' pk' = true).
Proof.
  intros Hr. pose proof (cache_reach_max _ _ Hr) as Hmax. split_and!.
  - rewrite <- Hmax. clear Hmax. induction Hr; [cbn [NewSigCache validSigs]; rewrite map_size_empty; lia | now apply Add_bounded].
  - rewrite <- Hmax. apply Add_hit.
  - intros h' sig' pk'. unfold Exists at 1. intros Hx.
    destruct (validSigs (Add s h sig pk) !! h') as [e|] eqn:He; [| done].
    apply andb_true_iff in Hx as [H1%bool_decide_eq_true H2%bool_decide_eq_true].
    apply Add_lookup in He as [[-> ->]|He]; cbn [e_pubKey e_sig] in *; subst; [by left | right].
    unfold Exists. rewrite He. by rewrite !bool_decide_eq_true_2.
Qed.

Lemma sigcache_correct_witness :
  let s := @Add list_order (NewSigCache 1) [x01] [x02] [x03] in
  Z.of_nat (size (validSigs s)) <= Z.max 0 1 /\
  Exists (@Add list_order s [x04] [x05] [x06]) [x04] [x05] [x06] = true.
Proof.
  pose proof (@sigcache_correct list_order list_order_laws 1
    (@Add list_order (NewSigCache 1) [x01] [x02] [x03]) [x04] [x05] [x06]
    (reach_add _ _ _ _ _ (reach_new _))) as (H1 & H2 & _).
  split; [exact H1 | apply H2; reflexivity].
Defined.
