(* ===== verification/EngineState.v ===== *)
(** The script engine's state and the checks it makes on signatures and keys
    (src/btcd/txscript/engine.go).  The fields [NewEngine] sets and nothing
    changes afterwards are the [Config]; the others are the [Engine] record,
    which every handler transforms. *)
From S2P Require Import Prelude WireCommon ScriptError ScriptNum Stack Opcodes Tokenizer MsgTx Script Crypto SigHash SigCache.

(** * Flags *)

Definition ScriptBip16 : Z := Z.shiftl 1 0.
Definition ScriptStrictMultiSig : Z := Z.shiftl 1 1.
Definition ScriptDiscourageUpgradableNops : Z := Z.shiftl 1 2.
Definition ScriptVerifyCheckLockTimeVerify : Z := Z.shiftl 1 3.
Definition ScriptVerifyCheckSequenceVerify : Z := Z.shiftl 1 4.
Definition ScriptVerifyCleanStack : Z := Z.shiftl 1 5.
Definition ScriptVerifyDERSignatures : Z := Z.shiftl 1 6.
Definition ScriptVerifyLowS : Z := Z.shiftl 1 7.
Definition ScriptVerifyMinimalData : Z := Z.shiftl 1 8.
Definition ScriptVerifyNullFail : Z := Z.shiftl 1 9.
Definition ScriptVerifySigPushOnly : Z := Z.shiftl 1 10.
Definition ScriptVerifyStrictEncoding : Z := Z.shiftl 1 11.
Definition ScriptVerifyWitness : Z := Z.shiftl 1 12.
Definition ScriptVerifyDiscourageUpgradeableWitnessProgram : Z := Z.shiftl 1 13.
Definition ScriptVerifyMinimalIf : Z := Z.shiftl 1 14.
Definition ScriptVerifyWitnessPubKeyType : Z := Z.shiftl 1 15.
Definition ScriptVerifyTaproot : Z := Z.shiftl 1 16.
Definition ScriptVerifyDiscourageUpgradeableTaprootVersion : Z := Z.shiftl 1 17.
Definition ScriptVerifyDiscourageOpSuccess : Z := Z.shiftl 1 18.
Definition ScriptVerifyDiscourageUpgradeablePubkeyType : Z := Z.shiftl 1 19.
Definition ScriptVerifyConstScriptCode : Z := Z.shiftl 1 20.

(** * State *)

Record taprootExecutionCtx := mkTapCtx {
  annex : option bytes;
  codeSepPos : Z;
  tapLeafHash : bytes;
  sigOpsBudget : Z;
  mustSucceed : bool;
}.

Definition sigOpsDelta : Z := 50.

Definition newTaprootExecutionCtx (inputWitnessSize : Z) : taprootExecutionCtx :=
  {| annex := None; codeSepPos := blankCodeSepValue; tapLeafHash := zeroHash;
     sigOpsBudget := int32 (sigOpsDelta + inputWitnessSize); mustSucceed := false |}.

(** The updated budget is kept when it is exhausted. *)
Definition tallysigOp : SM taprootExecutionCtx unit := fun t =>
  let t' := {| annex := annex t; codeSepPos := codeSepPos t; tapLeafHash := tapLeafHash t;
               sigOpsBudget := int32 (sigOpsBudget t - sigOpsDelta);
               mustSucceed := mustSucceed t |} in
  if sigOpsBudget t' <? 0 then (Err (scriptError ErrTaprootMaxSigOps), t') else (Ok tt, t').

Record Config := mkConfig {
  flags : Z;
  tx : MsgTx;
  txIdx : Z;
  version : Z;
  bip16 : bool;
  inputAmount : Z;
  hashCache : option TxSigHashes;
  prevOutFetcher : PrevOutputFetcher;
}.

Record Engine := mkEngine {
  scripts : list bytes;
  scriptIdx : Z;
  opcodeIdx : Z;
  lastCodeSep : Z;
  tokenizer : ScriptTokenizer;
  savedFirstStack : list bytes;
  dstack : stack;
  astack : stack;
  condStack : list OpCond;
  numOps : Z;
  witnessVersion : Z;
  witnessProgram : option bytes;
  taprootCtx : option taprootExecutionCtx;
  sigCache : option SigCache;
}.

Definition set_scripts (x : list bytes) (vm : Engine) : Engine :=
  mkEngine x (scriptIdx vm) (opcodeIdx vm) (lastCodeSep vm) (tokenizer vm) (savedFirstStack vm)
    (dstack vm) (astack vm) (condStack vm) (numOps vm) (witnessVersion vm) (witnessProgram vm)
    (taprootCtx vm) (sigCache vm).

Definition set_scriptIdx (x : Z) (vm : Engine) : Engine :=
  mkEngine (scripts vm) x (opcodeIdx vm) (lastCodeSep vm) (tokenizer vm) (savedFirstStack vm)
    (dstack vm) (astack vm) (condStack vm) (numOps vm) (witnessVersion vm) (witnessProgram vm)
    (taprootCtx vm) (sigCache vm).

Definition set_opcodeIdx (x : Z) (vm : Engine) : Engine :=
  mkEngine (scripts vm) (scriptIdx vm) x (lastCodeSep vm) (tokenizer vm) (savedFirstStack vm)
    (dstack vm) (astack vm) (condStack vm) (numOps vm) (witnessVersion vm) (witnessProgram vm)
    (taprootCtx vm) (sigCache vm).

Definition set_lastCodeSep (x : Z) (vm : Engine) : Engine :=
  mkEngine (scripts vm) (scriptIdx vm) (opcodeIdx vm) x (tokenizer vm) (savedFirstStack vm)
    (dstack vm) (astack vm) (condStack vm) (numOps vm) (witnessVersion vm) (witnessProgram vm)
    (taprootCtx vm) (sigCache vm).

Definition set_tokenizer (x : ScriptTokenizer) (vm : Engine) : Engine :=
  mkEngine (scripts vm) (scriptIdx vm) (opcodeIdx vm) (lastCodeSep vm) x (savedFirstStack vm)
    (dstack vm) (astack vm) (condStack vm) (numOps vm) (witnessVersion vm) (witnessProgram vm)
    (taprootCtx vm) (sigCache vm).

Definition set_savedFirstStack (x : list bytes) (vm : Engine) : Engine :=
  mkEngine (scripts vm) (scriptIdx vm) (opcodeIdx vm) (lastCodeSep vm) (tokenizer vm) x
    (dstack vm) (astack vm) (condStack vm) (numOps vm) (witnessVersion vm) (witnessProgram vm)
    (taprootCtx vm) (sigCache vm).

Definition set_dstack (x : stack) (vm : Engine) : Engine :=
  mkEngine (scripts vm) (scriptIdx vm) (opcodeIdx vm) (lastCodeSep vm) (tokenizer vm)
    (savedFirstStack vm) x (astack vm) (condStack vm) (numOps vm) (witnessVersion vm)
    (witnessProgram vm) (taprootCtx vm) (sigCache vm).

Definition set_astack (x : stack) (vm : Engine) : Engine :=
  mkEngine (scripts vm) (scriptIdx vm) (opcodeIdx vm) (lastCodeSep vm) (tokenizer vm)
    (savedFirstStack vm) (dstack vm) x (condStack vm) (numOps vm) (witnessVersion vm)
    (witnessProgram vm) (taprootCtx vm) (sigCache vm).

Definition set_condStack (x : list OpCond) (vm : Engine) : Engine :=
  mkEngine (scripts vm) (scriptIdx vm) (opcodeIdx vm) (lastCodeSep vm) (tokenizer vm)
    (savedFirstStack vm) (dstack vm) (astack vm) x (numOps vm) (witnessVersion vm)
    (witnessProgram vm) (taprootCtx vm) (sigCache vm).

Definition set_numOps (x : Z) (vm : Engine) : Engine :=
  mkEngine (scripts vm) (scriptIdx vm) (opcodeIdx vm) (lastCodeSep vm) (tokenizer vm)
    (savedFirstStack vm) (dstack vm) (astack vm) (condStack vm) x (witnessVersion vm)
    (witnessProgram vm) (taprootCtx vm) (sigCache vm).

Definition set_witnessProgram (x : option bytes) (vm : Engine) : Engine :=
  mkEngine (scripts vm) (scriptIdx vm) (opcodeIdx vm) (lastCodeSep vm) (tokenizer vm)
    (savedFirstStack vm) (dstack vm) (astack vm) (condStack vm) (numOps vm) (witnessVersion vm)
    x (taprootCtx vm) (sigCache vm).

Definition set_taprootCtx (x : option taprootExecutionCtx) (vm : Engine) : Engine :=
  mkEngine (scripts vm) (scriptIdx vm) (opcodeIdx vm) (lastCodeSep vm) (tokenizer vm)
    (savedFirstStack vm) (dstack vm) (astack vm) (condStack vm) (numOps vm) (witnessVersion vm)
    (witnessProgram vm) x (sigCache vm).

Definition set_sigCache (x : option SigCache) (vm : Engine) : Engine :=
  mkEngine (scripts vm) (scriptIdx vm) (opcodeIdx vm) (lastCodeSep vm) (tokenizer vm)
    (savedFirstStack vm) (dstack vm) (astack vm) (condStack vm) (numOps vm) (witnessVersion vm)
    (witnessProgram vm) (taprootCtx vm) x.

(** Run a stack method on the data stack or the alternate stack. *)
Definition on_dstack {A} (m : SM stack A) : SM Engine A := zoom dstack set_dstack m.
Definition on_astack {A} (m : SM stack A) : SM Engine A := zoom astack set_astack m.

(** A method on the taproot context; [None] is a nil pointer. *)
Definition on_tapctx {A} (m : SM taprootExecutionCtx A) : SM Engine A := fun vm =>
  match taprootCtx vm with
  | None => (Panic, vm)
  | Some t => let '(o, t') := m t in (o, set_taprootCtx (Some t') vm)
  end.

(** [sig[i]] as an integer; out of range panics. *)
Definition at_ (b : bytes) (i : Z) : res Z := let! x := index b i in Ok (b2z x).

Section Checks.
Context `{Crypto} (cfg : Config).

Definition hasFlag (flag : Z) : bool := Z.land (flags cfg) flag =? flag.

Definition isBranchExecuting (vm : Engine) : bool :=
  match last (condStack vm) with
  | None => true
  | Some c => match c with OpCondTrue => true | _ => false end
  end.

Definition isWitnessVersionActive (v : Z) (vm : Engine) : bool :=
  is_some (witnessProgram vm) && (uint64 (witnessVersion vm) =? v).

(** [vm.scripts[vm.scriptIdx][vm.lastCodeSep:]] *)
Definition subScript (vm : Engine) : res bytes :=
  let! s := index (scripts vm) (scriptIdx vm) in
  if (lastCodeSep vm <? 0) || (lastCodeSep vm >? zlen s) then Panic
  else Ok (zdrop (lastCodeSep vm) s).

Definition checkHashTypeEncoding (hashType : Z) : res unit :=
  if negb (hasFlag ScriptVerifyStrictEncoding) then Ok tt else
  let sigHashType := Z.land hashType (Z.lnot SigHashAnyOneCanPay) in
  if (sigHashType <? SigHashAll) || (sigHashType >? SigHashSingle)
  then Err (scriptError ErrInvalidSigHashType) else Ok tt.

(** btcec.IsCompressedPubKey *)
Definition IsCompressedPubKey (pubKey : bytes) : bool :=
  (zlen pubKey =? 33) && (Z.land (byte_at pubKey 0) (Z.lnot 1) =? 0x2).

Definition checkPubKeyEncoding (pubKey : bytes) (vm : Engine) : res unit :=
  if hasFlag ScriptVerifyWitnessPubKeyType &&
     isWitnessVersionActive BaseSegwitWitnessVersion vm && negb (IsCompressedPubKey pubKey)
  then Err (scriptError ErrWitnessPubKeyType) else
  if negb (hasFlag ScriptVerifyStrictEncoding) then Ok tt else
  if (zlen pubKey =? 33) && ((byte_at pubKey 0 =? 0x02) || (byte_at pubKey 0 =? 0x03))
  then Ok tt else
  if (zlen pubKey =? 65) && (byte_at pubKey 0 =? 0x04) then Ok tt
  else Err (scriptError ErrPubKeyType).

Definition halfOrder : Z := Z.shiftr S256_N 1.

Definition checkSignatureEncoding (sig : bytes) : res unit :=
  if negb (hasFlag ScriptVerifyDERSignatures) && negb (hasFlag ScriptVerifyLowS) &&
     negb (hasFlag ScriptVerifyStrictEncoding) then Ok tt else
  let sigLen := zlen sig in
  if sigLen <? 8 then Err (scriptError ErrSigTooShort) else
  if sigLen >? 72 then Err (scriptError ErrSigTooLong) else
  let! seqId := at_ sig 0 in
  if negb (seqId =? 0x30) then Err (scriptError ErrSigInvalidSeqID) else
  let! dataLen := at_ sig 1 in
  if negb (dataLen =? sigLen - 2) then Err (scriptError ErrSigInvalidDataLen) else
  let! rLen := at_ sig 3 in
  let sTypeOffset := 4 + rLen in
  let sLenOffset := sTypeOffset + 1 in
  if sTypeOffset >=? sigLen then Err (scriptError ErrSigMissingSTypeID) else
  if sLenOffset >=? sigLen then Err (scriptError ErrSigMissingSLen) else
  let sOffset := sLenOffset + 1 in
  let! sLen := at_ sig sLenOffset in
  if negb (sOffset + sLen =? sigLen) then Err (scriptError ErrSigInvalidSLen) else
  let! rType := at_ sig 2 in
  if negb (rType =? 0x02) then Err (scriptError ErrSigInvalidRIntID) else
  if rLen =? 0 then Err (scriptError ErrSigZeroRLen) else
  let! r0 := at_ sig 4 in
  if negb (Z.land r0 0x80 =? 0) then Err (scriptError ErrSigNegativeR) else
  let! rpad := if (rLen >? 1) && (r0 =? 0)
               then let! r1 := at_ sig (4 + 1) in Ok (Z.land r1 0x80 =? 0) else Ok false in
  if rpad then Err (scriptError ErrSigTooMuchRPadding) else
  let! sType := at_ sig sTypeOffset in
  if negb (sType =? 0x02) then Err (scriptError ErrSigInvalidSIntID) else
  if sLen =? 0 then Err (scriptError ErrSigZeroSLen) else
  let! s0 := at_ sig sOffset in
  if negb (Z.land s0 0x80 =? 0) then Err (scriptError ErrSigNegativeS) else
  let! spad := if (sLen >? 1) && (s0 =? 0)
               then let! s1 := at_ sig (sOffset + 1) in Ok (Z.land s1 0x80 =? 0) else Ok false in
  if spad then Err (scriptError ErrSigTooMuchSPadding) else
  if hasFlag ScriptVerifyLowS && (be_val (slice sig sOffset (sOffset + sLen)) >? halfOrder)
  then Err (scriptError ErrSigHighS) else Ok tt.
End Checks.

(** * The DER grammar *)

(** The contents of an ASN.1 integer: not empty, not negative, not padded. *)
Definition der_int (l : bytes) : Prop :=
  match l with
  | [] => False
  | [a] => b2z a < 128
  | a :: b :: _ => b2z a < 128 /\ (b2z a = 0 -> 128 <= b2z b)
  end.

Definition der_sig (r s : bytes) : bytes :=
  z2b 0x30 :: z2b (4 + zlen r + zlen s) :: z2b 0x02 :: z2b (zlen r) :: r ++
  z2b 0x02 :: z2b (zlen s) :: s.

Lemma at_cons x l i : at_ (x :: l) i = if i =? 0 then Ok (b2z x) else at_ l (i - 1).
Proof.
  unfold at_, index, znth. destruct (Z.eqb_spec i 0) as [->|Hi]; [done |].
  destruct (decide (0 <= i)); [| rewrite decide_False by lia; done].
  rewrite decide_True by lia. replace (Z.to_nat i) with (S (Z.to_nat (i - 1))) by lia. done.
Qed.

Lemma at_app_r l k i : zlen l <= i -> at_ (l ++ k) i = at_ k (i - zlen l).
Proof. intros Hi. unfold at_, index. now rewrite znth_app_r. Qed.

Lemma at_app_l l k i : i < zlen l -> at_ (l ++ k) i = at_ l i.
Proof. intros Hi. unfold at_, index. now rewrite znth_app_l. Qed.

Lemma at_in_range l i : 0 <= i < zlen l -> exists v, at_ l i = Ok v /\ 0 <= v < 256.
Proof.
  intros [x Hx]%znth_in_range. exists (b2z x). unfold at_, index. rewrite Hx.
  split; [done | apply b2z_range].
Qed.

Lemma land_128 b : (Z.land (b2z b) 128 =? 0) = (b2z b <? 128).
Proof. by destruct b. Qed.

(** The two tests on an integer's contents [l] in front of [rest]. *)
Lemma der_int_tests l rest :
  l <> [] ->
  (exists v0, at_ (l ++ rest) 0 = Ok v0 /\
   exists pad, (if (zlen l >? 1) && (v0 =? 0)
     then let! v1 := at_ (l ++ rest) 1 in Ok (Z.land v1 0x80 =? 0) else Ok false) = @Ok Error _ pad /\
   (der_int l <-> Z.land v0 0x80 = 0 /\ pad = false)).
Proof.
  intros Hne. destruct l as [|a l]; [done |]. exists (b2z a).
  split; [cbn [app]; now rewrite at_cons |]. destruct l as [|b l].
  - exists false. rewrite zlen_cons, zlen_nil. ztest. split; [done |]. cbn [der_int].
    rewrite <- (Z.eqb_eq (Z.land _ _)), land_128. lia.
  - cbn [app]. rewrite !zlen_cons. pose proof (zlen_nonneg l). ztest. rewrite at_cons. ztest.
    change (1 - 1) with 0. rewrite at_cons. ztest. cbn [obind der_int].
    destruct (Z.eqb_spec (b2z a) 0).
    + eexists. split; [reflexivity |]. rewrite <- (Z.eqb_eq (Z.land _ _)), !land_128. lia.
    + eexists. split; [reflexivity |]. rewrite <- (Z.eqb_eq (Z.land _ _)), !land_128. lia.
Qed.

Section DER.
Context `{Crypto} (cfg : Config).

Definition der_flags : bool :=
  hasFlag cfg ScriptVerifyDERSignatures || hasFlag cfg ScriptVerifyLowS ||
  hasFlag cfg ScriptVerifyStrictEncoding.

Definition low_s (s : bytes) : Prop :=
  hasFlag cfg ScriptVerifyLowS = true -> be_val s <= halfOrder.

Lemma at_head b0 b1 b2 b3 l k : 0 <= k -> at_ (b0 :: b1 :: b2 :: b3 :: l) (4 + k) = at_ l k.
Proof.
  intros Hk. change (b0 :: b1 :: b2 :: b3 :: l) with ([b0; b1; b2; b3] ++ l).
  rewrite at_app_r by (change (zlen [b0; b1; b2; b3]) with 4; lia).
  f_equal. change (zlen [b0; b1; b2; b3]) with 4. lia.
Qed.

Lemma der_flags_on :
  der_flags = true ->
  negb (hasFlag cfg ScriptVerifyDERSignatures) && negb (hasFlag cfg ScriptVerifyLowS) &&
    negb (hasFlag cfg ScriptVerifyStrictEncoding) = false.
Proof.
  unfold der_flags. by destruct (hasFlag cfg ScriptVerifyDERSignatures),
    (hasFlag cfg ScriptVerifyLowS), (hasFlag cfg ScriptVerifyStrictEncoding).
Qed.

(** A failed check contradicts the grammar. *)
Ltac der_bad := split; [done | split; [done |]]; cbn [der_int];
  first [tauto | lia | intros; exfalso; intuition congruence].

(** The checks on a signature whose R part is delimited. *)
Lemma check_shape b0 b1 b2 b3 r t l s :
  der_flags = true -> zlen r = b2z b3 ->
  let sig := b0 :: b1 :: b2 :: b3 :: r ++ t :: l :: s in
  8 <= zlen sig <= 72 ->
  checkSignatureEncoding cfg sig <> Panic /\
  (checkSignatureEncoding cfg sig = Ok tt <->
   b2z b0 = 0x30 /\ b2z b1 = zlen sig - 2 /\ b2z b2 = 2 /\ b2z t = 2 /\ zlen s = b2z l /\
   der_int r /\ der_int s /\ low_s s).
Proof.
  intros Hf Hr sig Hlen. unfold checkSignatureEncoding. rewrite (der_flags_on Hf).
  assert (zlen sig = 6 + zlen r + zlen s) as Hsig
    by (subst sig; rewrite !zlen_cons, zlen_app, !zlen_cons; lia).
  pose proof (zlen_nonneg r). pose proof (zlen_nonneg s).
  assert (forall k, 0 <= k -> at_ sig (4 + zlen r + k) = at_ (t :: l :: s) k) as Hat.
  { intros k Hk. subst sig. rewrite <- Z.add_assoc, at_head by lia. rewrite at_app_r by lia.
    f_equal. lia. }
  change (at_ sig 0) with (@Ok Error _ (b2z b0)). change (at_ sig 1) with (@Ok Error _ (b2z b1)).
  change (at_ sig 2) with (@Ok Error _ (b2z b2)). change (at_ sig 3) with (@Ok Error _ (b2z b3)).
  rewrite <- Hr. cbn [obind]. ztest.
  rewrite (Hat 1) by lia. replace (at_ sig (4 + zlen r)) with (@Ok Error _ (b2z t))
    by (symmetry; rewrite <- (Z.add_0_r (4 + zlen r)); exact (Hat 0 ltac:(lia))).
  change (at_ (t :: l :: s) 1) with (@Ok Error _ (b2z l)). cbn [obind].
  destruct (Z.eqb_spec (b2z b0) 0x30); cbn [negb]; [| der_bad].
  destruct (Z.eqb_spec (b2z b1) (zlen sig - 2)); cbn [negb]; [| der_bad].
  destruct (Z.eqb_spec (4 + zlen r + 1 + 1 + b2z l) (zlen sig)); cbn [negb];
    [| der_bad].
  destruct (Z.eqb_spec (b2z b2) 2); cbn [negb]; [| der_bad].
  destruct (Z.eqb_spec (zlen r) 0) as [->%zlen_0_nil|Hr0];
    [der_bad |].
  destruct (der_int_tests r (t :: l :: s)) as (v0 & Hv0 & padr & Hpadr & Hdr);
    [intros ->; done |].
  replace (at_ sig 4) with (@Ok Error _ v0)
    by (symmetry; rewrite <- Hv0; exact (at_head b0 b1 b2 b3 _ 0 ltac:(lia))).
  change (at_ sig (4 + 1)) with (at_ (r ++ t :: l :: s) 1). cbn [obind]. rewrite Hpadr. cbn [obind].
  destruct (Z.eqb_spec (Z.land v0 0x80) 0); cbn [negb]; [| der_bad].
  destruct padr; [der_bad |].
  destruct (Z.eqb_spec (b2z t) 2); cbn [negb]; [| der_bad].
  assert (zlen s = b2z l) as Hs by lia.
  destruct (Z.eqb_spec (b2z l) 0) as [Hl0|Hl0];
    [assert (s = []) as -> by (apply zlen_0_nil; lia); der_bad |].
  destruct (der_int_tests s []) as (w0 & Hw0 & pads & Hpads & Hds); [intros ->; done |].
  rewrite app_nil_r in Hw0, Hpads.
  replace (4 + zlen r + 1 + 1 + 1) with (4 + zlen r + 3) by lia.
  replace (4 + zlen r + 1 + 1) with (4 + zlen r + 2) by lia.
  rewrite !Hat by lia.
  change (at_ (t :: l :: s) 2) with (at_ s 0). change (at_ (t :: l :: s) 3) with (at_ s 1).
  rewrite Hw0, <- Hs. cbn [obind]. rewrite Hpads. cbn [obind].
  destruct (Z.eqb_spec (Z.land w0 0x80) 0); cbn [negb]; [| der_bad].
  destruct pads; [der_bad |].
  replace (slice sig (4 + zlen r + 2) (4 + zlen r + 2 + zlen s)) with s.
  2: { unfold slice. replace (_ - _) with (zlen s) by lia. subst sig.
       replace (b0 :: b1 :: b2 :: b3 :: r ++ t :: l :: s)
         with ((b0 :: b1 :: b2 :: b3 :: r ++ [t; l]) ++ s ++ [])
         by (cbn [app]; now rewrite <- app_assoc, app_nil_r).
       symmetry. apply slice_mid. rewrite !zlen_cons, zlen_app, !zlen_cons, zlen_nil. lia. }
  unfold low_s. destruct (hasFlag cfg ScriptVerifyLowS); cbn [andb].
  - destruct (be_val s >? halfOrder) eqn:Hhi; [der_bad |].
    split; [done |]. split; [| done]. intros _. split_and!; try tauto; lia.
  - split; [done |]. split; [| done]. intros _. split_and!; try tauto; done.
Qed.

Definition der_ok (sig : bytes) : Prop :=
  exists r s, sig = der_sig r s /\ zlen sig <= 72 /\ der_int r /\ der_int s /\ low_s s.

Lemma zlen_der_sig r s : zlen (der_sig r s) = 6 + zlen r + zlen s.
Proof. unfold der_sig. rewrite !zlen_cons, zlen_app, !zlen_cons. lia. Qed.

Lemma der_int_len l : der_int l -> 1 <= zlen l.
Proof. destruct l; [done |]. rewrite zlen_cons. pose proof (zlen_nonneg l). lia. Qed.

Lemma b2z_eq_z2b b n : 0 <= n < 256 -> b2z b = n <-> b = z2b n.
Proof.
  intros Hn. split; [intros <-; symmetry; apply z2b_b2z | intros ->; now apply b2z_z2b_small].
Qed.

Lemma check_total sig :
  der_flags = true ->
  checkSignatureEncoding cfg sig <> Panic /\ (checkSignatureEncoding cfg sig = Ok tt <-> der_ok sig).
Proof.
  intros Hf. destruct (decide (zlen sig < 8 \/ 72 < zlen sig)) as [Hl|Hl].
  { unfold checkSignatureEncoding.
    rewrite (der_flags_on Hf).
    split; [destruct (Z.ltb_spec (zlen sig) 8); [done |]; by ztest |].
    split; [destruct (Z.ltb_spec (zlen sig) 8); [done |]; by ztest |].
    intros (r & s & -> & H1 & H2%der_int_len & H3%der_int_len & _).
    rewrite zlen_der_sig in *. lia. }
  destruct sig as [|b0 [|b1 [|b2 [|b3 rest]]]];
    try (rewrite ?zlen_cons, ?zlen_nil in Hl; lia).
  set (sig := b0 :: b1 :: b2 :: b3 :: rest) in *.
  assert (zlen sig = 4 + zlen rest) as Hlen by (subst sig; rewrite !zlen_cons; lia).
  pose proof (b2z_range b3) as Hb3.
  destruct (decide (zlen rest < b2z b3 + 2)) as [Hshort|Hlong].
  - assert (~ der_ok sig) as Hno.
    { intros (r & s & Heq & H1 & H2%der_int_len & H3%der_int_len & _).
      pose proof (zlen_der_sig r s) as Hz. rewrite <- Heq in Hz.
      subst sig. injection Heq as -> -> -> -> _.
      rewrite b2z_z2b_small in Hshort; lia. }
    unfold checkSignatureEncoding.
    rewrite (der_flags_on Hf).
    change (at_ sig 0) with (@Ok Error _ (b2z b0)). change (at_ sig 1) with (@Ok Error _ (b2z b1)).
    change (at_ sig 3) with (@Ok Error _ (b2z b3)). cbn [obind]. ztest.
    destruct (negb (b2z b0 =? 0x30)); [der_bad |].
    destruct (negb (b2z b1 =? zlen sig - 2)); [der_bad |].
    destruct (4 + b2z b3 >=? zlen sig); [der_bad |]. ztest. der_bad.
  - pose proof (ztake_zdrop (b2z b3) rest) as Hrest.
    set (r := ztake (b2z b3) rest) in *.
    assert (zlen r = b2z b3) as Hr by (apply zlen_ztake; lia).
    destruct (zdrop (b2z b3) rest) as [|t [|l s]] eqn:Hz;
      try (apply (f_equal zlen) in Hz; rewrite zlen_zdrop, ?zlen_cons, ?zlen_nil in Hz by lia; lia).
    clear Hz Hlong. clearbody r. subst rest. destruct (check_shape b0 b1 b2 b3 r t l s Hf Hr) as [Hp Hok]; [subst sig; lia |].
    split; [exact Hp |]. subst sig. rewrite Hok. clear Hok Hp.
    rewrite zlen_app, !zlen_cons in Hlen. pose proof (zlen_nonneg s). pose proof (zlen_nonneg r).
    split.
    + intros (E0 & E1 & E2 & Et & Hs & Hdr & Hds & Hlow). exists r, s.
      rewrite !zlen_cons, zlen_app, !zlen_cons in E1, Hl.
      split_and!; auto; [| rewrite !zlen_cons, zlen_app, !zlen_cons; lia]. unfold der_sig.
      rewrite Hr, Hs, !z2b_b2z, <- Hr, <- Hs. apply b2z_eq_z2b in E0, E2, Et; [| lia ..].
      replace (z2b (4 + zlen r + zlen s)) with b1; [by subst b0 b2 t |].
      apply b2z_eq_z2b; lia.
    + intros (r' & s' & Heq & _ & Hdr & Hds & Hlow). unfold der_sig in Heq.
      injection Heq as -> -> -> -> Heq.
      pose proof (f_equal zlen Heq) as Hle. rewrite !zlen_app, !zlen_cons in Hle.
      pose proof (zlen_nonneg r'). pose proof (zlen_nonneg s').
      rewrite !zlen_cons, !zlen_app, !zlen_cons in Hl. rewrite b2z_z2b_small in Hr by lia.
      apply app_inj_1 in Heq as [-> Heq]; [| unfold zlen in Hr; lia].
      injection Heq as -> -> ->. rewrite !b2z_z2b_small, !zlen_cons, zlen_app, !zlen_cons by lia.
      split_and!; auto; lia.
Qed.
End DER.

(** * Theorems *)

(** C40: with any of the strict signature flags set, [checkSignatureEncoding] never
    reads out of range and accepts exactly the DER encodings of at most 72
    bytes of two non-negative, minimally encoded integers R and S, with S at
    most half the group order when the low-S flag is set. *)
Theorem signature_encoding_iff `{Crypto} cfg sig :
  der_flags cfg = true ->
  checkSignatureEncoding cfg sig <> Panic /\
  (checkSignatureEncoding cfg sig = Ok tt <->
   exists r s, sig = der_sig r s /\ zlen sig <= 72 /\ der_int r /\ der_int s /\
     (hasFlag cfg ScriptVerifyLowS = true -> be_val s <= halfOrder)).
Proof. apply check_total. Qed.

Definition strict_cfg : Config :=
  mkConfig (Z.lor ScriptVerifyDERSignatures ScriptVerifyLowS) (NewMsgTx 1) 0 0 false 0 None
    (fun _ => None).

Lemma signature_encoding_iff_witness :
  @checkSignatureEncoding toy_crypto strict_cfg (der_sig [x00; x81] [x01]) = Ok tt.
Proof.
  apply (proj2 (proj2 (@signature_encoding_iff toy_crypto strict_cfg
    (der_sig [x00; x81] [x01]) eq_refl))).
  exists [x00; x81], [x01].
  split_and!; [reflexivity | vm_compute; discriminate | vm_compute .. ];
    [split; [reflexivity | discriminate] | reflexivity | discriminate].
Defined.
