(* ===== verification/SigCheck.v ===== *)
(** Signature verification (src/btcd/txscript/sigvalidate.go and the taproot
    parts of src/btcd/txscript/taproot.go): parsing of keys and signatures under
    the script flags, the four verifiers, and the use of the signature cache. *)
From S2P Require Import Prelude WireCommon ScriptError ScriptNum Stack Opcodes Tokenizer MsgTx Script Crypto SigHash SigCache EngineState.

Record verifyResult := mkResult {
  sigValid : bool;
  sigMatch : bool;
}.

(** [copy(sigHash[:], hash)] into a 32-byte array *)
Definition to_hash (h : bytes) : bytes := ztake 32 (h ++ replicate 32 x00).

Definition SignatureSize : Z := 64.
Definition BaseLeafVersion : Z := 0xc0.
Definition ControlBlockBaseSize : Z := 33.
Definition ControlBlockNodeSize : Z := 32.
Definition ControlBlockMaxNodeCount : Z := 128.
Definition ControlBlockMaxSize : Z :=
  ControlBlockBaseSize + ControlBlockNodeSize * ControlBlockMaxNodeCount.

(** [s[len(s)-1]] and [s[:len(s)-1]] of a list; empty panics. *)
Definition last_or_panic {A} (l : list A) : res A :=
  match last l with Some x => Ok x | None => Panic end.

Definition but_last {A} (l : list A) : list A := ztake (zlen l - 1) l.

Section SigCheck.
Context `{Crypto} `{MapOrder} (cfg : Config).

(** * The cache around a verification

    [check] is the expensive verification; a hit skips it, and a success is
    added. *)
Definition verify_cached (check : bool) (sigHash sig pubKey : bytes) : SM Engine bool := fun vm =>
  match sigCache vm with
  | None => (Ok check, vm)
  | Some c =>
      if Exists c sigHash sig pubKey then (Ok true, vm)
      else if check then (Ok true, set_sigCache (Some (Add c sigHash sig pubKey)) vm)
      else (Ok false, vm)
  end.

(** * ECDSA *)

Record baseSigVerifier := mkBaseSigVerifier {
  b_pubKey : PublicKey;
  b_sig : EcdsaSignature;
  b_fullSigBytes : bytes;
  b_sigBytes : bytes;
  b_pkBytes : bytes;
  b_subScript : bytes;
  b_hashType : Z;
}.

Definition of_option {A} (o : option A) : res A :=
  match o with Some a => Ok a | None => Err otherError end.

Definition strictEncoding : bool :=
  hasFlag cfg ScriptVerifyStrictEncoding || hasFlag cfg ScriptVerifyDERSignatures.

Definition parse_ecdsa (sigBytes : bytes) : option EcdsaSignature :=
  if strictEncoding then ParseDERSignature sigBytes else ParseSignature sigBytes.

Definition parseBaseSigAndPubkey (pkBytes fullSigBytes : bytes) (vm : Engine)
  : res (PublicKey * EcdsaSignature * Z) :=
  let! ht := last_or_panic fullSigBytes in
  let hashType := b2z ht in
  let sigBytes := but_last fullSigBytes in
  let! u := checkHashTypeEncoding cfg hashType in
  let! u := checkSignatureEncoding cfg sigBytes in
  let! u := checkPubKeyEncoding cfg pkBytes vm in
  let! pubKey := of_option (ParsePubKey pkBytes) in
  let! signature := of_option (parse_ecdsa sigBytes) in
  Ok (pubKey, signature, hashType).

Definition newBaseSigVerifier (pkBytes fullSigBytes : bytes) (vm : Engine) : res baseSigVerifier :=
  let! p := parseBaseSigAndPubkey pkBytes fullSigBytes vm in
  let! sub := subScript vm in
  Ok {| b_pubKey := fst (fst p); b_sig := snd (fst p); b_fullSigBytes := fullSigBytes;
        b_sigBytes := but_last fullSigBytes; b_pkBytes := pkBytes; b_subScript := sub;
        b_hashType := snd p |}.

Definition base_verifySig (b : baseSigVerifier) (sigHash : bytes) : SM Engine bool :=
  verify_cached (ecdsa_Verify (b_sig b) sigHash (b_pubKey b))
    (to_hash sigHash) (b_sigBytes b) (b_pkBytes b).

Definition baseSigVerifier_Verify (b : baseSigVerifier) : SM Engine verifyResult :=
  p <- lift (removeOpcodeByData (b_subScript b) (b_fullSigBytes b));;
  sigHash <- lift (calcSignatureHash (fst p) (b_hashType b) (tx cfg) (txIdx cfg));;
  valid <- base_verifySig b sigHash;;
  ret {| sigValid := valid; sigMatch := snd p |}.

(** [vm.hashCache], or freshly computed midstates *)
Definition sig_hashes : res TxSigHashes :=
  match hashCache cfg with
  | Some sh => Ok sh
  | None => NewTxSigHashes (tx cfg) (prevOutFetcher cfg)
  end.

Definition baseSegwitSigVerifier_Verify (s : baseSigVerifier) : SM Engine verifyResult :=
  sh <- lift sig_hashes;;
  match calcWitnessSignatureHashRaw (b_subScript s) sh (b_hashType s) (tx cfg) (txIdx cfg)
          (inputAmount cfg) with
  | Err _ => ret {| sigValid := false; sigMatch := false |}
  | Panic => panic
  | Ok sigHash =>
      valid <- base_verifySig s sigHash;;
      ret {| sigValid := valid; sigMatch := false |}
  end.

(** * Schnorr *)

Record taprootSigVerifier := mkTaprootSigVerifier {
  t_pubKey : PublicKey;
  t_pkBytes : bytes;
  t_fullSigBytes : bytes;
  t_sig : SchnorrSignature;
  t_hashType : Z;
  t_annex : option bytes;
}.

Definition parseTaprootSigAndPubKey (pkBytes rawSig : bytes)
  : res (PublicKey * SchnorrSignature * Z) :=
  let! pubKey := of_option (schnorr_ParsePubKey pkBytes) in
  if zlen rawSig =? SignatureSize then
    let! sig := of_option (schnorr_ParseSignature rawSig) in
    Ok (pubKey, sig, SigHashDefault)
  else if (zlen rawSig =? SignatureSize + 1) && negb (byte_at rawSig 64 =? 0) then
    let! sig := of_option (schnorr_ParseSignature (ztake SignatureSize rawSig)) in
    Ok (pubKey, sig, byte_at rawSig SignatureSize)
  else Err (scriptError ErrInvalidTaprootSigLen).

Definition newTaprootSigVerifier (pkBytes fullSigBytes : bytes) (annex : option bytes)
  : res taprootSigVerifier :=
  let! p := parseTaprootSigAndPubKey pkBytes fullSigBytes in
  Ok {| t_pubKey := fst (fst p); t_pkBytes := pkBytes; t_fullSigBytes := fullSigBytes;
        t_sig := snd (fst p); t_hashType := snd p; t_annex := annex |}.

Definition taproot_verifySig (t : taprootSigVerifier) (sigHash : bytes) : SM Engine bool :=
  verify_cached (schnorr_Verify (t_sig t) sigHash (t_pubKey t)) (to_hash sigHash)
    (t_fullSigBytes t) (t_pkBytes t).

(** The error of the digest is swallowed: the signature counts as invalid. *)
Definition taproot_Verify (t : taprootSigVerifier) (opts : taprootSigHashOptions)
  : SM Engine verifyResult :=
  match calcTaprootSignatureHashRaw (hashCache cfg) (t_hashType t) (tx cfg) (txIdx cfg)
          (prevOutFetcher cfg) opts with
  | Err _ => ret {| sigValid := false; sigMatch := false |}
  | Panic => panic
  | Ok sigHash =>
      valid <- taproot_verifySig t sigHash;;
      ret {| sigValid := valid; sigMatch := false |}
  end.

Definition taprootSigVerifier_Verify (t : taprootSigVerifier) : SM Engine verifyResult :=
  taproot_Verify t (mkTapOpts (t_annex t) None).

(** [newBaseTapscriptSigVerifier]; [None] is the verifier of an unknown key
    type, which accepts. *)
Definition newBaseTapscriptSigVerifier (pkBytes rawSig : bytes) (ctx : taprootExecutionCtx)
  : res (option taprootSigVerifier) :=
  if zlen pkBytes =? 0 then Err (scriptError ErrTaprootPubkeyIsEmpty)
  else if zlen pkBytes =? 32 then
    let! v := newTaprootSigVerifier pkBytes rawSig (annex ctx) in Ok (Some v)
  else if hasFlag cfg ScriptVerifyDiscourageUpgradeablePubkeyType
  then Err (scriptError ErrDiscourageUpgradeablePubKeyType)
  else Ok None.

Definition baseTapscriptSigVerifier_Verify (b : option taprootSigVerifier)
    (ctx : taprootExecutionCtx) : SM Engine verifyResult :=
  match b with
  | None => ret {| sigValid := true; sigMatch := false |}
  | Some t => taproot_Verify t (mkTapOpts (annex ctx) (Some (codeSepPos ctx, tapLeafHash ctx)))
  end.

Definition VerifyTaprootKeySpend (witnessProgram rawSig : bytes) : SM Engine unit :=
  input <- lift (index (TxIns (tx cfg)) (txIdx cfg));;
  let witness := Witness input in
  let annex := match extractAnnex witness with Ok a => Some a | _ => None end in
  t <- lift (newTaprootSigVerifier witnessProgram rawSig annex);;
  r <- taprootSigVerifier_Verify t;;
  guard (negb (sigValid r)) (scriptError ErrTaprootSigInvalid).

(** * Taproot commitments *)

Record ControlBlock := mkControlBlock {
  InternalKey : PublicKey;
  OutputKeyYIsOdd : bool;
  LeafVersion : Z;
  InclusionProof : bytes;
}.

Definition TapLeaf_TapHash (leafVersion : Z) (script : bytes) : bytes :=
  TaggedHash TagTapLeaf [z2b leafVersion :: WriteVarBytesBuf script].

(** [bytes.Compare(l, r) > 0] *)
Fixpoint bytes_gt (l r : bytes) : bool :=
  match l, r with
  | [], _ => false
  | _ :: _, [] => true
  | a :: l, b :: r => (b2z a >? b2z b) || ((b2z a =? b2z b) && bytes_gt l r)
  end.

Definition tapBranchHash (l r : bytes) : bytes :=
  if bytes_gt l r then TaggedHash TagTapBranch [r; l] else TaggedHash TagTapBranch [l; r].

Fixpoint root_loop (n : nat) (nodeOffset : Z) (proof merkleAccumulator : bytes) : bytes :=
  match n with
  | O => merkleAccumulator
  | S n =>
      let leafOffset := 32 * nodeOffset in
      let nextNode := slice proof leafOffset (leafOffset + 32) in
      root_loop n (nodeOffset + 1) proof (tapBranchHash merkleAccumulator nextNode)
  end.

Definition RootHash (c : ControlBlock) (revealedScript : bytes) : bytes :=
  let numNodes := zlen (InclusionProof c) / ControlBlockNodeSize in
  root_loop (Z.to_nat numNodes) 0 (InclusionProof c)
    (TapLeaf_TapHash (LeafVersion c) revealedScript).

Definition ParseControlBlock (ctrlBlock : bytes) : res ControlBlock :=
  if zlen ctrlBlock <? ControlBlockBaseSize then Err (scriptError ErrControlBlockTooSmall)
  else if zlen ctrlBlock >? ControlBlockMaxSize then Err (scriptError ErrControlBlockTooLarge)
  else if negb ((zlen ctrlBlock - ControlBlockBaseSize) mod ControlBlockNodeSize =? 0)
  then Err (scriptError ErrControlBlockInvalidLength) else
  let! b0 := at_ ctrlBlock 0 in
  let! pubKey := of_option (schnorr_ParsePubKey (slice ctrlBlock 1 33)) in
  Ok {| InternalKey := pubKey; OutputKeyYIsOdd := Z.land b0 0x01 =? 0x01;
        LeafVersion := Z.land b0 TaprootLeafMask; InclusionProof := zdrop 33 ctrlBlock |}.

(** The key is serialized and parsed again; a failure would leave a nil key. *)
Definition ComputeTaprootOutputKey (pubKey : PublicKey) (scriptRoot : bytes) : res PublicKey :=
  match schnorr_ParsePubKey (schnorr_SerializePubKey pubKey) with
  | None => Panic
  | Some internalKey =>
      let tapTweakHash :=
        TaggedHash TagTapTweak [schnorr_SerializePubKey internalKey; scriptRoot] in
      Ok (AddTweak internalKey tapTweakHash)
  end.

Definition VerifyTaprootLeafCommitment (controlBlock : ControlBlock)
    (taprootWitnessProgram revealedScript : bytes) : res unit :=
  let rootHash := RootHash controlBlock revealedScript in
  let! taprootKey := ComputeTaprootOutputKey (InternalKey controlBlock) rootHash in
  if negb (bool_decide (schnorr_SerializePubKey taprootKey = taprootWitnessProgram))
  then Err (scriptError ErrTaprootMerkleProofInvalid) else
  let! first := at_ (SerializeCompressed taprootKey) 0 in
  let derivedYIsOdd := first =? 0x03 in
  if negb (Bool.eqb (OutputKeyYIsOdd controlBlock) derivedYIsOdd)
  then Err (scriptError ErrTaprootOutputKeyParityMismatch) else Ok tt.
End SigCheck.

(** * Cache transparency *)

Section Transparency.
Context `{Crypto} `{MapOrder} `{!CryptoLaws} `{!MapOrderLaws} (cfg : Config).

(** A triple that verifies, under ECDSA or under Schnorr. *)
Definition entry_valid (h sig pk : bytes) : Prop :=
  (exists k s, ParsePubKey pk = Some k /\ ParseSignature sig = Some s /\
               ecdsa_Verify s h k = true) \/
  (exists k s, schnorr_ParsePubKey pk = Some k /\
               schnorr_ParseSignature (ztake 64 sig) = Some s /\ schnorr_Verify s h k = true).

Definition cache_ok (vm : Engine) : Prop :=
  match sigCache vm with None => True | Some c => all_valid entry_valid c end.

Lemma to_hash_id h : zlen h = 32 -> to_hash h = h.
Proof. intros Hh. unfold to_hash. rewrite <- Hh. apply ztake_app. Qed.

(** A verification that agrees with the entries of the cache. *)
Lemma verify_cached_transparent check h sig pk vm :
  cache_ok vm -> (entry_valid h sig pk <-> check = true) ->
  exists vm', verify_cached check h sig pk vm = (Ok check, vm') /\ cache_ok vm' /\
              set_sigCache None vm' = set_sigCache None vm.
Proof.
  intros Hc Hv. unfold verify_cached, cache_ok in *.
  destruct (sigCache vm) as [c|] eqn:Hs; [| exists vm; by rewrite Hs].
  destruct (Exists c h sig pk) eqn:Hx.
  - exists vm. rewrite Hs. split_and!; auto. f_equal. f_equal. symmetry. apply Hv.
    eapply Exists_valid; eauto.
  - destruct check; [| exists vm; by rewrite Hs].
    eexists. split; [reflexivity |]. cbn [set_sigCache sigCache]. split; [| done].
    apply Add_valid; [done | now apply Hv].
Qed.

(** ** Verifiers as their constructors make them *)

Lemma ecdsa_entry pk sig k s h :
  ParsePubKey pk = Some k -> parse_ecdsa cfg sig = Some s ->
  entry_valid h sig pk <-> ecdsa_Verify s h k = true.
Proof.
  intros Hk Hs. assert (ParseSignature sig = Some s) as Hs'.
  { unfold parse_ecdsa in Hs. destruct (strictEncoding cfg); [| done].
    now apply ParseDERSignature_sub. }
  split.
  - intros [(k' & s' & ? & ? & ?)|(k' & s' & Hk' & _)]; [by simplify_eq |].
    apply ParsePubKey_len in Hk. apply schnorr_ParsePubKey_len in Hk'. lia.
  - intros Hv. left. by exists k, s.
Qed.

Lemma schnorr_entry pk sig k s ht h :
  parseTaprootSigAndPubKey pk sig = Ok (k, s, ht) ->
  entry_valid h sig pk <-> schnorr_Verify s h k = true.
Proof.
  unfold parseTaprootSigAndPubKey. intros Hp.
  destruct (schnorr_ParsePubKey pk) as [k'|] eqn:Hk; [| done]. cbn [of_option obind] in Hp.
  assert (k' = k /\ schnorr_ParseSignature (ztake 64 sig) = Some s) as [-> Hs].
  { destruct (Z.eqb_spec (zlen sig) SignatureSize) as [Hl|Hl].
    - replace (ztake 64 sig) with sig by (symmetry; unfold SignatureSize in Hl;
        unfold ztake; apply take_ge; unfold zlen in Hl; lia).
      destruct (schnorr_ParseSignature sig); by simplify_eq/=.
    - destruct (_ && _); [| done].
      change (ztake SignatureSize sig) with (ztake 64 sig) in Hp.
      destruct (schnorr_ParseSignature (ztake 64 sig)); by simplify_eq/=. }
  split.
  - intros [(k' & s' & Hk' & _)|(k' & s' & ? & ? & ?)]; [| by simplify_eq].
    apply ParsePubKey_len in Hk'. apply schnorr_ParsePubKey_len in Hk. lia.
  - intros Hv. right. by exists k, s.
Qed.

Lemma newBaseSigVerifier_inv pk full vm b :
  newBaseSigVerifier cfg pk full vm = Ok b ->
  ParsePubKey (b_pkBytes b) = Some (b_pubKey b) /\
  parse_ecdsa cfg (b_sigBytes b) = Some (b_sig b).
Proof.
  unfold newBaseSigVerifier, parseBaseSigAndPubkey. intros Hb.
  repeat match goal with H : obind ?m _ = Ok _ |- _ =>
    destruct m eqn:?; try discriminate H; cbn [obind] in H end.
  repeat match goal with H : of_option ?o = Ok _ |- _ =>
    destruct o eqn:?; try discriminate H; injection H as <- end.
  by simplify_eq/=.
Qed.

Lemma zlen_calcSignatureHash s ht t i h : calcSignatureHash s ht t i = Ok h -> zlen h = 32.
Proof.
  unfold calcSignatureHash. intros Hh. destruct (_ && _); [by injection Hh as <- |].
  destruct (removeOpcodeRaw s _); try discriminate Hh. cbn [obind] in Hh.
  destruct (_ && _); [discriminate Hh |]. injection Hh as <-. apply sha256_len.
Qed.

Lemma zlen_calcWitness s sh ht t i a h :
  calcWitnessSignatureHashRaw s sh ht t i a = Ok h -> zlen h = 32.
Proof.
  unfold calcWitnessSignatureHashRaw. intros Hh. destruct (_ >? _); [discriminate Hh |].
  destruct (index _ _); try discriminate Hh. injection Hh as <-. apply sha256_len.
Qed.

Lemma zlen_calcTaproot sh ht t i f o h :
  calcTaprootSignatureHashRaw sh ht t i f o = Ok h -> zlen h = 32.
Proof.
  unfold calcTaprootSignatureHashRaw. intros Hh.
  repeat match goal with
  | H : (if ?c then _ else _) = Ok _ |- _ => destruct c; try discriminate H
  | H : obind ?m _ = Ok _ |- _ => destruct m; try discriminate H; cbn [obind] in H
  | H : match ?m with Some _ => _ | None => _ end = Ok _ |- _ => destruct m
  end; injection Hh as <-; apply sha256_len.
Qed.

(** The outcome does not depend on the cache, and the cache stays sound. *)
Definition transparent {A} (m : SM Engine A) : Prop :=
  forall vm, cache_ok vm ->
    fst (m vm) = fst (m (set_sigCache None vm)) /\ cache_ok (snd (m vm)) /\
    set_sigCache None (snd (m vm)) = set_sigCache None vm.

Lemma transparent_lift {A} (o : res A) : transparent (lift o).
Proof. intros vm Hc. done. Qed.

Lemma transparent_ret {A} (a : A) : transparent (ret a).
Proof. intros vm Hc. done. Qed.

Lemma transparent_panic {A} : transparent (panic (A := A)).
Proof. intros vm Hc. done. Qed.

Lemma transparent_bind {A B} (m : SM Engine A) (k : A -> SM Engine B) :
  transparent m ->
  (forall a vm, fst (m vm) = Ok a -> transparent (k a)) ->
  (forall vm, snd (m (set_sigCache None vm)) = set_sigCache None vm) ->
  transparent (bind m k).
Proof.
  intros Hm Hk Hn vm Hc. unfold bind. destruct (Hm vm Hc) as (E1 & E2 & E3).
  pose proof (Hn vm) as Hn'. destruct (m vm) as [o vm1] eqn:Em.
  destruct (m (set_sigCache None vm)) as [o' vm2]. cbn [fst snd] in *. subst o' vm2.
  destruct o as [a|e|]; [| done | done].
  destruct (Hk a vm ltac:(by rewrite Em) vm1 E2) as (K1 & K2 & K3). rewrite E3 in K1, K3. done.
Qed.

Lemma transparent_cached check h sig pk :
  (entry_valid h sig pk <-> check = true) -> transparent (verify_cached check h sig pk).
Proof.
  intros Hv vm Hc. destruct (verify_cached_transparent check h sig pk vm Hc Hv) as (vm' & -> & K1 & K2).
  done.
Qed.
End Transparency.

Section Verifiers.
Context `{Crypto} `{MapOrder} `{!CryptoLaws} `{!MapOrderLaws} (cfg : Config).

Lemma base_Verify_transparent pk full vm0 b :
  newBaseSigVerifier cfg pk full vm0 = Ok b ->
  transparent (baseSigVerifier_Verify cfg b) /\ transparent (baseSegwitSigVerifier_Verify cfg b).
Proof.
  intros [Hk Hs]%newBaseSigVerifier_inv. split.
  - unfold baseSigVerifier_Verify. apply transparent_bind; [apply transparent_lift | | done].
    intros p _ _. apply transparent_bind; [apply transparent_lift | | done].
    intros h vm Hh%zlen_calcSignatureHash. apply transparent_bind; [| intros; apply transparent_ret | done].
    unfold base_verifySig. rewrite to_hash_id by done. apply transparent_cached.
    eapply ecdsa_entry; eauto.
  - unfold baseSegwitSigVerifier_Verify. apply transparent_bind; [apply transparent_lift | | done].
    intros sh _ _. destruct (calcWitnessSignatureHashRaw _ _ _ _ _ _) as [h|e|] eqn:Hh;
      [| apply transparent_ret | apply transparent_panic].
    apply zlen_calcWitness in Hh. apply transparent_bind; [| intros; apply transparent_ret | done].
    unfold base_verifySig. rewrite to_hash_id by done. apply transparent_cached.
    eapply ecdsa_entry; eauto.
Qed.

Lemma taproot_Verify_transparent pk full an t opts :
  newTaprootSigVerifier pk full an = Ok t -> transparent (taproot_Verify cfg t opts).
Proof.
  unfold newTaprootSigVerifier. intros Ht.
  destruct (parseTaprootSigAndPubKey pk full) as [[[k s] ht]|e|] eqn:Hp; try discriminate Ht.
  injection Ht as <-. unfold taproot_Verify. cbn [t_hashType fst snd].
  destruct (calcTaprootSignatureHashRaw _ _ _ _ _ _) as [h|e|] eqn:Hh;
    [| apply transparent_ret | apply transparent_panic].
  apply zlen_calcTaproot in Hh. apply transparent_bind; [| intros; apply transparent_ret | done].
  unfold taproot_verifySig. cbn [t_sig t_pubKey t_fullSigBytes t_pkBytes fst snd].
  rewrite to_hash_id by done. apply transparent_cached. eapply schnorr_entry; eauto.
Qed.
End Verifiers.

(** * Theorems *)

(** C39: the signature cache is transparent: with a cache whose entries all verify,
    every verifier a constructor returns gives the result it gives without a
    cache, touches nothing but the cache, and leaves only verifying entries in
    it; this holds although ECDSA and Schnorr entries share one map. *)
Theorem sig_cache_transparent `{Crypto} `{MapOrder} `{!CryptoLaws} `{!MapOrderLaws} cfg vm0 pk full an opts :
  (forall b, newBaseSigVerifier cfg pk full vm0 = Ok b ->
     transparent (baseSigVerifier_Verify cfg b) /\
     transparent (baseSegwitSigVerifier_Verify cfg b)) /\
  (forall t, newTaprootSigVerifier pk full an = Ok t -> transparent (taproot_Verify cfg t opts)).
Proof.
  split; intros; [eapply base_Verify_transparent | eapply taproot_Verify_transparent]; eauto.
Qed.

Lemma sig_cache_transparent_witness :
  exists t : @taprootSigVerifier toy_crypto,
    newTaprootSigVerifier (replicate 32 x02) (replicate 64 x01) None = Ok t /\
    @transparent toy_crypto verifyResult
      (@taproot_Verify toy_crypto list_order strict_cfg t (mkTapOpts None None)).
Proof.
  eexists. split; [reflexivity |].
  eapply (proj2 (@sig_cache_transparent toy_crypto list_order toy_laws list_order_laws strict_cfg
    (mkEngine [] 0 0 0 (MakeScriptTokenizer 0 []) [] (mkStack [] false) (mkStack [] false) [] 0 0 None None None)
    (replicate 32 x02) (replicate 64 x01) None (mkTapOpts None None))). reflexivity.
Defined.
