(* ===== verification/OpcodeExec.v ===== *)
(** The opcode handlers (src/btcd/txscript/opcode.go).  A handler transforms the
    engine; an error leaves the engine as the handler had changed it so far. *)
From S2P Require Import Prelude WireCommon ScriptError ScriptNum Stack Opcodes Tokenizer MsgTx Script Crypto SigHash SigCache EngineState SigCheck.

Definition LockTimeThreshold : Z := 500000000.

Definition err {A} (c : ErrorCode) : SM Engine A := fail (scriptError c).

(** Abbreviations for calls on the data stack. *)
Definition dPush (so : bytes) : SM Engine unit := on_dstack (PushByteArray so).
Definition dPushInt (v : Z) : SM Engine unit := on_dstack (PushInt v).
Definition dPushBool (v : bool) : SM Engine unit := on_dstack (PushBool v).
Definition dPop : SM Engine bytes := on_dstack PopByteArray.
Definition dPopInt : SM Engine Z := on_dstack PopInt.
Definition dPopBool : SM Engine bool := on_dstack PopBool.
Definition dPeek (idx : Z) : SM Engine bytes := on_dstack (PeekByteArray idx).

Section Handlers.
Context `{Crypto} `{MapOrder} (cfg : Config).

(** * Constants, flow control *)

Definition opcodeDisabled (op : opcode) (data : bytes) : SM Engine unit := err ErrDisabledOpcode.
Definition opcodeReserved (op : opcode) (data : bytes) : SM Engine unit := err ErrReservedOpcode.
Definition opcodeInvalid (op : opcode) (data : bytes) : SM Engine unit := err ErrReservedOpcode.
Definition opcodeFalse (op : opcode) (data : bytes) : SM Engine unit := dPush [].
Definition opcodePushData (op : opcode) (data : bytes) : SM Engine unit := dPush data.
Definition opcode1Negate (op : opcode) (data : bytes) : SM Engine unit := dPushInt (-1).

Definition opcodeN (op : opcode) (data : bytes) : SM Engine unit :=
  dPushInt (uint8 (op_value op - (OP_1 - 1))).

Definition opcodeNop (op : opcode) (data : bytes) : SM Engine unit :=
  if existsb (Z.eqb (op_value op))
       [OP_NOP1; OP_NOP4; OP_NOP5; OP_NOP6; OP_NOP7; OP_NOP8; OP_NOP9; OP_NOP10]
  then guard (hasFlag cfg ScriptDiscourageUpgradableNops) (scriptError ErrDiscourageUpgradableNOPs)
  else ret tt.

Definition popIfBool : SM Engine bool :=
  vm <- get;;
  if negb (isWitnessVersionActive TaprootWitnessVersion vm) &&
     (negb (isWitnessVersionActive BaseSegwitWitnessVersion vm) ||
      negb (hasFlag cfg ScriptVerifyMinimalIf))
  then dPopBool
  else
    so <- dPop;;
    guard (zlen so >? 1) (scriptError ErrMinimalIf);;
    guard ((zlen so =? 1) && negb (byte_at so 0 =? 0x01)) (scriptError ErrMinimalIf);;
    ret (asBool so).

Definition push_cond (c : OpCond) : SM Engine unit :=
  modify (fun vm => set_condStack (condStack vm ++ [c]) vm).

Definition opcodeIf (op : opcode) (data : bytes) : SM Engine unit :=
  vm <- get;;
  if isBranchExecuting vm then
    ok <- popIfBool;;
    push_cond (if ok : bool then OpCondTrue else OpCondFalse)
  else push_cond OpCondSkip.

Definition opcodeNotIf (op : opcode) (data : bytes) : SM Engine unit :=
  vm <- get;;
  if isBranchExecuting vm then
    ok <- popIfBool;;
    push_cond (if negb ok then OpCondTrue else OpCondFalse)
  else push_cond OpCondSkip.

Definition flip (c : OpCond) : OpCond :=
  match c with
  | OpCondTrue => OpCondFalse
  | OpCondFalse => OpCondTrue
  | OpCondSkip => OpCondSkip
  end.

Definition opcodeElse (op : opcode) (data : bytes) : SM Engine unit :=
  vm <- get;;
  match last (condStack vm) with
  | None => err ErrUnbalancedConditional
  | Some c => put (set_condStack (but_last (condStack vm) ++ [flip c]) vm)
  end.

Definition opcodeEndif (op : opcode) (data : bytes) : SM Engine unit :=
  vm <- get;;
  match last (condStack vm) with
  | None => err ErrUnbalancedConditional
  | Some _ => put (set_condStack (but_last (condStack vm)) vm)
  end.

Definition abstractVerify (op : opcode) (c : ErrorCode) : SM Engine unit :=
  verified <- dPopBool;;
  guard (negb verified) (scriptError c).

Definition opcodeVerify (op : opcode) (data : bytes) : SM Engine unit := abstractVerify op ErrVerify.
Definition opcodeReturn (op : opcode) (data : bytes) : SM Engine unit := err ErrEarlyReturn.

(** * Lock times *)

Definition verifyLockTime (txLockTime threshold lockTime : Z) : res unit :=
  if negb (((txLockTime <? threshold) && (lockTime <? threshold)) ||
           ((txLockTime >=? threshold) && (lockTime >=? threshold)))
  then Err (scriptError ErrUnsatisfiedLockTime)
  else if lockTime >? txLockTime then Err (scriptError ErrUnsatisfiedLockTime)
  else Ok tt.

(** The NOP fallback of the two lock time opcodes. *)
Definition as_nop : SM Engine unit :=
  guard (hasFlag cfg ScriptDiscourageUpgradableNops) (scriptError ErrDiscourageUpgradableNOPs).

Definition stack_locktime : SM Engine Z :=
  so <- dPeek 0;;
  vm <- get;;
  n <- lift (MakeScriptNum so (verifyMinimalData (dstack vm)) 5);;
  guard (n <? 0) (scriptError ErrNegativeLockTime);;
  ret n.

Definition opcodeCheckLockTimeVerify (op : opcode) (data : bytes) : SM Engine unit :=
  if negb (hasFlag cfg ScriptVerifyCheckLockTimeVerify) then as_nop else
  lockTime <- stack_locktime;;
  lift (verifyLockTime (LockTime (tx cfg)) LockTimeThreshold lockTime);;
  input <- lift (index (TxIns (tx cfg)) (txIdx cfg));;
  guard (Sequence input =? MaxTxInSequenceNum) (scriptError ErrUnsatisfiedLockTime).

Definition opcodeCheckSequenceVerify (op : opcode) (data : bytes) : SM Engine unit :=
  if negb (hasFlag cfg ScriptVerifyCheckSequenceVerify) then as_nop else
  sequence <- stack_locktime;;
  if negb (Z.land sequence SequenceLockTimeDisabled =? 0) then ret tt else
  guard (uint32 (Version (tx cfg)) <? 2) (scriptError ErrUnsatisfiedLockTime);;
  input <- lift (index (TxIns (tx cfg)) (txIdx cfg));;
  let txSequence := Sequence input in
  guard (negb (Z.land txSequence SequenceLockTimeDisabled =? 0)) (scriptError ErrUnsatisfiedLockTime);;
  let lockTimeMask := Z.lor SequenceLockTimeIsSeconds SequenceLockTimeMask in
  lift (verifyLockTime (Z.land txSequence lockTimeMask) SequenceLockTimeIsSeconds
          (Z.land sequence lockTimeMask)).

(** * Stack manipulation *)

Definition opcodeToAltStack (op : opcode) (data : bytes) : SM Engine unit :=
  so <- dPop;; on_astack (PushByteArray so).
Definition opcodeFromAltStack (op : opcode) (data : bytes) : SM Engine unit :=
  so <- on_astack PopByteArray;; dPush so.
Definition opcode2Drop (op : opcode) (data : bytes) : SM Engine unit := on_dstack (DropN 2).
Definition opcode2Dup (op : opcode) (data : bytes) : SM Engine unit := on_dstack (DupN 2).
Definition opcode3Dup (op : opcode) (data : bytes) : SM Engine unit := on_dstack (DupN 3).
Definition opcode2Over (op : opcode) (data : bytes) : SM Engine unit := on_dstack (OverN 2).
Definition opcode2Rot (op : opcode) (data : bytes) : SM Engine unit := on_dstack (RotN 2).
Definition opcode2Swap (op : opcode) (data : bytes) : SM Engine unit := on_dstack (SwapN 2).

Definition opcodeIfDup (op : opcode) (data : bytes) : SM Engine unit :=
  so <- dPeek 0;;
  if asBool so then dPush so else ret tt.

Definition opcodeDepth (op : opcode) (data : bytes) : SM Engine unit :=
  vm <- get;; dPushInt (Depth (dstack vm)).
Definition opcodeDrop (op : opcode) (data : bytes) : SM Engine unit := on_dstack (DropN 1).
Definition opcodeDup (op : opcode) (data : bytes) : SM Engine unit := on_dstack (DupN 1).
Definition opcodeNip (op : opcode) (data : bytes) : SM Engine unit := on_dstack (NipN 1).
Definition opcodeOver (op : opcode) (data : bytes) : SM Engine unit := on_dstack (OverN 1).
Definition opcodePick (op : opcode) (data : bytes) : SM Engine unit :=
  val <- dPopInt;; on_dstack (PickN (Int32 val)).
Definition opcodeRoll (op : opcode) (data : bytes) : SM Engine unit :=
  val <- dPopInt;; on_dstack (RollN (Int32 val)).
Definition opcodeRot (op : opcode) (data : bytes) : SM Engine unit := on_dstack (RotN 1).
Definition opcodeSwap (op : opcode) (data : bytes) : SM Engine unit := on_dstack (SwapN 1).
Definition opcodeTuck (op : opcode) (data : bytes) : SM Engine unit := on_dstack Tuck.

Definition opcodeSize (op : opcode) (data : bytes) : SM Engine unit :=
  so <- dPeek 0;; dPushInt (zlen so).

Definition opcodeEqual (op : opcode) (data : bytes) : SM Engine unit :=
  a <- dPop;; b <- dPop;; dPushBool (bool_decide (a = b)).
Definition opcodeEqualVerify (op : opcode) (data : bytes) : SM Engine unit :=
  opcodeEqual op data;; abstractVerify op ErrEqualVerify.

(** * Arithmetic: [scriptNum] is an int64 *)

Definition unary (f : Z -> Z) : SM Engine unit := m <- dPopInt;; dPushInt (f m).
(** [v0] is the top item, [v1] the one below. *)
Definition binary (f : Z -> Z -> Z) : SM Engine unit :=
  v0 <- dPopInt;; v1 <- dPopInt;; dPushInt (f v0 v1).
Definition bit (b : bool) : Z := if b then 1 else 0.

Definition opcode1Add (op : opcode) (data : bytes) : SM Engine unit := unary (fun m => int64 (m + 1)).
Definition opcode1Sub (op : opcode) (data : bytes) : SM Engine unit := unary (fun m => int64 (m - 1)).
Definition opcodeNegate (op : opcode) (data : bytes) : SM Engine unit := unary (fun m => int64 (- m)).
Definition opcodeAbs (op : opcode) (data : bytes) : SM Engine unit :=
  unary (fun m => if m <? 0 then int64 (- m) else m).
Definition opcodeNot (op : opcode) (data : bytes) : SM Engine unit := unary (fun m => bit (m =? 0)).
Definition opcode0NotEqual (op : opcode) (data : bytes) : SM Engine unit :=
  unary (fun m => if negb (m =? 0) then 1 else m).
Definition opcodeAdd (op : opcode) (data : bytes) : SM Engine unit :=
  binary (fun v0 v1 => int64 (v0 + v1)).
Definition opcodeSub (op : opcode) (data : bytes) : SM Engine unit :=
  binary (fun v0 v1 => int64 (v1 - v0)).
Definition opcodeBoolAnd (op : opcode) (data : bytes) : SM Engine unit :=
  binary (fun v0 v1 => bit (negb (v0 =? 0) && negb (v1 =? 0))).
Definition opcodeBoolOr (op : opcode) (data : bytes) : SM Engine unit :=
  binary (fun v0 v1 => bit (negb (v0 =? 0) || negb (v1 =? 0))).
Definition opcodeNumEqual (op : opcode) (data : bytes) : SM Engine unit :=
  binary (fun v0 v1 => bit (v0 =? v1)).
Definition opcodeNumEqualVerify (op : opcode) (data : bytes) : SM Engine unit :=
  opcodeNumEqual op data;; abstractVerify op ErrNumEqualVerify.
Definition opcodeNumNotEqual (op : opcode) (data : bytes) : SM Engine unit :=
  binary (fun v0 v1 => bit (negb (v0 =? v1))).
Definition opcodeLessThan (op : opcode) (data : bytes) : SM Engine unit :=
  binary (fun v0 v1 => bit (v1 <? v0)).
Definition opcodeGreaterThan (op : opcode) (data : bytes) : SM Engine unit :=
  binary (fun v0 v1 => bit (v1 >? v0)).
Definition opcodeLessThanOrEqual (op : opcode) (data : bytes) : SM Engine unit :=
  binary (fun v0 v1 => bit (v1 <=? v0)).
Definition opcodeGreaterThanOrEqual (op : opcode) (data : bytes) : SM Engine unit :=
  binary (fun v0 v1 => bit (v1 >=? v0)).
Definition opcodeMin (op : opcode) (data : bytes) : SM Engine unit :=
  binary (fun v0 v1 => if v1 <? v0 then v1 else v0).
Definition opcodeMax (op : opcode) (data : bytes) : SM Engine unit :=
  binary (fun v0 v1 => if v1 >? v0 then v1 else v0).
Definition opcodeWithin (op : opcode) (data : bytes) : SM Engine unit :=
  maxVal <- dPopInt;; minVal <- dPopInt;; x <- dPopInt;;
  dPushInt (bit ((x >=? minVal) && (x <? maxVal))).

(** * Hashing *)

Definition hash_top (f : bytes -> bytes) : SM Engine unit := buf <- dPop;; dPush (f buf).
Definition opcodeRipemd160 (op : opcode) (data : bytes) : SM Engine unit := hash_top ripemd160.
Definition opcodeSha1 (op : opcode) (data : bytes) : SM Engine unit := hash_top sha1.
Definition opcodeSha256 (op : opcode) (data : bytes) : SM Engine unit := hash_top sha256.
Definition opcodeHash160 (op : opcode) (data : bytes) : SM Engine unit := hash_top Hash160.
Definition opcodeHash256 (op : opcode) (data : bytes) : SM Engine unit := hash_top DoubleHashB.

Definition set_codeSepPos (p : Z) (t : taprootExecutionCtx) : taprootExecutionCtx :=
  {| annex := annex t; codeSepPos := p; tapLeafHash := tapLeafHash t;
     sigOpsBudget := sigOpsBudget t; mustSucceed := mustSucceed t |}.

Definition opcodeCodeSeparator (op : opcode) (data : bytes) : SM Engine unit :=
  modify (fun vm => set_lastCodeSep (ByteIndex (tokenizer vm)) vm);;
  vm <- get;;
  match taprootCtx vm with
  | Some t => put (set_taprootCtx
                (Some (set_codeSepPos (uint32 (OpcodePosition (tokenizer vm))) t)) vm)
  | None =>
      guard (negb (is_some (witnessProgram vm)) && hasFlag cfg ScriptVerifyConstScriptCode)
        (scriptError ErrCodeSeparator)
  end.
End Handlers.

(** * Signatures *)

Section Signatures.
Context `{Crypto} `{MapOrder} (cfg : Config).

(** What opcodeCheckSig does once it has a verifier. *)
Definition finish_checksig (fullSigBytes : bytes) (result : verifyResult) : SM Engine unit :=
  let valid := sigValid result in
  guard (hasFlag cfg ScriptVerifyConstScriptCode && sigMatch result)
    (scriptError ErrNonConstScriptCode);;
  vm <- get;;
  guard ((negb valid && is_some (taprootCtx vm) && negb (zlen fullSigBytes =? 0)) ||
         (negb valid && hasFlag cfg ScriptVerifyNullFail && (zlen fullSigBytes >? 0)))
    (scriptError ErrNullFail);;
  dPushBool valid.

(** An error of a constructor fails the script when it is a script error, and
    otherwise counts as an invalid signature. *)
Definition with_verifier (v : res baseSigVerifier)
    (k : baseSigVerifier -> SM Engine unit) : SM Engine unit :=
  match v with
  | Ok b => k b
  | Err e => if isScriptError e then fail e else dPushBool false
  | Panic => panic
  end.

Definition opcodeCheckSig (op : opcode) (data : bytes) : SM Engine unit :=
  pkBytes <- dPop;;
  fullSigBytes <- dPop;;
  vm <- get;;
  if negb (is_some (taprootCtx vm)) && (zlen fullSigBytes <? 1) then dPushBool false else
  if negb (is_some (witnessProgram vm)) then
    with_verifier (newBaseSigVerifier cfg pkBytes fullSigBytes vm) (fun b =>
      r <- baseSigVerifier_Verify cfg b;; finish_checksig fullSigBytes r)
  else if isWitnessVersionActive BaseSegwitWitnessVersion vm then
    with_verifier (newBaseSigVerifier cfg pkBytes fullSigBytes vm) (fun b =>
      r <- baseSegwitSigVerifier_Verify cfg b;; finish_checksig fullSigBytes r)
  else
    match taprootCtx vm with
    | Some _ =>
        (if zlen fullSigBytes >? 0 then on_tapctx tallysigOp else ret tt);;
        guard (zlen pkBytes =? 0) (scriptError ErrTaprootPubkeyIsEmpty);;
        if zlen fullSigBytes =? 0 then dPush [] else
        vm <- get;;
        ctx <- lift (match taprootCtx vm with Some c => Ok c | None => Panic end);;
        v <- lift (newBaseTapscriptSigVerifier cfg pkBytes fullSigBytes ctx);;
        r <- baseTapscriptSigVerifier_Verify cfg v ctx;;
        finish_checksig fullSigBytes r
    | None =>
        (* sigVerifier is the nil interface and its Verify is called *)
        panic
    end.

Definition opcodeCheckSigVerify (op : opcode) (data : bytes) : SM Engine unit :=
  opcodeCheckSig op data;; abstractVerify op ErrCheckSigVerify.

Definition opcodeCheckSigAdd (op : opcode) (data : bytes) : SM Engine unit :=
  vm <- get;;
  guard (negb (is_some (taprootCtx vm))) (scriptError ErrReservedOpcode);;
  pubKeyBytes <- dPop;;
  accumulatorInt <- dPopInt;;
  sigBytes <- dPop;;
  (if negb (zlen sigBytes =? 0) then on_tapctx tallysigOp else ret tt);;
  guard (zlen pubKeyBytes =? 0) (scriptError ErrTaprootPubkeyIsEmpty);;
  if zlen sigBytes =? 0 then dPushInt accumulatorInt else
  vm <- get;;
  ctx <- lift (match taprootCtx vm with Some c => Ok c | None => Panic end);;
  v <- lift (newBaseTapscriptSigVerifier cfg pubKeyBytes sigBytes ctx);;
  r <- baseTapscriptSigVerifier_Verify cfg v ctx;;
  guard (negb (sigValid r)) (scriptError ErrNullFail);;
  dPushInt (int64 (accumulatorInt + 1)).

(** ** Multisig *)

(** [parsedSigInfo]: [parsed] is [None] until the signature was parsed, and
    then holds the result, nil when it did not parse. *)
Record parsedSigInfo := mkSigInfo {
  signature : bytes;
  parsed : option (option EcdsaSignature);
}.

Fixpoint pop_n (n : nat) : SM Engine (list bytes) :=
  match n with
  | O => ret []
  | S n => x <- dPop;; l <- pop_n n;; ret (x :: l)
  end.

(** Removal of the signatures from the script, in order. *)
Fixpoint remove_sigs (sigs : list bytes) (script : bytes) : res bytes :=
  match sigs with
  | [] => Ok script
  | s :: sigs =>
      let! p := removeOpcodeByData script s in
      if hasFlag cfg ScriptVerifyConstScriptCode && snd p
      then Err (scriptError ErrNonConstScriptCode)
      else remove_sigs sigs (fst p)
  end.

(** One signature against one key: the new parse state of the signature, and
    whether the key verified it.  The [continue]s of the source return false. *)
Definition try_pair (script : bytes) (sigInfo : parsedSigInfo) (pubKey : bytes)
  : SM Engine (parsedSigInfo * bool) :=
  let rawSig := signature sigInfo in
  if zlen rawSig =? 0 then ret (sigInfo, false) else
  ht <- lift (last_or_panic rawSig);;
  let hashType := b2z ht in
  let sig := but_last rawSig in
  parsedSig <- (match parsed sigInfo with
    | None =>
        lift (checkHashTypeEncoding cfg hashType);;
        lift (checkSignatureEncoding cfg sig);;
        ret (parse_ecdsa cfg sig)
    | Some p => ret p
    end);;
  let sigInfo := mkSigInfo rawSig (Some parsedSig) in
  match parsedSig with
  | None => ret (sigInfo, false)
  | Some parsedSig =>
      vm <- get;;
      lift (checkPubKeyEncoding cfg pubKey vm);;
      match ParsePubKey pubKey with
      | None => ret (sigInfo, false)
      | Some parsedPubKey =>
          hash <- (if isWitnessVersionActive 0 vm then
                     sh <- lift (sig_hashes cfg);;
                     lift (calcWitnessSignatureHashRaw script sh hashType (tx cfg) (txIdx cfg)
                             (inputAmount cfg))
                   else lift (calcSignatureHash script hashType (tx cfg) (txIdx cfg)));;
          valid <- verify_cached (ecdsa_Verify parsedSig hash parsedPubKey) (to_hash hash) sig pubKey;;
          ret (sigInfo, valid)
      end
  end.

(** The loop, with the four counters of the source.  Every iteration takes one
    from [numPubKeys], so fuel for one more than the number of keys is enough;
    running out of it would be a panic. *)
Fixpoint multisig_loop (fuel : nat) (script : bytes) (pubKeys : list bytes)
    (signatures : list parsedSigInfo) (numSignatures numPubKeys pubKeyIdx signatureIdx : Z)
  : SM Engine bool :=
  if numSignatures >? 0 then
    match fuel with
    | O => panic
    | S fuel =>
        let pubKeyIdx := pubKeyIdx + 1 in
        let numPubKeys := numPubKeys - 1 in
        if numSignatures >? numPubKeys then ret false else
        sigInfo <- lift (index signatures signatureIdx);;
        pubKey <- lift (index pubKeys pubKeyIdx);;
        r <- try_pair script sigInfo pubKey;;
        let signatures := <[Z.to_nat signatureIdx := fst r]> signatures in
        if snd r
        then multisig_loop fuel script pubKeys signatures (numSignatures - 1) numPubKeys
               pubKeyIdx (signatureIdx + 1)
        else multisig_loop fuel script pubKeys signatures numSignatures numPubKeys
               pubKeyIdx signatureIdx
    end
  else ret true.

Definition opcodeCheckMultiSig (op : opcode) (data : bytes) : SM Engine unit :=
  vm <- get;;
  guard (is_some (taprootCtx vm)) (scriptError ErrTapscriptCheckMultisig);;
  numKeys <- dPopInt;;
  let numPubKeys := Int32 numKeys in
  guard (numPubKeys <? 0) (scriptError ErrInvalidPubKeyCount);;
  guard (numPubKeys >? MaxPubKeysPerMultiSig) (scriptError ErrInvalidPubKeyCount);;
  modify (fun vm => set_numOps (numOps vm + numPubKeys) vm);;
  vm <- get;;
  guard (numOps vm >? MaxOpsPerScript) (scriptError ErrTooManyOperations);;
  pubKeys <- pop_n (Z.to_nat numPubKeys);;
  numSigs <- dPopInt;;
  let numSignatures := Int32 numSigs in
  guard (numSignatures <? 0) (scriptError ErrInvalidSignatureCount);;
  guard (numSignatures >? numPubKeys) (scriptError ErrInvalidSignatureCount);;
  sigs <- pop_n (Z.to_nat numSignatures);;
  dummy <- dPop;;
  guard (hasFlag cfg ScriptStrictMultiSig && negb (zlen dummy =? 0)) (scriptError ErrSigNullDummy);;
  vm <- get;;
  script <- lift (subScript vm);;
  script <- lift (if negb (isWitnessVersionActive 0 vm) then remove_sigs sigs script else Ok script);;
  success <- multisig_loop (S (S (Z.to_nat numPubKeys))) script pubKeys
    ((fun s => mkSigInfo s None) <$> sigs) numSignatures (numPubKeys + 1) (-1) 0;;
  guard (negb success && hasFlag cfg ScriptVerifyNullFail &&
         existsb (fun s => zlen s >? 0) sigs) (scriptError ErrNullFail);;
  dPushBool success.

Definition opcodeCheckMultiSigVerify (op : opcode) (data : bytes) : SM Engine unit :=
  opcodeCheckMultiSig op data;; abstractVerify op ErrCheckMultiSigVerify.

(** The dispatch of [op.opfunc(op, data, vm)] through the table. *)
Definition run_opfunc (op : opcode) (data : bytes) : SM Engine unit :=
  match op_func op with
  | F_opcodeFalse => opcodeFalse op data
  | F_opcodePushData => opcodePushData op data
  | F_opcode1Negate => opcode1Negate op data
  | F_opcodeReserved => opcodeReserved op data
  | F_opcodeN => opcodeN op data
  | F_opcodeNop => opcodeNop cfg op data
  | F_opcodeIf => opcodeIf cfg op data
  | F_opcodeNotIf => opcodeNotIf cfg op data
  | F_opcodeElse => opcodeElse op data
  | F_opcodeEndif => opcodeEndif op data
  | F_opcodeVerify => opcodeVerify op data
  | F_opcodeReturn => opcodeReturn op data
  | F_opcodeToAltStack => opcodeToAltStack op data
  | F_opcodeFromAltStack => opcodeFromAltStack op data
  | F_opcode2Drop => opcode2Drop op data
  | F_opcode2Dup => opcode2Dup op data
  | F_opcode3Dup => opcode3Dup op data
  | F_opcode2Over => opcode2Over op data
  | F_opcode2Rot => opcode2Rot op data
  | F_opcode2Swap => opcode2Swap op data
  | F_opcodeIfDup => opcodeIfDup op data
  | F_opcodeDepth => opcodeDepth op data
  | F_opcodeDrop => opcodeDrop op data
  | F_opcodeDup => opcodeDup op data
  | F_opcodeNip => opcodeNip op data
  | F_opcodeOver => opcodeOver op data
  | F_opcodePick => opcodePick op data
  | F_opcodeRoll => opcodeRoll op data
  | F_opcodeRot => opcodeRot op data
  | F_opcodeSwap => opcodeSwap op data
  | F_opcodeTuck => opcodeTuck op data
  | F_opcodeDisabled => opcodeDisabled op data
  | F_opcodeSize => opcodeSize op data
  | F_opcodeEqual => opcodeEqual op data
  | F_opcodeEqualVerify => opcodeEqualVerify op data
  | F_opcode1Add => opcode1Add op data
  | F_opcode1Sub => opcode1Sub op data
  | F_opcodeNegate => opcodeNegate op data
  | F_opcodeAbs => opcodeAbs op data
  | F_opcodeNot => opcodeNot op data
  | F_opcode0NotEqual => opcode0NotEqual op data
  | F_opcodeAdd => opcodeAdd op data
  | F_opcodeSub => opcodeSub op data
  | F_opcodeBoolAnd => opcodeBoolAnd op data
  | F_opcodeBoolOr => opcodeBoolOr op data
  | F_opcodeNumEqual => opcodeNumEqual op data
  | F_opcodeNumEqualVerify => opcodeNumEqualVerify op data
  | F_opcodeNumNotEqual => opcodeNumNotEqual op data
  | F_opcodeLessThan => opcodeLessThan op data
  | F_opcodeGreaterThan => opcodeGreaterThan op data
  | F_opcodeLessThanOrEqual => opcodeLessThanOrEqual op data
  | F_opcodeGreaterThanOrEqual => opcodeGreaterThanOrEqual op data
  | F_opcodeMin => opcodeMin op data
  | F_opcodeMax => opcodeMax op data
  | F_opcodeWithin => opcodeWithin op data
  | F_opcodeRipemd160 => opcodeRipemd160 op data
  | F_opcodeSha1 => opcodeSha1 op data
  | F_opcodeSha256 => opcodeSha256 op data
  | F_opcodeHash160 => opcodeHash160 op data
  | F_opcodeHash256 => opcodeHash256 op data
  | F_opcodeCodeSeparator => opcodeCodeSeparator cfg op data
  | F_opcodeCheckSig => opcodeCheckSig op data
  | F_opcodeCheckSigVerify => opcodeCheckSigVerify op data
  | F_opcodeCheckMultiSig => opcodeCheckMultiSig op data
  | F_opcodeCheckMultiSigVerify => opcodeCheckMultiSigVerify op data
  | F_opcodeCheckLockTimeVerify => opcodeCheckLockTimeVerify cfg op data
  | F_opcodeCheckSequenceVerify => opcodeCheckSequenceVerify cfg op data
  | F_opcodeCheckSigAdd => opcodeCheckSigAdd op data
  | F_opcodeInvalid => opcodeInvalid op data
  end.
End Signatures.
