(* ===== verification/ScriptBuilder.v ===== *)
(** The script builder (src/btcd/txscript/scriptbuilder.go) and the standard
    scripts built and recognised with it (src/btcd/txscript/standard.go). *)
From S2P Require Import Prelude ScriptError ScriptNum Opcodes Tokenizer MsgTx Script.

(** [ErrScriptNotCanonical] is an error of its own type, not a script error. *)
Record ScriptBuilder := mkBuilder {
  sb_script : bytes;
  builder_err : option Error;
}.

Definition NewScriptBuilder : ScriptBuilder := mkBuilder [] None.

Definition append (b : ScriptBuilder) (bs : bytes) : ScriptBuilder :=
  mkBuilder (sb_script b ++ bs) (builder_err b).

Definition not_canonical (b : ScriptBuilder) : ScriptBuilder := mkBuilder (sb_script b) (Some otherError).

Definition AddOp (opcode : Z) (b : ScriptBuilder) : ScriptBuilder :=
  if is_some (builder_err b) then b
  else if zlen (sb_script b) + 1 >? MaxScriptSize then not_canonical b
  else append b [z2b opcode].

Definition AddOps (opcodes : bytes) (b : ScriptBuilder) : ScriptBuilder :=
  if is_some (builder_err b) then b
  else if zlen (sb_script b) + zlen opcodes >? MaxScriptSize then not_canonical b
  else append b opcodes.

Definition canonicalDataSize (data : bytes) : Z :=
  let dataLen := zlen data in
  if dataLen =? 0 then 1
  else if (dataLen =? 1) && (byte_at data 0 <=? 16) then 1
  else if (dataLen =? 1) && (byte_at data 0 =? 0x81) then 1
  else if dataLen <? OP_PUSHDATA1 then 1 + dataLen
  else if dataLen <=? 0xff then 2 + dataLen
  else if dataLen <=? 0xffff then 3 + dataLen
  else 5 + dataLen.

Definition addData (data : bytes) (b : ScriptBuilder) : ScriptBuilder :=
  let dataLen := zlen data in
  if (dataLen =? 0) || ((dataLen =? 1) && (byte_at data 0 =? 0)) then append b [z2b OP_0]
  else if (dataLen =? 1) && (byte_at data 0 <=? 16) then append b [z2b (OP_1 - 1 + byte_at data 0)]
  else if (dataLen =? 1) && (byte_at data 0 =? 0x81) then append b [z2b OP_1NEGATE]
  else if dataLen <? OP_PUSHDATA1 then append b (z2b (OP_DATA_1 - 1 + dataLen) :: data)
  else if dataLen <=? 0xff then append b (z2b OP_PUSHDATA1 :: z2b dataLen :: data)
  else if dataLen <=? 0xffff then append b (z2b OP_PUSHDATA2 :: le_bytes 2 dataLen ++ data)
  else append b (z2b OP_PUSHDATA4 :: le_bytes 4 (uint32 dataLen) ++ data).

Definition AddFullData (data : bytes) (b : ScriptBuilder) : ScriptBuilder :=
  if is_some (builder_err b) then b else addData data b.

Definition AddData (data : bytes) (b : ScriptBuilder) : ScriptBuilder :=
  if is_some (builder_err b) then b
  else if zlen (sb_script b) + canonicalDataSize data >? MaxScriptSize then not_canonical b
  else if zlen data >? MaxScriptElementSize then not_canonical b
  else addData data b.

(** [scriptNum.Bytes] of an int64 other than the minimum is total. *)
Definition AddInt64 (val : Z) (b : ScriptBuilder) : res ScriptBuilder :=
  if is_some (builder_err b) then Ok b
  else if zlen (sb_script b) + 1 >? MaxScriptSize then Ok (not_canonical b)
  else if val =? 0 then Ok (append b [z2b OP_0])
  else if (val =? -1) || ((val >=? 1) && (val <=? 16)) then Ok (append b [z2b (OP_1 - 1 + val)])
  else let! bs := Bytes val in Ok (AddData bs b).

Definition Reset (b : ScriptBuilder) : ScriptBuilder := mkBuilder [] None.

(** [Script()]: the script along with the error. *)
Definition Script_ (b : ScriptBuilder) : res bytes :=
  match builder_err b with Some e => Err e | None => Ok (sb_script b) end.

(** * Standard scripts *)

Definition payToPubKeyHashScript (pubKeyHash : bytes) : res bytes :=
  Script_ (AddOp OP_CHECKSIG (AddOp OP_EQUALVERIFY (AddData pubKeyHash
    (AddOp OP_HASH160 (AddOp OP_DUP NewScriptBuilder))))).

Definition payToWitnessPubKeyHashScript (pubKeyHash : bytes) : res bytes :=
  Script_ (AddData pubKeyHash (AddOp OP_0 NewScriptBuilder)).

Definition payToScriptHashScript (scriptHash : bytes) : res bytes :=
  Script_ (AddOp OP_EQUAL (AddData scriptHash (AddOp OP_HASH160 NewScriptBuilder))).

Definition payToWitnessScriptHashScript (scriptHash : bytes) : res bytes :=
  Script_ (AddData scriptHash (AddOp OP_0 NewScriptBuilder)).

Definition payToWitnessTaprootScript (rawKey : bytes) : res bytes :=
  Script_ (AddData rawKey (AddOp OP_1 NewScriptBuilder)).

Definition payToPubKeyScript (serializedPubKey : bytes) : res bytes :=
  Script_ (AddOp OP_CHECKSIG (AddData serializedPubKey NewScriptBuilder)).

Definition NullDataScript (data : bytes) : res bytes :=
  if zlen data >? MaxDataCarrierSize then Err (scriptError ErrTooMuchNullData)
  else Script_ (AddData data (AddOp OP_RETURN NewScriptBuilder)).

Fixpoint add_keys (keys : list bytes) (b : ScriptBuilder) : ScriptBuilder :=
  match keys with [] => b | k :: keys => add_keys keys (AddData k b) end.

Definition MultiSigScript (pubkeys : list bytes) (nrequired : Z) : res bytes :=
  if zlen pubkeys <? nrequired then Err (scriptError ErrTooManyRequiredSigs) else
  let! b := AddInt64 nrequired NewScriptBuilder in
  let! b := AddInt64 (zlen pubkeys) (add_keys pubkeys b) in
  Script_ (AddOp OP_CHECKMULTISIG b).

(** * Recognition *)

Record multiSigDetails := mkDetails {
  d_requiredSigs : Z;
  d_numPubKeys : Z;
  d_pubKeys : list bytes;
  d_valid : bool;
}.

Definition no_details : multiSigDetails := mkDetails 0 0 [] false.

(** The key loop: it stops at the first small integer or when the tokens end. *)
Fixpoint keys_loop (fuel : nat) (t : ScriptTokenizer) (n : Z) (keys : list bytes)
    (extractPubKeys : bool) : res (ScriptTokenizer * Z * list bytes) :=
  match fuel with
  | O => Panic
  | S fuel =>
      let! p := next t in
      if negb (fst p) then Ok (snd p, n, keys) else
      let t := snd p in
      if IsSmallInt (Opcode t) then Ok (t, n, keys) else
      let keys := if isStrictPubKeyEncoding (t_data t) && extractPubKeys
                  then keys ++ [t_data t] else keys in
      keys_loop fuel t (n + 1) keys extractPubKeys
  end.

Definition extractMultisigScriptDetails (scriptVersion : Z) (script : bytes) (extractPubKeys : bool)
  : res multiSigDetails :=
  if negb (scriptVersion =? 0) then Ok no_details else
  if (zlen script <? 3) || negb (byte_at script (zlen script - 1) =? OP_CHECKMULTISIG)
  then Ok no_details else
  let! p := next (MakeScriptTokenizer scriptVersion script) in
  if negb (fst p) || negb (IsSmallInt (Opcode (snd p))) then Ok no_details else
  let requiredSigs := AsSmallInt (Opcode (snd p)) in
  let! q := keys_loop (S (length script)) (snd p) 0 [] extractPubKeys in
  let '(t, n, keys) := q in
  if Done t then Ok no_details else
  if negb (IsSmallInt (Opcode t)) || negb (AsSmallInt (Opcode t) =? n) then Ok no_details else
  if negb (int32 (zlen (t_script t)) - ByteIndex t =? 1) then Ok no_details else
  Ok (mkDetails requiredSigs n keys true).

Definition isMultisigScript (scriptVersion : Z) (script : bytes) : res bool :=
  let! d := extractMultisigScriptDetails scriptVersion script false in Ok (d_valid d).

Definition IsMultisigSigScript (script : bytes) : res bool :=
  if (zlen script <? 4) || negb (byte_at script (zlen script - 1) =? OP_CHECKMULTISIG)
  then Ok false else
  let! possibleRedeemScript := finalOpcodeData 0 script in
  isMultisigScript 0 possibleRedeemScript.

Definition CalcMultiSigStats (script : bytes) : res (Z * Z) :=
  let! d := extractMultisigScriptDetails 0 script false in
  if negb (d_valid d) then Err (scriptError ErrNotMultisigScript)
  else Ok (d_numPubKeys d, d_requiredSigs d).

Definition isNullDataScript (scriptVersion : Z) (script : bytes) : res bool :=
  if negb (scriptVersion =? 0) then Ok false else
  if (zlen script <? 1) || negb (byte_at script 0 =? OP_RETURN) then Ok false else
  if zlen script =? 1 then Ok true else
  let! p := next (MakeScriptTokenizer scriptVersion (zdrop 1 script)) in
  let t := snd p in
  Ok (fst p && Done t && (IsSmallInt (Opcode t) || (Opcode t <=? OP_PUSHDATA4)) &&
      (zlen (t_data t) <=? MaxDataCarrierSize)).

Inductive ScriptClass : Set :=
| NonStandardTy | PubKeyTy | PubKeyHashTy | WitnessV0PubKeyHashTy | ScriptHashTy
| WitnessV0ScriptHashTy | MultiSigTy | NullDataTy | WitnessV1TaprootTy | WitnessUnknownTy.

#[global] Instance ScriptClass_eq_dec : EqDecision ScriptClass.
Proof. solve_decision. Defined.

Definition typeOfScript (scriptVersion : Z) (script : bytes) : res ScriptClass :=
  if scriptVersion =? BaseSegwitWitnessVersion then
    if isPubKeyScript script then Ok PubKeyTy
    else if isPubKeyHashScript script then Ok PubKeyHashTy
    else if isScriptHashScript script then Ok ScriptHashTy
    else if isWitnessPubKeyHashScript script then Ok WitnessV0PubKeyHashTy
    else if isWitnessScriptHashScript script then Ok WitnessV0ScriptHashTy
    else let! m := isMultisigScript scriptVersion script in
         if m then Ok MultiSigTy else
         let! n := isNullDataScript scriptVersion script in
         if n then Ok NullDataTy else Ok NonStandardTy
  else if scriptVersion =? TaprootWitnessVersion then
    if isWitnessTaprootScript script then Ok WitnessV1TaprootTy else Ok NonStandardTy
  else Ok NonStandardTy.

Definition GetScriptClass (script : bytes) : res ScriptClass :=
  let! classSegWit := typeOfScript 0 script in
  if negb (bool_decide (classSegWit = NonStandardTy)) then Ok classSegWit
  else typeOfScript 1 script.

(** [ScriptClass] is a byte; the names are looked up by its value. *)
Definition scriptClassToName : list string :=
  ["nonstandard"; "pubkey"; "pubkeyhash"; "witness_v0_keyhash"; "scripthash";
   "witness_v0_scripthash"; "multisig"; "nulldata"; "witness_v1_taproot"; "witness_unknown"]%string.

Definition ScriptClass_String (t : Z) : res string :=
  if (t >? zlen scriptClassToName) || (t <? 0) then Ok "Invalid"%string
  else index scriptClassToName t.

(** * Running a builder *)

Lemma AddOp_run o s :
  zlen s < MaxScriptSize -> AddOp o (mkBuilder s None) = mkBuilder (s ++ [z2b o]) None.
Proof. intros Hs. unfold AddOp. cbn [is_some builder_err sb_script]. ztest. done. Qed.

(** Between 2 and 75 bytes the push is the length and the data. *)
Lemma AddData_direct h s :
  2 <= zlen h <= 75 -> zlen s + zlen h < MaxScriptSize ->
  AddData h (mkBuilder s None) = mkBuilder (s ++ z2b (zlen h) :: h) None.
Proof.
  intros Hh Hs. unfold AddData, canonicalDataSize, addData. cbn [is_some builder_err sb_script].
  unfold MaxScriptElementSize, OP_PUSHDATA1, OP_DATA_1.
  replace (zlen h =? 1) with false by lia. replace (zlen h =? 0) with false by lia.
  replace (zlen h <? 0x4c) with true by lia. cbn [andb orb]. ztest.
  by replace (1 - 1 + zlen h) with (zlen h) by lia.
Qed.

Lemma p2pkh_script h :
  zlen h = 20 ->
  payToPubKeyHashScript h =
  Ok ([z2b OP_DUP; z2b OP_HASH160; z2b OP_DATA_20] ++ h ++ [z2b OP_EQUALVERIFY; z2b OP_CHECKSIG]).
Proof.
  intros Hh. unfold payToPubKeyHashScript, NewScriptBuilder.
  rewrite !AddOp_run, AddData_direct, !AddOp_run
    by (unfold MaxScriptSize; autorewrite with zlen; lia).
  unfold Script_. cbn [builder_err sb_script]. rewrite Hh, <- !app_assoc. done.
Qed.
