(* ===== verification/Engine.v ===== *)
(** The script engine (src/btcd/txscript/engine.go): execution of one opcode,
    stepping through the scripts of an input, witness programs, and the set up
    of an engine for a transaction input. *)
From S2P Require Import Prelude WireCommon ScriptError ScriptNum Stack Opcodes Tokenizer MsgTx Script Crypto SigHash SigCache EngineState SigCheck OpcodeExec ScriptBuilder.

Definition isOpcodeDisabled (opcode : Z) : bool :=
  existsb (Z.eqb opcode)
    [OP_CAT; OP_SUBSTR; OP_LEFT; OP_RIGHT; OP_INVERT; OP_AND; OP_OR; OP_XOR; OP_2MUL; OP_2DIV;
     OP_MUL; OP_DIV; OP_MOD; OP_LSHIFT; OP_RSHIFT].

Definition isOpcodeAlwaysIllegal (opcode : Z) : bool :=
  existsb (Z.eqb opcode) [OP_VERIF; OP_VERNOTIF].

Definition isOpcodeConditional (opcode : Z) : bool :=
  existsb (Z.eqb opcode) [OP_IF; OP_NOTIF; OP_ELSE; OP_ENDIF].

Definition checkMinimalDataPush (op : opcode) (data : bytes) : res unit :=
  let opcodeVal := op_value op in
  let dataLen := zlen data in
  let bad (b : bool) : res unit := if b then Err (scriptError ErrMinimalData) else Ok tt in
  if (dataLen =? 0) && negb (opcodeVal =? OP_0) then Err (scriptError ErrMinimalData)
  else if (dataLen =? 1) && (byte_at data 0 >=? 1) && (byte_at data 0 <=? 16) then
    bad (negb (opcodeVal =? uint8 (OP_1 + byte_at data 0 - 1)))
  else if (dataLen =? 1) && (byte_at data 0 =? 0x81) then bad (negb (opcodeVal =? OP_1NEGATE))
  else if dataLen <=? 75 then bad (negb (opcodeVal =? dataLen))
  else if dataLen <=? 255 then bad (negb (opcodeVal =? OP_PUSHDATA1))
  else if dataLen <=? 65535 then bad (negb (opcodeVal =? OP_PUSHDATA2))
  else Ok tt.

Section Engine.
Context `{Crypto} `{MapOrder} (cfg : Config).

Definition executeOpcode (op : opcode) (data : bytes) : SM Engine unit :=
  guard (isOpcodeDisabled (op_value op)) (scriptError ErrDisabledOpcode);;
  guard (isOpcodeAlwaysIllegal (op_value op)) (scriptError ErrReservedOpcode);;
  vm <- get;;
  (if negb (is_some (taprootCtx vm)) && (op_value op >? OP_16) then
     put (set_numOps (numOps vm + 1) vm);;
     guard (numOps vm + 1 >? MaxOpsPerScript) (scriptError ErrTooManyOperations)
   else guard (zlen data >? MaxScriptElementSize) (scriptError ErrElementTooBig));;
  vm <- get;;
  if negb (isBranchExecuting vm) && negb (isOpcodeConditional (op_value op)) then ret tt else
  (if verifyMinimalData (dstack vm) && isBranchExecuting vm &&
      (op_value op >=? 0) && (op_value op <=? OP_PUSHDATA4)
   then lift (checkMinimalDataPush op data) else ret tt);;
  run_opfunc cfg op data.

Definition checkValidPC (vm : Engine) : res unit :=
  if scriptIdx vm >=? zlen (scripts vm) then Err (scriptError ErrInvalidProgramCounter) else Ok tt.

(** An error value that the code returns when it is not nil. *)
Definition check_err (o : res (option Error)) : SM Engine unit :=
  e <- lift o;;
  match e with None => ret tt | Some e => fail e end.

Definition append_script (s : bytes) : SM Engine unit :=
  modify (fun vm => set_scripts (scripts vm ++ [s]) vm).

Definition SetStack (data : list bytes) : SM Engine unit := on_dstack (setStack data).
Definition GetStack (vm : Engine) : list bytes := getStack (dstack vm).

Definition set_mustSucceed : SM Engine unit :=
  on_tapctx (modify (fun t =>
    {| annex := annex t; codeSepPos := codeSepPos t; tapLeafHash := tapLeafHash t;
       sigOpsBudget := sigOpsBudget t; mustSucceed := true |})).

Definition set_tapLeafHash (h : bytes) : SM Engine unit :=
  on_tapctx (modify (fun t =>
    {| annex := annex t; codeSepPos := codeSepPos t; tapLeafHash := h;
       sigOpsBudget := sigOpsBudget t; mustSucceed := mustSucceed t |})).

Definition set_annex (a : bytes) : SM Engine unit :=
  on_tapctx (modify (fun t =>
    {| annex := Some a; codeSepPos := codeSepPos t; tapLeafHash := tapLeafHash t;
       sigOpsBudget := sigOpsBudget t; mustSucceed := mustSucceed t |})).

(** ** Witness programs *)

(** Version 0: pay to witness public key hash and pay to witness script hash. *)
Definition verify_v0 (program : bytes) (witness : list bytes) : SM Engine unit :=
  if zlen program =? payToWitnessPubKeyHashDataSize then
    guard (negb (zlen witness =? 2)) (scriptError ErrWitnessProgramMismatch);;
    pkScript <- lift (payToPubKeyHashScript program);;
    check_err (checkScriptParses (version cfg) pkScript);;
    append_script pkScript;;
    SetStack witness
  else if zlen program =? payToWitnessScriptHashDataSize then
    guard (zlen witness =? 0) (scriptError ErrWitnessProgramEmpty);;
    witnessScript <- lift (last_or_panic witness);;
    guard (zlen witnessScript >? MaxScriptSize) (scriptError ErrScriptTooBig);;
    guard (negb (bool_decide (sha256 witnessScript = program))) (scriptError ErrWitnessProgramMismatch);;
    check_err (checkScriptParses (version cfg) witnessScript);;
    append_script witnessScript;;
    SetStack (but_last witness)
  else err ErrWitnessProgramWrongLength.

(** Version 1: taproot.  The result says whether the function returns at
    once (true) or goes on with the size checks. *)
Definition verify_taproot (program : bytes) (witness : list bytes) : SM Engine bool :=
  if negb (hasFlag cfg ScriptVerifyTaproot) then ret true else
  guard (zlen witness =? 0) (scriptError ErrWitnessProgramEmpty);;
  modify (set_taprootCtx (Some (newTaprootExecutionCtx (int32 (TxWitness_SerializeSize witness)))));;
  witness <- (if isAnnexedWitness witness then
                a <- lift (extractAnnex witness);;
                set_annex a;;
                ret (but_last witness)
              else ret witness);;
  if zlen witness =? 1 then
    rawSig <- lift (index witness 0);;
    VerifyTaprootKeySpend cfg program rawSig;;
    set_mustSucceed;;
    ret true
  else
    ctrl <- lift (last_or_panic witness);;
    controlBlock <- lift (ParseControlBlock ctrl);;
    witnessScript <- lift (index witness (zlen witness - 2));;
    lift (VerifyTaprootLeafCommitment controlBlock program witnessScript);;
    succ <- lift (ScriptHasOpSuccess witnessScript);;
    if succ : bool then
      guard (hasFlag cfg ScriptVerifyDiscourageOpSuccess) (scriptError ErrDiscourageOpSuccess);;
      set_mustSucceed;;
      ret true
    else if negb (LeafVersion controlBlock =? BaseLeafVersion) then
      guard (hasFlag cfg ScriptVerifyDiscourageUpgradeableTaprootVersion)
        (scriptError ErrDiscourageUpgradeableTaprootVersion);;
      set_mustSucceed;;
      ret true
    else
      check_err (checkScriptParses (version cfg) witnessScript);;
      set_tapLeafHash (TapLeaf_TapHash BaseLeafVersion witnessScript);;
      append_script witnessScript;;
      SetStack (but_last (but_last witness));;
      ret false.

Definition verifyWitnessProgram (witness : list bytes) : SM Engine unit :=
  vm <- get;;
  let program := default [] (witnessProgram vm) in
  finished <- (
    if isWitnessVersionActive BaseSegwitWitnessVersion vm then
      verify_v0 program witness;; ret false
    else if isWitnessVersionActive TaprootWitnessVersion vm &&
            (zlen program =? payToTaprootDataSize) && negb (bip16 cfg) then
      verify_taproot program witness
    else if hasFlag cfg ScriptVerifyDiscourageUpgradeableWitnessProgram then
      err ErrDiscourageUpgradableWitnessProgram
    else modify (set_witnessProgram None);; ret false);;
  if finished : bool then ret tt else
  vm <- get;;
  if isWitnessVersionActive TaprootWitnessVersion vm ||
     isWitnessVersionActive BaseSegwitWitnessVersion vm then
    guard (isWitnessVersionActive TaprootWitnessVersion vm && (Depth (dstack vm) >? MaxStackSize))
      (scriptError ErrStackOverflow);;
    guard (existsb (fun e => zlen e >? MaxScriptElementSize) (GetStack vm))
      (scriptError ErrElementTooBig)
  else ret tt.

(** ** Stepping *)

Definition CheckErrorCondition (finalScript : bool) : SM Engine unit :=
  vm <- get;;
  if match taprootCtx vm with Some t => mustSucceed t | None => false end then ret tt else
  guard (scriptIdx vm <? zlen (scripts vm)) (scriptError ErrScriptUnfinished);;
  guard (finalScript && isWitnessVersionActive BaseSegwitWitnessVersion vm &&
         negb (Depth (dstack vm) =? 1)) (scriptError ErrEvalFalse);;
  let cleanStackActive := hasFlag cfg ScriptVerifyCleanStack || is_some (taprootCtx vm) in
  guard (finalScript && cleanStackActive && negb (Depth (dstack vm) =? 1)) (scriptError ErrCleanStack);;
  guard (Depth (dstack vm) <? 1) (scriptError ErrEmptyStack);;
  v <- dPopBool;;
  guard (negb v) (scriptError ErrEvalFalse).

Definition next_script : SM Engine unit := modify (fun vm => set_scriptIdx (scriptIdx vm + 1) vm).

(** The end of a script: what happens depends on which script ended. *)
Definition advance_script : SM Engine unit :=
  vm <- get;;
  if (scriptIdx vm =? 0) && bip16 cfg then
    next_script;;
    modify (fun vm => set_savedFirstStack (GetStack vm) vm)
  else if (scriptIdx vm =? 1) && bip16 cfg then
    next_script;;
    CheckErrorCondition false;;
    vm <- get;;
    script <- lift (last_or_panic (savedFirstStack vm));;
    check_err (checkScriptParses (version cfg) script);;
    append_script script;;
    SetStack (but_last (savedFirstStack vm))
  else if ((scriptIdx vm =? 1) && is_some (witnessProgram vm)) ||
          ((scriptIdx vm =? 2) && is_some (witnessProgram vm) && bip16 cfg) then
    next_script;;
    input <- lift (index (TxIns (tx cfg)) (txIdx cfg));;
    verifyWitnessProgram (Witness input)
  else next_script.

(** After the last opcode of a script; the result is [done]. *)
Definition end_of_script : SM Engine bool :=
  vm <- get;;
  guard (negb (zlen (condStack vm) =? 0)) (scriptError ErrUnbalancedConditional);;
  ignore_err (on_astack (fun s => DropN (Depth s) s));;
  modify (set_numOps 0);;
  modify (set_opcodeIdx 0);;
  advance_script;;
  modify (fun vm =>
    if (scriptIdx vm <? zlen (scripts vm)) &&
       match znth (scripts vm) (scriptIdx vm) with Some s => zlen s =? 0 | None => false end
    then set_scriptIdx (scriptIdx vm + 1) vm else vm);;
  modify (set_lastCodeSep 0);;
  vm <- get;;
  if scriptIdx vm >=? zlen (scripts vm) then ret true else
  s <- lift (index (scripts vm) (scriptIdx vm));;
  modify (set_tokenizer (MakeScriptTokenizer (version cfg) s));;
  ret false.

Definition Step : SM Engine bool :=
  vm <- get;;
  lift (checkValidPC vm);;
  more <- zoom tokenizer set_tokenizer Next;;
  vm <- get;;
  if negb more then
    match t_err (tokenizer vm) with
    | Some e => fail e
    | None => err ErrInvalidProgramCounter
    end
  else
    op <- lift (match t_op (tokenizer vm) with Some op => Ok op | None => Panic end);;
    executeOpcode op (t_data (tokenizer vm));;
    vm <- get;;
    guard (int32 (Depth (dstack vm) + Depth (astack vm)) >? MaxStackSize)
      (scriptError ErrStackOverflow);;
    modify (fun vm => set_opcodeIdx (opcodeIdx vm + 1) vm);;
    vm <- get;;
    if Done (tokenizer vm) then end_of_script else ret false.

(** [for !done { done, err = vm.Step() ... }]: [None] is running out of fuel. *)
Fixpoint step_loop (fuel : nat) (vm : Engine) : option (res unit * Engine) :=
  match fuel with
  | O => None
  | S fuel =>
      match Step vm with
      | (Ok true, vm) => Some (Ok tt, vm)
      | (Ok false, vm) => step_loop fuel vm
      | (Err e, vm) => Some (Err e, vm)
      | (Panic, vm) => Some (Panic, vm)
      end
  end.

(** [Execute] without a debugging callback. *)
Definition Execute (fuel : nat) (vm : Engine) : option (res unit * Engine) :=
  if negb (version cfg =? 0) then Some (Ok tt, vm)
  else match step_loop fuel vm with
       | Some (Ok _, vm) => Some (CheckErrorCondition true vm)
       | r => r
       end.
End Engine.

(** * Setting up *)

Section NewEngine.
Context `{Crypto} `{MapOrder}.

Definition guard_ (b : bool) (c : ErrorCode) : res unit :=
  if b then Err (scriptError c) else Ok tt.

(** Size and syntax of the two initial scripts. *)
Definition check_initial (scr : bytes) : res unit :=
  let! u := guard_ (zlen scr >? MaxScriptSize) ErrScriptTooBig in
  let! e := checkScriptParses 0 scr in
  match e with None => Ok tt | Some e => Err e end.

(** The witness program of the input, if any: the public key script, or the
    program the signature script pushes for a nested one. *)
Definition find_witness_program (scriptSig scriptPubKey : bytes) (witness : list bytes)
    (bip16 : bool) : res (option bytes) :=
  let! native := IsWitnessProgram scriptPubKey in
  if native then
    let! u := guard_ (negb (zlen scriptSig =? 0)) ErrWitnessMalleated in
    Ok (Some scriptPubKey)
  else if negb (zlen witness =? 0) && bip16 then
    let! nested :=
      if (zlen scriptSig >? 2) && isCanonicalPush (byte_at scriptSig 0) (zdrop 1 scriptSig)
      then IsWitnessProgram (zdrop 1 scriptSig) else Ok false in
    if nested : bool then Ok (Some (zdrop 1 scriptSig))
    else Err (scriptError ErrWitnessMalleatedP2SH)
  else Ok None.

Definition NewEngine (scriptPubKey : bytes) (tx : MsgTx) (txIdx : Z) (flags : Z)
    (sigCache : option SigCache) (hashCache : option TxSigHashes) (inputAmount : Z)
    (prevOutFetcher : PrevOutputFetcher) : res (Config * Engine) :=
  if (txIdx <? 0) || (txIdx >=? zlen (TxIns tx)) then Err (scriptError ErrInvalidIndex) else
  let! input := index (TxIns tx) txIdx in
  let scriptSig := SignatureScript input in
  let! u := guard_ ((zlen scriptSig =? 0) && (zlen scriptPubKey =? 0)) ErrEvalFalse in
  let cfg := mkConfig flags tx txIdx 0 false inputAmount hashCache prevOutFetcher in
  let! u := guard_ (hasFlag cfg ScriptVerifyCleanStack &&
                    (negb (hasFlag cfg ScriptBip16) && negb (hasFlag cfg ScriptVerifyWitness)))
              ErrInvalidFlags in
  let! u := if hasFlag cfg ScriptVerifySigPushOnly
            then let! po := IsPushOnlyScript scriptSig in guard_ (negb po) ErrNotPushOnly
            else Ok tt in
  let bip16 := hasFlag cfg ScriptBip16 && isScriptHashScript scriptPubKey in
  let! u := if bip16 && negb (hasFlag cfg ScriptVerifySigPushOnly)
            then let! po := IsPushOnlyScript scriptSig in guard_ (negb po) ErrNotPushOnly
            else Ok tt in
  let cfg := mkConfig flags tx txIdx 0 bip16 inputAmount hashCache prevOutFetcher in
  let! u := check_initial scriptSig in
  let! u := check_initial scriptPubKey in
  let scripts := [scriptSig; scriptPubKey] in
  let scriptIdx := if zlen scriptSig =? 0 then 1 else 0 in
  let minimal := hasFlag cfg ScriptVerifyMinimalData in
  let! wp :=
    if hasFlag cfg ScriptVerifyWitness then
      let! u := guard_ (negb (hasFlag cfg ScriptBip16)) ErrInvalidFlags in
      let! p := find_witness_program scriptSig scriptPubKey (Witness input) bip16 in
      match p with
      | Some script => let! info := ExtractWitnessProgramInfo script in
                       Ok (fst info, Some (snd info))
      | None => let! u := guard_ (negb (zlen (Witness input) =? 0)) ErrWitnessUnexpected in
                Ok (0, None)
      end
    else Ok (0, None) in
  let! s := index scripts scriptIdx in
  Ok (cfg,
      mkEngine scripts scriptIdx 0 0 (MakeScriptTokenizer 0 s) [] (mkStack [] minimal)
        (mkStack [] minimal) [] 0 (fst wp) (snd wp) None sigCache).
End NewEngine.
