(* ===== verification/Triples.v ===== *)
(** Framed triples over the state and outcome monad.  [triple n m Q] says of a
    method [m] started in a state that satisfies the invariant: whatever its
    outcome it keeps the frame and lets the size grow by at most [n], and on
    success it restores the invariant and returns a value in [Q].  The rules
    follow the structure of the code; [tri] applies them. *)
From S2P Require Import Prelude.

Section Triples.
Context {S E F : Type} (inv : S -> Prop) (frame : S -> F) (size : S -> Z).

Definition triple {A} (n : Z) (m : M S E A) (Q : A -> Prop) : Prop :=
  forall s, inv s -> forall o s', m s = (o, s') ->
  frame s' = frame s /\ size s' <= size s + n /\ (forall a, o = Ok a -> inv s' /\ Q a).

Lemma triple_weaken {A} c n (m : M S E A) (P Q : A -> Prop) :
  triple c m P -> c <= n -> (forall a, P a -> Q a) -> triple n m Q.
Proof.
  intros Hm Hn HQ s Hs o s' Hr. destruct (Hm s Hs o s' Hr) as (Hf & Hz & Ho).
  split_and!; [done | lia |]. intros a Ha. destruct (Ho a Ha). auto.
Qed.

Lemma triple_bind {A B} c n (m : M S E A) (k : A -> M S E B) P Q :
  triple c m P -> (forall a, P a -> triple (n - c) (k a) Q) -> c <= n -> triple n (bind m k) Q.
Proof.
  intros Hm Hk Hn s Hs o s' Hr. unfold bind in Hr.
  destruct (m s) as [o1 s1] eqn:Hms. destruct (Hm s Hs _ _ Hms) as (Hf & Hz & Ho).
  destruct o1 as [a|e|]; simplify_eq; [| split_and!; [done | lia | done] ..].
  destruct (Ho a eq_refl) as [Hi Ha]. destruct (Hk a Ha s1 Hi o s' Hr) as (Hf' & Hz' & Ho').
  split_and!; [congruence | lia | done].
Qed.

(** Reading the state: the continuation is checked in states of the invariant. *)
Lemma triple_get {B} n (k : S -> M S E B) Q :
  (forall s, inv s -> triple n (k s) Q) -> triple n (bind get k) Q.
Proof. intros Hk s Hs. apply (Hk s Hs s Hs). Qed.

Lemma triple_ret {A} (a : A) : triple 0 (ret a) (fun x => x = a).
Proof. intros s Hs o s' [= <- <-]. split_and!; [done | lia | intros ? [= <-]; done]. Qed.

Lemma triple_fail {A} e : triple 0 (fail e) (fun _ : A => False).
Proof. intros s Hs o s' [= <- <-]. split_and!; [done | lia | done]. Qed.

Lemma triple_panic {A} : triple 0 panic (fun _ : A => False).
Proof. intros s Hs o s' [= <- <-]. split_and!; [done | lia | done]. Qed.

Lemma triple_lift {A} (o : outcome E A) : triple 0 (lift o) (fun a => o = Ok a).
Proof. intros s Hs o' s' [= <- <-]. split_and!; [done | lia | intros ? ->; done]. Qed.

Lemma triple_guard b (e : E) : triple 0 (guard b e) (fun _ => b = false).
Proof.
  intros s Hs o s' Hr. unfold guard in Hr. destruct b; injection Hr as <- <-;
    (split_and!; [done | lia | done]).
Qed.

Lemma triple_modify c f (Q : unit -> Prop) :
  (forall s, inv s -> frame (f s) = frame s /\ size (f s) <= size s + c /\ inv (f s) /\ Q tt) ->
  triple c (modify f) Q.
Proof.
  intros Hf s Hs o s' [= <- <-]. destruct (Hf s Hs) as (? & ? & ? & ?).
  split_and!; [done | done |]. intros [] _. done.
Qed.

Lemma triple_if {A} (b : bool) n (m k : M S E A) Q :
  (b = true -> triple n m Q) -> (b = false -> triple n k Q) -> triple n (if b then m else k) Q.
Proof. destruct b; auto. Qed.
End Triples.

Create HintDb triples discriminated.
#[export] Hint Resolve triple_ret triple_fail triple_panic triple_lift triple_guard : triples.

(** Follow the code: sequencing, branching, reading the state; a primitive
    call is closed by its rule in [triples]. *)
Ltac tri_leaf := eapply triple_weaken; [solve [eauto with triples] | try lia | try done].
Ltac tri_step :=
  match goal with
  | |- triple _ _ _ _ (bind get _) _ => apply triple_get; intros ? ?
  | |- triple _ _ _ _ (bind (bind _ _) _) _ => eapply (triple_bind _ _ _ 0); [| intros ? ? |]
  | |- triple _ _ _ _ (bind _ _) _ =>
      eapply triple_bind; [solve [eauto with triples] | cbv beta; intros ? ? | try lia]
  | |- triple _ _ _ _ (if ?b then _ else _) _ => apply triple_if; intros ?
  | |- triple _ _ _ _ (match ?x with _ => _ end) _ => destruct x eqn:?
  | |- triple _ _ _ _ _ _ => tri_leaf
  end.
Ltac tri := repeat (tri_step; cbv beta in *).
