(* ===== verification/EngineInv.v ===== *)
(** Resource limits of the script engine.  The opcode handlers are checked
    against framed triples: each keeps the script position, adds at most three
    items to the two stacks, keeps every item within 520 bytes and the
    operation count within 201.  From them follow the limits of the states
    [Step] reaches and the termination of [Execute]. *)
From S2P Require Import Prelude Triples WireCommon ScriptError ScriptNum Stack Opcodes Tokenizer MsgTx Script Crypto SigHash SigCache EngineState SigCheck OpcodeExec ScriptBuilder Engine.

(** * Stack methods *)

Definition small (b : bytes) : Prop := zlen b <= MaxScriptElementSize.
Definition all_small (l : list bytes) : Prop := Forall small l.

Abbreviation striple n m Q :=
  (triple (fun s => all_small (stk s)) verifyMinimalData (fun s => zlen (stk s)) n m Q).

Lemma zlen_bytes_loop fuel : forall n acc, zlen (bytes_loop fuel n acc) <= zlen acc + Z.of_nat fuel.
Proof.
  induction fuel as [|fuel IH]; intros n acc; cbn [bytes_loop]; [lia |].
  destruct (0 <? n); [| lia]. etrans; [apply IH |]. autorewrite with zlen. lia.
Qed.

Lemma zlen_map_last f l : zlen (map_last f l) <= zlen l.
Proof.
  unfold map_last. destruct l as [|x l _] using rev_ind; [done |].
  rewrite last_snoc. unfold zlen. rewrite !length_app, length_take, length_app. cbn [length]. lia.
Qed.

Lemma Bytes_small n b : Bytes n = Ok b -> small b.
Proof.
  unfold Bytes, small, MaxScriptElementSize. destruct (n =? 0); [intros [= <-]; done |].
  set (r := bytes_loop _ _ _). pose proof (zlen_bytes_loop 8 (if n <? 0 then int64 (- n) else n) []) as Hr.
  fold r in Hr. rewrite zlen_nil in Hr. cbn zeta.
  destruct (index r (zlen r - 1)) as [t|e|]; cbn [obind]; [| done ..].
  destruct (negb _); [intros [= <-]; autorewrite with zlen; lia |].
  destruct (n <? 0); intros [= <-]; [| lia]. etrans; [apply zlen_map_last | lia].
Qed.

Lemma index_small l i x : all_small l -> index l i = @Ok Error _ x -> small x.
Proof.
  intros Hl Hx. unfold index, znth in Hx. case_decide; [| done].
  destruct (l !! Z.to_nat i) eqn:Hi; [| done]. simplify_eq. by eapply Forall_lookup_1.
Qed.

Section StackTriples.
Lemma push_triple x : small x -> striple 1 (PushByteArray x) (fun _ => True).
Proof.
  intros Hx. apply triple_modify. intros s Hs. cbn [set_stk stk verifyMinimalData].
  split_and!; [done | autorewrite with zlen; lia | | done].
  apply Forall_app. by repeat constructor.
Qed.

Lemma peek_triple i : striple 0 (PeekByteArray i) small.
Proof.
  apply triple_get. intros s Hs. cbn zeta. tri. intros x. by apply index_small.
Qed.

Lemma nipN_triple i : striple 0 (nipN i) small.
Proof.
  intros s Hs o s' Hr. unfold nipN, bind, get in Hr.
  destruct ((i <? 0) || (i >? _)) eqn:Hg; [injection Hr as <- <-; split_and!; [done | lia | done] |].
  unfold lift in Hr. destruct (index _ _) as [x|e|] eqn:Hx;
    [| injection Hr as <- <-; split_and!; [done | lia | done] ..].
  apply orb_false_iff in Hg as [Hg1 Hg2].
  assert (exists l, s' = set_stk l s /\ o = Ok x /\ zlen l <= zlen (stk s) /\ all_small l) as
    (l & -> & -> & Hl & Hsm).
  { unfold put, ret in Hr.
    assert (forall k, all_small (ztake k (stk s)) /\ zlen (ztake k (stk s)) <= zlen (stk s)) as Ht.
    { intros k. split; [by apply Forall_take |]. unfold zlen, ztake. rewrite length_take. lia. }
    assert (forall k, all_small (zdrop k (stk s)) /\ zlen (zdrop k (stk s)) <= zlen (stk s)) as Hd.
    { intros k. split; [by apply Forall_drop |]. unfold zlen, zdrop. rewrite length_drop. lia. }
    destruct (i =? 0); [| destruct (i =? _)]; injection Hr as <- <-; eexists; split_and!;
      try reflexivity; try apply Ht; try apply Hd.
    - set (z := wrapS 32 (zlen (stk s))). rewrite zlen_app. unfold zlen, ztake, zdrop.
      rewrite length_take, length_drop. lia.
    - apply Forall_app; split; [apply Ht | apply Hd]. }
  cbn [set_stk stk verifyMinimalData]. split_and!; [done | lia |].
  intros a [= <-]. split; [done |]. exact (index_small _ _ _ Hs Hx).
Qed.

Lemma times_triple n c body :
  0 <= c -> striple c body (fun _ => True) ->
  striple (Z.of_nat n * c) (times n body) (fun _ => True).
Proof.
  intros Hc Hb. induction n as [|n IH]; cbn [times]; [tri_leaf |].
  eapply triple_bind; [apply Hb | | lia]. intros _ _.
  eapply triple_weaken; [apply IH | lia | done].
Qed.
End StackTriples.

#[export] Hint Resolve push_triple peek_triple nipN_triple : triples.

Section StackMethods.
Lemma pushInt_triple v : striple 1 (PushInt v) (fun _ => True).
Proof.
  unfold PushInt. tri_step. eapply triple_weaken; [apply push_triple | lia | done].
  exact (Bytes_small _ _ H).
Qed.

Lemma pushBool_triple v : striple 1 (PushBool v) (fun _ => True).
Proof. apply push_triple. by destruct v. Qed.

Lemma pop_triple : striple 0 PopByteArray small.
Proof. apply nipN_triple. Qed.

Lemma popInt_triple : striple 0 PopInt (fun n => Z.abs n < 2 ^ 31).
Proof.
  unfold PopInt. eapply triple_bind; [apply pop_triple | intros so _ | done].
  apply triple_get. intros s _. tri_leaf. intros n Hn.
  apply (MakeScriptNum_range _ _ 4) in Hn; [done | lia].
Qed.

Lemma popBool_triple : striple 0 PopBool (fun _ => True).
Proof. unfold PopBool. eapply triple_bind; [apply pop_triple | intros so _ | done]. tri_leaf. Qed.

Lemma NipN_triple i : striple 0 (NipN i) (fun _ => True).
Proof. unfold NipN. tri. Qed.

(** The loops that move or copy one item per round. *)
Lemma move_triple i : striple 1 (so <- nipN i;; PushByteArray so) (fun _ => True).
Proof. tri. Qed.

Lemma copy_triple i : striple 1 (so <- PeekByteArray i;; PushByteArray so) (fun _ => True).
Proof. tri. Qed.

Lemma loop_triple n body :
  striple 1 body (fun _ => True) ->
  striple (Z.max 0 n) (guard (n <? 1) (scriptError ErrInvalidStackOperation);;
                       times (Z.to_nat n) body) (fun _ => True).
Proof.
  intros Hb. eapply (triple_bind _ _ _ 0); [apply triple_guard | intros [] _ | lia].
  eapply triple_weaken; [apply times_triple, Hb; lia | lia | done].
Qed.

Lemma DropN_triple n : striple 0 (DropN n) (fun _ => True).
Proof.
  unfold DropN. tri_step. eapply triple_weaken; [apply (times_triple _ 0) | lia | done]; [done |].
  eapply triple_bind; [apply pop_triple | intros x _; tri_leaf | done].
Qed.

Lemma DupN_triple n : striple (Z.max 0 n) (DupN n) (fun _ => True).
Proof. apply loop_triple, copy_triple. Qed.
Lemma RotN_triple n : striple (Z.max 0 n) (RotN n) (fun _ => True).
Proof. apply loop_triple, move_triple. Qed.
Lemma SwapN_triple n : striple (Z.max 0 n) (SwapN n) (fun _ => True).
Proof. apply loop_triple, move_triple. Qed.
Lemma OverN_triple n : striple (Z.max 0 n) (OverN n) (fun _ => True).
Proof. apply loop_triple, copy_triple. Qed.
Lemma PickN_triple n : striple 1 (PickN n) (fun _ => True).
Proof. apply copy_triple. Qed.
Lemma RollN_triple n : striple 1 (RollN n) (fun _ => True).
Proof. apply move_triple. Qed.

Lemma Tuck_triple : striple 3 Tuck (fun _ => True).
Proof. unfold Tuck, PopByteArray. tri. Qed.
End StackMethods.

#[export] Hint Resolve pushInt_triple pushBool_triple pop_triple popInt_triple popBool_triple
  NipN_triple DropN_triple DupN_triple RotN_triple SwapN_triple OverN_triple PickN_triple
  RollN_triple Tuck_triple : triples.

(** * The engine between opcodes *)

Record vm_ok (vm : Engine) : Prop := {
  ok_dstack : all_small (stk (dstack vm));
  ok_astack : all_small (stk (astack vm));
  ok_numOps : numOps vm <= MaxOpsPerScript;
}.

(** What no handler touches. *)
Definition vm_frame (vm : Engine) :=
  (scripts vm, scriptIdx vm, opcodeIdx vm, tokenizer vm, savedFirstStack vm, witnessVersion vm,
   witnessProgram vm, is_some (taprootCtx vm)).

(** Items on both stacks. *)
Definition items (vm : Engine) : Z := zlen (stk (dstack vm)) + zlen (stk (astack vm)).

Abbreviation etriple n m Q := (triple vm_ok vm_frame items n m Q).

Lemma on_dstack_triple {A} n (m : SM stack A) Q : striple n m Q -> etriple n (on_dstack m) Q.
Proof.
  intros Hm vm [Hd Ha Hn] o vm' Hr. unfold on_dstack, zoom in Hr.
  destruct (m (dstack vm)) as [o1 s1] eqn:Hms. injection Hr as <- <-.
  destruct (Hm _ Hd _ _ Hms) as (_ & Hz & Ho). unfold items, set_dstack; cbn.
  split_and!; [done | unfold items; lia |]. intros a Hoa. destruct (Ho a Hoa). by split.
Qed.

Lemma on_astack_triple {A} n (m : SM stack A) Q : striple n m Q -> etriple n (on_astack m) Q.
Proof.
  intros Hm vm [Hd Ha Hn] o vm' Hr. unfold on_astack, zoom in Hr.
  destruct (m (astack vm)) as [o1 s1] eqn:Hms. injection Hr as <- <-.
  destruct (Hm _ Ha _ _ Hms) as (_ & Hz & Ho). unfold items, set_astack; cbn.
  split_and!; [done | unfold items; lia |]. intros a Hoa. destruct (Ho a Hoa). by split.
Qed.

Lemma on_tapctx_triple {A} (m : SM taprootExecutionCtx A) : etriple 0 (on_tapctx m) (fun _ => True).
Proof.
  intros vm Hok o vm' Hr. unfold on_tapctx in Hr.
  destruct (taprootCtx vm) as [t|] eqn:Ht; [destruct (m t) |]; injection Hr as <- <-.
  - split_and!; [by unfold vm_frame; cbn; rewrite Ht | unfold items; cbn; lia |].
    intros a _. by destruct Hok.
  - split_and!; [done | lia | done].
Qed.

Lemma small_nil : small [].
Proof. done. Qed.
#[export] Hint Resolve small_nil : triples.

Section Primitives.
Lemma dPush_triple x : small x -> etriple 1 (dPush x) (fun _ => True).
Proof. intros. by apply on_dstack_triple, push_triple. Qed.
Lemma dPushInt_triple v : etriple 1 (dPushInt v) (fun _ => True).
Proof. apply on_dstack_triple, pushInt_triple. Qed.
Lemma dPushBool_triple v : etriple 1 (dPushBool v) (fun _ => True).
Proof. apply on_dstack_triple, pushBool_triple. Qed.
Lemma dPop_triple : etriple 0 dPop small.
Proof. apply on_dstack_triple, pop_triple. Qed.
Lemma dPopInt_triple : etriple 0 dPopInt (fun n => Z.abs n < 2 ^ 31).
Proof. apply on_dstack_triple, popInt_triple. Qed.
Lemma dPopBool_triple : etriple 0 dPopBool (fun _ => True).
Proof. apply on_dstack_triple, popBool_triple. Qed.
Lemma dPeek_triple i : etriple 0 (dPeek i) small.
Proof. apply on_dstack_triple, peek_triple. Qed.
Lemma err_triple {A} c : etriple 0 (err c) (fun _ : A => False).
Proof. apply triple_fail. Qed.

Lemma push_cond_triple c : etriple 0 (push_cond c) (fun _ => True).
Proof. apply triple_modify. intros vm []. by split_and!; [| unfold items; cbn; lia | |]. Qed.

(** Writing the condition stack, as the flow control opcodes do. *)
Lemma put_cond_triple vm l :
  forall vm', vm' = set_condStack l vm -> vm_ok vm -> forall o vm1, put vm' vm = (o, vm1) ->
  vm_frame vm1 = vm_frame vm /\ items vm1 <= items vm + 0 /\
  (forall a : unit, o = @Ok Error _ a -> vm_ok vm1 /\ True).
Proof.
  intros vm' -> [] o vm1 [= <- <-]. split_and!; [done | unfold items; cbn; lia |].
  intros _ _. by repeat split.
Qed.
End Primitives.

#[export] Hint Resolve dPush_triple dPushInt_triple dPushBool_triple dPop_triple dPopInt_triple
  dPopBool_triple dPeek_triple err_triple push_cond_triple on_tapctx_triple
  on_dstack_triple on_astack_triple : triples.

Section Handlers.
Context `{Crypto} `{!CryptoLaws} `{MapOrder} (cfg : Config).

Lemma popIfBool_triple : etriple 0 (popIfBool cfg) (fun _ => True).
Proof. unfold popIfBool. tri. Qed.

Lemma flow_triple op data :
  etriple 0 (opcodeIf cfg op data) (fun _ => True) /\
  etriple 0 (opcodeNotIf cfg op data) (fun _ => True) /\
  etriple 0 (opcodeElse op data) (fun _ => True) /\
  etriple 0 (opcodeEndif op data) (fun _ => True).
Proof.
  pose proof popIfBool_triple as Hp. split_and!.
  - unfold opcodeIf. tri_step. tri_step; [| tri_leaf].
    eapply triple_bind; [apply Hp | intros b _; tri_leaf | done].
  - unfold opcodeNotIf. tri_step. tri_step; [| tri_leaf].
    eapply triple_bind; [apply Hp | intros b _; tri_leaf | done].
  - intros vm Hok o vm' Hr. unfold opcodeElse, bind, get in Hr.
    destruct (last _) as [c|]; [by eapply put_cond_triple in Hr |].
    injection Hr as <- <-. by split_and!; [| lia |].
  - intros vm Hok o vm' Hr. unfold opcodeEndif, bind, get in Hr.
    destruct (last _) as [c|]; [by eapply put_cond_triple in Hr |].
    injection Hr as <- <-. by split_and!; [| lia |].
Qed.

Lemma verify_triple op c : etriple 0 (abstractVerify op c) (fun _ => True).
Proof. unfold abstractVerify. tri. Qed.

Lemma locktime_triple : etriple 0 stack_locktime (fun _ => True).
Proof. unfold stack_locktime. tri. Qed.

Lemma cltv_triple op data : etriple 0 (opcodeCheckLockTimeVerify cfg op data) (fun _ => True).
Proof.
  pose proof locktime_triple as Hl. unfold opcodeCheckLockTimeVerify, as_nop. tri.
Qed.

Lemma csv_triple op data : etriple 0 (opcodeCheckSequenceVerify cfg op data) (fun _ => True).
Proof.
  pose proof locktime_triple as Hl. unfold opcodeCheckSequenceVerify, as_nop. cbn zeta. tri.
Qed.

Lemma hash_triple f :
  (forall b, small (f b)) -> etriple 1 (hash_top f) (fun _ => True).
Proof. intros Hf. unfold hash_top. tri. Qed.

Lemma hashes_small b :
  small (ripemd160 b) /\ small (sha1 b) /\ small (sha256 b) /\ small (Hash160 b) /\
  small (DoubleHashB b).
Proof.
  unfold small, Hash160, DoubleHashB, MaxScriptElementSize.
  rewrite ripemd160_len, sha1_len, sha256_len, ripemd160_len, sha256_len. lia.
Qed.

Lemma codesep_triple op data : etriple 0 (opcodeCodeSeparator cfg op data) (fun _ => True).
Proof.
  intros vm [Hd Ha Hn] o vm' Hr. unfold opcodeCodeSeparator, modify, bind, get in Hr.
  cbn [taprootCtx set_lastCodeSep] in Hr. destruct (taprootCtx vm) as [t|] eqn:Ht.
  - injection Hr as <- <-. split_and!; [by unfold vm_frame; cbn; rewrite Ht | unfold items; cbn; lia |].
    intros _ _. by repeat split.
  - unfold guard in Hr. destruct (_ && _); injection Hr as <- <-;
      (split_and!; [done | unfold items; cbn; lia |]; intros _ _; by repeat split).
Qed.
End Handlers.

Section SignatureHandlers.
Context `{Crypto} `{!CryptoLaws} `{MapOrder} (cfg : Config).

(** Signature checks touch the cache only. *)
Lemma verify_cached_triple check h sig pk :
  etriple 0 (verify_cached check h sig pk) (fun _ => True).
Proof.
  intros vm [] o vm' Hr. unfold verify_cached in Hr.
  destruct (sigCache vm); [destruct (Exists _ _ _ _); [| destruct check] |];
    injection Hr as <- <-;
    (split_and!; [done | unfold items; cbn; lia |]; intros _ _; by repeat split).
Qed.
#[local] Hint Resolve verify_cached_triple : triples.

Lemma base_Verify_triple b : etriple 0 (baseSigVerifier_Verify cfg b) (fun _ => True).
Proof. unfold baseSigVerifier_Verify, base_verifySig. tri. Qed.

Lemma segwit_Verify_triple b : etriple 0 (baseSegwitSigVerifier_Verify cfg b) (fun _ => True).
Proof. unfold baseSegwitSigVerifier_Verify, base_verifySig. tri. Qed.

Lemma taproot_Verify_triple t opts : etriple 0 (taproot_Verify cfg t opts) (fun _ => True).
Proof. unfold taproot_Verify, taproot_verifySig. tri. Qed.
#[local] Hint Resolve base_Verify_triple segwit_Verify_triple taproot_Verify_triple : triples.

Lemma tapscript_Verify_triple v ctx :
  etriple 0 (baseTapscriptSigVerifier_Verify cfg v ctx) (fun _ => True).
Proof. unfold baseTapscriptSigVerifier_Verify. tri. Qed.

Lemma finish_triple full r : etriple 1 (finish_checksig cfg full r) (fun _ => True).
Proof. unfold finish_checksig. cbn zeta. tri. Qed.
#[local] Hint Resolve tapscript_Verify_triple finish_triple : triples.

Lemma with_verifier_triple v k :
  (forall b, etriple 1 (k b) (fun _ => True)) -> etriple 1 (with_verifier v k) (fun _ => True).
Proof. intros Hk. unfold with_verifier. destruct v; [apply Hk | tri | tri_leaf]. Qed.

Lemma CheckSig_triple op data : etriple 1 (opcodeCheckSig cfg op data) (fun _ => True).
Proof.
  unfold opcodeCheckSig. do 3 tri_step. tri_step; [tri_leaf |].
  tri_step; [apply with_verifier_triple; intros b; tri |].
  tri_step; [apply with_verifier_triple; intros b; tri |].
  tri_step; [| tri_leaf].
  eapply (triple_bind _ _ _ 0); [tri | intros [] _ | lia].
  tri.
Qed.

Lemma CheckSigAdd_triple op data : etriple 1 (opcodeCheckSigAdd cfg op data) (fun _ => True).
Proof.
  unfold opcodeCheckSigAdd. do 5 tri_step.
  eapply (triple_bind _ _ _ 0); [tri | intros [] _ | lia]. tri.
Qed.

Lemma pop_n_triple n : etriple 0 (pop_n n) (fun _ => True).
Proof.
  induction n as [|n IH]; cbn [pop_n]; [tri_leaf |]. tri.
Qed.

Lemma try_pair_triple script si pk : etriple 0 (try_pair cfg script si pk) (fun _ => True).
Proof.
  unfold try_pair. cbn zeta. tri_step; [tri_leaf |]. tri_step.
  eapply (triple_bind _ _ _ 0 0 _ _ (fun _ => True)); [tri | intros p _ | lia].
  tri_step; [| tri_leaf]. do 2 tri_step. tri_step; [| tri_leaf].
  eapply (triple_bind _ _ _ 0 _ _ _ (fun _ => True)); [tri | intros h _ | lia]. tri.
Qed.

Lemma multisig_loop_triple fuel : forall script pks sigs a b c d,
  etriple 0 (multisig_loop cfg fuel script pks sigs a b c d) (fun _ => True).
Proof.
  pose proof try_pair_triple.
  induction fuel as [|fuel IH]; intros; cbn [multisig_loop]; tri.
Qed.

(** Counting operations: the limit is checked before anything else happens. *)
Lemma count_ops_triple {A} n c (k : SM Engine A) Q :
  0 <= n -> etriple n k Q ->
  etriple n (modify (fun vm => set_numOps (numOps vm + c) vm);; vm <- get;;
             guard (numOps vm >? MaxOpsPerScript) (scriptError ErrTooManyOperations);; k) Q.
Proof.
  intros Hn0 Hk vm [Hd Ha Hn] o vm' Hr. unfold modify, bind, get, guard in Hr.
  cbn [numOps set_numOps] in Hr. destruct (_ >? _) eqn:Hg; cbn in Hr.
  - injection Hr as <- <-. split_and!; [done | unfold items; cbn; lia | done].
  - eapply Hk in Hr; [done |]. split; cbn; [done | done | lia].
Qed.

Lemma CheckMultiSig_triple op data : etriple 1 (opcodeCheckMultiSig cfg op data) (fun _ => True).
Proof.
  pose proof pop_n_triple as Hp. pose proof multisig_loop_triple as Hm.
  unfold opcodeCheckMultiSig. cbn zeta. do 5 tri_step. apply count_ops_triple; [lia |]. tri.
Qed.
#[local] Hint Resolve CheckSig_triple CheckSigAdd_triple CheckMultiSig_triple : triples.

Lemma arith_triple :
  (forall f, etriple 1 (unary f) (fun _ => True)) /\ (forall f, etriple 1 (binary f) (fun _ => True)).
Proof. split; intros f; unfold unary, binary; tri. Qed.

Lemma equal_triple op data : etriple 1 (opcodeEqual op data) (fun _ => True).
Proof. unfold opcodeEqual. tri. Qed.

(** Every handler, started with data of at most 520 bytes. *)
Lemma run_opfunc_triple op data :
  small data -> etriple 3 (run_opfunc cfg op data) (fun _ => True).
Proof.
  intros Hd. destruct (flow_triple cfg op data) as (Hif & Hnotif & Helse & Hendif).
  pose proof (verify_triple op). pose proof (fun b => hashes_small b) as Hh.
  pose proof (cltv_triple cfg op data). pose proof (csv_triple cfg op data).
  pose proof (codesep_triple cfg op data).
  destruct arith_triple as [Hu Hb]. pose proof (equal_triple op data).
  unfold run_opfunc. destruct (op_func op).
  all: try (unfold opcodeRipemd160, opcodeSha1, opcodeSha256, opcodeHash160, opcodeHash256;
    eapply triple_weaken; [apply hash_triple; intros b; apply Hh | lia | done]).
  all: unfold opcodeDisabled, opcodeReserved, opcodeInvalid, opcodeFalse, opcodePushData,
    opcode1Negate, opcodeN, opcodeNop, opcodeVerify, opcodeReturn, opcodeToAltStack,
    opcodeFromAltStack, opcode2Drop, opcode2Dup, opcode3Dup, opcode2Over, opcode2Rot, opcode2Swap,
    opcodeDrop, opcodeDup, opcodeNip, opcodeOver, opcodeRot, opcodeSwap, opcodeTuck, opcodePick,
    opcodeRoll, opcodeIfDup, opcodeDepth, opcodeSize, opcodeEqualVerify, opcodeNumEqualVerify,
    opcodeCheckSigVerify, opcodeCheckMultiSigVerify, opcode1Add, opcode1Sub, opcodeNegate,
    opcodeAbs, opcodeNot, opcode0NotEqual, opcodeAdd, opcodeSub, opcodeBoolAnd, opcodeBoolOr,
    opcodeNumEqual, opcodeNumNotEqual, opcodeLessThan, opcodeGreaterThan, opcodeLessThanOrEqual,
    opcodeGreaterThanOrEqual, opcodeMin, opcodeMax, opcodeWithin; tri.
Qed.
End SignatureHandlers.

Section Execute.
Context `{Crypto} `{!CryptoLaws} `{MapOrder} (cfg : Config).

(** The operation count and the size of pushed data. *)
Lemma count_or_size_triple {B} n op data (k : unit -> SM Engine B) Q :
  0 <= n -> (op_value op > OP_16 -> data = []) ->
  (small data -> etriple n (k tt) Q) ->
  etriple n (vm <- get;;
    bind (if negb (is_some (taprootCtx vm)) && (op_value op >? OP_16) then
            put (set_numOps (numOps vm + 1) vm);;
            guard (numOps vm + 1 >? MaxOpsPerScript) (scriptError ErrTooManyOperations)
          else guard (zlen data >? MaxScriptElementSize) (scriptError ErrElementTooBig)) k) Q.
Proof.
  intros Hn Hdata Hk vm [Hd Ha Hops] o vm' Hr. unfold bind, get, put in Hr.
  destruct (negb _ && _) eqn:Hc; unfold guard in Hr.
  - apply andb_true_iff in Hc as [_ Hc].
    destruct (_ >? MaxOpsPerScript) eqn:Hg; cbn in Hr.
    + injection Hr as <- <-. split_and!; [done | unfold items; cbn; lia | done].
    + rewrite Hdata in Hk by lia. eapply (Hk small_nil) in Hr; [done |].
      split; cbn; [done | done | lia].
  - destruct (zlen data >? _) eqn:Hg; cbn in Hr.
    + injection Hr as <- <-. split_and!; [done | lia | done].
    + eapply Hk in Hr; [done | unfold small; lia | done].
Qed.

Lemma executeOpcode_triple op data :
  (op_value op > OP_16 -> data = []) -> etriple 3 (executeOpcode cfg op data) (fun _ => True).
Proof.
  intros Hdata. unfold executeOpcode. do 2 tri_step.
  apply count_or_size_triple; [lia | done |]. intros Hsmall. tri_step. tri_step; [tri_leaf |].
  eapply (triple_bind _ _ _ 0 _ _ _ (fun _ => True)); [tri | intros [] _ | lia].
  eapply triple_weaken; [by apply run_opfunc_triple | lia | done].
Qed.
End Execute.

(** * The tokenizer moves on *)

Lemma opcode_shape b :
  op_length (opcode_of b) = 1 \/
  (op_value (opcode_of b) <= OP_PUSHDATA4 /\ -4 <= op_length (opcode_of b) <= 76 /\
   op_length (opcode_of b) <> 0).
Proof. destruct b; vm_compute; first [by left | right; by split_and!]. Qed.

(** The rest of the current script. *)
Definition unread (t : ScriptTokenizer) : Z := zlen (t_script t) - t_offset t.

Definition tok_ok (t : ScriptTokenizer) : Prop :=
  zlen (t_script t) < 2 ^ 31 /\ 0 <= t_offset t <= zlen (t_script t).

Lemma tok_advance_progress t n op data :
  tok_ok t -> 1 <= n <= unread t ->
  tok_ok (tok_advance t n op data) /\ unread (tok_advance t n op data) < unread t.
Proof.
  unfold tok_ok, unread, tok_advance. cbn. intros [Hs Ho] Hn. rewrite int32_small by lia. lia.
Qed.

Lemma Next_progress t t' :
  tok_ok t -> Next t = (Ok true, t') ->
  tok_ok t' /\ unread t' < unread t /\
  exists op, t_op t' = Some op /\ (op_value op > OP_16 -> t_data t' = []).
Proof.
  intros Ht. pose proof Ht as [Hs Ho]. unfold Next. destruct (Done t) eqn:Hdone; [done |].
  apply orb_false_iff in Hdone as [_ Hoff]. rewrite int32_small in Hoff by lia.
  destruct (index _ _) as [b|e|] eqn:Hb; [| done ..]. cbn zeta.
  assert (unread t >= 1) by (unfold unread; lia).
  destruct (opcode_shape b) as [Hl|(Hv & Hr & Hz)].
  { rewrite Hl. cbn [Z.eqb Pos.eqb]. intros [= <-].
    destruct (tok_advance_progress t 1 (opcode_of b) [] Ht) as [??]; [lia |]. by eauto 10. }
  destruct (Z.eqb_spec (op_length (opcode_of b)) 1);
    [| destruct (Z.gtb_spec (op_length (opcode_of b)) 1); [| ztest]].
  - intros [= <-]. destruct (tok_advance_progress t 1 (opcode_of b) [] Ht) as [??]; [lia |]. by eauto 10.
  - destruct (Z.ltb_spec (zlen (zdrop (t_offset t) (t_script t))) (op_length (opcode_of b))) as [|Hlen]; [done |].
    intros [= <-]. rewrite zlen_zdrop in Hlen by lia.
    destruct (tok_advance_progress t (op_length (opcode_of b)) (opcode_of b)
      (zdrop 1 (ztake (op_length (opcode_of b)) (zdrop (t_offset t) (t_script t)))) Ht) as [??];
      [unfold unread; lia |].
    split_and!; [done | done |]. eexists. split; [done |]. unfold OP_16, OP_PUSHDATA4 in *. lia.
  - set (script := zdrop (t_offset t + 1) (t_script t)).
    assert (zlen script = unread t - 1) as Hsc by (unfold script, unread; rewrite zlen_zdrop; lia).
    destruct (Z.ltb_spec (zlen script) (- op_length (opcode_of b))) as [|Hlen]; [done |].
    destruct (pushdata_len _ _) as [dl|]; [| done].
    destruct ((dl >? _) || (dl <? 0)) eqn:Hdl; [done |]. intros [= <-].
    apply orb_false_iff in Hdl as [Hd1 Hd2].
    rewrite zlen_zdrop, int32_small in Hd1 by (unfold unread in *; lia).
    destruct (tok_advance_progress t (1 + - op_length (opcode_of b) + dl) (opcode_of b)
      (ztake dl (zdrop (- op_length (opcode_of b)) script)) Ht) as [??]; [lia |].
    split_and!; [done | done |]. eexists. split; [done |]. unfold OP_16, OP_PUSHDATA4 in *. lia.
Qed.

(** * Replacing the stack *)

Lemma stack_St s : s = St (reverse (stk s)) (verifyMinimalData s).
Proof. destruct s as [l f]. unfold St. cbn [stk verifyMinimalData]. by rewrite reverse_involutive. Qed.

Lemma getStack_stk s : zlen (stk s) < 2 ^ 31 -> getStack s = stk s.
Proof.
  intros Hs. rewrite (stack_St s), getStack_St by (unfold fits; by rewrite zlen_reverse). done.
Qed.

Lemma SetStack_run data vm :
  zlen (stk (dstack vm)) < 2 ^ 31 ->
  SetStack data vm = (Ok tt, set_dstack (mkStack data (verifyMinimalData (dstack vm))) vm).
Proof.
  intros Hs. unfold SetStack, on_dstack, zoom. rewrite (stack_St (dstack vm)) at 1.
  rewrite setStack_St by (unfold fits; by rewrite zlen_reverse). unfold St.
  by rewrite reverse_involutive.
Qed.

Lemma drop_astack_run vm :
  zlen (stk (astack vm)) < 2 ^ 31 ->
  ignore_err (on_astack (fun s => DropN (Depth s) s)) vm =
  (Ok tt, set_astack (mkStack [] (verifyMinimalData (astack vm))) vm).
Proof.
  intros Hs. assert (fits (reverse (stk (astack vm)))) as Hf by (unfold fits; by rewrite zlen_reverse).
  pose proof (DropN_all _ (verifyMinimalData (astack vm)) Hf) as Hd.
  unfold ignore_err, on_astack, zoom in *. rewrite (stack_St (astack vm)), Depth_St by done.
  destruct (DropN _ _) as [[] s'] eqn:Hr; simplify_eq/=; by rewrite ?Hr.
Qed.

(** * Witness programs *)

Section WitnessPrograms.
Context `{Crypto} `{!CryptoLaws} `{MapOrder} (cfg : Config).

Definition script_fits (s : bytes) : Prop := zlen s < 2 ^ 31.

(** At most one script is appended and the stack is kept or replaced by
    witness items. *)
Record placed (n : Z) (vm vm' : Engine) : Prop := {
  pl_same : (scriptIdx vm', tokenizer vm', savedFirstStack vm', numOps vm', astack vm') =
            (scriptIdx vm, tokenizer vm, savedFirstStack vm, numOps vm, astack vm);
  pl_scripts : scripts vm' = scripts vm \/
               exists s, scripts vm' = scripts vm ++ [s] /\ script_fits s;
  pl_stack : stk (dstack vm') = stk (dstack vm) \/ zlen (stk (dstack vm')) <= n;
}.

Lemma placed_refl n vm : placed n vm vm.
Proof. split; auto. Qed.

Definition same_program (vm vm' : Engine) : Prop :=
  (witnessVersion vm', witnessProgram vm') = (witnessVersion vm, witnessProgram vm).

Lemma zlen_but_last {A} (l : list A) : zlen (but_last l) <= zlen l.
Proof. unfold but_last, ztake, zlen. rewrite length_take. lia. Qed.

Lemma last_or_panic_In {A} (l : list A) x : last_or_panic l = Ok x -> x ∈ l.
Proof.
  unfold last_or_panic. destruct (last l) eqn:Hl; [| done]. intros [= <-].
  by apply last_Some_elem_of.
Qed.

Lemma check_err_inv (o : res (option Error)) vm u vm' :
  check_err o vm = (Ok u, vm') -> vm' = vm /\ o = Ok None.
Proof.
  unfold check_err. intros Hr. run_inv. destruct x; [done |]. run_inv. by subst.
Qed.

Ltac step_inv :=
  repeat (run_inv; match goal with
    | H : check_err _ _ = (Ok _, _) |- _ => apply check_err_inv in H as [-> ?]
    | H : append_script _ _ = (Ok _, _) |- _ => unfold append_script in H
    | H : SetStack _ _ = (Ok _, _) |- _ => rewrite SetStack_run in H by assumption; injection H as ?
    end); run_inv.

Lemma verify_v0_placed program w vm vm' :
  zlen (stk (dstack vm)) < 2 ^ 31 ->
  verify_v0 cfg program w vm = (Ok tt, vm') -> placed (zlen w) vm vm' /\ same_program vm vm'.
Proof.
  intros Hd Hr. unfold verify_v0 in Hr. destruct (Z.eqb_spec (zlen program) payToWitnessPubKeyHashDataSize) as [Hp|].
  - rewrite p2pkh_script in Hr by exact Hp. step_inv. subst. split; [| done]. split; [done | right | by right].
    eexists. split; [done |]. unfold script_fits. autorewrite with zlen.
    change (zlen program = 20) in Hp. lia.
  - destruct (zlen program =? _); [| done]. step_inv. subst. split; [| done]. split; [done | right |].
    + eexists. split; [done |]. unfold script_fits, MaxScriptSize in *. lia.
    + right. apply zlen_but_last.
Qed.

Lemma on_tapctx_modify f vm u vm' :
  on_tapctx (modify f) vm = (Ok u, vm') -> exists c, vm' = set_taprootCtx c vm.
Proof.
  unfold on_tapctx, modify. destruct (taprootCtx vm); [| done]. intros [= _ <-]. eauto.
Qed.

(** A key spend touches nothing but the signature cache. *)
Abbreviation ctriple m :=
  (triple (fun _ => True) (set_sigCache None) (fun _ => 0) 0 m (fun _ => True)).

Lemma verify_cached_frame check h sig pk : ctriple (verify_cached check h sig pk).
Proof.
  intros vm _ o vm' Hr. unfold verify_cached in Hr.
  destruct (sigCache vm); [destruct (Exists _ _ _ _); [| destruct check] |];
    by injection Hr as <- <-.
Qed.
#[local] Hint Resolve verify_cached_frame : triples.

Lemma taproot_Verify_frame t opts : ctriple (taproot_Verify cfg t opts).
Proof. unfold taproot_Verify, taproot_verifySig. tri. Qed.

Lemma KeySpend_frame program sig : ctriple (VerifyTaprootKeySpend cfg program sig).
Proof.
  pose proof taproot_Verify_frame. unfold VerifyTaprootKeySpend, taprootSigVerifier_Verify. tri.
Qed.

Lemma KeySpend_inv program sig vm u vm' :
  VerifyTaprootKeySpend cfg program sig vm = (Ok u, vm') ->
  exists c, vm' = set_sigCache c vm.
Proof.
  intros Hr. destruct (KeySpend_frame program sig vm I _ _ Hr) as [Hf _].
  exists (sigCache vm'). destruct vm, vm'. unfold set_sigCache in *. cbn in *. congruence.
Qed.

Lemma index_In {A} (l : list A) i x : index l i = @Ok Error _ x -> x ∈ l.
Proof.
  unfold index, znth. case_decide; [| done]. destruct (l !! _) eqn:Hl; [| done].
  intros [= <-]. by eapply list_elem_of_lookup_2.
Qed.

Lemma existsb_Forall l :
  existsb (fun e => zlen e >? MaxScriptElementSize) l = false -> all_small l.
Proof.
  induction l as [|x l IH]; cbn [existsb]; [constructor |].
  intros [Hx Hl]%orb_false_iff. constructor; [unfold small; lia | by apply IH].
Qed.

Lemma strip_annex_inv w vm w' vm' :
  (if isAnnexedWitness w then a <- lift (extractAnnex w);; set_annex a;; ret (but_last w)
   else ret w) vm = (Ok w', vm') ->
  (exists c, vm' = set_taprootCtx c vm) /\ zlen w' <= zlen w /\ (forall x, x ∈ w' -> x ∈ w).
Proof.
  intros Hr. destruct (isAnnexedWitness w); run_inv.
  - match goal with Ha : set_annex _ _ = _ |- _ => apply on_tapctx_modify in Ha as [c ->] end.
    split_and!; [eauto | apply zlen_but_last |]. intros y Hy. unfold but_last, ztake in Hy. by apply elem_of_take in Hy as (? & ? & _); eapply list_elem_of_lookup_2.
  - split_and!; [| lia | done]. exists (taprootCtx vm'). by destruct vm'.
Qed.

(** The part of a state a witness program builds on. *)
Lemma placed_from n vm0 vm vm' :
  (scripts vm0, scriptIdx vm0, tokenizer vm0, savedFirstStack vm0, numOps vm0, astack vm0, dstack vm0) =
  (scripts vm, scriptIdx vm, tokenizer vm, savedFirstStack vm, numOps vm, astack vm, dstack vm) ->
  placed n vm0 vm' -> placed n vm vm'.
Proof. intros Heq [Hs Hc Hk]. destruct vm0, vm. cbn in *. simplify_eq. by split. Qed.

Ltac tap_inv :=
  repeat match goal with
  | Ha : VerifyTaprootKeySpend _ _ _ _ = _ |- _ => apply KeySpend_inv in Ha as [? ->]
  | Ha : set_mustSucceed _ = _ |- _ => apply on_tapctx_modify in Ha as [? ->]
  | Ha : set_tapLeafHash _ _ = _ |- _ => apply on_tapctx_modify in Ha as [? ->]
  end.

Lemma verify_taproot_placed program w vm b vm' :
  zlen (stk (dstack vm)) < 2 ^ 31 -> Forall script_fits w ->
  verify_taproot cfg program w vm = (Ok b, vm') ->
  placed (zlen w) vm vm' /\ same_program vm vm' /\ (b = true -> dstack vm' = dstack vm).
Proof.
  intros Hd Hw Hr. unfold verify_taproot in Hr. destruct (negb _); [run_inv; split; [apply placed_refl | done] |].
  run_inv. match goal with Ha : context [isAnnexedWitness] |- _ =>
    apply strip_annex_inv in Ha as ([c ->] & Hlen & Hin) end.
  match type of Hr with context [zlen ?x =? 1] => rename x into w' end.
  destruct (zlen w' =? 1).
  { run_inv. tap_inv. split; [| done]. eapply placed_from; [| apply placed_refl]. done. }
  run_inv. match type of Hr with context [if ?x then _ else _] => destruct x end.
  { run_inv. tap_inv. split; [| done]. eapply placed_from; [| apply placed_refl]. done. }
  destruct (negb _).
  { run_inv. tap_inv. split; [| done]. eapply placed_from; [| apply placed_refl]. done. }
  apply bind_inv_Ok in Hr as (u & vm1 & Hc & Hr). apply check_err_inv in Hc as [-> Hc].
  run_inv. tap_inv. unfold append_script in *. run_inv.
  rewrite SetStack_run in * by assumption. simplify_eq.
  split; [| done]. split; [done | right | right].
  - eexists. split; [done |].
    match goal with Ha : index w' _ = Ok ?s |- _ => apply index_In in Ha end.
    eapply Forall_forall; [exact Hw | auto].
  - cbn. etrans; [apply zlen_but_last |]. etrans; [apply zlen_but_last | done].
Qed.

Lemma verifyWitnessProgram_placed w vm vm' :
  zlen (stk (dstack vm)) < 2 ^ 31 -> zlen w < 2 ^ 31 -> Forall script_fits w ->
  all_small (stk (dstack vm)) -> verifyWitnessProgram cfg w vm = (Ok tt, vm') ->
  placed (zlen w) vm vm' /\ all_small (stk (dstack vm')).
Proof.
  intros Hd Hw Hws Hsm Hr. unfold verifyWitnessProgram in Hr.
  apply bind_inv_Ok in Hr as (vm0 & vm1 & [= -> ->] & Hr). cbv zeta in Hr.
  apply bind_inv_Ok in Hr as (fin & vm2 & Hfin & Hr).
  assert (placed (zlen w) vm1 vm2 /\
          (stk (dstack vm2) = stk (dstack vm1) \/
           fin = false /\ (isWitnessVersionActive TaprootWitnessVersion vm2 ||
                           isWitnessVersionActive BaseSegwitWitnessVersion vm2) = true)) as [Hpl Hst].
  { destruct (isWitnessVersionActive BaseSegwitWitnessVersion vm1) eqn:Hv0.
    - run_inv. destruct x. match goal with Ha : verify_v0 _ _ _ _ = _ |- _ =>
        apply verify_v0_placed in Ha as [? Hsame]; [| done] end.
      split; [done | right]. split; [done |]. injection Hsame as Hs1 Hs2.
      unfold isWitnessVersionActive in *. by rewrite Hs1, Hs2, Hv0, orb_true_r.
    - destruct (isWitnessVersionActive TaprootWitnessVersion vm1 && _ && _) eqn:Hv1.
      + apply andb_true_iff in Hv1 as [Hv1%andb_true_iff _]. destruct Hv1 as [Hv1 _].
        apply verify_taproot_placed in Hfin as (? & Hsame & Hb); [| done ..].
        split; [done |]. destruct fin; [left; by rewrite Hb | right]. split; [done |].
        injection Hsame as Hs1 Hs2. unfold isWitnessVersionActive in *. by rewrite Hs1, Hs2, Hv1.
      + destruct (hasFlag _ _); [done |]. run_inv. split; [| by left].
        eapply placed_from; [| apply placed_refl]. done. }
  destruct fin; [| apply bind_inv_Ok in Hr as (vm3 & vm4 & [= -> ->] & Hr)].
  { run_inv. split; [done |]. destruct Hst as [-> | [[=] _]]. done. }
  assert (zlen (stk (dstack vm4)) < 2 ^ 31) as Hd2 by (destruct (pl_stack _ _ _ Hpl) as [->|?]; lia).
  destruct (isWitnessVersionActive TaprootWitnessVersion vm4 || _); run_inv.
  - split; [done |]. unfold GetStack in *. rewrite getStack_stk in * by done.
    match goal with Ha : existsb _ _ = false |- _ => apply existsb_Forall in Ha end.
    done.
  - split; [done |]. destruct Hst as [-> | [_ [=]]]. done.
Qed.
End WitnessPrograms.

(** * Stepping *)

Section Stepping.
Context `{Crypto} `{!CryptoLaws} `{MapOrder} (cfg : Config).

(** The witness of the input, whose items may become the stack and whose
    last items may become scripts. *)
Definition witness_of : list bytes :=
  match znth (TxIns (tx cfg)) (txIdx cfg) with Some i => Witness i | None => [] end.

Definition max_items : Z := Z.max MaxStackSize (zlen witness_of).

Record vm_inv (vm : Engine) : Prop := {
  inv_ok : vm_ok vm;
  inv_items : items vm <= max_items;
  inv_saved : all_small (savedFirstStack vm) /\ zlen (savedFirstStack vm) <= max_items;
  inv_scripts : Forall script_fits (scripts vm);
  inv_tok : tok_ok (tokenizer vm);
  inv_idx : 0 <= scriptIdx vm;
}.

(** Bounds on the scripts still to come: those already there, and those that
    the ends of the scripts 1 and 2 may append. *)
Definition phase (vm : Engine) : Z :=
  zlen (scripts vm) - scriptIdx vm + Z.max 0 (3 - scriptIdx vm).

Hypothesis witness_count : zlen witness_of < 2 ^ 31 - 4.
Hypothesis witness_fits : Forall script_fits witness_of.

Lemma max_items_fits : max_items < 2 ^ 31 - 4.
Proof. unfold max_items, MaxStackSize. lia. Qed.

Lemma items_parts vm :
  items vm <= max_items + 3 ->
  zlen (stk (dstack vm)) < 2 ^ 31 /\ zlen (stk (astack vm)) < 2 ^ 31.
Proof.
  unfold items. pose proof max_items_fits. pose proof (zlen_nonneg (stk (dstack vm))).
  pose proof (zlen_nonneg (stk (astack vm))). lia.
Qed.

Lemma CheckErrorCondition_triple b : etriple 0 (CheckErrorCondition cfg b) (fun _ => True).
Proof. unfold CheckErrorCondition. cbn zeta. tri. Qed.

Lemma small_fits s : small s -> script_fits s.
Proof. unfold small, script_fits, MaxScriptElementSize. lia. Qed.

Lemma all_small_but_last l : all_small l -> all_small (but_last l).
Proof. apply Forall_take. Qed.

(** What the end of a script leaves behind. *)
Definition advanced (vm vm' : Engine) : Prop :=
  vm_inv vm' /\ phase vm' < phase vm /\ tokenizer vm' = tokenizer vm.

Lemma phase_append vm vm' s :
  0 <= scriptIdx vm <= 2 -> scriptIdx vm' = scriptIdx vm + 1 ->
  scripts vm' = scripts vm ++ [s] \/ scripts vm' = scripts vm -> phase vm' < phase vm.
Proof.
  intros Hx Hx' Hs. unfold phase. rewrite Hx'.
  destruct Hs as [-> | ->]; rewrite ?zlen_app, ?zlen_cons, ?zlen_nil; lia.
Qed.

Lemma advance_save vm u vm' :
  vm_inv vm ->
  (next_script;; modify (fun vm => set_savedFirstStack (GetStack vm) vm)) vm = (Ok u, vm') ->
  advanced vm vm'.
Proof.
  intros [[Hd Ha Hn] Hi Hs Hsc Ht Hx] Hr. pose proof (items_parts vm ltac:(lia)) as [Hld Hla].
  unfold next_script in Hr. run_inv. unfold GetStack. cbn [dstack set_scriptIdx].
  rewrite getStack_stk by done. unfold advanced, phase. cbn. split_and!; [| lia | done].
  split; cbn; [done | done | | done | done | lia]. split; [done |].
  unfold items in Hi. pose proof (zlen_nonneg (stk (astack vm))). lia.
Qed.

Lemma CheckErrorCondition_astack b :
  triple (fun _ => True) astack (fun _ => 0) 0 (CheckErrorCondition cfg b) (fun _ => True).
Proof.
  assert (triple (fun _ => True) astack (fun _ => 0) 0 dPopBool (fun _ => True)) as Hp.
  { intros vm _ o vm' Hr. unfold dPopBool, on_dstack, zoom in Hr.
    destruct (PopBool (dstack vm)). by injection Hr as <- <-. }
  unfold CheckErrorCondition. cbn zeta. tri.
Qed.

Lemma advance_p2sh vm u vm' :
  vm_inv vm -> scriptIdx vm = 1 -> stk (astack vm) = [] ->
  (next_script;;
   CheckErrorCondition cfg false;;
   vm <- get;;
   script <- lift (last_or_panic (savedFirstStack vm));;
   check_err (checkScriptParses (version cfg) script);;
   append_script script;;
   SetStack (but_last (savedFirstStack vm))) vm = (Ok u, vm') ->
  advanced vm vm'.
Proof.
  intros [[Hd Ha Hn] Hi [Hs1 Hs2] Hsc Ht Hx] Hidx Hast Hr.
  unfold next_script in Hr. apply bind_inv_Ok in Hr as ([] & vm1 & [= <-] & Hr).
  apply bind_inv_Ok in Hr as ([] & vm2 & Hc & Hr).
  assert (vm_ok (set_scriptIdx (scriptIdx vm + 1) vm)) as Hok1 by done.
  destruct (CheckErrorCondition_triple false _ Hok1 _ _ Hc) as (Hf & Hz & Hok).
  destruct (CheckErrorCondition_astack false _ I _ _ Hc) as (Hfa & _).
  destruct (Hok tt eq_refl) as [[Hd2 Ha2 Hn2] _]. injection Hf as F1 F2 F3 F4 F5 F6 F7 F8.
  change (items vm2 <= items vm + 0) in Hz.
  pose proof (items_parts vm2 ltac:(lia)) as [Hld Hla].
  apply bind_inv_Ok in Hr as (vm3 & vm4 & [= -> ->] & Hr). run_inv.
  match goal with Hp : check_err _ _ = _ |- _ => apply check_err_inv in Hp as [-> _] end.
  match goal with Hl : last_or_panic _ = Ok ?x |- _ => apply last_or_panic_In in Hl; rename x into scr end.
  unfold append_script in *. run_inv. rewrite SetStack_run in Hr by done. ok_inv Hr.
  rewrite F5 in *. unfold advanced.
  split_and!; [| eapply phase_append; cbn; [lia | lia | left; by f_equal] | done].
  pose proof (zlen_but_last (savedFirstStack vm)).
  split; cbn; [by split; [apply all_small_but_last | |] | | | | congruence | lia].
  - unfold items; cbn. rewrite Hfa; cbn. rewrite Hast, zlen_nil. lia.
  - rewrite F5. auto.
  - rewrite F1. apply Forall_app. split; [done |]. repeat constructor.
    apply small_fits. by eapply Forall_forall in Hs1.
Qed.

Lemma advance_witness vm vm' :
  vm_inv vm -> 0 <= scriptIdx vm <= 2 -> stk (astack vm) = [] ->
  (next_script;;
   input <- lift (index (TxIns (tx cfg)) (txIdx cfg));;
   verifyWitnessProgram cfg (Witness input)) vm = (Ok tt, vm') ->
  advanced vm vm'.
Proof.
  intros [[Hd Ha Hn] Hi [Hs1 Hs2] Hsc Ht Hx] Hidx Hast Hr. pose proof max_items_fits.
  pose proof (items_parts vm ltac:(lia)) as [Hld Hla].
  unfold next_script in Hr. run_inv.
  match type of Hr with context [Witness ?i] => assert (Witness i = witness_of) as Hwit end.
  { unfold witness_of. match goal with Hin : index _ _ = Ok _ |- _ => unfold index in Hin; revert Hin end.
    destruct (znth _ _); [by intros [= ->] | done]. }
  rewrite Hwit in Hr. pose proof (zlen_nonneg witness_of).
  apply verifyWitnessProgram_placed in Hr as [[Hsame Hscr Hstk] Hsm]; [| done || lia ..].
  injection Hsame as F1 F2 F3 F4 F5. unfold advanced. cbn in *.
  split_and!; [| | done].
  - split; [by split; [| rewrite F5 | lia] | | by rewrite F3 | | by rewrite F2 | lia].
    + unfold items in *. rewrite F5, Hast, zlen_nil in *.
      destruct Hstk as [-> |?]; unfold max_items in *; lia.
    + destruct Hscr as [-> | (s & -> & Hs)]; [done |]. apply Forall_app. by repeat constructor.
  - destruct Hscr as [Hscr | (s & Hscr & Hs)];
      [apply (phase_append _ _ []) | eapply phase_append]; try done; eauto.
Qed.

Lemma advance_script_inv vm vm' :
  vm_inv vm -> stk (astack vm) = [] -> advance_script cfg vm = (Ok tt, vm') -> advanced vm vm'.
Proof.
  intros Hinv Hast Hr. unfold advance_script in Hr.
  apply bind_inv_Ok in Hr as (vm0 & vm1 & [= -> ->] & Hr). pose proof (inv_idx _ Hinv).
  destruct ((scriptIdx vm1 =? 0) && bip16 cfg) eqn:Hc0; [by apply advance_save in Hr |].
  destruct ((scriptIdx vm1 =? 1) && bip16 cfg) eqn:Hc1.
  { apply andb_true_iff in Hc1 as [Hc1%Z.eqb_eq _]. by apply advance_p2sh in Hr. }
  destruct (_ || _) eqn:Hc2; [apply advance_witness in Hr; try done; lia |].
  unfold next_script in Hr. run_inv. destruct Hinv as [Hok Hi Hs Hsc Ht Hx].
  unfold advanced, phase. cbn [scripts scriptIdx tokenizer set_scriptIdx]. split_and!; [| lia | done]. destruct Hok. split; cbn; try done; lia.
Qed.

(** Skipping an empty script, and restarting the code separator. *)
Lemma skip_inv (b : bool) vm :
  vm_inv vm ->
  let vm' := set_lastCodeSep 0 (if b then set_scriptIdx (scriptIdx vm + 1) vm else vm) in
  vm_inv vm' /\ phase vm' <= phase vm.
Proof.
  intros [[Hd Ha Hn] Hi Hs Hsc Ht Hx]. unfold phase.
  destruct b; cbn [set_lastCodeSep set_scriptIdx scripts scriptIdx]; (split; [| lia]);
    split; cbn; done || lia.
Qed.

Lemma tok_start_ok v s : script_fits s -> tok_ok (MakeScriptTokenizer v s).
Proof. unfold script_fits, tok_ok, MakeScriptTokenizer. cbn. pose proof (zlen_nonneg s). lia. Qed.

Lemma end_of_script_inv vm d vm' :
  vm_inv vm -> end_of_script cfg vm = (Ok d, vm') ->
  vm_inv vm' /\ (d = false -> phase vm' < phase vm /\ 0 <= phase vm').
Proof.
  intros [[Hd Ha Hn] Hi Hs Hsc Ht Hx] Hr. unfold end_of_script in Hr.
  pose proof (items_parts vm ltac:(lia)) as [Hld Hla].
  apply bind_inv_Ok in Hr as (vm0 & vm1 & [= -> ->] & Hr).
  apply bind_inv_Ok in Hr as ([] & vm2 & Hg & Hr). apply bind_inv_Ok in Hr as ([] & vm3 & Hda & Hr).
  run_inv. rewrite drop_astack_run in Hda by done. ok_inv Hda.
  match goal with Hadv : advance_script _ ?v1 = (Ok ?u, ?v) |- _ => destruct u; rename v into vm4;
    apply advance_script_inv in Hadv as (Hinv4 & Hph & _); [change (phase v1) with (phase vm2) in Hph | | done] end.
  2: { split; cbn; try done; [by split; cbn; [| constructor |] |].
       unfold items in *. cbn. rewrite zlen_nil. pose proof (zlen_nonneg (stk (astack vm2))). lia. }
  match type of Hr with context [set_lastCodeSep 0 (if ?c then _ else _)] =>
    destruct (skip_inv c vm4 Hinv4) as [Hinv5 Hph5];
    set (vm5 := set_lastCodeSep 0 (if c then _ else _)) in * end.
  destruct (Z.geb_spec (scriptIdx vm5) (zlen (scripts vm5))); [by run_inv |]. run_inv.
  match goal with Hs5 : index _ _ = Ok _ |- _ => apply index_In in Hs5 end.
  destruct Hinv5 as [[Hd5 Ha5 Hn5] Hi5 Hs5 Hsc5 Ht5 Hx5].
  split; [split; cbn; try done | intros _; unfold phase in *; cbn [set_tokenizer scripts scriptIdx]; lia].
  apply tok_start_ok. by eapply Forall_forall in Hsc5.
Qed.

Lemma depth_exact vm :
  items vm <= max_items + 3 -> int32 (Depth (dstack vm) + Depth (astack vm)) = items vm.
Proof.
  intros Hi. pose proof max_items_fits. pose proof (items_parts vm Hi). unfold Depth, items in *.
  pose proof (zlen_nonneg (stk (dstack vm))). pose proof (zlen_nonneg (stk (astack vm))).
  rewrite (int32_small (zlen (stk (dstack vm)))), (int32_small (zlen (stk (astack vm)))) by lia.
  apply int32_small. lia.
Qed.

(** A successful step keeps the invariant.  When the engine goes on, either
    the script position moved to a later script or the cursor moved. *)
Lemma Step_inv vm d vm' :
  vm_inv vm -> Step cfg vm = (Ok d, vm') ->
  vm_inv vm' /\
  (d = false -> (0 <= phase vm' < phase vm) \/
                (phase vm' = phase vm /\ unread (tokenizer vm') < unread (tokenizer vm))).
Proof.
  intros Hinv Hr. unfold Step in Hr.
  apply bind_inv_Ok in Hr as (vm0 & vm1 & [= -> ->] & Hr).
  apply bind_inv_Ok in Hr as ([] & vm2 & [= _ ->] & Hr).
  apply bind_inv_Ok in Hr as (more & vm3 & Hnext & Hr). unfold zoom in Hnext.
  destruct (Next (tokenizer vm2)) as [o t'] eqn:Ht. ok_inv Hnext.
  apply bind_inv_Ok in Hr as (vm4 & vm5 & [= <- <-] & Hr).
  destruct more; cbn [negb] in Hr; [| by destruct (t_err _)].
  destruct Hinv as [[Hd Ha Hn] Hi Hs Hsc Htok Hx].
  destruct (Next_progress _ _ Htok Ht) as (Htok' & Hun & op & Hop & Hdata).
  cbn [tokenizer set_tokenizer] in Hr. rewrite Hop in Hr.
  apply bind_inv_Ok in Hr as (op' & vm6 & [= <- <-] & Hr).
  apply bind_inv_Ok in Hr as ([] & vm7 & Hex & Hr).
  assert (vm_ok (set_tokenizer t' vm2)) as Hok by by split.
  destruct (executeOpcode_triple cfg op _ Hdata _ Hok _ _ Hex) as (Hf & Hz & Hok7).
  destruct (Hok7 tt eq_refl) as [[Hd7 Ha7 Hn7] _]. injection Hf as F1 F2 F3 F4 F5 F6 F7 F8.
  change (items vm7 <= items vm2 + 3) in Hz.
  apply bind_inv_Ok in Hr as (vm8 & vm9 & [= <- <-] & Hr). run_inv.
  match goal with He : executeOpcode _ _ _ _ = (_, ?v) |- _ => rename v into vm7 end.
  pose proof (depth_exact vm7 ltac:(lia)) as Hdep.
  match goal with Hg : (int32 _ >? _) = false |- _ => rewrite Hdep in Hg; rename Hg into Hlim end.
  assert (vm_inv (set_opcodeIdx (opcodeIdx vm7 + 1) vm7)) as Hinv8.
  { split; cbn; [by split | | by rewrite F5 | by rewrite F1 | done | by rewrite F2].
    unfold max_items, items in *; cbn; lia. }
  assert (phase vm7 = phase vm2) as Hph by (unfold phase; by rewrite F1, F2).
  destruct (Done _).
  - apply end_of_script_inv in Hr as [Hi' Hd']; [| done]. split; [done |]. intros Hf.
    destruct (Hd' Hf) as [Hlt Hnn]. change (phase (set_opcodeIdx _ _)) with (phase vm7) in Hlt. left. lia.
  - run_inv. split; [done |]. intros _. right. cbn [tokenizer set_opcodeIdx]. done.
Qed.
End Stepping.

(** * Runs of the engine *)

Section Runs.
Context `{Crypto} `{!CryptoLaws} `{MapOrder}.

(** One successful call of [Step], whether or not it is the last one. *)
Definition steps_to (cfg : Config) (vm vm' : Engine) : Prop :=
  exists d, Step cfg vm = (Ok d, vm').

(** What the input of a serialized transaction satisfies. *)
Definition input_witness_ok (cfg : Config) : Prop :=
  zlen (witness_of cfg) < 2 ^ 31 - 4 /\ Forall script_fits (witness_of cfg).

Lemma check_initial_fits s u : check_initial s = Ok u -> script_fits s.
Proof.
  unfold check_initial, guard_, script_fits, MaxScriptSize.
  destruct (Z.gtb_spec (zlen s) 10000); [done | lia].
Qed.

Lemma NewEngine_inv pk tx i fl sc hc amt pf cfg vm :
  NewEngine pk tx i fl sc hc amt pf = Ok (cfg, vm) -> vm_inv cfg vm.
Proof.
  unfold NewEngine. destruct (_ || _); [done |]. intros Hr.
  repeat match type of Hr with obind ?m _ = Ok _ =>
    destruct m eqn:?; cbn [obind] in Hr; [| done | done] end.
  repeat match goal with Hc : check_initial _ = Ok _ |- _ => apply check_initial_fits in Hc end.
  injection Hr as Hcfg <-. clear Hcfg.
  split; cbn; [by split; cbn; [apply Forall_nil_2 | apply Forall_nil_2 |] | | | by repeat constructor | | by destruct (_ =? _)].
  - change (0 <= max_items cfg). unfold max_items, MaxStackSize. lia.
  - split; [apply Forall_nil_2 | change (0 <= max_items cfg); unfold max_items, MaxStackSize; lia].
  - apply tok_start_ok. match goal with Hx : index [_; _] _ = Ok _ |- _ => apply index_In in Hx; rename Hx into Hi end.
    by apply list_elem_of_In in Hi as [<- | [<- | []]].
Qed.

Lemma steps_inv cfg vm vm' :
  input_witness_ok cfg -> vm_inv cfg vm -> rtc (steps_to cfg) vm vm' -> vm_inv cfg vm'.
Proof.
  intros [Hc Hf] Hvm Hr. induction Hr as [|vm1 vm2 vm3 [d Hs] _ IH]; [done |].
  apply IH. by eapply Step_inv in Hs as [? _].
Qed.

(** C1: the limits of script execution.  In every state that an engine set
    up by NewEngine reaches by successful calls of Step, no stack item (nor
    item of the stack saved for pay-to-script-hash) is longer than 520 bytes,
    at most 201 non-push operations have been counted, and the two stacks hold
    at most 1000 items together, or as many as the input's witness has.  The
    bounds on the witness keep its item count and sizes within an int32. *)
Theorem engine_limits pk tx i fl sc hc amt pf cfg vm0 vm :
  NewEngine pk tx i fl sc hc amt pf = Ok (cfg, vm0) -> input_witness_ok cfg ->
  rtc (steps_to cfg) vm0 vm ->
  Forall (fun b => zlen b <= 520)
    (stk (dstack vm) ++ stk (astack vm) ++ savedFirstStack vm) /\
  numOps vm <= 201 /\
  zlen (stk (dstack vm)) + zlen (stk (astack vm)) <= Z.max 1000 (zlen (witness_of cfg)).
Proof.
  intros Hnew Hw Hr. apply NewEngine_inv in Hnew.
  destruct (steps_inv _ _ _ Hw Hnew Hr) as [[Hd Ha Hn] Hi [Hs _] _ _ _].
  split_and!; [| done | done]. by rewrite !Forall_app.
Qed.

(** The loop of Execute ends: the script position and the cursor only move on. *)
Lemma step_loop_ends cfg : input_witness_ok cfg -> forall vm, vm_inv cfg vm ->
  exists fuel r, forall fuel', (fuel <= fuel')%nat -> step_loop cfg fuel' vm = Some r.
Proof.
  intros [Hc Hf] vm. remember (Z.to_nat (phase vm)) as p eqn:Hp. revert vm Hp.
  induction p as [p IHp] using lt_wf_ind. intros vm.
  remember (Z.to_nat (unread (tokenizer vm))) as q eqn:Hq. revert vm Hq.
  induction q as [q IHq] using lt_wf_ind. intros vm Hq Hp Hvm.
  destruct (Step cfg vm) as [[d|e|] vm'] eqn:Hs; [| exists 1%nat; eexists; intros [|fuel'] Hfu;
    [lia | cbn [step_loop]; rewrite Hs; reflexivity] ..].
  destruct (Step_inv cfg Hc Hf _ _ _ Hvm Hs) as [Hvm' Hm]. destruct d.
  { exists 1%nat. eexists. intros [|fuel'] Hfu; [lia |]. cbn [step_loop]. by rewrite Hs. }
  assert (exists fuel r, forall fuel', (fuel <= fuel')%nat -> step_loop cfg fuel' vm' = Some r)
    as (fuel & r & Hr).
  { destruct (Hm eq_refl) as [Hlt | [Heq Hun]].
    - eapply (IHp (Z.to_nat (phase vm'))); [lia | done | done].
    - eapply (IHq (Z.to_nat (unread (tokenizer vm')))); [| done | by rewrite Heq | done].
      destruct (inv_tok _ _ Hvm') as [_ ?]. unfold unread in *. lia. }
  exists (S fuel), r. intros [|fuel'] Hfu; [lia |]. cbn [step_loop]. rewrite Hs. apply Hr. lia.
Qed.

(** C12: Execute terminates: for every engine that NewEngine returns there is
    a number of steps after which its loop has ended, and the outcome no longer
    depends on the number of steps allowed. *)
Theorem execute_terminates pk tx i fl sc hc amt pf cfg vm :
  NewEngine pk tx i fl sc hc amt pf = Ok (cfg, vm) -> input_witness_ok cfg ->
  exists fuel r, forall fuel', (fuel <= fuel')%nat -> Execute cfg fuel' vm = Some r.
Proof.
  intros Hnew Hw. apply NewEngine_inv in Hnew.
  destruct (step_loop_ends cfg Hw vm Hnew) as (fuel & [o vm'] & Hr). exists fuel. unfold Execute.
  destruct (negb _); [by eexists |].
  destruct o as [u|e|]; eexists; intros fuel' Hfu; by rewrite (Hr fuel' Hfu).
Qed.
End Runs.

(** ** A run of [OP_1 OP_1] against [OP_EQUAL] *)

Definition demo_tx : MsgTx :=
  mkMsgTx 1 [mkTxIn (mkOutPoint (repeat x00 32) 0) [z2b OP_1; z2b OP_1] [] 0] [mkTxOut 0 []] 0.

Definition demo_cfg : Config :=
  mkConfig ScriptVerifyMinimalData demo_tx 0 0 false 0 None (fun _ => None).

Definition demo_vm : Engine :=
  mkEngine [[z2b OP_1; z2b OP_1]; [z2b OP_EQUAL]] 0 0 0
    (MakeScriptTokenizer 0 [z2b OP_1; z2b OP_1]) [] (mkStack [] true) (mkStack [] true) [] 0 0 None
    None None.

Lemma demo_new :
  NewEngine [z2b OP_EQUAL] demo_tx 0 ScriptVerifyMinimalData None None 0 (fun _ => None) =
  Ok (demo_cfg, demo_vm).
Proof. vm_compute. reflexivity. Qed.

Lemma demo_witness_ok : input_witness_ok demo_cfg.
Proof. split; [reflexivity | apply Forall_nil_2]. Qed.

Lemma engine_limits_witness :
  exists vm, stk (dstack vm) = [[x01]; [x01]] /\
    rtc (@steps_to toy_crypto list_order demo_cfg) demo_vm vm /\
    numOps vm <= 201 /\ zlen (stk (dstack vm)) + zlen (stk (astack vm)) <= 1000.
Proof.
  set (step := fun vm => snd (@Step toy_crypto list_order demo_cfg vm)).
  set (vm := step (step demo_vm)). exists vm.
  assert (rtc (@steps_to toy_crypto list_order demo_cfg) demo_vm vm) as Hr.
  { apply rtc_l with (step demo_vm); [exists false; vm_compute; reflexivity |].
    apply rtc_once. exists false. vm_compute. reflexivity. }
  split; [vm_compute; reflexivity | split; [exact Hr |]].
  exact (proj2 (@engine_limits toy_crypto toy_laws list_order _ _ _ _ _ _ _ _ _ _ vm demo_new
                  demo_witness_ok Hr)).
Defined.

Lemma execute_terminates_witness :
  exists fuel r, forall fuel', (fuel <= fuel')%nat ->
    @Execute toy_crypto list_order demo_cfg fuel' demo_vm = Some r.
Proof.
  exact (@execute_terminates toy_crypto toy_laws list_order _ _ _ _ _ _ _ _ _ _ demo_new
           demo_witness_ok).
Defined.
