(* ===== verification/EngineRuns.v ===== *)
(** Complete runs of the engine on the standard script forms. *)
From S2P Require Import Prelude WireCommon ScriptError ScriptNum Stack Opcodes Tokenizer MsgTx Script Crypto SigHash SigCache EngineState SigCheck OpcodeExec ScriptBuilder Engine.

Section Loop.
Context `{Crypto} `{MapOrder} (cfg : Config).

Lemma step_loop_next n vm vm' :
  Step cfg vm = (Ok false, vm') -> step_loop cfg (S n) vm = step_loop cfg n vm'.
Proof. intros Hs. cbn [step_loop]. by rewrite Hs. Qed.

Lemma step_loop_done n vm vm' :
  Step cfg vm = (Ok true, vm') -> step_loop cfg (S n) vm = Some (Ok tt, vm').
Proof. intros Hs. cbn [step_loop]. by rewrite Hs. Qed.

Lemma step_loop_panic n vm vm' :
  Step cfg vm = (Panic, vm') -> step_loop cfg (S n) vm = Some (Panic, vm').
Proof. intros Hs. cbn [step_loop]. by rewrite Hs. Qed.
Lemma step_loop_err n vm e vm' :
  Step cfg vm = (Err e, vm') -> step_loop cfg (S n) vm = Some (Err e, vm').
Proof. intros Hs. cbn [step_loop]. by rewrite Hs. Qed.

Definition room (vm : Engine) : Prop :=
  (zlen (stk (dstack vm)) <= 500) /\ (zlen (stk (astack vm)) <= 500).

Lemma room_depth vm :
  room vm -> (int32 (Depth (dstack vm) + Depth (astack vm)) >? MaxStackSize) = false.
Proof.
  intros [Hd Ha]. pose proof (zlen_nonneg (stk (dstack vm))). pose proof (zlen_nonneg (stk (astack vm))).
  unfold Depth, MaxStackSize. rewrite !int32_small; try lia; rewrite ?int32_small; lia.
Qed.

(** A step, from the run of its opcode. *)
Lemma Step_run vm t' op o vm1 :
  scriptIdx vm < zlen (scripts vm) -> Next (tokenizer vm) = (Ok true, t') -> t_op t' = Some op ->
  executeOpcode cfg op (t_data t') (set_tokenizer t' vm) = (o, vm1) ->
  room vm1 ->
  Step cfg vm =
  match o with
  | Ok _ => let vm2 := set_opcodeIdx (opcodeIdx vm1 + 1) vm1 in
            if Done (tokenizer vm2) then end_of_script cfg vm2 else (Ok false, vm2)
  | Err e => (Err e, vm1)
  | Panic => (Panic, vm1)
  end.
Proof.
  intros Hpc Hn Hop Hex Hroom. unfold Step, bind, get, lift, checkValidPC, zoom. ztest.
  rewrite Hn. cbn [negb tokenizer set_tokenizer]. rewrite Hop, Hex.
  destruct o; [| done ..]. rewrite room_depth by done. unfold guard, ret, modify.
  by destruct (Done _).
Qed.
End Loop.

(** * Handlers on a stack given top first *)

Section Symbolic.
Context `{Crypto} `{MapOrder} (cfg : Config).

Lemma dPop_St x l f vm :
  dstack vm = St (x :: l) f -> fits (x :: l) -> dPop vm = (Ok x, set_dstack (St l f) vm).
Proof.
  intros Hd Hf. unfold dPop, on_dstack, zoom, PopByteArray. rewrite Hd, nipN_St by done. done.
Qed.

Lemma dPopBool_St x l f vm :
  dstack vm = St (x :: l) f -> fits (x :: l) -> dPopBool vm = (Ok (asBool x), set_dstack (St l f) vm).
Proof.
  intros Hd Hf. unfold dPopBool, on_dstack, zoom, PopBool, PopByteArray.
  rewrite bind_eq, Hd, nipN_St by done. done.
Qed.

Lemma dPush_St x l f vm :
  dstack vm = St l f -> dPush x vm = (Ok tt, set_dstack (St (x :: l) f) vm).
Proof. intros Hd. unfold dPush, on_dstack, zoom. by rewrite Hd, PushByteArray_St. Qed.

Lemma fits_tail x l : fits (x :: l) -> fits l.
Proof. unfold fits. rewrite zlen_cons. lia. Qed.

Lemma Equal_St a b l f vm op data :
  dstack vm = St (a :: b :: l) f -> fits (a :: b :: l) ->
  opcodeEqual op data vm = (Ok tt, set_dstack (St (fromBool (bool_decide (a = b)) :: l) f) vm).
Proof.
  intros Hd Hf. unfold opcodeEqual. erewrite bind_Ok by (by apply dPop_St).
  erewrite bind_Ok by (apply dPop_St; [done | by eapply fits_tail]).
  change (dPushBool ?v) with (dPush (fromBool v)). rewrite (dPush_St _ l f) by done. done.
Qed.

(** Opcodes above OP_16 outside tapscript, in an executing branch. *)
Lemma execute_op op data vm :
  isOpcodeDisabled (op_value op) = false -> isOpcodeAlwaysIllegal (op_value op) = false ->
  taprootCtx vm = None -> op_value op > OP_16 -> numOps vm < MaxOpsPerScript -> condStack vm = [] ->
  executeOpcode cfg op data vm = run_opfunc cfg op data (set_numOps (numOps vm + 1) vm).
Proof.
  intros Hd Hi Ht Hv Hn Hc. unfold executeOpcode, bind, get, put, guard.
  rewrite Hd, Hi. cbn [ret]. rewrite Ht. cbn [is_some negb]. ztest.
  unfold ret, isBranchExecuting. cbn [condStack set_numOps]. rewrite Hc. cbn [last negb andb].
  replace (op_value op <=? OP_PUSHDATA4) with false by (unfold OP_16, OP_PUSHDATA4 in *; lia).
  by rewrite !andb_false_r.
Qed.
End Symbolic.

(** * A nested witness program of version 1 *)

(** A 32-byte redeem script that starts with OP_CHECKSIG. *)
Definition nested_redeem : bytes := z2b OP_CHECKSIG :: repeat (z2b OP_NOP) 31.

(** [OP_16 OP_1 <redeem>]: three pushes, whose last two look like a witness
    program of version 1. *)
Definition nested_sigScript : bytes :=
  z2b OP_16 :: z2b OP_1 :: z2b OP_DATA_32 :: nested_redeem.

Definition nested_tx : MsgTx :=
  mkMsgTx 1 [mkTxIn (mkOutPoint (repeat x00 32) 0) nested_sigScript [[x00]] 0] [mkTxOut 0 []] 0.

Definition all_flags : Z := 2 ^ 21 - 1.

Definition p2sh_script (h : bytes) : bytes :=
  [z2b OP_HASH160; z2b OP_DATA_20] ++ h ++ [z2b OP_EQUAL].

Definition nested_cfg (fetch : PrevOutputFetcher) : Config :=
  mkConfig all_flags nested_tx 0 0 true 0 None fetch.

Definition nested_vm (pk : bytes) : Engine :=
  mkEngine [nested_sigScript; pk] 0 0 0 (MakeScriptTokenizer 0 nested_sigScript) []
    (mkStack [] true) (mkStack [] true) [] 0 1 (Some nested_redeem) None None.

Lemma list_20 (h : bytes) : zlen h = 20 ->
  exists b0 b1 b2 b3 b4 b5 b6 b7 b8 b9 c0 c1 c2 c3 c4 c5 c6 c7 c8 c9,
  h = [b0; b1; b2; b3; b4; b5; b6; b7; b8; b9; c0; c1; c2; c3; c4; c5; c6; c7; c8; c9].
Proof.
  unfold zlen. intros Hh. do 20 (destruct h as [|? h]; [cbn in Hh; lia |]).
  destruct h; [| cbn in Hh; lia]. by repeat eexists.
Qed.

Ltac explode h Hh :=
  destruct (list_20 h Hh) as (b0 & b1 & b2 & b3 & b4 & b5 & b6 & b7 & b8 & b9 & c0 & c1 & c2 & c3 &
    c4 & c5 & c6 & c7 & c8 & c9 & ->).

Section Nested.
Context `{Crypto} `{!CryptoLaws} `{MapOrder} (fetch : PrevOutputFetcher).

Lemma nested_new h :
  zlen h = 20 ->
  NewEngine (p2sh_script h) nested_tx 0 all_flags None None 0 fetch =
  Ok (nested_cfg fetch, nested_vm (p2sh_script h)).
Proof.
  intros Hh. explode h Hh. vm_compute. reflexivity.
Qed.

Lemma nested_panics h :
  zlen h = 20 -> Hash160 nested_redeem = h ->
  exists vm', step_loop (nested_cfg fetch) 7 (nested_vm (p2sh_script h)) = Some (Panic, vm').
Proof.
  intros Hh Hr. explode h Hh.
  enough (exists o, step_loop (nested_cfg fetch) 7 (nested_vm (p2sh_script
    [b0; b1; b2; b3; b4; b5; b6; b7; b8; b9; c0; c1; c2; c3; c4; c5; c6; c7; c8; c9])) = o /\
    exists vm', o = Some (Panic, vm')) as (o & -> & Ho) by done.
  eexists. split; [do 5 (erewrite step_loop_next by (vm_compute; reflexivity)); reflexivity |].
  match goal with |- exists _, step_loop _ _ ?vm = _ => set (vm5 := vm) end.
  assert (exists vm6 vm7, (forall g, Step (nested_cfg fetch)
    (set_dstack (mkStack [[Byte.x10]; [x01]; g; g] true) vm5) = (Ok false, vm6)) /\
    Step (nested_cfg fetch) vm6 = (Panic, vm7)) as (vm6 & vm7 & H6 & H7).
  { do 2 eexists. split; [intros g |].
    - erewrite Step_run; [ | done | vm_compute; reflexivity | done | | ].
      2: { erewrite execute_op by done. by eapply (Equal_St g g [[x01]; [Byte.x10]] true). }
      2: done.
      rewrite bool_decide_eq_true_2 by done. vm_compute. reflexivity.
    - vm_compute. reflexivity. }
  specialize (H6 (Hash160 nested_redeem)). rewrite Hr in H6 at 2. exists vm7.
  erewrite step_loop_next by exact H6. by apply step_loop_panic.
Qed.

(** C15: a pay-to-script-hash input can make the engine panic.  The comment in
    NewEngine says that the signature script of a nested witness program must
    be exactly one canonical push of it, but the test only looks at the first
    byte as if it were the push opcode: OP_16 passes.  Then the witness program
    is the rest of the signature script, of version 1, and the redeem script
    runs with a witness program that is neither version 0 nor taproot, so that
    OP_CHECKSIG calls Verify on a nil verifier.  The transaction is accepted by
    NewEngine with every flag set, whatever the hash functions are. *)
Theorem nested_p2sh_panics :
  exists cfg vm vm',
    NewEngine (p2sh_script (Hash160 nested_redeem)) nested_tx 0 all_flags None None 0 fetch =
      Ok (cfg, vm) /\
    Execute cfg 7 vm = Some (Panic, vm').
Proof.
  assert (zlen (Hash160 nested_redeem) = 20) as Hl by apply ripemd160_len.
  destruct (nested_panics _ Hl eq_refl) as [vm' Hr].
  do 3 eexists. split; [by apply nested_new |]. unfold Execute. cbn [version nested_cfg Z.eqb negb].
  by rewrite Hr.
Qed.
End Nested.

Lemma nested_p2sh_panics_witness :
  exists cfg vm vm',
    NewEngine (p2sh_script (@Hash160 toy_crypto nested_redeem)) nested_tx 0 all_flags None None 0
      (fun _ => None) = Ok (cfg, vm) /\
    @Execute toy_crypto list_order cfg 7 vm = Some (Panic, vm').
Proof. exact (@nested_p2sh_panics toy_crypto toy_laws list_order (fun _ => None)). Defined.
