(* ===== verification/Multisig.v ===== *)
(** OP_CHECKMULTISIG (src/btcd/txscript/opcode.go): the loop that walks the
    signatures and the keys once decides whether the signatures match a
    subsequence of the keys. *)
From S2P Require Import Prelude WireCommon ScriptError ScriptNum Stack Opcodes Tokenizer MsgTx Script Crypto SigHash SigCache EngineState SigCheck OpcodeExec ScriptBuilder Engine EngineRuns.

(** * Order-preserving matchings *)

Section Matching.
Context (valid : bytes -> bytes -> bool).

(** Every signature is valid for a key of its own, in the order of the keys. *)
Definition matching (sigs keys : list bytes) : Prop :=
  exists ks, ks `sublist_of` keys /\ Forall2 (fun s k => valid s k = true) sigs ks.

(** The greedy walk over the keys. *)
Fixpoint greedy (sigs keys : list bytes) : bool :=
  match sigs with
  | [] => true
  | s :: sigs' =>
      match keys with
      | [] => false
      | k :: keys => if valid s k then greedy sigs' keys else greedy sigs keys
      end
  end.

Lemma matching_tail s sigs k keys : matching (s :: sigs) (k :: keys) -> matching sigs keys.
Proof.
  intros (ks & Hsub & Hall). inversion Hall as [|s' k' ? ks' Hv Hall']; subst.
  exists ks'. split; [| done]. apply sublist_cons_r in Hsub as [Hsub | (l & [= <- <-] & Hsub)].
  - etrans; [| exact Hsub]. by apply sublist_cons.
  - done.
Qed.

Lemma greedy_iff keys : forall sigs, greedy sigs keys = true <-> matching sigs keys.
Proof.
  induction keys as [|k keys IH]; intros [|s sigs]; cbn [greedy].
  - split; [| done]. intros _. exists []. split; [done | constructor].
  - split; [done |]. intros (ks & Hsub & Hall). inversion Hall; subst. by apply sublist_nil_r in Hsub.
  - split; [| done]. intros _. exists []. split; [apply sublist_nil_l | constructor].
  - destruct (valid s k) eqn:Hv; rewrite IH.
    + split; [| apply matching_tail]. intros (ks & Hsub & Hall). exists (k :: ks).
      split; [by apply sublist_skip | by constructor].
    + split; intros (ks & Hsub & Hall); exists ks; (split; [| done]).
      * by apply sublist_cons.
      * apply sublist_cons_r in Hsub as [Hsub | (l & -> & Hsub)]; [done |].
        inversion Hall; congruence.
Qed.

(** Too few keys for the signatures. *)
Lemma greedy_short keys : forall sigs, (length keys < length sigs)%nat -> greedy sigs keys = false.
Proof.
  induction keys as [|k keys IH]; intros [|s sigs] Hl; cbn [greedy length] in *; try (lia || done).
  destruct (valid s k); apply IH; cbn [length]; lia.
Qed.
End Matching.

(** * The loop *)

Section Loop.
Context `{Crypto} `{MapOrder} (cfg : Config) (vm : Engine) (script : bytes).

(** The digest a signature with this hash type commits to. *)
Definition multisig_hash (hashType : Z) : res bytes :=
  if isWitnessVersionActive 0 vm then
    let! sh := sig_hashes cfg in
    calcWitnessSignatureHashRaw script sh hashType (tx cfg) (txIdx cfg) (inputAmount cfg)
  else calcSignatureHash script hashType (tx cfg) (txIdx cfg).

(** A signature, with its hash type byte, verifies under a key. *)
Definition pair_valid (sig key : bytes) : bool :=
  match last sig with
  | None => false
  | Some ht =>
      match parse_ecdsa cfg (but_last sig), ParsePubKey key, multisig_hash (b2z ht) with
      | Some s, Some k, Ok h => ecdsa_Verify s h k
      | _, _, _ => false
      end
  end.

(** The encodings and digests raise no error. *)
Definition sig_clean (sig : bytes) : Prop :=
  forall ht, last sig = Some ht ->
    checkHashTypeEncoding cfg (b2z ht) = Ok tt /\
    checkSignatureEncoding cfg (but_last sig) = Ok tt /\
    is_ok (multisig_hash (b2z ht)) = true.

Definition key_clean (key : bytes) : Prop := checkPubKeyEncoding cfg key vm = Ok tt.

(** The parse state of a signature is what parsing gives. *)
Definition info_of (sig : bytes) (si : parsedSigInfo) : Prop :=
  signature si = sig /\ (parsed si = None \/ parsed si = Some (parse_ecdsa cfg (but_last sig))).

(** The parse of the signature, whether it was parsed before or not. *)
Lemma parse_step sig ht si :
  sig_clean sig -> last sig = Some ht -> info_of sig si ->
  (match parsed si with
   | None => lift (checkHashTypeEncoding cfg (b2z ht));;
             lift (checkSignatureEncoding cfg (but_last sig));;
             ret (parse_ecdsa cfg (but_last sig))
   | Some p => ret p
   end) vm = (Ok (parse_ecdsa cfg (but_last sig)), vm).
Proof.
  intros Hs Hl [_ Hp]. destruct (Hs ht Hl) as (Ht & He & _).
  destruct Hp as [-> | ->]; [| done]. unfold bind, lift. by rewrite Ht, He.
Qed.

Lemma hash_step ht :
  (if isWitnessVersionActive 0 vm then
     sh <- lift (sig_hashes cfg);;
     lift (calcWitnessSignatureHashRaw script sh ht (tx cfg) (txIdx cfg) (inputAmount cfg))
   else lift (calcSignatureHash script ht (tx cfg) (txIdx cfg))) vm = (multisig_hash ht, vm).
Proof.
  unfold multisig_hash. destruct (isWitnessVersionActive 0 vm); [| done].
  unfold bind, lift, obind. by destruct (sig_hashes cfg).
Qed.

Lemma try_pair_run sig key si :
  sigCache vm = None -> sig_clean sig -> key_clean key -> info_of sig si ->
  exists si', try_pair cfg script si key vm = (Ok (si', pair_valid sig key), vm) /\ info_of sig si'.
Proof.
  intros Hc Hs Hk Hi. pose proof Hi as [Hsig _]. unfold try_pair, pair_valid. cbn zeta. rewrite Hsig.
  destruct (last sig) as [ht|] eqn:Hl.
  2: { apply last_None in Hl as ->. by exists si. }
  replace (zlen sig =? 0) with false
    by (symmetry; apply Z.eqb_neq; intros E%zlen_0_nil; by subst sig; rewrite E in Hl).
  unfold last_or_panic. rewrite Hl. destruct (Hs ht Hl) as (_ & _ & Hh).
  erewrite (bind_Ok (lift (Ok ht))) by done. erewrite bind_Ok by (by apply parse_step).
  destruct (parse_ecdsa cfg (but_last sig)) as [s|] eqn:Hpe.
  2: { eexists. split; [done |]. split; [done | right]. by rewrite Hpe. }
  erewrite (bind_Ok get) by done. erewrite (bind_Ok (lift (checkPubKeyEncoding cfg key vm)))
    by (unfold lift; by rewrite Hk).
  exists (mkSigInfo sig (Some (Some s))). split; [| split; [done | right; cbn [parsed]; by rewrite Hpe]].
  destruct (ParsePubKey key) as [k|]; [| done].
  destruct (multisig_hash (b2z ht)) as [h| |] eqn:Hmh; [| done ..].
  erewrite bind_Ok by (rewrite hash_step; by rewrite Hmh).
  unfold bind, verify_cached. by rewrite Hc.
Qed.

Lemma infos_at sdone s srest infos :
  Forall2 info_of (sdone ++ s :: srest) infos ->
  exists si, znth infos (zlen sdone) = Some si /\ info_of s si /\
    forall si', info_of s si' ->
      Forall2 info_of (sdone ++ s :: srest) (<[Z.to_nat (zlen sdone) := si']> infos).
Proof.
  intros Hall. apply Forall2_app_inv_l in Hall as (i1 & i2 & H1 & H2 & ->).
  inversion H2 as [|? si ? i3 Hsi H3]; subst. pose proof (Forall2_length _ _ _ H1) as Hlen.
  exists si. rewrite znth_app_exact by (unfold zlen; lia). split_and!; [done | done |].
  intros si' Hsi'. unfold zlen. rewrite Nat2Z.id, Hlen.
  rewrite insert_app_r_alt by lia. rewrite Nat.sub_diag. apply Forall2_app; [done |]. by constructor.
Qed.

Hypothesis Hcache : sigCache vm = None.

Lemma multisig_loop_run fuel : forall kdone krest sdone srest infos,
  (length krest < fuel)%nat -> Forall2 info_of (sdone ++ srest) infos ->
  Forall sig_clean srest -> Forall key_clean krest ->
  multisig_loop cfg fuel script (kdone ++ krest) infos (zlen srest) (zlen krest + 1)
    (zlen kdone - 1) (zlen sdone) vm = (Ok (greedy pair_valid srest krest), vm).
Proof.
  induction fuel as [|fuel IH]; intros kdone krest sdone srest infos Hfuel Hinfo Hs Hk; [lia |].
  cbn [multisig_loop]. destruct srest as [|s srest]; [by destruct krest |].
  replace (zlen (s :: srest) >? 0) with true
    by (symmetry; rewrite zlen_cons; pose proof (zlen_nonneg srest); lia).
  replace (zlen krest + 1 - 1) with (zlen krest) by lia. cbn zeta.
  replace (zlen kdone - 1 + 1) with (zlen kdone) by lia.
  destruct (Z.gtb_spec (zlen (s :: srest)) (zlen krest)) as [Hlt|Hle].
  { rewrite greedy_short; [done | unfold zlen in Hlt; lia]. }
  destruct krest as [|k krest];
    [exfalso; rewrite zlen_cons, zlen_nil in Hle; pose proof (zlen_nonneg srest); lia |].
  destruct (infos_at _ _ _ _ Hinfo) as (si & Hsi & Hok & Hupd).
  inversion Hs as [|? ? Hs1 Hs2]; inversion Hk as [|? ? Hk1 Hk2]; subst.
  erewrite (bind_Ok (lift (index infos (zlen sdone)))) by (unfold lift, index; by rewrite Hsi).
  erewrite (bind_Ok (lift (index _ (zlen kdone)))) by (unfold lift, index; by rewrite znth_app_exact).
  destruct (try_pair_run s k si Hcache Hs1 Hk1 Hok) as (si' & Htry & Hok').
  erewrite bind_Ok by exact Htry. cbn [fst snd greedy].
  specialize (Hupd si' Hok'). cbn [length] in Hfuel.
  rewrite zlen_cons with (l := krest). rewrite (cons_middle k kdone krest).
  destruct (pair_valid s k).
  - rewrite <- (IH (kdone ++ [k]) krest (sdone ++ [s]) srest (<[Z.to_nat (zlen sdone):=si']> infos));
      [| lia | by rewrite <- app_assoc | done | done].
    rewrite <- app_assoc. f_equal; autorewrite with zlen; lia.
  - rewrite <- (IH (kdone ++ [k]) krest sdone (s :: srest) (<[Z.to_nat (zlen sdone):=si']> infos));
      [| lia | done | done | done].
    rewrite <- app_assoc. f_equal; autorewrite with zlen; lia.
Qed.
End Loop.

(** * The opcode *)

Section Opcode.
Context `{Crypto} `{MapOrder} (cfg : Config).

Lemma pop_n_St l rest f : forall vm,
  dstack vm = St (l ++ rest) f -> fits (l ++ rest) ->
  pop_n (length l) vm = (Ok l, set_dstack (St rest f) vm).
Proof.
  induction l as [|x l IH]; intros vm Hd Hf; cbn [length pop_n app] in *.
  - unfold ret. rewrite <- Hd. by destruct vm.
  - erewrite bind_Ok by (by apply dPop_St). erewrite bind_Ok by (apply IH; [done | by eapply fits_tail]).
    done.
Qed.

Lemma dPopInt_St x n l f vm :
  dstack vm = St (x :: l) f -> fits (x :: l) -> MakeScriptNum x f maxScriptNumLen = Ok n ->
  dPopInt vm = (Ok n, set_dstack (St l f) vm).
Proof.
  intros Hd Hf Hn. unfold dPopInt, on_dstack, zoom, PopInt, PopByteArray.
  rewrite bind_eq, Hd, nipN_St by done. unfold bind, get, lift. cbn [znth]. 
  change (znth (x :: l) 0) with (Some x). cbn [verifyMinimalData St]. by rewrite Hn.
Qed.

Lemma Int32_small z : 0 <= z <= 20 -> Int32 z = z.
Proof. intros Hz. unfold Int32, maxInt32, minInt32. ztest. apply int32_small. lia. Qed.

(** The stack an OP_CHECKMULTISIG finds, top first. *)
Definition multisig_stack (nk ns dummy : bytes) (keys sigs rest : list bytes) : list bytes :=
  nk :: keys ++ ns :: sigs ++ dummy :: rest.

(** What the limits, the flags and the encodings must allow. *)
Record multisig_ready (vm : Engine) (f : bool) (nk ns dummy : bytes) (keys sigs rest : list bytes)
    (sub script : bytes) : Prop := {
  mr_tap : taprootCtx vm = None;
  mr_cache : sigCache vm = None;
  mr_stack : dstack vm = St (multisig_stack nk ns dummy keys sigs rest) f;
  mr_fits : fits (multisig_stack nk ns dummy keys sigs rest);
  mr_nk : MakeScriptNum nk f maxScriptNumLen = Ok (zlen keys);
  mr_ns : MakeScriptNum ns f maxScriptNumLen = Ok (zlen sigs);
  mr_counts : zlen sigs <= zlen keys <= MaxPubKeysPerMultiSig;
  mr_ops : numOps vm + zlen keys <= MaxOpsPerScript;
  mr_dummy : hasFlag cfg ScriptStrictMultiSig = true -> dummy = [];
  mr_sub : subScript vm = Ok sub;
  mr_script : (if isWitnessVersionActive 0 vm then Ok sub else remove_sigs cfg sigs sub) = Ok script;
  mr_sigs : Forall (sig_clean cfg vm script) sigs;
  mr_keys : Forall (key_clean cfg vm) keys;
}.

Lemma multisig_run op data vm f nk ns dummy keys sigs rest sub script :
  multisig_ready vm f nk ns dummy keys sigs rest sub script ->
  let b := greedy (pair_valid cfg vm script) sigs keys in
  exists vm1, dstack vm1 = St rest f /\
  opcodeCheckMultiSig cfg op data vm =
  (guard (negb b && hasFlag cfg ScriptVerifyNullFail && existsb (fun s => zlen s >? 0) sigs)
     (scriptError ErrNullFail);; dPushBool b) vm1.
Proof.
  intros [Ht Hc Hst Hfit Hnk Hns Hcnt Hops Hdum Hsub Hscr Hsigs Hkeys]. cbn zeta.
  unfold multisig_stack, MaxPubKeysPerMultiSig, MaxOpsPerScript in *.
  pose proof (zlen_nonneg keys). pose proof (zlen_nonneg sigs).
  assert (forall l k : list bytes, fits (l ++ k) -> fits k) as Hsuf
    by (intros l k; unfold fits; rewrite zlen_app; pose proof (zlen_nonneg l); lia).
  assert (fits (keys ++ ns :: sigs ++ dummy :: rest)) as Hf1 by by eapply fits_tail.
  pose proof (Hsuf _ _ Hf1) as Hf2. pose proof (fits_tail _ _ Hf2) as Hf3.
  pose proof (Hsuf _ _ Hf3) as Hf4.
  unfold opcodeCheckMultiSig, MaxPubKeysPerMultiSig, MaxOpsPerScript.
  erewrite (bind_Ok get) by done. rewrite Ht. cbn [is_some].
  erewrite (bind_Ok (guard false _)) by done.
  erewrite bind_Ok by (eapply dPopInt_St; eassumption). cbn zeta. rewrite Int32_small by lia. ztest.
  do 2 (erewrite (bind_Ok (guard false _)) by done).
  erewrite (bind_Ok (modify _)) by done. erewrite (bind_Ok get) by done. cbn [numOps set_numOps set_dstack].
  ztest. erewrite (bind_Ok (guard false _)) by done.
  unfold zlen at 1. rewrite Nat2Z.id.
  erewrite bind_Ok by (eapply pop_n_St; [reflexivity | eassumption]).
  erewrite bind_Ok by (eapply dPopInt_St; [reflexivity | eassumption | eassumption]).
  rewrite Int32_small by lia. ztest. do 2 (erewrite (bind_Ok (guard false _)) by done).
  unfold zlen at 1. rewrite Nat2Z.id.
  erewrite bind_Ok by (eapply pop_n_St; [reflexivity | eassumption]).
  erewrite bind_Ok by (eapply dPop_St; [reflexivity | eassumption]).
  replace (hasFlag cfg ScriptStrictMultiSig && _) with false.
  2: { destruct (hasFlag cfg ScriptStrictMultiSig); [by rewrite Hdum | done]. }
  erewrite (bind_Ok (guard false _)) by done. erewrite (bind_Ok get) by done.
  match goal with |- context [subScript ?v] => set (vm1 := v) end.
  exists vm1. split; [done |].
  change (subScript vm1) with (subScript vm). rewrite Hsub. erewrite (bind_Ok (lift (Ok sub))) by done.
  change (isWitnessVersionActive 0 vm1) with (isWitnessVersionActive 0 vm).
  replace (if negb (isWitnessVersionActive 0 vm) then _ else _) with (@Ok Error _ script)
    by (rewrite <- Hscr; by destruct (isWitnessVersionActive 0 vm)).
  erewrite (bind_Ok (lift (Ok script))) by done.
  erewrite bind_Ok; [reflexivity |].
  apply (multisig_loop_run cfg vm1 script Hc _ [] keys [] sigs); [unfold zlen; lia | | done | done].
  apply Forall2_fmap_r, Forall2_same_length_lookup_2; [done |]. intros i x y Hx Hy.
  cbn [app] in Hx. simplify_eq. by split; [| left].
Qed.

(** C2: OP_CHECKMULTISIG computes a matching.  On a stack that holds the keys,
    the signatures and the dummy item with their counts (and whose encodings
    raise no error), one walk over the keys decides whether the signatures can
    be assigned to keys in order: the opcode pushes true exactly when there is
    a subsequence of the keys under which the signatures verify one by one.
    Otherwise it pushes false, or fails with ErrNullFail when that flag is set
    and some signature is not empty. *)
Theorem multisig_matching op data vm f nk ns dummy keys sigs rest sub script :
  multisig_ready vm f nk ns dummy keys sigs rest sub script ->
  let matched := matching (pair_valid cfg vm script) sigs keys in
  (matched -> exists vm', opcodeCheckMultiSig cfg op data vm = (Ok tt, vm') /\
                          dstack vm' = St ([x01] :: rest) f) /\
  (~ matched ->
     exists vm', dstack vm' = St rest f /\
     opcodeCheckMultiSig cfg op data vm =
     if hasFlag cfg ScriptVerifyNullFail && existsb (fun s => zlen s >? 0) sigs
     then (Err (scriptError ErrNullFail), vm')
     else (Ok tt, set_dstack (St ([] :: rest) f) vm')).
Proof.
  intros Hr. cbn zeta. rewrite <- !greedy_iff.
  destruct (multisig_run op data _ _ _ _ _ _ _ _ _ _ Hr) as (vm1 & Hd & ->).
  destruct (greedy _ _ _); split; try done; intros _.
  - eexists. split; [exact (dPush_St _ _ _ _ Hd) | done].
  - exists vm1. split; [done |]. cbn [negb andb]. rewrite bind_eq.
    destruct (_ && _); [done |]. exact (dPush_St _ _ _ _ Hd).
Qed.
End Opcode.

(** ** One of two keys, with the toy instance: the digest is the signature *)

Definition multisig_key : bytes := x02 :: repeat x07 32.
Definition multisig_other : bytes := x03 :: repeat x08 32.
Definition multisig_pk : bytes := [z2b OP_CHECKMULTISIG].
Definition multisig_tx : MsgTx :=
  mkMsgTx 1 [mkTxIn (mkOutPoint (repeat x00 32) 0) [] [] 0] [mkTxOut 0 []] 0.
Definition multisig_cfg : Config := mkConfig 0 multisig_tx 0 0 false 0 None (fun _ => None).
Definition multisig_sig : bytes :=
  match @calcSignatureHash toy_crypto multisig_pk 1 multisig_tx 0 with
  | Ok h => h ++ [x01]
  | _ => []
  end.
Definition multisig_vm : Engine :=
  mkEngine [[]; multisig_pk] 1 0 0 (MakeScriptTokenizer 0 multisig_pk) []
    (St (multisig_stack [x02] [x01] [] [multisig_other; multisig_key] [multisig_sig] []) false)
    (mkStack [] false) [] 0 0 None None None.

Lemma multisig_matching_witness :
  exists vm', @opcodeCheckMultiSig toy_crypto list_order multisig_cfg (opcode_of xae) [] multisig_vm =
              (Ok tt, vm') /\ dstack vm' = St [[x01]] false.
Proof.
  apply (@multisig_matching toy_crypto list_order multisig_cfg (opcode_of xae) [] multisig_vm false
           [x02] [x01] [] [multisig_other; multisig_key] [multisig_sig] [] multisig_pk multisig_pk).
  - split; [done | done | done | done | | | | | | | | | by repeat constructor].
    all: [> vm_compute; reflexivity | vm_compute; reflexivity | vm_compute; by split
          | vm_compute; by intros | by intros | vm_compute; reflexivity | vm_compute; reflexivity |].
    constructor; [| constructor]. intros ht Hht. vm_compute in Hht. injection Hht as <-.
    vm_compute. by split_and!.
  - exists [multisig_other]. split; [by repeat constructor |].
    constructor; [vm_compute; reflexivity | constructor].
Defined.
