(* ===== verification/AppTypes.v ===== *)
(** SquidCoin's application layer: its data and the machine a node runs on.

    The structs of models/fileModels.go, the disk and memory a node keeps
    (utils/files.json, utils/downloadedFiles.json, utils/transactionFiles.json,
    the squidcoinFiles directory, the maps and flags of dht/streams.go and
    files/files.go), the packets it puts on libp2p streams, and the statements
    the handlers are made of.

    - A JSON file or value is [Json a] when [json.Unmarshal] reads it as [a]
      into the type the code asks for and [NotJson] when it returns an error;
      [json.Marshal] of the structs used here does not fail and writes
      [Json a].
    - A call to the operating system or to libp2p that the code checks for an
      error takes its answer from [faults], one per call, in order; an empty
      list means that everything else succeeds.
    - [log.Fatal] and a Go panic are [Panic].
    - A Go [error] is the literal part of its message; [http.Error] is
      [HttpError] with the status code.
    - The Kademlia DHT is not code of the repository: it is the class
      [DHTService], whose laws say that a lookup only returns what some node
      stored under the key, and nothing about which of these values. *)

From Stdlib Require Import Ascii.
From S2P Require Import Prelude.

(** * Models *)

(** models/fileModels.go: a file of the node. *)
Record FileMetadata := mkFile {
  fName : string;
  fNameWithExtension : string;
  fType : string;
  fSize : Z;
  fDescription : string;
  fHash : string;
  fIsPublished : bool;
  fFee : Z;
  fCreatedAt : string;
  fOriginalUploader : bool;
  fVoteType : string;
  fHasVoted : bool
}.

(** models/fileModels.go: a provider of a file. *)
Record Provider := mkProvider {
  PeerAddr : string;
  IsActive : bool;
  pFee : Z;
  pRating : string
}.

(** models/fileModels.go: what the DHT holds about a file.  [Providers] is
    [None] when the Go map is nil. *)
Record DHTMetadata := mkMeta {
  mName : string;
  mNameWithExtension : string;
  mType : string;
  mSize : Z;
  mDescription : string;
  mCreatedAt : string;
  Rating : Z;
  Providers : option (gmap string Provider);
  NumRaters : Z;
  Upvote : Z;
  Downvote : Z;
  mHash : string
}.

(** models/fileModels.go: a download, from the request to its completion. *)
Record Transaction := mkTx {
  tType : string;
  FileHash : string;
  RequesterID : string;
  RequesterWallet : string;
  TargetID : string;
  TargetWallet : string;
  Status : string;
  Message : string;
  tCreatedAt : string;
  FileName : string;
  TransactionID : string;
  tSize : Z;
  tFee : Z
}.

#[global] Instance FileMetadata_eq_dec : EqDecision FileMetadata.
Proof. solve_decision. Defined.
#[global] Instance Provider_eq_dec : EqDecision Provider.
Proof. solve_decision. Defined.
#[global] Instance DHTMetadata_eq_dec : EqDecision DHTMetadata.
Proof. solve_decision. Defined.
#[global] Instance Transaction_eq_dec : EqDecision Transaction.
Proof. solve_decision. Defined.

(** Assignments to single fields. *)
Definition set_fIsPublished v (s : FileMetadata) : FileMetadata :=
  mkFile (fName s) (fNameWithExtension s) (fType s) (fSize s) (fDescription s) (fHash
    s) v (fFee s) (fCreatedAt s) (fOriginalUploader s) (fVoteType s) (fHasVoted s).
Definition set_fVoteType v (s : FileMetadata) : FileMetadata :=
  mkFile (fName s) (fNameWithExtension s) (fType s) (fSize s) (fDescription s) (fHash
    s) (fIsPublished s) (fFee s) (fCreatedAt s) (fOriginalUploader s) v (fHasVoted s).
Definition set_fHasVoted v (s : FileMetadata) : FileMetadata :=
  mkFile (fName s) (fNameWithExtension s) (fType s) (fSize s) (fDescription s) (fHash
    s) (fIsPublished s) (fFee s) (fCreatedAt s) (fOriginalUploader s) (fVoteType s) v.
Definition set_IsActive v (s : Provider) : Provider :=
  mkProvider (PeerAddr s) v (pFee s) (pRating s).
Definition set_pFee v (s : Provider) : Provider :=
  mkProvider (PeerAddr s) (IsActive s) v (pRating s).
Definition set_pRating v (s : Provider) : Provider :=
  mkProvider (PeerAddr s) (IsActive s) (pFee s) v.
Definition set_Rating v (s : DHTMetadata) : DHTMetadata :=
  mkMeta (mName s) (mNameWithExtension s) (mType s) (mSize s) (mDescription s)
    (mCreatedAt s) v (Providers s) (NumRaters s) (Upvote s) (Downvote s) (mHash s).
Definition set_Providers v (s : DHTMetadata) : DHTMetadata :=
  mkMeta (mName s) (mNameWithExtension s) (mType s) (mSize s) (mDescription s)
    (mCreatedAt s) (Rating s) v (NumRaters s) (Upvote s) (Downvote s) (mHash s).
Definition set_NumRaters v (s : DHTMetadata) : DHTMetadata :=
  mkMeta (mName s) (mNameWithExtension s) (mType s) (mSize s) (mDescription s)
    (mCreatedAt s) (Rating s) (Providers s) v (Upvote s) (Downvote s) (mHash s).
Definition set_Upvote v (s : DHTMetadata) : DHTMetadata :=
  mkMeta (mName s) (mNameWithExtension s) (mType s) (mSize s) (mDescription s)
    (mCreatedAt s) (Rating s) (Providers s) (NumRaters s) v (Downvote s) (mHash s).
Definition set_Downvote v (s : DHTMetadata) : DHTMetadata :=
  mkMeta (mName s) (mNameWithExtension s) (mType s) (mSize s) (mDescription s)
    (mCreatedAt s) (Rating s) (Providers s) (NumRaters s) (Upvote s) v (mHash s).
Definition set_RequesterID v (s : Transaction) : Transaction :=
  mkTx (tType s) (FileHash s) v (RequesterWallet s) (TargetID s) (TargetWallet s)
    (Status s) (Message s) (tCreatedAt s) (FileName s) (TransactionID s) (tSize s)
    (tFee s).
Definition set_RequesterWallet v (s : Transaction) : Transaction :=
  mkTx (tType s) (FileHash s) (RequesterID s) v (TargetID s) (TargetWallet s) (Status
    s) (Message s) (tCreatedAt s) (FileName s) (TransactionID s) (tSize s) (tFee s).
Definition set_TargetWallet v (s : Transaction) : Transaction :=
  mkTx (tType s) (FileHash s) (RequesterID s) (RequesterWallet s) (TargetID s) v
    (Status s) (Message s) (tCreatedAt s) (FileName s) (TransactionID s) (tSize s)
    (tFee s).
Definition set_Status v (s : Transaction) : Transaction :=
  mkTx (tType s) (FileHash s) (RequesterID s) (RequesterWallet s) (TargetID s)
    (TargetWallet s) v (Message s) (tCreatedAt s) (FileName s) (TransactionID s)
    (tSize s) (tFee s).
Definition set_tCreatedAt v (s : Transaction) : Transaction :=
  mkTx (tType s) (FileHash s) (RequesterID s) (RequesterWallet s) (TargetID s)
    (TargetWallet s) (Status s) (Message s) v (FileName s) (TransactionID s) (tSize s)
    (tFee s).
Definition set_TransactionID v (s : Transaction) : Transaction :=
  mkTx (tType s) (FileHash s) (RequesterID s) (RequesterWallet s) (TargetID s)
    (TargetWallet s) (Status s) (Message s) (tCreatedAt s) (FileName s) v (tSize s)
    (tFee s).

(** * A node *)

Inductive json (A : Type) : Type :=
| Json (a : A)
| NotJson.
Arguments Json {A} a.
Arguments NotJson {A}.

Inductive AppErr : Type :=
| Error (msg : string)
| HttpError (code : Z).

(** The two JSON files that hold lists of [FileMetadata]. *)
Inductive FilePath : Type := UploadedFilePath | DownloadedFilePath.

#[global] Instance FilePath_eq_dec : EqDecision FilePath.
Proof. solve_decision. Defined.

(** The variables and files of a node.  [Wallet] is the mining address in the
    temporary file of services/btcService.go, if it holds one; [content] is
    the disk outside the JSON files, by absolute path; [signals] counts the
    goroutines blocked in a send on the unbuffered MarketplaceFilesSignal. *)
Record Node := mkNode {
  PeerID : string;
  Addrs : list string;
  Cwd : string;
  Wallet : option string;
  utils_dir : bool;
  uploaded : option (json (list FileMetadata));
  downloaded : option (json (list FileMetadata));
  transactionFiles : option (json (list Transaction));
  content : gmap string bytes;
  FileHashToPath : gmap string string;
  PendingRequests : gmap string Transaction;
  republishedUploaded : bool;
  republishedDownloaded : bool;
  MarketplaceFiles : option (list DHTMetadata);
  signals : nat
}.

Definition set_utils_dir v (s : Node) : Node :=
  mkNode (PeerID s) (Addrs s) (Cwd s) (Wallet s) v (uploaded s) (downloaded s)
    (transactionFiles s) (content s) (FileHashToPath s) (PendingRequests s)
    (republishedUploaded s) (republishedDownloaded s) (MarketplaceFiles s) (signals
    s).
Definition set_uploaded v (s : Node) : Node :=
  mkNode (PeerID s) (Addrs s) (Cwd s) (Wallet s) (utils_dir s) v (downloaded s)
    (transactionFiles s) (content s) (FileHashToPath s) (PendingRequests s)
    (republishedUploaded s) (republishedDownloaded s) (MarketplaceFiles s) (signals
    s).
Definition set_downloaded v (s : Node) : Node :=
  mkNode (PeerID s) (Addrs s) (Cwd s) (Wallet s) (utils_dir s) (uploaded s) v
    (transactionFiles s) (content s) (FileHashToPath s) (PendingRequests s)
    (republishedUploaded s) (republishedDownloaded s) (MarketplaceFiles s) (signals
    s).
Definition set_transactionFiles v (s : Node) : Node :=
  mkNode (PeerID s) (Addrs s) (Cwd s) (Wallet s) (utils_dir s) (uploaded s)
    (downloaded s) v (content s) (FileHashToPath s) (PendingRequests s)
    (republishedUploaded s) (republishedDownloaded s) (MarketplaceFiles s) (signals
    s).
Definition set_content v (s : Node) : Node :=
  mkNode (PeerID s) (Addrs s) (Cwd s) (Wallet s) (utils_dir s) (uploaded s)
    (downloaded s) (transactionFiles s) v (FileHashToPath s) (PendingRequests s)
    (republishedUploaded s) (republishedDownloaded s) (MarketplaceFiles s) (signals
    s).
Definition set_FileHashToPath v (s : Node) : Node :=
  mkNode (PeerID s) (Addrs s) (Cwd s) (Wallet s) (utils_dir s) (uploaded s)
    (downloaded s) (transactionFiles s) (content s) v (PendingRequests s)
    (republishedUploaded s) (republishedDownloaded s) (MarketplaceFiles s) (signals
    s).
Definition set_PendingRequests v (s : Node) : Node :=
  mkNode (PeerID s) (Addrs s) (Cwd s) (Wallet s) (utils_dir s) (uploaded s)
    (downloaded s) (transactionFiles s) (content s) (FileHashToPath s) v
    (republishedUploaded s) (republishedDownloaded s) (MarketplaceFiles s) (signals
    s).
Definition set_republishedUploaded v (s : Node) : Node :=
  mkNode (PeerID s) (Addrs s) (Cwd s) (Wallet s) (utils_dir s) (uploaded s)
    (downloaded s) (transactionFiles s) (content s) (FileHashToPath s)
    (PendingRequests s) v (republishedDownloaded s) (MarketplaceFiles s) (signals s).
Definition set_republishedDownloaded v (s : Node) : Node :=
  mkNode (PeerID s) (Addrs s) (Cwd s) (Wallet s) (utils_dir s) (uploaded s)
    (downloaded s) (transactionFiles s) (content s) (FileHashToPath s)
    (PendingRequests s) (republishedUploaded s) v (MarketplaceFiles s) (signals s).
Definition set_MarketplaceFiles v (s : Node) : Node :=
  mkNode (PeerID s) (Addrs s) (Cwd s) (Wallet s) (utils_dir s) (uploaded s)
    (downloaded s) (transactionFiles s) (content s) (FileHashToPath s)
    (PendingRequests s) (republishedUploaded s) (republishedDownloaded s) v (signals
    s).
Definition set_signals v (s : Node) : Node :=
  mkNode (PeerID s) (Addrs s) (Cwd s) (Wallet s) (utils_dir s) (uploaded s)
    (downloaded s) (transactionFiles s) (content s) (FileHashToPath s)
    (PendingRequests s) (republishedUploaded s) (republishedDownloaded s)
    (MarketplaceFiles s) v.

(** * The network *)

(** What is written to a stream before it is closed: one constructor per
    protocol.  [nl] says that the JSON is followed by a newline; a file
    transfer is what was written before the sender returned: the line of the
    transaction, the line of the metadata, the content. *)
Inductive Body : Type :=
| BRequest (t : Transaction)
| BResponse (t : Transaction) (nl : bool)
| BFile (t : option Transaction) (m : option FileMetadata) (c : bytes)
| BNodeFile (m : DHTMetadata)
| BRefresh (peer : string).

Record Packet := mkPacket { p_to : string; p_proto : string; p_body : Body }.

(** The DHT as a node uses it: [GetValue], [PutValue] and [Provide], with the
    error reported as [None] or [false]. *)
Class DHTService (D : Type) := {
  GetValue : string -> D -> option (json DHTMetadata) * D;
  PutValue : string -> json DHTMetadata -> D -> bool * D;
  Provide : string -> D -> bool * D
}.

(** The documented behaviour the proofs use.  [stored d k v] says that some
    node of the network may still answer a lookup of [k] with [v]. *)
Class DHTLaws (D : Type) `{DHTService D} := {
  stored : D -> string -> json DHTMetadata -> Prop;
  GetValue_stored d k v d' : GetValue k d = (Some v, d') -> stored d k v;
  GetValue_old d k o d' k' v' :
    GetValue k d = (o, d') -> stored d' k' v' -> stored d k' v';
  PutValue_old d k v b d' k' v' :
    PutValue k v d = (b, d') -> stored d' k' v' -> stored d k' v' \/ (k' = k /\ v' = v);
  Provide_old d k b d' k' v' :
    Provide k d = (b, d') -> stored d' k' v' -> stored d k' v'
}.

(** A DHT that keeps the last value of each key: the laws can hold. *)
#[export] Instance gmap_dht : DHTService (gmap string (json DHTMetadata)) := {
  GetValue k d := (d !! k, d);
  PutValue k v d := (true, <[k := v]> d);
  Provide _ d := (true, d)
}.

#[export] Instance gmap_dht_laws : DHTLaws (gmap string (json DHTMetadata)).
Proof.
  refine {| stored d k v := d !! k = Some v |}; cbn; intros; simplify_eq; try done.
  match goal with H : <[_ := _]> _ !! _ = Some _ |- _ => apply lookup_insert_Some in H end.
  intuition congruence.
Defined.

(** A handler sees its node, the DHT, the answers of the environment and the
    packets sent so far. *)
Record World (D : Type) := mkWorld {
  node : Node;
  dht : D;
  faults : list bool;
  sent : list Packet
}.
Arguments mkWorld {D}.
Arguments node {D}.
Arguments dht {D}.
Arguments faults {D}.
Arguments sent {D}.

(** * Statements *)

Section Statements.
Context {D : Type} `{DHTService D}.

Abbreviation MW := (M (World D) AppErr).

Definition nget {A} (f : Node -> A) : MW A := gets (fun w => f (node w)).

Definition nset (f : Node -> Node) : MW unit :=
  modify (fun w => mkWorld (f (node w)) (dht w) (faults w) (sent w)).

(** A call to the operating system or to libp2p: does it fail? *)
Definition sys : MW bool := fun w =>
  match faults w with
  | [] => (Ok false, w)
  | b :: fs => (Ok b, mkWorld (node w) (dht w) fs (sent w))
  end.

(** [if err := call(); err != nil { return e }] *)
Definition attempt (e : AppErr) : MW unit := b <- sys;; guard b e.

(** A packet is on its way when the stream is closed. *)
Definition send (p : Packet) : MW unit :=
  modify (fun w => mkWorld (node w) (dht w) (faults w) (sent w ++ [p])).

Definition dht_call {A} (f : D -> A * D) : MW A := fun w =>
  let '(a, d) := f (dht w) in (Ok a, mkWorld (node w) d (faults w) (sent w)).

(** [x, err := f()]: the error is a value the caller looks at. *)
Definition try {A} (m : MW A) : MW (option A) := fun w =>
  match m w with
  | (Ok a, w') => (Ok (Some a), w')
  | (Err _, w') => (Ok None, w')
  | (Panic, w') => (Panic, w')
  end.

(** [if err != nil { http.Error(w, err.Error(), code); return }] *)
Definition or_http {A} (code : Z) (m : MW A) : MW A := fun w =>
  match m w with
  | (Err _, w') => (Err (HttpError code), w')
  | r => r
  end.

Definition unmarshal {A} (e : AppErr) (d : json A) : MW A :=
  match d with Json a => ret a | NotJson => fail e end.

(** [log.Fatalf] where the data does not parse. *)
Definition unmarshal_fatal {A} (d : json A) : MW A :=
  match d with Json a => ret a | NotJson => panic end.

Definition marshal {A} (a : A) : MW (json A) := ret (Json a).

(** How a run goes on after each statement. *)
Definition pop (w : World D) : World D :=
  mkWorld (node w) (dht w) (tail (faults w)) (sent w).

Definition upd_node (f : Node -> Node) (w : World D) : World D :=
  mkWorld (f (node w)) (dht w) (faults w) (sent w).

Lemma attempt_bind {A} e (k : unit -> MW A) w :
  bind (attempt e) k w = if hd false (faults w) then (Err e, pop w) else k tt (pop w).
Proof.
  unfold attempt, bind, sys, pop. destruct w as [n d [| [] fs] out]; reflexivity.
Qed.

Lemma attempt_run e w :
  attempt e w = (if hd false (faults w) then Err e else Ok tt, pop w).
Proof. unfold attempt, bind, sys, pop. destruct w as [n d [| [] fs] out]; reflexivity. Qed.

Lemma sys_run w : sys w = (Ok (hd false (faults w)), pop w).
Proof. unfold sys, pop. destruct w as [n d [| b fs] out]; reflexivity. Qed.

Lemma nget_bind {A B} (f : Node -> A) (k : A -> MW B) w : bind (nget f) k w = k (f (node w)) w.
Proof. reflexivity. Qed.

Lemma nset_bind {A} f (k : unit -> MW A) w : bind (nset f) k w = k tt (upd_node f w).
Proof. reflexivity. Qed.

Lemma ret_bind {A B} (a : A) (k : A -> MW B) w : bind (ret a) k w = k a w.
Proof. reflexivity. Qed.

Lemma guard_bind {A} b e (k : unit -> MW A) w :
  bind (guard b e) k w = if b then (Err e, w) else k tt w.
Proof. now destruct b. Qed.

Lemma fail_bind {A B} e (k : A -> MW B) w : bind (fail e) k w = (Err e, w).
Proof. reflexivity. Qed.

Lemma marshal_bind {A B} (a : A) (k : json A -> MW B) w :
  bind (marshal a) k w = k (Json a) w.
Proof. reflexivity. Qed.

Lemma node_pop w : node (pop w) = node w.
Proof. reflexivity. Qed.

Lemma node_upd f w : node (upd_node f w) = f (node w).
Proof. reflexivity. Qed.
End Statements.

Create Rewrite HintDb world.
#[export] Hint Rewrite @attempt_bind @attempt_run @nget_bind @nset_bind @ret_bind
  @guard_bind @fail_bind @marshal_bind @bind_assoc @node_pop @node_upd : world.

Abbreviation MW D := (M (World D) AppErr).

(** * Reasoning about runs

    [wp m Q w]: the run of [m] from [w] ends in an outcome and a world that
    satisfy [Q]. *)

Section Wp.
Context {S E : Type}.

Definition wp {A} (m : M S E A) (Q : outcome E A -> S -> Prop) (s : S) : Prop :=
  Q (fst (m s)) (snd (m s)).

Lemma wp_ret {A} (a : A) (Q : outcome E A -> S -> Prop) s : Q (Ok a) s -> wp (ret a) Q s.
Proof. done. Qed.

Lemma wp_conseq {A} (m : M S E A) (P Q : outcome E A -> S -> Prop) s :
  wp m P s -> (forall o s', P o s' -> Q o s') -> wp m Q s.
Proof. unfold wp. auto. Qed.

Lemma wp_bind {A B} (m : M S E A) (k : A -> M S E B) Q s :
  wp m (fun o s' => match o with
                    | Ok a => wp (k a) Q s'
                    | Err e => Q (Err e) s'
                    | Panic => Q Panic s'
                    end) s ->
  wp (bind m k) Q s.
Proof. unfold wp, bind. now destruct (m s) as [[] s']. Qed.

(** Sequencing where the intermediate states, the ones of the errors
    included, satisfy [R], and only values in [P] are returned. *)
Lemma wp_seq {A B} (R : S -> Prop) (P : A -> Prop) (m : M S E A) (k : A -> M S E B)
    (Q : outcome E B -> S -> Prop) s :
  wp m (fun o s' => R s' /\ match o with Ok a => P a | Err _ => True | Panic => False end) s ->
  (forall a s', P a -> R s' -> wp (k a) Q s') ->
  (forall e s', R s' -> Q (Err e) s') ->
  wp (bind m k) Q s.
Proof.
  intros Hm Hk He. apply wp_bind. eapply wp_conseq; [exact Hm |].
  intros [a|e|] s' [HR HP]; [auto | auto | done].
Qed.

(** Every run keeps the invariant [I], whatever its outcome, and a value it
    returns satisfies [P]. *)
Definition keeps (I : S -> Prop) {A} (m : M S E A) (P : A -> Prop) : Prop :=
  forall s, I s -> I (snd (m s)) /\ forall a, fst (m s) = Ok a -> P a.

Context (I : S -> Prop).

Lemma keeps_conseq {A} (m : M S E A) (P Q : A -> Prop) :
  keeps I m P -> (forall a, P a -> Q a) -> keeps I m Q.
Proof. intros Hm HPQ s Hs. destruct (Hm s Hs). split; eauto. Qed.

Lemma keeps_bind {A B} (m : M S E A) (k : A -> M S E B) P Q :
  keeps I m P -> (forall a, P a -> keeps I (k a) Q) -> keeps I (bind m k) Q.
Proof.
  intros Hm Hk s Hs. destruct (Hm s Hs) as [Hs' HP]. unfold bind.
  destruct (m s) as [[a|e|] s']; cbn in *; [| done ..].
  apply (Hk a); auto.
Qed.

Lemma keeps_ret {A} (a : A) : keeps I (ret a) (fun x => x = a).
Proof. intros s Hs. split; [done |]. now intros ? [= <-]. Qed.

Lemma keeps_fail {A} e : keeps I (fail e) (fun _ : A => False).
Proof. intros s Hs. split; done. Qed.

Lemma keeps_panic {A} : keeps I panic (fun _ : A => False).
Proof. intros s Hs. split; done. Qed.

Lemma keeps_guard b e : keeps I (guard b e) (fun _ => b = false).
Proof. intros s Hs. destruct b; (split; [done |]); done. Qed.

Lemma keeps_lift {A} (o : outcome E A) : keeps I (lift o) (fun a => o = Ok a).
Proof. intros s Hs. split; done. Qed.

Lemma keeps_any {A} (m : M S E A) P : keeps I m P -> keeps I m (fun _ => True).
Proof. intros Hm. now apply (keeps_conseq _ P). Qed.
End Wp.

Create HintDb keeps discriminated.
#[export] Hint Resolve keeps_ret keeps_fail keeps_panic keeps_guard keeps_lift : keeps.

Section Rules.
Context {D : Type} `{DHTService D}.

Lemma wp_attempt e (Q : outcome AppErr unit -> World D -> Prop) w :
  Q (Err e) (pop w) -> Q (Ok tt) (pop w) -> wp (attempt e) Q w.
Proof. intros. unfold wp. rewrite attempt_run. now destruct (hd false (faults w)). Qed.

(** The same where the environment does not fail. *)
Lemma wp_attempt_ok {A} e (k : unit -> MW D A) Q w :
  faults w = [] -> wp (k tt) Q w -> wp (bind (attempt e) k) Q w.
Proof. intros Hf Hk. destruct w; cbn in Hf; subst. exact Hk. Qed.

Lemma wp_sys_ok {A} (k : bool -> MW D A) Q w :
  faults w = [] -> wp (k false) Q w -> wp (bind sys k) Q w.
Proof. intros Hf Hk. destruct w; cbn in Hf; subst. exact Hk. Qed.

Lemma wp_nget {A B} (f : Node -> A) (k : A -> MW D B) Q w :
  wp (k (f (node w))) Q w -> wp (bind (nget f) k) Q w.
Proof. done. Qed.

Lemma wp_dht {A B} (f : D -> A * D) (k : A -> MW D B) Q w :
  wp (k (fst (f (dht w)))) Q (mkWorld (node w) (snd (f (dht w))) (faults w) (sent w)) ->
  wp (bind (dht_call f) k) Q w.
Proof. unfold wp, bind, dht_call. now destruct (f (dht w)). Qed.

(** [_ = f()] where [f] does not panic. *)
Lemma wp_ignore {A} (m : MW D A) (Q : outcome AppErr unit -> World D -> Prop) w :
  wp m (fun o w' => o <> Panic /\ Q (Ok tt) w') w -> wp (ignore_err m) Q w.
Proof. unfold wp, ignore_err. destruct (m w) as [[] w']; cbn; now intros []. Qed.

Lemma wp_nset f (Q : outcome AppErr unit -> World D -> Prop) w :
  Q (Ok tt) (upd_node f w) -> wp (nset f) Q w.
Proof. done. Qed.
End Rules.

(** * Paths: the part of path/filepath the code uses *)

Definition slash : Ascii.ascii := "/"%char.

(** The components of a path, empty ones included. *)
Fixpoint split_slash (s : string) : list string :=
  match s with
  | EmptyString => [EmptyString]
  | String c s' =>
      if decide (c = slash) then EmptyString :: split_slash s' else
      match split_slash s' with
      | [] => [String c EmptyString]
      | w :: ws => String c w :: ws
      end
  end.

Fixpoint join_slash (l : list string) : string :=
  match l with
  | [] => EmptyString
  | [w] => w
  | w :: l' => w +:+ String slash (join_slash l')
  end.

Definition rooted (s : string) : bool :=
  match s with String c _ => bool_decide (c = slash) | EmptyString => false end.

(** One component of [filepath.Clean] against the output so far, the last
    component first. *)
Definition clean_step (root : bool) (acc : list string) (w : string) : list string :=
  if decide (w = EmptyString \/ w = "."%string) then acc else
  if decide (w = ".."%string) then
    match acc with
    | [] => if root then [] else [w]
    | a :: acc' => if decide (a = ".."%string) then w :: acc else acc'
    end
  else w :: acc.

(** [filepath.Clean] *)
Definition Clean (s : string) : string :=
  let root := rooted s in
  let out := join_slash (rev (foldl (clean_step root) [] (split_slash s))) in
  if root then String slash out
  else if decide (out = EmptyString) then "."%string else out.

(** [filepath.Join] *)
Definition Join (l : list string) : string :=
  match filter (fun w : string => w <> EmptyString) l with
  | [] => EmptyString
  | l' => Clean (join_slash l')
  end.

(** The file a path names: a relative path starts at the working directory. *)
Definition resolve_path (cwd p : string) : string :=
  if rooted p then Clean p else Join [cwd; p].
