(* ===== verification/AppStore.v ===== *)
(** The JSON files of a node (utils/jsonFileUtil.go, and [deleteFileFromJSON]
    and [updateRatingLocally] of package files): each operation reads a file,
    changes the list in memory and writes it back.

    The abstract view of a file is a finite map from hashes to entries,
    [files_map]; the operations refine insertion, deletion and alteration of
    that map, and keep the hashes of the list pairwise distinct.

    [os.WriteFile] is not atomic: when it fails the file can be as it was, cut off
    in the middle of what was written, or complete. *)

From S2P Require Import Prelude AppTypes.

(** * The loops over the lists *)

Section Upsert.
Context {A : Type} (key : A -> string).

(** [for i := range l { if key(l[i]) == k { l[i] = f(l[i]); break } }], with
    the flag the loop sets. *)
Fixpoint update_first (k : string) (f : A -> A) (l : list A) : list A * bool :=
  match l with
  | [] => ([], false)
  | a :: l' =>
      if decide (key a = k) then (f a :: l', true)
      else let '(r, b) := update_first k f l' in (a :: r, b)
  end.

(** Update in place, or put the new entry in front. *)
Definition upsert (x : A) (l : list A) : list A * bool :=
  match update_first (key x) (fun _ => x) l with
  | (l', true) => (l', true)
  | (l', false) => (x :: l', false)
  end.

(** [append] of the entries with another key, and whether one was left out. *)
Fixpoint remove_all (k : string) (l : list A) : list A * bool :=
  match l with
  | [] => ([], false)
  | a :: l' =>
      let '(r, b) := remove_all k l' in
      if decide (key a <> k) then (a :: r, b) else (r, true)
  end.

(** The map a list stands for: the first entry with a key counts. *)
Definition files_map (l : list A) : gmap string A :=
  foldr (fun a m => <[key a := a]> m) ∅ l.
End Upsert.

(** * The operations *)

Section Store.
Context {D : Type} `{DHTService D}.

Definition doc (p : FilePath) (n : Node) : option (json (list FileMetadata)) :=
  match p with UploadedFilePath => uploaded n | DownloadedFilePath => downloaded n end.

Definition set_doc (p : FilePath) (v : option (json (list FileMetadata))) : Node -> Node :=
  match p with UploadedFilePath => set_uploaded v | DownloadedFilePath => set_downloaded v end.

(** [os.WriteFile] of the JSON text of a list: the file is opened and truncated,
    written, and closed.  When it fails, the file may not have been opened; it may
    hold a part of the text, which does not parse, since a list needs its last
    bracket; or all of it, when closing fails. *)
Definition WriteFile {X} (upd : option (json X) -> Node -> Node) (data : json X) (e : AppErr) : MW D unit :=
  failed <- sys;;
  if failed then
    truncated <- sys;;
    complete <- sys;;
    (if truncated then nset (upd (Some (if complete then data else NotJson))) else ret tt);;
    fail e
  else nset (upd (Some data)).

(** [os.Stat] and [os.Mkdir] of the directory. *)
Definition ensure_dir : MW D unit :=
  d <- nget utils_dir;;
  if d then ret tt
  else attempt (Error "failed to create utils directory");; nset (set_utils_dir true).

(** The body the two writers of utils/jsonFileUtil.go share, up to the file
    [proj]/[upd], the key of the entries and the messages [create] and
    [write]: was the entry updated? *)
Definition save_doc {A} (proj : Node -> option (json (list A)))
    (upd : option (json (list A)) -> Node -> Node) (key : A -> string)
    (create write : string) (x : A) : MW D bool :=
  ensure_dir;;
  e <- nget proj;;
  (match e with
   | Some _ => ret tt
   | None => WriteFile upd (Json []) (Error create)
   end);;
  attempt (Error "failed to read files.json");;
  data <- nget proj;;
  files <- unmarshal (Error "failed to parse JSON") (default NotJson data);;
  let '(files', isUpdated) := upsert key x files in
  updatedData <- marshal files';;
  WriteFile upd updatedData (Error write);;
  ret isUpdated.

Definition SaveOrUpdateFile (newFileData : FileMetadata) (filePath : FilePath)
  : MW D string :=
  isUpdated <- save_doc (doc filePath) (set_doc filePath) fHash
    "failed to create files.json" "failed to write updated data to files.json"
    newFileData;;
  ret (if isUpdated then "updated" else "added")%string.

Definition AddOrUpdateTransaction (transaction : Transaction) : MW D unit :=
  save_doc transactionFiles set_transactionFiles TransactionID
    "failed to create transactionFiles.json"
    "failed to write updated data to transactionFiles.json" transaction;;
  ret tt.

(** [os.ReadFile]: an error if the file is not there. *)
Definition ReadFile (p : FilePath) (e : AppErr) : MW D (json (list FileMetadata)) :=
  d <- nget (doc p);;
  match d with
  | None => fail e
  | Some data => attempt e;; ret data
  end.

Definition deleteFileFromJSON (fileHash : string) (filePath : FilePath) : MW D string :=
  data <- ReadFile filePath (Error "failed to read files.json");;
  files <- unmarshal (Error "failed to parse JSON") data;;
  let '(updatedFiles, fileFound) := remove_all fHash fileHash files in
  guard (negb fileFound) (Error "file not found in files.json");;
  updatedData <- marshal updatedFiles;;
  WriteFile (set_doc filePath) updatedData (Error "failed to write updated data to files.json");;
  ret "deleted"%string.

Definition updateRatingLocally (fileHash voteType : string) : MW D unit :=
  d <- nget utils_dir;;
  guard (negb d) (Error "utils directory doesnt exist --> cannot vote");;
  e <- nget downloaded;;
  (match e with
   | None => fail (Error "downloaded file path does not exist --> cannot vote")
   | Some _ => ret tt
   end);;
  data <- ReadFile DownloadedFilePath (Error "failed to read downloadedFiles.json");;
  files <- unmarshal (Error "failed to parse JSON") data;;
  let '(files', _) :=
    update_first fHash fileHash
      (fun f => set_fVoteType voteType (set_fHasVoted true f)) files in
  updatedData <- marshal files';;
  WriteFile (set_doc DownloadedFilePath) updatedData (Error "failed to write updated data to files.json");;
  ret tt.
End Store.

(** * The lists refine finite maps *)

Section Refine.
Context {A : Type} (key : A -> string).

Lemma files_map_lookup_None l k :
  files_map key l !! k = None <-> Forall (fun a => key a <> k) l.
Proof.
  induction l as [| a l IH]; cbn; [now rewrite lookup_empty |].
  rewrite lookup_insert_None, IH, Forall_cons. tauto.
Qed.

Lemma files_map_key l k a : files_map key l !! k = Some a -> key a = k.
Proof.
  induction l as [| b l IH]; cbn; [now rewrite lookup_empty |].
  rewrite lookup_insert_Some. intros [[<- <-] | [_ Ha]]; auto.
Qed.

(** An update that keeps the key alters the entry of that key. *)
Lemma update_first_map k f l :
  (forall a, key a = k -> key (f a) = k) ->
  files_map key (fst (update_first key k f l)) = alter f k (files_map key l) /\
  (snd (update_first key k f l) = true <-> is_Some (files_map key l !! k)).
Proof.
  intros Hf. induction l as [| a l IH]; cbn.
  - rewrite lookup_empty. split; [now rewrite alter_empty | split; [done | now intros []]].
  - destruct (update_first key k f l) as [r b]. cbn in IH. destruct IH as [IH1 IH2].
    case_decide as E; cbn.
    + rewrite Hf, <- E, alter_insert_eq, lookup_insert_eq by done.
      split; [done | split; eauto].
    + now rewrite IH1, alter_insert_ne, lookup_insert_ne by congruence.
Qed.

Lemma update_first_keys k f l :
  (forall a, key a = k -> key (f a) = k) ->
  key <$> fst (update_first key k f l) = key <$> l.
Proof.
  intros Hf. induction l as [| a l IH]; cbn; [done |].
  case_decide as E; cbn; [now rewrite Hf, E |].
  destruct (update_first key k f l). cbn in *. congruence.
Qed.

Lemma update_first_missing k f l :
  snd (update_first key k f l) = false -> fst (update_first key k f l) = l.
Proof.
  induction l as [| a l IH]; cbn; [done |].
  case_decide; cbn; [done |].
  destruct (update_first key k f l). cbn in *. intros E. now rewrite IH.
Qed.

Definition distinct (l : list A) : Prop := NoDup (key <$> l).

Lemma not_key l k : files_map key l !! k = None -> k ∉ key <$> l.
Proof.
  rewrite files_map_lookup_None, Forall_forall.
  intros Hl (a & -> & Ha)%list_elem_of_fmap. now apply (Hl a).
Qed.

(** [upsert] is insertion; it updates exactly the keys that are there. *)
Lemma upsert_map x l :
  files_map key (fst (upsert key x l)) = <[key x := x]> (files_map key l) /\
  (snd (upsert key x l) = true <-> is_Some (files_map key l !! key x)) /\
  (distinct l -> distinct (fst (upsert key x l))).
Proof.
  unfold upsert, distinct.
  destruct (update_first_map (key x) (fun _ => x) l ltac:(done)) as [Hm Hb].
  pose proof (update_first_keys (key x) (fun _ => x) l ltac:(done)) as Hk.
  pose proof (update_first_missing (key x) (fun _ => x) l) as Hn.
  destruct (update_first key (key x) (fun _ => x) l) as [l' []]; cbn in *.
  - rewrite Hm, Hk. split; [| split; [split; [intros _; now apply Hb | done] | done]].
    destruct Hb as [[a Ha] _]; [done |].
    apply map_eq. intros i. destruct (decide (i = key x)) as [-> |].
    + now rewrite lookup_alter_eq, lookup_insert_eq, Ha.
    + now rewrite lookup_alter_ne, lookup_insert_ne by congruence.
  - rewrite Hn by done. split; [done | split; [done |]].
    intros Hd. apply NoDup_cons. split; [| done].
    apply not_key, eq_None_not_Some. intros Hs. now apply Hb in Hs.
Qed.

(** [remove_all] is deletion; it reports exactly the keys that are there. *)
Lemma remove_all_map k l :
  files_map key (fst (remove_all key k l)) = delete k (files_map key l) /\
  (snd (remove_all key k l) = true <-> is_Some (files_map key l !! k)) /\
  fst (remove_all key k l) `sublist_of` l.
Proof.
  induction l as [| a l IH]; cbn.
  - rewrite delete_empty, lookup_empty. split; [done | split; [split; [done | now intros []] | done]].
  - destruct (remove_all key k l) as [r b]. cbn in IH. destruct IH as (IH1 & IH2 & IH3).
    case_decide as E; cbn.
    + rewrite IH1, delete_insert_ne, lookup_insert_ne by congruence.
      split; [done | split; [done | now apply sublist_skip]].
    + destruct (decide (key a = k)) as [<- |]; [| done].
      rewrite IH1, delete_insert_eq, lookup_insert_eq.
      split; [done | split; [split; eauto | now apply sublist_cons]].
Qed.

Lemma sublist_distinct l l' : l' `sublist_of` l -> distinct l -> distinct l'.
Proof. intros Hs Hd. eapply sublist_NoDup; [exact Hd | now apply fmap_sublist]. Qed.
End Refine.

(** * The operations refine the maps *)

(** A JSON file of the node: a variable of it that is independent of the
    directory flag. *)
Class Doc {A} (proj : Node -> option (json (list A)))
    (upd : option (json (list A)) -> Node -> Node) : Prop := {
  doc_get v n : proj (upd v n) = v;
  doc_set v v' n : upd v (upd v' n) = upd v n;
  doc_same n : upd (proj n) n = n;
  doc_utils d n : proj (set_utils_dir d n) = proj n;
  utils_doc d v n : set_utils_dir d (upd v n) = upd v (set_utils_dir d n)
}.

#[global] Instance file_doc p : Doc (doc p) (set_doc p).
Proof. destruct p; split; intros; destruct n; reflexivity. Qed.

#[global] Instance transaction_doc : Doc transactionFiles set_transactionFiles.
Proof. split; intros; destruct n; reflexivity. Qed.

Section Operations.
Context {D : Type} `{DHTService D} {A : Type} (key : A -> string).
Context (proj : Node -> option (json (list A)))
  (upd : option (json (list A)) -> Node -> Node) `{!Doc proj upd}.

(** The entries of a file; a missing file has none. *)
Definition entries (d : option (json (list A))) : option (list A) :=
  match d with None => Some [] | Some (Json l) => Some l | Some NotJson => None end.

(** The file changed as the map operation [op] says. *)
Definition refines (op : gmap string A -> gmap string A) (d d' : option (json (list A)))
  : Prop :=
  exists l l', entries d = Some l /\ entries d' = Some l' /\
    files_map key l' = op (files_map key l) /\ (distinct key l -> distinct key l').

(** Is there an entry with this key? *)
Definition known (k : string) (d : option (json (list A))) : bool :=
  match entries d with
  | Some l => bool_decide (is_Some (files_map key l !! k))
  | None => false
  end.

(** Only the file and the directory it is in were touched. *)
Definition only_doc (w w' : World D) : Prop :=
  (exists d v, node w' = set_utils_dir d (upd v (node w))) /\
  dht w' = dht w /\ sent w' = sent w /\ (faults w = [] -> faults w' = []).

(** ... and the entries are the same. *)
Definition same_entries (w w' : World D) : Prop :=
  only_doc w w' /\ entries (proj (node w')) = entries (proj (node w)).

(** What is left of the file [d] when the operation fails with [e]: the same
    entries, unless writing failed; then also a file that does not parse, or the
    result of the operation. *)
Definition left_by (writes : list AppErr) (op : gmap string A -> gmap string A) (d : option (json (list A))) (e : AppErr)
    (d' : option (json (list A))) : Prop :=
  entries d' = entries d \/ (e ∈ writes /\ (d' = Some NotJson \/ refines op d d')).

Lemma left_more ws ws' op d e d' : left_by ws op d e d' -> (forall x, x ∈ ws -> x ∈ ws') -> left_by ws' op d e d'.
Proof. intros [Hs | [He Hr]] Hw; [now left | right; auto]. Qed.

Lemma known_true k l (b : bool) :
  (b = true <-> is_Some (files_map key l !! k)) ->
  bool_decide (is_Some (files_map key l !! k)) = b.
Proof.
  intros Hb. destruct b; [now apply bool_decide_eq_true, Hb |].
  apply bool_decide_eq_false. intros Hs. now apply Hb in Hs.
Qed.

Lemma set_utils_same n : set_utils_dir (utils_dir n) n = n.
Proof. now destruct n. Qed.

Lemma set_utils_set d d' n : set_utils_dir d (set_utils_dir d' n) = set_utils_dir d n.
Proof. now destruct n. Qed.

Lemma only_doc_refl w : only_doc w w.
Proof.
  split; [| done]. exists (utils_dir (node w)), (proj (node w)).
  now rewrite doc_same, set_utils_same.
Qed.

Lemma only_doc_pop w w' : only_doc w w' -> only_doc w (pop w').
Proof.
  intros (Hn & Hd & Hs & Hf). split_and!; [done .. |]. intros E. cbn. now rewrite Hf.
Qed.

Lemma only_doc_utils d w w' : only_doc w w' -> only_doc w (upd_node (set_utils_dir d) w').
Proof.
  intros [(d0 & v & Hn) ?]. split; [| done]. exists d, v. cbn. now rewrite Hn, set_utils_set.
Qed.

Lemma only_doc_upd v w w' : only_doc w w' -> only_doc w (upd_node (upd v) w').
Proof.
  intros [(d & v0 & Hn) ?]. split; [| done]. exists d, v. cbn.
  now rewrite Hn, <- utils_doc, doc_set.
Qed.

Lemma same_pop w w' : same_entries w w' -> same_entries w (pop w').
Proof. intros [Ho He]. split; [now apply only_doc_pop | exact He]. Qed.

(** Writing when the environment does not fail. *)
Lemma WriteFile_ok_bind {B} data e (k : unit -> MW D B) (w : World D) : faults w = [] ->
  bind (WriteFile upd data e) k w = k tt (upd_node (upd (Some data)) w).
Proof. intros Hf. destruct w as [n d [| b fs] out]; [reflexivity | discriminate]. Qed.

Lemma attempt_ok_bind {B} e (k : unit -> MW D B) (w : World D) : faults w = [] -> bind (attempt e) k w = k tt w.
Proof. intros Hf. destruct w as [n d [| b fs] out]; [reflexivity | discriminate]. Qed.

Lemma unmarshal_ok_bind {X B} e (a : X) (k : X -> MW D B) (w : World D) : bind (unmarshal e (Json a)) k w = k a w.
Proof. reflexivity. Qed.

(** Writing: the four ends. *)
Lemma WriteFile_spec data e w w1 :
  only_doc w w1 ->
  wp (WriteFile upd data e) (fun o w' => only_doc w w' /\
    match o with
    | Ok _ => proj (node w') = Some data
    | Err e' => e' = e /\ (proj (node w') = proj (node w1) \/ proj (node w') = Some NotJson \/ proj (node w') = Some data)
    | Panic => False
    end) w1.
Proof.
  intros Ho. unfold WriteFile. apply wp_bind. unfold wp at 1. rewrite sys_run. cbn [fst snd].
  apply only_doc_pop in Ho. destruct (hd false (faults w1)).
  2: { apply wp_nset. split; [now apply only_doc_upd | cbn; now rewrite doc_get]. }
  apply wp_bind. unfold wp at 1. rewrite sys_run. cbn [fst snd]. apply only_doc_pop in Ho.
  apply wp_bind. unfold wp at 1. rewrite sys_run. cbn [fst snd]. apply only_doc_pop in Ho.
  destruct (hd false _); apply wp_bind.
  - apply wp_nset. split; [now apply only_doc_upd |]. split; [done |]. cbn. rewrite doc_get. destruct (hd false _); auto.
  - apply wp_ret. split; [done |]. split; [done | now left].
Qed.

Lemma ensure_dir_spec w0 w :
  same_entries w0 w ->
  wp ensure_dir (fun o w' => same_entries w0 w' /\
    match o with Ok _ => True | Err _ => True | Panic => False end) w.
Proof.
  intros Hw. unfold ensure_dir. apply wp_nget. destruct (utils_dir (node w)).
  - now apply wp_ret.
  - apply wp_bind, wp_attempt; [split; [now apply same_pop | done] |]. apply wp_nset. split; [| done].
    destruct Hw as [Ho He]. split; [apply only_doc_utils, only_doc_pop, Ho |].
    cbn. now rewrite doc_utils.
Qed.

Lemma save_doc_spec create write x w :
  wp (save_doc proj upd key create write x) (fun o w' => only_doc w w' /\
    match o with
    | Ok b => refines (<[key x := x]>) (proj (node w)) (proj (node w')) /\
              b = known (key x) (proj (node w))
    | Err e => left_by [Error create; Error write] (<[key x := x]>) (proj (node w)) e (proj (node w'))
    | Panic => False
    end) w.
Proof.
  unfold save_doc. apply wp_bind.
  eapply wp_conseq; [apply (ensure_dir_spec w); split; [apply only_doc_refl | done] |].
  intros [[] | e |] w1 [H1 Hx]; [clear Hx | split; [apply H1 | left; apply H1] | done]. apply wp_nget, wp_bind.
  assert (Hinit : wp (match proj (node w1) with Some _ => ret tt | None => WriteFile upd (Json []) (Error create) end)
    (fun o w' => match o with
      | Ok _ => same_entries w w'
      | Err e => only_doc w w' /\ left_by [Error create; Error write] (<[key x := x]>) (proj (node w)) e (proj (node w'))
      | Panic => False
      end) w1).
  { destruct (proj (node w1)) as [d |] eqn:Ed; [now apply wp_ret |]. destruct H1 as [Ho He]. rewrite Ed in He.
    eapply wp_conseq; [apply (WriteFile_spec _ _ w w1 Ho) |]. intros [[] | e |] w2 [Ho2 Hr]; [| | done].
    - split; [done |]. now rewrite Hr, <- He.
    - split; [done |]. destruct Hr as [-> [Hr | [Hr | Hr]]]; [left | right | left]; rewrite Hr; [rewrite Ed; exact He | | exact He].
      split; [constructor | now left]. }
  eapply wp_conseq; [exact Hinit |]. intros [[] | e |] w2 H2; [| exact H2 | done]. apply same_pop in H2.
  apply wp_bind, wp_attempt; [split; [apply H2 | left; apply H2] |]. apply wp_nget. cbn.
  destruct (proj (node w2)) as [[l |] |] eqn:Ed; [| split; [apply H2 | left; apply H2] ..].
  destruct H2 as [Ho He]. cbn in He. rewrite Ed in He. cbn in He.
  apply wp_bind, wp_ret. destruct (upsert key x l) as [l' b] eqn:Eu.
  destruct (upsert_map key x l) as (Hm & Hb & Hd). rewrite Eu in *. cbn in Hm, Hb, Hd.
  assert (Hdone : refines (<[key x := x]>) (proj (node w)) (Some (Json l'))) by (exists l, l'; now rewrite <- He).
  apply wp_bind, wp_ret, wp_bind.
  eapply wp_conseq; [apply (WriteFile_spec _ _ w (pop w2) Ho) |]. intros [[] | e |] w3 [Ho3 Hr]; [| | done].
  - apply wp_ret. split; [done |]. rewrite Hr. split; [done |]. unfold known. rewrite <- He. symmetry. now apply known_true.
  - split; [done |]. destruct Hr as [-> [Hr | [Hr | Hr]]]; rewrite Hr; [left; cbn; now rewrite Ed |  right; split; [repeat constructor | auto] ..].
Qed.

(** With an environment that does not fail, saving fails only on a file that
    does not parse. *)
Lemma save_doc_ok create write x (w : World D) :
  faults w = [] ->
  is_ok (fst (save_doc proj upd key create write x w)) =
  match proj (node w) with Some NotJson => false | _ => true end.
Proof.
  intros Hf. unfold save_doc.
  assert (Hdir : exists w1, (forall B (k : unit -> MW D B), bind ensure_dir k w = k tt w1) /\ faults w1 = [] /\ proj (node w1) = proj (node w)).
  { unfold ensure_dir. destruct (utils_dir (node w)) eqn:Ed; [exists w | exists (upd_node (set_utils_dir true) w)]; (split; [| split; [exact Hf |]]).
    - intros B k. now rewrite bind_assoc, nget_bind, Ed.
    - done.
    - intros B k. rewrite bind_assoc, nget_bind, Ed, bind_assoc, attempt_ok_bind by done. reflexivity.
    - cbn. apply doc_utils. }
  destruct Hdir as (w1 & Hdir & Hf1 & Hp1). rewrite Hdir, nget_bind, <- Hp1. clear Hdir Hp1 Hf w.
  destruct (proj (node w1)) as [d |] eqn:Ed; [rewrite ret_bind | rewrite WriteFile_ok_bind by done].
  - rewrite attempt_ok_bind, nget_bind, Ed by done. destruct d as [l |]; [| reflexivity]. cbn [default]. unfold id.
    rewrite unmarshal_ok_bind. destruct (upsert key x l). rewrite marshal_bind, WriteFile_ok_bind by done. reflexivity.
  - rewrite attempt_ok_bind, nget_bind by done. cbn [node upd_node]. rewrite doc_get. cbn [default]. unfold id.
    rewrite unmarshal_ok_bind. destruct (upsert key x []). rewrite marshal_bind, WriteFile_ok_bind by done. reflexivity.
Qed.

End Operations.

Section Files.
Context {D : Type} `{DHTService D}.

Lemma ReadFile_spec p e (w : World D) :
  wp (ReadFile p e) (fun o w' => same_entries (doc p) (set_doc p) w w' /\
    match o with
    | Ok d => doc p (node w') = Some d
    | Err _ => True
    | Panic => False
    end) w.
Proof.
  assert (Hw : same_entries (doc p) (set_doc p) w w) by (split; [eapply only_doc_refl, _ | done]).
  unfold ReadFile. apply wp_nget. destruct (doc p (node w)) eqn:Ed; [| done].
  apply wp_bind, wp_attempt; [split; [now apply same_pop | done] |].
  apply wp_ret. split; [now apply same_pop | done].
Qed.

(** The errors of the writes. *)
Definition write_errors : list AppErr :=
  [Error "failed to create files.json"; Error "failed to write updated data to files.json"].
Definition transaction_write_errors : list AppErr :=
  [Error "failed to create transactionFiles.json"; Error "failed to write updated data to transactionFiles.json"].

Lemma writes_errors x : x ∈ [Error "failed to write updated data to files.json"] -> x ∈ write_errors.
Proof. rewrite list_elem_of_singleton. intros ->. repeat constructor. Qed.

(** Writing back a list that the loop computed from the one on disk. *)
Lemma write_back_spec {B} p op l l' e (b : B) (w w1 : World D) :
  same_entries (doc p) (set_doc p) w w1 ->
  doc p (node w1) = Some (Json l) ->
  files_map fHash l' = op (files_map fHash l) -> (distinct fHash l -> distinct fHash l') ->
  wp (d <- marshal l';; WriteFile (set_doc p) d e;; ret b) (fun o w' =>
    only_doc (set_doc p) w w' /\
    match o with
    | Ok x => refines fHash op (doc p (node w)) (doc p (node w')) /\ x = b
    | Err e' => left_by fHash [e] op (doc p (node w)) e' (doc p (node w'))
    | Panic => False
    end) w1.
Proof.
  intros [Ho He] Ed Hm Hd. rewrite Ed in He. cbn in He.
  assert (Hdone : refines fHash op (doc p (node w)) (Some (Json l'))) by (exists l, l'; now rewrite <- He).
  apply wp_bind, wp_ret, wp_bind.
  eapply wp_conseq; [apply (WriteFile_spec (doc p) (set_doc p) _ _ w w1 Ho) |]. intros [[] | e' |] w2 [Ho2 Hr]; [| | done].
  - apply wp_ret. split; [done |]. now rewrite Hr.
  - split; [done |]. destruct Hr as [-> [Hr | [Hr | Hr]]]; rewrite Hr; [left; now rewrite Ed | right; split; [repeat constructor | auto] ..].
Qed.

Lemma deleteFileFromJSON_spec h p (w : World D) :
  wp (deleteFileFromJSON h p) (fun o w' => only_doc (set_doc p) w w' /\
    match o with
    | Ok a => refines fHash (delete h) (doc p (node w)) (doc p (node w')) /\
              a = "deleted"%string /\ known fHash h (doc p (node w)) = true
    | Err e => left_by fHash write_errors (delete h) (doc p (node w)) e (doc p (node w'))
    | Panic => False
    end) w.
Proof.
  unfold deleteFileFromJSON. apply wp_bind. eapply wp_conseq; [apply ReadFile_spec |].
  intros [[l |] | |] w1 [Hs Hd]; [| split; [apply Hs | left; apply Hs] .. | done].
  apply wp_bind, wp_ret. destruct (remove_all_map fHash h l) as (Hm & Hb & Hsub).
  pose proof (proj2 Hs) as He. rewrite Hd in He. cbn in He.
  destruct (remove_all fHash h l) as [l' []]; cbn in *; apply wp_bind; [| split; [apply Hs | left; apply Hs]].
  apply wp_ret. eapply wp_conseq.
  - apply (write_back_spec p (delete h) l); [done | done | done |].
    now apply sublist_distinct.
  - intros o w' [Ho Hr]. split; [done |]. destruct o; [| now apply (left_more _ _ _ _ _ _ _ Hr), writes_errors | done].
    destruct Hr as [Hr ->]. split; [done | split; [done |]].
    unfold known. rewrite <- He. apply bool_decide_eq_true. now apply Hb.
Qed.

Lemma updateRatingLocally_spec h v (w : World D) :
  let p := DownloadedFilePath in
  let op := alter (fun f => set_fVoteType v (set_fHasVoted true f)) h in
  wp (updateRatingLocally h v) (fun o w' => only_doc (set_doc p) w w' /\
    match o with
    | Ok _ => refines fHash op (doc p (node w)) (doc p (node w'))
    | Err e => left_by fHash write_errors op (doc p (node w)) e (doc p (node w'))
    | Panic => False
    end) w.
Proof.
  intros p op. unfold updateRatingLocally.
  assert (Hw : only_doc (set_doc p) w w) by (eapply only_doc_refl, _).
  assert (Hsame : forall e, left_by fHash write_errors op (doc p (node w)) e (doc p (node w))) by (intros; now left).
  apply wp_nget. destruct (utils_dir (node w)); [| split; [exact Hw | apply Hsame]]. apply wp_bind, wp_ret, wp_nget.
  destruct (downloaded (node w)) eqn:E; [| apply wp_bind; split; [exact Hw | apply Hsame]]. apply wp_bind, wp_ret.
  apply wp_bind. eapply wp_conseq; [apply ReadFile_spec |].
  intros [[l |] | |] w1 [Hs Hd]; [| split; [apply Hs | left; apply Hs] .. | done].
  apply wp_bind, wp_ret.
  destruct (update_first_map fHash h (fun f => set_fVoteType v (set_fHasVoted true f)) l
              ltac:(done)) as [Hm _].
  pose proof (update_first_keys fHash h (fun f => set_fVoteType v (set_fHasVoted true f)) l
                ltac:(done)) as Hk.
  destruct (update_first _ _ _ l) as [l' b]. cbn in Hm, Hk.
  eapply wp_conseq.
  - apply (write_back_spec p op l l' _ tt w w1 Hs Hd Hm). unfold distinct. now rewrite Hk.
  - intros o w' [Ho Hr]. split; [done |]. destruct o as [[] | |]; [apply Hr | now apply (left_more _ _ _ _ _ _ _ Hr), writes_errors | done].
Qed.
End Files.

(** * The property *)

(** C19: the JSON files implement finite maps from hashes to entries.  From any
    state and whatever the operating system answers, no operation panics, none
    touches anything but its file and the directory of it, and one that succeeds
    performs the map operation: saving is insertion and answers updated or added as
    the hash was there or not, deleting is deletion and succeeds only on a hash
    that is there, voting alters the one entry, and the hashes stay pairwise
    distinct.  An operation that fails leaves the entries as they were, unless
    writing the file failed: then the file may also be cut off, so that it does
    not parse and the entries are lost, or hold the result of the operation.  A file
    that does not parse stays so: every operation on it fails.  When the
    operating system does not fail, saving fails only on such a file. *)
Theorem json_store_refines {D} `{DHTService D} (w : World D) p :
  (forall f, wp (SaveOrUpdateFile f p) (fun o w' => only_doc (set_doc p) w w' /\
    match o with
    | Ok a => refines fHash (<[fHash f := f]>) (doc p (node w)) (doc p (node w')) /\
              a = (if known fHash (fHash f) (doc p (node w)) then "updated" else "added")%string
    | Err e => left_by fHash write_errors (<[fHash f := f]>) (doc p (node w)) e (doc p (node w'))
    | Panic => False
    end) w) /\
  (forall h, wp (deleteFileFromJSON h p) (fun o w' => only_doc (set_doc p) w w' /\
    match o with
    | Ok a => refines fHash (delete h) (doc p (node w)) (doc p (node w')) /\
              a = "deleted"%string /\ known fHash h (doc p (node w)) = true
    | Err e => left_by fHash write_errors (delete h) (doc p (node w)) e (doc p (node w'))
    | Panic => False
    end) w) /\
  (forall h v, let op := alter (fun f => set_fVoteType v (set_fHasVoted true f)) h in
    wp (updateRatingLocally h v) (fun o w' =>
    only_doc (set_doc DownloadedFilePath) w w' /\
    match o with
    | Ok _ => refines fHash op (downloaded (node w)) (downloaded (node w'))
    | Err e => left_by fHash write_errors op (downloaded (node w)) e (downloaded (node w'))
    | Panic => False
    end) w) /\
  (forall t, wp (AddOrUpdateTransaction t) (fun o w' =>
    only_doc set_transactionFiles w w' /\
    match o with
    | Ok _ => refines TransactionID (<[TransactionID t := t]>)
                (transactionFiles (node w)) (transactionFiles (node w'))
    | Err e => left_by TransactionID transaction_write_errors (<[TransactionID t := t]>)
                 (transactionFiles (node w)) e (transactionFiles (node w'))
    | Panic => False
    end) w) /\
  (faults w = [] -> doc p (node w) <> Some NotJson ->
   forall f, is_ok (fst (SaveOrUpdateFile f p w)) = true).
Proof.
  split_and!.
  - intros f. apply wp_bind. eapply wp_conseq; [apply save_doc_spec, _ |].
    intros [b | |] w' [Ho Hr]; [| done | done]. destruct Hr as [Hr ->]. now apply wp_ret.
  - intros h. apply deleteFileFromJSON_spec.
  - intros h v. apply (updateRatingLocally_spec h v).
  - intros t. apply wp_bind. eapply wp_conseq; [apply save_doc_spec, _ |].
    intros [b | |] w' [Ho Hr]; [| done | done]. now apply wp_ret.
  - intros Hf Hd f. unfold SaveOrUpdateFile, bind.
    pose proof (save_doc_ok fHash (doc p) (set_doc p) "failed to create files.json"
      "failed to write updated data to files.json" f w Hf) as Hk.
    destruct (save_doc _ _ _ _ _ _ w) as [[] w']; cbn in *; try rewrite Hk; now destruct (doc p (node w)) as [[|]|].
Qed.

(** A node with nothing on its disk. *)
Definition fresh_node (peer : string) : Node :=
  mkNode peer ["/ip4/10.0.0.1/tcp/4001"%string] "/home/squid/application-layer/app"%string
    None false None None None ∅ ∅ ∅ false false None 0.

Definition example_file : FileMetadata :=
  mkFile "notes" "notes.txt" "text/plain" 3 "three bytes" "a1b2" true 5 "2024-12-01" true
    EmptyString false.

Definition example_world : World (gmap string (json DHTMetadata)) :=
  mkWorld (fresh_node "peerA") ∅ [] [].

Lemma json_store_refines_witness :
  faults example_world = [] /\ doc UploadedFilePath (node example_world) <> Some NotJson /\
  is_ok (fst (SaveOrUpdateFile example_file UploadedFilePath example_world)) = true.
Proof.
  split; [reflexivity | split; [done |]].
  destruct (json_store_refines example_world UploadedFilePath) as (_ & _ & _ & _ & Hok).
  apply Hok; [reflexivity | done].
Defined.

(** The disk is full when the list is written: the entry that was there is lost. *)
Example torn_write :
  let w := snd (SaveOrUpdateFile example_file UploadedFilePath example_world) in
  let full := mkWorld (node w) (dht w) [false; true; true] [] in
  uploaded (node w) = Some (Json [example_file]) /\
  SaveOrUpdateFile (set_fHasVoted true example_file) UploadedFilePath full =
    (Err (Error "failed to write updated data to files.json"),
     mkWorld (set_uploaded (Some NotJson) (node w)) (dht w) [] []).
Proof. split; reflexivity. Qed.
