(* ===== verification/AppDht.v ===== *)
(** What a node does with the DHT: [UpdateFileInDHT] of dht/dhtHelper.go,
    [removeProvider] of files/files.go, [votingHelper] of files/rating.go, and
    the streams they send on.

    The invariant of the metadata is the tally: the rating of a file is the
    number of its providers that voted up minus the number that voted down,
    and its number of raters is the number of providers that voted.  It is a
    property of each stored value, so a DHT that answers with an old value
    cannot break it. *)

From S2P Require Import Prelude AppTypes AppStore.

Definition upvote : string := "upvote".
Definition downvote : string := "downvote".

(** The key of a file in the DHT. *)
Definition meta_key (hash : string) : string := "/orcanet/" +:+ hash.

Definition Cloud_node_id : string :=
  "12D3KooWAZv5dC3xtzos2KiJm2wDqiLGJ5y4gwC7WSKU5DvmCLEL".

Section Dht.
Context {D : Type} `{DHTService D}.

(** multiaddr and peer are third-party: what [multiaddr.StringCast] (which may
    panic) and [peer.AddrInfoFromP2pAddr] (which may fail) make of a peer id. *)
Context (resolve : string -> outcome AppErr string).

(** Writing to a nil map panics. *)
Definition map_assign (k : string) (v : Provider) (m : option (gmap string Provider))
  : MW D (option (gmap string Provider)) :=
  match m with None => panic | Some m' => ret (Some (<[k := v]> m')) end.

Definition map_get (k : string) (m : option (gmap string Provider)) : option Provider :=
  match m with None => None | Some m' => m' !! k end.

(** ** Streams *)

Definition CreateNewStream (targetPeerID : string) : MW D string :=
  peerinfo <- lift (resolve targetPeerID);;
  attempt (Error "failed to connect to peer");;
  attempt (Error "failed to open stream to peer");;
  ret peerinfo.

Definition SendCloudNodeFiles (fileMetadata : DHTMetadata) : MW D unit :=
  peer <- CreateNewStream Cloud_node_id;;
  attempt (Error "failed to send file metadata to cloud node");;
  send (mkPacket peer "/nodeFiles/p2p" (BNodeFile fileMetadata)).

(** ** Files *)

Definition ProvideKey (key : string) : MW D unit :=
  ok <- dht_call (Provide key);;
  guard (negb ok) (Error "failed to start providing key").

(** The provider entry: a new one, or the old one with its status and fee. *)
Definition update_provider (currentInfo : FileMetadata) (provider : Provider)
    (existing : option Provider) : Provider :=
  match existing with
  | Some existingProvider =>
      set_pFee (fFee currentInfo) (set_IsActive (fIsPublished currentInfo) existingProvider)
  | None => provider
  end.

(** The vote that comes with the file, if the provider has none yet. *)
Definition apply_vote (voteType : string) (provider : Provider) (m : DHTMetadata)
  : DHTMetadata * Provider :=
  if decide (voteType = upvote) then
    (set_NumRaters (int64 (NumRaters m + 1)) (set_Rating (int64 (Rating m + 1)) m),
     set_pRating upvote provider)
  else if decide (voteType = downvote) then
    (set_NumRaters (int64 (NumRaters m + 1)) (set_Rating (int64 (Rating m - 1)) m),
     set_pRating downvote provider)
  else (m, provider).

Definition new_metadata (i : FileMetadata) : DHTMetadata :=
  mkMeta (fName i) (fNameWithExtension i) (fType i) (fSize i) (fDescription i)
    (fCreatedAt i) 0 (Some ∅) 0 0 0 (fHash i).

Definition UpdateFileInDHT (currentInfo : FileMetadata) : MW D DHTMetadata :=
  me <- nget PeerID;;
  existingData <- dht_call (GetValue (meta_key (fHash currentInfo)));;
  currentMetadata <-
    (match existingData with
     | Some data => unmarshal_fatal data
     | None => ret (new_metadata currentInfo)
     end);;
  addrs <- nget Addrs;;
  addr <- lift (index addrs 0);;
  let provider :=
    mkProvider addr (fIsPublished currentInfo) (fFee currentInfo) EmptyString in
  let entry := update_provider currentInfo provider
                 (map_get me (Providers currentMetadata)) in
  providers <- map_assign me entry (Providers currentMetadata);;
  let currentMetadata := set_Providers providers currentMetadata in
  currentMetadata <-
    (if decide (pRating entry = EmptyString) then
       let '(m, p) := apply_vote (fVoteType currentInfo) entry currentMetadata in
       providers <- map_assign me p (Providers m);;
       ret (set_Providers providers m)
     else ret currentMetadata);;
  dhtMetadataBytes <- marshal currentMetadata;;
  ProvideKey (fHash currentInfo);;
  ok <- dht_call (PutValue (meta_key (fHash currentInfo)) dhtMetadataBytes);;
  guard (negb ok) (Error "failed to updated file in dht");;
  ret currentMetadata.

(** The map the Go code changes belongs to the value it has just decoded. *)
Definition removeProvider (hash : string) (isDelete : bool) : MW D unit :=
  me <- nget PeerID;;
  data <- dht_call (GetValue (meta_key hash));;
  (match data with
   | None => fail (Error "failed to get file from dht for provider updating")
   | Some d =>
       metadata <- unmarshal (Error "failed to unmarshal data") d;;
       let metadata :=
         if isDelete then set_Providers (delete me <$> Providers metadata) metadata
         else set_Providers (alter (set_IsActive false) me <$> Providers metadata) metadata in
       ret tt
   end).

(** ** Votes *)

Definition count_vote (voteType : string) (m : DHTMetadata) : DHTMetadata :=
  if decide (voteType = upvote) then
    set_Rating (int64 (Rating m + 1)) (set_Upvote (int64 (Upvote m + 1)) m)
  else if decide (voteType = downvote) then
    set_Downvote (int64 (Downvote m + 1)) (set_Rating (int64 (Rating m - 1)) m)
  else m.

Definition votingHelper (fileHash voteType : string) : MW D unit :=
  me <- nget PeerID;;
  got <- dht_call (GetValue (meta_key fileHash));;
  data <- (match got with
           | None => fail (Error "failed to retrieve file data")
           | Some d => ret d
           end);;
  metadata <- unmarshal (Error "failed to decode metadata") data;;
  guard (bool_decide (voteType <> upvote /\ voteType <> downvote))
    (Error "invalid vote type");;
  provider <- (match map_get me (Providers metadata) with
               | None => fail (Error "user is not a provider and cannot vote")
               | Some p => ret p
               end);;
  guard (bool_decide (pRating provider <> EmptyString)) (Error "user has already voted");;
  let metadata := count_vote voteType metadata in
  providers <- map_assign me (set_pRating voteType provider) (Providers metadata);;
  let metadata := set_Providers providers metadata in
  let metadata := set_NumRaters (int64 (NumRaters metadata + 1)) metadata in
  updatedData <- marshal metadata;;
  _ok <- dht_call (PutValue (meta_key fileHash) updatedData);;
  ignore_err (updateRatingLocally fileHash voteType);;
  ignore_err (SendCloudNodeFiles metadata);;
  ret tt.
End Dht.

(** * The tally *)

Definition votes (r : string) (ps : gmap string Provider) : Z :=
  Z.of_nat (size (filter (fun kv : string * Provider => pRating kv.2 = r) ps)).

Definition vote_of (r : string) (o : option Provider) : Z :=
  match o with Some p => if decide (pRating p = r) then 1 else 0 | None => 0 end.

Lemma votes_empty r : votes r ∅ = 0.
Proof. unfold votes. now rewrite map_filter_empty, map_size_empty. Qed.

Lemma votes_insert r k p ps :
  votes r (<[k := p]> ps) = votes r ps - vote_of r (ps !! k) + vote_of r (Some p).
Proof.
  unfold votes, vote_of. rewrite map_filter_insert; cbn.
  assert (Hl : filter (fun kv : string * Provider => pRating kv.2 = r) ps !! k =
               match ps !! k with
               | Some q => if decide (pRating q = r) then Some q else None
               | None => None
               end).
  { rewrite map_lookup_filter. destruct (ps !! k) as [q |]; cbn; [| done].
    destruct (decide (pRating q = r)).
    - now rewrite option_guard_True.
    - now rewrite option_guard_False. }
  destruct (decide (pRating p = r)).
  - rewrite map_size_insert, Hl.
    destruct (ps !! k) as [q |]; [destruct (decide (pRating q = r)) |]; cbn; lia.
  - rewrite map_filter_delete, map_size_delete, Hl.
    destruct (ps !! k) as [q |]; [destruct (decide (pRating q = r)) |]; cbn; try lia.
    assert (size (filter (fun kv : string * Provider => pRating kv.2 = r) ps) <> 0%nat).
    { intros Hz. apply map_size_empty_inv in Hz. now rewrite Hz, lookup_empty in Hl. }
    lia.
Qed.

(** Every provider has voted up, down or not at all, and the totals agree. *)
Record tally_ok (m : DHTMetadata) (ps : gmap string Provider) : Prop := {
  tally_providers : Providers m = Some ps;
  tally_votes k p : ps !! k = Some p ->
    pRating p = EmptyString \/ pRating p = upvote \/ pRating p = downvote;
  tally_rating : Rating m = int64 (votes upvote ps - votes downvote ps);
  tally_raters : NumRaters m = int64 (votes upvote ps + votes downvote ps)
}.

Definition tallied (m : DHTMetadata) : Prop := exists ps, tally_ok m ps.

Lemma int64_add a b : int64 (int64 a + b) = int64 (a + b).
Proof.
  unfold wrapS. f_equal.
  replace ((a + 2 ^ (64 - 1)) mod 2 ^ 64 - 2 ^ (64 - 1) + b + 2 ^ (64 - 1))
    with ((a + 2 ^ (64 - 1)) mod 2 ^ 64 + b) by lia.
  rewrite Zplus_mod_idemp_l. f_equal. lia.
Qed.

Lemma new_metadata_tallied i : tallied (new_metadata i).
Proof. exists ∅. split; cbn; rewrite ?votes_empty; done. Qed.

(** What an entry counts for in the rating and in the number of raters. *)
Definition value (o : option Provider) : Z := vote_of upvote o - vote_of downvote o.
Definition cast (o : option Provider) : Z := vote_of upvote o + vote_of downvote o.

Lemma tally_insert m m' ps me p :
  tally_ok m ps ->
  (pRating p = EmptyString \/ pRating p = upvote \/ pRating p = downvote) ->
  Providers m' = Some (<[me := p]> ps) ->
  Rating m' = int64 (Rating m + (value (Some p) - value (ps !! me))) ->
  NumRaters m' = int64 (NumRaters m + (cast (Some p) - cast (ps !! me))) ->
  tally_ok m' (<[me := p]> ps).
Proof.
  unfold value, cast. intros [Hp Hv Hr Hn] Hval HP HR HN. split; [done | | |].
  - intros k q [[<- <-] | [_ Hq]]%lookup_insert_Some; [done | eauto].
  - rewrite HR, Hr, int64_add, !votes_insert. f_equal. lia.
  - rewrite HN, Hn, int64_add, !votes_insert. f_equal. lia.
Qed.

(** An entry whose vote does not change. *)
Lemma tally_same m ps me p :
  tally_ok m ps ->
  (pRating p = EmptyString \/ pRating p = upvote \/ pRating p = downvote) ->
  value (Some p) = value (ps !! me) -> cast (Some p) = cast (ps !! me) ->
  tally_ok (set_Providers (Some (<[me := p]> ps)) m) (<[me := p]> ps).
Proof.
  intros Ht Hval Hv Hc. pose proof Ht as [_ _ Hr Hn].
  apply (tally_insert m _ ps me p); [done | done | done | |]; cbn.
  - now rewrite Hv, Z.sub_diag, Hr, int64_add, Z.add_0_r.
  - now rewrite Hc, Z.sub_diag, Hn, int64_add, Z.add_0_r.
Qed.

Lemma value_rating p q : pRating p = pRating q -> value (Some p) = value (Some q).
Proof. unfold value, vote_of. now intros ->. Qed.

Lemma cast_rating p q : pRating p = pRating q -> cast (Some p) = cast (Some q).
Proof. unfold cast, vote_of. now intros ->. Qed.

Lemma no_vote p : pRating p = EmptyString -> value (Some p) = 0 /\ cast (Some p) = 0.
Proof. unfold value, cast, vote_of. now intros ->. Qed.

Lemma up_vote p : pRating p = upvote -> value (Some p) = 1 /\ cast (Some p) = 1.
Proof. unfold value, cast, vote_of. now intros ->. Qed.

Lemma down_vote p : pRating p = downvote -> value (Some p) = -1 /\ cast (Some p) = 1.
Proof. unfold value, cast, vote_of. now intros ->. Qed.

(** The entry [UpdateFileInDHT] writes first: the vote of the node stays. *)
Lemma update_provider_tally i addr m ps me :
  tally_ok m ps ->
  let p := update_provider i (mkProvider addr (fIsPublished i) (fFee i) EmptyString) (ps !! me) in
  tally_ok (set_Providers (Some (<[me := p]> ps)) m) (<[me := p]> ps).
Proof.
  intros Ht p. apply tally_same; [done | ..]; subst p; unfold update_provider;
    destruct (ps !! me) as [q |] eqn:E; try done; cbn.
  - exact (tally_votes _ _ Ht _ _ E).
  - auto.
Qed.

(** The vote a file brings along is counted once. *)
Lemma apply_vote_tally v p m ps me :
  tally_ok m ps -> ps !! me = Some p -> pRating p = EmptyString ->
  let '(m', p') := apply_vote v p m in
  tally_ok (set_Providers (Some (<[me := p']> ps)) m') (<[me := p']> ps).
Proof.
  intros Ht Hp Hr. destruct (no_vote p Hr) as [Hv Hc]. unfold apply_vote.
  repeat case_decide.
  - destruct (up_vote (set_pRating upvote p) eq_refl) as [Hv' Hc'].
    eapply (tally_insert m); rewrite ?Hp, ?Hv, ?Hc, ?Hv', ?Hc'; cbn; auto.
  - destruct (down_vote (set_pRating downvote p) eq_refl) as [Hv' Hc'].
    eapply (tally_insert m); rewrite ?Hp, ?Hv, ?Hc, ?Hv', ?Hc'; cbn; auto.
  - apply tally_same; rewrite ?Hp; auto.
Qed.

(** A vote of a provider that has not voted. *)
Lemma count_vote_tally v p m ps me :
  tally_ok m ps -> ps !! me = Some p -> pRating p = EmptyString ->
  v = upvote \/ v = downvote ->
  let m' := set_Providers (Some (<[me := set_pRating v p]> ps)) (count_vote v m) in
  tally_ok (set_NumRaters (int64 (NumRaters m' + 1)) m') (<[me := set_pRating v p]> ps).
Proof.
  intros Ht Hp Hr Hv'. destruct (no_vote p Hr) as [Hv Hc].
  destruct Hv' as [-> | ->].
  - destruct (up_vote (set_pRating upvote p) eq_refl) as [Hv' Hc'].
    eapply (tally_insert m); rewrite ?Hp, ?Hv, ?Hc, ?Hv', ?Hc'; cbn; auto.
  - destruct (down_vote (set_pRating downvote p) eq_refl) as [Hv' Hc'].
    eapply (tally_insert m); rewrite ?Hp, ?Hv, ?Hc, ?Hv', ?Hc'; cbn; auto.
Qed.

(** Every value the DHT may answer with is a metadata record with a right tally,
    but for the keys [K] that something else has written to. *)
Definition tallied_json (v : json DHTMetadata) : Prop := exists m, v = Json m /\ tallied m.

Definition dht_ok {D} `{DHTLaws D} (K : gset string) (d : D) : Prop :=
  forall k v, stored d k v -> k ∈ K \/ tallied_json v.

(** The hashes of the files and the ids of the transactions of a node are
    pairwise distinct. *)
Definition distinct_doc {A} (key : A -> string) (d : option (json (list A))) : Prop :=
  match d with Some (Json l) => distinct key l | _ => True end.

Definition node_ok (n : Node) : Prop :=
  (forall p, distinct_doc fHash (doc p n)) /\ distinct_doc TransactionID (transactionFiles n).

Section Sound.
Context {D : Type} `{DHTLaws D} (K : gset string).

Definition sound (w : World D) : Prop := dht_ok K (dht w) /\ node_ok (node w).

(** A statement that leaves the DHT and the node alone keeps them sound. *)
Lemma keeps_same {A} (m : MW D A) :
  (forall w, dht (snd (m w)) = dht w) -> (forall w, node (snd (m w)) = node w) ->
  keeps sound m (fun _ => True).
Proof. intros Hd Hn w Hw. split; [| done]. unfold sound. now rewrite Hd, Hn. Qed.

Lemma keeps_nget {A} (f : Node -> A) : keeps sound (nget f) (fun _ => True).
Proof. now apply keeps_same. Qed.

Lemma keeps_nset f :
  (forall n, node_ok n -> node_ok (f n)) -> keeps sound (nset f) (fun _ => True).
Proof. intros Hf w [Hd Hn]. split; [split; [exact Hd | now apply Hf] | done]. Qed.

Lemma keeps_sys : keeps sound sys (fun _ => True).
Proof. apply keeps_same; intros w; unfold sys; now destruct (faults w). Qed.

Lemma keeps_attempt e : keeps sound (attempt e) (fun _ => True).
Proof. apply keeps_same; intros w; now rewrite attempt_run. Qed.

Lemma keeps_send p : keeps sound (send p) (fun _ => True).
Proof. now apply keeps_same. Qed.

Lemma keeps_unmarshal {A} e (d : json A) : keeps sound (unmarshal e d) (fun a => d = Json a).
Proof. destruct d; intros w Hw; (split; [done | cbn; congruence]). Qed.

Lemma keeps_unmarshal_fatal {A} (d : json A) :
  keeps sound (unmarshal_fatal d) (fun a => d = Json a).
Proof. destruct d; intros w Hw; (split; [done | cbn; congruence]). Qed.

Lemma keeps_marshal {A} (a : A) : keeps sound (marshal a) (fun d => d = Json a).
Proof. apply keeps_ret. Qed.

Lemma keeps_Get k :
  keeps sound (dht_call (GetValue k)) (fun o => forall v, o = Some v -> k ∈ K \/ tallied_json v).
Proof.
  intros w Hw. unfold dht_call. destruct (GetValue k (dht w)) as [o d'] eqn:E. cbn. split.
  - split; [intros k' v' Hs; eapply Hw, GetValue_old; eauto | apply Hw].
  - intros ? [= <-] v ->. eapply Hw, GetValue_stored; eauto.
Qed.

Lemma keeps_Put k v :
  k ∈ K \/ tallied_json v -> keeps sound (dht_call (PutValue k v)) (fun _ => True).
Proof.
  intros Hv w Hw. unfold dht_call. destruct (PutValue k v (dht w)) as [b d'] eqn:E. cbn.
  split; [split; [| apply Hw] | done]. intros k' v' Hs.
  destruct (PutValue_old _ _ _ _ _ _ _ E Hs) as [? | [-> ->]]; [| done]. eapply Hw; eauto.
Qed.

Lemma keeps_Provide k : keeps sound (dht_call (Provide k)) (fun _ => True).
Proof.
  intros w Hw. unfold dht_call. destruct (Provide k (dht w)) as [b d'] eqn:E. cbn.
  split; [split; [| apply Hw] | done]. intros k' v' Hs. eapply Hw, Provide_old; eauto.
Qed.

Lemma keeps_ignore {A} (m : MW D A) P :
  keeps sound m P -> keeps sound (ignore_err m) (fun _ => True).
Proof.
  intros Hm w Hw. destruct (Hm w Hw) as [Hs _]. unfold ignore_err.
  now destruct (m w) as [[] w'].
Qed.

Lemma keeps_try {A} (m : MW D A) P :
  keeps sound m P -> keeps sound (try m) (fun o => forall a, o = Some a -> P a).
Proof.
  intros Hm w Hw. destruct (Hm w Hw) as [Hs HP]. unfold try.
  destruct (m w) as [[a | |] w']; cbn in *; (split; [done |]).
  - intros ? [= <-] ? [= <-]. now apply HP.
  - now intros ? [= <-].
  - done.
Qed.

Lemma keeps_or_http {A} c (m : MW D A) P : keeps sound m P -> keeps sound (or_http c m) P.
Proof.
  intros Hm w Hw. destruct (Hm w Hw) as [Hs HP]. unfold or_http.
  destruct (m w) as [[a | |] w']; cbn in *; (split; [done |]); try done.
Qed.

(** Operations on the JSON files: the entries are the old ones, or the ones of
    a map operation. *)
Lemma distinct_entries {A} (key : A -> string) d d' :
  entries d' = entries d -> distinct_doc key d -> distinct_doc key d'.
Proof.
  destruct d as [[l |] |], d' as [[l' |] |]; cbn; intros [=]; subst; try done.
  intros _. constructor.
Qed.

Lemma distinct_refines {A} (key : A -> string) op d d' :
  refines key op d d' -> distinct_doc key d -> distinct_doc key d'.
Proof.
  intros (l & l' & Hl & Hl' & _ & Hd).
  destruct d as [[] |], d' as [[] |]; cbn in *; simplify_eq; auto.
  intros _. apply Hd. constructor.
Qed.

Lemma distinct_left {A} (key : A -> string) ws op d e d' :
  left_by key ws op d e d' -> distinct_doc key d -> distinct_doc key d'.
Proof. intros [He | [_ [-> | Hr]]] Hd; [eapply distinct_entries; eauto | done | eapply distinct_refines; eauto]. Qed.

Lemma node_ok_file p d v n :
  node_ok n -> distinct_doc fHash v -> node_ok (set_utils_dir d (set_doc p v n)).
Proof. intros [Hf Ht] Hv. split; [intros q; specialize (Hf q) |]; destruct p; try destruct q; done. Qed.

Lemma node_ok_transactions d v n :
  node_ok n -> distinct_doc TransactionID v -> node_ok (set_utils_dir d (set_transactionFiles v n)).
Proof. intros [Hf Ht] Hv. split; [intros q; specialize (Hf q); now destruct q | done]. Qed.

Lemma keeps_file {A} p ws op (m : MW D A) :
  (forall w, wp m (fun o w' => only_doc (set_doc p) w w' /\
     match o with
     | Ok _ => refines fHash op (doc p (node w)) (doc p (node w'))
     | Err e => left_by fHash ws op (doc p (node w)) e (doc p (node w'))
     | Panic => False
     end) w) ->
  keeps sound m (fun _ => True).
Proof.
  intros Hm w [Hd Hn]. destruct (Hm w) as [((d & v & Hw) & Hd' & _) Ho].
  split; [| done]. split; [now rewrite Hd' |]. rewrite Hw in *.
  apply node_ok_file; [done |]. rewrite doc_utils, doc_get in Ho. destruct Hn as [Hf _].
  destruct (fst (m w)); [eapply distinct_refines | eapply distinct_left | done]; eauto.
Qed.

Lemma keeps_Save f p : keeps sound (SaveOrUpdateFile f p) (fun _ => True).
Proof.
  apply (keeps_file p write_errors (<[fHash f := f]>)). intros w. apply wp_bind.
  eapply wp_conseq; [apply save_doc_spec, _ |].
  intros [b | |] w' [Ho Hr]; [| done | done]. now apply wp_ret.
Qed.

Lemma keeps_AddTransaction t : keeps sound (AddOrUpdateTransaction t) (fun _ => True).
Proof.
  intros w [Hd Hn]. unfold AddOrUpdateTransaction, bind, ret.
  destruct (save_doc_spec TransactionID transactionFiles set_transactionFiles
    "failed to create transactionFiles.json"
    "failed to write updated data to transactionFiles.json" t w) as [((d & v & Hw) & Hd' & _) Ho].
  destruct (save_doc _ _ _ _ _ _ w) as [o w']. cbn in *.
  enough (sound w') by now destruct o.
  split; [now rewrite Hd' |]. rewrite Hw in *. apply node_ok_transactions; [done |].
  rewrite doc_utils, doc_get in Ho. destruct Hn as [_ Ht].
  destruct o; [eapply distinct_refines; [apply Ho |] | eapply distinct_left |]; eauto. done.
Qed.

Lemma keeps_delete h p : keeps sound (deleteFileFromJSON h p) (fun _ => True).
Proof.
  apply (keeps_file p write_errors (delete h)). intros w.
  eapply wp_conseq; [apply deleteFileFromJSON_spec |].
  intros [] w' [Ho Hr]; [split; [done | apply Hr] | done | done].
Qed.

Lemma keeps_rating h v : keeps sound (updateRatingLocally h v) (fun _ => True).
Proof. eapply keeps_file. intros w. apply (updateRatingLocally_spec h v w). Qed.
End Sound.

#[export] Hint Resolve keeps_nget keeps_sys keeps_attempt keeps_send keeps_unmarshal
  keeps_unmarshal_fatal keeps_marshal keeps_Get keeps_Provide keeps_Save
  keeps_AddTransaction keeps_delete keeps_rating : keeps.
#[export] Hint Resolve keeps_ignore keeps_or_http keeps_try : keeps.
#[export] Hint Extern 1 (keeps (sound _) (nset _) _) => apply keeps_nset; intros ? ?; assumption : keeps.

(** Follow a handler; a statement without a rule is left to the user. *)
Ltac keep_step :=
  match goal with
  | |- keeps _ (bind _ _) _ =>
      eapply keeps_bind; [solve [eauto with keeps] | cbv beta; intros ? ?]
  | |- keeps _ (bind (match _ with _ => _ end) _) _ =>
      eapply (keeps_bind _ _ _ (fun _ => True)); [| intros ? _]
  | |- keeps _ (let _ := _ in _) _ => cbv zeta
  | |- keeps _ (if ?b then _ else _) _ => destruct b eqn:?
  | |- keeps _ (match ?x with _ => _ end) _ => destruct x eqn:?
  | |- keeps _ _ _ => eapply keeps_conseq; [solve [eauto with keeps] | done]
  end.
Ltac keep := repeat (keep_step; cbv beta in *).

Section Tally.
Context {D : Type} `{DHTLaws D} (K : gset string) (resolve : string -> outcome AppErr string).

Lemma keeps_stream t : keeps (sound K) (CreateNewStream resolve t : MW D string) (fun _ => True).
Proof. unfold CreateNewStream. keep. Qed.
Local Hint Resolve keeps_stream : keeps.

Lemma keeps_cloud m : keeps (sound K) (SendCloudNodeFiles resolve m : MW D unit) (fun _ => True).
Proof. unfold SendCloudNodeFiles. keep. Qed.
Local Hint Resolve keeps_cloud : keeps.

Lemma keeps_key k : keeps (sound K) (ProvideKey k : MW D unit) (fun _ => True).
Proof. unfold ProvideKey. keep. Qed.
Local Hint Resolve keeps_key : keeps.

Lemma removeProvider_keeps h b : keeps (sound K) (removeProvider h b : MW D unit) (fun _ => True).
Proof. unfold removeProvider. keep. Qed.

Lemma keeps_assign k v m :
  keeps (sound K) (map_assign k v m : MW D _) (fun o => exists ps, m = Some ps /\ o = Some (<[k := v]> ps)).
Proof. destruct m; intros w Hw; (split; [done | cbn; try done]). intros a [= <-]. eauto. Qed.
Local Hint Resolve keeps_assign : keeps.

(** A key that something else has written to may hold anything. *)
Lemma UpdateFileInDHT_foreign i : meta_key (fHash i) ∈ K ->
  keeps (sound K) (UpdateFileInDHT i : MW D DHTMetadata) (fun _ => True).
Proof.
  intros Hk. assert (Hput : forall v, keeps (sound K) (dht_call (PutValue (meta_key (fHash i)) v) : MW D bool) (fun _ => True))
    by (intros v; apply keeps_Put; now left).
  unfold UpdateFileInDHT. keep.
Qed.

Lemma votingHelper_foreign h v : meta_key h ∈ K ->
  keeps (sound K) (votingHelper resolve h v : MW D unit) (fun _ => True).
Proof.
  intros Hk. assert (Hput : forall x, keeps (sound K) (dht_call (PutValue (meta_key h) x) : MW D bool) (fun _ => True))
    by (intros x; apply keeps_Put; now left).
  unfold votingHelper. keep.
Qed.

Lemma UpdateFileInDHT_keeps i : keeps (sound K) (UpdateFileInDHT i : MW D DHTMetadata) (fun _ => True).
Proof.
  destruct (decide (meta_key (fHash i) ∈ K)) as [Hk | Hk]; [now apply UpdateFileInDHT_foreign |].
  unfold UpdateFileInDHT. eapply keeps_bind; [apply keeps_nget | cbv beta; intros me _].
  eapply keeps_bind; [apply keeps_Get | cbv beta; intros got Hgot].
  apply (keeps_bind _ _ _ tallied).
  { destruct got as [v |].
    - destruct (Hgot v eq_refl) as [Hin | (m & -> & Hm)]; [now destruct Hk |]. intros w Hw. split; [done | now intros ? [= <-]].
    - intros w Hw. split; [done |]. intros ? [= <-]. apply new_metadata_tallied. }
  intros m (ps & Ht). keep_step.
  eapply keeps_bind; [apply keeps_lift | cbv beta; intros addr _].
  rewrite (tally_providers _ _ Ht). cbn [map_get].
  eapply keeps_bind; [apply keeps_assign | cbv beta; intros ? (? & [= <-] & ->)].
  pose proof (update_provider_tally i addr m ps me Ht) as Ht'. cbv zeta in Ht'.
  set (p := update_provider i _ (ps !! me)) in *.
  set (m1 := set_Providers _ m) in *. clearbody m1. clear Hgot.
  apply (keeps_bind _ _ _ tallied).
  { case_decide as Hr; [| intros w Hw; split; [done | intros ? [= <-]; eexists; exact Ht']].
    pose proof (apply_vote_tally (fVoteType i) p m1 _ me Ht' (lookup_insert_eq _ _ _) Hr) as Hv.
    pose proof (tally_providers _ _ Ht') as Hp.
    assert (HP : Providers (fst (apply_vote (fVoteType i) p m1)) = Providers m1)
      by (unfold apply_vote; now repeat case_decide).
    destruct (apply_vote _ p m1) as [m2 p2]. cbn in HP. rewrite HP, Hp.
    intros w Hw. split; [done | intros ? [= <-]; eexists; exact Hv]. }
  intros m2 Hm2. keep_step. subst. keep_step.
  eapply keeps_bind; [apply keeps_Put; right; now exists m2 | cbv beta; intros ok _].
  keep.
Qed.

Lemma votingHelper_keeps h v :
  keeps (sound K) (votingHelper resolve h v : MW D unit) (fun _ => True).
Proof.
  destruct (decide (meta_key h ∈ K)) as [Hk | Hk]; [now apply votingHelper_foreign |].
  unfold votingHelper. eapply keeps_bind; [apply keeps_nget | cbv beta; intros me _].
  eapply keeps_bind; [apply keeps_Get | cbv beta; intros got Hgot].
  destruct got as [d |]; [| apply keeps_same; done].
  destruct (Hgot d eq_refl) as [Hin | (m & -> & ps & Ht)]; [now destruct Hk |].
  eapply keeps_bind; [apply keeps_ret | cbv beta; intros ? ->].
  eapply keeps_bind; [apply keeps_ret | cbv beta; intros ? ->].
  eapply keeps_bind; [apply keeps_guard | cbv beta; intros _ Hv%bool_decide_eq_false].
  rewrite (tally_providers _ _ Ht). cbn [map_get].
  destruct (ps !! me) as [p |] eqn:Hp; [| apply keeps_same; done].
  eapply keeps_bind; [apply keeps_ret | cbv beta; intros ? ->].
  eapply keeps_bind;
    [apply keeps_guard | cbv beta; intros _ Hr%bool_decide_eq_false%dec_stable].
  assert (Hv' : v = upvote \/ v = downvote).
  { destruct (decide (v = upvote)), (decide (v = downvote)); auto. exfalso. auto. }
  assert (HP : Providers (count_vote v m) = Some ps).
  { unfold count_vote. repeat case_decide; apply (tally_providers _ _ Ht). }
  pose proof (count_vote_tally v p m ps me Ht Hp Hr Hv') as Ht'. cbv zeta in Ht'.
  rewrite HP. eapply keeps_bind; [apply keeps_ret | cbv beta; intros ? ->].
  keep_step. subst.
  eapply keeps_bind; [apply keeps_Put; right; eexists; split; [done | eexists; exact Ht'] | cbv beta; intros ? _].
  keep.
Qed.
End Tally.

(** * Votes *)

(** What a vote makes of the metadata: the voter is a provider that has not
    voted, and the vote is up or down. *)
Inductive voted (me : string) (v : string) (m m' : DHTMetadata) : Prop :=
| voted_intro ps p up down :
    Providers m = Some ps -> ps !! me = Some p -> pRating p = EmptyString ->
    (v = upvote /\ up = 1 /\ down = 0) \/ (v = downvote /\ up = 0 /\ down = 1) ->
    m' = mkMeta (mName m) (mNameWithExtension m) (mType m) (mSize m) (mDescription m)
           (mCreatedAt m)
           (if decide (v = upvote) then int64 (Rating m + 1) else int64 (Rating m - 1))
           (Some (<[me := set_pRating v p]> ps)) (int64 (NumRaters m + 1))
           (if decide (v = upvote) then int64 (Upvote m + 1) else Upvote m)
           (if decide (v = upvote) then Downvote m else int64 (Downvote m + 1))
           (mHash m) ->
    voted me v m m'.

Lemma voted_once me v v' m m' m'' : voted me v m m' -> ~ voted me v' m' m''.
Proof.
  intros [ps p up down HP Hp Hr Hv ->] [ps' p' up' down' HP' Hp' Hr' _ _]. cbn in HP'.
  injection HP' as <-. rewrite lookup_insert_eq in Hp'. injection Hp' as <-. cbn in Hr'.
  destruct Hv as [(-> & _) | (-> & _)]; discriminate.
Qed.

Section Votes.
Context {D : Type} `{DHTLaws D} (resolve : string -> outcome AppErr string).
Context (cloud_ok : resolve Cloud_node_id <> Panic).

Lemma SendCloudNodeFiles_dht m (w : World D) :
  wp (SendCloudNodeFiles resolve m) (fun o w' => o <> Panic /\ dht w' = dht w) w.
Proof.
  unfold SendCloudNodeFiles, CreateNewStream. apply wp_bind, wp_bind.
  unfold wp at 1, lift. cbn. destruct (resolve Cloud_node_id) as [peer | e |]; [| done | done].
  repeat (apply wp_bind, wp_attempt; [done |]). done.
Qed.

(** The requirements of a vote, as the code checks them in turn. *)
Lemma votingHelper_run h v (w : World D) :
  let got := fst (GetValue (meta_key h) (dht w)) in
  let d1 := snd (GetValue (meta_key h) (dht w)) in
  wp (votingHelper resolve h v) (fun o w' =>
    (exists m m', got = Some (Json m) /\ voted (PeerID (node w)) v m m' /\ o = Ok tt /\
                  dht w' = snd (PutValue (meta_key h) (Json m') d1)) \/
    ((forall m m', got = Some (Json m) -> ~ voted (PeerID (node w)) v m m') /\
     (exists e, o = Err e) /\ dht w' = d1 /\ node w' = node w /\ sent w' = sent w)) w.
Proof.
  intros got d1. unfold votingHelper. apply wp_nget, wp_dht. fold got d1.
  destruct got as [[m |] |]; [| right; split; [done | split; eauto] ..].
  apply wp_bind, wp_ret, wp_bind, wp_ret.
  set (w1 := mkWorld (node w) d1 (faults w) (sent w)).
  assert (Hno : (forall m', ~ voted (PeerID (node w)) v m m') -> forall e,
    (exists m0 m', Some (Json m) = Some (Json m0) /\ voted (PeerID (node w)) v m0 m' /\
       @Err AppErr unit e = Ok tt /\ dht w1 = snd (PutValue (meta_key h) (Json m') d1)) \/
    ((forall m0 m', Some (Json m) = Some (Json m0) -> ~ voted (PeerID (node w)) v m0 m') /\
     (exists e0, @Err AppErr unit e = Err e0) /\ dht w1 = d1 /\ node w1 = node w /\ sent w1 = sent w)).
  { intros Hn e. right. split; [intros ? ? [= <-]; apply Hn | eauto]. }
  apply wp_bind. destruct (decide (v = upvote \/ v = downvote)) as [Hv | Hv].
  2: { replace (bool_decide _) with true
         by (symmetry; apply bool_decide_eq_true; split; intros ->; auto).
       apply Hno. intros m' [? ? ? ? _ _ _ Hv' _]. intuition. }
  replace (bool_decide _) with false
    by (symmetry; apply bool_decide_eq_false; intros []; destruct Hv; auto).
  apply wp_ret, wp_bind. destruct (map_get (PeerID (node w)) (Providers m)) as [p |] eqn:Hp.
  2: { apply Hno. intros m' [? ? ? ? HP Hp' _ _ _]. rewrite HP in Hp. cbn in Hp. congruence. }
  destruct (Providers m) as [ps |] eqn:HP; [| done]. cbn in Hp.
  apply wp_ret, wp_bind. destruct (decide (pRating p = EmptyString)) as [Hr | Hr].
  2: { rewrite (bool_decide_eq_true_2 (pRating p <> EmptyString)) by done.
       apply Hno. intros m' [? ? ? ? HP' Hp' ? _ _]. rewrite HP in HP'. simplify_eq. }
  rewrite (bool_decide_eq_false_2 (pRating p <> EmptyString)) by auto.
  apply wp_ret. set (m1 := count_vote v m).
  assert (HP1 : Providers m1 = Some ps) by (subst m1; unfold count_vote; now repeat case_decide).
  rewrite HP1. apply wp_bind, wp_ret, wp_bind, wp_ret, wp_dht, wp_bind, wp_ignore.
  eapply wp_conseq; [apply updateRatingLocally_spec |]. intros o w2 [(_ & Hd & _) Ho].
  split; [now destruct o |]. apply wp_bind, wp_ignore.
  eapply wp_conseq; [apply SendCloudNodeFiles_dht |]. intros o' w3 [Ho' Hd'].
  split; [done |]. apply wp_ret. left. eexists m, _. split; [done |].
  split; [| split; [done | now rewrite Hd', Hd]].
  exists ps p (if decide (v = upvote) then 1 else 0) (if decide (v = upvote) then 0 else 1);
    [done | done | done | destruct Hv; subst; auto |].
  subst m1. unfold count_vote. destruct Hv; subst v; now repeat case_decide.
Qed.
End Votes.

Lemma voted_totals me v m m' :
  voted me v m m' ->
  Rating m = int64 (Upvote m - Downvote m) -> Rating m' = int64 (Upvote m' - Downvote m').
Proof.
  intros [ps p up down _ _ _ Hv ->] Hm. cbn.
  assert (Hi : forall a b, int64 (a - int64 b) = int64 (a - b)).
  { intros a b. unfold wrapS.
    replace (a - ((b + 2 ^ (64 - 1)) mod 2 ^ 64 - 2 ^ (64 - 1)) + 2 ^ (64 - 1))
      with (a + 2 ^ 64 - (b + 2 ^ (64 - 1)) mod 2 ^ 64) by lia.
    rewrite Zminus_mod_idemp_r.
    replace (a + 2 ^ 64 - (b + 2 ^ (64 - 1))) with (a - b + 2 ^ (64 - 1)) by lia. done. }
  destruct Hv as [(-> & _) | (-> & _)]; rewrite Hm; cbn [decide]; repeat case_decide;
    try done; unfold Z.sub in *; rewrite ?int64_add, ?Hi; f_equal; lia.
Qed.

(** C18: a vote is recorded exactly when the lookup answers with metadata of
    which the voter is a provider that has not voted, and the vote is up or
    down: then the value put into the DHT has the rating, the counter of that
    vote and the number of raters one step further, the provider marked with
    its vote, and everything else as it was.  In every other case an error is
    returned, nothing is put, nothing is sent and no file changes.  The
    recorded value admits no second vote of the same node, and the rating
    stays the difference of the two counters. *)
Theorem vote_recorded_once {D} `{DHTLaws D} resolve (cloud_ok : resolve Cloud_node_id <> Panic)
    h v (w : World D) :
  let got := fst (GetValue (meta_key h) (dht w)) in
  let d1 := snd (GetValue (meta_key h) (dht w)) in
  wp (votingHelper resolve h v) (fun o w' =>
    (exists m m', got = Some (Json m) /\ voted (PeerID (node w)) v m m' /\ o = Ok tt /\
                  dht w' = snd (PutValue (meta_key h) (Json m') d1) /\
                  (forall v' m'', ~ voted (PeerID (node w)) v' m' m'') /\
                  (Rating m = int64 (Upvote m - Downvote m) ->
                   Rating m' = int64 (Upvote m' - Downvote m'))) \/
    ((forall m m', got = Some (Json m) -> ~ voted (PeerID (node w)) v m m') /\
     (exists e, o = Err e) /\ dht w' = d1 /\ node w' = node w /\ sent w' = sent w)) w.
Proof.
  intros got d1. eapply wp_conseq; [now apply votingHelper_run |].
  intros o w' [(m & m' & Hg & Hv & Ho & Hd) |]; [left | now right].
  exists m, m'. split_and!; [done | done | done | done | |].
  - intros v' m''. now apply (voted_once _ v _ m).
  - now apply (voted_totals (PeerID (node w)) v).
Qed.

(** A resolver that knows every peer. *)
Definition resolve_any (t : string) : outcome AppErr string := Ok t.

(** The metadata after the file was published by peerA and downloaded by
    peerB. *)
Definition example_meta : DHTMetadata :=
  mkMeta "notes" "notes.txt" "text/plain" 3 "three bytes" "2024-12-01" 0
    (Some {[ "peerA"%string := mkProvider "addrA" true 5 EmptyString;
             "peerB"%string := mkProvider "addrB" false 0 EmptyString ]})
    0 0 0 "a1b2".

Definition voting_world : World (gmap string (json DHTMetadata)) :=
  mkWorld (fresh_node "peerB") {[ meta_key "a1b2" := Json example_meta ]} [] [].

Definition example_voted : DHTMetadata :=
  mkMeta "notes" "notes.txt" "text/plain" 3 "three bytes" "2024-12-01" (-1)
    (Some {[ "peerA"%string := mkProvider "addrA" true 5 EmptyString;
             "peerB"%string := mkProvider "addrB" false 0 downvote ]})
    1 0 1 "a1b2".

Lemma vote_recorded_once_witness :
  resolve_any Cloud_node_id <> Panic /\
  exists m', dht (snd (votingHelper resolve_any "a1b2" downvote voting_world)) !! meta_key "a1b2"
             = Some (Json m') /\ Rating m' = -1.
Proof.
  assert (Hc : resolve_any Cloud_node_id <> Panic) by discriminate. split; [exact Hc |].
  pose proof (vote_recorded_once resolve_any Hc "a1b2" downvote voting_world) as Hv.
  unfold wp in Hv. destruct Hv as [(m & m' & Hg & [ps p up down HP Hp Hr Hd ->] & _ & Hput & _) | (Hn & _)].
  - eexists. rewrite Hput. split; [reflexivity |].
    vm_compute in Hg. injection Hg as <-. reflexivity.
  - destruct (Hn example_meta example_voted eq_refl). eapply (voted_intro _ _ _ _ _ _ 0 1).
    + reflexivity.
    + vm_compute. reflexivity.
    + reflexivity.
    + right. repeat split.
    + vm_compute. reflexivity.
Defined.

(** ** What the code does not do *)

(** [removeProvider] never writes to the DHT. *)
Lemma removeProvider_keeps_providers {D} `{DHTService D} h b (w : World D) :
  wp (removeProvider h b) (fun _ w' => dht w' = snd (GetValue (meta_key h) (dht w)) /\
    node w' = node w /\ sent w' = sent w) w.
Proof.
  unfold removeProvider. apply wp_nget, wp_dht.
  destruct (fst (GetValue _ _)) as [[m |] |]; [| done ..]. now apply wp_bind, wp_ret, wp_ret.
Qed.

(** A vote that comes with a republished file moves the rating and the number
    of raters, but neither of the two counters. *)
Example republished_vote_not_in_counters :
  let f := set_fVoteType upvote example_file in
  match UpdateFileInDHT f example_world with
  | (Ok m, _) => Rating m = 1 /\ NumRaters m = 1 /\ Upvote m = 0 /\ Downvote m = 0
  | _ => False
  end.
Proof. vm_compute. repeat split. Qed.
