(* ===== verification/AppPeer.v ===== *)
(** The handlers of a node: the HTTP handlers of packages files and download
    and the stream handlers of dht/streams.go, with what they send.

    An HTTP handler returns its response, or [HttpError] with the status code;
    a stream handler that logs an error and returns is [Err].  Locks are taken
    for the whole of the critical sections the code has; a handler runs to its
    end before the next one starts. *)

From S2P Require Import Prelude AppTypes AppStore AppDht.

(** filepath.Join("..", "..", "squidcoinFiles") *)
Definition FileCopyPath : string := Join [".."; ".."; "squidcoinFiles"]%string.

(** What an HTTP handler writes with status 200. *)
Inductive Response : Type :=
| RText (s : string)
| RFiles (l : list FileMetadata)
| RMetadata (m : DHTMetadata)
| RMarket (l : list DHTMetadata)
| RRating (z : Z)
| RTransactions (l : list Transaction)
| RStatus (s : string).

Section Peer.
Context {D : Type} `{DHTService D} (resolve : string -> outcome AppErr string).

(** ** files/files.go *)

Fixpoint for_each {A} (f : A -> MW D unit) (l : list A) : MW D unit :=
  match l with
  | [] => ret tt
  | a :: l' => f a;; for_each f l'
  end.

Definition PublishFile (requestBody : FileMetadata) : MW D unit :=
  r <- try (UpdateFileInDHT requestBody);;
  match r with
  | None => ret tt
  | Some dhtMetadata =>
      err <- sys;;
      if err then ret tt else
      currentDir <- nget Cwd;;
      let newPath := Join [currentDir; "../../squidcoinFiles"; fNameWithExtension requestBody]%string in
      paths <- nget FileHashToPath;;
      nset (set_FileHashToPath (<[fHash requestBody := newPath]> paths));;
      ignore_err (SendCloudNodeFiles resolve dhtMetadata)
  end.

Definition republishFiles (filePath : FilePath) : MW D unit :=
  file <- nget (doc filePath);;
  match file with
  | None => ret tt
  | Some byteValue =>
      err <- sys;; if err then panic else
      err <- sys;; if err then panic else
      files <- unmarshal_fatal byteValue;;
      for_each PublishFile files
  end.

Definition getFiles (fileType : string) : MW D Response :=
  let filePath := if decide (fileType = "uploaded"%string) then UploadedFilePath
                  else DownloadedFilePath in
  file <- nget (doc filePath);;
  match file with
  | None => ret (RFiles [])
  | Some data =>
      attempt (HttpError 500);;
      files <- unmarshal (HttpError 500) data;;
      ru <- nget republishedUploaded;;
      rd <- nget republishedDownloaded;;
      (if negb ru || negb rd then
         if decide (fileType = "uploaded"%string) then
           republishFiles UploadedFilePath;; nset (set_republishedUploaded true)
         else
           republishFiles DownloadedFilePath;; nset (set_republishedDownloaded true)
       else ret tt);;
      ret (RFiles files)
  end.

Definition uploadFileHandler (method isNewFile : string) (body : json FileMetadata)
  : MW D Response :=
  guard (bool_decide (method <> "POST"%string)) (HttpError 405);;
  requestBody <- unmarshal (HttpError 400) body;;
  data <- dht_call (GetValue (meta_key (fHash requestBody)));;
  guard (bool_decide (is_Some data /\ isNewFile = "true"%string)) (HttpError 400);;
  let filePath := if fOriginalUploader requestBody then UploadedFilePath
                  else DownloadedFilePath in
  action <- or_http 500 (SaveOrUpdateFile requestBody filePath);;
  PublishFile requestBody;;
  ret (RText action).

(** [DHT.GetValue] and [json.Unmarshal], each with status 500 on an error. *)
Definition http_metadata (fileHash : string) : MW D DHTMetadata :=
  got <- dht_call (GetValue (meta_key fileHash));;
  match got with
  | None => fail (HttpError 500)
  | Some data => unmarshal (HttpError 500) data
  end.

Definition handleGetFileByHash (fileHash : string) : MW D Response :=
  guard (bool_decide (fileHash = EmptyString)) (HttpError 400);;
  metadata <- http_metadata fileHash;;
  ret (RMetadata metadata).

Definition handleGetRating (fileHash : string) : MW D Response :=
  guard (bool_decide (fileHash = EmptyString)) (HttpError 400);;
  metadata <- http_metadata fileHash;;
  ret (RRating (Rating metadata)).

Definition handleVote (fileHash voteType : string) : MW D Response :=
  guard (bool_decide (fileHash = EmptyString \/ voteType = EmptyString)) (HttpError 400);;
  or_http 500 (votingHelper resolve fileHash voteType);;
  ret (RText voteType).

(** [os.Remove] *)
Definition deleteFileContent (hash : string) : MW D unit :=
  cwd <- nget Cwd;;
  let filePath := resolve_path cwd (Join [FileCopyPath; hash]) in
  c <- nget content;;
  match c !! filePath with
  | None => fail (Error "Failed to delete file")
  | Some _ => attempt (Error "Failed to delete file");; nset (set_content (delete filePath c))
  end.

Definition deleteFile (method hash originalUploader name : string) : MW D Response :=
  guard (bool_decide (method <> "DELETE"%string)) (HttpError 405);;
  guard (bool_decide (hash = EmptyString)) (HttpError 400);;
  guard (bool_decide (originalUploader = EmptyString)) (HttpError 400);;
  guard (bool_decide (name = EmptyString)) (HttpError 400);;
  let filePath := if decide (originalUploader = "true"%string) then UploadedFilePath
                  else DownloadedFilePath in
  or_http 500 (deleteFileContent name);;
  paths <- nget FileHashToPath;;
  nset (set_FileHashToPath (delete hash paths));;
  action <- or_http 500 (deleteFileFromJSON hash filePath);;
  or_http 500 (removeProvider hash true);;
  ret (RStatus action).

Definition SendMarketFilesRequest (nodeID : string) : MW D unit :=
  peer <- CreateNewStream resolve nodeID;;
  me <- nget PeerID;;
  attempt (Error "error sending refresh request");;
  send (mkPacket peer "/sendRefreshRequest/p2p" (BRefresh me)).

(** [append(MarketplaceFiles[:0], fileData...)] stays nil when both are empty. *)
Definition store_market (market : option (list DHTMetadata)) (fileData : list DHTMetadata)
  : option (list DHTMetadata) :=
  match market, fileData with None, [] => None | _, _ => Some fileData end.

(** The [select]: take a signal whose sender is blocked, or one that arrives
    within the five seconds together with the files ([arrives]), or time out. *)
Definition wait_signal (arrives : option (list DHTMetadata)) : MW D Response :=
  n <- nget signals;;
  match n, arrives with
  | S n', _ =>
      nset (set_signals n');;
      files <- nget MarketplaceFiles;; ret (RMarket (default [] files))
  | O, Some files =>
      market <- nget MarketplaceFiles;;
      nset (set_MarketplaceFiles (store_market market files));; ret (RMarket files)
  | O, None => fail (HttpError 504)
  end.

Definition getMarketplaceFiles (initialFetch : string) (arrives : option (list DHTMetadata))
  : MW D Response :=
  market <- nget MarketplaceFiles;;
  if bool_decide (initialFetch = "true"%string /\ is_Some market)
  then ret (RMarket (default [] market))
  else or_http 500 (SendMarketFilesRequest Cloud_node_id);; wait_signal arrives.

Definition getTransactions : MW D Response :=
  file <- nget transactionFiles;;
  match file with
  | None => ret (RTransactions [])
  | Some data =>
      attempt (HttpError 500);;
      transactions <- unmarshal (HttpError 500) data;;
      ret (RTransactions transactions)
  end.

(** ** download/download.go *)

Definition ConnectToPeerUsingRelay (targetPeerID : string) : MW D unit :=
  relayedAddrInfo <- lift (resolve targetPeerID);;
  attempt (Error "failed to connect to peer through relay").

(** services/btcService.go: the mining address of the temporary file, empty
    with an error. *)
Definition GetMiningAddressFromTempMayukh : MW D (option string) :=
  a <- nget Wallet;;
  ret (match a with
       | Some miningAddress => if decide (miningAddress = EmptyString) then None else a
       | None => None
       end).

(** The request is a copy: the wallet is only set in what is sent. *)
Definition SendDownloadRequest (requestMetadata : Transaction) : MW D unit :=
  requestStream <- CreateNewStream resolve (TargetID requestMetadata);;
  walletAddr <- GetMiningAddressFromTempMayukh;;
  let requestMetadata := set_RequesterWallet (default EmptyString walletAddr) requestMetadata in
  attempt (Error "error sending download request data");;
  send (mkPacket requestStream "/sendRequest/p2p" (BRequest requestMetadata)).

(** The path a hash is served from; empty if there is none. *)
Definition path_of (hash : string) (paths : gmap string string) : string :=
  default EmptyString (paths !! hash).

(** [uuid] and [now] are what uuid.New and time.Now answer. *)
Definition handleDownloadRequest (body : json Transaction) (uuid now : string)
  : MW D Response :=
  request <- unmarshal (HttpError 400) body;;
  me <- nget PeerID;;
  let request := set_TransactionID uuid (set_RequesterID me request) in
  paths <- nget FileHashToPath;;
  guard (bool_decide (RequesterID request = TargetID request)) (HttpError 400);;
  guard (bool_decide (path_of (FileHash request) paths <> EmptyString)) (HttpError 400);;
  let request := set_tCreatedAt now (set_Status "pending" request) in
  or_http 500 (ConnectToPeerUsingRelay (TargetID request));;
  or_http 500 (SendDownloadRequest request);;
  pending <- nget PendingRequests;;
  nset (set_PendingRequests (<[FileHash request := request]> pending));;
  ignore_err (AddOrUpdateTransaction request);;
  ret (RStatus "request sent").

(** ** dht/streams.go: sending *)

Definition sendDecline (transaction : Transaction) : MW D unit :=
  let transaction := set_Status "declined" transaction in
  requestStream <- CreateNewStream resolve (RequesterID transaction);;
  attempt (Error "Error writing to stream");;
  send (mkPacket requestStream "/requestResponse/p2p" (BResponse transaction true)).

Definition sendMessageConfirmation (transaction : Transaction) : MW D unit :=
  confirmationStream <- CreateNewStream resolve (TargetID transaction);;
  attempt (Error "Error writing to stream");;
  send (mkPacket confirmationStream "/requestResponse/p2p" (BResponse transaction false)).

(** The line of the metadata; a failing write is [log.Fatalf]. *)
Definition sendMetadata (fileHash : string) : MW D FileMetadata :=
  got <- dht_call (GetValue (meta_key fileHash));;
  data <- (match got with
           | None => fail (Error "sendMetadata: file hash not found in DHT")
           | Some d => ret d
           end);;
  metadata <- unmarshal (Error "sendMetadata: error decoding file metadata") data;;
  let fileMetadata :=
    mkFile (mName metadata) (mNameWithExtension metadata) (mType metadata) (mSize metadata)
      (mDescription metadata) fileHash true 0 EmptyString false EmptyString false in
  err <- sys;; if err then panic else ret fileMetadata.

(** The loop over the chunks of 4096 bytes: what reached the stream.  A chunk
    is at least one byte long, so [length rest] rounds are enough. *)
Fixpoint send_chunks (fuel : nat) (rest sent_so_far : bytes) : MW D bytes :=
  match fuel, rest with
  | O, _ | _, [] => ret sent_so_far
  | S fuel', _ =>
      err <- sys;; if err then ret sent_so_far else
      err <- sys;; if err then ret sent_so_far else
      send_chunks fuel' (drop 4096 rest) (sent_so_far ++ take 4096 rest)
  end.

(** The content of the file a path names, if there is such a file. *)
Definition read_path (p : string) : MW D (option bytes) :=
  cwd <- nget Cwd;;
  c <- nget content;;
  ret (if decide (p = EmptyString) then None else c !! resolve_path cwd p).

(** Whatever was written when the function returns is sent, because the
    stream is closed then. *)
Definition sendFile (request : Transaction) : MW D unit :=
  paths <- nget FileHashToPath;;
  let filePath := path_of (FileHash request) paths in
  file <- read_path filePath;;
  match file with
  | None => fail (Error "error: file not found")
  | Some data =>
      fileStream <- CreateNewStream resolve (RequesterID request);;
      let close t m c := send (mkPacket fileStream "/sendFile/p2p" (BFile t m c)) in
      err <- sys;; if err then close None None [] else
      meta <- try (sendMetadata (FileHash request));;
      match meta with
      | None => close (Some request) None []
      | Some fileMetadata =>
          err <- sys;; if err then close (Some request) (Some fileMetadata) [] else
          c <- send_chunks (length data) data [];;
          close (Some request) (Some fileMetadata) c
      end
  end.

(** ** dht/streams.go: receiving *)

Definition receiveDownloadRequest (request : Transaction) : MW D unit :=
  walletAddr <- GetMiningAddressFromTempMayukh;;
  match walletAddr with
  | None => fail (Error "error getting wallet address")
  | Some a =>
      let request := set_TargetWallet a request in
      ignore_err (AddOrUpdateTransaction request);;
      paths <- nget FileHashToPath;;
      if decide (path_of (FileHash request) paths <> EmptyString)
      then sendFile request else sendDecline request
  end.

(** [ReadBytes] up to a newline: without one the data is an error. *)
Definition receiveDecline (declineMessage : Transaction) (nl : bool) : MW D unit :=
  guard (negb nl) (Error "Stream closed by peer");;
  let declineMessage := set_Status "declined" declineMessage in
  ignore_err (AddOrUpdateTransaction declineMessage);;
  sendMessageConfirmation declineMessage.

Definition receiveMessageConfirmation (message : Transaction) : MW D unit :=
  ignore_err (AddOrUpdateTransaction message).

(** The loop over the chunks of 4086 bytes: [path] is [None] when the file
    could not be created, and then the first write fails. *)
Fixpoint recv_chunks (fuel : nat) (path : option string) (rest : bytes) : MW D unit :=
  match fuel, rest with
  | O, _ | _, [] => ret tt
  | S fuel', _ =>
      attempt (Error "error reading file chunk");;
      match path with
      | None => fail (Error "error writing to file")
      | Some p =>
          attempt (Error "error writing to file");;
          c <- nget content;;
          nset (set_content (<[p := default [] (c !! p) ++ take 4086 rest]> c));;
          recv_chunks fuel' path (drop 4086 rest)
      end
  end.

Definition receiveFile (t : option Transaction) (m : option FileMetadata) (c : bytes)
  : MW D unit :=
  match t, m with
  | Some transaction, Some metadata =>
      let metadata := set_fIsPublished false metadata in
      err <- sys;; if err then panic else
      cwd <- nget Cwd;;
      let outputPath := Join [FileCopyPath; fNameWithExtension metadata] in
      err <- sys;;
      let file := if err then None else Some (resolve_path cwd outputPath) in
      old <- nget content;;
      (match file with
       | Some p => nset (set_content (<[p := []]> old))
       | None => ret tt
       end);;
      recv_chunks (length c) file c;;
      ignore_err (SaveOrUpdateFile metadata DownloadedFilePath);;
      paths <- nget FileHashToPath;;
      nset (set_FileHashToPath (<[fHash metadata := outputPath]> paths));;
      let transaction := set_Status "complete" transaction in
      ignore_err (AddOrUpdateTransaction transaction);;
      updatedMetadata <- UpdateFileInDHT metadata;;
      ignore_err (sendMessageConfirmation transaction);;
      ignore_err (SendCloudNodeFiles resolve updatedMetadata)
  | _, _ => panic
  end.

Definition receiveMarketplaceFiles (data : json (list DHTMetadata)) : MW D unit :=
  fileData <- unmarshal_fatal data;;
  market <- nget MarketplaceFiles;;
  nset (set_MarketplaceFiles (store_market market fileData));;
  n <- nget signals;;
  nset (set_signals (S n)).
End Peer.
