(* ===== verification/AppNet.v ===== *)
(** The network of nodes: the protocols a node listens on ([setupStreams] of
    dht/streams.go), the console ([handleInput] of dht/dhtHelper.go), the events a
    node reacts to, and the steps of a network of nodes that share the DHT, with
    packets in flight.

    The console writes whatever is typed under the key of any file, and the
    proxies write records of their own under theirs.  The network remembers these
    keys; the invariant of every reachable network is that each metadata record
    that may still be read from the DHT under another key has a right tally, and
    that the JSON files of each node hold no hash and no transaction id twice. *)

From S2P Require Import Prelude AppTypes AppStore AppDht AppPeer.

(** * Listening *)

Inductive Handler : Type :=
| HDownloadRequest | HDecline | HFile | HHistory | HMarketplace | HConfirmation.

(** [SetStreamHandler] of libp2p: the last handler set for a protocol counts. *)
Definition SetStreamHandler (p : string) (h : Handler) (t : gmap string Handler)
  : gmap string Handler := <[p := h]> t.

Definition setupStreams : gmap string Handler :=
  SetStreamHandler "/requestResponse/p2p" HConfirmation
    (SetStreamHandler "/marketplaceFiles/p2p" HMarketplace
      (SetStreamHandler "/history/p2p" HHistory
        (SetStreamHandler "/sendFile/p2p" HFile
          (SetStreamHandler "/requestResponse/p2p" HDecline
            (SetStreamHandler "/sendRequest/p2p" HDownloadRequest ∅))))).

(** * The console *)

(** [strings.Split] at a character. *)
Fixpoint Split (sep : Ascii.ascii) (s : string) : list string :=
  match s with
  | EmptyString => [EmptyString]
  | String c s' =>
      if decide (c = sep) then EmptyString :: Split sep s' else
      match Split sep s' with
      | [] => [String c EmptyString]
      | w :: ws => String c w :: ws
      end
  end.

(** The bytes of the characters of [unicode.IsSpace], in UTF-8. *)
Definition spaces : list (list Z) :=
  map (fun n => [n]) [9; 10; 11; 12; 13; 32] ++ [[194; 133]; [194; 160]; [225; 154; 128]] ++
  map (fun i => [226; 128; 128 + i]) (seqZ 0 11) ++
  [[226; 128; 168]; [226; 128; 169]; [226; 128; 175]; [226; 129; 159]; [227; 128; 128]].

(** Drops the leading characters of [cs]. *)
Fixpoint trim_left (cs : list (list Z)) (fuel : nat) (l : list Z) : list Z :=
  match fuel, find (fun c => bool_decide (take (length c) l = c)) cs with
  | S fuel', Some c => trim_left cs fuel' (drop (length c) l)
  | _, _ => l
  end.

Definition codes (s : string) : list Z :=
  (fun c => Z.of_nat (Ascii.nat_of_ascii c)) <$> String.list_ascii_of_string s.

Definition of_codes (l : list Z) : string :=
  String.string_of_list_ascii ((fun n => Ascii.ascii_of_nat (Z.to_nat n)) <$> l).

(** [strings.TrimSpace]. *)
Definition TrimSpace (s : string) : string :=
  let l := trim_left spaces (String.length s) (codes s) in
  of_codes (rev (trim_left (@rev Z <$> spaces) (length l) (rev l))).

(** [strings.ToUpper]: the two letters outside ASCII whose upper case is in ASCII
    are the dotless i and the long s; the others, left as they are here, cannot
    make a command. *)
Fixpoint upper (l : list Z) : list Z :=
  match l with
  | [] => []
  | 196 :: 177 :: l' => 73 :: upper l'
  | 197 :: 191 :: l' => 83 :: upper l'
  | n :: l' => (if (97 <=? n) && (n <=? 122) then n - 32 else n) :: upper l'
  end.

Definition ToUpper (s : string) : string := of_codes (upper (codes s)).

Example console_words :
  Split (Ascii.ascii_of_nat 32) (TrimSpace ("  put  k v " +:+ of_codes [194; 160; 13; 10])) = ["put"; ""; "k"; "v"]%string /\
  ToUpper ("prov" +:+ of_codes [196; 177] +:+ "der_1") = "PROVIDER_1"%string.
Proof. split; reflexivity. Qed.

(** The words of a line. *)
Definition args_of (input : string) : list string := Split (Ascii.ascii_of_nat 32) (TrimSpace input).

Section Console.
Context {D : Type} `{DHTService D}.

(** One round of the loop, for a line; [value] is what the third word reads as.
    GET_PROVIDERS only prints. *)
Definition handleInput (input : string) (value : json DHTMetadata) : MW D unit :=
  let args := args_of input in
  match args with
  | [] => ret tt
  | word :: _ =>
      let command := ToUpper word in
      if decide (command = "GET"%string) then
        match args with
        | _ :: key :: _ => _res <- dht_call (GetValue (meta_key key));; ret tt
        | _ => ret tt
        end
      else if decide (command = "GET_PROVIDERS"%string) then ret tt
      else if decide (command = "PUT"%string) then
        match args with
        | _ :: key :: _ :: _ => _ok <- dht_call (PutValue (meta_key key) value);; ret tt
        | _ => ret tt
        end
      else if decide (command = "PUT_PROVIDER"%string) then
        match args with
        | _ :: key :: _ => ignore_err (ProvideKey key)
        | _ => ret tt
        end
      else ret tt
  end.
End Console.

(** * Events of a node *)

Inductive Event : Type :=
| EGetFiles (fileType : string)
| EUpload (method isNewFile : string) (body : json FileMetadata)
| EGetFile (hash : string)
| EGetRating (hash : string)
| EVote (hash voteType : string)
| EDelete (method hash originalUploader name : string)
| EMarket (initialFetch : string) (arrives : option (list DHTMetadata))
| ETransactions
| EDownload (body : json Transaction) (uuid now : string)
| EMarketplaceFiles (data : json (list DHTMetadata))
| EInput (input : string) (value : json DHTMetadata).

(** The keys that a line of the console writes to. *)
Definition typed_keys (e : Event) : gset string :=
  match e with
  | EInput input _ =>
      match args_of input with
      | word :: key :: _ :: _ => if decide (ToUpper word = "PUT"%string) then {[ meta_key key ]} else ∅
      | _ => ∅
      end
  | _ => ∅
  end.

Section Net.
Context {D : Type} `{DHTService D} (resolve : string -> outcome AppErr string).

Definition run_event (e : Event) : MW D unit :=
  match e with
  | EGetFiles f => getFiles resolve f;; ret tt
  | EUpload m v b => uploadFileHandler resolve m v b;; ret tt
  | EGetFile h => handleGetFileByHash h;; ret tt
  | EGetRating h => handleGetRating h;; ret tt
  | EVote h v => handleVote resolve h v;; ret tt
  | EDelete m h o n => deleteFile m h o n;; ret tt
  | EMarket i a => getMarketplaceFiles resolve i a;; ret tt
  | ETransactions => getTransactions;; ret tt
  | EDownload b u n => handleDownloadRequest resolve b u n;; ret tt
  | EMarketplaceFiles d => receiveMarketplaceFiles d
  | EInput i v => handleInput i v
  end.

(** What the handler of a protocol does with the body of a packet. *)
Definition run_handler (h : Handler) (b : Body) : MW D unit :=
  match h, b with
  | HDownloadRequest, BRequest t => receiveDownloadRequest resolve t
  | HDecline, BResponse t nl => receiveDecline resolve t nl
  | HConfirmation, BResponse t _ => receiveMessageConfirmation t
  | HFile, BFile t m c => receiveFile resolve t m c
  | _, _ => ret tt
  end.

Definition run_packet (p : Packet) : MW D unit :=
  match setupStreams !! p_proto p with
  | Some h => run_handler h (p_body p)
  | None => ret tt
  end.

(** * The network *)

(** The nodes that run, the disks of those that do not, the DHT, the packets on
    their way, and the keys that were not written as metadata. *)
Record Net := mkNet {
  nodes : gmap string Node;
  stopped : gmap string Node;
  net_dht : D;
  inflight : list Packet;
  foreign_keys : gset string
}.

Definition run_node (peer : string) (n : Node) (net : Net) : Net :=
  mkNet (<[peer := n]> (nodes net)) (delete peer (stopped net)) (net_dht net) (inflight net) (foreign_keys net).

Definition stop_node (peer : string) (n : Node) (net : Net) : Net :=
  mkNet (delete peer (nodes net)) (<[peer := n]> (stopped net)) (net_dht net) (inflight net) (foreign_keys net).

(** The node after a run: [log.Fatal], or a panic in a stream handler, ends the
    process; net/http recovers from a panic in an HTTP handler. *)
Definition after (peer : string) (o : outcome AppErr unit) (w : World D) (net : Net)
    (rest : list Packet) (keys : gset string) : Net :=
  let net := match o with Panic => stop_node peer (node w) net | _ => run_node peer (node w) net end in
  mkNet (nodes net) (stopped net) (dht w) (rest ++ sent w) (keys ∪ foreign_keys net).

(** A process starts: the variables have their first values, the disk is what the
    last one left. *)
Definition boot (addrs : list string) (n : Node) : Node :=
  mkNode (PeerID n) addrs (Cwd n) (Wallet n) (utils_dir n) (uploaded n) (downloaded n) (transactionFiles n)
    (content n) ∅ ∅ false false None 0.

(** A disk without JSON files. *)
Definition blank (n : Node) : Prop := uploaded n = None /\ downloaded n = None /\ transactionFiles n = None.

Inductive step : Net -> Net -> Prop :=
| step_event peer e fs net n o w :
    nodes net !! peer = Some n ->
    run_event e (mkWorld n (net_dht net) fs []) = (o, w) ->
    step net (after peer o w net (inflight net) (typed_keys e))
| step_recovered peer e fs net n w :
    nodes net !! peer = Some n ->
    run_event e (mkWorld n (net_dht net) fs []) = (Panic, w) ->
    step net (after peer (Ok tt) w net (inflight net) (typed_keys e))
| step_deliver p ps qs fs net n o w :
    inflight net = ps ++ p :: qs ->
    nodes net !! p_to p = Some n ->
    run_packet p (mkWorld n (net_dht net) fs []) = (o, w) ->
    step net (after (p_to p) o w net (ps ++ qs) ∅)
| step_lose p ps qs net :
    inflight net = ps ++ p :: qs ->
    step net (mkNet (nodes net) (stopped net) (net_dht net) (ps ++ qs) (foreign_keys net))
| step_stop peer n net :
    nodes net !! peer = Some n -> step net (stop_node peer n net)
| step_restart peer n addrs net :
    stopped net !! peer = Some n -> nodes net !! peer = None ->
    step net (run_node peer (boot addrs n) net)
| step_join peer n net :
    nodes net !! peer = None -> stopped net !! peer = None -> blank n ->
    step net (run_node peer n net)
| step_disk peer n c net :
    nodes net !! peer = Some n -> step net (run_node peer (set_content c n) net)
| step_proxy id v b d net :
    PutValue ("/orcanet/proxy/" +:+ id) v (net_dht net) = (b, d) ->
    step net (mkNet (nodes net) (stopped net) d (inflight net) ({[ "/orcanet/proxy/" +:+ id ]} ∪ foreign_keys net)).

Definition reachable : Net -> Net -> Prop := rtc step.
End Net.
Arguments Net : clear implicits.

(** * The handlers keep the invariant *)

#[export] Hint Resolve UpdateFileInDHT_keeps votingHelper_keeps removeProvider_keeps
  keeps_stream keeps_cloud keeps_key : keeps.

Section Keeps.
Context {D : Type} `{DHTLaws D} (K : gset string) (resolve : string -> outcome AppErr string).

Abbreviation kept m := (keeps (sound K) (m : MW D _) (fun _ => True)).

Lemma keeps_for_each {A} (f : A -> MW D unit) l : (forall a, kept (f a)) -> kept (for_each f l).
Proof.
  intros Hf. induction l as [| a l IH]; cbn; [keep |].
  eapply keeps_bind; [apply Hf | auto].
Qed.

Lemma PublishFile_keeps f : kept (PublishFile resolve f).
Proof. unfold PublishFile. keep. Qed.
Local Hint Resolve PublishFile_keeps keeps_for_each : keeps.

Lemma republishFiles_keeps p : kept (republishFiles resolve p).
Proof. unfold republishFiles. keep. Qed.
Local Hint Resolve republishFiles_keeps : keeps.

Lemma getFiles_keeps t : kept (getFiles resolve t).
Proof. unfold getFiles. keep. Qed.

Lemma uploadFileHandler_keeps m v b : kept (uploadFileHandler resolve m v b).
Proof. unfold uploadFileHandler. keep. Qed.

Lemma http_metadata_keeps h : kept (http_metadata h).
Proof. unfold http_metadata. keep. Qed.
Local Hint Resolve http_metadata_keeps : keeps.

Lemma handleGetFileByHash_keeps h : kept (handleGetFileByHash h).
Proof. unfold handleGetFileByHash. keep. Qed.

Lemma handleGetRating_keeps h : kept (handleGetRating h).
Proof. unfold handleGetRating. keep. Qed.

Lemma handleVote_keeps h v : kept (handleVote resolve h v).
Proof. unfold handleVote. keep. Qed.

Lemma deleteFileContent_keeps h : kept (deleteFileContent h).
Proof. unfold deleteFileContent. keep. Qed.
Local Hint Resolve deleteFileContent_keeps : keeps.

Lemma deleteFile_keeps m h o n : kept (deleteFile m h o n).
Proof. unfold deleteFile. keep. Qed.

Lemma getMarketplaceFiles_keeps i a : kept (getMarketplaceFiles resolve i a).
Proof.
  assert (Hw : kept (wait_signal a)) by (unfold wait_signal; keep).
  assert (Hs : kept (SendMarketFilesRequest resolve Cloud_node_id))
    by (unfold SendMarketFilesRequest; keep).
  unfold getMarketplaceFiles. keep.
Qed.

Lemma getTransactions_keeps : kept getTransactions.
Proof. unfold getTransactions. keep. Qed.

Lemma wallet_keeps : kept GetMiningAddressFromTempMayukh.
Proof. unfold GetMiningAddressFromTempMayukh. keep. Qed.
Local Hint Resolve wallet_keeps : keeps.

Lemma handleDownloadRequest_keeps b u n : kept (handleDownloadRequest resolve b u n).
Proof.
  assert (Hc : forall t, kept (ConnectToPeerUsingRelay resolve t))
    by (intros; unfold ConnectToPeerUsingRelay; keep).
  assert (Hs : forall t, kept (SendDownloadRequest resolve t))
    by (intros; unfold SendDownloadRequest; keep).
  unfold handleDownloadRequest. keep.
Qed.

Lemma sendDecline_keeps t : kept (sendDecline resolve t).
Proof. unfold sendDecline. keep. Qed.

Lemma sendMessageConfirmation_keeps t : kept (sendMessageConfirmation resolve t).
Proof. unfold sendMessageConfirmation. keep. Qed.

Lemma sendMetadata_keeps h : kept (sendMetadata h).
Proof. unfold sendMetadata. keep. Qed.
Local Hint Resolve sendDecline_keeps sendMessageConfirmation_keeps sendMetadata_keeps : keeps.

Lemma send_chunks_keeps fuel r s : kept (send_chunks fuel r s).
Proof.
  revert r s. induction fuel as [| fuel IH]; intros r s; cbn; [keep |].
  destruct r; keep.
Qed.
Local Hint Resolve send_chunks_keeps : keeps.

Lemma sendFile_keeps t : kept (sendFile resolve t).
Proof.
  assert (Hr : forall p, kept (read_path p)) by (intros; unfold read_path; keep).
  unfold sendFile. keep.
Qed.
Local Hint Resolve sendFile_keeps : keeps.

Lemma receiveDownloadRequest_keeps t : kept (receiveDownloadRequest resolve t).
Proof. unfold receiveDownloadRequest. keep. Qed.

Lemma receiveDecline_keeps t nl : kept (receiveDecline resolve t nl).
Proof. unfold receiveDecline. keep. Qed.

Lemma receiveMessageConfirmation_keeps t : kept (receiveMessageConfirmation t).
Proof. unfold receiveMessageConfirmation. keep. Qed.

Lemma recv_chunks_keeps fuel p r : kept (recv_chunks fuel p r).
Proof.
  revert r. induction fuel as [| fuel IH]; intros r; cbn; [keep |].
  destruct r; keep.
Qed.
Local Hint Resolve recv_chunks_keeps : keeps.

Lemma receiveFile_keeps t m c : kept (receiveFile resolve t m c).
Proof. unfold receiveFile. keep. Qed.

Lemma receiveMarketplaceFiles_keeps d : kept (receiveMarketplaceFiles d).
Proof. unfold receiveMarketplaceFiles. keep. Qed.

Lemma handleInput_keeps i v : typed_keys (EInput i v) ⊆ K -> kept (handleInput i v).
Proof.
  unfold handleInput, typed_keys. destruct (args_of i) as [| word [| key [| value rest]]]; intros Hk; try keep.
  destruct (decide (ToUpper word = "PUT"%string)) as [Hput | Hput]; [| keep; congruence].
  eapply keeps_bind; [apply keeps_Put; left; set_solver | intros; keep].
Qed.

Lemma run_event_keeps e : typed_keys e ⊆ K -> kept (run_event resolve e).
Proof.
  intros Hk. assert (Hr : forall (m : MW D Response), kept m -> kept (m;; ret tt)).
  { intros m Hm. eapply keeps_bind; [exact Hm | intros; keep]. }
  destruct e; cbn [run_event]; try apply Hr;
    eauto using getFiles_keeps, uploadFileHandler_keeps, handleGetFileByHash_keeps,
      handleGetRating_keeps, handleVote_keeps, deleteFile_keeps, getMarketplaceFiles_keeps,
      getTransactions_keeps, handleDownloadRequest_keeps, receiveMarketplaceFiles_keeps, handleInput_keeps.
Qed.

Lemma run_packet_keeps p : kept (run_packet resolve p).
Proof.
  unfold run_packet. destruct (setupStreams !! p_proto p) as [h |]; [| keep].
  destruct h, (p_body p); cbn;
    eauto using receiveDownloadRequest_keeps, receiveDecline_keeps,
      receiveMessageConfirmation_keeps, receiveFile_keeps; keep.
Qed.
End Keeps.

Section Invariant.
Context {D : Type} `{DHTLaws D} (resolve : string -> outcome AppErr string).

(** The network is sound: the DHT, every node and every disk are. *)
Record net_ok (net : Net D) : Prop := {
  net_dht_ok : dht_ok (foreign_keys net) (net_dht net);
  net_nodes_ok : map_Forall (fun _ => node_ok) (nodes net);
  net_stopped_ok : map_Forall (fun _ => node_ok) (stopped net);
}.

Lemma dht_ok_more K K' (d : D) : dht_ok K d -> K ⊆ K' -> dht_ok K' d.
Proof. intros Hd Hk k v Hs. destruct (Hd k v Hs); [left; set_solver | now right]. Qed.

Lemma run_node_ok peer n net : net_ok net -> node_ok n -> net_ok (run_node peer n net).
Proof.
  intros [Hd Hn Hs] Hok. constructor; [exact Hd | now apply map_Forall_insert_2 | now apply map_Forall_delete].
Qed.

Lemma stop_node_ok peer n net : net_ok net -> node_ok n -> net_ok (stop_node peer n net).
Proof.
  intros [Hd Hn Hs] Hok. constructor; [exact Hd | now apply map_Forall_delete | now apply map_Forall_insert_2].
Qed.

Lemma after_ok peer o w net rest keys :
  net_ok net -> sound (keys ∪ foreign_keys net) w -> net_ok (after peer o w net rest keys).
Proof.
  intros Hok [Hd Hw]. unfold after. destruct o; (constructor; [exact Hd | |]);
    first [apply (run_node_ok peer (node w) net Hok Hw) | apply (stop_node_ok peer (node w) net Hok Hw)].
Qed.

Lemma run_sound (m : MW D unit) net peer n fs o w keys :
  keeps (sound (keys ∪ foreign_keys net)) m (fun _ => True) -> net_ok net -> nodes net !! peer = Some n ->
  m (mkWorld n (net_dht net) fs []) = (o, w) -> sound (keys ∪ foreign_keys net) w.
Proof.
  intros Hm [Hd Hn _] Hp Hr. destruct (Hm (mkWorld n (net_dht net) fs [])) as [Hs _].
  - split; [apply (dht_ok_more _ _ _ Hd); set_solver | exact (Hn _ _ Hp)].
  - now rewrite Hr in Hs.
Qed.

Lemma event_sound e net peer n fs o w : net_ok net -> nodes net !! peer = Some n ->
  run_event resolve e (mkWorld n (net_dht net) fs []) = (o, w) -> sound (typed_keys e ∪ foreign_keys net) w.
Proof. intros Hok Hp Hr. eapply run_sound; [| done | exact Hp | exact Hr]. apply run_event_keeps. set_solver. Qed.

Lemma step_ok net net' : step resolve net net' -> net_ok net -> net_ok net'.
Proof.
  destruct 1 as [peer e fs net n o w Hp Hr | peer e fs net n w Hp Hr | p ps qs fs net n o w _ Hp Hr
    | p ps qs net _ | peer n net Hp | peer n addrs net Hp _ | peer n net _ _ (Hu & Hd & Ht) | peer n c net Hp | id v b d net Hput];
    intros Hok; pose proof Hok as [Hdht Hnodes Hstop].
  - apply after_ok; [done |]. eapply event_sound; eauto.
  - apply after_ok; [done |]. eapply event_sound; eauto.
  - apply after_ok; [done |]. eapply run_sound; eauto using run_packet_keeps.
  - now constructor.
  - apply stop_node_ok; [done | exact (Hnodes _ _ Hp)].
  - apply run_node_ok; [done |]. exact (Hstop _ _ Hp).
  - apply run_node_ok; [done |]. split; [intros []; cbn | cbn]; now rewrite ?Hu, ?Hd, ?Ht.
  - apply run_node_ok; [done |]. exact (Hnodes _ _ Hp).
  - constructor; [| done | done]. intros k x Hs. cbn [net_dht foreign_keys] in *.
    destruct (PutValue_old _ _ _ _ _ _ _ Hput Hs) as [Hold | [-> _]]; [| left; set_solver].
    destruct (Hdht k x Hold); [left; set_solver | now right].
Qed.
End Invariant.

(** C16: in every network reached from a sound one (in particular from one with
    an empty DHT and nodes without files), by any interleaving of HTTP requests,
    lines typed at the consoles, deliveries, losses, crashes, restarts on the disk
    that was left, and nodes that join, with any failures of the operating system
    and of libp2p and a DHT that may answer with old values: every metadata record
    that may be read has a rating that is the number of its providers that voted up
    minus those that voted down, and a number of raters that is the number of
    providers that voted, unless its key is one that the command PUT of a console
    or a proxy has written to; and no JSON file of a node, running or stopped,
    holds a hash or a transaction id twice.  Handlers run one at a time: a crash
    comes before or after a handler, or where the handler itself ends the process. *)
Theorem network_invariant {D} `{DHTLaws D} resolve (net net' : Net D) :
  net_ok net -> reachable resolve net net' ->
  (forall k v, stored (net_dht net') k v -> k ∉ foreign_keys net' ->
     exists m ps, v = Json m /\ Providers m = Some ps /\
       Rating m = int64 (votes upvote ps - votes downvote ps) /\
       NumRaters m = int64 (votes upvote ps + votes downvote ps)) /\
  (forall peer n, nodes net' !! peer = Some n \/ stopped net' !! peer = Some n ->
     (forall p l, doc p n = Some (Json l) -> NoDup (fHash <$> l)) /\
     (forall l, transactionFiles n = Some (Json l) -> NoDup (TransactionID <$> l))).
Proof.
  intros Hok Hr. assert (Hok' : net_ok net').
  { induction Hr; eauto using step_ok. }
  destruct Hok' as [Hd Hn Hs]. split.
  - intros k v Hk Hout. destruct (Hd k v Hk) as [Hin | (m & -> & ps & Ht)]; [done |]. exists m, ps. destruct Ht. done.
  - intros peer n Hp. assert (Hnode : node_ok n) by (destruct Hp as [Hp | Hp]; [exact (Hn _ _ Hp) | exact (Hs _ _ Hp)]).
    destruct Hnode as [Hf Ht]. split.
    + intros p l Hl. specialize (Hf p). now rewrite Hl in Hf.
    + intros l Hl. now rewrite Hl in Ht.
Qed.

Definition gdht : Type := gmap string (json DHTMetadata).

Definition example_path : string := "/home/squid/squidcoinFiles/notes.txt".

(** peerA holds the file, peerB holds nothing. *)
Definition example_net : Net gdht :=
  mkNet {[ "peerA"%string := set_content {[ example_path := [x61; x62; x63] ]}
                               (fresh_node "peerA");
           "peerB"%string := fresh_node "peerB" ]} ∅ ∅ [] ∅.

(** peerA uploads the file. *)
Definition example_net' : Net gdht :=
  let n := set_content {[ example_path := [x61; x62; x63] ]} (fresh_node "peerA") in
  let '(o, w) := run_event resolve_any (EUpload "POST" "true" (Json example_file))
                   (mkWorld n ∅ [] []) in
  after "peerA" o w example_net [] ∅.

(** Then peerB types a line. *)
Definition typed_line : Event := EInput " put beef 1 " NotJson.

Definition example_net'' : Net gdht :=
  let '(o, w) := run_event resolve_any typed_line (mkWorld (fresh_node "peerB") (net_dht example_net') [] []) in
  after "peerB" o w example_net' (inflight example_net') (typed_keys typed_line).

Lemma example_net_ok : net_ok example_net.
Proof.
  constructor; [intros k v Hk; done | | apply map_Forall_empty].
  apply map_Forall_insert_2; [| apply map_Forall_singleton]; (split; [intros []; exact I | exact I]).
Qed.

Lemma example_reachable : reachable resolve_any example_net example_net''.
Proof.
  apply (rtc_l _ _ example_net').
  - unfold example_net'. destruct (run_event _ _ _) as [o w] eqn:E.
    eapply (step_event _ _ (EUpload "POST" "true" (Json example_file)) []); [| exact E]. reflexivity.
  - apply rtc_once. unfold example_net''. destruct (run_event _ typed_line _) as [o w] eqn:E.
    apply (step_event resolve_any "peerB" typed_line [] example_net' (fresh_node "peerB") o w); [| exact E].
    vm_compute. reflexivity.
Qed.

(** The line has broken the record of the file beef, and no other. *)
Lemma network_invariant_witness :
  net_ok example_net /\ reachable resolve_any example_net example_net'' /\
  stored (net_dht example_net'') (meta_key "beef") NotJson /\ foreign_keys example_net'' = {[ meta_key "beef" ]} /\
  exists m, stored (net_dht example_net'') (meta_key "a1b2") (Json m) /\
    exists ps, Providers m = Some ps /\ Rating m = int64 (votes upvote ps - votes downvote ps).
Proof.
  split; [exact example_net_ok | split; [exact example_reachable |]].
  destruct (network_invariant resolve_any example_net example_net'' example_net_ok example_reachable) as [Hd _].
  split; [vm_compute; reflexivity |]. assert (Hf : foreign_keys example_net'' = {[ meta_key "beef" ]}).
  { assert (Hf' : foreign_keys example_net'' = typed_keys typed_line ∪ (∅ ∪ ∅)) by (vm_compute; reflexivity).
    rewrite Hf', !(right_id_L ∅ union). vm_compute. reflexivity. }
  split; [exact Hf |].
  destruct (net_dht example_net'' !! meta_key "a1b2") as [v |] eqn:E; [| vm_compute in E; discriminate].
  destruct (Hd _ _ E) as (m & ps & -> & Hp & Hrat & _).
  { rewrite Hf, elem_of_singleton. vm_compute. discriminate. }
  exists m. split; [exact E |]. exists ps. split; [exact Hp | exact Hrat].
Defined.

(** The handler set first for the protocol of responses is never run: a
    decline is handled by [receiveMessageConfirmation]. *)
Lemma decline_handled_as_confirmation {D} `{DHTService D} resolve t nl :
  run_packet resolve (mkPacket (RequesterID t) "/requestResponse/p2p" (BResponse t nl)) =
  (receiveMessageConfirmation t : MW D unit).
Proof. reflexivity. Qed.

(** A file stream that ends before its two first lines ends the process of
    the receiver. *)
Lemma truncated_stream_is_fatal {D} `{DHTService D} resolve t c (w : World D) :
  receiveFile resolve t None c w = (Panic, w).
Proof. now destruct t. Qed.
