(* ===== verification/AppTransfer.v ===== *)
(** A file transfer, end to end: what [sendFile] of the provider writes and
    what [receiveFile] of the requester makes of it, and which paths the code
    touches for a name that comes from another peer. *)

From S2P Require Import Prelude AppTypes AppStore AppDht AppPeer AppNet.

Section Transfer.
Context {D : Type} `{DHTService D} (resolve : string -> outcome AppErr string).

(** Without failures the chunks are the file. *)
Lemma send_chunks_all fuel rest acc (w : World D) :
  faults w = [] -> (length rest <= fuel)%nat ->
  send_chunks fuel rest acc w = (Ok (acc ++ rest), w).
Proof.
  revert rest acc. induction fuel as [| fuel IH]; intros rest acc Hf Hl.
  - destruct rest; [now rewrite app_nil_r | cbn in Hl; lia].
  - destruct rest as [| b rest]; [cbn; now rewrite app_nil_r |].
    cbn [send_chunks]. unfold bind, sys. rewrite Hf. cbn -[take drop]. rewrite Hf.
    cbn -[take drop]. rewrite IH; [| done |].
    + now rewrite <- app_assoc, take_drop.
    + rewrite length_drop. cbn in *. lia.
Qed.

(** Writing the chunks appends to the file, and nothing else changes. *)
Lemma recv_chunks_all fuel p rest (w : World D) :
  faults w = [] -> (length rest <= fuel)%nat ->
  forall old, content (node w) !! p = Some old ->
  exists w', recv_chunks fuel (Some p) rest w = (Ok tt, w') /\
    node w' = set_content (<[p := old ++ rest]> (content (node w))) (node w) /\
    faults w' = [] /\ dht w' = dht w /\ sent w' = sent w.
Proof.
  assert (Hsame : forall (v : World D) old, content (node v) !! p = Some old ->
    node v = set_content (<[p := old ++ []]> (content (node v))) (node v)).
  { intros v old Ho. rewrite app_nil_r, insert_id by done. now destruct (node v). }
  revert rest w. induction fuel as [| fuel IH]; intros rest w Hf Hl old Ho.
  - destruct rest; [| cbn in Hl; lia]. exists w. auto.
  - destruct rest as [| b rest]; [exists w; auto |].
    cbn [recv_chunks]. autorewrite with world. rewrite Hf. autorewrite with world.
    cbn [hd pop faults tail]. rewrite Hf. cbn [hd tail]. autorewrite with world.
    rewrite Ho. cbn [default].
    set (chunk := take 4086 (b :: rest)). set (w1 := upd_node _ _).
    destruct (IH (drop 4086 (b :: rest)) w1) with (old := old ++ chunk)
      as (w' & Hr & Hn & Hf' & Hd' & Hs').
    + unfold w1. cbn. now rewrite Hf.
    + rewrite length_drop. cbn in *. lia.
    + unfold w1. cbn. now rewrite lookup_insert_eq.
    + exists w'. split; [exact Hr |]. split; [| done].
      rewrite Hn. unfold w1. cbn -[take drop].
      rewrite insert_insert_eq, <- app_assoc. unfold chunk. now rewrite take_drop.
Qed.

(** The line of metadata a provider sends. *)
Definition metadata_line (hash : string) (m : DHTMetadata) : FileMetadata :=
  mkFile (mName m) (mNameWithExtension m) (mType m) (mSize m) (mDescription m) hash true 0
    EmptyString false EmptyString false.

Lemma wp_run {A} (m : MW D A) Q w o w' : m w = (o, w') -> Q o w' -> wp m Q w.
Proof. intros Hm HQ. unfold wp. now rewrite Hm. Qed.

Lemma sendMetadata_run h m (w : World D) :
  faults w = [] -> fst (GetValue (meta_key h) (dht w)) = Some (Json m) ->
  wp (sendMetadata h) (fun o w' => o = Ok (metadata_line h m) /\
    node w' = node w /\ faults w' = [] /\ sent w' = sent w) w.
Proof.
  intros Hf Hg. unfold sendMetadata. apply wp_dht. rewrite Hg.
  apply wp_bind, wp_ret, wp_bind, wp_ret, wp_sys_ok; [done |]. now apply wp_ret.
Qed.

Lemma wp_try {A} (m : MW D A) (Q : outcome AppErr (option A) -> World D -> Prop) w :
  wp m (fun o w' => match o with
                    | Ok a => Q (Ok (Some a)) w'
                    | Err _ => Q (Ok None) w'
                    | Panic => Q Panic w'
                    end) w -> wp (try m) Q w.
Proof. unfold wp, try. now destruct (m w) as [[] w']. Qed.

Lemma sendFile_run t m data path peer (w : World D) :
  faults w = [] -> FileHashToPath (node w) !! FileHash t = Some path -> path <> EmptyString ->
  content (node w) !! resolve_path (Cwd (node w)) path = Some data ->
  resolve (RequesterID t) = Ok peer ->
  fst (GetValue (meta_key (FileHash t)) (dht w)) = Some (Json m) ->
  wp (sendFile resolve t) (fun o w' => o = Ok tt /\ node w' = node w /\
    sent w' = sent w ++ [mkPacket peer "/sendFile/p2p"
                           (BFile (Some t) (Some (metadata_line (FileHash t) m)) data)]) w.
Proof.
  intros Hf Hp Hne Hc Hr Hg. unfold sendFile, path_of. apply wp_nget. rewrite Hp. cbn [default id].
  apply wp_bind. unfold read_path. apply wp_nget, wp_nget, wp_ret.
  rewrite decide_False by done. rewrite Hc.
  apply wp_bind. unfold CreateNewStream. apply wp_bind. unfold wp at 1, lift. rewrite Hr. cbn.
  do 2 (apply wp_attempt_ok; [done |]). apply wp_ret, wp_sys_ok; [done |].
  apply wp_bind, wp_try. eapply wp_conseq; [now apply (sendMetadata_run _ m) |].
  intros o w' (-> & Hn & Hf' & Hs). apply wp_sys_ok; [done |]. apply wp_bind.
  eapply wp_run; [now apply send_chunks_all |]. split; [done |]. cbn. now rewrite Hs.
Qed.

(** Nothing in [UpdateFileInDHT] touches the node. *)
Lemma UpdateFileInDHT_node i (w : World D) :
  wp (UpdateFileInDHT i) (fun _ w' => node w' = node w) w.
Proof.
  enough (Hk : keeps (fun w' => node w' = node w) (UpdateFileInDHT i) (fun _ => True))
    by now destruct (Hk w eq_refl).
  set (I := fun w' : World D => node w' = node w).
  assert (Hd : forall A (f : D -> A * D), keeps I (dht_call f) (fun _ => True)).
  { intros A f v Hv. unfold dht_call. now destruct (f (dht v)). }
  assert (Hg : forall A (f : Node -> A), keeps I (nget f) (fun _ => True)) by (now intros A f v Hv).
  assert (Hl : forall A (o : outcome AppErr A), keeps I (lift o) (fun _ => True))
    by (now intros A o v Hv).
  assert (Ha : forall k p ps, keeps I (map_assign k p ps : MW D _) (fun _ => True))
    by (intros k p [ps |] v Hv; done).
  assert (Hr : forall A (a : A), keeps I (ret a : MW D A) (fun _ => True)) by (now intros A a v Hv).
  assert (Hb : forall A B (m : MW D A) (k : A -> MW D B), keeps I m (fun _ => True) ->
    (forall a, keeps I (k a) (fun _ => True)) -> keeps I (bind m k) (fun _ => True)).
  { intros A B m k Hm Hk. eapply keeps_bind; [exact Hm | intros; apply Hk]. }
  assert (Hu : forall (d : json DHTMetadata), keeps I (unmarshal_fatal d : MW D _) (fun _ => True))
    by (now intros [] v Hv).
  assert (Hq : forall b e, keeps I (guard b e : MW D _) (fun _ => True)) by (now intros [] e v Hv).
  unfold UpdateFileInDHT, ProvideKey, marshal.
  repeat (apply Hb || intros || auto; try case_match); auto.
Qed.

(** Saving an entry in a file that parses, without failures. *)
Lemma save_doc_done {A} proj upd (key : A -> string) c e x `{!Doc proj upd} (w : World D) :
  faults w = [] -> proj (node w) <> Some NotJson ->
  wp (ignore_err (save_doc proj upd key c e x)) (fun o w' => o = Ok tt /\
    only_doc upd w w' /\
    exists l, proj (node w') = Some (Json l) /\ files_map key l !! key x = Some x) w.
Proof.
  intros Hf Hd. pose proof (save_doc_ok key proj upd c e x w Hf) as Hk.
  pose proof (save_doc_spec key proj upd c e x w) as [Ho Hr].
  unfold wp, ignore_err. destruct (save_doc _ _ _ _ _ _ w) as [[b | |] w']; cbn in *;
    [| now destruct (proj (node w)) as [[] |] ..].
  destruct Hr as [(l & l' & _ & Hl' & Hm & _) _]. split; [done | split; [done |]].
  destruct Ho as [(d & v & Hn) _]. rewrite Hn, doc_utils, doc_get in *.
  destruct v as [[l1 |] |]; cbn in Hl'; simplify_eq.
  - exists l'. split; [done |]. now rewrite Hm, lookup_insert_eq.
  - exfalso. apply (f_equal (lookup (key x))) in Hm. cbn in Hm.
    now rewrite lookup_empty, lookup_insert_eq in Hm.
Qed.

Lemma wp_ignore_ret {A B} (m : MW D A) (g : A -> B) (Q : outcome AppErr unit -> World D -> Prop) w :
  wp (ignore_err m) Q w -> wp (ignore_err (bind m (fun a => ret (g a)))) Q w.
Proof. unfold wp, ignore_err, bind, ret. now destruct (m w) as [[] w']. Qed.

(** Sending touches no node. *)
Lemma send_node {A} (m : MW D A) (Q : outcome AppErr unit -> World D -> Prop) (P : Node -> Prop) w :
  wp m (fun _ w' => node w' = node w) w -> P (node w) ->
  (forall o w', P (node w') -> Q o w') -> wp (ignore_err m) Q w.
Proof.
  unfold wp, ignore_err. intros Hm HP HQ. destruct (m w) as [[] w']; cbn in *; apply HQ;
    now rewrite Hm.
Qed.

Lemma CreateNewStream_node {A} t (k : string -> MW D A) (w : World D) :
  (forall p w', node w' = node w -> wp (k p) (fun _ w2 => node w2 = node w) w') ->
  wp (bind (CreateNewStream resolve t) k) (fun _ w' => node w' = node w) w.
Proof.
  intros Hk. apply wp_bind. unfold CreateNewStream. apply wp_bind. unfold wp at 1, lift. cbn.
  destruct (resolve t); [| done ..]. apply wp_bind, wp_attempt; [done |].
  apply wp_bind, wp_attempt; [done |]. apply wp_ret. now apply Hk.
Qed.

Lemma SendCloudNodeFiles_node m (w : World D) :
  wp (SendCloudNodeFiles resolve m) (fun _ w' => node w' = node w) w.
Proof.
  apply CreateNewStream_node. intros p w' Hn. apply wp_bind, wp_attempt; cbn; auto.
Qed.

Lemma sendMessageConfirmation_node t (w : World D) :
  wp (sendMessageConfirmation resolve t) (fun _ w' => node w' = node w) w.
Proof.
  apply CreateNewStream_node. intros p w' Hn. apply wp_bind, wp_attempt; cbn; auto.
Qed.

(** What the requester has after a transfer. *)
Definition received (cwd : string) (t : Transaction) (f : FileMetadata) (c : bytes) (n : Node)
  : Prop :=
  let p := Join [FileCopyPath; fNameWithExtension f] in
  content n !! resolve_path cwd p = Some c /\
  FileHashToPath n !! fHash f = Some p /\
  (exists l, downloaded n = Some (Json l) /\
     files_map fHash l !! fHash f = Some (set_fIsPublished false f)) /\
  (exists l, transactionFiles n = Some (Json l) /\
     files_map TransactionID l !! TransactionID t = Some (set_Status "complete" t)).

Lemma receiveFile_run t f c (w : World D) :
  faults w = [] -> downloaded (node w) <> Some NotJson ->
  transactionFiles (node w) <> Some NotJson ->
  wp (receiveFile resolve (Some t) (Some f) c)
    (fun _ w' => received (Cwd (node w)) t f c (node w')) w.
Proof.
  intros Hf Hd Ht. unfold receiveFile. apply wp_sys_ok; [done |]. apply wp_nget.
  apply wp_sys_ok; [done |]. apply wp_nget, wp_bind, wp_nset.
  set (p := resolve_path _ _). set (w1 := upd_node _ w).
  destruct (recv_chunks_all (length c) p c w1 Hf (le_n _) [])
    as (w2 & Hr & Hn2 & Hf2 & _ & _); [unfold w1; cbn; apply lookup_insert_eq |].
  apply wp_bind. eapply wp_run; [exact Hr |]. cbn -[Join].
  assert (Hc2 : content (node w2) !! p = Some c /\ downloaded (node w2) = downloaded (node w) /\
    transactionFiles (node w2) = transactionFiles (node w))
    by (rewrite Hn2; cbn; now rewrite lookup_insert_eq).
  clear Hn2 Hr. destruct Hc2 as (Hc2 & Hd2 & Ht2).
  apply wp_bind, wp_ignore_ret. eapply wp_conseq.
  { apply (save_doc_done (doc DownloadedFilePath)); [apply _ | exact Hf2 |]. cbn. congruence. }
  intros o w3 (-> & ((d & v & Hn3) & _ & _ & Hf3) & l & Hl & Hin). cbn in Hn3, Hl.
  apply wp_nget, wp_bind, wp_nset, wp_bind, wp_ignore_ret. eapply wp_conseq.
  { apply (save_doc_done transactionFiles); [apply _ | exact (Hf3 Hf2) |].
    cbn. rewrite Hn3. cbn. congruence. }
  intros o w4 (-> & ((d' & v' & Hn4) & _) & lt & Hlt & Hint).
  assert (Hrec : received (Cwd (node w)) t f c (node w4)).
  { split_and!.
    - rewrite Hn4. cbn -[Join]. rewrite Hn3. cbn -[Join]. exact Hc2.
    - rewrite Hn4. cbn -[Join]. apply lookup_insert_eq.
    - exists l. split; [| exact Hin]. rewrite Hn4. exact Hl.
    - exists lt. split; [exact Hlt | exact Hint]. }
  clearbody p. apply wp_bind. eapply wp_conseq; [apply UpdateFileInDHT_node |].
  intros [m | |] w5 Hn5; rewrite <- Hn5 in Hrec; [| exact Hrec ..].
  apply wp_bind. eapply send_node; [apply sendMessageConfirmation_node | exact Hrec |].
  intros [] w6 Hrec6; [| exact Hrec6 ..].
  eapply send_node; [apply SendCloudNodeFiles_node | exact Hrec6 |]. auto.
Qed.
End Transfer.

(** C17: a file arrives as it was sent.  If the provider has the file it serves
    under the hash, the DHT answers with its metadata and nothing fails on
    either side, then sending puts exactly one packet on its way to the
    requester, and handling that packet leaves the requester, whatever the DHT
    and the streams answer afterwards, with the bytes of the provider under
    the name of the metadata in squidcoinFiles, the hash served from that
    path, the entry in downloadedFiles.json marked unpublished and the
    transaction recorded as complete. *)
Theorem file_transfer {D} `{DHTService D} resolve t m data path peer (wA wB : World D) :
  faults wA = [] -> FileHashToPath (node wA) !! FileHash t = Some path -> path <> EmptyString ->
  content (node wA) !! resolve_path (Cwd (node wA)) path = Some data ->
  resolve (RequesterID t) = Ok peer ->
  fst (GetValue (meta_key (FileHash t)) (dht wA)) = Some (Json m) ->
  faults wB = [] -> downloaded (node wB) <> Some NotJson ->
  transactionFiles (node wB) <> Some NotJson ->
  exists p, wp (sendFile resolve t) (fun o w' => o = Ok tt /\ sent w' = sent wA ++ [p]) wA /\
    p_to p = peer /\
    wp (run_packet resolve p)
      (fun _ w' => received (Cwd (node wB)) t (metadata_line (FileHash t) m) data (node w')) wB.
Proof.
  intros HfA Hp Hne Hc Hr Hg HfB Hd Ht. eexists. split.
  - eapply wp_conseq; [eapply sendFile_run; eauto |]. intros o w' (Ho & _ & Hs). eauto.
  - split; [done |]. now apply receiveFile_run.
Qed.

Definition example_request : Transaction :=
  mkTx "request" "a1b2" "peerB" EmptyString "peerA" EmptyString "pending" EmptyString
    "2024-12-02 10:00:00" "notes.txt" "tx-1" 3 5.

Definition provider_world : World gdht :=
  mkWorld (set_FileHashToPath {[ "a1b2"%string := example_path ]}
             (set_content {[ example_path := [x61; x62; x63] ]} (fresh_node "peerA")))
    {[ meta_key "a1b2" := Json example_meta ]} [] [].

Definition requester_world : World gdht :=
  mkWorld (fresh_node "peerB") {[ meta_key "a1b2" := Json example_meta ]} [] [].

Lemma file_transfer_witness :
  exists p, sent (snd (sendFile resolve_any example_request provider_world)) = [p] /\
    content (node (snd (run_packet resolve_any p requester_world))) !! example_path
    = Some [x61; x62; x63].
Proof.
  destruct (file_transfer resolve_any example_request example_meta [x61; x62; x63] example_path
              "peerB" provider_world requester_world) as (p & [_ Hs] & _ & Hr & _).
  - reflexivity.
  - vm_compute. reflexivity.
  - discriminate.
  - vm_compute. reflexivity.
  - reflexivity.
  - vm_compute. reflexivity.
  - reflexivity.
  - discriminate.
  - discriminate.
  - exists p. split; [exact Hs |].
    replace example_path
      with (resolve_path (Cwd (node requester_world))
              (Join [FileCopyPath; fNameWithExtension (metadata_line "a1b2" example_meta)]))
      by (vm_compute; reflexivity).
    exact Hr.
Defined.

(** * Names from another peer

    The code joins the directory and the name without looking at the name. *)

Example delete_outside_the_directory :
  let w := mkWorld (set_content {[ "/home/squid/wallet.dat"%string := [x00] ]}
                      (fresh_node "peerA")) (∅ : gdht) [] [] in
  content (node (snd (deleteFile "DELETE" "a1b2" "true" "../wallet.dat" w))) = ∅.
Proof. vm_compute. reflexivity. Qed.

Example receive_outside_the_directory :
  let w := mkWorld (set_content {[ "/home/squid/wallet.dat"%string := [x00] ]}
                      (fresh_node "peerB")) (∅ : gdht) [] [] in
  let f := mkFile "x" "../wallet.dat" EmptyString 1 EmptyString "a1b2" true 0 EmptyString false
             EmptyString false in
  content (node (snd (receiveFile resolve_any (Some example_request) (Some f) [x2a] w)))
    !! "/home/squid/wallet.dat"%string = Some [x2a].
Proof. vm_compute. reflexivity. Qed.

(** A deletion that fails in the JSON file has already deleted the content and
    the path. *)
Example failed_deletion_deletes :
  let w := mkWorld (set_FileHashToPath {[ "a1b2"%string := example_path ]}
             (set_content {[ example_path := [x61] ]} (fresh_node "peerA"))) (∅ : gdht) [] [] in
  let '(o, w') := deleteFile "DELETE" "a1b2" "true" "notes.txt" w in
  o = Err (HttpError 500) /\ content (node w') = ∅ /\ FileHashToPath (node w') = ∅.
Proof. vm_compute. repeat split. Qed.

(** Where the code departs from what it means to do.  Removing a provider
    never puts anything into the DHT; a vote that comes with a republished
    file is in the rating and the number of raters but in neither counter; a
    deletion that fails in the JSON file has deleted the content and the path;
    a name sent by another peer lets the receiver overwrite a file outside
    squidcoinFiles; a file stream that ends early ends the process of the
    receiver; and a decline is handled by the handler of confirmations, which
    was registered last for its protocol. *)
Example sharing_defects :
  (forall h b (w : World gdht), wp (removeProvider h b) (fun _ w' =>
     dht w' = snd (GetValue (meta_key h) (dht w)) /\ sent w' = sent w) w) /\
  (exists m, fst (UpdateFileInDHT (set_fVoteType upvote example_file) example_world) = Ok m /\
     Rating m = 1 /\ NumRaters m = 1 /\ Upvote m = 0 /\ Downvote m = 0) /\
  (let w := mkWorld (set_FileHashToPath {[ "a1b2"%string := example_path ]}
              (set_content {[ example_path := [x61] ]} (fresh_node "peerA"))) (∅ : gdht) [] [] in
   let '(o, w') := deleteFile "DELETE" "a1b2" "true" "notes.txt" w in
   o = Err (HttpError 500) /\ content (node w') = ∅ /\ FileHashToPath (node w') = ∅) /\
  (let w := mkWorld (set_content {[ "/home/squid/wallet.dat"%string := [x00] ]}
                      (fresh_node "peerB")) (∅ : gdht) [] [] in
   let f := mkFile "x" "../wallet.dat" EmptyString 1 EmptyString "a1b2" true 0 EmptyString false
              EmptyString false in
   content (node (snd (receiveFile resolve_any (Some example_request) (Some f) [x2a] w)))
     !! "/home/squid/wallet.dat"%string = Some [x2a]) /\
  (forall t c (w : World gdht), receiveFile resolve_any t None c w = (Panic, w)) /\
  (forall t nl, run_packet resolve_any
     (mkPacket (RequesterID t) "/requestResponse/p2p" (BResponse t nl)) =
     (receiveMessageConfirmation t : MW gdht unit)).
Proof.
  split_and!.
  - intros h b w. eapply wp_conseq; [apply removeProvider_keeps_providers |].
    intros o w' (Hd & _ & Hs). done.
  - eexists. split; [vm_compute; reflexivity | now repeat split].
  - exact failed_deletion_deletes.
  - exact receive_outside_the_directory.
  - intros. apply truncated_stream_is_fatal.
  - intros. apply decline_handled_as_confirmation.
Qed.
