(* ===== verification/BtcUtil.v ===== *)
(** Transactions and blocks with memoized hashes (src/btcd/btcutil/tx.go,
    src/btcd/btcutil/block.go), and the hashes of src/btcd/wire they memoize.

    A pointer to a wrapped transaction is the position of the transaction in
    its block: the methods of [Tx] update the memo where it is kept. *)

From S2P Require Import Prelude Slices Crypto WireCommon MsgTx MsgBlock.

(** * Hashes of transactions and blocks *)

Section Ids.
Context `{Crypto}.

Definition TxHash (msg : MsgTx) : bytes := DoubleHashB (SerializeNoWitness msg).

Definition WitnessHash (msg : MsgTx) : bytes :=
  if HasWitness msg then DoubleHashB (Serialize msg) else TxHash msg.

Definition BlockHash (h : BlockHeader) : bytes := DoubleHashB (writeBlockHeaderBuf h).
End Ids.

(** * Wrapped transactions *)

Definition TxIndexUnknown : Z := -1.

(** A nil pointer is [None]. *)
Record Tx := mkTx {
  tx_msgTx : MsgTx;
  tx_txHash : option bytes;
  tx_txHashWitness : option bytes;
  tx_txHasWitness : option bool;
  tx_txIndex : Z;
  tx_rawBytes : option slice;
}.

Definition set_txHash (h : bytes) (t : Tx) : Tx :=
  mkTx (tx_msgTx t) (Some h) (tx_txHashWitness t) (tx_txHasWitness t) (tx_txIndex t) (tx_rawBytes t).
Definition set_txHashWitness (h : bytes) (t : Tx) : Tx :=
  mkTx (tx_msgTx t) (tx_txHash t) (Some h) (tx_txHasWitness t) (tx_txIndex t) (tx_rawBytes t).
Definition set_txHasWitness (b : bool) (t : Tx) : Tx :=
  mkTx (tx_msgTx t) (tx_txHash t) (tx_txHashWitness t) (Some b) (tx_txIndex t) (tx_rawBytes t).
Definition SetIndex (i : Z) (t : Tx) : Tx :=
  mkTx (tx_msgTx t) (tx_txHash t) (tx_txHashWitness t) (tx_txHasWitness t) i (tx_rawBytes t).
Definition setBytes (raw : slice) (t : Tx) : Tx :=
  mkTx (tx_msgTx t) (tx_txHash t) (tx_txHashWitness t) (tx_txHasWitness t) (tx_txIndex t) (Some raw).

Definition NewTx (msg : MsgTx) : Tx := mkTx msg None None None TxIndexUnknown None.

Definition NewTxFromReader : Rd Tx := msg <- Deserialize;; ret (NewTx msg).
Definition NewTxFromBytes (serializedTx : bytes) : outcome WireError Tx :=
  fst (NewTxFromReader serializedTx).

Section TxMethods.
Context `{Crypto} {E : Type}.

Definition Tx_HasWitness : M Tx E bool := fun t =>
  match tx_txHasWitness t with
  | Some b => (Ok b, t)
  | None => let hasWitness := HasWitness (tx_msgTx t) in (Ok hasWitness, set_txHasWitness hasWitness t)
  end.

(** The raw bytes without the marker, the flag and the witnesses. *)
Definition strip_raw (raw : slice) (baseSize : Z) : outcome E bytes :=
  obind (reslice raw 0 4) (fun version =>
  obind (reslice raw 6 (6 + baseSize - 8)) (fun body =>
  obind (reslice raw (s_len raw - 4) (s_len raw)) (fun lock =>
  Ok (contents version ++ contents body ++ contents lock)))).

Definition Tx_Hash : M Tx E bytes := fun t =>
  match tx_txHash t with
  | Some h => (Ok h, t)
  | None =>
      match tx_rawBytes t with
      | None => let hash := TxHash (tx_msgTx t) in (Ok hash, set_txHash hash t)
      | Some raw =>
          (hasWitness <- Tx_HasWitness;;
           buf <- (if hasWitness then lift (strip_raw raw (SerializeSizeStripped (tx_msgTx t)))
                   else ret (contents raw));;
           _ <- modify (set_txHash (DoubleHashB buf));;
           ret (DoubleHashB buf)) t
      end
  end.

Definition Tx_WitnessHash : M Tx E bytes := fun t =>
  match tx_txHashWitness t with
  | Some h => (Ok h, t)
  | None =>
      let hash :=
        match tx_rawBytes t with
        | Some raw => if s_len raw >? 0 then DoubleHashB (contents raw) else WitnessHash (tx_msgTx t)
        | None => WitnessHash (tx_msgTx t)
        end in
      (Ok hash, set_txHashWitness hash t)
  end.
End TxMethods.

(** * Wrapped blocks *)

Definition BlockHeightUnknown : Z := -1.

Record Block := mkBlock {
  msgBlock : MsgBlock;
  serializedBlock : bytes;
  serializedBlockNoWitness : bytes;
  blockHash : option bytes;
  blockHeight : Z;
  transactions : list (option Tx);
  txnsGenerated : bool;
}.

Definition set_serializedBlock (x : bytes) (b : Block) : Block :=
  mkBlock (msgBlock b) x (serializedBlockNoWitness b) (blockHash b) (blockHeight b) (transactions b) (txnsGenerated b).
Definition set_serializedBlockNoWitness (x : bytes) (b : Block) : Block :=
  mkBlock (msgBlock b) (serializedBlock b) x (blockHash b) (blockHeight b) (transactions b) (txnsGenerated b).
Definition set_blockHash (x : bytes) (b : Block) : Block :=
  mkBlock (msgBlock b) (serializedBlock b) (serializedBlockNoWitness b) (Some x) (blockHeight b) (transactions b) (txnsGenerated b).
Definition SetHeight (x : Z) (b : Block) : Block :=
  mkBlock (msgBlock b) (serializedBlock b) (serializedBlockNoWitness b) (blockHash b) x (transactions b) (txnsGenerated b).
Definition set_transactions (x : list (option Tx)) (b : Block) : Block :=
  mkBlock (msgBlock b) (serializedBlock b) (serializedBlockNoWitness b) (blockHash b) (blockHeight b) x (txnsGenerated b).
Definition set_txnsGenerated (x : bool) (b : Block) : Block :=
  mkBlock (msgBlock b) (serializedBlock b) (serializedBlockNoWitness b) (blockHash b) (blockHeight b) (transactions b) x.

Definition NewBlock (m : MsgBlock) : Block := mkBlock m [] [] None BlockHeightUnknown [] false.

(** The error of [Block.Tx]; reading a block has the errors of the decoder. *)
Inductive BlockError : Type :=
| OutOfRangeError
| ReadError (e : WireError).

Definition numTx (b : Block) : nat := length (Transactions (msgBlock b)).

(** [if len(b.transactions) == 0 { b.transactions = make([]*Tx, numTx) }] *)
Definition alloc (b : Block) : Block :=
  match transactions b with [] => set_transactions (replicate (numTx b) None) b | _ => b end.

Section BlockMethods.
Context `{Crypto}.

Definition Block_Bytes : M Block BlockError bytes := fun b =>
  match serializedBlock b with
  | [] => let s := block_Serialize (msgBlock b) in (Ok s, set_serializedBlock s b)
  | s => (Ok s, b)
  end.

Definition Block_BytesNoWitness : M Block BlockError bytes := fun b =>
  match serializedBlockNoWitness b with
  | [] => let s := block_SerializeNoWitness (msgBlock b) in (Ok s, set_serializedBlockNoWitness s b)
  | s => (Ok s, b)
  end.

Definition Block_Hash : M Block BlockError bytes := fun b =>
  match blockHash b with
  | Some h => (Ok h, b)
  | None => let h := BlockHash (Header (msgBlock b)) in (Ok h, set_blockHash h b)
  end.

(** The transaction is returned with its position. *)
Definition Block_Tx (txNum : Z) : M Block BlockError Tx := fun b =>
  if (txNum <? 0) || (txNum >=? Z.of_nat (numTx b)) then (Err OutOfRangeError, b) else
  let b := alloc b in
  match znth (transactions b) txNum with
  | None => (Panic, b)
  | Some (Some t) => (Ok t, b)
  | Some None =>
      match znth (Transactions (msgBlock b)) txNum with
      | None => (Panic, b)
      | Some m =>
          let newTx := SetIndex txNum (NewTx m) in
          (Ok newTx, set_transactions (<[Z.to_nat txNum := Some newTx]> (transactions b)) b)
      end
  end.

(** [for i, tx := range b.transactions] *)
Fixpoint gen_loop (serialized : bytes) (msgs : list MsgTx) (txs : list (option Tx)) (i offset : Z)
  : outcome BlockError (list (option Tx)) :=
  match txs with
  | [] => Ok []
  | Some t :: txs' =>
      obind (gen_loop serialized msgs txs' (i + 1) offset) (fun l => Ok (Some t :: l))
  | None :: txs' =>
      match znth msgs i with
      | None => Panic
      | Some m =>
          let newTx := SetIndex i (NewTx m) in
          let size := SerializeSize m in
          if zlen serialized >? 0 then
            obind (reslice (whole serialized) offset (offset + size)) (fun raw =>
            obind (gen_loop serialized msgs txs' (i + 1) (offset + size)) (fun l =>
            Ok (Some (setBytes raw newTx) :: l)))
          else
            obind (gen_loop serialized msgs txs' (i + 1) offset) (fun l => Ok (Some newTx :: l))
      end
  end.

Definition Block_Transactions : M Block BlockError (list (option Tx)) := fun b =>
  if txnsGenerated b then (Ok (transactions b), b) else
  let b := alloc b in
  let offset := 80 + VarIntSerializeSize (zlen (Transactions (msgBlock b))) in
  match gen_loop (serializedBlock b) (Transactions (msgBlock b)) (transactions b) 0 offset with
  | Ok l => let b := set_txnsGenerated true (set_transactions l b) in (Ok l, b)
  | Err e => (Err e, b)
  | Panic => (Panic, b)
  end.

(** A method of the transaction at a position. *)
Definition on_tx {A} (i : nat) (m : M Tx BlockError A) : M Block BlockError A := fun b =>
  match transactions b !! i with
  | Some (Some t) =>
      let '(r, t') := m t in (r, set_transactions (<[i := Some t']> (transactions b)) b)
  | _ => (Panic, b)
  end.

Definition Block_TxHash (txNum : Z) : M Block BlockError bytes :=
  _ <- Block_Tx txNum;; on_tx (Z.to_nat txNum) Tx_Hash.

Definition Block_TxLoc : M Block BlockError (list TxLoc) :=
  rawMsg <- Block_Bytes;;
  match fst (DeserializeTxLoc rawMsg) with
  | Ok (_, locs) => ret locs
  | Err e => fail (ReadError e)
  | Panic => panic
  end.

Definition NewBlockFromReader : Rd Block := m <- block_BtcDecode WitnessEncoding;; ret (NewBlock m).

(** [b.serializedBlock = serializedBlock; b.Transactions()] *)
Definition prime (m : MsgBlock) (serialized : bytes) : outcome BlockError Block :=
  match Block_Transactions (set_serializedBlock serialized (NewBlock m)) with
  | (Ok _, b) => Ok b
  | (Err e, _) => Err e
  | (Panic, _) => Panic
  end.

Definition NewBlockFromBytes (serialized : bytes) : outcome BlockError Block :=
  match fst (NewBlockFromReader serialized) with
  | Ok b => prime (msgBlock b) serialized
  | Err e => Err (ReadError e)
  | Panic => Panic
  end.

Definition NewBlockFromBlockAndBytes (m : MsgBlock) (serialized : bytes) : outcome BlockError Block :=
  prime m serialized.
End BlockMethods.

(** * The memo is transparent *)

(** The parts of an encoding around the witnesses. *)
Definition tx_head (msg : MsgTx) : bytes := le_bytes 4 (uint32 (Version msg)).
Definition tx_body (msg : MsgTx) : bytes :=
  WriteVarIntBuf (zlen (TxIns msg)) ++ concat (writeTxInBuf <$> TxIns msg) ++
  WriteVarIntBuf (zlen (TxOuts msg)) ++ concat (WriteTxOutBuf <$> TxOuts msg).
Definition tx_witnesses (msg : MsgTx) : bytes :=
  concat ((fun ti => writeTxWitnessBuf (Witness ti)) <$> TxIns msg).
Definition tx_lock (msg : MsgTx) : bytes := le_bytes 4 (LockTime msg).

Lemma SerializeNoWitness_parts msg : SerializeNoWitness msg = tx_head msg ++ tx_body msg ++ tx_lock msg.
Proof.
  unfold SerializeNoWitness, BtcEncode, btcEncode, tx_body. cbn [is_WitnessEncoding andb].
  now rewrite <- !app_assoc.
Qed.

Lemma Serialize_parts msg :
  HasWitness msg = true ->
  Serialize msg =
    tx_head msg ++ [z2b TxFlagMarker; z2b WitnessFlag] ++ tx_body msg ++ tx_witnesses msg ++ tx_lock msg.
Proof.
  intros Hw. unfold Serialize, BtcEncode, btcEncode, tx_body. rewrite Hw. cbn [is_WitnessEncoding andb].
  now rewrite <- !app_assoc.
Qed.

Lemma Serialize_no_witness msg : HasWitness msg = false -> Serialize msg = SerializeNoWitness msg.
Proof.
  intros Hw. unfold Serialize, SerializeNoWitness, BtcEncode, btcEncode. now rewrite Hw.
Qed.

Lemma zlen_tx_body msg : hashes_ok msg -> zlen (tx_body msg) = SerializeSizeStripped msg - 8.
Proof.
  intros Hh. pose proof (zlen_btcEncode BaseEncoding msg Hh) as Hl. cbn [is_WitnessEncoding andb] in Hl.
  change (btcEncode BaseEncoding msg) with (SerializeNoWitness msg) in Hl.
  rewrite SerializeNoWitness_parts, !zlen_app in Hl. unfold tx_head, tx_lock in Hl.
  rewrite !zlen_le_bytes in Hl. unfold SerializeSizeStripped. lia.
Qed.

Lemma zlen_Serialize msg : hashes_ok msg -> zlen (Serialize msg) = SerializeSize msg.
Proof. intros Hh. unfold Serialize, BtcEncode. now rewrite zlen_btcEncode. Qed.

(** The raw bytes of a transaction are its encoding. *)
Definition raw_ok (msg : MsgTx) (raw : slice) : Prop :=
  slice_ok raw /\ contents raw = Serialize msg.

Lemma strip_raw_ok {E} msg raw :
  hashes_ok msg -> raw_ok msg raw -> HasWitness msg = true ->
  @strip_raw E raw (SerializeSizeStripped msg) = Ok (SerializeNoWitness msg).
Proof.
  intros Hh [Hok Hc] Hw. pose proof (zlen_contents raw Hok) as Hl.
  pose proof (zlen_tx_body msg Hh) as Hb. pose proof (zlen_nonneg (tx_body msg)).
  pose proof (zlen_nonneg (tx_witnesses msg)).
  rewrite Hc, (Serialize_parts _ Hw), !zlen_app in Hl.
  change (zlen [z2b TxFlagMarker; z2b WitnessFlag]) with 2 in Hl.
  assert (H4 : zlen (tx_head msg) = 4 /\ zlen (tx_lock msg) = 4) by (split; apply zlen_le_bytes).
  destruct H4 as [Hhead Hlock]. unfold strip_raw.
  destruct (@reslice_within E raw 0 4 Hok) as (s1 & -> & _ & _ & C1); [lia | lia |]. cbn [obind].
  destruct (@reslice_within E raw 6 (6 + SerializeSizeStripped msg - 8) Hok)
    as (s2 & -> & _ & _ & C2); [lia | lia |]. cbn [obind].
  destruct (@reslice_within E raw (s_len raw - 4) (s_len raw) Hok)
    as (s3 & -> & _ & _ & C3); [lia | lia |]. cbn [obind].
  rewrite C1, C2, C3, Hc, (Serialize_parts _ Hw), SerializeNoWitness_parts.
  set (h := tx_head msg) in *. set (m := [z2b TxFlagMarker; z2b WitnessFlag]) in *.
  set (b := tx_body msg) in *. set (w := tx_witnesses msg) in *. set (k := tx_lock msg) in *.
  assert (Hm : zlen m = 2) by reflexivity. clearbody m.
  rewrite (sub_app_head h) by lia.
  rewrite (app_assoc h m), (sub_app (h ++ m) b) by (rewrite zlen_app; lia).
  replace ((h ++ m) ++ b ++ w ++ k) with (((h ++ m) ++ b ++ w) ++ k ++ [])
    by (rewrite app_nil_r, <- !app_assoc; done).
  now rewrite (sub_app _ k []) by (rewrite !zlen_app; lia).
Qed.

Section Memo.
Context `{Crypto} {E : Type}.

(** The memo of a transaction holds what would be computed. *)
Definition tx_wf (t : Tx) : Prop :=
  hashes_ok (tx_msgTx t) /\
  (forall h, tx_txHash t = Some h -> h = TxHash (tx_msgTx t)) /\
  (forall h, tx_txHashWitness t = Some h -> h = WitnessHash (tx_msgTx t)) /\
  (forall b, tx_txHasWitness t = Some b -> b = HasWitness (tx_msgTx t)) /\
  (forall raw, tx_rawBytes t = Some raw -> raw_ok (tx_msgTx t) raw).

(** Only the memo differs. *)
Definition memo (t t' : Tx) : Prop :=
  tx_msgTx t' = tx_msgTx t /\ tx_txIndex t' = tx_txIndex t /\ tx_rawBytes t' = tx_rawBytes t.

(** A method that yields [a] and changes the memo at most. *)
Definition yields {A} (m : M Tx E A) (a : A) (t : Tx) : Prop :=
  exists t', m t = (Ok a, t') /\ tx_wf t' /\ memo t t'.

(** Filling the memo with the right value. *)
Lemma tx_wf_set_txHash t : tx_wf t -> tx_wf (set_txHash (TxHash (tx_msgTx t)) t).
Proof. intros (? & ? & ? & ? & ?). split_and!; cbn; auto. congruence. Qed.

Lemma tx_wf_set_txHashWitness t :
  tx_wf t -> tx_wf (set_txHashWitness (WitnessHash (tx_msgTx t)) t).
Proof. intros (? & ? & ? & ? & ?). split_and!; cbn; auto. congruence. Qed.

Lemma tx_wf_set_txHasWitness t :
  tx_wf t -> tx_wf (set_txHasWitness (HasWitness (tx_msgTx t)) t).
Proof. intros (? & ? & ? & ? & ?). split_and!; cbn; auto. congruence. Qed.

Lemma Tx_HasWitness_yields t : tx_wf t -> yields Tx_HasWitness (HasWitness (tx_msgTx t)) t.
Proof.
  intros Hwf. unfold yields, Tx_HasWitness. destruct (tx_txHasWitness t) as [b |] eqn:Hb.
  - exists t. rewrite (proj1 (proj2 (proj2 (proj2 Hwf))) b Hb). done.
  - eexists. split; [reflexivity |]. split; [now apply tx_wf_set_txHasWitness | done].
Qed.

Lemma Tx_Hash_yields t : tx_wf t -> yields Tx_Hash (TxHash (tx_msgTx t)) t.
Proof.
  intros Hwf. destruct (Tx_HasWitness_yields t Hwf) as (t1 & Hrun & Hwf1 & Hm1 & Hm2 & Hm3).
  pose proof Hwf as (Hh & Hth & _ & _ & Hraw). unfold yields, Tx_Hash.
  destruct (tx_txHash t) as [h |] eqn:Hth'.
  { exists t. now rewrite (Hth h eq_refl). }
  destruct (tx_rawBytes t) as [raw |] eqn:Hr.
  2: { eexists. split; [reflexivity |]. split; [now apply tx_wf_set_txHash | done]. }
  assert (Hbuf : (if HasWitness (tx_msgTx t) then strip_raw raw (SerializeSizeStripped (tx_msgTx t))
                  else Ok (contents raw)) = @Ok E _ (SerializeNoWitness (tx_msgTx t))).
  { destruct (HasWitness (tx_msgTx t)) eqn:Hw.
    - now apply strip_raw_ok; auto.
    - destruct (Hraw raw eq_refl) as [_ ->]. now rewrite Serialize_no_witness. }
  rewrite (bind_Ok _ _ _ _ _ Hrun). exists (set_txHash (TxHash (tx_msgTx t)) t1). split.
  - unfold bind, lift, ret, modify.
    destruct (HasWitness (tx_msgTx t)); [rewrite Hbuf | injection Hbuf as ->]; reflexivity.
  - pose proof (tx_wf_set_txHash t1 Hwf1) as Hwf'. rewrite Hm1 in Hwf'.
    split; [done |]. split_and!; cbn; congruence.
Qed.

Lemma Tx_WitnessHash_yields t : tx_wf t -> yields Tx_WitnessHash (WitnessHash (tx_msgTx t)) t.
Proof.
  intros Hwf. pose proof Hwf as (Hh & _ & Htw & _ & Hraw). unfold yields, Tx_WitnessHash.
  destruct (tx_txHashWitness t) as [h |] eqn:Hth'.
  { exists t. now rewrite (Htw h eq_refl). }
  assert (Hv : match tx_rawBytes t with
               | Some raw => if s_len raw >? 0 then DoubleHashB (contents raw)
                             else WitnessHash (tx_msgTx t)
               | None => WitnessHash (tx_msgTx t)
               end = WitnessHash (tx_msgTx t)).
  { destruct (tx_rawBytes t) as [raw |]; [| done]. destruct (s_len raw >? 0); [| done].
    destruct (Hraw raw eq_refl) as [_ ->]. unfold WitnessHash, TxHash.
    destruct (HasWitness (tx_msgTx t)) eqn:Hw; [done |]. now rewrite Serialize_no_witness. }
  rewrite Hv. eexists. split; [reflexivity |]. split; [now apply tx_wf_set_txHashWitness | done].
Qed.
End Memo.

(** ** Blocks *)

Section BlockMemo.
Context `{Crypto}.

Definition slot_ok (msgs : list MsgTx) (i : nat) (t : Tx) : Prop :=
  tx_wf t /\ msgs !! i = Some (tx_msgTx t) /\ tx_txIndex t = Z.of_nat i.

Definition slots_ok (msgs : list MsgTx) (i : nat) (txs : list (option Tx)) : Prop :=
  forall k t, txs !! k = Some (Some t) -> slot_ok msgs (i + k) t.

Lemma slots_ok_cons msgs i o txs :
  slots_ok msgs i (o :: txs) <->
  (forall t, o = Some t -> slot_ok msgs i t) /\ slots_ok msgs (S i) txs.
Proof.
  unfold slots_ok. split.
  - intros Hs. split.
    + intros t ->. rewrite <- (Nat.add_0_r i). now apply Hs.
    + intros k t Hk. replace (S i + k)%nat with (i + S k)%nat by lia. now apply Hs.
  - intros [H0 Hs] [| k] t Hk.
    + injection Hk as ->. rewrite Nat.add_0_r. now apply H0.
    + replace (i + S k)%nat with (S i + k)%nat by lia. now apply Hs.
Qed.

(** A new wrapper, with or without raw bytes. *)
Lemma slot_ok_new msgs i m :
  msgs !! i = Some m -> hashes_ok m -> slot_ok msgs i (SetIndex (Z.of_nat i) (NewTx m)).
Proof. intros Hm Hh. unfold slot_ok, tx_wf. cbn. naive_solver. Qed.

Lemma slot_ok_raw msgs i m raw :
  msgs !! i = Some m -> hashes_ok m -> raw_ok m raw ->
  slot_ok msgs i (setBytes raw (SetIndex (Z.of_nat i) (NewTx m))).
Proof. intros Hm Hh Hr. unfold slot_ok, tx_wf. cbn. naive_solver. Qed.

(** What the loop of [Transactions] yields. *)
Definition generated (msgs : list MsgTx) (i : nat) (n : nat) (l : list (option Tx)) : Prop :=
  length l = n /\ slots_ok msgs i l /\ Forall is_Some l.

Lemma generated_nil msgs i : generated msgs i 0 [].
Proof. split_and!; [done | | constructor]. intros k t Hk. discriminate. Qed.

Lemma generated_cons msgs i n t l :
  slot_ok msgs i t -> generated msgs (S i) n l -> generated msgs i (S n) (Some t :: l).
Proof.
  intros Ht (Hl & Hs & Hf). split; [cbn; lia |]. split; [| now constructor].
  apply slots_ok_cons. split; [congruence |]. done.
Qed.

Lemma znth_nat {A} (l : list A) i : znth l (Z.of_nat i) = l !! i.
Proof. unfold znth. rewrite decide_True, Nat2Z.id by lia. done. Qed.

(** Without serialized bytes every empty slot gets a plain wrapper. *)
Lemma gen_loop_plain msgs txs : forall i offset,
  Forall hashes_ok msgs -> (i + length txs = length msgs)%nat -> slots_ok msgs i txs ->
  exists l, gen_loop [] msgs txs (Z.of_nat i) offset = Ok l /\ generated msgs i (length txs) l.
Proof.
  induction txs as [| o txs IH]; intros i offset Hh Hn Hs; cbn [length] in *.
  { exists []. split; [done | apply generated_nil]. }
  apply slots_ok_cons in Hs as [H0 Hs].
  destruct (IH (S i) offset Hh ltac:(lia) Hs) as (l & Hl & Hg).
  replace (Z.of_nat (S i)) with (Z.of_nat i + 1) in Hl by lia. cbn [gen_loop].
  destruct o as [t |].
  - rewrite Hl. eexists. split; [done |]. apply generated_cons; auto.
  - destruct (lookup_lt_is_Some_2 msgs i ltac:(lia)) as [m Hm]. rewrite znth_nat, Hm.
    change (zlen (@nil byte) >? 0) with false. cbn iota. rewrite Hl.
    eexists. split; [done |]. apply generated_cons; [| done].
    apply slot_ok_new; [done |]. eapply Forall_lookup_1; eauto.
Qed.

(** With serialized bytes, and every slot empty, each transaction gets its own
    part of them. *)
Lemma gen_loop_fresh done todo pre rest :
  Forall hashes_ok todo -> pre <> [] ->
  exists l,
    gen_loop (pre ++ concat (Serialize <$> todo) ++ rest) (done ++ todo)
      (replicate (length todo) None) (zlen done) (zlen pre) = Ok l /\
    generated (done ++ todo) (length done) (length todo) l.
Proof.
  revert done pre. induction todo as [| m todo IH]; intros done pre Hh Hp.
  { exists []. split; [reflexivity | apply generated_nil]. }
  apply Forall_cons in Hh as [Hm Hh].
  destruct (IH (done ++ [m]) (pre ++ Serialize m) Hh) as (l & Hl & Hg).
  { destruct pre; done. }
  rewrite <- (app_assoc done) in Hl, Hg. rewrite <- (app_assoc pre) in Hl.
  rewrite !zlen_app, zlen_Serialize in Hl by done.
  change (zlen [m]) with 1 in Hl. cbn [app] in Hl, Hg.
  rewrite fmap_cons. cbn [concat length replicate gen_loop]. rewrite <- app_assoc.
  unfold zlen at 1. rewrite znth_nat, list_lookup_middle by done.
  assert (Hpos : (zlen (pre ++ Serialize m ++ concat (Serialize <$> todo) ++ rest) >? 0) = true).
  { destruct pre; [done |]. rewrite zlen_app, zlen_cons. pose proof (zlen_nonneg pre).
    pose proof (zlen_nonneg (Serialize m ++ concat (Serialize <$> todo) ++ rest)). lia. }
  rewrite Hpos. unfold whole. rewrite reslice_app by (rewrite zlen_Serialize; done). cbn [obind].
  rewrite Hl. cbn [obind]. eexists. split; [reflexivity |].
  apply generated_cons.
  - apply slot_ok_raw; [now apply list_lookup_middle | done |]. split; [| apply contents_app].
    unfold slice_ok. cbn [s_len s_arr]. rewrite zlen_app. pose proof (zlen_nonneg (Serialize m)).
    pose proof (zlen_nonneg (concat (Serialize <$> todo) ++ rest)). lia.
  - rewrite length_app in Hg. cbn [length] in Hg. now rewrite Nat.add_1_r in Hg.
Qed.
End BlockMemo.

Section BlockWf.
Context `{Crypto}.

Record block_wf (b : Block) : Prop := {
  wf_header : header_ok (Header (msgBlock b));
  wf_hashes : Forall hashes_ok (Transactions (msgBlock b));
  wf_serialized :
    serializedBlock b = [] \/ exists rest, serializedBlock b = block_Serialize (msgBlock b) ++ rest;
  wf_stripped :
    serializedBlockNoWitness b = [] \/
    serializedBlockNoWitness b = block_SerializeNoWitness (msgBlock b);
  wf_hash : forall h, blockHash b = Some h -> h = BlockHash (Header (msgBlock b));
  wf_len : transactions b = [] \/ length (transactions b) = numTx b;
  wf_slots : slots_ok (Transactions (msgBlock b)) 0 (transactions b);
  wf_generated : txnsGenerated b = true -> generated (Transactions (msgBlock b)) 0 (numTx b) (transactions b);
}.

(** The wrapped transactions of a generated block. *)
Definition all_wrapped (b : Block) (l : list (option Tx)) : Prop :=
  generated (Transactions (msgBlock b)) 0 (numTx b) l.

Lemma slots_ok_none msgs i n : slots_ok msgs i (replicate n None).
Proof. intros k t Hk. apply lookup_replicate in Hk as [Hk _]. discriminate. Qed.

(** Changing the slots of a block. *)
Lemma block_wf_slots b l :
  block_wf b -> txnsGenerated b = false -> length l = numTx b -> slots_ok (Transactions (msgBlock b)) 0 l ->
  block_wf (set_transactions l b).
Proof. intros [] Hg Hl Hs. split; cbn; auto. rewrite Hg. discriminate. Qed.

Lemma block_wf_update b l :
  block_wf b -> length l = numTx b -> slots_ok (Transactions (msgBlock b)) 0 l ->
  (txnsGenerated b = true -> Forall is_Some l) -> block_wf (set_transactions l b).
Proof. intros [] Hl Hs Hf. split; cbn; auto. intros Hg. split_and!; auto. Qed.

Lemma block_wf_generate b l :
  block_wf b -> all_wrapped b l -> block_wf (set_txnsGenerated true (set_transactions l b)).
Proof. intros [] Hl. pose proof Hl as (Hll & Hls & _). split; cbn; auto. Qed.

Lemma alloc_wf b :
  block_wf b ->
  block_wf (alloc b) /\ length (transactions (alloc b)) = numTx b /\
  msgBlock (alloc b) = msgBlock b /\ serializedBlock (alloc b) = serializedBlock b /\
  txnsGenerated (alloc b) = txnsGenerated b /\
  (transactions b = [] -> transactions (alloc b) = replicate (numTx b) None).
Proof.
  intros Hwf. unfold alloc. destruct (transactions b) as [| o l] eqn:Ht.
  - split; [| cbn; rewrite length_replicate; auto].
    apply block_wf_update; [done | apply length_replicate | apply slots_ok_none |].
    intros Hg. destruct (wf_generated b Hwf Hg) as (Hl & _ & _). rewrite Ht in Hl. cbn in Hl.
    rewrite <- Hl. constructor.
  - destruct (wf_len b Hwf) as [Hn | Hn]; [congruence |]. rewrite Ht in Hn. rewrite Ht.
    split_and!; auto. discriminate.
Qed.

Lemma Block_Tx_ok b i m :
  block_wf b -> Transactions (msgBlock b) !! i = Some m ->
  exists t b', Block_Tx (Z.of_nat i) b = (Ok t, b') /\ block_wf b' /\ msgBlock b' = msgBlock b /\
    transactions b' !! i = Some (Some t) /\ slot_ok (Transactions (msgBlock b)) i t.
Proof.
  intros Hwf Hm. pose proof (lookup_lt_Some _ _ _ Hm) as Hi. fold (numTx b) in Hi.
  destruct (alloc_wf b Hwf) as (Ha & Hal & Ham & _ & Hag & _).
  unfold Block_Tx. replace (_ || _) with false by lia. rewrite znth_nat.
  destruct (lookup_lt_is_Some_2 (transactions (alloc b)) i ltac:(lia)) as [[t |] Hs]; rewrite Hs.
  - exists t, (alloc b). pose proof (wf_slots _ Ha i t Hs) as Hok. rewrite Ham in Hok. done.
  - rewrite znth_nat, Ham, Hm. eexists _, _. split; [reflexivity |].
    assert (Hh : hashes_ok m) by (eapply Forall_lookup_1; [apply (wf_hashes b Hwf) | done]).
    pose proof (slot_ok_new (Transactions (msgBlock b)) i m Hm Hh) as Hnew.
    set (t := SetIndex (Z.of_nat i) (NewTx m)) in *. rewrite Nat2Z.id.
    split; [| split; [exact Ham | split; [| exact Hnew]]].
    2: { cbn. apply list_lookup_insert_eq. lia. }
    apply block_wf_update; rewrite ?length_insert; [done | rewrite Hal; unfold numTx; now rewrite Ham | |].
    + rewrite Ham. intros k t' Hk. apply list_lookup_insert_Some in Hk as [(<- & Heq & _) | [_ Hk]].
      * now injection Heq as <-.
      * pose proof (wf_slots _ Ha k t' Hk) as Hok. now rewrite Ham in Hok.
    + intros Hg. destruct (wf_generated _ Ha Hg) as (_ & _ & Hf). now apply Forall_insert.
Qed.

Lemma Block_TxHash_ok b i m :
  block_wf b -> Transactions (msgBlock b) !! i = Some m ->
  exists b', Block_TxHash (Z.of_nat i) b = (Ok (TxHash m), b') /\ block_wf b' /\ msgBlock b' = msgBlock b.
Proof.
  intros Hwf Hm. destruct (Block_Tx_ok b i m Hwf Hm) as (t & b1 & Hrun & Hwf1 & Hm1 & Hslot & Hok).
  unfold Block_TxHash. rewrite (bind_Ok _ _ _ _ _ Hrun). unfold on_tx. rewrite Nat2Z.id, Hslot.
  destruct Hok as (Htwf & Htm & Hti). rewrite Hm in Htm. injection Htm as Htm.
  destruct (Tx_Hash_yields (E := BlockError) t Htwf) as (t' & Hh & Htwf' & Hmm & Hmi & _).
  rewrite Hh, <- Htm. eexists. split; [reflexivity |]. split; [| exact Hm1].
  pose proof (lookup_lt_Some _ _ _ Hslot) as Hi.
  assert (Hl : length (transactions b1) = numTx b1)
    by (destruct (wf_len b1 Hwf1) as [Hn |]; [rewrite Hn in Hi; cbn in Hi; lia | done]).
  apply block_wf_update; rewrite ?length_insert; [done | done | |].
  - intros k u Hk. apply list_lookup_insert_Some in Hk as [(<- & Heq & _) | [_ Hk]].
    + injection Heq as <-. unfold slot_ok. rewrite Hm1, Hmm, Hmi, <- Htm. auto.
    + now apply (wf_slots b1 Hwf1).
  - intros Hg. destruct (wf_generated b1 Hwf1 Hg) as (_ & _ & Hf). now apply Forall_insert.
Qed.

(** The part of an encoded block before its transactions. *)
Lemma block_Serialize_parts m :
  header_ok (Header m) ->
  exists pre, block_Serialize m = pre ++ concat (Serialize <$> Transactions m) /\ pre <> [] /\
              zlen pre = 80 + VarIntSerializeSize (zlen (Transactions m)).
Proof.
  intros Hh. exists (writeBlockHeaderBuf (Header m) ++ WriteVarIntBuf (zlen (Transactions m))).
  unfold block_Serialize, block_BtcEncode. rewrite <- app_assoc. split; [done |].
  pose proof (zlen_writeBlockHeaderBuf _ Hh) as Hl. unfold blockHeaderLen in Hl. split.
  - intros Hn. apply (f_equal zlen) in Hn. rewrite zlen_app, Hl, zlen_nil in Hn.
    pose proof (zlen_nonneg (WriteVarIntBuf (zlen (Transactions m)))). lia.
  - rewrite zlen_app, Hl, zlen_WriteVarIntBuf. done.
Qed.

(** No slot is filled before the loop, or there are no serialized bytes. *)
Definition can_generate (b : Block) : Prop :=
  serializedBlock b = [] \/ transactions b = [] \/ txnsGenerated b = true.

Lemma Block_Transactions_ok b :
  block_wf b -> can_generate b ->
  exists l b', Block_Transactions b = (Ok l, b') /\ block_wf b' /\ msgBlock b' = msgBlock b /\
    transactions b' = l /\ txnsGenerated b' = true /\ all_wrapped b l.
Proof.
  intros Hwf Hcan. unfold Block_Transactions. destruct (txnsGenerated b) eqn:Hg.
  { eexists _, _. split; [reflexivity |]. split_and!; auto. now apply (wf_generated b Hwf). }
  destruct (alloc_wf b Hwf) as (Ha & Hal & Ham & Has & Hag & Hae). rewrite Ham, Has.
  assert (Hgen : exists l,
    gen_loop (serializedBlock b) (Transactions (msgBlock b)) (transactions (alloc b)) 0
      (80 + VarIntSerializeSize (zlen (Transactions (msgBlock b)))) = Ok l /\ all_wrapped b l).
  { pose proof (wf_slots _ Ha) as Hslots. rewrite Ham in Hslots.
    pose proof (gen_loop_plain (Transactions (msgBlock b)) (transactions (alloc b)) 0
      (80 + VarIntSerializeSize (zlen (Transactions (msgBlock b)))) (wf_hashes b Hwf) Hal Hslots) as Hplain.
    rewrite Hal in Hplain.
    destruct (wf_serialized b Hwf) as [Hs | [rest Hs]]; [now rewrite Hs |].
    destruct Hcan as [Hs0 | [He | Hcon]]; [now rewrite Hs0 | | congruence].
    destruct (block_Serialize_parts (msgBlock b) (wf_header b Hwf)) as (pre & Hp & Hne & Hlp).
    rewrite Hs, Hp, <- app_assoc, (Hae He), <- Hlp.
    apply (gen_loop_fresh [] (Transactions (msgBlock b)) pre rest (wf_hashes b Hwf) Hne). }
  destruct Hgen as (l & -> & Hl). eexists l, _. split; [reflexivity |].
  split_and!; auto. apply block_wf_generate; [done |]. unfold all_wrapped, numTx in *. now rewrite Ham.
Qed.
End BlockWf.

Section BlockClaims.
Context `{Crypto}.

Lemma tx_ok_hashes enc sbuf m : tx_ok enc sbuf m -> hashes_ok m.
Proof.
  intros (_ & _ & _ & _ & Hin & _). unfold hashes_ok. eapply Forall_impl; [exact Hin |].
  intros ti Hti. apply Hti.
Qed.

Lemma new_block_wf m serialized :
  header_ok (Header m) -> Forall hashes_ok (Transactions m) ->
  serialized = [] \/ (exists rest, serialized = block_Serialize m ++ rest) ->
  block_wf (set_serializedBlock serialized (NewBlock m)).
Proof.
  intros Hh Ht Hs. split; cbn; auto; try discriminate.
Qed.

Lemma prime_ok m serialized :
  header_ok (Header m) -> Forall hashes_ok (Transactions m) ->
  serialized = [] \/ (exists rest, serialized = block_Serialize m ++ rest) ->
  exists b, prime m serialized = Ok b /\ block_wf b /\ msgBlock b = m /\
            all_wrapped b (transactions b).
Proof.
  intros Hh Ht Hs. pose proof (new_block_wf m serialized Hh Ht Hs) as Hwf. unfold prime.
  destruct (Block_Transactions_ok _ Hwf) as (l & b' & -> & Hwf' & Hm & Hl & Hg & Hw);
    [right; now left |].
  exists b'. split_and!; auto. rewrite Hl. unfold all_wrapped, numTx in *. now rewrite Hm.
Qed.

Lemma Block_Bytes_ok b :
  block_wf b ->
  exists s b', Block_Bytes b = (Ok s, b') /\ block_wf b' /\ block_Serialize (msgBlock b) `prefix_of` s.
Proof.
  intros Hwf. unfold Block_Bytes. destruct (serializedBlock b) as [| x s] eqn:Hs.
  - eexists _, _. split; [reflexivity |]. split; [| done]. destruct Hwf. split; cbn; auto.
    right. exists []. now rewrite app_nil_r.
  - eexists _, _. split; [reflexivity |]. split; [done |].
    destruct (wf_serialized b Hwf) as [Hn | [rest Hr]]; [congruence |]. exists rest. congruence.
Qed.

Lemma Block_Hash_ok b :
  block_wf b ->
  exists b', Block_Hash b = (Ok (BlockHash (Header (msgBlock b))), b') /\ block_wf b'.
Proof.
  intros Hwf. unfold Block_Hash. destruct (blockHash b) as [h |] eqn:Hh.
  - exists b. now rewrite (wf_hash b Hwf h Hh).
  - eexists. split; [reflexivity |]. destruct Hwf. split; cbn; auto. congruence.
Qed.

Lemma Block_TxHash_range b i :
  ~ 0 <= i < Z.of_nat (numTx b) -> Block_TxHash i b = (Err OutOfRangeError, b).
Proof.
  intros Hi. unfold Block_TxHash, bind, Block_Tx. replace (_ || _) with true by lia. reflexivity.
Qed.
End BlockClaims.

(** * The claims *)

(** C20: the memo of a wrapped transaction is transparent.  Whatever hashes are
    already kept, and whether the transaction came with raw bytes or not,
    [Hash], [WitnessHash] and [HasWitness] return what the wire methods
    compute from the transaction, do not panic, and keep only right values:
    cutting the marker, the flag and the witnesses out of the raw bytes by
    their offsets gives the encoding without witnesses. *)
Theorem tx_memo_transparent `{Crypto} (t : Tx) :
  tx_wf t ->
  yields (E := BlockError) Tx_Hash (TxHash (tx_msgTx t)) t /\
  yields (E := BlockError) Tx_WitnessHash (WitnessHash (tx_msgTx t)) t /\
  yields (E := BlockError) Tx_HasWitness (HasWitness (tx_msgTx t)) t.
Proof.
  intros Hwf. split_and!;
    [now apply Tx_Hash_yields | now apply Tx_WitnessHash_yields | now apply Tx_HasWitness_yields].
Qed.

Definition raw_example_tx : Tx := setBytes (whole (Serialize example_tx)) (NewTx example_tx).

Lemma tx_memo_transparent_witness :
  let H := toy_crypto in
  fst (Tx_Hash (E := BlockError) raw_example_tx) = Ok (TxHash example_tx) /\
  SerializeNoWitness example_tx <> Serialize example_tx.
Proof.
  intros H. split; [| vm_compute; discriminate].
  destruct (tx_memo_transparent raw_example_tx) as [(t' & Hrun & _) _]; [| now rewrite Hrun].
  split_and!; try discriminate; [repeat constructor |].
  intros raw Hraw. injection Hraw as <-. split; [apply whole_ok | apply contents_whole].
Defined.

(** Wrapped blocks.  A block that decodes from its bytes, whatever follows
    them, is wrapped with all its transactions, in order; and on a block whose
    memo is right every accessor returns what the wire functions compute and
    keeps the memo right: [Bytes] a string that begins with the encoding,
    [Hash] the hash of the header, [TxHash] the hash of the transaction at that
    index or an error outside the block, and [Transactions] the wrappers of all
    transactions, provided that no serialized bytes are kept beside wrappers
    that [Tx] has made. *)
Lemma block_memo_transparent `{Crypto} :
  (forall m rest, block_ok WitnessEncoding m ->
     exists b, NewBlockFromBytes (block_Serialize m ++ rest) = Ok b /\ block_wf b /\
               msgBlock b = m /\ all_wrapped b (transactions b)) /\
  (forall b, block_wf b ->
     (exists s b', Block_Bytes b = (Ok s, b') /\ block_wf b' /\
                   block_Serialize (msgBlock b) `prefix_of` s) /\
     (exists b', Block_Hash b = (Ok (BlockHash (Header (msgBlock b))), b') /\ block_wf b') /\
     (forall i m, Transactions (msgBlock b) !! i = Some m ->
        exists b', Block_TxHash (Z.of_nat i) b = (Ok (TxHash m), b') /\ block_wf b') /\
     (forall i, ~ 0 <= i < Z.of_nat (numTx b) -> Block_TxHash i b = (Err OutOfRangeError, b)) /\
     (can_generate b ->
        exists l b', Block_Transactions b = (Ok l, b') /\ block_wf b' /\ all_wrapped b l)).
Proof.
  split.
  - intros m rest Hok. unfold NewBlockFromBytes, NewBlockFromReader.
    assert (Hdec : block_BtcDecode WitnessEncoding (block_Serialize m ++ rest) = (Ok m, rest))
      by now apply (codec_roundtrip (Codec := block_codec WitnessEncoding)).
    rewrite (bind_Ok _ _ _ _ _ Hdec). cbn [fst ret msgBlock NewBlock].
    destruct Hok as (Hh & _ & Htx). apply prime_ok; [done | | right; now exists rest].
    eapply Forall_impl; [exact Htx |]. intros x. apply tx_ok_hashes.
  - intros b Hwf. split_and!.
    + now apply Block_Bytes_ok.
    + now apply Block_Hash_ok.
    + intros i m Hm. destruct (Block_TxHash_ok b i m Hwf Hm) as (b' & Hr & Hw & _). eauto.
    + intros i Hi. now apply Block_TxHash_range.
    + intros Hc. destruct (Block_Transactions_ok b Hwf Hc) as (l & b' & Hr & Hw & _ & _ & _ & Hl). eauto.
Qed.

Lemma block_memo_transparent_witness :
  let H := toy_crypto in
  exists b, NewBlockFromBytes (block_Serialize example_block) = Ok b /\
    fst (Block_TxHash 0 b) = Ok (TxHash example_tx) /\ fst (Block_TxHash 1 b) = Err OutOfRangeError.
Proof.
  intros H. destruct block_memo_transparent as [Hnew Hacc].
  destruct (Hnew example_block [] example_block_ok) as (b & Hb & Hwf & Hm & _).
  rewrite app_nil_r in Hb. exists b. split; [done |].
  destruct (Hacc b Hwf) as (_ & _ & Hhash & Hrange & _). split.
  - destruct (Hhash 0%nat example_tx) as (b' & Hr & _); [now rewrite Hm |].
    change (Z.of_nat 0) with 0 in Hr. now rewrite Hr.
  - rewrite Hrange; [done |]. unfold numTx. rewrite Hm. cbn. lia.
Defined.

(** Two different transactions of the same size. *)
Definition stale_tx (lock : Z) : MsgTx := mkMsgTx 1 (TxIns example_tx) (TxOuts example_tx) lock.
Definition stale_block : Block := NewBlock (mkMsgBlock (Header example_block) [stale_tx 0; stale_tx 1]).

(** Where the provision of the last theorem fails.  [Transactions] moves its
    offset into the serialized block only past the transactions it wraps
    itself: after [Bytes] and [Tx 0] it gives the second transaction the raw
    bytes of the first, and from then on the hash of the second transaction
    is wrong: it is the hash of the first.  Without the call of [Tx] it is right. *)
Lemma block_stale_offset `{Crypto} :
  fst ((_ <- Block_Bytes;; _ <- Block_Tx 0;; _ <- Block_Transactions;; Block_TxHash 1) stale_block) =
    Ok (TxHash (stale_tx 0)) /\
  SerializeNoWitness (stale_tx 0) <> SerializeNoWitness (stale_tx 1) /\
  fst ((_ <- Block_Bytes;; _ <- Block_Transactions;; Block_TxHash 1) stale_block) =
    Ok (TxHash (stale_tx 1)).
Proof.
  split; [vm_compute; reflexivity |]. split; [vm_compute; discriminate | vm_compute; reflexivity].
Qed.
