(* ===== verification/Vlq.v ===== *)
(** Variable length quantities and compressed amounts
    (src/btcd/blockchain/compress.go): the integers of the unspent output set.

    [vlq n] is the encoding as a byte string; [putVLQ] writes it into a slice
    back to front and reverses it there. *)

From S2P Require Import Prelude.

(** * The code *)

(** [target[i] = b] *)
Definition set_at {A} (l : list A) (i : Z) (x : A) : outcome unit (list A) :=
  if (0 <=? i) && (i <? zlen l) then Ok (<[Z.to_nat i := x]> l) else Panic.

(** [n = (n >> 7) - 1] of a uint64 *)
Definition vlq_next (n : Z) : Z := uint64 (Z.shiftr n 7 - 1).

(** The loops run at most ten times for a uint64. *)
Definition vlq_fuel : nat := 10.

Fixpoint size_loop (fuel : nat) (n size : Z) : Z :=
  match fuel with
  | O => size
  | S fuel' => if n >? 0x7f then size_loop fuel' (vlq_next n) (size + 1) else size
  end.

Definition serializeSizeVLQ (n : Z) : Z := size_loop vlq_fuel n 1.

Fixpoint put_loop (fuel : nat) (target : bytes) (n offset : Z) : outcome unit (bytes * Z) :=
  match fuel with
  | O => Panic
  | S fuel' =>
      let highBitMask := if offset =? 0 then 0x00 else 0x80 in
      obind (set_at target offset (z2b (Z.lor (Z.land n 0x7f) highBitMask))) (fun target =>
      if n <=? 0x7f then Ok (target, offset)
      else put_loop fuel' target (vlq_next n) (offset + 1))
  end.

(** [for i, j := 0, offset; i < j; i, j = i+1, j-1 { swap }] *)
Fixpoint swap_loop (fuel : nat) (i j : nat) (target : bytes) : outcome unit bytes :=
  match fuel with
  | O => Ok target
  | S fuel' =>
      if (i <? j)%nat then
        match target !! i, target !! j with
        | Some a, Some b => swap_loop fuel' (S i) (j - 1) (<[j := a]> (<[i := b]> target))
        | _, _ => Panic
        end
      else Ok target
  end.

Definition putVLQ (target : bytes) (n : Z) : outcome unit (bytes * Z) :=
  obind (put_loop vlq_fuel target n 0) (fun '(target, offset) =>
  obind (swap_loop (Z.to_nat offset) 0 (Z.to_nat offset) target) (fun target =>
  Ok (target, offset + 1))).

Fixpoint deserialize_loop (serialized : bytes) (n size : Z) : Z * Z :=
  match serialized with
  | [] => (n, size)
  | val :: rest =>
      let size := size + 1 in
      let n := Z.lor (uint64 (Z.shiftl n 7)) (Z.land (b2z val) 0x7f) in
      if negb (Z.land (b2z val) 0x80 =? 0x80) then (n, size)
      else deserialize_loop rest (uint64 (n + 1)) size
  end.

Definition deserializeVLQ (serialized : bytes) : Z * Z := deserialize_loop serialized 0 0.

(** ** Amounts *)

(** [for amount%10 == 0 && exponent < 9 { amount /= 10; exponent++ }]: at most
    nine rounds. *)
Fixpoint strip_zeros (fuel : nat) (amount exponent : Z) : Z * Z :=
  match fuel with
  | O => (amount, exponent)
  | S fuel' =>
      if (amount mod 10 =? 0) && (exponent <? 9)
      then strip_zeros fuel' (amount / 10) (exponent + 1)
      else (amount, exponent)
  end.

Definition compressTxOutAmount (amount : Z) : Z :=
  if amount =? 0 then 0 else
  let '(amount, exponent) := strip_zeros 9 amount 0 in
  if exponent <? 9 then
    let lastDigit := amount mod 10 in
    let amount := amount / 10 in
    uint64 (1 + 10 * (9 * amount + lastDigit - 1) + exponent)
  else uint64 (10 + 10 * (amount - 1)).

(** [for ; exponent > 0; exponent-- { n *= 10 }] *)
Fixpoint scale (exponent : nat) (n : Z) : Z :=
  match exponent with O => n | S e => scale e (uint64 (n * 10)) end.

Definition decompressTxOutAmount (amount : Z) : Z :=
  if amount =? 0 then 0 else
  let amount := uint64 (amount - 1) in
  let exponent := amount mod 10 in
  let amount := amount / 10 in
  let n :=
    if exponent <? 9 then
      let lastDigit := amount mod 9 + 1 in
      let amount := amount / 9 in
      uint64 (amount * 10 + lastDigit)
    else uint64 (amount + 1) in
  scale (Z.to_nat exponent) n.

(** * The encoding *)

(** The groups of seven bits, the last byte first. *)
Fixpoint groups (fuel : nat) (n mask : Z) : bytes :=
  match fuel with
  | O => []
  | S fuel' =>
      z2b (Z.lor (Z.land n 0x7f) mask) ::
      (if n <=? 0x7f then [] else groups fuel' (vlq_next n) 0x80)
  end.

Definition vlq (n : Z) : bytes := rev (groups vlq_fuel n 0).

Example vlq_16511 : vlq 16511 = [xff; x7f].
Proof. reflexivity. Qed.
Example vlq_16512 : vlq 16512 = [x80; x80; x00].
Proof. reflexivity. Qed.
Example vlq_max : vlq (2 ^ 64 - 1) = [x80; xfe; xfe; xfe; xfe; xfe; xfe; xfe; xfe; x7f].
Proof. reflexivity. Qed.
Example compress_amounts :
  map compressTxOutAmount [0; 1000; 10000; 12345678; 50000000; 100000000; 500000000; 1000000000]
  = [0; 4; 5; 111111101; 48; 9; 49; 10].
Proof. reflexivity. Qed.

(** ** Arithmetic of one step *)

Lemma vlq_next_small n : 0x7f < n < 2 ^ 64 -> vlq_next n = n / 128 - 1 /\ 0 <= n / 128 - 1 < n.
Proof.
  intros Hn. unfold vlq_next. rewrite Z.shiftr_div_pow2 by lia. change (2 ^ 7) with 128.
  assert (1 <= n / 128) by (apply Z.div_le_lower_bound; lia).
  assert (n / 128 < n) by (apply Z.div_lt; lia).
  rewrite wrapU_small by lia. lia.
Qed.

Lemma land_7f n : Z.land n 0x7f = n mod 128.
Proof. change 0x7f with (Z.ones 7). now rewrite Z.land_ones by lia. Qed.

(** A value below [limit k] takes at most [k] groups. *)
Fixpoint limit (k : nat) : Z := match k with O => 0 | S k' => 128 * (limit k' + 1) end.

Lemma limit_fuel : 2 ^ 64 <= limit vlq_fuel.
Proof. vm_compute. discriminate. Qed.

Lemma vlq_next_limit k n :
  0x7f < n < 2 ^ 64 -> n < limit (S k) -> 0 <= vlq_next n < 2 ^ 64 /\ vlq_next n < limit k.
Proof.
  intros Hn Hl. destruct (vlq_next_small n Hn) as [-> ?]. cbn [limit] in Hl.
  assert (n / 128 < limit k + 1) by (apply Z.div_lt_upper_bound; lia). lia.
Qed.

Lemma vlq_eq n :
  vlq n = rev (if n <=? 0x7f then [] else groups 9 (vlq_next n) 0x80) ++ [z2b (n mod 128)].
Proof.
  rewrite <- land_7f. rewrite <- (Z.lor_0_r (Z.land n 0x7f)). reflexivity.
Qed.

(** ** Size *)

Lemma size_loop_groups fuel n mask size :
  0 <= n < 2 ^ 64 -> n < limit fuel ->
  size_loop fuel n size = size + zlen (groups fuel n mask) - 1.
Proof.
  revert n mask size. induction fuel as [| k IH]; intros n mask size Hn Hl; [cbn in Hl; lia |].
  cbn [size_loop groups]. rewrite zlen_cons.
  destruct (Z.leb_spec n 0x7f), (Z.gtb_spec n 0x7f); try lia.
  - rewrite zlen_nil. lia.
  - destruct (vlq_next_limit k n ltac:(lia) Hl). rewrite (IH _ 0x80) by lia. lia.
Qed.

Lemma serializeSizeVLQ_len n : 0 <= n < 2 ^ 64 -> serializeSizeVLQ n = zlen (vlq n).
Proof.
  intros Hn. unfold serializeSizeVLQ, vlq, zlen. rewrite length_rev.
  pose proof limit_fuel. rewrite (size_loop_groups _ _ 0) by lia. unfold zlen. lia.
Qed.

(** ** Writing *)

Lemma put_loop_ok fuel n offset pre seg rest :
  0 <= n < 2 ^ 64 -> n < limit fuel -> zlen pre = offset ->
  let g := groups fuel n (if offset =? 0 then 0 else 0x80) in
  length seg = length g ->
  put_loop fuel (pre ++ seg ++ rest) n offset = Ok (pre ++ g ++ rest, offset + zlen g - 1).
Proof.
  revert n offset pre seg. induction fuel as [| k IH]; intros n offset pre seg Hn Hl Hpre g Hseg;
    [cbn in Hl; lia |].
  subst g. cbn [groups] in *. destruct seg as [| s seg]; [done |]. cbn [length] in Hseg.
  cbn [put_loop]. unfold set_at. rewrite !zlen_app, !zlen_cons.
  pose proof (zlen_nonneg pre). pose proof (zlen_nonneg seg). pose proof (zlen_nonneg rest).
  replace ((0 <=? offset) && _) with true by lia. cbn [obind].
  replace (Z.to_nat offset) with (length pre + 0)%nat by (unfold zlen in Hpre; lia).
  rewrite insert_app_r. cbn -[zlen].
  destruct (Z.leb_spec n 0x7f).
  - destruct seg; [| done]. cbn [app]. do 2 f_equal. unfold zlen. cbn. lia.
  - destruct (vlq_next_limit k n ltac:(lia) Hl) as [Hn' Hl'].
    set (b := z2b _) in *. specialize (IH (vlq_next n) (offset + 1) (pre ++ [b]) seg Hn' Hl').
    rewrite zlen_app, zlen_cons, zlen_nil in IH. specialize (IH ltac:(lia)).
    replace (offset + 1 =? 0) with false in IH by lia. cbv zeta in IH.
    rewrite <- !app_assoc in IH. cbn [app] in IH. rewrite IH by lia.
    do 2 f_equal. lia.
Qed.

Lemma put_loop_short fuel n offset pre seg :
  0 <= n < 2 ^ 64 -> n < limit fuel -> zlen pre = offset ->
  (length seg < length (groups fuel n (if (offset =? 0)%Z then 0%Z else 0x80%Z)))%nat ->
  put_loop fuel (pre ++ seg) n offset = Panic.
Proof.
  revert n offset pre seg. induction fuel as [| k IH]; intros n offset pre seg Hn Hl Hpre Hseg;
    [cbn in Hl; lia |].
  cbn [groups length] in Hseg. cbn [put_loop]. unfold set_at. rewrite zlen_app.
  destruct seg as [| s seg].
  - change (zlen (@nil byte)) with 0. now replace ((0 <=? offset) && _) with false by lia.
  - rewrite zlen_cons. pose proof (zlen_nonneg pre). pose proof (zlen_nonneg seg).
    replace ((0 <=? offset) && _) with true by lia. cbn [obind].
    replace (Z.to_nat offset) with (length pre + 0)%nat by (unfold zlen in Hpre; lia).
    rewrite insert_app_r. cbn. cbn [length] in Hseg. destruct (Z.leb_spec n 0x7f); [cbn in Hseg; lia |].
    destruct (vlq_next_limit k n ltac:(lia) Hl) as [Hn' Hl'].
    rewrite (cons_middle _ pre seg). rewrite app_assoc. apply IH; [done | done | |].
    + rewrite zlen_app, zlen_cons, zlen_nil. lia.
    + replace (offset + 1 =? 0) with false by lia. lia.
Qed.

(** The swaps reverse the part of the slice between the two indices. *)
Lemma swap_loop_done fuel i j l : (j <= i)%nat -> swap_loop fuel i j l = Ok l.
Proof. intros Hij. destruct fuel; cbn [swap_loop]; [done |]. rewrite (proj2 (Nat.ltb_ge i j)) by lia. done. Qed.

Lemma swap_loop_rev fuel : forall pre seg rest,
  (length seg <= S fuel)%nat ->
  swap_loop fuel (length pre) (length pre + (length seg - 1)) (pre ++ seg ++ rest)
  = Ok (pre ++ rev seg ++ rest).
Proof.
  induction fuel as [| k IH]; intros pre seg rest Hl.
  - destruct seg as [| a [| b seg]]; [done | done | cbn in Hl; lia].
  - destruct seg as [| a seg]; [now rewrite swap_loop_done by (cbn; lia) |].
    destruct seg as [| b mid] using rev_ind; [now rewrite swap_loop_done by (cbn; lia) |].
    clear IHmid. cbn [length] in *. rewrite length_app in *. cbn [length] in *.
    cbn [swap_loop]. replace (_ <? _)%nat with true by (symmetry; apply Nat.ltb_lt; lia).
    replace (length pre + _)%nat with (length pre + S (length mid))%nat by lia.
    rewrite <- ?app_assoc. cbn [app]. rewrite <- ?app_assoc. cbn [app].
    rewrite (list_lookup_middle pre _ a) by done.
    assert (Hb : (pre ++ a :: mid ++ b :: rest) !! (length pre + S (length mid))%nat = Some b).
    { rewrite lookup_app_r by lia.
      replace (length pre + S (length mid) - length pre)%nat with (S (length mid)) by lia.
      change ((mid ++ b :: rest) !! length mid = Some b). now apply list_lookup_middle. }
    rewrite Hb. clear Hb.
    assert (Hs : <[(length pre + S (length mid))%nat := a]>
                   (<[length pre := b]> (pre ++ a :: mid ++ b :: rest))
                 = pre ++ b :: mid ++ a :: rest).
    { rewrite <- (Nat.add_0_r (length pre)) at 2. rewrite !insert_app_r. cbn.
      do 2 f_equal. rewrite <- (Nat.add_0_r (length mid)).
      apply (insert_app_r mid (b :: rest) 0 a). }
    rewrite Hs. clear Hs.
    replace (length pre + S (length mid) - 1)%nat with (length pre + length mid)%nat by lia.
    cbn [rev].
    rewrite rev_app_distr. cbn [rev app].
    destruct mid as [| m mid]; [now rewrite swap_loop_done by (cbn; lia) |].
    specialize (IH (pre ++ [b]) (m :: mid) (a :: rest) ltac:(cbn in *; lia)).
    rewrite length_app in IH. cbn [length] in *. rewrite <- !app_assoc in *. cbn [app] in *.
    replace (S (length pre)) with (length pre + 1)%nat by lia.
    replace (length pre + S (length mid))%nat
      with (length pre + 1 + (S (length mid) - 1))%nat by lia.
    rewrite IH. cbn [rev]. now rewrite <- !app_assoc.
Qed.

Lemma zlen_groups fuel n mask : 1 <= zlen (groups (S fuel) n mask).
Proof. cbn [groups]. rewrite zlen_cons. pose proof (zlen_nonneg (if n <=? 0x7f then [] else groups fuel (vlq_next n) 0x80)). lia. Qed.

Lemma zlen_groups_le fuel n mask : zlen (groups fuel n mask) <= Z.of_nat fuel.
Proof.
  revert n mask. induction fuel as [| fuel IH]; intros n mask; [done |].
  cbn [groups]. rewrite zlen_cons. specialize (IH (vlq_next n) 0x80).
  destruct (n <=? 0x7f); rewrite ?zlen_nil; lia.
Qed.

Lemma zlen_vlq n : 1 <= zlen (vlq n) <= 10.
Proof.
  pose proof (zlen_groups 9 n 0). pose proof (zlen_groups_le vlq_fuel n 0).
  unfold vlq, vlq_fuel, zlen in *. rewrite length_rev. lia.
Qed.

(** [putVLQ] writes [vlq n] at the front of a slice that is long enough, and
    panics on a shorter one. *)
Lemma putVLQ_spec n target :
  0 <= n < 2 ^ 64 ->
  putVLQ target n =
  if serializeSizeVLQ n <=? zlen target
  then Ok (vlq n ++ zdrop (serializeSizeVLQ n) target, serializeSizeVLQ n)
  else Panic.
Proof.
  intros Hn. pose proof limit_fuel as Hf. rewrite serializeSizeVLQ_len by done.
  unfold putVLQ, vlq. set (g := groups vlq_fuel n 0).
  assert (Hg : zlen (rev g) = zlen g) by (unfold zlen; now rewrite length_rev).
  rewrite Hg. assert (H1 : 1 <= zlen g) by apply zlen_groups.
  destruct (Z.leb_spec (zlen g) (zlen target)) as [Hle | Hlt].
  - assert (Ht : target = [] ++ take (length g) target ++ zdrop (zlen g) target).
    { cbn [app]. unfold zdrop, zlen. now rewrite Nat2Z.id, take_drop. }
    rewrite Ht at 1.
    rewrite put_loop_ok; [| done | lia | done |].
    2: { cbn [Z.eqb]. fold g. rewrite length_take. unfold zlen in Hle. lia. }
    cbn [Z.eqb app obind]. fold g.
    pose proof (swap_loop_rev (Z.to_nat (0 + zlen g - 1)) [] g (zdrop (zlen g) target)) as Hs.
    cbn [length app Nat.add] in Hs.
    replace (Z.to_nat (0 + zlen g - 1)) with (length g - 1)%nat in * by (unfold zlen; lia).
    rewrite Hs by (unfold zlen in H1; lia). cbn [obind]. do 2 f_equal. lia.
  - pose proof (put_loop_short vlq_fuel n 0 [] target Hn ltac:(lia) eq_refl) as Hp.
    cbn [Z.eqb app] in Hp. fold g in Hp. rewrite Hp; [done |]. unfold zlen in Hlt. lia.
Qed.

(** ** Reading *)

(** The bytes with the high bit set: every one but the last of an encoding. *)
Definition continues (b : byte) : Prop := 128 <= b2z b.

Lemma continue_bit b : (Z.land (b2z b) 0x80 =? 0x80) = (128 <=? b2z b).
Proof. destruct b; reflexivity. Qed.

Lemma low_bits b : Z.land (b2z b) 0x7f = b2z b mod 128.
Proof. apply land_7f. Qed.

(** The value of the bytes so far, without a bound on its size. *)
Definition vlq_step (n : Z) (b : byte) : Z := n * 128 + b2z b mod 128.

Fixpoint vlq_val (bs : bytes) (n : Z) : Z :=
  match bs with
  | [] => n
  | [b] => vlq_step n b
  | b :: bs' => vlq_val bs' (vlq_step n b + 1)
  end.

Lemma vlq_val_ge bs n : 0 <= n -> n <= vlq_val bs n.
Proof.
  revert n. induction bs as [| b bs IH]; intros n Hn; cbn; [lia |].
  pose proof (Z.mod_pos_bound (b2z b) 128 ltac:(lia)).
  assert (Hs : n <= vlq_step n b) by (unfold vlq_step; lia).
  destruct bs as [| c bs]; [done |]. specialize (IH (vlq_step n b + 1)). lia.
Qed.

Lemma lor_step n b : 0 <= n -> n * 128 < 2 ^ 64 ->
  Z.lor (uint64 (Z.shiftl n 7)) (Z.land (b2z b) 0x7f) = vlq_step n b.
Proof.
  intros Hn Hl. rewrite Z.shiftl_mul_pow2 by lia. change (2 ^ 7) with 128.
  rewrite wrapU_small by lia. rewrite low_bits. unfold vlq_step.
  pose proof (Z.mod_pos_bound (b2z b) 128 ltac:(lia)).
  rewrite <- Z.lxor_lor, <- Z.add_nocarry_lxor; [done | |].
  all: apply Z.bits_inj'; intros i Hi; rewrite Z.land_spec, Z.bits_0;
    destruct (Z.ltb_spec i 7).
  1, 3: replace (n * 128) with (n * 2 ^ 7) by lia; now rewrite Z.mul_pow2_bits_low.
  all: rewrite (Z.bits_above_log2 (b2z b mod 128)), andb_false_r; try done; try lia.
  all: destruct (Z.eq_dec (b2z b mod 128) 0) as [-> |]; [cbn; lia |];
    apply Z.log2_lt_pow2; [lia |];
    apply Z.lt_le_trans with (2 ^ 7); [lia | apply Z.pow_le_mono_r; lia].
Qed.

(** Reading a complete encoding whose value fits. *)
Lemma deserialize_loop_val bs last rest n size :
  Forall continues bs -> ~ continues last -> 0 <= n ->
  vlq_val (bs ++ [last]) n < 2 ^ 64 ->
  deserialize_loop (bs ++ last :: rest) n size
  = (vlq_val (bs ++ [last]) n, size + zlen bs + 1).
Proof.
  intros Hc Hl. unfold continues in *. revert n size.
  induction Hc as [| b bs Hb Hbs IH]; intros n size Hn Hv; cbn [app deserialize_loop].
  - cbn [app vlq_val] in *. rewrite lor_step; [| done | unfold vlq_step in Hv;
      pose proof (Z.mod_pos_bound (b2z last) 128 ltac:(lia)); lia].
    rewrite continue_bit. replace (128 <=? b2z last) with false by lia. cbn.
    f_equal. unfold zlen. cbn. lia.
  - assert (Hv' : vlq_val (b :: bs ++ [last]) n = vlq_val (bs ++ [last]) (vlq_step n b + 1))
      by (destruct bs; done).
    cbn [app] in Hv. rewrite Hv' in Hv |- *.
    pose proof (Z.mod_pos_bound (b2z b) 128 ltac:(lia)).
    assert (Hs : 0 <= vlq_step n b) by (unfold vlq_step; lia).
    pose proof (vlq_val_ge (bs ++ [last]) (vlq_step n b + 1) ltac:(lia)).
    rewrite lor_step; [| done | unfold vlq_step in *; lia].
    rewrite continue_bit. replace (128 <=? b2z b) with true by lia. cbn [negb].
    rewrite wrapU_small by lia. rewrite IH by (done || lia). f_equal. rewrite zlen_cons. lia.
Qed.

(** ** The two directions *)

Lemma lor_80 v : 0 <= v < 128 -> Z.lor v 0x80 = v + 128.
Proof.
  intros Hv. assert (Hall : forallb (fun v => Z.lor v 0x80 =? v + 128) (seqZ 0 128) = true)
    by (vm_compute; reflexivity).
  rewrite forallb_forall in Hall. apply Z.eqb_eq, Hall, list_elem_of_In, elem_of_seqZ. lia.
Qed.

(** The byte of a group that is not the last one. *)
Lemma high_byte n :
  let b := z2b (Z.lor (Z.land n 0x7f) 0x80) in continues b /\ b2z b mod 128 = n mod 128.
Proof.
  cbv zeta. rewrite land_7f. pose proof (Z.mod_pos_bound n 128 ltac:(lia)).
  unfold continues. rewrite lor_80, b2z_z2b_small by lia. split; [lia |].
  replace (n mod 128 + 128) with (n mod 128 + 1 * 128) by lia.
  rewrite Z_mod_plus_full. apply Z.mod_mod. lia.
Qed.

Lemma high_byte_inv b : continues b -> z2b (Z.lor (b2z b mod 128) 0x80) = b.
Proof.
  unfold continues. intros Hb. pose proof (b2z_range b).
  rewrite lor_80 by (apply Z.mod_pos_bound; lia). rewrite <- (z2b_b2z b) at 2. f_equal.
  rewrite (Z.mod_eq (b2z b) 128) by lia. assert (b2z b / 128 = 1); [| lia].
  symmetry. apply (Z.div_unique _ _ _ (b2z b - 128)); lia.
Qed.

Lemma vlq_val_cons b tail n : tail <> [] -> vlq_val (b :: tail) n = vlq_val tail (vlq_step n b + 1).
Proof. now destruct tail. Qed.

(** Continued groups add one to the value, which the writer subtracts. *)
Lemma groups_val k n :
  0 <= n < 2 ^ 64 -> n < limit k ->
  Forall continues (rev (groups k n 0x80)) /\
  forall tail, tail <> [] -> vlq_val (rev (groups k n 0x80) ++ tail) 0 = vlq_val tail (n + 1).
Proof.
  revert n. induction k as [| k IH]; intros n Hn Hl; [cbn in Hl; lia |]. cbn [groups rev].
  destruct (high_byte n) as [Hc Hm]. set (b := z2b _) in *.
  pose proof (Z.div_mod n 128 ltac:(lia)) as Hd.
  destruct (Z.leb_spec n 0x7f).
  - cbn [rev app]. split; [now repeat constructor |]. intros tail Ht.
    rewrite vlq_val_cons by done. f_equal. unfold vlq_step. rewrite Hm, Z.mod_small; lia.
  - destruct (vlq_next_limit k n ltac:(lia) Hl) as [Hn' Hl'].
    destruct (IH _ Hn' Hl') as [Hf Hv].
    destruct (vlq_next_small n ltac:(lia)) as [Hnext _]. split.
    + apply Forall_app. split; [done | now repeat constructor].
    + intros tail Ht. rewrite <- app_assoc. cbn [app].
      rewrite Hv, vlq_val_cons by done. f_equal. unfold vlq_step. lia.
Qed.

(** A complete encoding is the groups of its value. *)
Lemma groups_unique hs :
  Forall continues hs -> hs <> [] ->
  exists v, 0 <= v /\
    (forall tail, tail <> [] -> vlq_val (hs ++ tail) 0 = vlq_val tail (v + 1)) /\
    (forall k, v < 2 ^ 64 -> v < limit k -> groups k v 0x80 = rev hs).
Proof.
  induction hs as [| b hs IH] using rev_ind; intros Hc Hne; [done |].
  apply Forall_app in Hc. destruct Hc as [Hc Hb]. apply Forall_cons in Hb as [Hb _].
  pose proof (Z.mod_pos_bound (b2z b) 128 ltac:(lia)) as Hm.
  destruct (decide (hs = [])) as [-> | Hh].
  - exists (b2z b mod 128). split; [lia |]. split.
    + intros tail Ht. cbn [app]. now rewrite vlq_val_cons.
    + intros [| k] Hv Hl; [cbn in Hl; lia |]. cbn [groups app rev].
      rewrite land_7f, Z.mod_mod by lia. rewrite high_byte_inv by exact Hb.
      now replace (_ <=? 0x7f) with true by lia.
  - destruct (IH Hc Hh) as (v & Hv & Hval & Hg). exists ((v + 1) * 128 + b2z b mod 128).
    split; [lia |]. split.
    + intros tail Ht. rewrite <- app_assoc. cbn [app]. rewrite Hval by done.
      now rewrite vlq_val_cons.
    + intros [| k] Hv' Hl; [cbn in Hl; lia |]. cbn [groups].
      rewrite rev_app_distr. cbn [rev app]. rewrite land_7f.
      rewrite (Z.add_comm (_ * 128)), Z_mod_plus_full, Z.mod_mod by lia.
      rewrite high_byte_inv by exact Hb.
      replace (_ <=? 0x7f) with false by lia. f_equal.
      destruct (vlq_next_small (b2z b mod 128 + (v + 1) * 128) ltac:(lia)) as [-> _].
      rewrite Z_div_plus_full, Z.div_small by lia.
      replace (0 + (v + 1) - 1) with v by lia. apply Hg; [lia |]. cbn [limit] in Hl. lia.
Qed.

Lemma vlq_shape n :
  0 <= n < 2 ^ 64 ->
  exists hs last, vlq n = hs ++ [last] /\ Forall continues hs /\ ~ continues last /\
    vlq_val (hs ++ [last]) 0 = n.
Proof.
  intros Hn. rewrite vlq_eq.
  pose proof (Z.mod_pos_bound n 128 ltac:(lia)) as Hm.
  assert (Hlast : ~ continues (z2b (n mod 128)))
    by (unfold continues; rewrite b2z_z2b_small; lia).
  pose proof (Z.div_mod n 128 ltac:(lia)) as Hd.
  destruct (Z.leb_spec n 0x7f).
  - exists [], (z2b (n mod 128)). split; [done | split; [constructor | split; [done |]]].
    cbn. unfold vlq_step. rewrite b2z_z2b_small, Z.mod_mod, Z.mod_small; lia.
  - destruct (vlq_next_limit 9 n ltac:(lia)) as [Hn' Hl'];
      [apply Z.lt_le_trans with (2 ^ 64); [lia | exact limit_fuel] |].
    destruct (groups_val 9 (vlq_next n) Hn' Hl') as [Hf Hv].
    destruct (vlq_next_small n ltac:(lia)) as [Hnext _].
    eexists _, _. split; [reflexivity | split; [exact Hf | split; [exact Hlast |]]].
    rewrite Hv by done. cbn. unfold vlq_step. rewrite b2z_z2b_small, Z.mod_mod by lia. lia.
Qed.

(** Reading inverts writing, whatever follows. *)
Lemma deserializeVLQ_vlq n rest :
  0 <= n < 2 ^ 64 -> deserializeVLQ (vlq n ++ rest) = (n, serializeSizeVLQ n).
Proof.
  intros Hn. rewrite serializeSizeVLQ_len by done.
  destruct (vlq_shape n Hn) as (hs & last & -> & Hc & Hl & Hv).
  rewrite <- app_assoc. cbn [app]. unfold deserializeVLQ.
  rewrite deserialize_loop_val by (done || lia). rewrite Hv. f_equal.
  unfold zlen. rewrite length_app. cbn. lia.
Qed.

(** A complete encoding of a value that fits is the one [putVLQ] writes. *)
Lemma vlq_unique hs last :
  Forall continues hs -> ~ continues last -> vlq_val (hs ++ [last]) 0 < 2 ^ 64 ->
  vlq (vlq_val (hs ++ [last]) 0) = hs ++ [last].
Proof.
  intros Hc Hl Hv. unfold continues in Hl. pose proof (b2z_range last).
  assert (Hlast : b2z last mod 128 = b2z last) by (apply Z.mod_small; lia).
  destruct (decide (hs = [])) as [-> | Hh].
  - cbn [app vlq_val] in *. unfold vlq_step in *. rewrite Hlast in *.
    rewrite vlq_eq.
    replace (0 * 128 + b2z last) with (b2z last) by lia. rewrite Hlast, z2b_b2z.
    now replace (_ <=? 0x7f) with true by lia.
  - destruct (groups_unique hs Hc Hh) as (v & Hv0 & Hval & Hg).
    rewrite Hval in * by done. cbn [vlq_val] in *. unfold vlq_step in *. rewrite Hlast in *.
    rewrite vlq_eq.
    rewrite (Z.add_comm (_ * 128)), Z_mod_plus_full, Hlast, z2b_b2z.
    replace (_ <=? 0x7f) with false by lia.
    destruct (vlq_next_small (b2z last + (v + 1) * 128) ltac:(lia)) as [-> _].
    rewrite Z_div_plus_full, Z.div_small by lia.
    replace (0 + (v + 1) - 1) with v by lia. cbn [rev].
    rewrite Hg; [now rewrite rev_involutive | lia |].
    pose proof limit_fuel. change (limit vlq_fuel) with (128 * (limit 9 + 1)) in *. lia.
Qed.

(** ** Amounts *)

Lemma strip_zeros_spec fuel a e :
  0 < a -> e + Z.of_nat fuel = 9 -> 0 <= e ->
  let '(a', e') := strip_zeros fuel a e in
  0 < a' /\ e <= e' <= 9 /\ a = a' * 10 ^ (e' - e) /\ (e' < 9 -> a' mod 10 <> 0).
Proof.
  revert a e. induction fuel as [| k IH]; intros a e Ha Hf He; cbn [strip_zeros].
  - rewrite Z.sub_diag. lia.
  - destruct (Z.eqb_spec (a mod 10) 0) as [Hm |]; [| cbn [andb]; rewrite Z.sub_diag; lia].
    replace (e <? 9) with true by lia. cbn [andb].
    pose proof (Z.div_mod a 10 ltac:(lia)).
    specialize (IH (a / 10) (e + 1) ltac:(lia) ltac:(lia) ltac:(lia)).
    destruct (strip_zeros k (a / 10) (e + 1)) as [a' e']. destruct IH as (? & ? & Hd & ?).
    split_and!; [lia | lia | lia | | done].
    replace (e' - e) with (Z.succ (e' - (e + 1))) by lia.
    rewrite Z.pow_succ_r by lia. lia.
Qed.

Lemma scale_pow e n : 0 < n -> n * 10 ^ Z.of_nat e < 2 ^ 64 -> scale e n = n * 10 ^ Z.of_nat e.
Proof.
  revert n. induction e as [| e IH]; intros n Hn Hl; [cbn; lia |].
  rewrite Nat2Z.inj_succ, Z.pow_succ_r in * by lia.
  assert (1 <= 10 ^ Z.of_nat e) by (pose proof (Z.pow_pos_nonneg 10 (Z.of_nat e)); lia).
  cbn [scale]. rewrite wrapU_small by nia. rewrite IH; nia.
Qed.

Lemma compressTxOutAmount_range a : 0 <= compressTxOutAmount a < 2 ^ 64.
Proof.
  unfold compressTxOutAmount. destruct (a =? 0); [lia |].
  destruct (strip_zeros 9 a 0) as [a' e]. destruct (e <? 9); now apply wrapU_range.
Qed.

(** The compression loses nothing on amounts up to 2^60, far more than the
    2.1e15 satoshi there will ever be. *)
Lemma amount_roundtrip a :
  0 <= a <= 2 ^ 60 -> decompressTxOutAmount (compressTxOutAmount a) = a /\
  0 <= compressTxOutAmount a < 2 ^ 64.
Proof.
  intros Ha. unfold compressTxOutAmount.
  destruct (Z.eqb_spec a 0) as [-> |]; [done |].
  pose proof (strip_zeros_spec 9 a 0 ltac:(lia) eq_refl ltac:(lia)) as Hs.
  destruct (strip_zeros 9 a 0) as [a' e]. destruct Hs as (Ha' & He & Heq & Hmod).
  rewrite Z.sub_0_r in Heq. pose proof (Z.pow_pos_nonneg 10 e ltac:(lia) ltac:(lia)).
  assert (a' <= 2 ^ 60) by nia. set (m := 2 ^ 60) in *.
  assert (Hm : 16 * m = 2 ^ 64) by reflexivity. clearbody m.
  pose proof (Z.div_mod a' 10 ltac:(lia)) as Hd.
  pose proof (Z.mod_pos_bound a' 10 ltac:(lia)).
  destruct (Z.ltb_spec e 9) as [Hlt |].
  - specialize (Hmod Hlt). set (d := a' mod 10) in *. set (q := a' / 10) in *.
    rewrite wrapU_small by lia. split; [| lia]. unfold decompressTxOutAmount.
    replace (_ =? 0) with false by lia. rewrite wrapU_small by lia.
    replace (1 + 10 * (9 * q + d - 1) + e - 1) with (e + (9 * q + d - 1) * 10) by lia.
    rewrite Z_mod_plus_full, Z_div_plus_full, (Z.mod_small e), (Z.div_small e) by lia.
    replace (e <? 9) with true by lia.
    replace (0 + (9 * q + d - 1)) with ((d - 1) + q * 9) by lia.
    rewrite Z_mod_plus_full, Z_div_plus_full, (Z.mod_small (d - 1)), (Z.div_small (d - 1)) by lia.
    rewrite wrapU_small by lia. rewrite scale_pow; rewrite ?Z2Nat.id by lia; nia.
  - assert (e = 9) by lia. subst e. rewrite wrapU_small by lia. split; [| lia].
    unfold decompressTxOutAmount. replace (_ =? 0) with false by lia.
    rewrite wrapU_small by lia.
    replace (10 + 10 * (a' - 1) - 1) with (9 + (a' - 1) * 10) by lia.
    rewrite Z_mod_plus_full, Z_div_plus_full by lia. change (9 mod 10) with 9. change (9 / 10) with 0.
    cbn [Z.ltb Z.compare Pos.compare Pos.compare_cont].
    rewrite wrapU_small by lia. rewrite scale_pow; rewrite ?Z2Nat.id by lia; nia.
Qed.

(** The integers of the unspent output set.  [putVLQ] writes the encoding
    of any uint64 to the front of a slice that has room for the announced
    size, and panics on a shorter one; reading it back gives the number and
    the size, whatever bytes follow; a complete byte string whose value fits
    64 bits is the encoding of its value, so that every number has exactly one
    encoding; and compressing an amount of at most 2^60 loses nothing. *)
Lemma vlq_codec :
  (forall n target, 0 <= n < 2 ^ 64 ->
     putVLQ target n =
     if serializeSizeVLQ n <=? zlen target
     then Ok (vlq n ++ zdrop (serializeSizeVLQ n) target, serializeSizeVLQ n) else Panic) /\
  (forall n rest, 0 <= n < 2 ^ 64 ->
     serializeSizeVLQ n = zlen (vlq n) /\
     deserializeVLQ (vlq n ++ rest) = (n, serializeSizeVLQ n)) /\
  (forall hs last, Forall continues hs -> ~ continues last ->
     vlq_val (hs ++ [last]) 0 < 2 ^ 64 ->
     vlq (fst (deserializeVLQ (hs ++ [last]))) = hs ++ [last]) /\
  (forall a, 0 <= a <= 2 ^ 60 -> decompressTxOutAmount (compressTxOutAmount a) = a).
Proof.
  split_and!.
  - intros n target Hn. now apply putVLQ_spec.
  - intros n rest Hn. split; [now apply serializeSizeVLQ_len | now apply deserializeVLQ_vlq].
  - intros hs last Hc Hl Hv. unfold deserializeVLQ.
    rewrite deserialize_loop_val by (done || lia). now apply vlq_unique.
  - intros a Ha. now apply amount_roundtrip.
Qed.

Lemma vlq_codec_witness :
  putVLQ (replicate 4 x00) 16512 = Ok ([x80; x80; x00; x00], 3) /\
  fst (deserializeVLQ [x80; x80; x00]) = 16512 /\
  vlq 16512 = [x80; x80; x00] /\
  decompressTxOutAmount (compressTxOutAmount 50000000) = 50000000.
Proof.
  destruct vlq_codec as (Hput & Hget & Huniq & Hamount). split_and!.
  - rewrite Hput by lia. reflexivity.
  - destruct (Hget 16512 [] ltac:(lia)) as [_ Hd].
    replace [x80; x80; x00] with (vlq 16512 ++ []) by reflexivity. now rewrite Hd.
  - apply (Huniq [x80; x80] x00); [repeat constructor; unfold continues; vm_compute; discriminate | |];
      vm_compute; congruence.
  - apply Hamount. lia.
Defined.
