(* ===== verification/Compress.v ===== *)
(** Compressed scripts and transaction outputs
    (src/btcd/blockchain/compress.go): the entries of the unspent output set.

    A byte slice that is sliced again is a record of its backing array and its
    length, because Go allows to slice up to the capacity.  A target that is
    written to is a list of bytes: its capacity is its length.  Parsing and
    serializing curve points is third-party code: the class [PubKeys]. *)

From S2P Require Import Prelude Slices Opcodes Vlq.

(** * Public keys *)

Class PubKeys : Type := {
  Key : Type;
  ParsePubKey : bytes -> option Key;
  SerializeUncompressed : Key -> bytes
}.

(** The compressed form of a valid uncompressed key names the same point. *)
Class PubKeysLaws `{PubKeys} : Prop := {
  ParsePubKey_compressed x y k :
    zlen x = 32 -> zlen y = 32 -> ParsePubKey (x04 :: x ++ y) = Some k ->
    exists k', ParsePubKey (z2b (Z.lor 0x02 (be_val y mod 2)) :: x) = Some k' /\
               SerializeUncompressed k' = x04 :: x ++ y
}.

(** * Writing into slices *)

(** [copy(target[off:], data)] *)
Definition copy_at (target : bytes) (off : Z) (data : bytes) : bytes :=
  ztake off target ++ ztake (zlen target - off) data ++ zdrop (off + zlen data) target.

(** [copy(target[off:off+n], data)] where [data] has [n] bytes. *)
Definition write_at (target : bytes) (off : Z) (data : bytes) : outcome unit bytes :=
  if off + zlen data <=? zlen target then Ok (copy_at target off data) else Panic.

(** [script[i] == v] behind a test of the length *)
Definition op_at (script : bytes) (i v : Z) : bool :=
  match znth script i with Some b => b2z b =? v | None => false end.

(** * Scripts *)

Definition cstPayToPubKeyHash : Z := 0.
Definition cstPayToScriptHash : Z := 1.
Definition cstPayToPubKeyComp2 : Z := 2.
Definition cstPayToPubKeyComp3 : Z := 3.
Definition cstPayToPubKeyUncomp4 : Z := 4.
Definition cstPayToPubKeyUncomp5 : Z := 5.
Definition numSpecialScripts : Z := 6.

Definition isPubKeyHash (script : bytes) : option bytes :=
  if (zlen script =? 25) && op_at script 0 OP_DUP && op_at script 1 OP_HASH160 &&
     op_at script 2 OP_DATA_20 && op_at script 23 OP_EQUALVERIFY && op_at script 24 OP_CHECKSIG
  then Some (sub script 3 23) else None.

Definition isScriptHash (script : bytes) : option bytes :=
  if (zlen script =? 23) && op_at script 0 OP_HASH160 && op_at script 1 OP_DATA_20 &&
     op_at script 22 OP_EQUAL
  then Some (sub script 2 22) else None.

Section Scripts.
Context `{PubKeys}.

Definition isPubKey (script : bytes) : option bytes :=
  let uncompressed :=
    if (zlen script =? 67) && op_at script 0 OP_DATA_65 && op_at script 66 OP_CHECKSIG &&
       op_at script 1 0x04
    then match ParsePubKey (sub script 1 66) with
         | Some _ => Some (sub script 1 66)
         | None => None
         end
    else None in
  if (zlen script =? 35) && op_at script 0 OP_DATA_33 && op_at script 34 OP_CHECKSIG &&
     (op_at script 1 0x02 || op_at script 1 0x03)
  then match ParsePubKey (sub script 1 34) with
       | Some _ => Some (sub script 1 34)
       | None => uncompressed
       end
  else uncompressed.

Definition compressedScriptSize (pkScript : bytes) : Z :=
  match isPubKeyHash pkScript with
  | Some _ => 21
  | None =>
      match isScriptHash pkScript with
      | Some _ => 21
      | None =>
          match isPubKey pkScript with
          | Some _ => 33
          | None =>
              serializeSizeVLQ (uint64 (zlen pkScript + numSpecialScripts)) + zlen pkScript
          end
      end
  end.

Definition decodeCompressedScriptSize (serialized : bytes) : Z :=
  let '(scriptSize, bytesRead) := deserializeVLQ serialized in
  if bytesRead =? 0 then 0 else
  if scriptSize =? cstPayToPubKeyHash then 21 else
  if scriptSize =? cstPayToScriptHash then 21 else
  if (scriptSize =? cstPayToPubKeyComp2) || (scriptSize =? cstPayToPubKeyComp3) ||
     (scriptSize =? cstPayToPubKeyUncomp4) || (scriptSize =? cstPayToPubKeyUncomp5) then 33 else
  let scriptSize := uint64 (scriptSize - numSpecialScripts) in
  let scriptSize := uint64 (scriptSize + uint64 bytesRead) in
  int64 scriptSize.

(** [target[0] = v] and [copy(target[1:], data)] with its size *)
Definition put_special (target : bytes) (v : Z) (data : bytes) : outcome unit (bytes * Z) :=
  obind (set_at target 0 (z2b v)) (fun target =>
  obind (write_at target 1 data) (fun target => Ok (target, 1 + zlen data))).

Definition put_general (target pkScript : bytes) : outcome unit (bytes * Z) :=
  let encodedSize := uint64 (zlen pkScript + numSpecialScripts) in
  obind (putVLQ target encodedSize) (fun '(target, vlqSizeLen) =>
  Ok (copy_at target vlqSizeLen pkScript, vlqSizeLen + zlen pkScript)).

Definition putCompressedScript (target pkScript : bytes) : outcome unit (bytes * Z) :=
  match isPubKeyHash pkScript with
  | Some hash => put_special target cstPayToPubKeyHash hash
  | None =>
      match isScriptHash pkScript with
      | Some hash => put_special target cstPayToScriptHash hash
      | None =>
          match isPubKey pkScript with
          | Some serializedPubKey =>
              let x := sub serializedPubKey 1 33 in
              if op_at serializedPubKey 0 0x02 then put_special target 0x02 x else
              if op_at serializedPubKey 0 0x03 then put_special target 0x03 x else
              if op_at serializedPubKey 0 0x04 then
                match znth serializedPubKey 64 with
                | Some y => put_special target (Z.lor 0x04 (Z.land (b2z y) 0x01)) x
                | None => Panic
                end
              else put_general target pkScript
          | None => put_general target pkScript
          end
      end
  end.

Definition p2pkh_of (hash : bytes) : bytes :=
  [z2b OP_DUP; z2b OP_HASH160; z2b OP_DATA_20] ++ hash ++ [z2b OP_EQUALVERIFY; z2b OP_CHECKSIG].
Definition p2sh_of (hash : bytes) : bytes :=
  [z2b OP_HASH160; z2b OP_DATA_20] ++ hash ++ [z2b OP_EQUAL].

Definition decompressScript (compressedPkScript : slice) : outcome Empty_set bytes :=
  if s_len compressedPkScript =? 0 then Ok [] else
  let '(encodedScriptSize, bytesRead) := deserializeVLQ (contents compressedPkScript) in
  if encodedScriptSize =? cstPayToPubKeyHash then
    obind (reslice compressedPkScript bytesRead (bytesRead + 20)) (fun hash =>
    Ok (p2pkh_of (contents hash)))
  else if encodedScriptSize =? cstPayToScriptHash then
    obind (reslice compressedPkScript bytesRead (bytesRead + 20)) (fun hash =>
    Ok (p2sh_of (contents hash)))
  else if (encodedScriptSize =? cstPayToPubKeyComp2) || (encodedScriptSize =? cstPayToPubKeyComp3) then
    obind (reslice compressedPkScript bytesRead (bytesRead + 32)) (fun x =>
    Ok ([z2b OP_DATA_33; z2b encodedScriptSize] ++ contents x ++ [z2b OP_CHECKSIG]))
  else if (encodedScriptSize =? cstPayToPubKeyUncomp4) || (encodedScriptSize =? cstPayToPubKeyUncomp5) then
    obind (reslice compressedPkScript 1 (s_len compressedPkScript)) (fun rest =>
    let compressedKey :=
      copy_at (z2b (encodedScriptSize - 2) :: replicate 32 x00) 1 (contents rest) in
    match ParsePubKey compressedKey with
    | None => Ok []
    | Some key =>
        let pkScript := copy_at (z2b OP_DATA_65 :: replicate 66 x00) 1 (SerializeUncompressed key) in
        Ok (ztake 66 pkScript ++ [z2b OP_CHECKSIG])
    end)
  else
    let scriptSize := int64 (uint64 (encodedScriptSize - numSpecialScripts)) in
    if scriptSize <? 0 then Panic else
    obind (reslice compressedPkScript bytesRead (int64 (bytesRead + scriptSize))) (fun s =>
    Ok (contents s)).
End Scripts.

(** * Transaction outputs *)

(** The two errors of the decoder, with the number of bytes read. *)
Inductive derr : Type :=
| errAfterAmount (bytesRead : Z)
| errAfterScriptSize (bytesRead : Z).

(** A callee that has no errors of its own. *)
Definition no_error {E A} (o : outcome Empty_set A) : outcome E A :=
  match o with Ok a => Ok a | Err e => match e with end | Panic => Panic end.

Section TxOuts.
Context `{PubKeys}.

Definition compressedTxOutSize (amount : Z) (pkScript : bytes) : Z :=
  serializeSizeVLQ (compressTxOutAmount amount) + compressedScriptSize pkScript.

Definition putCompressedTxOut (target : bytes) (amount : Z) (pkScript : bytes)
  : outcome unit (bytes * Z) :=
  obind (putVLQ target (compressTxOutAmount amount)) (fun '(target, offset) =>
  obind (putCompressedScript (zdrop offset target) pkScript) (fun '(rest, n) =>
  Ok (ztake offset target ++ rest, offset + n))).

Definition decodeCompressedTxOut (serialized : slice) : outcome derr (Z * bytes * Z) :=
  let '(compressedAmount, bytesRead) := deserializeVLQ (contents serialized) in
  if bytesRead >=? s_len serialized then Err (errAfterAmount bytesRead) else
  obind (reslice serialized bytesRead (s_len serialized)) (fun rest =>
  let scriptSize := decodeCompressedScriptSize (contents rest) in
  if s_len rest <? scriptSize then Err (errAfterScriptSize bytesRead) else
  let amount := decompressTxOutAmount compressedAmount in
  obind (reslice serialized bytesRead (int64 (bytesRead + scriptSize))) (fun sc =>
  obind (no_error (decompressScript sc)) (fun script =>
  Ok (amount, script, int64 (bytesRead + scriptSize))))).
End TxOuts.

(** * What is written *)

(** The compressed form of a key. *)
Definition key_form (key : bytes) : bytes :=
  (if op_at key 0 0x02 then x02 else if op_at key 0 0x03 then x03
   else z2b (Z.lor 0x04 (be_val (zdrop 33 key) mod 2))) :: sub key 1 33.

(** The compressed form of a script. *)
Definition compressed `{PubKeys} (pkScript : bytes) : bytes :=
  match isPubKeyHash pkScript with
  | Some hash => x00 :: hash
  | None =>
      match isScriptHash pkScript with
      | Some hash => x01 :: hash
      | None =>
          match isPubKey pkScript with
          | Some key => key_form key
          | None => vlq (zlen pkScript + numSpecialScripts) ++ pkScript
          end
      end
  end.

(** ** The shapes the recognisers accept *)

Lemma op_at_nat l k v :
  op_at l (Z.of_nat k) v = match l !! k with Some b => b2z b =? v | None => false end.
Proof. unfold op_at, znth. rewrite decide_True, Nat2Z.id by lia. done. Qed.

Lemma op_eq b v : (b2z b =? v) = true <-> b = z2b v /\ b2z (z2b v) = v.
Proof.
  rewrite Z.eqb_eq. split; [intros <- | intros [-> ?]; done]. now rewrite z2b_b2z.
Qed.

(** The elements of a list whose length is [n]. *)
Tactic Notation "explode" ident(l) int_or_var(n) "by" ident(Hl) :=
  apply (f_equal Z.to_nat) in Hl; unfold zlen in Hl; rewrite Nat2Z.id in Hl;
  do n (destruct l as [| ? l]; [discriminate Hl |]); destruct l; [clear Hl | discriminate Hl].

(** The tests of a recogniser, as equations on the elements. *)
Ltac op_tests :=
  repeat match goal with
  | Ho : op_at (?x :: ?l) (Zpos ?p) ?v = true |- _ =>
      change (Zpos p) with (Z.of_nat (Pos.to_nat p)) in Ho
  | Ho : op_at (?x :: ?l) 0 ?v = true |- _ => change 0 with (Z.of_nat 0) in Ho
  | Ho : op_at (?x :: ?l) (Z.of_nat ?k) ?v = true |- _ =>
      rewrite op_at_nat in Ho; cbn [lookup list_lookup Pos.to_nat Pos.iter_op Nat.add] in Ho;
      apply op_eq in Ho as [-> _]
  end.

Lemma isPubKeyHash_shape script hash :
  isPubKeyHash script = Some hash <-> script = p2pkh_of hash /\ zlen hash = 20.
Proof.
  unfold isPubKeyHash, p2pkh_of. split.
  - intros Hs. destruct (_ && _) eqn:Hg; [| done]. injection Hs as <-.
    rewrite !andb_true_iff in Hg. destruct Hg as [[[[[Hl H0] H1] H2] H3] H4].
    apply Z.eqb_eq in Hl. explode script 25 by Hl.
    op_tests. split; reflexivity.
  - intros [-> Hl]. explode hash 20 by Hl. reflexivity.
Qed.

Lemma isScriptHash_shape script hash :
  isScriptHash script = Some hash <-> script = p2sh_of hash /\ zlen hash = 20.
Proof.
  unfold isScriptHash, p2sh_of. split.
  - intros Hs. destruct (_ && _) eqn:Hg; [| done]. injection Hs as <-.
    rewrite !andb_true_iff in Hg. destruct Hg as [[[Hl H0] H1] H2].
    apply Z.eqb_eq in Hl. explode script 23 by Hl. op_tests. split; reflexivity.
  - intros [-> Hl]. explode hash 20 by Hl. reflexivity.
Qed.

Lemma be_val_odd y b : be_val (y ++ [b]) mod 2 = b2z b mod 2.
Proof.
  unfold be_val. rewrite reverse_app. cbn [reverse rev_append app le_val].
  change (reverse [b]) with [b]. cbn [app le_val].
  rewrite Z.add_mod, Z.mul_mod by lia. change (256 mod 2) with 0.
  rewrite Z.mul_0_l, Z.mod_0_l, Z.add_0_r by lia. now rewrite Z.mod_mod by lia.
Qed.

Section Shapes.
Context `{PubKeys}.

(** The keys that have a compressed form. *)
Inductive key_shape : bytes -> Prop :=
| shape_compressed p x k :
    p = x02 \/ p = x03 -> zlen x = 32 -> ParsePubKey (p :: x) = Some k -> key_shape (p :: x)
| shape_uncompressed x y k :
    zlen x = 32 -> zlen y = 32 -> ParsePubKey (x04 :: x ++ y) = Some k ->
    key_shape (x04 :: x ++ y).

Definition p2pk_of (key : bytes) : bytes := z2b (zlen key) :: key ++ [z2b OP_CHECKSIG].

Lemma isPubKey_shape script key :
  isPubKey script = Some key -> script = p2pk_of key /\ key_shape key.
Proof.
  unfold isPubKey. intros Hs.
  assert (Hcases :
    (zlen script = 35 /\ op_at script 0 OP_DATA_33 = true /\ op_at script 34 OP_CHECKSIG = true /\
     (op_at script 1 0x02 = true \/ op_at script 1 0x03 = true) /\
     key = sub script 1 34 /\ exists k, ParsePubKey key = Some k) \/
    (zlen script = 67 /\ op_at script 0 OP_DATA_65 = true /\ op_at script 66 OP_CHECKSIG = true /\
     op_at script 1 0x04 = true /\ key = sub script 1 66 /\ exists k, ParsePubKey key = Some k)).
  { repeat match goal with
      | Hs : (if ?c then _ else _) = _ |- _ => destruct c eqn:?
      | Hs : match ?c with Some _ => _ | None => _ end = _ |- _ => destruct c eqn:?
      end; try done; injection Hs as <-;
      rewrite ?andb_true_iff, ?orb_true_iff, ?Z.eqb_eq in *; destruct_and?;
      first [left; split_and!; eauto; fail | right; split_and!; eauto]. }
  clear Hs. destruct Hcases as [(Hl & H0 & H1 & H2 & -> & k & Hk) | (Hl & H0 & H1 & H2 & -> & k & Hk)].
  - explode script 35 by Hl. destruct H2; op_tests; (split; [reflexivity |]);
      (eapply shape_compressed; [| | exact Hk]; [auto | reflexivity]).
  - explode script 67 by Hl. op_tests. split; [reflexivity |].
    match goal with |- key_shape ?l =>
      change l with (x04 :: ztake 32 (zdrop 1 l) ++ zdrop 33 l) end.
    eapply shape_uncompressed; [reflexivity .. | exact Hk].
Qed.
End Shapes.

(** * Writing *)

Lemma key_form_compressed p x :
  p = x02 \/ p = x03 -> zlen x = 32 -> key_form (p :: x) = p :: x.
Proof.
  intros Hp Hl. explode x 32 by Hl. destruct Hp; subst; reflexivity.
Qed.

Lemma key_form_uncompressed x y :
  zlen x = 32 -> key_form (x04 :: x ++ y) = z2b (Z.lor 0x04 (be_val y mod 2)) :: x.
Proof.
  intros Hl. explode x 32 by Hl. reflexivity.
Qed.

Lemma zlen_key_form `{PubKeys} key : key_shape key -> zlen (key_form key) = 33.
Proof.
  intros Hk. destruct Hk.
  - rewrite key_form_compressed, zlen_cons by done. lia.
  - rewrite key_form_uncompressed, zlen_cons by done. lia.
Qed.

Lemma put_special_ok target v data :
  1 + zlen data <= zlen target ->
  put_special target v data = Ok (z2b v :: data ++ zdrop (1 + zlen data) target, 1 + zlen data).
Proof.
  intros Hl. pose proof (zlen_nonneg data).
  destruct target as [| b target]; [rewrite zlen_nil in Hl; lia |]. rewrite zlen_cons in Hl.
  unfold put_special, set_at, write_at. rewrite zlen_cons.
  replace ((0 <=? 0) && (0 <? 1 + zlen target)) with true by lia. cbn [obind].
  change (<[Z.to_nat 0 := z2b v]> (b :: target)) with (z2b v :: target).
  rewrite zlen_cons. replace (1 + zlen data <=? 1 + zlen target) with true by lia.
  cbn [obind]. do 2 f_equal. unfold copy_at. rewrite zlen_cons.
  unfold ztake, zdrop. rewrite (take_ge data) by (unfold zlen in *; lia).
  rewrite Z2Nat.inj_add by lia. change (Z.to_nat 1) with 1%nat. reflexivity.
Qed.

(** A length to which a Go slice never comes close. *)
Definition len_ok (s : bytes) : Prop := zlen s < 2 ^ 62.

Lemma general_size pkScript :
  len_ok pkScript ->
  uint64 (zlen pkScript + numSpecialScripts) = zlen pkScript + numSpecialScripts /\
  0 <= zlen pkScript + numSpecialScripts < 2 ^ 64.
Proof.
  unfold len_ok, numSpecialScripts. pose proof (zlen_nonneg pkScript).
  intros Hl. rewrite wrapU_small by lia. lia.
Qed.

Lemma copy_at_app pre data rest :
  zlen data <= zlen rest -> copy_at (pre ++ rest) (zlen pre) data = pre ++ data ++ zdrop (zlen data) rest.
Proof.
  intros Hl. unfold copy_at. rewrite ztake_app, zlen_app.
  replace (zlen pre + zlen rest - zlen pre) with (zlen rest) by lia.
  f_equal. f_equal; unfold ztake, zdrop, zlen in *.
  - apply take_ge. lia.
  - rewrite drop_app_ge by lia. f_equal. lia.
Qed.

Lemma put_general_ok target pkScript :
  let form := vlq (zlen pkScript + numSpecialScripts) ++ pkScript in
  len_ok pkScript -> zlen form <= zlen target ->
  put_general target pkScript = Ok (form ++ zdrop (zlen form) target, zlen form).
Proof.
  cbn zeta. intros Hlen Hl. destruct (general_size _ Hlen) as [Hu Hr].
  unfold put_general. rewrite Hu, putVLQ_spec by done.
  set (v := vlq (zlen pkScript + numSpecialScripts)) in *.
  rewrite serializeSizeVLQ_len by done. fold v. rewrite zlen_app in *.
  pose proof (zlen_nonneg pkScript). pose proof (zlen_nonneg v).
  replace (zlen v <=? zlen target) with true by lia. cbn [obind].
  rewrite copy_at_app by (rewrite zlen_zdrop; lia).
  rewrite <- app_assoc. do 3 f_equal. f_equal. unfold zdrop.
  rewrite drop_drop. f_equal. lia.
Qed.

Lemma zlen_compressed `{PubKeys} pkScript :
  len_ok pkScript -> zlen (compressed pkScript) = compressedScriptSize pkScript.
Proof.
  intros Hlen. destruct (general_size _ Hlen) as [Hu Hr].
  unfold compressed, compressedScriptSize.
  destruct (isPubKeyHash pkScript) as [hash |] eqn:Hpkh.
  { apply isPubKeyHash_shape in Hpkh as [_ Hl]. rewrite zlen_cons. lia. }
  destruct (isScriptHash pkScript) as [hash |] eqn:Hsh.
  { apply isScriptHash_shape in Hsh as [_ Hl]. rewrite zlen_cons. lia. }
  destruct (isPubKey pkScript) as [key |] eqn:Hpk.
  { apply isPubKey_shape in Hpk as [_ Hk]. now apply zlen_key_form. }
  rewrite zlen_app, Hu, serializeSizeVLQ_len by done. done.
Qed.

Lemma put_key `{PubKeys} key target pkScript :
  key_shape key -> 33 <= zlen target ->
  (let x := sub key 1 33 in
   if op_at key 0 0x02 then put_special target 0x02 x else
   if op_at key 0 0x03 then put_special target 0x03 x else
   if op_at key 0 0x04 then
     match znth key 64 with
     | Some y => put_special target (Z.lor 0x04 (Z.land (b2z y) 0x01)) x
     | None => Panic
     end
   else put_general target pkScript) = Ok (key_form key ++ zdrop 33 target, 33).
Proof.
  intros Hk Ht. cbn zeta. destruct Hk as [p x k Hp Hx _ | x y k Hx Hy _].
  - assert (Hs : sub (p :: x) 1 33 = x) by (explode x 32 by Hx; reflexivity).
    rewrite Hs, key_form_compressed by done.
    destruct Hp as [-> | ->];
      [ change (put_special target 2 x = Ok ((x02 :: x) ++ zdrop 33 target, 33))
      | change (put_special target 3 x = Ok ((x03 :: x) ++ zdrop 33 target, 33)) ];
      rewrite put_special_ok, Hx by lia; reflexivity.
  - assert (Hs : sub (x04 :: x ++ y) 1 33 = x) by (explode x 32 by Hx; reflexivity).
    rewrite Hs, key_form_uncompressed by done.
    assert (Hn : exists y' b, y = y' ++ [b] /\ znth (x04 :: x ++ y) 64 = Some b).
    { destruct y as [| b y' _] using rev_ind; [done |]. exists y', b. split; [done |].
      rewrite app_assoc, app_comm_cons. apply znth_app_exact.
      rewrite zlen_app, zlen_cons, zlen_nil in Hy. rewrite zlen_cons, zlen_app. lia. }
    destruct Hn as (y' & b & -> & ->).
    change (op_at (x04 :: x ++ y' ++ [b]) 0 2) with false.
    change (op_at (x04 :: x ++ y' ++ [b]) 0 3) with false.
    change (op_at (x04 :: x ++ y' ++ [b]) 0 4) with true. cbn match.
    rewrite put_special_ok, Hx, be_val_odd by lia.
    change 0x01 with (Z.ones 1). rewrite Z.land_ones by lia. reflexivity.
Qed.

Lemma putCompressedScript_ok `{PubKeys} target pkScript :
  len_ok pkScript -> compressedScriptSize pkScript <= zlen target ->
  putCompressedScript target pkScript =
    Ok (compressed pkScript ++ zdrop (compressedScriptSize pkScript) target,
        compressedScriptSize pkScript).
Proof.
  intros Hlen Hl. rewrite <- !zlen_compressed in * by done.
  unfold putCompressedScript, compressed in *.
  destruct (isPubKeyHash pkScript) as [hash |] eqn:Hpkh.
  { rewrite zlen_cons in *. now rewrite put_special_ok by done. }
  destruct (isScriptHash pkScript) as [hash |] eqn:Hsh.
  { rewrite zlen_cons in *. now rewrite put_special_ok by done. }
  destruct (isPubKey pkScript) as [key |] eqn:Hpk.
  { apply isPubKey_shape in Hpk as [_ Hk]. rewrite zlen_key_form in * by done.
    now apply put_key. }
  now apply put_general_ok.
Qed.

(** * Reading *)

Lemma deserializeVLQ_small b rest : b2z b < 128 -> deserializeVLQ (b :: rest) = (b2z b, 1).
Proof.
  intros Hb. pose proof (b2z_range b). unfold deserializeVLQ. cbn [deserialize_loop].
  rewrite continue_bit, low_bits. replace (128 <=? b2z b) with false by lia. cbn [negb].
  rewrite Z.shiftl_0_l, wrapU_small, Z.lor_0_l, Z.mod_small by lia. reflexivity.
Qed.

(** What [compressed] can be. *)
Inductive form `{PubKeys} : bytes -> bytes -> Prop :=
| form_pkh hash : zlen hash = 20 -> form (p2pkh_of hash) (x00 :: hash)
| form_sh hash : zlen hash = 20 -> form (p2sh_of hash) (x01 :: hash)
| form_key p x : p = x02 \/ p = x03 -> zlen x = 32 -> form (p2pk_of (p :: x)) (p :: x)
| form_uncompressed x y k :
    zlen x = 32 -> zlen y = 32 -> ParsePubKey (x04 :: x ++ y) = Some k ->
    form (p2pk_of (x04 :: x ++ y)) (z2b (4 + be_val y mod 2) :: x)
| form_general s : len_ok s -> form s (vlq (zlen s + numSpecialScripts) ++ s).

Lemma lor_parity k n : k = 2 \/ k = 4 -> Z.lor k (n mod 2) = k + n mod 2.
Proof.
  intros Hk. destruct (parity_cases n) as [-> | ->]; destruct Hk as [-> | ->]; reflexivity.
Qed.

Lemma compressed_form `{PubKeys} s : len_ok s -> form s (compressed s).
Proof.
  intros Hlen. unfold compressed.
  destruct (isPubKeyHash s) as [hash |] eqn:Hpkh.
  { apply isPubKeyHash_shape in Hpkh as [-> Hl]. now apply form_pkh. }
  destruct (isScriptHash s) as [hash |] eqn:Hsh.
  { apply isScriptHash_shape in Hsh as [-> Hl]. now apply form_sh. }
  destruct (isPubKey s) as [key |] eqn:Hpk; [| now apply form_general].
  apply isPubKey_shape in Hpk as [-> Hk]. destruct Hk as [p x k Hp Hx _ | x y k Hx Hy Hk].
  - rewrite key_form_compressed by done. now apply form_key.
  - rewrite key_form_uncompressed, lor_parity by auto. now apply (form_uncompressed _ _ k).
Qed.

(** The tests of the tags that fail. *)
Ltac skip_tags :=
  unfold cstPayToPubKeyHash, cstPayToScriptHash, cstPayToPubKeyComp2, cstPayToPubKeyComp3,
    cstPayToPubKeyUncomp4, cstPayToPubKeyUncomp5;
  repeat (rewrite (proj2 (Z.eqb_neq _ _)) by lia); cbn [orb].

Lemma zlen_form `{PubKeys} s c : form s c -> 1 <= zlen c <= 2 ^ 62 + 10.
Proof.
  intros Hf. destruct Hf as [hash Hl | hash Hl | p x Hp Hx | x y k Hx Hy _ | s Hlen];
    rewrite ?zlen_cons; try lia.
  pose proof (zlen_vlq (zlen s + numSpecialScripts)). pose proof (zlen_nonneg s).
  rewrite zlen_app. unfold len_ok in Hlen. lia.
Qed.

Lemma decodeCompressedScriptSize_form `{PubKeys} s c rest :
  form s c -> decodeCompressedScriptSize (c ++ rest) = zlen c.
Proof.
  unfold decodeCompressedScriptSize. intros Hf.
  destruct Hf as [hash Hl | hash Hl | p x Hp Hx | x y k Hx Hy _ | s Hlen]; rewrite ?zlen_cons.
  - cbn [app]. rewrite deserializeVLQ_small by reflexivity. cbn -[zlen]. lia.
  - cbn [app]. rewrite deserializeVLQ_small by reflexivity. cbn -[zlen]. lia.
  - cbn [app]. rewrite deserializeVLQ_small by (destruct Hp; subst; reflexivity).
    destruct Hp; subst; cbn -[zlen]; lia.
  - cbn [app]. destruct (parity_cases (be_val y)) as [-> | ->];
      rewrite deserializeVLQ_small by reflexivity; rewrite Hx; reflexivity.
  - destruct (general_size _ Hlen) as [_ Hr]. rewrite <- app_assoc.
    rewrite deserializeVLQ_vlq, zlen_app, serializeSizeVLQ_len by done.
    set (v := vlq (zlen s + numSpecialScripts)) in *.
    pose proof (zlen_nonneg s).
    pose proof (zlen_vlq (zlen s + numSpecialScripts)) as Hv. fold v in Hv.
    unfold len_ok, numSpecialScripts in *. skip_tags.
    replace (zlen s + 6 - 6) with (zlen s) by lia.
    rewrite (wrapU_small 64 (zlen v)), (wrapU_small 64 (zlen s)), (wrapU_small 64) by lia.
    rewrite int64_small by lia. lia.
Qed.

(** ** Decompression *)

Section Decompress.
Context `{PubKeysLaws}.

(** A tag below 128 is read as itself. *)
Lemma read_tag (t : byte) x rest :
  b2z t < 128 ->
  deserializeVLQ (contents (mkSlice ((t :: x) ++ rest) (zlen (t :: x)))) = (b2z t, 1).
Proof. intros Ht. rewrite contents_app. now apply deserializeVLQ_small. Qed.

Lemma reslice_tag {E} t x rest b :
  b = 1 + zlen x ->
  @reslice E (mkSlice ((t :: x) ++ rest) (zlen (t :: x))) 1 b = Ok (mkSlice (x ++ rest) (zlen x)).
Proof. intros ->. apply (reslice_app [t]). reflexivity. Qed.

Lemma nonempty_tag (t : byte) x rest :
  (s_len (mkSlice ((t :: x) ++ rest) (zlen (t :: x))) =? 0) = false.
Proof. cbn [s_len]. rewrite zlen_cons. pose proof (zlen_nonneg x). lia. Qed.

Lemma decompress_uncompressed x y k t rest :
  zlen x = 32 -> zlen y = 32 -> ParsePubKey (x04 :: x ++ y) = Some k ->
  t = z2b (4 + be_val y mod 2) ->
  decompressScript (mkSlice ((t :: x) ++ rest) (zlen (t :: x))) = Ok (p2pk_of (x04 :: x ++ y)).
Proof.
  intros Hx Hy Hk Ht. destruct (ParsePubKey_compressed x y k Hx Hy Hk) as (k' & Hp & Hs).
  rewrite lor_parity in Hp by auto.
  assert (Htag : b2z t = 4 + be_val y mod 2)
    by (subst t; destruct (parity_cases (be_val y)) as [-> | ->]; reflexivity).
  unfold decompressScript. rewrite nonempty_tag, read_tag, Htag
    by (destruct (parity_cases (be_val y)); lia).
  assert (Hcmp : copy_at (z2b (4 + be_val y mod 2 - 2) :: replicate 32 x00) 1 x
                 = z2b (2 + be_val y mod 2) :: x).
  { replace (4 + be_val y mod 2 - 2) with (2 + be_val y mod 2) by lia. explode x 32 by Hx. reflexivity. }
  assert (Hout : ztake 66 (copy_at (z2b OP_DATA_65 :: replicate 66 x00) 1 (x04 :: x ++ y))
                 ++ [z2b OP_CHECKSIG] = p2pk_of (x04 :: x ++ y))
    by (clear Hp Hs Hk Hcmp Htag; explode x 32 by Hx; explode y 32 by Hy; reflexivity).
  pose proof (Z.mod_pos_bound (be_val y) 2 ltac:(lia)). skip_tags.
  replace (_ || _) with true by lia.
  rewrite reslice_tag by (cbn [s_len]; rewrite zlen_cons; lia). cbn [obind].
  now rewrite contents_app, Hcmp, Hp, Hs, Hout.
Qed.

Lemma decompressScript_form s c rest :
  form s c -> decompressScript (mkSlice (c ++ rest) (zlen c)) = Ok s.
Proof.
  intros Hf. destruct Hf as [hash Hl | hash Hl | p x Hp Hx | x y k Hx Hy Hk | s Hlen].
  - unfold decompressScript. rewrite nonempty_tag, read_tag by reflexivity.
    cbn [Z.eqb]. rewrite reslice_tag by lia. cbn [obind]. now rewrite contents_app.
  - unfold decompressScript. rewrite nonempty_tag, read_tag by reflexivity.
    cbn [Z.eqb]. rewrite reslice_tag by lia. cbn [obind]. now rewrite contents_app.
  - unfold decompressScript. rewrite nonempty_tag, read_tag by (destruct Hp; subst; reflexivity).
    assert (Hv : b2z p = 2 \/ b2z p = 3) by (destruct Hp; subst; auto).
    skip_tags. replace (_ || _) with true by lia. rewrite reslice_tag by lia. cbn [obind].
    rewrite contents_app, z2b_b2z. unfold p2pk_of. now rewrite zlen_cons, Hx.
  - now apply (decompress_uncompressed x y k).
  - destruct (general_size _ Hlen) as [_ Hr]. unfold decompressScript. rewrite contents_app.
    rewrite deserializeVLQ_vlq, serializeSizeVLQ_len by done. rewrite <- app_assoc. cbn [s_len].
    set (v := vlq (zlen s + numSpecialScripts)) in *. rewrite zlen_app.
    pose proof (zlen_vlq (zlen s + numSpecialScripts)) as Hv. fold v in Hv.
    pose proof (zlen_nonneg s).
    unfold len_ok, numSpecialScripts in *. skip_tags.
    replace (zlen s + 6 - 6) with (zlen s) by lia.
    rewrite (wrapU_small 64), !int64_small by lia.
    replace (zlen s <? 0) with false by lia.
    rewrite reslice_app by lia. cbn [obind]. now rewrite contents_app.
Qed.
End Decompress.

(** * The claims *)

Section TxOutCodec.
Context `{PubKeysLaws}.

(** The bytes of a compressed output. *)
Definition txout_form (amount : Z) (pkScript : bytes) : bytes :=
  vlq (compressTxOutAmount amount) ++ compressed pkScript.

Lemma zlen_txout_form amount pkScript :
  len_ok pkScript -> 
  zlen (txout_form amount pkScript) = compressedTxOutSize amount pkScript.
Proof.
  intros Hlen. unfold txout_form, compressedTxOutSize.
  rewrite zlen_app, zlen_compressed, serializeSizeVLQ_len; try done.
  apply compressTxOutAmount_range.
Qed.

Lemma putCompressedTxOut_ok amount pkScript target :
  len_ok pkScript -> compressedTxOutSize amount pkScript <= zlen target ->
  putCompressedTxOut target amount pkScript =
    Ok (txout_form amount pkScript ++ zdrop (compressedTxOutSize amount pkScript) target,
        compressedTxOutSize amount pkScript).
Proof.
  intros Hlen Hl. unfold putCompressedTxOut, txout_form, compressedTxOutSize in *.
  pose proof (compressTxOutAmount_range amount) as Hr.
  rewrite putVLQ_spec, serializeSizeVLQ_len in * by done.
  pose proof (zlen_compressed pkScript Hlen) as Hc. pose proof (zlen_nonneg (compressed pkScript)).
  set (v := vlq (compressTxOutAmount amount)) in *. pose proof (zlen_nonneg v).
  replace (zlen v <=? zlen target) with true by lia. cbn [obind].
  rewrite zdrop_app, putCompressedScript_ok by (rewrite ?zlen_zdrop; done || lia).
  cbn [obind]. rewrite ztake_app, <- app_assoc. do 4 f_equal.
  unfold zdrop. rewrite drop_drop. f_equal. lia.
Qed.

Lemma decodeCompressedTxOut_ok amount pkScript more extra :
  0 <= amount <= 2 ^ 60 -> len_ok pkScript ->
  let serialized := txout_form amount pkScript ++ more in
  decodeCompressedTxOut (mkSlice (serialized ++ extra) (zlen serialized)) =
    Ok (amount, pkScript, compressedTxOutSize amount pkScript).
Proof.
  intros Ha Hlen. cbn zeta. pose proof (compressTxOutAmount_range amount) as Hr.
  pose proof (compressed_form pkScript Hlen) as Hf.
  pose proof (zlen_vlq (compressTxOutAmount amount)) as Hv.
  unfold decodeCompressedTxOut. rewrite contents_app. cbn [s_len].
  rewrite <- zlen_txout_form by done.
  unfold txout_form. rewrite <- !app_assoc, deserializeVLQ_vlq, serializeSizeVLQ_len by done.
  set (v := vlq (compressTxOutAmount amount)) in *.
  pose proof (zlen_form _ _ Hf) as Hc. set (c := compressed pkScript) in *.
  rewrite !zlen_app. pose proof (zlen_nonneg more). unfold len_ok in Hlen.
  replace (zlen v >=? zlen v + (zlen c + zlen more)) with false by lia.
  rewrite (app_assoc c more), reslice_app by (rewrite zlen_app; lia). cbn [obind].
  rewrite contents_app, (decodeCompressedScriptSize_form _ _ _ Hf). cbn [s_len].
  rewrite zlen_app. replace (zlen c + zlen more <? zlen c) with false by lia.
  rewrite int64_small, <- app_assoc, reslice_app by lia. cbn [obind].
  rewrite (decompressScript_form _ _ _ Hf). cbn [no_error obind].
  now rewrite (proj1 (amount_roundtrip amount Ha)).
Qed.
End TxOutCodec.

(** C21: the round trip of an entry of the unspent output set.  On a slice with
    room for the announced size [putCompressedTxOut] writes exactly that many
    bytes and leaves the rest; from a slice that starts with them, whatever
    follows and whatever capacity it has, [decodeCompressedTxOut] returns the
    amount, the script and that size, for every amount up to 2^60 and every
    script: the four recognised forms are rebuilt byte by byte, an
    uncompressed public key from its x coordinate and parity. *)
Theorem txout_codec `{PubKeysLaws} amount pkScript :
  0 <= amount <= 2 ^ 60 -> len_ok pkScript ->
  exists form,
    zlen form = compressedTxOutSize amount pkScript /\
    (forall target, compressedTxOutSize amount pkScript <= zlen target ->
       putCompressedTxOut target amount pkScript =
         Ok (form ++ zdrop (zlen form) target, zlen form)) /\
    (forall more extra,
       decodeCompressedTxOut (mkSlice (form ++ more ++ extra) (zlen (form ++ more))) =
         Ok (amount, pkScript, zlen form)).
Proof.
  intros Ha Hlen. exists (txout_form amount pkScript).
  rewrite zlen_txout_form by done. split_and!; [done | |].
  - intros target Ht. now apply putCompressedTxOut_ok.
  - intros more extra. rewrite app_assoc. now apply decodeCompressedTxOut_ok.
Qed.

(** Keys for the examples: every key of the right size and format is valid,
    and the second coordinate is its parity. *)
Definition toy_y (parity : byte) : bytes := replicate 31 x00 ++ [parity].

#[local] Instance toy_keys : PubKeys := {|
  Key := bytes;
  ParsePubKey key :=
    match key with
    | x02 :: x => if zlen x =? 32 then Some (x04 :: x ++ toy_y x00) else None
    | x03 :: x => if zlen x =? 32 then Some (x04 :: x ++ toy_y x01) else None
    | x04 :: xy =>
        if bool_decide (zdrop 32 xy = toy_y x00) || bool_decide (zdrop 32 xy = toy_y x01)
        then Some (x04 :: xy) else None
    | _ => None
    end;
  SerializeUncompressed key := key
|}.

#[local] Instance toy_keys_laws : PubKeysLaws.
Proof.
  constructor. intros x y k Hx Hy Hk. cbn [ParsePubKey toy_keys] in Hk.
  assert (Hd : zdrop 32 (x ++ y) = y) by (rewrite <- Hx; apply zdrop_app). rewrite Hd in Hk.
  destruct (_ || _) eqn:Hb; [| done]. apply orb_true_iff in Hb.
  rewrite !bool_decide_eq_true in Hb. destruct Hb as [-> | ->]; eexists;
    (split; [cbn -[zlen]; rewrite Hx; reflexivity | reflexivity]).
Qed.

Lemma txout_codec_witness :
  exists form,
    zlen form = 34 /\
    decodeCompressedTxOut (mkSlice form (zlen form)) =
      Ok (100000000, p2pk_of (x04 :: replicate 32 x07 ++ toy_y x01), 34).
Proof.
  destruct (txout_codec 100000000 (p2pk_of (x04 :: replicate 32 x07 ++ toy_y x01)))
    as (form & Hl & _ & Hd); [lia | reflexivity |].
  exists form. change (compressedTxOutSize _ _) with 34 in Hl. split; [done |].
  specialize (Hd [] []). rewrite !app_nil_r, Hl in Hd. rewrite Hl. done.
Defined.

(** What the decoder does with a damaged entry.  A script size of
    2^63 + 10 is turned into a negative int, passes the test for the end of
    the data, and slicing panics; an entry of 764 bytes cut off inside its script size
    is accepted as an output with an empty script; and a target that is too
    short for a script is filled as far as it goes, without a panic. *)
Lemma txout_decode_damaged `{PubKeys} :
  decodeCompressedTxOut (mkSlice (x00 :: vlq (2 ^ 63 + 10)) 11) = Panic /\
  (let form := txout_form 0 (replicate 762 x51) in
   zlen form = 765 /\
   decodeCompressedTxOut (mkSlice form 765) = Ok (0, replicate 762 x51, 765) /\
   decodeCompressedTxOut (mkSlice (ztake 2 form) 2) = Ok (0, [], 2)) /\
  putCompressedScript (replicate 3 x00) (replicate 9 x51) = Ok ([x0f; x51; x51], 10).
Proof.
  split; [reflexivity |]. split; [| reflexivity]. split_and!; reflexivity.
Qed.
