(* ===== verification/Merkle.v ===== *)
(** Merkle roots (src/btcd/blockchain/merkle.go,
    src/btcd/blockchain/rolling_merkle.go): the tree in an array, the rolling
    computation with logarithmic memory, and the witness commitment.

    Both computations are related to one reference definition, [merkle_root],
    which hashes a level pairwise until one hash is left. *)

From S2P Require Import Prelude Slices Crypto WireCommon MsgTx MsgBlock BtcUtil Opcodes.

(** * The code *)

Definition CoinbaseWitnessDataLen : Z := 32.
Definition CoinbaseWitnessPkScriptLength : Z := 38.
Definition WitnessMagicBytes : bytes := [z2b OP_RETURN; z2b OP_DATA_36; xaa; x21; xa9; xed].

(** [math.Log2] of an int is exact enough to be rounded down for every number
    of transactions a block can have. *)
Definition nextPowerOfTwo (n : Z) : Z :=
  if Z.land n (n - 1) =? 0 then n else Z.shiftl 1 (Z.log2 n + 1).

Definition zeroHash : bytes := replicate 32 x00.

Section Merkle.
Context `{Crypto}.

Definition HashMerkleBranches (left right : bytes) : bytes := DoubleHashB (left ++ right).

(** The leaf of the transaction at index [i]. *)
Definition leaf (witness : bool) (i : nat) (tx : MsgTx) : bytes :=
  if witness && (i =? 0)%nat then zeroHash
  else if witness then WitnessHash tx else TxHash tx.

(** A nil entry of the array is [None]. *)
Definition hash_pair (l r : option bytes) : option bytes :=
  match l, r with
  | None, _ => None
  | Some l, None => Some (HashMerkleBranches l l)
  | Some l, Some r => Some (HashMerkleBranches l r)
  end.

(** [for i := 0; i < arraySize-1; i += 2 { ...; offset++ }], [n] rounds of it *)
Fixpoint tree_loop (n : nat) (merkles : list (option bytes)) (i offset : nat)
  : outcome Empty_set (list (option bytes)) :=
  match n with
  | O => Ok merkles
  | S n' =>
      match merkles !! i, merkles !! (i + 1)%nat with
      | Some l, Some r =>
          if (offset <? length merkles)%nat
          then tree_loop n' (<[offset := hash_pair l r]> merkles) (i + 2) (offset + 1)
          else Panic
      | _, _ => Panic
      end
  end.

(** [merkles[i] = ...] for each transaction; a negative size panics in [make] *)
Definition BuildMerkleTreeStore (transactions : list MsgTx) (witness : bool)
  : outcome Empty_set (list (option bytes)) :=
  let nextPoT := nextPowerOfTwo (zlen transactions) in
  let arraySize := nextPoT * 2 - 1 in
  if arraySize <? 0 then Panic else
  let leaves := imap (fun i tx => Some (leaf witness i tx)) transactions in
  let merkles := leaves ++ replicate (Z.to_nat arraySize - length leaves) None in
  tree_loop (Z.to_nat (arraySize / 2)) merkles 0 (Z.to_nat nextPoT).

(** ** The rolling computation *)

(** The most recent root is the last one, as in the slice. *)
Record rollingMerkleTreeStore := mkRolling {
  roots : list bytes;
  numLeaves : Z;
}.

Definition newRollingMerkleTreeStore : rollingMerkleTreeStore := mkRolling [] 0.

(** [for h := uint8(0); (s.numLeaves>>h)&1 == 1; h++]: a shift by 64 or more
    gives 0, so that 64 rounds are enough. *)
Fixpoint add_loop (fuel : nat) (numLeaves h : Z) (roots : list bytes) (newRoot : bytes)
  : outcome Empty_set (list bytes) :=
  if Z.land (Z.shiftr numLeaves h) 1 =? 1 then
    match fuel with
    | O => Panic
    | S fuel' =>
        match last roots with
        | None => Panic
        | Some root => add_loop fuel' numLeaves (h + 1) (removelast roots) (HashMerkleBranches root newRoot)
        end
    end
  else Ok (roots ++ [newRoot]).

Definition add (s : rollingMerkleTreeStore) (add : bytes) : outcome Empty_set rollingMerkleTreeStore :=
  obind (add_loop 64 (numLeaves s) 0 (roots s) add) (fun roots =>
  Ok (mkRolling roots (uint64 (numLeaves s + 1)))).

(** [for i := range adds { s.add(...) }] *)
Fixpoint add_all (witness : bool) (i : nat) (adds : list MsgTx) (s : rollingMerkleTreeStore)
  : outcome Empty_set rollingMerkleTreeStore :=
  match adds with
  | [] => Ok s
  | tx :: adds' => obind (add s (leaf witness i tx)) (add_all witness (S i) adds')
  end.

(** [for h := uint8(0); (currentLeaves>>h)&1 == 0; h++ { s.numLeaves >>= 1 }];
    the counter wraps around, so that the loop does not end for 0 leaves. *)
Fixpoint shift_loop (fuel : nat) (currentLeaves h numLeaves : Z) : outcome Empty_set Z :=
  if Z.land (Z.shiftr currentLeaves h) 1 =? 0 then
    match fuel with
    | O => Panic
    | S fuel' => shift_loop fuel' currentLeaves (h + 1) (Z.shiftr numLeaves 1)
    end
  else Ok numLeaves.

(** [for len(s.roots) > 1]: each round halves the leaves at least. *)
Fixpoint close_loop (fuel : nat) (s : rollingMerkleTreeStore) : outcome Empty_set rollingMerkleTreeStore :=
  if zlen (roots s) >? 1 then
    match fuel with
    | O => Panic
    | S fuel' =>
        obind (shift_loop 64 (numLeaves s) 0 (numLeaves s)) (fun n =>
        match last (roots s) with
        | None => Panic
        | Some h => obind (add (mkRolling (roots s) n) h) (close_loop fuel')
        end)
    end
  else Ok s.

Definition first_root (s : rollingMerkleTreeStore) : outcome Empty_set bytes :=
  match roots s with [] => Panic | r :: _ => Ok r end.

Definition calcMerkleRoot (s : rollingMerkleTreeStore) (adds : list MsgTx) (witness : bool)
  : outcome Empty_set bytes :=
  obind (add_all witness 0 adds s) (fun s =>
  if numLeaves s =? 1 then first_root s else
  let again :=
    match last adds with
    | Some tx => if zlen adds mod 2 =? 0 then Ok s
                 else add s (if witness then WitnessHash tx else TxHash tx)
    | None => Ok s
    end in
  obind again (fun s => obind (close_loop 64 s) first_root)).

Definition CalcMerkleRoot (transactions : list MsgTx) (witness : bool) : outcome Empty_set bytes :=
  calcMerkleRoot newRollingMerkleTreeStore transactions witness.
End Merkle.

(** * The reference definition *)

Section Reference.
Context `{Crypto}.

(** The next level: pairs are hashed, the last hash of an odd level with itself. *)
Fixpoint pair_up (l : list bytes) : list bytes :=
  match l with
  | a :: b :: r => HashMerkleBranches a b :: pair_up r
  | [a] => [HashMerkleBranches a a]
  | [] => []
  end.

Fixpoint root_fuel (n : nat) (l : list bytes) : option bytes :=
  match l with
  | [] => None
  | [x] => Some x
  | _ => match n with O => None | S n' => root_fuel n' (pair_up l) end
  end.

Definition merkle_root (l : list bytes) : option bytes := root_fuel (length l) l.

Definition leaves (witness : bool) (txs : list MsgTx) : list bytes := imap (leaf witness) txs.

(** ** Levels *)

Lemma pair_ind {A} (P : list A -> Prop) :
  P [] -> (forall a, P [a]) -> (forall a b r, P r -> P (a :: b :: r)) -> forall l, P l.
Proof.
  intros H0 H1 H2. fix IH 1. intros [| a [| b r]]; [exact H0 | apply H1 |]. apply H2, IH.
Qed.

Lemma length_pair_up l : length (pair_up l) = Nat.div2 (S (length l)).
Proof. induction l as [| a | a b r IH] using pair_ind; [done | done |]. cbn in *. now rewrite IH. Qed.

Lemma length_pair_up_bounds l :
  (length l <= 2 * length (pair_up l) <= S (length l))%nat.
Proof.
  induction l as [| a | a b r IH] using pair_ind; cbn [pair_up length] in *; lia.
Qed.

Lemma pair_up_nil l : pair_up l = [] -> l = [].
Proof. destruct l as [| a [| b r]]; [done | discriminate | discriminate]. Qed.

Lemma root_fuel_enough n : forall m l,
  (length l <= n)%nat -> (length l <= m)%nat -> root_fuel n l = root_fuel m l.
Proof.
  induction n as [| n IH]; intros m l Hn Hm; destruct l as [| a [| b r]];
    try (destruct m; reflexivity); cbn in Hn; try lia.
  destruct m as [| m]; [cbn in Hm; lia |]. cbn [root_fuel].
  pose proof (length_pair_up_bounds (a :: b :: r)). cbn [length] in *. apply IH; lia.
Qed.

Lemma merkle_root_pair l : (2 <= length l)%nat -> merkle_root l = merkle_root (pair_up l).
Proof.
  intros Hl. unfold merkle_root. destruct l as [| a [| b r]]; [cbn in Hl; lia | cbn in Hl; lia |].
  change (root_fuel (length (a :: b :: r)) (a :: b :: r))
    with (root_fuel (S (length r)) (pair_up (a :: b :: r))).
  pose proof (length_pair_up_bounds (a :: b :: r)). cbn [length] in *.
  apply root_fuel_enough; lia.
Qed.

Lemma pair_up_even_app l k :
  Nat.even (length l) = true -> pair_up (l ++ k) = pair_up l ++ pair_up k.
Proof.
  induction l as [| a | a b r IH] using pair_ind; intros He; [done | discriminate |].
  cbn [app pair_up]. now rewrite IH.
Qed.

(** The last hash of an odd level may as well be listed twice. *)
Lemma pair_up_dup l x : Nat.even (length l) = true -> pair_up (l ++ [x; x]) = pair_up (l ++ [x]).
Proof. intros He. now rewrite !pair_up_even_app. Qed.

Lemma merkle_root_dup l x :
  Nat.even (length l) = true -> l <> [] -> merkle_root (l ++ [x; x]) = merkle_root (l ++ [x]).
Proof.
  intros He Hl. rewrite (merkle_root_pair (l ++ [x; x])), (merkle_root_pair (l ++ [x])).
  - now rewrite pair_up_dup.
  - rewrite length_app. destruct l; [done |]. cbn. lia.
  - rewrite length_app. cbn. lia.
Qed.

(** ** The rolling store *)

(** The complete pairs of a level. *)
Fixpoint spairs (l : list bytes) : list bytes :=
  match l with a :: b :: r => HashMerkleBranches a b :: spairs r | _ => [] end.

Lemma spairs_even l : Nat.even (length l) = true -> spairs l = pair_up l.
Proof.
  induction l as [| a | a b r IH] using pair_ind; intros He; [done | discriminate |].
  cbn [spairs pair_up]. now rewrite IH.
Qed.

Lemma spairs_even_app l k :
  Nat.even (length l) = true -> spairs (l ++ k) = spairs l ++ spairs k.
Proof.
  induction l as [| a | a b r IH] using pair_ind; intros He; [done | discriminate |].
  cbn [app spairs]. now rewrite IH.
Qed.

Lemma zlen_spairs l : zlen (spairs l) = zlen l / 2.
Proof.
  induction l as [| a | a b r IH] using pair_ind; [done | done |].
  cbn [spairs]. rewrite !zlen_cons, IH.
  replace (1 + (1 + zlen r)) with (zlen r + 1 * 2) by lia. rewrite Z.div_add by lia. lia.
Qed.

(** [forest l st]: the roots [st] of the perfect trees over the level [l], the
    largest tree first: one for each bit of its length. *)
Inductive forest : list bytes -> list bytes -> Prop :=
| forest_nil : forest [] []
| forest_even l st :
    Nat.even (length l) = true -> l <> [] -> forest (spairs l) st -> forest l st
| forest_odd l x st :
    Nat.even (length l) = true -> forest (spairs l) st -> forest (l ++ [x]) (st ++ [x]).

Lemma even_mod {A} (l : list A) : Nat.even (length l) = (zlen l mod 2 =? 0).
Proof.
  unfold zlen. induction l as [| a | a b r IH] using pair_ind; [done | done |].
  cbn [length]. change (Nat.even (S (S (length r)))) with (Nat.even (length r)). rewrite IH.
  replace (Z.of_nat (S (S (length r)))) with (Z.of_nat (length r) + 1 * 2) by lia.
  now rewrite Z.mod_add by lia.
Qed.

Lemma land_1 n : Z.land n 1 = n mod 2.
Proof. change 1 with (Z.ones 1). now rewrite Z.land_ones by lia. Qed.

Lemma even_two {A} (l : list A) : Nat.even (length l) = true -> l <> [] -> (2 <= length l)%nat.
Proof. intros He Hne. destruct l as [| a [| b r]]; [done | discriminate | cbn; lia]. Qed.

Lemma odd_snoc_mod {A} (l : list A) x :
  Nat.even (length l) = true -> zlen (l ++ [x]) mod 2 = 1 /\ zlen (l ++ [x]) / 2 = zlen l / 2.
Proof.
  rewrite even_mod, Z.eqb_eq. intros He. rewrite zlen_app. change (zlen [x]) with 1.
  pose proof (Z.div_mod (zlen l) 2 ltac:(lia)).
  replace (zlen l + 1) with (1 + (zlen l / 2) * 2) by lia.
  rewrite Z.mod_add, Z.div_add by lia. split; [done |]. reflexivity.
Qed.

Lemma add_loop_forest fuel : forall l st n h x,
  forest l st -> 0 <= h -> Z.shiftr n h = zlen l -> zlen l < 2 ^ Z.of_nat fuel ->
  exists st', add_loop fuel n h st x = Ok st' /\ forest (l ++ [x]) st'.
Proof.
  induction fuel as [| fuel IH]; intros l st n h x Hf Hh Hn Hb.
  - assert (l = []) as -> by (apply zlen_0_nil; pose proof (zlen_nonneg l); lia).
    cbn [add_loop]. rewrite Hn, land_1. change (zlen [] mod 2) with 0. cbn [Z.eqb].
    inversion Hf; subst; [| done | destruct l; discriminate].
    eexists. split; [reflexivity |]. apply (forest_odd [] x []); [done | constructor].
  - cbn [add_loop]. rewrite Hn, land_1.
    inversion Hf as [| l0 st0 He Hne Hf0 | l0 r st0 He Hf0]; subst.
    + change (zlen [] mod 2) with 0. cbn [Z.eqb]. eexists. split; [reflexivity |].
      apply (forest_odd [] x []); [done | constructor].
    + pose proof He as He'. rewrite even_mod, Z.eqb_eq in He'. rewrite He'. cbn [Z.eqb].
      eexists. split; [reflexivity |]. now apply forest_odd.
    + destruct (odd_snoc_mod l0 r He) as [-> Hd]. cbn [Z.eqb Pos.eqb].
      rewrite last_snoc, removelast_last.
      destruct (IH (spairs l0) st0 n (h + 1) (HashMerkleBranches r x)) as (st' & -> & Hf'); auto; [lia | | |].
      * rewrite <- Z.shiftr_shiftr, Hn by lia. change (Z.shiftr (zlen (l0 ++ [r])) 1)
          with (Z.div2 (zlen (l0 ++ [r]))). rewrite Z.div2_div, Hd. now rewrite zlen_spairs.
      * rewrite zlen_spairs. rewrite Nat2Z.inj_succ, Z.pow_succ_r in Hb by lia.
        rewrite zlen_app in Hb. change (zlen [r]) with 1 in Hb.
        apply Z.div_lt_upper_bound; lia.
      * eexists. split; [reflexivity |]. rewrite <- app_assoc. cbn [app].
        apply forest_even.
        -- rewrite length_app, Nat.even_add. cbn. now rewrite He.
        -- destruct l0; discriminate.
        -- rewrite spairs_even_app by done. exact Hf'.
Qed.
End Reference.

Section Rolling.
Context `{Crypto}.

(** Moving up past the even levels. *)
Lemma shift_loop_forest fuel : forall l st n h,
  forest l st -> l <> [] -> 0 <= h -> Z.shiftr n h = zlen l -> zlen l < 2 ^ Z.of_nat fuel ->
  exists l', shift_loop fuel n h (zlen l) = Ok (zlen l') /\ forest l' st /\
    zlen l' mod 2 = 1 /\ merkle_root l' = merkle_root l /\
    zlen l' <= zlen l /\ (zlen l mod 2 = 0 -> 2 * zlen l' <= zlen l).
Proof.
  induction fuel as [| fuel IH]; intros l st n h Hf Hne Hh Hn Hb.
  { destruct l as [| a t]; [done |]. rewrite zlen_cons in Hb. pose proof (zlen_nonneg t).
    change (2 ^ Z.of_nat 0) with 1 in Hb. lia. }
  cbn [shift_loop]. rewrite Hn, land_1.
  inversion Hf as [| l0 st0 He Hne0 Hf0 | l0 r st0 He Hf0]; subst; [done | |].
  - pose proof He as Hm. rewrite even_mod, Z.eqb_eq in Hm. rewrite Hm. cbn [Z.eqb].
    assert (H2 : zlen (spairs l) = zlen l / 2) by apply zlen_spairs.
    pose proof (Z.div_mod (zlen l) 2 ltac:(lia)). rewrite Nat2Z.inj_succ, Z.pow_succ_r in Hb by lia.
    assert (Hl2 : (2 <= length l)%nat) by now apply even_two.
    destruct (IH (spairs l) st n (h + 1)) as (l' & Hr & Hf' & Hodd & Hroot & Hle & _); auto.
    + intros Hnil. rewrite Hnil in H2. change (zlen []) with 0 in H2. unfold zlen in *. lia.
    + lia.
    + rewrite <- Z.shiftr_shiftr, Hn, H2 by lia. rewrite Z.shiftr_div_pow2 by lia. reflexivity.
    + lia.
    + pose proof (zlen_nonneg (spairs l)). exists l'. rewrite Z.shiftr_div_pow2 by lia. change (2 ^ 1) with 2. rewrite <- H2.
      split_and!; auto; [| lia | lia].
      rewrite (merkle_root_pair l) by done. now rewrite <- spairs_even.
  - destruct (odd_snoc_mod l0 r He) as [Hm _]. rewrite Hm. cbn [Z.eqb]. exists (l0 ++ [r]).
    split_and!; auto; lia.
Qed.

Lemma forest_nil_inv l : forest l [] -> l = [].
Proof.
  intros Hf. remember (@nil bytes) as st eqn:Hst in Hf. induction Hf as [| l st He Hne Hf IH | l x st He Hf IH].
  - done.
  - specialize (IH Hst). rewrite spairs_even in IH by done. apply pair_up_nil in IH. now rewrite IH.
  - destruct st; discriminate.
Qed.

(** A single root is the root of the level. *)
Lemma forest_single l st r : forest l st -> st = [r] -> merkle_root l = Some r.
Proof.
  intros Hf. induction Hf as [| l st He Hne Hf IH | l x st He Hf IH]; intros Hst; [discriminate | |].
  - rewrite merkle_root_pair by now apply even_two.
    rewrite <- spairs_even by done. auto.
  - destruct st as [| y st]; [| destruct st; discriminate]. injection Hst as ->.
    apply forest_nil_inv in Hf. rewrite spairs_even in Hf by done. apply pair_up_nil in Hf. now subst.
Qed.

(** A level of one leaf has a single root. *)
Lemma forest_one x st : forest [x] st -> st = [x].
Proof.
  intros Hf. inversion Hf as [| l0 st0 He | l0 y st0 He Hf0 Heq]; subst; [discriminate |].
  destruct l0; [| destruct l0; discriminate]. injection Heq as ->.
  cbn [spairs] in Hf0. inversion Hf0; subst; [done | done | destruct l; discriminate].
Qed.

Lemma add_forest l st x :
  forest l st -> zlen l < 2 ^ 63 ->
  exists st', add (mkRolling st (zlen l)) x = Ok (mkRolling st' (zlen (l ++ [x]))) /\
              forest (l ++ [x]) st'.
Proof.
  intros Hf Hb. pose proof (zlen_nonneg l).
  destruct (add_loop_forest 64 l st (zlen l) 0 x) as (st' & Hr & Hf'); auto;
    try (change (Z.of_nat 64) with 64; lia).
  exists st'. unfold add. cbn [numLeaves roots]. rewrite Hr. cbn [obind].
  rewrite wrapU_small by lia. rewrite zlen_app. done.
Qed.

Lemma add_all_forest witness txs : forall i l st,
  forest l st -> zlen l + zlen txs < 2 ^ 63 ->
  exists st', add_all witness i txs (mkRolling st (zlen l)) =
      Ok (mkRolling st' (zlen (l ++ imap (fun k => leaf witness (i + k)) txs))) /\
    forest (l ++ imap (fun k => leaf witness (i + k)) txs) st'.
Proof.
  induction txs as [| tx txs IH]; intros i l st Hf Hb.
  - exists st. cbn. rewrite app_nil_r. done.
  - rewrite zlen_cons in Hb. pose proof (zlen_nonneg txs). cbn [add_all imap].
    destruct (add_forest l st (leaf witness i tx) Hf ltac:(lia)) as (st1 & -> & Hf1). cbn [obind].
    destruct (IH (S i) (l ++ [leaf witness i tx]) st1 Hf1) as (st' & -> & Hf').
    { rewrite zlen_app. change (zlen [_]) with 1. lia. }
    rewrite <- app_assoc in *. rewrite Nat.add_0_r. cbn [app] in *.
    rewrite (imap_ext _ (fun k => leaf witness (i + S k))) in Hf' |- * by (intros; f_equal; lia).
    eauto.
Qed.

(** Each round of the closing loop leaves a level of at most half the size, up
    to one hash. *)
Lemma close_loop_forest fuel : forall l st,
  forest l st -> l <> [] ->
  zlen l <= (if zlen l mod 2 =? 0 then 2 ^ (Z.of_nat fuel + 1) else 2 ^ Z.of_nat fuel) ->
  zlen l <= 2 ^ 62 ->
  exists r n, close_loop fuel (mkRolling st (zlen l)) = Ok (mkRolling [r] n) /\ merkle_root l = Some r.
Proof.
  induction fuel as [| fuel IH]; intros l st Hf Hne Hb H63.
  - assert (Hst : exists r, st = [r]).
    { destruct (zlen l mod 2 =? 0) eqn:Hm; cbn in Hb.
      - inversion Hf as [| l0 st0 He Hne0 Hf0 | l0 r st0 He Hf0]; subst; [done | |].
        + destruct l as [| a [| b [| c t]]]; try done; [| rewrite !zlen_cons in Hb; pose proof (zlen_nonneg t); lia].
          cbn [spairs] in Hf0. apply forest_one in Hf0. eauto.
        + destruct (odd_snoc_mod l0 r He) as [Ho _]. rewrite Ho in Hm. discriminate.
      - destruct l as [| a [| b t]]; [done | apply forest_one in Hf; eauto |].
        rewrite !zlen_cons in Hb. pose proof (zlen_nonneg t). lia. }
    destruct Hst as [r ->]. exists r, (zlen l). split; [reflexivity | now apply (forest_single l [r])].
  - cbn [close_loop roots numLeaves].
    destruct (Z.gtb_spec (zlen st) 1) as [Hgt | Hle].
    2: { destruct st as [| r [| r' st]]; [now apply forest_nil_inv in Hf | |].
         - exists r, (zlen l). split; [done | now apply (forest_single l [r])].
         - rewrite !zlen_cons in Hle. pose proof (zlen_nonneg st). lia. }
    destruct (shift_loop_forest 64 l st (zlen l) 0) as (l' & -> & Hf' & Hodd & Hroot & Hle' & Hhalf); auto;
      try (change (Z.of_nat 64) with 64; lia).
    cbn [obind]. rewrite <- Hroot.
    inversion Hf' as [| l0 st0 He Hne0 Hf0 | l0 x st0 He Hf0]; subst; [discriminate | |].
    { rewrite even_mod, Hodd in He. discriminate. }
    rewrite last_snoc.
    assert (Hl0 : l0 <> []).
    { intros ->. apply forest_one in Hf'. rewrite Hf' in Hgt. discriminate. }
    destruct (add_forest _ _ x Hf' ltac:(lia)) as (st' & -> & Hf2). cbn [obind].
    rewrite <- app_assoc in *. cbn [app] in *.
    rewrite <- (merkle_root_dup l0 x He Hl0).
    assert (Hz : zlen (l0 ++ [x; x]) = zlen (l0 ++ [x]) + 1) by (rewrite !zlen_app; reflexivity || (unfold zlen; cbn; lia)).
    assert (Hm2 : zlen (l0 ++ [x; x]) mod 2 = 0).
    { rewrite Hz. pose proof (Z.div_mod (zlen (l0 ++ [x])) 2 ltac:(lia)).
      replace (zlen (l0 ++ [x]) + 1) with ((zlen (l0 ++ [x]) / 2 + 1) * 2) by lia.
      apply Z.mod_mul. lia. }
    assert (Hstep : zlen (l0 ++ [x; x]) <= 2 ^ (Z.of_nat fuel + 1)).
    { rewrite Hz. rewrite Nat2Z.inj_succ in Hb.
      replace (Z.succ (Z.of_nat fuel) + 1) with (Z.succ (Z.of_nat fuel + 1)) in Hb by lia.
      replace (Z.succ (Z.of_nat fuel)) with (Z.of_nat fuel + 1) in Hb by lia.
      rewrite Z.pow_succ_r in Hb by lia.
      assert (Hev : 2 ^ (Z.of_nat fuel + 1) = 2 * 2 ^ Z.of_nat fuel)
        by (rewrite Z.pow_add_r by lia; lia).
      assert (Hup : zlen (l0 ++ [x]) <= 2 ^ (Z.of_nat fuel + 1)).
      { destruct (Z.eqb_spec (zlen l mod 2) 0) as [Hm | Hm]; [specialize (Hhalf Hm); lia | lia]. }
      rewrite Hev in *. pose proof (Z.div_mod (zlen (l0 ++ [x])) 2 ltac:(lia)). lia. }
    destruct (IH (l0 ++ [x; x]) st' Hf2) as (r & n & Hr & Hroot2).
    { destruct l0; discriminate. }
    { rewrite Hm2. exact Hstep. }
    { rewrite Hz. pose proof (Z.div_mod (zlen (l0 ++ [x])) 2 ltac:(lia)). lia. }
    eauto.
Qed.
End Rolling.

Section Roots.
Context `{Crypto}.

Lemma leaves_snoc witness txs tx :
  leaves witness (txs ++ [tx]) = leaves witness txs ++ [leaf witness (length txs) tx].
Proof. unfold leaves. rewrite imap_app. cbn. now rewrite Nat.add_0_r. Qed.

Lemma zlen_leaves witness txs : zlen (leaves witness txs) = zlen txs.
Proof. unfold zlen, leaves. now rewrite length_imap. Qed.

Lemma CalcMerkleRoot_ok witness txs :
  txs <> [] -> zlen txs < 2 ^ 62 ->
  exists r, CalcMerkleRoot txs witness = Ok r /\ merkle_root (leaves witness txs) = Some r.
Proof.
  intros Hne Hb. pose proof (zlen_nonneg txs). unfold CalcMerkleRoot, calcMerkleRoot.
  destruct (add_all_forest witness txs 0 [] [] forest_nil) as (st & Hadd & Hf).
  { change (zlen []) with 0. lia. }
  change (add_all witness 0 txs (mkRolling [] (zlen [])))
    with (add_all witness 0 txs newRollingMerkleTreeStore) in Hadd.
  rewrite Hadd. cbn [obind app numLeaves] in *. change (imap _ txs) with (leaves witness txs) in *.
  pose proof (zlen_leaves witness txs) as Hz.
  destruct txs as [| tx txs _] using rev_ind; [done |]. rewrite last_snoc, leaves_snoc in *.
  set (l := leaves witness txs) in *. set (x := leaf witness (length txs) tx) in *.
  destruct (Z.eqb_spec (zlen (l ++ [x])) 1) as [H1 | H1].
  { assert (l = []) as Hl by (apply zlen_0_nil; rewrite zlen_app in H1; change (zlen [x]) with 1 in H1; lia).
    rewrite Hl in *. cbn [app] in *. apply forest_one in Hf. subst st. eexists. split; reflexivity. }
  assert (Hlne : l <> []) by (intros ->; done).
  destruct (Z.eqb_spec (zlen (txs ++ [tx]) mod 2) 0) as [Hm | Hm].
  - cbn [obind]. rewrite <- Hz in Hm, Hb.
    destruct (close_loop_forest 64 (l ++ [x]) st Hf) as (r & n & -> & Hr); [| | lia | eauto].
    { destruct l; discriminate. }
    { rewrite Hm. cbn [Z.eqb]. change (Z.of_nat 64 + 1) with 65. lia. }
  - assert (Hleaf : (if witness then WitnessHash tx else TxHash tx) = x).
    { unfold x, leaf. destruct txs as [| t0 txs]; [now subst l |]. now rewrite andb_false_r. }
    rewrite Hleaf. rewrite <- Hz in Hm, Hb.
    assert (He : Nat.even (length l) = true).
    { rewrite even_mod. rewrite zlen_app in Hm. change (zlen [x]) with 1 in Hm.
      pose proof (Z.mod_pos_bound (zlen l) 2 ltac:(lia)). apply Z.eqb_eq.
      destruct (parity_cases (zlen l)) as [? | Ho]; [done |]. exfalso. apply Hm.
      rewrite Z.add_mod, Ho by lia. reflexivity. }
    destruct (add_forest (l ++ [x]) st x Hf ltac:(lia)) as (st' & -> & Hf'). cbn [obind].
    rewrite <- app_assoc in *. cbn [app] in *. rewrite <- (merkle_root_dup l x He Hlne).
    destruct (close_loop_forest 64 (l ++ [x; x]) st' Hf') as (r & n & -> & Hr); [| | | eauto].
    { destruct l; discriminate. }
    { rewrite zlen_app in *. change (zlen [x; x]) with 2. change (zlen [x]) with 1 in Hb.
      change (Z.of_nat 64 + 1) with 65. change (Z.of_nat 64) with 64.
      assert (zlen l + 2 <= 2 ^ 62 + 2) by lia. destruct (_ =? 0); lia. }
    { rewrite zlen_app in *. change (zlen [x; x]) with 2. change (zlen [x]) with 1 in Hb. lia. }
Qed.

(** ** The tree in an array *)

(** The hashes still to be paired, as a queue. *)
Fixpoint queue_loop (n : nat) (q : list (option bytes)) : list (option bytes) :=
  match n with
  | O => q
  | S n' =>
      match q with l :: r :: q' => queue_loop n' (q' ++ [hash_pair l r]) | _ => q end
  end.

(** The loop fills the array from left to right, reading two entries each time. *)
Lemma tree_loop_queue n : forall done q,
  (n + 1 <= length q)%nat ->
  exists filled,
    tree_loop n (done ++ q ++ replicate n None) (length done) (length done + length q) =
      Ok (filled ++ queue_loop n q) /\ length (filled ++ queue_loop n q) = (length done + length q + n)%nat.
Proof.
  induction n as [| n IH]; intros done q Hq.
  { exists done. cbn. rewrite app_nil_r, length_app. split; [done | lia]. }
  destruct q as [| l [| r q]]; cbn [length] in Hq; [lia | lia |].
  cbn [tree_loop queue_loop app].
  rewrite list_lookup_middle by done.
  replace (done ++ l :: r :: q ++ replicate (S n) None) with ((done ++ [l]) ++ r :: q ++ replicate (S n) None)
    by now rewrite <- app_assoc.
  rewrite (list_lookup_middle (done ++ [l]) _ r) by (rewrite length_app; cbn; lia).
  replace (_ <? _)%nat with true
    by (rewrite !length_app; cbn [length]; rewrite length_app, length_replicate; symmetry; apply Nat.ltb_lt; cbn; lia).
  destruct (IH (done ++ [l; r]) (q ++ [hash_pair l r])) as (filled & Hr & Hlen).
  { rewrite length_app. cbn. lia. }
  rewrite !length_app in Hr, Hlen. cbn [length] in Hr, Hlen. exists filled. split.
  - rewrite <- Hr. f_equal; [| cbn; lia].
    replace ((done ++ [l]) ++ r :: q ++ replicate (S n) None)
      with ((done ++ l :: r :: q) ++ None :: replicate n None) by (rewrite <- !app_assoc; done).
    rewrite insert_app_r_alt by (rewrite length_app; cbn; lia).
    replace (_ - _)%nat with 0%nat by (rewrite length_app; cbn; lia).
    cbn. rewrite <- !app_assoc. done.
  - rewrite length_app, Hlen, length_app. cbn [length]. lia.
Qed.

(** A level of the array. *)
Fixpoint opairs (q : list (option bytes)) : list (option bytes) :=
  match q with l :: r :: q' => hash_pair l r :: opairs q' | _ => [] end.

Lemma queue_loop_level lvl : forall acc m k,
  length lvl = (2 * k)%nat -> queue_loop (k + m) (lvl ++ acc) = queue_loop m (acc ++ opairs lvl).
Proof.
  induction lvl as [| a | l r lvl IH] using pair_ind; intros acc m k Hk; cbn [length] in Hk.
  - replace k with 0%nat by lia. cbn. now rewrite app_nil_r.
  - lia.
  - destruct k as [| k]; [lia |]. cbn [Nat.add app queue_loop opairs].
    rewrite <- app_assoc, (IH (acc ++ [hash_pair l r]) m k) by lia. now rewrite <- app_assoc.
Qed.

Lemma opairs_none k : forall m, m = (2 * k)%nat -> opairs (replicate m None) = replicate k None.
Proof.
  induction k as [| k IH]; intros m ->; [done |].
  replace (2 * S k)%nat with (S (S (2 * k))) by lia. cbn [replicate opairs hash_pair]. now rewrite IH.
Qed.

Lemma opairs_padded l : forall k m,
  (length l + m = 2 * k)%nat ->
  exists m', opairs (map Some l ++ replicate m None) = map Some (pair_up l) ++ replicate m' None /\
             (length (pair_up l) + m' = k)%nat.
Proof.
  induction l as [| a | a b r IH] using pair_ind; intros k m Hm; cbn [length] in Hm.
  - exists k. split; [| done]. now apply opairs_none.
  - destruct m as [| m]; [lia |]. destruct k as [| k]; [lia |]. exists k. cbn. split; [| done].
    f_equal. apply opairs_none. lia.
  - destruct k as [| k]; [lia |]. destruct (IH k m) as (m' & Hr & Hl); [lia |].
    exists m'. cbn [map app opairs pair_up hash_pair]. rewrite Hr. cbn. split; [done | lia].
Qed.

(** From a level of [2^k] entries to the root. *)
Lemma queue_loop_root k : forall l m,
  (length l + m = 2 ^ k)%nat -> (2 ^ k < 2 * length l)%nat ->
  exists r, queue_loop (2 ^ k - 1) (map Some l ++ replicate m None) = [Some r] /\ merkle_root l = Some r.
Proof.
  induction k as [| k IH]; intros l m Hl Hm.
  - cbn in Hl, Hm. destruct l as [| x [| y l]]; cbn in *; try lia.
    exists x. replace m with 0%nat by lia. done.
  - rewrite Nat.pow_succ_r' in *. pose proof (Nat.pow_nonzero 2 k ltac:(lia)).
    replace (2 * 2 ^ k - 1)%nat with (2 ^ k + (2 ^ k - 1))%nat by lia.
    rewrite <- (app_nil_r (map Some l ++ _)), (queue_loop_level _ [] _ (2 ^ k))
      by (rewrite length_app, length_map, length_replicate; lia).
    destruct (opairs_padded l (2 ^ k) m Hl) as (m' & -> & Hl'). cbn [app].
    pose proof (length_pair_up_bounds l).
    destruct (IH (pair_up l) m' Hl' ltac:(lia)) as (r & Hq & Hr). exists r. split; [done |].
    now rewrite merkle_root_pair by lia.
Qed.

Lemma land_pred_pow n : 0 < n -> (Z.land n (n - 1) = 0 <-> n = 2 ^ Z.log2 n).
Proof.
  intros Hn. pose proof (Z.log2_spec n Hn) as [Hlo Hhi]. pose proof (Z.log2_nonneg n).
  set (k := Z.log2 n) in *. rewrite Z.pow_succ_r in Hhi by lia. split.
  - intros Hz. destruct (Z.eq_dec n (2 ^ k)) as [| Hne]; [done |]. exfalso.
    assert (Hb : forall x, 2 ^ k <= x < 2 * 2 ^ k -> Z.testbit x k = true).
    { intros x Hx. rewrite Z.testbit_true by lia.
      replace (x / 2 ^ k) with 1; [done |]. apply (Z.div_unique x (2 ^ k) 1 (x - 2 ^ k)); lia. }
    assert (Ht : Z.testbit (Z.land n (n - 1)) k = true)
      by (rewrite Z.land_spec, !Hb by lia; done).
    rewrite Hz, Z.bits_0 in Ht. discriminate.
  - intros Hk. clearbody k. subst n. replace (2 ^ k - 1) with (Z.ones k) by (rewrite Z.ones_equiv; lia).
    rewrite Z.land_ones by lia. apply Z.mod_same. lia.
Qed.

Lemma nextPowerOfTwo_spec n :
  0 < n -> exists k : nat, nextPowerOfTwo n = 2 ^ Z.of_nat k /\ n <= 2 ^ Z.of_nat k < 2 * n.
Proof.
  intros Hn. pose proof (Z.log2_spec n Hn) as [Hlo Hhi]. pose proof (Z.log2_nonneg n) as Hk.
  pose proof (land_pred_pow n Hn) as Hland. unfold nextPowerOfTwo.
  destruct (Z.eqb_spec (Z.land n (n - 1)) 0) as [Hz | Hz].
  - apply Hland in Hz. exists (Z.to_nat (Z.log2 n)). rewrite Z2Nat.id by lia. lia.
  - exists (Z.to_nat (Z.log2 n + 1)). rewrite Z2Nat.id, Z.shiftl_1_l by lia.
    assert (n <> 2 ^ Z.log2 n) by (intros He; apply Hz; now apply Hland).
    rewrite Z.pow_add_r by lia. rewrite Z.pow_succ_r in Hhi by lia. lia.
Qed.

Lemma BuildMerkleTreeStore_ok witness txs :
  txs <> [] ->
  exists store r, BuildMerkleTreeStore txs witness = Ok store /\ last store = Some (Some r) /\
    zlen store = 2 * nextPowerOfTwo (zlen txs) - 1 /\ merkle_root (leaves witness txs) = Some r.
Proof.
  intros Hne.
  assert (Hpos : 0 < zlen txs) by (destruct txs; [done |]; rewrite zlen_cons; pose proof (zlen_nonneg txs); lia).
  destruct (nextPowerOfTwo_spec (zlen txs) Hpos) as (k & Hk & Hlo & Hhi).
  unfold BuildMerkleTreeStore. rewrite Hk.
  assert (HP : 2 ^ Z.of_nat k = Z.of_nat (2 ^ k)) by (now rewrite Nat2Z.inj_pow).
  rewrite HP in *. pose proof (Nat.pow_nonzero 2 k ltac:(lia)). unfold zlen in *.
  replace (Z.of_nat (2 ^ k) * 2 - 1 <? 0) with false by lia.
  assert (Hleaves : imap (fun i tx => Some (leaf witness i tx)) txs = map Some (leaves witness txs)).
  { unfold leaves. symmetry. apply (fmap_imap (leaf witness) Some). }
  rewrite Hleaves, length_map. set (l := leaves witness txs).
  assert (Hl : length l = length txs) by apply length_imap.
  assert (Hrounds : Z.to_nat ((Z.of_nat (2 ^ k) * 2 - 1) / 2) = (2 ^ k - 1)%nat).
  { replace (Z.of_nat (2 ^ k) * 2 - 1) with (1 + (Z.of_nat (2 ^ k) - 1) * 2) by lia.
    rewrite Z.div_add by lia. change (1 / 2) with 0. lia. }
  rewrite Hrounds, Nat2Z.id.
  destruct (queue_loop_root k l (2 ^ k - length l)) as (r & Hq & Hr); [lia | lia |].
  pose proof (tree_loop_queue (2 ^ k - 1) [] (map Some l ++ replicate (2 ^ k - length l) None)) as Ht.
  rewrite length_app, length_map, length_replicate in Ht.
  destruct Ht as (filled & Hrun & Hlen); [lia |]. cbn [app length Nat.add] in Hrun, Hlen.
  rewrite <- app_assoc, <- replicate_add in Hrun. rewrite Hq in *.
  replace (length l + (2 ^ k - length l))%nat with (2 ^ k)%nat in * by lia.
  replace (Z.to_nat (Z.of_nat (2 ^ k) * 2 - 1) - length l)%nat
    with (2 ^ k - length l + (2 ^ k - 1))%nat by lia.
  rewrite Hrun. eexists _, r. split; [reflexivity |]. rewrite last_snoc.
  split_and!; [done | lia | done].
Qed.
End Roots.

(** * What a root commits to *)

Section Binding.
Context `{CryptoLaws}.

(** The strings that are hashed for the level above. *)
Fixpoint pre_pairs (l : list bytes) : list bytes :=
  match l with
  | a :: b :: r => (a ++ b) :: pre_pairs r
  | [a] => [a ++ a]
  | [] => []
  end.

(** The strings that are hashed between the leaves and the root. *)
Fixpoint interior (fuel : nat) (l : list bytes) : list bytes :=
  match l with
  | [] | [_] => []
  | _ => match fuel with O => [] | S fuel' => pre_pairs l ++ interior fuel' (pair_up l) end
  end.

(** Every string that is hashed for the Merkle root of the transactions. *)
Definition hashed (txs : list MsgTx) : list bytes :=
  map SerializeNoWitness txs ++ interior (length txs) (map TxHash txs).

(** No two of these strings have the same hash. *)
Definition collision_free (strings : list bytes) : Prop :=
  forall a b, a ∈ strings -> b ∈ strings -> DoubleHashB a = DoubleHashB b -> a = b.

Definition is_hash (h : bytes) : Prop := zlen h = 32.

Lemma DoubleHashB_len b : is_hash (DoubleHashB b).
Proof. apply sha256_len. Qed.

Lemma collision_free_sub l k : l ⊆ k -> collision_free k -> collision_free l.
Proof. intros Hs Hk a b Ha Hb. apply Hk; now apply Hs. Qed.

Lemma collision_free_map l k :
  collision_free (l ++ k) -> map DoubleHashB l = map DoubleHashB k -> l = k.
Proof.
  revert k. induction l as [| a l IH]; intros [| b k] Hc Heq; try discriminate; [done |].
  injection Heq as Hab Hlk. f_equal.
  - apply Hc; [set_solver | set_solver | done].
  - apply IH; [| done]. eapply collision_free_sub; [| exact Hc]. set_solver.
Qed.

Lemma pair_up_pre l : pair_up l = map DoubleHashB (pre_pairs l).
Proof.
  induction l as [| a | a b r IH] using pair_ind; [done | done |]. cbn [pair_up pre_pairs map].
  now rewrite IH.
Qed.

Lemma is_hash_app a b c d :
  is_hash a -> is_hash c -> a ++ b = c ++ d -> a = c /\ b = d.
Proof. unfold is_hash, zlen. intros Ha Hc. apply app_inj_1. lia. Qed.

Lemma elem_of_pre_pairs x l : x ∈ pre_pairs l -> exists a b, a ∈ l /\ b ∈ l /\ x = a ++ b.
Proof.
  induction l as [| a | a b r IH] using pair_ind; cbn [pre_pairs].
  - set_solver.
  - intros Hx. exists a, a. set_solver.
  - intros [-> | Hx]%elem_of_cons; [exists a, b; set_solver |].
    destruct (IH Hx) as (a' & b' & ? & ? & ->). exists a', b'. set_solver.
Qed.

Lemma pre_pairs_len x l : Forall is_hash l -> x ∈ pre_pairs l -> zlen x = 64.
Proof.
  intros Hl Hx. destruct (elem_of_pre_pairs x l Hx) as (a & b & Ha & Hb & ->).
  rewrite Forall_forall in Hl. rewrite zlen_app, (Hl a Ha), (Hl b Hb). done.
Qed.

Lemma NoDup_pre_pairs l : Forall is_hash l -> NoDup l -> NoDup (pre_pairs l).
Proof.
  induction l as [| a | a b r IH] using pair_ind; intros Hl Hn; cbn [pre_pairs].
  - constructor.
  - apply NoDup_singleton.
  - apply Forall_cons in Hl as [Ha [Hb Hr]%Forall_cons].
    apply NoDup_cons in Hn as [Hna [Hnb Hn]%NoDup_cons]. constructor; [| auto].
    intros Hx. destruct (elem_of_pre_pairs _ _ Hx) as (c & d & Hc & Hd & Heq).
    rewrite Forall_forall in Hr. apply is_hash_app in Heq as [-> ->]; auto.
Qed.

(** Without duplicates the pairs determine the level. *)
Lemma pre_pairs_inj l : forall k,
  Forall is_hash l -> Forall is_hash k -> NoDup l -> NoDup k -> pre_pairs l = pre_pairs k -> l = k.
Proof.
  assert (Hne : forall a b (r : list bytes), NoDup (a :: b :: r) -> a <> b).
  { intros a b r Hn ->. apply NoDup_cons in Hn as [Hn _]. set_solver. }
  induction l as [| a | a b r IH] using pair_ind; intros k Hl Hk Hnl Hnk Heq.
  - destruct k as [| c [| d k]]; [done | discriminate | discriminate].
  - destruct k as [| c [| d k]]; cbn [pre_pairs] in Heq; [discriminate | |];
      injection Heq as Heq; apply Forall_cons in Hl as [Ha _], Hk as [Hc Hk].
    + apply is_hash_app in Heq as [-> _]; done.
    + apply is_hash_app in Heq as [-> ->]; [| done | done]. now destruct (Hne _ _ _ Hnk).
  - apply Forall_cons in Hl as [Ha [Hb Hr]%Forall_cons].
    destruct k as [| c [| d k]]; cbn [pre_pairs] in Heq; [discriminate | |].
    + injection Heq as Heq Hnil. apply Forall_cons in Hk as [Hc _].
      apply is_hash_app in Heq as [<- <-]; [| done | done]. now destruct (Hne _ _ _ Hnl).
    + injection Heq as Heq Htail. apply Forall_cons in Hk as [Hc [Hd Hk]%Forall_cons].
      apply is_hash_app in Heq as [-> ->]; [| done | done]. do 2 f_equal.
      apply NoDup_cons in Hnl as [_ [_ Hnl]%NoDup_cons], Hnk as [_ [_ Hnk]%NoDup_cons]. now apply IH.
Qed.

(** ** Levels and the strings between them *)

Fixpoint ups (n : nat) (l : list bytes) : list bytes :=
  match n with O => l | S n' => ups n' (pair_up l) end.

Fixpoint inner (n : nat) (l : list bytes) : list bytes :=
  match n with O => [] | S n' => pre_pairs l ++ inner n' (pair_up l) end.

Lemma ups_nil n : ups n [] = [].
Proof. induction n; done. Qed.

Lemma ups_add m n l : ups (m + n) l = ups n (ups m l).
Proof. revert l. induction m as [| m IH]; intros l; [done | apply IH]. Qed.

Lemma inner_add m n l : inner (m + n) l = inner m l ++ inner n (ups m l).
Proof. revert l. induction m as [| m IH]; intros l; [done |]. cbn. now rewrite IH, app_assoc. Qed.

Lemma root_fuel_ups fuel : forall l r,
  root_fuel fuel l = Some r -> exists n, ups n l = [r] /\ interior fuel l = inner n l.
Proof.
  induction fuel as [| fuel IH]; intros l r Hr; destruct l as [| a [| b l]]; cbn [root_fuel] in Hr;
    try discriminate; try (exists 0%nat; cbn; split; congruence).
  destruct (IH _ _ Hr) as (n & Hn & Hi). exists (S n). split; [done |].
  cbn [interior inner]. now rewrite Hi.
Qed.

Lemma pair_up_hashes l : Forall is_hash (pair_up l).
Proof. rewrite pair_up_pre. apply Forall_map, Forall_true. intros x. apply DoubleHashB_len. Qed.

Lemma NoDup_pair_up l :
  Forall is_hash l -> NoDup l -> collision_free (pre_pairs l) -> NoDup (pair_up l).
Proof.
  intros Hl Hn Hc. rewrite pair_up_pre. apply NoDup_fmap_2_strong; [| now apply NoDup_pre_pairs].
  intros a b Ha Hb. now apply Hc.
Qed.

Lemma ups_ok n : forall l,
  Forall is_hash l -> NoDup l -> collision_free (inner n l) ->
  Forall is_hash (ups n l) /\ NoDup (ups n l).
Proof.
  induction n as [| n IH]; intros l Hl Hn Hc; [done |]. cbn [ups inner] in *. apply IH.
  - apply pair_up_hashes.
  - apply NoDup_pair_up; [done | done |]. eapply collision_free_sub; [| exact Hc]. set_solver.
  - eapply collision_free_sub; [| exact Hc]. set_solver.
Qed.

Lemma ups_inj n : forall l k,
  Forall is_hash l -> Forall is_hash k -> NoDup l -> NoDup k ->
  collision_free (inner n l ++ inner n k) -> ups n l = ups n k -> l = k.
Proof.
  induction n as [| n IH]; intros l k Hl Hk Hnl Hnk Hc Heq; [done |]. cbn [ups inner] in *.
  assert (Hup : pair_up l = pair_up k).
  { apply IH; [apply pair_up_hashes .. | | | | done].
    - apply NoDup_pair_up; [done | done |]. eapply collision_free_sub; [| exact Hc]. set_solver.
    - apply NoDup_pair_up; [done | done |]. eapply collision_free_sub; [| exact Hc]. set_solver.
    - eapply collision_free_sub; [| exact Hc]. set_solver. }
  rewrite !pair_up_pre in Hup. apply pre_pairs_inj; auto. apply collision_free_map; [| done].
  eapply collision_free_sub; [| exact Hc]. set_solver.
Qed.

(** A tree of transactions is not the top of a higher tree: its leaves are not
    hashes of 64 bytes. *)
Lemma ups_higher pre n d k r :
  Forall (fun p => zlen p <> 64) pre -> Forall is_hash k -> NoDup (map DoubleHashB pre) -> NoDup k ->
  collision_free (pre ++ inner n (map DoubleHashB pre) ++ inner (S d + n) k) ->
  ups n (map DoubleHashB pre) = [r] -> ups (S d + n) k = [r] -> False.
Proof.
  intros Hpre Hk Hnp Hnk Hc Hup1 Hup2. rewrite inner_add in Hc. rewrite ups_add in Hup2.
  assert (Hpl : Forall is_hash (map DoubleHashB pre))
    by (apply Forall_map, Forall_true; intros x; apply DoubleHashB_len).
  destruct (ups_ok (S d) k Hk Hnk) as [Hh Hn].
  { eapply collision_free_sub; [| exact Hc]. set_solver. }
  assert (Heq : map DoubleHashB pre = ups (S d) k).
  { apply (ups_inj n); auto; [| congruence]. eapply collision_free_sub; [| exact Hc]. set_solver. }
  rewrite <- Nat.add_1_r, ups_add in Heq. rewrite <- Nat.add_1_r, inner_add in Hc.
  destruct (ups_ok d k Hk Hnk) as [Hd _].
  { eapply collision_free_sub; [| exact Hc]. set_solver. }
  cbn [ups inner] in Heq, Hc. set (k' := ups d k) in *. rewrite pair_up_pre in Heq.
  destruct pre as [| p pre]; [cbn [map] in Hup1; rewrite ups_nil in Hup1; discriminate |].
  destruct (pre_pairs k') as [| q qs] eqn:Hq; [discriminate |]. injection Heq as Hpq _.
  assert (Hqin : q ∈ pre_pairs k') by (rewrite Hq; set_solver).
  apply Forall_cons in Hpre as [Hp _]. apply Hp.
  rewrite (Hc p q); [| set_solver | set_solver | done]. now apply (pre_pairs_len q k').
Qed.

Lemma leaves_ids txs : leaves false txs = map TxHash txs.
Proof.
  unfold leaves. rewrite (imap_ext _ (fun _ tx => TxHash tx)) by done. apply imap_const.
Qed.

Lemma Calc_levels txs r :
  zlen txs < 2 ^ 62 -> CalcMerkleRoot txs false = Ok r ->
  exists n, ups n (map DoubleHashB (map SerializeNoWitness txs)) = [r] /\
            hashed txs = map SerializeNoWitness txs ++
                         inner n (map DoubleHashB (map SerializeNoWitness txs)).
Proof.
  intros Hb Hr. assert (Hne : txs <> []) by (intros ->; discriminate).
  destruct (CalcMerkleRoot_ok false txs Hne Hb) as (r' & Hr' & Hm).
  rewrite Hr in Hr'. injection Hr' as <-. rewrite leaves_ids in Hm. unfold merkle_root in Hm.
  rewrite length_map in Hm. destruct (root_fuel_ups _ _ _ Hm) as (n & Hn & Hi).
  assert (Hmap : map TxHash txs = map DoubleHashB (map SerializeNoWitness txs)) by now rewrite map_map.
  exists n. unfold hashed. rewrite Hi, <- Hmap. done.
Qed.

Lemma root_determines txs1 txs2 r :
  collision_free (hashed txs1 ++ hashed txs2) ->
  Forall (fun tx => zlen (SerializeNoWitness tx) <> 64) (txs1 ++ txs2) ->
  NoDup (map TxHash txs1) -> NoDup (map TxHash txs2) ->
  zlen txs1 < 2 ^ 62 -> zlen txs2 < 2 ^ 62 ->
  CalcMerkleRoot txs1 false = Ok r -> CalcMerkleRoot txs2 false = Ok r ->
  map SerializeNoWitness txs1 = map SerializeNoWitness txs2.
Proof.
  intros Hc H64 Hn1 Hn2 Hb1 Hb2 Hr1 Hr2.
  destruct (Calc_levels txs1 r Hb1 Hr1) as (n1 & Hu1 & Hh1).
  destruct (Calc_levels txs2 r Hb2 Hr2) as (n2 & Hu2 & Hh2).
  assert (Hmap : forall txs, map TxHash txs = map DoubleHashB (map SerializeNoWitness txs))
    by (intros txs; now rewrite map_map).
  rewrite Hh1, Hh2 in Hc. rewrite Hmap in Hn1, Hn2. apply Forall_app in H64 as [H1 H2].
  apply (Forall_map SerializeNoWitness (fun p => zlen p <> 64)) in H1, H2. set (p1 := map SerializeNoWitness txs1) in *.
  set (p2 := map SerializeNoWitness txs2) in *.
  assert (Hash : forall p, Forall is_hash (map DoubleHashB p))
    by (intros p; apply Forall_map, Forall_true; intros x; apply DoubleHashB_len).
  destruct (Nat.lt_trichotomy n1 n2) as [Hlt | [-> | Hlt]].
  - exfalso. destruct (Nat.le_exists_sub (S n1) n2 Hlt) as (d & -> & _).
    replace (d + S n1)%nat with (S d + n1)%nat in * by lia.
    apply (ups_higher p1 n1 d (map DoubleHashB p2) r); auto.
    eapply collision_free_sub; [| exact Hc]. set_solver.
  - apply collision_free_map; [eapply collision_free_sub; [| exact Hc]; set_solver |].
    apply (ups_inj n2); auto; [| congruence]. eapply collision_free_sub; [| exact Hc]. set_solver.
  - exfalso. destruct (Nat.le_exists_sub (S n2) n1 Hlt) as (d & -> & _).
    replace (d + S n2)%nat with (S d + n2)%nat in * by lia.
    apply (ups_higher p2 n2 d (map DoubleHashB p1) r); auto.
    eapply collision_free_sub; [| exact Hc]. set_solver.
Qed.

Lemma root_of_duplicate txs tx :
  Nat.even (length txs) = true -> txs <> [] -> zlen txs < 2 ^ 61 ->
  CalcMerkleRoot (txs ++ [tx; tx]) false = CalcMerkleRoot (txs ++ [tx]) false.
Proof.
  intros He Hne Hb.
  assert (Hnn : forall l : list MsgTx, txs ++ l <> []) by (intros l; destruct txs; done).
  destruct (CalcMerkleRoot_ok false (txs ++ [tx; tx]) (Hnn _)) as (r & -> & Hr);
    [rewrite zlen_app; change (zlen [tx; tx]) with 2; lia |].
  destruct (CalcMerkleRoot_ok false (txs ++ [tx]) (Hnn _)) as (r' & -> & Hr');
    [rewrite zlen_app; change (zlen [tx]) with 1; lia |].
  rewrite leaves_ids, map_app in Hr, Hr'. cbn [map] in Hr, Hr'.
  rewrite merkle_root_dup in Hr; [congruence | now rewrite length_map | destruct txs; done].
Qed.
End Binding.

(** * The claims *)

(** The two computations of a Merkle root agree with the reference
    definition.  For every non-empty list of transactions, with their ids or
    their witness ids as leaves, [CalcMerkleRoot] ends without a panic, the
    array of [BuildMerkleTreeStore] has the announced size, and its last
    entry, the rolling result and [merkle_root] are the same hash; on no
    transactions both panic. *)
Lemma merkle_roots_agree `{Crypto} witness :
  (forall txs, txs <> [] -> zlen txs < 2 ^ 62 ->
     exists r store,
       merkle_root (leaves witness txs) = Some r /\
       CalcMerkleRoot txs witness = Ok r /\
       BuildMerkleTreeStore txs witness = Ok store /\ last store = Some (Some r) /\
       zlen store = 2 * nextPowerOfTwo (zlen txs) - 1) /\
  CalcMerkleRoot [] witness = Panic /\ BuildMerkleTreeStore [] witness = Panic.
Proof.
  split; [| split; reflexivity]. intros txs Hne Hb.
  destruct (CalcMerkleRoot_ok witness txs Hne Hb) as (r & Hc & Hr).
  destruct (BuildMerkleTreeStore_ok witness txs Hne) as (store & r' & Hs & Hl & Hz & Hr').
  rewrite Hr in Hr'. injection Hr' as <-. exists r, store. done.
Qed.

Definition three_txs : list MsgTx := [stale_tx 0; stale_tx 1; stale_tx 2].

Lemma merkle_roots_agree_witness :
  let H := toy_crypto in
  exists r store, CalcMerkleRoot three_txs true = Ok r /\
    BuildMerkleTreeStore three_txs true = Ok store /\ last store = Some (Some r) /\ zlen store = 7.
Proof.
  intros H. destruct (merkle_roots_agree true) as [Hall _].
  destruct (Hall three_txs) as (r & store & _ & Hc & Hb & Hl & Hz); [discriminate | reflexivity |].
  exists r, store. done.
Defined.

(** C35: a Merkle root commits to the transactions below it.  When no two of the
    strings hashed for the two roots collide, no transaction has 64 bytes
    without its witnesses, and neither list has a transaction twice, lists of
    any two lengths with the same root serialize to the same transactions.
    Without the test for duplicates this fails: listing the last of an odd
    number of at least three transactions twice does not change the root.  (For
    one transaction it does: its root is its own hash.) *)
Theorem merkle_commits `{CryptoLaws} :
  (forall txs1 txs2 r,
     collision_free (hashed txs1 ++ hashed txs2) ->
     Forall (fun tx => zlen (SerializeNoWitness tx) <> 64) (txs1 ++ txs2) ->
     NoDup (map TxHash txs1) -> NoDup (map TxHash txs2) ->
     zlen txs1 < 2 ^ 62 -> zlen txs2 < 2 ^ 62 ->
     CalcMerkleRoot txs1 false = Ok r -> CalcMerkleRoot txs2 false = Ok r ->
     map SerializeNoWitness txs1 = map SerializeNoWitness txs2) /\
  (forall txs tx, Nat.even (length txs) = true -> txs <> [] -> zlen txs < 2 ^ 61 ->
     CalcMerkleRoot (txs ++ [tx; tx]) false = CalcMerkleRoot (txs ++ [tx]) false).
Proof.
  split; [exact root_determines | exact root_of_duplicate].
Qed.

(** The same transaction without its witnesses. *)
Definition stripped_tx : MsgTx := mkMsgTx 1 (strip <$> TxIns example_tx) (TxOuts example_tx) 0.

Lemma merkle_commits_witness :
  let H := toy_crypto in
  stripped_tx <> stale_tx 0 /\
  map SerializeNoWitness [stale_tx 0] = map SerializeNoWitness [stripped_tx] /\
  CalcMerkleRoot (three_txs ++ [stale_tx 2]) false = CalcMerkleRoot three_txs false.
Proof.
  intros H. destruct (@merkle_commits H toy_laws) as [Hdet Hdup]. split; [discriminate |]. split.
  - apply (Hdet _ _ (TxHash (stale_tx 0))); try reflexivity; try apply NoDup_singleton.
    + intros a b Ha Hb _. cbn [hashed app map interior length] in Ha, Hb.
      rewrite !elem_of_cons, elem_of_nil in Ha, Hb.
      change (SerializeNoWitness stripped_tx) with (SerializeNoWitness (stale_tx 0)) in *.
      intuition congruence.
    + repeat constructor; vm_compute; discriminate.
  - apply (Hdup [stale_tx 0; stale_tx 1] (stale_tx 2)); [reflexivity | discriminate | reflexivity].
Defined.
