(* ===== verification/WorkMath.v ===== *)
(** Difficulty bits, targets and work
    (src/btcd/blockchain/internal/workmath/difficulty.go).  A big.Int is an
    integer; [Bits()[0]] is the lowest 64-bit word of its absolute value. *)

From S2P Require Import Prelude.

(** * The code *)

Definition oneLsh256 : Z := Z.shiftl 1 256.

Definition HashToBig (hash : bytes) : Z := le_val hash.

Definition CompactToBig (compact : Z) : Z :=
  let mantissa := Z.land compact 0x007fffff in
  let isNegative := negb (Z.land compact 0x00800000 =? 0) in
  let exponent := Z.shiftr compact 24 in
  let bn := if exponent <=? 3 then Z.shiftr mantissa (8 * (3 - exponent))
            else Z.shiftl mantissa (8 * (exponent - 3)) in
  if isNegative then - bn else bn.

(** [len(n.Bytes())] *)
Definition byte_len (n : Z) : Z := if n =? 0 then 0 else Z.log2 (Z.abs n) / 8 + 1.

Definition word0 (n : Z) : Z := Z.abs n mod 2 ^ 64.

Definition BigToCompact (n : Z) : Z :=
  if n =? 0 then 0 else
  let exponent := byte_len n in
  let mantissa :=
    if exponent <=? 3 then uint32 (Z.shiftl (uint32 (word0 n)) (8 * (3 - exponent)))
    else uint32 (word0 (Z.shiftr n (8 * (exponent - 3)))) in
  let '(mantissa, exponent) :=
    if negb (Z.land mantissa 0x00800000 =? 0) then (Z.shiftr mantissa 8, exponent + 1)
    else (mantissa, exponent) in
  let compact := Z.lor (uint32 (Z.shiftl exponent 24)) mantissa in
  if n <? 0 then Z.lor compact 0x00800000 else compact.

Definition CalcWork (bits : Z) : Z :=
  let difficultyNum := CompactToBig bits in
  if difficultyNum <=? 0 then 0 else oneLsh256 / (difficultyNum + 1).

Example compact_genesis : CompactToBig 0x1d00ffff = 0xffff * 2 ^ 208 /\
  BigToCompact (0xffff * 2 ^ 208) = 0x1d00ffff /\ CalcWork 0x1d00ffff = 0x100010001.
Proof. split_and!; vm_compute; reflexivity. Qed.
Example compact_tests : CompactToBig 10000000 = 0 /\ BigToCompact (-1) = 25231360.
Proof. split; reflexivity. Qed.

(** * Mantissa and exponent *)

(** The value of a mantissa and an exponent. *)
Definition scaled (m e : Z) : Z := m * 256 ^ e / 256 ^ 3.

Lemma CompactToBig_fields e m :
  0 <= m < 2 ^ 23 -> 0 <= e < 256 -> CompactToBig (Z.lor (Z.shiftl e 24) m) = scaled m e.
Proof.
  intros Hm He.
  assert (Hlow : forall k, 0 <= k <= 24 -> Z.land (Z.shiftl e 24) (Z.ones k) = 0).
  { intros k Hk. rewrite Z.land_ones, Z.shiftl_mul_pow2 by lia.
    replace 24 with (24 - k + k) by lia. rewrite Z.pow_add_r, Z.mul_assoc by lia. apply Z.mod_mul. lia. }
  unfold CompactToBig, scaled.
  assert (H1 : Z.land (Z.lor (Z.shiftl e 24) m) 0x007fffff = m).
  { change 0x007fffff with (Z.ones 23). rewrite Z.land_lor_distr_l, Hlow by lia.
    rewrite Z.lor_0_l, Z.land_ones, Z.mod_small by lia. done. }
  assert (H2 : Z.land (Z.lor (Z.shiftl e 24) m) 0x00800000 = 0).
  { apply Z.bits_inj'. intros i Hi. rewrite Z.land_spec, Z.lor_spec, Z.bits_0.
    change 0x00800000 with (2 ^ 23). rewrite Z.pow2_bits_eqb by lia.
    destruct (Z.eqb_spec 23 i) as [<- |]; [| now rewrite andb_false_r].
    rewrite Z.shiftl_spec_low by lia. cbn [orb andb].
    rewrite andb_true_r. apply Z.bits_above_log2; [lia |].
    destruct (Z.eq_dec m 0) as [-> |]; [reflexivity |]. apply Z.log2_lt_pow2; lia. }
  assert (H3 : Z.shiftr (Z.lor (Z.shiftl e 24) m) 24 = e).
  { rewrite Z.shiftr_lor, Z.shiftr_shiftl_l by lia. rewrite Z.shiftl_0_r.
    rewrite (Z.shiftr_div_pow2 m), Z.div_small by lia. apply Z.lor_0_r. }
  rewrite H1, H2, H3. cbn [negb Z.eqb].
  assert (H256 : forall k, 0 <= k -> 2 ^ (8 * k) = 256 ^ k) by (intros k Hk; now rewrite Z.pow_mul_r by lia).
  destruct (Z.leb_spec e 3) as [Hle | Hgt].
  - rewrite Z.shiftr_div_pow2, H256 by lia.
    replace (256 ^ 3) with (256 ^ (3 - e) * 256 ^ e) by (rewrite <- Z.pow_add_r by lia; f_equal; lia).
    rewrite Z.div_mul_cancel_r; [done | |]; apply Z.pow_nonzero; lia.
  - rewrite Z.shiftl_mul_pow2, H256 by lia.
    replace (256 ^ e) with (256 ^ (e - 3) * 256 ^ 3) by (rewrite <- Z.pow_add_r by lia; f_equal; lia).
    rewrite Z.mul_assoc, Z.div_mul; [done | apply Z.pow_nonzero; lia].
Qed.

(** A positive number lies between two powers of 256. *)
Lemma byte_len_spec n : 0 < n -> 1 <= byte_len n /\ 256 ^ (byte_len n - 1) <= n < 256 ^ byte_len n.
Proof.
  intros Hn. unfold byte_len. replace (n =? 0) with false by lia. rewrite Z.abs_eq by lia.
  pose proof (Z.log2_spec n Hn) as [Hlo Hhi]. pose proof (Z.log2_nonneg n) as Hk.
  set (k := Z.log2 n) in *. pose proof (Z.div_mod k 8 ltac:(lia)).
  pose proof (Z.mod_pos_bound k 8 ltac:(lia)). assert (0 <= k / 8) by (apply Z.div_pos; lia).
  replace (k / 8 + 1 - 1) with (k / 8) by lia. split; [lia |].
  change 256 with (2 ^ 8). rewrite <- !Z.pow_mul_r by lia. split.
  - etransitivity; [| exact Hlo]. apply Z.pow_le_mono_r; lia.
  - eapply Z.lt_le_trans; [exact Hhi |]. apply Z.pow_le_mono_r; lia.
Qed.

Lemma byte_len_unique n k : 1 <= k -> 256 ^ (k - 1) <= n < 256 ^ k -> byte_len n = k.
Proof.
  intros Hk Hn. assert (0 < 256 ^ (k - 1)) by (apply Z.pow_pos_nonneg; lia).
  destruct (byte_len_spec n ltac:(lia)) as (H1 & Hlo & Hhi).
  destruct (Z.lt_trichotomy (byte_len n) k) as [Hlt | [? | Hgt]]; [| done |]; exfalso.
  - assert (256 ^ byte_len n <= 256 ^ (k - 1)) by (apply Z.pow_le_mono_r; lia). lia.
  - assert (256 ^ k <= 256 ^ (byte_len n - 1)) by (apply Z.pow_le_mono_r; lia). lia.
Qed.

(** The mantissa of [n] for the exponent [e]. *)
Definition top (n e : Z) : Z := n * 256 ^ 3 / 256 ^ e.

Lemma pow_256_pos k : 0 <= k -> 0 < 256 ^ k.
Proof. intros Hk. apply Z.pow_pos_nonneg; lia. Qed.

Lemma top_shift n e :
  0 < n -> 0 <= e -> top n e = if e <=? 3 then n * 256 ^ (3 - e) else n / 256 ^ (e - 3).
Proof.
  intros Hn He. unfold top. pose proof (pow_256_pos e He). destruct (Z.leb_spec e 3).
  - replace (256 ^ 3) with (256 ^ (3 - e) * 256 ^ e) by (rewrite <- Z.pow_add_r by lia; f_equal; lia).
    rewrite Z.mul_assoc. apply Z.div_mul. lia.
  - replace (256 ^ e) with (256 ^ (e - 3) * 256 ^ 3) by (rewrite <- Z.pow_add_r by lia; f_equal; lia).
    apply Z.div_mul_cancel_r; apply Z.pow_nonzero; lia.
Qed.

Lemma top_byte_len n : 0 < n -> 2 ^ 16 <= top n (byte_len n) < 2 ^ 24.
Proof.
  intros Hn. destruct (byte_len_spec n Hn) as (He & Hlo & Hhi). unfold top.
  set (e := byte_len n) in *. pose proof (pow_256_pos e ltac:(lia)).
  assert (Hs : 256 ^ e = 256 * 256 ^ (e - 1)) by (rewrite <- Z.pow_succ_r by lia; f_equal; lia).
  split.
  - apply Z.div_le_lower_bound; [lia |]. change (2 ^ 16) with (256 ^ 2). change (256 ^ 3) with (256 * 256 ^ 2).
    nia.
  - apply Z.div_lt_upper_bound; [lia |]. change (2 ^ 24) with (256 ^ 3). nia.
Qed.

(** The mantissa before the sign bit is looked at. *)
Lemma mantissa_top n :
  0 < n ->
  (if byte_len n <=? 3 then uint32 (Z.shiftl (uint32 (word0 n)) (8 * (3 - byte_len n)))
   else uint32 (word0 (Z.shiftr n (8 * (byte_len n - 3))))) = top n (byte_len n).
Proof.
  intros Hn. pose proof (top_byte_len n Hn) as Hr. destruct (byte_len_spec n Hn) as (He & Hlo & Hhi).
  set (e := byte_len n) in *. rewrite top_shift in * by lia.
  assert (H256 : forall k, 0 <= k -> 2 ^ (8 * k) = 256 ^ k) by (intros k Hk; now rewrite Z.pow_mul_r by lia).
  unfold word0. destruct (Z.leb_spec e 3).
  - assert (256 ^ e <= 256 ^ 3) by (apply Z.pow_le_mono_r; lia). change (256 ^ 3) with (2 ^ 24) in *.
    rewrite Z.abs_eq, (Z.mod_small n), (wrapU_small 32 n) by lia.
    rewrite Z.shiftl_mul_pow2, H256 by lia. apply wrapU_small. lia.
  - rewrite Z.shiftr_div_pow2, H256 by lia.
    rewrite Z.abs_eq, Z.mod_small by lia. apply wrapU_small. lia.
Qed.

(** The exponent that is used: one more when the sign bit would be set. *)
Definition compact_exp (n : Z) : Z :=
  if top n (byte_len n) <? 2 ^ 23 then byte_len n else byte_len n + 1.

Lemma top_succ n e : 0 < n -> 0 <= e -> top n (e + 1) = top n e / 256.
Proof.
  intros Hn He. unfold top. rewrite Z.div_div by (try lia; apply Z.pow_nonzero; lia).
  f_equal. rewrite Z.pow_add_r by lia. reflexivity.
Qed.

Lemma top_compact_exp n : 0 < n -> 1 <= compact_exp n /\ 2 ^ 15 <= top n (compact_exp n) < 2 ^ 23.
Proof.
  intros Hn. pose proof (top_byte_len n Hn). destruct (byte_len_spec n Hn) as (He & _).
  unfold compact_exp. destruct (Z.ltb_spec (top n (byte_len n)) (2 ^ 23)); [lia |].
  rewrite top_succ by lia. split; [lia |]. split; [apply Z.div_le_lower_bound | apply Z.div_lt_upper_bound]; lia.
Qed.

Lemma sign_bit m : 0 <= m < 2 ^ 24 -> negb (Z.land m 0x00800000 =? 0) = negb (m <? 2 ^ 23).
Proof.
  intros Hm. f_equal. change 0x00800000 with (2 ^ 23).
  assert (Hbit : Z.land m (2 ^ 23) = if Z.testbit m 23 then 2 ^ 23 else 0).
  { apply Z.bits_inj'. intros i Hi. rewrite Z.land_spec, Z.pow2_bits_eqb by lia.
    destruct (Z.eqb_spec 23 i) as [<- |].
    - rewrite andb_true_r. destruct (Z.testbit m 23); reflexivity.
    - rewrite andb_false_r. destruct (Z.testbit m 23); [| now rewrite Z.bits_0].
      rewrite Z.pow2_bits_false by lia. done. }
  rewrite Hbit. destruct (Z.ltb_spec m (2 ^ 23)).
  - assert (Z.testbit m 23 = false) as ->; [| reflexivity].
    destruct (Z.eq_dec m 0) as [-> |]; [reflexivity |].
    apply Z.bits_above_log2; [lia |]. apply Z.log2_lt_pow2; lia.
  - assert (Z.testbit m 23 = true) as ->; [| reflexivity].
    rewrite Z.testbit_true by lia. replace (m / 2 ^ 23) with 1; [done |].
    apply (Z.div_unique m (2 ^ 23) 1 (m - 2 ^ 23)); lia.
Qed.

Lemma BigToCompact_pos n :
  0 < n -> compact_exp n < 256 ->
  BigToCompact n = Z.lor (Z.shiftl (compact_exp n) 24) (top n (compact_exp n)).
Proof.
  intros Hn He. pose proof (top_byte_len n Hn) as Hr. destruct (top_compact_exp n Hn) as [H1 _].
  unfold BigToCompact. replace (n =? 0) with false by lia. rewrite mantissa_top, sign_bit by lia.
  replace (n <? 0) with false by lia.
  assert (Hw : uint32 (Z.shiftl (compact_exp n) 24) = Z.shiftl (compact_exp n) 24)
    by (rewrite Z.shiftl_mul_pow2 by lia; apply wrapU_small; lia).
  unfold compact_exp in *. destruct (Z.ltb_spec (top n (byte_len n)) (2 ^ 23)); cbn [negb].
  - now rewrite Hw.
  - rewrite Hw, top_succ, Z.shiftr_div_pow2 by (try lia; apply byte_len_spec; lia). done.
Qed.

Lemma compact_exp_bound n : 0 < n < 256 ^ 254 -> compact_exp n < 256.
Proof.
  intros Hn. destruct (byte_len_spec n ltac:(lia)) as (He & Hlo & _). unfold compact_exp.
  assert (byte_len n - 1 < 254) by (apply (Z.pow_lt_mono_r_iff 256); lia).
  destruct (_ <? _); lia.
Qed.

(** The number that is read back. *)
Lemma compact_value n :
  0 < n < 256 ^ 254 -> CompactToBig (BigToCompact n) = scaled (top n (compact_exp n)) (compact_exp n).
Proof.
  intros Hn. pose proof (compact_exp_bound n Hn). destruct (top_compact_exp n ltac:(lia)) as [H1 H2].
  rewrite BigToCompact_pos, CompactToBig_fields by lia. done.
Qed.

(** ** The largest number that can be represented *)

Lemma scaled_small m e : 0 <= m -> 0 <= e <= 3 -> scaled m e = m / 256 ^ (3 - e).
Proof.
  intros Hm He. unfold scaled.
  replace (256 ^ 3) with (256 ^ (3 - e) * 256 ^ e) by (rewrite <- Z.pow_add_r by lia; f_equal; lia).
  apply Z.div_mul_cancel_r; apply Z.pow_nonzero; lia.
Qed.

Lemma scaled_large m e : 3 <= e -> scaled m e = m * 256 ^ (e - 3).
Proof.
  intros He. unfold scaled.
  replace (256 ^ e) with (256 ^ (e - 3) * 256 ^ 3) by (rewrite <- Z.pow_add_r by lia; f_equal; lia).
  rewrite Z.mul_assoc. apply Z.div_mul. apply Z.pow_nonzero; lia.
Qed.

(** Small exponents lose nothing. *)
Lemma scaled_top_small n e : 0 < n -> 0 <= e <= 3 -> scaled (top n e) e = n.
Proof.
  intros Hn He. rewrite top_shift by lia. replace (e <=? 3) with true by lia.
  pose proof (pow_256_pos (3 - e) ltac:(lia)).
  rewrite scaled_small by nia. apply Z.div_mul. lia.
Qed.

Lemma scaled_top_le n e : 0 < n -> 0 <= e -> 0 <= scaled (top n e) e <= n.
Proof.
  intros Hn He. pose proof (pow_256_pos e He). unfold scaled, top.
  assert (0 <= n * 256 ^ 3 / 256 ^ e) by (apply Z.div_pos; lia).
  split; [apply Z.div_pos; nia |]. apply Z.div_le_upper_bound; [lia |].
  rewrite Z.mul_comm, (Z.mul_comm (256 ^ 3) n). apply Z.mul_div_le. lia.
Qed.

Lemma scaled_largest n m e :
  0 < n -> 0 <= m < 2 ^ 23 -> 0 <= e -> scaled m e <= n ->
  scaled m e <= scaled (top n (compact_exp n)) (compact_exp n).
Proof.
  intros Hn Hm He Hle. destruct (top_compact_exp n Hn) as [H1 [Hlo Hhi]]. set (k := compact_exp n) in *.
  destruct (Z.le_gt_cases k 3) as [Hk | Hk]; [now rewrite scaled_top_small by lia |].
  rewrite (scaled_large (top n k)) by lia. pose proof (pow_256_pos (k - 3) ltac:(lia)) as Hp.
  destruct (Z.le_gt_cases k e) as [Hek | Hek].
  - rewrite scaled_large in * by lia.
    assert (Hsplit : 256 ^ (e - 3) = 256 ^ (e - k) * 256 ^ (k - 3))
      by (rewrite <- Z.pow_add_r by lia; f_equal; lia).
    rewrite Hsplit, Z.mul_assoc in *. apply Z.mul_le_mono_nonneg_r; [lia |].
    rewrite top_shift by lia. replace (k <=? 3) with false by lia.
    apply Z.div_le_lower_bound; [lia |]. lia.
  - assert (Hsm : scaled m e <= 2 ^ 15 * 256 ^ (k - 3)).
    { unfold scaled. apply Z.div_le_upper_bound; [apply pow_256_pos; lia |].
      replace (256 ^ 3 * (2 ^ 15 * 256 ^ (k - 3))) with (2 ^ 15 * 256 ^ k)
        by (replace (256 ^ k) with (256 ^ 3 * 256 ^ (k - 3)) by (rewrite <- Z.pow_add_r by lia; f_equal; lia); lia).
      replace (256 ^ k) with (256 * 256 ^ (k - 1)) by (rewrite <- Z.pow_succ_r by lia; f_equal; lia).
      assert (256 ^ e <= 256 ^ (k - 1)) by (apply Z.pow_le_mono_r; lia).
      pose proof (pow_256_pos e He). nia. }
    nia.
Qed.

(** Every bit pattern is a sign, an exponent and a mantissa. *)
Lemma CompactToBig_cases c :
  0 <= c < 2 ^ 32 ->
  exists m e, 0 <= m < 2 ^ 23 /\ 0 <= e < 256 /\ (CompactToBig c = scaled m e \/ CompactToBig c = - scaled m e).
Proof.
  intros Hc. set (m := Z.land c 0x007fffff). set (e := Z.shiftr c 24).
  assert (Hm : 0 <= m < 2 ^ 23).
  { unfold m. change 0x007fffff with (Z.ones 23). rewrite Z.land_ones by lia. apply Z.mod_pos_bound. lia. }
  assert (He : 0 <= e < 256).
  { unfold e. rewrite Z.shiftr_div_pow2 by lia. split; [apply Z.div_pos | apply Z.div_lt_upper_bound]; lia. }
  exists m, e. split; [done |]. split; [done |].
  rewrite <- (CompactToBig_fields e m) by done. pose proof (CompactToBig_fields e m Hm He) as Hf.
  unfold CompactToBig at 1 3. fold m e.
  assert (Hbn : (if e <=? 3 then Z.shiftr m (8 * (3 - e)) else Z.shiftl m (8 * (e - 3))) = scaled m e).
  { assert (H256 : forall k, 0 <= k -> 2 ^ (8 * k) = 256 ^ k) by (intros k Hk; now rewrite Z.pow_mul_r by lia).
    destruct (Z.leb_spec e 3).
    - now rewrite Z.shiftr_div_pow2, H256, scaled_small by lia.
    - now rewrite Z.shiftl_mul_pow2, H256, scaled_large by lia. }
  rewrite Hbn, Hf. destruct (negb _); auto.
Qed.

Lemma top_scaled m e : 3 <= e -> 0 <= m -> top (scaled m e) e = m.
Proof.
  intros He Hm. rewrite scaled_large by lia. unfold top.
  replace (m * 256 ^ (e - 3) * 256 ^ 3) with (m * 256 ^ e)
    by (replace (256 ^ e) with (256 ^ (e - 3) * 256 ^ 3) by (rewrite <- Z.pow_add_r by lia; f_equal; lia); lia).
  apply Z.div_mul. apply Z.pow_nonzero; lia.
Qed.

Lemma byte_len_scaled m e :
  4 <= e -> 2 ^ 15 <= m < 2 ^ 23 ->
  byte_len (scaled m e) = if m <? 2 ^ 16 then e - 1 else e.
Proof.
  intros He Hm. rewrite scaled_large by lia. pose proof (pow_256_pos (e - 3) ltac:(lia)).
  destruct (Z.ltb_spec m (2 ^ 16)); apply byte_len_unique; try lia.
  - replace (256 ^ (e - 1 - 1)) with (2 ^ 8 * 256 ^ (e - 3))
      by (change (2 ^ 8) with (256 ^ 1); rewrite <- Z.pow_add_r by lia; f_equal; lia).
    replace (256 ^ (e - 1)) with (2 ^ 16 * 256 ^ (e - 3))
      by (change (2 ^ 16) with (256 ^ 2); rewrite <- Z.pow_add_r by lia; f_equal; lia). nia.
  - replace (256 ^ (e - 1)) with (2 ^ 16 * 256 ^ (e - 3))
      by (change (2 ^ 16) with (256 ^ 2); rewrite <- Z.pow_add_r by lia; f_equal; lia).
    replace (256 ^ e) with (2 ^ 24 * 256 ^ (e - 3))
      by (change (2 ^ 24) with (256 ^ 3); rewrite <- Z.pow_add_r by lia; f_equal; lia). nia.
Qed.

(** Reading a number back and writing it again changes nothing. *)
Lemma compact_exp_scaled m e :
  4 <= e -> 2 ^ 15 <= m < 2 ^ 23 -> compact_exp (scaled m e) = e.
Proof.
  intros He Hm. unfold compact_exp. rewrite byte_len_scaled by lia.
  assert (Hpos : 0 < scaled m e).
  { rewrite scaled_large by lia. pose proof (pow_256_pos (e - 3) ltac:(lia)). nia. }
  destruct (Z.ltb_spec m (2 ^ 16)).
  - assert (Ht : top (scaled m e) (e - 1) = m * 256).
    { rewrite top_shift, scaled_large by lia. pose proof (pow_256_pos (e - 4) ltac:(lia)).
      destruct (Z.leb_spec (e - 1) 3).
      - assert (e = 4) as -> by lia. change (256 ^ (4 - 3)) with 256.
        change (256 ^ (3 - (4 - 1))) with 1. lia.
      - replace (256 ^ (e - 3)) with (256 * 256 ^ (e - 1 - 3))
          by (rewrite <- Z.pow_succ_r by lia; f_equal; lia).
        rewrite Z.mul_assoc. apply Z.div_mul. apply Z.pow_nonzero; lia. }
    rewrite Ht. replace (_ <? _) with false by lia. lia.
  - rewrite top_scaled by lia. now replace (m <? 2 ^ 23) with true by lia.
Qed.

Lemma compact_idem n :
  0 < n < 256 ^ 254 -> BigToCompact (CompactToBig (BigToCompact n)) = BigToCompact n.
Proof.
  intros Hn. pose proof (compact_exp_bound n Hn). destruct (top_compact_exp n ltac:(lia)) as [H1 H2].
  rewrite compact_value by done. set (k := compact_exp n) in *.
  destruct (Z.le_gt_cases k 3); [now rewrite scaled_top_small by lia |].
  pose proof (compact_exp_scaled (top n k) k ltac:(lia) H2) as Hk.
  rewrite !BigToCompact_pos; rewrite ?Hk; fold k; try lia.
  - now rewrite top_scaled by lia.
  - rewrite scaled_large by lia. pose proof (pow_256_pos (k - 3) ltac:(lia)). nia.
Qed.

Lemma compact_exp_small n : 0 < n < 2 ^ 23 -> compact_exp n <= 3.
Proof.
  intros Hn. destruct (byte_len_spec n ltac:(lia)) as (He & Hlo & _).
  assert (byte_len n - 1 < 3) by (apply (Z.pow_lt_mono_r_iff 256); lia).
  unfold compact_exp. destruct (Z.ltb_spec (top n (byte_len n)) (2 ^ 23)); [lia |].
  destruct (Z.eq_dec (byte_len n) 3) as [H3 |]; [| lia].
  rewrite H3, top_shift in * by lia. cbn in *. lia.
Qed.

Lemma scaled_nonneg m e : 0 <= m -> 0 <= e -> 0 <= scaled m e.
Proof.
  intros Hm He. unfold scaled. apply Z.div_pos; [| lia]. pose proof (pow_256_pos e He). nia.
Qed.

(** What is read back is the largest number that bits can represent. *)
Lemma compact_read_largest n c :
  0 < n < 256 ^ 254 -> 0 <= c < 2 ^ 32 -> CompactToBig c <= n ->
  CompactToBig c <= CompactToBig (BigToCompact n).
Proof.
  intros Hn Hc Hcn. destruct (top_compact_exp n ltac:(lia)) as [H1 H2]. rewrite compact_value by lia.
  destruct (CompactToBig_cases c Hc) as (m & e & Hm & He & [Heq | Heq]); rewrite Heq in *.
  - apply scaled_largest; lia.
  - pose proof (scaled_top_le n (compact_exp n) ltac:(lia) ltac:(lia)).
    pose proof (scaled_nonneg m e ltac:(lia) ltac:(lia)). lia.
Qed.

(** ** Work *)

Lemma CalcWork_pos bits : 0 < CompactToBig bits -> CalcWork bits = 2 ^ 256 / (CompactToBig bits + 1).
Proof. intros Hb. unfold CalcWork. now replace (_ <=? 0) with false by lia. Qed.

Lemma work_antitone b1 b2 : 0 < CompactToBig b1 <= CompactToBig b2 -> CalcWork b2 <= CalcWork b1.
Proof. intros Hb. rewrite !CalcWork_pos by lia. apply Z.div_le_compat_l; lia. Qed.

(** * The claims *)

(** Difficulty bits.  For every target below 256^254, writing it as bits
    and reading it back gives the largest number that any 32-bit pattern
    represents and that is not above it; numbers below 2^23 are kept exactly;
    writing is the identity on what was read back; and the work of bits with a
    positive target [t] is the quotient of 2^256 by [t + 1], never smaller
    for a smaller target, and 0 for the other bits. *)
Lemma compact_largest :
  (forall n, 0 <= n < 256 ^ 254 ->
     let r := CompactToBig (BigToCompact n) in
     0 <= r <= n /\
     (forall c, 0 <= c < 2 ^ 32 -> CompactToBig c <= n -> CompactToBig c <= r) /\
     BigToCompact r = BigToCompact n /\ (n < 2 ^ 23 -> r = n)) /\
  (forall bits, 0 < CompactToBig bits ->
     CalcWork bits * (CompactToBig bits + 1) <= 2 ^ 256 < (CalcWork bits + 1) * (CompactToBig bits + 1)) /\
  (forall b1 b2, 0 < CompactToBig b1 <= CompactToBig b2 -> CalcWork b2 <= CalcWork b1) /\
  (forall bits, CompactToBig bits <= 0 -> CalcWork bits = 0).
Proof.
  split_and!.
  - intros n Hn. cbn zeta. destruct (Z.eq_dec n 0) as [-> | Hnz].
    { change (CompactToBig (BigToCompact 0)) with 0. split; [lia |].
      split; [intros c _ Hc; exact Hc |]. done. }
    destruct (top_compact_exp n ltac:(lia)) as [H1 H2].
    assert (Hv := compact_value n ltac:(lia)).
    split; [rewrite Hv; apply scaled_top_le; lia |].
    split; [intros c Hc Hcn; apply compact_read_largest; lia |].
    split; [apply compact_idem; lia |].
    intros Hsmall. rewrite Hv. apply scaled_top_small; [lia |]. split; [lia |]. apply compact_exp_small; lia.
  - intros bits Hb. rewrite (CalcWork_pos bits Hb).
    pose proof (Z.div_mod (2 ^ 256) (CompactToBig bits + 1) ltac:(lia)).
    pose proof (Z.mod_pos_bound (2 ^ 256) (CompactToBig bits + 1) ltac:(lia)). nia.
  - intros b1 b2. apply work_antitone.
  - intros bits Hb. unfold CalcWork. now replace (_ <=? 0) with true by lia.
Qed.

Lemma compact_largest_witness :
  CompactToBig (BigToCompact 0x12345678) = 0x12345600 /\
  CompactToBig (BigToCompact 0x7fffff) = 0x7fffff /\ CalcWork 0x1d00ffff <= CalcWork 0x1c00ffff.
Proof.
  destruct compact_largest as (Hn & _ & Hmono & _). split; [reflexivity |]. split.
  - apply (Hn 0x7fffff); vm_compute; split; congruence || reflexivity.
  - apply Hmono. vm_compute. split; [reflexivity | discriminate].
Defined.
