(* ===== verification/BlockIndex.v ===== *)
(** Nodes of the block tree and headers in context
    (src/btcd/blockchain/blockindex.go, src/btcd/blockchain/interfaces.go).

    [HeaderCtx] is the interface that the difficulty rules are written
    against; block nodes with their skip pointers implement it, and the laws
    say that following skip pointers finds the block that following parents
    finds. *)

From stdpp Require Import sorting.
From S2P Require Import Prelude Slices Crypto WireCommon MsgTx MsgBlock BtcUtil WorkMath.
#[local] Open Scope Z_scope.

(** * The interface *)

Class HeaderCtx (Hdr : Type) : Type := {
  Height : Hdr -> Z;
  ctx_Bits : Hdr -> Z;
  ctx_Timestamp : Hdr -> Z;
  Parent : Hdr -> option Hdr;
  RelativeAncestorCtx : Hdr -> Z -> option Hdr;
}.

(** [k] steps towards the first block. *)
Fixpoint back `{HeaderCtx Hdr} (k : nat) (n : Hdr) : option Hdr :=
  match k with
  | O => Some n
  | S k' => match Parent n with Some p => back k' p | None => None end
  end.

(** What the rules rely on: heights count the ancestors, and a relative
    ancestor is found by going back. *)
Class HeaderCtxLaws (Hdr : Type) `{HeaderCtx Hdr} (ok : Hdr -> Prop) : Prop := {
  ok_parent n p : ok n -> Parent n = Some p -> ok p /\ Height p = Height n - 1;
  ok_height n : ok n -> 0 <= Height n < 2 ^ 31;
  ok_first n : ok n -> (Parent n = None <-> Height n = 0);
  ok_relative n d : ok n -> 0 <= d < 2 ^ 31 -> RelativeAncestorCtx n d = back (Z.to_nat d) n;
}.

(** * The past median time *)

Definition medianTimeBlocks : nat := 11.

Section MedianTime.
Context `{HeaderCtx Hdr}.

(** The timestamps of at most [k] blocks from [n] back. *)
Fixpoint past_timestamps (k : nat) (n : option Hdr) : list Z :=
  match k, n with
  | S k', Some n => ctx_Timestamp n :: past_timestamps k' (Parent n)
  | _, _ => []
  end.

Definition CalcPastMedianTime (n : Hdr) : outcome Empty_set Z :=
  let timestamps := merge_sort Z.le (past_timestamps medianTimeBlocks (Some n)) in
  index timestamps (zlen timestamps / 2).
End MedianTime.

(** * Block nodes *)

Record nodeData := mkNodeData {
  n_hash : bytes;
  n_workSum : Z;
  n_height : Z;
  n_version : Z;
  n_bits : Z;
  n_nonce : Z;
  n_timestamp : Z;
  n_merkleRoot : bytes;
}.

(** Nodes are immutable but for their status, which is left out; a pointer to a
    node is the node. *)
#[local] Set Warnings "-register-all".
Inductive blockNode : Type :=
| Node (parent ancestor : option blockNode) (data : nodeData).

Definition parent (n : blockNode) : option blockNode := match n with Node p _ _ => p end.
Definition ancestor (n : blockNode) : option blockNode := match n with Node _ a _ => a end.
Definition data (n : blockNode) : nodeData := match n with Node _ _ d => d end.
Definition height (n : blockNode) : Z := n_height (data n).

Definition invertLowestOne (n : Z) : Z := Z.land n (n - 1).
Definition getAncestorHeight (h : Z) : Z := invertLowestOne (invertLowestOne h).

(** [for n != nil && n.height != height]: the height decreases. *)
Fixpoint ancestor_loop (fuel : nat) (n : option blockNode) (h : Z) : option blockNode :=
  match n with
  | None => None
  | Some n =>
      if height n =? h then Some n else
      match fuel with
      | O => None
      | S fuel' =>
          match ancestor n with
          | Some a => if getAncestorHeight (height n) >=? h then ancestor_loop fuel' (Some a) h
                      else ancestor_loop fuel' (parent n) h
          | None => ancestor_loop fuel' (parent n) h
          end
      end
  end.

Definition Ancestor (n : blockNode) (h : Z) : option blockNode :=
  if (h <? 0) || (h >? height n) then None else ancestor_loop (Z.to_nat (height n)) (Some n) h.

Definition RelativeAncestor (n : blockNode) (distance : Z) : option blockNode :=
  Ancestor n (int32 (height n - distance)).

Section Nodes.
Context `{Crypto}.

Definition newBlockNode (blockHeader : BlockHeader) (par : option blockNode) : blockNode :=
  let fields ws h :=
    mkNodeData (BlockHash blockHeader) ws h (bh_Version blockHeader) (Bits blockHeader)
      (Nonce blockHeader) (Timestamp blockHeader) (MerkleRoot blockHeader) in
  let work := CalcWork (Bits blockHeader) in
  match par with
  | None => Node None None (fields work 0)
  | Some p =>
      let h := int32 (height p + 1) in
      Node (Some p) (Ancestor p (getAncestorHeight h)) (fields (n_workSum (data p) + work) h)
  end.

Definition node_Header (n : blockNode) : BlockHeader :=
  let d := data n in
  mkBlockHeader (n_version d)
    (match parent n with Some p => n_hash (data p) | None => replicate 32 x00 end)
    (n_merkleRoot d) (n_timestamp d) (n_bits d) (n_nonce d).
End Nodes.

(** [Equals] without the status. *)
#[global] Instance nodeData_eq_dec : EqDecision nodeData.
Proof. solve_decision. Defined.

Definition Equals (a b : blockNode) : bool := bool_decide (data a = data b).

Definition IsAncestor (n : blockNode) (otherNode : option blockNode) : bool :=
  match otherNode with
  | None => false
  | Some other =>
      match Ancestor n (height other) with
      | None => false
      | Some a => if height n =? height a then false else Equals a other
      end
  end.

#[global] Instance blockNode_ctx : HeaderCtx blockNode := {|
  Height := height;
  ctx_Bits n := n_bits (data n);
  ctx_Timestamp n := n_timestamp (data n);
  Parent := parent;
  RelativeAncestorCtx := RelativeAncestor;
|}.

(** * Skip pointers *)

Inductive node_ok : blockNode -> Prop :=
| first_ok d : n_height d = 0 -> node_ok (Node None None d)
| child_ok p d :
    node_ok p -> n_height d = height p + 1 -> n_height d < 2 ^ 31 ->
    node_ok (Node (Some p) (Ancestor p (getAncestorHeight (n_height d))) d).

Lemma node_ok_height n : node_ok n -> 0 <= height n < 2 ^ 31.
Proof. induction 1 as [d Hd | p d Hp IH Hd Hb]; unfold height in *; cbn [data] in *; lia. Qed.

Lemma back_height n : node_ok n -> forall k, Z.of_nat k <= height n ->
  exists m, back k n = Some m /\ node_ok m /\ height m = height n - Z.of_nat k.
Proof.
  induction 1 as [d Hd | p d Hp IH Hd Hb]; intros [| k] Hk; cbn [back].
  - eexists. split; [reflexivity |]. split; [now constructor | lia].
  - unfold height in Hk. cbn [data] in Hk. lia.
  - eexists. split; [reflexivity |]. split; [now constructor | lia].
  - cbn [Parent blockNode_ctx parent]. unfold height in Hk |- *. cbn [data] in *.
    destruct (IH k) as (m & Hm & Hok & Hh); [lia |]. exists m. split_and!; auto.
    unfold height in *. lia.
Qed.

Lemma back_add `{HeaderCtx Hdr} i j (n m : Hdr) : back i n = Some m -> back (i + j) n = back j m.
Proof.
  revert n. induction i as [| i IH]; intros n Hi; [now injection Hi as -> |].
  cbn in *. destruct (Parent n) as [p |]; [| discriminate]. now apply IH.
Qed.

Lemma land_le_r a b : 0 <= a -> 0 <= b -> Z.land a b <= b.
Proof.
  intros Ha Hb. rewrite <- (Z2N.id a), <- (Z2N.id b), <- N2Z.inj_land by done.
  apply N2Z.inj_le, N.land_le_r.
Qed.

Lemma invertLowestOne_range h : 0 <= h -> 0 <= invertLowestOne h /\ (0 < h -> invertLowestOne h < h).
Proof.
  intros Hh. unfold invertLowestOne. destruct (Z.eq_dec h 0) as [-> | Hz].
  { change (Z.land 0 (0 - 1)) with 0. lia. }
  split; [apply Z.land_nonneg; lia |]. intros _.
  pose proof (land_le_r h (h - 1) ltac:(lia) ltac:(lia)). lia.
Qed.

Lemma getAncestorHeight_range h : 0 < h -> 0 <= getAncestorHeight h < h.
Proof.
  intros Hh. unfold getAncestorHeight.
  destruct (invertLowestOne_range h ltac:(lia)) as [H0 H1].
  destruct (invertLowestOne_range (invertLowestOne h) H0) as [H2 H3].
  destruct (Z.eq_dec (invertLowestOne h) 0) as [Hz | Hz]; [| lia].
  rewrite Hz. change (invertLowestOne 0) with 0. lia.
Qed.

Lemma height_Node p a d : height (Node p a d) = n_height d.
Proof. reflexivity. Qed.

(** Following skip pointers is going back. *)
Lemma ancestor_loop_back fuel : forall n h,
  node_ok n -> 0 <= h <= height n -> height n - h <= Z.of_nat fuel ->
  (forall m, node_ok m -> height m < height n -> forall g, 0 <= g <= height m ->
     Ancestor m g = back (Z.to_nat (height m - g)) m) ->
  ancestor_loop fuel (Some n) h = back (Z.to_nat (height n - h)) n.
Proof.
  induction fuel as [| fuel IH]; intros n h Hok Hh Hf Hanc; cbn [ancestor_loop];
    destruct (Z.eqb_spec (height n) h) as [Heq | Hne]; try lia;
    try (replace (Z.to_nat (height n - h)) with 0%nat by lia; reflexivity).
  inversion Hok as [d Hd | p d Hp Hd Hb]; subst n; rewrite height_Node in *; [lia |].
  destruct (node_ok_height p Hp) as [Hp0 _].
  destruct (getAncestorHeight_range (n_height d)) as [Hg0 Hg1]; [lia |].
  set (g := getAncestorHeight (n_height d)) in *.
  assert (Hback : Ancestor p g = back (Z.to_nat (height p - g)) p)
    by (apply (Hanc p Hp); lia).
  destruct (back_height p Hp (Z.to_nat (height p - g)) ltac:(lia)) as (a & Ha & Haok & Hah).
  rewrite Z2Nat.id in Hah by lia.
  assert (Hparent : ancestor_loop fuel (Some p) h = back (Z.to_nat (n_height d - h)) (Node (Some p) (Ancestor p g) d)).
  { rewrite IH; [| done | lia | lia | intros m Hm Hlt; apply (Hanc m Hm); lia].
    replace (Z.to_nat (n_height d - h)) with (S (Z.to_nat (height p - h))) by lia. reflexivity. }
  cbn [ancestor parent]. rewrite Hback, Ha in *. destruct (Z.geb_spec g h); [| exact Hparent].
  rewrite IH; [| done | lia | lia |
    intros m Hm Hlt; apply (Hanc m Hm); lia].
  rewrite Hah.
  replace (Z.to_nat (n_height d - h)) with (S (Z.to_nat (height p - g) + Z.to_nat (height p - (height p - g) - h)))%nat by lia.
  cbn [back Parent blockNode_ctx parent]. rewrite (back_add _ _ p a Ha). f_equal; lia.
Qed.

Lemma Ancestor_back n : node_ok n -> forall g, 0 <= g <= height n ->
  Ancestor n g = back (Z.to_nat (height n - g)) n.
Proof.
  intros Hok. remember (Z.to_nat (height n)) as k eqn:Hk. revert n Hok Hk.
  induction k as [k IH] using lt_wf_ind. intros n Hok Hk g Hg. unfold Ancestor.
  replace (_ || _) with false by lia. apply ancestor_loop_back; [done | done | lia |].
  intros m Hm Hlt g' Hg'. destruct (node_ok_height m Hm). apply (IH (Z.to_nat (height m))); auto. lia.
Qed.

Lemma back_none n : node_ok n -> forall k, height n < Z.of_nat k -> back k n = None.
Proof.
  induction 1 as [d Hd | p d Hp IH Hd Hb]; intros [| k] Hk; rewrite height_Node in Hk.
  - lia.
  - done.
  - pose proof (node_ok_height p Hp). lia.
  - cbn [back Parent blockNode_ctx parent]. apply IH. lia.
Qed.

#[global] Instance blockNode_laws : HeaderCtxLaws blockNode node_ok.
Proof.
  split.
  - intros n p Hok Hp. inversion Hok as [d Hd | q d Hq Hd Hb]; subst n; [discriminate |].
    injection Hp as ->. split; [done |]. cbn [Height blockNode_ctx]. rewrite height_Node. lia.
  - exact node_ok_height.
  - intros n Hok. inversion Hok as [d Hd | q d Hq Hd Hb]; subst n; cbn [Parent Height blockNode_ctx parent];
      rewrite height_Node; [tauto |]. pose proof (node_ok_height q Hq). split; [discriminate | lia].
  - intros n d Hok Hd. cbn [RelativeAncestorCtx blockNode_ctx]. unfold RelativeAncestor.
    pose proof (node_ok_height n Hok). rewrite int32_small by lia.
    destruct (Z.le_gt_cases d (height n)).
    + rewrite Ancestor_back by (done || lia). f_equal. lia.
    + rewrite back_none by (done || lia). unfold Ancestor. now replace (_ || _) with true by lia.
Qed.

Section NewNodes.
Context `{Crypto}.

Lemma newBlockNode_ok h p :
  node_ok p -> height p + 1 < 2 ^ 31 -> node_ok (newBlockNode h (Some p)).
Proof.
  intros Hp Hb. pose proof (node_ok_height p Hp). unfold newBlockNode. rewrite int32_small by lia.
  match goal with |- node_ok (Node _ _ ?d) => pose proof (child_ok p d Hp) as Hc end.
  cbn [n_height] in Hc. apply Hc; lia.
Qed.

Lemma newBlockNode_first h : node_ok (newBlockNode h None).
Proof. now constructor. Qed.

(** A chain of headers, the first block last. *)
Fixpoint chain_of (headers : list BlockHeader) : option blockNode :=
  match headers with
  | [] => None
  | h :: rest => Some (newBlockNode h (chain_of rest))
  end.

Lemma chain_of_ok h rest :
  zlen rest < 2 ^ 31 ->
  exists n, chain_of (h :: rest) = Some n /\ node_ok n /\ height n = zlen rest.
Proof.
  revert h. induction rest as [| h' rest IH]; intros h Hb.
  - eexists. split; [reflexivity |]. split; [apply newBlockNode_first | done].
  - rewrite zlen_cons in *. pose proof (zlen_nonneg rest).
    destruct (IH h' ltac:(lia)) as (p & Hp & Hok & Hh).
    cbn [chain_of] in *. rewrite Hp. eexists. split; [reflexivity |].
    split; [apply newBlockNode_ok; [done | lia] |].
    unfold newBlockNode. rewrite height_Node. cbn [n_height]. rewrite int32_small by lia. lia.
Qed.

Lemma chain_of_back headers k n m :
  chain_of headers = Some n -> back k n = Some m -> chain_of (drop k headers) = Some m.
Proof.
  revert headers n. induction k as [| k IH]; intros headers n Hn Hm; cbn [back] in Hm.
  - injection Hm as <-. now rewrite drop_0.
  - destruct headers as [| h rest]; [discriminate |]. injection Hn as <-.
    cbn [Parent blockNode_ctx drop] in *.
    unfold newBlockNode in Hm. destruct (chain_of rest) as [p |] eqn:Hp; [| discriminate].
    cbn [parent] in Hm. eauto.
Qed.

(** The work of a chain is the sum of the work of its headers. *)
Lemma chain_of_work headers n :
  chain_of headers = Some n ->
  n_workSum (data n) = foldr (fun h w => w + CalcWork (Bits h)) 0 headers.
Proof.
  revert n. induction headers as [| h rest IH]; intros n Hn; [discriminate |]. injection Hn as <-.
  cbn [foldr]. unfold newBlockNode. destruct (chain_of rest) as [p |] eqn:Hp.
  - cbn [data n_workSum]. now rewrite (IH p eq_refl).
  - destruct rest; [reflexivity | discriminate].
Qed.
End NewNodes.

(** ** The median *)

Lemma StronglySorted_split (l : list Z) k m :
  StronglySorted Z.le l -> l !! k = Some m ->
  Forall (fun x => x <= m) (take k l) /\ Forall (fun x => m <= x) (drop (S k) l).
Proof.
  revert k. induction l as [| a l IH]; intros k Hs Hk; [discriminate |].
  apply StronglySorted_inv in Hs as [Hs Ha]. destruct k as [| k]; cbn in *.
  - injection Hk as ->. split; [constructor |]. now rewrite drop_0.
  - destruct (IH k Hs Hk) as [H1 H2]. split; [| done]. constructor; [| done].
    rewrite Forall_forall in Ha. apply Ha. eapply list_elem_of_lookup_2; eauto.
Qed.

Lemma filter_none {A} (P : A -> Prop) `{forall x, Decision (P x)} l :
  Forall (fun x => ~ P x) l -> filter P l = [].
Proof.
  induction 1 as [| x l Hx Hl IH]; [done |]. rewrite filter_cons, decide_False by done. done.
Qed.

(** At most half of the elements lie strictly below the middle of the sorted
    list, and fewer than half strictly above. *)
Lemma median_spec (l : list Z) :
  l <> [] ->
  exists m, index (E := Empty_set) (merge_sort Z.le l) (zlen (merge_sort Z.le l) / 2) = Ok m /\ m ∈ l /\
    2 * zlen (filter (fun x => x < m) l) <= zlen l /\ 2 * zlen (filter (fun x => m < x) l) < zlen l.
Proof.
  intros Hne. set (s := merge_sort Z.le l).
  assert (Hp : s ≡ₚ l) by apply merge_sort_Permutation.
  assert (Hsort : StronglySorted Z.le s) by (apply (StronglySorted_merge_sort _)).
  assert (Hlen : length s = length l) by now rewrite Hp.
  set (k := (length s / 2)%nat).
  assert (Hk : Z.to_nat (zlen s / 2) = k).
  { unfold zlen, k. rewrite <- (Nat2Z.id (length s / 2)), Nat2Z.inj_div. done. }
  assert (Hkl : (k < length s)%nat).
  { unfold k. apply Nat.div_lt; [rewrite Hlen; destruct l; [done | cbn; lia] | lia]. }
  destruct (lookup_lt_is_Some_2 s k Hkl) as [m Hm]. exists m.
  assert (Hk0 : 0 <= zlen s / 2) by (apply Z.div_pos; [apply zlen_nonneg | lia]).
  split_and!.
  - unfold index, znth. rewrite decide_True, Hk, Hm by done. reflexivity.
  - rewrite <- Hp. eapply list_elem_of_lookup_2; eauto.
  - destruct (StronglySorted_split s k m Hsort Hm) as [Hlo Hhi].
    assert (Hf : zlen (filter (fun x => x < m) l) = zlen (filter (fun x => x < m) s))
      by (unfold zlen; now rewrite Hp).
    rewrite Hf, <- (take_drop_middle s k m Hm), filter_app, filter_cons, decide_False by lia.
    rewrite (filter_none _ (drop (S k) s)), app_nil_r
      by (eapply Forall_impl; [exact Hhi |]; cbn; lia).
    pose proof (length_filter (fun x => x < m) (take k s)). rewrite length_take in *.
    pose proof (Nat.Div0.mul_div_le (length s) 2) as Hd. fold k in Hd. unfold zlen. lia.
  - destruct (StronglySorted_split s k m Hsort Hm) as [Hlo Hhi].
    assert (Hf : zlen (filter (fun x => m < x) l) = zlen (filter (fun x => m < x) s))
      by (unfold zlen; now rewrite Hp).
    rewrite Hf, <- (take_drop_middle s k m Hm), filter_app, filter_cons, decide_False by lia.
    rewrite (filter_none _ (take k s)) by (eapply Forall_impl; [exact Hlo |]; cbn; lia).
    cbn [app]. pose proof (length_filter (fun x => m < x) (drop (S k) s)). rewrite length_drop in *.
    pose proof (Nat.mul_succ_div_gt (length s) 2 ltac:(lia)) as Hd. fold k in Hd. unfold zlen. lia.
Qed.

Lemma past_timestamps_chain `{Crypto} headers k :
  past_timestamps k (chain_of headers) = map Timestamp (take k headers).
Proof.
  revert headers. induction k as [| k IH]; intros [| h rest]; try done.
  cbn [chain_of past_timestamps take map]. unfold newBlockNode.
  destruct (chain_of rest) as [p |] eqn:Hp; cbn [ctx_Timestamp Parent blockNode_ctx parent data n_timestamp];
    f_equal; rewrite <- IH, Hp; reflexivity.
Qed.

(** * The claim *)

(** Block nodes.  Building a node for each header of a chain, first block
    first, gives the last node the number of its ancestors as its height and
    the sum of the work of all headers as its work; [Ancestor], which follows
    skip pointers that pass over two bits of the height at a time, finds for
    every height on the chain the node that was built for the header there,
    and nothing for the others; and the past median time is a timestamp of one
    of the last eleven headers, with at most half of theirs below it and fewer
    than half above it. *)
Lemma chain_nodes `{Crypto} (h : BlockHeader) (rest : list BlockHeader) :
  zlen rest < 2 ^ 31 ->
  exists n,
    chain_of (h :: rest) = Some n /\ height n = zlen rest /\
    n_workSum (data n) = foldr (fun x w => w + CalcWork (Bits x)) 0 (h :: rest) /\
    (forall g, 0 <= g <= zlen rest ->
       Ancestor n g = chain_of (drop (Z.to_nat (zlen rest - g)) (h :: rest))) /\
    (forall g, ~ 0 <= g <= zlen rest -> Ancestor n g = None) /\
    (exists m, let ts := map Timestamp (take 11 (h :: rest)) in
       CalcPastMedianTime n = Ok m /\ m ∈ ts /\
       2 * zlen (filter (fun t => t < m) ts) <= zlen ts /\
       2 * zlen (filter (fun t => m < t) ts) < zlen ts).
Proof.
  intros Hb. destruct (chain_of_ok h rest Hb) as (n & Hn & Hok & Hh). exists n.
  split; [exact Hn |]. split; [exact Hh |]. split; [exact (chain_of_work _ n Hn) |]. split_and!.
  - intros g Hg. rewrite Ancestor_back, Hh by (done || lia).
    destruct (back_height n Hok (Z.to_nat (zlen rest - g)) ltac:(lia)) as (m & Hm & _).
    rewrite Hm. symmetry. now apply (chain_of_back _ _ n).
  - intros g Hg. unfold Ancestor. rewrite Hh. now replace (_ || _) with true by lia.
  - destruct (median_spec (map Timestamp (take 11 (h :: rest)))) as (m & Hm & Hrest); [done |].
    exists m. cbn zeta. split; [| exact Hrest].
    unfold CalcPastMedianTime. rewrite <- Hn.
    now rewrite (past_timestamps_chain (h :: rest) medianTimeBlocks).
Qed.

Definition example_header (t : Z) : BlockHeader :=
  mkBlockHeader 4 (replicate 32 x01) (replicate 32 x02) t 0x1d00ffff 0.

Lemma chain_nodes_witness :
  let H := toy_crypto in
  exists n, chain_of (map example_header [40; 10; 30; 20]) = Some n /\ height n = 3 /\
    option_map (fun a => n_timestamp (data a)) (Ancestor n 1) = Some 30 /\
    CalcPastMedianTime n = Ok 30.
Proof.
  intros H. destruct (chain_nodes (example_header 40) (map example_header [10; 30; 20]))
    as (n & Hn & Hh & _ & Hanc & _ & _); [reflexivity |].
  exists n. split; [exact Hn |]. split; [exact Hh |]. split.
  - rewrite (Hanc 1) by (vm_compute; split; discriminate). reflexivity.
  - injection Hn as <-. vm_compute. reflexivity.
Defined.
