(* ===== verification/Difficulty.v ===== *)
(** Difficulty retargeting (src/btcd/blockchain/difficulty.go) with the chain
    parameters (src/btcd/chaincfg/params.go, src/btcd/blockchain/chain.go), and
    the block subsidy (src/btcd/blockchain/validate.go).

    The rules are written against the interface [HeaderCtx]; the theorems use
    its laws.  A time.Duration is a number of nanoseconds. *)

From S2P Require Import Prelude Slices Crypto WireCommon MsgTx MsgBlock BtcUtil WorkMath BlockIndex.

(** * Parameters *)

(** The fields that the rules of this development read. *)
Record Params := mkParams {
  PowLimit : Z;
  PowLimitBits : Z;
  PoWNoRetargeting : bool;
  BIP0034Height : Z;
  BIP0065Height : Z;
  BIP0066Height : Z;
  CoinbaseMaturity : Z;
  SubsidyReductionInterval : Z;
  TargetTimespan : Z;
  TargetTimePerBlock : Z;
  RetargetAdjustmentFactor : Z;
  ReduceMinDifficulty : bool;
  MinDiffReductionTime : Z;
}.

Definition Second : Z := 1000000000.
Definition Minute : Z := 60 * Second.
Definition Hour : Z := 60 * Minute.

Definition mainPowLimit : Z := Z.shiftl 1 224 - 1.

Definition MainNetParams : Params := {|
  PowLimit := mainPowLimit;
  PowLimitBits := 0x1d00ffff;
  PoWNoRetargeting := false;
  BIP0034Height := 227931;
  BIP0065Height := 388381;
  BIP0066Height := 363725;
  CoinbaseMaturity := 1;
  SubsidyReductionInterval := 210000;
  TargetTimespan := Hour * 24 * 14;
  TargetTimePerBlock := Minute * 10;
  RetargetAdjustmentFactor := 4;
  ReduceMinDifficulty := true;
  MinDiffReductionTime := 0;
|}.

(** The fields that [New] computes. *)
Definition targetTimespan (p : Params) : Z := Z.quot (TargetTimespan p) Second.
Definition minRetargetTimespan (p : Params) : Z := Z.quot (targetTimespan p) (RetargetAdjustmentFactor p).
Definition maxRetargetTimespan (p : Params) : Z := int64 (targetTimespan p * RetargetAdjustmentFactor p).
Definition blocksPerRetarget (p : Params) : Z :=
  int32 (Z.quot (targetTimespan p) (Z.quot (TargetTimePerBlock p) Second)).

Inductive DifficultyError : Type := ErrNoRetargetBlock.

(** * The rules *)

Definition SatoshiPerBitcoin : Z := 100000000.
Definition baseSubsidy : Z := 50 * SatoshiPerBitcoin.

(** A shift by 64 or more gives 0, as does any shift by more than 32 here. *)
Definition CalcBlockSubsidy (h : Z) (p : Params) : Z :=
  if SubsidyReductionInterval p =? 0 then baseSubsidy
  else Z.shiftr baseSubsidy (uint64 (Z.quot h (SubsidyReductionInterval p))).

Section Rules.
Context `{HeaderCtx Hdr}.

(** [for iterNode != nil && iterNode.Height()%c.BlocksPerRetarget() != 0 &&
    iterNode.Bits() == PowLimitBits]: the height decreases. *)
Fixpoint find_prev_loop (fuel : nat) (p : Params) (iterNode : option Hdr) : option Hdr :=
  match iterNode with
  | None => None
  | Some n =>
      if negb (Z.rem (Height n) (blocksPerRetarget p) =? 0) && (ctx_Bits n =? PowLimitBits p) then
        match fuel with O => None | S fuel' => find_prev_loop fuel' p (Parent n) end
      else Some n
  end.

Definition findPrevTestNetDifficulty (startNode : Hdr) (p : Params) : Z :=
  match find_prev_loop (S (Z.to_nat (Height startNode))) p (Some startNode) with
  | Some n => ctx_Bits n
  | None => PowLimitBits p
  end.

(** The time span is clamped, the target scaled and limited. *)
Definition clamp_timespan (p : Params) (actual : Z) : Z :=
  if actual <? minRetargetTimespan p then minRetargetTimespan p
  else if actual >? maxRetargetTimespan p then maxRetargetTimespan p else actual.

Definition new_target (p : Params) (bits adjusted : Z) : Z :=
  let newTarget := CompactToBig bits * adjusted / targetTimespan p in
  if newTarget >? PowLimit p then PowLimit p else newTarget.

(** The division is Euclidean: [targetTimespan] is positive in every network. *)
Definition calcNextRequiredDifficulty (lastNode : option Hdr) (newBlockTime : Z) (p : Params)
  : outcome DifficultyError Z :=
  if PoWNoRetargeting p then Ok (PowLimitBits p) else
  match lastNode with
  | None => Ok (PowLimitBits p)
  | Some lastNode =>
      if negb (Z.rem (int32 (Height lastNode + 1)) (blocksPerRetarget p) =? 0) then
        if ReduceMinDifficulty p then
          let reductionTime := Z.quot (MinDiffReductionTime p) Second in
          let allowMinTime := int64 (ctx_Timestamp lastNode + reductionTime) in
          if newBlockTime >? allowMinTime then Ok (PowLimitBits p)
          else Ok (findPrevTestNetDifficulty lastNode p)
        else Ok (ctx_Bits lastNode)
      else
        match RelativeAncestorCtx lastNode (int32 (blocksPerRetarget p - 1)) with
        | None => Err ErrNoRetargetBlock
        | Some firstNode =>
            let actualTimespan := int64 (ctx_Timestamp lastNode - ctx_Timestamp firstNode) in
            Ok (BigToCompact (new_target p (ctx_Bits lastNode) (clamp_timespan p actualTimespan)))
        end
  end.

(** [for durationVal > 0 && newTarget.Cmp(powLimit) < 0] *)
Fixpoint easiest_loop (fuel : nat) (p : Params) (durationVal newTarget : Z) : option Z :=
  if (durationVal >? 0) && (newTarget <? PowLimit p) then
    match fuel with
    | O => None
    | S fuel' =>
        easiest_loop fuel' p (int64 (durationVal - maxRetargetTimespan p))
          (newTarget * RetargetAdjustmentFactor p)
    end
  else Some newTarget.

(** With a positive adjusted time span each round subtracts a second at least. *)
Definition calcEasiestDifficulty (p : Params) (bits duration : Z) : option Z :=
  let durationVal := Z.quot duration Second in
  if ReduceMinDifficulty p && (durationVal >? Z.quot (MinDiffReductionTime p) Second)
  then Some (PowLimitBits p)
  else
    match easiest_loop (S (Z.to_nat durationVal)) p durationVal (CompactToBig bits) with
    | None => None
    | Some newTarget =>
        Some (BigToCompact (if newTarget >? PowLimit p then PowLimit p else newTarget))
    end.
End Rules.

(** * Retargeting *)

Record params_ok (p : Params) : Prop := {
  limit_ok : 0 < PowLimit p < 256 ^ 254;
  timespan_ok : 0 < targetTimespan p;
  clamp_ok : 0 < minRetargetTimespan p <= maxRetargetTimespan p;
  blocks_ok : 1 <= blocksPerRetarget p < 2 ^ 31;
}.

Lemma main_params_ok : params_ok MainNetParams.
Proof. split; vm_compute; split; congruence || reflexivity. Qed.

Lemma clamp_range p actual :
  params_ok p -> minRetargetTimespan p <= clamp_timespan p actual <= maxRetargetTimespan p.
Proof.
  intros Hp. destruct (clamp_ok p Hp). unfold clamp_timespan.
  destruct (Z.ltb_spec actual (minRetargetTimespan p)); [lia |].
  destruct (Z.gtb_spec actual (maxRetargetTimespan p)); lia.
Qed.

(** What the difficulty bits of the next block can be read back as. *)
Lemma compact_le n : 0 <= n < 256 ^ 254 -> 0 <= CompactToBig (BigToCompact n) <= n.
Proof.
  intros Hn. destruct (Z.eq_dec n 0) as [-> | Hz]; [change (CompactToBig (BigToCompact 0)) with 0; lia |].
  rewrite compact_value by lia. apply scaled_top_le; [lia |].
  destruct (top_compact_exp n ltac:(lia)). lia.
Qed.

Lemma new_target_range p bits adjusted :
  params_ok p -> 0 <= CompactToBig bits -> 0 <= adjusted ->
  0 <= new_target p bits adjusted <= PowLimit p /\
  new_target p bits adjusted <= CompactToBig bits * adjusted / targetTimespan p.
Proof.
  intros Hp Hb Ha. destruct (limit_ok p Hp). pose proof (timespan_ok p Hp). unfold new_target.
  assert (0 <= CompactToBig bits * adjusted / targetTimespan p) by (apply Z.div_pos; nia).
  destruct (Z.gtb_spec (CompactToBig bits * adjusted / targetTimespan p) (PowLimit p)); lia.
Qed.

Section Retarget.
Context `{HeaderCtxLaws Hdr ok}.

Lemma back_ok n : ok n -> forall k, Z.of_nat k <= Height n ->
  exists m, back k n = Some m /\ ok m /\ Height m = Height n - Z.of_nat k.
Proof.
  intros Hok k. revert n Hok. induction k as [| k IH]; intros n Hok Hk; cbn [back].
  - exists n. split_and!; auto. lia.
  - destruct (Parent n) as [q |] eqn:Hq.
    + destruct (ok_parent n q Hok Hq) as [Hqok Hqh].
      destruct (IH q Hqok ltac:(lia)) as (m & Hm & Hmok & Hmh). exists m. split_and!; auto. lia.
    + apply (ok_first n Hok) in Hq. lia.
Qed.

Definition at_retarget (p : Params) (n : Hdr) : bool :=
  (Height n + 1) mod blocksPerRetarget p =? 0.

Lemma at_retarget_rem p n :
  params_ok p -> ok n -> Height n + 1 < 2 ^ 31 ->
  (Z.rem (int32 (Height n + 1)) (blocksPerRetarget p) =? 0) = at_retarget p n.
Proof.
  intros Hp Hok Hb. pose proof (ok_height n Hok). pose proof (blocks_ok p Hp).
  rewrite int32_small, Z.rem_mod_nonneg by lia. reflexivity.
Qed.

(** At a retarget the first block of the period exists. *)
Lemma retarget_first p n :
  params_ok p -> ok n -> Height n + 1 < 2 ^ 31 -> at_retarget p n = true ->
  exists first, RelativeAncestorCtx n (int32 (blocksPerRetarget p - 1)) = Some first /\
    ok first /\ Height first = Height n + 1 - blocksPerRetarget p.
Proof.
  intros Hp Hok Hb Hr. pose proof (ok_height n Hok). pose proof (blocks_ok p Hp) as Hbl.
  unfold at_retarget in Hr. apply Z.eqb_eq, Z.mod_divide in Hr as [q Hq]; [| lia].
  assert (1 <= q) by nia. rewrite int32_small, ok_relative by (done || lia).
  destruct (back_ok n Hok (Z.to_nat (blocksPerRetarget p - 1))) as (m & Hm & Hmok & Hmh); [nia |].
  exists m. split_and!; auto. lia.
Qed.

(** The last block from [n] back that the minimum difficulty rule did not
    decide. *)
Definition regular (p : Params) (n : Hdr) : bool :=
  (Height n mod blocksPerRetarget p =? 0) || negb (ctx_Bits n =? PowLimitBits p).

Lemma find_prev_regular p fuel : forall n,
  params_ok p -> ok n -> Height n < Z.of_nat fuel ->
  exists k m, find_prev_loop fuel p (Some n) = Some m /\ back k n = Some m /\ regular p m = true /\
    (forall j x, (j < k)%nat -> back j n = Some x -> regular p x = false).
Proof.
  induction fuel as [| fuel IH]; intros n Hp Hok Hf; [pose proof (ok_height n Hok); lia |].
  pose proof (ok_height n Hok). pose proof (blocks_ok p Hp).
  assert (Hcond : negb (Z.rem (Height n) (blocksPerRetarget p) =? 0) && (ctx_Bits n =? PowLimitBits p)
                  = negb (regular p n)).
  { unfold regular. rewrite Z.rem_mod_nonneg by lia. now rewrite negb_orb, negb_involutive. }
  cbn [find_prev_loop]. rewrite Hcond. destruct (regular p n) eqn:Hreg; cbn [negb].
  - exists 0%nat, n. split_and!; auto. lia.
  - destruct (Parent n) as [q |] eqn:Hq.
    + destruct (ok_parent n q Hok Hq) as [Hqok Hqh].
      destruct (IH q Hp Hqok ltac:(lia)) as (k & m & Hl & Hm & Hmr & Hbefore).
      exists (S k), m. cbn [back]. rewrite Hq. split_and!; auto.
      intros [| j] x Hj Hx; cbn [back] in Hx; [now injection Hx as <- |].
      rewrite Hq in Hx. apply (Hbefore j); [lia | done].
    + apply (ok_first n Hok) in Hq. unfold regular in Hreg. rewrite Hq in Hreg.
      rewrite Z.mod_0_l in Hreg by lia. discriminate.
Qed.
End Retarget.

(** Every target within the limit of the main network is at most the one that
    the limit is written as. *)
Lemma target_below_limit bits :
  0 <= bits < 2 ^ 32 -> CompactToBig bits <= mainPowLimit ->
  CompactToBig bits <= CompactToBig (PowLimitBits MainNetParams).
Proof.
  intros Hb Hl. change (PowLimitBits MainNetParams) with (BigToCompact mainPowLimit).
  apply compact_read_largest; [| done..]. split; vm_compute; reflexivity.
Qed.

(** ** The supply *)

Definition MaxSatoshi : Z := 21000000 * SatoshiPerBitcoin.

(** The subsidies of the first [n] blocks. *)
Fixpoint total_subsidy (n : nat) (p : Params) : Z :=
  match n with O => 0 | S n' => total_subsidy n' p + CalcBlockSubsidy (Z.of_nat n') p end.

Definition era (k : Z) : Z := baseSubsidy / 2 ^ k.


Lemma era_half k : 0 <= k -> era (k + 1) = era k / 2.
Proof.
  intros Hk. unfold era. rewrite Z.pow_add_r, <- Z.div_div by (try lia; apply Z.pow_nonzero; lia).
  reflexivity.
Qed.

Lemma era_range k : 0 <= k -> 0 <= era k <= baseSubsidy.
Proof.
  intros Hk. unfold era. assert (0 < 2 ^ k) by (apply Z.pow_pos_nonneg; lia). unfold baseSubsidy, SatoshiPerBitcoin.
  split; [apply Z.div_pos | apply Z.div_le_upper_bound]; nia.
Qed.

Lemma era_succ k : 0 <= k -> 2 * era (k + 1) <= era k /\ 0 <= era (k + 1).
Proof.
  intros Hk. pose proof (era_range (k + 1) ltac:(lia)). rewrite era_half in * by lia.
  pose proof (Z.mul_div_le (era k) 2 ltac:(lia)). lia.
Qed.

Lemma era_zero k : 33 <= k -> era k = 0.
Proof.
  intros Hk. apply Z.div_small. split; [done |]. eapply Z.lt_le_trans; [| now apply (Z.pow_le_mono_r 2 33)].
  reflexivity.
Qed.

Lemma subsidy_era h p :
  0 <= h < 2 ^ 31 -> 0 < SubsidyReductionInterval p ->
  CalcBlockSubsidy h p = era (h / SubsidyReductionInterval p).
Proof.
  intros Hh Hi. unfold CalcBlockSubsidy. replace (_ =? 0) with false by lia.
  assert (0 <= h / SubsidyReductionInterval p) by (apply Z.div_pos; lia).
  assert (h / SubsidyReductionInterval p <= h) by (apply Z.div_le_upper_bound; nia).
  rewrite Z.quot_div_nonneg, wrapU_small, Z.shiftr_div_pow2 by lia. reflexivity.
Qed.

(** What has been and what can still be paid out. *)
Lemma supply_potential n p :
  0 < SubsidyReductionInterval p -> Z.of_nat n < 2 ^ 31 ->
  let i := SubsidyReductionInterval p in
  let k := Z.of_nat n / i in
  total_subsidy n p + ((k + 1) * i - Z.of_nat n) * era k + i * era k <= 2 * i * baseSubsidy.
Proof.
  cbn zeta. intros Hi. set (i := SubsidyReductionInterval p) in *.
  induction n as [| n IH]; intros Hn.
  - cbn [total_subsidy]. rewrite Z.div_0_l by lia. unfold era. rewrite Z.pow_0_r, Z.div_1_r. lia.
  - cbn [total_subsidy]. specialize (IH ltac:(lia)). rewrite subsidy_era by lia. fold i.
    pose proof (Z.div_mod (Z.of_nat n) i ltac:(lia)) as Hd.
    pose proof (Z.mod_pos_bound (Z.of_nat n) i Hi) as Hm.
    set (k := Z.of_nat n / i) in *. assert (0 <= k) by (apply Z.div_pos; lia).
    rewrite Nat2Z.inj_succ. destruct (era_succ k ltac:(lia)) as [He He0].
    destruct (Z.eq_dec (Z.of_nat n mod i) (i - 1)) as [Hlast | Hmid].
    + replace (Z.succ (Z.of_nat n) / i) with (k + 1) by (apply Z.div_unique with 0; lia). nia.
    + replace (Z.succ (Z.of_nat n) / i) with k by (apply Z.div_unique with (Z.of_nat n mod i + 1); lia). nia.
Qed.

(** * The claims *)

(** C36: the difficulty of the next block, for any headers that satisfy the
    interface.  At the end of a period the first block of the period is found
    (the error is impossible), the new bits are those of the last target scaled
    by the clamped time the period took, and the target they are read back as
    is at most the limit of the network and at most what the longest allowed
    time gives.  At the other heights the bits stay those of the last block,
    or, where minimum difficulty blocks are allowed, are the limit when the
    block is late enough and otherwise those of the nearest block back that
    starts a period or is not of minimum difficulty. *)
Theorem next_difficulty `{HeaderCtxLaws Hdr ok} (p : Params) (n : Hdr) (t : Z) :
  params_ok p -> PoWNoRetargeting p = false -> ok n -> Height n + 1 < 2 ^ 31 ->
  (at_retarget p n = true -> 0 <= CompactToBig (ctx_Bits n) ->
     exists first bits,
       let adjusted := clamp_timespan p (int64 (ctx_Timestamp n - ctx_Timestamp first)) in
       ok first /\ Height first = Height n + 1 - blocksPerRetarget p /\
       minRetargetTimespan p <= adjusted <= maxRetargetTimespan p /\
       calcNextRequiredDifficulty (Some n) t p = Ok bits /\
       bits = BigToCompact (new_target p (ctx_Bits n) adjusted) /\
       0 <= CompactToBig bits <= PowLimit p /\
       CompactToBig bits <= CompactToBig (ctx_Bits n) * maxRetargetTimespan p / targetTimespan p) /\
  (at_retarget p n = false -> ReduceMinDifficulty p = false ->
     calcNextRequiredDifficulty (Some n) t p = Ok (ctx_Bits n)) /\
  (at_retarget p n = false -> ReduceMinDifficulty p = true ->
     if t >? int64 (ctx_Timestamp n + Z.quot (MinDiffReductionTime p) Second)
     then calcNextRequiredDifficulty (Some n) t p = Ok (PowLimitBits p)
     else exists k m, back k n = Some m /\ regular p m = true /\
            (forall j x, (j < k)%nat -> back j n = Some x -> regular p x = false) /\
            calcNextRequiredDifficulty (Some n) t p = Ok (ctx_Bits m)).
Proof.
  intros Hp Hr Hok Hb. pose proof (ok_height n Hok).
  unfold calcNextRequiredDifficulty. rewrite Hr, at_retarget_rem by done. split_and!.
  - intros Hat Hbits. rewrite Hat. cbn [negb].
    destruct (retarget_first p n Hp Hok Hb Hat) as (first & -> & Hfok & Hfh).
    exists first, (BigToCompact (new_target p (ctx_Bits n)
      (clamp_timespan p (int64 (ctx_Timestamp n - ctx_Timestamp first))))).
    cbn zeta. set (adj := clamp_timespan p _).
    pose proof (clamp_range p (int64 (ctx_Timestamp n - ctx_Timestamp first)) Hp) as Ha. fold adj in Ha.
    pose proof (clamp_ok p Hp). pose proof (timespan_ok p Hp).
    destruct (new_target_range p (ctx_Bits n) adj Hp Hbits ltac:(lia)) as [Hn1 Hn2].
    pose proof (compact_le (new_target p (ctx_Bits n) adj)
      (conj (proj1 Hn1) (Z.le_lt_trans _ _ _ (proj2 Hn1) (proj2 (limit_ok p Hp))))).
    clearbody adj. assert (CompactToBig (ctx_Bits n) * adj / targetTimespan p
            <= CompactToBig (ctx_Bits n) * maxRetargetTimespan p / targetTimespan p)
      by (apply Z.div_le_mono; nia).
    split_and!; done || lia.
  - intros Hat Hred. now rewrite Hat, Hred.
  - intros Hat Hred. rewrite Hat, Hred. cbn [negb].
    destruct (t >? _); [done |].
    destruct (find_prev_regular p (S (Z.to_nat (Height n))) n Hp Hok ltac:(lia))
      as (k & m & Hl & Hm & Hreg & Hbefore).
    exists k, m. unfold findPrevTestNetDifficulty. rewrite Hl. by split_and!.
Qed.

Lemma next_difficulty_witness :
  let n := Node None None (mkNodeData [] 0 0 1 0x1c00ffff 0 1000 []) in
  calcNextRequiredDifficulty (Some n) 1000 MainNetParams = Ok 0x1c00ffff.
Proof.
  intros n. assert (Hok : node_ok n) by now constructor.
  destruct (next_difficulty MainNetParams n 1000 main_params_ok eq_refl Hok) as (_ & _ & Hlate);
    [reflexivity |].
  specialize (Hlate eq_refl eq_refl).
  change (1000 >? int64 (ctx_Timestamp n + Z.quot (MinDiffReductionTime MainNetParams) Second))
    with false in Hlate.
  destruct Hlate as (k & m & Hm & _ & _ & ->). destruct k as [| k]; [| discriminate].
  now injection Hm as <-.
Defined.

(** On the main network of this repository the difficulty does not rise.  With
    the rule for minimum difficulty switched on and a reduction time of 0,
    every block that is later than its parent by a second needs the minimum
    difficulty only, whatever the bits of its parent are, except for the one
    block in 2016 that ends a period; the next block is again of minimum
    difficulty. *)
Lemma main_net_minimum (n : blockNode) (t : Z) :
  node_ok n -> height n + 1 < 2 ^ 31 -> 0 <= n_timestamp (data n) < 2 ^ 63 ->
  (height n + 1) mod 2016 <> 0 -> n_timestamp (data n) < t ->
  calcNextRequiredDifficulty (Some n) t MainNetParams = Ok (PowLimitBits MainNetParams) /\
  CalcWork (PowLimitBits MainNetParams) = 0x100010001 /\
  (forall bits, 0 < CompactToBig bits <= mainPowLimit -> 0 <= bits < 2 ^ 32 ->
     CalcWork (PowLimitBits MainNetParams) <= CalcWork bits).
Proof.
  intros Hok Hb Hts Hh Ht. split; [| split; [vm_compute; reflexivity |]].
  - assert (Hat : at_retarget MainNetParams n = false).
    { unfold at_retarget. change (blocksPerRetarget MainNetParams) with 2016.
      apply Z.eqb_neq. exact Hh. }
    unfold calcNextRequiredDifficulty. cbn [PoWNoRetargeting MainNetParams].
    rewrite (at_retarget_rem (ok := node_ok) MainNetParams n main_params_ok Hok), Hat by exact Hb. cbn [negb ReduceMinDifficulty].
    change (Z.quot (MinDiffReductionTime MainNetParams) Second) with 0.
    rewrite Z.add_0_r. cbn [ctx_Timestamp blockNode_ctx]. rewrite int64_small by lia.
    now replace (t >? n_timestamp (data n)) with true by lia.
  - intros bits Hlimit Hrange. apply work_antitone. split; [lia |]. apply target_below_limit; lia.
Qed.

Lemma main_net_minimum_witness :
  let n := Node None None (mkNodeData [] 0 0 1 0x1c00ffff 0 1000 []) in
  calcNextRequiredDifficulty (Some n) 1001 MainNetParams = Ok 0x1d00ffff.
Proof.
  intros n. assert (Hok : node_ok n) by now constructor.
  refine (proj1 (main_net_minimum n 1001 Hok _ _ _ _)).
  - reflexivity.
  - vm_compute. split; congruence || reflexivity.
  - vm_compute. congruence.
  - reflexivity.
Defined.

(** C37: the supply.  On the main network the subsidy of a block is never
    negative and never above 50 coins, it halves (rounding down) every 210,000
    blocks, it is 0 from block 6,930,000 on, and the subsidies of any number of
    first blocks together are at most the 21 million coins of [MaxSatoshi]. *)
Theorem supply_bounded (h : Z) (n : nat) :
  0 <= h -> h + 210000 < 2 ^ 31 -> Z.of_nat n < 2 ^ 31 ->
  0 <= CalcBlockSubsidy h MainNetParams <= 50 * SatoshiPerBitcoin /\
  CalcBlockSubsidy (h + 210000) MainNetParams = CalcBlockSubsidy h MainNetParams / 2 /\
  (6930000 <= h -> CalcBlockSubsidy h MainNetParams = 0) /\
  total_subsidy n MainNetParams <= MaxSatoshi.
Proof.
  intros Hh Hb Hn. rewrite !subsidy_era by (done || lia).
  change (SubsidyReductionInterval MainNetParams) with 210000.
  assert (Hk : 0 <= h / 210000) by (apply Z.div_pos; lia).
  split; [apply era_range; lia |]. split; [| split].
  - replace (h + 210000) with (h + 1 * 210000) by lia. rewrite Z.div_add by lia.
    now apply era_half.
  - intros Hlate. apply era_zero. apply Z.div_le_lower_bound; lia.
  - pose proof (supply_potential n MainNetParams eq_refl Hn) as Hs. cbn zeta in Hs.
    change (SubsidyReductionInterval MainNetParams) with 210000 in Hs.
    set (k := Z.of_nat n / 210000) in *.
    assert (0 <= k) by (apply Z.div_pos; lia).
    pose proof (Z.mod_pos_bound (Z.of_nat n) 210000 ltac:(lia)).
    pose proof (Z.div_mod (Z.of_nat n) 210000 ltac:(lia)) as Hd. fold k in Hd.
    pose proof (era_range k ltac:(lia)). unfold MaxSatoshi, baseSubsidy in *. nia.
Qed.

Lemma supply_bounded_witness :
  CalcBlockSubsidy 210000 MainNetParams = 2500000000 /\ total_subsidy 3 MainNetParams <= MaxSatoshi.
Proof.
  destruct (supply_bounded 0 3) as (_ & Hhalf & _ & Hsum); [done | done | done |].
  split; [rewrite <- (Z.add_0_l 210000), Hhalf; reflexivity | exact Hsum].
Defined.
