(* ===== verification/TxRules.v ===== *)
(** Rules for a transaction on its own (src/btcd/blockchain/validate.go,
    src/btcd/blockchain/weight.go) and the errors of the block rules
    (src/btcd/blockchain/error.go).

    A wrapped transaction is the message it wraps: [BtcUtil] shows that the
    memoized hashes are those of the message. *)

From stdpp Require Import gmap.
From S2P Require Import Prelude ScriptError Opcodes Tokenizer WireCommon MsgTx MsgBlock Script Crypto BtcUtil OpcodeExec Merkle Difficulty.
#[local] Open Scope Z_scope.

(** * Errors *)

(** The codes of a [RuleError]. *)
Inductive RuleCode : Set :=
| ErrDuplicateBlock
| ErrBlockTooBig
| ErrBlockWeightTooHigh
| ErrBlockVersionTooOld
| ErrInvalidTime
| ErrTimeTooOld
| ErrTimeTooNew
| ErrDifficultyTooLow
| ErrUnexpectedDifficulty
| ErrHighHash
| ErrBadMerkleRoot
| ErrBadCheckpoint
| ErrForkTooOld
| ErrCheckpointTimeTooOld
| ErrNoTransactions
| ErrNoTxInputs
| ErrNoTxOutputs
| ErrTxTooBig
| ErrBadTxOutValue
| ErrDuplicateTxInputs
| ErrBadTxInput
| ErrMissingTxOut
| ErrUnfinalizedTx
| ErrDuplicateTx
| ErrOverwriteTx
| ErrImmatureSpend
| ErrSpendTooHigh
| ErrBadFees
| ErrTooManySigOps
| ErrFirstTxNotCoinbase
| ErrMultipleCoinbases
| ErrBadCoinbaseScriptLen
| ErrBadCoinbaseValue
| ErrMissingCoinbaseHeight
| ErrBadCoinbaseHeight
| ErrScriptMalformed
| ErrScriptValidation
| ErrUnexpectedWitness
| ErrInvalidWitnessCommitment
| ErrWitnessCommitmentMismatch
| ErrPreviousBlockUnknown
| ErrInvalidAncestorBlock
| ErrPrevBlockNotBest.

(** An error of these rules: one with a code, an assertion, or an error of the
    script builder.  Descriptions are left out. *)
Inductive RuleError : Set :=
| ruleError (c : RuleCode)
| AssertError
| builderError.

#[global] Instance RuleCode_eq_dec : EqDecision RuleCode.
Proof. solve_decision. Defined.
#[global] Instance RuleError_eq_dec : EqDecision RuleError.
Proof. solve_decision. Defined.

(** The result of a call that checks a rule. *)
Abbreviation checked := (outcome RuleError).

Definition check (b : bool) (c : RuleCode) : checked unit := if b then Err (ruleError c) else Ok tt.

(** * Sizes and limits *)

Definition MaxBlockWeight : Z := 4000000.
Definition MaxBlockBaseSize : Z := 1000000.
Definition MaxBlockSigOpsCost : Z := 80000.
Definition WitnessScaleFactor : Z := 4.
Definition MinCoinbaseScriptLen : Z := 2.
Definition MaxCoinbaseScriptLen : Z := 100.

Definition GetBlockWeight (msgBlock : MsgBlock) : Z :=
  int64 (block_SerializeSizeStripped msgBlock * (WitnessScaleFactor - 1) + block_SerializeSize msgBlock).

Definition GetTransactionWeight (msgTx : MsgTx) : Z :=
  int64 (SerializeSizeStripped msgTx * (WitnessScaleFactor - 1) + SerializeSize msgTx).

(** * Coinbases and lock times *)

#[global] Instance OutPoint_countable : Countable OutPoint.
Proof.
  refine (inj_countable' (fun op => (Hash op, Index op)) (fun p => mkOutPoint (fst p) (snd p)) _).
  now intros [].
Defined.

Definition isNullOutpoint (outpoint : OutPoint) : bool :=
  (Index outpoint =? MaxPrevOutIndex) && bool_decide (Hash outpoint = zeroHash).

Definition IsCoinBaseTx (msgTx : MsgTx) : bool :=
  match TxIns msgTx with
  | [ti] =>
      let prevOut := PreviousOutPoint ti in
      if negb (Index prevOut =? MaxPrevOutIndex) || negb (bool_decide (Hash prevOut = zeroHash))
      then false else true
  | _ => false
  end.

(** [blockTime] is the Unix time. *)
Definition IsFinalizedTransaction (msgTx : MsgTx) (blockHeight blockTime : Z) : bool :=
  let lockTime := LockTime msgTx in
  if lockTime =? 0 then true else
  let blockTimeOrHeight := if lockTime <? LockTimeThreshold then blockHeight else blockTime in
  if lockTime <? blockTimeOrHeight then true else
  forallb (fun ti => Sequence ti =? MaxTxInSequenceNum) (TxIns msgTx).

Record SequenceLock := mkSequenceLock { Seconds : Z; sl_BlockHeight : Z }.

Definition SequenceLockActive (l : SequenceLock) (blockHeight medianTimePast : Z) : bool :=
  if (Seconds l >=? medianTimePast) || (sl_BlockHeight l >=? blockHeight) then false else true.

Definition LockTimeToSequence (isSeconds : bool) (locktime : Z) : Z :=
  if negb isSeconds then locktime
  else Z.lor SequenceLockTimeIsSeconds (Z.shiftr locktime 9).

(** * Sanity of a transaction *)

(** The loop over the outputs with the running total. *)
Fixpoint check_values (totalSatoshi : Z) (outs : list TxOut) : checked unit :=
  match outs with
  | [] => Ok tt
  | txOut :: outs' =>
      let satoshi := Value txOut in
      let! _ := check (satoshi <? 0) ErrBadTxOutValue in
      let! _ := check (satoshi >? MaxSatoshi) ErrBadTxOutValue in
      let totalSatoshi := int64 (totalSatoshi + satoshi) in
      let! _ := check (totalSatoshi <? 0) ErrBadTxOutValue in
      let! _ := check (totalSatoshi >? MaxSatoshi) ErrBadTxOutValue in
      check_values totalSatoshi outs'
  end.

(** The loops that look for duplicates with a map of what they have seen. *)
Fixpoint check_unique {A} `{Countable A} (c : RuleCode) (seen : gset A) (l : list A) : checked unit :=
  match l with
  | [] => Ok tt
  | x :: l' => let! _ := check (bool_decide (x ∈ seen)) c in check_unique c ({[x]} ∪ seen) l'
  end.

Definition CheckTransactionSanity (msgTx : MsgTx) : checked unit :=
  let! _ := check (zlen (TxIns msgTx) =? 0) ErrNoTxInputs in
  let! _ := check (zlen (TxOuts msgTx) =? 0) ErrNoTxOutputs in
  let! _ := check (SerializeSizeStripped msgTx >? MaxBlockBaseSize) ErrTxTooBig in
  let! _ := check_values 0 (TxOuts msgTx) in
  let! _ := check_unique ErrDuplicateTxInputs ∅ (PreviousOutPoint <$> TxIns msgTx) in
  if IsCoinBaseTx msgTx then
    match TxIns msgTx with
    | ti :: _ =>
        let slen := zlen (SignatureScript ti) in
        check ((slen <? MinCoinbaseScriptLen) || (slen >? MaxCoinbaseScriptLen)) ErrBadCoinbaseScriptLen
    | [] => Panic
    end
  else check (existsb (fun ti => isNullOutpoint (PreviousOutPoint ti)) (TxIns msgTx)) ErrBadTxInput.

(** * Signature operations *)

(** A count has no error. *)
Definition counted {E A} (o : res A) : outcome E A :=
  match o with Ok a => Ok a | _ => Panic end.

Fixpoint sum_counts (total : Z) (scripts : list bytes) : checked Z :=
  match scripts with
  | [] => Ok total
  | s :: scripts' => let! n := counted (GetSigOpCount s) in sum_counts (int64 (total + n)) scripts'
  end.

Definition CountSigOps (msgTx : MsgTx) : checked Z :=
  let! n := sum_counts 0 (SignatureScript <$> TxIns msgTx) in
  sum_counts n (PkScript <$> TxOuts msgTx).

(** * Lemmas on checks *)

Lemma check_Ok b c : check b c = Ok tt <-> b = false.
Proof. unfold check. destruct b; split; congruence. Qed.

(** A sequence of checks succeeds when each of them does. *)
Lemma checked_seq {A} (o : checked unit) (k : checked A) a :
  (let! _ := o in k) = Ok a <-> o = Ok tt /\ k = Ok a.
Proof.
  destruct o as [[] | e |]; cbn [obind]; split; try tauto; try discriminate; intros [? ?]; discriminate.
Qed.

Lemma check_no_panic b c : is_panic (check b c) = false.
Proof. unfold check. now destruct b. Qed.

Lemma seq_no_panic {A B} (o : checked A) (k : A -> checked B) :
  is_panic o = false -> (forall a, is_panic (k a) = false) -> is_panic (let! x := o in k x) = false.
Proof. intros Ho Hk. destruct o; cbn [obind]; [apply Hk | done | discriminate]. Qed.

#[export] Hint Resolve check_no_panic : go.

Lemma check_unique_Ok {A} `{Countable A} c (l : list A) : forall seen,
  check_unique c seen l = Ok tt <-> NoDup l /\ (forall x, x ∈ l -> x ∉ seen).
Proof.
  induction l as [| x l IH]; intros seen; cbn [check_unique].
  { split; [intros _; split; [constructor | set_solver] | done]. }
  rewrite checked_seq, check_Ok, bool_decide_eq_false, IH, NoDup_cons. set_solver.
Qed.

Lemma check_unique_no_panic {A} `{Countable A} c (l : list A) : forall seen,
  is_panic (check_unique c seen l) = false.
Proof.
  induction l as [| x l IH]; intros seen; [done |]. cbn [check_unique]. apply seq_no_panic; auto with go.
Qed.

Definition amount_ok (v : Z) : Prop := 0 <= v <= MaxSatoshi.

Lemma check_values_Ok outs : forall total,
  amount_ok total ->
  check_values total outs = Ok tt <->
    Forall (fun o => amount_ok (Value o)) outs /\ total + zsum Value outs <= MaxSatoshi.
Proof.
  induction outs as [| o outs IH]; intros total Ht; cbn [check_values].
  { unfold amount_ok in Ht. change (zsum Value []) with 0. split; [intros _; split; [constructor | lia] | done]. }
  rewrite zsum_cons, Forall_cons, !checked_seq, !check_Ok. unfold amount_ok in *.
  assert (Hmax : MaxSatoshi < 2 ^ 62) by reflexivity.
  destruct (Z.ltb_spec (Value o) 0); [split; [intros [? _]; discriminate | lia] |].
  destruct (Z.gtb_spec (Value o) MaxSatoshi); [split; [intros (_ & ? & _); discriminate | lia] |].
  rewrite int64_small by lia.
  destruct (Z.ltb_spec (total + Value o) 0); [lia |].
  destruct (Z.gtb_spec (total + Value o) MaxSatoshi) as [Hgt | Hle].
  - split; [intros (_ & _ & _ & ? & _); discriminate |]. intros [[_ Hf] Hs].
    assert (0 <= zsum Value outs); [| lia].
    clear -Hf. induction Hf as [| a l Ha Hl IHl]; [done |]. rewrite zsum_cons. lia.
  - rewrite IH by lia. rewrite Z.add_assoc. split.
    + intros (_ & _ & _ & _ & Hf & Hs). split; [split; [lia | exact Hf] | exact Hs].
    + intros [[_ Hf] Hs]. split_and!; auto.
Qed.

Lemma check_values_no_panic outs : forall total, is_panic (check_values total outs) = false.
Proof.
  induction outs as [| o outs IH]; intros total; [done |]. cbn [check_values].
  repeat (apply seq_no_panic; [apply check_no_panic | intros _]). apply IH.
Qed.

(** * What is sane *)

Definition coinbase_script_ok (msgTx : MsgTx) : Prop :=
  Forall (fun ti => MinCoinbaseScriptLen <= zlen (SignatureScript ti) <= MaxCoinbaseScriptLen) (TxIns msgTx).

Record tx_sane (msgTx : MsgTx) : Prop := {
  has_inputs : TxIns msgTx <> [];
  has_outputs : TxOuts msgTx <> [];
  base_size : SerializeSizeStripped msgTx <= MaxBlockBaseSize;
  amounts : Forall (fun o => amount_ok (Value o)) (TxOuts msgTx);
  total_amount : zsum Value (TxOuts msgTx) <= MaxSatoshi;
  distinct_inputs : NoDup (PreviousOutPoint <$> TxIns msgTx);
  coinbase_or_not :
    if IsCoinBaseTx msgTx then coinbase_script_ok msgTx
    else Forall (fun ti => isNullOutpoint (PreviousOutPoint ti) = false) (TxIns msgTx);
}.

Lemma zlen_eqb_nil {A} (l : list A) : (zlen l =? 0) = false <-> l <> [].
Proof. destruct l; [done |]. rewrite zlen_cons. pose proof (zlen_nonneg l). split; [done | lia]. Qed.

Lemma IsCoinBaseTx_one msgTx : IsCoinBaseTx msgTx = true -> exists ti, TxIns msgTx = [ti].
Proof. unfold IsCoinBaseTx. destruct (TxIns msgTx) as [| ti [| ti' ins]]; eauto; discriminate. Qed.

Lemma existsb_false {A} (f : A -> bool) l : existsb f l = false <-> Forall (fun a => f a = false) l.
Proof.
  induction l as [| a l IH]; cbn [existsb]; [now split |]. rewrite orb_false_iff, Forall_cons. tauto.
Qed.

Lemma last_check_Ok msgTx :
  TxIns msgTx <> [] ->
  (if IsCoinBaseTx msgTx then
     match TxIns msgTx with
     | ti :: _ =>
         let slen := zlen (SignatureScript ti) in
         check ((slen <? MinCoinbaseScriptLen) || (slen >? MaxCoinbaseScriptLen)) ErrBadCoinbaseScriptLen
     | [] => Panic
     end
   else check (existsb (fun ti => isNullOutpoint (PreviousOutPoint ti)) (TxIns msgTx)) ErrBadTxInput) = Ok tt
  <-> (if IsCoinBaseTx msgTx then coinbase_script_ok msgTx
       else Forall (fun ti => isNullOutpoint (PreviousOutPoint ti) = false) (TxIns msgTx)).
Proof.
  intros Hne. destruct (IsCoinBaseTx msgTx) eqn:Hcb.
  - destruct (IsCoinBaseTx_one _ Hcb) as [ti Hti]. unfold coinbase_script_ok. rewrite Hti.
    cbn zeta. rewrite check_Ok, Forall_singleton, orb_false_iff, Z.ltb_ge, Z.gtb_ltb, Z.ltb_ge. tauto.
  - rewrite check_Ok. apply existsb_false.
Qed.

Lemma tx_sanity_Ok msgTx : CheckTransactionSanity msgTx = Ok tt <-> tx_sane msgTx.
Proof.
  unfold CheckTransactionSanity. rewrite !checked_seq, !check_Ok, !zlen_eqb_nil, check_unique_Ok.
  rewrite check_values_Ok, Z.gtb_ltb, Z.ltb_ge by done. rewrite Z.add_0_l. split.
  - intros (Hi & Ho & Hs & (Ha & Ht) & (Hd & _) & Hc). apply last_check_Ok in Hc; [now constructor | done].
  - intros [Hi Ho Hs Ha Ht Hd Hc]. apply last_check_Ok in Hc; [| done]. split_and!; auto. set_solver.
Qed.

Lemma tx_sanity_no_panic msgTx : is_panic (CheckTransactionSanity msgTx) = false.
Proof.
  unfold CheckTransactionSanity. repeat (apply seq_no_panic; [apply check_no_panic | intros _]).
  apply seq_no_panic; [apply check_values_no_panic | intros _].
  apply seq_no_panic; [apply check_unique_no_panic | intros _].
  destruct (IsCoinBaseTx msgTx) eqn:Hcb; [| apply check_no_panic].
  destruct (IsCoinBaseTx_one _ Hcb) as [ti ->]. apply check_no_panic.
Qed.

(** * Counting signature operations *)

Definition sig_ops (script : bytes) : Z := match GetSigOpCount script with Ok n => n | _ => 0 end.

Lemma sig_ops_spec script :
  zlen script < 2 ^ 31 ->
  GetSigOpCount script = Ok (sig_ops script) /\ 0 <= sig_ops script <= 20 * zlen script.
Proof.
  intros Hl. unfold sig_ops, GetSigOpCount. destruct (parse_all script) as (toks & tail & -> & Hok & Hs).
  rewrite countSigOpsV0_spec by done. split; [reflexivity |].
  pose proof (sigops_bounds OP_INVALIDOPCODE toks). pose proof (sigops_max OP_INVALIDOPCODE toks).
  pose proof (length_enc_tokens toks). rewrite zlen_app. pose proof (zlen_nonneg tail). unfold zlen in *. lia.
Qed.

Lemma zsum_nonneg {A} (f : A -> Z) l : (forall a, 0 <= f a) -> 0 <= zsum f l.
Proof. intros Hf. induction l as [| a l IH]; [done |]. rewrite zsum_cons. specialize (Hf a). lia. Qed.

(** The scripts of a transaction are part of its size. *)
Lemma script_sizes msgTx :
  zsum zlen (SignatureScript <$> TxIns msgTx) + zsum zlen (PkScript <$> TxOuts msgTx)
  + 10 <= SerializeSizeStripped msgTx.
Proof.
  unfold SerializeSizeStripped, baseSize. rewrite !zsum_fmap.
  pose proof (VarIntSerializeSize_range (zlen (TxIns msgTx))).
  pose proof (VarIntSerializeSize_range (zlen (TxOuts msgTx))).
  destruct (zsum_bounds (fun t => zlen (SignatureScript t)) TxIn_SerializeSize (TxIns msgTx)).
  { intros t. unfold TxIn_SerializeSize. pose proof (VarIntSerializeSize_range (zlen (SignatureScript t))).
    pose proof (zlen_nonneg (SignatureScript t)). lia. }
  destruct (zsum_bounds (fun t => zlen (PkScript t)) TxOut_SerializeSize (TxOuts msgTx)).
  { intros t. unfold TxOut_SerializeSize. pose proof (VarIntSerializeSize_range (zlen (PkScript t))).
    pose proof (zlen_nonneg (PkScript t)). lia. }
  lia.
Qed.

Lemma sum_counts_spec scripts : forall total,
  0 <= total -> total + 20 * zsum zlen scripts < 2 ^ 31 ->
  sum_counts total scripts = Ok (total + zsum sig_ops scripts) /\
  0 <= zsum sig_ops scripts <= 20 * zsum zlen scripts.
Proof.
  induction scripts as [| s scripts IH]; intros total Ht Hb; cbn [sum_counts].
  { change (zsum sig_ops []) with 0. change (zsum zlen []) with 0. rewrite Z.add_0_r. done. }
  rewrite !zsum_cons in *. pose proof (zsum_nonneg zlen scripts zlen_nonneg). pose proof (zlen_nonneg s).
  destruct (sig_ops_spec s ltac:(lia)) as [-> Hs]. cbn [counted obind]. rewrite int64_small by lia.
  destruct (IH (total + sig_ops s) ltac:(lia) ltac:(lia)) as [-> Hr]. split; [f_equal; lia | lia].
Qed.

(** The operations of a transaction. *)
Definition tx_sig_ops (msgTx : MsgTx) : Z :=
  zsum sig_ops (SignatureScript <$> TxIns msgTx) + zsum sig_ops (PkScript <$> TxOuts msgTx).

Lemma CountSigOps_spec msgTx :
  SerializeSizeStripped msgTx <= MaxBlockBaseSize ->
  CountSigOps msgTx = Ok (tx_sig_ops msgTx) /\ 0 <= tx_sig_ops msgTx <= 20 * MaxBlockBaseSize.
Proof.
  intros Hs. pose proof (script_sizes msgTx). unfold CountSigOps, tx_sig_ops, MaxBlockBaseSize in *.
  pose proof (zsum_nonneg zlen (SignatureScript <$> TxIns msgTx) zlen_nonneg).
  pose proof (zsum_nonneg zlen (PkScript <$> TxOuts msgTx) zlen_nonneg).
  destruct (sum_counts_spec (SignatureScript <$> TxIns msgTx) 0) as [-> Hin]; [lia | lia |]. cbn [obind].
  destruct (sum_counts_spec (PkScript <$> TxOuts msgTx) (0 + zsum sig_ops (SignatureScript <$> TxIns msgTx)))
    as [-> Hout]; [lia | lia |].
  split; [f_equal; lia | lia].
Qed.
