(* ===== verification/Validate.v ===== *)
(** Context-free rules for headers and blocks, the header rules in context, the
    height in a coinbase and the witness commitment
    (src/btcd/blockchain/validate.go, src/btcd/blockchain/merkle.go).

    Times are seconds, as a decoded header has them: the test for a finer
    precision than a second always passes.  The adjusted time of the time
    source is an argument. *)

From stdpp Require Import gmap.
From S2P Require Import Prelude ScriptError ScriptNum Opcodes Tokenizer WireCommon MsgTx MsgBlock Script Crypto BtcUtil OpcodeExec ScriptBuilder Merkle WorkMath BlockIndex Difficulty TxRules.
#[local] Open Scope Z_scope.

(** * Headers *)

Definition BFNone : Z := 0.
Definition BFFastAdd : Z := 1.
Definition BFNoPoWCheck : Z := 2.
Definition MaxTimeOffsetSeconds : Z := 2 * 60 * 60.
Definition serializedHeightVersion : Z := 2.

Definition has_flag (flags bf : Z) : bool := Z.land flags bf =? bf.

Section Headers.
Context `{Crypto}.

Definition checkProofOfWork (header : BlockHeader) (powLimit flags : Z) : checked unit :=
  let target := CompactToBig (Bits header) in
  let! _ := check (target <=? 0) ErrUnexpectedDifficulty in
  let! _ := check (target >? powLimit) ErrUnexpectedDifficulty in
  if negb (has_flag flags BFNoPoWCheck) then
    check (HashToBig (BlockHash header) >? target) ErrHighHash
  else Ok tt.

Definition CheckBlockHeaderSanity (header : BlockHeader) (powLimit adjustedTime flags : Z) : checked unit :=
  let! _ := checkProofOfWork header powLimit flags in
  check (Timestamp header >? adjustedTime + MaxTimeOffsetSeconds) ErrTimeTooNew.
End Headers.

(** * Blocks *)

Section Blocks.
Context `{Crypto}.

(** [for i, tx := range transactions[1:]] *)
Fixpoint no_coinbase (txs : list MsgTx) : checked unit :=
  match txs with
  | [] => Ok tt
  | tx :: txs' => let! _ := check (IsCoinBaseTx tx) ErrMultipleCoinbases in no_coinbase txs'
  end.

Fixpoint all_sane (txs : list MsgTx) : checked unit :=
  match txs with
  | [] => Ok tt
  | tx :: txs' => let! _ := CheckTransactionSanity tx in all_sane txs'
  end.

Fixpoint sigop_limit (totalSigOps : Z) (txs : list MsgTx) : checked unit :=
  match txs with
  | [] => Ok tt
  | tx :: txs' =>
      let! n := CountSigOps tx in
      let total := int64 (totalSigOps + int64 (n * WitnessScaleFactor)) in
      let! _ := check ((total <? totalSigOps) || (total >? MaxBlockSigOpsCost)) ErrTooManySigOps in
      sigop_limit total txs'
  end.

(** The root has no error. *)
Definition root_of (txs : list MsgTx) (witness : bool) : checked bytes :=
  match CalcMerkleRoot txs witness with Ok r => Ok r | _ => Panic end.

Definition checkBlockSanity (block : MsgBlock) (powLimit adjustedTime flags : Z) : checked unit :=
  let header := Header block in
  let transactions := Transactions block in
  let! _ := CheckBlockHeaderSanity header powLimit adjustedTime flags in
  let numTx := zlen transactions in
  let! _ := check (numTx =? 0) ErrNoTransactions in
  let! _ := check (numTx >? MaxBlockBaseSize) ErrBlockTooBig in
  let! _ := check (block_SerializeSizeStripped block >? MaxBlockBaseSize) ErrBlockTooBig in
  let! tx0 := index transactions 0 in
  let! _ := check (negb (IsCoinBaseTx tx0)) ErrFirstTxNotCoinbase in
  let! _ := no_coinbase (tail transactions) in
  let! _ := all_sane transactions in
  let! calcMerkleRoot := root_of transactions false in
  let! _ := check (negb (bool_decide (MerkleRoot header = calcMerkleRoot))) ErrBadMerkleRoot in
  let! _ := check_unique ErrDuplicateTx ∅ (TxHash <$> transactions) in
  sigop_limit 0 transactions.

(** ** The height in a coinbase *)

(** An error of the builder is returned as it is. *)
Definition built (o : res ScriptBuilder) : checked bytes :=
  match o with
  | Ok b => match Script_ b with Ok s => Ok s | Err _ => Err builderError | Panic => Panic end
  | Err _ => Err builderError
  | Panic => Panic
  end.

Definition compareScript (height : Z) (script : bytes) : checked unit :=
  let! scriptHeight := built (AddInt64 height NewScriptBuilder) in
  check (negb (bool_decide (scriptHeight `prefix_of` script))) ErrBadCoinbaseHeight.

(** [copy] into an array of four bytes: what is longer is cut, what is shorter
    is followed by zeros, and [le_val] ignores zeros at the end. *)
Definition ExtractCoinbaseHeight (coinbaseTx : MsgTx) : checked Z :=
  let! txIn := index (TxIns coinbaseTx) 0 in
  let sigScript := SignatureScript txIn in
  let! _ := check (zlen sigScript <? 1) ErrMissingCoinbaseHeight in
  let opcode := byte_at sigScript 0 in
  if opcode =? OP_0 then Ok 0
  else if (opcode >=? OP_1) && (opcode <=? OP_16) then Ok (opcode - (OP_1 - 1))
  else
    let serializedLen := opcode in
    let! _ := check (zlen (zdrop 1 sigScript) <? serializedLen) ErrMissingCoinbaseHeight in
    let serializedHeight := int32 (le_val (ztake 4 (ztake serializedLen (zdrop 1 sigScript)))) in
    let! _ := compareScript serializedHeight sigScript in
    Ok serializedHeight.

Definition CheckSerializedHeight (coinbaseTx : MsgTx) (wantHeight : Z) : checked unit :=
  let! serializedHeight := ExtractCoinbaseHeight coinbaseTx in
  check (negb (serializedHeight =? wantHeight)) ErrBadCoinbaseHeight.

Definition ShouldHaveSerializedBlockHeight (header : BlockHeader) : bool :=
  bh_Version header >=? serializedHeightVersion.

(** ** The witness commitment *)

(** [for i := len(msgTx.TxOut) - 1; i >= 0; i--]: the list is reversed. *)
Fixpoint find_commitment (outs : list TxOut) : option bytes :=
  match outs with
  | [] => None
  | o :: outs' =>
      let pkScript := PkScript o in
      if (zlen pkScript >=? CoinbaseWitnessPkScriptLength)
         && bool_decide (WitnessMagicBytes `prefix_of` pkScript)
      then Some (zdrop (zlen WitnessMagicBytes) (ztake CoinbaseWitnessPkScriptLength pkScript))
      else find_commitment outs'
  end.

Definition ExtractWitnessCommitment (tx : MsgTx) : option bytes :=
  if negb (IsCoinBaseTx tx) then None else find_commitment (reverse (TxOuts tx)).

Definition ValidateWitnessCommitment (blk : MsgBlock) : checked unit :=
  let! _ := check (zlen (Transactions blk) =? 0) ErrNoTransactions in
  let! coinbaseTx := index (Transactions blk) 0 in
  let! _ := check (zlen (TxIns coinbaseTx) =? 0) ErrNoTxInputs in
  match ExtractWitnessCommitment coinbaseTx with
  | None => check (existsb HasWitness (Transactions blk)) ErrUnexpectedWitness
  | Some witnessCommitment =>
      let! txIn := index (TxIns coinbaseTx) 0 in
      let coinbaseWitness := Witness txIn in
      let! _ := check (negb (zlen coinbaseWitness =? 1)) ErrInvalidWitnessCommitment in
      let! witnessNonce := index coinbaseWitness 0 in
      let! _ := check (negb (zlen witnessNonce =? CoinbaseWitnessDataLen)) ErrInvalidWitnessCommitment in
      let! witnessMerkleRoot := root_of (Transactions blk) true in
      let computedCommitment := DoubleHashB (witnessMerkleRoot ++ witnessNonce) in
      check (negb (bool_decide (computedCommitment = witnessCommitment))) ErrWitnessCommitmentMismatch
  end.
End Blocks.

(** * Headers in context *)

(** What the rules ask a chain for: the interface ChainCtx.  The difficulty
    parameters are computed from the parameters as [New] does. *)
Record ChainCtx (Hdr : Type) := mkChainCtx {
  ChainParams : Params;
  VerifyCheckpoint : Z -> bytes -> bool;
  FindPreviousCheckpoint : checked (option Hdr);
}.
Arguments ChainParams {Hdr}.
Arguments VerifyCheckpoint {Hdr}.
Arguments FindPreviousCheckpoint {Hdr}.

Definition CheckBlockHeaderContext `{Crypto} `{HeaderCtx Hdr} (header : BlockHeader) (prevNode : Hdr)
    (flags : Z) (c : ChainCtx Hdr) (skipCheckpoint : bool) : checked unit :=
  let params := ChainParams c in
  let! _ :=
    if negb (has_flag flags BFFastAdd) then
      let! expectedDifficulty :=
        match calcNextRequiredDifficulty (Some prevNode) (Timestamp header) params with
        | Ok d => Ok d | Err _ => Err AssertError | Panic => Panic
        end in
      let! _ := check (negb (Bits header =? expectedDifficulty)) ErrUnexpectedDifficulty in
      let! medianTime :=
        match CalcPastMedianTime prevNode with Ok t => Ok t | _ => Panic end in
      check (negb (Timestamp header >? medianTime)) ErrTimeTooOld
    else Ok tt in
  let blockHeight := int32 (Height prevNode + 1) in
  let v := bh_Version header in
  let! _ := check ((v <? 2) && (blockHeight >=? BIP0034Height params)
                   || (v <? 3) && (blockHeight >=? BIP0066Height params)
                   || (v <? 4) && (blockHeight >=? BIP0065Height params)) ErrBlockVersionTooOld in
  if skipCheckpoint then Ok tt else
  let! _ := check (negb (VerifyCheckpoint c blockHeight (BlockHash header))) ErrBadCheckpoint in
  let! checkpointNode := FindPreviousCheckpoint c in
  match checkpointNode with
  | Some n => check (blockHeight <? Height n) ErrForkTooOld
  | None => Ok tt
  end.

(** * Sane blocks *)

Section Sane.
Context `{Crypto}.

Record header_sane (header : BlockHeader) (powLimit adjustedTime flags : Z) : Prop := {
  target_range : 0 < CompactToBig (Bits header) <= powLimit;
  enough_work : has_flag flags BFNoPoWCheck = false ->
    HashToBig (BlockHash header) <= CompactToBig (Bits header);
  not_too_new : Timestamp header <= adjustedTime + MaxTimeOffsetSeconds;
}.

Lemma header_sanity_Ok header powLimit adjustedTime flags :
  CheckBlockHeaderSanity header powLimit adjustedTime flags = Ok tt <->
  header_sane header powLimit adjustedTime flags.
Proof.
  unfold CheckBlockHeaderSanity, checkProofOfWork. rewrite !checked_seq, !check_Ok, Z.leb_gt, !Z.gtb_ltb, !Z.ltb_ge.
  split.
  - intros ((Hpos & Hlim & Hw) & Ht). split; [done | | done]. intros Hf. rewrite Hf in Hw.
    cbn [negb] in Hw. apply check_Ok in Hw. lia.
  - intros [Hr Hw Ht]. split_and!; try lia.
    destruct (has_flag flags BFNoPoWCheck); [done |]. apply check_Ok. specialize (Hw eq_refl). lia.
Qed.

Lemma header_sanity_no_panic header powLimit adjustedTime flags :
  is_panic (CheckBlockHeaderSanity header powLimit adjustedTime flags) = false.
Proof.
  unfold CheckBlockHeaderSanity, checkProofOfWork.
  repeat first [apply check_no_panic | apply seq_no_panic; [| intros _] | case_match; [| done]].
Qed.

Record block_sane (block : MsgBlock) (powLimit adjustedTime flags : Z) : Prop := {
  sane_header : header_sane (Header block) powLimit adjustedTime flags;
  small : block_SerializeSizeStripped block <= MaxBlockBaseSize;
  one_coinbase : exists tx0 txs, Transactions block = tx0 :: txs /\
    IsCoinBaseTx tx0 = true /\ Forall (fun tx => IsCoinBaseTx tx = false) txs;
  sane_txs : Forall tx_sane (Transactions block);
  right_root : merkle_root (leaves false (Transactions block)) = Some (MerkleRoot (Header block));
  distinct_txs : NoDup (TxHash <$> Transactions block);
  few_sig_ops : WitnessScaleFactor * zsum tx_sig_ops (Transactions block) <= MaxBlockSigOpsCost;
}.

Lemma no_coinbase_Ok txs : no_coinbase txs = Ok tt <-> Forall (fun tx => IsCoinBaseTx tx = false) txs.
Proof.
  induction txs as [| tx txs IH]; cbn [no_coinbase]; [now split |].
  rewrite checked_seq, check_Ok, IH, Forall_cons. tauto.
Qed.

Lemma no_coinbase_no_panic txs : is_panic (no_coinbase txs) = false.
Proof. induction txs; [done |]. apply seq_no_panic; auto with go. Qed.

Lemma all_sane_Ok txs : all_sane txs = Ok tt <-> Forall tx_sane txs.
Proof.
  induction txs as [| tx txs IH]; cbn [all_sane]; [now split |].
  rewrite checked_seq, tx_sanity_Ok, IH, Forall_cons. tauto.
Qed.

Lemma all_sane_no_panic txs : is_panic (all_sane txs) = false.
Proof. induction txs; [done |]. apply seq_no_panic; auto using tx_sanity_no_panic. Qed.

(** No addition overflows and no count fails, so that the limit is on the sum. *)
Lemma sigop_limit_spec txs : forall total,
  0 <= total <= MaxBlockSigOpsCost -> Forall (fun tx => SerializeSizeStripped tx <= MaxBlockBaseSize) txs ->
  (sigop_limit total txs = Ok tt <->
     total + WitnessScaleFactor * zsum tx_sig_ops txs <= MaxBlockSigOpsCost) /\
  is_panic (sigop_limit total txs) = false /\ 0 <= zsum tx_sig_ops txs.
Proof.
  induction txs as [| tx txs IH]; intros total Ht Hs; cbn [sigop_limit].
  { change (zsum tx_sig_ops []) with 0. split; [split; [lia | done] | done]. }
  apply Forall_cons in Hs as [Hs Hss]. destruct (CountSigOps_spec tx Hs) as [-> Hc]. cbn [obind].
  rewrite zsum_cons. unfold WitnessScaleFactor, MaxBlockSigOpsCost, MaxBlockBaseSize in *.
  rewrite !int64_small by (rewrite ?int64_small; lia).
  destruct (IH 0 ltac:(lia) Hss) as (_ & _ & Hnn).
  destruct (Z.gtb_spec (total + tx_sig_ops tx * 4) 80000) as [Hgt | Hle].
  - rewrite orb_true_r. split_and!; [split; [discriminate | lia] | done | lia].
  - replace (_ || _) with false by lia. cbn [check obind].
    destruct (IH (total + tx_sig_ops tx * 4) ltac:(lia) Hss) as (-> & Hp & _).
    split_and!; [| done | lia]. split; lia.
Qed.

Lemma tx_size_min tx : 10 <= SerializeSizeStripped tx.
Proof.
  pose proof (script_sizes tx). pose proof (zsum_nonneg zlen (SignatureScript <$> TxIns tx) zlen_nonneg).
  pose proof (zsum_nonneg zlen (PkScript <$> TxOuts tx) zlen_nonneg). lia.
Qed.

Lemma zsum_member {A} (f : A -> Z) l : (forall a, 0 <= f a) -> Forall (fun a => f a <= zsum f l) l.
Proof.
  intros Hf. induction l as [| a l IH]; constructor; rewrite zsum_cons.
  - pose proof (zsum_nonneg f l Hf). lia.
  - eapply Forall_impl; [exact IH |]. cbn. intros b. specialize (Hf a). lia.
Qed.

(** What the size of a block bounds. *)
Lemma block_size_bounds block :
  block_SerializeSizeStripped block <= MaxBlockBaseSize ->
  zlen (Transactions block) <= MaxBlockBaseSize /\
  Forall (fun tx => SerializeSizeStripped tx <= MaxBlockBaseSize) (Transactions block).
Proof.
  unfold block_SerializeSizeStripped. intros Hs.
  pose proof (VarIntSerializeSize_range (zlen (Transactions block))) as Hv.
  assert (Hpos : forall tx, 0 <= SerializeSizeStripped tx) by (intros tx; pose proof (tx_size_min tx); lia).
  unfold blockHeaderLen in Hs. split.
  - assert (Hl : zlen (Transactions block) <= zsum SerializeSizeStripped (Transactions block)); [| lia].
    clear Hs Hv. induction (Transactions block) as [| tx txs IH]; [done |].
    rewrite zlen_cons, zsum_cons. pose proof (tx_size_min tx). lia.
  - eapply Forall_impl; [apply (zsum_member SerializeSizeStripped _ Hpos) |]. cbn. intros tx Htx. lia.
Qed.

Lemma root_of_spec txs witness :
  txs <> [] -> zlen txs < 2 ^ 62 ->
  exists r, root_of txs witness = Ok r /\ merkle_root (leaves witness txs) = Some r.
Proof.
  intros Hne Hb. unfold root_of. destruct (CalcMerkleRoot_ok witness txs Hne Hb) as (r & -> & Hr). eauto.
Qed.

(** The checks after the one of the size, for a block within it. *)
Definition block_body (header : BlockHeader) (tx0 : MsgTx) (txs : list MsgTx) : checked unit :=
  let transactions := tx0 :: txs in
  let! _ := check (negb (IsCoinBaseTx tx0)) ErrFirstTxNotCoinbase in
  let! _ := no_coinbase txs in
  let! _ := all_sane transactions in
  let! calcMerkleRoot := root_of transactions false in
  let! _ := check (negb (bool_decide (MerkleRoot header = calcMerkleRoot))) ErrBadMerkleRoot in
  let! _ := check_unique ErrDuplicateTx ∅ (TxHash <$> transactions) in
  sigop_limit 0 transactions.

Lemma block_body_spec header tx0 txs :
  zlen (tx0 :: txs) <= MaxBlockBaseSize ->
  Forall (fun tx => SerializeSizeStripped tx <= MaxBlockBaseSize) (tx0 :: txs) ->
  (block_body header tx0 txs = Ok tt <->
     IsCoinBaseTx tx0 = true /\ Forall (fun tx => IsCoinBaseTx tx = false) txs /\
     Forall tx_sane (tx0 :: txs) /\
     merkle_root (leaves false (tx0 :: txs)) = Some (MerkleRoot header) /\
     NoDup (TxHash <$> tx0 :: txs) /\
     WitnessScaleFactor * zsum tx_sig_ops (tx0 :: txs) <= MaxBlockSigOpsCost) /\
  is_panic (block_body header tx0 txs) = false.
Proof.
  intros Hlen Hsizes. unfold MaxBlockBaseSize in Hlen. unfold block_body.
  destruct (root_of_spec (tx0 :: txs) false ltac:(done) ltac:(lia)) as (r & -> & ->). cbn [obind].
  destruct (sigop_limit_spec (tx0 :: txs) 0 ltac:(done) Hsizes) as (Hops & Hp & _). split.
  - rewrite !checked_seq, !check_Ok, !negb_false_iff, bool_decide_eq_true, no_coinbase_Ok, all_sane_Ok,
      check_unique_Ok, Hops, Z.add_0_l. split.
    + intros (? & ? & ? & -> & [? _] & ?). done.
    + intros (? & ? & ? & [= ->] & ? & ?). split_and!; auto. set_solver.
  - repeat first [apply check_no_panic | apply no_coinbase_no_panic | apply all_sane_no_panic
                 | apply check_unique_no_panic | exact Hp | apply seq_no_panic; [| intros _]].
Qed.

Lemma block_sanity_body block powLimit adjustedTime flags :
  checkBlockSanity block powLimit adjustedTime flags =
  let! _ := CheckBlockHeaderSanity (Header block) powLimit adjustedTime flags in
  let! _ := check (zlen (Transactions block) =? 0) ErrNoTransactions in
  let! _ := check (zlen (Transactions block) >? MaxBlockBaseSize) ErrBlockTooBig in
  let! _ := check (block_SerializeSizeStripped block >? MaxBlockBaseSize) ErrBlockTooBig in
  match Transactions block with tx0 :: txs => block_body (Header block) tx0 txs | [] => Panic end.
Proof. unfold checkBlockSanity. destruct (Transactions block) as [| tx0 txs]; reflexivity. Qed.

Lemma block_sanity_spec block powLimit adjustedTime flags :
  (checkBlockSanity block powLimit adjustedTime flags = Ok tt <->
     block_sane block powLimit adjustedTime flags) /\
  is_panic (checkBlockSanity block powLimit adjustedTime flags) = false.
Proof.
  rewrite block_sanity_body. split.
  - rewrite !checked_seq, header_sanity_Ok, !check_Ok, !Z.gtb_ltb, !Z.ltb_ge. split.
    + intros (Hh & Hn & Hl & Hs & Hb). destruct (block_size_bounds block Hs) as [_ Hsz].
      destruct (Transactions block) as [| tx0 txs] eqn:Htx; [discriminate |].
      apply (block_body_spec _ _ _ Hl Hsz) in Hb as (Hc & Hcs & Hsane & Hr & Hd & Ho).
      split; rewrite ?Htx; eauto.
    + intros [Hh Hs (tx0 & txs & Htx & Hc & Hcs) Hsane Hr Hd Ho].
      destruct (block_size_bounds block Hs) as [Hl Hsz]. rewrite Htx in *.
      split_and!; auto. apply (block_body_spec _ _ _ Hl Hsz). done.
  - apply seq_no_panic; [apply header_sanity_no_panic | intros _].
    destruct (Transactions block) as [| tx0 txs] eqn:Htx; [done |].
    unfold check at 1. destruct (zlen (tx0 :: txs) =? 0); [done |]. cbn [obind].
    apply seq_no_panic; [apply check_no_panic | intros _].
    unfold check. destruct (Z.gtb_spec (block_SerializeSizeStripped block) MaxBlockBaseSize); [done |].
    destruct (block_size_bounds block ltac:(lia)) as [Hl Hsz]. rewrite Htx in *.
    apply (block_body_spec _ _ _ Hl Hsz).
Qed.

(** Sane blocks commit to their transactions. *)
Lemma sane_root block powLimit adjustedTime flags :
  block_sane block powLimit adjustedTime flags ->
  CalcMerkleRoot (Transactions block) false = Ok (MerkleRoot (Header block)) /\
  zlen (Transactions block) < 2 ^ 62.
Proof.
  intros [_ Hs (tx0 & txs & Htx & _) _ Hr _ _]. destruct (block_size_bounds block Hs) as [Hl _].
  unfold MaxBlockBaseSize in Hl. split; [| lia].
  destruct (CalcMerkleRoot_ok false (Transactions block)) as (r & -> & Hr'); [rewrite Htx; done | lia |].
  congruence.
Qed.
End Sane.

(** * The height in a coinbase *)

Lemma Bytes_pos n :
  0 < n < 2 ^ 31 ->
  exists v, Bytes n = Ok v /\ 1 <= zlen v <= 4 /\ le_val v = n /\ (zlen v = 1 -> n < 128).
Proof.
  intros Hn. destruct (magnitude_of n ltac:(lia) ltac:(lia)) as (neg & r & t & Ht & Hr & Hv & Heq).
  assert (neg = false) as -> by (destruct neg; [lia | done]). rewrite Z.abs_eq in Hv by lia.
  destruct (le_val_top r t Ht) as [Hlo Hhi]. pose proof (zlen_nonneg r).
  assert (Hr3 : zlen r <= 3).
  { apply Z.nlt_ge. intros Hc. assert (256 ^ 4 <= 256 ^ zlen r) by (apply Z.pow_le_mono_r; lia). lia. }
  assert (H3 : zlen r = 3 -> b2z t < 128).
  { intros Hz. rewrite le_val_snoc, Hz in Hv. pose proof (le_val_range r). nia. }
  pose proof (Bytes_snoc false r t Ht Hr ltac:(lia)) as Hb. cbn iota in Hb. rewrite Hv in Hb.
  rewrite Hb. eexists. split; [reflexivity |]. destruct (Z.leb_spec 128 (b2z t)).
  - rewrite le_val_snoc. autorewrite with zlen. change (b2z x00) with 0. lia.
  - autorewrite with zlen. split; [lia |]. split; [done |]. intros Hz.
    assert (zlen r = 0) as Hr0 by lia. rewrite le_val_snoc, Hr0 in Hv.
    apply zlen_0_nil in Hr0 as ->. cbn in Hv. lia.
Qed.

(** The push of a height. *)
Lemma AddInt64_small h :
  0 <= h <= 16 -> built (AddInt64 h NewScriptBuilder) = Ok [z2b (if h =? 0 then OP_0 else OP_1 - 1 + h)].
Proof.
  intros Hh. unfold AddInt64. cbn [is_some builder_err NewScriptBuilder sb_script].
  change (zlen [] + 1 >? MaxScriptSize) with false. cbn iota.
  destruct (Z.eqb_spec h 0) as [-> | Hz]; [reflexivity |].
  now replace ((h =? -1) || ((h >=? 1) && (h <=? 16))) with true by lia.
Qed.

Lemma AddInt64_large h :
  16 < h < 2 ^ 31 ->
  exists v, built (AddInt64 h NewScriptBuilder) = Ok (z2b (zlen v) :: v) /\ 1 <= zlen v <= 4 /\ le_val v = h.
Proof.
  intros Hh. destruct (Bytes_pos h ltac:(lia)) as (v & Hb & Hl & Hv & H1). exists v. split; [| done].
  unfold AddInt64. cbn [is_some builder_err NewScriptBuilder sb_script].
  change (zlen [] + 1 >? MaxScriptSize) with false. cbn iota.
  replace (h =? 0) with false by lia. replace ((h =? -1) || _) with false by lia.
  rewrite Hb. cbn [obind]. change NewScriptBuilder with (mkBuilder [] None).
  destruct (Z.eq_dec (zlen v) 1) as [Hone | Hmore].
  - specialize (H1 Hone). destruct v as [| b [| b' v]]; [discriminate | | rewrite !zlen_cons in Hone; pose proof (zlen_nonneg v); lia].
    cbn in Hv. unfold AddData, canonicalDataSize, addData. cbn [is_some builder_err sb_script].
    change (byte_at [b] 0) with (b2z b). change (zlen [b]) with 1.
    replace (b2z b <=? 16) with false by lia. replace (b2z b =? 129) with false by lia.
    replace (b2z b =? 0) with false by lia. reflexivity.
  - rewrite AddData_direct by (change (zlen []) with 0; unfold MaxScriptSize; lia). reflexivity.
Qed.

Lemma AddInt64_no_panic h : Z.abs h < 2 ^ 63 -> is_panic (built (AddInt64 h NewScriptBuilder)) = false.
Proof.
  intros Hh. assert (Hs : forall b, is_panic (built (Ok b)) = false)
    by (intros b; unfold built, Script_; now destruct (builder_err b)).
  unfold AddInt64. destruct (Bytes_Ok h Hh) as [v ->]. cbn [obind].
  repeat (case_match; try apply Hs).
Qed.

Lemma byte_at_cons b l : byte_at (b :: l) 0 = b2z b.
Proof. reflexivity. Qed.

Lemma prefix_cons_le (k b : byte) (v s : bytes) :
  (k :: v) `prefix_of` (b :: s) -> k = b /\ ztake (zlen v) s = v /\ zlen v <= zlen s.
Proof.
  intros [t Ht]. injection Ht as -> ->. rewrite ztake_app, zlen_app. pose proof (zlen_nonneg t).
  split_and!; done || lia.
Qed.

(** What is extracted starts the script. *)
Lemma extract_prefix tx ti h :
  head (TxIns tx) = Some ti -> ExtractCoinbaseHeight tx = Ok h ->
  exists s, built (AddInt64 h NewScriptBuilder) = Ok s /\ s `prefix_of` SignatureScript ti.
Proof.
  intros Hti. unfold ExtractCoinbaseHeight. destruct (TxIns tx) as [| ti' ins]; [discriminate |].
  injection Hti as ->. cbn [index znth]. change (index (ti :: ins) 0) with (@Ok RuleError TxIn ti).
  cbn [obind]. destruct (SignatureScript ti) as [| b s]; [discriminate |].
  rewrite zlen_cons. pose proof (zlen_nonneg s). unfold check at 1. replace (1 + zlen s <? 1) with false by lia.
  cbn [obind]. rewrite byte_at_cons.
  destruct (Z.eqb_spec (b2z b) OP_0) as [H0 | H0].
  { intros [= <-]. rewrite AddInt64_small by lia. eexists. split; [reflexivity |]. exists s. cbn.
    f_equal. rewrite <- (z2b_b2z b), H0. reflexivity. }
  destruct (Z.geb_spec (b2z b) OP_1), (Z.leb_spec (b2z b) OP_16); cbn [andb].
  1: { intros [= <-]. unfold OP_1, OP_16, OP_0 in *. rewrite AddInt64_small by lia.
    eexists. split; [reflexivity |]. exists s. cbn [app]. f_equal.
    replace (b2z b - (0x51 - 1) =? 0) with false by lia. rewrite <- (z2b_b2z b) at 1. f_equal. unfold OP_1. lia. }
  all: unfold check at 1; destruct (zlen (zdrop 1 (b :: s)) <? b2z b); [discriminate |]; cbn [obind];
    unfold compareScript; destruct (built _) as [sh | |] eqn:Hb; try discriminate; cbn [obind];
    unfold check; destruct (bool_decide_reflect (sh `prefix_of` b :: s)); cbn [negb obind]; [| discriminate];
    intros [= <-]; eauto.
Qed.

(** A script that starts with the push of a height gives that height back. *)
Lemma extract_height tx ti h s :
  head (TxIns tx) = Some ti -> 0 <= h < 2 ^ 31 ->
  built (AddInt64 h NewScriptBuilder) = Ok s -> s `prefix_of` SignatureScript ti ->
  ExtractCoinbaseHeight tx = Ok h.
Proof.
  intros Hti Hh Hs Hp. unfold ExtractCoinbaseHeight. destruct (TxIns tx) as [| ti' ins]; [discriminate |].
  injection Hti as ->. change (index (ti :: ins) 0) with (@Ok RuleError TxIn ti). cbn [obind].
  destruct (Z.le_gt_cases h 16) as [Hsmall | Hlarge].
  - rewrite AddInt64_small in Hs by lia. injection Hs as <-. destruct Hp as [t ->].
    cbn [app]. rewrite zlen_cons. pose proof (zlen_nonneg t).
    unfold check at 1. replace (1 + zlen t <? 1) with false by lia. cbn [obind]. rewrite byte_at_cons.
    unfold OP_0, OP_1, OP_16. destruct (Z.eqb_spec h 0) as [-> | Hz]; [reflexivity |].
    rewrite b2z_z2b_small by lia. replace (0x51 - 1 + h =? 0) with false by lia.
    replace ((0x51 - 1 + h >=? 0x51) && (0x51 - 1 + h <=? 0x60)) with true by lia. f_equal. lia.
  - destruct (AddInt64_large h ltac:(lia)) as (v & Hv & Hl & Hval). rewrite Hv in Hs. injection Hs as <-.
    destruct Hp as [t Ht]. cbn [app] in Ht. rewrite Ht, zlen_cons, zlen_app. pose proof (zlen_nonneg t).
    unfold check at 1. replace (1 + (zlen v + zlen t) <? 1) with false by lia. cbn [obind].
    rewrite byte_at_cons, b2z_z2b_small by lia. unfold OP_0, OP_1, OP_16.
    replace (zlen v =? 0) with false by lia. replace ((zlen v >=? 0x51) && _) with false by lia.
    change (zdrop 1 (z2b (zlen v) :: v ++ t)) with (v ++ t). rewrite zlen_app.
    unfold check at 1. replace (zlen v + zlen t <? zlen v) with false by lia. cbn [obind].
    assert (H4 : ztake 4 v = v) by (apply take_ge; unfold zlen in *; lia).
    rewrite ztake_app, H4, Hval, int32_small by lia. unfold compareScript. rewrite Hv. cbn [obind].
    rewrite bool_decide_true by (now exists t). reflexivity.
Qed.

Lemma extract_no_panic tx : TxIns tx <> [] -> is_panic (ExtractCoinbaseHeight tx) = false.
Proof.
  intros Hne. unfold ExtractCoinbaseHeight. destruct (TxIns tx) as [| ti ins]; [done |].
  change (index (ti :: ins) 0) with (@Ok RuleError TxIn ti). cbn [obind].
  apply seq_no_panic; [apply check_no_panic | intros _].
  destruct (_ =? OP_0); [done |]. destruct (_ && _); [done |].
  apply seq_no_panic; [apply check_no_panic | intros _].
  apply seq_no_panic; [| done]. unfold compareScript.
  match goal with |- context [AddInt64 ?v _] => pose proof (wrapS_range 32 (le_val (ztake 4 (ztake (byte_at (SignatureScript ti) 0) (zdrop 1 (SignatureScript ti))))) ltac:(lia)); pose proof (AddInt64_no_panic v ltac:(lia)) as Hp end.
  destruct (built _); [apply check_no_panic | done | discriminate].
Qed.

(** * The claims *)

(** C33: the sanity checks of a block, on every branch.  They never panic, and
    they succeed exactly on the blocks whose bits are a positive target within
    the limit, whose hash is at most that target (unless the check is switched
    off), whose time is at most two hours ahead, whose size without witnesses
    is at most 1,000,000 bytes, whose first transaction and no other is a
    coinbase, whose transactions are sane ([tx_sane]: inputs and outputs, no
    input twice, amounts and their exact sum within 21 million coins) and have
    distinct ids, whose header has their Merkle root, and whose signature
    operations, four times each, are at most 80,000: no count or sum wraps. *)
Theorem block_sanity `{Crypto} block powLimit adjustedTime flags :
  (checkBlockSanity block powLimit adjustedTime flags = Ok tt <->
     block_sane block powLimit adjustedTime flags) /\
  is_panic (checkBlockSanity block powLimit adjustedTime flags) = false.
Proof. apply block_sanity_spec. Qed.

(** C34: a block hash commits to the block.  Two blocks that pass the sanity
    checks, under whatever limits, and have the same hash have the same header
    and the same transactions without their witnesses, byte for byte, provided
    that no two of the strings hashed for them collide and no transaction has
    64 bytes without its witnesses. *)
Theorem block_commitment `{CryptoLaws} b1 b2 l1 t1 f1 l2 t2 f2 :
  checkBlockSanity b1 l1 t1 f1 = Ok tt -> checkBlockSanity b2 l2 t2 f2 = Ok tt ->
  header_ok (Header b1) -> header_ok (Header b2) ->
  BlockHash (Header b1) = BlockHash (Header b2) ->
  collision_free ((writeBlockHeaderBuf (Header b1) :: hashed (Transactions b1)) ++
                  (writeBlockHeaderBuf (Header b2) :: hashed (Transactions b2))) ->
  Forall (fun tx => zlen (SerializeNoWitness tx) <> 64) (Transactions b1 ++ Transactions b2) ->
  Header b1 = Header b2 /\ block_SerializeNoWitness b1 = block_SerializeNoWitness b2.
Proof.
  intros Hs1 Hs2 Hh1 Hh2 Hhash Hcf H64.
  apply block_sanity_spec in Hs1, Hs2. destruct (sane_root _ _ _ _ Hs1) as [Hr1 Hb1].
  destruct (sane_root _ _ _ _ Hs2) as [Hr2 Hb2].
  assert (Hheader : Header b1 = Header b2).
  { assert (Hw : writeBlockHeaderBuf (Header b1) = writeBlockHeaderBuf (Header b2))
      by (apply Hcf; [| | exact Hhash]; rewrite elem_of_app, !elem_of_cons; auto).
    pose proof (codec_roundtrip (Header b1) [] Hh1) as Hd1. pose proof (codec_roundtrip (Header b2) [] Hh2) as Hd2.
    rewrite Hw in Hd1. congruence. }
  split; [exact Hheader |]. rewrite Hheader in Hr1.
  assert (Htx : map SerializeNoWitness (Transactions b1) = map SerializeNoWitness (Transactions b2)).
  { apply (root_determines _ _ (MerkleRoot (Header b2))); auto; [| apply Hs1 | apply Hs2].
    intros a b. rewrite !elem_of_app. intros Ha Hb. apply Hcf; rewrite elem_of_app, !elem_of_cons; tauto. }
  unfold block_SerializeNoWitness, block_BtcEncode. rewrite Hheader.
  assert (Hlen : zlen (Transactions b1) = zlen (Transactions b2))
    by (unfold zlen; now rewrite <- (length_map SerializeNoWitness (Transactions b1)), Htx, length_map).
  rewrite Hlen. do 3 f_equal. exact Htx.
Qed.

(** Deciding whether strings collide. *)
Lemma collision_free_decide `{Crypto} strings :
  forallb (fun a => forallb (fun b => negb (bool_decide (DoubleHashB a = DoubleHashB b)) || bool_decide (a = b))
                            strings) strings = true ->
  collision_free strings.
Proof.
  intros Hf a b Ha Hb Heq. rewrite forallb_forall in Hf. specialize (Hf a (proj1 (list_elem_of_In _ _) Ha)).
  rewrite forallb_forall in Hf. specialize (Hf b (proj1 (list_elem_of_In _ _) Hb)).
  rewrite (bool_decide_true _ Heq) in Hf. now apply bool_decide_eq_true in Hf.
Qed.

(** A coinbase with a given witness, and a block of it alone. *)
Definition example_coinbase (witness : list bytes) : MsgTx :=
  mkMsgTx 1 [mkTxIn (mkOutPoint zeroHash MaxPrevOutIndex) [x01; x07] witness MaxTxInSequenceNum]
    [mkTxOut 5000000000 [x51]] 0.

Definition coinbase_block `{Crypto} (witness : list bytes) : MsgBlock :=
  mkMsgBlock (mkBlockHeader 1 zeroHash (TxHash (example_coinbase [])) 1000 0x207fffff 0)
    [example_coinbase witness].

Lemma block_commitment_witness :
  let H := toy_crypto in
  coinbase_block [] <> coinbase_block [[x01]] /\
  block_SerializeNoWitness (coinbase_block []) = block_SerializeNoWitness (coinbase_block [[x01]]).
Proof.
  intros H. split; [discriminate |].
  refine (proj2 (@block_commitment H toy_laws (coinbase_block []) (coinbase_block [[x01]])
    (2 ^ 255) 0 BFNoPoWCheck (2 ^ 255) 0 BFNoPoWCheck _ _ _ _ _ _ _)).
  - vm_compute. reflexivity.
  - vm_compute. reflexivity.
  - vm_compute. intuition congruence.
  - vm_compute. intuition congruence.
  - reflexivity.
  - apply collision_free_decide. vm_compute. reflexivity.
  - repeat constructor; vm_compute; discriminate.
Defined.

(** The height in a coinbase.  For every height below 2^31, the check
    succeeds exactly when the signature script starts with the push that the
    script builder makes of the height, whatever follows it, and it never
    panics when there is an input. *)
Lemma coinbase_height tx ti h :
  head (TxIns tx) = Some ti -> 0 <= h < 2 ^ 31 ->
  is_panic (CheckSerializedHeight tx h) = false /\
  exists s, built (AddInt64 h NewScriptBuilder) = Ok s /\
    (CheckSerializedHeight tx h = Ok tt <-> s `prefix_of` SignatureScript ti).
Proof.
  intros Hti Hh. split.
  - apply seq_no_panic; [apply extract_no_panic; intros Hnil; now rewrite Hnil in Hti | intros; apply check_no_panic].
  - assert (Hs : exists s, built (AddInt64 h NewScriptBuilder) = Ok s).
    { destruct (Z.le_gt_cases h 16); [eexists; now rewrite AddInt64_small by lia |].
      destruct (AddInt64_large h ltac:(lia)) as (v & -> & _). eauto. }
    destruct Hs as [s Hs]. exists s. split; [exact Hs |]. unfold CheckSerializedHeight. split.
    + destruct (ExtractCoinbaseHeight tx) as [h' | |] eqn:He; try discriminate. cbn [obind].
      rewrite check_Ok, negb_false_iff. intros ->%Z.eqb_eq.
      destruct (extract_prefix tx ti h Hti He) as (s' & Hs' & Hp). congruence.
    + intros Hp. rewrite (extract_height tx ti h s Hti Hh Hs Hp). cbn [obind].
      apply check_Ok. now rewrite Z.eqb_refl.
Qed.

Definition height_coinbase : MsgTx :=
  mkMsgTx 1 [mkTxIn (mkOutPoint zeroHash MaxPrevOutIndex) [x02; x80; x00; x99] [] 0] [] 0.

Lemma coinbase_height_witness :
  exists s, built (AddInt64 128 NewScriptBuilder) = Ok s /\
    (CheckSerializedHeight height_coinbase 128 = Ok tt <-> s `prefix_of` [x02; x80; x00; x99]).
Proof.
  refine (proj2 (coinbase_height height_coinbase
    (mkTxIn (mkOutPoint zeroHash MaxPrevOutIndex) [x02; x80; x00; x99] [] 0) 128 eq_refl _)).
  split; [discriminate | reflexivity].
Defined.
