(* ===== verification/UtxoView.v ===== *)
(** Views of the unspent outputs (src/btcd/blockchain/utxoviewpoint.go):
    entries with their flags, connecting a block to a view and disconnecting it
    again.

    An entry belongs to one view alone: what is fetched is cloned, so that the
    entry a pointer leads to is a value of the view's map.  A key of the map may
    be bound to a nil entry, which is not the same as no key.

    The abstract state is the set of unspent outputs, a finite map from
    outpoints to coins; [coins_of] is the map a view stands for. *)

From stdpp Require Import gmap.
From S2P Require Import Prelude ScriptError Opcodes Tokenizer WireCommon MsgTx MsgBlock Script Crypto BtcUtil Merkle Difficulty TxRules.
#[local] Open Scope Z_scope.

(** * Entries *)

Definition tfCoinBase : Z := 1.
Definition tfSpent : Z := 2.
Definition tfModified : Z := 4.
Definition tfFresh : Z := 8.

Record UtxoEntry := mkEntry {
  amount : Z;
  pkScript : bytes;
  blockHeight : Z;
  packedFlags : Z;
}.

Definition has_tf (tf : Z) (e : UtxoEntry) : bool := Z.land (packedFlags e) tf =? tf.

Definition IsCoinBase (e : UtxoEntry) : bool := has_tf tfCoinBase e.
Definition IsSpent (e : UtxoEntry) : bool := has_tf tfSpent e.
Definition isModified (e : UtxoEntry) : bool := has_tf tfModified e.
Definition isFresh (e : UtxoEntry) : bool := has_tf tfFresh e.

Definition set_packedFlags (f : Z) (e : UtxoEntry) : UtxoEntry :=
  mkEntry (amount e) (pkScript e) (blockHeight e) f.

Definition Spend (e : UtxoEntry) : UtxoEntry :=
  if IsSpent e then e else set_packedFlags (Z.lor (packedFlags e) (Z.lor tfSpent tfModified)) e.

Definition NewUtxoEntry (txOut : TxOut) (height : Z) (isCoinbase : bool) : UtxoEntry :=
  mkEntry (Value txOut) (PkScript txOut) height (if isCoinbase then tfCoinBase else 0).

(** The spend journal keeps for a spent output what brings it back. *)
Record SpentTxOut := mkSpent {
  Amount : Z;
  st_PkScript : bytes;
  st_Height : Z;
  st_IsCoinBase : bool;
}.

#[global] Instance SpentTxOut_eq_dec : EqDecision SpentTxOut.
Proof. solve_decision. Defined.
#[global] Instance UtxoEntry_eq_dec : EqDecision UtxoEntry.
Proof. solve_decision. Defined.

Definition stxo_of (e : UtxoEntry) : SpentTxOut :=
  mkSpent (amount e) (pkScript e) (blockHeight e) (IsCoinBase e).

(** [txscript.IsUnspendable] always answers. *)
Definition unspendable (pkScript : bytes) : bool :=
  match IsUnspendable pkScript with Ok b => b | _ => false end.

(** * Views *)

Record UtxoViewpoint := mkView {
  entries : gmap OutPoint (option UtxoEntry);
  bestHash : bytes;
}.

Definition NewUtxoViewpoint : UtxoViewpoint := mkView ∅ zeroHash.

Definition LookupEntry (view : UtxoViewpoint) (outpoint : OutPoint) : option UtxoEntry :=
  mjoin (entries view !! outpoint).

Definition SetBestHash (hash : bytes) (view : UtxoViewpoint) : UtxoViewpoint := mkView (entries view) hash.

Definition set_entry (outpoint : OutPoint) (e : option UtxoEntry) (view : UtxoViewpoint) : UtxoViewpoint :=
  mkView (<[outpoint := e]> (entries view)) (bestHash view).

Definition FetchPrevOutput (view : UtxoViewpoint) (op : OutPoint) : option TxOut :=
  match LookupEntry view op with
  | None => None
  | Some e => Some (mkTxOut (amount e) (pkScript e))
  end.

(** Every field of an existing entry is overwritten. *)
Definition addTxOut (outpoint : OutPoint) (txOut : TxOut) (isCoinBase : bool) (height : Z)
    (view : UtxoViewpoint) : UtxoViewpoint :=
  if unspendable (PkScript txOut) then view else
  let flags := Z.lor tfFresh tfModified in
  let flags := if isCoinBase then Z.lor flags tfCoinBase else flags in
  set_entry outpoint (Some (mkEntry (Value txOut) (PkScript txOut) height flags)) view.

Definition RemoveEntry (outpoint : OutPoint) (view : UtxoViewpoint) : UtxoViewpoint :=
  mkView (delete outpoint (entries view)) (bestHash view).

(** An entry is pruned, or the modified bit is flipped. *)
Definition commit (view : UtxoViewpoint) : UtxoViewpoint :=
  mkView
    (omap (fun entry =>
       match entry with
       | None => None
       | Some e => if isModified e && IsSpent e then None
                   else Some (Some (set_packedFlags (Z.lxor (packedFlags e) tfModified) e))
       end) (entries view)) (bestHash view).

Section Connect.
Context `{Crypto}.

(** The outputs of a transaction with their outpoints. *)
Fixpoint outpoints_from (hash : bytes) (i : Z) (outs : list TxOut) : list (OutPoint * TxOut) :=
  match outs with
  | [] => []
  | o :: outs' => (mkOutPoint hash (uint32 i), o) :: outpoints_from hash (i + 1) outs'
  end.

Definition tx_outputs (tx : MsgTx) : list (OutPoint * TxOut) := outpoints_from (TxHash tx) 0 (TxOuts tx).

Definition AddTxOut (tx : MsgTx) (txOutIdx height : Z) (view : UtxoViewpoint) : UtxoViewpoint :=
  match znth (TxOuts tx) txOutIdx with
  | None => view
  | Some txOut => addTxOut (mkOutPoint (TxHash tx) txOutIdx) txOut (IsCoinBaseTx tx) height view
  end.

Definition AddTxOuts (tx : MsgTx) (height : Z) (view : UtxoViewpoint) : UtxoViewpoint :=
  foldl (fun v '(op, o) => addTxOut op o (IsCoinBaseTx tx) height v) view (tx_outputs tx).

(** The view and the spent outputs, when they are asked for. *)
Definition vstate : Type := UtxoViewpoint * option (list SpentTxOut).

Definition record_stxo (s : SpentTxOut) (stxos : option (list SpentTxOut)) : option (list SpentTxOut) :=
  option_map (fun l => l ++ [s]) stxos.

Fixpoint spend_inputs (ins : list TxIn) : M vstate RuleError unit :=
  match ins with
  | [] => ret tt
  | ti :: ins' =>
      st <- get;;
      match LookupEntry (fst st) (PreviousOutPoint ti) with
      | None => fail AssertError
      | Some entry =>
          put (set_entry (PreviousOutPoint ti) (Some (Spend entry)) (fst st), record_stxo (stxo_of entry) (snd st));;
          spend_inputs ins'
      end
  end.

Definition on_view (f : UtxoViewpoint -> UtxoViewpoint) : M vstate RuleError unit :=
  modify (fun st => (f (fst st), snd st)).

Definition connectTransaction (tx : MsgTx) (height : Z) : M vstate RuleError unit :=
  if IsCoinBaseTx tx then on_view (AddTxOuts tx height)
  else spend_inputs (TxIns tx);; on_view (AddTxOuts tx height).

Fixpoint connect_all (txs : list MsgTx) (height : Z) : M vstate RuleError unit :=
  match txs with
  | [] => ret tt
  | tx :: txs' => connectTransaction tx height;; connect_all txs' height
  end.

Definition connectTransactions (block : MsgBlock) (height : Z) : M vstate RuleError unit :=
  connect_all (Transactions block) height;;
  on_view (SetBestHash (BlockHash (Header block))).

(** ** Disconnecting *)

Definition countSpentOutputs (block : MsgBlock) : Z :=
  zsum (fun tx => zlen (TxIns tx)) (tail (Transactions block)).

(** Outputs of the transaction are marked spent, with a new entry when there is
    none. *)
Definition unmake_output (isCoinBase : bool) (height : Z) (view : UtxoViewpoint)
    '((op, txOut) : OutPoint * TxOut) : UtxoViewpoint :=
  if unspendable (PkScript txOut) then view else
  let entry :=
    match LookupEntry view op with
    | Some e => e
    | None => mkEntry (Value txOut) (PkScript txOut) height (if isCoinBase then tfCoinBase else 0)
    end in
  set_entry op (Some (Spend entry)) view.

(** The search of the database by the hash of a transaction. *)
Variable dbFetchUtxoEntryByHash : bytes -> checked (option UtxoEntry).

Definition MaxOutputsPerBlock : Z := MaxBlockWeight / (WitnessScaleFactor * MinTxOutPayload).

(** [for idx := uint32(0); idx < MaxOutputsPerBlock; idx++] *)
Fixpoint entry_by_hash_loop (fuel : nat) (view : UtxoViewpoint) (hash : bytes) (idx : Z) : option UtxoEntry :=
  match fuel with
  | O => None
  | S fuel' =>
      match LookupEntry view (mkOutPoint hash idx) with
      | Some e => Some e
      | None => entry_by_hash_loop fuel' view hash (idx + 1)
      end
  end.

Definition fetchEntryByHash (view : UtxoViewpoint) (hash : bytes) : checked (option UtxoEntry) :=
  match entry_by_hash_loop (Z.to_nat MaxOutputsPerBlock) view hash 0 with
  | Some e => Ok (Some e)
  | None => dbFetchUtxoEntryByHash hash
  end.

(** One input, with the last entry of the journal that is left. *)
Definition restore_input (txHash : bytes) (ti : TxIn) (stxo : SpentTxOut) (view : UtxoViewpoint)
  : checked UtxoViewpoint :=
  let originOut := PreviousOutPoint ti in
  let view := match LookupEntry view originOut with
              | Some _ => view
              | None => set_entry originOut (Some (mkEntry 0 [] 0 0)) view
              end in
  let! stxo :=
    if st_Height stxo =? 0 then
      let! utxo := fetchEntryByHash view txHash in
      match utxo with
      | None => Err AssertError
      | Some u => Ok (mkSpent (Amount stxo) (st_PkScript stxo) (blockHeight u) (IsCoinBase u))
      end
    else Ok stxo in
  Ok (set_entry originOut
        (Some (mkEntry (Amount stxo) (st_PkScript stxo) (st_Height stxo)
                 (if st_IsCoinBase stxo then Z.lor tfModified tfCoinBase else tfModified))) view).

(** The inputs and the journal, both from their end. *)
Fixpoint restore_inputs (txHash : bytes) (ins : list TxIn) (stxos : list SpentTxOut) (view : UtxoViewpoint)
  : checked (UtxoViewpoint * list SpentTxOut) :=
  match ins with
  | [] => Ok (view, stxos)
  | ti :: ins' =>
      match stxos with
      | [] => Panic
      | stxo :: stxos' =>
          let! view := restore_input txHash ti stxo view in
          restore_inputs txHash ins' stxos' view
      end
  end.

Definition disconnect_tx (height : Z) (isCoinBase : bool) (tx : MsgTx) (stxos : list SpentTxOut)
    (view : UtxoViewpoint) : checked (UtxoViewpoint * list SpentTxOut) :=
  let view := foldl (unmake_output isCoinBase height) view (tx_outputs tx) in
  if isCoinBase then Ok (view, stxos)
  else restore_inputs (TxHash tx) (reverse (TxIns tx)) stxos view.

(** The transactions but the first, from the last one; then the first one. *)
Fixpoint disconnect_rest (height : Z) (txs : list MsgTx) (stxos : list SpentTxOut) (view : UtxoViewpoint)
  : checked (UtxoViewpoint * list SpentTxOut) :=
  match txs with
  | [] => Ok (view, stxos)
  | tx :: txs' =>
      let! r := disconnect_tx height false tx stxos view in
      disconnect_rest height txs' (snd r) (fst r)
  end.

Definition disconnectTransactions (block : MsgBlock) (height : Z) (stxos : list SpentTxOut)
    (view : UtxoViewpoint) : checked UtxoViewpoint :=
  match Transactions block with
  | [] => Panic
  | tx0 :: txs =>
      let! _ := if negb (zlen stxos =? countSpentOutputs block) then Err AssertError else Ok tt in
      let! r := disconnect_rest height (reverse txs) (reverse stxos) view in
      let! r := disconnect_tx height true tx0 (snd r) (fst r) in
      Ok (SetBestHash (PrevBlock (Header block)) (fst r))
  end.

(** ** What a block needs *)

(** [findInputsToFetch] adds the outputs of earlier transactions of the block
    that later ones spend, and returns the other inputs that are not there. *)
Definition in_flight (txs : list MsgTx) : gmap bytes nat :=
  list_to_map (reverse (imap (fun i tx => (TxHash tx, i)) txs)).

Definition find_input (txs : list MsgTx) (height : Z) (i : nat) (acc : UtxoViewpoint * list OutPoint)
    (ti : TxIn) : UtxoViewpoint * list OutPoint :=
  let '(view, needed) := acc in
  let op := PreviousOutPoint ti in
  let fetch := match entries view !! op with Some _ => (view, needed) | None => (view, needed ++ [op]) end in
  match in_flight txs !! Hash op with
  | Some j =>
      if (j <=? i)%nat then
        match txs !! j with
        | Some originTx => (AddTxOuts originTx height view, needed)
        | None => (view, needed)
        end
      else fetch
  | None => fetch
  end.

Definition findInputsToFetch (block : MsgBlock) (height : Z) (view : UtxoViewpoint)
  : checked (UtxoViewpoint * list OutPoint) :=
  match Transactions block with
  | [] => Panic
  | _ :: rest =>
      Ok (foldl (fun acc '(i, tx) => foldl (find_input (Transactions block) height i) acc (TxIns tx)) (view, [])
            (imap (fun i tx => (i, tx)) rest))
  end.
End Connect.

(** * Flags *)

Lemma has_tf_testbit k e : 0 <= k -> has_tf (2 ^ k) e = Z.testbit (packedFlags e) k.
Proof.
  intros Hk. unfold has_tf. rewrite Z.land_comm.
  destruct (Z.testbit (packedFlags e) k) eqn:Hb.
  - apply Z.eqb_eq, Z.bits_inj'. intros i Hi. rewrite Z.land_spec, Z.pow2_bits_eqb by lia.
    destruct (Z.eqb_spec k i) as [<- |]; [now rewrite Hb | done].
  - apply Z.eqb_neq. intros Heq. apply (f_equal (fun z => Z.testbit z k)) in Heq.
    rewrite Z.land_spec, Hb, andb_false_r, Z.pow2_bits_true in Heq by lia. discriminate.
Qed.

Lemma IsSpent_bit e : IsSpent e = Z.testbit (packedFlags e) 1.
Proof. apply (has_tf_testbit 1). lia. Qed.

Lemma IsCoinBase_bit e : IsCoinBase e = Z.testbit (packedFlags e) 0.
Proof. apply (has_tf_testbit 0). lia. Qed.

Lemma isModified_bit e : isModified e = Z.testbit (packedFlags e) 2.
Proof. apply (has_tf_testbit 2). lia. Qed.

Lemma isFresh_bit e : isFresh e = Z.testbit (packedFlags e) 3.
Proof. apply (has_tf_testbit 3). lia. Qed.

Lemma Spend_spent e : IsSpent (Spend e) = true.
Proof.
  unfold Spend. destruct (IsSpent e) eqn:Hs; [done |].
  rewrite IsSpent_bit. cbn [set_packedFlags packedFlags]. rewrite Z.lor_spec. apply orb_true_r.
Qed.

(** * The set a view stands for *)

Abbreviation coins := (gmap OutPoint SpentTxOut).

(** A view over the set [B]: an entry of the view decides, no entry leaves what
    [B] says. *)
Definition effective (v : UtxoViewpoint) (B : coins) : coins :=
  merge (fun e c =>
    match mjoin e with
    | Some e => if IsSpent e then None else Some (stxo_of e)
    | None => c
    end) (entries v) B.

Lemma lookup_effective v B op :
  effective v B !! op =
  match LookupEntry v op with
  | Some e => if IsSpent e then None else Some (stxo_of e)
  | None => B !! op
  end.
Proof.
  unfold effective, LookupEntry. rewrite lookup_merge.
  destruct (entries v !! op) as [[e |] |], (B !! op); reflexivity.
Qed.

Lemma LookupEntry_set op e v op' :
  LookupEntry (set_entry op (Some e) v) op' = if decide (op = op') then Some e else LookupEntry v op'.
Proof.
  unfold LookupEntry, set_entry. cbn [entries]. destruct (decide (op = op')) as [-> | Hne].
  - now rewrite lookup_insert_eq.
  - now rewrite lookup_insert_ne by done.
Qed.

Lemma effective_set op e v B :
  effective (set_entry op (Some e) v) B =
  if IsSpent e then delete op (effective v B) else <[op := stxo_of e]> (effective v B).
Proof.
  apply map_eq. intros op'. rewrite lookup_effective, LookupEntry_set.
  destruct (decide (op = op')) as [<- | Hne], (IsSpent e) eqn:Hs;
    rewrite ?lookup_delete_eq, ?lookup_insert_eq, ?lookup_delete_ne, ?lookup_insert_ne by done;
    rewrite ?lookup_effective; done.
Qed.

Lemma effective_hash h v B : effective (SetBestHash h v) B = effective v B.
Proof. reflexivity. Qed.

(** * Coins as an abstract ledger *)

Definition add_coins (l : list (OutPoint * SpentTxOut)) (S : coins) : coins :=
  foldl (fun S p => <[fst p := snd p]> S) S l.

Definition del_coins (ops : list OutPoint) (S : coins) : coins := foldl (fun S op => delete op S) S ops.

Lemma add_coins_cons p l S : add_coins (p :: l) S = add_coins l (<[fst p := snd p]> S).
Proof. reflexivity. Qed.

Lemma add_coins_app l k S : add_coins (l ++ k) S = add_coins k (add_coins l S).
Proof. apply foldl_app. Qed.

Lemma del_coins_cons op ops S : del_coins (op :: ops) S = del_coins ops (delete op S).
Proof. reflexivity. Qed.

Section Ledger.
Context `{Crypto}.

(** The coins a transaction makes: outputs that can never be spent make none. *)
Definition coin_of (cb : bool) (height : Z) (p : OutPoint * TxOut) : option (OutPoint * SpentTxOut) :=
  if unspendable (PkScript (snd p)) then None
  else Some (fst p, mkSpent (Value (snd p)) (PkScript (snd p)) height cb).

Definition made (tx : MsgTx) (height : Z) : list (OutPoint * SpentTxOut) :=
  omap (coin_of (IsCoinBaseTx tx) height) (tx_outputs tx).

Definition inputs (tx : MsgTx) : list OutPoint := PreviousOutPoint <$> TxIns tx.

(** The coins at some outpoints, if each is there. *)
Definition lookups (S : coins) (ops : list OutPoint) : option (list SpentTxOut) :=
  list.mapM (fun op => S !! op) ops.

Lemma lookups_Some S ops l : lookups S ops = Some l <-> Forall2 (fun op c => S !! op = Some c) ops l.
Proof. apply mapM_Some. Qed.

(** One transaction on the ledger: a coinbase makes coins; any other transaction
    spends coins that are there, each once, and makes coins. *)
Definition apply_tx (height : Z) (tx : MsgTx) (S : coins) : option (coins * list SpentTxOut) :=
  if IsCoinBaseTx tx then Some (add_coins (made tx height) S, [])
  else if decide (NoDup (inputs tx)) then
    spent ← lookups S (inputs tx);
    Some (add_coins (made tx height) (del_coins (inputs tx) S), spent)
  else None.

Fixpoint apply_txs (height : Z) (txs : list MsgTx) (S : coins) : option (coins * list SpentTxOut) :=
  match txs with
  | [] => Some (S, [])
  | tx :: txs' =>
      '(S1, l1) ← apply_tx height tx S;
      '(S2, l2) ← apply_txs height txs' S1;
      Some (S2, l1 ++ l2)
  end.

Lemma lookup_del_coins ops S op :
  del_coins ops S !! op = if decide (op ∈ ops) then None else S !! op.
Proof.
  revert S. induction ops as [| o ops IH]; intros S.
  { rewrite decide_False by set_solver. done. }
  rewrite del_coins_cons, IH.
  destruct (decide (op ∈ ops)); [rewrite decide_True by set_solver; done |].
  destruct (decide (op = o)) as [-> | Hne].
  - rewrite decide_True by set_solver. apply lookup_delete_eq.
  - rewrite decide_False by set_solver. now apply lookup_delete_ne.
Qed.

Lemma lookup_add_coins_notin l S op : op ∉ l.*1 -> add_coins l S !! op = S !! op.
Proof.
  revert S. induction l as [| [o c] l IH]; intros S Hop; [done |]. rewrite fmap_cons, not_elem_of_cons in Hop.
  destruct Hop as [Hne Hop]. rewrite add_coins_cons, IH by done. apply lookup_insert_ne. intros Heq. now apply Hne.
Qed.

Lemma add_del_coins l S :
  (forall op, op ∈ l.*1 -> S !! op = None) -> del_coins l.*1 (add_coins l S) = S.
Proof.
  intros Hf. apply map_eq. intros op. rewrite lookup_del_coins.
  destruct (decide (op ∈ l.*1)) as [Hin | Hnin]; [symmetry; auto |]. now apply lookup_add_coins_notin.
Qed.

(** Putting back what was spent. *)
Lemma restore_coins ops S l :
  lookups S ops = Some l -> add_coins (zip ops l) (del_coins ops S) = S.
Proof.
  intros Hl. apply map_eq. intros op.
  destruct (decide (op ∈ ops)) as [Hin | Hnin].
  - assert (Hgen : forall S0, (forall o c, (o, c) ∈ zip ops l -> S !! o = Some c) ->
      op ∈ (zip ops l).*1 -> add_coins (zip ops l) S0 !! op = S !! op).
    { clear. induction (zip ops l) as [| [o c] z IH]; intros S0 Hz Hop; [set_solver |].
      rewrite add_coins_cons. cbn [fst snd].
      destruct (decide (op ∈ z.*1)) as [Hz' | Hz']; [apply IH; [set_solver | done] |].
      rewrite lookup_add_coins_notin by done. rewrite fmap_cons, elem_of_cons in Hop.
      destruct Hop as [-> | ?]; [| done]. cbn [fst]. rewrite lookup_insert_eq. symmetry. apply Hz. set_solver. }
    apply lookups_Some in Hl. apply Hgen.
    + intros o c Hz. apply elem_of_lookup_zip_with in Hz as (i & o' & c' & [= -> ->] & Ho & Hc).
      exact (Forall2_lookup_lr _ _ _ _ _ _ Hl Ho Hc).
    + rewrite fst_zip; [done |]. apply Forall2_length in Hl. lia.
  - rewrite lookup_add_coins_notin; [rewrite lookup_del_coins; now rewrite decide_False |].
    intros Hz. apply Hnin. apply list_elem_of_fmap in Hz as ([o c] & -> & Hz). now apply elem_of_zip_l in Hz.
Qed.
End Ledger.

(** * The view implements the ledger *)

Section Refinement.
Context `{Crypto}.

Lemma addTxOut_effective op o cb h v B :
  effective (addTxOut op o cb h v) B =
  match coin_of cb h (op, o) with
  | Some p => <[fst p := snd p]> (effective v B)
  | None => effective v B
  end.
Proof.
  unfold addTxOut, coin_of. cbn [fst snd]. destruct (unspendable (PkScript o)); [done |].
  rewrite effective_set. now destruct cb.
Qed.

Lemma addTxOut_present op o cb h v op' :
  is_Some (LookupEntry v op') -> is_Some (LookupEntry (addTxOut op o cb h v) op').
Proof.
  intros Hp. unfold addTxOut. destruct (unspendable _); [done |]. rewrite LookupEntry_set.
  case_decide; eauto.
Qed.

Definition add_outputs (cb : bool) (h : Z) (l : list (OutPoint * TxOut)) (v : UtxoViewpoint) : UtxoViewpoint :=
  foldl (fun v '(op, o) => addTxOut op o cb h v) v l.

Lemma add_outputs_spec cb h B l : forall v,
  effective (add_outputs cb h l v) B = add_coins (omap (coin_of cb h) l) (effective v B) /\
  bestHash (add_outputs cb h l v) = bestHash v /\
  (forall op, is_Some (LookupEntry v op) -> is_Some (LookupEntry (add_outputs cb h l v) op)).
Proof.
  induction l as [| [op o] l IH]; intros v; [done |].
  unfold add_outputs. cbn [foldl]. fold (add_outputs cb h l (addTxOut op o cb h v)).
  destruct (IH (addTxOut op o cb h v)) as (He & Hh & Hp). split_and!.
  - rewrite He, addTxOut_effective. cbn [omap list_omap]. destruct (coin_of cb h (op, o)); done.
  - rewrite Hh. unfold addTxOut. now destruct (unspendable _).
  - intros op' Hop. apply Hp, addTxOut_present, Hop.
Qed.

Lemma AddTxOuts_spec tx h v B :
  effective (AddTxOuts tx h v) B = add_coins (made tx h) (effective v B) /\
  bestHash (AddTxOuts tx h v) = bestHash v /\
  (forall op, is_Some (LookupEntry v op) -> is_Some (LookupEntry (AddTxOuts tx h v) op)).
Proof. apply add_outputs_spec. Qed.

(** The view holds what the set below it has at these outpoints. *)
Definition loaded (ops : list OutPoint) (v : UtxoViewpoint) (B : coins) : Prop :=
  forall op, op ∈ ops -> B !! op = None \/ is_Some (LookupEntry v op).

Lemma loaded_mono ops v v' B :
  (forall op, is_Some (LookupEntry v op) -> is_Some (LookupEntry v' op)) ->
  loaded ops v B -> loaded ops v' B.
Proof. intros Hm Hl op Hop. destruct (Hl op Hop); auto. Qed.

Lemma lookups_cons S op ops l :
  lookups S (op :: ops) = Some l ->
  exists c l', l = c :: l' /\ S !! op = Some c /\ lookups S ops = Some l'.
Proof.
  rewrite lookups_Some. intros Hf. apply Forall2_cons_inv_l in Hf as (c & l' & Hc & Hl & ->).
  exists c, l'. now rewrite lookups_Some.
Qed.

Lemma lookups_delete S op ops : op ∉ ops -> lookups (delete op S) ops = lookups S ops.
Proof.
  intros Hop. unfold lookups. induction ops as [| o ops IH]; [done |]. cbn.
  apply not_elem_of_cons in Hop as [Hne Hop]. rewrite lookup_delete_ne by done. now rewrite IH.
Qed.

Lemma spend_inputs_spec B ins : forall v sx l,
  NoDup (PreviousOutPoint <$> ins) -> loaded (PreviousOutPoint <$> ins) v B ->
  lookups (effective v B) (PreviousOutPoint <$> ins) = Some l ->
  exists v', spend_inputs ins (v, sx) = (Ok tt, (v', option_map (fun k => k ++ l) sx)) /\
    effective v' B = del_coins (PreviousOutPoint <$> ins) (effective v B) /\ bestHash v' = bestHash v /\
    (forall op, is_Some (LookupEntry v op) -> is_Some (LookupEntry v' op)).
Proof.
  induction ins as [| ti ins IH]; intros v sx l Hd Hld Hl.
  { injection Hl as <-. exists v. split_and!; try done. cbn. unfold ret.
    destruct sx as [k |]; cbn [option_map]; [now rewrite app_nil_r | done]. }
  rewrite fmap_cons in *. set (op := PreviousOutPoint ti) in *. apply NoDup_cons in Hd as [Hnin Hd].
  destruct (lookups_cons _ _ _ _ Hl) as (c & l' & -> & Hc & Hl').
  assert (Hin : op ∈ op :: (PreviousOutPoint <$> ins)) by constructor.
  rewrite lookup_effective in Hc. destruct (LookupEntry v op) as [e |] eqn:He;
    [| destruct (Hld op Hin) as [Hn | Hs]; [congruence | rewrite He in Hs; destruct Hs; discriminate]].
  destruct (IsSpent e) eqn:Hsp; [discriminate |]. injection Hc as <-.
  set (v1 := set_entry op (Some (Spend e)) v).
  assert (Heff : effective v1 B = delete op (effective v B))
    by (unfold v1; now rewrite effective_set, Spend_spent).
  assert (Hmono : forall o, is_Some (LookupEntry v o) -> is_Some (LookupEntry v1 o)).
  { intros o Ho. unfold v1. rewrite LookupEntry_set. case_decide; eauto. }
  destruct (IH v1 (record_stxo (stxo_of e) sx) l' Hd) as (v' & Hrun & Hv' & Hh & Hm).
  - apply (loaded_mono _ v); [exact Hmono |]. intros o Ho. apply Hld. now constructor.
  - now rewrite Heff, lookups_delete.
  - exists v'. split_and!.
    + cbn [spend_inputs]. rewrite bind_eq. cbn [get fst]. fold op. rewrite He, bind_eq. cbn [put]. fold v1.
      cbn [fst snd]. rewrite Hrun. destruct sx; cbn [record_stxo option_map]; [now rewrite <- app_assoc | done].
    + now rewrite Hv', Heff, del_coins_cons.
    + now rewrite Hh.
    + auto.
Qed.

(** What a transaction spends. *)
Definition spends (tx : MsgTx) : list OutPoint := if IsCoinBaseTx tx then [] else inputs tx.

Lemma connect_tx_spec tx h v sx B S' l :
  apply_tx h tx (effective v B) = Some (S', l) -> loaded (spends tx) v B ->
  exists v', connectTransaction tx h (v, sx) = (Ok tt, (v', option_map (fun k => k ++ l) sx)) /\
    effective v' B = S' /\ bestHash v' = bestHash v /\
    (forall op, is_Some (LookupEntry v op) -> is_Some (LookupEntry v' op)).
Proof.
  unfold apply_tx, connectTransaction, spends. intros Ha Hld. destruct (IsCoinBaseTx tx).
  - injection Ha as <- <-. destruct (AddTxOuts_spec tx h v B) as (He & Hh & Hp).
    eexists. split_and!; eauto. unfold on_view, modify. cbn [fst snd].
    destruct sx; cbn [option_map]; [now rewrite app_nil_r | done].
  - destruct (decide (NoDup (inputs tx))) as [Hd |]; [| discriminate].
    destruct (lookups (effective v B) (inputs tx)) as [spent |] eqn:Hl; [| discriminate].
    injection Ha as <- <-. destruct (spend_inputs_spec B (TxIns tx) v sx spent Hd Hld Hl) as (v1 & Hrun & He1 & Hh1 & Hm1).
    destruct (AddTxOuts_spec tx h v1 B) as (He & Hh & Hp). exists (AddTxOuts tx h v1). split_and!.
    + rewrite bind_eq, Hrun. reflexivity.
    + now rewrite He, He1.
    + congruence.
    + auto.
Qed.

Lemma connect_all_spec h B txs : forall v sx S' l,
  apply_txs h txs (effective v B) = Some (S', l) -> loaded (txs ≫= spends) v B ->
  exists v', connect_all txs h (v, sx) = (Ok tt, (v', option_map (fun k => k ++ l) sx)) /\
    effective v' B = S' /\ bestHash v' = bestHash v.
Proof.
  induction txs as [| tx txs IH]; intros v sx S' l Ha Hld; cbn [apply_txs] in Ha.
  { injection Ha as <- <-. exists v. split_and!; try done. cbn. unfold ret.
    destruct sx; cbn [option_map]; [now rewrite app_nil_r | done]. }
  destruct (apply_tx h tx (effective v B)) as [[S1 l1] |] eqn:H1; [| discriminate]. cbn in Ha.
  destruct (apply_txs h txs S1) as [[S2 l2] |] eqn:H2; [| discriminate]. injection Ha as <- <-.
  rewrite bind_cons in Hld.
  destruct (connect_tx_spec tx h v sx B S1 l1 H1) as (v1 & Hrun & He & Hh & Hm).
  { intros op Hop. apply Hld, elem_of_app. now left. }
  rewrite <- He in H2.
  destruct (IH v1 (option_map (fun k => k ++ l1) sx) S2 l2 H2) as (v2 & Hrun2 & He2 & Hh2).
  { apply (loaded_mono _ v); [exact Hm |]. intros op Hop. apply Hld, elem_of_app. now right. }
  exists v2. split_and!; [| done | congruence]. cbn [connect_all]. rewrite bind_eq, Hrun, Hrun2.
  destruct sx; cbn [option_map]; [now rewrite app_assoc | done].
Qed.
End Refinement.

(** * Disconnecting undoes connecting *)

Section Inverse.
Context `{Crypto} (dbFetch : bytes -> checked (option UtxoEntry)).

Lemma unmake_outputs_effective cb cb' h B l : forall v,
  effective (foldl (unmake_output cb h) v l) B = del_coins (omap (coin_of cb' h) l).*1 (effective v B).
Proof.
  induction l as [| [op o] l IH]; intros v; [done |]. cbn [foldl omap list_omap].
  rewrite IH. unfold unmake_output at 1, coin_of at 2. cbn [fst snd].
  destruct (unspendable (PkScript o)); [done |]. rewrite fmap_cons, del_coins_cons. cbn [fst].
  rewrite effective_set. now rewrite Spend_spent.
Qed.

Lemma restore_input_effective txHash ti c v B :
  st_Height c <> 0 ->
  exists v', restore_input dbFetch txHash ti c v = Ok v' /\
    effective v' B = <[PreviousOutPoint ti := c]> (effective v B).
Proof.
  intros Hc. unfold restore_input. replace (st_Height c =? 0) with false by lia. cbn [obind].
  eexists. split; [reflexivity |]. rewrite effective_set.
  set (v1 := match LookupEntry v (PreviousOutPoint ti) with Some _ => v | None => _ end).
  assert (Heq : forall x, <[PreviousOutPoint ti := x]> (effective v1 B) = <[PreviousOutPoint ti := x]> (effective v B)).
  { intros x. unfold v1. destruct (LookupEntry v (PreviousOutPoint ti)); [done |].
    rewrite effective_set. change (IsSpent (mkEntry 0 [] 0 0)) with false. cbn iota. apply insert_insert_eq. }
  destruct c as [a sc ht cb]. cbn [st_IsCoinBase Amount st_PkScript st_Height] in *.
  destruct cb; (change (IsSpent _) with false; cbn iota; apply Heq).
Qed.

Lemma restore_inputs_effective txHash B ins : forall l rest v,
  length l = length ins -> Forall (fun c => st_Height c <> 0) l ->
  exists v', restore_inputs dbFetch txHash ins (l ++ rest) v = Ok (v', rest) /\
    effective v' B = add_coins (zip (PreviousOutPoint <$> ins) l) (effective v B).
Proof.
  induction ins as [| ti ins IH]; intros [| c l] rest v Hlen Hh; try discriminate; [now exists v |].
  apply Forall_cons in Hh as [Hc Hh]. destruct (restore_input_effective txHash ti c v B Hc) as (v1 & Hr & He).
  destruct (IH l rest v1 ltac:(injection Hlen as Hl; exact Hl) Hh) as (v' & Hr' & He').
  exists v'. cbn [restore_inputs app]. rewrite Hr. cbn [obind]. split; [exact Hr' |].
  rewrite He', He, fmap_cons. reflexivity.
Qed.

Lemma lookups_reverse S ops l : lookups S ops = Some l -> lookups S (reverse ops) = Some (reverse l).
Proof. rewrite !lookups_Some. apply Forall2_reverse. Qed.

Lemma del_coins_reverse ops S : del_coins (reverse ops) S = del_coins ops S.
Proof.
  apply map_eq. intros op. rewrite !lookup_del_coins.
  apply decide_ext. apply elem_of_reverse.
Qed.

Definition heights_ok (S : coins) : Prop := map_Forall (fun _ c => st_Height c <> 0) S.

Lemma lookups_heights S ops l : heights_ok S -> lookups S ops = Some l -> Forall (fun c => st_Height c <> 0) l.
Proof.
  intros Hh Hl. apply lookups_Some in Hl. induction Hl as [| op c ops l Hc Hl IH]; constructor; eauto.
Qed.

Lemma disconnect_tx_spec h tx S S' l w B rest :
  apply_tx h tx S = Some (S', l) -> heights_ok S ->
  (forall op, op ∈ (made tx h).*1 -> S !! op = None) -> effective w B = S' ->
  exists w', disconnect_tx dbFetch h (IsCoinBaseTx tx) tx (reverse l ++ rest) w = Ok (w', rest) /\
    effective w' B = S.
Proof.
  unfold apply_tx, disconnect_tx. intros Ha Hh Hf He.
  set (w1 := foldl (unmake_output (IsCoinBaseTx tx) h) w (tx_outputs tx)).
  assert (Hw1 : effective w1 B = del_coins (made tx h).*1 S')
    by (unfold w1; now rewrite (unmake_outputs_effective _ (IsCoinBaseTx tx)), He).
  destruct (IsCoinBaseTx tx) eqn:Hcb.
  - injection Ha as <- <-. exists w1. split; [done |]. rewrite Hw1. now apply add_del_coins.
  - destruct (decide (NoDup (inputs tx))); [| discriminate].
    destruct (lookups S (inputs tx)) as [spent |] eqn:Hl; [| discriminate]. injection Ha as <- <-.
    rewrite add_del_coins in Hw1.
    2: { intros op Hop. rewrite lookup_del_coins. destruct (decide _); auto. }
    pose proof (lookups_reverse _ _ _ Hl) as Hlr.
    destruct (restore_inputs_effective (TxHash tx) B (reverse (TxIns tx)) (reverse spent) rest w1)
      as (w' & Hr & He').
    + rewrite !length_reverse. apply lookups_Some, Forall2_length in Hl. unfold inputs in Hl.
      now rewrite length_fmap in Hl.
    + apply Forall_reverse. eauto using lookups_heights.
    + exists w'. split; [exact Hr |]. rewrite He', Hw1, fmap_reverse. fold (inputs tx).
      rewrite <- (del_coins_reverse (inputs tx)). now apply restore_coins.
Qed.

(** The outputs a transaction makes are not there before it. *)
Fixpoint all_fresh (h : Z) (txs : list MsgTx) (S : coins) : Prop :=
  match txs with
  | [] => True
  | tx :: txs' =>
      (forall op, op ∈ (made tx h).*1 -> S !! op = None) /\
      (forall S1 l1, apply_tx h tx S = Some (S1, l1) -> all_fresh h txs' S1)
  end.

Lemma disconnect_rest_app h a b stxos v :
  disconnect_rest dbFetch h (a ++ b) stxos v =
  let! r := disconnect_rest dbFetch h a stxos v in disconnect_rest dbFetch h b (snd r) (fst r).
Proof.
  revert stxos v. induction a as [| tx a IH]; intros stxos v; [done |]. cbn [app disconnect_rest].
  destruct (disconnect_tx dbFetch h false tx stxos v) as [[v1 s1] | |]; cbn [obind fst snd]; [apply IH | done | done].
Qed.

Lemma made_heights tx h p : p ∈ made tx h -> st_Height (snd p) = h.
Proof.
  unfold made. intros Hp. apply list_elem_of_omap in Hp as ([op o] & _ & Hc).
  unfold coin_of in Hc. destruct (unspendable _); [discriminate |]. now injection Hc as <-.
Qed.

Lemma heights_add l S :
  heights_ok S -> Forall (fun p => st_Height (snd p) <> 0) l -> heights_ok (add_coins l S).
Proof.
  revert S. induction l as [| p l IH]; intros S HS Hl; [done |]. apply Forall_cons in Hl as [Hp Hl].
  rewrite add_coins_cons. apply IH; [| done]. now apply map_Forall_insert_2.
Qed.

Lemma heights_del ops S : heights_ok S -> heights_ok (del_coins ops S).
Proof.
  intros HS op c Hc. rewrite lookup_del_coins in Hc. destruct (decide _); [discriminate |]. eauto.
Qed.

Lemma apply_tx_heights h tx S S' l : h <> 0 -> heights_ok S -> apply_tx h tx S = Some (S', l) -> heights_ok S'.
Proof.
  intros Hh HS. assert (Hm : Forall (fun p => st_Height (snd p) <> 0) (made tx h)).
  { apply Forall_forall. intros p Hp. now rewrite (made_heights tx h p Hp). }
  unfold apply_tx. destruct (IsCoinBaseTx tx); [intros [= <- <-]; now apply heights_add |].
  destruct (decide _); [| discriminate]. destruct (lookups S (inputs tx)); [| discriminate].
  intros [= <- <-]. apply heights_add, Hm. now apply heights_del.
Qed.

Lemma disconnect_rest_spec h B txs : forall S S' l w rest,
  h <> 0 -> Forall (fun tx => IsCoinBaseTx tx = false) txs -> heights_ok S -> all_fresh h txs S ->
  apply_txs h txs S = Some (S', l) -> effective w B = S' ->
  exists w', disconnect_rest dbFetch h (reverse txs) (reverse l ++ rest) w = Ok (w', rest) /\ effective w' B = S.
Proof.
  induction txs as [| tx txs IH]; intros S S' l w rest Hh Hcb HS Hf Ha He; cbn [apply_txs] in Ha.
  { injection Ha as <- <-. now exists w. }
  apply Forall_cons in Hcb as [Hc Hcb]. destruct Hf as [Hf Hfs].
  destruct (apply_tx h tx S) as [[S1 l1] |] eqn:H1; [| discriminate]. cbn in Ha.
  destruct (apply_txs h txs S1) as [[S2 l2] |] eqn:H2; [| discriminate]. injection Ha as <- <-.
  destruct (IH S1 S2 l2 w (reverse l1 ++ rest) Hh Hcb) as (w1 & Hr1 & He1); eauto using apply_tx_heights.
  destruct (disconnect_tx_spec h tx S S1 l1 w1 B rest H1 HS Hf He1) as (w2 & Hr2 & He2). rewrite Hc in Hr2.
  exists w2. split; [| done]. rewrite reverse_cons, reverse_app, <- app_assoc, disconnect_rest_app, Hr1.
  cbn [obind fst snd disconnect_rest]. now rewrite Hr2.
Qed.

Lemma tx_outputs_hash tx p : p ∈ tx_outputs tx -> Hash (fst p) = TxHash tx.
Proof.
  unfold tx_outputs. generalize (TxHash tx), 0. intros hash. induction (TxOuts tx) as [| o outs IH]; intros i Hp.
  - now apply elem_of_nil in Hp.
  - cbn [outpoints_from] in Hp. apply elem_of_cons in Hp as [-> | Hp]; [done | eauto].
Qed.

Lemma made_hash tx h op : op ∈ (made tx h).*1 -> Hash op = TxHash tx.
Proof.
  intros Hop. apply list_elem_of_fmap in Hop as (p & -> & Hp). unfold made in Hp.
  apply list_elem_of_omap in Hp as (q & Hq & Hc). unfold coin_of in Hc.
  destruct (unspendable _); [discriminate |]. injection Hc as <-. now apply tx_outputs_hash.
Qed.

(** Every coin of the new set is an old one or was made. *)
Lemma apply_tx_coin h tx S S' l op :
  apply_tx h tx S = Some (S', l) -> is_Some (S' !! op) -> is_Some (S !! op) \/ Hash op = TxHash tx.
Proof.
  intros Ha Hs. destruct (decide (op ∈ (made tx h).*1)) as [Hm | Hm]; [right; eauto using made_hash | left].
  unfold apply_tx in Ha. destruct (IsCoinBaseTx tx).
  - injection Ha as <- <-. now rewrite lookup_add_coins_notin in Hs.
  - destruct (decide _); [| discriminate]. destruct (lookups S (inputs tx)); [| discriminate].
    injection Ha as <- <-. rewrite lookup_add_coins_notin, lookup_del_coins in Hs by done.
    destruct (decide _); [destruct Hs; discriminate | done].
Qed.

Lemma all_fresh_new h txs : forall S,
  NoDup (TxHash <$> txs) -> (forall op, is_Some (S !! op) -> Hash op ∉ TxHash <$> txs) -> all_fresh h txs S.
Proof.
  induction txs as [| tx txs IH]; intros S Hd Hn; [done |]. rewrite fmap_cons in *.
  apply NoDup_cons in Hd as [Hnin Hd]. split.
  - intros op Hop%made_hash. apply eq_None_not_Some. intros Hs. apply (Hn op Hs). rewrite Hop. constructor.
  - intros S1 l1 Ha. apply IH; [done |]. intros op Hs Hin.
    destruct (apply_tx_coin _ _ _ _ _ _ Ha Hs) as [Ho | Heq]; [| now rewrite Heq in Hin].
    apply (Hn op Ho). now constructor.
Qed.

Lemma apply_txs_length h txs : forall S S' l,
  Forall (fun tx => IsCoinBaseTx tx = false) txs -> apply_txs h txs S = Some (S', l) ->
  zlen l = zsum (fun tx => zlen (TxIns tx)) txs.
Proof.
  induction txs as [| tx txs IH]; intros S S' l Hcb Ha; cbn [apply_txs] in Ha; [now injection Ha as <- <- |].
  apply Forall_cons in Hcb as [Hc Hcb]. destruct (apply_tx h tx S) as [[S1 l1] |] eqn:H1; [| discriminate].
  cbn in Ha. destruct (apply_txs h txs S1) as [[S2 l2] |] eqn:H2; [| discriminate]. injection Ha as <- <-.
  rewrite zlen_app, zsum_cons, (IH _ _ _ Hcb H2). f_equal. unfold apply_tx in H1. rewrite Hc in H1.
  destruct (decide _); [| discriminate]. destruct (lookups S (inputs tx)) as [sp |] eqn:Hl; [| discriminate].
  injection H1 as <- <-. apply lookups_Some, Forall2_length in Hl. unfold zlen, inputs in *.
  rewrite length_fmap in Hl. lia.
Qed.

Lemma disconnect_spec block h tx0 txs S S' l w B :
  Transactions block = tx0 :: txs -> IsCoinBaseTx tx0 = true ->
  Forall (fun tx => IsCoinBaseTx tx = false) txs -> h <> 0 -> heights_ok S ->
  all_fresh h (Transactions block) S -> apply_txs h (Transactions block) S = Some (S', l) ->
  effective w B = S' ->
  exists w', disconnectTransactions dbFetch block h l w = Ok w' /\ effective w' B = S /\
    bestHash w' = PrevBlock (Header block).
Proof.
  intros Htx H0 Hcb Hh HS Hf Ha He. rewrite Htx in *. destruct Hf as [Hf0 Hfs]. cbn [apply_txs] in Ha.
  destruct (apply_tx h tx0 S) as [[S1 l1] |] eqn:H1; [| discriminate]. cbn in Ha.
  destruct (apply_txs h txs S1) as [[S2 l2] |] eqn:H2; [| discriminate]. injection Ha as <- <-.
  assert (l1 = []) as -> by (unfold apply_tx in H1; rewrite H0 in H1; now injection H1 as <- <-).
  unfold disconnectTransactions, countSpentOutputs. rewrite Htx. cbn [tail app].
  rewrite (apply_txs_length _ _ _ _ _ Hcb H2), Z.eqb_refl. cbn [negb obind].
  destruct (disconnect_rest_spec h B txs S1 S2 l2 w [] Hh Hcb) as (w1 & Hr1 & He1); eauto using apply_tx_heights.
  rewrite app_nil_r in Hr1. rewrite Hr1. cbn [obind fst snd].
  destruct (disconnect_tx_spec h tx0 S S1 [] w1 B [] H1 HS Hf0 He1) as (w2 & Hr2 & He2).
  rewrite H0 in Hr2. cbn [reverse rev_append app] in Hr2. rewrite Hr2. cbn [obind fst].
  eexists. split; [reflexivity |]. split; [exact He2 | reflexivity].
Qed.

(** An entry of the old journal, without its height, comes back as an output of
    the block that spent it: the search is for outputs of the spending
    transaction, which are in the view. *)
Lemma legacy_entry ti c v tx0 e B :
  LookupEntry v (mkOutPoint (TxHash tx0) 0) = Some e -> st_Height c = 0 ->
  PreviousOutPoint ti <> mkOutPoint (TxHash tx0) 0 ->
  exists v', restore_input dbFetch (TxHash tx0) ti c v = Ok v' /\
    effective v' B !! PreviousOutPoint ti =
      Some (mkSpent (Amount c) (st_PkScript c) (blockHeight e) (IsCoinBase e)).
Proof.
  intros He Hc Hne. unfold restore_input. rewrite Hc. cbn [Z.eqb].
  set (v1 := match LookupEntry v (PreviousOutPoint ti) with Some _ => v | None => _ end).
  assert (H1 : LookupEntry v1 (mkOutPoint (TxHash tx0) 0) = Some e).
  { unfold v1. destruct (LookupEntry v (PreviousOutPoint ti)); [done |].
    rewrite LookupEntry_set, decide_False by done. done. }
  assert (Hf : fetchEntryByHash dbFetch v1 (TxHash tx0) = Ok (Some e)).
  { unfold fetchEntryByHash. destruct (Z.to_nat MaxOutputsPerBlock) eqn:Hn; [discriminate |].
    cbn [entry_by_hash_loop]. now rewrite H1. }
  rewrite Hf. cbn [obind]. eexists. split; [reflexivity |]. rewrite effective_set.
  cbn [st_IsCoinBase st_Height Amount st_PkScript]. destruct (IsCoinBase e);
    (change (IsSpent _) with false; cbn iota; rewrite lookup_insert_eq; reflexivity).
Qed.
End Inverse.

(** * The claim *)

(** C22: connecting a block to a view and disconnecting it.  Let a view [v] over
    a set of coins stand for the set [S], hold the coins that the block spends,
    and let the block, whose first transaction alone is a coinbase, be
    applicable to [S] as a ledger: no transaction has an input twice, each
    input is a coin that is there when the transaction is reached, and no coin
    of [S] has the id of a transaction of the block, whose ids are distinct.
    Then connecting succeeds, the view stands for the ledger after the block
    and the journal lists the spent coins in order; and disconnecting the block
    with that journal succeeds on every view that stands for the ledger after
    the block, without looking at the database, and it then stands for [S]
    again, with the best hash back at the previous block. *)
Theorem connect_disconnect `{Crypto} dbFetch block h tx0 txs v B S' l :
  Transactions block = tx0 :: txs -> IsCoinBaseTx tx0 = true ->
  Forall (fun tx => IsCoinBaseTx tx = false) txs -> h <> 0 ->
  heights_ok (effective v B) -> loaded (Transactions block ≫= spends) v B ->
  NoDup (TxHash <$> Transactions block) ->
  (forall op, is_Some (effective v B !! op) -> Hash op ∉ TxHash <$> Transactions block) ->
  apply_txs h (Transactions block) (effective v B) = Some (S', l) ->
  (exists v', connectTransactions block h (v, Some []) = (Ok tt, (v', Some l)) /\
     effective v' B = S' /\ bestHash v' = BlockHash (Header block)) /\
  (forall w B', effective w B' = S' ->
     exists w', disconnectTransactions dbFetch block h l w = Ok w' /\
       effective w' B' = effective v B /\ bestHash w' = PrevBlock (Header block)).
Proof.
  intros Htx H0 Hcb Hh HS Hld Hd Hn Ha. split.
  - destruct (connect_all_spec h B (Transactions block) v (Some []) S' l Ha Hld) as (v' & Hrun & He & _).
    exists (SetBestHash (BlockHash (Header block)) v'). split; [| split; [exact He | reflexivity]].
    unfold connectTransactions. rewrite bind_eq, Hrun. reflexivity.
  - intros w B' He. eapply disconnect_spec; eauto using all_fresh_new.
Qed.

Definition old_outpoint : OutPoint := mkOutPoint (replicate 32 x11) 0.

(** A view with one coin, and a block that spends it. *)
Definition one_coin : UtxoViewpoint :=
  set_entry old_outpoint (Some (mkEntry 1000 [x51] 3 0)) NewUtxoViewpoint.

Definition spending_block : MsgBlock :=
  mkMsgBlock (mkBlockHeader 1 (replicate 32 x22) zeroHash 0 0 0)
    [mkMsgTx 1 [mkTxIn (mkOutPoint zeroHash MaxPrevOutIndex) [x01; x07] [] 0] [mkTxOut 5000 [x51]] 0;
     mkMsgTx 2 [mkTxIn old_outpoint [] [] 0] [mkTxOut 900 [x52]; mkTxOut 50 [x6a]] 0].

Lemma connect_disconnect_witness :
  let H := toy_crypto in
  exists v' w', connectTransactions spending_block 5 (one_coin, Some []) =
      (Ok tt, (v', Some [mkSpent 1000 [x51] 3 false])) /\
    disconnectTransactions (fun _ => Ok None) spending_block 5 [mkSpent 1000 [x51] 3 false] v' = Ok w' /\
    effective w' ∅ = effective one_coin ∅.
Proof.
  intros H.
  assert (Hl : snd <$> apply_txs 5 (Transactions spending_block) (effective one_coin ∅) =
               Some [mkSpent 1000 [x51] 3 false]) by (vm_compute; reflexivity).
  destruct (apply_txs 5 (Transactions spending_block) (effective one_coin ∅)) as [[S' l] |] eqn:Ha;
    [| discriminate].
  assert (l = [mkSpent 1000 [x51] 3 false]) as -> by (cbn in Hl; congruence).
  assert (Hone : effective one_coin ∅ = {[old_outpoint := mkSpent 1000 [x51] 3 false]})
    by (unfold one_coin; now rewrite effective_set).
  destruct (connect_disconnect (fun _ => Ok None) spending_block 5 _ _ one_coin ∅ S'
    [mkSpent 1000 [x51] 3 false] eq_refl) as [(v' & Hc & He & _) Hdis].
  - reflexivity.
  - repeat constructor.
  - discriminate.
  - rewrite Hone. apply map_Forall_singleton. discriminate.
  - intros op _. left. apply lookup_empty.
  - apply (proj1 (bool_decide_eq_true _)). vm_compute. reflexivity.
  - intros op [c Hc]. rewrite Hone in Hc. apply lookup_singleton_Some in Hc as [<- _].
    apply (proj1 (bool_decide_eq_true _)). vm_compute. reflexivity.
  - exact Ha.
  - destruct (Hdis v' ∅ He) as (w' & Hw & Hb & _). exists v', w'. done.
Defined.
