(* ===== verification/Supply.v ===== *)
(** The amounts of the ledger of UtxoView: what a set of coins is worth and how a
    transaction changes that. *)

From stdpp Require Import gmap fin_maps.
From S2P Require Import Prelude Slices MsgTx MsgBlock Crypto BtcUtil Merkle Difficulty TxRules UtxoView.
#[local] Open Scope Z_scope.

(** What coins, and the outputs of a transaction, are worth. *)
Definition worth (l : list SpentTxOut) : Z := zsum Amount l.
Definition supply (S : coins) : Z := worth (map_to_list S).*2.
Definition paid (tx : MsgTx) : Z := zsum Value (TxOuts tx).

Definition solvent (S : coins) : Prop := map_Forall (fun _ c => 0 <= Amount c) S.

Lemma worth_app l k : worth (l ++ k) = worth l + worth k.
Proof. apply zsum_app. Qed.

Lemma worth_Permutation l k : l ≡ₚ k -> worth l = worth k.
Proof. unfold worth. induction 1; rewrite ?zsum_cons in *; lia. Qed.

Lemma worth_nonneg l : Forall (fun c => 0 <= Amount c) l -> 0 <= worth l.
Proof. unfold worth. induction 1; rewrite ?zsum_cons; [done | lia]. Qed.

Lemma supply_fresh S op c : S !! op = None -> supply (<[op := c]> S) = Amount c + supply S.
Proof.
  intros Hn. unfold supply. rewrite (worth_Permutation _ (c :: (map_to_list S).*2)); [apply zsum_cons |].
  now rewrite map_to_list_insert.
Qed.

Lemma supply_delete S op c : S !! op = Some c -> supply (delete op S) = supply S - Amount c.
Proof.
  intros Hc. rewrite <- (insert_delete_id S op c Hc) at 2. rewrite supply_fresh by apply lookup_delete_eq. lia.
Qed.

Lemma solvent_insert S op c : 0 <= Amount c -> solvent S -> solvent (<[op := c]> S).
Proof. intros Hc HS. now apply map_Forall_insert_2. Qed.

Lemma solvent_delete S op : solvent S -> solvent (delete op S).
Proof. intros HS. now apply map_Forall_delete. Qed.

(** A coin that is overwritten is lost. *)
Lemma supply_insert S op c : solvent S -> supply (<[op := c]> S) <= supply S + Amount c.
Proof.
  intros HS. destruct (S !! op) as [c' |] eqn:Hc; [| rewrite supply_fresh by done; lia].
  rewrite <- insert_delete_eq, supply_fresh, (supply_delete S op c' Hc) by apply lookup_delete_eq.
  pose proof (HS op c' Hc). cbn in *. lia.
Qed.

Lemma supply_add l : forall S,
  solvent S -> Forall (fun p => 0 <= Amount (snd p)) l ->
  solvent (add_coins l S) /\ supply (add_coins l S) <= supply S + worth l.*2.
Proof.
  induction l as [| [op c] l IH]; intros S HS Hl; [split; [done | change (add_coins [] S) with S; cbn; lia] |]. apply Forall_cons in Hl as [Hc Hl]. cbn [snd] in Hc.
  rewrite add_coins_cons, fmap_cons. cbn [fst snd]. destruct (IH (<[op := c]> S)) as [H1 H2]; [now apply solvent_insert | done |].
  split; [done |]. pose proof (supply_insert S op c HS). unfold worth in *. rewrite zsum_cons. lia.
Qed.

Lemma supply_del ops : forall S l,
  solvent S -> NoDup ops -> lookups S ops = Some l ->
  solvent (del_coins ops S) /\ supply (del_coins ops S) = supply S - worth l /\ Forall (fun c => 0 <= Amount c) l.
Proof.
  induction ops as [| op ops IH]; intros S l HS Hd Hl.
  { injection Hl as <-. cbn. split_and!; [done | unfold worth; cbn; lia | constructor]. }
  apply NoDup_cons in Hd as [Hn Hd]. destruct (lookups_cons S op ops l Hl) as (c & k & -> & Hc & Hk).
  rewrite del_coins_cons. destruct (IH (delete op S) k) as (H1 & H2 & H3);
    [now apply solvent_delete | done | now rewrite lookups_delete |].
  split_and!; [done | | constructor; [exact (HS op c Hc) | done]].
  rewrite H2, (supply_delete S op c Hc). unfold worth. rewrite zsum_cons. lia.
Qed.

Section Ledger.
Context `{Crypto}.

Lemma outputs_worth cb h hash outs : Forall (fun o => 0 <= Value o) outs -> forall i,
  let l := omap (coin_of cb h) (outpoints_from hash i outs) in
  Forall (fun p => 0 <= Amount (snd p)) l /\ worth l.*2 <= zsum Value outs.
Proof.
  induction 1 as [| o l Ho Hl IH]; intros i; cbn [outpoints_from omap list_omap]; [split; [constructor | done] |].
  destruct (IH (i + 1)) as [H1 H2]. rewrite zsum_cons.
  destruct (coin_of cb h (mkOutPoint hash (uint32 i), o)) as [p |] eqn:Hp; [| split; [done | lia]].
  assert (Hpv : Amount (snd p) = Value o)
    by (unfold coin_of in Hp; cbn [snd] in Hp; destruct (unspendable _); [discriminate | now injection Hp as <-]).
  rewrite fmap_cons. unfold worth in *. rewrite zsum_cons, Hpv. split; [constructor; [lia | done] | lia].
Qed.

Lemma made_worth tx h :
  Forall (fun o => 0 <= Value o) (TxOuts tx) ->
  Forall (fun p => 0 <= Amount (snd p)) (made tx h) /\ worth (made tx h).*2 <= paid tx.
Proof. intros Ho. now apply outputs_worth. Qed.

(** A transaction makes no more than it spends and its fee leaves over; only a
    coinbase makes coins from nothing. *)
Lemma supply_tx h tx S S' l :
  apply_tx h tx S = Some (S', l) -> solvent S -> Forall (fun o => 0 <= Value o) (TxOuts tx) ->
  solvent S' /\ supply S' <= supply S - worth l + paid tx /\ Forall (fun c => 0 <= Amount c) l.
Proof.
  unfold apply_tx. intros Ha HS Ho. destruct (made_worth tx h Ho) as [Hm Hw]. destruct (IsCoinBaseTx tx).
  - injection Ha as <- <-. destruct (supply_add _ S HS Hm) as [H1 H2]. split_and!; [done | | constructor].
    unfold worth in *. cbn. lia.
  - destruct (decide (NoDup (inputs tx))) as [Hd |]; [| discriminate].
    destruct (lookups S (inputs tx)) as [spent |] eqn:Hl; [| discriminate]. injection Ha as <- <-.
    destruct (supply_del _ S spent HS Hd Hl) as (H1 & H2 & H3). destruct (supply_add _ _ H1 Hm) as [H4 H5].
    split_and!; [done | lia | done].
Qed.
End Ledger.
