(* ===== verification/Bucket.v ===== *)
(** Buckets of the database (src/btcd/database/interface.go): what a bucket
    promises to its clients, as a class.

    The errors its methods document (a closed or a read-only transaction, an
    empty key) do not arise for the clients modelled here, which write inside
    [db.Update] with keys that are not empty; what a writing method leaves
    behind is the bucket it returns. *)

From stdpp Require Import gmap.
From S2P Require Import Prelude.
#[local] Open Scope Z_scope.

(** * The order of keys *)

(** [bytes.Compare(a, b) <= 0] *)
Fixpoint bytes_leb (a b : bytes) : bool :=
  match a, b with
  | [], _ => true
  | _ :: _, [] => false
  | x :: a', y :: b' => if b2z x =? b2z y then bytes_leb a' b' else b2z x <? b2z y
  end.

Definition bytes_le (a b : bytes) : Prop := bytes_leb a b = true.

#[global] Instance bytes_le_dec : RelDecision bytes_le.
Proof. intros a b. unfold bytes_le. apply _. Defined.

Lemma bytes_le_cons x y a b :
  bytes_le (x :: a) (y :: b) <-> b2z x < b2z y \/ (x = y /\ bytes_le a b).
Proof.
  unfold bytes_le. cbn [bytes_leb]. destruct (Z.eqb_spec (b2z x) (b2z y)) as [Heq | Hne].
  - split; [intros; right; split; [now apply b2z_inj | done] |]. intros [Hlt | [_ H]]; [lia | done].
  - rewrite Z.ltb_lt. split; [now left |]. intros [Hlt | [-> _]]; [done | done].
Qed.

Lemma bytes_le_refl a : bytes_le a a.
Proof. induction a as [| x a IH]; [done |]. apply bytes_le_cons. auto. Qed.

Lemma bytes_le_trans a b c : bytes_le a b -> bytes_le b c -> bytes_le a c.
Proof.
  revert b c. induction a as [| x a IH]; intros [| y b] [| z c] Hab Hbc; try done.
  apply bytes_le_cons in Hab, Hbc. apply bytes_le_cons.
  destruct Hab as [Hab | [-> Hab]], Hbc as [Hbc | [-> Hbc]]; [left; lia | left; lia | left; lia | right; eauto].
Qed.

Lemma bytes_le_antisym a b : bytes_le a b -> bytes_le b a -> a = b.
Proof.
  revert b. induction a as [| x a IH]; intros [| y b] Hab Hba; try done.
  apply bytes_le_cons in Hab, Hba.
  destruct Hab as [Hab | [-> Hab]], Hba as [Hba | [Heq Hba]]; subst; try lia. f_equal. auto.
Qed.

Lemma bytes_le_total a b : bytes_le a b \/ bytes_le b a.
Proof.
  revert b. induction a as [| x a IH]; intros [| y b]; try (left; done); try (right; done).
  rewrite !bytes_le_cons. destruct (Z.lt_trichotomy (b2z x) (b2z y)) as [| [Heq |]]; auto.
  apply b2z_inj in Heq as ->. destruct (IH b); auto.
Qed.

#[global] Instance bytes_le_total_order : TotalOrder bytes_le.
Proof.
  split; [split; [split |] |].
  - intros a. apply bytes_le_refl.
  - intros a b c. apply bytes_le_trans.
  - intros a b. apply bytes_le_antisym.
  - intros a b. destruct (decide (a = b)) as [-> | Hne]; [now right; left |].
    destruct (bytes_le_total a b) as [H | H]; [left | right; right]; split; auto;
      intros H'; apply Hne; now apply bytes_le_antisym.
Qed.

Lemma bytes_le_prefix p a b : bytes_le (p ++ a) (p ++ b) <-> bytes_le a b.
Proof.
  induction p as [| x p IH]; [done |]. cbn [app]. rewrite bytes_le_cons, IH.
  split; [intros [|[]]; [lia | done] | auto].
Qed.

(** What lies between two keys with the same prefix has that prefix. *)
Lemma bytes_le_between p a b k :
  bytes_le (p ++ a) k -> bytes_le k (p ++ b) -> p `prefix_of` k.
Proof.
  revert k. induction p as [| x p IH]; intros k Ha Hb; [apply prefix_nil |].
  cbn [app] in *. destruct k as [| y k]; [done |]. apply bytes_le_cons in Ha, Hb.
  destruct Ha as [Ha | [-> Ha]], Hb as [Hb | [Heq Hb]]; subst; try lia. apply prefix_cons. eauto.
Qed.

(** * The interface *)

Class Bucket (B : Type) : Type := {
  Get : B -> bytes -> option bytes;
  Put : bytes -> bytes -> B -> B;
  Delete : bytes -> B -> B;
  (** a cursor moved to the first key that is not below the one sought *)
  Seek : B -> bytes -> option (bytes * bytes);
}.

Class BucketLaws (B : Type) `{Bucket B} : Prop := {
  Get_Put k v b : Get (Put k v b) k = Some v;
  Get_Put_ne k k' v b : k <> k' -> Get (Put k v b) k' = Get b k';
  Get_Delete k b : Get (Delete k b) k = None;
  Get_Delete_ne k k' b : k <> k' -> Get (Delete k b) k' = Get b k';
  Seek_Some b k k' v : Seek b k = Some (k', v) ->
    Get b k' = Some v /\ bytes_le k k' /\
    (forall k'', is_Some (Get b k'') -> bytes_le k k'' -> bytes_le k' k'');
  Seek_None b k k' : Seek b k = None -> bytes_le k k' -> Get b k' = None;
}.

(** * A finite map is a bucket *)

(** The first of two pairs. *)
Definition first_key (p : bytes * bytes) (q : option (bytes * bytes)) : option (bytes * bytes) :=
  match q with
  | Some q => if bytes_leb (fst p) (fst q) then Some p else Some q
  | None => Some p
  end.

Definition first_of (l : list (bytes * bytes)) : option (bytes * bytes) := foldr first_key None l.

Lemma first_of_spec l :
  match first_of l with
  | Some p => p ∈ l /\ forall q, q ∈ l -> bytes_le (fst p) (fst q)
  | None => l = []
  end.
Proof.
  induction l as [| p l IH]; [done |]. cbn [first_of foldr]. fold (first_of l).
  destruct (first_of l) as [q |]; cbn [first_key].
  - destruct IH as [Hq Hmin]. destruct (bytes_leb (fst p) (fst q)) eqn:Hb.
    + split; [constructor |]. intros r [-> | Hr]%elem_of_cons; [apply bytes_le_refl |].
      apply (bytes_le_trans _ (fst q)); auto.
    + assert (Hqp : bytes_le (fst q) (fst p)).
      { destruct (bytes_le_total (fst p) (fst q)) as [H |]; [unfold bytes_le in H; congruence | done]. }
      split; [now constructor |]. intros r [-> | Hr]%elem_of_cons; auto.
  - subst l. split; [constructor |]. intros r [-> | Hr%elem_of_nil]%elem_of_cons; [apply bytes_le_refl | done].
Qed.

#[global] Instance gmap_bucket : Bucket (gmap bytes bytes) := {|
  Get b k := b !! k;
  Put k v b := <[k := v]> b;
  Delete k b := delete k b;
  Seek b k := first_of (filter (fun p => bytes_le k (fst p)) (map_to_list b))
|}.

#[global] Instance gmap_bucket_laws : BucketLaws (gmap bytes bytes).
Proof.
  assert (Hin : forall (b : gmap bytes bytes) k k' v,
    (k', v) ∈ filter (fun p => bytes_le k (fst p)) (map_to_list b) <-> bytes_le k k' /\ b !! k' = Some v)
    by (intros; now rewrite list_elem_of_filter, elem_of_map_to_list).
  constructor; cbn [Get Put Delete Seek gmap_bucket].
  - intros. apply lookup_insert_eq.
  - intros. now apply lookup_insert_ne.
  - intros. apply lookup_delete_eq.
  - intros. now apply lookup_delete_ne.
  - intros b k k' v Hs. pose proof (first_of_spec (filter (fun p => bytes_le k (fst p)) (map_to_list b))) as Hf.
    rewrite Hs in Hf. destruct Hf as [Hp Hmin]. apply Hin in Hp as [Hle Hv]. split_and!; [done | done |].
    intros k'' [v'' Hk] Hle''. apply (Hmin (k'', v'')). now apply Hin.
  - intros b k k' Hs Hle. pose proof (first_of_spec (filter (fun p => bytes_le k (fst p)) (map_to_list b))) as Hf.
    rewrite Hs in Hf. apply eq_None_not_Some. intros [v Hv].
    assert (Hn : (k', v) ∈ @nil (bytes * bytes)) by (rewrite <- Hf; now apply Hin).
    now apply elem_of_nil in Hn.
Qed.
