(* ===== verification/Chainio.v ===== *)
(** What the chain keeps in the database (src/btcd/blockchain/chainio.go): the
    entries of the unspent outputs and their keys, the spend journal, the index
    of the main chain and the best state. *)

From stdpp Require Import gmap.
From S2P Require Import Prelude Slices Opcodes Vlq Compress WireCommon MsgTx MsgBlock Crypto BtcUtil Merkle Difficulty TxRules UtxoView Bucket.
#[local] Open Scope Z_scope.

(** An error of the storage: a serialization that cannot be read, what the
    callers make of it, an assertion, and a block that is not there. *)
Inductive StoreError : Set :=
| errDeserialize
| ErrCorruption
| StoreAssert
| errNotInMainChain.

#[global] Instance StoreError_eq_dec : EqDecision StoreError.
Proof. solve_decision. Defined.

Abbreviation stored_result := (outcome StoreError).

(** Functions that fill a slice have no error. *)
Definition filled {E A} (o : outcome unit A) : outcome E A := match o with Ok a => Ok a | _ => Panic end.

(** [make([]byte, n)] *)
Definition zeros (n : Z) : bytes := replicate (Z.to_nat n) x00.

(** An error of reading becomes one of a corrupt database. *)
Definition corrupt {A} (o : stored_result A) : stored_result A :=
  match o with Err errDeserialize => Err ErrCorruption | _ => o end.

(** Both headers encode the height and the coinbase flag alike. *)
Definition header_code (height : Z) (isCoinBase : bool) : Z :=
  let headerCode := uint64 (Z.shiftl (uint64 height) 1) in
  if isCoinBase then Z.lor headerCode 0x01 else headerCode.

Definition code_coinbase (code : Z) : bool := negb (Z.land code 0x01 =? 0).
Definition code_height (code : Z) : Z := int32 (Z.shiftr code 1).

(** * Unspent outputs *)

Definition utxoEntryHeaderCode (entry : UtxoEntry) : stored_result Z :=
  if IsSpent entry then Err StoreAssert else Ok (header_code (blockHeight entry) (IsCoinBase entry)).

(** A spent entry has no serialization. *)
Definition serializeUtxoEntry `{PubKeys} (entry : UtxoEntry) : stored_result (option bytes) :=
  if IsSpent entry then Ok None else
  let! headerCode := utxoEntryHeaderCode entry in
  let size := serializeSizeVLQ headerCode + compressedTxOutSize (uint64 (amount entry)) (pkScript entry) in
  let! p := filled (putVLQ (zeros size) headerCode) in
  let '(serialized, offset) := p in
  let! q := filled (putCompressedTxOut (zdrop offset serialized) (uint64 (amount entry)) (pkScript entry)) in
  Ok (Some (ztake offset serialized ++ fst q)).

(** An error of the compressed output, wrapped. *)
Definition decoded {A} (o : outcome derr A) : stored_result A :=
  match o with Ok a => Ok a | Err _ => Err errDeserialize | Panic => Panic end.

Definition deserializeUtxoEntry `{PubKeys} (serialized : slice) : stored_result UtxoEntry :=
  let '(code, offset) := deserializeVLQ (contents serialized) in
  if offset >=? s_len serialized then Err errDeserialize else
  let! rest := reslice serialized offset (s_len serialized) in
  let! r := decoded (decodeCompressedTxOut rest) in
  let '(a, script, _) := r in
  Ok (mkEntry (int64 a) script (code_height code) (if code_coinbase code then tfCoinBase else 0)).

Definition HashSize : Z := 32.
Definition maxUint32VLQSerializeSize : Z := serializeSizeVLQ (2 ^ 32 - 1).

(** The key in a buffer of the pool. *)
Definition key_in (pooled : bytes) (outpoint : OutPoint) : stored_result bytes :=
  let idx := Index outpoint in
  let n := HashSize + serializeSizeVLQ idx in
  if zlen pooled <? n then Panic else
  let key := copy_at (ztake n pooled) 0 (Hash outpoint) in
  let! p := filled (putVLQ (zdrop HashSize key) idx) in
  Ok (ztake HashSize key ++ fst p).

Definition outpointKey (outpoint : OutPoint) : stored_result bytes :=
  key_in (zeros (HashSize + maxUint32VLQSerializeSize)) outpoint.

Section Store.
Context `{PubKeys} {B : Type} `{Bucket B}.

Definition dbFetchUtxoEntry (utxoBucket : B) (outpoint : OutPoint) : stored_result (option UtxoEntry) :=
  let! key := outpointKey outpoint in
  match Get utxoBucket key with
  | None => Ok None
  | Some serialized =>
      if zlen serialized =? 0 then Err StoreAssert else
      let! e := corrupt (deserializeUtxoEntry (whole serialized)) in Ok (Some e)
  end.

Definition dbFetchUtxoEntryByHash (utxoBucket : B) (hash : bytes) : stored_result (option UtxoEntry) :=
  let! key := outpointKey (mkOutPoint hash 0) in
  match Seek utxoBucket key with
  | None => Ok None
  | Some (cursorKey, value) =>
      if zlen cursorKey <? HashSize then Ok None
      else if negb (bool_decide (hash = ztake HashSize cursorKey)) then Ok None
      else let! e := deserializeUtxoEntry (whole value) in Ok (Some e)
  end.

Definition dbDeleteUtxoEntry (outpoint : OutPoint) (utxoBucket : B) : stored_result B :=
  let! key := outpointKey outpoint in Ok (Delete key utxoBucket).

Definition dbPutUtxoEntry (outpoint : OutPoint) (entry : option UtxoEntry) (utxoBucket : B) : stored_result B :=
  match entry with
  | None => Err StoreAssert
  | Some e =>
      if IsSpent e then Err StoreAssert else
      let! serialized := serializeUtxoEntry e in
      let! key := outpointKey outpoint in
      Ok (Put key (default [] serialized) utxoBucket)
  end.

(** The loop over the entries of a view, in the order in which they come. *)
Fixpoint dbPutUtxoView (l : list (OutPoint * option UtxoEntry)) (utxoBucket : B) : stored_result B :=
  match l with
  | [] => Ok utxoBucket
  | (outpoint, entry) :: l' =>
      let! utxoBucket :=
        match entry with
        | None => Ok utxoBucket
        | Some e =>
            if negb (isModified e) then Ok utxoBucket
            else if IsSpent e then dbDeleteUtxoEntry outpoint utxoBucket
            else dbPutUtxoEntry outpoint entry utxoBucket
        end in
      dbPutUtxoView l' utxoBucket
  end.
End Store.

(** * The spend journal *)

Definition spentTxOutHeaderCode (stxo : SpentTxOut) : Z := header_code (st_Height stxo) (st_IsCoinBase stxo).

Section Journal.
Context `{PubKeys}.

Definition spentTxOutSerializeSize (stxo : SpentTxOut) : Z :=
  let size := serializeSizeVLQ (spentTxOutHeaderCode stxo) in
  let size := if st_Height stxo >? 0 then size + serializeSizeVLQ 0 else size in
  size + compressedTxOutSize (uint64 (Amount stxo)) (st_PkScript stxo).

(** The target afterwards and the number of bytes written. *)
Definition putSpentTxOut (target : bytes) (stxo : SpentTxOut) : outcome unit (bytes * Z) :=
  let! p := putVLQ target (spentTxOutHeaderCode stxo) in
  let '(target, offset) := p in
  let! p :=
    if st_Height stxo >? 0 then
      let! q := putVLQ (zdrop offset target) 0 in
      Ok (ztake offset target ++ fst q, offset + snd q)
    else Ok (target, offset) in
  let '(target, offset) := p in
  let! q := putCompressedTxOut (zdrop offset target) (uint64 (Amount stxo)) (st_PkScript stxo) in
  Ok (ztake offset target ++ fst q, offset + snd q).

Definition decodeSpentTxOut (serialized : slice) : stored_result (SpentTxOut * Z) :=
  if s_len serialized =? 0 then Err errDeserialize else
  let '(code, offset) := deserializeVLQ (contents serialized) in
  if offset >=? s_len serialized then Err errDeserialize else
  let! offset :=
    if code_height code >? 0 then
      let! rest := reslice serialized offset (s_len serialized) in
      let offset := offset + snd (deserializeVLQ (contents rest)) in
      if offset >=? s_len serialized then Err errDeserialize else Ok offset
    else Ok offset in
  let! rest := reslice serialized offset (s_len serialized) in
  let! r := decoded (decodeCompressedTxOut rest) in
  let '(a, script, bytesRead) := r in
  Ok (mkSpent (int64 a) script (code_height code) (code_coinbase code), offset + bytesRead).

(** One spent output for each input, from the last to the first. *)
Fixpoint journal_loop (n : nat) (serialized : slice) (offset : Z) (stxos : list SpentTxOut)
  : stored_result (list SpentTxOut) :=
  match n with
  | O => Ok stxos
  | S n' =>
      let! rest := reslice serialized offset (s_len serialized) in
      let! r := decodeSpentTxOut rest in
      journal_loop n' serialized (offset + snd r) (fst r :: stxos)
  end.

Definition deserializeSpendJournalEntry (serialized : bytes) (txns : list MsgTx) : stored_result (list SpentTxOut) :=
  let numStxos := zsum (fun tx => zlen (TxIns tx)) txns in
  if zlen serialized =? 0 then
    if negb (numStxos =? 0) then Err StoreAssert else Ok []
  else journal_loop (Z.to_nat numStxos) (whole serialized) 0 [].

(** The spent outputs, already in reverse order. *)
Fixpoint put_journal (target : bytes) (offset : Z) (stxos : list SpentTxOut) : outcome unit bytes :=
  match stxos with
  | [] => Ok target
  | stxo :: stxos' =>
      let! q := putSpentTxOut (zdrop offset target) stxo in
      put_journal (ztake offset target ++ fst q) (offset + snd q) stxos'
  end.

Definition serializeSpendJournalEntry (stxos : list SpentTxOut) : outcome unit bytes :=
  if zlen stxos =? 0 then Ok [] else
  put_journal (zeros (zsum spentTxOutSerializeSize stxos)) 0 (reverse stxos).

Context `{Crypto} {B : Type} `{Bucket B}.

(** Without the coinbase.  The first transaction is sliced off. *)
Definition dbFetchSpendJournalEntry (spendBucket : B) (block : MsgBlock) : stored_result (list SpentTxOut) :=
  let serialized := default [] (Get spendBucket (BlockHash (Header block))) in
  match Transactions block with
  | [] => Panic
  | _ :: blockTxns => corrupt (deserializeSpendJournalEntry serialized blockTxns)
  end.

Definition dbPutSpendJournalEntry (blockHash : bytes) (stxos : list SpentTxOut) (spendBucket : B) : stored_result B :=
  let! serialized := filled (serializeSpendJournalEntry stxos) in
  Ok (Put blockHash serialized spendBucket).

Definition dbRemoveSpendJournalEntry (blockHash : bytes) (spendBucket : B) : B := Delete blockHash spendBucket.

Definition dbPruneSpendJournalEntry (blockHashes : list bytes) (spendBucket : B) : B :=
  foldl (fun b h => Delete h b) spendBucket blockHashes.
End Journal.

(** * The index of the main chain *)

(** The two buckets of the index. *)
Record ChainIndex (B : Type) := mkIndex { hashIndex : B; heightIndex : B }.
Arguments mkIndex {B}.
Arguments hashIndex {B}.
Arguments heightIndex {B}.

Section Index.
Context {B : Type} `{Bucket B}.

Definition dbPutBlockIndex (hash : bytes) (height : Z) (ix : ChainIndex B) : ChainIndex B :=
  let serializedHeight := le_bytes 4 (uint32 height) in
  mkIndex (Put hash serializedHeight (hashIndex ix)) (Put serializedHeight hash (heightIndex ix)).

Definition dbRemoveBlockIndex (hash : bytes) (height : Z) (ix : ChainIndex B) : ChainIndex B :=
  mkIndex (Delete hash (hashIndex ix)) (Delete (le_bytes 4 (uint32 height)) (heightIndex ix)).

(** [byteOrder.Uint32] needs four bytes. *)
Definition dbFetchHeightByHash (hash : bytes) (ix : ChainIndex B) : stored_result Z :=
  match Get (hashIndex ix) hash with
  | None => Err errNotInMainChain
  | Some serializedHeight =>
      if zlen serializedHeight <? 4 then Panic else Ok (int32 (le_val (ztake 4 serializedHeight)))
  end.

(** [copy] into a hash *)
Definition dbFetchHashByHeight (height : Z) (ix : ChainIndex B) : stored_result bytes :=
  match Get (heightIndex ix) (le_bytes 4 (uint32 height)) with
  | None => Err errNotInMainChain
  | Some hashBytes => Ok (copy_at (zeros HashSize) 0 hashBytes)
  end.
End Index.

(** The key of a block in the index of all blocks: the height big-endian. *)
Definition blockIndexKey (blockHash : bytes) (blockHeight : Z) : bytes :=
  copy_at (reverse (le_bytes 4 blockHeight) ++ zeros HashSize) 4 blockHash.

(** * The best state *)

Record bestChainState := mkBestChainState {
  bs_hash : bytes;
  bs_height : Z;
  totalTxns : Z;
  bs_workSum : Z;
}.

(** The magnitude of a big integer without leading zeros, big-endian
    ([big.Int.Bytes]). *)
Definition big_bytes (n : Z) : bytes :=
  reverse (le_bytes (Z.to_nat (if n =? 0 then 0 else Z.log2 n / 8 + 1)) n).

(** The writes of 4, 8 and 4 bytes and the copies fill the slice made. *)
Definition serializeBestChainState (state : bestChainState) : bytes :=
  let workSumBytes := big_bytes (bs_workSum state) in
  let workSumBytesLen := uint32 (zlen workSumBytes) in
  bs_hash state ++ le_bytes 4 (bs_height state) ++ le_bytes 8 (totalTxns state) ++
  le_bytes 4 workSumBytesLen ++ ztake workSumBytesLen workSumBytes.

Definition deserializeBestChainState (serializedData : bytes) : stored_result bestChainState :=
  if zlen serializedData <? HashSize + 16 then Err ErrCorruption else
  let hash := ztake HashSize serializedData in
  let height := le_val (sub serializedData 32 36) in
  let txns := le_val (sub serializedData 36 44) in
  let workSumBytesLen := le_val (sub serializedData 44 48) in
  let rest := zdrop 48 serializedData in
  if uint32 (zlen rest) <? workSumBytesLen then Err ErrCorruption else
  let! workSumBytes := reslice (whole serializedData) 48 (uint32 (48 + workSumBytesLen)) in
  Ok (mkBestChainState hash height txns (be_val (contents workSumBytes))).

(** * Header codes *)

Lemma header_code_val h cb : 0 <= h < 2 ^ 31 -> header_code h cb = 2 * h + Z.b2z cb.
Proof.
  intros Hh. unfold header_code. rewrite (wrapU_small 64 h), Z.shiftl_mul_pow2, wrapU_small by lia.
  destruct cb; cbn [Z.b2z]; [| lia]. rewrite (Z.mul_comm h). change (2 ^ 1) with 2.
  rewrite Z.lor_comm. destruct h; try lia; reflexivity.
Qed.

Lemma header_code_range h cb : 0 <= h < 2 ^ 31 -> 0 <= header_code h cb < 2 ^ 64.
Proof. intros Hh. rewrite header_code_val by done. destruct cb; cbn [Z.b2z]; lia. Qed.

Lemma code_height_code h cb : 0 <= h < 2 ^ 31 -> code_height (header_code h cb) = h.
Proof.
  intros Hh. unfold code_height. rewrite header_code_val, Z.shiftr_div_pow2 by lia. change (2 ^ 1) with 2.
  rewrite Z.add_comm, Z.mul_comm, Z_div_plus_full, Z.div_small by (destruct cb; cbn; lia).
  apply int32_small. lia.
Qed.

Lemma code_coinbase_code h cb : 0 <= h < 2 ^ 31 -> code_coinbase (header_code h cb) = cb.
Proof.
  intros Hh. unfold code_coinbase. rewrite header_code_val by done. rewrite (Z.land_ones _ 1) by lia.
  change (2 ^ 1) with 2. rewrite Z.add_comm, Z.mul_comm, Z_mod_plus_full. now destruct cb.
Qed.

(** * Filling slices *)

Lemma zlen_zeros n : 0 <= n -> zlen (zeros n) = n.
Proof. intros Hn. unfold zeros, zlen. rewrite length_replicate. lia. Qed.

Lemma zdrop_all {A} n (l : list A) : zlen l <= n -> zdrop n l = [].
Proof. intros Hn. apply drop_ge. unfold zlen in Hn. lia. Qed.

Lemma obind_then {E A C D} (o : outcome E A) (f : A -> outcome E C) (k : C -> outcome E D) c :
  (let! x := o in f x) = Ok c -> (let! x := o in let! y := f x in k y) = k c.
Proof. destruct o as [x | |]; cbn [obind]; try discriminate. now intros ->. Qed.

(** What can be stored: a height, an amount and a script in range. *)
Record coin_ok (c : SpentTxOut) : Prop := {
  ok_amount : 0 <= Amount c <= 2 ^ 60;
  ok_script : len_ok (st_PkScript c);
  ok_height : 0 <= st_Height c < 2 ^ 31;
}.

Section Forms.
Context `{PubKeysLaws}.

Definition txout_of (c : SpentTxOut) : bytes := txout_form (Amount c) (st_PkScript c).

Lemma txout_of_size c : coin_ok c -> zlen (txout_of c) = compressedTxOutSize (uint64 (Amount c)) (st_PkScript c).
Proof. intros [Ha Hs _]. rewrite wrapU_small by lia. now apply zlen_txout_form. Qed.

Lemma put_txout c target :
  coin_ok c -> zlen (txout_of c) <= zlen target ->
  putCompressedTxOut target (uint64 (Amount c)) (st_PkScript c) =
    Ok (txout_of c ++ zdrop (zlen (txout_of c)) target, zlen (txout_of c)).
Proof.
  intros Hc Hl. pose proof (txout_of_size c Hc) as Hz. destruct Hc as [Ha Hs _].
  rewrite wrapU_small in Hz by lia. rewrite wrapU_small, putCompressedTxOut_ok by (done || lia). now rewrite Hz.
Qed.

Lemma get_txout c pre more l :
  coin_ok c -> l = zlen pre + zlen (txout_of c) + zlen more ->
  (let! rest := reslice (mkSlice (pre ++ txout_of c ++ more) l) (zlen pre) l in
   decoded (decodeCompressedTxOut rest)) = Ok (Amount c, st_PkScript c, zlen (txout_of c)).
Proof.
  intros Hc ->. pose proof (txout_of_size c Hc) as Hz. destruct Hc as [Ha Hs _].
  rewrite <- (app_nil_r (txout_of c ++ more)).
  rewrite reslice_app by (rewrite zlen_app; lia). cbn [obind]. unfold txout_of in *.
  rewrite decodeCompressedTxOut_ok by done. cbn [decoded]. now rewrite Hz, wrapU_small by lia.
Qed.

Lemma zlen_txout_pos c : 1 <= zlen (txout_of c).
Proof.
  unfold txout_of, txout_form. rewrite zlen_app. pose proof (zlen_vlq (compressTxOutAmount (Amount c))).
  pose proof (zlen_nonneg (compressed (st_PkScript c))). lia.
Qed.

(** Writing a variable length quantity in front of the rest. *)
Lemma put_vlq n target :
  0 <= n < 2 ^ 64 -> zlen (vlq n) <= zlen target ->
  putVLQ target n = Ok (vlq n ++ zdrop (zlen (vlq n)) target, zlen (vlq n)).
Proof.
  intros Hn Hl. rewrite putVLQ_spec, serializeSizeVLQ_len by done.
  now replace (zlen (vlq n) <=? zlen target) with true by lia.
Qed.

Lemma get_vlq n rest : 0 <= n < 2 ^ 64 -> deserializeVLQ (vlq n ++ rest) = (n, zlen (vlq n)).
Proof. intros Hn. now rewrite deserializeVLQ_vlq, serializeSizeVLQ_len. Qed.

(** ** Entries *)

(** The bytes of an entry. *)
Definition utxo_form (c : SpentTxOut) : bytes :=
  vlq (header_code (st_Height c) (st_IsCoinBase c)) ++ txout_of c.

(** The entry that is read back: not spent, not modified, not fresh. *)
Definition entry_of (c : SpentTxOut) : UtxoEntry :=
  mkEntry (Amount c) (st_PkScript c) (st_Height c) (if st_IsCoinBase c then tfCoinBase else 0).

Lemma stxo_of_entry_of c : stxo_of (entry_of c) = c.
Proof. destruct c as [a s h []]; reflexivity. Qed.

Lemma IsSpent_entry_of c : IsSpent (entry_of c) = false.
Proof. destruct c as [a s h []]; reflexivity. Qed.

Lemma isFresh_entry_of c : isFresh (entry_of c) = false.
Proof. destruct c as [a s h []]; reflexivity. Qed.

Lemma isModified_entry_of c : isModified (entry_of c) = false.
Proof. destruct c as [a s h []]; reflexivity. Qed.

Lemma serializeUtxoEntry_ok e :
  IsSpent e = false -> coin_ok (stxo_of e) -> serializeUtxoEntry e = Ok (Some (utxo_form (stxo_of e))).
Proof.
  intros Hs Hc. unfold serializeUtxoEntry, utxoEntryHeaderCode. rewrite Hs. cbn [obind].
  pose proof (txout_of_size _ Hc) as Hz. pose proof (put_txout _ (zdrop (zlen (vlq (header_code (blockHeight e) (IsCoinBase e))))
    (zeros (zlen (vlq (header_code (blockHeight e) (IsCoinBase e))) + zlen (txout_of (stxo_of e))))) Hc) as Hp.
  unfold utxo_form. destruct Hc as [_ _ Hh].
  cbn [stxo_of Amount st_PkScript st_Height st_IsCoinBase] in *. fold (stxo_of e) in *.
  pose proof (header_code_range _ (IsCoinBase e) Hh) as Hr. set (code := header_code _ _) in *.
  pose proof (zlen_txout_pos (stxo_of e)). pose proof (zlen_vlq code).
  rewrite <- Hz, serializeSizeVLQ_len by done.
  rewrite put_vlq by (rewrite ?zlen_zeros; lia). cbn [filled obind]. rewrite zdrop_app.
  rewrite zlen_zdrop, zlen_zeros in Hp by (rewrite ?zlen_zeros; lia). rewrite Hp by lia.
  cbn [filled obind fst]. rewrite ztake_app. do 3 f_equal.
  rewrite zdrop_all, app_nil_r; [done |]. rewrite zlen_zdrop; rewrite ?zlen_zeros; lia.
Qed.

Lemma deserializeUtxoEntry_form c : coin_ok c -> deserializeUtxoEntry (whole (utxo_form c)) = Ok (entry_of c).
Proof.
  intros Hc. unfold deserializeUtxoEntry. rewrite contents_whole. unfold utxo_form.
  pose proof (ok_height c Hc) as Hh. pose proof (header_code_range _ (st_IsCoinBase c) Hh) as Hr.
  rewrite get_vlq by done. unfold whole. cbn [s_len].
  set (code := header_code (st_Height c) (st_IsCoinBase c)) in *. pose proof (zlen_txout_pos c).
  rewrite zlen_app. replace (zlen (vlq code) >=? _) with false by lia.
  pose proof (get_txout c (vlq code) [] (zlen (vlq code) + zlen (txout_of c)) Hc) as Hg.
  rewrite app_nil_r in Hg. specialize (Hg ltac:(rewrite zlen_nil; lia)).
  etransitivity; [exact (obind_then _ _ _ _ Hg) |]. cbn beta iota.
  unfold code. rewrite code_height_code, code_coinbase_code by done. unfold entry_of. do 2 f_equal.
  apply int64_small. destruct Hc. lia.
Qed.

(** ** Keys *)

Definition outpoint_ok (op : OutPoint) : Prop := zlen (Hash op) = 32 /\ 0 <= Index op < 2 ^ 32.

Definition key_of (op : OutPoint) : bytes := Hash op ++ vlq (Index op).

Lemma groups_limit k : forall fuel n mask,
  0 <= n < 2 ^ 64 -> n < limit (S k) -> zlen (groups fuel n mask) <= Z.of_nat (S k).
Proof.
  induction k as [| k IH]; intros [| fuel] n mask Hn Hl; cbn [groups]; rewrite ?zlen_nil; try lia;
    rewrite zlen_cons; (destruct (Z.leb_spec n 0x7f); [rewrite zlen_nil; lia |]).
  - cbn [limit] in Hl. lia.
  - destruct (vlq_next_limit (S k) n ltac:(lia) Hl) as [Hr Hl']. specialize (IH fuel _ 0x80 Hr Hl'). lia.
Qed.

Lemma zlen_vlq_index n : 0 <= n < 2 ^ 32 -> 1 <= zlen (vlq n) <= 5.
Proof.
  intros Hn. pose proof (zlen_vlq n). split; [lia |]. assert (2 ^ 32 <= limit 5) by (vm_compute; discriminate).
  pose proof (groups_limit 4 vlq_fuel n 0 ltac:(lia) ltac:(lia)).
  unfold vlq, zlen in *. rewrite length_rev. lia.
Qed.

(** The key does not depend on what the buffer held before. *)
Lemma key_in_ok pooled op : outpoint_ok op -> 37 <= zlen pooled -> key_in pooled op = Ok (key_of op).
Proof.
  intros [Hh Hi] Hp. unfold key_in, HashSize. pose proof (zlen_vlq_index _ Hi).
  rewrite serializeSizeVLQ_len by lia. set (n := zlen (vlq (Index op))) in *.
  replace (zlen pooled <? 32 + n) with false by lia.
  assert (Hcopy : copy_at (ztake (32 + n) pooled) 0 (Hash op) = Hash op ++ zdrop 32 (ztake (32 + n) pooled)).
  { unfold copy_at. rewrite Z.sub_0_r, Z.add_0_l, Hh, zlen_ztake by lia. change (ztake 0 ?l) with (@nil byte).
    cbn [app]. f_equal. apply take_ge. unfold zlen in *. lia. }
  rewrite Hcopy, <- Hh, ztake_app, zdrop_app.
  rewrite put_vlq by (rewrite ?zlen_zdrop, ?zlen_ztake; lia || (rewrite ?zlen_ztake; lia)).
  cbn [filled obind fst]. unfold key_of. do 2 f_equal. rewrite zdrop_all, app_nil_r; [done |].
  rewrite zlen_zdrop; rewrite zlen_ztake; lia.
Qed.

Lemma outpointKey_ok op : outpoint_ok op -> outpointKey op = Ok (key_of op).
Proof. intros Hop. apply key_in_ok; [done |]. rewrite zlen_zeros; vm_compute; congruence. Qed.

Lemma key_of_inj op op' : outpoint_ok op -> outpoint_ok op' -> key_of op = key_of op' -> op = op'.
Proof.
  intros [Hh Hi] [Hh' Hi'] Heq. unfold key_of in Heq.
  apply app_inj_1 in Heq as [Hhash Hv]; [| unfold zlen in *; lia].
  pose proof (get_vlq (Index op) [] ltac:(lia)) as Hg. pose proof (get_vlq (Index op') [] ltac:(lia)) as Hg'.
  rewrite app_nil_r in *. rewrite Hv in Hg. rewrite Hg in Hg'. injection Hg' as Hidx.
  destruct op, op'. cbn in *. congruence.
Qed.
End Forms.

(** * The bucket of the unspent outputs *)

Section Utxos.
Context `{PubKeysLaws} {B : Type} `{BucketLaws B}.

(** The bucket holds exactly the coins of a set, which are all in range. *)
Record holds (b : B) (S : coins) : Prop := {
  in_range op c : S !! op = Some c -> outpoint_ok op /\ coin_ok c;
  has_coins op : outpoint_ok op -> Get b (key_of op) = utxo_form <$> S !! op;
  only_coins k : is_Some (Get b k) -> exists op, outpoint_ok op /\ k = key_of op;
}.

Lemma zlen_utxo_form c : coin_ok c -> 2 <= zlen (utxo_form c).
Proof.
  intros Hc. unfold utxo_form. rewrite zlen_app. pose proof (zlen_txout_pos c).
  pose proof (zlen_vlq (header_code (st_Height c) (st_IsCoinBase c))). lia.
Qed.

Lemma fetch_holds b S op :
  holds b S -> outpoint_ok op -> dbFetchUtxoEntry b op = Ok (entry_of <$> S !! op).
Proof.
  intros Hb Hop. unfold dbFetchUtxoEntry. rewrite outpointKey_ok by done. cbn [obind].
  rewrite (has_coins b S Hb op Hop). destruct (S !! op) as [c |] eqn:Hc; [| done]. cbn [fmap option_fmap option_map].
  destruct (in_range b S Hb op c Hc) as [_ Hok]. pose proof (zlen_utxo_form c Hok).
  replace (zlen (utxo_form c) =? 0) with false by lia. now rewrite deserializeUtxoEntry_form.
Qed.

Lemma put_holds b S op e :
  holds b S -> outpoint_ok op -> IsSpent e = false -> coin_ok (stxo_of e) ->
  exists b', dbPutUtxoEntry op (Some e) b = Ok b' /\ holds b' (<[op := stxo_of e]> S).
Proof.
  intros Hb Hop Hs Hc. unfold dbPutUtxoEntry. rewrite Hs, serializeUtxoEntry_ok by done. cbn [obind].
  rewrite outpointKey_ok by done. cbn [obind default]. eexists. split; [reflexivity |]. constructor.
  - intros op' c' [[<- <-] | [_ Hc']]%lookup_insert_Some; [done |]. eapply in_range; eauto.
  - intros op' Hop'. destruct (decide (op = op')) as [<- | Hne].
    + now rewrite Get_Put, lookup_insert_eq.
    + rewrite Get_Put_ne, lookup_insert_ne by (try done; intros Heq; now apply key_of_inj in Heq).
      now apply has_coins.
  - intros k Hk. destruct (decide (key_of op = k)) as [<- | Hne]; [eauto |].
    rewrite Get_Put_ne in Hk by done. eapply only_coins; eauto.
Qed.

Lemma delete_holds b S op :
  holds b S -> outpoint_ok op -> exists b', dbDeleteUtxoEntry op b = Ok b' /\ holds b' (delete op S).
Proof.
  intros Hb Hop. unfold dbDeleteUtxoEntry. rewrite outpointKey_ok by done. cbn [obind].
  eexists. split; [reflexivity |]. constructor.
  - intros op' c' [_ Hc']%lookup_delete_Some. eapply in_range; eauto.
  - intros op' Hop'. destruct (decide (op = op')) as [<- | Hne].
    + now rewrite Get_Delete, lookup_delete_eq.
    + rewrite Get_Delete_ne, lookup_delete_ne by (try done; intros Heq; now apply key_of_inj in Heq).
      now apply has_coins.
  - intros k Hk. destruct (decide (key_of op = k)) as [<- | Hne]; [eauto |].
    rewrite Get_Delete_ne in Hk by done. eapply only_coins; eauto.
Qed.

(** ** Any output of a transaction *)

Lemma seek_key_above op hash :
  zlen hash = 32 -> Hash op = hash -> bytes_le (key_of (mkOutPoint hash 0)) (key_of op).
Proof.
  intros _ <-. unfold key_of. cbn [Hash Index]. apply bytes_le_prefix. change (vlq 0) with [x00].
  pose proof (zlen_vlq (Index op)). destruct (vlq (Index op)) as [| y r]; [rewrite zlen_nil in *; lia |].
  apply bytes_le_cons. change (b2z x00) with 0. pose proof (b2z_range y).
  destruct (Z.eq_dec (b2z y) 0) as [Hy | Hy]; [right | left; lia]. split; [| done]. apply b2z_inj. now rewrite Hy.
Qed.

Lemma fetch_by_hash b S hash :
  holds b S -> zlen hash = 32 ->
  (exists op c, Hash op = hash /\ S !! op = Some c /\ dbFetchUtxoEntryByHash b hash = Ok (Some (entry_of c))) \/
  (dbFetchUtxoEntryByHash b hash = Ok None /\ forall op, Hash op = hash -> S !! op = None).
Proof.
  intros Hb Hh. unfold dbFetchUtxoEntryByHash.
  assert (Hzero : outpoint_ok (mkOutPoint hash 0)) by (split; cbn; lia).
  rewrite outpointKey_ok by done. cbn [obind].
  destruct (Seek b (key_of (mkOutPoint hash 0))) as [[k v] |] eqn:Hseek.
  2: { right. split; [done |]. intros op Hop. apply eq_None_not_Some. intros [c Hc].
    destruct (in_range b S Hb op c Hc) as [Hok _].
    pose proof (Seek_None b _ (key_of op) Hseek (seek_key_above op hash Hh Hop)) as Hnone.
    rewrite (has_coins b S Hb op Hok), Hc in Hnone. discriminate. }
  destruct (Seek_Some b _ k v Hseek) as (Hget & Hle & Hmin).
  destruct (only_coins b S Hb k ltac:(eauto)) as (op & Hok & ->).
  assert (Htake : ztake HashSize (key_of op) = Hash op).
  { unfold key_of, HashSize. rewrite <- (proj1 Hok). apply ztake_app. }
  assert (Hlen : (zlen (key_of op) <? HashSize) = false).
  { unfold key_of, HashSize. rewrite zlen_app, (proj1 Hok). pose proof (zlen_nonneg (vlq (Index op))). lia. }
  rewrite Hlen, Htake. rewrite (has_coins b S Hb op Hok) in Hget.
  destruct (S !! op) as [c |] eqn:Hc; [| discriminate]. injection Hget as <-.
  destruct (decide (hash = Hash op)) as [Heq | Hne].
  - left. exists op, c. rewrite bool_decide_true by done. cbn [negb].
    rewrite deserializeUtxoEntry_form by (eapply in_range; eauto). done.
  - right. rewrite bool_decide_false by done. cbn [negb]. split; [done |].
    intros op' Hop'. apply eq_None_not_Some. intros [c' Hc']. destruct (in_range b S Hb op' c' Hc') as [Hok' _].
    assert (Hpre : Hash op' `prefix_of` key_of op).
    { apply (bytes_le_between _ (vlq 0) (vlq (Index op'))); [now rewrite Hop' |].
      change (Hash op' ++ vlq (Index op')) with (key_of op').
      apply Hmin; [rewrite (has_coins b S Hb op' Hok'), Hc'; eauto |]. now apply seek_key_above. }
    destruct Hpre as [t Ht]. unfold key_of in Ht.
    apply app_inj_1 in Ht as [Ht _]; [congruence |]. destruct Hok, Hok'. unfold zlen in *. lia.
Qed.

(** ** Writing a view *)

Definition put_entry (S : coins) (p : OutPoint * option UtxoEntry) : coins :=
  match snd p with
  | Some e => if negb (isModified e) then S else if IsSpent e then delete (fst p) S else <[fst p := stxo_of e]> S
  | None => S
  end.

Lemma put_entry_some S op e :
  put_entry S (op, Some e) =
  if negb (isModified e) then S else if IsSpent e then delete op S else <[op := stxo_of e]> S.
Proof. reflexivity. Qed.

(** What is written is in range. *)
Definition entry_ok (p : OutPoint * option UtxoEntry) : Prop :=
  outpoint_ok (fst p) /\
  (forall e, snd p = Some e -> isModified e = true -> IsSpent e = false -> coin_ok (stxo_of e)).

Lemma put_view_holds l : forall b S,
  holds b S -> Forall entry_ok l -> exists b', dbPutUtxoView l b = Ok b' /\ holds b' (foldl put_entry S l).
Proof.
  induction l as [| [op [e |]] l IH]; intros b S Hb Hl; cbn [dbPutUtxoView foldl]; [eauto | |];
    apply Forall_cons in Hl as [[Hop He] Hl]; cbn [fst snd] in *.
  - rewrite put_entry_some. destruct (isModified e) eqn:Hm; cbn [negb obind]; [| auto].
    destruct (IsSpent e) eqn:Hs.
    + destruct (delete_holds b S op Hb Hop) as (b' & -> & Hb'). cbn [obind]. auto.
    + destruct (put_holds b S op e Hb Hop Hs (He e eq_refl Hm Hs)) as (b' & -> & Hb'). cbn [obind]. auto.
  - change (put_entry S (op, None)) with S. cbn [obind]. auto.
Qed.

Lemma put_entry_ne S p op : op <> fst p -> put_entry S p !! op = S !! op.
Proof.
  intros Hne. unfold put_entry. destruct (snd p) as [e |]; [| done].
  destruct (negb _); [done |]. destruct (IsSpent e); [apply lookup_delete_ne | apply lookup_insert_ne]; congruence.
Qed.

Lemma put_entry_local S S' p op : S !! op = S' !! op -> put_entry S p !! op = put_entry S' p !! op.
Proof.
  intros Heq. unfold put_entry. destruct (snd p) as [e |]; [| done]. destruct (negb _); [done |].
  destruct (decide (fst p = op)) as [<- | Hne], (IsSpent e);
    rewrite ?lookup_delete_eq, ?lookup_insert_eq, ?lookup_delete_ne, ?lookup_insert_ne by done; done.
Qed.

Lemma put_entries_lookup l : forall S op,
  NoDup l.*1 ->
  foldl put_entry S l !! op =
    match list_find (fun p => fst p = op) l with
    | Some (_, p) => put_entry S p !! op
    | None => S !! op
    end.
Proof.
  induction l as [| p l IH]; intros S op Hd; [done |]. rewrite fmap_cons in Hd.
  apply NoDup_cons in Hd as [Hnin Hd]. cbn [foldl list_find]. rewrite IH by done.
  destruct (decide (fst p = op)) as [<- | Hne].
  - destruct (list_find (fun q => fst q = fst p) l) as [[i q] |] eqn:Hf; [| done].
    apply list_find_Some in Hf as (Hq & Heq & _). destruct Hnin. rewrite <- Heq.
    apply list_elem_of_fmap. exists q. split; [done |]. eapply list_elem_of_lookup_2; eauto.
  - destruct (list_find (fun q => fst q = op) l) as [[i q] |] eqn:Hf; cbn [fmap option_fmap option_map prod_map].
    + apply put_entry_local. now apply put_entry_ne.
    + now apply put_entry_ne.
Qed.

(** Entries that were not modified agree with the set below. *)
Definition unmodified_ok (v : UtxoViewpoint) (S : coins) : Prop :=
  forall op e, LookupEntry v op = Some e -> isModified e = false ->
    S !! op = if IsSpent e then None else Some (stxo_of e).

Lemma put_entries_effective l v S :
  l ≡ₚ map_to_list (entries v) -> unmodified_ok v S -> foldl put_entry S l = effective v S.
Proof.
  intros Hl Hu. assert (Hd : NoDup l.*1) by (rewrite Hl; apply NoDup_fst_map_to_list).
  apply map_eq. intros op. rewrite put_entries_lookup, lookup_effective by done.
  destruct (list_find (fun p => fst p = op) l) as [[i [op' e]] |] eqn:Hf.
  - apply list_find_Some in Hf as (Hp & Heq & _). cbn [fst] in Heq. subst op'.
    assert (Hin : entries v !! op = Some e).
    { apply elem_of_map_to_list. rewrite <- Hl. eapply list_elem_of_lookup_2; eauto. }
    unfold LookupEntry. rewrite Hin. cbn [mjoin option_join]. unfold put_entry. cbn [snd fst].
    destruct e as [e |]; [| done].
    destruct (isModified e) eqn:Hm; cbn [negb].
    + destruct (IsSpent e); [apply lookup_delete_eq | apply lookup_insert_eq].
    + apply Hu; [| done]. unfold LookupEntry. now rewrite Hin.
  - apply list_find_None in Hf. unfold LookupEntry. destruct (entries v !! op) as [e |] eqn:He; [| done].
    exfalso. apply elem_of_map_to_list in He. rewrite <- Hl in He.
    rewrite Forall_forall in Hf. now apply (Hf _ He).
Qed.
End Utxos.

(** * The spend journal *)

Section JournalCodec.
Context `{PubKeysLaws}.

Definition stxo_form (c : SpentTxOut) : bytes :=
  vlq (header_code (st_Height c) (st_IsCoinBase c)) ++ (if st_Height c >? 0 then vlq 0 else []) ++ txout_of c.

Lemma zlen_stxo_form c : coin_ok c -> spentTxOutSerializeSize c = zlen (stxo_form c).
Proof.
  intros Hc. unfold spentTxOutSerializeSize, stxo_form, spentTxOutHeaderCode.
  rewrite serializeSizeVLQ_len by (apply header_code_range, ok_height, Hc).
  rewrite <- txout_of_size by done. rewrite !zlen_app.
  destruct (st_Height c >? 0); rewrite ?zlen_nil; [change (serializeSizeVLQ 0) with (zlen (vlq 0)) |]; lia.
Qed.

Lemma drop_written (a t : bytes) n : n = zlen a -> zdrop n (a ++ t) = t.
Proof. intros ->. apply zdrop_app. Qed.

Lemma putSpentTxOut_ok c target :
  coin_ok c -> zlen (stxo_form c) <= zlen target ->
  putSpentTxOut target c = Ok (stxo_form c ++ zdrop (zlen (stxo_form c)) target, zlen (stxo_form c)).
Proof.
  intros Hc Hl. unfold putSpentTxOut, stxo_form, spentTxOutHeaderCode in *.
  pose proof (header_code_range _ (st_IsCoinBase c) (ok_height c Hc)) as Hr.
  set (v := vlq (header_code _ _)) in *. set (mid := if st_Height c >? 0 then vlq 0 else []) in *.
  rewrite !zlen_app in *. pose proof (zlen_nonneg mid). pose proof (zlen_nonneg (txout_of c)). pose proof (zlen_nonneg v).
  rewrite put_vlq by (fold v; lia || done). cbn [obind]. fold v.
  match goal with |- context [obind (if _ then ?a else ?b)] =>
    assert (Hm : (if st_Height c >? 0 then a else b) =
                 Ok (v ++ mid ++ zdrop (zlen v + zlen mid) target, zlen v + zlen mid)) end.
  { unfold mid in *. destruct (st_Height c >? 0).
    - rewrite zdrop_app, put_vlq by (rewrite ?zlen_zdrop; lia). cbn [obind fst snd]. rewrite ztake_app.
      do 4 f_equal. unfold zdrop. rewrite drop_drop. f_equal. lia.
    - rewrite zlen_nil, Z.add_0_r. reflexivity. }
  rewrite Hm. cbn [obind]. rewrite (app_assoc v mid), <- zlen_app, zdrop_app, ztake_app.
  rewrite put_txout by (rewrite ?zlen_zdrop; rewrite ?zlen_app; done || lia). cbn [obind fst snd].
  rewrite <- !app_assoc. do 2 f_equal; [| rewrite zlen_app; lia]. do 3 f_equal.
  unfold zdrop. rewrite drop_drop. f_equal. rewrite zlen_app. lia.
Qed.

Definition journal_form (l : list SpentTxOut) : bytes := concat (stxo_form <$> l).

Lemma put_journal_ok l : forall pre t,
  Forall coin_ok l -> zlen (journal_form l) = zlen t ->
  put_journal (pre ++ t) (zlen pre) l = Ok (pre ++ journal_form l).
Proof.
  induction l as [| c l IH]; intros pre t Hl Hz; cbn [put_journal].
  { change (journal_form []) with (@nil byte) in *. destruct t; [now rewrite app_nil_r |].
    rewrite zlen_cons, zlen_nil in Hz. pose proof (zlen_nonneg t). lia. }
  apply Forall_cons in Hl as [Hc Hl]. change (journal_form (c :: l)) with (stxo_form c ++ journal_form l) in *.
  rewrite zlen_app in Hz. pose proof (zlen_nonneg (journal_form l)).
  rewrite zdrop_app, putSpentTxOut_ok by (done || lia). cbn [obind fst snd]. rewrite ztake_app, app_assoc, <- zlen_app.
  rewrite IH; [now rewrite <- app_assoc | done |]. pose proof (zlen_nonneg (stxo_form c)). rewrite zlen_zdrop; lia.
Qed.

Lemma decodeSpentTxOut_ok c more l :
  coin_ok c -> l = zlen (stxo_form c) + zlen more ->
  decodeSpentTxOut (mkSlice (stxo_form c ++ more) l) = Ok (c, zlen (stxo_form c)).
Proof.
  intros Hc ->. unfold decodeSpentTxOut. rewrite <- zlen_app.
  change (mkSlice (stxo_form c ++ more) _) with (whole (stxo_form c ++ more)).
  rewrite contents_whole. unfold stxo_form, whole. cbn [s_len].
  pose proof (ok_height c Hc) as Hh. pose proof (header_code_range _ (st_IsCoinBase c) Hh) as Hr.
  set (code := header_code (st_Height c) (st_IsCoinBase c)) in *.
  set (mid := if st_Height c >? 0 then vlq 0 else []).
  pose proof (zlen_vlq code). pose proof (zlen_nonneg mid). pose proof (zlen_txout_pos c). pose proof (zlen_nonneg more).
  rewrite <- !app_assoc, get_vlq by done. set (total := zlen (vlq code ++ mid ++ txout_of c ++ more)).
  assert (Ht : total = zlen (vlq code) + zlen mid + zlen (txout_of c) + zlen more)
    by (unfold total; rewrite !zlen_app; lia).
  replace (total =? 0) with false by lia. replace (zlen (vlq code) >=? total) with false by lia.
  unfold code at 1 2. rewrite code_height_code by done.
  match goal with |- context [obind (if _ then ?a else ?b)] =>
    assert (Hm : (if st_Height c >? 0 then a else b) = Ok (zlen (vlq code) + zlen mid)) end.
  { unfold mid. destruct (st_Height c >? 0) eqn:Hz.
    - fold code. unfold mid in *. rewrite <- (app_nil_r (vlq 0 ++ txout_of c ++ more)).
      rewrite reslice_app by (rewrite !zlen_app; lia). cbn [obind]. rewrite contents_app, get_vlq by lia.
      cbn [snd]. now replace (_ >=? total) with false by lia.
    - now rewrite zlen_nil, Z.add_0_r. }
  rewrite Hm. cbn [obind]. pose proof (get_txout c (vlq code ++ mid) more total Hc ltac:(rewrite zlen_app; lia)) as Hg.
  rewrite zlen_app, <- !app_assoc in Hg. etransitivity; [exact (obind_then _ _ _ _ Hg) |]. cbn beta iota.
  unfold code. rewrite code_coinbase_code by done.
  rewrite int64_small by (destruct Hc; lia). rewrite !zlen_app. rewrite code_height_code by done. do 2 f_equal; [now destruct c | fold code; lia].
Qed.

Lemma journal_loop_ok l : forall pre acc,
  Forall coin_ok l ->
  journal_loop (length l) (whole (pre ++ journal_form l)) (zlen pre) acc = Ok (reverse l ++ acc).
Proof.
  induction l as [| c l IH]; intros pre acc Hl; [done |]. apply Forall_cons in Hl as [Hc Hl].
  cbn [length journal_loop]. change (journal_form (c :: l)) with (stxo_form c ++ journal_form l).
  unfold whole at 1 2. cbn [s_len]. rewrite <- (app_nil_r (stxo_form c ++ journal_form l)) at 1.
  rewrite reslice_app by (rewrite !zlen_app; lia). cbn [obind].
  rewrite app_nil_r, decodeSpentTxOut_ok by (rewrite ?zlen_app; done || lia). cbn [obind fst snd].
  rewrite app_assoc, <- zlen_app, IH by done. now rewrite reverse_cons, <- app_assoc.
Qed.

Lemma journal_form_nonempty c l : coin_ok c -> 1 <= zlen (journal_form (c :: l)).
Proof.
  intros Hc. change (journal_form (c :: l)) with (stxo_form c ++ journal_form l). unfold stxo_form.
  rewrite !zlen_app. pose proof (zlen_vlq (header_code (st_Height c) (st_IsCoinBase c))).
  pose proof (zlen_nonneg (if st_Height c >? 0 then vlq 0 else [])). pose proof (zlen_txout_pos c).
  pose proof (zlen_nonneg (journal_form l)). lia.
Qed.

Lemma zsum_sizes l : Forall coin_ok l -> zsum spentTxOutSerializeSize l = zlen (journal_form l).
Proof.
  intros Hl. induction Hl as [| c l Hc Hl IH]; [done |]. rewrite zsum_cons, IH, zlen_stxo_form by done.
  change (journal_form (c :: l)) with (stxo_form c ++ journal_form l). now rewrite zlen_app.
Qed.

Lemma serialize_journal l :
  Forall coin_ok l -> serializeSpendJournalEntry l = Ok (journal_form (reverse l)).
Proof.
  intros Hl. unfold serializeSpendJournalEntry. destruct l as [| c l]; [done |].
  rewrite zlen_cons. pose proof (zlen_nonneg l). replace (1 + zlen l =? 0) with false by lia.
  assert (Hs : zsum spentTxOutSerializeSize (c :: l) = zlen (journal_form (reverse (c :: l)))).
  { rewrite <- zsum_sizes by now apply Forall_reverse. symmetry. apply zsum_reverse. }
  apply (put_journal_ok _ [] (zeros _)); [now apply Forall_reverse |].
  rewrite Hs, zlen_zeros; [done | apply zlen_nonneg].
Qed.

Lemma deserialize_journal l txns :
  Forall coin_ok l -> zlen l = zsum (fun tx => zlen (TxIns tx)) txns ->
  deserializeSpendJournalEntry (journal_form (reverse l)) txns = Ok l.
Proof.
  intros Hl Hn. unfold deserializeSpendJournalEntry. rewrite <- Hn. clear Hn.
  destruct (decide (l = [])) as [-> | Hne]; [done |].
  destruct (reverse l) as [| c r] eqn:Hrev.
  { apply (f_equal reverse) in Hrev. now rewrite reverse_involutive in Hrev. }
  assert (Hr : Forall coin_ok (c :: r)) by (rewrite <- Hrev; now apply Forall_reverse).
  pose proof (journal_form_nonempty c r (Forall_inv Hr)).
  replace (zlen (journal_form (c :: r)) =? 0) with false by lia.
  assert (Hlen : Z.to_nat (zlen l) = length (c :: r)).
  { rewrite <- Hrev, length_reverse. unfold zlen. now rewrite Nat2Z.id. }
  pose proof (journal_loop_ok (c :: r) [] [] Hr) as Hj. rewrite zlen_nil in Hj. cbn [app] in Hj.
  rewrite Hlen, Hj, app_nil_r, <- Hrev. now rewrite reverse_involutive.
Qed.
End JournalCodec.

(** * The best state *)

Lemma be_val_big_bytes n : 0 <= n -> be_val (big_bytes n) = n.
Proof.
  intros Hn. unfold be_val, big_bytes. rewrite reverse_involutive. apply le_val_le_bytes_small.
  destruct (Z.eqb_spec n 0) as [-> | Hz]; [done |]. pose proof (Z.log2_nonneg n).
  pose proof (Z.div_pos (Z.log2 n) 8 ltac:(lia) ltac:(lia)). rewrite Z2Nat.id by lia. split; [lia |].
  change 256 with (2 ^ 8). rewrite <- Z.pow_mul_r by lia. destruct (Z.log2_spec n ltac:(lia)) as [_ Hlt].
  eapply Z.lt_le_trans; [exact Hlt |]. apply Z.pow_le_mono_r; [lia |].
  pose proof (Z.mul_succ_div_gt (Z.log2 n) 8 ltac:(lia)). lia.
Qed.

Record state_ok (s : bestChainState) : Prop := {
  ok_hash : zlen (bs_hash s) = 32;
  ok_bs_height : 0 <= bs_height s < 2 ^ 32;
  ok_txns : 0 <= totalTxns s < 2 ^ 64;
  ok_work : 0 <= bs_workSum s;
  ok_work_len : zlen (big_bytes (bs_workSum s)) < 2 ^ 28;
}.

(** The parts of a serialized state. *)
Lemma state_parts s more :
  state_ok s ->
  let d := serializeBestChainState s ++ more in
  let w := big_bytes (bs_workSum s) in
  zlen d = 48 + zlen w + zlen more /\ ztake HashSize d = bs_hash s /\
  le_val (sub d 32 36) = bs_height s /\ le_val (sub d 36 44) = totalTxns s /\
  le_val (sub d 44 48) = zlen w /\ zdrop 48 d = w ++ more.
Proof.
  intros [Hh Hht Htx Hw Hlen]. unfold serializeBestChainState.
  set (w := big_bytes (bs_workSum s)) in *. pose proof (zlen_nonneg w).
  rewrite (wrapU_small 32 (zlen w)) by lia.
  replace (ztake (zlen w) w) with w by (symmetry; apply take_ge; unfold zlen; lia).
  set (h4 := le_bytes 4 (bs_height s)). set (t8 := le_bytes 8 (totalTxns s)). set (l4 := le_bytes 4 (zlen w)).
  assert (H4 : zlen h4 = 4) by apply zlen_le_bytes. assert (H8 : zlen t8 = 8) by apply zlen_le_bytes.
  assert (Hl4 : zlen l4 = 4) by apply zlen_le_bytes. rewrite <- !app_assoc. cbn zeta. split_and!.
  - rewrite !zlen_app. lia.
  - unfold HashSize. rewrite <- Hh. apply ztake_app.
  - rewrite (sub_app (bs_hash s) h4) by lia. apply le_val_le_bytes_small. lia.
  - rewrite app_assoc, (sub_app (bs_hash s ++ h4) t8) by (rewrite zlen_app; lia). apply le_val_le_bytes_small. lia.
  - rewrite !app_assoc, <- (app_assoc _ w), <- (app_assoc _ l4).
    rewrite (sub_app ((bs_hash s ++ h4) ++ t8) l4) by (rewrite !zlen_app; lia). apply le_val_le_bytes_small. lia.
  - replace 48 with (zlen (bs_hash s ++ h4 ++ t8 ++ l4)) by (rewrite !zlen_app; lia).
    rewrite !app_assoc, <- (app_assoc _ w). apply zdrop_app.
Qed.

(** A proper prefix agrees with the whole on what it reaches. *)
Lemma sub_prefix (p d : bytes) lo hi : p `prefix_of` d -> 0 <= lo <= hi -> hi <= zlen p -> sub p lo hi = sub d lo hi.
Proof.
  intros [t ->] Hlo Hhi. unfold sub, ztake, zdrop. rewrite skipn_app, firstn_app.
  replace (_ - _)%nat with 0%nat; [now rewrite take_0, app_nil_r |]. rewrite length_drop. unfold zlen in Hhi. lia.
Qed.

(** * Journals in the bucket *)

Section Journals.
Context `{PubKeysLaws} `{Crypto} {B : Type} `{BucketLaws B}.

Lemma journal_stored (b : B) block tx0 txs l :
  Transactions block = tx0 :: txs -> Forall coin_ok l -> zlen l = countSpentOutputs block ->
  exists b', dbPutSpendJournalEntry (BlockHash (Header block)) l b = Ok b' /\ dbFetchSpendJournalEntry b' block = Ok l /\
    (forall block', BlockHash (Header block') <> BlockHash (Header block) ->
       dbFetchSpendJournalEntry b' block' = dbFetchSpendJournalEntry b block').
Proof.
  intros Htx Hl Hn. unfold countSpentOutputs in Hn. rewrite Htx in Hn. cbn [tail] in Hn.
  unfold dbPutSpendJournalEntry, dbFetchSpendJournalEntry. rewrite serialize_journal by done.
  cbn [filled obind]. eexists. split; [reflexivity |]. rewrite Get_Put, Htx. cbn [from_option]; unfold id. split.
  - now rewrite deserialize_journal.
  - intros block' Hne. now rewrite Get_Put_ne by done.
Qed.

Lemma journal_other (b : B) hash block :
  BlockHash (Header block) <> hash ->
  dbFetchSpendJournalEntry (dbRemoveSpendJournalEntry hash b) block = dbFetchSpendJournalEntry b block.
Proof. intros Hne. unfold dbFetchSpendJournalEntry, dbRemoveSpendJournalEntry. now rewrite Get_Delete_ne. Qed.

Lemma journal_removed (b : B) block tx0 txs :
  Transactions block = tx0 :: txs ->
  dbFetchSpendJournalEntry (dbRemoveSpendJournalEntry (BlockHash (Header block)) b) block =
    (if countSpentOutputs block =? 0 then Ok [] else Err StoreAssert).
Proof.
  intros Htx. unfold dbFetchSpendJournalEntry, dbRemoveSpendJournalEntry, countSpentOutputs. rewrite Get_Delete, Htx.
  cbn [from_option tail]; unfold id. unfold deserializeSpendJournalEntry. rewrite zlen_nil. cbn [Z.eqb].
  destruct (zsum _ txs =? 0); reflexivity.
Qed.
End Journals.

(** * The claims *)

(** The bucket of the unspent outputs implements a set of coins, whatever
    implements the interface of buckets.  When it holds exactly the coins of a
    set, as serialized entries under serialized outpoints, fetching an outpoint
    gives the coin's entry, neither spent nor modified nor fresh, or nothing;
    fetching by the id of a transaction gives the entry of one of its coins, and
    nothing only if it has none; and after a put, a deletion or the writing of a
    view in any order of its entries, the bucket holds exactly the set with that
    coin, without it, or the set the view stands for. *)
Lemma utxo_store `{PubKeysLaws} {B : Type} `{BucketLaws B} (b : B) S :
  holds b S ->
  (forall op, outpoint_ok op -> dbFetchUtxoEntry b op = Ok (entry_of <$> S !! op)) /\
  (forall hash, zlen hash = 32 ->
     (exists op c, Hash op = hash /\ S !! op = Some c /\
        dbFetchUtxoEntryByHash b hash = Ok (Some (entry_of c))) \/
     (dbFetchUtxoEntryByHash b hash = Ok None /\ forall op, Hash op = hash -> S !! op = None)) /\
  (forall op e, outpoint_ok op -> IsSpent e = false -> coin_ok (stxo_of e) ->
     exists b', dbPutUtxoEntry op (Some e) b = Ok b' /\ holds b' (<[op := stxo_of e]> S)) /\
  (forall op, outpoint_ok op -> exists b', dbDeleteUtxoEntry op b = Ok b' /\ holds b' (delete op S)) /\
  (forall v l, l ≡ₚ map_to_list (entries v) -> Forall entry_ok l -> unmodified_ok v S ->
     exists b', dbPutUtxoView l b = Ok b' /\ holds b' (effective v S)).
Proof.
  intros Hb. split_and!; eauto using fetch_holds, fetch_by_hash, put_holds, delete_holds.
  intros v l Hl Hok Hu. destruct (put_view_holds l b S Hb Hok) as (b' & Hrun & Hb').
  rewrite (put_entries_effective l v S Hl Hu) in Hb'. eauto.
Qed.

(** The spend journal.  What is stored for a block, one coin for each input
    but those of the coinbase and in the order in which they were spent, is
    what is fetched for it: the height, the coinbase flag, the amount and the
    script of each coin in range; a journal that was removed or is missing is
    an assertion failure unless the block spends nothing; and the journals of
    other blocks stay as they are. *)
Lemma spend_journal `{PubKeysLaws} `{Crypto} {B : Type} `{BucketLaws B} (b : B) block tx0 txs l :
  Transactions block = tx0 :: txs -> Forall coin_ok l -> zlen l = countSpentOutputs block ->
  let hash := BlockHash (Header block) in
  exists b', dbPutSpendJournalEntry hash l b = Ok b' /\ dbFetchSpendJournalEntry b' block = Ok l /\
    (forall block', BlockHash (Header block') <> hash ->
       dbFetchSpendJournalEntry b' block' = dbFetchSpendJournalEntry b block') /\
    dbFetchSpendJournalEntry (dbRemoveSpendJournalEntry hash b') block =
      (if countSpentOutputs block =? 0 then Ok [] else Err StoreAssert).
Proof.
  intros Htx Hl Hn hash. destruct (journal_stored b block tx0 txs l Htx Hl Hn) as (b' & Hput & Hf & Ho).
  exists b'. split_and!; try done. now apply (journal_removed b' block tx0 txs).
Qed.

(** The best state is read back as it was written, whatever follows, for
    heights of 32 bits, counts of 64 and work of less than 2^28 bytes; and every
    proper prefix of its serialization is reported as corrupt. *)
Lemma best_state_codec s :
  state_ok s ->
  (forall more, 48 + zlen (big_bytes (bs_workSum s)) + zlen more < 2 ^ 32 ->
     deserializeBestChainState (serializeBestChainState s ++ more) = Ok s) /\
  (forall p, p `prefix_of` serializeBestChainState s -> p <> serializeBestChainState s ->
     deserializeBestChainState p = Err ErrCorruption).
Proof.
  intros Hs. pose proof (zlen_nonneg (big_bytes (bs_workSum s))). split.
  - intros more Hm. destruct (state_parts s more Hs) as (Hz & Hh & Hht & Htx & Hl & Hd). cbn zeta in *.
    unfold deserializeBestChainState. rewrite Hz, Hh, Hht, Htx, Hl, Hd. unfold HashSize. pose proof (zlen_nonneg more).
    set (w := big_bytes (bs_workSum s)) in *. rewrite zlen_app, !wrapU_small by lia.
    replace (48 + zlen w + zlen more <? 32 + 16) with false by lia.
    replace (zlen w + zlen more <? zlen w) with false by lia.
    unfold reslice, whole. cbn [s_arr]. rewrite Hz.
    replace ((0 <=? 48) && (48 <=? 48 + zlen w) && (48 + zlen w <=? 48 + zlen w + zlen more)) with true by lia.
    cbn [obind]. unfold contents. cbn [s_len s_arr]. rewrite Hd. replace (48 + zlen w - 48) with (zlen w) by lia.
    rewrite ztake_app. unfold w. rewrite be_val_big_bytes by apply Hs. now destruct s.
  - intros p Hp Hne. destruct (state_parts s [] Hs) as (Hz & _ & _ & _ & Hl & _). rewrite app_nil_r in *. cbn zeta in *.
    pose proof (ok_work_len s Hs). rewrite zlen_nil in Hz.
    assert (Hlt : zlen p < zlen (serializeBestChainState s)).
    { destruct Hp as [t Ht]. rewrite Ht, zlen_app. destruct t; [rewrite app_nil_r in Ht; congruence |].
      rewrite zlen_cons. pose proof (zlen_nonneg t). lia. }
    unfold deserializeBestChainState, HashSize. destruct (Z.ltb_spec (zlen p) (32 + 16)); [done |].
    rewrite (sub_prefix p _ 44 48 Hp), Hl, wrapU_small by (rewrite ?zlen_zdrop; lia).
    rewrite zlen_zdrop by lia. now replace (zlen p - 48 <? _) with true by lia.
Qed.

(** The keys of one transaction are not in the order of the indexes: the key of
    the output 16512 comes before that of the output 256. *)
Lemma key_order hash : bytes_le (key_of (mkOutPoint hash 16512)) (key_of (mkOutPoint hash 256)).
Proof. unfold key_of. cbn [Hash Index]. now apply bytes_le_prefix. Qed.

(** * Witnesses *)

#[local] Existing Instance Compress.toy_keys.
#[local] Existing Instance Compress.toy_keys_laws.

Definition stored_coin : SpentTxOut := mkSpent 5000000000 [x51; x52] 170 true.

Lemma stored_coin_ok : coin_ok stored_coin.
Proof. split; [split; discriminate | reflexivity | split; [discriminate | reflexivity]]. Qed.

Lemma holds_empty : holds (∅ : gmap bytes bytes) ∅.
Proof.
  split.
  - intros op c Hc. now rewrite lookup_empty in Hc.
  - intros op _. now rewrite lookup_empty.
  - intros k [v Hv]. cbn [Get gmap_bucket] in Hv. now rewrite lookup_empty in Hv.
Qed.

Lemma utxo_store_witness :
  exists b : gmap bytes bytes,
    dbPutUtxoEntry old_outpoint (Some (entry_of stored_coin)) ∅ = Ok b /\
    dbFetchUtxoEntry b old_outpoint = Ok (Some (entry_of stored_coin)).
Proof.
  assert (Hop : outpoint_ok old_outpoint) by (split; [reflexivity | split; [discriminate | reflexivity]]).
  destruct (utxo_store (∅ : gmap bytes bytes) ∅ holds_empty) as (_ & _ & Hput & _).
  destruct (Hput old_outpoint (entry_of stored_coin) Hop eq_refl stored_coin_ok) as (b & Hb & Hh).
  exists b. split; [exact Hb |]. destruct (utxo_store b _ Hh) as (Hf & _).
  rewrite (Hf old_outpoint Hop), lookup_insert_eq. reflexivity.
Defined.

Lemma spend_journal_witness :
  let H := toy_crypto in
  exists b : gmap bytes bytes,
    dbPutSpendJournalEntry (BlockHash (Header spending_block)) [stored_coin] ∅ = Ok b /\
    dbFetchSpendJournalEntry b spending_block = Ok [stored_coin].
Proof.
  intros H. destruct (spend_journal (∅ : gmap bytes bytes) spending_block _ _ [stored_coin] eq_refl)
    as (b & Hb & Hf & _).
  - repeat constructor; try discriminate; reflexivity.
  - reflexivity.
  - exists b. split; [exact Hb | exact Hf].
Defined.

Lemma best_state_codec_witness :
  let s := mkBestChainState (replicate 32 x07) 800000 900000000 (2 ^ 94) in
  deserializeBestChainState (serializeBestChainState s) = Ok s /\
  deserializeBestChainState (ztake 59 (serializeBestChainState s)) = Err ErrCorruption.
Proof.
  intros s. destruct (best_state_codec s) as [Hr Ht].
  - constructor; vm_compute; intuition congruence.
  - split.
    + specialize (Hr []). rewrite app_nil_r in Hr. apply Hr. reflexivity.
    + apply Ht; [now exists [x00] | discriminate].
Defined.
