(* ===== verification/SizeHelper.v ===== *)
(** The sizes of the maps of the cache (src/btcd/blockchain/sizehelper.go), on a
    64-bit system: [uintptr] has 64 bits.

    [math.Log2] of a number of buckets below 2^48 is exact enough to be rounded
    down to its binary logarithm; the conversion of what it gives for zero or a
    negative number to [uint8] is zero on the supported systems. *)

From S2P Require Import Prelude.
#[local] Open Scope Z_scope.

Definition outpointSize : Z := 36.
Definition uint64Size : Z := 8.
Definition bucketSize : Z := 16 + uint64Size * outpointSize + uint64Size * uint64Size.
Definition baseEntrySize : Z := 40.
Definition pubKeyHashLen : Z := 25.
Definition avgEntrySize : Z := baseEntrySize + (pubKeyHashLen + 7).

Definition _MaxSmallSize : Z := 32768.
Definition smallSizeDiv : Z := 8.
Definition smallSizeMax : Z := 1024.
Definition largeSizeDiv : Z := 128.
Definition _PageSize : Z := 8192.
Definition MaxUintptr : Z := 2 ^ 64 - 1.
Definition bucketCnt : Z := 8.
Definition loadFactorNum : Z := 13.
Definition loadFactorDen : Z := 2.
Definition PtrSize : Z := 8.
Definition maxAlloc : Z := 2 ^ 40.

Definition class_to_size : list Z :=
  [0; 8; 16; 24; 32; 48; 64; 80; 96; 112; 128; 144; 160; 176; 192; 208; 224; 240; 256; 288; 320;
   352; 384; 416; 448; 480; 512; 576; 640; 704; 768; 896; 1024; 1152; 1280; 1408; 1536; 1792;
   2048; 2304; 2688; 3072; 3200; 3456; 4096; 4864; 5376; 6144; 6528; 6784; 6912; 8192; 9472;
   9728; 10240; 10880; 12288; 13568; 14336; 16384; 18432; 19072; 20480; 21760; 24576; 27264;
   28672; 32768].

Definition size_to_class8 : list Z :=
  [0; 1; 2; 3; 4; 5; 5; 6; 6; 7; 7; 8; 8; 9; 9; 10; 10; 11; 11; 12; 12; 13; 13; 14; 14; 15; 15;
   16; 16; 17; 17; 18; 18; 19; 19; 19; 19; 20; 20; 20; 20; 21; 21; 21; 21; 22; 22; 22; 22; 23;
   23; 23; 23; 24; 24; 24; 24; 25; 25; 25; 25; 26; 26; 26; 26; 27; 27; 27; 27; 27; 27; 27; 27;
   28; 28; 28; 28; 28; 28; 28; 28; 29; 29; 29; 29; 29; 29; 29; 29; 30; 30; 30; 30; 30; 30; 30;
   30; 31; 31; 31; 31; 31; 31; 31; 31; 31; 31; 31; 31; 31; 31; 31; 31; 32; 32; 32; 32; 32; 32;
   32; 32; 32; 32; 32; 32; 32; 32; 32; 32].

Definition size_to_class128 : list Z :=
  [32; 33; 34; 35; 36; 37; 37; 38; 38; 39; 39; 40; 40; 40; 41; 41; 41; 42; 43; 43; 44; 44; 44; 44;
   44; 45; 45; 45; 45; 45; 45; 46; 46; 46; 46; 47; 47; 47; 47; 47; 47; 48; 48; 48; 49; 49; 50;
   51; 51; 51; 51; 51; 51; 51; 51; 51; 51; 52; 52; 52; 52; 52; 52; 52; 52; 52; 52; 53; 53; 54;
   54; 54; 54; 55; 55; 55; 55; 55; 56; 56; 56; 56; 56; 56; 56; 56; 56; 56; 56; 57; 57; 57; 57;
   57; 57; 57; 57; 57; 57; 58; 58; 58; 58; 58; 58; 59; 59; 59; 59; 59; 59; 59; 59; 59; 59; 59;
   59; 59; 59; 59; 59; 60; 60; 60; 60; 60; 60; 60; 60; 60; 60; 60; 60; 60; 60; 60; 60; 61; 61;
   61; 61; 61; 62; 62; 62; 62; 62; 62; 62; 62; 62; 62; 62; 63; 63; 63; 63; 63; 63; 63; 63; 63;
   63; 64; 64; 64; 64; 64; 64; 64; 64; 64; 64; 64; 64; 64; 64; 64; 64; 64; 64; 64; 64; 64; 64;
   65; 65; 65; 65; 65; 65; 65; 65; 65; 65; 65; 65; 65; 65; 65; 65; 65; 65; 65; 65; 65; 66; 66;
   66; 66; 66; 66; 66; 66; 66; 66; 66; 67; 67; 67; 67; 67; 67; 67; 67; 67; 67; 67; 67; 67; 67;
   67; 67; 67; 67; 67; 67; 67; 67; 67; 67; 67; 67; 67; 67; 67; 67; 67; 67].

(** The product and whether it overflowed. *)
Definition mulUintptr (a b : Z) : Z * bool :=
  if (Z.lor a b <? 2 ^ (4 * PtrSize)) || (a =? 0) then (uint64 (a * b), false)
  else (uint64 (a * b), b >? MaxUintptr / a).

Definition divRoundUp (n a : Z) : Z := uint64 (n + a - 1) / a.

(** [n &^ (a - 1)] clears the bits of [a - 1]. *)
Definition alignUp (n a : Z) : Z := Z.ldiff (uint64 (n + a - 1)) (a - 1).

(** An index out of the range of a table is a panic. *)
Definition roundupsize (size : Z) : outcome unit Z :=
  if size <? _MaxSmallSize then
    if size <=? smallSizeMax - 8 then
      let! c := index size_to_class8 (divRoundUp size smallSizeDiv) in index class_to_size c
    else
      let! c := index size_to_class128 (divRoundUp (uint64 (size - smallSizeMax)) largeSizeDiv) in
      index class_to_size c
  else if uint64 (size + _PageSize) <? size then Ok size
  else Ok (alignUp size _PageSize).

(** [uint8]s are shifted by their low six bits. *)
Definition bucketShift (b : Z) : Z := uint64 (Z.shiftl 1 (Z.land b 63)).

Definition overLoadFactor (count B : Z) : bool :=
  (count >? bucketCnt) && (uint64 count >? uint64 (loadFactorNum * (bucketShift B / loadFactorDen))).

(** [for overLoadFactor(hint, B) { B++ }]: a map of [2^63] buckets is never over
    its load, so that 64 rounds are enough. *)
Fixpoint load_loop (fuel : nat) (hint B : Z) : Z :=
  match fuel with
  | O => B
  | S fuel' => if overLoadFactor hint B then load_loop fuel' hint (uint8 (B + 1)) else B
  end.

Definition calculateRoughMapSize (hint bucketSize : Z) : outcome unit Z :=
  let '(mem, overflow) := mulUintptr (uint64 hint) bucketSize in
  let hint := if overflow || (mem >? maxAlloc) then 0 else hint in
  let B := load_loop 64 hint 0 in
  let base := bucketShift B in
  let! numBuckets :=
    if B >=? 4 then
      let numBuckets := uint64 (base + bucketShift (B - 4)) in
      let sz := uint64 (bucketSize * numBuckets) in
      let! up := roundupsize sz in
      Ok (if negb (up =? sz) then up / bucketSize else numBuckets)
    else Ok base in
  let '(total, _) := mulUintptr bucketSize numBuckets in
  let total := if negb (base =? numBuckets) then uint64 (total + 24) else total in
  Ok (int64 (uint64 (total + 48))).

Definition calculateMinEntries (totalBytes bucketSize : Z) : Z :=
  let totalBytes := int64 (totalBytes - 48) in
  let numBuckets := Z.quot totalBytes bucketSize in
  let B := if numBuckets <=? 0 then 0 else Z.log2 numBuckets in
  if B <? 4 then
    if B =? 0 then 0 else if B =? 1 then 9 else if B =? 2 then 14 else 27
  else int64 (loadFactorNum * (bucketShift (B - 1) / loadFactorDen)) + 1.

(** * A new cache stays within its budget *)

(** The number of entries that [newUtxoCache] allocates a map for, as a function
    of the logarithm of the number of buckets. *)
Definition entries_for (B : Z) : Z :=
  if B <? 4 then
    if B =? 0 then 0 else if B =? 1 then 9 else if B =? 2 then 14 else 27
  else int64 (loadFactorNum * (bucketShift (B - 1) / loadFactorDen)) + 1.

Lemma calculateMinEntries_log totalBytes size :
  48 <= totalBytes < 2 ^ 63 -> 0 < size ->
  exists B, 0 <= B < 63 /\ calculateMinEntries totalBytes size = entries_for B /\
    (B = 0 \/ 48 + size * 2 ^ B <= totalBytes).
Proof.
  intros Ht Hs. unfold calculateMinEntries. rewrite int64_small by lia.
  rewrite Z.quot_div_nonneg by lia. set (n := (totalBytes - 48) / size).
  assert (Hn : 0 <= n < 2 ^ 63).
  { unfold n. split; [apply Z.div_pos; lia | apply Z.div_lt_upper_bound; nia]. }
  exists (if n <=? 0 then 0 else Z.log2 n). split; [| split; [reflexivity |]].
  - destruct (Z.leb_spec n 0); [lia |]. split; [apply Z.log2_nonneg | apply Z.log2_lt_pow2; lia].
  - destruct (Z.leb_spec n 0); [now left | right]. destruct (Z.log2_spec n ltac:(lia)) as [Hle _].
    pose proof (Z.mul_div_le (totalBytes - 48) size Hs). fold n in H0. nia.
Qed.

(** The budget of a logarithm is enough for the map. *)
Definition fits_budget (B : Z) : bool :=
  match calculateRoughMapSize (entries_for B - 1) bucketSize with
  | Ok size => size <=? (if B =? 0 then 416 else 48 + (bucketSize + avgEntrySize) * 2 ^ B)
  | _ => false
  end.

Lemma all_fit : forallb fits_budget (Z.of_nat <$> seq 0 63) = true.
Proof. vm_compute. reflexivity. Qed.

(** The map that a new cache preallocates is within the memory the cache may
    use, if that is at least the size of an empty map. *)
Lemma new_map_fits totalBytes :
  416 <= totalBytes < 2 ^ 63 ->
  exists size,
    calculateRoughMapSize (calculateMinEntries totalBytes (bucketSize + avgEntrySize) - 1) bucketSize = Ok size /\
    size <= totalBytes.
Proof.
  intros Ht.
  destruct (calculateMinEntries_log totalBytes (bucketSize + avgEntrySize) ltac:(lia) ltac:(reflexivity))
    as (B & HB & -> & Hbudget).
  pose proof all_fit as Hall. rewrite forallb_forall in Hall.
  assert (Hin : In B (Z.of_nat <$> seq 0 63)).
  { apply list_elem_of_In, list_elem_of_fmap. exists (Z.to_nat B). split; [lia |]. apply elem_of_seq. lia. }
  specialize (Hall B Hin). unfold fits_budget in Hall.
  destruct (calculateRoughMapSize _ _) as [size | |]; try discriminate. exists size. split; [done |].
  apply Z.leb_le in Hall. destruct (Z.eqb_spec B 0); lia.
Qed.

(** * The estimates never fail *)

Lemma index_ok {E A} (l : list A) i : 0 <= i < zlen l -> exists x, @index E A l i = Ok x /\ x ∈ l.
Proof.
  intros Hi. destruct (znth_in_range l i Hi) as [x Hx]. exists x. unfold index. rewrite Hx. split; [done |].
  unfold znth in Hx. rewrite decide_True in Hx by lia. eapply list_elem_of_lookup_2; eauto.
Qed.

Lemma size_class (t : list Z) i :
  Forall (fun c => 0 <= c < 68) t -> 0 <= i < zlen t ->
  exists n, (let! c := @index unit Z t i in index class_to_size c) = Ok n.
Proof.
  intros Ht Hi. destruct (@index_ok unit _ t i Hi) as (c & -> & Hc). cbn [obind].
  rewrite Forall_forall in Ht. destruct (@index_ok unit _ class_to_size c) as (n & -> & _); [now apply Ht | eauto].
Qed.

Lemma classes_ok : Forall (fun c => 0 <= c < 68) size_to_class8 /\ Forall (fun c => 0 <= c < 68) size_to_class128.
Proof. split; repeat constructor; discriminate. Qed.

Lemma roundupsize_ok size : 0 <= size < 2 ^ 64 -> exists n, roundupsize size = Ok n.
Proof.
  intros Hs. unfold roundupsize, _MaxSmallSize, smallSizeMax, smallSizeDiv, largeSizeDiv, divRoundUp.
  destruct classes_ok as [H8 H128]. destruct (Z.ltb_spec size 32768); [| case_match; eauto].
  destruct (Z.leb_spec size (1024 - 8)).
  - apply size_class; [done |]. rewrite wrapU_small by lia. change (zlen size_to_class8) with 129.
    split; [apply Z.div_pos; lia | apply Z.div_lt_upper_bound; lia].
  - apply size_class; [done |]. change (zlen size_to_class128) with 249.
    assert (Hd : 0 <= uint64 (uint64 (size - 1024) + 128 - 1) < 249 * 128).
    { unfold wrapU. rewrite <- Z.add_sub_assoc, Zplus_mod_idemp_l, Z.mod_small; lia. }
    split; [apply Z.div_pos; lia | apply Z.div_lt_upper_bound; lia].
Qed.

Lemma rough_size_ok hint size : exists n, calculateRoughMapSize hint size = Ok n.
Proof.
  unfold calculateRoughMapSize. destruct (mulUintptr (uint64 hint) size) as [mem o].
  set (h := if o || (mem >? maxAlloc) then 0 else hint). cbn zeta. set (B := load_loop 64 h 0).
  destruct (B >=? 4); cbn [obind].
  - destruct (roundupsize_ok (uint64 (size * uint64 (bucketShift B + bucketShift (B - 4))))) as [up ->];
      [apply wrapU_range; lia |]. cbn [obind]. destruct (mulUintptr size _). eauto.
  - destruct (mulUintptr size _). eauto.
Qed.
