(* ===== verification/UtxoCache.v ===== *)
(** The cache of unspent outputs (src/btcd/blockchain/utxocache.go): maps in
    memory over the bucket of the database, written back as a whole.

    An entry of the cache is changed in place through the pointer that
    [fetchEntries] hands out ([addTxIn]); views receive clones.  The lock of the
    map slice is left out: each of its methods runs under it.  The order in
    which Go ranges over the maps is a parameter. *)

From stdpp Require Import gmap.
From S2P Require Import Prelude Slices Opcodes Vlq Compress WireCommon MsgTx MsgBlock Script Crypto BtcUtil Merkle Difficulty TxRules UtxoView Bucket Chainio SizeHelper.
#[local] Open Scope Z_scope.

Abbreviation entry_map := (gmap OutPoint (option UtxoEntry)).

(** * The slice of maps *)

Record mapSlice := mkMapSlice {
  maps : list entry_map;
  maxEntries : list Z;
  ms_maxTotalMemoryUsage : Z;
}.

Definition with_maps (m : list entry_map) (ms : mapSlice) : mapSlice :=
  mkMapSlice m (maxEntries ms) (ms_maxTotalMemoryUsage ms).

Definition length_ (ms : mapSlice) : Z := zsum (fun m => Z.of_nat (size (m : entry_map))) (maps ms).

(** The sum of the estimates of the maps. *)
Fixpoint sum_sizes (total : Z) (l : list Z) : outcome StoreError Z :=
  match l with
  | [] => Ok total
  | num :: l' => let! n := filled (calculateRoughMapSize num bucketSize) in sum_sizes (int64 (total + n)) l'
  end.

Definition size_ (ms : mapSlice) : outcome StoreError Z := sum_sizes 0 (maxEntries ms).

(** The first map that has the key. *)
Fixpoint find_entry (op : OutPoint) (l : list entry_map) : option (option UtxoEntry) :=
  match l with
  | [] => None
  | m :: l' => match m !! op with Some e => Some e | None => find_entry op l' end
  end.

Definition get_entry (ms : mapSlice) (op : OutPoint) : option (option UtxoEntry) := find_entry op (maps ms).

(** The entry of the first map that has the key is overwritten. *)
Fixpoint overwrite (op : OutPoint) (e : option UtxoEntry) (l : list entry_map) : option (list entry_map) :=
  match l with
  | [] => None
  | m :: l' =>
      match m !! op with
      | Some _ => Some (<[op := e]> m :: l')
      | None => cons m <$> overwrite op e l'
      end
  end.

(** The first map with room. *)
Fixpoint fill (op : OutPoint) (e : option UtxoEntry) (maxs : list Z) (l : list entry_map) : option (list entry_map) :=
  match maxs, l with
  | max :: maxs', m :: l' =>
      if Z.of_nat (size m) >=? max then cons m <$> fill op e maxs' l' else Some (<[op := e]> m :: l')
  | _, _ => None
  end.

(** The memory left for another map; the subtractions are those of [uint64]. *)
Fixpoint left_over (memSize : Z) (l : list Z) : outcome StoreError Z :=
  match l with
  | [] => Ok memSize
  | maxNum :: l' =>
      let! n := filled (calculateRoughMapSize maxNum bucketSize) in left_over (uint64 (memSize - uint64 n)) l'
  end.

(** The map that is made is empty, and its number of entries is only a hint. *)
Definition makeNewMap (totalEntryMemory : Z) (ms : mapSlice) : outcome StoreError mapSlice :=
  let! memSize := left_over (uint64 (ms_maxTotalMemoryUsage ms - totalEntryMemory)) (maxEntries ms) in
  let numMaxElements := calculateMinEntries (int64 memSize) (bucketSize + avgEntrySize) - 1 in
  Ok (mkMapSlice (maps ms ++ [∅]) (maxEntries ms ++ [numMaxElements]) (ms_maxTotalMemoryUsage ms)).

(** The loops index [maps] by the positions of [maxEntries]: the two slices have
    the same length, and a shorter [maps] would panic. *)
Definition put_entry_in (op : OutPoint) (e : option UtxoEntry) (totalEntryMemory : Z) (ms : mapSlice)
  : outcome StoreError mapSlice :=
  if (length (maps ms) <? length (maxEntries ms))%nat then Panic else
  match overwrite op e (maps ms) with
  | Some l => Ok (with_maps l ms)
  | None =>
      match fill op e (maxEntries ms) (maps ms) with
      | Some l => Ok (with_maps l ms)
      | None =>
          let! ms := makeNewMap totalEntryMemory ms in
          Ok (with_maps (removelast (maps ms) ++ [ {[op := e]} ]) ms)
      end
  end.

Definition delete_entry (op : OutPoint) (ms : mapSlice) : mapSlice :=
  with_maps ((fun m => delete op m) <$> maps ms) ms.

(** Every map but the first is dropped. *)
Definition deleteMaps (ms : mapSlice) : outcome StoreError mapSlice :=
  match maxEntries ms with
  | [] => Panic
  | size :: _ => Ok (mkMapSlice (take 1 (maps ms)) [size] (ms_maxTotalMemoryUsage ms))
  end.

(** * The cache *)

Definition memoryUsage (e : option UtxoEntry) : Z :=
  match e with None => 0 | Some e => uint64 (baseEntrySize + zlen (pkScript e)) end.

Inductive FlushMode : Set :=
| FlushRequired
| FlushPeriodic
| FlushIfNeeded.

(** Five minutes in nanoseconds, as every time here. *)
Definition utxoFlushPeriodicInterval : Z := 300 * 10 ^ 9.

(** The cache with the database below it: the bucket of the unspent outputs and
    the hash of the block up to which that bucket is consistent. *)
Record utxoCache (B : Type) := mkCache {
  utxoBucket : B;
  consistency : option bytes;
  maxTotalMemoryUsage : Z;
  cachedEntries : mapSlice;
  totalEntryMemory : Z;
  lastFlushHash : bytes;
  lastFlushTime : Z;
}.
Arguments mkCache {B}.
Arguments utxoBucket {B}.
Arguments consistency {B}.
Arguments maxTotalMemoryUsage {B}.
Arguments cachedEntries {B}.
Arguments totalEntryMemory {B}.
Arguments lastFlushHash {B}.
Arguments lastFlushTime {B}.

Definition newUtxoCache {B} (db : B) (status : option bytes) (maxTotal : Z) : utxoCache B :=
  let numMaxElements := calculateMinEntries (int64 maxTotal) (bucketSize + avgEntrySize) - 1 in
  mkCache db status maxTotal (mkMapSlice [∅] [numMaxElements] maxTotal) 0 zeroHash 0.

Definition with_entries {B} (ms : mapSlice) (mem : Z) (c : utxoCache B) : utxoCache B :=
  mkCache (utxoBucket c) (consistency c) (maxTotalMemoryUsage c) ms mem (lastFlushHash c) (lastFlushTime c).

Definition with_db {B} (db : B) (status : option bytes) (c : utxoCache B) : utxoCache B :=
  mkCache db status (maxTotalMemoryUsage c) (cachedEntries c) (totalEntryMemory c) (lastFlushHash c) (lastFlushTime c).

Definition flushed {B} (hash : bytes) (now : Z) (c : utxoCache B) : utxoCache B :=
  mkCache (utxoBucket c) (consistency c) (maxTotalMemoryUsage c) (cachedEntries c) (totalEntryMemory c) hash now.

Section Cache.
Context `{PubKeys} `{Crypto} {B : Type} `{Bucket B}.

(** The cache and the spent outputs, when they are asked for. *)
Definition cstate : Type := utxoCache B * option (list SpentTxOut).

Abbreviation CM := (M (utxoCache B) StoreError).
Abbreviation CSM := (M cstate StoreError).

Definition totalMemoryUsage (c : utxoCache B) : outcome StoreError Z :=
  let! n := size_ (cachedEntries c) in Ok (uint64 (uint64 n + totalEntryMemory c)).

(** [put] into the maps, with the memory of the entry added. *)
Definition put_cached (op : OutPoint) (e : option UtxoEntry) : CM unit :=
  c <- get;;
  ms <- lift (put_entry_in op e (totalEntryMemory c) (cachedEntries c));;
  put (with_entries ms (uint64 (totalEntryMemory c + memoryUsage e)) c).

Fixpoint put_all (l : list (OutPoint * option UtxoEntry)) : CM unit :=
  match l with
  | [] => ret tt
  | (op, e) :: l' => put_cached op e;; put_all l'
  end.

(** The entries of the database at some outpoints. *)
Fixpoint db_entries (db : B) (ops : list OutPoint) : outcome StoreError (list (OutPoint * option UtxoEntry)) :=
  match ops with
  | [] => Ok []
  | op :: ops' =>
      let! e := dbFetchUtxoEntry db op in
      let! l := db_entries db ops' in
      Ok ((op, e) :: l)
  end.

Definition missing (ms : mapSlice) (ops : list OutPoint) : list OutPoint :=
  filter (fun op => get_entry ms op = None) ops.

(** The entries in the order of the outpoints: those that were cached before,
    and the others as the database had them. *)
Fixpoint fill_in (ms : mapSlice) (ops : list OutPoint) (dbEntries : list (OutPoint * option UtxoEntry))
  : list (option UtxoEntry) :=
  match ops with
  | [] => []
  | op :: ops' =>
      match get_entry ms op with
      | Some e => e :: fill_in ms ops' dbEntries
      | None =>
          match dbEntries with
          | (_, e) :: rest => e :: fill_in ms ops' rest
          | [] => None :: fill_in ms ops' []
          end
      end
  end.

Definition fetchEntries (outpoints : list OutPoint) : CM (list (option UtxoEntry)) :=
  c <- get;;
  let ms := cachedEntries c in
  l <- lift (db_entries (utxoBucket c) (missing ms outpoints));;
  put_all l;;
  ret (fill_in ms outpoints l).

Definition cache_addTxOut (outpoint : OutPoint) (txOut : TxOut) (isCoinBase : bool) (height : Z) : CM unit :=
  if unspendable (PkScript txOut) then ret tt else
  let flags := Z.lor tfFresh tfModified in
  let flags := if isCoinBase then Z.lor flags tfCoinBase else flags in
  put_cached outpoint (Some (mkEntry (Value txOut) (PkScript txOut) height flags)).

Fixpoint add_outs (isCoinBase : bool) (height : Z) (l : list (OutPoint * TxOut)) : CM unit :=
  match l with
  | [] => ret tt
  | (op, txOut) :: l' => cache_addTxOut op txOut isCoinBase height;; add_outs isCoinBase height l'
  end.

Definition addTxOuts (tx : MsgTx) (height : Z) : CM unit :=
  add_outs (IsCoinBaseTx tx) height (tx_outputs tx).

(** The entry behind the pointer is changed in the map that holds it. *)
Definition in_place (op : OutPoint) (e : UtxoEntry) (ms : mapSlice) : mapSlice :=
  match overwrite op (Some e) (maps ms) with Some l => with_maps l ms | None => ms end.

Definition on_cache {A} (m : CM A) : CSM A := zoom fst (fun c st => (c, snd st)) m.

(** A spent entry that is fresh is deleted; for any other the pointer is set to
    nil before its memory is asked for, which is then 0. *)
Definition addTxIn (txIn : TxIn) : CSM unit :=
  let op := PreviousOutPoint txIn in
  entries <- on_cache (fetchEntries [op]);;
  match entries with
  | [Some entry] =>
      modify (fun st => (fst st, record_stxo (stxo_of entry) (snd st)));;
      let entry := Spend entry in
      on_cache (
        c <- get;;
        let ms := in_place op entry (cachedEntries c) in
        if isFresh entry then
          put (with_entries (delete_entry op ms) (uint64 (totalEntryMemory c - memoryUsage (Some entry))) c)
        else put (with_entries ms (uint64 (totalEntryMemory c - memoryUsage None)) c))
  | _ => fail StoreAssert
  end.

Fixpoint add_ins (ins : list TxIn) : CSM unit :=
  match ins with
  | [] => ret tt
  | ti :: ins' => addTxIn ti;; add_ins ins'
  end.

Definition addTxIns (tx : MsgTx) : CSM unit := if IsCoinBaseTx tx then ret tt else add_ins (TxIns tx).

Definition cache_connectTransaction (tx : MsgTx) (height : Z) : CSM unit :=
  addTxIns tx;; on_cache (addTxOuts tx height).

Fixpoint cache_connect (txs : list MsgTx) (height : Z) : CSM unit :=
  match txs with
  | [] => ret tt
  | tx :: txs' => cache_connectTransaction tx height;; cache_connect txs' height
  end.

Definition cache_connectTransactions (block : MsgBlock) (height : Z) : CSM unit :=
  cache_connect (Transactions block) height.

(** ** Writing back *)

Definition write_entry (op : OutPoint) (e : option UtxoEntry) (db : B) : outcome StoreError B :=
  match e with
  | None => dbDeleteUtxoEntry op db
  | Some entry =>
      if IsSpent entry then dbDeleteUtxoEntry op db
      else if negb (isModified entry) then Ok db
      else dbPutUtxoEntry op e db
  end.

Fixpoint write_entries (l : list (OutPoint * option UtxoEntry)) (db : B) : outcome StoreError B :=
  match l with
  | [] => Ok db
  | (op, e) :: l' => let! db := write_entry op e db in write_entries l' db
  end.

(** [order] lists the entries as Go ranges over them. *)
Definition writeCache (order : list (OutPoint * option UtxoEntry)) (bestHash : bytes) (now : Z) : CM unit :=
  c <- get;;
  db <- lift (write_entries order (utxoBucket c));;
  let ms := with_maps ((fun _ => ∅) <$> maps (cachedEntries c)) (cachedEntries c) in
  ms <- lift (deleteMaps ms);;
  put (flushed bestHash now (with_db db (Some bestHash) (with_entries ms 0 c))).

(** The threshold of a flush, if one is considered at all. *)
Definition flush_threshold (mode : FlushMode) (bestHash : bytes) (now : Z) (c : utxoCache B) : option Z :=
  match mode with
  | FlushRequired => Some 0
  | FlushIfNeeded => if bool_decide (bestHash = lastFlushHash c) then None else Some (maxTotalMemoryUsage c)
  | FlushPeriodic =>
      if now - lastFlushTime c >? utxoFlushPeriodicInterval then Some 0 else Some (maxTotalMemoryUsage c)
  end.

Definition flush (order : list (OutPoint * option UtxoEntry)) (mode : FlushMode) (bestHash : bytes) (now : Z)
  : CM unit :=
  c <- get;;
  match flush_threshold mode bestHash now c with
  | None => ret tt
  | Some threshold =>
      n <- lift (totalMemoryUsage c);;
      if n >=? threshold then writeCache order bestHash now else ret tt
  end.

(** ** Loading a view *)

(** What is fetched is cloned into the view. *)
Definition fetchUtxosFromCache (outpoints : list OutPoint) (view : UtxoViewpoint) : CM UtxoViewpoint :=
  if zlen outpoints =? 0 then ret view else
  entries <- fetchEntries outpoints;;
  ret (foldl (fun v '(op, e) => set_entry op e v) view (zip outpoints entries)).

Definition fetchUtxos (outpoints : list OutPoint) (view : UtxoViewpoint) : CM UtxoViewpoint :=
  if zlen outpoints =? 0 then ret view else
  fetchUtxosFromCache (filter (fun op => entries view !! op = None) outpoints) view.

Definition fetchInputUtxos (block : MsgBlock) (height : Z) (view : UtxoViewpoint) : CM UtxoViewpoint :=
  match findInputsToFetch block height view with
  | Ok (view, needed) => fetchUtxosFromCache needed view
  | _ => panic
  end.
End Cache.

(** * The slice of maps is one map *)

Definition flat (l : list entry_map) : entry_map := foldr union ∅ l.

(** No key is in two maps. *)
Fixpoint apart (l : list entry_map) : Prop :=
  match l with
  | [] => True
  | m :: l' => m ##ₘ flat l' /\ apart l'
  end.

Record ms_ok (ms : mapSlice) : Prop := {
  same_length : length (maps ms) = length (maxEntries ms);
  some_map : maps ms <> [];
  maps_apart : apart (maps ms);
}.

Lemma lookup_flat l op : flat l !! op = find_entry op l.
Proof.
  induction l as [| m l IH]; [apply lookup_empty |]. cbn [flat foldr find_entry]. fold (flat l).
  destruct (m !! op) as [e |] eqn:He; [now apply lookup_union_Some_l |].
  now rewrite lookup_union_r.
Qed.

Lemma overwrite_spec op e l :
  match overwrite op e l with
  | Some l' => is_Some (flat l !! op) /\ flat l' = <[op := e]> (flat l) /\ length l' = length l /\
               (apart l -> apart l')
  | None => flat l !! op = None
  end.
Proof.
  induction l as [| m l IH]; [apply lookup_empty |]. cbn [overwrite].
  destruct (m !! op) as [e0 |] eqn:He.
  - split_and!.
    + rewrite lookup_flat. cbn. rewrite He. eauto.
    + cbn [flat foldr]. now rewrite insert_union_l.
    + done.
    + intros [Hd Ha]. split; [| done]. apply map_disjoint_insert_l_2; [| done].
      now apply (map_disjoint_Some_l m (flat l) op e0).
  - destruct (overwrite op e l) as [l' |]; cbn [fmap option_fmap option_map].
    + destruct IH as (Hs & Hf & Hl & Ha). split_and!.
      * rewrite lookup_flat. cbn. now rewrite He, <- lookup_flat.
      * cbn [flat foldr]. fold (flat l'). fold (flat l). rewrite Hf. now rewrite insert_union_r.
      * cbn. now rewrite Hl.
      * intros [Hd Ha']. split; [| auto]. rewrite Hf. now apply map_disjoint_insert_r_2.
    + cbn [flat foldr]. fold (flat l). now apply lookup_union_None_2.
Qed.

Lemma fill_spec op e l : forall maxs l',
  flat l !! op = None -> fill op e maxs l = Some l' ->
  flat l' = <[op := e]> (flat l) /\ length l' = length l /\ (apart l -> apart l').
Proof.
  induction l as [| m l IH]; intros [| max maxs] l' Hn Hf; cbn [fill] in Hf; try discriminate.
  cbn [flat foldr] in *. fold (flat l) in *. apply lookup_union_None in Hn as [Hm Hl].
  destruct (_ >=? _).
  - destruct (fill op e maxs l) as [l1 |] eqn:Hfill; [| discriminate]. injection Hf as <-.
    destruct (IH maxs l1 Hl Hfill) as (Hfl & Hlen & Ha). split_and!.
    + cbn [flat foldr]. fold (flat l1). rewrite Hfl. now rewrite insert_union_r.
    + cbn. now rewrite Hlen.
    + intros [Hd Ha']. split; [| auto]. rewrite Hfl. now apply map_disjoint_insert_r_2.
  - injection Hf as <-. split_and!; [cbn [flat foldr]; now rewrite insert_union_l | done |].
    intros [Hd Ha]. split; [| done]. now apply map_disjoint_insert_l_2.
Qed.

Lemma flat_snoc l m : flat (l ++ [m]) = flat l ∪ m.
Proof.
  induction l as [| m0 l IH]; cbn [app flat foldr].
  - rewrite (right_id_L ∅ union). now rewrite (left_id_L ∅ union).
  - fold (flat (l ++ [m])). fold (flat l). now rewrite IH, (assoc_L union).
Qed.

Lemma apart_snoc l m : apart l -> flat l ##ₘ m -> apart (l ++ [m]).
Proof.
  induction l as [| m0 l IH]; cbn [app apart flat foldr]; intros Ha Hd.
  - split; [apply map_disjoint_empty_r | done].
  - destruct Ha as [Hd0 Ha]. fold (flat l) in Hd. apply map_disjoint_union_l in Hd as [Hm Hl].
    split; [| auto]. rewrite flat_snoc. now apply map_disjoint_union_r_2.
Qed.

Lemma flat_delete op l : flat ((fun m => delete op m) <$> l) = delete op (flat l).
Proof.
  induction l as [| m l IH]; [cbn; now rewrite delete_empty |]. rewrite fmap_cons. cbn [flat foldr].
  fold (flat ((fun m => delete op m) <$> l)). fold (flat l). rewrite IH. symmetry. apply delete_union.
Qed.

Lemma apart_delete op l : apart l -> apart ((fun m => delete op m) <$> l).
Proof.
  induction l as [| m l IH]; [done |]. rewrite fmap_cons. intros [Hd Ha]. split; [| auto].
  rewrite flat_delete. apply map_disjoint_delete_l. now apply map_disjoint_delete_r.
Qed.

Lemma map_to_list_apart (m1 m2 : entry_map) :
  m1 ##ₘ m2 -> map_to_list (m1 ∪ m2) ≡ₚ map_to_list m1 ++ map_to_list m2.
Proof.
  intros Hd. apply NoDup_Permutation.
  - apply NoDup_map_to_list.
  - apply NoDup_app. split_and!; [apply NoDup_map_to_list | | apply NoDup_map_to_list].
    intros [op e] H1 H2. apply elem_of_map_to_list in H1, H2.
    pose proof (map_disjoint_Some_l m1 m2 op e Hd H1). congruence.
  - intros [op e]. rewrite elem_of_app, !elem_of_map_to_list. now apply lookup_union_Some.
Qed.

Lemma flat_entries l : apart l -> concat (map_to_list <$> l) ≡ₚ map_to_list (flat l).
Proof.
  induction l as [| m l IH]; [cbn; now rewrite map_to_list_empty |]. rewrite fmap_cons. cbn [concat apart].
  intros [Hd Ha]. rewrite (IH Ha). symmetry. now apply map_to_list_apart.
Qed.

Lemma left_over_ok mem l : exists n, left_over mem l = Ok n.
Proof.
  revert mem. induction l as [| k l IH]; intros mem; cbn [left_over]; [eauto |].
  destruct (rough_size_ok k bucketSize) as [n ->]. cbn [filled obind]. apply IH.
Qed.

Lemma sum_sizes_ok total l : exists n, sum_sizes total l = Ok n.
Proof.
  revert total. induction l as [| k l IH]; intros total; cbn [sum_sizes]; [eauto |].
  destruct (rough_size_ok k bucketSize) as [n ->]. cbn [filled obind]. apply IH.
Qed.

(** [put] never fails and is an insertion, whether the key is overwritten, a
    map has room or another map is made. *)
Lemma put_entry_spec op e mem ms :
  ms_ok ms -> exists ms', put_entry_in op e mem ms = Ok ms' /\ ms_ok ms' /\
    flat (maps ms') = <[op := e]> (flat (maps ms)).
Proof.
  intros [Hl Hne Ha]. unfold put_entry_in. rewrite (proj2 (Nat.ltb_ge _ _)) by lia.
  pose proof (overwrite_spec op e (maps ms)) as Ho. destruct (overwrite op e (maps ms)) as [l |].
  { destruct Ho as (_ & Hf & Hlen & Hap). eexists. split; [reflexivity |]. split; [| exact Hf].
    constructor; cbn [maps maxEntries with_maps]; [congruence | | auto].
    intros ->. destruct (maps ms); [done | discriminate]. }
  destruct (fill op e (maxEntries ms) (maps ms)) as [l |] eqn:Hfill.
  { destruct (fill_spec op e (maps ms) _ l Ho Hfill) as (Hf & Hlen & Hap). eexists. split; [reflexivity |].
    split; [| exact Hf]. constructor; cbn [maps maxEntries with_maps]; [congruence | | auto].
    intros ->. destruct (maps ms); [done | discriminate]. }
  unfold makeNewMap. destruct (left_over_ok (uint64 (ms_maxTotalMemoryUsage ms - mem)) (maxEntries ms)) as [n ->].
  cbn [obind with_maps maps maxEntries]. rewrite removelast_last. eexists. split; [reflexivity |].
  assert (Hs : flat (maps ms) ##ₘ {[op := e]}) by now apply map_disjoint_singleton_r_2.
  split; [constructor |]; cbn [with_maps maps maxEntries].
  - rewrite !length_app, Hl. reflexivity.
  - now destruct (maps ms).
  - now apply apart_snoc.
  - rewrite flat_snoc. symmetry. now apply insert_union_singleton_r.
Qed.

Lemma in_place_spec op e ms :
  ms_ok ms -> is_Some (flat (maps ms) !! op) ->
  ms_ok (in_place op e ms) /\ flat (maps (in_place op e ms)) = <[op := Some e]> (flat (maps ms)).
Proof.
  intros [Hl Hne Ha] Hs. unfold in_place. pose proof (overwrite_spec op (Some e) (maps ms)) as Ho.
  destruct (overwrite op (Some e) (maps ms)) as [l |]; [| rewrite Ho in Hs; now destruct Hs].
  destruct Ho as (_ & Hf & Hlen & Hap). split; [| exact Hf].
  constructor; cbn [maps maxEntries with_maps]; [congruence | | auto].
  intros ->. destruct (maps ms); [done | discriminate].
Qed.

Lemma delete_entry_spec op ms :
  ms_ok ms -> ms_ok (delete_entry op ms) /\ flat (maps (delete_entry op ms)) = delete op (flat (maps ms)).
Proof.
  intros [Hl Hne Ha]. split; [| apply flat_delete]. constructor; cbn [delete_entry maps maxEntries with_maps].
  - now rewrite length_fmap.
  - intros Hnil. apply fmap_nil_inv in Hnil. done.
  - now apply apart_delete.
Qed.

(** * The set the cache stands for *)

Section Refinement.
Context `{PubKeysLaws} `{Crypto} {B : Type} `{BucketLaws B}.

Definition cache_map (c : utxoCache B) : entry_map := flat (maps (cachedEntries c)).

Definition as_view (c : utxoCache B) : UtxoViewpoint := mkView (cache_map c) (lastFlushHash c).

(** The unspent outputs according to the cache over the set in the database. *)
Definition ledger (c : utxoCache B) (S : coins) : coins := effective (as_view c) S.

(** What an entry of the cache says of the database: a nil entry that it has no
    coin, an unmodified one that it has this coin, a fresh one that it has none
    there. *)
Definition cached_ok (S : coins) (op : OutPoint) (e : option UtxoEntry) : Prop :=
  outpoint_ok op /\
  match e with
  | None => S !! op = None
  | Some e =>
      coin_ok (stxo_of e) /\
      (if isModified e then isFresh e = true -> S !! op = None /\ IsSpent e = false
       else IsSpent e = false /\ isFresh e = false /\ S !! op = Some (stxo_of e))
  end.

Record cache_ok (c : utxoCache B) (S : coins) : Prop := {
  db_holds : holds (utxoBucket c) S;
  db_maps : ms_ok (cachedEntries c);
  db_entries_ok : map_Forall (cached_ok S) (cache_map c);
}.

(** The same cache with another map of entries. *)
Record same_db (c c' : utxoCache B) : Prop := {
  same_bucket : utxoBucket c' = utxoBucket c;
  same_status : consistency c' = consistency c;
  same_budget : maxTotalMemoryUsage c' = maxTotalMemoryUsage c;
  same_flush : lastFlushHash c' = lastFlushHash c;
}.

Lemma same_db_refl c : same_db c c.
Proof. now constructor. Qed.

Lemma same_db_trans c1 c2 c3 : same_db c1 c2 -> same_db c2 c3 -> same_db c1 c3.
Proof. intros [] []. constructor; congruence. Qed.

Lemma lookup_ledger c S op :
  ledger c S !! op =
  match cache_map c !! op with
  | Some (Some e) => if IsSpent e then None else Some (stxo_of e)
  | _ => S !! op
  end.
Proof.
  unfold ledger. rewrite lookup_effective. unfold LookupEntry. cbn [as_view entries].
  destruct (cache_map c !! op) as [[e |] |]; reflexivity.
Qed.

(** The effect of binding an outpoint in the cache. *)
Lemma ledger_bind c c' S op e :
  cache_map c' = <[op := Some e]> (cache_map c) ->
  ledger c' S = if IsSpent e then delete op (ledger c S) else <[op := stxo_of e]> (ledger c S).
Proof.
  intros Hm. apply map_eq. intros op'. rewrite lookup_ledger, Hm.
  destruct (decide (op = op')) as [<- | Hne].
  - rewrite lookup_insert_eq. destruct (IsSpent e); [now rewrite lookup_delete_eq | now rewrite lookup_insert_eq].
  - rewrite lookup_insert_ne, <- lookup_ledger by done.
    destruct (IsSpent e); [now rewrite lookup_delete_ne | now rewrite lookup_insert_ne].
Qed.

Lemma bind_ok c c' S op e :
  cache_ok c S -> same_db c c' -> ms_ok (cachedEntries c') -> cache_map c' = <[op := e]> (cache_map c) ->
  cached_ok S op e -> cache_ok c' S.
Proof.
  intros [Hd _ He] [Hb _ _ _] Hms Hm Hok. constructor; [now rewrite Hb | done |].
  rewrite Hm. now apply map_Forall_insert_2.
Qed.

Lemma put_cached_spec c op e :
  ms_ok (cachedEntries c) ->
  exists c', put_cached op e c = (Ok tt, c') /\ same_db c c' /\ ms_ok (cachedEntries c') /\
    cache_map c' = <[op := e]> (cache_map c).
Proof.
  intros Hms. destruct (put_entry_spec op e (totalEntryMemory c) _ Hms) as (ms' & Hput & Hms' & Hf).
  eexists. split; [unfold put_cached; rewrite bind_eq; cbn [get]; rewrite bind_eq; unfold lift;
    rewrite Hput; reflexivity |]. split; [now constructor | done].
Qed.

(** ** Fetching one outpoint *)

(** The entry that is handed out is the one that the cache then has. *)
Lemma fetch_one c S op :
  cache_ok c S -> outpoint_ok op ->
  exists c' e, fetchEntries [op] c = (Ok [e], c') /\ same_db c c' /\ cache_ok c' S /\
    ledger c' S = ledger c S /\ cache_map c' !! op = Some e.
Proof.
  intros Hc Hop. unfold fetchEntries. rewrite bind_eq. cbn [get]. unfold missing.
  destruct (get_entry (cachedEntries c) op) as [e |] eqn:Hg.
  - rewrite filter_cons_False by (rewrite Hg; discriminate). cbn [filter list_filter db_entries].
    exists c, e. split; [| split_and!; try done; try apply same_db_refl; unfold cache_map; now rewrite lookup_flat].
    rewrite bind_eq. cbn [lift]. rewrite bind_eq. cbn [put_all ret fill_in]. now rewrite Hg.
  - rewrite filter_cons_True by done. cbn [filter list_filter db_entries].
    rewrite (fetch_holds _ S) by (apply Hc || done). cbn [obind].
    destruct (put_cached_spec c op (entry_of <$> S !! op) (db_maps c S Hc)) as (c' & Hput & Hsame & Hms & Hm).
    assert (Hn : cache_map c !! op = None) by (unfold cache_map; rewrite lookup_flat; exact Hg).
    exists c', (entry_of <$> S !! op). split_and!; [| done | | |].
    + rewrite bind_eq. cbn [lift]. rewrite bind_eq. cbn [put_all]. rewrite bind_eq, Hput. cbn [ret fill_in].
      now rewrite Hg.
    + eapply bind_ok; eauto. split; [done |]. destruct (S !! op) as [coin |] eqn:HS; cbn [fmap option_fmap option_map]; [| done].
      rewrite isModified_entry_of, IsSpent_entry_of, isFresh_entry_of, stxo_of_entry_of.
      split_and!; try done. apply (in_range _ _ (db_holds c S Hc) op coin HS).
    + destruct (S !! op) as [coin |] eqn:HS; cbn [fmap option_fmap option_map] in Hm.
      * rewrite (ledger_bind c c' S op (entry_of coin) Hm), IsSpent_entry_of, stxo_of_entry_of.
        apply insert_id. now rewrite lookup_ledger, Hn.
      * apply map_eq. intros op'. rewrite !lookup_ledger, Hm.
        destruct (decide (op = op')) as [<- | Hne]; [now rewrite lookup_insert_eq, Hn | now rewrite lookup_insert_ne].
    + rewrite Hm. apply lookup_insert_eq.
Qed.

(** ** Spending *)

Lemma Spend_bits e k : k <> 1 -> k <> 2 -> 0 <= k -> Z.testbit (packedFlags (Spend e)) k = Z.testbit (packedFlags e) k.
Proof.
  intros Hk1 Hk2 Hk. unfold Spend. destruct (IsSpent e); [done |]. cbn [set_packedFlags packedFlags].
  rewrite Z.lor_spec. change (Z.lor tfSpent tfModified) with 6.
  replace (Z.testbit 6 k) with false; [apply orb_false_r |].
  destruct (Z.eq_dec k 0) as [-> | Hk0]; [done |]. symmetry. apply Z.bits_above_log2; [lia |]. change (Z.log2 6) with 2. lia.
Qed.

Lemma isFresh_Spend e : isFresh (Spend e) = isFresh e.
Proof. rewrite !isFresh_bit. now apply Spend_bits. Qed.

Lemma stxo_of_Spend e : stxo_of (Spend e) = stxo_of e.
Proof.
  unfold stxo_of. rewrite !IsCoinBase_bit, Spend_bits by lia. unfold Spend. now destruct (IsSpent e).
Qed.

Lemma isModified_Spend e : IsSpent e = false -> isModified (Spend e) = true.
Proof.
  intros Hs. rewrite isModified_bit. unfold Spend. rewrite Hs. cbn [set_packedFlags packedFlags].
  rewrite Z.lor_spec. apply orb_true_r.
Qed.

Lemma on_cache_run {A} (m : M (utxoCache B) StoreError A) c sx o c' :
  m c = (o, c') -> on_cache m (c, sx) = (o, (c', sx)).
Proof. intros Hm. unfold on_cache, zoom. cbn [fst snd]. now rewrite Hm. Qed.

Lemma addTxIn_spec c S sx ti coin :
  cache_ok c S -> ledger c S !! PreviousOutPoint ti = Some coin ->
  exists c', addTxIn ti (c, sx) = (Ok tt, (c', record_stxo coin sx)) /\ same_db c c' /\ cache_ok c' S /\
    ledger c' S = delete (PreviousOutPoint ti) (ledger c S).
Proof.
  intros Hc Hcoin. set (op := PreviousOutPoint ti) in *.
  assert (Hop : outpoint_ok op).
  { rewrite lookup_ledger in Hcoin. destruct (cache_map c !! op) as [e |] eqn:He.
    - now destruct (db_entries_ok c S Hc op e He).
    - now destruct (in_range _ _ (db_holds c S Hc) op coin Hcoin). }
  destruct (fetch_one c S op Hc Hop) as (c1 & e & Hf & Hs1 & Hc1 & Hl1 & Hm1). rewrite <- Hl1 in *.
  rewrite lookup_ledger, Hm1 in Hcoin. destruct (db_entries_ok c1 S Hc1 op e Hm1) as [_ Hok].
  destruct e as [e |]; [| congruence]. destruct (IsSpent e) eqn:Hsp; [discriminate |]. injection Hcoin as <-.
  destruct (in_place_spec op (Spend e) (cachedEntries c1) (db_maps c1 S Hc1)) as [Hms2 Hflat];
    [unfold cache_map in Hm1; rewrite Hm1; eauto |].
  set (ms2 := in_place op (Spend e) (cachedEntries c1)) in *.
  set (c2 := with_entries ms2 (uint64 (totalEntryMemory c1 - memoryUsage None)) c1).
  set (c3 := with_entries (delete_entry op ms2) (uint64 (totalEntryMemory c1 - memoryUsage (Some (Spend e)))) c1).
  exists (if isFresh e then c3 else c2). split.
  - unfold addTxIn. fold op. rewrite bind_eq, (on_cache_run _ _ _ _ _ Hf), bind_eq. cbn [modify fst snd].
    apply on_cache_run. rewrite bind_eq. cbn [get]. fold ms2. rewrite isFresh_Spend. now destruct (isFresh e).
  - split; [apply (same_db_trans c c1); [done | destruct (isFresh e); now constructor] |].
    destruct (isFresh e) eqn:Hfr.
    + destruct (delete_entry_spec op ms2 Hms2) as [Hms3 Hd3].
      assert (Hm3 : cache_map c3 = delete op (cache_map c1)).
      { unfold cache_map. cbn [c3 with_entries cachedEntries]. rewrite Hd3, Hflat. apply delete_insert_eq. }
      assert (HS : S !! op = None).
      { destruct Hok as [_ Hok]. destruct (isModified e); [now apply Hok | destruct Hok as (_ & ? & _); congruence]. }
      split; [constructor; [apply Hc1 | exact Hms3 | rewrite Hm3; apply map_Forall_delete, Hc1] |].
      apply map_eq. intros op'. rewrite lookup_ledger, Hm3. destruct (decide (op = op')) as [<- | Hne].
      * now rewrite !lookup_delete_eq.
      * now rewrite !lookup_delete_ne, lookup_ledger by done.
    + split; [| rewrite (ledger_bind c1 c2 S op (Spend e)), Spend_spent; done].
      eapply (bind_ok c1 c2); eauto; [now constructor |]. split; [done |].
      rewrite stxo_of_Spend, isFresh_Spend, isModified_Spend, Hfr by done. split; [apply Hok | discriminate].
Qed.

Lemma add_ins_spec S ins : forall c sx l,
  cache_ok c S -> NoDup (PreviousOutPoint <$> ins) -> lookups (ledger c S) (PreviousOutPoint <$> ins) = Some l ->
  exists c', add_ins ins (c, sx) = (Ok tt, (c', option_map (fun k => k ++ l) sx)) /\ same_db c c' /\ cache_ok c' S /\
    ledger c' S = del_coins (PreviousOutPoint <$> ins) (ledger c S).
Proof.
  induction ins as [| ti ins IH]; intros c sx l Hc Hd Hl.
  { injection Hl as <-. exists c. split_and!; [| apply same_db_refl | done | done]. cbn. unfold ret.
    destruct sx as [k |]; cbn [option_map]; [now rewrite app_nil_r | done]. }
  rewrite fmap_cons in *. apply NoDup_cons in Hd as [Hnin Hd].
  destruct (lookups_cons _ _ _ _ Hl) as (coin & l' & -> & Hcoin & Hl').
  destruct (addTxIn_spec c S sx ti coin Hc Hcoin) as (c1 & Hrun & Hs1 & Hc1 & Hled).
  destruct (IH c1 (record_stxo coin sx) l' Hc1 Hd) as (c2 & Hrun2 & Hs2 & Hc2 & Hled2).
  { now rewrite Hled, lookups_delete. }
  exists c2. split_and!; [| eapply same_db_trans; eauto | done | now rewrite Hled2, Hled].
  cbn [add_ins]. rewrite bind_eq, Hrun, Hrun2.
  destruct sx; cbn [record_stxo option_map]; [now rewrite <- app_assoc | done].
Qed.

(** ** Adding outputs *)

Lemma new_entry_flags cb :
  let flags := if cb : bool then Z.lor (Z.lor tfFresh tfModified) tfCoinBase else Z.lor tfFresh tfModified in
  forall a s h, let e := mkEntry a s h flags in
    IsSpent e = false /\ isModified e = true /\ isFresh e = true /\ stxo_of e = mkSpent a s h cb.
Proof. intros flags a s h. now destruct cb. Qed.

(** A coin that may be added: in range, and not in the database. *)
Definition addable (S : coins) (p : OutPoint * SpentTxOut) : Prop :=
  outpoint_ok (fst p) /\ coin_ok (snd p) /\ S !! fst p = None.

Lemma add_outs_spec S cb h l : forall c,
  cache_ok c S -> Forall (addable S) (omap (coin_of cb h) l) ->
  exists c', add_outs cb h l c = (Ok tt, c') /\ same_db c c' /\ cache_ok c' S /\
    ledger c' S = add_coins (omap (coin_of cb h) l) (ledger c S).
Proof.
  induction l as [| [op o] l IH]; intros c Hc Hl; [exists c; auto using same_db_refl |].
  cbn [add_outs omap list_omap] in *. unfold cache_addTxOut. unfold coin_of in Hl at 1. unfold coin_of at 1.
  cbn [fst snd] in *. destruct (unspendable (PkScript o)).
  { rewrite bind_eq. cbn [ret]. apply IH; done. }
  apply Forall_cons in Hl as [(Hop & Hcoin & HS) Hl]. cbn [fst snd] in *.
  destruct (new_entry_flags cb (Value o) (PkScript o) h) as (Hsp & Hmod & Hfr & Hst).
  set (e := mkEntry (Value o) (PkScript o) h _) in *.
  destruct (put_cached_spec c op (Some e) (db_maps c S Hc)) as (c1 & Hput & Hs1 & Hms1 & Hm1).
  assert (Hc1 : cache_ok c1 S).
  { eapply bind_ok; eauto. split; [done |]. rewrite Hst, Hmod. split; [done |]. intros _. now rewrite Hsp. }
  destruct (IH c1 Hc1 Hl) as (c2 & Hrun2 & Hs2 & Hc2 & Hled2).
  exists c2. rewrite bind_eq, Hput. split_and!; [done | eapply same_db_trans; eauto | done |].
  rewrite Hled2, add_coins_cons. cbn [fst snd]. now rewrite (ledger_bind c c1 S op e Hm1), Hsp, Hst.
Qed.

(** ** Blocks *)

Lemma cache_tx_spec S tx h c sx S' l :
  cache_ok c S -> Forall (addable S) (made tx h) -> apply_tx h tx (ledger c S) = Some (S', l) ->
  exists c', cache_connectTransaction tx h (c, sx) = (Ok tt, (c', option_map (fun k => k ++ l) sx)) /\
    same_db c c' /\ cache_ok c' S /\ ledger c' S = S'.
Proof.
  intros Hc Hm. unfold apply_tx, cache_connectTransaction, addTxIns. destruct (IsCoinBaseTx tx) eqn:Hcb.
  - intros [= <- <-]. destruct (add_outs_spec S _ h (tx_outputs tx) c Hc Hm) as (c1 & Hrun & Hs & Hc1 & Hl).
    exists c1. split_and!; try done. rewrite bind_eq. cbn [ret].
    erewrite on_cache_run by exact Hrun. destruct sx; cbn [option_map]; [now rewrite app_nil_r | done].
  - destruct (decide (NoDup (inputs tx))) as [Hd |]; [| discriminate].
    destruct (lookups (ledger c S) (inputs tx)) as [spent |] eqn:Hl; [| discriminate]. intros [= <- <-].
    destruct (add_ins_spec S (TxIns tx) c sx spent Hc Hd Hl) as (c1 & Hrun1 & Hs1 & Hc1 & Hl1).
    destruct (add_outs_spec S _ h (tx_outputs tx) c1 Hc1 Hm) as (c2 & Hrun2 & Hs2 & Hc2 & Hl2).
    exists c2. split_and!; [| eapply same_db_trans; eauto | done | now rewrite Hl2, Hl1].
    rewrite bind_eq, Hrun1. now apply on_cache_run.
Qed.

Lemma cache_connect_spec S h txs : forall c sx S' l,
  cache_ok c S -> Forall (fun tx => Forall (addable S) (made tx h)) txs ->
  apply_txs h txs (ledger c S) = Some (S', l) ->
  exists c', cache_connect txs h (c, sx) = (Ok tt, (c', option_map (fun k => k ++ l) sx)) /\
    same_db c c' /\ cache_ok c' S /\ ledger c' S = S'.
Proof.
  induction txs as [| tx txs IH]; intros c sx S' l Hc Hm Ha; cbn [apply_txs] in Ha.
  { injection Ha as <- <-. exists c. split_and!; [| apply same_db_refl | done | done]. cbn. unfold ret.
    destruct sx; cbn [option_map]; [now rewrite app_nil_r | done]. }
  apply Forall_cons in Hm as [Hm Hms].
  destruct (apply_tx h tx (ledger c S)) as [[S1 l1] |] eqn:H1t; [| discriminate]. cbn in Ha.
  destruct (apply_txs h txs S1) as [[S2 l2] |] eqn:H2t; [| discriminate]. injection Ha as <- <-.
  destruct (cache_tx_spec S tx h c sx S1 l1 Hc Hm H1t) as (c1 & Hrun1 & Hs1 & Hc1 & Hl1). rewrite <- Hl1 in H2t.
  destruct (IH c1 (option_map (fun k => k ++ l1) sx) S2 l2 Hc1 Hms H2t) as (c2 & Hrun2 & Hs2 & Hc2 & Hl2).
  exists c2. split_and!; [| eapply same_db_trans; eauto | done | done]. cbn [cache_connect].
  rewrite bind_eq, Hrun1, Hrun2. destruct sx; cbn [option_map]; [now rewrite app_assoc | done].
Qed.

(** ** Writing back *)

(** The order in which Go ranges over the entries. *)
Definition an_order (order : list (OutPoint * option UtxoEntry)) (c : utxoCache B) : Prop :=
  order ≡ₚ concat (map_to_list <$> maps (cachedEntries c)).

Lemma order_entries order c : ms_ok (cachedEntries c) -> an_order order c -> order ≡ₚ map_to_list (cache_map c).
Proof. intros Hms ->. apply flat_entries, Hms. Qed.

(** Writing an entry that says the truth is putting its modification. *)
Definition write_coin (S : coins) (p : OutPoint * option UtxoEntry) : coins :=
  match snd p with
  | None => delete (fst p) S
  | Some e => if IsSpent e then delete (fst p) S else <[fst p := stxo_of e]> S
  end.

Lemma write_entry_spec S0 S b op e :
  holds b S -> cached_ok S0 op e -> S !! op = S0 !! op ->
  exists b', write_entry op e b = Ok b' /\ holds b' (write_coin S (op, e)).
Proof.
  intros Hb [Hop He] HS. unfold write_entry, write_coin. cbn [fst snd]. destruct e as [e |].
  - destruct (IsSpent e) eqn:Hsp; [now apply delete_holds |].
    destruct (isModified e) eqn:Hm; cbn [negb]; [apply put_holds; tauto |].
    exists b. split; [done |]. rewrite insert_id; [done |]. rewrite HS. tauto.
  - now apply delete_holds.
Qed.

Lemma write_coin_ne S p op : op <> fst p -> write_coin S p !! op = S !! op.
Proof.
  intros Hne. unfold write_coin. destruct (snd p) as [e |]; [destruct (IsSpent e) |];
    rewrite ?lookup_delete_ne, ?lookup_insert_ne; congruence.
Qed.

Lemma write_entries_spec S0 l : forall b S,
  holds b S -> NoDup l.*1 -> Forall (fun p => cached_ok S0 (fst p) (snd p)) l ->
  (forall op, op ∈ l.*1 -> S !! op = S0 !! op) ->
  exists b', write_entries l b = Ok b' /\ holds b' (foldl write_coin S l).
Proof.
  induction l as [| [op e] l IH]; intros b S Hb Hd Hl HS; [now exists b |].
  rewrite fmap_cons in *. apply NoDup_cons in Hd as [Hnin Hd]. apply Forall_cons in Hl as [He Hl]. cbn [fst snd] in *.
  destruct (write_entry_spec S0 S b op e Hb He) as (b1 & Hw & Hb1); [apply HS; constructor |].
  cbn [write_entries foldl]. rewrite Hw. cbn [obind]. apply IH; try done.
  intros op' Hin. rewrite write_coin_ne by (cbn; intros ->; done). apply HS. now constructor.
Qed.

Lemma write_coins_lookup l : forall S op,
  NoDup l.*1 ->
  foldl write_coin S l !! op =
    match list_find (fun p => fst p = op) l with
    | Some (_, p) => write_coin S p !! op
    | None => S !! op
    end.
Proof.
  induction l as [| p l IH]; intros S op Hd; [done |]. rewrite fmap_cons in Hd.
  apply NoDup_cons in Hd as [Hnin Hd]. cbn [foldl list_find]. rewrite IH by done.
  destruct (decide (fst p = op)) as [<- | Hne].
  - destruct (list_find (fun q => fst q = fst p) l) as [[i q] |] eqn:Hf; [| done].
    apply list_find_Some in Hf as (Hq & Heq & _). destruct Hnin. rewrite <- Heq.
    apply list_elem_of_fmap. exists q. split; [done |]. eapply list_elem_of_lookup_2; eauto.
  - destruct (list_find (fun q => fst q = op) l) as [[i q] |] eqn:Hf; cbn [fmap option_fmap option_map prod_map].
    + apply list_find_Some in Hf as (_ & Heq & _). cbn [id fst snd]. unfold write_coin at 1 3. rewrite Heq.
      destruct (snd q) as [e |]; [destruct (IsSpent e) |]; rewrite ?lookup_delete_eq, ?lookup_insert_eq; done.
    + now apply write_coin_ne.
Qed.

Lemma write_coins_ledger l c S :
  cache_ok c S -> l ≡ₚ map_to_list (cache_map c) -> foldl write_coin S l = ledger c S.
Proof.
  intros Hc Hl. assert (Hd : NoDup l.*1) by (rewrite Hl; apply NoDup_fst_map_to_list).
  apply map_eq. intros op. rewrite write_coins_lookup, lookup_ledger by done.
  destruct (list_find (fun p => fst p = op) l) as [[i [op' e]] |] eqn:Hf.
  - apply list_find_Some in Hf as (Hp & Heq & _). cbn [fst] in Heq. subst op'.
    assert (Hin : cache_map c !! op = Some e).
    { apply elem_of_map_to_list. rewrite <- Hl. eapply list_elem_of_lookup_2; eauto. }
    rewrite Hin. unfold write_coin. cbn [fst snd]. destruct e as [e |].
    + destruct (IsSpent e); [apply lookup_delete_eq | apply lookup_insert_eq].
    + rewrite lookup_delete_eq. symmetry. apply (db_entries_ok c S Hc op None Hin).
  - apply list_find_None in Hf. destruct (cache_map c !! op) as [e |] eqn:He; [| done].
    exfalso. apply elem_of_map_to_list in He. rewrite <- Hl in He.
    rewrite Forall_forall in Hf. now apply (Hf _ He).
Qed.

Lemma flat_empties (l : list entry_map) : flat ((fun _ => ∅) <$> l) = ∅.
Proof. induction l as [| m l IH]; [done |]. rewrite fmap_cons. cbn [flat foldr]. unfold flat in IH. rewrite IH. apply (left_id_L ∅ union). Qed.

Lemma writeCache_spec c S order hash now :
  cache_ok c S -> an_order order c ->
  exists c', writeCache order hash now c = (Ok tt, c') /\ cache_ok c' (ledger c S) /\ cache_map c' = ∅ /\
    consistency c' = Some hash /\ lastFlushHash c' = hash /\ totalEntryMemory c' = 0.
Proof.
  intros Hc Ho. pose proof (order_entries order c (db_maps c S Hc) Ho) as Hl.
  destruct (write_entries_spec S order (utxoBucket c) S (db_holds c S Hc)) as (b & Hw & Hb).
  - rewrite Hl. apply NoDup_fst_map_to_list.
  - rewrite Hl. apply Forall_forall. intros [op e] Hin%elem_of_map_to_list. apply (db_entries_ok c S Hc op e Hin).
  - done.
  - rewrite (write_coins_ledger order c S Hc Hl) in Hb. destruct (db_maps c S Hc) as [Hlen Hne _].
    destruct (maps (cachedEntries c)) as [| m ms] eqn:Hm; [done |].
    destruct (maxEntries (cachedEntries c)) as [| mx mxs] eqn:Hmx; [discriminate |].
    eexists. split; [unfold writeCache; rewrite bind_eq; cbn [get]; rewrite bind_eq; unfold lift; rewrite Hw, bind_eq;
      unfold deleteMaps, lift; cbn [with_maps maxEntries]; rewrite Hmx; reflexivity |].
    unfold cache_map. cbn [with_db with_entries flushed cachedEntries with_maps maps utxoBucket consistency
      lastFlushHash totalEntryMemory]. rewrite Hm, fmap_cons. cbn [take]. rewrite take_0.
    assert (He : flat [∅ : entry_map] = ∅) by apply (left_id_L ∅ union).
    split_and!; [| done ..]. constructor; [exact Hb | | unfold cache_map; change (flat _) with (∅ ∪ ∅ : entry_map);
      rewrite (left_id_L ∅ union); apply map_Forall_empty].
    constructor; cbn; [done | done |]. split; [apply map_disjoint_empty_l | done].
Qed.

Lemma flush_spec c S order mode hash now :
  cache_ok c S -> an_order order c ->
  exists c', flush order mode hash now c = (Ok tt, c') /\
    ((c' = c) \/ (cache_ok c' (ledger c S) /\ cache_map c' = ∅ /\ consistency c' = Some hash)).
Proof.
  intros Hc Ho. unfold flush. destruct (flush_threshold mode hash now c) as [t |] eqn:Ht.
  - destruct (sum_sizes_ok 0 (maxEntries (cachedEntries c))) as [n Hn].
    destruct (uint64 (uint64 n + totalEntryMemory c) >=? t) eqn:Hge.
    + destruct (writeCache_spec c S order hash now Hc Ho) as (c' & Hw & Hc' & Hm & Hst & _).
      exists c'. split; [| right; auto]. rewrite bind_eq. cbn [get]. rewrite Ht, bind_eq.
      unfold lift, totalMemoryUsage, size_. rewrite Hn. cbn [obind]. now rewrite Hge.
    + exists c. split; [| now left]. rewrite bind_eq. cbn [get]. rewrite Ht, bind_eq.
      unfold lift, totalMemoryUsage, size_. rewrite Hn. cbn [obind]. now rewrite Hge.
  - exists c. split; [| now left]. rewrite bind_eq. cbn [get]. now rewrite Ht.
Qed.

(** When a flush has to write: always when it is required; when it may be needed, if
    the last one was for another block and the cache is full; periodically, if
    the last one is long ago or the cache is full. *)
Definition cache_full (c : utxoCache B) : Prop :=
  match totalMemoryUsage c with Ok n => maxTotalMemoryUsage c <= n | _ => False end.

Definition flush_due (mode : FlushMode) (hash : bytes) (now : Z) (c : utxoCache B) : Prop :=
  match mode with
  | FlushRequired => True
  | FlushIfNeeded => hash <> lastFlushHash c /\ cache_full c
  | FlushPeriodic => lastFlushTime c + utxoFlushPeriodicInterval < now \/ cache_full c
  end.

(** A cache that has been written: the database has the coins. *)
Record written (c : utxoCache B) (S : coins) (hash : bytes) (now : Z) : Prop := {
  written_coins : holds (utxoBucket c) S;
  written_empty : cache_map c = ∅;
  written_ok : cache_ok c S;
  written_status : consistency c = Some hash;
  written_last : lastFlushHash c = hash /\ lastFlushTime c = now;
}.

Lemma writeCache_time order hash now c c' : writeCache order hash now c = (Ok tt, c') -> lastFlushTime c' = now.
Proof.
  unfold writeCache. rewrite bind_eq. cbn [get]. rewrite bind_eq. unfold lift at 1.
  destruct (write_entries _ _) as [db | |]; try discriminate. cbv zeta. rewrite bind_eq. unfold lift at 1.
  destruct (deleteMaps _) as [ms | |]; try discriminate. now intros [= <-].
Qed.

Lemma flush_written c S order mode hash now :
  cache_ok c S -> an_order order c ->
  exists c', flush order mode hash now c = (Ok tt, c') /\
    (flush_due mode hash now c -> written c' (ledger c S) hash now) /\ (~ flush_due mode hash now c -> c' = c).
Proof.
  intros Hc Ho. destruct (sum_sizes_ok 0 (maxEntries (cachedEntries c))) as [n Hn].
  assert (Hmem : totalMemoryUsage c = Ok (uint64 (uint64 n + totalEntryMemory c))) by (unfold totalMemoryUsage, size_; now rewrite Hn).
  pose proof (wrapU_range 64 (uint64 n + totalEntryMemory c) ltac:(lia)) as Hr. revert Hmem Hr.
  generalize (uint64 (uint64 n + totalEntryMemory c)). intros m Hmem [Hr _].
  destruct (writeCache_spec c S order hash now Hc Ho) as (c' & Hw & Hc' & Hm & Hst & Hlast & _).
  assert (Hwr : written c' (ledger c S) hash now).
  { constructor; try done; [exact (db_holds _ _ Hc') | split; [done | exact (writeCache_time _ _ _ _ _ Hw)]]. }
  unfold flush. rewrite bind_eq. cbn [get]. unfold flush_threshold, flush_due, cache_full. rewrite Hmem. destruct mode.
  - rewrite bind_eq. cbn [lift]. rewrite (proj2 (Z.geb_le m 0) Hr). exists c'. split_and!; [exact Hw | done | done].
  - destruct (Z.gtb_spec (now - lastFlushTime c) utxoFlushPeriodicInterval); rewrite bind_eq; cbn [lift].
    + rewrite (proj2 (Z.geb_le m 0) Hr). exists c'. split_and!; [exact Hw | done |]. intros Hd. destruct Hd. left. lia.
    + destruct (Z.geb_spec m (maxTotalMemoryUsage c)); [exists c' | exists c]; (split; [done |]); split; intros Hd; try done; [destruct Hd; now right | destruct Hd; lia].
  - case_bool_decide as Hb; [exists c; split_and!; [done | now intros [] | done] |]. rewrite bind_eq. cbn [lift].
    destruct (Z.geb_spec m (maxTotalMemoryUsage c)); [exists c' | exists c]; (split; [done |]); split; intros Hd; try done; [now destruct Hd | destruct Hd; lia].
Qed.

Lemma ledger_empty c S : cache_map c = ∅ -> ledger c S = S.
Proof. intros Hm. apply map_eq. intros op. now rewrite lookup_ledger, Hm, lookup_empty. Qed.

(** ** Fetching many outpoints *)

(** The coin that an entry says is unspent. *)
Definition entry_says (e : option UtxoEntry) : option SpentTxOut :=
  match e with Some e => if IsSpent e then None else Some (stxo_of e) | None => None end.

Definition from_db (S : coins) (op : OutPoint) : OutPoint * option UtxoEntry := (op, entry_of <$> S !! op).

Lemma entry_says_db (S : coins) op : entry_says (entry_of <$> S !! op) = S !! op.
Proof.
  destruct (S !! op) as [c |]; [| done]. cbn. rewrite IsSpent_entry_of. f_equal. apply stxo_of_entry_of.
Qed.

Lemma cached_from_db b S op : holds b S -> outpoint_ok op -> cached_ok S op (entry_of <$> S !! op).
Proof.
  intros Hb Hop. split; [done |]. destruct (S !! op) as [c |] eqn:Hc; [| done]. cbn [fmap option_fmap option_map].
  rewrite stxo_of_entry_of, isModified_entry_of, IsSpent_entry_of, isFresh_entry_of.
  split; [apply (in_range _ _ Hb op c Hc) | done].
Qed.

Lemma db_entries_spec b S ops :
  holds b S -> Forall outpoint_ok ops -> db_entries b ops = Ok (from_db S <$> ops).
Proof.
  intros Hb Hops. induction Hops as [| op ops Hop Hops IH]; [done |]. cbn [db_entries].
  rewrite (fetch_holds b S) by done. cbn [obind]. now rewrite IH.
Qed.

Lemma put_all_spec S ops : forall c,
  cache_ok c S -> Forall outpoint_ok ops -> Forall (fun op => ledger c S !! op = S !! op) ops ->
  exists c', put_all (from_db S <$> ops) c = (Ok tt, c') /\ same_db c c' /\ cache_ok c' S /\ ledger c' S = ledger c S.
Proof.
  induction ops as [| op ops IH]; intros c Hc Hops Hl; [exists c; auto using same_db_refl |].
  apply Forall_cons in Hops as [Hop Hops]. apply Forall_cons in Hl as [Hl Hls].
  destruct (put_cached_spec c op (entry_of <$> S !! op) (db_maps c S Hc)) as (c1 & Hput & Hs1 & Hms1 & Hm1).
  assert (Hc1 : cache_ok c1 S) by (eapply bind_ok; eauto using cached_from_db, db_holds).
  assert (Hl1 : ledger c1 S = ledger c S).
  { apply map_eq. intros op'. rewrite lookup_ledger, Hm1. destruct (decide (op = op')) as [<- | Hne].
    - rewrite lookup_insert_eq, Hl. destruct (S !! op) as [coin |] eqn:HS; [| done].
      cbn [fmap option_fmap option_map]. now rewrite IsSpent_entry_of, stxo_of_entry_of.
    - now rewrite lookup_insert_ne, <- lookup_ledger. }
  destruct (IH c1 Hc1 Hops) as (c2 & Hrun2 & Hs2 & Hc2 & Hl2); [now rewrite Hl1 |].
  exists c2. rewrite fmap_cons. cbn [put_all from_db]. rewrite bind_eq, Hput.
  split_and!; [done | eapply same_db_trans; eauto | done | congruence].
Qed.

Lemma fill_in_spec c S ops :
  cache_ok c S ->
  Forall2 (fun op e => entry_says e = ledger c S !! op) ops
    (fill_in (cachedEntries c) ops (from_db S <$> missing (cachedEntries c) ops)).
Proof.
  intros Hc. assert (Hget : forall op, get_entry (cachedEntries c) op = cache_map c !! op)
    by (intros; symmetry; apply lookup_flat).
  unfold missing. induction ops as [| op ops IH]; [constructor |].
  rewrite filter_cons. cbn [fill_in]. rewrite Hget.
  destruct (cache_map c !! op) as [e |] eqn:He.
  - rewrite decide_False by done. constructor; [| exact IH]. rewrite lookup_ledger, He.
    destruct e as [e |]; [done |]. symmetry. apply (db_entries_ok c S Hc op None He).
  - rewrite decide_True by done. rewrite fmap_cons. constructor; [| exact IH].
    rewrite lookup_ledger, He. apply entry_says_db.
Qed.

(** Fetching returns what the cache stands for and changes nothing of it. *)
Lemma fetchEntries_spec c S ops :
  cache_ok c S -> Forall outpoint_ok ops ->
  exists c' es, fetchEntries ops c = (Ok es, c') /\ same_db c c' /\ cache_ok c' S /\ ledger c' S = ledger c S /\
    Forall2 (fun op e => entry_says e = ledger c S !! op) ops es.
Proof.
  intros Hc Hops. unfold fetchEntries. rewrite bind_eq. cbn [get].
  assert (Hmiss : Forall outpoint_ok (missing (cachedEntries c) ops)) 
    by (apply Forall_forall; intros op [_ Hin]%list_elem_of_filter; rewrite Forall_forall in Hops; auto).
  rewrite (db_entries_spec _ S) by (apply Hc || done).
  destruct (put_all_spec S (missing (cachedEntries c) ops) c Hc Hmiss) as (c' & Hput & Hs & Hc' & Hl).
  { apply Forall_forall. intros op Hop. apply list_elem_of_filter in Hop as [Hg _].
    rewrite lookup_ledger. unfold cache_map. rewrite lookup_flat. unfold get_entry in Hg. now rewrite Hg. }
  exists c', (fill_in (cachedEntries c) ops (from_db S <$> missing (cachedEntries c) ops)).
  split_and!; try done; [| now apply fill_in_spec].
  rewrite bind_eq. cbn [lift]. now rewrite bind_eq, Hput.
Qed.

(** ** Loading a view from the cache *)

Lemma effective_set_any op e v L :
  entry_says e = L !! op -> effective v L !! op = L !! op -> effective (set_entry op e v) L = effective v L.
Proof.
  intros He Hv. apply map_eq. intros op'. rewrite lookup_effective. unfold LookupEntry, set_entry. cbn [entries].
  destruct (decide (op = op')) as [<- | Hne].
  - rewrite lookup_insert_eq, Hv. cbn [mjoin option_join]. destruct e as [e |]; [exact He | done].
  - rewrite lookup_insert_ne by done. now rewrite lookup_effective.
Qed.

Lemma set_entries_spec L ops es : forall v,
  Forall2 (fun op e => entry_says e = L !! op) ops es -> Forall (fun op => effective v L !! op = L !! op) ops ->
  let v' := foldl (fun v '(op, e) => set_entry op e v) v (zip ops es) in
  effective v' L = effective v L /\ bestHash v' = bestHash v /\
  loaded ops v' L.
Proof.
  intros v Hf. revert v. induction Hf as [| op e ops es He Hf IH]; intros v Hv; cbn zeta.
  { split_and!; [done | done |]. intros op Hop. now apply elem_of_nil in Hop. }
  apply Forall_cons in Hv as [Hop Hv]. cbn [zip zip_with foldl].
  pose proof (effective_set_any op e v L He Hop) as Heff.
  destruct (IH (set_entry op e v)) as (H1' & H2' & H3'); [now rewrite Heff |].
  split_and!; [congruence | done |]. intros op' [-> | Hin]%elem_of_cons; [| now apply H3'].
  destruct (decide (op ∈ ops)) as [Hin | Hnin]; [now apply H3' |].
  destruct e as [e |]; [right | left; symmetry; exact He].
  assert (Hkeep : forall l v0, op ∉ l.*1 ->
    LookupEntry (foldl (fun v '(op, e) => set_entry op e v) v0 l) op = LookupEntry v0 op).
  { clear. induction l as [| [o x] l IH]; intros v0 Hn; [done |]. rewrite fmap_cons, not_elem_of_cons in Hn.
    destruct Hn as [Hne Hn]. cbn [foldl]. rewrite IH by done. unfold LookupEntry, set_entry. cbn [entries fst] in *.
    now rewrite lookup_insert_ne. }
  fold (zip ops es). rewrite Hkeep.
  - rewrite LookupEntry_set, decide_True by done. eauto.
  - rewrite fst_zip; [done |]. apply Forall2_length in Hf. lia.
Qed.

(** A view that is loaded from the cache stands for the same set above it. *)
Lemma load_view_spec c S ops v :
  cache_ok c S -> Forall outpoint_ok ops -> Forall (fun op => entries v !! op = None) ops ->
  exists c' v', fetchUtxosFromCache ops v c = (Ok v', c') /\ same_db c c' /\ cache_ok c' S /\
    ledger c' S = ledger c S /\ effective v' (ledger c S) = effective v (ledger c S) /\
    loaded ops v' (ledger c S).
Proof.
  intros Hc Hops Hv. unfold fetchUtxosFromCache. destruct (Z.eqb_spec (zlen ops) 0) as [Hz | Hz].
  - apply zlen_0_nil in Hz as ->. exists c, v. split_and!; [done | apply same_db_refl | done | done | done |].
    intros op Hop. now apply elem_of_nil in Hop.
  - destruct (fetchEntries_spec c S ops Hc Hops) as (c' & es & Hf & Hs & Hc' & Hl & He).
    destruct (set_entries_spec (ledger c S) ops es v He) as (Heff & _ & Hld).
    { eapply Forall_impl; [exact Hv |]. intros op Hop. rewrite lookup_effective. unfold LookupEntry. now rewrite Hop. }
    eexists c', _. split; [rewrite bind_eq, Hf; reflexivity |]. done.
Qed.
End Refinement.

(** * The claims *)

(** C23: the cache implements the ledger.  Let a cache over a database stand for
    a set of coins, and let a block be applicable to that set as a ledger, the
    coins that it makes being in range and not in the database (otherwise a coin
    that was spent can come back, see [cache_resurrects]).  Then
    connecting the block to the cache succeeds without touching the database,
    the cache stands for the ledger after the block and the journal lists the
    coins it spends; a view loaded from the cache at any outpoints stands for
    that ledger; and flushing it, in any order of the maps, succeeds: when the
    flush is due (required, or the cache is full and the last flush was for
    another block, or the interval is over) the database then holds the coins of the
    ledger after the block and nothing else, the cache is empty and the database
    names the block of the flush; otherwise nothing changes. *)
Theorem cache_refines `{PubKeysLaws} `{Crypto} {B : Type} `{BucketLaws B} (c : utxoCache B) S block h S' l :
  cache_ok c S -> Forall (fun tx => Forall (addable S) (made tx h)) (Transactions block) ->
  apply_txs h (Transactions block) (ledger c S) = Some (S', l) ->
  exists c', cache_connectTransactions block h (c, Some []) = (Ok tt, (c', Some l)) /\
    utxoBucket c' = utxoBucket c /\ cache_ok c' S /\ ledger c' S = S' /\
    (forall ops, Forall outpoint_ok ops ->
       exists c1 v, fetchUtxosFromCache ops NewUtxoViewpoint c' = (Ok v, c1) /\ cache_ok c1 S /\
         ledger c1 S = S' /\ effective v S' = S' /\ loaded ops v S') /\
    (forall order mode hash now, an_order order c' ->
       exists c2, flush order mode hash now c' = (Ok tt, c2) /\
         (flush_due mode hash now c' -> written c2 S' hash now) /\ (~ flush_due mode hash now c' -> c2 = c')).
Proof.
  intros Hc Hm Ha. destruct (cache_connect_spec S h (Transactions block) c (Some []) S' l Hc Hm Ha)
    as (c' & Hrun & Hs & Hc' & Hl). exists c'. split_and!; [exact Hrun | apply Hs | done | done | |].
  - intros ops Hops. destruct (load_view_spec c' S ops NewUtxoViewpoint Hc' Hops) as (c1 & v & Hf & _ & Hc1 & Hl1 & He & Hld).
    { apply Forall_forall. intros op _. apply lookup_empty. }
    exists c1, v. rewrite Hl in *. split_and!; try done. rewrite He. apply map_eq. intros op.
    rewrite lookup_effective. unfold LookupEntry. cbn. now rewrite lookup_empty.
  - intros order mode hash now Ho. destruct (flush_written c' S order mode hash now Hc' Ho) as (c2 & Hf & Hw & Hsame).
    exists c2. rewrite Hl in Hw. auto.
Qed.

(** A coin that was spent comes back.  When a coin is in the database and is
    spent, made again under the same outpoint and spent again before the cache
    is flushed, as two transactions with the same id do, then the cache deletes
    the new entry because it is marked fresh, although the database still has
    the old coin: the cache then stands for a set in which the old coin is
    unspent, for all that both spends succeeded. *)
Lemma cache_resurrects `{PubKeysLaws} `{Crypto} {B : Type} `{BucketLaws B} (c : utxoCache B) S ti op coin o cb h :
  cache_ok c S -> S !! op = Some coin -> PreviousOutPoint ti = op -> ledger c S !! op = Some coin ->
  unspendable (PkScript o) = false ->
  exists c', (addTxIn ti;; on_cache (cache_addTxOut op o cb h);; addTxIn ti) (c, Some []) =
      (Ok tt, (c', Some [coin; mkSpent (Value o) (PkScript o) h cb])) /\
    ledger c' S !! op = Some coin.
Proof.
  intros Hc HS <- Hled Hun. set (op := PreviousOutPoint ti) in *.
  destruct (addTxIn_spec c S (Some []) ti coin Hc Hled) as (c1 & Hrun1 & Hs1 & Hc1 & Hl1).
  assert (Hop : outpoint_ok op) by now destruct (in_range _ _ (db_holds c S Hc) op coin HS).
  destruct (new_entry_flags cb (Value o) (PkScript o) h) as (Hsp & Hmod & Hfr & Hst).
  set (e := mkEntry (Value o) (PkScript o) h _) in *.
  destruct (put_cached_spec c1 op (Some e) (db_maps c1 S Hc1)) as (c2 & Hput & Hs2 & Hms2 & Hm2).
  destruct (in_place_spec op (Spend e) (cachedEntries c2) Hms2) as [Hms3 Hf3].
  { unfold cache_map in Hm2. rewrite Hm2, lookup_insert_eq. eauto. }
  destruct (delete_entry_spec op _ Hms3) as [_ Hd3].
  set (ms3 := in_place op (Spend e) (cachedEntries c2)) in *.
  exists (with_entries (delete_entry op ms3) (uint64 (totalEntryMemory c2 - memoryUsage (Some (Spend e)))) c2). split.
  - rewrite bind_eq, Hrun1, bind_eq.
    assert (Hadd : cache_addTxOut op o cb h c1 = (Ok tt, c2)) by (unfold cache_addTxOut; now rewrite Hun).
    rewrite (on_cache_run _ _ _ _ _ Hadd). unfold addTxIn. fold op.
    assert (Hget : get_entry (cachedEntries c2) op = Some (Some e)).
    { unfold get_entry. rewrite <- lookup_flat. fold (cache_map c2). rewrite Hm2. apply lookup_insert_eq. }
    assert (Hf : fetchEntries [op] c2 = (Ok [Some e], c2)).
    { unfold fetchEntries, missing. rewrite bind_eq. cbn [get]. rewrite filter_cons_False by (rewrite Hget; discriminate).
      cbn [filter list_filter db_entries]. rewrite bind_eq. cbn [lift]. rewrite bind_eq. cbn [put_all ret fill_in].
      now rewrite Hget. }
    rewrite bind_eq, (on_cache_run _ _ _ _ _ Hf), bind_eq. cbn [modify fst snd]. rewrite Hst.
    apply on_cache_run. rewrite bind_eq. cbn [get]. fold ms3. now rewrite isFresh_Spend, Hfr.
  - rewrite lookup_ledger. unfold cache_map. cbn [with_entries cachedEntries]. now rewrite Hd3, lookup_delete_eq.
Qed.

(** * Witnesses *)

#[local] Existing Instance Compress.toy_keys.
#[local] Existing Instance Compress.toy_keys_laws.

Definition old_coin : SpentTxOut := mkSpent 1000 [x51] 3 false.

(** A new cache over a database with one coin. *)
Lemma cache_with_coin `{Crypto} :
  exists c : utxoCache (gmap bytes bytes), cache_ok c {[old_outpoint := old_coin]} /\
    ledger c {[old_outpoint := old_coin]} = {[old_outpoint := old_coin]}.
Proof.
  assert (Hop : outpoint_ok old_outpoint) by (split; [reflexivity | split; [discriminate | reflexivity]]).
  assert (Hcoin : coin_ok old_coin) by (split; [split; discriminate | reflexivity | split; [discriminate | reflexivity]]).
  destruct (put_holds (∅ : gmap bytes bytes) ∅ old_outpoint (entry_of old_coin) holds_empty Hop eq_refl Hcoin)
    as (b & _ & Hb).
  exists (newUtxoCache b None 1000000).
  assert (Hm : cache_map (newUtxoCache b None 1000000) = ∅)
    by (change (∅ ∪ ∅ = (∅ : entry_map)); apply (left_id_L ∅ union)).
  split; [| now apply ledger_empty]. constructor; [exact Hb | | rewrite Hm; apply map_Forall_empty].
  constructor; cbn; [done | done |]. split; [apply map_disjoint_empty_l | done].
Qed.

Lemma cache_refines_witness :
  let H := toy_crypto in
  exists c c' c2 : utxoCache (gmap bytes bytes),
    cache_connectTransactions spending_block 5 (c, Some []) = (Ok tt, (c', Some [old_coin])) /\
    flush (concat (map_to_list <$> maps (cachedEntries c'))) FlushRequired [x07] 9 c' = (Ok tt, c2) /\
    holds (utxoBucket c) {[old_outpoint := old_coin]} /\
    exists S', fst <$> apply_txs 5 (Transactions spending_block) {[old_outpoint := old_coin]} = Some S' /\
      holds (utxoBucket c2) S'.
Proof.
  intros H. destruct (@cache_with_coin H) as (c & Hc & Hl).
  assert (Hsnd : snd <$> apply_txs 5 (Transactions spending_block) {[old_outpoint := old_coin]} = Some [old_coin])
    by (vm_compute; reflexivity).
  destruct (apply_txs 5 (Transactions spending_block) {[old_outpoint := old_coin]}) as [[S' l] |] eqn:Ha;
    [| discriminate].
  assert (l = [old_coin]) as -> by (cbn in Hsnd; congruence). rewrite <- Hl in Ha at 1.
  destruct (cache_refines c {[old_outpoint := old_coin]} spending_block 5 S' [old_coin] Hc) as (c' & Hrun & _ & _ & _ & _ & Hflush).
  - repeat constructor; try discriminate; vm_compute; reflexivity.
  - exact Ha.
  - destruct (Hflush (concat (map_to_list <$> maps (cachedEntries c'))) FlushRequired [x07] 9 (reflexivity _)) as (c2 & Hf & Hw & _).
    exists c, c', c2. split_and!; [exact Hrun | exact Hf | exact (db_holds _ _ Hc) |]. exists S'.
    split; [reflexivity | exact (written_coins _ _ _ _ (Hw I))].
Defined.

Lemma cache_resurrects_witness :
  let H := toy_crypto in
  exists c c' : utxoCache (gmap bytes bytes),
    (addTxIn (mkTxIn old_outpoint [] [] 0);; on_cache (cache_addTxOut old_outpoint (mkTxOut 7 [x51]) true 9);;
     addTxIn (mkTxIn old_outpoint [] [] 0)) (c, Some []) =
      (Ok tt, (c', Some [old_coin; mkSpent 7 [x51] 9 true])) /\
    ledger c' {[old_outpoint := old_coin]} !! old_outpoint = Some old_coin.
Proof.
  intros H. destruct (@cache_with_coin H) as (c & Hc & Hl).
  destruct (cache_resurrects c {[old_outpoint := old_coin]} (mkTxIn old_outpoint [] [] 0) old_outpoint old_coin
    (mkTxOut 7 [x51]) true 9 Hc) as (c' & Hrun & Hled).
  - apply lookup_singleton_eq.
  - reflexivity.
  - rewrite Hl. apply lookup_singleton_eq.
  - reflexivity.
  - exists c, c'. split; [exact Hrun | exact Hled].
Defined.
