(* ===== verification/ChainView.v ===== *)
(** The view of the best chain (src/btcd/blockchain/chainview.go): the nodes of
    one branch of the block tree by height.

    The nodes of the tree are those of an index by hash; two pointers to nodes
    of the index are equal exactly if the nodes have the same hash.  The lock of
    the view is left out: every method runs under it. *)

From stdpp Require Import gmap.
From S2P Require Import Prelude Slices Crypto WireCommon MsgTx MsgBlock BtcUtil WorkMath BlockIndex.
#[local] Open Scope Z_scope.

(** * Definitions *)

Definition same_node (a b : blockNode) : bool := bool_decide (n_hash (data a) = n_hash (data b)).

(** The nodes by height; an element may be nil. *)
Abbreviation chainView := (list (option blockNode)).

(** The indexes of a view panic out of range. *)
Abbreviation viewed := (outcome Empty_set).

Definition tip (nodes : chainView) : option blockNode := mjoin (last nodes).
Definition genesis (nodes : chainView) : option blockNode := mjoin (head nodes).
Definition view_height (nodes : chainView) : Z := int32 (zlen nodes - 1).

(** The slice is grown by nil elements or cut. *)
Definition resize (needed : nat) (nodes : chainView) : chainView :=
  take needed nodes ++ replicate (needed - length nodes) None.

(** [c.nodes[i] == node] *)
Definition is_node (m : option blockNode) (n : blockNode) : bool :=
  match m with Some m => same_node m n | None => false end.

(** Nodes are put from [n] backwards until one is already there. *)
Fixpoint set_loop (nodes : chainView) (n : blockNode) : viewed chainView :=
  match n with
  | Node p _ _ =>
      let! cur := index nodes (height n) in
      if is_node cur n then Ok nodes else
      let nodes := <[Z.to_nat (height n) := Some n]> nodes in
      match p with
      | Some p' => set_loop nodes p'
      | None => Ok nodes
      end
  end.

Definition setTip (node : option blockNode) (nodes : chainView) : viewed chainView :=
  match node with
  | None => Ok []
  | Some n =>
      let needed := int32 (height n + 1) in
      if needed <? 0 then Panic else set_loop (resize (Z.to_nat needed) nodes) n
  end.

Definition newChainView (node : option blockNode) : viewed chainView := setTip node [].

Definition nodeByHeight (nodes : chainView) (h : Z) : option blockNode :=
  if (h <? 0) || (h >=? int32 (zlen nodes)) then None else mjoin (nodes !! Z.to_nat h).

Definition view_Equals (c other : chainView) : bool :=
  (zlen c =? zlen other) &&
  match tip c, tip other with
  | Some a, Some b => same_node a b
  | None, None => true
  | _, _ => false
  end.

Definition contains (nodes : chainView) (n : blockNode) : bool := is_node (nodeByHeight nodes (height n)) n.

Definition next (nodes : chainView) (n : option blockNode) : option blockNode :=
  match n with
  | None => None
  | Some n => if contains nodes n then nodeByHeight nodes (int32 (height n + 1)) else None
  end.

Fixpoint find_loop (nodes : chainView) (n : blockNode) : option blockNode :=
  match n with
  | Node p _ _ =>
      if contains nodes n then Some n
      else match p with Some p' => find_loop nodes p' | None => None end
  end.

Definition findFork (nodes : chainView) (n : option blockNode) : option blockNode :=
  match n with
  | None => None
  | Some n =>
      let chainHeight := view_height nodes in
      match (if height n >? chainHeight then Ancestor n chainHeight else Some n) with
      | Some n => find_loop nodes n
      | None => None
      end
  end.

(** ** Block locators *)

Definition log2FloorMasks : list Z := [0xffff0000; 0xff00; 0xf0; 0xc; 0x2].

(** The rounds over the masks, with the exponent halved. *)
Fixpoint log2_loop (masks : list Z) (n rv exponent : Z) : Z :=
  match masks with
  | [] => rv
  | m :: masks' =>
      if negb (Z.land n m =? 0)
      then log2_loop masks' (Z.shiftr n exponent) (uint8 (rv + exponent)) (Z.shiftr exponent 1)
      else log2_loop masks' n rv (Z.shiftr exponent 1)
  end.

Definition fastLog2Floor (n : Z) : Z := log2_loop log2FloorMasks n 0 16.

(** The number of entries that are allocated for. *)
Definition locator_size (h : Z) : Z :=
  if h <=? 12 then uint8 (uint8 h + 1)
  else uint8 (12 + fastLog2Floor (uint32 (uint32 h - 10))).

(** The locator grows by the node's hash.  A nil entry of the view ends it. *)
Fixpoint locator_loop (fuel : nat) (nodes : chainView) (n : blockNode) (step : Z) (locator : list bytes)
  : viewed (list bytes) :=
  match fuel with
  | O => Ok locator
  | S fuel' =>
      let locator := locator ++ [n_hash (data n)] in
      if height n =? 0 then Ok locator else
      let h := int32 (height n - step) in
      let h := if h <? 0 then 0 else h in
      let! n' := (if contains nodes n then index nodes h else Ok (Ancestor n h)) in
      let step := if zlen locator >? 10 then int32 (step * 2) else step in
      match n' with
      | Some n' => locator_loop fuel' nodes n' step locator
      | None => Ok locator
      end
  end.

(** The height decreases in every round. *)
Definition blockLocator (nodes : chainView) (n : option blockNode) : viewed (list bytes) :=
  match (match n with Some n => Some n | None => tip nodes end) with
  | None => Ok []
  | Some n => locator_loop (S (Z.to_nat (height n))) nodes n 1 []
  end.

(** * The tree of the index *)

Record block_tree (T : gmap bytes blockNode) : Prop := {
  tree_hash h n : T !! h = Some n -> n_hash (data n) = h;
  tree_node h n : T !! h = Some n -> node_ok n;
  tree_parent h n p : T !! h = Some n -> parent n = Some p -> T !! n_hash (data p) = Some p;
  tree_root h1 n1 h2 n2 : T !! h1 = Some n1 -> T !! h2 = Some n2 ->
    parent n1 = None -> parent n2 = None -> n1 = n2;
}.

Lemma parent_ok n p : node_ok n -> parent n = Some p -> node_ok p /\ height p = height n - 1.
Proof. intros Hn Hp. exact (@ok_parent _ _ _ blockNode_laws n p Hn Hp). Qed.

Lemma root_height n : node_ok n -> parent n = None <-> height n = 0.
Proof. exact (@ok_first _ _ _ blockNode_laws n). Qed.

Section Tree.
Context (T : gmap bytes blockNode) (HT : block_tree T).

(** A pointer to a node of the index. *)
Definition in_tree (n : blockNode) : Prop := T !! n_hash (data n) = Some n.

Lemma in_tree_ok n : in_tree n -> node_ok n.
Proof. apply tree_node, HT. Qed.

Lemma in_tree_parent n p : in_tree n -> parent n = Some p -> in_tree p.
Proof. intros Hn Hp. exact (tree_parent T HT _ n p Hn Hp). Qed.

Lemma in_tree_back k : forall n m, in_tree n -> back k n = Some m -> in_tree m.
Proof.
  induction k as [| k IH]; intros n m Hn Hm; cbn [back] in Hm; [now injection Hm as <- |].
  cbn [Parent blockNode_ctx] in Hm. destruct (parent n) as [p |] eqn:Hp; [| discriminate].
  eapply IH; [| exact Hm]. eapply in_tree_parent; eauto.
Qed.

Lemma same_node_eq a b : in_tree a -> in_tree b -> same_node a b = true <-> a = b.
Proof.
  intros Ha Hb. unfold same_node. rewrite bool_decide_eq_true. split; [| now intros ->].
  intros Heq. unfold in_tree in *. rewrite Heq in Ha. congruence.
Qed.

(** The node of a chain at a height. *)
Definition at_height (n : blockNode) (j : Z) : option blockNode := back (Z.to_nat (height n - j)) n.

Lemma at_height_Some n j : in_tree n -> 0 <= j <= height n ->
  exists m, at_height n j = Some m /\ in_tree m /\ height m = j.
Proof.
  intros Hn Hj. destruct (back_height n (in_tree_ok n Hn) (Z.to_nat (height n - j)) ltac:(lia)) as (m & Hm & _ & Hh).
  exists m. split; [exact Hm |]. split; [now apply (in_tree_back (Z.to_nat (height n - j)) n) | lia].
Qed.

Lemma at_height_self n : at_height n (height n) = Some n.
Proof. unfold at_height. now rewrite Z.sub_diag. Qed.

Lemma at_height_trans n m j k :
  in_tree n -> 0 <= j <= k -> k <= height n -> at_height n k = Some m -> at_height n j = at_height m j.
Proof.
  intros Hn Hj Hk Hm. destruct (at_height_Some n k Hn ltac:(lia)) as (m' & Hm' & _ & Hh).
  assert (m' = m) as -> by congruence. unfold at_height in *. rewrite Hh.
  replace (Z.to_nat (height n - j)) with (Z.to_nat (height n - k) + Z.to_nat (k - j))%nat by lia.
  now apply back_add.
Qed.

Lemma at_height_parent n p j :
  in_tree n -> parent n = Some p -> j < height n -> 0 <= j -> at_height n j = at_height p j.
Proof.
  intros Hn Hp Hj H0. unfold at_height.
  destruct (parent_ok n p (in_tree_ok n Hn) Hp) as [_ Hh].
  replace (Z.to_nat (height n - j)) with (S (Z.to_nat (height p - j))) by lia.
  cbn [back Parent blockNode_ctx]. now rewrite Hp.
Qed.

Lemma in_tree_root n m : in_tree n -> in_tree m -> at_height n 0 = at_height m 0.
Proof.
  intros Hn Hm. destruct (node_ok_height n (in_tree_ok n Hn)), (node_ok_height m (in_tree_ok m Hm)).
  destruct (at_height_Some n 0 Hn ltac:(lia)) as (a & -> & Ha & Hha).
  destruct (at_height_Some m 0 Hm ltac:(lia)) as (b & -> & Hb & Hhb).
  f_equal. eapply (tree_root T HT); [exact Ha | exact Hb | |].
  - apply root_height; [now apply in_tree_ok | done].
  - apply root_height; [now apply in_tree_ok | done].
Qed.

(** * Paths *)

(** The view of a chain: its nodes by height. *)
Record is_path (nodes : chainView) (t : blockNode) : Prop := {
  path_tip : in_tree t;
  path_length : zlen nodes = height t + 1;
  path_at j : 0 <= j <= height t -> nodes !! Z.to_nat j = Some (at_height t j);
}.

(** Below an element that is not nil are its ancestors. *)
Definition closed_upto (nodes : chainView) (h : Z) : Prop :=
  forall i m, 0 <= i <= h -> nodes !! Z.to_nat i = Some (Some m) ->
    in_tree m /\ height m = i /\ (forall j, 0 <= j <= i -> nodes !! Z.to_nat j = Some (at_height m j)).

Lemma set_loop_spec n : forall nodes,
  in_tree n -> height n < zlen nodes -> closed_upto nodes (height n) ->
  exists nodes', set_loop nodes n = Ok nodes' /\ zlen nodes' = zlen nodes /\
    (forall j, 0 <= j <= height n -> nodes' !! Z.to_nat j = Some (at_height n j)) /\
    (forall j, height n < j -> nodes' !! Z.to_nat j = nodes !! Z.to_nat j).
Proof.
  remember (Z.to_nat (height n)) as k eqn:Hk. revert n Hk.
  induction k as [k IH] using lt_wf_ind. intros n Hk nodes Hn Hlen Hcl.
  destruct (node_ok_height n (in_tree_ok n Hn)) as [H0 _].
  destruct (znth_in_range nodes (height n) ltac:(lia)) as [cur Hcur].
  assert (Hcur' : nodes !! Z.to_nat (height n) = Some cur)
    by (unfold znth in Hcur; now rewrite decide_True in Hcur by lia).
  assert (Hstep : set_loop nodes n =
    if is_node cur n then Ok nodes else
    match parent n with
    | Some p => set_loop (<[Z.to_nat (height n) := Some n]> nodes) p
    | None => Ok (<[Z.to_nat (height n) := Some n]> nodes)
    end).
  { destruct n as [p a d]. cbn [set_loop parent]. unfold index. now rewrite Hcur. }
  rewrite Hstep. clear Hstep. destruct (is_node cur n) eqn:Hsame.
  { destruct cur as [m |]; [| discriminate]. destruct (Hcl (height n) m ltac:(lia) Hcur') as (Hm & Hhm & Hbelow).
    apply same_node_eq in Hsame as ->; [| done | done]. exists nodes. auto. }
  set (nodes1 := <[Z.to_nat (height n) := Some n]> nodes).
  assert (Hlen1 : zlen nodes1 = zlen nodes) by (unfold zlen, nodes1; now rewrite length_insert).
  assert (Hother : forall j, 0 <= j -> j <> height n -> nodes1 !! Z.to_nat j = nodes !! Z.to_nat j)
    by (intros j Hj Hne; unfold nodes1; rewrite list_lookup_insert_ne; [done | lia]).
  assert (Hself : nodes1 !! Z.to_nat (height n) = Some (Some n))
    by (unfold nodes1; rewrite list_lookup_insert_eq; [done | unfold zlen in Hlen; lia]).
  destruct (parent n) as [p |] eqn:Hp.
  - destruct (parent_ok n p (in_tree_ok n Hn) Hp) as [Hpok Hh].
    destruct (node_ok_height p Hpok).
    destruct (IH (Z.to_nat (height p)) ltac:(lia) p eq_refl nodes1) as (nodes' & Hrun & Hl' & Hlow & Hhigh).
    + eapply in_tree_parent; eauto.
    + lia.
    + intros i m Hi Hm. rewrite Hother in Hm by lia. destruct (Hcl i m ltac:(lia) Hm) as (Hmt & Hmh & Hmb).
      split_and!; try done. intros j Hj. rewrite Hother by lia. auto.
    + exists nodes'. split_and!; [done | lia | |].
      * intros j Hj. destruct (Z.eq_dec j (height n)) as [-> | Hne].
        -- rewrite Hhigh by lia. now rewrite Hself, at_height_self.
        -- rewrite Hlow by lia. f_equal. symmetry. apply at_height_parent; done || lia.
      * intros j Hj. rewrite Hhigh by lia. apply Hother; lia.
  - assert (Hz : height n = 0) by (apply root_height; [now apply in_tree_ok | done]).
    exists nodes1. split_and!; [done | done | |].
    + intros j Hj. replace j with (height n) by lia. now rewrite Hself, at_height_self.
    + intros j Hj. apply Hother; lia.
Qed.

Lemma lookup_resize needed nodes j :
  (j < needed)%nat -> resize needed nodes !! j = match nodes !! j with Some x => Some x | None => Some None end.
Proof.
  intros Hj. unfold resize. destruct (nodes !! j) as [x |] eqn:Hx.
  - pose proof (lookup_lt_Some _ _ _ Hx). rewrite lookup_app_l; [now rewrite lookup_take_lt by lia |].
    rewrite length_take. lia.
  - apply lookup_ge_None in Hx. rewrite lookup_app_r by (rewrite length_take; lia).
    rewrite length_take, lookup_replicate. split; [done | lia].
Qed.

Lemma zlen_resize needed nodes : zlen (resize needed nodes) = Z.of_nat needed.
Proof. unfold zlen, resize. rewrite length_app, length_take, length_replicate. lia. Qed.

(** The view of nothing or of a chain. *)
Definition view_ok (nodes : chainView) : Prop := nodes = [] \/ exists t, is_path nodes t.

Lemma resize_closed nodes h needed :
  view_ok nodes -> h < Z.of_nat needed -> closed_upto (resize needed nodes) h.
Proof.
  intros Hv Hh i m Hi Hm. rewrite lookup_resize in Hm by lia.
  destruct Hv as [-> | (t & [Ht Hlen Hat])]; [discriminate |].
  destruct (node_ok_height t (in_tree_ok t Ht)) as [Ht0 _].
  assert (Hit : i <= height t).
  { destruct (Z.le_gt_cases i (height t)); [done |]. rewrite lookup_ge_None_2 in Hm; [discriminate |].
    unfold zlen in Hlen. lia. }
  rewrite Hat in Hm by lia. injection Hm as Hm.
  destruct (at_height_Some t i Ht ltac:(lia)) as (m' & Hm' & Hmt & Hmh). assert (m' = m) as -> by congruence.
  split_and!; try done. intros j Hj. rewrite lookup_resize, Hat by lia. f_equal.
  eapply (at_height_trans t m j i); eauto; lia.
Qed.

Lemma setTip_spec nodes n :
  view_ok nodes -> in_tree n -> height n < 2 ^ 31 - 1 ->
  exists nodes', setTip (Some n) nodes = Ok nodes' /\ is_path nodes' n.
Proof.
  intros Hv Hn Hb. destruct (node_ok_height n (in_tree_ok n Hn)) as [H0 _].
  unfold setTip. rewrite int32_small by lia. replace (height n + 1 <? 0) with false by lia.
  destruct (set_loop_spec n (resize (Z.to_nat (height n + 1)) nodes) Hn) as (nodes' & Hrun & Hlen & Hat & _).
  - rewrite zlen_resize. lia.
  - apply resize_closed; [done | lia].
  - rewrite zlen_resize in Hlen. exists nodes'. split; [done |]. constructor; [done | lia |].
    intros j Hj. now apply Hat.
Qed.

(** ** Looking nodes up *)

Lemma nodeByHeight_path nodes t j :
  is_path nodes t -> height t < 2 ^ 31 - 1 ->
  nodeByHeight nodes j = if (0 <=? j) && (j <=? height t) then at_height t j else None.
Proof.
  intros [Ht Hlen Hat] Hb. destruct (node_ok_height t (in_tree_ok t Ht)) as [H0 _].
  unfold nodeByHeight. rewrite Hlen, int32_small by lia.
  destruct ((0 <=? j) && (j <=? height t)) eqn:Hr.
  - replace ((j <? 0) || (j >=? height t + 1)) with false by lia. now rewrite Hat by lia.
  - now replace ((j <? 0) || (j >=? height t + 1)) with true by lia.
Qed.

(** A node is contained exactly if it is on the chain. *)
Lemma contains_path nodes t n :
  is_path nodes t -> height t < 2 ^ 31 - 1 -> in_tree n ->
  contains nodes n = true <-> height n <= height t /\ at_height t (height n) = Some n.
Proof.
  intros Hp Hb Hn. pose proof (path_tip nodes t Hp) as Ht.
  destruct (node_ok_height n (in_tree_ok n Hn)) as [H0 _].
  unfold contains. rewrite (nodeByHeight_path nodes t) by done.
  destruct (Z.leb_spec (height n) (height t)) as [Hle | Hgt].
  - replace ((0 <=? height n) && true) with true by lia.
    destruct (at_height_Some t (height n) Ht ltac:(lia)) as (m & Hm & Hmt & _). rewrite Hm. cbn [is_node].
    rewrite same_node_eq by done. split; [intros ->; auto | intros [_ [= ->]]; done].
  - rewrite andb_false_r. cbn [is_node]. split; [discriminate | lia].
Qed.

Lemma contains_tip nodes t : is_path nodes t -> height t < 2 ^ 31 - 1 -> contains nodes t = true.
Proof.
  intros Hp Hb. apply (contains_path nodes t); [done | done | apply Hp |]. split; [lia | apply at_height_self].
Qed.

(** ** Forks *)

(** Both chains have the node at this height. *)
Definition common (t n : blockNode) (j : Z) : Prop :=
  0 <= j <= height t /\ j <= height n /\ at_height t j = at_height n j.

Lemma common_below t n j k : in_tree t -> in_tree n -> common t n k -> 0 <= j <= k -> common t n j.
Proof.
  intros Ht Hn (Hk & Hkn & Heq) Hj. destruct (at_height_Some t k Ht ltac:(lia)) as (m & Hm & _ & _).
  split_and!; try lia. rewrite (at_height_trans t m j k) by (done || lia).
  rewrite (at_height_trans n m j k); [done | done | lia | lia | congruence].
Qed.

Lemma find_loop_spec nodes t n :
  is_path nodes t -> height t < 2 ^ 31 - 1 -> in_tree n -> height n <= height t ->
  exists f, find_loop nodes n = Some f /\ common t n (height f) /\ at_height t (height f) = Some f /\
    (forall j, common t n j -> j <= height f).
Proof.
  intros Hp Hb. pose proof (path_tip nodes t Hp) as Ht. remember (Z.to_nat (height n)) as k eqn:Hk. revert n Hk.
  induction k as [k IH] using lt_wf_ind. intros n Hk Hn Hle.
  destruct (node_ok_height n (in_tree_ok n Hn)) as [H0 _].
  assert (Hstep : find_loop nodes n = if contains nodes n then Some n
    else match parent n with Some p => find_loop nodes p | None => None end) by now destruct n.
  rewrite Hstep. clear Hstep. destruct (contains nodes n) eqn:Hc.
  - apply (contains_path nodes t) in Hc as [_ Hat]; [| done..]. exists n. split; [done |].
    split; [split_and!; [lia | lia | lia | now rewrite Hat, at_height_self] |]. split; [done |]. intros j (_ & Hj & _). lia.
  - assert (Hnot : ~ common t n (height n)).
    { intros (_ & _ & Heq). rewrite at_height_self in Heq.
      assert (contains nodes n = true) by (apply (contains_path nodes t); auto). congruence. }
    destruct (parent n) as [p |] eqn:Hpar.
    + destruct (parent_ok n p (in_tree_ok n Hn) Hpar) as [Hpok Hh]. pose proof (in_tree_parent n p Hn Hpar) as Hpt.
      destruct (node_ok_height p Hpok). destruct (IH (Z.to_nat (height p)) ltac:(lia) p eq_refl Hpt ltac:(lia))
        as (f & Hf & (Hf1 & Hf2 & Hf3) & Hfat & Hmax). exists f. split; [done |].
      assert (Hsame : forall j, 0 <= j < height n -> at_height n j = at_height p j)
        by (intros; apply at_height_parent; done || lia).
      split; [split_and!; [lia | lia | lia | now rewrite Hsame by lia] |]. split; [exact Hfat |].
      intros j (Hj1 & Hj2 & Hj3). assert (Hne : j <> height n) by (intros ->; apply Hnot; now split_and!).
      apply Hmax. rewrite Hsame in Hj3 by lia. split_and!; [lia | lia | lia | done].
    + exfalso. apply Hnot. apply root_height in Hpar; [| now apply in_tree_ok].
      rewrite Hpar. split_and!; try lia. now apply in_tree_root.
Qed.

Lemma findFork_spec nodes t n :
  is_path nodes t -> height t < 2 ^ 31 - 1 -> in_tree n ->
  exists f, findFork nodes (Some n) = Some f /\ common t n (height f) /\ at_height t (height f) = Some f /\
    (forall j, common t n j -> j <= height f).
Proof.
  intros Hp Hb Hn. pose proof (path_tip nodes t Hp) as Ht.
  destruct (node_ok_height n (in_tree_ok n Hn)) as [Hn0 _]. destruct (node_ok_height t (in_tree_ok t Ht)) as [Ht0 _].
  unfold findFork, view_height. rewrite (path_length nodes t Hp). rewrite int32_small by lia.
  replace (height t + 1 - 1) with (height t) by lia. destruct (Z.gtb_spec (height n) (height t)) as [Hgt | Hle].
  - destruct (at_height_Some n (height t) Hn ltac:(lia)) as (a & Ha & Hat & Hah).
    rewrite Ancestor_back by (apply in_tree_ok in Hn; done || lia). fold (at_height n (height t)). rewrite Ha.
    destruct (find_loop_spec nodes t a Hp Hb Hat ltac:(lia)) as (f & Hf & (Hf1 & Hf2 & Hf3) & Hfat & Hmax).
    assert (Hsame : forall j, 0 <= j <= height t -> at_height n j = at_height a j)
      by (intros j Hj; apply (at_height_trans n a j (height t)); done || lia).
    exists f. split; [done |]. split; [split_and!; try lia; now rewrite Hsame by lia |]. split; [done |].
    intros j (Hj1 & Hj2 & Hj3). apply Hmax. split_and!; try lia. now rewrite <- Hsame by lia.
  - apply (find_loop_spec nodes t n); done || lia.
Qed.
(** ** The next node *)

Lemma next_path nodes t n :
  is_path nodes t -> height t < 2 ^ 31 - 1 -> in_tree n -> contains nodes n = true ->
  next nodes (Some n) = if height n <? height t then at_height t (height n + 1) else None.
Proof.
  intros Hp Hb Hn Hc. unfold next. rewrite Hc. pose proof (contains_path nodes t n Hp Hb Hn) as [Hin _].
  destruct (Hin Hc) as [Hle _]. destruct (node_ok_height n (in_tree_ok n Hn)) as [H0 _].
  rewrite int32_small, (nodeByHeight_path nodes t) by (done || lia).
  destruct (Z.leb_spec 0 (height n + 1)), (Z.leb_spec (height n + 1) (height t)), (Z.ltb_spec (height n) (height t));
    (done || lia).
Qed.

(** The node above is a child. *)
Lemma at_height_child t n :
  in_tree t -> in_tree n -> height n < height t -> at_height t (height n) = Some n ->
  exists c, at_height t (height n + 1) = Some c /\ in_tree c /\ parent c = Some n.
Proof.
  intros Ht Hn Hlt Hat. destruct (node_ok_height n (in_tree_ok n Hn)) as [H0 _].
  destruct (at_height_Some t (height n + 1) Ht ltac:(lia)) as (c & Hc & Hct & Hch). exists c. split_and!; try done.
  rewrite (at_height_trans t c (height n) (height n + 1)) in Hat by (done || lia).
  unfold at_height in Hat. rewrite Hch in Hat. replace (Z.to_nat (height n + 1 - height n)) with 1%nat in Hat by lia.
  cbn [back Parent blockNode_ctx] in Hat. destruct (parent c); [exact Hat | discriminate].
Qed.

Lemma tip_path nodes t : is_path nodes t -> tip nodes = Some t.
Proof.
  intros [Ht Hlen Hat]. destruct (node_ok_height t (in_tree_ok t Ht)) as [H0 _].
  unfold tip. rewrite last_lookup. unfold zlen in Hlen. replace (pred (length nodes)) with (Z.to_nat (height t)) by lia.
  rewrite Hat by lia. apply at_height_self.
Qed.

(** ** Locators *)

(** How far the entries of a locator are below its node: one by one, then with
    steps that double. *)
Definition gap (i : Z) : Z := if i <=? 10 then i else 9 + 2 ^ (i - 10).

Lemma gap_S i : 0 <= i -> gap (i + 1) = gap i + (if i <=? 10 then 1 else 2 ^ (i - 10)).
Proof.
  intros Hi. unfold gap. destruct (Z.leb_spec i 10), (Z.leb_spec (i + 1) 10); try lia.
  - now replace i with 10 by lia.
  - replace (i + 1 - 10) with (Z.succ (i - 10)) by lia. rewrite Z.pow_succ_r; lia.
Qed.

Lemma gap_mono i j : 0 <= i <= j -> gap i <= gap j.
Proof.
  intros [Hi Hij]. unfold gap. destruct (Z.leb_spec i 10), (Z.leb_spec j 10); try lia.
  pose proof (Z.pow_le_mono_r 2 (i - 10) (j - 10) ltac:(lia) ltac:(lia)). lia.
Qed.

Lemma gap_ge i : 0 <= i -> i <= gap i.
Proof.
  intros Hi. unfold gap. destruct (Z.leb_spec i 10); [lia |].
  pose proof (Z.pow_gt_lin_r 2 (i - 10) ltac:(lia) ltac:(lia)). lia.
Qed.

(** The entry of a locator. *)
Definition locator_entry (n : blockNode) (i : nat) : option bytes :=
  option_map (fun m => n_hash (data m)) (at_height n (Z.max 0 (height n - gap (Z.of_nat i)))).

(** The rounds from the [i]-th give the entries up to the first that is the
    genesis block. *)
Lemma locator_loop_spec nodes t n k :
  is_path nodes t -> height t < 2 ^ 31 - 1 -> in_tree n -> height n < 2 ^ 31 - 1 ->
  height n <= gap (Z.of_nat k) -> (forall i, (i < k)%nat -> gap (Z.of_nat i) < height n) ->
  forall fuel i m step locator,
  (i <= k)%nat -> length locator = i -> at_height n (Z.max 0 (height n - gap (Z.of_nat i))) = Some m ->
  (k - i < fuel)%nat -> ((i < k)%nat -> step = if Z.of_nat i <=? 10 then 1 else 2 ^ (Z.of_nat i - 10)) ->
  locator_loop fuel nodes m step locator =
    Ok (locator ++ omap (locator_entry n) (seq i (S (k - i)))).
Proof.
  intros Hp Hb Hn Hnb Hend Hbefore. destruct (node_ok_height n (in_tree_ok n Hn)) as [Hn0 _].
  induction fuel as [| fuel IH]; intros i m step locator Hik Hlen Hm Hfuel Hstep; [lia |].
  set (g := gap (Z.of_nat i)) in *. pose proof (gap_ge (Z.of_nat i) ltac:(lia)) as Hg. fold g in Hg.
  destruct (at_height_Some n (Z.max 0 (height n - g)) Hn ltac:(lia)) as (m' & Hm' & Hmt & Hmh).
  assert (m' = m) as -> by congruence. clear Hm'.
  assert (Hentry : locator_entry n i = Some (n_hash (data m))) by (unfold locator_entry; fold g; now rewrite Hm).
  cbn [locator_loop seq omap list_omap]. rewrite Hentry.
  destruct (Z.eqb_spec (height m) 0) as [Hz | Hnz].
  { assert (i = k) as ->. { destruct (decide (i = k)) as [| Hne]; [done |]. pose proof (Hbefore i ltac:(lia)). lia. }
    now rewrite Nat.sub_diag. }
  assert (Hlt : (i < k)%nat). { destruct (decide (i = k)) as [-> |]; [| lia]. unfold g in *. lia. }
  specialize (Hstep Hlt). pose proof (gap_S (Z.of_nat i) ltac:(lia)) as HgS. fold g in HgS. rewrite <- Hstep in HgS.
  assert (Hs : 0 < step < 2 ^ 31).
  { rewrite Hstep. pose proof (Hbefore i Hlt) as Hgi. unfold g, gap in Hg, Hgi.
    destruct (Z.leb_spec (Z.of_nat i) 10); [lia |]. pose proof (Z.pow_pos_nonneg 2 (Z.of_nat i - 10)). lia. }
  set (h := Z.max 0 (height m - step)).
  assert (Hh : (if int32 (height m - step) <? 0 then 0 else int32 (height m - step)) = h).
  { rewrite int32_small by lia. unfold h. destruct (Z.ltb_spec (height m - step) 0); lia. }
  rewrite Hh. destruct (at_height_Some m h Hmt ltac:(lia)) as (a & Ha & Hat & Hah).
  assert (Hnext : (if contains nodes m then index nodes h else Ok (Ancestor m h)) = Ok (Some a) :> viewed _).
  { destruct (contains nodes m) eqn:Hc.
    - apply (contains_path nodes t m Hp Hb Hmt) in Hc as [Hle Htm]. unfold index, znth. rewrite decide_True by lia.
      rewrite (path_at nodes t Hp) by lia.
      rewrite (at_height_trans t m h (height m)), Ha; [done | apply (path_tip _ _ Hp) | lia | lia | done].
    - rewrite Ancestor_back by (apply in_tree_ok in Hmt; done || lia). now fold (at_height m h); rewrite Ha. }
  rewrite Hnext. cbn [obind].
  rewrite (IH (S i)); [| lia | rewrite length_app; cbn; lia | | lia |].
  - replace (k - i)%nat with (S (k - S i)) by lia. cbn [seq omap list_omap]. now rewrite <- app_assoc.
  - replace (Z.of_nat (S i)) with (Z.of_nat i + 1) by lia. rewrite HgS.
    replace (Z.max 0 (height n - (g + step))) with h by lia. rewrite <- Ha.
    apply (at_height_trans n m h (height m)); [done | lia | lia |]. rewrite Hmh. exact Hm.
  - intros HSk. pose proof (Hbefore (S i) HSk) as Hgi. unfold zlen. rewrite length_app. cbn [length].
    rewrite Hlen, Hstep. unfold gap in Hgi. clear - Hgi Hnb.
    destruct (Z.leb_spec (Z.of_nat (S i)) 10), (Z.leb_spec (Z.of_nat i) 10), (Z.gtb_spec (Z.of_nat (i + 1)) 10);
      try lia.
    + replace (Z.of_nat (S i)) with 11 by lia. reflexivity.
    + replace (Z.of_nat (S i) - 10) with (Z.succ (Z.of_nat i - 10)) in * by lia.
      rewrite Z.pow_succ_r in * by lia. pose proof (Z.pow_pos_nonneg 2 (Z.of_nat i - 10)). rewrite int32_small; lia.
Qed.
(** ** The number of entries *)

Lemma land_mask n e : 0 < e -> 0 <= n < 2 ^ (2 * e) ->
  (Z.land n (Z.shiftl (Z.ones e) e) =? 0) = (n <? 2 ^ e).
Proof.
  intros He Hn. assert (Hp : 0 < 2 ^ e) by (apply Z.pow_pos_nonneg; lia).
  assert (Hland : Z.land n (Z.shiftl (Z.ones e) e) = n / 2 ^ e * 2 ^ e).
  { rewrite <- (Z.shiftl_mul_pow2 (n / 2 ^ e)), <- Z.shiftr_div_pow2 by lia.
    transitivity (Z.shiftl (Z.land (Z.shiftr n e) (Z.ones e)) e).
    - rewrite Z.shiftl_land. apply Z.bits_inj'. intros i Hi. rewrite !Z.land_spec.
      rewrite !Z.shiftl_spec by lia. destruct (Z.ltb_spec i e).
      + rewrite (Z.testbit_neg_r (Z.ones e)) by lia. now rewrite !andb_false_r.
      + rewrite Z.shiftr_spec by lia. now replace (i - e + e) with i by lia.
    - f_equal. rewrite Z.land_ones, Z.shiftr_div_pow2 by lia. apply Z.mod_small.
      split; [apply Z.div_pos; lia |]. apply Z.div_lt_upper_bound; [lia |].
      rewrite <- Z.pow_add_r by lia. now replace (e + e) with (2 * e) by lia. }
  rewrite Hland. destruct (Z.ltb_spec n (2 ^ e)) as [Hlt | Hge].
  - rewrite Z.div_small by lia. reflexivity.
  - apply Z.eqb_neq. pose proof (Z.div_le_lower_bound n (2 ^ e) 1 Hp ltac:(lia)). nia.
Qed.

Lemma log2_step n e : 0 < e -> 2 ^ e <= n -> Z.log2 n = e + Z.log2 (Z.shiftr n e).
Proof.
  intros He Hn. assert (Hp : 0 < 2 ^ e) by (apply Z.pow_pos_nonneg; lia).
  rewrite Z.log2_shiftr by lia. pose proof (Z.log2_le_mono (2 ^ e) n Hn) as Hl. rewrite Z.log2_pow2 in Hl by lia. lia.
Qed.

(** The masks in use from a width on. *)
Fixpoint masks_of (j : nat) : list Z :=
  let e := 2 ^ Z.of_nat j in
  Z.shiftl (Z.ones e) e :: match j with O => [] | S j' => masks_of j' end.

Lemma log2_loop_spec j : (j <= 4)%nat -> forall n rv,
  0 < n < 2 ^ (2 * 2 ^ Z.of_nat j) -> 0 <= rv -> rv + 2 * 2 ^ Z.of_nat j < 256 ->
  log2_loop (masks_of j) n rv (2 ^ Z.of_nat j) = rv + Z.log2 n.
Proof.
  intros Hj. assert (Hlast : forall n rv, 0 < n < 2 -> log2_loop [] n rv 0 = rv + Z.log2 n)
    by (intros; replace n with 1 by lia; cbn; lia).
  induction j as [| j IH]; intros n rv Hn Hrv Hb; cbn [masks_of log2_loop].
  - change (2 ^ Z.of_nat 0) with 1 in *. rewrite land_mask by lia. change (Z.shiftr 1 1) with 0.
    destruct (Z.ltb_spec n (2 ^ 1)); cbn [negb]; [now apply Hlast; lia |].
    rewrite uint8_small by lia. f_equal. change (2 ^ 1) with 2 in *. change (2 ^ (2 * 1)) with 4 in *.
    now assert (n = 2 \/ n = 3) as [-> | ->] by lia.
  - set (e := 2 ^ Z.of_nat (S j)) in *. assert (He : 0 < e) by (apply Z.pow_pos_nonneg; lia).
    rewrite land_mask by lia. pose proof (Z.pow_pos_nonneg 2 e ltac:(lia) ltac:(lia)).
    assert (Hhalf : Z.shiftr e 1 = 2 ^ Z.of_nat j /\ e = 2 * 2 ^ Z.of_nat j).
    { unfold e. replace (Z.of_nat (S j)) with (Z.succ (Z.of_nat j)) by lia. rewrite Z.pow_succ_r by lia.
      rewrite Z.shiftr_div_pow2 by lia. change (2 ^ 1) with 2. rewrite Z.mul_comm, Z.div_mul by lia. lia. }
    destruct Hhalf as [-> Hee]. destruct (Z.ltb_spec n (2 ^ e)) as [Hlt | Hge]; cbn [negb].
    + rewrite (IH ltac:(lia)); [done | rewrite <- Hee; lia | done | lia].
    + rewrite uint8_small by lia. rewrite (IH ltac:(lia)); [rewrite (log2_step n e); lia | | lia | lia].
      rewrite <- Hee, Z.shiftr_div_pow2 by lia. split.
      * apply Z.div_str_pos; lia.
      * apply Z.div_lt_upper_bound; [lia |]. rewrite <- Z.pow_add_r by lia. now replace (e + e) with (2 * e) by lia.
Qed.

Lemma fastLog2Floor_log2 n : 0 < n < 2 ^ 32 -> fastLog2Floor n = Z.log2 n.
Proof. intros Hn. exact (log2_loop_spec 4 ltac:(lia) n 0 Hn ltac:(lia) ltac:(cbn; lia)). Qed.

(** The last entry is the first that reaches the genesis block. *)
Lemma locator_size_spec h : 0 <= h < 2 ^ 31 ->
  1 <= locator_size h <= h + 1 /\ h <= gap (locator_size h - 1) /\
  (forall i, 0 <= i < locator_size h - 1 -> gap i < h).
Proof.
  intros Hh. enough (Hk : exists k, locator_size h = k + 1 /\ 0 <= k /\ h <= gap k /\ (0 < k -> gap (k - 1) < h)).
  { destruct Hk as (k & -> & Hk & Hge & Hlt). replace (k + 1 - 1) with k by lia.
    assert (Hall : forall i, 0 <= i < k -> gap i < h).
    { intros i Hi. pose proof (gap_mono i (k - 1) ltac:(lia)). lia. }
    split_and!; try done; [lia |]. destruct (Z.eq_dec k 0) as [| Hnz]; [lia |].
    pose proof (gap_ge (k - 1) ltac:(lia)). lia. }
  unfold locator_size. destruct (Z.leb_spec h 12) as [Hle | Hgt].
  - exists h. rewrite !uint8_small by (rewrite ?uint8_small; lia).
    assert (Hc : h <= 10 \/ h = 11 \/ h = 12) by lia. destruct Hc as [Hc | [-> | ->]]; [| vm_compute; intuition discriminate..].
    unfold gap. replace (h <=? 10) with true by lia. replace (h - 1 <=? 10) with true by lia. lia.
  - rewrite (uint32_small h), uint32_small, fastLog2Floor_log2 by lia.
    pose proof (Z.log2_spec (h - 10) ltac:(lia)) as [Hl1 Hl2].
    assert (Hl : 1 <= Z.log2 (h - 10) < 32).
    { split; [change 1 with (Z.log2 2); apply Z.log2_le_mono; lia | apply Z.log2_lt_pow2; lia]. }
    rewrite uint8_small by lia. exists (11 + Z.log2 (h - 10)). split_and!; try lia; unfold gap.
    + replace (11 + Z.log2 (h - 10) <=? 10) with false by lia.
      replace (11 + Z.log2 (h - 10) - 10) with (Z.succ (Z.log2 (h - 10))) by lia. lia.
    + intros _. replace (11 + Z.log2 (h - 10) - 1 <=? 10) with false by lia.
      replace (11 + Z.log2 (h - 10) - 1 - 10) with (Z.log2 (h - 10)) by lia. lia.
Qed.
Lemma omap_seq {A} (f : nat -> option A) (k : nat) :
  (forall i, (i < k)%nat -> is_Some (f i)) ->
  length (omap f (seq 0 k)) = k /\ forall i, (i < k)%nat -> omap f (seq 0 k) !! i = f i.
Proof.
  induction k as [| k IH]; intros Hf; [split; [done | lia] |].
  destruct (IH ltac:(intros; apply Hf; lia)) as [Hl Hat]. destruct (Hf k ltac:(lia)) as [x Hx].
  rewrite seq_S, omap_app. cbn [seq omap list_omap Nat.add]. rewrite Hx, length_app. cbn [length].
  split; [lia |]. intros i Hi. destruct (decide (i = k)) as [-> | Hne].
  - now rewrite lookup_app_r, Hl, Nat.sub_diag, Hx by lia.
  - rewrite lookup_app_l by lia. apply Hat. lia.
Qed.

Lemma blockLocator_spec nodes t n :
  is_path nodes t -> height t < 2 ^ 31 - 1 -> in_tree n -> height n < 2 ^ 31 - 1 ->
  blockLocator nodes (Some n) = Ok (omap (locator_entry n) (seq 0 (Z.to_nat (locator_size (height n))))).
Proof.
  intros Hp Hb Hn Hnb. destruct (node_ok_height n (in_tree_ok n Hn)) as [H0 H1].
  destruct (locator_size_spec (height n) ltac:(lia)) as (Hsz & Hge & Hlt).
  set (k := Z.to_nat (locator_size (height n) - 1)).
  unfold blockLocator. rewrite (locator_loop_spec nodes t n k Hp Hb Hn Hnb) with (i := 0%nat); cycle 2.
  - intros i Hi. apply Hlt. unfold k in Hi. lia.
  - lia.
  - done.
  - change (gap (Z.of_nat 0)) with 0. rewrite Z.sub_0_r, Z.max_r by lia. apply at_height_self.
  - unfold k. lia.
  - intros _. reflexivity.
  - cbn [app]. do 2 f_equal. f_equal. unfold k. lia.
  - unfold k. rewrite Z2Nat.id by lia. exact Hge.
Qed.
End Tree.

(** ** Growing the tree *)

Lemma block_tree_first n : node_ok n -> parent n = None -> block_tree {[n_hash (data n) := n]}.
Proof.
  intros Hn Hp. constructor.
  - now intros h m [<- <-]%lookup_singleton_Some.
  - now intros h m [<- <-]%lookup_singleton_Some.
  - intros h m q [<- <-]%lookup_singleton_Some. congruence.
  - now intros h1 n1 h2 n2 [_ <-]%lookup_singleton_Some [_ <-]%lookup_singleton_Some.
Qed.

Lemma block_tree_child T n p :
  block_tree T -> parent n = Some p -> in_tree T p -> node_ok n -> T !! n_hash (data n) = None ->
  block_tree (<[n_hash (data n) := n]> T).
Proof.
  intros HT Hp Hpt Hn Hnew. constructor.
  - intros h m [[<- <-] | [_ Hm]]%lookup_insert_Some; [done | eapply tree_hash; eauto].
  - intros h m [[_ <-] | [_ Hm]]%lookup_insert_Some; [done | eapply tree_node; eauto].
  - intros h m q [[_ <-] | [_ Hm]]%lookup_insert_Some Hq; rewrite lookup_insert_ne.
    + now assert (q = p) as -> by congruence.
    + intros Heq. assert (q = p) as -> by congruence. unfold in_tree in Hpt. congruence.
    + eapply tree_parent; eauto.
    + intros Heq. pose proof (tree_parent T HT h m q Hm Hq). congruence.
  - intros h1 n1 h2 n2 [[_ <-] | [_ H1]]%lookup_insert_Some [[_ <-] | [_ H2]]%lookup_insert_Some Hr1 Hr2; try done; try congruence. eapply tree_root; eauto.
Qed.

(** * Properties *)

(** C24: setting the tip of a view of any branch, or of the empty view, to any
    node of the block tree succeeds and gives the branch of that node: by height
    the node and all its ancestors, whatever the old branch was.  Then exactly
    the nodes of the branch are contained, the node after one of them is its
    child on the branch, and the fork of any node of the tree is the last node
    its branch has in common with the view; it always exists. *)
Theorem chain_view (T : gmap bytes blockNode) (nodes : chainView) (n : blockNode) :
  block_tree T -> view_ok T nodes -> in_tree T n -> height n < 2 ^ 31 - 1 ->
  exists nodes', setTip (Some n) nodes = Ok nodes' /\ tip nodes' = Some n /\
    (forall h, nodeByHeight nodes' h = if (0 <=? h) && (h <=? height n) then at_height n h else None) /\
    (forall m, in_tree T m ->
      (contains nodes' m = true <-> height m <= height n /\ at_height n (height m) = Some m) /\
      (contains nodes' m = true -> m <> n -> exists c, next nodes' (Some m) = Some c /\ parent c = Some m) /\
      exists f, findFork nodes' (Some m) = Some f /\ contains nodes' f = true /\
        (forall h, common n m h <-> 0 <= h <= height f)).
Proof.
  intros HT Hv Hn Hb. destruct (setTip_spec T HT nodes n Hv Hn Hb) as (nodes' & Hset & Hp).
  exists nodes'. split; [done |]. split; [now apply (tip_path T HT) |].
  split; [intros h; now apply (nodeByHeight_path T HT) |]. intros m Hm.
  pose proof (contains_path T HT nodes' n m Hp Hb Hm) as Hc. split; [exact Hc |]. split.
  - intros Hin Hne. rewrite (next_path T HT nodes' n m) by done. destruct (proj1 Hc Hin) as [Hle Hat].
    destruct (Z.ltb_spec (height m) (height n)) as [Hlt | Hge].
    + destruct (at_height_child T HT n m Hn Hm Hlt Hat) as (c & Hc' & _ & Hpar). eauto.
    + exfalso. apply Hne. replace (height m) with (height n) in Hat by lia.
      rewrite at_height_self in Hat. congruence.
  - destruct (findFork_spec T HT nodes' n m Hp Hb Hm) as (f & Hf & Hcom & Hfat & Hmax). exists f. split; [done |].
    pose proof Hcom as (Hf0 & _ & _). destruct (at_height_Some T HT n (height f) Hn ltac:(lia)) as (f' & Hf' & Hft & _).
    assert (f' = f) as -> by congruence. split.
    + apply (contains_path T HT nodes' n f); [done | done | done | split; [lia | done]].
    + intros h. split; [intros Hh; pose proof (Hmax h Hh); destruct Hh; lia |].
      intros Hh. now apply (common_below T HT n m h (height f)).
Qed.

(** The locator of a node of the block tree has exactly as many entries as
    were allocated for it, twelve and the logarithm of the height above the
    first ones.  Its entries are the node, its ten predecessors one by one, then
    the ancestors at distances that double, and the genesis block as the last. *)
Lemma block_locator (T : gmap bytes blockNode) (nodes : chainView) (t n : blockNode) :
  block_tree T -> is_path T nodes t -> height t < 2 ^ 31 - 1 -> in_tree T n -> height n < 2 ^ 31 - 1 ->
  exists locator, blockLocator nodes (Some n) = Ok locator /\
    zlen locator = locator_size (height n) /\
    locator_size (height n) = (if height n <=? 12 then height n + 1 else 12 + Z.log2 (height n - 10)) /\
    locator !! 0%nat = Some (n_hash (data n)) /\
    last locator = option_map (fun m => n_hash (data m)) (at_height n 0) /\
    (forall i, (i < length locator)%nat -> locator !! i =
      option_map (fun m => n_hash (data m))
        (at_height n (Z.max 0 (height n - (if (i <=? 10)%nat then Z.of_nat i else 9 + 2 ^ (Z.of_nat i - 10)))))).
Proof.
  intros HT Hp Hb Hn Hnb. rewrite (blockLocator_spec T HT nodes t n) by done.
  destruct (node_ok_height n (in_tree_ok T HT n Hn)) as [H0 H1].
  destruct (locator_size_spec (height n) ltac:(lia)) as (Hsz & Hge & _).
  destruct (omap_seq (locator_entry n) (Z.to_nat (locator_size (height n)))) as [Hlen Hat].
  { intros i _. unfold locator_entry. pose proof (gap_ge (Z.of_nat i) ltac:(lia)).
    destruct (at_height_Some T HT n (Z.max 0 (height n - gap (Z.of_nat i))) Hn ltac:(lia)) as (m & -> & _). eauto. }
  eexists. split; [reflexivity |]. split; [unfold zlen; rewrite Hlen; lia |]. split; [| split; [| split]].
  - unfold locator_size. destruct (Z.leb_spec (height n) 12); [now rewrite (uint8_small (height n)), uint8_small by lia |].
    rewrite (uint32_small (height n)), uint32_small, fastLog2Floor_log2 by lia.
    pose proof (Z.log2_nonneg (height n - 10)).
    assert (Z.log2 (height n - 10) < 32) by (apply Z.log2_lt_pow2; lia).
    now rewrite uint8_small by lia.
  - rewrite Hat by lia. unfold locator_entry. change (gap (Z.of_nat 0)) with 0.
    now rewrite Z.sub_0_r, Z.max_r, at_height_self by lia.
  - rewrite last_lookup, Hlen, Hat by lia. unfold locator_entry.
    replace (Z.of_nat (Nat.pred (Z.to_nat (locator_size (height n))))) with (locator_size (height n) - 1) by lia.
    now rewrite Z.max_l by lia.
  - rewrite Hlen. intros i Hi. rewrite Hat by done. unfold locator_entry, gap.
    destruct (Z.leb_spec (Z.of_nat i) 10), (Nat.leb_spec i 10); done || lia.
Qed.

(** A genesis block with a branch of two nodes and a branch of one. *)
Definition example_node (p : option blockNode) (id : bytes) (h : Z) : blockNode :=
  Node p (match p with Some p => Ancestor p (getAncestorHeight h) | None => None end)
    (mkNodeData id 0 h 0 0 0 0 []).

Lemma example_node_ok p id h : node_ok p -> h = height p + 1 -> h < 2 ^ 31 -> node_ok (example_node (Some p) id h).
Proof. intros Hp Hh Hb. unfold example_node. now apply (child_ok p (mkNodeData id 0 h 0 0 0 0 [])). Qed.

Definition example_tree : list blockNode :=
  let g := example_node None [x00] 0 in
  let a := example_node (Some g) [x01] 1 in
  [g; a; example_node (Some a) [x02] 2; example_node (Some g) [x03] 1].

Definition example_index : gmap bytes blockNode :=
  foldl (fun T n => <[n_hash (data n) := n]> T) ∅ example_tree.

Lemma example_index_tree : block_tree example_index.
Proof.
  unfold example_index, example_tree. cbn [foldl].
  set (g := example_node None [x00] 0). set (a := example_node (Some g) [x01] 1).
  assert (Hg : node_ok g) by now constructor. assert (Ha : node_ok a) by now apply example_node_ok.
  apply (block_tree_child _ _ g); [| done | done | now apply example_node_ok | done].
  apply (block_tree_child _ _ a); [| done | done | now apply example_node_ok | done].
  apply (block_tree_child _ _ g); [| done | done | done | done].
  now apply (block_tree_first g).
Qed.

Lemma chain_view_witness :
  exists g a b c nodes, example_tree = [g; a; b; c] /\ setTip (Some b) [Some g; Some c] = Ok nodes /\
    contains nodes a = true /\ findFork nodes (Some c) = Some g.
Proof.
  pose (T := example_tree). unfold example_tree in T. cbn zeta in T.
  set (g := example_node None [x00] 0) in T. set (a := example_node (Some g) [x01] 1) in T.
  set (b := example_node (Some a) [x02] 2) in T. set (c := example_node (Some g) [x03] 1) in T.
  exists g, a, b, c. destruct (chain_view example_index [Some g; Some c] b) as (nodes & Hset & _).
  - apply example_index_tree.
  - right. exists c. constructor; [reflexivity | reflexivity |]. intros j Hj.
    change (height c) with 1 in Hj. assert (j = 0 \/ j = 1) as [-> | ->] by lia; reflexivity.
  - reflexivity.
  - reflexivity.
  - exists nodes. split; [reflexivity |]. split; [exact Hset |]. injection Hset as <-. split; reflexivity.
Defined.

Lemma block_locator_witness :
  exists locator, blockLocator (map Some (take 3 example_tree)) (last example_tree) = Ok locator /\ zlen locator = 2.
Proof.
  pose (T := example_tree). unfold example_tree in T. cbn zeta in T.
  set (g := example_node None [x00] 0) in T. set (a := example_node (Some g) [x01] 1) in T.
  set (b := example_node (Some a) [x02] 2) in T. set (c := example_node (Some g) [x03] 1) in T.
  destruct (block_locator example_index [Some g; Some a; Some b] b c) as (locator & Hrun & Hlen & Hsz & _).
  - apply example_index_tree.
  - constructor; [reflexivity | reflexivity |]. intros j Hj.
    change (height b) with 2 in Hj. assert (j = 0 \/ j = 1 \/ j = 2) as [-> | [-> | ->]] by lia; reflexivity.
  - reflexivity.
  - reflexivity.
  - reflexivity.
  - exists locator. split; [exact Hrun |]. rewrite Hlen, Hsz. reflexivity.
Defined.
