(* ===== verification/Threshold.v ===== *)
(** Voting on rule changes (src/btcd/blockchain/thresholdstate.go,
    src/btcd/blockchain/versionbits.go, src/btcd/chaincfg/deployment_time_frame.go
    and the deployments of src/btcd/chaincfg/params.go): the threshold states of
    deployments with their caches, and the reference they are proved against.

    A time is in seconds; the zero time is [None].  Checkers are values of a
    record, since the code passes them as an interface. *)

From stdpp Require Import gmap.
From S2P Require Import Prelude Slices Crypto WireCommon MsgTx MsgBlock BtcUtil WorkMath BlockIndex ChainView.
#[local] Open Scope Z_scope.

(** * Definitions *)

Inductive ThresholdState : Set :=
| ThresholdDefined
| ThresholdStarted
| ThresholdLockedIn
| ThresholdActive
| ThresholdFailed.

#[global] Instance ThresholdState_eq_dec : EqDecision ThresholdState.
Proof. solve_decision. Defined.

Inductive ThresholdError : Set :=
| DeploymentError
| ThresholdAssert.

Record ConsensusDeployment := mkDeployment {
  BitNumber : Z;
  MinActivationHeight : Z;
  CustomActivationThreshold : Z;
  startTime : option Z;
  endTime : option Z;
}.

(** The parameters that concern votes. *)
Record VoteParams := mkVoteParams {
  vp_RuleChangeActivationThreshold : Z;
  vp_MinerConfirmationWindow : Z;
  Deployments : list ConsensusDeployment;
}.

Definition DeploymentTestDummy : nat := 0.
Definition DeploymentTestDummyMinActivation : nat := 1.
Definition DeploymentCSV : nat := 2.
Definition DeploymentSegwit : nat := 3.
Definition DeploymentTaproot : nat := 4.

Definition MainNetVotes : VoteParams := {|
  vp_RuleChangeActivationThreshold := 1916;
  vp_MinerConfirmationWindow := 2016;
  Deployments := [
    mkDeployment 28 0 0 (Some 11991456010) (Some 1230767999);
    mkDeployment 22 100000 1815 None None;
    mkDeployment 0 0 0 (Some 1462060800) (Some 1493596800);
    mkDeployment 1 0 0 (Some 1479168000) (Some 1510704000);
    mkDeployment 2 709632 1815 (Some 1619222400) (Some 1628640000)
  ]
|}.

Abbreviation state_cache := (gmap bytes ThresholdState).

(** The caches of a chain, and whether it has warned of unknown rules. *)
Record Caches := mkCaches {
  deploymentCaches : list state_cache;
  warningCaches : list state_cache;
  unknownRulesWarned : bool;
}.

Definition newThresholdCaches (numCaches : nat) : list state_cache := replicate numCaches ∅.

(** A pointer to one of the caches. *)
Inductive cache_id : Set :=
| DeploymentCache (id : nat)
| WarningCache (bit : nat).

Abbreviation TM := (M Caches ThresholdError).

Definition Lookup (id : cache_id) (hash : bytes) (s : Caches) : option ThresholdState :=
  match id with
  | DeploymentCache i => deploymentCaches s !! i ≫= fun c => c !! hash
  | WarningCache i => warningCaches s !! i ≫= fun c => c !! hash
  end.

Definition Update (id : cache_id) (hash : bytes) (state : ThresholdState) (s : Caches) : Caches :=
  let f := alter (fun c : state_cache => <[hash := state]> c) in
  match id with
  | DeploymentCache i => mkCaches (f i (deploymentCaches s)) (warningCaches s) (unknownRulesWarned s)
  | WarningCache i => mkCaches (deploymentCaches s) (f i (warningCaches s)) (unknownRulesWarned s)
  end.

Record thresholdConditionChecker := mkChecker {
  HasStarted : blockNode -> bool;
  HasEnded : blockNode -> bool;
  RuleChangeActivationThreshold : Z;
  MinerConfirmationWindow : Z;
  EligibleToActivate : blockNode -> bool;
  IsSpeedy : bool;
  Condition : blockNode -> TM bool;
}.

(** ** Transitions *)

(** The votes of the blocks of a window, from its last one back.  The method of a
    nil node panics. *)
Fixpoint count_votes (checker : thresholdConditionChecker) (i : nat) (countNode : option blockNode) (count : Z)
  : TM Z :=
  match i with
  | O => ret count
  | S i' =>
      match countNode with
      | None => panic
      | Some n =>
          condition <- Condition checker n;;
          count_votes checker i' (parent n) (if condition : bool then uint32 (count + 1) else count)
      end
  end.

Definition thresholdStateTransition (state : ThresholdState) (prevNode : blockNode)
    (checker : thresholdConditionChecker) (confirmationWindow : Z) : TM ThresholdState :=
  match state with
  | ThresholdDefined =>
      if negb (IsSpeedy checker) && HasEnded checker prevNode then ret ThresholdFailed
      else if HasStarted checker prevNode then ret ThresholdStarted
      else ret state
  | ThresholdStarted =>
      if negb (IsSpeedy checker) && HasEnded checker prevNode then ret ThresholdFailed else
      count <- count_votes checker (Z.to_nat confirmationWindow) (Some prevNode) 0;;
      if count >=? RuleChangeActivationThreshold checker then ret ThresholdLockedIn
      else if IsSpeedy checker && HasEnded checker prevNode then ret ThresholdFailed
      else ret state
  | ThresholdLockedIn =>
      if negb (EligibleToActivate checker prevNode) then ret ThresholdLockedIn else ret ThresholdActive
  | ThresholdActive => ret state
  | ThresholdFailed => ret state
  end.

(** ** States *)

(** Back by windows to one with a cached state.  The nodes passed on the way
    are collected, the oldest first. *)
Fixpoint find_cached (fuel : nat) (checker : thresholdConditionChecker) (cache : cache_id)
    (confirmationWindow : Z) (prevNode : option blockNode) (neededStates : list blockNode)
  : TM (option blockNode * list blockNode) :=
  match prevNode with
  | None => ret (None, neededStates)
  | Some n =>
      match fuel with
      | O => ret (Some n, neededStates)
      | S fuel' =>
          cached <- gets (Lookup cache (n_hash (data n)));;
          match cached with
          | Some _ => ret (Some n, neededStates)
          | None =>
              if negb (HasStarted checker n) then
                modify (Update cache (n_hash (data n)) ThresholdDefined);; ret (Some n, neededStates)
              else
                find_cached fuel' checker cache confirmationWindow (RelativeAncestor n confirmationWindow)
                  (n :: neededStates)
          end
      end
  end.

Fixpoint compute_states (checker : thresholdConditionChecker) (cache : cache_id) (confirmationWindow : Z)
    (neededStates : list blockNode) (state : ThresholdState) : TM ThresholdState :=
  match neededStates with
  | [] => ret state
  | n :: rest =>
      state <- thresholdStateTransition state n checker confirmationWindow;;
      modify (Update cache (n_hash (data n)) state);;
      compute_states checker cache confirmationWindow rest state
  end.

(** The height decreases by a window in every round. *)
Definition thresholdState (prevNode : option blockNode) (checker : thresholdConditionChecker) (cache : cache_id)
  : TM ThresholdState :=
  let confirmationWindow := int32 (MinerConfirmationWindow checker) in
  match prevNode with
  | None => ret ThresholdDefined
  | Some n =>
      if int32 (height n + 1) <? confirmationWindow then ret ThresholdDefined else
      if confirmationWindow =? 0 then panic else
      let start := Ancestor n (int32 (height n - Z.rem (int32 (height n + 1)) confirmationWindow)) in
      r <- find_cached (S (Z.to_nat (height n))) checker cache confirmationWindow start [];;
      state <- match fst r with
               | None => ret ThresholdDefined
               | Some m =>
                   cached <- gets (Lookup cache (n_hash (data m)));;
                   match cached with Some state => ret state | None => fail ThresholdAssert end
               end;;
      compute_states checker cache confirmationWindow (snd r) state
  end.

(** ** Deployments *)

Inductive ClockError : Set := ErrNoBlockClock | ErrNoPreviousNode.

Section Checkers.
Context `{Crypto} (index : gmap bytes blockNode) (params : VoteParams).

Definition PastMedianTime (blockHeader : BlockHeader) : outcome ClockError Z :=
  match index !! PrevBlock blockHeader with
  | None => Err ErrNoPreviousNode
  | Some prevNode =>
      match CalcPastMedianTime (newBlockNode blockHeader (Some prevNode)) with Ok t => Ok t | _ => Panic end
  end.

(** The clock is the chain once it is synchronized. *)
Definition starter_HasStarted (synchronized : bool) (startTime : option Z) (blkHeader : BlockHeader)
  : outcome ClockError bool :=
  if negb synchronized then Err ErrNoBlockClock else
  match startTime with
  | None => Ok true
  | Some t => let! medianTime := PastMedianTime blkHeader in Ok ((medianTime >? t) || (medianTime =? t))
  end.

Definition ender_HasEnded (synchronized : bool) (endTime : option Z) (blkHeader : BlockHeader)
  : outcome ClockError bool :=
  if negb synchronized then Err ErrNoBlockClock else
  match endTime with
  | None => Ok false
  | Some t => let! medianTime := PastMedianTime blkHeader in Ok ((medianTime >? t) || (medianTime =? t))
  end.

(** Errors are ignored.  The median of a node is never out of range. *)
Definition no_err {E} (o : outcome E bool) : bool := match o with Ok b => b | _ => false end.

Definition vbTopBits : Z := 0x20000000.
Definition vbTopMask : Z := 0xe0000000.
Definition vbNumBits : nat := 29.

(** [uint32(1) << bit] *)
Definition condition_mask (bit : Z) : Z := uint32 (Z.shiftl 1 bit).

Definition signals (bit version : Z) : bool :=
  (Z.land (uint32 version) vbTopMask =? vbTopBits) && negb (Z.land (uint32 version) (condition_mask bit) =? 0).

Definition deploymentChecker (deployment : ConsensusDeployment) : thresholdConditionChecker := {|
  HasStarted n := no_err (starter_HasStarted true (startTime deployment) (node_Header n));
  HasEnded n := no_err (ender_HasEnded true (endTime deployment) (node_Header n));
  RuleChangeActivationThreshold :=
    if negb (CustomActivationThreshold deployment =? 0) then CustomActivationThreshold deployment
    else vp_RuleChangeActivationThreshold params;
  MinerConfirmationWindow := vp_MinerConfirmationWindow params;
  EligibleToActivate n :=
    if MinActivationHeight deployment =? 0 then true
    else uint32 (uint32 (height n) + 1) >=? MinActivationHeight deployment;
  IsSpeedy := negb (MinActivationHeight deployment =? 0) || negb (CustomActivationThreshold deployment =? 0);
  Condition n := ret (signals (BitNumber deployment) (n_version (data n)));
|}.

Fixpoint next_version (id : nat) (l : list ConsensusDeployment) (prevNode : option blockNode) (expectedVersion : Z)
  : TM Z :=
  match l with
  | [] => ret expectedVersion
  | deployment :: l' =>
      state <- thresholdState prevNode (deploymentChecker deployment) (DeploymentCache id);;
      next_version (S id) l' prevNode
        (if bool_decide (state = ThresholdStarted \/ state = ThresholdLockedIn)
         then Z.lor expectedVersion (condition_mask (BitNumber deployment)) else expectedVersion)
  end.

Definition calcNextBlockVersion (prevNode : option blockNode) : TM Z :=
  expectedVersion <- next_version 0 (Deployments params) prevNode vbTopBits;;
  ret (int32 expectedVersion).

Definition bitConditionChecker (bit : Z) : thresholdConditionChecker := {|
  HasStarted _ := true;
  HasEnded _ := false;
  RuleChangeActivationThreshold := vp_RuleChangeActivationThreshold params;
  MinerConfirmationWindow := vp_MinerConfirmationWindow params;
  EligibleToActivate _ := true;
  IsSpeedy := false;
  Condition n :=
    if negb (signals bit (n_version (data n))) then ret false else
    expectedVersion <- calcNextBlockVersion (parent n);;
    ret (Z.land (uint32 expectedVersion) (condition_mask bit) =? 0);
|}.

Definition deploymentState (prevNode : option blockNode) (deploymentID : nat) : TM ThresholdState :=
  if (length (Deployments params) <? deploymentID)%nat then fail DeploymentError else
  match Deployments params !! deploymentID with
  | None => panic
  | Some deployment => thresholdState prevNode (deploymentChecker deployment) (DeploymentCache deploymentID)
  end.

Definition ThresholdState_ (best : chainView) (deploymentID : nat) : TM ThresholdState :=
  deploymentState (tip best) deploymentID.

Definition IsDeploymentActive (best : chainView) (deploymentID : nat) : TM bool :=
  state <- deploymentState (tip best) deploymentID;;
  ret (bool_decide (state = ThresholdActive)).

Fixpoint warn_bits (bits : list nat) (node : blockNode) : TM unit :=
  match bits with
  | [] => ret tt
  | bit :: bits' =>
      state <- thresholdState (parent node) (bitConditionChecker (Z.of_nat bit)) (WarningCache bit);;
      (if bool_decide (state = ThresholdActive)
       then modify (fun s => mkCaches (deploymentCaches s) (warningCaches s) true) else ret tt);;
      warn_bits bits' node
  end.

Definition warnUnknownRuleActivations (node : blockNode) : TM unit := warn_bits (seq 0 vbNumBits) node.

(** All caches are filled once. *)
Fixpoint fill_warnings (bits : list nat) (prevNode : option blockNode) : TM unit :=
  match bits with
  | [] => ret tt
  | bit :: bits' =>
      thresholdState prevNode (bitConditionChecker (Z.of_nat bit)) (WarningCache bit);;
      fill_warnings bits' prevNode
  end.

Fixpoint fill_deployments (id : nat) (l : list ConsensusDeployment) (prevNode : option blockNode) : TM unit :=
  match l with
  | [] => ret tt
  | deployment :: l' =>
      thresholdState prevNode (deploymentChecker deployment) (DeploymentCache id);;
      fill_deployments (S id) l' prevNode
  end.

Definition initThresholdCaches (best : chainView) (isCurrent : bool) : TM unit :=
  match tip best with
  | None => panic
  | Some bestNode =>
      fill_warnings (seq 0 vbNumBits) (parent bestNode);;
      fill_deployments 0 (Deployments params) (parent bestNode);;
      if isCurrent then warnUnknownRuleActivations bestNode else ret tt
  end.
End Checkers.

(** * The reference *)

(** What a checker decides, without caches. *)
Record rules := mkRules {
  started : blockNode -> bool;
  ended : blockNode -> bool;
  threshold : Z;
  window : Z;
  eligible : blockNode -> bool;
  speedy : bool;
  vote : blockNode -> bool;
}.

(** The votes of a node and the [k - 1] before it. *)
Fixpoint votes (r : rules) (k : nat) (n : option blockNode) : Z :=
  match k, n with
  | S k', Some n => (if vote r n then 1 else 0) + votes r k' (parent n)
  | _, _ => 0
  end.

(** The state after a window, from the state before it and its last node. *)
Definition transition (r : rules) (state : ThresholdState) (n : blockNode) : ThresholdState :=
  match state with
  | ThresholdDefined =>
      if negb (speedy r) && ended r n then ThresholdFailed
      else if started r n then ThresholdStarted else ThresholdDefined
  | ThresholdStarted =>
      if negb (speedy r) && ended r n then ThresholdFailed
      else if votes r (Z.to_nat (window r)) (Some n) >=? threshold r then ThresholdLockedIn
      else if ended r n then ThresholdFailed else ThresholdStarted
  | ThresholdLockedIn => if eligible r n then ThresholdActive else ThresholdLockedIn
  | ThresholdActive => ThresholdActive
  | ThresholdFailed => ThresholdFailed
  end.

(** The last node of the window [k] on the chain of a node. *)
Definition window_end (r : rules) (k : nat) (n : blockNode) : option blockNode :=
  at_height n (Z.of_nat (S k) * window r - 1).

(** The state after [k] windows: every rule change is defined at first. *)
Fixpoint state_after (r : rules) (k : nat) (n : blockNode) : ThresholdState :=
  match k with
  | O => ThresholdDefined
  | S k' =>
      match window_end r k' n with
      | Some e => transition r (state_after r k' n) e
      | None => ThresholdDefined
      end
  end.

(** The state for the block after a node depends on the full windows below it. *)
Definition state_for (r : rules) (prevNode : option blockNode) : ThresholdState :=
  match prevNode with
  | None => ThresholdDefined
  | Some n => state_after r (Z.to_nat ((height n + 1) / window r)) n
  end.

Record rules_ok (T : gmap bytes blockNode) (r : rules) : Prop := {
  window_range : 0 < window r < 2 ^ 31;
  started_later n p : in_tree T n -> parent n = Some p -> started r p = true -> started r n = true;
  ended_started n : in_tree T n -> speedy r = false -> ended r n = true -> started r n = true;
}.

(** A checker decides by the rules, in states that satisfy an invariant. *)
Record checks (T : gmap bytes blockNode) (Inv : Caches -> Prop) (c : thresholdConditionChecker) (r : rules) : Prop := {
  check_started n : in_tree T n -> HasStarted c n = started r n;
  check_ended n : in_tree T n -> started r n = true -> HasEnded c n = ended r n;
  check_threshold : RuleChangeActivationThreshold c = threshold r;
  check_window : MinerConfirmationWindow c = window r;
  check_eligible n : in_tree T n -> EligibleToActivate c n = eligible r n;
  check_speedy : IsSpeedy c = speedy r;
  check_vote n s : in_tree T n -> Inv s -> exists s', Condition c n s = (Ok (vote r n), s') /\ Inv s';
}.

(** What a cache holds is right. *)
Definition cache_valid (T : gmap bytes blockNode) (r : rules) (id : cache_id) (s : Caches) : Prop :=
  forall n st, in_tree T n -> Lookup id (n_hash (data n)) s = Some st -> st = state_for r (Some n).

Section Equivalence.
Context (T : gmap bytes blockNode) (HT : block_tree T) (r : rules) (Hr : rules_ok T r).

#[local] Abbreviation W := (window r).
#[local] Abbreviation in_tree := (in_tree T).

(** ** Windows *)

Lemma state_after_at n m j k :
  in_tree n -> at_height n j = Some m -> j <= height n -> Z.of_nat k * W <= j + 1 ->
  state_after r k n = state_after r k m.
Proof.
  intros Hn Hm Hj. pose proof (window_range T r Hr) as [HW _]. induction k as [| k IH]; intros Hk; [done |].
  cbn [state_after]. unfold window_end. rewrite (at_height_trans T HT n m _ j) by (done || nia).
  rewrite IH by nia. done.
Qed.

(** The last node of the window before the one that a node ends. *)
Definition prev_end (n : blockNode) : option blockNode :=
  if W <=? height n then at_height n (height n - W) else None.

Definition ends_window (n : blockNode) : Prop := (height n + 1) mod W = 0.

Lemma prev_end_ok n p : in_tree n -> ends_window n -> prev_end n = Some p ->
  in_tree p /\ ends_window p /\ height p = height n - W.
Proof.
  unfold prev_end, ends_window. intros Hn He Hp. pose proof (window_range T r Hr) as [HW _].
  destruct (Z.leb_spec W (height n)); [| discriminate].
  destruct (at_height_Some T HT n (height n - W) Hn ltac:(lia)) as (m & Hm & Hmt & Hmh).
  assert (m = p) as -> by congruence. split_and!; try done. rewrite Hmh.
  replace (height n - W + 1) with (height n + 1 + (-1) * W) by lia. now rewrite Z_mod_plus_full.
Qed.

Lemma state_for_step n : in_tree n -> ends_window n -> state_for r (Some n) = transition r (state_for r (prev_end n)) n.
Proof.
  intros Hn He. pose proof (window_range T r Hr) as [HW _]. destruct (node_ok_height n (in_tree_ok T HT n Hn)) as [H0 _].
  unfold ends_window in He. pose proof (Z.div_mod (height n + 1) W ltac:(lia)) as Hdm. rewrite He in Hdm.
  set (q := (height n + 1) / W) in *. assert (Hq : 1 <= q) by nia.
  cbn [state_for]. fold q. replace (Z.to_nat q) with (S (Z.to_nat (q - 1))) by lia. cbn [state_after].
  unfold window_end. replace (Z.of_nat (S (Z.to_nat (q - 1))) * W - 1) with (height n) by nia.
  rewrite at_height_self. f_equal. unfold prev_end. destruct (Z.leb_spec W (height n)) as [Hle | Hgt].
  - destruct (at_height_Some T HT n (height n - W) Hn ltac:(lia)) as (m & Hm & _ & Hmh). rewrite Hm. cbn [state_for].
    rewrite Hmh. replace (height n - W + 1) with ((q - 1) * W) by lia. rewrite Z.div_mul by lia.
    apply (state_after_at n m (height n - W)); [done | done | lia | nia].
  - assert (q = 1) by nia. now replace (Z.to_nat (q - 1)) with 0%nat by lia.
Qed.

Lemma prev_end_not_started n p : in_tree n -> prev_end n = Some p -> started r n = false -> started r p = false.
Proof.
  intros Hn Hp Hs. unfold prev_end in Hp. destruct (W <=? height n); [| discriminate].
  unfold at_height in Hp. set (i := Z.to_nat (height n - (height n - W))) in Hp. clearbody i. revert n Hn Hp Hs. induction i as [| k IH]; intros n Hn Hp Hs; cbn [back] in Hp.
  - now injection Hp as <-.
  - cbn [Parent blockNode_ctx] in Hp. destruct (parent n) as [q |] eqn:Hq; [| discriminate].
    apply (IH q); [eapply in_tree_parent; eauto | done |].
    destruct (started r q) eqn:Hsq; [| done]. rewrite (started_later T r Hr n q) in Hs; done.
Qed.

Lemma not_started_defined n : in_tree n -> ends_window n -> started r n = false -> state_for r (Some n) = ThresholdDefined.
Proof.
  pose proof (window_range T r Hr) as [HW _]. remember (Z.to_nat (height n)) as k eqn:Hk. revert n Hk.
  induction k as [k IH] using lt_wf_ind. intros n Hk Hn He Hs. rewrite state_for_step by done.
  assert (Hprev : state_for r (prev_end n) = ThresholdDefined).
  { destruct (prev_end n) as [p |] eqn:Hp; [| done]. destruct (prev_end_ok n p Hn He Hp) as (Hpt & Hpe & Hph).
    destruct (node_ok_height p (in_tree_ok T HT p Hpt)).
    apply (IH (Z.to_nat (height p))); [lia | done | done | done | now apply (prev_end_not_started n)]. }
  rewrite Hprev. cbn [transition]. rewrite Hs. destruct (speedy r) eqn:Hsp; [done |]. cbn [negb andb].
  destruct (ended r n) eqn:Hen; [| done]. rewrite (ended_started T r Hr n) in Hs; done.
Qed.

(** ** The code *)

Context (Inv : Caches -> Prop) (c : thresholdConditionChecker) (id : cache_id) (Hc : checks T Inv c r).
Hypothesis Inv_valid : forall s, Inv s -> cache_valid T r id s.
Hypothesis Inv_slot : forall s h st, Inv s -> Lookup id h (Update id h st s) = Some st.
Hypothesis Inv_update : forall s n, Inv s -> in_tree n -> Inv (Update id (n_hash (data n)) (state_for r (Some n)) s).

Lemma votes_range k n : 0 <= votes r k n <= Z.of_nat k.
Proof.
  revert n. induction k as [| k IH]; intros n; cbn [votes]; [lia |]. destruct n as [n |]; [| lia].
  pose proof (IH (parent n)). destruct (vote r n); lia.
Qed.

Lemma count_votes_spec k : forall n count s,
  in_tree n -> Inv s -> Z.of_nat k <= height n + 1 -> 0 <= count -> count + Z.of_nat k < 2 ^ 32 ->
  exists s', count_votes c k (Some n) count s = (Ok (count + votes r k (Some n)), s') /\ Inv s'.
Proof.
  induction k as [| k IH]; intros n count s Hn Hs Hk Hc0 Hb; cbn [count_votes votes].
  { exists s. now rewrite Z.add_0_r. }
  destruct (check_vote T Inv c r Hc n s Hn Hs) as (s1 & Hv & Hs1). rewrite bind_eq, Hv.
  assert (Hcount : (if vote r n then uint32 (count + 1) else count) = count + (if vote r n then 1 else 0))
    by (destruct (vote r n); [rewrite uint32_small; lia | lia]).
  rewrite Hcount, Z.add_assoc. destruct (parent n) as [p |] eqn:Hp.
  - destruct (parent_ok n p (in_tree_ok T HT n Hn) Hp) as [_ Hph].
    apply IH; [eapply in_tree_parent; eauto | done | lia | destruct (vote r n); lia | destruct (vote r n); lia].
  - apply root_height in Hp; [| now apply (in_tree_ok T HT)]. assert (k = 0%nat) as -> by lia.
    cbn [count_votes votes]. exists s1. now rewrite Z.add_0_r.
Qed.

Lemma transition_spec n st s :
  in_tree n -> started r n = true -> Inv s -> W <= height n + 1 ->
  exists s', thresholdStateTransition st n c W s = (Ok (transition r st n), s') /\ Inv s'.
Proof.
  intros Hn Hstarted Hs Hw. pose proof (window_range T r Hr) as [HW HWb].
  destruct Hc as [Hst Hen Hth _ Hel Hsp _]. destruct st; cbn [thresholdStateTransition transition].
  - rewrite Hst, Hen, Hsp by done. exists s. destruct (negb (speedy r) && ended r n), (started r n); done.
  - rewrite Hen, Hsp by done. destruct (negb (speedy r) && ended r n) eqn:Hne; [now exists s |].
    destruct (count_votes_spec (Z.to_nat W) n 0 s Hn Hs ltac:(lia) ltac:(lia) ltac:(lia)) as (s1 & Hv & Hs1).
    exists s1. rewrite Z.add_0_l in Hv. rewrite bind_eq, Hv, Hth. split; [| done].
    destruct (votes r (Z.to_nat W) (Some n) >=? threshold r); [done |].
    destruct (speedy r), (ended r n); done.
  - rewrite Hel by done. exists s. now destruct (eligible r n).
  - now exists s.
  - now exists s.
Qed.

Lemma RelativeAncestor_end n : in_tree n -> RelativeAncestor n W = prev_end n.
Proof.
  intros Hn. pose proof (window_range T r Hr) as [HW HWb]. destruct (node_ok_height n (in_tree_ok T HT n Hn)) as [H0 H1].
  unfold RelativeAncestor, prev_end. rewrite int32_small by lia. destruct (Z.leb_spec W (height n)).
  - rewrite Ancestor_back by (lia || now apply (in_tree_ok T HT)). reflexivity.
  - unfold Ancestor. now replace (height n - W <? 0) with true by lia.
Qed.

(** The nodes between a window and a later one. *)
Fixpoint ladder (p : option blockNode) (l : list blockNode) (q : option blockNode) : Prop :=
  match l with
  | [] => p = q
  | x :: l' => in_tree x /\ ends_window x /\ started r x = true /\ prev_end x = p /\ ladder (Some x) l' q
  end.

Definition known (p : option blockNode) (s : Caches) : Prop :=
  match p with
  | None => True
  | Some m => Lookup id (n_hash (data m)) s = Some (state_for r (Some m))
  end.

Lemma find_cached_spec fuel : forall p acc q s,
  match p with Some n => in_tree n /\ ends_window n /\ (Z.to_nat (height n) < fuel)%nat | None => True end ->
  ladder p acc q -> Inv s ->
  exists s' m l, find_cached fuel c id W p acc s = (Ok (m, l), s') /\ Inv s' /\ ladder m l q /\ known m s'.
Proof.
  pose proof (window_range T r Hr) as [HW HWb].
  induction fuel as [| fuel IH]; intros p acc q s Hp Hl Hs; destruct p as [n |]; cbn [find_cached].
  1: destruct Hp as (_ & _ & Hf); lia. 1, 3: exists s, None, acc; now split_and!.
  destruct Hp as (Hn & He & Hf). rewrite bind_eq. cbn [gets].
  destruct (Lookup id (n_hash (data n)) s) as [st |] eqn:Hlk.
  { exists s, (Some n), acc. split_and!; try done. cbn [known]. rewrite Hlk. f_equal. now apply (Inv_valid s Hs n). }
  rewrite (check_started T Inv c r Hc n Hn). destruct (started r n) eqn:Hst; cbn [negb].
  - rewrite RelativeAncestor_end by done. apply IH; [| now split_and! | done].
    destruct (prev_end n) as [p |] eqn:Hp; [| done]. destruct (prev_end_ok n p Hn He Hp) as (Hpt & Hpe & Hph).
    destruct (node_ok_height p (in_tree_ok T HT p Hpt)). split_and!; [done | done | lia].
  - rewrite <- (not_started_defined n Hn He Hst). rewrite bind_eq. cbn [modify].
    eexists _, (Some n), acc. split; [reflexivity |]. split_and!; [now apply Inv_update | done |].
    cbn [known]. now apply Inv_slot.
Qed.

Lemma compute_states_spec l : forall p q s,
  ladder p l q -> Inv s ->
  exists s', compute_states c id W l (state_for r p) s = (Ok (state_for r q), s') /\ Inv s'.
Proof.
  pose proof (window_range T r Hr) as [HW HWb].
  induction l as [| n l IH]; intros p q s Hl Hs; cbn [compute_states ladder] in *; [subst; now exists s |].
  destruct Hl as (Hn & He & Hst & Hp & Hl). destruct (node_ok_height n (in_tree_ok T HT n Hn)) as [H0 _].
  destruct (transition_spec n (state_for r p) s Hn Hst Hs) as (s1 & Hrun & Hs1).
  { unfold ends_window in He. pose proof (Z.div_mod (height n + 1) W ltac:(lia)). 
    assert (1 <= (height n + 1) / W) by nia. nia. }
  rewrite bind_eq, Hrun, bind_eq. cbn [modify].
  rewrite <- Hp, <- (state_for_step n Hn He). apply (IH (Some n)); [done |]. now apply Inv_update.
Qed.

Lemma thresholdState_spec prevNode s :
  match prevNode with Some n => in_tree n /\ height n < 2 ^ 31 - 1 | None => True end -> Inv s ->
  exists s', thresholdState prevNode c id s = (Ok (state_for r prevNode), s') /\ Inv s'.
Proof.
  intros Hp Hs. pose proof (window_range T r Hr) as [HW HWb].
  unfold thresholdState. rewrite (check_window T Inv c r Hc), int32_small by lia.
  destruct prevNode as [n |]; [| now exists s]. destruct Hp as [Hn Hb].
  destruct (node_ok_height n (in_tree_ok T HT n Hn)) as [H0 _]. rewrite (int32_small (height n + 1)) by lia.
  destruct (Z.ltb_spec (height n + 1) W) as [Hlt | Hge].
  { exists s. cbn [state_for]. now rewrite Z.div_small by lia. }
  replace (W =? 0) with false by lia. rewrite Z.rem_mod_nonneg by lia.
  pose proof (Z.mod_pos_bound (height n + 1) W HW) as Hm. pose proof (Z.div_mod (height n + 1) W ltac:(lia)) as Hdm.
  set (q := (height n + 1) / W) in *. assert (Hq : 1 <= q) by nia.
  set (j := height n - (height n + 1) mod W). assert (Hj : j = q * W - 1) by (unfold j; nia).
  rewrite int32_small by nia. rewrite Ancestor_back by (nia || now apply (in_tree_ok T HT)).
  fold (at_height n j). destruct (at_height_Some T HT n j Hn ltac:(nia)) as (e & He & Het & Heh). rewrite He.
  assert (Hend : ends_window e).
  { unfold ends_window. rewrite Heh, Hj. replace (q * W - 1 + 1) with (q * W) by lia. apply Z_mod_mult. }
  assert (Hst : state_for r (Some n) = state_for r (Some e)).
  { cbn [state_for]. fold q. rewrite Heh, Hj. replace (q * W - 1 + 1) with (q * W) by lia. rewrite Z.div_mul by lia.
    apply (state_after_at n e j); [done | done | nia | nia]. }
  rewrite Hst. destruct (find_cached_spec (S (Z.to_nat (height n))) (Some e) [] (Some e) s) as (s1 & m & l & Hf & Hs1 & Hl & Hk);
    [split_and!; [done | done | nia] | done | done |].
  rewrite bind_eq, Hf. cbn [fst snd]. destruct m as [m |]; cbn [known] in Hk.
  - rewrite bind_eq. cbn [gets]. rewrite bind_eq. cbn [gets]. rewrite Hk. cbn [ret].
    exact (compute_states_spec l (Some m) (Some e) s1 Hl Hs1).
  - rewrite bind_eq. cbn [ret]. exact (compute_states_spec l None (Some e) s1 Hl Hs1).
Qed.
End Equivalence.

(** * The past median time does not decrease *)

Definition median_time (n : blockNode) : Z := match CalcPastMedianTime n with Ok t => t | _ => 0 end.

Lemma median_time_spec n :
  CalcPastMedianTime n = Ok (median_time n) /\
  let ts := past_timestamps medianTimeBlocks (Some n) in
  2 * zlen (filter (fun x => x < median_time n) ts) <= zlen ts /\
  2 * zlen (filter (fun x => median_time n < x) ts) < zlen ts.
Proof.
  destruct (median_spec (past_timestamps medianTimeBlocks (Some n))) as (m & Hm & _ & Hlo & Hhi); [done |].
  assert (Hc : CalcPastMedianTime n = Ok m) by exact Hm.
  assert (Heq : median_time n = m) by (unfold median_time; now rewrite Hc). rewrite Heq. done.
Qed.

Lemma past_timestamps_S k n :
  past_timestamps (S k) (Some n) = n_timestamp (data n) :: past_timestamps k (parent n).
Proof. reflexivity. Qed.

Lemma past_timestamps_take k : forall j n, past_timestamps k n = take k (past_timestamps (k + j) n).
Proof. induction k as [| k IH]; intros j [n |]; cbn; try done. f_equal. apply IH. Qed.

Lemma past_timestamps_length k n : (length (past_timestamps k n) <= k)%nat.
Proof. revert n. induction k as [| k IH]; intros [n |]; cbn; try lia. specialize (IH (parent n)). lia. Qed.

Lemma filter_split (m : Z) (l : list Z) :
  zlen (filter (fun x => x < m) l) + zlen (filter (fun x => m <= x) l) = zlen l.
Proof.
  induction l as [| x l IH]; [done |]. rewrite !filter_cons. unfold zlen in *.
  destruct (decide (x < m)), (decide (m <= x)); cbn [length]; lia.
Qed.

Lemma filter_le_lt (m m' : Z) (l : list Z) :
  m' < m -> zlen (filter (fun x => m <= x) l) <= zlen (filter (fun x => m' < x) l).
Proof.
  intros Hlt. induction l as [| x l IH]; [done |]. rewrite !filter_cons. unfold zlen in *.
  destruct (decide (m <= x)), (decide (m' < x)); cbn [length]; lia.
Qed.

Lemma filter_take (m : Z) k (l : list Z) :
  zlen (filter (fun x => m <= x) l) <= zlen (filter (fun x => m <= x) (take k l)) + (zlen l - zlen (take k l)).
Proof.
  rewrite <- (take_drop k l) at 1 3. rewrite filter_app. unfold zlen. rewrite !length_app.
  pose proof (length_filter (fun x => m <= x) (drop k l)). lia.
Qed.

(** A block that is later than the median of its predecessors does not lower it. *)
Lemma median_time_mono n p :
  parent n = Some p -> median_time p < n_timestamp (data n) -> median_time p <= median_time n.
Proof.
  intros Hp Ht. destruct (Z.le_gt_cases (median_time p) (median_time n)) as [| Hgt]; [done | exfalso].
  destruct (median_time_spec p) as (_ & Hlo & _). destruct (median_time_spec n) as (_ & _ & Hhi).
  set (tp := past_timestamps medianTimeBlocks (Some p)) in *.
  assert (Htn : past_timestamps medianTimeBlocks (Some n) = n_timestamp (data n) :: take 10 tp).
  { unfold medianTimeBlocks. rewrite past_timestamps_S, Hp. f_equal. apply (past_timestamps_take 10 1). }
  rewrite Htn in Hhi. rewrite filter_cons, decide_True in Hhi by lia.
  pose proof (filter_split (median_time p) tp). pose proof (filter_le_lt (median_time p) (median_time n) (take 10 tp) Hgt).
  pose proof (filter_take (median_time p) 10 tp). pose proof (past_timestamps_length medianTimeBlocks (Some p)) as Hlen.
  fold tp in Hlen. unfold zlen, medianTimeBlocks in *. cbn [length] in *. rewrite length_take in *. lia.
Qed.

(** * Deployments *)

Section Deployed.
Context `{Crypto} (T : gmap bytes blockNode) (params : VoteParams).

(** Every block is later than the median of the ones before it, and none hashes
    to zero. *)
Record timed_tree : Prop := {
  timed_block_tree : block_tree T;
  timed_later n p : in_tree T n -> parent n = Some p -> median_time p < n_timestamp (data n);
  timed_no_zero : T !! replicate 32 x00 = None;
}.
Context (HT : timed_tree).

(** Whether the median time has reached a time, for all but the first block. *)
Definition reached (t : Z) (n : blockNode) : bool :=
  match parent n with Some _ => t <=? median_time n | None => false end.

Definition deployment_rules (d : ConsensusDeployment) : rules := {|
  started n := match startTime d with None => true | Some t => reached t n end;
  ended n := match endTime d with None => false | Some t => reached t n end;
  threshold :=
    if CustomActivationThreshold d =? 0 then vp_RuleChangeActivationThreshold params else CustomActivationThreshold d;
  window := vp_MinerConfirmationWindow params;
  eligible n := (MinActivationHeight d =? 0) || (MinActivationHeight d <=? height n + 1);
  speedy := negb ((MinActivationHeight d =? 0) && (CustomActivationThreshold d =? 0));
  vote n := signals (BitNumber d) (n_version (data n));
|}.

Lemma PastMedianTime_node n :
  in_tree T n ->
  PastMedianTime T (node_Header n) =
    match parent n with Some _ => Ok (median_time n) | None => Err ErrNoPreviousNode end.
Proof.
  intros Hn. unfold PastMedianTime, node_Header. cbn [PrevBlock]. destruct (parent n) as [p |] eqn:Hp.
  - rewrite (in_tree_parent T (timed_block_tree HT) n p Hn Hp).
    assert (Hc : forall h, Timestamp h = n_timestamp (data n) ->
      CalcPastMedianTime (newBlockNode h (Some p)) = CalcPastMedianTime n).
    { intros h Hh. unfold CalcPastMedianTime, medianTimeBlocks. rewrite !past_timestamps_S, Hp.
      unfold newBlockNode. cbn [data n_timestamp parent]. now rewrite Hh. }
    rewrite Hc by done. now destruct (median_time_spec n) as [-> _].
  - now rewrite (timed_no_zero HT).
Qed.

Lemma reached_spec n t :
  in_tree T n ->
  no_err (let! medianTime := PastMedianTime T (node_Header n) in Ok ((medianTime >? t) || (medianTime =? t))) =
  reached t n.
Proof.
  intros Hn. rewrite PastMedianTime_node by done. unfold reached. destruct (parent n); [| done].
  cbn [obind no_err]. destruct (Z.gtb_spec (median_time n) t), (Z.eqb_spec (median_time n) t), (Z.leb_spec t (median_time n));
    done || lia.
Qed.

Lemma deployment_checks d Inv : 0 <= MinActivationHeight d ->
  checks T Inv (deploymentChecker T params d) (deployment_rules d).
Proof.
  intros Hmin. constructor; cbn [HasStarted HasEnded RuleChangeActivationThreshold MinerConfirmationWindow EligibleToActivate
    IsSpeedy Condition deploymentChecker started ended threshold window eligible speedy vote deployment_rules].
  - intros n Hn. unfold starter_HasStarted. cbn [negb]. destruct (startTime d); [now apply reached_spec | done].
  - intros n Hn _. unfold ender_HasEnded. cbn [negb]. destruct (endTime d); [now apply reached_spec | done].
  - now destruct (CustomActivationThreshold d =? 0).
  - done.
  - intros n Hn. destruct (node_ok_height n (in_tree_ok T (timed_block_tree HT) n Hn)).
    rewrite (uint32_small (height n)), uint32_small by lia. destruct (MinActivationHeight d =? 0); [done |]. cbn [orb].
    destruct (Z.geb_spec (height n + 1) (MinActivationHeight d)), (Z.leb_spec (MinActivationHeight d) (height n + 1)); done || lia.
  - now destruct (MinActivationHeight d =? 0), (CustomActivationThreshold d =? 0).
  - intros n s _ Hs. now exists s.
Qed.

(** Deployments as they are tried: before the start of one nothing is asked of
    its end, so that one that ends before it starts stays defined. *)
Definition tried_rules (d : ConsensusDeployment) : rules :=
  let r := deployment_rules d in {|
  started := started r;
  ended n := (speedy r || started r n) && ended r n;
  threshold := threshold r;
  window := window r;
  eligible := eligible r;
  speedy := speedy r;
  vote := vote r;
|}.

Lemma tried_checks d Inv : 0 <= MinActivationHeight d -> checks T Inv (deploymentChecker T params d) (tried_rules d).
Proof.
  intros Hmin. destruct (deployment_checks d Inv Hmin) as [Hst Hen Hth Hw Hel Hsp Hv].
  constructor; [done | | done | done | done | done | done]. intros n Hn Hs. rewrite (Hen n Hn Hs).
  cbn [ended tried_rules]. change (started (deployment_rules d) n = true) in Hs. rewrite Hs. now rewrite orb_true_r.
Qed.

Lemma tried_rules_ok d : 0 < vp_MinerConfirmationWindow params < 2 ^ 31 -> rules_ok T (tried_rules d).
Proof.
  intros Hw. constructor; cbn [started ended window speedy tried_rules]; [done | |].
  - intros n p Hn Hp. cbn [started deployment_rules]. destruct (startTime d) as [t |]; [| done]. unfold reached.
    rewrite Hp. destruct (parent p); [| done]. pose proof (median_time_mono n p Hp (timed_later HT n p Hn Hp)).
    intros Ht%Z.leb_le. apply Z.leb_le. lia.
  - intros n Hn -> Hen. now apply andb_true_iff in Hen as [? _].
Qed.

(** A deployment that is not speedy ends before it starts.  The test deployment of
    the main network does. *)
Definition ends_first (d : ConsensusDeployment) : Prop :=
  MinActivationHeight d = 0 /\ CustomActivationThreshold d = 0 /\
  exists s e, startTime d = Some s /\ endTime d = Some e /\ e < s.

(** For any other deployment the end counts as it is. *)
Lemma tried_ended d n : ~ ends_first d -> in_tree T n -> ended (tried_rules d) n = ended (deployment_rules d) n.
Proof.
  intros Hd Hn. cbn [ended tried_rules]. destruct (ended (deployment_rules d) n) eqn:He; [| now rewrite andb_false_r].
  rewrite andb_true_r. destruct (speedy (deployment_rules d)) eqn:Hsp; [done |]. cbn [orb].
  cbn [speedy deployment_rules] in Hsp. apply negb_false_iff, andb_true_iff in Hsp as [H1%Z.eqb_eq H2%Z.eqb_eq].
  cbn [started ended deployment_rules] in *. destruct (endTime d) as [e |] eqn:Hend; [| done].
  destruct (startTime d) as [t |] eqn:Hstart; [| done]. unfold reached in *. destruct (parent n); [| done].
  apply Z.leb_le in He. apply Z.leb_le. destruct (Z.le_gt_cases t e); [lia |]. exfalso. apply Hd. split_and!; [done | done |].
  exists t, e. done.
Qed.

Lemma tried_transition d st n : ~ ends_first d -> in_tree T n ->
  transition (tried_rules d) st n = transition (deployment_rules d) st n.
Proof.
  intros Hd Hn. assert (Hv : forall k m, votes (tried_rules d) k m = votes (deployment_rules d) k m).
  { induction k as [| k IH]; intros m; [done |]. cbn [votes]. destruct m as [m |]; [| done]. now rewrite IH. }
  destruct st; cbn [transition]; rewrite ?Hv, ?(tried_ended d n Hd Hn); reflexivity.
Qed.

(** Such a deployment is never voted on. *)
Lemma ends_first_never d n k : ends_first d ->
  state_after (tried_rules d) k n = ThresholdDefined \/ state_after (tried_rules d) k n = ThresholdFailed.
Proof.
  intros (Hm & Hc & s & e & Hs & He & Hlt). induction k as [| k IH]; [now left |]. cbn [state_after].
  destruct (window_end _ k n) as [x |]; [| now left]. destruct IH as [-> | ->]; cbn [transition]; [| now right].
  cbn [speedy ended started tried_rules deployment_rules]. rewrite Hm, Hc, Hs, He. cbn [negb andb orb Z.eqb]. unfold reached.
  destruct (parent x); [| now left]. destruct (Z.leb_spec s (median_time x)); [| now left]. cbn [andb].
  destruct (Z.leb_spec e (median_time x)); [now right | lia].
Qed.

(** The cache of a deployment is there and holds the states of its rules. *)
Definition deployment_cache_ok (id : nat) (d : ConsensusDeployment) (s : Caches) : Prop :=
  (id < length (deploymentCaches s))%nat /\ cache_valid T (tried_rules d) (DeploymentCache id) s.

Lemma Lookup_Update id h st h' s :
  Lookup id h' (Update id h st s) = if decide (h = h') then
    match id with
    | DeploymentCache i => (deploymentCaches s !! i) ≫= fun _ => Some st
    | WarningCache i => (warningCaches s !! i) ≫= fun _ => Some st
    end else Lookup id h' s.
Proof.
  destruct id as [i | i]; cbn [Lookup Update deploymentCaches warningCaches]; rewrite list_lookup_alter, decide_True by done.
  - destruct (deploymentCaches s !! i) as [c |]; cbn; destruct (decide (h = h')) as [<- | Hne]; try done;
      [apply lookup_insert_eq | now apply lookup_insert_ne].
  - destruct (warningCaches s !! i) as [c |]; cbn; destruct (decide (h = h')) as [<- | Hne]; try done;
      [apply lookup_insert_eq | now apply lookup_insert_ne].
Qed.

Lemma deploymentState_spec id d prevNode s :
  Deployments params !! id = Some d -> 0 <= MinActivationHeight d ->
  0 < vp_MinerConfirmationWindow params < 2 ^ 31 -> deployment_cache_ok id d s ->
  match prevNode with Some n => in_tree T n /\ height n < 2 ^ 31 - 1 | None => True end ->
  exists s', deploymentState T params prevNode id s = (Ok (state_for (tried_rules d) prevNode), s') /\
    deployment_cache_ok id d s'.
Proof.
  intros Hid Hmin Hw Hs Hp. unfold deploymentState. rewrite Hid.
  pose proof (lookup_lt_Some _ _ _ Hid) as Hlt. rewrite (proj2 (Nat.ltb_ge _ _)) by lia.
  apply (thresholdState_spec T (timed_block_tree HT) (tried_rules d) (tried_rules_ok d Hw)
    (deployment_cache_ok id d)); try done.
  - now apply tried_checks.
  - intros s0 Hs0. apply Hs0.
  - intros s0 h st [Hl _]. rewrite Lookup_Update, decide_True by done.
    destruct (lookup_lt_is_Some_2 _ _ Hl) as [x ->]. done.
  - intros s0 n [Hl Hv] Hn. split; [cbn; now rewrite length_alter |].
    intros m st Hm. rewrite Lookup_Update. destruct (decide _) as [Heq |]; [| now apply Hv].
    destruct (lookup_lt_is_Some_2 _ _ Hl) as [x ->]. intros [= <-].
    assert (n = m) as ->; [| done]. unfold in_tree in *. rewrite Heq in Hn. congruence.
Qed.
End Deployed.

(** * Properties *)

Lemma state_for_between T r n p :
  block_tree T -> rules_ok T r -> in_tree T n -> parent n = Some p -> (height n + 1) mod window r <> 0 ->
  state_for r (Some n) = state_for r (Some p).
Proof.
  intros HT Hr Hn Hp Hm. pose proof (window_range T r Hr) as [HW _].
  destruct (parent_ok n p (in_tree_ok T HT n Hn) Hp) as [Hpok Hh]. destruct (node_ok_height p Hpok) as [Hp0 _].
  pose proof (Z.div_mod (height n + 1) (window r) ltac:(lia)) as Hdm.
  pose proof (Z.mod_pos_bound (height n + 1) (window r) HW) as Hb.
  assert (Hq : height n / window r = (height n + 1) / window r).
  { symmetry. apply (Z.div_unique_pos _ _ _ ((height n + 1) mod window r - 1)); lia. }
  cbn [state_for]. replace (height p + 1) with (height n) by lia. rewrite Hq.
  apply (state_after_at T HT r Hr n p (height p)); [done | | lia |].
  - unfold at_height. replace (Z.to_nat (height n - height p)) with 1%nat by lia.
    cbn [back Parent blockNode_ctx]. now rewrite Hp.
  - pose proof (Z.div_pos (height n + 1) (window r)). rewrite Z2Nat.id by lia. nia.
Qed.

(** C27: deployments.  In a tree of blocks that are each later than the median
    time of their predecessors, and with a cache that holds right states, asking
    for the state of a deployment after any block gives the state of its rules
    and leaves the cache right, whatever was cached before.  That state is the same
    for all blocks of a window, and at the end of a window it makes one transition
    of BIP 9, by the votes, the median time and the height there, with one
    difference: before the start of a deployment nothing is asked of its end.  For
    a deployment that is speedy, has no start or no end, or does not end before it
    starts this is no difference, and the transition is the one with its own
    start and end.  A deployment that ends before it starts, as the test deployment
    of the main network, is defined until its start, where BIP 9 makes it fail at
    its end, and then fails; it is never started, locked in or active. *)
Theorem deployment_votes `{Crypto} (T : gmap bytes blockNode) (params : VoteParams) (id : nat) (d : ConsensusDeployment)
    (s : Caches) :
  timed_tree T -> Deployments params !! id = Some d -> 0 <= MinActivationHeight d ->
  0 < vp_MinerConfirmationWindow params < 2 ^ 31 -> deployment_cache_ok T params id d s ->
  let R := tried_rules params d in
  (forall n, in_tree T n -> height n < 2 ^ 31 - 1 ->
     exists s', deploymentState T params (Some n) id s = (Ok (state_for R (Some n)), s') /\
       deployment_cache_ok T params id d s') /\
  (forall n p, in_tree T n -> parent n = Some p -> (height n + 1) mod vp_MinerConfirmationWindow params <> 0 ->
     state_for R (Some n) = state_for R (Some p)) /\
  (forall n, in_tree T n -> (height n + 1) mod vp_MinerConfirmationWindow params = 0 ->
     state_for R (Some n) = transition R (state_for R (RelativeAncestor n (vp_MinerConfirmationWindow params))) n) /\
  (~ ends_first d -> forall st n, in_tree T n -> transition R st n = transition (deployment_rules params d) st n) /\
  (ends_first d -> forall n, in_tree T n ->
     (state_for R (Some n) = ThresholdDefined \/ state_for R (Some n) = ThresholdFailed) /\
     ((height n + 1) mod vp_MinerConfirmationWindow params = 0 -> started R n = false -> state_for R (Some n) = ThresholdDefined)).
Proof.
  intros HT Hid Hmin Hw Hs R. pose proof (tried_rules_ok T params HT d Hw) as HR.
  pose proof (timed_block_tree T HT) as HB. split_and!.
  - intros n Hn Hb. now apply deploymentState_spec.
  - intros n p Hn Hp Hm. now apply (state_for_between T R n p).
  - intros n Hn He. change (vp_MinerConfirmationWindow params) with (window R).
    rewrite (RelativeAncestor_end T HB R HR n Hn). now apply (state_for_step T HB R HR).
  - intros Hd st n Hn. now apply (tried_transition T).
  - intros Hd n Hn. split; [now apply ends_first_never |]. intros He Hst. now apply (not_started_defined T HB R HR).
Qed.

Lemma failed_after r k n : window_end r 0 n = Some k -> negb (speedy r) && ended r k = true ->
  forall j, (1 <= j)%nat -> (forall i, (i < j)%nat -> is_Some (window_end r i n)) -> state_after r j n = ThresholdFailed.
Proof.
  intros He Hf. induction j as [| j IH]; intros Hj Hw; [lia |]. cbn [state_after].
  destruct (Hw j ltac:(lia)) as [e Hej]. rewrite Hej. destruct j as [| j].
  - cbn [state_after transition]. replace e with k by congruence. now rewrite Hf.
  - rewrite IH; [done | lia | intros; apply Hw; lia].
Qed.

(** The rule changes of the main network.  The deployments of relative lock
    times and of segregated witness end in 2017.  When the median time of the
    block at height 2015 is after their end, as it is on a chain whose blocks
    were made since, both have failed for every block from there on and can
    never become active: the flags that make nodes verify witnesses and
    relative lock times are never set. *)
Lemma main_net_forks_fail `{Crypto} (T : gmap bytes blockNode) (id : nat) (d : ConsensusDeployment) (s : Caches)
    (n e : blockNode) :
  timed_tree T -> id = DeploymentCSV \/ id = DeploymentSegwit -> Deployments MainNetVotes !! id = Some d ->
  deployment_cache_ok T MainNetVotes id d s -> in_tree T n -> 2015 <= height n < 2 ^ 31 - 1 ->
  at_height n 2015 = Some e -> 1510704000 <= median_time e ->
  exists s', deploymentState T MainNetVotes (Some n) id s = (Ok ThresholdFailed, s') /\
    deployment_cache_ok T MainNetVotes id d s'.
Proof.
  intros HT Hids Hid Hs Hn Hh He Hm. pose proof (timed_block_tree T HT) as HB.
  assert (Hd : ~ ends_first d /\ MinActivationHeight d = 0 /\ speedy (deployment_rules MainNetVotes d) = false /\
    exists t, endTime d = Some t /\ t <= 1510704000).
  { destruct Hids as [-> | ->]; injection Hid as <-; (split_and!; [intros (_ & _ & x & y & [= <-] & [= <-] & Hx); lia | done | done |]);
      eexists; (split; [reflexivity | lia]). }
  destruct Hd as (Hd & Hmin & Hsp & t & Ht & Htm).
  destruct (deploymentState_spec T MainNetVotes HT id d (Some n) s Hid ltac:(lia) ltac:(cbn; lia) Hs)
    as (s' & Hrun & Hs'); [split; [done | lia] |].
  exists s'. split; [| done]. rewrite Hrun. do 2 f_equal. cbn [state_for].
  destruct (at_height_Some T HB n 2015 Hn ltac:(lia)) as (e' & He' & Het & Heh). assert (e' = e) as -> by congruence.
  change (window (tried_rules MainNetVotes d)) with 2016.
  apply (failed_after _ e).
  - exact He.
  - change (speedy (tried_rules MainNetVotes d)) with (speedy (deployment_rules MainNetVotes d)).
    rewrite Hsp, (tried_ended T MainNetVotes d e Hd Het). cbn [negb andb ended deployment_rules]. rewrite Ht. unfold reached.
    destruct (parent e) eqn:Hp; [apply Z.leb_le; lia |].
    apply root_height in Hp; [lia | now apply (in_tree_ok T HB)].
  - pose proof (Z.div_le_lower_bound (height n + 1) 2016 1 ltac:(lia) ltac:(lia)). lia.
  - intros i Hi. unfold window_end. change (window (tried_rules MainNetVotes d)) with 2016.
    pose proof (Z.mul_div_le (height n + 1) 2016 ltac:(lia)).
    destruct (at_height_Some T HB n (Z.of_nat (S i) * 2016 - 1) Hn ltac:(lia)) as (x & -> & _). done.
Qed.

(** * Witnesses *)

(** A chain whose blocks are a second apart and signal with the first bit. *)
Definition sample_id (k : nat) : bytes := le_bytes 8 (Z.of_nat k) ++ [x01].

Definition sample_data (k : nat) : nodeData :=
  mkNodeData (sample_id k) 0 (Z.of_nat k) 0x20000001 0 0 (1600000000 + Z.of_nat k) [].

Fixpoint sample_chain (k : nat) : blockNode :=
  match k with
  | O => Node None None (sample_data 0)
  | S k' =>
      let p := sample_chain k' in
      Node (Some p) (Ancestor p (getAncestorHeight (Z.of_nat k))) (sample_data k)
  end.

Fixpoint sample_tree (k : nat) : gmap bytes blockNode :=
  match k with
  | O => {[sample_id 0 := sample_chain 0]}
  | S k' => <[sample_id k := sample_chain k]> (sample_tree k')
  end.

Lemma sample_id_inj i j : Z.of_nat i < 2 ^ 64 -> Z.of_nat j < 2 ^ 64 -> sample_id i = sample_id j -> i = j.
Proof.
  intros Hi Hj Heq. apply app_inv_tail in Heq. apply (f_equal le_val) in Heq.
  rewrite !le_val_le_bytes_small in Heq by lia. lia.
Qed.

Lemma sample_data_of k : data (sample_chain k) = sample_data k.
Proof. now destruct k. Qed.

Lemma sample_height k : height (sample_chain k) = Z.of_nat k.
Proof. unfold height. now rewrite sample_data_of. Qed.

Lemma sample_ok k : Z.of_nat k < 2 ^ 31 -> node_ok (sample_chain k).
Proof.
  induction k as [| k IH]; intros Hk; [now constructor |]. cbn [sample_chain].
  apply (child_ok (sample_chain k) (sample_data (S k))); [apply IH; lia | | cbn; lia].
  rewrite sample_height. cbn [n_height sample_data]. lia.
Qed.

Lemma sample_timestamps j : forall k x, x ∈ past_timestamps j (Some (sample_chain k)) ->
  1600000000 <= x <= 1600000000 + Z.of_nat k.
Proof.
  induction j as [| j IH]; intros k x Hx; [now apply elem_of_nil in Hx |]. rewrite past_timestamps_S in Hx.
  apply elem_of_cons in Hx as [-> | Hx]; [rewrite sample_data_of; cbn; lia |].
  destruct k as [| k]; cbn [sample_chain parent] in Hx; [destruct j; now apply elem_of_nil in Hx |].
  specialize (IH k x Hx). lia.
Qed.

Lemma sample_median k : 1600000000 <= median_time (sample_chain k) <= 1600000000 + Z.of_nat k.
Proof.
  destruct (median_spec (past_timestamps medianTimeBlocks (Some (sample_chain k)))) as (m & Hm & Hin & _); [done |].
  assert (Hc : CalcPastMedianTime (sample_chain k) = Ok m) by exact Hm.
  unfold median_time. rewrite Hc. exact (sample_timestamps _ k m Hin).
Qed.

Lemma sample_lookup k h n : sample_tree k !! h = Some n -> exists i, (i <= k)%nat /\ h = sample_id i /\ n = sample_chain i.
Proof.
  induction k as [| k IH]; cbn [sample_tree]; intros Hl.
  - apply lookup_singleton_Some in Hl as [<- <-]. now exists 0%nat.
  - apply lookup_insert_Some in Hl as [[<- <-] | [_ Hl]]; [now exists (S k) |].
    destruct (IH Hl) as (i & Hi & Hrest). exists i. split; [lia | done].
Qed.

Lemma sample_in k i : Z.of_nat k < 2 ^ 31 -> (i <= k)%nat -> in_tree (sample_tree k) (sample_chain i).
Proof.
  unfold in_tree. rewrite sample_data_of. cbn [n_hash sample_data]. induction k as [| k IH]; intros Hk Hi; cbn [sample_tree].
  - assert (i = 0%nat) as -> by lia. apply lookup_insert_eq.
  - destruct (decide (i = S k)) as [-> | Hne]; [apply lookup_insert_eq |].
    rewrite lookup_insert_ne; [apply IH; lia |]. intros Heq%sample_id_inj; lia.
Qed.

Lemma sample_block_tree k : Z.of_nat k < 2 ^ 31 -> block_tree (sample_tree k).
Proof.
  induction k as [| k IH]; intros Hk.
  { exact (block_tree_first (sample_chain 0) (sample_ok 0 Hk) eq_refl). }
  apply (block_tree_child (sample_tree k) (sample_chain (S k)) (sample_chain k)).
  - apply IH. lia.
  - done.
  - apply sample_in; lia.
  - now apply sample_ok.
  - destruct (sample_tree k !! _) as [m |] eqn:Hm; [| done]. exfalso.
    apply sample_lookup in Hm as (i & Hi & Heq & _). rewrite sample_data_of in Heq. apply sample_id_inj in Heq; lia.
Qed.

Lemma sample_timed k : Z.of_nat k < 2 ^ 31 -> timed_tree (sample_tree k).
Proof.
  intros Hk. constructor; [now apply sample_block_tree | |].
  - intros n p Hn Hp. apply sample_lookup in Hn as (i & Hi & _ & ->). destruct i as [| i]; [discriminate |].
    injection Hp as <-. rewrite sample_data_of. pose proof (sample_median i). cbn. lia.
  - destruct (sample_tree k !! _) as [m |] eqn:Hm; [| done]. apply sample_lookup in Hm as (i & _ & Heq & _).
    apply (f_equal last) in Heq. unfold sample_id in Heq. rewrite last_snoc in Heq. discriminate.
Qed.

(** Two blocks a window, and one vote is enough. *)
Definition sample_votes : VoteParams := mkVoteParams 1 2 [mkDeployment 0 0 0 (Some 1600000001) (Some 1700000000)].
Definition empty_caches : Caches := mkCaches (newThresholdCaches 5) [] false.

Lemma empty_cache_ok T params id d : (id < 5)%nat -> deployment_cache_ok T params id d empty_caches.
Proof.
  intros Hid. split; [done |]. intros n st _ Hl. cbn in Hl.
  do 5 (destruct id as [| id]; [cbn in Hl; now rewrite lookup_empty in Hl |]). lia.
Qed.

Definition test_dummy : ConsensusDeployment := mkDeployment 28 0 0 (Some 11991456010) (Some 1230767999).

(** A deployment that becomes active, and the test deployment of the main network. *)
Lemma deployment_votes_witness :
  let _ := toy_crypto in
  (exists s', deploymentState (sample_tree 5) sample_votes (Some (sample_chain 5)) 0 empty_caches = (Ok ThresholdActive, s')) /\
  (exists s' st, deploymentState (sample_tree 5) MainNetVotes (Some (sample_chain 5)) DeploymentTestDummy empty_caches = (Ok st, s') /\
     (st = ThresholdDefined \/ st = ThresholdFailed)).
Proof.
  intros HC. split.
  - destruct (deployment_votes (sample_tree 5) sample_votes 0
      (mkDeployment 0 0 0 (Some 1600000001) (Some 1700000000)) empty_caches) as (Hrun & _).
    + now apply sample_timed.
    + reflexivity.
    + reflexivity.
    + cbn. lia.
    + apply empty_cache_ok. lia.
    + destruct (Hrun (sample_chain 5)) as (s' & Hs & _); [now apply sample_in | reflexivity |].
      exists s'. rewrite Hs. reflexivity.
  - destruct (deployment_votes (sample_tree 5) MainNetVotes DeploymentTestDummy test_dummy empty_caches)
      as (Hrun & _ & _ & _ & Hdummy).
    + now apply sample_timed.
    + reflexivity.
    + reflexivity.
    + cbn. lia.
    + apply empty_cache_ok. unfold DeploymentTestDummy. lia.
    + destruct (Hrun (sample_chain 5)) as (s' & Hs & _); [now apply sample_in | reflexivity |].
      exists s'. eexists. split; [exact Hs |]. apply Hdummy; [| now apply sample_in].
      split_and!; [reflexivity | reflexivity |]. do 2 eexists. split_and!; [reflexivity | reflexivity | reflexivity].
Defined.

Lemma main_net_forks_fail_witness :
  let _ := toy_crypto in
  exists k s', Z.of_nat k = 2015 /\
    deploymentState (sample_tree k) MainNetVotes (Some (sample_chain k)) DeploymentSegwit empty_caches =
      (Ok ThresholdFailed, s').
Proof.
  intros HC. assert (Hk : exists k, Z.of_nat k = 2015) by (exists (Z.to_nat 2015); lia). destruct Hk as [k Hk].
  assert (Hh : height (sample_chain k) = 2015) by now rewrite sample_height.
  destruct (main_net_forks_fail (sample_tree k) DeploymentSegwit
    (mkDeployment 1 0 0 (Some 1479168000) (Some 1510704000)) empty_caches (sample_chain k) (sample_chain k))
    as (s' & Hrun & _).
  - apply sample_timed. lia.
  - now right.
  - reflexivity.
  - apply empty_cache_ok. unfold DeploymentSegwit. lia.
  - apply sample_in; lia.
  - lia.
  - rewrite <- Hh. apply at_height_self.
  - pose proof (sample_median k). lia.
  - exists k, s'. split; [exact Hk | exact Hrun].
Defined.
