(* ===== verification/ScriptVal.v ===== *)
(** Validation of the scripts of transactions and blocks
    (src/btcd/blockchain/scriptval.go) with the cache of signature hash midstates
    (src/btcd/txscript/hashcache.go).

    The inputs are validated by goroutines that take them from a channel.  An
    order of the inputs stands for the schedule: the signature cache is all that
    two of them share, and it changes no result (SigCheck), so that they are run
    one after the other.  The number of steps of the engine is bounded by fuel;
    [script_validation] shows that some amount is always enough. *)

From stdpp Require Import gmap.
From S2P Require Import Prelude Slices WireCommon ScriptError Stack Opcodes Tokenizer MsgTx MsgBlock Script Crypto SigHash SigCache EngineState SigCheck OpcodeExec Engine EngineInv BtcUtil Merkle Difficulty TxRules UtxoView.
#[local] Open Scope Z_scope.

(** * The cache of midstates *)

Abbreviation HashCache := (gmap bytes TxSigHashes).

Definition NewHashCache : HashCache := ∅.

(** What can go wrong: a rule is broken, or the fuel is spent. *)
Inductive ValError : Set :=
| ValRule (e : RuleError)
| ValFuel.

Definition rule_of {A} (o : checked A) : outcome ValError A :=
  match o with Ok a => Ok a | Err e => Err (ValRule e) | Panic => Panic end.

(** An error that the code turns into one of its own. *)
Definition rule_error {E A} (c : RuleCode) (o : outcome E A) : outcome ValError A :=
  match o with Ok a => Ok a | Err _ => Err (ValRule (ruleError c)) | Panic => Panic end.

Record txValidateItem := mkItem {
  txInIndex : Z;
  vi_txIn : TxIn;
  vi_tx : MsgTx;
  vi_sigHashes : option TxSigHashes;
}.

Section Validation.
Context `{Crypto} `{MapOrder}.

(** The midstates have no error. *)
Definition AddSigHashes (tx : MsgTx) (inputFetcher : PrevOutputFetcher) (h : HashCache) : outcome ValError HashCache :=
  match NewTxSigHashes tx inputFetcher with
  | Ok s => Ok (<[TxHash tx := s]> h)
  | _ => Panic
  end.

Definition ContainsHashes (txid : bytes) (h : HashCache) : bool := bool_decide (is_Some (h !! txid)).
Definition GetSigHashes (txid : bytes) (h : HashCache) : option TxSigHashes := h !! txid.
Definition PurgeSigHashes (txid : bytes) (h : HashCache) : HashCache := delete txid h.

(** * Inputs *)

Definition executed (sc : option SigCache) (r : option (res unit * Engine))
  : outcome ValError unit * option SigCache :=
  match r with
  | None => (Err ValFuel, sc)
  | Some (o, vm) => (rule_error ErrScriptValidation o, sigCache vm)
  end.

(** What a handler does with an item. *)
Definition validate_item (fuel : nat) (flags : Z) (view : UtxoViewpoint) (item : txValidateItem)
  : M (option SigCache) ValError unit := fun sc =>
  match LookupEntry view (PreviousOutPoint (vi_txIn item)) with
  | None => (Err (ValRule (ruleError ErrMissingTxOut)), sc)
  | Some utxo =>
      match NewEngine (pkScript utxo) (vi_tx item) (txInIndex item) flags sc (vi_sigHashes item) (amount utxo)
              (FetchPrevOutput view) with
      | Err _ => (Err (ValRule (ruleError ErrScriptMalformed)), sc)
      | Panic => (Panic, sc)
      | Ok (cfg, vm) => executed sc (Execute cfg fuel vm)
      end
  end.

(** [order] is the order in which the handlers take the items. *)
Fixpoint validate_all (fuel : nat) (flags : Z) (view : UtxoViewpoint) (order : list txValidateItem)
  : M (option SigCache) ValError unit :=
  match order with
  | [] => ret tt
  | item :: order' => validate_item fuel flags view item;; validate_all fuel flags view order'
  end.

(** The inputs of a transaction that are not of a coinbase. *)
Fixpoint items_from (i : Z) (ins : list TxIn) (tx : MsgTx) (cachedHashes : option TxSigHashes) : list txValidateItem :=
  match ins with
  | [] => []
  | ti :: ins' =>
      if Index (PreviousOutPoint ti) =? 2 ^ 32 - 1 then items_from (i + 1) ins' tx cachedHashes
      else mkItem i ti tx cachedHashes :: items_from (i + 1) ins' tx cachedHashes
  end.

Definition segwit_active (flags : Z) : bool := Z.land flags ScriptVerifyWitness =? ScriptVerifyWitness.

(** * A transaction *)

(** The methods of a nil cache panic. *)
Definition cache_hashes (tx : MsgTx) (view : UtxoViewpoint) (hashCache : option HashCache) : outcome ValError (option HashCache) :=
  match hashCache with
  | None => Panic
  | Some h =>
      if ContainsHashes (TxHash tx) h then Ok (Some h)
      else let! h := AddSigHashes tx (FetchPrevOutput view) h in Ok (Some h)
  end.

Definition ValidateTransactionScripts (fuel : nat) (sched : list txValidateItem -> list txValidateItem) (tx : MsgTx)
    (view : UtxoViewpoint) (flags : Z) : M (option SigCache * option HashCache) ValError unit :=
  st <- get;;
  let active := segwit_active flags && HasWitness tx in
  hc <- lift (if active then cache_hashes tx view (snd st) else Ok (snd st));;
  put (fst st, hc);;
  let cachedHashes := if active then hc ≫= GetSigHashes (TxHash tx) else None in
  zoom fst (fun sc st => (sc, snd st)) (validate_all fuel flags view (sched (items_from 0 (TxIns tx) tx cachedHashes))).

(** * A block *)

(** The midstates of a transaction, from the cache when there is one. *)
Definition tx_hashes (segwitActive : bool) (tx : MsgTx) (view : UtxoViewpoint) (hashCache : option HashCache)
  : outcome ValError (option HashCache * option TxSigHashes) :=
  if segwitActive && HasWitness tx then
    match hashCache with
    | None => match NewTxSigHashes tx (FetchPrevOutput view) with Ok s => Ok (None, Some s) | _ => Panic end
    | Some h =>
        let! h := if ContainsHashes (TxHash tx) h then Ok h else AddSigHashes tx (FetchPrevOutput view) h in
        Ok (Some h, GetSigHashes (TxHash tx) h)
    end
  else Ok (hashCache, None).

Fixpoint block_items (segwitActive : bool) (txs : list MsgTx) (view : UtxoViewpoint) (hashCache : option HashCache)
  : outcome ValError (option HashCache * list txValidateItem) :=
  match txs with
  | [] => Ok (hashCache, [])
  | tx :: txs' =>
      let! r := tx_hashes segwitActive tx view hashCache in
      let! q := block_items segwitActive txs' view (fst r) in
      Ok (fst q, items_from 0 (TxIns tx) tx (snd r) ++ snd q)
  end.

Definition purge_all (txs : list MsgTx) (h : HashCache) : HashCache :=
  foldl (fun h tx => if HasWitness tx then PurgeSigHashes (TxHash tx) h else h) h txs.

Definition checkBlockScripts (fuel : nat) (sched : list txValidateItem -> list txValidateItem) (block : MsgBlock)
    (view : UtxoViewpoint) (scriptFlags : Z) : M (option SigCache * option HashCache) ValError unit :=
  st <- get;;
  let segwitActive := segwit_active scriptFlags in
  r <- lift (block_items segwitActive (Transactions block) view (snd st));;
  put (fst st, fst r);;
  zoom fst (fun sc st => (sc, snd st)) (validate_all fuel scriptFlags view (sched (snd r)));;
  modify (fun st => (fst st, if segwitActive then purge_all (Transactions block) <$> snd st else snd st)).
End Validation.

(** * Properties *)

(** What the inputs of a serialized transaction satisfy. *)
Definition witnesses_ok (tx : MsgTx) : Prop :=
  Forall (fun ti => zlen (Witness ti) < 2 ^ 31 - 4 /\ Forall script_fits (Witness ti)) (TxIns tx).

Section Laws.
Context `{Crypto} `{!CryptoLaws} `{MapOrder}.

(** The scripts of an input have been run without an error. *)
Definition script_passes (flags : Z) (view : UtxoViewpoint) (item : txValidateItem) : Prop :=
  exists utxo sc cfg vm fuel vm',
    LookupEntry view (PreviousOutPoint (vi_txIn item)) = Some utxo /\
    NewEngine (pkScript utxo) (vi_tx item) (txInIndex item) flags sc (vi_sigHashes item) (amount utxo)
      (FetchPrevOutput view) = Ok (cfg, vm) /\
    Execute cfg fuel vm = Some (Ok tt, vm').

(** They end in an error or a panic. *)
Definition script_fails (flags : Z) (view : UtxoViewpoint) (item : txValidateItem) (o : outcome ValError unit) : Prop :=
  o <> Ok tt /\ exists fuel sc, fst (validate_item fuel flags view item sc) = o.

Lemma NewEngine_config pk tx i fl sc hc amt pf cfg vm :
  NewEngine pk tx i fl sc hc amt pf = Ok (cfg, vm) -> EngineState.tx cfg = tx /\ txIdx cfg = i.
Proof.
  unfold NewEngine. destruct (_ || _); [done |]. intros Hr.
  repeat match type of Hr with obind ?m _ = Ok _ =>
    destruct m eqn:?; cbn [obind] in Hr; [| done | done] end.
  now injection Hr as <- _.
Qed.

Lemma witness_fits pk tx i fl sc hc amt pf cfg vm :
  NewEngine pk tx i fl sc hc amt pf = Ok (cfg, vm) -> witnesses_ok tx -> input_witness_ok cfg.
Proof.
  intros Hnew Hw. apply NewEngine_config in Hnew as [Htx Hi]. unfold input_witness_ok, witness_of. rewrite Htx, Hi.
  unfold znth. destruct (decide (0 <= i)); [| now split; [| constructor]].
  destruct (TxIns tx !! Z.to_nat i) as [ti |] eqn:Hti; [| now split; [| constructor]].
  unfold witnesses_ok in Hw. rewrite Forall_forall in Hw. apply Hw. eapply list_elem_of_lookup_2; eauto.
Qed.

Lemma validate_item_ends flags view item sc :
  witnesses_ok (vi_tx item) ->
  exists fuel r, (forall fuel', (fuel <= fuel')%nat -> validate_item fuel' flags view item sc = r) /\
    fst r <> Err ValFuel /\ (fst r = Ok tt -> script_passes flags view item).
Proof.
  intros Hw. unfold validate_item. destruct (LookupEntry view _) as [utxo |] eqn:Hl; [| exists 0%nat; now eexists].
  destruct (NewEngine _ _ _ _ _ _ _ _) as [[cfg vm] | e |] eqn:Hnew; [| exists 0%nat; now eexists..].
  pose proof (witness_fits _ _ _ _ _ _ _ _ _ _ Hnew Hw) as Hfit. pose proof (NewEngine_inv _ _ _ _ _ _ _ _ _ _ Hnew) as Hinv.
  assert (Hends : exists fuel r, forall fuel', (fuel <= fuel')%nat -> Execute cfg fuel' vm = Some r).
  { destruct (step_loop_ends cfg Hfit vm Hinv) as (fuel & [o vm'] & Hr). exists fuel. unfold Execute.
    destruct (negb _); [by eexists |]. destruct o as [u|e|]; eexists; intros fuel' Hfu; by rewrite (Hr fuel' Hfu). }
  destruct Hends as (fuel & [o vm'] & Hr). exists fuel. eexists. split; [intros fuel' Hf; now rewrite (Hr fuel' Hf) |].
  cbn [executed fst]. split; [now destruct o |]. intros Hok. destruct o as [[] | |]; try discriminate.
  exists utxo, sc, cfg, vm, fuel, vm'. split_and!; [done | done | now apply Hr].
Qed.

Lemma validate_all_ends flags view l : forall sc,
  Forall (fun item => witnesses_ok (vi_tx item)) l ->
  exists fuel r, (forall fuel', (fuel <= fuel')%nat -> validate_all fuel' flags view l sc = r) /\
    fst r <> Err ValFuel /\
    match fst r with
    | Ok _ => Forall (script_passes flags view) l
    | o => exists item, item ∈ l /\ script_fails flags view item o
    end.
Proof.
  induction l as [| item l IH]; intros sc Hl; cbn [validate_all].
  { exists 0%nat, (Ok tt, sc). now split_and!; [| | constructor]. }
  apply Forall_cons in Hl as [Hi Hl].
  destruct (validate_item_ends flags view item sc Hi) as (f1 & [o1 sc1] & Hr1 & Hn1 & Hp1). cbn [fst] in *.
  destruct o1 as [[] | e |].
  - destruct (IH sc1 Hl) as (f2 & [o2 sc2] & Hr2 & Hn2 & Hp2). exists (Nat.max f1 f2), (o2, sc2). cbn [fst] in *. split_and!.
    + intros f' Hf'. rewrite bind_eq, Hr1 by lia. apply Hr2. lia.
    + done.
    + destruct o2 as [[] | e |]; [constructor; auto | |];
        destruct Hp2 as (it & Hin & Hfail); exists it; (split; [now constructor | done]).
  - exists f1, (Err e, sc1). split_and!; [intros f' Hf'; now rewrite bind_eq, Hr1 by lia | done |].
    exists item. split; [constructor |]. split; [done |]. exists f1, sc. now rewrite Hr1.
  - exists f1, (Panic, sc1). split_and!; [intros f' Hf'; now rewrite bind_eq, Hr1 by lia | done |].
    exists item. split; [constructor |]. split; [done |]. exists f1, sc. now rewrite Hr1.
Qed.

(** An item for an input of a transaction that is not one of a coinbase. *)
Definition item_of (txs : list MsgTx) (item : txValidateItem) : Prop :=
  vi_tx item ∈ txs /\ exists i, txInIndex item = Z.of_nat i /\ TxIns (vi_tx item) !! i = Some (vi_txIn item) /\
    Index (PreviousOutPoint (vi_txIn item)) <> 2 ^ 32 - 1.

Lemma items_from_spec ins tx h : forall i item,
  item ∈ items_from i ins tx h <->
  exists j ti, ins !! j = Some ti /\ Index (PreviousOutPoint ti) <> 2 ^ 32 - 1 /\ item = mkItem (i + Z.of_nat j) ti tx h.
Proof.
  induction ins as [| ti ins IH]; intros i item; cbn [items_from].
  { split; [intros Hin; now apply elem_of_nil in Hin | now intros (j & ti & Hj & _)]. }
  assert (Hshift : (exists j x, ins !! j = Some x /\ Index (PreviousOutPoint x) <> 2 ^ 32 - 1 /\
      item = mkItem (i + 1 + Z.of_nat j) x tx h) <->
    exists j x, (ti :: ins) !! S j = Some x /\ Index (PreviousOutPoint x) <> 2 ^ 32 - 1 /\
      item = mkItem (i + Z.of_nat (S j)) x tx h).
  { split; intros (j & x & Hj & Hx & ->); exists j, x; (split_and!; [done | done | f_equal; lia]). }
  destruct (Z.eqb_spec (Index (PreviousOutPoint ti)) (2 ^ 32 - 1)) as [Heq | Hne].
  - rewrite IH, Hshift. split; [intros (j & x & Hj); exists (S j), x; done |].
    intros ([| j] & x & Hj & Hx & Hi); [injection Hj as <-; done | now exists j, x].
  - rewrite elem_of_cons, IH, Hshift. split.
    + intros [-> | (j & x & Hj)]; [exists 0%nat, ti; split_and!; [done | done | f_equal; lia] | now exists (S j), x].
    + intros ([| j] & x & Hj & Hx & Hi); [injection Hj as <-; left; rewrite Hi; f_equal; lia | right; now exists j, x].
Qed.

Lemma block_items_spec sw view txs : forall hc hc' l,
  block_items sw txs view hc = Ok (hc', l) ->
  Forall (item_of txs) l /\
  forall tx i ti, tx ∈ txs -> TxIns tx !! i = Some ti -> Index (PreviousOutPoint ti) <> 2 ^ 32 - 1 ->
    exists h, mkItem (Z.of_nat i) ti tx h ∈ l.
Proof.
  induction txs as [| tx txs IH]; intros hc hc' l Hb; cbn [block_items] in Hb.
  { injection Hb as _ <-. split; [constructor |]. intros tx i ti Hin. now apply elem_of_nil in Hin. }
  destruct (tx_hashes sw tx view hc) as [[hc1 h] | |]; cbn [obind fst snd] in Hb; try discriminate.
  destruct (block_items sw txs view hc1) as [[hc2 l2] | |] eqn:H2; cbn [obind fst snd] in Hb; try discriminate.
  injection Hb as _ <-. destruct (IH _ _ _ H2) as [Hl2 Hall]. split.
  - apply Forall_app. split; apply Forall_forall; intros item Hin.
    + apply items_from_spec in Hin as (j & ti & Hj & Hti & ->). split; [constructor |]. now exists j.
    + rewrite Forall_forall in Hl2. destruct (Hl2 item Hin) as [Htx Hrest]. split; [now constructor | done].
  - intros tx' i ti Hin Hi Hti. apply elem_of_cons in Hin as [-> | Hin].
    + exists h. apply elem_of_app. left. apply items_from_spec. now exists i, ti.
    + destruct (Hall tx' i ti Hin Hi Hti) as [h' Hh']. exists h'. apply elem_of_app. now right.
Qed.

Lemma checkBlockScripts_eq fuel sched block view flags sc hc hc' items :
  block_items (segwit_active flags) (Transactions block) view hc = Ok (hc', items) ->
  checkBlockScripts fuel sched block view flags (sc, hc) =
    let '(o, sc') := validate_all fuel flags view (sched items) sc in
    (o, (sc', match o with
              | Ok _ => if segwit_active flags then purge_all (Transactions block) <$> hc' else hc'
              | _ => hc'
              end)).
Proof.
  intros Hb. unfold checkBlockScripts. rewrite bind_eq. cbn [get]. rewrite bind_eq. unfold lift. cbn [snd].
  rewrite Hb, bind_eq. cbn [put]. rewrite bind_eq. unfold zoom. cbn [fst snd].
  destruct (validate_all fuel flags view (sched items) sc) as [[[] | e |] sc']; [| done | done].
  cbn [modify fst snd]. now destruct (segwit_active flags).
Qed.

Lemma checkBlockScripts_ends sched block view flags sc hc hc' items :
  (forall l, sched l ≡ₚ l) -> Forall witnesses_ok (Transactions block) ->
  block_items (segwit_active flags) (Transactions block) view hc = Ok (hc', items) ->
  exists fuel r, (forall fuel', (fuel <= fuel')%nat -> checkBlockScripts fuel' sched block view flags (sc, hc) = r) /\
    fst r <> Err ValFuel /\
    match fst r with
    | Ok _ => Forall (script_passes flags view) items
    | o => exists item, item ∈ items /\ script_fails flags view item o
    end.
Proof.
  intros Hsched Hw Hb.
  assert (Hl : Forall (fun item => witnesses_ok (vi_tx item)) (sched items)).
  { rewrite Hsched. eapply Forall_impl; [exact (proj1 (block_items_spec _ _ _ _ _ _ Hb)) |]. intros item [Hin _].
    rewrite Forall_forall in Hw. now apply Hw. }
  destruct (validate_all_ends flags view (sched items) sc Hl) as (fuel & [o sc'] & Hr & Hn & Hp). cbn [fst] in *.
  exists fuel. eexists. split; [intros f' Hf'; rewrite (checkBlockScripts_eq _ _ _ _ _ _ _ _ _ Hb), Hr by lia; reflexivity |].
  cbn [fst]. split; [done |]. destruct o as [[] | e |]; [now rewrite <- Hsched | |];
    destruct Hp as (it & Hin & Hf); rewrite Hsched in Hin; eauto.
Qed.
End Laws.

(** C13: the scripts of a block.  Whatever the schedule of the handlers and the
    caches, for witnesses of a size that a message can have, checking the
    scripts of a block ends after a number of steps beyond which the outcome
    does not change.  It succeeds only if for every input that is not of a
    coinbase the output it spends is in the view and an engine set up with its
    script and amount runs without an error; and when it fails or panics it
    does so as the scripts of one of those inputs do. *)
Theorem script_validation `{Crypto} `{!CryptoLaws} `{MapOrder} sched block view flags sc hc hc' items :
  (forall l, sched l ≡ₚ l) -> Forall witnesses_ok (Transactions block) ->
  block_items (segwit_active flags) (Transactions block) view hc = Ok (hc', items) ->
  exists fuel o,
    (forall fuel', (fuel <= fuel')%nat -> fst (checkBlockScripts fuel' sched block view flags (sc, hc)) = o) /\
    o <> Err ValFuel /\
    match o with
    | Ok _ => forall tx i ti, tx ∈ Transactions block -> TxIns tx !! i = Some ti ->
        Index (PreviousOutPoint ti) <> 2 ^ 32 - 1 -> exists h, script_passes flags view (mkItem (Z.of_nat i) ti tx h)
    | _ => exists item, item_of (Transactions block) item /\ script_fails flags view item o
    end.
Proof.
  intros Hsched Hw Hb. destruct (checkBlockScripts_ends sched block view flags sc hc hc' items Hsched Hw Hb)
    as (fuel & [o sc'] & Hr & Hn & Hp). cbn [fst] in *. exists fuel, o.
  split; [intros f' Hf'; now rewrite Hr |]. split; [done |]. destruct (block_items_spec _ _ _ _ _ _ Hb) as [Hof Hall].
  rewrite Forall_forall in Hof. destruct o as [[] | e |]; [| destruct Hp as (it & Hin & Hf); eauto..].
  intros tx i ti Htx Hi Hti. destruct (Hall tx i ti Htx Hi Hti) as [h Hh]. exists h. rewrite Forall_forall in Hp. auto.
Qed.

(** * A witness *)

(** An input that spends an output anyone can spend, and one that no one can. *)
Definition val_tx (script : bytes) : MsgTx := mkMsgTx 1 [mkTxIn (mkOutPoint script 0) [] [] 0] [mkTxOut 1 [x51]] 0.
Definition val_view : UtxoViewpoint :=
  set_entry (mkOutPoint [x51] 0) (Some (mkEntry 1 [x51] 1 0))
    (set_entry (mkOutPoint [x00] 0) (Some (mkEntry 1 [x00] 1 0)) NewUtxoViewpoint).
Definition val_block (txs : list MsgTx) : MsgBlock := mkMsgBlock (mkBlockHeader 1 [] [] 0 0 0) txs.

Lemma script_validation_witness :
  let _ := toy_crypto in let _ := list_order in
  let check fuel s := fst (checkBlockScripts fuel reverse (val_block [val_tx [x51]; val_tx s]) val_view 1 (None, None)) in
  (exists fuel, forall fuel', (fuel <= fuel')%nat -> check fuel' [x51] = Ok tt) /\
  (exists fuel, forall fuel', (fuel <= fuel')%nat -> check fuel' [x00] = Err (ValRule (ruleError ErrScriptValidation))).
Proof.
  intros HC HO check.
  assert (Hw : forall a b, Forall witnesses_ok [val_tx a; val_tx b])
    by (intros; repeat constructor; cbn; lia).
  assert (Hs : forall s, exists items, block_items (segwit_active 1) [val_tx [x51]; val_tx s] val_view None = Ok (None, items))
    by (intros; eexists; reflexivity).
  destruct (Hs [x51]) as [l1 Hl1]. destruct (Hs [x00]) as [l2 Hl2]. split.
  - destruct (@script_validation HC toy_laws HO reverse (val_block [val_tx [x51]; val_tx [x51]]) val_view 1 None None None l1)
      as (fuel & o & Hrun & _); [intros l; apply reverse_Permutation | apply Hw | exact Hl1 |].
    exists fuel. intros fuel' Hf. rewrite <- (Hrun (20 + fuel)%nat) in Hrun by lia.
    etransitivity; [exact (Hrun fuel' Hf) |]. vm_compute. reflexivity.
  - destruct (@script_validation HC toy_laws HO reverse (val_block [val_tx [x51]; val_tx [x00]]) val_view 1 None None None l2)
      as (fuel & o & Hrun & _); [intros l; apply reverse_Permutation | apply Hw | exact Hl2 |].
    exists fuel. intros fuel' Hf. rewrite <- (Hrun (20 + fuel)%nat) in Hrun by lia.
    etransitivity; [exact (Hrun fuel' Hf) |]. vm_compute. reflexivity.
Defined.
