(* ===== verification/Connect.v ===== *)
(** The checks before a block is connected to the chain
    (src/btcd/blockchain/validate.go, src/btcd/blockchain/weight.go,
    src/btcd/blockchain/checkpoints.go and calcSequenceLock of
    src/btcd/blockchain/chain.go): inputs and fees, signature operations, relative
    lock times, the subsidy and the scripts of a block.

    [checkConnectBlock] runs on the view it is given, over the cache of unspent
    outputs, with the caches of deployments, signatures and midstates: a state
    of these parts.  The abstract specification is the ledger of UtxoView. *)

From stdpp Require Import gmap.
From S2P Require Import Prelude Slices ScriptError Opcodes Tokenizer Vlq Compress WireCommon MsgTx MsgBlock Script Crypto SigHash SigCache EngineState SigCheck OpcodeExec Engine EngineInv BtcUtil Merkle WorkMath BlockIndex Difficulty TxRules Validate UtxoView Bucket Chainio SizeHelper UtxoCache ChainView Threshold ScriptVal.
#[local] Open Scope Z_scope.

(** * Inputs *)

(** An entry that is there and not spent. *)
Definition unspent_entry (view : UtxoViewpoint) (op : OutPoint) : option UtxoEntry :=
  match LookupEntry view op with
  | Some utxo => if IsSpent utxo then None else Some utxo
  | None => None
  end.

Fixpoint p2sh_sig_ops (ins : list TxIn) (view : UtxoViewpoint) (totalSigOps : Z) : checked Z :=
  match ins with
  | [] => Ok totalSigOps
  | txIn :: ins' =>
      match unspent_entry view (PreviousOutPoint txIn) with
      | None => Err (ruleError ErrMissingTxOut)
      | Some utxo =>
          if negb (isScriptHashScript (pkScript utxo)) then p2sh_sig_ops ins' view totalSigOps else
          let! numSigOps := counted (GetPreciseSigOpCount (SignatureScript txIn) (pkScript utxo)) in
          let lastSigOps := totalSigOps in
          let totalSigOps := int64 (totalSigOps + numSigOps) in
          let! _ := check (totalSigOps <? lastSigOps) ErrTooManySigOps in
          p2sh_sig_ops ins' view totalSigOps
      end
  end.

Definition CountP2SHSigOps (tx : MsgTx) (isCoinBaseTx : bool) (view : UtxoViewpoint) : checked Z :=
  if isCoinBaseTx then Ok 0 else p2sh_sig_ops (TxIns tx) view 0.

Fixpoint witness_sig_ops (ins : list TxIn) (view : UtxoViewpoint) (numSigOps : Z) : checked Z :=
  match ins with
  | [] => Ok numSigOps
  | txIn :: ins' =>
      match unspent_entry view (PreviousOutPoint txIn) with
      | None => Err (ruleError ErrMissingTxOut)
      | Some utxo =>
          let! n := counted (GetWitnessSigOpCount (SignatureScript txIn) (pkScript utxo) (Witness txIn)) in
          witness_sig_ops ins' view (int64 (numSigOps + n))
      end
  end.

(** The error of [CountP2SHSigOps] makes the cost 0. *)
Definition GetSigOpCost (tx : MsgTx) (isCoinBaseTx : bool) (view : UtxoViewpoint) (bip16 segWit : bool) : checked Z :=
  let! n := CountSigOps tx in
  let numSigOps := int64 (n * WitnessScaleFactor) in
  let witness numSigOps :=
    if segWit && negb isCoinBaseTx then witness_sig_ops (TxIns tx) view numSigOps else Ok numSigOps in
  if bip16 then
    match CountP2SHSigOps tx isCoinBaseTx view with
    | Err _ => Ok 0
    | Panic => Panic
    | Ok numP2SHSigOps => witness (int64 (numSigOps + int64 (numP2SHSigOps * WitnessScaleFactor)))
    end
  else witness numSigOps.

(** The loop over the inputs with the running total. *)
Fixpoint check_inputs (ins : list TxIn) (txHeight : Z) (view : UtxoViewpoint) (params : Params) (totalSatoshiIn : Z)
  : checked Z :=
  match ins with
  | [] => Ok totalSatoshiIn
  | txIn :: ins' =>
      match unspent_entry view (PreviousOutPoint txIn) with
      | None => Err (ruleError ErrMissingTxOut)
      | Some utxo =>
          let! _ := check (IsCoinBase utxo && (int32 (txHeight - blockHeight utxo) <? int32 (CoinbaseMaturity params)))
                      ErrImmatureSpend in
          let originTxSatoshi := amount utxo in
          let! _ := check (originTxSatoshi <? 0) ErrBadTxOutValue in
          let! _ := check (originTxSatoshi >? MaxSatoshi) ErrBadTxOutValue in
          let lastSatoshiIn := totalSatoshiIn in
          let totalSatoshiIn := int64 (totalSatoshiIn + originTxSatoshi) in
          let! _ := check ((totalSatoshiIn <? lastSatoshiIn) || (totalSatoshiIn >? MaxSatoshi)) ErrBadTxOutValue in
          check_inputs ins' txHeight view params totalSatoshiIn
      end
  end.

(** [totalSatoshiOut += txOut.Value] *)
Definition sum_outputs (outs : list TxOut) : Z := foldl (fun t o => int64 (t + Value o)) 0 outs.

Definition CheckTransactionInputs (tx : MsgTx) (txHeight : Z) (view : UtxoViewpoint) (params : Params) : checked Z :=
  if IsCoinBaseTx tx then Ok 0 else
  let! totalSatoshiIn := check_inputs (TxIns tx) txHeight view params 0 in
  let totalSatoshiOut := sum_outputs (TxOuts tx) in
  let! _ := check (totalSatoshiIn <? totalSatoshiOut) ErrSpendTooHigh in
  Ok (int64 (totalSatoshiIn - totalSatoshiOut)).

(** * The chain *)

(** What does not change while a block is checked. *)
Record ChainConsts := mkChainConsts {
  index_ : gmap bytes blockNode;
  chainParams : Params;
  voteParams : VoteParams;
  GenesisHash : bytes;
  checkpoints : list (Z * bytes);
}.

(** The hash that is written in hexadecimal from its last byte. *)
Definition newHashFromStr (n : Z) : bytes := le_bytes 32 n.

Definition block91842Hash : bytes :=
  newHashFromStr 0x00000000000a4d0a398161ffc163c503763b1f4360639393e0e4c8e300e0caec.
Definition block91880Hash : bytes :=
  newHashFromStr 0x00000000000743f190a18c5577a3c2d2a1f610ae9601ac046a38084ccb7cd721.

Definition isBIP0030Node (node : blockNode) : bool :=
  if (height node =? 91842) && bool_decide (n_hash (data node) = block91842Hash) then true
  else (height node =? 91880) && bool_decide (n_hash (data node) = block91880Hash).

Definition LatestCheckpoint (cs : ChainConsts) : option (Z * bytes) := last (checkpoints cs).

Definition Bip16Activation : Z := 1333238400.

(** An error of one of the parts; the fuel of the engine may be spent. *)
Inductive ConnectError : Set :=
| ConnRule (e : RuleError)
| ConnStore (e : StoreError)
| ConnVote (e : ThresholdError)
| ConnFuel.

Definition relabel {E E' A} (f : E -> E') (o : outcome E A) : outcome E' A :=
  match o with Ok a => Ok a | Err e => Err (f e) | Panic => Panic end.

(** A method of a part with its own errors. *)
Definition part {S T E E' A} (f : E -> E') (proj : S -> T) (upd : T -> S -> S) (m : M T E A) : M S E' A :=
  fun s => let '(o, t) := m (proj s) in (relabel f o, upd t s).

Definition val_error (e : ValError) : ConnectError :=
  match e with ValRule e => ConnRule e | ValFuel => ConnFuel end.

Section Checks.
Context `{PubKeys} `{Crypto} `{MapOrder} {B : Type} `{Bucket B}.

(** The parts that a check reads and changes. *)
Record ConnState := mkConnState {
  cn_cache : utxoCache B;
  cn_view : UtxoViewpoint;
  cn_stxos : option (list SpentTxOut);
  cn_thresholds : Caches;
  cn_scripts : option SigCache * option HashCache;
}.

Abbreviation CN := (M ConnState ConnectError).

Definition on_utxos {A} : M (utxoCache B) StoreError A -> CN A :=
  part ConnStore cn_cache (fun c s => mkConnState c (cn_view s) (cn_stxos s) (cn_thresholds s) (cn_scripts s)).

Definition on_view {A} : M vstate RuleError A -> CN A :=
  part ConnRule (fun s => (cn_view s, cn_stxos s))
    (fun v s => mkConnState (cn_cache s) (fst v) (snd v) (cn_thresholds s) (cn_scripts s)).

Definition on_thresholds {A} : M Caches ThresholdError A -> CN A :=
  part ConnVote cn_thresholds (fun t s => mkConnState (cn_cache s) (cn_view s) (cn_stxos s) t (cn_scripts s)).

Definition on_scripts {A} : M (option SigCache * option HashCache) ValError A -> CN A :=
  part val_error cn_scripts (fun c s => mkConnState (cn_cache s) (cn_view s) (cn_stxos s) (cn_thresholds s) c).

Definition set_view (v : UtxoViewpoint) : CN unit :=
  modify (fun s => mkConnState (cn_cache s) v (cn_stxos s) (cn_thresholds s) (cn_scripts s)).

(** A rule that is checked against the view. *)
Definition rule {A} (f : UtxoViewpoint -> checked A) : CN A :=
  v <- gets cn_view;; lift (relabel ConnRule (f v)).

Definition broken {A} (c : RuleCode) : CN A := fail (ConnRule (ruleError c)).

Context (cs : ChainConsts).

(** ** Duplicate transactions *)

Definition outpoints_of (block : MsgBlock) : list OutPoint := mjoin ((fun tx => (tx_outputs tx).*1) <$> Transactions block).

(** No output of the block overwrites one that is not spent. *)
Fixpoint not_unspent (fetch : list OutPoint) (view : UtxoViewpoint) : checked unit :=
  match fetch with
  | [] => Ok tt
  | op :: fetch' =>
      match unspent_entry view op with
      | Some _ => Err (ruleError ErrOverwriteTx)
      | None => not_unspent fetch' view
      end
  end.

Definition checkBIP0030 (block : MsgBlock) : CN unit :=
  let fetch := outpoints_of block in
  v <- gets cn_view;;
  v <- on_utxos (fetchUtxos fetch v);;
  set_view v;;
  rule (not_unspent fetch).

(** ** Relative lock times *)

(** The median time that counts for an input; nil panics. *)
Definition input_median (node : blockNode) (inputHeight : Z) : checked Z :=
  let prevInputHeight := int32 (inputHeight - 1) in
  let prevInputHeight := if prevInputHeight <? 0 then 0 else prevInputHeight in
  match Ancestor node prevInputHeight with
  | None => Panic
  | Some n => match CalcPastMedianTime n with Ok t => Ok t | _ => Panic end
  end.

Fixpoint lock_inputs (node : blockNode) (ins : list TxIn) (view : UtxoViewpoint) (l : SequenceLock)
  : checked SequenceLock :=
  match ins with
  | [] => Ok l
  | txIn :: ins' =>
      match LookupEntry view (PreviousOutPoint txIn) with
      | None => Err (ruleError ErrMissingTxOut)
      | Some utxo =>
          let nextHeight := int32 (height node + 1) in
          let inputHeight := if blockHeight utxo =? 0x7fffffff then nextHeight else blockHeight utxo in
          let sequenceNum := Sequence txIn in
          let relativeLock := Z.land sequenceNum SequenceLockTimeMask in
          if Z.land sequenceNum SequenceLockTimeDisabled =? SequenceLockTimeDisabled
          then lock_inputs node ins' view l
          else if Z.land sequenceNum SequenceLockTimeIsSeconds =? SequenceLockTimeIsSeconds then
            let! medianTime := input_median node inputHeight in
            let timeLock := int64 (medianTime + (Z.shiftl relativeLock 9 - 1)) in
            lock_inputs node ins' view
              (if timeLock >? Seconds l then mkSequenceLock timeLock (sl_BlockHeight l) else l)
          else
            let blockHeight := int32 (inputHeight + int32 (relativeLock - 1)) in
            lock_inputs node ins' view
              (if blockHeight >? sl_BlockHeight l then mkSequenceLock (Seconds l) blockHeight else l)
      end
  end.

Definition calcSequenceLock (node : blockNode) (tx : MsgTx) (mempool : bool) : CN SequenceLock :=
  let sequenceLock := mkSequenceLock (-1) (-1) in
  csvSoftforkActive <-
    (if mempool then ret true else
     csvState <- on_thresholds (deploymentState (index_ cs) (voteParams cs) (parent node) DeploymentCSV);;
     ret (bool_decide (csvState = ThresholdActive)));;
  if negb ((uint32 (Version tx) >=? 2) && csvSoftforkActive) || IsCoinBaseTx tx then ret sequenceLock
  else rule (fun v => lock_inputs node (TxIns tx) v sequenceLock).

Fixpoint locks_met (node : blockNode) (txs : list MsgTx) (medianTime : Z) : CN unit :=
  match txs with
  | [] => ret tt
  | tx :: txs' =>
      sequenceLock <- calcSequenceLock node tx false;;
      (if negb (SequenceLockActive sequenceLock (height node) medianTime) then broken ErrUnfinalizedTx else ret tt);;
      locks_met node txs' medianTime
  end.

(** ** The block *)

Fixpoint sig_op_costs (i : nat) (txs : list MsgTx) (view : UtxoViewpoint) (bip16 segWit : bool) (totalSigOpCost : Z)
  : checked unit :=
  match txs with
  | [] => Ok tt
  | tx :: txs' =>
      let! sigOpCost := GetSigOpCost tx (Nat.eqb i 0) view bip16 segWit in
      let lastSigOpCost := totalSigOpCost in
      let totalSigOpCost := int64 (totalSigOpCost + sigOpCost) in
      let! _ := check ((totalSigOpCost <? lastSigOpCost) || (totalSigOpCost >? MaxBlockSigOpsCost)) ErrTooManySigOps in
      sig_op_costs (S i) txs' view bip16 segWit totalSigOpCost
  end.

(** The fees, while the transactions are connected to the view. *)
Fixpoint connect_checked (txs : list MsgTx) (h : Z) (totalFees : Z) : CN Z :=
  match txs with
  | [] => ret totalFees
  | tx :: txs' =>
      txFee <- rule (fun v => CheckTransactionInputs tx h v (chainParams cs));;
      let lastTotalFees := totalFees in
      let totalFees := int64 (totalFees + txFee) in
      if totalFees <? lastTotalFees then broken ErrBadFees else
      on_view (connectTransaction tx h);;
      connect_checked txs' h totalFees
  end.

Definition flag_if (b : bool) (f : Z) : Z := if b then f else 0.

Definition checkConnectBlock (fuel : nat) (sched : list txValidateItem -> list txValidateItem) (node : blockNode)
    (block : MsgBlock) (bh : Z) : CN unit :=
  let params := chainParams cs in
  let h := height node in
  let state id := on_thresholds (deploymentState (index_ cs) (voteParams cs) (parent node) id) in
  if bool_decide (n_hash (data node) = GenesisHash cs) then broken ErrMissingTxOut else
  v <- gets cn_view;;
  (if negb (bool_decide (bestHash v = PrevBlock (Header block))) then fail (ConnRule AssertError) else ret tt);;
  (if negb (isBIP0030Node node) && (h <? BIP0034Height params) then checkBIP0030 block else ret tt);;
  v <- gets cn_view;;
  v <- on_utxos (fetchInputUtxos block bh v);;
  set_view v;;
  let enforceBIP0016 := n_timestamp (data node) >=? Bip16Activation in
  segwitState <- state DeploymentSegwit;;
  let enforceSegWit := bool_decide (segwitState = ThresholdActive) in
  rule (fun v => sig_op_costs 0 (Transactions block) v enforceBIP0016 enforceSegWit 0);;
  totalFees <- connect_checked (Transactions block) h 0;;
  tx0 <- lift (match Transactions block with tx0 :: _ => Ok tx0 | [] => Panic end);;
  let expectedSatoshiOut := int64 (CalcBlockSubsidy h params + totalFees) in
  (if sum_outputs (TxOuts tx0) >? expectedSatoshiOut then broken ErrBadCoinbaseValue else ret tt);;
  let runScripts := match LatestCheckpoint cs with Some (ch, _) => negb (h <=? ch) | None => true end in
  let version := bh_Version (Header block) in
  let scriptFlags := flag_if enforceBIP0016 ScriptBip16 in
  let scriptFlags := Z.lor scriptFlags
    (flag_if ((version >=? 3) && (h >=? BIP0066Height params)) ScriptVerifyDERSignatures) in
  let scriptFlags := Z.lor scriptFlags
    (flag_if ((version >=? 4) && (h >=? BIP0065Height params)) ScriptVerifyCheckLockTimeVerify) in
  csvState <- state DeploymentCSV;;
  let csv := bool_decide (csvState = ThresholdActive) in
  let scriptFlags := Z.lor scriptFlags (flag_if csv ScriptVerifyCheckSequenceVerify) in
  (if csv then
     medianTime <- lift (match parent node with
                         | Some p => match CalcPastMedianTime p with Ok t => Ok t | _ => Panic end
                         | None => Panic
                         end);;
     locks_met node (Transactions block) medianTime
   else ret tt);;
  let scriptFlags := Z.lor scriptFlags (flag_if enforceSegWit (Z.lor ScriptVerifyWitness ScriptStrictMultiSig)) in
  taprootState <- state DeploymentTaproot;;
  let scriptFlags := Z.lor scriptFlags (flag_if (bool_decide (taprootState = ThresholdActive)) ScriptVerifyTaproot) in
  (if runScripts then
     v <- gets cn_view;; on_scripts (checkBlockScripts fuel sched block v scriptFlags)
   else ret tt);;
  v <- gets cn_view;;
  set_view (SetBestHash (n_hash (data node)) v).
End Checks.
