(* ===== verification/ConnectSpec.v ===== *)
(** What the checks before a block is connected guarantee: a block that passes
    them is applicable to the ledger, makes no money but the subsidy, spends no
    immature coin and satisfies the scripts of what it spends.

    [findInputsToFetch] adds the outputs of a transaction to the view before that
    transaction is connected, so that the view runs ahead of the ledger; the
    relation [tracks] says which of its entries are right at each point. *)

From stdpp Require Import gmap fin_maps.
From S2P Require Import Prelude Slices ScriptError Opcodes Tokenizer Vlq Compress WireCommon MsgTx MsgBlock Script Crypto SigHash SigCache EngineState SigCheck OpcodeExec Engine EngineInv BtcUtil Merkle WorkMath BlockIndex Difficulty TxRules Validate UtxoView Supply Bucket Chainio SizeHelper UtxoCache ChainView Threshold ScriptVal Connect.
#[local] Open Scope Z_scope.

(** * Views that run ahead of the ledger *)

(** The outpoints of the coins that a transaction makes. *)
Definition outs `{Crypto} (tx : MsgTx) : list OutPoint := (made tx 0).*1.

Lemma made_outs `{Crypto} tx h : (made tx h).*1 = outs tx.
Proof.
  unfold outs, made. induction (tx_outputs tx) as [| [op o] l IH]; [done |].
  cbn [omap list_omap]. unfold coin_of. cbn [fst snd]. destruct (unspendable (PkScript o)); [done |].
  rewrite !fmap_cons. now f_equal.
Qed.

(** The entries at the outpoints of [Q] say what the ledger [L] has; without an
    entry the ledger is what it was. *)
Record tracks (Q : OutPoint -> Prop) (v : UtxoViewpoint) (S L : coins) : Prop := {
  tracks_entry op e : entries v !! op = Some e -> Q op -> entry_says e = L !! op;
  tracks_none op : entries v !! op = None -> L !! op = S !! op;
  tracks_nil op : entries v !! op = Some None -> S !! op = None;
}.

Lemma tracks_weaken (Q Q' : OutPoint -> Prop) v S L :
  (forall op, is_Some (entries v !! op) -> Q' op -> Q op) -> tracks Q v S L -> tracks Q' v S L.
Proof. intros HQ [He Hn Hnil]. constructor; [| done | done]. intros op e Hop Hq. apply (He op e Hop), HQ; eauto. Qed.

Lemma tracks_set Q v S L op e :
  tracks Q v S L ->
  tracks (fun o => Q o \/ o = op) (set_entry op (Some e) v) S
    (if IsSpent e then delete op L else <[op := stxo_of e]> L).
Proof.
  intros [He Hn Hnil]. constructor; intros o; cbn [set_entry entries].
  - intros x. rewrite lookup_insert_Some. intros [[<- <-] | [Hne Hx]] Hq.
    + cbn [entry_says]. destruct (IsSpent e); [now rewrite lookup_delete_eq | now rewrite lookup_insert_eq].
    + destruct Hq as [Hq | ->]; [| done]. rewrite (He o x Hx Hq).
      destruct (IsSpent e); [now rewrite lookup_delete_ne | now rewrite lookup_insert_ne].
  - intros [Hx Hne]%lookup_insert_None. rewrite <- (Hn o Hx).
    destruct (IsSpent e); [now rewrite lookup_delete_ne | now rewrite lookup_insert_ne].
  - rewrite lookup_insert_Some. intros [[_ [=]] | [_ Hx]]. auto.
Qed.

Section Tracking.
Context `{Crypto}.

Lemma addTxOut_tracks Q v S L op o cb h :
  tracks Q v S L ->
  match coin_of cb h (op, o) with
  | Some p => tracks (fun x => Q x \/ x = fst p) (addTxOut op o cb h v) S (<[fst p := snd p]> L)
  | None => tracks Q (addTxOut op o cb h v) S L
  end.
Proof.
  intros Ht. unfold addTxOut, coin_of. cbn [fst snd]. destruct (unspendable (PkScript o)); [done |].
  set (e := mkEntry _ _ _ _). pose proof (tracks_set Q v S L op e Ht) as Hset.
  assert (He : IsSpent e = false /\ stxo_of e = mkSpent (Value o) (PkScript o) h cb) by (unfold e; now destruct cb).
  destruct He as [Hs Hst]. now rewrite Hs, Hst in Hset.
Qed.

Lemma add_outputs_tracks cb h l : forall Q v S L,
  tracks Q v S L ->
  tracks (fun x => Q x \/ x ∈ (omap (coin_of cb h) l).*1) (add_outputs cb h l v) S (add_coins (omap (coin_of cb h) l) L).
Proof.
  induction l as [| [op o] l IH]; intros Q v S L Ht.
  { eapply tracks_weaken; [| exact Ht]. intros x _ [Hq | Hq]; [done | now apply elem_of_nil in Hq]. }
  pose proof (addTxOut_tracks Q v S L op o cb h Ht) as Hone. unfold add_outputs. cbn [foldl omap list_omap].
  fold (add_outputs cb h l (addTxOut op o cb h v)). destruct (coin_of cb h (op, o)) as [p |].
  - rewrite add_coins_cons. eapply tracks_weaken; [| exact (IH _ _ _ _ Hone)].
    intros x _. rewrite fmap_cons, elem_of_cons. tauto.
  - exact (IH _ _ _ _ Hone).
Qed.

Lemma AddTxOuts_tracks Q tx h v S L :
  tracks Q v S L -> tracks (fun x => Q x \/ x ∈ outs tx) (AddTxOuts tx h v) S (add_coins (made tx h) L).
Proof. intros Ht. rewrite <- (made_outs tx h). exact (add_outputs_tracks _ h (tx_outputs tx) Q v S L Ht). Qed.

(** ** Spending *)

Lemma unspent_entry_Some v op utxo :
  unspent_entry v op = Some utxo -> entries v !! op = Some (Some utxo) /\ IsSpent utxo = false.
Proof.
  unfold unspent_entry, LookupEntry. destruct (entries v !! op) as [[e |] |]; cbn; try discriminate.
  destruct (IsSpent e) eqn:Hs; [discriminate |]. now intros [= ->].
Qed.

(** The coin of an entry that is there and not spent. *)
Definition entry_coin (v : UtxoViewpoint) (op : OutPoint) : option SpentTxOut := stxo_of <$> unspent_entry v op.

Lemma tracks_coin Q v S L op c : tracks Q v S L -> Q op -> entry_coin v op = Some c -> L !! op = Some c.
Proof.
  intros Ht HQ Hc. unfold entry_coin in Hc. destruct (unspent_entry v op) as [u |] eqn:Hu; [| discriminate].
  injection Hc as <-. apply unspent_entry_Some in Hu as [He Hs]. rewrite <- (tracks_entry Q v S L Ht op _ He HQ).
  cbn [entry_says]. now rewrite Hs.
Qed.

Lemma entry_coins_set op e v ops l :
  op ∉ ops -> Forall2 (fun o c => entry_coin v o = Some c) ops l ->
  Forall2 (fun o c => entry_coin (set_entry op e v) o = Some c) ops l.
Proof.
  intros Hnin Hl. induction Hl as [| o c ops l Hc Hl IH]; [constructor |].
  apply not_elem_of_cons in Hnin as [Hne Hnin]. constructor; [| auto].
  unfold entry_coin, unspent_entry, LookupEntry, set_entry in *. cbn [entries]. now rewrite lookup_insert_ne.
Qed.

Lemma spend_inputs_tracks ins : forall Q v S L sx l,
  tracks Q v S L -> NoDup (PreviousOutPoint <$> ins) -> Forall Q (PreviousOutPoint <$> ins) ->
  Forall2 (fun op c => entry_coin v op = Some c) (PreviousOutPoint <$> ins) l ->
  exists v', spend_inputs ins (v, sx) = (Ok tt, (v', option_map (fun k => k ++ l) sx)) /\
    tracks Q v' S (del_coins (PreviousOutPoint <$> ins) L) /\ lookups L (PreviousOutPoint <$> ins) = Some l.
Proof.
  induction ins as [| ti ins IH]; intros Q v S L sx l Ht Hd HQ Hl.
  { apply Forall2_nil_inv_l in Hl as ->. exists v. split_and!; [| done | done]. cbn. unfold ret.
    destruct sx; cbn [option_map]; [now rewrite app_nil_r | done]. }
  rewrite fmap_cons in *. apply NoDup_cons in Hd as [Hnin Hd]. apply Forall_cons in HQ as [HQ HQs].
  apply Forall2_cons_inv_l in Hl as (c & l' & Hc & Hl & ->). set (op := PreviousOutPoint ti) in *.
  pose proof (tracks_coin Q v S L op c Ht HQ Hc) as HL. unfold entry_coin in Hc.
  destruct (unspent_entry v op) as [u |] eqn:Hu; [| discriminate]. injection Hc as <-.
  apply unspent_entry_Some in Hu as [He Hs]. set (v1 := set_entry op (Some (Spend u)) v).
  assert (Ht1 : tracks Q v1 S (delete op L)).
  { pose proof (tracks_set Q v S L op (Spend u) Ht) as Hset. rewrite Spend_spent in Hset.
    refine (tracks_weaken _ _ _ _ _ _ Hset). auto. }
  destruct (IH Q v1 S (delete op L) (record_stxo (stxo_of u) sx) l' Ht1 Hd HQs) as (v' & Hrun & Ht' & Hlk).
  { now apply entry_coins_set. }
  exists v'. split_and!.
  - cbn [spend_inputs]. rewrite bind_eq. cbn [get fst]. fold op. unfold LookupEntry. rewrite He. cbn [mjoin option_join].
    rewrite bind_eq. cbn [put]. fold v1. cbn [snd]. rewrite Hrun.
    destruct sx; cbn [record_stxo option_map]; [now rewrite <- app_assoc | done].
  - now rewrite del_coins_cons.
  - apply lookups_Some. constructor; [done |]. apply lookups_Some. now rewrite lookups_delete in Hlk.
Qed.

(** ** What the view holds before the block is connected *)

Lemma AddTxOuts_entries tx h v op e :
  entries (AddTxOuts tx h v) !! op = Some e -> entries v !! op = Some e \/ (is_Some e /\ op ∈ outs tx).
Proof.
  unfold AddTxOuts, outs, made. generalize (IsCoinBaseTx tx) as cb. intros cb. revert v.
  induction (tx_outputs tx) as [| [o x] l IH]; intros v; cbn [foldl omap list_omap]; [auto |].
  intros [Hv | [He Hin]]%IH; unfold addTxOut, coin_of in *; cbn [fst snd]; destruct (unspendable (PkScript x)); auto.
  - cbn [set_entry entries] in Hv. apply lookup_insert_Some in Hv as [[<- <-] | [Hne Hv]]; [| auto].
    right. split; [eauto | constructor].
  - right. rewrite fmap_cons. split; [done | now constructor].
Qed.

Lemma in_flight_Some txs x j : in_flight txs !! x = Some j -> exists tx, txs !! j = Some tx /\ TxHash tx = x.
Proof.
  unfold in_flight. intros Hj%elem_of_list_to_map_2. rewrite elem_of_reverse in Hj.
  apply elem_of_lookup_imap_1 in Hj as (i & tx & [= -> ->] & Hi). eauto.
Qed.

Lemma in_flight_is_Some txs j tx : txs !! j = Some tx -> is_Some (in_flight txs !! TxHash tx).
Proof.
  intros Hj. destruct (in_flight txs !! TxHash tx) eqn:Hn; [eauto |]. unfold in_flight in Hn.
  apply not_elem_of_list_to_map in Hn. destruct Hn. rewrite fmap_reverse, elem_of_reverse.
  apply list_elem_of_fmap. exists (TxHash tx, j). split; [done |].
  exact (elem_of_lookup_imap_2 (fun i tx => (TxHash tx, i)) txs tx j Hj).
Qed.

Lemma same_index txs i j (tx tx' : MsgTx) :
  NoDup (TxHash <$> txs) -> txs !! i = Some tx -> txs !! j = Some tx' -> TxHash tx = TxHash tx' -> i = j.
Proof.
  intros Hd Hi Hj Heq. apply (NoDup_lookup _ i j (TxHash tx) Hd); rewrite list_lookup_fmap; [now rewrite Hi |].
  now rewrite Hj, Heq.
Qed.

(** The entries are outputs of the first transactions of the block. *)
Definition early (txs : list MsgTx) (i : nat) (v : UtxoViewpoint) : Prop :=
  forall op e, entries v !! op = Some e ->
    is_Some e /\ exists j tx, (j <= i)%nat /\ txs !! j = Some tx /\ op ∈ outs tx.

(** An outpoint is asked for, or is one of the first transactions. *)
Definition found (txs : list MsgTx) (i : nat) (needed : list OutPoint) (op : OutPoint) : Prop :=
  op ∈ needed \/ exists j tx, (j <= i)%nat /\ txs !! j = Some tx /\ TxHash tx = Hash op.

Lemma outs_hash tx op : op ∈ outs tx -> Hash op = TxHash tx.
Proof. apply made_hash. Qed.

Lemma find_input_spec txs h i v n ti :
  NoDup (TxHash <$> txs) -> early txs i v ->
  exists v' n', find_input txs h i (v, n) ti = (v', n ++ n') /\ early txs i v' /\
    n' ⊆ [PreviousOutPoint ti] /\ found txs i (n ++ n') (PreviousOutPoint ti).
Proof.
  intros Hd He. unfold find_input. set (op := PreviousOutPoint ti).
  assert (Hfetch : (forall j tx, (j <= i)%nat -> txs !! j = Some tx -> Hash op <> TxHash tx) ->
    exists v' n', match entries v !! op with Some _ => (v, n) | None => (v, n ++ [op]) end = (v', n ++ n') /\
      early txs i v' /\ n' ⊆ [op] /\ found txs i (n ++ n') op).
  { intros Hno. destruct (entries v !! op) as [e |] eqn:Hop.
    - destruct (He op e Hop) as (_ & j & tx & Hj & Htx & Hin). destruct (Hno j tx Hj Htx). now apply outs_hash.
    - exists v, [op]. split_and!; [done | done | done |]. left. set_solver. }
  destruct (in_flight txs !! Hash op) as [j |] eqn:Hj.
  - destruct (in_flight_Some _ _ _ Hj) as (tx & Htx & Hh). destruct (Nat.leb_spec j i) as [Hle | Hgt].
    + rewrite Htx. exists (AddTxOuts tx h v), []. rewrite app_nil_r. split_and!; [done | | set_solver | right; eauto].
      intros o e [Ho | [Hs Ho]]%AddTxOuts_entries; [exact (He o e Ho) | eauto 6].
    + apply Hfetch. intros k tx' Hk Htx' Heq. assert (j = k); [| lia].
      eapply (same_index txs); eauto. congruence.
  - apply Hfetch. intros k tx' Hk Htx' Heq. apply in_flight_is_Some in Htx' as [? Hs]. congruence.
Qed.

Lemma found_mono txs i j n n' op : found txs i n op -> (i <= j)%nat -> n ⊆ n' -> found txs j n' op.
Proof.
  intros [Hin | (k & tx & Hk & Htx & Hh)] Hij Hn; [left; set_solver | right]. exists k, tx. split_and!; auto. lia.
Qed.

Lemma find_inputs_spec txs h i ins : forall v n,
  NoDup (TxHash <$> txs) -> early txs i v ->
  exists v' n', foldl (find_input txs h i) (v, n) ins = (v', n ++ n') /\ early txs i v' /\
    n' ⊆ PreviousOutPoint <$> ins /\ Forall (found txs i (n ++ n')) (PreviousOutPoint <$> ins).
Proof.
  induction ins as [| ti ins IH]; intros v n Hd He; cbn [foldl].
  { exists v, []. rewrite app_nil_r. split_and!; [done | done | set_solver | constructor]. }
  destruct (find_input_spec txs h i v n ti Hd He) as (v1 & n1 & -> & He1 & Hn1 & Hf1).
  destruct (IH v1 (n ++ n1) Hd He1) as (v2 & n2 & -> & He2 & Hn2 & Hf2). exists v2, (n1 ++ n2).
  rewrite app_assoc, fmap_cons. split_and!; [done | done | set_solver |].
  constructor; [eapply found_mono; eauto; set_solver | done].
Qed.

Lemma find_rest_spec txs h rest : forall k v n,
  NoDup (TxHash <$> txs) -> early txs k v ->
  exists v' n',
    foldl (fun acc '(i, tx) => foldl (find_input txs h i) acc (TxIns tx)) (v, n) (imap (fun i tx => ((k + i)%nat, tx)) rest)
      = (v', n ++ n') /\
    early txs (k + length rest) v' /\ n' ⊆ rest ≫= inputs /\
    forall i tx, rest !! i = Some tx -> Forall (found txs (k + i) (n ++ n')) (inputs tx).
Proof.
  induction rest as [| tx rest IH]; intros k v n Hd He.
  { exists v, []. rewrite app_nil_r. split_and!; [done | | set_solver | done].
    cbn [length]. now rewrite Nat.add_0_r. }
  rewrite imap_cons. cbn [foldl]. rewrite Nat.add_0_r.
  destruct (find_inputs_spec txs h k (TxIns tx) v n Hd He) as (v1 & n1 & -> & He1 & Hn1 & Hf1).
  destruct (IH (S k) v1 (n ++ n1) Hd) as (v2 & n2 & Hrun & He2 & Hn2 & Hf2).
  { intros op e Hop. destruct (He1 op e Hop) as (Hs & j & t & Hj & Ht). split; [done |]. exists j, t. split; [lia | done]. }
  exists v2, (n1 ++ n2). rewrite app_assoc. split_and!.
  - rewrite <- Hrun. f_equal. apply imap_ext. intros i t _. cbn. f_equal. lia.
  - cbn [length]. now rewrite <- plus_n_Sm.
  - rewrite bind_cons. unfold inputs at 1. set_solver.
  - intros [| i] t Hi; cbn [lookup list_lookup] in Hi.
    + injection Hi as <-. rewrite Nat.add_0_r. eapply Forall_impl; [exact Hf1 |]. intros op Hop.
      eapply found_mono; eauto. set_solver.
    + rewrite <- plus_n_Sm. exact (Hf2 i t Hi).
Qed.

(** The entries that are right while the transactions [rest] are to be connected:
    those that were asked for, and those that none of [rest] makes. *)
Definition settled (needed : list OutPoint) (rest : list MsgTx) (op : OutPoint) : Prop :=
  op ∈ needed \/ Forall (fun tx => op ∉ outs tx) rest.

(** Each transaction spends entries that are right when it is connected. *)
Definition sourced (needed : list OutPoint) (txs : list MsgTx) : Prop :=
  forall i tx, txs !! i = Some tx -> Forall (settled needed (drop i txs)) (spends tx).

Lemma found_settled txs i needed op :
  NoDup (TxHash <$> txs) -> found txs i needed op -> settled needed (drop (S i) txs) op.
Proof.
  intros Hd [Hin | (j & tx & Hj & Htx & Hh)]; [now left | right]. apply Forall_forall. intros tx' Hin Hop.
  apply list_elem_of_lookup in Hin as [k Hk]. rewrite lookup_drop in Hk. apply outs_hash in Hop.
  assert (j = S i + k)%nat; [| lia]. eapply (same_index txs); eauto. congruence.
Qed.

Lemma findInputs_spec block h v tx0 rest :
  Transactions block = tx0 :: rest -> IsCoinBaseTx tx0 = true -> NoDup (TxHash <$> tx0 :: rest) ->
  entries v = ∅ ->
  exists v' needed, findInputsToFetch block h v = Ok (v', needed) /\
    (forall op e, entries v' !! op = Some e -> is_Some e /\ exists tx, tx ∈ tx0 :: rest /\ op ∈ outs tx) /\
    needed ⊆ rest ≫= inputs /\ sourced needed (tx0 :: rest).
Proof.
  intros Hb Hcb Hd Hv. unfold findInputsToFetch. rewrite Hb.
  assert (He : early (tx0 :: rest) 0 v) by (intros op e Hop; rewrite Hv, lookup_empty in Hop; discriminate).
  destruct (find_rest_spec (tx0 :: rest) h rest 0 v [] Hd He) as (v' & n & Hrun & He' & Hn & Hf).
  exists v', n. cbn [app] in *. split_and!; [f_equal; exact Hrun | | exact Hn |].
  - intros op e Hop. destruct (He' op e Hop) as (Hs & j & tx & _ & Htx & Hin). split; [done |]. exists tx. split; [| done].
    eapply list_elem_of_lookup_2; eauto.
  - intros [| i] tx Hi.
    + injection Hi as <-. unfold spends. rewrite Hcb. constructor.
    + cbn [lookup list_lookup] in Hi. unfold spends. destruct (IsCoinBaseTx tx); [constructor |].
      eapply Forall_impl; [exact (Hf i tx Hi) |]. intros op. now apply found_settled.
Qed.

Lemma settled_next needed tx rest v S L :
  tracks (fun op => settled needed (tx :: rest) op \/ op ∈ outs tx) v S L -> tracks (settled needed rest) v S L.
Proof.
  apply tracks_weaken. intros op _ [Hin | Hall]; [left; now left |].
  destruct (decide (op ∈ outs tx)) as [? | Hn]; [now right | left; right]. now constructor.
Qed.

Lemma connect_coinbase_tracks needed tx rest h v sx S L :
  IsCoinBaseTx tx = true -> tracks (settled needed (tx :: rest)) v S L ->
  exists v', connectTransaction tx h (v, sx) = (Ok tt, (v', sx)) /\
    apply_tx h tx L = Some (add_coins (made tx h) L, []) /\ tracks (settled needed rest) v' S (add_coins (made tx h) L).
Proof.
  intros Hcb Ht. unfold connectTransaction, apply_tx. rewrite Hcb. exists (AddTxOuts tx h v).
  split_and!; [done | done |]. now apply (settled_next needed tx), AddTxOuts_tracks.
Qed.

Lemma connect_tx_tracks needed tx rest h v sx S L l :
  IsCoinBaseTx tx = false -> NoDup (inputs tx) -> Forall (settled needed (tx :: rest)) (inputs tx) ->
  tracks (settled needed (tx :: rest)) v S L ->
  Forall2 (fun op c => entry_coin v op = Some c) (inputs tx) l ->
  exists v' L', connectTransaction tx h (v, sx) = (Ok tt, (v', option_map (fun k => k ++ l) sx)) /\
    apply_tx h tx L = Some (L', l) /\ tracks (settled needed rest) v' S L'.
Proof.
  intros Hcb Hd Hset Ht Hl. unfold connectTransaction, apply_tx. rewrite Hcb, decide_True by done.
  destruct (spend_inputs_tracks (TxIns tx) _ v S L sx l Ht Hd Hset Hl) as (v1 & Hrun & Ht1 & Hlk).
  unfold inputs. rewrite Hlk. exists (AddTxOuts tx h v1). eexists. split_and!; [rewrite bind_eq, Hrun; done | done |].
  now apply (settled_next needed tx), AddTxOuts_tracks.
Qed.
End Tracking.

Section Loading.
Context `{PubKeysLaws} `{Crypto} {B : Type} `{BucketLaws B}.

Lemma load_entries (L : coins) ops es op : Forall2 (fun op e => entry_says e = L !! op) ops es -> forall v,
  let v' := foldl (fun v '(op, e) => set_entry op e v) v (zip ops es) in
  if decide (op ∈ ops) then exists e, entries v' !! op = Some e /\ entry_says e = L !! op
  else entries v' !! op = entries v !! op.
Proof.
  induction 1 as [| o e ops es He Hf IH]; intros v; [now rewrite decide_False by set_solver |].
  cbn [zip zip_with foldl]. specialize (IH (set_entry o e v)). cbn zeta in IH. fold (zip ops es).
  destruct (decide (op ∈ ops)); [now rewrite decide_True by set_solver |].
  rewrite IH. cbn [set_entry entries]. destruct (decide (op = o)) as [-> | Hne].
  - rewrite decide_True, lookup_insert_eq by set_solver. eauto.
  - now rewrite decide_False, lookup_insert_ne by set_solver.
Qed.

Lemma load_needed c S0 ops v v' c' :
  cache_ok c S0 -> Forall outpoint_ok ops -> fetchUtxosFromCache ops v c = (Ok v', c') ->
  same_db c c' /\ cache_ok c' S0 /\ ledger c' S0 = ledger c S0 /\
  forall op, if decide (op ∈ ops) then exists e, entries v' !! op = Some e /\ entry_says e = ledger c S0 !! op
             else entries v' !! op = entries v !! op.
Proof.
  intros Hc Hops. unfold fetchUtxosFromCache. destruct (Z.eqb_spec (zlen ops) 0) as [Hz | Hz].
  - apply zlen_0_nil in Hz as ->. intros [= <- <-]. split_and!; [apply same_db_refl | done | done |].
    intros op. now rewrite decide_False by set_solver.
  - destruct (fetchEntries_spec c S0 ops Hc Hops) as (c1 & es & Hf & Hs & Hc1 & Hl & He).
    rewrite bind_eq, Hf. intros [= <- <-]. split_and!; [done | done | done |]. intros op. now apply load_entries.
Qed.

(** The view before the block is connected. *)
Lemma fetchInputs_tracks c S0 block h v tx0 rest v' c' :
  cache_ok c S0 -> Forall outpoint_ok (rest ≫= inputs) ->
  Transactions block = tx0 :: rest -> IsCoinBaseTx tx0 = true -> NoDup (TxHash <$> tx0 :: rest) -> entries v = ∅ ->
  fetchInputUtxos block h v c = (Ok v', c') ->
  same_db c c' /\ cache_ok c' S0 /\ ledger c' S0 = ledger c S0 /\
  exists needed, tracks (settled needed (tx0 :: rest)) v' (ledger c S0) (ledger c S0) /\ sourced needed (tx0 :: rest).
Proof.
  intros Hc Hops Hb Hcb Hd Hv. destruct (findInputs_spec block h v tx0 rest Hb Hcb Hd Hv) as (v1 & n & Hf & He & Hn & Hs).
  unfold fetchInputUtxos. rewrite Hf. intros Hr.
  destruct (load_needed c S0 n v1 v' c' Hc) as (H1' & H2' & H3' & Hl); [| done |].
  { apply Forall_forall. intros op Hin. rewrite Forall_forall in Hops. apply Hops, Hn, Hin. }
  split_and!; [done | done | done |]. exists n. split; [| done]. constructor; [| done |].
  2: { intros op Hop. specialize (Hl op). destruct (decide (op ∈ n)) as [Hin | Hnin].
       - destruct Hl as (e' & He' & Hsay). rewrite Hop in He'. injection He' as <-. now symmetry.
       - rewrite Hl in Hop. destruct (He op None Hop) as [[? [=]] _]. }
  intros op e Hop Hset. specialize (Hl op). destruct (decide (op ∈ n)) as [Hin | Hnin].
  - destruct Hl as (e' & He' & Hsay). congruence.
  - destruct Hset as [| Hno]; [done |]. rewrite Hl in Hop.
    destruct (He op e Hop) as (_ & tx & Htx & Hout). rewrite Forall_forall in Hno. now destruct (Hno tx Htx).
Qed.
End Loading.

(** * The checks *)

(** A sum of 64 bits that overflows is negative. *)
Lemma int64_overflow a b : 0 <= a < 2 ^ 63 -> 0 <= b < 2 ^ 62 -> a + b < 2 ^ 63 \/ int64 (a + b) < 0.
Proof.
  intros Ha Hb. destruct (Z.lt_ge_cases (a + b) (2 ^ 63)) as [Hlt | Hge]; [now left | right].
  unfold int64, wrapS. rewrite <- (Z.mod_unique (a + b + 2 ^ (64 - 1)) (2 ^ 64) 1 (a + b - 2 ^ 63)) by lia. lia.
Qed.

(** A coin of a coinbase has the age that spending it takes. *)
Definition mature (p : Params) (h : Z) (c : SpentTxOut) : Prop :=
  st_IsCoinBase c = true -> int32 (CoinbaseMaturity p) <= int32 (h - st_Height c).

Lemma check_inputs_spec ins h v p : forall t t',
  amount_ok t -> check_inputs ins h v p t = Ok t' ->
  exists l, Forall2 (fun op c => entry_coin v op = Some c) (PreviousOutPoint <$> ins) l /\
    t' = t + worth l /\ amount_ok t' /\ Forall (mature p h) l.
Proof.
  induction ins as [| ti ins IH]; intros t t' Ht; cbn [check_inputs].
  { intros [= <-]. exists []. unfold worth. cbn. split_and!; [constructor | lia | done | constructor]. }
  destruct (unspent_entry v (PreviousOutPoint ti)) as [u |] eqn:Hu; [| discriminate].
  rewrite !checked_seq, !check_Ok. intros (Hm & Hpos & Hmax & Hsum & Hr). unfold amount_ok in Ht.
  assert (MaxSatoshi < 2 ^ 62) by reflexivity. apply Z.ltb_ge in Hpos. rewrite Z.gtb_ltb in Hmax, Hsum.
  apply Z.ltb_ge in Hmax. rewrite int64_small in Hsum, Hr by lia. apply orb_false_iff in Hsum as [_ Hsum].
  apply Z.ltb_ge in Hsum. destruct (IH (t + amount u) t' ltac:(unfold amount_ok; lia) Hr) as (l & Hl & -> & Hok & Hml).
  exists (stxo_of u :: l). rewrite fmap_cons. split_and!.
  - constructor; [| done]. unfold entry_coin. now rewrite Hu.
  - unfold worth. rewrite zsum_cons. cbn [stxo_of Amount]. lia.
  - done.
  - constructor; [| done]. unfold mature. cbn [stxo_of st_IsCoinBase st_Height]. intros Hcb. rewrite Hcb in Hm. cbn in Hm. lia.
Qed.

Lemma sum_outputs_paid tx : tx_sane tx -> sum_outputs (TxOuts tx) = paid tx /\ amount_ok (paid tx).
Proof.
  intros Hs. pose proof (total_amount tx Hs) as Ht. pose proof (amounts tx Hs) as Ha.
  unfold sum_outputs, paid. assert (Hgen : forall t, 0 <= t -> t + zsum Value (TxOuts tx) <= MaxSatoshi ->
    foldl (fun t o => int64 (t + Value o)) t (TxOuts tx) = t + zsum Value (TxOuts tx) /\ 0 <= zsum Value (TxOuts tx)).
  { clear Ht Hs. induction Ha as [| o l Ho Hl IH]; intros t Hp Hb; [cbn in *; lia |].
    rewrite zsum_cons in *. unfold amount_ok in Ho. assert (Hn : 0 <= zsum Value l).
    { clear -Hl. induction Hl as [| o l Ho Hl IH]; [done |]. rewrite zsum_cons. unfold amount_ok in Ho. lia. }
    assert (MaxSatoshi < 2 ^ 62) by reflexivity. cbn [foldl]. rewrite int64_small by lia.
    destruct (IH (t + Value o)) as [-> _]; lia. }
  destruct (Hgen 0 ltac:(lia) ltac:(lia)) as [-> Hn]. unfold amount_ok. lia.
Qed.

Lemma CheckTransactionInputs_spec tx h v p fee :
  tx_sane tx -> IsCoinBaseTx tx = false -> CheckTransactionInputs tx h v p = Ok fee ->
  exists l, Forall2 (fun op c => entry_coin v op = Some c) (PreviousOutPoint <$> TxIns tx) l /\
    fee = worth l - paid tx /\ amount_ok fee /\ Forall (mature p h) l.
Proof.
  intros Hs Hcb. unfold CheckTransactionInputs. rewrite Hcb.
  destruct (check_inputs _ _ _ _ _) as [t | |] eqn:Hr; cbn [obind]; try discriminate.
  rewrite checked_seq, check_Ok. destruct (sum_outputs_paid tx Hs) as [-> Hp]. intros [Hle [= <-]].
  destruct (check_inputs_spec (TxIns tx) h v p 0 t) as (l & Hl & Ht & Hok & Hm); [now split | done |].
  unfold amount_ok in *. assert (MaxSatoshi < 2 ^ 62) by reflexivity. apply Z.ltb_ge in Hle.
  exists l. rewrite int64_small by lia. split_and!; [done | lia | lia | lia | done].
Qed.

Section Spec.
Context `{PubKeysLaws} `{Crypto} `{MapOrder} {B : Type} `{BucketLaws B} (cs : ChainConsts).

Abbreviation params := (chainParams cs).

Abbreviation ST := (@ConnState B).

(** ** Steps that do not touch the coins *)

Record keeps (s s' : ST) : Prop := {
  keeps_cache : cn_cache s' = cn_cache s;
  keeps_view : cn_view s' = cn_view s;
  keeps_stxos : cn_stxos s' = cn_stxos s;
}.

Definition still {A} (m : M ST ConnectError A) : Prop := forall s, keeps s (snd (m s)).

Lemma keeps_trans s1 s2 s3 : keeps s1 s2 -> keeps s2 s3 -> keeps s1 s3.
Proof. intros [] []. constructor; congruence. Qed.

Lemma still_bind {A C} (m : M ST ConnectError A) (k : A -> M ST ConnectError C) :
  still m -> (forall a, still (k a)) -> still (bind m k).
Proof.
  intros Hm Hk s. rewrite bind_eq. specialize (Hm s). destruct (m s) as [[a | e |] s1]; cbn [snd] in *; try done.
  eapply keeps_trans; [exact Hm | apply Hk].
Qed.

Lemma still_ret {A} (a : A) : still (ret a : M ST ConnectError A).
Proof. now intros s. Qed.
Lemma still_lift {A} (o : outcome ConnectError A) : still (lift o : M ST ConnectError A).
Proof. now intros s. Qed.
Lemma still_broken {A} c : still (broken c : M ST ConnectError A).
Proof. now intros s. Qed.
Lemma still_rule {A} (f : UtxoViewpoint -> checked A) : still (rule f : M ST ConnectError A).
Proof. now intros s. Qed.
Lemma still_thresholds {A} (m : M Caches ThresholdError A) : still (on_thresholds m : M ST ConnectError A).
Proof. intros s. unfold on_thresholds, part. destruct (m (cn_thresholds s)) as [o t]. now constructor. Qed.
Lemma still_scripts {A} (m : M (option SigCache * option HashCache) ValError A) : still (on_scripts m : M ST ConnectError A).
Proof. intros s. unfold on_scripts, part. destruct (m (cn_scripts s)) as [o t]. now constructor. Qed.

Lemma still_sequence_lock node tx mempool : still (calcSequenceLock cs node tx mempool : M ST ConnectError _).
Proof.
  apply still_bind.
  - destruct mempool; [apply still_ret |]. apply still_bind; [apply still_thresholds | intros; apply still_ret].
  - intros a. destruct (_ || _); [apply still_ret | apply still_rule].
Qed.

Lemma still_locks_met node txs t : still (locks_met cs node txs t : M ST ConnectError _).
Proof.
  induction txs as [| tx txs IH]; [apply still_ret |]. cbn [locks_met].
  apply still_bind; [apply still_sequence_lock |]. intros l.
  apply still_bind; [| intros _; exact IH]. destruct (negb _); [apply still_broken | apply still_ret].
Qed.

(** ** The loop over the transactions *)

(** What a transaction creates out of nothing. *)
Definition reward (tx : MsgTx) : Z := if IsCoinBaseTx tx then paid tx else 0.

Lemma connect_one needed tx rest h v sx S L fee :
  tracks (settled needed (tx :: rest)) v S L -> Forall (settled needed (tx :: rest)) (spends tx) -> tx_sane tx ->
  solvent L -> CheckTransactionInputs tx h v params = Ok fee ->
  exists v' L' l, connectTransaction tx h (v, sx) = (Ok tt, (v', option_map (fun k => k ++ l) sx)) /\
    apply_tx h tx L = Some (L', l) /\ tracks (settled needed rest) v' S L' /\ amount_ok fee /\
    solvent L' /\ supply L' <= supply L + reward tx - fee /\ Forall (mature params h) l.
Proof.
  intros Ht Hset Hs HL Hfee.
  assert (Hpos : Forall (fun o => 0 <= Value o) (TxOuts tx)).
  { eapply Forall_impl; [exact (amounts tx Hs) |]. unfold amount_ok. intros o Ho. cbn in Ho. lia. }
  unfold spends, reward in *. destruct (IsCoinBaseTx tx) eqn:Hcb.
  - destruct (connect_coinbase_tracks needed tx rest h v sx S L Hcb Ht) as (v' & Hrun & Ha & Ht').
    unfold CheckTransactionInputs in Hfee. rewrite Hcb in Hfee. injection Hfee as <-.
    destruct (supply_tx h tx L _ _ Ha HL Hpos) as (H1' & H2' & _).
    exists v', (add_coins (made tx h) L), []. split_and!; [| done | done | done | done | unfold worth in H2'; cbn in H2'; lia | constructor].
    rewrite Hrun. destruct sx; cbn [option_map]; [now rewrite app_nil_r | done].
  - destruct (CheckTransactionInputs_spec tx h v params fee Hs Hcb Hfee) as (l & Hl & Hf & Hok & Hm).
    destruct (connect_tx_tracks needed tx rest h v sx S L l Hcb (distinct_inputs tx Hs) Hset Ht Hl) as (v' & L' & Hrun & Ha & Ht').
    destruct (supply_tx h tx L _ _ Ha HL Hpos) as (H1' & H2' & _).
    exists v', L', l. split_and!; [done | done | done | done | done | lia | done].
Qed.

Lemma sourced_cons needed tx txs : sourced needed (tx :: txs) ->
  Forall (settled needed (tx :: txs)) (spends tx) /\ sourced needed txs.
Proof. intros Hs. split; [exact (Hs 0%nat tx eq_refl) |]. intros i t Hi. exact (Hs (S i) t Hi). Qed.

Lemma connect_checked_spec needed S h txs : forall t (s : ST) fees s' L,
  tracks (settled needed txs) (cn_view s) S L -> sourced needed txs -> Forall tx_sane txs -> 0 <= t < 2 ^ 63 ->
  solvent L -> connect_checked cs txs h t s = (Ok fees, s') ->
  exists L' l, apply_txs h txs L = Some (L', l) /\ cn_cache s' = cn_cache s /\
    cn_stxos s' = option_map (fun k => k ++ l) (cn_stxos s) /\ tracks (settled needed []) (cn_view s') S L' /\
    0 <= fees < 2 ^ 63 /\ solvent L' /\ supply L' <= supply L + zsum reward txs - (fees - t) /\ Forall (mature params h) l.
Proof.
  induction txs as [| tx txs IH]; intros t s fees s' L Ht Hsrc Hs Hr HL Hrun; cbn [connect_checked] in Hrun.
  { injection Hrun as <- <-. exists L, []. destruct Hr. split_and!; try done; [| cbn; lia].
    destruct (cn_stxos s); cbn [option_map]; [now rewrite app_nil_r | done]. }
  apply sourced_cons in Hsrc as [Hset Hsrc]. apply Forall_cons in Hs as [Hs Hss].
  apply bind_inv_Ok in Hrun as (fee & s1 & Hfee & Hrun). unfold rule in Hfee. rewrite bind_eq in Hfee. cbn [gets lift] in Hfee.
  injection Hfee as Hfee <-. destruct (CheckTransactionInputs tx h (cn_view s) params) as [f | |] eqn:Hc; try discriminate.
  injection Hfee as ->.
  destruct (connect_one needed tx txs h (cn_view s) (cn_stxos s) S L fee Ht Hset Hs HL Hc)
    as (v1 & L1 & l1 & Hrun1 & Ha1 & Ht1 & Hok & HL1 & Hsup & Hm).
  unfold amount_ok in Hok. assert (MaxSatoshi < 2 ^ 62) by reflexivity.
  destruct (Z.ltb_spec (int64 (t + fee)) t) as [Hlt | Hge]; [discriminate |].
  assert (Hsmall : 0 <= t + fee < 2 ^ 63).
  { destruct (int64_overflow t fee); lia. }
  rewrite int64_small in Hrun by lia.
  rewrite bind_eq in Hrun. unfold on_view, part in Hrun. rewrite Hrun1 in Hrun. cbn [relabel fst snd] in Hrun.
  eapply IH in Hrun as (L' & l & Ha & Hcache & Hst & Ht' & Hf & HL' & Hsup' & Hm'); [| exact Ht1 | done | done | done | done].
  exists L', (l1 ++ l). cbn [apply_txs]. rewrite Ha1. cbn [mbind option_bind]. rewrite Ha. cbn [cn_cache cn_stxos cn_view] in *.
  rewrite zsum_cons. split_and!; try done; try lia; [| now apply Forall_app].
  rewrite Hst. destruct (cn_stxos s); cbn [option_map]; [now rewrite <- app_assoc | done].
Qed.

(** ** The whole block *)

Lemma ledger_solvent (c : utxoCache B) S0 : cache_ok c S0 -> solvent (ledger c S0).
Proof.
  intros Hc op x Hx. rewrite lookup_ledger in Hx.
  assert (Hdb : forall y, S0 !! op = Some y -> 0 <= Amount y)
    by (intros y Hy; apply (ok_amount y), (in_range _ _ (db_holds c S0 Hc) op y Hy)).
  destruct (cache_map c !! op) as [[e |] |] eqn:He; [| auto | auto].
  destruct (IsSpent e); [discriminate |]. injection Hx as <-.
  destruct (db_entries_ok c S0 Hc op (Some e) He) as (_ & Hok & _). apply Hok.
Qed.

Lemma tracks_effective v S L needed : tracks (settled needed []) v S L -> effective v S = L.
Proof.
  intros Ht. apply map_eq. intros op. rewrite lookup_effective. unfold LookupEntry.
  assert (Hs : settled needed [] op) by (right; constructor).
  destruct (entries v !! op) as [[e |] |] eqn:He; cbn [mjoin option_join].
  - exact (tracks_entry _ v S L Ht op _ He Hs).
  - rewrite <- (tracks_entry _ v S L Ht op _ He Hs). exact (tracks_nil _ v S L Ht op He).
  - symmetry. exact (tracks_none _ v S L Ht op He).
Qed.

Lemma validate_item_passes fuel flags view item sc sc' :
  validate_item fuel flags view item sc = (Ok tt, sc') -> script_passes flags view item.
Proof.
  unfold validate_item. destruct (LookupEntry view _) as [utxo |] eqn:Hl; [| discriminate].
  destruct (NewEngine _ _ _ _ _ _ _ _) as [[cfg vm] | |] eqn:Hnew; try discriminate.
  destruct (Execute cfg fuel vm) as [[[[] | |] vm'] |] eqn:Hx; cbn [executed rule_error]; try discriminate.
  intros _. exists utxo, sc, cfg, vm, fuel, vm'. auto.
Qed.

Lemma validate_all_passes fuel flags view l : forall sc sc',
  validate_all fuel flags view l sc = (Ok tt, sc') -> Forall (script_passes flags view) l.
Proof.
  induction l as [| item l IH]; intros sc sc'; cbn [validate_all]; [constructor |].
  intros (u & sc1 & Hi & Hr)%bind_inv_Ok. destruct u. constructor; [eapply validate_item_passes | eapply IH]; eauto.
Qed.

(** The scripts of all inputs but those of a coinbase run without an error. *)
Definition scripts_pass (flags : Z) (view : UtxoViewpoint) (txs : list MsgTx) : Prop :=
  forall tx i ti, tx ∈ txs -> TxIns tx !! i = Some ti -> Index (PreviousOutPoint ti) <> 2 ^ 32 - 1 ->
    exists h, script_passes flags view (mkItem (Z.of_nat i) ti tx h).

Lemma checkBlockScripts_passes fuel sched block view flags st st' :
  (forall l, sched l ≡ₚ l) -> checkBlockScripts fuel sched block view flags st = (Ok tt, st') ->
  scripts_pass flags view (Transactions block).
Proof.
  intros Hsched Hr. destruct st as [sc hc]. destruct (block_items (segwit_active flags) (Transactions block) view hc) as [[hc' l] | |] eqn:Hb.
  - rewrite (checkBlockScripts_eq _ _ _ _ _ _ _ _ _ Hb) in Hr.
    destruct (validate_all fuel flags view (sched l) sc) as [[[] | |] sc'] eqn:Hv; try discriminate.
    apply validate_all_passes in Hv. rewrite Hsched, Forall_forall in Hv.
    intros tx i ti Htx Hi Hti. destruct (proj2 (block_items_spec _ _ _ _ _ _ Hb) tx i ti Htx Hi Hti) as [h Hh]. eauto.
  - unfold checkBlockScripts in Hr. rewrite bind_eq in Hr. cbn [get] in Hr. rewrite bind_eq in Hr. unfold lift in Hr.
    cbn [snd] in Hr. rewrite Hb in Hr. discriminate.
  - unfold checkBlockScripts in Hr. rewrite bind_eq in Hr. cbn [get] in Hr. rewrite bind_eq in Hr. unfold lift in Hr.
    cbn [snd] in Hr. rewrite Hb in Hr. discriminate.
Qed.

Lemma still_run {A} (m : M ST ConnectError A) s r s' : m s = (r, s') -> still m -> keeps s s'.
Proof. intros Hr Hm. specialize (Hm s). now rewrite Hr in Hm. Qed.

Lemma still_if {A} (b : bool) (m k : M ST ConnectError A) : still m -> still k -> still (if b then m else k).
Proof. now destruct b. Qed.

(** The rules that a height, a version and a time turn on. *)
Definition required_flags (h timestamp version flags : Z) : Prop :=
  (Bip16Activation <= timestamp -> Z.testbit flags 0 = true) /\
  (3 <= version -> BIP0066Height params <= h -> Z.testbit flags 6 = true) /\
  (4 <= version -> BIP0065Height params <= h -> Z.testbit flags 3 = true).

Lemma flags_required h timestamp version f1 f2 f3 :
  required_flags h timestamp version
    (Z.lor (Z.lor (Z.lor (Z.lor (Z.lor (flag_if (timestamp >=? Bip16Activation) ScriptBip16)
      (flag_if ((version >=? 3) && (h >=? BIP0066Height params)) ScriptVerifyDERSignatures))
      (flag_if ((version >=? 4) && (h >=? BIP0065Height params)) ScriptVerifyCheckLockTimeVerify)) f1) f2) f3).
Proof.
  unfold required_flags. rewrite !Z.lor_spec. split_and!.
  - intros Ht. replace (timestamp >=? Bip16Activation) with true by lia. reflexivity.
  - intros Hv Hh. replace (version >=? 3) with true by lia. replace (h >=? _) with true by lia.
    change (Z.testbit (flag_if (true && true) ScriptVerifyDERSignatures) 6) with true. now rewrite orb_true_r.
  - intros Hv Hh. replace (version >=? 4) with true by lia. replace (h >=? BIP0065Height params) with true by lia.
    change (Z.testbit (flag_if (true && true) ScriptVerifyCheckLockTimeVerify) 3) with true. now rewrite orb_true_r.
Qed.

Definition above_checkpoints (h : Z) : Prop :=
  match LatestCheckpoint cs with Some (ch, _) => ch < h | None => True end.

(** A statement of a successful run that only reads the state or sets the view. *)
Ltac pure_step H :=
  apply bind_inv_Ok in H as (? & ? & Hstep & H); unfold set_view, modify, gets, ret in Hstep; injection Hstep as <- <-.

(** Whether it is checked that no output overwrites another. *)
Definition asks_overwrites (node : blockNode) : bool :=
  negb (isBIP0030Node node) && (height node <? BIP0034Height params).

(** A successful run: the view is loaded, the coins are checked and the scripts
    are run on the view that comes out. *)
Lemma checkConnectBlock_inv fuel sched node block bh (s s' : ST) :
  checkConnectBlock cs fuel sched node block bh s = (Ok tt, s') ->
  exists s0 v1 c1 s2 fees s3,
    (if asks_overwrites node then checkBIP0030 block else ret tt) s = (Ok tt, s0) /\
    fetchInputUtxos block bh (cn_view s0) (cn_cache s0) = (Ok v1, c1) /\
    cn_cache s2 = c1 /\ cn_view s2 = v1 /\ cn_stxos s2 = cn_stxos s0 /\
    connect_checked cs (Transactions block) (height node) 0 s2 = (Ok fees, s3) /\
    (forall tx0 rest, Transactions block = tx0 :: rest ->
       sum_outputs (TxOuts tx0) <= int64 (CalcBlockSubsidy (height node) params + fees)) /\
    cn_cache s' = cn_cache s3 /\ cn_view s' = SetBestHash (n_hash (data node)) (cn_view s3) /\ cn_stxos s' = cn_stxos s3 /\
    (above_checkpoints (height node) -> exists flags st st',
       required_flags (height node) (n_timestamp (data node)) (bh_Version (Header block)) flags /\
       checkBlockScripts fuel sched block (cn_view s3) flags st = (Ok tt, st')).
Proof.
  unfold checkConnectBlock. destruct (bool_decide (_ = GenesisHash cs)); [discriminate |].
  intros Hr. pure_step Hr.
  destruct (negb (bool_decide (bestHash (cn_view s) = _))); [rewrite bind_eq in Hr; discriminate Hr |].
  pure_step Hr. apply bind_inv_Ok in Hr as ([] & s0 & Hbip & Hr). exists s0.
  pure_step Hr. apply bind_inv_Ok in Hr as (v1 & s1 & Hload & Hr).
  unfold on_utxos, part in Hload. destruct (fetchInputUtxos block bh (cn_view s0) (cn_cache s0)) as [[v | |] c1] eqn:Hfetch;
    try discriminate. injection Hload as <- <-. cbn [relabel] in *.
  pure_step Hr.
  apply bind_inv_Ok in Hr as (segwit & s1 & Hs1 & Hr). apply still_run in Hs1; [| apply still_thresholds].
  apply bind_inv_Ok in Hr as ([] & s2 & Hs2 & Hr). apply still_run in Hs2; [| apply still_rule].
  pose proof (keeps_trans _ _ _ Hs1 Hs2) as [Hk1 Hk2 Hk3]. cbn [cn_cache cn_view cn_stxos] in Hk1, Hk2, Hk3. clear Hs1 Hs2.
  apply bind_inv_Ok in Hr as (fees & s3 & Hfees & Hr). exists v, c1, s2, fees, s3.
  apply bind_inv_Ok in Hr as (tx0 & ? & Htx0 & Hr). injection Htx0 as Htx0 <-.
  destruct (sum_outputs _ >? _) eqn:Hsum; [rewrite bind_eq in Hr; discriminate Hr |]. pure_step Hr.
  apply bind_inv_Ok in Hr as (csv & s4 & Hs4 & Hr). apply still_run in Hs4; [| apply still_thresholds].
  apply bind_inv_Ok in Hr as ([] & s5 & Hs5 & Hr).
  apply still_run in Hs5; [| apply still_if; [| apply still_ret]; apply still_bind;
    [apply still_lift | intros; apply still_locks_met]].
  apply bind_inv_Ok in Hr as (taproot & s6 & Hs6 & Hr). apply still_run in Hs6; [| apply still_thresholds].
  apply bind_inv_Ok in Hr as ([] & s7 & Hs7 & Hr).
  pose proof (keeps_trans _ _ _ (keeps_trans _ _ _ Hs4 Hs5) Hs6) as Hs36. clear Hs4 Hs5 Hs6.
  assert (Hscripts : above_checkpoints (height node) -> exists flags st st',
     required_flags (height node) (n_timestamp (data node)) (bh_Version (Header block)) flags /\
     checkBlockScripts fuel sched block (cn_view s3) flags st = (Ok tt, st')).
  { unfold above_checkpoints. intros Ha.
    replace (match LatestCheckpoint cs with Some (ch, _) => negb (height node <=? ch) | None => true end) with true in Hs7
      by (destruct (LatestCheckpoint cs) as [[ch ?] |]; [lia | done]).
    pure_step Hs7. rewrite (keeps_view _ _ Hs36) in Hs7.
    unfold on_scripts, part in Hs7. destruct (checkBlockScripts _ _ _ _ _ _) as [[[] | |] st'] eqn:Hcheck; try discriminate.
    eexists _, _, _. split; [| exact Hcheck]. apply flags_required. }
  apply still_run in Hs7; [| apply still_if; [| apply still_ret]; apply still_bind;
    [now intros ? | intros; apply still_scripts]].
  destruct (keeps_trans _ _ _ Hs36 Hs7) as [H1' H2' H3'].
  pure_step Hr. injection Hr as <-. cbn [cn_cache cn_view cn_stxos].
  split_and!; try done; [| now rewrite H2'].
  intros tx rest Hb. rewrite Hb in Htx0. injection Htx0 as <-. lia.
Qed.

Lemma rewards_coinbase tx0 rest :
  IsCoinBaseTx tx0 = true -> Forall (fun tx => IsCoinBaseTx tx = false) rest -> zsum reward (tx0 :: rest) = paid tx0.
Proof.
  intros Hcb Hnc. rewrite zsum_cons. unfold reward at 1. rewrite Hcb. replace (zsum reward rest) with 0; [lia |].
  induction Hnc as [| tx l Htx Hl IH]; [done |]. rewrite zsum_cons, <- IH. unfold reward. now rewrite Htx.
Qed.

Lemma subsidy_bounds p h :
  0 <= h < 2 ^ 31 -> 0 < SubsidyReductionInterval p -> 0 <= CalcBlockSubsidy h p <= baseSubsidy.
Proof.
  intros Hh Hi. rewrite subsidy_era by done. assert (0 <= h / SubsidyReductionInterval p) by (apply Z.div_pos; lia).
  assert (0 < 2 ^ (h / SubsidyReductionInterval p)) by lia. unfold era, baseSubsidy, SatoshiPerBitcoin.
  split; [apply Z.div_pos; lia | apply Z.div_le_upper_bound; nia].
Qed.

(** The comparison with the subsidy and the fees is one of the numbers. *)
Lemma paid_bound p h fees t :
  0 <= h < 2 ^ 31 -> 0 < SubsidyReductionInterval p -> 0 <= fees < 2 ^ 63 -> 0 <= t ->
  t <= int64 (CalcBlockSubsidy h p + fees) -> t <= CalcBlockSubsidy h p + fees.
Proof.
  intros Hh Hi Hf Ht Hle. pose proof (subsidy_bounds p h Hh Hi). assert (baseSubsidy < 2 ^ 62) by reflexivity.
  rewrite Z.add_comm in Hle |- *. destruct (int64_overflow fees (CalcBlockSubsidy h p) Hf ltac:(lia)) as [Hlt | Hneg]; [| lia].
  now rewrite int64_small in Hle by lia.
Qed.
End Spec.

(** * The claims *)

(** C3: a block that passes the checks can be connected.  Let the cache stand for a
    ledger, let the block be sane, with outpoints in range, and let the view have
    no entry.  Let the check for duplicate transactions be off: the height is at
    least the one of BIP 34, or the node is one of the two that are exempt from
    BIP 30.  (Without this a block is accepted that cannot be connected, see
    [early_spend].)  When [checkConnectBlock] succeeds, the block is applicable to
    the ledger: each input spends, once, a coin that is there or that an earlier
    transaction of the block makes; the view then stands for the ledger after the
    block, the journal has been extended by the coins that are spent and the cache
    stands for the ledger as before.  The supply has grown by at most the subsidy, in
    spite of fees of 64 bits and of coins that are overwritten; coins of
    coinbases that are spent have the required age; and above the last
    checkpoint the scripts of all inputs run without an error under the rules
    that the height, the version and the time of the block turn on. *)
Theorem connect_sound `{PubKeysLaws} `{Crypto} `{MapOrder} {B : Type} `{BucketLaws B} (cs : ChainConsts)
    fuel sched node block bh (s s' : @ConnState B) S0 powLimit adjustedTime flags :
  let h := height node in
  let S := ledger (cn_cache s) S0 in
  cache_ok (cn_cache s) S0 -> block_sane block powLimit adjustedTime flags ->
  Forall (fun tx => IsCoinBaseTx tx = false -> Forall outpoint_ok (inputs tx)) (Transactions block) ->
  entries (cn_view s) = ∅ -> isBIP0030Node node = true \/ BIP0034Height (chainParams cs) <= h ->
  0 <= h < 2 ^ 31 -> 0 < SubsidyReductionInterval (chainParams cs) -> (forall l, sched l ≡ₚ l) ->
  checkConnectBlock cs fuel sched node block bh s = (Ok tt, s') ->
  exists S' l,
    apply_txs h (Transactions block) S = Some (S', l) /\
    effective (cn_view s') S = S' /\ bestHash (cn_view s') = n_hash (data node) /\
    cn_stxos s' = option_map (fun k => k ++ l) (cn_stxos s) /\
    cache_ok (cn_cache s') S0 /\ ledger (cn_cache s') S0 = S /\
    supply S' <= supply S + CalcBlockSubsidy h (chainParams cs) /\
    Forall (mature (chainParams cs) h) l /\
    (above_checkpoints cs h -> exists f,
       required_flags cs h (n_timestamp (data node)) (bh_Version (Header block)) f /\
       scripts_pass f (cn_view s') (Transactions block)).
Proof.
  intros h S Hc Hsane Hops Hview Hskip Hh Hi Hsched Hrun.
  assert (Hskip' : asks_overwrites cs node = false).
  { destruct Hskip as [Hk | Hle]; unfold asks_overwrites; [now rewrite Hk |]. apply andb_false_iff. right. unfold h in Hle. lia. }
  destruct (checkConnectBlock_inv cs fuel sched node block bh s s' Hrun)
    as (s0 & v1 & c1 & s2 & fees & s3 & Hbip & Hfetch & Hc2 & Hv2 & Hs2 & Hconn & Hmoney & Hc3 & Hv3 & Hs3 & Hscr).
  rewrite Hskip' in Hbip. injection Hbip as <-.
  destruct (one_coinbase _ _ _ _ Hsane) as (tx0 & rest & Hb & Hcb & Hnc).
  assert (Hopr : Forall outpoint_ok (rest ≫= inputs)).
  { rewrite Hb in Hops. apply Forall_cons in Hops as [_ Hops]. apply Forall_bind.
    rewrite Forall_forall in Hops, Hnc |- *. intros tx Htx. exact (Hops tx Htx (Hnc tx Htx)). }
  pose proof (distinct_txs _ _ _ _ Hsane) as Hd. rewrite Hb in Hd.
  destruct (fetchInputs_tracks (cn_cache s) S0 block bh (cn_view s) tx0 rest v1 c1 Hc Hopr Hb Hcb Hd Hview Hfetch)
    as (_ & Hok1 & Hl1 & needed & Htr & Hsrc).
  subst v1 c1. rewrite <- Hb in Htr, Hsrc.
  destruct (connect_checked_spec cs needed S h (Transactions block) 0 s2 fees s3 S Htr Hsrc (sane_txs _ _ _ _ Hsane)
              ltac:(lia) (ledger_solvent _ _ Hc) Hconn)
    as (S' & l & Ha & Hcache & Hst & Htr' & Hf & _ & Hsup & Hm).
  exists S', l. rewrite Hv3, effective_hash, Hs3, Hst, Hs2, Hc3, Hcache.
  split_and!; try done.
  - exact (tracks_effective _ _ _ _ Htr').
  - rewrite Hb, (rewards_coinbase tx0 rest Hcb Hnc) in Hsup.
    pose proof (sane_txs _ _ _ _ Hsane) as Htxs. rewrite Hb in Htxs. apply Forall_cons in Htxs as [Htx0 _].
    destruct (sum_outputs_paid tx0 Htx0) as [Hpaid [Hp0 _]]. specialize (Hmoney tx0 rest Hb). rewrite Hpaid in Hmoney.
    pose proof (paid_bound (chainParams cs) h fees (paid tx0) Hh Hi Hf Hp0 Hmoney). lia.
  - intros Habove. destruct (Hscr Habove) as (f & st & st' & Hreq & Hcheck). exists f. split; [exact Hreq |].
    exact (checkBlockScripts_passes fuel sched block _ f st st' Hsched Hcheck).
Qed.

(** * A block that is accepted and cannot be connected *)

#[local] Existing Instance Compress.toy_keys.
#[local] Existing Instance Compress.toy_keys_laws.

(** A database and a new cache with one coin. *)
Definition coin_db : gmap bytes bytes :=
  match dbPutUtxoEntry old_outpoint (Some (entry_of old_coin)) (∅ : gmap bytes bytes) with Ok b => b | _ => ∅ end.
Definition coin_cache : utxoCache (gmap bytes bytes) := newUtxoCache coin_db None 1000000.
Definition one_coin_set : coins := {[old_outpoint := old_coin]}.

Lemma coin_cache_ok `{Crypto} : cache_ok coin_cache one_coin_set /\ ledger coin_cache one_coin_set = one_coin_set.
Proof.
  assert (Hop : outpoint_ok old_outpoint) by (split; [reflexivity | split; [discriminate | reflexivity]]).
  assert (Hcoin : coin_ok old_coin) by (split; [split; discriminate | reflexivity | split; [discriminate | reflexivity]]).
  destruct (put_holds (∅ : gmap bytes bytes) ∅ old_outpoint (entry_of old_coin) holds_empty Hop eq_refl Hcoin)
    as (b & Hput & Hb).
  assert (Hm : cache_map coin_cache = ∅) by (change (∅ ∪ ∅ = (∅ : entry_map)); apply (left_id_L ∅ union)).
  split; [| now apply ledger_empty]. constructor; [| | rewrite Hm; apply map_Forall_empty].
  - unfold coin_cache, coin_db. cbn [utxoBucket newUtxoCache]. rewrite Hput. exact Hb.
  - constructor; cbn; [done | done |]. split; [apply map_disjoint_empty_l | done].
Qed.

Definition spend_tx (version : Z) (op : OutPoint) (values : list Z) : MsgTx :=
  mkMsgTx version [mkTxIn op [] [] 0] ((fun v => mkTxOut v [x51]) <$> values) 0.

Definition coinbase_of (value : Z) : MsgTx :=
  mkMsgTx 1 [mkTxIn (mkOutPoint zeroHash MaxPrevOutIndex) [x01; x07] [] MaxTxInSequenceNum] [mkTxOut value [x51]] 0.

(** A block with the right root. *)
Definition block_of `{Crypto} (txs : list MsgTx) : MsgBlock :=
  mkMsgBlock (mkBlockHeader 1 [] (default [] (merkle_root (leaves false txs))) 1000 0x207fffff 0) txs.

Definition node_at (h : Z) : blockNode := Node None None (mkNodeData [x05] 0 h 1 0 0 1400000000 []).
Definition main_chain : ChainConsts := mkChainConsts ∅ MainNetParams MainNetVotes [x00] [].

Definition fresh_state (hash : bytes) : ConnState :=
  mkConnState coin_cache (SetBestHash hash NewUtxoViewpoint) (Some []) (mkCaches (newThresholdCaches 5) [] false)
    (None, None).

Definition check_at `{Crypto} `{MapOrder} (h : Z) (txs : list MsgTx) : outcome ConnectError unit * ConnState :=
  checkConnectBlock main_chain 50 (fun l => l) (node_at h) (block_of txs) h (fresh_state []).

(** The second transaction spends an output of the third, which comes later. *)
Definition early_with `{Crypto} (reward : Z) : list MsgTx :=
  let a := spend_tx 3 old_outpoint [400; 500] in
  [coinbase_of reward; spend_tx 2 (mkOutPoint (TxHash a) 0) [400]; a; spend_tx 4 (mkOutPoint (TxHash a) 1) [500]].

Definition early_txs `{Crypto} : list MsgTx := early_with 5000000100.

Definition after_early `{Crypto} `{MapOrder} : coins := effective (cn_view (snd (check_at 5 early_txs))) one_coin_set.

(** Below the BIP 34 height the checks accept a block that spends an output
    before it is made.  A sane block of four transactions, on a ledger with one
    coin of 1000: the second spends the first output of the third, which spends
    that coin, and the fourth spends the other output of the third.  It is not
    applicable to the ledger, and [checkConnectBlock] accepts it: the check for
    duplicate transactions leaves nil entries for the outputs of the block in
    the view, so that the early input is not asked for, and the fourth
    transaction brings both outputs of the third into the view.  The output
    that is spent is unspent in the view that comes out, which is worth 400 more
    than the coin and the subsidy.  Connecting the block to the cache then fails
    with an assertion and leaves the coin of its coinbase there.  At a height
    where the check for duplicates is off the same block is refused. *)
Example early_spend :
  let _ := toy_crypto in let _ := list_order in
  let c' := fst (snd (cache_connectTransactions (block_of early_txs) 5 (coin_cache, Some []))) in
  checkBlockSanity (block_of early_txs) (2 ^ 255) 0 BFNoPoWCheck = Ok tt /\
  apply_txs 5 early_txs one_coin_set = None /\
  fst (check_at 5 early_txs) = Ok tt /\
  supply after_early = supply one_coin_set + CalcBlockSubsidy 5 MainNetParams + 400 /\
  fst (cache_connectTransactions (block_of early_txs) 5 (coin_cache, Some [])) = Err StoreAssert /\
  Amount <$> ledger c' one_coin_set !! mkOutPoint (TxHash (coinbase_of 5000000100)) 0 = Some 5000000100 /\
  fst (check_at 300000 early_txs) = Err (ConnRule (ruleError ErrMissingTxOut)).
Proof. cbv zeta. split_and!; vm_compute; reflexivity. Qed.

(** The same above the BIP 34 height, when the view has entries: a reorganization
    has detached a block with the third transaction, which the block confirms again. *)
Example early_spend_again :
  let _ := toy_crypto in let _ := list_order in
  let txs := early_with 2500000100 in
  let detached := block_of [coinbase_of 7; spend_tx 3 old_outpoint [400; 500]] in
  let check v := checkConnectBlock main_chain 50 (fun l => l) (node_at 300000) (block_of txs) 300000
    (mkConnState coin_cache (SetBestHash [] v) (Some []) (mkCaches (newThresholdCaches 5) [] false) (None, None)) in
  match disconnectTransactions (fun _ => Ok None) detached 300000 [old_coin] NewUtxoViewpoint with
  | Ok v => fst (check v) = Ok tt
  | _ => False
  end /\
  apply_txs 300000 txs one_coin_set = None /\ fst (check NewUtxoViewpoint) = Err (ConnRule (ruleError ErrMissingTxOut)).
Proof. cbv zeta. split_and!; vm_compute; reflexivity. Qed.

Lemma connect_sound_witness :
  let _ := toy_crypto in let _ := list_order in
  let txs := [coinbase_of 2500000100; spend_tx 2 old_outpoint [900]] in
  let s' := snd (check_at 300000 txs) in
  fst (check_at 300000 txs) = Ok tt /\ cn_stxos s' = Some [old_coin] /\
  supply (effective (cn_view s') one_coin_set) <= 1000 + 2500000000.
Proof.
  intros HC HO txs s'. destruct (@coin_cache_ok HC) as [Hc Hl].
  assert (Hok : fst (check_at 300000 txs) = Ok tt) by (vm_compute; reflexivity).
  assert (Hrun : check_at 300000 txs = (Ok tt, s')) by (rewrite <- Hok; apply surjective_pairing).
  clearbody s'. destruct (connect_sound main_chain 50 (fun l => l) (node_at 300000) (block_of txs) 300000 (fresh_state []) s'
              one_coin_set (2 ^ 255) 0 BFNoPoWCheck) as (S' & l & Ha & He & _ & Hst & _ & _ & Hsup & _).
  - exact Hc.
  - apply block_sanity_spec. vm_compute. reflexivity.
  - repeat constructor; try discriminate; vm_compute; intuition congruence.
  - reflexivity.
  - right. vm_compute. discriminate.
  - split; vm_compute; congruence.
  - reflexivity.
  - reflexivity.
  - exact Hrun.
  - change (cn_cache (fresh_state [])) with coin_cache in Ha, He, Hsup. rewrite Hl in Ha, He, Hsup. split_and!; [exact Hok | | rewrite He; exact Hsup].
    etransitivity; [exact Hst |]. assert (Hsnd : snd <$> apply_txs 300000 txs one_coin_set = Some [old_coin]) by (vm_compute; reflexivity).
    change (apply_txs 300000 txs one_coin_set = Some (S', l)) in Ha. rewrite Ha in Hsnd. injection Hsnd as ->. reflexivity.
Defined.
