(* ===== verification/Votes.v ===== *)
(** All the threshold caches of a chain at once
    (src/btcd/blockchain/thresholdstate.go, src/btcd/blockchain/versionbits.go): a
    check of one bit asks for the states of all deployments, so that the caches are
    right together or not at all.  The version of the next block and the warning
    about unknown rules, as functions of the states of the reference. *)

From stdpp Require Import gmap.
From S2P Require Import Prelude Slices Crypto WireCommon MsgTx MsgBlock BtcUtil WorkMath BlockIndex ChainView Threshold.
#[local] Open Scope Z_scope.

(** * The reference *)

Section Reference.
Context `{Crypto} (params : VoteParams).

Definition in_progress (st : ThresholdState) : bool := bool_decide (st = ThresholdStarted \/ st = ThresholdLockedIn).

(** The bits of the deployments in progress are added to a version. *)
Definition with_bits (l : list ConsensusDeployment) (prevNode : option blockNode) (version : Z) : Z :=
  foldl (fun v d => if in_progress (state_for (tried_rules params d) prevNode)
                    then Z.lor v (condition_mask (BitNumber d)) else v) version l.

Definition version_after (prevNode : option blockNode) : Z := int32 (with_bits (Deployments params) prevNode vbTopBits).

(** A vote for a bit that the version the block should have does not set. *)
Definition bit_rules (bit : nat) : rules := {|
  started _ := true;
  ended _ := false;
  threshold := vp_RuleChangeActivationThreshold params;
  window := vp_MinerConfirmationWindow params;
  eligible _ := true;
  speedy := false;
  vote n := signals (Z.of_nat bit) (n_version (data n)) &&
            (Z.land (uint32 (version_after (parent n))) (condition_mask (Z.of_nat bit)) =? 0);
|}.

(** The rules whose states a cache is for. *)
Definition rules_of (id : cache_id) : option rules :=
  match id with
  | DeploymentCache i => tried_rules params <$> Deployments params !! i
  | WarningCache i => if decide (i < vbNumBits)%nat then Some (bit_rules i) else None
  end.

Record votes_ok : Prop := {
  votes_window : 0 < vp_MinerConfirmationWindow params < 2 ^ 31;
  votes_deployments : Forall (fun d => 0 <= MinActivationHeight d) (Deployments params);
}.

Definition slot (id : cache_id) (s : Caches) : Prop :=
  match id with
  | DeploymentCache i => (i < length (deploymentCaches s))%nat
  | WarningCache i => (i < length (warningCaches s))%nat
  end.

(** Every cache is there and right, and knows only nodes of the tree. *)
Definition caches_ok (T : gmap bytes blockNode) (s : Caches) : Prop :=
  forall id r, rules_of id = Some r ->
    slot id s /\ cache_valid T r id s /\ forall h, is_Some (Lookup id h s) -> is_Some (T !! h).

(** A bit of unknown rules has become active. *)
Definition unknown_active (prevNode : option blockNode) (bits : list nat) : bool :=
  existsb (fun bit => bool_decide (state_for (bit_rules bit) prevNode = ThresholdActive)) bits.
End Reference.

(** * Caches *)

Lemma Lookup_Update_other id id' h st h' s : id <> id' -> Lookup id' h' (Update id h st s) = Lookup id' h' s.
Proof.
  destruct id as [i | i], id' as [j | j]; intros Hne; cbn [Lookup Update deploymentCaches warningCaches]; try done;
    rewrite list_lookup_alter, decide_False; congruence.
Qed.

Lemma Lookup_Update_slot id h st s : slot id s -> Lookup id h (Update id h st s) = Some st.
Proof.
  destruct id as [i | i]; cbn [slot]; intros Hs; rewrite Lookup_Update, decide_True by done;
    destruct (lookup_lt_is_Some_2 _ _ Hs) as [x ->]; done.
Qed.

Lemma slot_Update id id' h st s : slot id' (Update id h st s) <-> slot id' s.
Proof. destruct id, id'; cbn [slot Update deploymentCaches warningCaches]; now rewrite ?length_alter. Qed.

Lemma warned_Update id h st s : unknownRulesWarned (Update id h st s) = unknownRulesWarned s.
Proof. now destruct id. Qed.

#[global] Instance cache_id_eq_dec : EqDecision cache_id.
Proof. solve_decision. Defined.

Section Spec.
Context `{Crypto} (T : gmap bytes blockNode) (HT : timed_tree T) (params : VoteParams) (Hp : votes_ok params).

#[local] Abbreviation HB := (timed_block_tree T HT).

Lemma caches_update id r n s :
  rules_of params id = Some r -> caches_ok params T s -> in_tree T n ->
  caches_ok params T (Update id (n_hash (data n)) (state_for r (Some n)) s).
Proof.
  intros Hid Hs Hn id' r' Hid'. destruct (Hs id' r' Hid') as (Hslot & Hv & Hk). split; [now apply slot_Update |]. split.
  2: { intros h Hh. destruct (decide (id = id' /\ n_hash (data n) = h)) as [[_ <-] | Hne]; [exists n; exact Hn |]. apply Hk.
       destruct (decide (id = id')) as [<- |]; [| now rewrite Lookup_Update_other in Hh].
       destruct id; rewrite Lookup_Update, decide_False in Hh by tauto; exact Hh. }
  intros m st Hm. destruct (decide (id = id')) as [<- | Hne]; [| rewrite Lookup_Update_other by done; now apply Hv].
  assert (r' = r) as -> by congruence. destruct (decide (n_hash (data n) = n_hash (data m))) as [Heq | Hne].
  - rewrite Heq, Lookup_Update_slot by done. intros [= <-]. assert (n = m) as ->; [| done].
    unfold in_tree in *. rewrite Heq in Hn. congruence.
  - destruct id; rewrite Lookup_Update, decide_False by done; now apply Hv.
Qed.

(** Right caches and what has been warned of. *)
Definition caches_at (w : bool) (s : Caches) : Prop := caches_ok params T s /\ unknownRulesWarned s = w.

(** A state of any of the rules, when its checker keeps the caches right. *)
Lemma thresholdState_caches w id r c prevNode s :
  rules_of params id = Some r -> rules_ok T r -> checks T (caches_at w) c r -> caches_at w s ->
  match prevNode with Some n => in_tree T n /\ height n < 2 ^ 31 - 1 | None => True end ->
  exists s', thresholdState prevNode c id s = (Ok (state_for r prevNode), s') /\ caches_at w s'.
Proof.
  intros Hid Hr Hc Hs Hn. apply (thresholdState_spec T HB r Hr (caches_at w)); try done.
  - intros s0 [Hs0 _]. now destruct (Hs0 id r Hid).
  - intros s0 h st [Hs0 _]. apply Lookup_Update_slot. now destruct (Hs0 id r Hid).
  - intros s0 n [Hs0 Hw] Hin. split; [now apply caches_update | now rewrite warned_Update].
Qed.

Lemma deployment_at i d : Deployments params !! i = Some d ->
  rules_of params (DeploymentCache i) = Some (tried_rules params d) /\ rules_ok T (tried_rules params d) /\
  forall w, checks T (caches_at w) (deploymentChecker T params d) (tried_rules params d).
Proof.
  intros Hd. pose proof (Forall_lookup_1 _ _ _ _ (votes_deployments params Hp) Hd) as Hmin.
  split_and!; [cbn; now rewrite Hd | exact (tried_rules_ok T params HT d (votes_window params Hp)) |].
  intros w. now apply tried_checks.
Qed.

Lemma deploymentState_caches w i d prevNode s :
  Deployments params !! i = Some d -> caches_at w s ->
  match prevNode with Some n => in_tree T n /\ height n < 2 ^ 31 - 1 | None => True end ->
  exists s', deploymentState T params prevNode i s = (Ok (state_for (tried_rules params d) prevNode), s') /\
    caches_at w s'.
Proof.
  intros Hd Hs Hn. destruct (deployment_at i d Hd) as (Hid & Hr & Hc). unfold deploymentState.
  pose proof (lookup_lt_Some _ _ _ Hd) as Hlt. rewrite (proj2 (Nat.ltb_ge _ _)), Hd by lia.
  now apply (thresholdState_caches w (DeploymentCache i)).
Qed.

(** ** The version of the next block *)

Lemma next_version_spec w prevNode : match prevNode with Some n => in_tree T n /\ height n < 2 ^ 31 - 1 | None => True end ->
  forall l i v s, drop i (Deployments params) = l -> caches_at w s ->
  exists s', next_version T params i l prevNode v s = (Ok (with_bits params l prevNode v), s') /\ caches_at w s'.
Proof.
  intros Hn. induction l as [| d l IH]; intros i v s Hl Hs; cbn [next_version]; [now exists s |].
  assert (Hd : Deployments params !! i = Some d).
  { pose proof (lookup_drop (Deployments params) i 0) as Hx. rewrite Hl, Nat.add_0_r in Hx. now symmetry. }
  destruct (deployment_at i d Hd) as (Hid & Hr & Hc).
  destruct (thresholdState_caches w _ _ _ prevNode s Hid Hr (Hc w) Hs Hn) as (s1 & Hrun & Hs1).
  rewrite bind_eq, Hrun. apply IH; [| done]. rewrite <- Nat.add_1_l, <- skipn_skipn. now rewrite Hl.
Qed.

Lemma calcNextBlockVersion_spec w prevNode s :
  match prevNode with Some n => in_tree T n /\ height n < 2 ^ 31 - 1 | None => True end -> caches_at w s ->
  exists s', calcNextBlockVersion T params prevNode s = (Ok (version_after params prevNode), s') /\ caches_at w s'.
Proof.
  intros Hn Hs. unfold calcNextBlockVersion.
  destruct (next_version_spec w prevNode Hn (Deployments params) 0 vbTopBits s (drop_0 _) Hs) as (s' & Hrun & Hs').
  exists s'. split; [| done]. rewrite bind_eq, Hrun. reflexivity.
Qed.

(** ** Unknown rules *)

Lemma bit_rules_ok bit : rules_ok T (bit_rules params bit).
Proof. constructor; cbn; [apply votes_window, Hp | done | done]. Qed.

Lemma bit_checks w bit : checks T (caches_at w) (bitConditionChecker T params (Z.of_nat bit)) (bit_rules params bit).
Proof.
  constructor; try done. intros n s Hn Hs. cbn [Condition bitConditionChecker vote bit_rules].
  destruct (signals (Z.of_nat bit) (n_version (data n))); cbn [negb andb]; [| now exists s].
  assert (Hpn : match parent n with Some p => in_tree T p /\ height p < 2 ^ 31 - 1 | None => True end).
  { destruct (parent n) as [p |] eqn:Hpar; [| done]. split; [now apply (in_tree_parent T HB n) |].
    pose proof (in_tree_ok T HB n Hn) as Hok. destruct (parent_ok n p Hok Hpar) as [_ Hh].
    destruct (node_ok_height n Hok). lia. }
  destruct (calcNextBlockVersion_spec w (parent n) s Hpn Hs) as (s' & Hrun & Hs'). exists s'. split; [| done].
  rewrite bind_eq, Hrun. reflexivity.
Qed.

Lemma bit_state w bit prevNode s : (bit < vbNumBits)%nat -> caches_at w s ->
  match prevNode with Some n => in_tree T n /\ height n < 2 ^ 31 - 1 | None => True end ->
  exists s', thresholdState prevNode (bitConditionChecker T params (Z.of_nat bit)) (WarningCache bit) s =
      (Ok (state_for (bit_rules params bit) prevNode), s') /\ caches_at w s'.
Proof.
  intros Hb Hs Hn. apply thresholdState_caches; [| apply bit_rules_ok | apply bit_checks | done | done].
  cbn [rules_of]. now rewrite decide_True.
Qed.

Lemma warn_bits_spec n bits : forall w s,
  match parent n with Some p => in_tree T p /\ height p < 2 ^ 31 - 1 | None => True end ->
  Forall (fun bit => (bit < vbNumBits)%nat) bits -> caches_at w s ->
  exists s', warn_bits T params bits n s = (Ok tt, s') /\ caches_at (w || unknown_active params (parent n) bits) s'.
Proof.
  induction bits as [| bit bits IH]; intros w s Hn Hb Hs; cbn [warn_bits unknown_active existsb].
  { exists s. now rewrite orb_false_r. }
  apply Forall_cons in Hb as [Hb Hbs]. destruct (bit_state w bit (parent n) s Hb Hs Hn) as (s1 & Hrun & Hs1).
  rewrite bind_eq, Hrun, bind_eq. destruct (bool_decide (_ = ThresholdActive)).
  - destruct (IH true (mkCaches (deploymentCaches s1) (warningCaches s1) true) Hn Hbs) as (s2 & Hr2 & Hs2).
    { split; [| done]. intros id r Hid. destruct Hs1 as [Hs1 _]. destruct (Hs1 id r Hid) as [Hslot Hv]. split; now destruct id. }
    exists s2. cbn [modify]. rewrite orb_true_r. split; done.
  - destruct (IH w s1 Hn Hbs Hs1) as (s2 & Hr2 & Hs2). exists s2. split; done.
Qed.
End Spec.

(** ** The bits of the version *)

Lemma condition_mask_testbit n k : 0 <= n < 29 -> 0 <= k -> Z.testbit (condition_mask n) k = (n =? k).
Proof.
  intros Hn Hk. unfold condition_mask. rewrite Z.shiftl_1_l, uint32_small.
  - apply Z.pow2_bits_eqb. lia.
  - split; [apply Z.pow_nonneg; lia |]. apply Z.pow_lt_mono_r; lia.
Qed.

Lemma with_bits_testbit `{Crypto} params l prevNode : forall v k,
  Forall (fun d => 0 <= BitNumber d < 29) l -> 0 <= k ->
  Z.testbit (with_bits params l prevNode v) k =
    Z.testbit v k || existsb (fun d => in_progress (state_for (tried_rules params d) prevNode) && (BitNumber d =? k)) l.
Proof.
  unfold with_bits. induction l as [| d l IH]; intros v k Hb Hk; cbn [foldl existsb]; [now rewrite orb_false_r |].
  apply Forall_cons in Hb as [Hd Hb]. rewrite IH by done. destruct (in_progress _); cbn [andb orb]; [| done].
  now rewrite Z.lor_spec, condition_mask_testbit, orb_assoc by done.
Qed.

Lemma with_bits_range `{Crypto} params l prevNode : forall v,
  Forall (fun d => 0 <= BitNumber d < 29) l -> 0 <= v < 2 ^ 30 -> 0 <= with_bits params l prevNode v < 2 ^ 30.
Proof.
  unfold with_bits. induction l as [| d l IH]; intros v Hb Hv; cbn [foldl]; [done |].
  apply Forall_cons in Hb as [Hd Hb]. apply IH; [done |]. destruct (in_progress _); [| done].
  assert (Hm : condition_mask (BitNumber d) = 2 ^ BitNumber d).
  { unfold condition_mask. rewrite Z.shiftl_1_l, uint32_small; [done |].
    split; [apply Z.pow_nonneg; lia |]. apply Z.pow_lt_mono_r; lia. }
  rewrite Hm. assert (0 < 2 ^ BitNumber d < 2 ^ 30) by (split; [apply Z.pow_pos_nonneg; lia | apply Z.pow_lt_mono_r; lia]).
  assert (Hn : 0 <= Z.lor v (2 ^ BitNumber d)) by (apply Z.lor_nonneg; lia). split; [done |].
  destruct (Z.eq_dec (Z.lor v (2 ^ BitNumber d)) 0) as [-> | Hne]; [lia |]. apply Z.log2_lt_pow2; [lia |].
  rewrite Z.log2_lor by lia. apply Z.max_lub_lt.
  - destruct (Z.eq_dec v 0) as [-> |]; [cbn; lia |]. apply Z.log2_lt_pow2; lia.
  - rewrite Z.log2_pow2 by lia. lia.
Qed.

(** * The claim *)

(** C28: the version of the next block and the warning about unknown rules.  With
    caches that are right for the deployments of a network and for the 29 bits,
    the version of the block after a node has the top bits of the proposal and
    exactly the bits of the deployments that have started or are locked in
    there; asking whether unknown rules have become active warns exactly when
    the votes for a bit that the version of their blocks should not have made
    it active, and never fails; and whatever was asked, all caches stay right.
    The deployments may end before they start, as one of the main network
    does. *)
Theorem unknown_rules_warned `{Crypto} (T : gmap bytes blockNode) (params : VoteParams) (n : blockNode) (s : Caches) :
  timed_tree T -> votes_ok params -> Forall (fun d => 0 <= BitNumber d < 29) (Deployments params) ->
  in_tree T n -> height n < 2 ^ 31 - 1 -> caches_ok params T s ->
  (exists v s', calcNextBlockVersion T params (Some n) s = (Ok v, s') /\ caches_ok params T s' /\
     unknownRulesWarned s' = unknownRulesWarned s /\ 0 <= v < 2 ^ 30 /\ Z.testbit v 29 = true /\
     forall k, 0 <= k < 29 ->
       Z.testbit v k = existsb (fun d => in_progress (state_for (tried_rules params d) (Some n)) && (BitNumber d =? k))
                         (Deployments params)) /\
  (exists s', warnUnknownRuleActivations T params n s = (Ok tt, s') /\ caches_ok params T s' /\
     unknownRulesWarned s' = unknownRulesWarned s || unknown_active params (parent n) (seq 0 vbNumBits)).
Proof.
  intros HT Hp Hbits Hn Hb Hs. assert (Hat : caches_at T params (unknownRulesWarned s) s) by now split. split.
  - destruct (calcNextBlockVersion_spec T HT params Hp _ (Some n) s (conj Hn Hb) Hat) as (s' & Hrun & Hs' & Hw).
    assert (Hr : 0 <= with_bits params (Deployments params) (Some n) vbTopBits < 2 ^ 30)
      by (apply with_bits_range; [done | split; [discriminate | reflexivity]]).
    unfold version_after in Hrun. rewrite int32_small in Hrun by lia.
    eexists _, s'. split; [exact Hrun |]. split_and!; try done; try lia.
    + rewrite with_bits_testbit by (done || lia). reflexivity.
    + intros k Hk. rewrite with_bits_testbit by (done || lia).
      replace (Z.testbit vbTopBits k) with false; [done |]. change vbTopBits with (2 ^ 29).
      now rewrite Z.pow2_bits_false by lia.
  - destruct (warn_bits_spec T HT params Hp n (seq 0 vbNumBits) (unknownRulesWarned s) s) as (s' & Hrun & Hs' & Hw).
    + destruct (parent n) as [p |] eqn:Hpar; [| done]. pose proof (timed_block_tree T HT) as HB.
      split; [now apply (in_tree_parent T HB n) |]. destruct (parent_ok n p (in_tree_ok T HB n Hn) Hpar). lia.
    + apply Forall_forall. intros bit Hin%elem_of_seq. lia.
    + exact Hat.
    + exists s'. done.
Qed.

(** New caches are right. *)
Lemma empty_caches_ok `{Crypto} T params :
  caches_ok params T (mkCaches (newThresholdCaches (length (Deployments params))) (newThresholdCaches vbNumBits) false).
Proof.
  assert (Hnone : forall k i h, (newThresholdCaches k !! i) ≫= (fun c : state_cache => c !! h) = None).
  { intros k i h. destruct (newThresholdCaches k !! i) as [c |] eqn:Hc; [| done].
    apply lookup_replicate in Hc as [-> _]. cbn. apply lookup_empty. }
  intros id r Hid. split.
  - destruct id as [i | i]; cbn [rules_of slot deploymentCaches warningCaches] in *; unfold newThresholdCaches; rewrite length_replicate.
    + destruct (Deployments params !! i) eqn:Hd; [| discriminate]. now apply lookup_lt_Some in Hd.
    + now destruct (decide (i < vbNumBits)%nat).
  - assert (Hempty : forall h, Lookup id h (mkCaches (newThresholdCaches (length (Deployments params))) (newThresholdCaches vbNumBits) false) = None)
      by (intros h; destruct id; apply Hnone).
    split; [intros m st _ Hl; now rewrite Hempty in Hl | intros h Hl; rewrite Hempty in Hl; now destruct Hl].
Qed.

(** Every block signals with the first bit, which no deployment uses. *)
Definition no_deployments : VoteParams := mkVoteParams 1 2 [mkDeployment 3 0 0 (Some 1600000001) (Some 1700000000)].

Lemma unknown_rules_warned_witness :
  let _ := toy_crypto in
  exists s', warnUnknownRuleActivations (sample_tree 7) no_deployments (sample_chain 7)
      (mkCaches (newThresholdCaches 1) (newThresholdCaches vbNumBits) false) = (Ok tt, s') /\
    unknownRulesWarned s' = true.
Proof.
  intros HC. destruct (unknown_rules_warned (sample_tree 7) no_deployments (sample_chain 7)
    (mkCaches (newThresholdCaches 1) (newThresholdCaches vbNumBits) false)) as (_ & s' & Hrun & _ & Hw).
  - now apply sample_timed.
  - split; [split; reflexivity | repeat constructor; discriminate].
  - repeat constructor; cbn; lia.
  - now apply sample_in.
  - reflexivity.
  - exact (empty_caches_ok (sample_tree 7) no_deployments).
  - exists s'. split; [exact Hrun |]. rewrite Hw. vm_compute. reflexivity.
Defined.
