(* ===== verification/ReorgView.v ===== *)
(** Views that are used for more than one block, as a reorganization does: what
    loading the inputs of a block, disconnecting it and connecting it do to a view
    that already has entries.

    Loading adds outputs of the block to the view, so that until the block is
    disconnected or connected the view is right only about other outpoints. *)

From stdpp Require Import gmap fin_maps.
From S2P Require Import Prelude Slices ScriptError Opcodes Tokenizer Vlq Compress WireCommon MsgTx MsgBlock Script Crypto SigHash SigCache EngineState SigCheck OpcodeExec Engine EngineInv BtcUtil Merkle WorkMath BlockIndex Difficulty TxRules Validate UtxoView Supply Bucket Chainio SizeHelper UtxoCache ChainView Threshold ScriptVal Connect ConnectSpec Votes.
#[local] Open Scope Z_scope.

(** * Sets that agree but for some outpoints *)

Definition agree_but (E : list OutPoint) (A B : coins) : Prop := forall op, op ∉ E -> A !! op = B !! op.

Lemma agree_nil A B : agree_but [] A B -> A = B.
Proof. intros Ha. apply map_eq. intros op. apply Ha. apply not_elem_of_nil. Qed.

Lemma agree_refl E A : agree_but E A A.
Proof. now intros op. Qed.

Lemma agree_sym E A B : agree_but E A B -> agree_but E B A.
Proof. intros Ha op Hop. symmetry. now apply Ha. Qed.

Lemma agree_trans E A B C : agree_but E A B -> agree_but E B C -> agree_but E A C.
Proof. intros Hab Hbc op Hop. now rewrite Hab, Hbc. Qed.

Lemma agree_del E ops A B : agree_but (E ++ ops) A B -> agree_but E (del_coins ops A) (del_coins ops B).
Proof.
  intros Ha op Hop. rewrite !lookup_del_coins. destruct (decide (op ∈ ops)) as [Hin | Hnin]; [done |].
  apply Ha. set_solver.
Qed.

Lemma agree_add E l : forall A B, agree_but (l.*1 ++ E) A B -> agree_but E (add_coins l A) (add_coins l B).
Proof.
  induction l as [| [o c] l IH]; intros A B Ha; [exact Ha |]. rewrite !add_coins_cons. apply IH.
  intros op Hop. cbn [fst snd]. destruct (decide (o = op)) as [-> | Hne].
  - now rewrite !lookup_insert_eq.
  - rewrite !lookup_insert_ne by done. apply Ha. rewrite fmap_cons. set_solver.
Qed.

Lemma agree_lookups E A B ops : agree_but E A B -> Forall (fun op => op ∉ E) ops -> lookups A ops = lookups B ops.
Proof.
  intros Ha Ho. unfold lookups. induction Ho as [| op ops Hop Ho IH]; [done |]. cbn. now rewrite (Ha op Hop), IH.
Qed.

Section Order.
Context `{Crypto}.

(** An input of the block that refers to a transaction of the block refers to one
    before its own. *)
Definition in_order (txs : list MsgTx) : Prop :=
  forall i tx op j tx', txs !! i = Some tx -> op ∈ spends tx -> txs !! j = Some tx' -> Hash op = TxHash tx' -> (j < i)%nat.

Lemma in_order_cons tx txs : in_order (tx :: txs) ->
  Forall (fun op => op ∉ (tx :: txs) ≫= outs) (spends tx) /\ in_order txs.
Proof.
  intros Ho. split.
  - apply Forall_forall. intros op Hop Hin. apply list_elem_of_bind in Hin as (tx' & Hout & Hin).
    apply list_elem_of_lookup in Hin as [j Hj]. pose proof (Ho 0%nat tx op j tx' eq_refl Hop Hj (outs_hash tx' op Hout)). lia.
  - intros i t op j t' Hi Hop Hj Hh. pose proof (Ho (S i) t op (S j) t' Hi Hop Hj Hh). lia.
Qed.

Lemma apply_tx_agree h tx E A B A' l :
  agree_but (outs tx ++ E) A B -> Forall (fun op => op ∉ outs tx ++ E) (spends tx) ->
  apply_tx h tx A = Some (A', l) -> exists B', apply_tx h tx B = Some (B', l) /\ agree_but E A' B'.
Proof.
  unfold apply_tx, spends. intros Ha Hs. rewrite <- (made_outs tx h) in *. destruct (IsCoinBaseTx tx).
  - intros [= <- <-]. eexists. split; [reflexivity |]. now apply agree_add.
  - destruct (decide (NoDup (inputs tx))); [| discriminate]. rewrite (agree_lookups _ A B _ Ha Hs).
    destruct (lookups B (inputs tx)); [| discriminate]. intros [= <- <-]. eexists. split; [reflexivity |].
    apply agree_add, agree_del. intros op Hop. apply Ha. set_solver.
Qed.

(** A block in order does not tell sets apart that differ in its own outputs. *)
Lemma apply_txs_agree h txs : forall A B A' l,
  agree_but (txs ≫= outs) A B -> in_order txs -> apply_txs h txs A = Some (A', l) -> apply_txs h txs B = Some (A', l).
Proof.
  induction txs as [| tx txs IH]; intros A B A' l Ha Ho; cbn [apply_txs].
  { now rewrite (agree_nil A B Ha). }
  destruct (in_order_cons tx txs Ho) as [Hs Hos]. rewrite bind_cons in Ha, Hs.
  destruct (apply_tx h tx A) as [[A1 l1] |] eqn:H1t; [| discriminate]. cbn [mbind option_bind].
  destruct (apply_tx_agree h tx _ A B A1 l1 Ha Hs H1t) as (B1 & -> & Ha1). cbn [mbind option_bind].
  destruct (apply_txs h txs A1) as [[A2 l2] |] eqn:H2t; [| discriminate]. now rewrite (IH A1 B1 A2 l2 Ha1 Hos H2t).
Qed.

(** What an applicable block spends was there or is made by the block. *)
Lemma apply_txs_sources h txs : forall A A' l op,
  apply_txs h txs A = Some (A', l) -> op ∈ txs ≫= spends -> is_Some (A !! op) \/ op ∈ txs ≫= outs.
Proof.
  induction txs as [| tx txs IH]; intros A A' l op Ha Hop; cbn [apply_txs] in Ha; [now apply elem_of_nil in Hop |].
  rewrite bind_cons in Hop |- *. destruct (apply_tx h tx A) as [[A1 l1] |] eqn:H1t; [| discriminate]. cbn in Ha.
  destruct (apply_txs h txs A1) as [[A2 l2] |] eqn:H2t; [| discriminate].
  unfold apply_tx, spends in H1t, Hop. apply elem_of_app in Hop as [Hop | Hop].
  - destruct (IsCoinBaseTx tx); [now apply elem_of_nil in Hop |]. left. destruct (decide _); [| discriminate].
    destruct (lookups A (inputs tx)) as [sp |] eqn:Hl; [| discriminate]. apply lookups_Some in Hl.
    apply list_elem_of_lookup in Hop as [i Hi]. destruct (Forall2_lookup_l _ _ _ _ _ Hl Hi) as (c & _ & Hc). eauto.
  - destruct (IH A1 A2 l2 op H2t Hop) as [Hs | Hs]; [| right; set_solver].
    destruct (decide (op ∈ outs tx)) as [Hin | Hnin]; [right; set_solver | left].
    rewrite <- (made_outs tx h) in Hnin. destruct (IsCoinBaseTx tx).
    + injection H1t as <- <-. now rewrite lookup_add_coins_notin in Hs.
    + destruct (decide _); [| discriminate]. destruct (lookups A (inputs tx)); [| discriminate]. injection H1t as <- <-.
      rewrite lookup_add_coins_notin, lookup_del_coins in Hs by done. destruct (decide _); [now destruct Hs | done].
Qed.
End Order.

Lemma apply_txs_spent_heights `{Crypto} h txs : forall S S' l,
  h <> 0 -> heights_ok S -> apply_txs h txs S = Some (S', l) -> Forall (fun c => st_Height c <> 0) l.
Proof.
  induction txs as [| tx txs IH]; intros S S' l Hh HS Ha; cbn [apply_txs] in Ha; [now injection Ha as <- <- |].
  destruct (apply_tx h tx S) as [[S1 l1] |] eqn:H1t; [| discriminate]. cbn in Ha.
  destruct (apply_txs h txs S1) as [[S2 l2] |] eqn:H2t; [| discriminate]. injection Ha as <- <-.
  apply Forall_app. split; [| eapply (IH S1); eauto using apply_tx_heights].
  unfold apply_tx in H1t. destruct (IsCoinBaseTx tx); [now injection H1t as <- <- |].
  destruct (decide _); [| discriminate]. destruct (lookups S (inputs tx)) eqn:Hl; [| discriminate].
  injection H1t as <- <-. eauto using lookups_heights.
Qed.

(** * Views over a set *)

(** A nil entry says that the set has no coin there, an entry that is not modified
    says what the set has, and the outpoints can be stored. *)
Record over (v : UtxoViewpoint) (B : coins) : Prop := {
  over_nil op : entries v !! op = Some None -> B !! op = None;
  over_unmodified : unmodified_ok v B;
  over_keys op : is_Some (entries v !! op) -> outpoint_ok op;
}.

Lemma over_hash h v B : over v B -> over (SetBestHash h v) B.
Proof. intros [Hn Hu Hk]. now constructor. Qed.

Lemma over_empty h B : over (SetBestHash h NewUtxoViewpoint) B.
Proof.
  constructor; cbn [SetBestHash NewUtxoViewpoint entries].
  - intros op Hop. rewrite lookup_empty in Hop. discriminate.
  - intros op e He. unfold LookupEntry in He. cbn in He. rewrite lookup_empty in He. discriminate.
  - intros op [e He]. rewrite lookup_empty in He. discriminate.
Qed.

Definition entry_over (e : option UtxoEntry) (c : option SpentTxOut) : Prop :=
  match e with None => c = None | Some e => isModified e = false -> c = entry_says (Some e) end.

Lemma over_bind v B op e : over v B -> outpoint_ok op -> entry_over e (B !! op) -> over (set_entry op e v) B.
Proof.
  intros [Hn Hu Hk] Hop He. constructor.
  - intros o. cbn [set_entry entries]. rewrite lookup_insert_Some. intros [[<- ->] | [_ Ho]]; [exact He | auto].
  - intros o x. unfold LookupEntry. cbn [set_entry entries]. destruct (decide (op = o)) as [<- | Hne].
    + rewrite lookup_insert_eq. cbn [mjoin option_join]. intros ->. exact He.
    + rewrite lookup_insert_ne by done. apply Hu.
  - intros o. cbn [set_entry entries]. rewrite lookup_insert_is_Some. intros [<- | [_ Ho]]; auto.
Qed.

Lemma over_entry v B op e : over v B -> entries v !! op = Some e -> entry_over e (B !! op).
Proof.
  intros Hv He. destruct e as [e |]; cbn [entry_over]; [| exact (over_nil v B Hv op He)]. intros Hm.
  apply (over_unmodified v B Hv op e); [unfold LookupEntry; now rewrite He | done].
Qed.

Lemma LookupEntry_entries v op e : LookupEntry v op = Some e <-> entries v !! op = Some (Some e).
Proof. unfold LookupEntry. destruct (entries v !! op) as [[x |] |]; cbn; split; congruence. Qed.

Lemma over_spend v B op e : over v B -> LookupEntry v op = Some e -> over (set_entry op (Some (Spend e)) v) B.
Proof.
  intros Hv He%LookupEntry_entries. apply over_bind; [done | exact (over_keys v B Hv op (ex_intro _ _ He)) |].
  destruct (IsSpent e) eqn:Hs.
  - unfold Spend. rewrite Hs. exact (over_entry v B op (Some e) Hv He).
  - cbn [entry_over]. rewrite isModified_Spend by done. discriminate.
Qed.

(** ** Coins of the view *)

(** An entry is there, or the set has nothing. *)
Definition ready (v : UtxoViewpoint) (B : coins) (op : OutPoint) : Prop := B !! op = None \/ is_Some (LookupEntry v op).

Lemma entry_ready v B op : over v B -> is_Some (entries v !! op) -> ready v B op.
Proof.
  intros Hv [[e |] He]; [right; exists e; now apply LookupEntry_entries | left; exact (over_nil v B Hv op He)].
Qed.

Section Outputs.
Context `{CryptoLaws}.

(** The outpoints of a transaction can be stored. *)
Lemma tx_outputs_ok tx op o : (op, o) ∈ tx_outputs tx -> outpoint_ok op.
Proof.
  unfold tx_outputs. assert (Hl : zlen (TxHash tx) = 32) by apply sha256_len. revert Hl.
  generalize (TxHash tx), 0. intros hash. induction (TxOuts tx) as [| x l IH]; intros i Hl Hin;
    cbn [outpoints_from] in Hin; [now apply elem_of_nil in Hin |].
  apply elem_of_cons in Hin as [[= -> ->] | Hin]; [| exact (IH (i + 1) Hl Hin)].
  split; cbn [Hash Index]; [done |]. apply wrapU_range. lia.
Qed.

Lemma outs_ok tx : Forall outpoint_ok (outs tx).
Proof.
  apply Forall_forall. intros op Hop. unfold outs, made in Hop. apply list_elem_of_fmap in Hop as (p & -> & Hp).
  apply list_elem_of_omap in Hp as ([op o] & Hin & Hc). unfold coin_of in Hc. destruct (unspendable _); [discriminate |].
  injection Hc as <-. exact (tx_outputs_ok tx op _ Hin).
Qed.

Lemma addTxOut_over op o cb h v B : over v B -> (unspendable (PkScript o) = false -> outpoint_ok op) -> over (addTxOut op o cb h v) B.
Proof.
  intros Hv Hop. unfold addTxOut. destruct (unspendable (PkScript o)); [done |]. apply over_bind; [done | now apply Hop |].
  destruct (new_entry_flags cb (Value o) (PkScript o) h) as (_ & Hm & _). cbn [entry_over]. rewrite Hm. discriminate.
Qed.

Lemma outs_spendable tx op o : (op, o) ∈ tx_outputs tx -> unspendable (PkScript o) = false -> op ∈ outs tx.
Proof.
  intros Hin Hu. unfold outs. apply list_elem_of_fmap. eexists (op, _). split; [reflexivity |]. unfold made.
  apply list_elem_of_omap. exists (op, o). split; [done |]. unfold coin_of. cbn [fst snd]. now rewrite Hu.
Qed.

Lemma AddTxOuts_over tx h v B : over v B -> Forall outpoint_ok (outs tx) -> over (AddTxOuts tx h v) B.
Proof.
  intros Hv Ho. unfold AddTxOuts. assert (Hl : forall op o, (op, o) ∈ tx_outputs tx -> unspendable (PkScript o) = false -> outpoint_ok op).
  { intros op o Hin Hu. rewrite Forall_forall in Ho. apply Ho. now apply (outs_spendable tx op o). }
  generalize dependent v. induction (tx_outputs tx) as [| [op o] l IH]; intros v Hv; [done |]. cbn [foldl]. apply IH.
  - intros op' o' Hin. apply Hl. now constructor.
  - apply addTxOut_over; [done |]. apply Hl. constructor.
Qed.

(** ** Disconnecting *)

Lemma unmake_over cb h v B op o : over v B -> (unspendable (PkScript o) = false -> outpoint_ok op) ->
  over (unmake_output cb h v (op, o)) B.
Proof.
  intros Hv Hop. unfold unmake_output. destruct (unspendable (PkScript o)); [done |].
  destruct (LookupEntry v op) as [e |] eqn:He; [now apply over_spend |].
  apply over_bind; [done | now apply Hop |]. cbn [entry_over]. rewrite isModified_Spend; [discriminate | now destruct cb].
Qed.

Lemma unmake_outputs_over cb h tx v B : over v B -> Forall outpoint_ok (outs tx) ->
  over (foldl (unmake_output cb h) v (tx_outputs tx)) B.
Proof.
  intros Hv Ho. assert (Hl : forall op o, (op, o) ∈ tx_outputs tx -> unspendable (PkScript o) = false -> outpoint_ok op).
  { intros op o Hin Hu. rewrite Forall_forall in Ho. apply Ho. now apply (outs_spendable tx op o). }
  generalize dependent v. induction (tx_outputs tx) as [| [op o] l IH]; intros v Hv; [done |]. cbn [foldl]. apply IH.
  - intros op' o' Hin. apply Hl. now constructor.
  - apply unmake_over; [done |]. apply Hl. constructor.
Qed.

Section Fetch.
Context (dbFetch : bytes -> checked (option UtxoEntry)).

Lemma restore_input_eq txHash ti c v : st_Height c <> 0 -> exists e,
  restore_input dbFetch txHash ti c v = Ok (set_entry (PreviousOutPoint ti) (Some e) v) /\ isModified e = true.
Proof.
  intros Hc. unfold restore_input. replace (st_Height c =? 0) with false by lia. cbn [obind].
  eexists. split.
  - f_equal. destruct (LookupEntry v (PreviousOutPoint ti)); [reflexivity |]. unfold set_entry. cbn [entries bestHash].
    now rewrite insert_insert_eq.
  - now destruct (st_IsCoinBase c).
Qed.

Lemma restore_inputs_over txHash ins B : forall stxos v v' rest,
  over v B -> Forall outpoint_ok (PreviousOutPoint <$> ins) -> Forall (fun c => st_Height c <> 0) stxos ->
  restore_inputs dbFetch txHash ins stxos v = Ok (v', rest) -> over v' B.
Proof.
  induction ins as [| ti ins IH]; intros stxos v v' rest Hv Ho Hh; cbn [restore_inputs]; [now intros [= <- <-] |].
  destruct stxos as [| c stxos]; [discriminate |]. apply Forall_cons in Hh as [Hc Hh]. rewrite fmap_cons in Ho.
  apply Forall_cons in Ho as [Hop Ho]. destruct (restore_input_eq txHash ti c v Hc) as (e & -> & He). cbn [obind].
  apply IH; [| done | done]. apply over_bind; [done | done |]. cbn [entry_over]. rewrite He. discriminate.
Qed.

(** What is taken from the journal does not depend on the view. *)
Lemma restore_inputs_split txHash ins : forall stxos v v' rest,
  restore_inputs dbFetch txHash ins stxos v = Ok (v', rest) -> exists l, stxos = l ++ rest /\ length l = length ins.
Proof.
  induction ins as [| ti ins IH]; intros stxos v v' rest; cbn [restore_inputs].
  { intros [= <- <-]. now exists []. }
  destruct stxos as [| c stxos]; [discriminate |]. destruct (restore_input _ _ _ _ _); try discriminate. cbn [obind].
  intros Hr. destruct (IH _ _ _ _ Hr) as (l & -> & Hl). exists (c :: l). cbn. split; [done | now f_equal].
Qed.
End Fetch.

Section Disconnect.
Context (dbFetch dbFetch' : bytes -> checked (option UtxoEntry)) (h : Z) (B C : coins).

Definition tx_storable (tx : MsgTx) : Prop := Forall outpoint_ok (outs tx) /\ Forall outpoint_ok (inputs tx).

(** Disconnecting a transaction from a view that is right but for its outputs. *)
Lemma disconnect_tx_agree cb tx stxos v v' rest w E :
  disconnect_tx dbFetch h cb tx stxos v = Ok (v', rest) -> Forall (fun c => st_Height c <> 0) stxos ->
  (cb = false -> Forall outpoint_ok (inputs tx)) -> Forall outpoint_ok (outs tx) -> over w C ->
  agree_but (E ++ outs tx) (effective w C) (effective v B) ->
  exists w', disconnect_tx dbFetch' h cb tx stxos w = Ok (w', rest) /\ agree_but E (effective w' C) (effective v' B) /\
    over w' C /\ Forall (fun c => st_Height c <> 0) rest.
Proof.
  unfold disconnect_tx. intros Hr Hh Hin Hout Hw Ha. apply agree_del in Ha.
  pose proof (unmake_outputs_over cb h tx w C Hw Hout) as Hw1.
  set (v1 := foldl (unmake_output cb h) v (tx_outputs tx)) in *. set (w1 := foldl (unmake_output cb h) w (tx_outputs tx)) in *.
  assert (H1' : agree_but E (effective w1 C) (effective v1 B)).
  { unfold w1, v1. rewrite !(unmake_outputs_effective _ (IsCoinBaseTx tx)). unfold outs in Ha.
    change (omap (coin_of (IsCoinBaseTx tx) h) (tx_outputs tx)) with (made tx h). now rewrite (made_outs tx h). }
  destruct cb; [injection Hr as <- <-; now exists w1 |].
  destruct (restore_inputs_split _ _ _ _ _ _ _ Hr) as (l & -> & Hlen). apply Forall_app in Hh as [Hh Hrest].
  destruct (restore_inputs_effective dbFetch (TxHash tx) B (reverse (TxIns tx)) l rest v1 Hlen Hh) as (v2 & Hv2 & He2).
  rewrite Hv2 in Hr. injection Hr as <-.
  destruct (restore_inputs_effective dbFetch' (TxHash tx) C (reverse (TxIns tx)) l rest w1 Hlen Hh) as (w2 & Hw2 & Hf2).
  exists w2. split_and!; [exact Hw2 | | | done].
  - rewrite He2, Hf2. apply agree_add. intros op Hop. apply H1'. set_solver.
  - eapply (restore_inputs_over dbFetch'); [exact Hw1 | | | exact Hw2].
    + rewrite fmap_reverse. now apply Forall_reverse, Hin.
    + now apply Forall_app.
Qed.

Lemma disconnect_rest_agree txs : forall stxos v v' rest w E,
  disconnect_rest dbFetch h txs stxos v = Ok (v', rest) -> Forall (fun c => st_Height c <> 0) stxos ->
  Forall tx_storable txs -> over w C -> agree_but (E ++ (txs ≫= outs)) (effective w C) (effective v B) ->
  exists w', disconnect_rest dbFetch' h txs stxos w = Ok (w', rest) /\ agree_but E (effective w' C) (effective v' B) /\
    over w' C /\ Forall (fun c => st_Height c <> 0) rest.
Proof.
  induction txs as [| tx txs IH]; intros stxos v v' rest w E; cbn [disconnect_rest].
  { intros [= <- <-] Hh _ Hw Ha. cbn in Ha. rewrite app_nil_r in Ha. now exists w. }
  intros Hr Hh Ht Hw Ha. apply Forall_cons in Ht as [[Hout Hin] Ht]. rewrite bind_cons in Ha.
  destruct (disconnect_tx dbFetch h false tx stxos v) as [[v1 s1] | |] eqn:Hd; try discriminate. cbn [obind fst snd] in Hr.
  destruct (disconnect_tx_agree false tx stxos v v1 s1 w (E ++ (txs ≫= outs)) Hd Hh (fun _ => Hin) Hout Hw)
    as (w1 & Hw1 & Ha1 & Ho1 & Hs1).
  { intros op Hop. apply Ha. set_solver. }
  rewrite Hw1. cbn [obind fst snd]. exact (IH s1 v1 v' rest w1 E Hr Hs1 Ht Ho1 Ha1).
Qed.
End Disconnect.

(** A block of a coinbase and other transactions whose outpoints can be stored, with
    distinct ids.  [wf_order] is a rule that [checkConnectBlock] does not enforce
    when the view has entries for the outputs of the block beforehand
    ([ConnectSpec.early_spend], [ConnectSpec.early_spend_again]), so that it is an
    assumption on the blocks; the rest is what the decoder and [checkBlockSanity]
    establish. *)
Record well_formed (block : MsgBlock) (tx0 : MsgTx) (rest : list MsgTx) : Prop := {
  wf_txs : Transactions block = tx0 :: rest;
  wf_coinbase : IsCoinBaseTx tx0 = true;
  wf_rest : Forall (fun tx => IsCoinBaseTx tx = false) rest;
  wf_ids : NoDup (TxHash <$> tx0 :: rest);
  wf_order : in_order (tx0 :: rest);
  wf_ins : Forall outpoint_ok (rest ≫= inputs);
}.

Lemma wf_storable block tx0 rest : well_formed block tx0 rest -> Forall tx_storable rest /\ Forall outpoint_ok (outs tx0).
Proof.
  intros Hw. pose proof (wf_ins _ _ _ Hw) as Hi. split; [| apply outs_ok]. clear Hw.
  induction rest as [| tx rest IH]; [constructor |]. rewrite bind_cons in Hi. apply Forall_app in Hi as [Hi1 Hi2].
  constructor; [split; [apply outs_ok | done] | auto].
Qed.

(** Disconnecting a block from a view that is right but for outputs of the block
    gives a view that is right. *)
Lemma disconnect_block dbFetch block h tx0 rest S S' l w C :
  well_formed block tx0 rest -> h <> 0 -> heights_ok S -> (forall op, is_Some (S !! op) -> Hash op ∉ TxHash <$> tx0 :: rest) ->
  apply_txs h (tx0 :: rest) S = Some (S', l) -> over w C -> agree_but ((tx0 :: rest) ≫= outs) (effective w C) S' ->
  exists w', disconnectTransactions dbFetch block h l w = Ok w' /\ effective w' C = S /\ over w' C.
Proof.
  intros Hwf Hh HS Hfresh Ha Hw Hag. pose proof (wf_txs _ _ _ Hwf) as Htx. destruct (wf_storable _ _ _ Hwf) as [Hst Hout0].
  set (v := NewUtxoViewpoint). assert (Hv : effective v S' = S').
  { apply map_eq. intros op. rewrite lookup_effective. unfold LookupEntry, v. cbn. now rewrite lookup_empty. }
  destruct (disconnect_spec dbFetch block h tx0 rest S S' l v S' Htx (wf_coinbase _ _ _ Hwf) (wf_rest _ _ _ Hwf) Hh HS)
    as (v' & Hd & He & _); [rewrite Htx; apply all_fresh_new; [apply Hwf | done] | now rewrite Htx | done |].
  unfold disconnectTransactions in *. rewrite Htx in *. destruct (negb _); [discriminate |]. cbn [obind] in *.
  destruct (disconnect_rest dbFetch h (reverse rest) (reverse l) v) as [[v1 s1] | |] eqn:H1'; try discriminate.
  cbn [obind fst snd] in Hd. destruct (disconnect_tx dbFetch h true tx0 s1 v1) as [[v2 s2] | |] eqn:H2'; try discriminate.
  cbn [obind fst] in Hd. injection Hd as <-. rewrite effective_hash in He.
  destruct (disconnect_rest_agree dbFetch dbFetch h S' C (reverse rest) (reverse l) v v1 s1 w (outs tx0) H1')
    as (w1 & Hw1 & Ha1 & Ho1 & Hs1).
  - apply Forall_reverse. apply (apply_txs_spent_heights h (tx0 :: rest) S S' l); try done.
  - now apply Forall_reverse.
  - done.
  - rewrite Hv. intros op Hop. apply Hag. intros Hin. apply Hop. rewrite bind_cons in Hin. rewrite elem_of_app in *.
    destruct Hin as [Hin | Hin]; [now left | right]. apply list_elem_of_bind in Hin as (tx & Hx & Hin).
    apply list_elem_of_bind. exists tx. split; [done | now apply elem_of_reverse].
  - destruct (disconnect_tx_agree dbFetch dbFetch h S' C true tx0 s1 v1 v2 s2 w1 [] H2' Hs1 ltac:(done) Hout0 Ho1 Ha1)
      as (w2 & Hw2 & Ha2 & Ho2 & _).
    exists (SetBestHash (PrevBlock (Header block)) w2). rewrite Hw1. cbn [obind fst snd]. rewrite Hw2. cbn [obind fst].
    split_and!; [done | | now apply over_hash]. rewrite effective_hash. rewrite <- He. now apply agree_nil.
Qed.
End Outputs.

(** * Loading *)

Section Loading.
Context `{PubKeysLaws} `{CryptoLaws} {B : Type} `{BucketLaws B}.

(** What the outputs of a block that are added do to a view. *)
Lemma AddTxOuts_agree tx h v C E : outs tx ⊆ E -> agree_but E (effective (AddTxOuts tx h v) C) (effective v C).
Proof.
  intros Hs op Hop. rewrite (proj1 (AddTxOuts_spec tx h v C)). apply lookup_add_coins_notin.
  rewrite made_outs. set_solver.
Qed.

Lemma AddTxOuts_grow tx h v op : is_Some (entries v !! op) -> is_Some (entries (AddTxOuts tx h v) !! op).
Proof.
  unfold AddTxOuts. generalize (IsCoinBaseTx tx) as cb. intros cb. revert v.
  induction (tx_outputs tx) as [| [o x] l IH]; intros v Hs; cbn [foldl]; [done |]. apply IH.
  unfold addTxOut. destruct (unspendable _); [done |]. cbn [set_entry entries]. apply lookup_insert_is_Some'. now right.
Qed.

Lemma AddTxOuts_there tx h op : forall v, op ∈ outs tx -> is_Some (entries (AddTxOuts tx h v) !! op).
Proof.
  unfold AddTxOuts, outs, made. generalize (IsCoinBaseTx tx) as cb. intros cb.
  induction (tx_outputs tx) as [| [o x] l IH]; intros v; cbn [foldl omap list_omap]; [intros Hin; now apply elem_of_nil in Hin |].
  unfold addTxOut at 2, coin_of at 1. cbn [fst snd]. destruct (unspendable (PkScript x)); [apply IH |].
  rewrite fmap_cons, elem_of_cons. cbn [fst]. intros [-> | Hin]; [| now apply IH].
  assert (Hgen : forall v, is_Some (entries v !! o) ->
    is_Some (entries (foldl (fun v '(op, o) => addTxOut op o cb h v) v l) !! o)).
  { clear. induction l as [| [o' y] l IH]; intros v Hs; cbn [foldl]; [done |]. apply IH. unfold addTxOut.
    destruct (unspendable _); [done |]. cbn [set_entry entries]. apply lookup_insert_is_Some'. now right. }
  apply Hgen. cbn [set_entry entries]. rewrite lookup_insert_eq. eauto.
Qed.

Section Find.
Context (block : MsgBlock) (tx0 : MsgTx) (rest : list MsgTx) (h : Z) (v : UtxoViewpoint) (C : coins).
Context (Hwf : well_formed block tx0 rest).

#[local] Abbreviation txs := (tx0 :: rest).

(** An input is asked for, in the view, or made by the first [k] transactions. *)
Definition covered (k : nat) (acc : UtxoViewpoint * list OutPoint) (op : OutPoint) : Prop :=
  op ∈ snd acc \/ is_Some (entries (fst acc) !! op) \/
  exists j tx, (j <= k)%nat /\ txs !! j = Some tx /\ Hash op = TxHash tx /\ op ∉ outs tx.

(** The view and the outpoints that are asked for while the inputs are searched. *)
Record searched (seen : list (nat * OutPoint)) (acc : UtxoViewpoint * list OutPoint) : Prop := {
  sr_over : over (fst acc) C;
  sr_agree : agree_but (txs ≫= outs) (effective (fst acc) C) (effective v C);
  sr_grow op : is_Some (entries v !! op) -> is_Some (entries (fst acc) !! op);
  sr_needed op : op ∈ snd acc -> op ∈ rest ≫= inputs /\ entries v !! op = None;
  sr_done k op : (k, op) ∈ seen -> covered k acc op;
}.

Lemma covered_grow k acc acc' op :
  covered k acc op -> (op ∈ snd acc -> op ∈ snd acc') ->
  (is_Some (entries (fst acc) !! op) -> is_Some (entries (fst acc') !! op)) -> covered k acc' op.
Proof. intros [Hc | [Hc | Hc]] Hn Hg; [left | right; left | right; right]; auto. Qed.

Lemma outs_of_block j tx : txs !! j = Some tx -> outs tx ⊆ txs ≫= outs.
Proof.
  intros Hj op Hop. apply list_elem_of_bind. exists tx. split; [done | eapply list_elem_of_lookup_2; eauto].
Qed.

Lemma find_input_searched k ti seen acc :
  PreviousOutPoint ti ∈ rest ≫= inputs -> searched seen acc ->
  searched ((k, PreviousOutPoint ti) :: seen) (find_input txs h k acc ti).
Proof.
  intros Hin [Ho Ha Hg Hn Hd]. set (op := PreviousOutPoint ti). destruct acc as [v1 n1]. cbn [fst snd] in *.
  assert (Hfetch : searched ((k, op) :: seen)
    (match entries v1 !! op with Some _ => (v1, n1) | None => (v1, n1 ++ [op]) end)).
  { destruct (entries v1 !! op) as [e |] eqn:He.
    - constructor; try done. intros i o [[= -> ->] | Hi]%elem_of_cons; [right; left; cbn; eauto | auto].
    - constructor; cbn [fst snd]; try done.
      + intros o [Hi | ->%list_elem_of_singleton]%elem_of_app; [auto |]. split; [done |].
        destruct (entries v !! op) eqn:Hv; [| done]. destruct (Hg op) as [? Hs]; [eauto | congruence].
      + intros i o [[= -> ->] | Hi]%elem_of_cons; [left; cbn; set_solver |].
        apply (covered_grow i (v1, n1)); [auto | cbn; set_solver | done]. }
  unfold find_input. fold op. destruct (in_flight txs !! Hash op) as [j |] eqn:Hj; [| exact Hfetch].
  destruct (in_flight_Some _ _ _ Hj) as (tx & Htx & Hh). destruct (Nat.leb_spec j k) as [Hle | Hgt]; [| exact Hfetch].
  rewrite Htx. pose proof (outs_of_block j tx Htx) as Hsub. constructor; cbn [fst snd]; try done.
  - apply AddTxOuts_over; [done | apply outs_ok].
  - eapply agree_trans; [| exact Ha]. now apply AddTxOuts_agree.
  - intros o Hs. now apply AddTxOuts_grow, Hg.
  - intros i o [[= -> ->] | Hi]%elem_of_cons.
    + right. cbn [fst]. destruct (decide (op ∈ outs tx)) as [Hin' | Hnin]; [left; now apply AddTxOuts_there | right].
      exists j, tx. split_and!; [done | done | done | done].
    + apply (covered_grow i (v1, n1)); [auto | done | apply AddTxOuts_grow].
Qed.

Lemma find_inputs_searched k ins : forall seen acc,
  (forall op, op ∈ PreviousOutPoint <$> ins -> op ∈ rest ≫= inputs) -> searched seen acc ->
  exists seen', searched seen' (foldl (find_input txs h k) acc ins) /\
    (forall p, p ∈ seen -> p ∈ seen') /\ (forall op, op ∈ PreviousOutPoint <$> ins -> (k, op) ∈ seen').
Proof.
  induction ins as [| ti ins IH]; intros seen acc Hi Hs; cbn [foldl].
  { exists seen. split_and!; [done | done |]. intros op Hop. now apply elem_of_nil in Hop. }
  rewrite fmap_cons in *. destruct (IH _ _ (fun op Hop => Hi op (list_elem_of_further _ _ _ Hop))
    (find_input_searched k ti seen acc (Hi _ (list_elem_of_here _ _)) Hs)) as (seen' & Hs' & Hm & Hn).
  exists seen'. split_and!; [done | |].
  - intros p Hp. apply Hm. now constructor.
  - intros op [-> | Hop]%elem_of_cons; [apply Hm; constructor | auto].
Qed.

Lemma find_rest_searched l : forall k seen acc,
  (forall i tx, l !! i = Some tx -> tx ∈ rest) -> searched seen acc ->
  exists seen',
    searched seen' (foldl (fun acc '(i, tx) => foldl (find_input txs h i) acc (TxIns tx)) acc (imap (fun i tx => ((k + i)%nat, tx)) l)) /\
    (forall p, p ∈ seen -> p ∈ seen') /\ (forall i tx op, l !! i = Some tx -> op ∈ inputs tx -> ((k + i)%nat, op) ∈ seen').
Proof.
  induction l as [| tx l IH]; intros k seen acc Hl Hs; [exists seen; split_and!; done |].
  rewrite imap_cons. cbn [foldl]. rewrite Nat.add_0_r.
  destruct (find_inputs_searched k (TxIns tx) seen acc) as (d1 & Hs1 & Hm1 & Hn1); [| done |].
  { intros op Hop. apply list_elem_of_bind. exists tx. split; [exact Hop | exact (Hl 0%nat tx eq_refl)]. }
  destruct (IH (S k) d1 _ (fun i t Hi => Hl (S i) t Hi) Hs1) as (d2 & Hs2 & Hm2 & Hn2).
  exists d2. split_and!.
  - refine (eq_ind _ (fun z => searched d2 (foldl _ _ z)) Hs2 _ _). apply imap_ext. intros i t _. cbn. f_equal. lia.
  - auto.
  - intros [| i] t op Hi Hop; cbn [lookup list_lookup] in Hi.
    + injection Hi as <-. rewrite Nat.add_0_r. apply Hm2, Hn1, Hop.
    + rewrite <- plus_n_Sm. exact (Hn2 i t op Hi Hop).
Qed.

Lemma findInputs_searched : over v C -> exists v1 n1,
  findInputsToFetch block h v = Ok (v1, n1) /\ over v1 C /\ agree_but (txs ≫= outs) (effective v1 C) (effective v C) /\
  (forall op, op ∈ n1 -> op ∈ rest ≫= inputs /\ entries v !! op = None) /\
  (forall i tx op, rest !! i = Some tx -> op ∈ inputs tx -> covered i (v1, n1) op).
Proof.
  intros Hv. unfold findInputsToFetch. rewrite (wf_txs _ _ _ Hwf).
  destruct (find_rest_searched rest 0 [] (v, [])) as (d & [Ho Ha Hg Hn Hd] & _ & Hin).
  - intros i tx Hi. eapply list_elem_of_lookup_2; eauto.
  - constructor; cbn [fst snd]; try done; [intros op Hop; now apply elem_of_nil in Hop | intros k op Hop; now apply elem_of_nil in Hop].
  - eexists _, _. split; [f_equal; apply surjective_pairing |]. split_and!; [done | done | done |].
    intros i tx op Hi Hop. exact (Hd _ _ (Hin i tx op Hi Hop)).
Qed.
End Find.

(** Loading what is asked for from the cache. *)
Lemma load_total c S0 ops v : cache_ok c S0 -> Forall outpoint_ok ops ->
  exists v' c', fetchUtxosFromCache ops v c = (Ok v', c') /\ same_db c c' /\ cache_ok c' S0 /\ ledger c' S0 = ledger c S0 /\
    forall op, if decide (op ∈ ops) then exists e, entries v' !! op = Some e /\ entry_says e = ledger c S0 !! op
               else entries v' !! op = entries v !! op.
Proof.
  intros Hc Hops. assert (Hrun : exists v' c', fetchUtxosFromCache ops v c = (Ok v', c')).
  { unfold fetchUtxosFromCache. destruct (zlen ops =? 0); [unfold ret; eauto |].
    destruct (fetchEntries_spec c S0 ops Hc Hops) as (c1 & es & Hf & _). rewrite bind_eq, Hf. unfold ret. eauto. }
  destruct Hrun as (v' & c' & Hrun). exists v', c'. split; [done |]. exact (load_needed c S0 ops v v' c' Hc Hops Hrun).
Qed.

(** A view with more entries, which say what the set has. *)
Lemma loaded_over ops v v' L :
  (forall op, if decide (op ∈ ops) then exists e, entries v' !! op = Some e /\ entry_says e = L !! op
              else entries v' !! op = entries v !! op) ->
  Forall outpoint_ok ops -> over v L -> over v' L.
Proof.
  intros Hl Ho Hv. rewrite Forall_forall in Ho.
  assert (He : forall op e, entries v' !! op = Some e -> entry_over e (L !! op) /\ outpoint_ok op).
  { intros op e Hop. specialize (Hl op). destruct (decide (op ∈ ops)) as [Hin | Hnin].
    - destruct Hl as (e' & He' & Hs). assert (e' = e) as -> by congruence. split; [| auto].
      destruct e as [e |]; cbn [entry_over]; [intros _ |]; now rewrite <- Hs.
    - rewrite Hl in Hop. split; [exact (over_entry v L op e Hv Hop) | exact (over_keys v L Hv op (ex_intro _ _ Hop))]. }
  constructor.
  - intros op Hop. apply (He op None Hop).
  - intros op e Hop%LookupEntry_entries Hm. exact (proj1 (He op (Some e) Hop) Hm).
  - intros op [e Hop]. apply (He op e Hop).
Qed.

Lemma loaded_effective ops v v' L :
  (forall op, if decide (op ∈ ops) then exists e, entries v' !! op = Some e /\ entry_says e = L !! op
              else entries v' !! op = entries v !! op) ->
  Forall (fun op => effective v L !! op = L !! op) ops -> effective v' L = effective v L.
Proof.
  intros Hl Hn. rewrite Forall_forall in Hn. apply map_eq. intros op. specialize (Hl op).
  destruct (decide (op ∈ ops)) as [Hin | Hnin].
  - destruct Hl as (e & He & Hs). rewrite (Hn op Hin), lookup_effective. unfold LookupEntry. rewrite He.
    destruct e as [e |]; [exact Hs | done].
  - rewrite !lookup_effective. unfold LookupEntry. now rewrite Hl.
Qed.

(** ** The inputs of a block *)

Lemma load_block c S0 block tx0 rest h v :
  well_formed block tx0 rest -> cache_ok c S0 -> over v (ledger c S0) ->
  exists v' c', fetchInputUtxos block h v c = (Ok v', c') /\ same_db c c' /\ cache_ok c' S0 /\ ledger c' S0 = ledger c S0 /\
    over v' (ledger c S0) /\ agree_but ((tx0 :: rest) ≫= outs) (effective v' (ledger c S0)) (effective v (ledger c S0)) /\
    (forall i tx op, rest !! i = Some tx -> op ∈ inputs tx -> ready v' (ledger c S0) op \/
       exists j tx', (tx0 :: rest) !! j = Some tx' /\ Hash op = TxHash tx' /\ op ∉ outs tx').
Proof.
  intros Hwf Hc Hv. set (L := ledger c S0) in *.
  destruct (findInputs_searched block tx0 rest h v L Hwf Hv) as (v1 & n1 & Hf & Ho1 & Ha1 & Hn1 & Hcov).
  assert (Hops : Forall outpoint_ok n1).
  { apply Forall_forall. intros op Hop. pose proof (wf_ins _ _ _ Hwf) as Hi. rewrite Forall_forall in Hi.
    apply Hi. now apply Hn1. }
  destruct (load_total c S0 n1 v1 Hc Hops) as (v' & c' & Hrun & Hs & Hc' & Hl & Hload). fold L in Hload.
  pose proof (loaded_over n1 v1 v' L Hload Hops Ho1) as Ho'.
  exists v', c'. unfold fetchInputUtxos. rewrite Hf. split_and!; try done.
  - intros op Hop. specialize (Hload op). destruct (decide (op ∈ n1)) as [Hin | Hnin].
    + destruct Hload as (e & He & Hsay). destruct (Hn1 op Hin) as [_ Hnone]. rewrite !lookup_effective. unfold LookupEntry.
      rewrite He, Hnone. destruct e as [e |]; [exact Hsay | done].
    + rewrite <- (Ha1 op Hop), !lookup_effective. unfold LookupEntry. now rewrite Hload.
  - intros i tx op Hi Hop. specialize (Hload op). destruct (Hcov i tx op Hi Hop) as [Hin | [Hin | Hout]].
    + cbn [snd] in Hin. rewrite decide_True in Hload by done. left. destruct Hload as (e & He & _). apply entry_ready; eauto.
    + left. apply entry_ready; [done |]. cbn [fst] in Hin. destruct (decide (op ∈ n1)) as [Hin' | Hnin].
      * destruct Hload as (e & He & _). eauto.
      * now rewrite Hload.
    + right. destruct Hout as (j & tx' & _ & Hj & Hh & Hno). eauto.
Qed.

(** For an applicable block everything that it spends is then in the view. *)
Lemma load_applicable block tx0 rest h S S' l v' (L : coins) :
  well_formed block tx0 rest -> (forall op, is_Some (S !! op) -> Hash op ∉ TxHash <$> tx0 :: rest) ->
  apply_txs h (tx0 :: rest) S = Some (S', l) ->
  (forall i tx op, rest !! i = Some tx -> op ∈ inputs tx -> ready v' L op \/
     exists j tx', (tx0 :: rest) !! j = Some tx' /\ Hash op = TxHash tx' /\ op ∉ outs tx') ->
  loaded ((tx0 :: rest) ≫= spends) v' L.
Proof.
  intros Hwf Hfresh Ha Hr op Hop. pose proof Hop as Hop'. rewrite bind_cons in Hop. unfold spends at 1 in Hop.
  rewrite (wf_coinbase _ _ _ Hwf) in Hop. cbn [app] in Hop. apply list_elem_of_bind in Hop as (tx & Hsp & Hin).
  apply list_elem_of_lookup in Hin as [i Hi]. unfold spends in Hsp.
  rewrite (Forall_lookup_1 _ _ _ _ (wf_rest _ _ _ Hwf) Hi) in Hsp.
  destruct (Hr i tx op Hi Hsp) as [Hok | (j & tx' & Hj & Hh & Hno)]; [exact Hok |]. exfalso.
  destruct (apply_txs_sources h _ S S' l op Ha Hop') as [Hs | Hs].
  - apply (Hfresh op Hs). rewrite Hh. apply list_elem_of_fmap. exists tx'. split; [done |]. eapply list_elem_of_lookup_2; eauto.
  - apply list_elem_of_bind in Hs as (tx2 & Hout & Hin). apply list_elem_of_lookup in Hin as [k Hk].
    assert (j = k) as ->. { eapply (same_index (tx0 :: rest)); eauto using wf_ids. rewrite <- Hh. now apply outs_hash. }
    congruence.
Qed.
End Loading.

(** * Connecting *)

Section Connecting.
Context `{CryptoLaws}.

Lemma spend_inputs_over ins B : forall v sx v' sx',
  over v B -> spend_inputs ins (v, sx) = (Ok tt, (v', sx')) -> over v' B.
Proof.
  induction ins as [| ti ins IH]; intros v sx v' sx' Hv; cbn [spend_inputs]; [now intros [= <- <-] |].
  rewrite bind_eq. cbn [get fst snd]. destruct (LookupEntry v (PreviousOutPoint ti)) as [e |] eqn:He; [| discriminate].
  rewrite bind_eq. cbn [put]. apply IH. now apply over_spend.
Qed.

Lemma connectTransaction_over tx h v sx v' sx' B :
  over v B -> connectTransaction tx h (v, sx) = (Ok tt, (v', sx')) -> over v' B.
Proof.
  intros Hv. unfold connectTransaction. destruct (IsCoinBaseTx tx).
  - intros [= <- <-]. apply AddTxOuts_over; [done | apply outs_ok].
  - intros ([] & [v1 s1] & Hr & Hc)%bind_inv_Ok. injection Hc as <- <-. apply AddTxOuts_over; [| apply outs_ok].
    eapply spend_inputs_over; eauto.
Qed.

Lemma connect_all_over txs h B : forall v sx v' sx',
  over v B -> connect_all txs h (v, sx) = (Ok tt, (v', sx')) -> over v' B.
Proof.
  induction txs as [| tx txs IH]; intros v sx v' sx' Hv; cbn [connect_all]; [now intros [= <- <-] |].
  intros ([] & [v1 s1] & Hr & Hc)%bind_inv_Ok. eapply IH; [| exact Hc]. eapply connectTransaction_over; eauto.
Qed.

(** A block that is known to be applicable. *)
Lemma connect_known block tx0 rest h S S' l v sx (L : coins) :
  well_formed block tx0 rest -> apply_txs h (tx0 :: rest) S = Some (S', l) -> over v L ->
  agree_but ((tx0 :: rest) ≫= outs) (effective v L) S -> loaded ((tx0 :: rest) ≫= spends) v L ->
  exists v', connectTransactions block h (v, sx) = (Ok tt, (v', option_map (fun k => k ++ l) sx)) /\
    effective v' L = S' /\ over v' L.
Proof.
  intros Hwf Ha Hv Hag Hld.
  pose proof (apply_txs_agree h _ S (effective v L) S' l (agree_sym _ _ _ Hag) (wf_order _ _ _ Hwf) Ha) as Ha'.
  destruct (connect_all_spec h L (tx0 :: rest) v sx S' l Ha' Hld) as (v' & Hrun & He & _).
  exists (SetBestHash (BlockHash (Header block)) v'). unfold connectTransactions. rewrite (wf_txs _ _ _ Hwf), bind_eq, Hrun.
  split_and!; [reflexivity | exact He |]. apply over_hash. eapply connect_all_over; [exact Hv | exact Hrun].
Qed.
End Connecting.

(** * Checking *)

Section Checking.
Context `{PubKeysLaws} `{CryptoLaws} `{MapOrder} {B : Type} `{BucketLaws B} (cs : ChainConsts).
Context (HT : timed_tree (index_ cs)) (Hvotes : votes_ok (voteParams cs)).

#[local] Abbreviation ST := (@ConnState B).
#[local] Abbreviation right_caches := (caches_ok (voteParams cs) (index_ cs)).

(** Steps that leave the cache of unspent outputs as it is and the caches of
    deployments right. *)
Definition tame {A} (m : M ST ConnectError A) : Prop :=
  forall s, cn_cache (snd (m s)) = cn_cache s /\ (right_caches (cn_thresholds s) -> right_caches (cn_thresholds (snd (m s)))).

Lemma tame_bind {A C} (m : M ST ConnectError A) (k : A -> M ST ConnectError C) :
  tame m -> (forall a, tame (k a)) -> tame (bind m k).
Proof.
  intros Hm Hk s. rewrite bind_eq. specialize (Hm s). destruct (m s) as [[a | e |] s1]; cbn [snd] in *; try done.
  destruct Hm as [Hc Ht], (Hk a s1) as [Hc' Ht']. split; [congruence | auto].
Qed.

Lemma tame_if {A} (b : bool) (m k : M ST ConnectError A) : tame m -> tame k -> tame (if b then m else k).
Proof. now destruct b. Qed.
Lemma tame_ret {A} (a : A) : tame (ret a : M ST ConnectError A).
Proof. now intros s. Qed.
Lemma tame_lift {A} (o : outcome ConnectError A) : tame (lift o : M ST ConnectError A).
Proof. now intros s. Qed.
Lemma tame_gets {A} (f : ST -> A) : tame (gets f : M ST ConnectError A).
Proof. now intros s. Qed.
Lemma tame_broken {A} c : tame (broken c : M ST ConnectError A).
Proof. now intros s. Qed.
Lemma tame_rule {A} (f : UtxoViewpoint -> checked A) : tame (rule f : M ST ConnectError A).
Proof. now intros s. Qed.
Lemma tame_set_view v : tame (set_view v : M ST ConnectError unit).
Proof. now intros s. Qed.
Lemma tame_view {A} (m : M vstate RuleError A) : tame (Connect.on_view m : M ST ConnectError A).
Proof. intros s. unfold Connect.on_view, part. now destruct (m (cn_view s, cn_stxos s)) as [o t]. Qed.
Lemma tame_scripts {A} (m : M (option SigCache * option HashCache) ValError A) : tame (on_scripts m : M ST ConnectError A).
Proof. intros s. unfold on_scripts, part. now destruct (m (cn_scripts s)) as [o t]. Qed.

Section Node.
Context (node : blockNode) (Hparent : match parent node with Some n => in_tree (index_ cs) n /\ height n < 2 ^ 31 - 1 | None => True end).

Lemma tame_state id : tame (on_thresholds (deploymentState (index_ cs) (voteParams cs) (parent node) id) : M ST ConnectError _).
Proof.
  intros s. unfold on_thresholds, part. destruct (deploymentState _ _ _ _ _) as [o t] eqn:Hrun. split; [done |].
  cbn [snd cn_thresholds]. intros Hr. destruct (Deployments (voteParams cs) !! id) as [d |] eqn:Hd.
  - destruct (deploymentState_caches (index_ cs) HT (voteParams cs) Hvotes _ id d (parent node) (cn_thresholds s) Hd
      (conj Hr eq_refl) Hparent) as (s' & Hrun' & Hs' & _). rewrite Hrun' in Hrun. now injection Hrun as <- <-.
  - unfold deploymentState in Hrun. rewrite Hd in Hrun. destruct (length _ <? id)%nat; injection Hrun as <- <-; exact Hr.
Qed.

Lemma tame_locks_met txs t : tame (locks_met cs node txs t : M ST ConnectError _).
Proof.
  induction txs as [| tx txs IH]; [apply tame_ret |]. cbn [locks_met]. apply tame_bind.
  - unfold calcSequenceLock. apply tame_bind.
    + apply tame_bind; [apply tame_state | intros; apply tame_ret].
    + intros csv. destruct (_ || _); [apply tame_ret | apply tame_rule].
  - intros l. apply tame_bind; [| intros _; exact IH]. destruct (negb _); [apply tame_broken | apply tame_ret].
Qed.

Lemma tame_connect_checked txs h : forall t, tame (connect_checked cs txs h t : M ST ConnectError Z).
Proof.
  induction txs as [| tx txs IH]; intros t; [apply tame_ret |]. cbn [connect_checked]. apply tame_bind; [apply tame_rule |].
  intros fee. destruct (_ <? t); [apply tame_broken |]. apply tame_bind; [apply tame_view | intros _; apply IH].
Qed.

(** ** The parts of the state *)

Record steady (L S0 : coins) (s s' : ST) : Prop := {
  steady_cache : cache_ok (cn_cache s') S0;
  steady_ledger : ledger (cn_cache s') S0 = L;
  steady_db : same_db (cn_cache s) (cn_cache s');
  steady_votes : right_caches (cn_thresholds s');
}.

Lemma steady_tame {A} (m : M ST ConnectError A) L S0 s0 s : tame m -> steady L S0 s0 s -> steady L S0 s0 (snd (m s)).
Proof. intros Hm [Hc Hl Hd Hv]. destruct (Hm s) as [Hcache Ht]. constructor; rewrite ?Hcache; auto. Qed.

Lemma checkBIP0030_run L S0 s0 s block :
  steady L S0 s0 s -> over (cn_view s) L ->
  let '(o, s1) := checkBIP0030 block s in
  steady L S0 s0 s1 /\ over (cn_view s1) L /\ effective (cn_view s1) L = effective (cn_view s) L /\ cn_stxos s1 = cn_stxos s.
Proof.
  intros [Hc Hl Hd Hv] Ho. set (fetch := outpoints_of block). unfold checkBIP0030. fold fetch.
  rewrite bind_eq. cbn [gets]. rewrite bind_eq. unfold on_utxos, part at 1.
  assert (Hrun : exists v' c', fetchUtxos fetch (cn_view s) (cn_cache s) = (Ok v', c') /\ same_db (cn_cache s) c' /\
    cache_ok c' S0 /\ ledger c' S0 = L /\ over v' L /\ effective v' L = effective (cn_view s) L).
  { unfold fetchUtxos. destruct (zlen fetch =? 0).
    { eexists _, _. split; [reflexivity |]. split_and!; try done. }
    set (ops := filter _ fetch). assert (Hops : Forall outpoint_ok ops).
    { apply Forall_forall. intros op [_ Hin]%list_elem_of_filter. unfold fetch, outpoints_of in Hin.
      apply list_elem_of_join in Hin as (l & Hin & Hl'). apply list_elem_of_fmap in Hl' as (tx & -> & _).
      apply list_elem_of_fmap in Hin as ([o x] & -> & Hin). exact (tx_outputs_ok tx o x Hin). }
    destruct (load_total (cn_cache s) S0 ops (cn_view s) Hc Hops) as (v' & c' & Hrun & Hs & Hc' & Hl' & Hload).
    rewrite Hl in *. exists v', c'. split_and!; try done; [now apply (loaded_over ops (cn_view s)) |].
    apply (loaded_effective ops _ _ _ Hload). apply Forall_forall. intros op [Hn _]%list_elem_of_filter.
    rewrite lookup_effective. unfold LookupEntry. now rewrite Hn. }
  destruct Hrun as (v' & c' & -> & Hs & Hc' & Hl' & Ho' & He'). cbn [relabel]. rewrite bind_eq. cbn [set_view modify].
  unfold rule. rewrite bind_eq. cbn [gets lift cn_view]. split_and!; [| done | done | done].
  constructor; cbn [cn_cache cn_thresholds]; [done | done | | done]. eapply same_db_trans; eauto.
Qed.

(** What a successful loop over the transactions says of the set the view stands
    for. *)
Lemma connect_checked_apply L h txs : forall t (s : ST) fees s',
  Forall tx_sane txs -> over (cn_view s) L -> connect_checked cs txs h t s = (Ok fees, s') ->
  over (cn_view s') L /\ exists l, apply_txs h txs (effective (cn_view s) L) = Some (effective (cn_view s') L, l).
Proof.
  induction txs as [| tx txs IH]; intros t s fees s' Hs Hv; cbn [connect_checked].
  { intros [= <- <-]. split; [done |]. now exists []. }
  apply Forall_cons in Hs as [Hs Hss]. intros (fee & s1 & Hfee & Hrun)%bind_inv_Ok.
  unfold rule in Hfee. rewrite bind_eq in Hfee. cbn [gets lift] in Hfee. injection Hfee as Hfee <-.
  destruct (CheckTransactionInputs tx h (cn_view s) (chainParams cs)) as [f | |] eqn:Hc; try discriminate. injection Hfee as ->.
  destruct (_ <? t); [discriminate |]. apply bind_inv_Ok in Hrun as ([] & s1 & Hconn & Hrun).
  unfold Connect.on_view, part in Hconn.
  assert (Hstep : exists v1 L1 l1, connectTransaction tx h (cn_view s, cn_stxos s) = (Ok tt, (v1, option_map (fun k => k ++ l1) (cn_stxos s))) /\
    effective v1 L = L1 /\ apply_tx h tx (effective (cn_view s) L) = Some (L1, l1)).
  { assert (Hap : exists L1 l1, apply_tx h tx (effective (cn_view s) L) = Some (L1, l1) /\ loaded (spends tx) (cn_view s) L).
    { unfold apply_tx, spends. destruct (IsCoinBaseTx tx) eqn:Hcb.
      - eexists _, _. split; [reflexivity |]. intros op Hop. now apply elem_of_nil in Hop.
      - destruct (CheckTransactionInputs_spec tx h (cn_view s) _ fee Hs Hcb Hc) as (l & Hl & _).
        rewrite decide_True by exact (distinct_inputs tx Hs). fold (inputs tx) in Hl.
        assert (Hlk : lookups (effective (cn_view s) L) (inputs tx) = Some l).
        { apply lookups_Some. eapply Forall2_impl; [exact Hl |]. intros op c Hoc. rewrite lookup_effective.
          unfold entry_coin in Hoc. destruct (unspent_entry (cn_view s) op) as [u |] eqn:Hu; [| discriminate].
          apply unspent_entry_Some in Hu as [He Hsp]. apply LookupEntry_entries in He. rewrite He, Hsp. exact Hoc. }
        rewrite Hlk. eexists _, _. split; [reflexivity |]. intros op Hop. right.
        apply list_elem_of_lookup in Hop as [i Hi]. destruct (Forall2_lookup_l _ _ _ _ _ Hl Hi) as (c & _ & Hoc).
        unfold entry_coin in Hoc. destruct (unspent_entry (cn_view s) op) as [u |] eqn:Hu; [| discriminate].
        apply unspent_entry_Some in Hu as [He _]. apply LookupEntry_entries in He. rewrite He. eauto. }
    destruct Hap as (L1 & l1 & Hap & Hld). destruct (connect_tx_spec tx h (cn_view s) (cn_stxos s) L L1 l1 Hap Hld)
      as (v1 & Hrun1 & He1 & _). eauto 10. }
  destruct Hstep as (v1 & L1 & l1 & Hrun1 & He1 & Hap). rewrite Hrun1 in Hconn. injection Hconn as <-. cbn [fst snd] in Hrun.
  destruct (IH _ _ _ _ Hss (connectTransaction_over _ _ _ _ _ _ _ Hv Hrun1 : over (cn_view (mkConnState _ v1 _ _ _)) L) Hrun)
    as (Hv' & l & Ha). split; [done |]. exists (l1 ++ l). cbn [apply_txs]. rewrite Hap. cbn [mbind option_bind].
  cbn [cn_view] in Ha. rewrite He1 in Ha. now rewrite Ha.
Qed.

Context (block : MsgBlock) (tx0 : MsgTx) (rest : list MsgTx) (Hwf : well_formed block tx0 rest).

(** What is asked first about the outputs of the block. *)
Lemma overwrites_run L S0 s0 s :
  steady L S0 s0 s -> over (cn_view s) L ->
  let '(o, s1) := (if asks_overwrites cs node then checkBIP0030 block else ret tt) s in
  steady L S0 s0 s1 /\ over (cn_view s1) L /\ effective (cn_view s1) L = effective (cn_view s) L.
Proof.
  intros Hs Hv. destruct (asks_overwrites cs node); [| done]. pose proof (checkBIP0030_run L S0 s0 s block Hs Hv) as Hr.
  destruct (checkBIP0030 block s) as [o s1]. tauto.
Qed.

Lemma fetch_steady L S0 s0 s bh :
  steady L S0 s0 s -> over (cn_view s) L ->
  exists v1 c1, fetchInputUtxos block bh (cn_view s) (cn_cache s) = (Ok v1, c1) /\
    steady L S0 s0 (mkConnState c1 v1 (cn_stxos s) (cn_thresholds s) (cn_scripts s)) /\ over v1 L /\
    agree_but ((tx0 :: rest) ≫= outs) (effective v1 L) (effective (cn_view s) L).
Proof.
  intros [Hc Hl Hd Ht] Hv. subst L.
  destruct (load_block (cn_cache s) S0 block tx0 rest bh (cn_view s) Hwf Hc Hv) as (v1 & c1 & Hrun & Hs & Hc1 & Hl1 & Ho & Ha & _).
  exists v1, c1. split_and!; try done. constructor; cbn [cn_cache cn_thresholds]; [done | done | | done].
  eapply same_db_trans; eauto.
Qed.

Ltac tame_tac :=
  repeat first
    [ apply tame_bind; [| intros ?] | apply tame_if | apply tame_state | apply tame_rule | apply tame_connect_checked
    | apply tame_lift | apply tame_ret | apply tame_gets | apply tame_broken | apply tame_scripts | apply tame_set_view
    | apply tame_locks_met ].

(** Whatever the outcome, the coins of the cache and the caches of the deployments
    are as they should be. *)
Lemma checkConnectBlock_steady L S0 s0 s fuel sched bh :
  steady L S0 s0 s -> over (cn_view s) L -> steady L S0 s0 (snd (checkConnectBlock cs fuel sched node block bh s)).
Proof.
  intros Hs Hv. unfold checkConnectBlock. destruct (bool_decide (_ = GenesisHash cs)); [exact Hs |].
  rewrite bind_eq. cbn [gets]. destruct (negb (bool_decide (bestHash (cn_view s) = _))); rewrite bind_eq; [exact Hs |].
  cbn [ret]. rewrite bind_eq. pose proof (overwrites_run L S0 s0 s Hs Hv) as Hb. unfold asks_overwrites in Hb.
  destruct ((if _ : bool then checkBIP0030 block else ret tt) s) as [[[] | e |] s1]; [| apply Hb | apply Hb].
  destruct Hb as (Hs1 & Hv1 & _). rewrite bind_eq. cbn [gets].
  destruct (fetch_steady L S0 s0 s1 bh Hs1 Hv1) as (v1 & c1 & Hf & Hs2 & _ & _).
  rewrite bind_eq. unfold on_utxos, part at 1. rewrite Hf. cbn [relabel]. rewrite bind_eq. unfold set_view, modify at 1.
  cbn [cn_cache cn_stxos cn_thresholds cn_scripts]. apply steady_tame; [| exact Hs2]. tame_tac.
Qed.

(** When the check succeeds the block is applicable to the set that the view
    stands for. *)
Lemma checkConnectBlock_applies L S0 s0 s s' fuel sched bh :
  Forall tx_sane (tx0 :: rest) -> steady L S0 s0 s -> over (cn_view s) L ->
  checkConnectBlock cs fuel sched node block bh s = (Ok tt, s') ->
  over (cn_view s') L /\
  exists l, apply_txs (height node) (tx0 :: rest) (effective (cn_view s) L) = Some (effective (cn_view s') L, l).
Proof.
  intros Hsane Hs Hv Hrun. pose proof (wf_txs _ _ _ Hwf) as Htx.
  destruct (checkConnectBlock_inv cs fuel sched node block bh s s' Hrun)
    as (s1 & v1 & c1 & s2 & fees & s3 & Hbip & Hfetch & _ & Hv2 & _ & Hconn & _ & _ & Hv3 & _).
  pose proof (overwrites_run L S0 s0 s Hs Hv) as Hb. rewrite Hbip in Hb. destruct Hb as (Hs1 & Ho1 & He1).
  destruct (fetch_steady L S0 s0 s1 bh Hs1 Ho1) as (v1' & c1' & Hf & _ & Ho2 & Hag). rewrite Hfetch in Hf.
  injection Hf as <- <-. rewrite Htx in Hconn. subst v1.
  destruct (connect_checked_apply L (height node) (tx0 :: rest) 0 s2 fees s3 Hsane Ho2 Hconn) as (Ho3 & l & Ha).
  rewrite Hv3. split; [now apply over_hash |]. exists l. rewrite effective_hash, <- He1.
  exact (apply_txs_agree _ _ _ _ _ _ Hag (wf_order _ _ _ Hwf) Ha).
Qed.
End Node.
End Checking.
