(* ===== verification/Chain.v ===== *)
(** The best chain (src/btcd/blockchain/chain.go, src/btcd/blockchain/blockindex.go,
    the reorganization and the recovery of src/btcd/blockchain/utxocache.go).

    A state of the chain holds the index of blocks with the status of every node,
    the view of the best chain, the cache of unspent outputs and the buckets of
    the database.  A database transaction is undone when its function fails;
    what is in memory is not.  The block files are a class, as the buckets are.
    There is no index manager; notifications are recorded. *)

From stdpp Require Import gmap.
From S2P Require Import Prelude Slices ScriptError Opcodes Tokenizer Vlq Compress WireCommon MsgTx MsgBlock Script Crypto SigHash SigCache EngineState SigCheck OpcodeExec Engine EngineInv BtcUtil Merkle WorkMath BlockIndex Difficulty TxRules Validate UtxoView Supply Bucket Chainio SizeHelper UtxoCache ChainView Threshold ScriptVal Connect.
#[local] Open Scope Z_scope.

(** * The status of blocks *)

Definition statusDataStored : Z := 1.
Definition statusValid : Z := 2.
Definition statusValidateFailed : Z := 4.
Definition statusInvalidAncestor : Z := 8.
Definition statusNone : Z := 0.

Definition HaveData (status : Z) : bool := negb (Z.land status statusDataStored =? 0).
Definition KnownValid (status : Z) : bool := negb (Z.land status statusValid =? 0).
Definition KnownInvalid (status : Z) : bool :=
  negb (Z.land status (Z.lor statusValidateFailed statusInvalidAncestor) =? 0).

Abbreviation hash_of := (fun n : blockNode => n_hash (data n)).

(** The index: nodes, their status, the nodes that are not written yet and the
    bucket they are written to. *)
Record blockIndex (B : Type) := mkBlockIndex {
  index_nodes : gmap bytes blockNode;
  statuses : gmap bytes Z;
  dirty : gmap bytes blockNode;
  nodeBucket : B;
}.
Arguments mkBlockIndex {B}.
Arguments index_nodes {B}.
Arguments statuses {B}.
Arguments dirty {B}.
Arguments nodeBucket {B}.

Definition newBlockIndex {B} (db : B) : blockIndex B := mkBlockIndex ∅ ∅ ∅ db.

Section Index.
Context {B : Type}.

Definition HaveBlock (hash : bytes) (bi : blockIndex B) : bool := bool_decide (is_Some (index_nodes bi !! hash)).
Definition LookupNode (hash : bytes) (bi : blockIndex B) : option blockNode := index_nodes bi !! hash.

(** A node carries its status. *)
Definition addNode (node : blockNode) (status : Z) (bi : blockIndex B) : blockIndex B :=
  mkBlockIndex (<[hash_of node := node]> (index_nodes bi)) (<[hash_of node := status]> (statuses bi))
    (dirty bi) (nodeBucket bi).

Definition mark_dirty (node : blockNode) (bi : blockIndex B) : blockIndex B :=
  mkBlockIndex (index_nodes bi) (statuses bi) (<[hash_of node := node]> (dirty bi)) (nodeBucket bi).

Definition AddNode (node : blockNode) (status : Z) (bi : blockIndex B) : blockIndex B :=
  mark_dirty node (addNode node status bi).

Definition NodeStatus (node : blockNode) (bi : blockIndex B) : Z := default statusNone (statuses bi !! hash_of node).

Definition set_status (node : blockNode) (status : Z) (bi : blockIndex B) : blockIndex B :=
  mark_dirty node (mkBlockIndex (index_nodes bi) (<[hash_of node := status]> (statuses bi)) (dirty bi) (nodeBucket bi)).

Definition SetStatusFlags (node : blockNode) (flags : Z) (bi : blockIndex B) : blockIndex B :=
  set_status node (Z.lor (NodeStatus node bi) flags) bi.

Definition UnsetStatusFlags (node : blockNode) (flags : Z) (bi : blockIndex B) : blockIndex B :=
  set_status node (Z.land (NodeStatus node bi) (Z.lnot flags)) bi.

Context `{Bucket B}.

Definition dbStoreBlockNode (node : blockNode) (status : Z) (bucket : B) : B :=
  Put (blockIndexKey (hash_of node) (uint32 (height node)))
    (writeBlockHeaderBuf (node_Header node) ++ [z2b status]) bucket.

(** The order of the map does not matter: the keys are different. *)
Definition flushToDB (bi : blockIndex B) : blockIndex B :=
  mkBlockIndex (index_nodes bi) (statuses bi) ∅
    (foldr (fun '(_, node) b => dbStoreBlockNode node (NodeStatus node bi) b) (nodeBucket bi) (map_to_list (dirty bi))).
End Index.

(** * The block files *)

(** Serialized blocks by hash; pruning returns the hashes of what it deletes. *)
Class BlockFiles (D : Type) : Type := {
  FetchBlock : D -> bytes -> option bytes;
  StoreBlock : bytes -> bytes -> D -> D;
  PruneBlocks : Z -> D -> list bytes * D;
}.

(** What the code relies on. *)
Class BlockFilesLaws (D : Type) `{BlockFiles D} : Prop := {
  fetch_stored h raw d h' : FetchBlock (StoreBlock h raw d) h' = if decide (h = h') then Some raw else FetchBlock d h';
  fetch_pruned t d h : h ∉ fst (PruneBlocks t d) -> FetchBlock (snd (PruneBlocks t d)) h = FetchBlock d h;
}.

(** Files that are never pruned. *)
#[export] Instance gmap_files : BlockFiles (gmap bytes bytes) := {|
  FetchBlock d h := d !! h;
  StoreBlock h raw d := <[h := raw]> d;
  PruneBlocks _ d := ([], d);
|}.

#[export] Instance gmap_files_laws : BlockFilesLaws (gmap bytes bytes).
Proof. split; [| done]. intros h raw d h'. apply lookup_insert. Qed.

(** * The state of the chain *)

Record BestState := mkBestState {
  bst_Hash : bytes;
  bst_Height : Z;
  bst_Bits : Z;
  BlockSize : Z;
  BlockWeight : Z;
  NumTxns : Z;
  TotalTxns : Z;
  MedianTime : Z;
}.

Definition newBestState (node : blockNode) (blockSize blockWeight numTxns totalTxns medianTime : Z) : BestState :=
  mkBestState (hash_of node) (height node) (n_bits (data node)) blockSize blockWeight numTxns totalTxns medianTime.

Inductive Notification : Set :=
| NTBlockAccepted (hash : bytes)
| NTBlockConnected (hash : bytes)
| NTBlockDisconnected (hash : bytes).

(** What is in the database but the bucket of the unspent outputs, its status and
    the bucket of nodes, which are kept where they are used. *)
Record ChainDB (B D : Type) := mkChainDB {
  spendBucket : B;
  chainIndex : ChainIndex B;
  bestState : option bytes;
  blockFiles : D;
}.
Arguments mkChainDB {B D}.
Arguments spendBucket {B D}.
Arguments chainIndex {B D}.
Arguments bestState {B D}.
Arguments blockFiles {B D}.

Record BlockChain (B D : Type) := mkChain {
  ch_index : blockIndex B;
  bestChain : chainView;
  ch_utxoCache : utxoCache B;
  ch_db : ChainDB B D;
  stateSnapshot : option BestState;
  ch_thresholds : Caches;
  ch_scripts : option SigCache * option HashCache;
  notifications : list Notification;
}.
Arguments mkChain {B D}.
Arguments ch_index {B D}.
Arguments bestChain {B D}.
Arguments ch_utxoCache {B D}.
Arguments ch_db {B D}.
Arguments stateSnapshot {B D}.
Arguments ch_thresholds {B D}.
Arguments ch_scripts {B D}.
Arguments notifications {B D}.

(** The parameters of a network, the amount of data to keep and the budget of the
    engine. *)
Record Network := mkNetwork {
  net_params : Params;
  net_votes : VoteParams;
  net_genesis : bytes;
  net_checkpoints : list (Z * bytes);
  pruneTarget : Z;
  net_fuel : nat;
}.

(** What the code does not decide: the clock in nanoseconds and the adjusted time in
    seconds, the orders of maps and goroutines. *)
Record Env (B : Type) := mkEnv {
  now : Z;
  AdjustedTime : Z;
  cache_order : utxoCache B -> list (OutPoint * option UtxoEntry);
  view_order : UtxoViewpoint -> list (OutPoint * option UtxoEntry);
  sched : list txValidateItem -> list txValidateItem;
}.
Arguments mkEnv {B}.
Arguments now {B}.
Arguments AdjustedTime {B}.
Arguments cache_order {B}.
Arguments view_order {B}.
Arguments sched {B}.

Inductive ChainError : Set :=
| OfConnect (e : ConnectError)
| ErrBlockNotFound
| BadBlock (e : BlockError)
| HashLength
| errInterruptRequested.

Definition chain_assert : ChainError := OfConnect (ConnRule AssertError).

(** [err.(RuleError)]: an assertion is not one. *)
Definition is_RuleError (e : ChainError) : bool :=
  match e with OfConnect (ConnRule (ruleError _)) => true | _ => false end.

Section Operations.
Context `{PubKeys} `{Crypto} `{MapOrder} {B D : Type} `{Bucket B} `{BlockFiles D}.
Context (net : Network) (env : Env B).

Abbreviation BC := (BlockChain B D).
Abbreviation CH := (M BC ChainError).

Definition consts (b : BC) : ChainConsts :=
  mkChainConsts (index_nodes (ch_index b)) (net_params net) (net_votes net) (net_genesis net) (net_checkpoints net).

(** ** Changing one part *)

Definition with_index (i : blockIndex B) (b : BC) : BC :=
  mkChain i (bestChain b) (ch_utxoCache b) (ch_db b) (stateSnapshot b) (ch_thresholds b) (ch_scripts b) (notifications b).
Definition with_best (v : chainView) (b : BC) : BC :=
  mkChain (ch_index b) v (ch_utxoCache b) (ch_db b) (stateSnapshot b) (ch_thresholds b) (ch_scripts b) (notifications b).
Definition with_cache (c : utxoCache B) (b : BC) : BC :=
  mkChain (ch_index b) (bestChain b) c (ch_db b) (stateSnapshot b) (ch_thresholds b) (ch_scripts b) (notifications b).
Definition with_chain_db (d : ChainDB B D) (b : BC) : BC :=
  mkChain (ch_index b) (bestChain b) (ch_utxoCache b) d (stateSnapshot b) (ch_thresholds b) (ch_scripts b) (notifications b).
Definition with_snapshot (s : BestState) (b : BC) : BC :=
  mkChain (ch_index b) (bestChain b) (ch_utxoCache b) (ch_db b) (Some s) (ch_thresholds b) (ch_scripts b) (notifications b).
Definition with_checks (t : Caches) (sc : option SigCache * option HashCache) (b : BC) : BC :=
  mkChain (ch_index b) (bestChain b) (ch_utxoCache b) (ch_db b) (stateSnapshot b) t sc (notifications b).
Definition notified (n : Notification) (b : BC) : BC :=
  mkChain (ch_index b) (bestChain b) (ch_utxoCache b) (ch_db b) (stateSnapshot b) (ch_thresholds b) (ch_scripts b)
    (notifications b ++ [n]).

Definition on_index (f : blockIndex B -> blockIndex B) : CH unit := modify (fun b => with_index (f (ch_index b)) b).
Definition sendNotification (n : Notification) : CH unit := modify (notified n).

Definition of_store {A} (o : stored_result A) : outcome ChainError A := relabel (fun e => OfConnect (ConnStore e)) o.
Definition of_rule {A} (o : checked A) : outcome ChainError A := relabel (fun e => OfConnect (ConnRule e)) o.
Definition of_viewed {A} (o : viewed A) : outcome ChainError A := match o with Ok a => Ok a | _ => Panic end.

Definition on_utxoCache {A} : M (utxoCache B) StoreError A -> CH A :=
  part (fun e => OfConnect (ConnStore e)) ch_utxoCache with_cache.

Definition on_caches {A} : M Caches ThresholdError A -> CH A :=
  part (fun e => OfConnect (ConnVote e)) ch_thresholds (fun t b => with_checks t (ch_scripts b) b).

(** Statements that write to the buckets of the chain. *)
Definition on_db (f : ChainDB B D -> stored_result (ChainDB B D)) : CH unit :=
  b <- get;; d <- lift (of_store (f (ch_db b)));; put (with_chain_db d b).

(** A database transaction: its writes are undone when the function fails. *)
Definition db_Update {A} (m : CH A) : CH A := fun b =>
  match m b with
  | (Err e, b') =>
      (Err e, with_chain_db (ch_db b)
        (with_cache (with_db (utxoBucket (ch_utxoCache b)) (consistency (ch_utxoCache b)) (ch_utxoCache b')) b'))
  | r => r
  end.

Definition flushIndex : CH unit := on_index flushToDB.

Definition flushCache (mode : FlushMode) (state : BestState) : CH unit :=
  b <- get;;
  on_utxoCache (flush (cache_order env (ch_utxoCache b)) mode (bst_Hash state) (now env)).

(** [b.bestChain.Tip()] and a field of it *)
Definition theTip : CH blockNode :=
  b <- get;; lift (match tip (bestChain b) with Some t => Ok t | None => Panic end).

Definition setBest (node : option blockNode) : CH unit :=
  b <- get;; v <- lift (of_viewed (setTip node (bestChain b)));; put (with_best v b).

Definition median_time (node : option blockNode) : CH Z :=
  lift (match node with
        | Some n => of_viewed (CalcPastMedianTime n)
        | None => Panic
        end).

(** ** Stored blocks *)

Definition FetchBlock_ (hash : bytes) (b : BC) : outcome ChainError bytes :=
  match FetchBlock (blockFiles (ch_db b)) hash with Some raw => Ok raw | None => Err ErrBlockNotFound end.

(** The height of the block is the one of the node. *)
Definition dbFetchBlockByNode (node : option blockNode) (b : BC) : outcome ChainError MsgBlock :=
  match node with
  | None => Panic
  | Some n =>
      let! blockBytes := FetchBlock_ (hash_of n) b in
      match NewBlockFromBytes blockBytes with
      | Ok block => Ok (msgBlock block)
      | Err e => Err (BadBlock e)
      | Panic => Panic
      end
  end.

Definition fetch_block (node : option blockNode) : CH MsgBlock := b <- get;; lift (dbFetchBlockByNode node b).

Definition db_fetch_by_hash (b : BC) (hash : bytes) : checked (option UtxoEntry) :=
  match dbFetchUtxoEntryByHash (utxoBucket (ch_utxoCache b)) hash with
  | Ok e => Ok e
  | Err _ => Err AssertError
  | Panic => Panic
  end.

(** ** Checks *)

Definition isCurrent (b : BC) : bool :=
  match tip (bestChain b) with
  | None => false
  | Some t =>
      match LatestCheckpoint (consts b) with
      | Some (h, _) => if height t <? h then false else n_timestamp (data t) >=? AdjustedTime env - 24 * 3600
      | None => n_timestamp (data t) >=? AdjustedTime env - 24 * 3600
      end
  end.

Definition warn_current (node : blockNode) : CH unit :=
  b <- get;;
  match tip (bestChain b) with
  | None => panic
  | Some _ =>
      if isCurrent b then
        on_caches (warnUnknownRuleActivations (index_nodes (ch_index b)) (net_votes net) node)
      else ret tt
  end.

(** [checkConnectBlock] on a view, without a list of spent outputs; [bh] is the
    height of the wrapped block. *)
Definition check_connect_at (bh : Z) (node : blockNode) (block : MsgBlock) (view : UtxoViewpoint) : CH UtxoViewpoint := fun b =>
  let s := mkConnState (ch_utxoCache b) view None (ch_thresholds b) (ch_scripts b) in
  let '(o, s') := checkConnectBlock (consts b) (net_fuel net) (sched env) node block bh s in
  (relabel OfConnect (match o with Ok _ => Ok (cn_view s') | Err e => Err e | Panic => Panic end),
   with_checks (cn_thresholds s') (cn_scripts s') (with_cache (cn_cache s') b)).

Definition check_connect (node : blockNode) : MsgBlock -> UtxoViewpoint -> CH UtxoViewpoint :=
  check_connect_at (height node) node.

Definition load_inputs (block : MsgBlock) (h : Z) (view : UtxoViewpoint) : CH UtxoViewpoint :=
  on_utxoCache (fetchInputUtxos block h view).

Definition connect_view (block : MsgBlock) (h : Z) (view : UtxoViewpoint) : CH UtxoViewpoint :=
  let '(o, (view', _)) := connectTransactions block h (view, None) in
  lift (of_rule (match o with Ok _ => Ok view' | Err e => Err e | Panic => Panic end)).

Definition disconnect_view (block : MsgBlock) (h : Z) (stxos : list SpentTxOut) (view : UtxoViewpoint) : CH UtxoViewpoint :=
  b <- get;; lift (of_rule (disconnectTransactions (db_fetch_by_hash b) block h stxos view)).

(** Connecting a block to the cache, with the list of spent outputs. *)
Definition connect_cache (block : MsgBlock) (h : Z) : CH (list SpentTxOut) := fun b =>
  let '(o, (c, stxos)) := cache_connectTransactions block h (ch_utxoCache b, Some []) in
  (of_store (match o with Ok _ => Ok (default [] stxos) | Err e => Err e | Panic => Panic end), with_cache c b).

(** ** Pruning *)

Definition highest_deleted (hashes : list bytes) (bi : blockIndex B) : Z :=
  foldl (fun highest h => match LookupNode h bi with
                          | None => highest
                          | Some node => if height node >? highest then height node else highest
                          end) (-1) hashes.

Definition flushNeededAfterPrune (deletedBlockHashes : list bytes) (b : BC) : bool :=
  match LookupNode (lastFlushHash (ch_utxoCache b)) (ch_index b) with
  | None => true
  | Some node => highest_deleted deletedBlockHashes (ch_index b) >=? height node
  end.

Definition prune (state : BestState) : CH unit :=
  if pruneTarget net =? 0 then ret tt else
  b <- get;;
  let '(deletedHashes, files) := PruneBlocks (pruneTarget net) (blockFiles (ch_db b)) in
  on_db (fun d => Ok (mkChainDB (spendBucket d) (chainIndex d) (bestState d) files));;
  if zlen deletedHashes =? 0 then ret tt else
  on_db (fun d => Ok (mkChainDB (dbPruneSpendJournalEntry deletedHashes (spendBucket d)) (chainIndex d) (bestState d)
                        (blockFiles d)));;
  b <- get;;
  if flushNeededAfterPrune deletedHashes b then flushCache FlushRequired state else ret tt.

(** ** Connecting and disconnecting a block *)

Definition dbPutBestState (snapshot : BestState) (workSum : Z) (d : ChainDB B D) : ChainDB B D :=
  mkChainDB (spendBucket d) (chainIndex d)
    (Some (serializeBestChainState
       (mkBestChainState (bst_Hash snapshot) (uint32 (bst_Height snapshot)) (TotalTxns snapshot) workSum)))
    (blockFiles d).

Definition put_index (block : MsgBlock) (h : Z) (d : ChainDB B D) : ChainDB B D :=
  mkChainDB (spendBucket d) (dbPutBlockIndex (BlockHash (Header block)) h (chainIndex d)) (bestState d) (blockFiles d).

Definition remove_index (block : MsgBlock) (h : Z) (d : ChainDB B D) : ChainDB B D :=
  mkChainDB (spendBucket d) (dbRemoveBlockIndex (BlockHash (Header block)) h (chainIndex d)) (bestState d) (blockFiles d).

Definition put_stxos (block : MsgBlock) (stxos : list SpentTxOut) (d : ChainDB B D) : stored_result (ChainDB B D) :=
  let! s := dbPutSpendJournalEntry (BlockHash (Header block)) stxos (spendBucket d) in
  Ok (mkChainDB s (chainIndex d) (bestState d) (blockFiles d)).

Definition remove_stxos (block : MsgBlock) (d : ChainDB B D) : ChainDB B D :=
  mkChainDB (dbRemoveSpendJournalEntry (BlockHash (Header block)) (spendBucket d)) (chainIndex d) (bestState d)
    (blockFiles d).

(** The snapshot for a node with its block; [txns] is the change of the total. *)
Definition snapshot_of (node : blockNode) (block : MsgBlock) (totalTxns : Z) : CH BestState :=
  medianTime <- median_time (Some node);;
  ret (newBestState node (uint64 (block_SerializeSize block)) (uint64 (GetBlockWeight block))
         (uint64 (zlen (Transactions block))) totalTxns medianTime).

Definition curTotalTxns : CH Z :=
  b <- get;; lift (match stateSnapshot b with Some s => Ok (TotalTxns s) | None => Panic end).

Definition connectBlock (node : blockNode) (block : MsgBlock) (stxos : list SpentTxOut) : CH unit :=
  t <- theTip;;
  guard (negb (bool_decide (PrevBlock (Header block) = hash_of t))) chain_assert;;
  (match Transactions block with [] => panic | _ => ret tt end);;
  guard (negb (zlen stxos =? countSpentOutputs block)) chain_assert;;
  warn_current node;;
  flushIndex;;
  total <- curTotalTxns;;
  state <- snapshot_of node block (uint64 (total + uint64 (zlen (Transactions block))));;
  db_Update (
    prune state;;
    on_db (fun d => Ok (dbPutBestState state (n_workSum (data node)) d));;
    on_db (fun d => Ok (put_index block (height node) d));;
    on_db (put_stxos block stxos));;
  setBest (Some node);;
  modify (with_snapshot state);;
  sendNotification (NTBlockConnected (BlockHash (Header block)));;
  db_Update (flushCache FlushIfNeeded state).

Definition put_view (view : UtxoViewpoint) : CH unit :=
  on_utxoCache (
    c <- get;;
    db <- lift (dbPutUtxoView (view_order env view) (utxoBucket c));;
    put (with_db db (consistency c) c)).

(** The best state is stored with the work of the block that is disconnected. *)
Definition disconnectBlock (node : blockNode) (block : MsgBlock) (view : UtxoViewpoint) : CH UtxoViewpoint :=
  t <- theTip;;
  guard (negb (bool_decide (hash_of node = hash_of t))) chain_assert;;
  let prevNode := parent node in
  prevBlock <- fetch_block prevNode;;
  flushIndex;;
  total <- curTotalTxns;;
  prev <- lift (match prevNode with Some p => Ok p | None => Panic end);;
  state <- snapshot_of prev prevBlock (uint64 (total - uint64 (zlen (Transactions block))));;
  db_Update (
    on_db (fun d => Ok (dbPutBestState state (n_workSum (data node)) d));;
    on_db (fun d => Ok (remove_index block (height node) d));;
    flushCache FlushRequired state;;
    put_view view;;
    b <- get;;
    lift (of_store (dbFetchSpendJournalEntry (spendBucket (ch_db b)) block));;
    on_db (fun d => Ok (remove_stxos block d)));;
  setBest prevNode;;
  modify (with_snapshot state);;
  sendNotification (NTBlockDisconnected (BlockHash (Header block)));;
  ret (commit view).

(** ** Reorganizing *)

(** The nodes from [n] back to the fork, the last one first; none when one of
    them is known to be invalid. *)
Fixpoint attach_from (bi : blockIndex B) (n : blockNode) (fork : option blockNode) (attach : list blockNode)
  : bool * list blockNode :=
  match n with
  | Node p _ _ =>
      if is_node fork n then (false, attach)
      else if KnownInvalid (NodeStatus n bi) then (true, attach)
      else match p with
           | Some p' => attach_from bi p' fork (n :: attach)
           | None => (false, n :: attach)
           end
  end.

Fixpoint detach_from (n : blockNode) (fork : option blockNode) : list blockNode :=
  match n with
  | Node p _ _ =>
      if is_node fork n then []
      else n :: match p with Some p' => detach_from p' fork | None => [] end
  end.

Definition mark_all (flags : Z) (nodes : list blockNode) : CH unit :=
  on_index (fun bi => foldl (fun bi n => SetStatusFlags n flags bi) bi nodes).

(** The nodes to detach and to attach.  The status of a nil node panics. *)
Definition getReorganizeNodes (node : blockNode) : CH (list blockNode * list blockNode) :=
  b <- get;;
  prev <- lift (match parent node with Some p => Ok p | None => Panic end);;
  if KnownInvalid (NodeStatus prev (ch_index b)) then
    mark_all statusInvalidAncestor [node];; ret ([], [])
  else
    let forkNode := findFork (bestChain b) (Some node) in
    let '(invalidChain, attachNodes) := attach_from (ch_index b) node forkNode [] in
    if invalidChain then mark_all statusInvalidAncestor attachNodes;; ret ([], [])
    else ret (match tip (bestChain b) with Some t => detach_from t forkNode | None => [] end, attachNodes).

Fixpoint verify_detach (nodes : list blockNode) (view : UtxoViewpoint)
  : CH (list (MsgBlock * list SpentTxOut) * UtxoViewpoint) :=
  match nodes with
  | [] => ret ([], view)
  | n :: nodes' =>
      block <- fetch_block (Some n);;
      guard (negb (bool_decide (hash_of n = BlockHash (Header block)))) chain_assert;;
      view <- load_inputs block (height n) view;;
      b <- get;;
      stxos <- lift (of_store (dbFetchSpendJournalEntry (spendBucket (ch_db b)) block));;
      view <- disconnect_view block (height n) stxos view;;
      r <- verify_detach nodes' view;;
      ret ((block, stxos) :: fst r, snd r)
  end.

(** A failed check: a broken rule marks the block and those above it. *)
Definition mark_failed (n : blockNode) (above : list blockNode) (m : CH UtxoViewpoint) : CH UtxoViewpoint := fun b =>
  match m b with
  | (Err e, b') =>
      if is_RuleError e then
        (Err e, snd ((mark_all statusValidateFailed [n];; mark_all statusInvalidAncestor above) b'))
      else (Err e, b')
  | r => r
  end.

Fixpoint verify_attach (nodes : list blockNode) (view : UtxoViewpoint) : CH (list MsgBlock) :=
  match nodes with
  | [] => ret []
  | n :: nodes' =>
      block <- fetch_block (Some n);;
      b <- get;;
      view <-
        (if KnownValid (NodeStatus n (ch_index b)) then
           view <- load_inputs block (height n) view;; connect_view block (height n) view
         else
           view <- mark_failed n nodes' (check_connect n block view);;
           mark_all statusValid [n];; ret view);;
      blocks <- verify_attach nodes' view;;
      ret (block :: blocks)
  end.

Definition same_fork (detachNodes attachNodes : list blockNode) : outcome ChainError unit :=
  match attachNodes, last detachNodes with
  | a :: _, Some d =>
      match parent a, parent d with
      | Some pa, Some pd => if bool_decide (hash_of pa = hash_of pd) then Ok tt else Err chain_assert
      | _, _ => Panic
      end
  | _, _ => Ok tt
  end.

Definition verifyReorganizationValidity (detachNodes attachNodes : list blockNode)
  : CH (list (MsgBlock * list SpentTxOut) * list MsgBlock) :=
  if (zlen detachNodes =? 0) && (zlen attachNodes =? 0) then ret ([], []) else
  t <- theTip;;
  (match detachNodes with
   | d :: _ => guard (negb (bool_decide (hash_of d = hash_of t))) chain_assert
   | [] => ret tt
   end);;
  lift (same_fork detachNodes attachNodes);;
  r <- verify_detach detachNodes (SetBestHash (hash_of t) NewUtxoViewpoint);;
  blocks <- verify_attach attachNodes (snd r);;
  ret (fst r, blocks).

Fixpoint detach_blocks (nodes : list blockNode) (blocks : list (MsgBlock * list SpentTxOut)) (view : UtxoViewpoint)
  : CH unit :=
  match nodes with
  | [] => ret tt
  | n :: nodes' =>
      match blocks with
      | [] => panic
      | (block, stxos) :: blocks' =>
          view <- load_inputs block (height n) view;;
          view <- disconnect_view block (height n) stxos view;;
          view <- disconnectBlock n block view;;
          detach_blocks nodes' blocks' view
      end
  end.

Fixpoint attach_blocks (nodes : list blockNode) (blocks : list MsgBlock) : CH unit :=
  match nodes with
  | [] => ret tt
  | n :: nodes' =>
      match blocks with
      | [] => panic
      | block :: blocks' =>
          stxos <- connect_cache block (height n);;
          connectBlock n block stxos;;
          attach_blocks nodes' blocks'
      end
  end.

Definition reorganizeChain (detachNodes attachNodes : list blockNode) : CH unit :=
  r <- verifyReorganizationValidity detachNodes attachNodes;;
  t <- theTip;;
  detach_blocks detachNodes (fst r) (SetBestHash (hash_of t) NewUtxoViewpoint);;
  attach_blocks attachNodes (snd r).

(** ** The best chain *)

(** The check of a block that extends the best chain, with its status. *)
Definition check_extension (node : blockNode) (block : MsgBlock) : CH unit := fun b =>
  match check_connect node block (SetBestHash (PrevBlock (Header block)) NewUtxoViewpoint) b with
  | (Ok _, b') => (mark_all statusValid [node];; flushIndex) b'
  | (Err e, b') =>
      if is_RuleError e then (Err e, snd ((mark_all statusValidateFailed [node];; flushIndex) b')) else (Err e, b')
  | (Panic, b') => (Panic, b')
  end.

Definition connect_tip (node : blockNode) (block : MsgBlock) (stxos : list SpentTxOut) : CH unit := fun b =>
  match connectBlock node block stxos b with
  | (Err e, b') =>
      (Err e, snd (((if is_RuleError e then mark_all statusValidateFailed [node] else ret tt);; flushIndex) b'))
  | r => r
  end.

(** The index is written whether or not the reorganization succeeds. *)
Definition flush_after {A} (m : CH A) : CH A := fun b =>
  let '(o, b') := m b in
  match o with Panic => (Panic, b') | _ => (o, snd (flushIndex b')) end.

Definition connectBestChain (node : blockNode) (block : MsgBlock) (flags : Z) : CH bool :=
  let fastAdd := has_flag flags BFFastAdd in
  t <- theTip;;
  b <- get;;
  if bool_decide (PrevBlock (Header block) = hash_of t) then
    let fastAdd := fastAdd || KnownValid (NodeStatus node (ch_index b)) in
    (if fastAdd then ret tt else check_extension node block);;
    stxos <- connect_cache block (height node);;
    connect_tip node block stxos;;
    b <- get;;
    (if fastAdd || negb (KnownValid (NodeStatus node (ch_index b))) then
       mark_all statusValid [node];; flushIndex
     else ret tt);;
    ret true
  else if n_workSum (data node) <=? n_workSum (data t) then
    lift (match findFork (bestChain b) (Some node) with Some _ => Ok false | None => Panic end)
  else
    r <- getReorganizeNodes node;;
    flush_after (reorganizeChain (fst r) (snd r));;
    ret true.
End Operations.
