(* ===== verification/ChainInv.v ===== *)
(** The state of the chain between two blocks, and what connecting and
    disconnecting one block do to it.

    The coins after a node are those of its branch: the blocks that are stored for
    the nodes are applied from the first block on.  In the invariant of the chain
    the cache stands for the coins after the tip, over a database that holds the
    coins after some node of the branch. *)

From stdpp Require Import gmap fin_maps.
From S2P Require Import Prelude Slices ScriptError Opcodes Tokenizer Vlq Compress WireCommon MsgTx MsgBlock Script Crypto SigHash SigCache EngineState SigCheck OpcodeExec Engine EngineInv BtcUtil Merkle WorkMath BlockIndex Difficulty TxRules Validate UtxoView Supply Bucket Chainio SizeHelper UtxoCache ChainView Threshold ScriptVal Connect ConnectSpec Votes ReorgView Chain.
#[local] Open Scope Z_scope.

(** * Branches *)

(** A node and its ancestors. *)
Fixpoint branch (n : blockNode) : list blockNode :=
  match n with Node p _ _ => n :: match p with Some p' => branch p' | None => [] end end.

Lemma branch_eq n : branch n = n :: match parent n with Some p => branch p | None => [] end.
Proof. now destruct n. Qed.

Lemma branch_self n : n ∈ branch n.
Proof. rewrite branch_eq. constructor. Qed.

Lemma branch_parent n p m : parent n = Some p -> m ∈ branch p -> m ∈ branch n.
Proof. intros Hp Hm. rewrite branch_eq, Hp. now constructor. Qed.

Lemma branch_cases n m : m ∈ branch n -> m = n \/ exists p, parent n = Some p /\ m ∈ branch p.
Proof.
  rewrite branch_eq, elem_of_cons. intros [-> | Hm]; [now left | right].
  destruct (parent n) as [p |]; [eauto | now apply elem_of_nil in Hm].
Qed.

(** Induction along the parents. *)
Lemma node_ind (P : blockNode -> Prop) :
  (forall n, (forall p, parent n = Some p -> P p) -> P n) -> forall n, P n.
Proof.
  intros Hstep. fix IH 1. intros n. apply Hstep. destruct n as [[p' |] a d]; cbn [parent]; [| discriminate].
  intros p [= <-]. apply IH.
Qed.

Lemma branch_trans n m x : m ∈ branch n -> x ∈ branch m -> x ∈ branch n.
Proof.
  induction n as [n IH] using node_ind. intros [-> | (p & Hp & Hm)]%branch_cases Hx; [done |].
  eapply branch_parent; eauto.
Qed.

Lemma back_branch k : forall n m, back k n = Some m -> m ∈ branch n.
Proof.
  induction k as [| k IH]; intros n m; cbn [back]; [intros [= <-]; apply branch_self |]. cbn [Parent blockNode_ctx].
  destruct (parent n) as [p |] eqn:Hp; [| discriminate]. intros Hm. eapply branch_parent; eauto.
Qed.

Section Tree.
Context (T : gmap bytes blockNode) (HT : block_tree T).

Lemma branch_tree n m : in_tree T n -> m ∈ branch n -> in_tree T m /\ height m <= height n.
Proof.
  induction n as [n IH] using node_ind. intros Hn [-> | (p & Hp & Hm)]%branch_cases; [split; [done | lia] |].
  destruct (parent_ok n p (in_tree_ok T HT n Hn) Hp) as [_ Hh].
  destruct (IH p Hp (in_tree_parent T HT n p Hn Hp) Hm). split; [done | lia].
Qed.

(** A node is not one of its ancestors, nor has it the hash of one. *)
Lemma branch_fresh n p m : in_tree T n -> parent n = Some p -> m ∈ branch p -> hash_of m <> hash_of n.
Proof.
  intros Hn Hp Hm Heq. destruct (branch_tree p m (in_tree_parent T HT n p Hn Hp) Hm) as [Hmt Hle].
  destruct (parent_ok n p (in_tree_ok T HT n Hn) Hp) as [_ Hh]. unfold in_tree in *.
  assert (m = n) as -> by congruence. lia.
Qed.

Lemma child_height n p : in_tree T n -> parent n = Some p -> 0 < height n < 2 ^ 31 /\ height p = height n - 1.
Proof.
  intros Hn Hp. destruct (parent_ok n p (in_tree_ok T HT n Hn) Hp) as [Hpok Hh].
  destruct (node_ok_height n (in_tree_ok T HT n Hn)), (node_ok_height p Hpok). lia.
Qed.
End Tree.

(** * Coins *)

Section Coins.
Context `{CryptoLaws} {D : Type} `{BlockFiles D} (files : D).

(** The block that is stored for a node. *)
Definition stored_block (n : blockNode) : option MsgBlock :=
  match FetchBlock files (hash_of n) with
  | Some raw => match NewBlockFromBytes raw with Ok block => Some (msgBlock block) | _ => None end
  | None => None
  end.

(** The coins after a node; the first block makes none. *)
Fixpoint coins_at (n : blockNode) : option coins :=
  match n with
  | Node None _ _ => Some ∅
  | Node (Some p) _ _ =>
      S ← coins_at p;
      block ← stored_block n;
      fst <$> apply_txs (height n) (Transactions block) S
  end.

(** A block for a node, well formed (in particular with its transactions in order),
    sane, whose coins can be stored and whose transactions are new: no coin after an
    ancestor has the id of one.  The order and the new ids are assumptions on the
    blocks, which the code does not enforce for every block. *)
Record block_good (n p : blockNode) (block : MsgBlock) (tx0 : MsgTx) (rest : list MsgTx) : Prop := {
  bg_stored : stored_block n = Some block;
  bg_wf : well_formed block tx0 rest;
  bg_hash : BlockHash (Header block) = hash_of n;
  bg_prev : PrevBlock (Header block) = hash_of p;
  bg_sane : Forall tx_sane (tx0 :: rest);
  bg_made : Forall (fun tx => Forall (fun q => coin_ok (snd q)) (made tx (height n))) (tx0 :: rest);
  bg_fresh m S op : m ∈ branch p -> coins_at m = Some S -> is_Some (S !! op) -> Hash op ∉ TxHash <$> tx0 :: rest;
}.

Fixpoint good_branch (n : blockNode) : Prop :=
  match n with
  | Node p _ _ =>
      is_Some (stored_block n) /\
      match p with
      | Some p' => (exists block tx0 rest, block_good n p' block tx0 rest) /\ good_branch p'
      | None => True
      end
  end.

Lemma good_stored n : good_branch n -> is_Some (stored_block n).
Proof. destruct n. now intros [Hs _]. Qed.

Lemma good_parent n p : good_branch n -> parent n = Some p ->
  (exists block tx0 rest, block_good n p block tx0 rest) /\ good_branch p.
Proof. destruct n as [p' a d]. cbn [parent]. intros [_ Hp] ->. exact Hp. Qed.

Lemma good_ancestor n m : good_branch n -> m ∈ branch n -> good_branch m.
Proof.
  induction n as [n IH] using node_ind. intros Hn [-> | (p & Hp & Hm)]%branch_cases; [done |].
  apply (IH p Hp); [| done]. now destruct (good_parent n p Hn Hp).
Qed.

Lemma coins_first n : parent n = None -> coins_at n = Some ∅.
Proof. destruct n as [p a d]. cbn [parent]. now intros ->. Qed.

Lemma coins_step n p block tx0 rest : parent n = Some p -> block_good n p block tx0 rest ->
  coins_at n = S ← coins_at p; fst <$> apply_txs (height n) (tx0 :: rest) S.
Proof.
  intros Hp Hg. destruct n as [p' a d]. cbn [parent] in Hp. subst p'. cbn [coins_at].
  destruct (coins_at p) as [S |]; [| done]. cbn [mbind option_bind].
  rewrite (bg_stored _ _ _ _ _ Hg). cbn [mbind option_bind]. now rewrite (wf_txs _ _ _ (bg_wf _ _ _ _ _ Hg)).
Qed.

Lemma coins_below n p block tx0 rest S' : parent n = Some p -> block_good n p block tx0 rest -> coins_at n = Some S' ->
  exists S l, coins_at p = Some S /\ apply_txs (height n) (tx0 :: rest) S = Some (S', l).
Proof.
  intros Hp Hg. rewrite (coins_step n p block tx0 rest Hp Hg). destruct (coins_at p) as [S |]; [| discriminate].
  cbn [mbind option_bind]. destruct (apply_txs _ _ _) as [[S1 l] |] eqn:Ha; [| discriminate]. intros [= <-]. eauto.
Qed.

Lemma coins_above n p block tx0 rest S S' l : parent n = Some p -> block_good n p block tx0 rest ->
  coins_at p = Some S -> apply_txs (height n) (tx0 :: rest) S = Some (S', l) -> coins_at n = Some S'.
Proof. intros Hp Hg HS Ha. rewrite (coins_step n p block tx0 rest Hp Hg), HS. cbn [mbind option_bind]. now rewrite Ha. Qed.

(** The coins of a defined branch are defined everywhere on it. *)
Lemma coins_ancestor n m : is_Some (coins_at n) -> m ∈ branch n -> is_Some (coins_at m).
Proof.
  induction n as [n IH] using node_ind. intros Hn [-> | (p & Hp & Hm)]%branch_cases; [done |].
  apply (IH p Hp); [| done]. destruct n as [p' a d]. cbn [parent] in Hp. subst p'. cbn [coins_at] in Hn.
  destruct (coins_at p); [done | now destruct Hn].
Qed.

(** ** Ranges *)

Definition storable (S : coins) : Prop := forall op c, S !! op = Some c -> outpoint_ok op /\ coin_ok c /\ st_Height c <> 0.

Lemma storable_add l : forall S,
  storable S -> Forall (fun q => outpoint_ok (fst q) /\ coin_ok (snd q) /\ st_Height (snd q) <> 0) l -> storable (add_coins l S).
Proof.
  induction l as [| q l IH]; intros S HS Hl; [done |]. apply Forall_cons in Hl as [Hq Hl]. rewrite add_coins_cons.
  apply IH; [| done]. intros op c. rewrite lookup_insert_Some. intros [[<- <-] | [_ Hc]]; [exact Hq | exact (HS op c Hc)].
Qed.

Lemma storable_del ops S : storable S -> storable (del_coins ops S).
Proof. intros HS op c. rewrite lookup_del_coins. destruct (decide _); [discriminate | apply HS]. Qed.

Lemma made_storable tx h : h <> 0 -> Forall (fun q => coin_ok (snd q)) (made tx h) ->
  Forall (fun q => outpoint_ok (fst q) /\ coin_ok (snd q) /\ st_Height (snd q) <> 0) (made tx h).
Proof.
  intros Hh Hm. rewrite Forall_forall in Hm |- *. intros q Hq. split_and!; [| auto | now rewrite (made_heights tx h q Hq)].
  pose proof (outs_ok tx) as Ho. rewrite Forall_forall in Ho. apply Ho. rewrite <- (made_outs tx h).
  apply list_elem_of_fmap. eauto.
Qed.

Lemma apply_txs_storable h txs : forall S S' l,
  h <> 0 -> Forall (fun tx => Forall (fun q => coin_ok (snd q)) (made tx h)) txs -> storable S ->
  apply_txs h txs S = Some (S', l) -> storable S' /\ Forall coin_ok l.
Proof.
  induction txs as [| tx txs IH]; intros S S' l Hh Hm HS Ha; cbn [apply_txs] in Ha; [injection Ha as <- <-; now split |].
  apply Forall_cons in Hm as [Hm Hms]. pose proof (made_storable tx h Hh Hm) as Hadd.
  destruct (apply_tx h tx S) as [[S1 l1] |] eqn:H1t; [| discriminate]. cbn in Ha.
  destruct (apply_txs h txs S1) as [[S2 l2] |] eqn:H2t; [| discriminate]. injection Ha as <- <-.
  assert (HS1 : storable S1 /\ Forall coin_ok l1).
  { unfold apply_tx in H1t. destruct (IsCoinBaseTx tx); [injection H1t as <- <-; split; [now apply storable_add | done] |].
    destruct (decide _); [| discriminate]. destruct (lookups S (inputs tx)) as [sp |] eqn:Hl; [| discriminate].
    injection H1t as <- <-. split; [apply storable_add; [now apply storable_del | done] |].
    apply lookups_Some in Hl. apply Forall_forall. intros c Hc. apply list_elem_of_lookup in Hc as [i Hi].
    destruct (Forall2_lookup_r _ _ _ _ _ Hl Hi) as (op & _ & Hop). now apply (HS op c). }
  destruct HS1 as [HS1 Hl1]. destruct (IH S1 S2 l2 Hh Hms HS1 H2t) as [HS2 Hl2]. split; [done | now apply Forall_app].
Qed.

Section Range.
Context (T : gmap bytes blockNode) (HT : block_tree T).

Lemma coins_storable n : in_tree T n -> good_branch n -> forall S, coins_at n = Some S -> storable S.
Proof.
  induction n as [n IH] using node_ind. intros Hn Hg S HS. destruct (parent n) as [p |] eqn:Hp.
  - destruct (good_parent n p Hg Hp) as [(block & tx0 & rest & Hb) Hgp].
    destruct (coins_below n p block tx0 rest S Hp Hb HS) as (Sp & l & HSp & Ha).
    destruct (child_height T HT n p Hn Hp) as [Hh _].
    refine (proj1 (apply_txs_storable (height n) _ Sp S l ltac:(lia) (bg_made _ _ _ _ _ Hb) _ Ha)).
    exact (IH p eq_refl (in_tree_parent T HT n p Hn Hp) Hgp Sp HSp).
  - rewrite coins_first in HS by done. injection HS as <-. intros op c Hc. rewrite lookup_empty in Hc. discriminate.
Qed.

Lemma storable_heights S : storable S -> heights_ok S.
Proof. intros HS op c Hc. apply (HS op c Hc). Qed.
End Range.
End Coins.

(** * Views that are written *)

Lemma LookupEntry_commit v op e' : LookupEntry (commit v) op = Some e' ->
  exists e, LookupEntry v op = Some e /\ IsSpent e' = IsSpent e /\ stxo_of e' = stxo_of e.
Proof.
  unfold LookupEntry, commit. cbn [entries]. rewrite lookup_omap. destruct (entries v !! op) as [[e |] |]; cbn; try discriminate.
  destruct (isModified e && IsSpent e); [discriminate |]. cbn. intros [= <-]. exists e. split; [done |].
  assert (Hbit : forall k, k <> 2 -> 0 <= k -> Z.testbit (Z.lxor (packedFlags e) tfModified) k = Z.testbit (packedFlags e) k).
  { intros k Hk H0k. rewrite Z.lxor_spec. change tfModified with (2 ^ 2). rewrite Z.pow2_bits_false by done. apply xorb_false_r. }
  rewrite !IsSpent_bit. cbn [set_packedFlags packedFlags]. rewrite Hbit by lia. split; [done |].
  unfold stxo_of. rewrite !IsCoinBase_bit. cbn [set_packedFlags packedFlags amount pkScript blockHeight]. now rewrite Hbit by lia.
Qed.

(** After it is written a view is right about the set that it stood for. *)
Lemma commit_over v S S' : over v S -> effective v S = S' -> over (commit v) S' /\ effective (commit v) S' = S'.
Proof.
  intros Hv <-. assert (Hsays : forall op e, LookupEntry (commit v) op = Some e -> effective v S !! op = entry_says (Some e)).
  { intros op e' He. destruct (LookupEntry_commit v op e' He) as (e & Hl & Hs & Hc). rewrite lookup_effective, Hl.
    cbn [entry_says]. now rewrite Hs, Hc. }
  split.
  - constructor.
    + intros op. unfold commit. cbn [entries]. rewrite lookup_omap. destruct (entries v !! op) as [[e |] |]; cbn; try discriminate.
      destruct (_ && _); discriminate.
    + intros op e He _. exact (Hsays op e He).
    + intros op [e He]. apply (over_keys v S Hv). unfold commit in He. cbn [entries] in He. rewrite lookup_omap in He.
      destruct (entries v !! op); [eauto | discriminate].
  - apply map_eq. intros op. rewrite lookup_effective. destruct (LookupEntry (commit v) op) as [e |] eqn:He; [| done].
    symmetry. exact (Hsays op e He).
Qed.

(** * The invariant *)

Section Inv.
Context `{PubKeysLaws} `{CryptoLaws} `{MapOrder} {B D : Type} `{BucketLaws B} `{BlockFiles D}.
Context (net : Network) (env : Env B) (T : gmap bytes blockNode) (files : D).

#[local] Abbreviation BC := (BlockChain B D).
#[local] Abbreviation CH := (M BC ChainError).
#[local] Abbreviation coins_at := (coins_at files).
#[local] Abbreviation stored_block := (stored_block files).
#[local] Abbreviation block_good := (block_good files).
#[local] Abbreviation good_branch := (good_branch files).

(** The cache stands for a set, over a database that holds the coins after a node
    of the branch and says so. *)
Definition cache_at (c : utxoCache B) (t : blockNode) (S : coins) : Prop :=
  exists f S0, f ∈ branch t /\ coins_at f = Some S0 /\ cache_ok c S0 /\ ledger c S0 = S /\ consistency c = Some (hash_of f).

(** The journal of every block of the branch lists the coins that it spends. *)
Definition journal_ok (s : B) (t : blockNode) : Prop :=
  forall n p block tx0 rest S S' l,
    n ∈ branch t -> parent n = Some p -> block_good n p block tx0 rest -> coins_at p = Some S ->
    apply_txs (height n) (tx0 :: rest) S = Some (S', l) -> dbFetchSpendJournalEntry s block = Ok l.

(** A block that is known to be valid is applicable. *)
Definition valid_ok (bi : blockIndex B) : Prop :=
  forall n, in_tree T n -> KnownValid (NodeStatus n bi) = true -> is_Some (coins_at n).

(** What does not concern the cache. *)
Record chain_at (b : BC) (t : blockNode) : Prop := {
  ca_nodes : index_nodes (ch_index b) = T;
  ca_path : is_path T (bestChain b) t;
  ca_files : blockFiles (ch_db b) = files;
  ca_journal : journal_ok (spendBucket (ch_db b)) t;
  ca_snapshot : is_Some (stateSnapshot b);
  ca_votes : caches_ok (net_votes net) T (ch_thresholds b);
  ca_valid : valid_ok (ch_index b);
}.

(** The chain with its tip and the coins after it. *)
Definition chain_ok (b : BC) (t : blockNode) (S : coins) : Prop :=
  chain_at b t /\ coins_at t = Some S /\ cache_at (ch_utxoCache b) t S.

(** What is assumed of the network, of the tree of blocks and of the orders in
    which Go ranges over maps. *)
Record world : Prop := {
  w_tree : timed_tree T;
  w_votes : votes_ok (net_votes net);
  w_heights n : in_tree T n -> height n < 2 ^ 31 - 1;
  w_no_pruning : pruneTarget net = 0;
  w_cache_order c : an_order (cache_order env c) c;
  w_view_order v : view_order env v ≡ₚ map_to_list (entries v);
}.
Context (HW : world).

#[local] Abbreviation HB := (timed_block_tree T (w_tree HW)).

Lemma parent_in_range n : in_tree T n ->
  match parent n with Some p => in_tree T p /\ height p < 2 ^ 31 - 1 | None => True end.
Proof.
  intros Hn. destruct (parent n) as [p |] eqn:Hp; [| done]. pose proof (in_tree_parent T HB n p Hn Hp) as Hpt.
  split; [done | now apply (w_heights HW)].
Qed.

(** ** Single statements *)

Lemma theTip_run b t : chain_at b t -> theTip b = (Ok t, b).
Proof. intros Hc. unfold theTip. rewrite bind_eq. cbn [get lift]. now rewrite (tip_path T HB _ t (ca_path b t Hc)). Qed.

Lemma median_run (n : blockNode) (b : BC) : exists m, median_time (Some n) b = (Ok m, b).
Proof.
  unfold Chain.median_time, lift. destruct (median_time_spec n) as [Hm _]. rewrite Hm. cbn [of_viewed]. eauto.
Qed.

Lemma snapshot_run n block total (b : BC) : exists s, snapshot_of n block total b = (Ok s, b) /\ bst_Hash s = hash_of n.
Proof.
  unfold snapshot_of. destruct (median_run n b) as [m Hm]. rewrite bind_eq, Hm. eexists. split; [reflexivity | done].
Qed.

Lemma warn_run n (b : BC) t : chain_at b t -> in_tree T n ->
  exists caches, warn_current net env n b = (Ok tt, with_checks caches (ch_scripts b) b) /\ caches_ok (net_votes net) T caches.
Proof.
  intros Hc Hn. assert (Hid : with_checks (ch_thresholds b) (ch_scripts b) b = b) by now destruct b.
  unfold warn_current. rewrite bind_eq. cbn [get]. rewrite (tip_path T HB _ t (ca_path b t Hc)).
  destruct (isCurrent net env b); [| exists (ch_thresholds b); rewrite Hid; split; [done | apply Hc]].
  unfold on_caches, part. rewrite (ca_nodes b t Hc). unfold warnUnknownRuleActivations.
  destruct (warn_bits_spec T (w_tree HW) (net_votes net) (w_votes HW) n (seq 0 vbNumBits)
    (unknownRulesWarned (ch_thresholds b)) (ch_thresholds b) (parent_in_range n Hn))
    as (s' & Hrun & Hs' & _).
  - apply Forall_forall. intros bit Hin%elem_of_seq. lia.
  - split; [apply Hc | reflexivity].
  - rewrite Hrun. exists s'. done.
Qed.

(** The index is written; its nodes and their status stay. *)
Definition index_same (bi bi' : blockIndex B) : Prop := index_nodes bi' = index_nodes bi /\ statuses bi' = statuses bi.

Lemma flushToDB_same bi : index_same bi (flushToDB bi).
Proof. done. Qed.

Lemma valid_same bi bi' : index_same bi bi' -> valid_ok bi -> valid_ok bi'.
Proof. intros [_ Hs] Hv n Hn. unfold NodeStatus. rewrite Hs. exact (Hv n Hn). Qed.

Lemma db_Update_Ok {A} (m : CH A) b a b' : m b = (Ok a, b') -> db_Update m b = (Ok a, b').
Proof. intros Hm. unfold db_Update. now rewrite Hm. Qed.

Lemma cache_at_child c n p S : parent n = Some p -> cache_at c p S -> cache_at c n S.
Proof. intros Hp (f & S0 & Hf & Hr). exists f, S0. split; [eapply branch_parent; eauto | exact Hr]. Qed.

(** A flush, in any mode, at the node whose coins the cache stands for. *)
Lemma flush_at mode state (b : BC) n S :
  cache_at (ch_utxoCache b) n S -> coins_at n = Some S -> bst_Hash state = hash_of n ->
  exists c, flushCache env mode state b = (Ok tt, with_cache c b) /\ cache_at c n S.
Proof.
  intros (f & S0 & Hf & HS0 & Hc & Hl & Hst) HS Hh. unfold flushCache. rewrite bind_eq. cbn [get]. unfold on_utxoCache, part.
  destruct (flush_spec (ch_utxoCache b) S0 (cache_order env (ch_utxoCache b)) mode (bst_Hash state) (now env) Hc (w_cache_order HW _))
    as (c & Hrun & Hres). rewrite Hrun. exists c. split; [reflexivity |].
  destruct Hres as [-> | (Hc' & Hm & Hs)]; [now exists f, S0 |]. rewrite Hl in Hc'.
  exists n, S. split_and!; [apply branch_self | done | done | now apply ledger_empty | now rewrite Hs, Hh].
Qed.

(** A flush that is required writes everything. *)
Lemma flush_required state (b : BC) S0 : cache_ok (ch_utxoCache b) S0 ->
  exists c, flushCache env FlushRequired state b = (Ok tt, with_cache c b) /\
    cache_ok c (ledger (ch_utxoCache b) S0) /\ cache_map c = ∅ /\ consistency c = Some (bst_Hash state).
Proof.
  intros Hc. unfold flushCache. rewrite bind_eq. cbn [get]. unfold on_utxoCache, part, flush. rewrite bind_eq. cbn [get flush_threshold].
  destruct (sum_sizes_ok 0 (maxEntries (cachedEntries (ch_utxoCache b)))) as [n Hn].
  rewrite bind_eq. unfold lift, totalMemoryUsage, size_. rewrite Hn. cbn [obind].
  pose proof (wrapU_range 64 (uint64 n + totalEntryMemory (ch_utxoCache b)) ltac:(lia)).
  replace (uint64 (uint64 n + totalEntryMemory (ch_utxoCache b)) >=? 0) with true by lia.
  destruct (writeCache_spec (ch_utxoCache b) S0 (cache_order env (ch_utxoCache b)) (bst_Hash state) (now env) Hc (w_cache_order HW _))
    as (c & Hw & Hc' & Hm & Hst & _). rewrite Hw. exists c. done.
Qed.

(** ** Connecting a block *)

Section Block.
Context (n p : blockNode) (block : MsgBlock) (tx0 : MsgTx) (rest : list MsgTx) (S S' : coins) (l : list SpentTxOut).
Context (Hn : in_tree T n) (Hp : parent n = Some p) (Hg : block_good n p block tx0 rest) (Hbranch : good_branch n).
Context (HS : coins_at p = Some S) (Ha : apply_txs (height n) (tx0 :: rest) S = Some (S', l)).

#[local] Abbreviation Hwf := (bg_wf _ _ _ _ _ _ Hg).

Lemma block_coins : coins_at n = Some S'.
Proof. exact (coins_above files n p block tx0 rest S S' l Hp Hg HS Ha). Qed.

Lemma block_storable : storable S /\ storable S' /\ Forall coin_ok l /\ zlen l = countSpentOutputs block.
Proof.
  destruct (good_parent files n p Hbranch Hp) as [_ Hbp]. destruct (child_height T HB n p Hn Hp) as [Hh _].
  pose proof (coins_storable files T HB p (in_tree_parent T HB n p Hn Hp) Hbp S HS) as HSt.
  destruct (apply_txs_storable (height n) _ S S' l ltac:(lia) (bg_made _ _ _ _ _ _ Hg) HSt Ha) as [HSt' Hl].
  split_and!; try done. unfold countSpentOutputs. rewrite (wf_txs _ _ _ Hwf). cbn [tail apply_txs] in *.
  destruct (apply_tx (height n) tx0 S) as [[S1 l1] |] eqn:H1t; [| discriminate]. cbn in Ha.
  destruct (apply_txs (height n) rest S1) as [[S2 l2] |] eqn:H2t; [| discriminate]. injection Ha as <- <-.
  assert (l1 = []) as -> by (unfold apply_tx in H1t; rewrite (wf_coinbase _ _ _ Hwf) in H1t; now injection H1t as _ <-).
  exact (apply_txs_length _ _ _ _ _ (wf_rest _ _ _ Hwf) H2t).
Qed.

(** The block on the cache. *)
Lemma connect_cache_run (b : BC) : cache_at (ch_utxoCache b) p S ->
  exists c, connect_cache block (height n) b = (Ok l, with_cache c b) /\ cache_at c p S'.
Proof.
  intros (f & S0 & Hf & HS0 & Hc & Hl & Hst).
  destruct (cache_connect_spec S0 (height n) (tx0 :: rest) (ch_utxoCache b) (Some []) S' l Hc) as (c & Hrun & Hs & Hc' & Hl').
  - pose proof (bg_made _ _ _ _ _ _ Hg) as Hm. rewrite Forall_forall in Hm |- *. intros tx Htx. specialize (Hm tx Htx).
    rewrite Forall_forall in Hm |- *. intros q Hq. split_and!; [| auto |].
    + pose proof (outs_ok tx) as Ho. rewrite Forall_forall in Ho. apply Ho. rewrite <- (made_outs tx (height n)).
      apply list_elem_of_fmap. eauto.
    + apply eq_None_not_Some. intros Hsome. apply (bg_fresh _ _ _ _ _ _ Hg f S0 (fst q) Hf HS0 Hsome).
      rewrite (made_hash tx (height n) (fst q)) by (apply list_elem_of_fmap; eauto). apply list_elem_of_fmap. eauto.
  - now rewrite Hl.
  - exists c. unfold connect_cache, cache_connectTransactions. rewrite (wf_txs _ _ _ Hwf), Hrun. split; [reflexivity |].
    exists f, S0. split_and!; try done. rewrite <- Hst. apply Hs.
Qed.

(** The journal of the branch grows by the block. *)
Lemma journal_connect s s' :
  journal_ok s p -> dbFetchSpendJournalEntry s' block = Ok l ->
  (forall block', BlockHash (Header block') <> BlockHash (Header block) ->
     dbFetchSpendJournalEntry s' block' = dbFetchSpendJournalEntry s block') -> journal_ok s' n.
Proof.
  intros Hj Hf Ho m q block' tx' rest' Sq Sm l' Hm Hq Hg' HSq Hap.
  destruct (branch_cases n m Hm) as [-> | (p' & Hp' & Hm')].
  - assert (q = p) as -> by congruence. assert (Heq : block' = block)
      by (pose proof (bg_stored _ _ _ _ _ _ Hg); pose proof (bg_stored _ _ _ _ _ _ Hg'); congruence). subst block'.
    assert (tx' :: rest' = tx0 :: rest) as Htx by (rewrite <- (wf_txs _ _ _ (bg_wf _ _ _ _ _ _ Hg')); apply Hwf).
    rewrite Htx in Hap. congruence.
  - assert (p' = p) as -> by congruence. rewrite Ho; [eapply Hj; eauto |].
    rewrite (bg_hash _ _ _ _ _ _ Hg'), (bg_hash _ _ _ _ _ _ Hg). now apply (branch_fresh T HB n p m).
Qed.

(** What connecting a block changes besides the coins. *)
Record moved (b b' : BC) (note : Notification) : Prop := {
  mv_index : index_same (ch_index b) (ch_index b');
  mv_note : notifications b' = notifications b ++ [note];
}.

Lemma connectBlock_run (b : BC) : chain_at b p -> cache_at (ch_utxoCache b) p S' ->
  exists b', connectBlock net env n block l b = (Ok tt, b') /\ chain_ok b' n S' /\ moved b b' (NTBlockConnected (hash_of n)).
Proof.
  intros Hc Hcache. pose proof block_coins as HS'. destruct block_storable as (_ & _ & Hl & Hlen).
  unfold connectBlock. rewrite bind_eq, (theTip_run b p Hc). cbn beta iota.
  rewrite bind_eq. unfold guard. rewrite (bool_decide_eq_true_2 _ (bg_prev _ _ _ _ _ _ Hg)). cbn [negb]. 
  unfold ret at 1. cbn beta iota. rewrite bind_eq, (wf_txs _ _ _ Hwf). unfold ret at 1. cbn beta iota.
  rewrite bind_eq, Hlen, Z.eqb_refl. cbn [negb]. unfold ret at 1. cbn beta iota.
  destruct (warn_run n b p Hc Hn) as (caches & Hwarn & Hcaches). rewrite bind_eq, Hwarn. cbn beta iota.
  set (b1 := with_checks caches (ch_scripts b) b). rewrite bind_eq. unfold flushIndex, on_index, modify at 1. cbn beta iota.
  set (b2 := with_index (flushToDB (ch_index b1)) b1).
  destruct (ca_snapshot b p Hc) as [snap Hsnap]. rewrite bind_eq. unfold curTotalTxns. rewrite bind_eq. cbn [get].
  change (stateSnapshot b2) with (stateSnapshot b). rewrite Hsnap. unfold lift at 1. cbn beta iota.
  destruct (snapshot_run n block (uint64 (TotalTxns snap + uint64 (zlen (tx0 :: rest)))) b2) as (state & Hstate & Hhash).
  rewrite bind_eq, Hstate. cbn beta iota.
  destruct (journal_stored (spendBucket (ch_db b)) block tx0 rest l (wf_txs _ _ _ Hwf) Hl Hlen) as (s' & Hput & Hfetch & Hother).
  set (d := mkChainDB s' (dbPutBlockIndex (BlockHash (Header block)) (height n) (chainIndex (ch_db b)))
    (bestState (dbPutBestState state (n_workSum (data n)) (ch_db b))) (blockFiles (ch_db b))).
  assert (Hupd : db_Update (prune net env state;; on_db (fun d => Ok (dbPutBestState state (n_workSum (data n)) d));;
    on_db (fun d => Ok (put_index block (height n) d));; on_db (put_stxos block l)) b2 = (Ok tt, with_chain_db d b2)).
  { apply db_Update_Ok. unfold prune. rewrite (w_no_pruning HW). cbn [Z.eqb]. rewrite bind_eq. unfold ret at 1. cbn beta iota.
    unfold on_db, put_stxos, put_index, dbPutBestState.
    repeat (rewrite bind_eq; cbn [get lift of_store relabel put with_chain_db ch_db spendBucket]).
    change (spendBucket (ch_db b2)) with (spendBucket (ch_db b)). rewrite Hput. cbn [obind relabel]. reflexivity. }
  rewrite bind_eq, Hupd. cbn beta iota. set (b3 := with_chain_db d b2).
  destruct (setTip_spec T HB (bestChain b) n (or_intror (ex_intro _ p (ca_path b p Hc))) Hn (w_heights HW n Hn)) as (nodes & Hset & Hpath).
  rewrite bind_eq. unfold setBest. rewrite bind_eq. cbn [get]. change (bestChain b3) with (bestChain b). rewrite Hset.
  rewrite bind_eq. cbn [lift of_viewed put]. rewrite bind_eq. cbn [modify]. rewrite bind_eq. unfold sendNotification. cbn [modify].
  set (b4 := notified _ _).
  destruct (flush_at FlushIfNeeded state b4 n S') as (c & Hflush & Hc'); [exact (cache_at_child _ n p S' Hp Hcache) | done | done |].
  rewrite (db_Update_Ok _ _ _ _ Hflush). exists (with_cache c b4). split; [reflexivity |]. split.
  - split; [| split; [done | exact Hc']]. constructor; cbn.
    + apply Hc.
    + exact Hpath.
    + apply Hc.
    + exact (journal_connect _ s' (ca_journal b p Hc) Hfetch Hother).
    + eauto.
    + exact Hcaches.
    + exact (ca_valid b p Hc).
  - constructor; [done |]. cbn. now rewrite (bg_hash _ _ _ _ _ _ Hg).
Qed.

(** ** Disconnecting a block *)

(** A view that stands for the coins before the block is written. *)
Lemma put_view_run v c (b : BC) :
  over v S' -> effective v S' = S -> cache_ok c S' -> cache_map c = ∅ ->
  exists c', put_view env v (with_cache c b) = (Ok tt, with_cache c' b) /\ cache_ok c' S /\ cache_map c' = ∅ /\
    consistency c' = consistency c.
Proof.
  intros Hv He Hc Hm. destruct block_storable as (HSt & _ & _ & _).
  destruct (put_view_holds (view_order env v) (utxoBucket c) S' (db_holds c S' Hc)) as (db & Hput & Hdb).
  { rewrite (w_view_order HW). apply Forall_forall. intros [op e] Hin%elem_of_map_to_list. split; [apply (over_keys v S' Hv); eauto |].
    cbn [snd]. intros e' -> _ Hs. apply (HSt op). rewrite <- He, lookup_effective.
    unfold LookupEntry. rewrite Hin. cbn. now rewrite Hs. }
  rewrite (put_entries_effective _ v S' (w_view_order HW v) (over_unmodified v S' Hv)), He in Hdb.
  exists (with_db db (consistency c) c). split_and!; try done.
  - unfold put_view, on_utxoCache, part. cbn [with_cache ch_utxoCache]. rewrite bind_eq. cbn [get]. rewrite bind_eq.
    unfold lift. rewrite Hput. reflexivity.
  - constructor; [exact Hdb | apply Hc |]. change (cache_map (with_db db (consistency c) c)) with (cache_map c).
    rewrite Hm. apply map_Forall_empty.
Qed.

Lemma journal_disconnect s : journal_ok s n -> journal_ok (dbRemoveSpendJournalEntry (BlockHash (Header block)) s) p.
Proof.
  intros Hj m q block' tx' rest' Sq Sm l' Hm Hq Hg' HSq Hap. rewrite journal_other.
  - eapply Hj; eauto using branch_parent.
  - rewrite (bg_hash _ _ _ _ _ _ Hg'), (bg_hash _ _ _ _ _ _ Hg). now apply (branch_fresh T HB n p m).
Qed.

Lemma fetch_stored m blk (b : BC) : blockFiles (ch_db b) = files -> stored_block m = Some blk -> dbFetchBlockByNode (Some m) b = Ok blk.
Proof.
  unfold stored_block, dbFetchBlockByNode, FetchBlock_. intros ->. destruct (FetchBlock files (hash_of m)) as [raw |]; [| done].
  cbn [obind]. destruct (NewBlockFromBytes raw) as [k | |]; [| done | done]. now intros [= ->].
Qed.

Lemma disconnectBlock_run v (b : BC) : chain_ok b n S' -> over v S' -> effective v S' = S ->
  exists b', disconnectBlock env n block v b = (Ok (commit v), b') /\ chain_ok b' p S /\
    moved b b' (NTBlockDisconnected (hash_of n)).
Proof.
  intros (Hc & _ & f & S0 & _ & _ & Hcache & Hled & _) Hv He. destruct (good_parent files n p Hbranch Hp) as [_ Hbp].
  destruct (good_stored files p Hbp) as [blk Hblk].
  unfold disconnectBlock. rewrite bind_eq, (theTip_run b n Hc). cbn beta iota.
  rewrite bind_eq. unfold guard. rewrite bool_decide_eq_true_2 by done. cbn [negb]. unfold ret at 1. cbn beta iota.
  rewrite bind_eq. unfold fetch_block. rewrite bind_eq. cbn [get]. rewrite Hp, (fetch_stored p blk b (ca_files b n Hc) Hblk).
  unfold lift at 1. cbn beta iota. rewrite bind_eq. unfold flushIndex, on_index, modify at 1. cbn beta iota.
  set (b1 := with_index (flushToDB (ch_index b)) b).
  destruct (ca_snapshot b n Hc) as [snap Hsnap]. rewrite bind_eq. unfold curTotalTxns. rewrite bind_eq. cbn [get].
  change (stateSnapshot b1) with (stateSnapshot b). rewrite Hsnap. unfold lift at 1. cbn beta iota.
  rewrite bind_eq. unfold lift at 1. cbn beta iota.
  destruct (snapshot_run p blk (uint64 (TotalTxns snap - uint64 (zlen (Transactions block)))) b1) as (state & Hstate & Hhash).
  rewrite bind_eq, Hstate. cbn beta iota.
  set (d2 := remove_index block (height n) (dbPutBestState state (n_workSum (data n)) (ch_db b))).
  set (b3 := with_chain_db d2 (with_chain_db (dbPutBestState state (n_workSum (data n)) (ch_db b)) b1)).
  destruct (flush_required state b3 S0 Hcache) as (c1 & Hflush & Hc1 & Hm1 & Hst1).
  change (ch_utxoCache b3) with (ch_utxoCache b) in Hc1. rewrite Hled in Hc1.
  destruct (put_view_run v c1 b3 Hv He Hc1 Hm1) as (c2 & Hput & Hc2 & Hm2 & Hst2).
  pose proof (ca_journal b n Hc n p block tx0 rest S S' l (branch_self n) Hp Hg HS Ha) as Hj.
  set (b4 := with_chain_db (remove_stxos block d2) (with_cache c2 b3)).
  assert (Hupd : db_Update (on_db (fun d => Ok (dbPutBestState state (n_workSum (data n)) d));;
    on_db (fun d => Ok (remove_index block (height n) d));; flushCache env FlushRequired state;; put_view env v;;
    b <- get;; lift (of_store (dbFetchSpendJournalEntry (spendBucket (ch_db b)) block));;
    on_db (fun d => Ok (remove_stxos block d))) b1 = (Ok tt, b4)).
  { apply db_Update_Ok. assert (Hdb : forall g (x : BC), on_db (fun d => Ok (g d)) x = (Ok tt, with_chain_db (g (ch_db x)) x)) by done.
    rewrite bind_eq, Hdb, bind_eq, Hdb. cbn beta iota. rewrite bind_eq. fold d2. change (with_chain_db _ _) with b3 at 1.
    rewrite Hflush, bind_eq, Hput, bind_eq. cbn [get]. rewrite bind_eq. unfold lift.
    change (spendBucket (ch_db (with_cache c2 b3))) with (spendBucket (ch_db b)). rewrite Hj. reflexivity. }
  rewrite bind_eq, Hupd. cbn beta iota.
  assert (Hpt : in_tree T p) by exact (in_tree_parent T HB n p Hn Hp).
  destruct (setTip_spec T HB (bestChain b) p (or_intror (ex_intro _ n (ca_path b n Hc))) Hpt (w_heights HW p Hpt)) as (nodes & Hset & Hpath).
  rewrite bind_eq. unfold setBest. rewrite bind_eq. cbn [get]. change (bestChain b4) with (bestChain b). rewrite Hset.
  rewrite bind_eq. cbn [lift of_viewed put]. rewrite bind_eq. cbn [modify]. rewrite bind_eq. unfold sendNotification. cbn [modify].
  eexists. split; [reflexivity |]. split.
  - split; [| split; [done |]].
    + constructor; cbn; [apply Hc | exact Hpath | apply Hc | exact (journal_disconnect _ (ca_journal b n Hc)) | eauto | apply Hc | exact (ca_valid b n Hc)].
    + exists p, S. split_and!; [apply branch_self | done | exact Hc2 | now apply ledger_empty |].
      cbn. now rewrite Hst2, Hst1, Hhash.
  - constructor; [done |]. cbn. now rewrite (bg_hash _ _ _ _ _ _ Hg).
Qed.
End Block.
End Inv.
