(* ===== verification/ChainSpec.v ===== *)
(** Reorganizations and the best chain: a block that extends the chain or gives
    another branch more work either moves the tip, with the coins after it, or
    leaves the tip and the coins as they were.

    A reorganization is checked on a view before anything is changed: the blocks of
    the old branch are disconnected from the view and those of the new one are
    connected to it.  The lemmas follow these loops, and then the loops that write. *)

From stdpp Require Import gmap fin_maps.
From S2P Require Import Prelude Slices ScriptError Opcodes Tokenizer Vlq Compress WireCommon MsgTx MsgBlock Script Crypto SigHash SigCache EngineState SigCheck OpcodeExec Engine EngineInv BtcUtil Merkle WorkMath BlockIndex Difficulty TxRules Validate UtxoView Supply Bucket Chainio SizeHelper UtxoCache ChainView Threshold ScriptVal Connect ConnectSpec Votes ReorgView Chain ChainInv.
#[local] Open Scope Z_scope.

(** * Paths between nodes *)

(** From a node down to an ancestor that is not part of the path. *)
Fixpoint down (t : blockNode) (l : list blockNode) (f : blockNode) : Prop :=
  match l with
  | [] => t = f
  | n :: l' => n = t /\ exists p, parent t = Some p /\ down p l' f
  end.

(** From an ancestor that is not part of the path up to a node. *)
Fixpoint up (f : blockNode) (l : list blockNode) (n : blockNode) : Prop :=
  match l with
  | [] => f = n
  | a :: l' => parent a = Some f /\ up a l' n
  end.

Lemma down_branch l : forall t f, down t l f -> f ∈ branch t.
Proof.
  induction l as [| n l IH]; intros t f; cbn [down]; [intros ->; apply branch_self |].
  intros [-> (p & Hp & Hd)]. eapply branch_parent; eauto.
Qed.

Lemma up_branch l : forall f n, up f l n -> f ∈ branch n.
Proof.
  induction l as [| a l IH]; intros f n; cbn [up]; [intros ->; apply branch_self |]. intros [Hp Hu]. specialize (IH a n Hu).
  clear Hu. revert IH. induction n as [n IHn] using node_ind. intros [-> | (q & Hq & Ha)]%branch_cases.
  - exact (branch_parent n f f Hp (branch_self f)).
  - exact (branch_parent n q f Hq (IHn q Hq Ha)).
Qed.

Section Nodes.
Context (T : gmap bytes blockNode) (HT : block_tree T).

Lemma is_node_eq f n : in_tree T f -> in_tree T n -> is_node (Some f) n = true <-> f = n.
Proof. apply (same_node_eq T). Qed.

Lemma same_or_not n m : in_tree T n -> in_tree T m -> n = m \/ n <> m.
Proof.
  intros Hn Hm. destruct (is_node (Some n) m) eqn:Hsame; [left; now apply is_node_eq |]. right. intros ->.
  now rewrite (proj2 (is_node_eq m m Hn Hm) eq_refl) in Hsame.
Qed.

Lemma detach_from_down f t : in_tree T f -> in_tree T t -> f ∈ branch t -> down t (detach_from t (Some f)) f.
Proof.
  intros Hf. induction t as [t IH] using node_ind. intros Ht Hft. assert (Heq : detach_from t (Some f) =
    if is_node (Some f) t then [] else t :: match parent t with Some p' => detach_from p' (Some f) | None => [] end) by now destruct t.
  rewrite Heq. destruct (is_node (Some f) t) eqn:Hn; [apply is_node_eq in Hn; done |].
  destruct (branch_cases t f Hft) as [-> | (p & Hp & Hfp)].
  { rewrite (proj2 (is_node_eq t t Ht Ht) eq_refl) in Hn. discriminate. }
  rewrite Hp. cbn [down]. split; [done |]. exists p. split; [done |]. apply IH; [done | | done]. exact (in_tree_parent T HT t p Ht Hp).
Qed.

(** The nodes that are collected, unless one is known to be invalid. *)
Lemma attach_from_up {B} (bi : blockIndex B) f n : in_tree T f -> in_tree T n -> f ∈ branch n -> forall acc m, up n acc m ->
  match attach_from bi n (Some f) acc with
  | (false, l) => up f l m /\ (forall a, a ∈ branch n -> a ∉ branch f -> KnownInvalid (NodeStatus a bi) = false)
  | (true, l) => exists a, a ∈ branch n /\ a <> f /\ KnownInvalid (NodeStatus a bi) = true /\ Forall (fun x => x ∈ branch m) l
  end.
Proof.
  intros Hf. revert n. induction n as [n IH] using node_ind. intros Hn Hfn acc m Hacc.
  assert (Heq : attach_from bi n (Some f) acc =
    if is_node (Some f) n then (false, acc) else if KnownInvalid (NodeStatus n bi) then (true, acc)
    else match parent n with Some p' => attach_from bi p' (Some f) (n :: acc) | None => (false, n :: acc) end) by now destruct n.
  rewrite Heq. destruct (is_node (Some f) n) eqn:Hsame.
  { apply is_node_eq in Hsame as ->; [now split | done | done]. }
  destruct (branch_cases n f Hfn) as [-> | (p & Hp & Hfp)].
  { rewrite (proj2 (is_node_eq n n Hn Hn) eq_refl) in Hsame. discriminate. }
  assert (Hne : n <> f) by (intros ->; rewrite (proj2 (is_node_eq f f Hn Hn) eq_refl) in Hsame; discriminate).
  assert (Hsub : forall l x, up x l m -> Forall (fun y => y ∈ branch m) l).
  { clear. induction l as [| a l IHl]; intros x; cbn [up]; [constructor |]. intros [_ Hu]. constructor; [exact (up_branch l a m Hu) | eauto]. }
  destruct (KnownInvalid (NodeStatus n bi)) eqn:Hinv.
  { exists n. split_and!; [apply branch_self | done | done | eauto]. }
  rewrite Hp. specialize (IH p Hp (in_tree_parent T HT n p Hn Hp) Hfp (n :: acc) m (conj Hp Hacc)).
  destruct (attach_from bi p (Some f) (n :: acc)) as [[|] l].
  - destruct IH as (a & Ha & Hne' & Hi & Hl). exists a. split_and!; try done. eapply branch_parent; eauto.
  - destruct IH as [Hup Hall]. split; [exact Hup |]. intros a [-> | (q & Hq & Ha)]%branch_cases Hnew; [done |].
    assert (q = p) as -> by congruence. auto.
Qed.
End Nodes.

Section Above.
Context (T : gmap bytes blockNode) (HT : block_tree T).

Lemma branch_at n a : in_tree T n -> a ∈ branch n -> at_height n (height a) = Some a.
Proof.
  induction n as [n IH] using node_ind. intros Hn Ha. destruct (branch_cases n a Ha) as [-> | (p & Hp & Hap)]; [apply at_height_self |].
  pose proof (in_tree_parent T HT n p Hn Hp) as Hpt. destruct (branch_tree T HT p a Hpt Hap) as [Hat Hle].
  destruct (child_height T HT n p Hn Hp) as [_ Hh]. destruct (node_ok_height a (in_tree_ok T HT a Hat)).
  rewrite (at_height_parent T HT n p) by (done || lia). now apply (IH p Hp).
Qed.

(** The nodes of a path upwards are above its start. *)
Lemma up_above l : forall f n, in_tree T n -> up f l n -> forall a, a ∈ l -> a ∈ branch n /\ height f < height a.
Proof.
  induction l as [| x l IH]; intros f n Hn; cbn [up]; [intros _ a Ha; now apply elem_of_nil in Ha |].
  intros [Hp Hu] a Ha. pose proof (up_branch l x n Hu) as Hxn. destruct (branch_tree T HT n x Hn Hxn) as [Hx _].
  destruct (child_height T HT x f Hx Hp) as [_ Hh]. apply elem_of_cons in Ha as [-> | Ha]; [split; [done | lia] |].
  destruct (IH x n Hn Hu a Ha). split; [done | lia].
Qed.
End Above.

(** * Status flags *)

Lemma KnownValid_bit st : KnownValid st = Z.testbit st 1.
Proof.
  unfold KnownValid. destruct (Z.eqb_spec (Z.land st statusValid) 0) as [Hz | Hz]; cbn [negb].
  - apply (f_equal (fun z => Z.testbit z 1)) in Hz. rewrite Z.land_spec in Hz. cbn in Hz. now rewrite andb_true_r in Hz.
  - symmetry. apply not_false_is_true. intros Hb. apply Hz. apply Z.bits_inj'. intros i Hi.
    rewrite Z.land_spec, Z.bits_0. change statusValid with (2 ^ 1). rewrite Z.pow2_bits_eqb by lia.
    destruct (Z.eqb_spec 1 i) as [<- |]; [now rewrite Hb | apply andb_false_r].
Qed.

Section Status.
Context `{CryptoLaws} {B D : Type} `{BlockFiles D} (T : gmap bytes blockNode) (HT : block_tree T) (files : D).

#[local] Abbreviation coins_at := (coins_at files).
#[local] Abbreviation valid_ok := (valid_ok T files).

Lemma set_flags_valid (bi : blockIndex B) n flags :
  valid_ok bi -> in_tree T n -> (KnownValid flags = true -> is_Some (coins_at n)) -> valid_ok (SetStatusFlags n flags bi).
Proof.
  intros Hv Hn Hf m Hm. unfold NodeStatus, SetStatusFlags, set_status. cbn [statuses mark_dirty].
  destruct (decide (hash_of n = hash_of m)) as [Heq | Hne].
  - assert (n = m) as -> by (unfold in_tree in *; congruence). rewrite lookup_insert_eq. cbn [default from_option].
    unfold id. rewrite KnownValid_bit, Z.lor_spec, <- !KnownValid_bit. intros [Hk | Hk]%orb_true_iff; [exact (Hv m Hm Hk) | auto].
  - rewrite lookup_insert_ne by done. exact (Hv m Hm).
Qed.

(** Flags that are set on some nodes. *)
Definition marked (flags : Z) (nodes : list blockNode) (bi : blockIndex B) : blockIndex B :=
  foldl (fun bi n => SetStatusFlags n flags bi) bi nodes.

Lemma marked_nodes flags nodes : forall bi, index_nodes (marked flags nodes bi) = index_nodes bi.
Proof. induction nodes as [| n nodes IH]; intros bi; [done |]. unfold marked. cbn [foldl]. exact (IH (SetStatusFlags n flags bi)). Qed.

Lemma marked_valid flags nodes : forall bi,
  valid_ok bi -> Forall (in_tree T) nodes -> (KnownValid flags = true -> Forall (fun n => is_Some (coins_at n)) nodes) ->
  valid_ok (marked flags nodes bi).
Proof.
  induction nodes as [| n nodes IH]; intros bi Hv Hn Hf; [done |]. apply Forall_cons in Hn as [Hn Hns]. unfold marked. cbn [foldl].
  apply (IH (SetStatusFlags n flags bi)); [| done | intros Hk; now destruct (proj1 (Forall_cons _ _ _) (Hf Hk))].
  apply set_flags_valid; [done | done |]. intros Hk. now destruct (proj1 (Forall_cons _ _ _) (Hf Hk)).
Qed.
End Status.

(** * Verification *)

Section Spec.
Context `{PubKeysLaws} `{CryptoLaws} `{MapOrder} {B D : Type} `{BucketLaws B} `{BlockFiles D}.
Context (net : Network) (env : Env B) (T : gmap bytes blockNode) (files : D) (HW : world net env T).

#[local] Abbreviation BC := (BlockChain B D).
#[local] Abbreviation CH := (M BC ChainError).
#[local] Abbreviation coins_at := (coins_at files).
#[local] Abbreviation stored_block := (stored_block files).
#[local] Abbreviation block_good := (block_good files).
#[local] Abbreviation good_branch := (good_branch files).
#[local] Abbreviation chain_ok := (chain_ok net T files).
#[local] Abbreviation HB := (timed_block_tree T (w_tree net env T HW)).

(** Marking keeps the chain. *)
Lemma mark_all_run flags nodes (b : BC) t S :
  chain_ok b t S -> Forall (in_tree T) nodes -> (KnownValid flags = true -> Forall (fun n => is_Some (coins_at n)) nodes) ->
  exists b', mark_all flags nodes b = (Ok tt, b') /\ chain_ok b' t S /\ notifications b' = notifications b.
Proof.
  intros (Hc & HS & Hcache) Hn Hf. exists (with_index (marked flags nodes (ch_index b)) b). split; [reflexivity |].
  split; [| done]. split; [| split; [done | exact Hcache]].
  constructor; cbn; try apply Hc; [rewrite marked_nodes; apply Hc |].
  apply marked_valid; [apply Hc | done | done].
Qed.

Lemma flushIndex_run (b : BC) t S : chain_ok b t S ->
  exists b', flushIndex b = (Ok tt, b') /\ chain_ok b' t S /\ notifications b' = notifications b /\
    statuses (ch_index b') = statuses (ch_index b).
Proof.
  intros (Hc & HS & Hcache). eexists. split; [reflexivity |]. split; [| done]. split; [| split; [done | exact Hcache]].
  constructor; cbn; apply Hc.
Qed.

(** ** The nodes to detach and to attach *)

(** No block of a branch that is not in another one is known to be invalid. *)
Definition none_invalid (bi : blockIndex B) (t node : blockNode) : Prop :=
  forall a, a ∈ branch node -> a ∉ branch t -> KnownInvalid (NodeStatus a bi) = false.

Lemma getReorganizeNodes_run (b : BC) t S node p :
  chain_ok b t S -> in_tree T node -> parent node = Some p ->
  exists r b', getReorganizeNodes node b = (Ok r, b') /\ chain_ok b' t S /\ notifications b' = notifications b /\
    ((r = ([], []) /\ exists a, a ∈ branch node /\ KnownInvalid (NodeStatus a (ch_index b)) = true) \/
     (b' = b /\ none_invalid (ch_index b) t node /\
      exists f, down t (fst r) f /\ up f (snd r) node /\ Forall (fun a => a ∉ branch t) (snd r))).
Proof.
  intros Hok Hn Hp. pose proof Hok as (Hc & _ & _). pose proof (ca_path _ _ _ b t Hc) as Hpath.
  pose proof (path_tip T _ t Hpath) as Ht. pose proof (in_tree_parent T HB node p Hn Hp) as Hpt.
  unfold getReorganizeNodes. rewrite bind_eq. cbn [get]. rewrite bind_eq, Hp. unfold lift at 1. cbn beta iota.
  destruct (KnownInvalid (NodeStatus p (ch_index b))) eqn:Hinv.
  { destruct (mark_all_run statusInvalidAncestor [node] b t S Hok) as (b' & Hrun & Hok' & Hnote); [now constructor | done |].
    exists ([], []), b'. rewrite bind_eq, Hrun. split_and!; try done. left. split; [done |]. exists p.
    split; [eapply branch_parent; [exact Hp | apply branch_self] | done]. }
  destruct (findFork_spec T HB (bestChain b) t node Hpath (w_heights net env T HW t Ht) Hn) as (f & -> & Hcom & Hat & Hmax).
  assert (Hft : in_tree T f /\ f ∈ branch t /\ f ∈ branch node).
  { destruct Hcom as (Hh & Hhn & Heq). rewrite Heq in Hat. pose proof (back_branch _ _ _ Hat) as Hfn. rewrite <- Heq in Hat.
    pose proof (back_branch _ _ _ Hat) as Hft. split_and!; [| done | done]. now apply (branch_tree T HB t f Ht). }
  destruct Hft as (Hf & Hfb & Hfn). rewrite (tip_path T HB _ t Hpath).
  pose proof (attach_from_up T HB (ch_index b) f node Hf Hn Hfn [] node eq_refl) as Hatt.
  destruct (attach_from (ch_index b) node (Some f) []) as [[|] l].
  - destruct Hatt as (a & Ha & _ & Hi & Hl).
    destruct (mark_all_run statusInvalidAncestor l b t S Hok) as (b' & Hrun & Hok' & Hnote); [| done |].
    { eapply Forall_impl; [exact Hl |]. intros x Hx. now apply (branch_tree T HB node x Hn). }
    exists ([], []), b'. rewrite bind_eq, Hrun. split_and!; try done. left. eauto.
  - eexists _, b. split; [reflexivity |]. destruct Hatt as [Hatt Hall]. split_and!; try done. right. split; [done |].
    split; [intros a Ha Hnew; apply Hall; [done |]; contradict Hnew; exact (branch_trans t f a Hfb Hnew) |].
    exists f. split_and!; [| exact Hatt |].
    + apply (detach_from_down T HB); done.
    + apply Forall_forall. intros a Ha Hat'. cbn [snd] in Ha. destruct (up_above T HB l f node Hn Hatt a Ha) as [Han Hlt].
      destruct (branch_tree T HB t a Ht Hat') as [Hat2 Hle]. destruct (branch_tree T HB node a Hn Han) as [_ Hle2].
      destruct (node_ok_height a (in_tree_ok T HB a Hat2)). specialize (Hmax (height a)).
      assert (height a <= height f); [| lia]. apply Hmax. split_and!; [lia | done | done |].
      rewrite (branch_at T HB t a Ht Hat'), (branch_at T HB node a Hn Han). reflexivity.
Qed.

(** ** Detaching from the view *)

Lemma load_inputs_run (b : BC) t S block tx0 rest h v :
  chain_ok b t S -> well_formed block tx0 rest -> over v S ->
  exists v' b', load_inputs block h v b = (Ok v', b') /\ chain_ok b' t S /\ notifications b' = notifications b /\
    ch_index b' = ch_index b /\ over v' S /\ agree_but ((tx0 :: rest) ≫= outs) (effective v' S) (effective v S) /\
    (forall i tx op, rest !! i = Some tx -> op ∈ inputs tx -> ready v' S op \/
       exists j tx', (tx0 :: rest) !! j = Some tx' /\ Hash op = TxHash tx' /\ op ∉ outs tx').
Proof.
  intros (Hc & HS & f & S0 & Hf & HS0 & Hcache & <- & Hst) Hwf Hv.
  destruct (load_block (ch_utxoCache b) S0 block tx0 rest h v Hwf Hcache Hv) as (v' & c' & Hrun & Hs & Hc' & Hl & Ho & Ha & Hr).
  exists v', (with_cache c' b). unfold load_inputs, on_utxoCache, part. rewrite Hrun. split_and!; try done.
  split; [now destruct Hc | split; [done |]]. exists f, S0. split_and!; try done. cbn. rewrite <- Hst. apply Hs.
Qed.

(** A block of the branch with the coins that it spends. *)
Definition detached_as (n : blockNode) (r : MsgBlock * list SpentTxOut) : Prop :=
  exists p tx0 rest S S', parent n = Some p /\ block_good n p (fst r) tx0 rest /\ coins_at p = Some S /\
    apply_txs (height n) (tx0 :: rest) S = Some (S', snd r).

(** A node above the first one with its block. *)
Lemma good_node n p Sn : good_branch n -> parent n = Some p -> coins_at n = Some Sn ->
  exists block tx0 rest S l, block_good n p block tx0 rest /\ coins_at p = Some S /\
    apply_txs (height n) (tx0 :: rest) S = Some (Sn, l).
Proof.
  intros Hg Hp HS. destruct (good_parent files n p Hg Hp) as [(block & tx0 & rest & Hb) _].
  destruct (coins_below files n p block tx0 rest Sn Hp Hb HS) as (S & l & HSp & Ha). exists block, tx0, rest, S, l. done.
Qed.

Lemma fetch_run (b : BC) t n block : chain_at net T files b t -> stored_block n = Some block ->
  fetch_block (Some n) b = (Ok block, b).
Proof.
  intros Hc Hb. unfold fetch_block. rewrite bind_eq. cbn [get]. now rewrite (fetch_stored files n block b (ca_files _ _ _ b t Hc) Hb).
Qed.

(** Loading the inputs of a block and disconnecting it from the view. *)
Lemma detach_one (b : BC) t St n p block tx0 rest S S' l v :
  chain_ok b t St -> in_tree T n -> good_branch n -> parent n = Some p -> block_good n p block tx0 rest -> coins_at p = Some S ->
  apply_txs (height n) (tx0 :: rest) S = Some (S', l) -> over v St -> effective v St = S' ->
  exists v1 b' v', load_inputs block (height n) v b = (Ok v1, b') /\ disconnect_view block (height n) l v1 b' = (Ok v', b') /\
    chain_ok b' t St /\ notifications b' = notifications b /\ ch_index b' = ch_index b /\ over v' St /\ effective v' St = S.
Proof.
  intros Hok Hn Hg Hp Hb HS Ha Hv He. destruct (child_height T HB n p Hn Hp) as [Hh _].
  destruct (load_inputs_run b t St block tx0 rest (height n) v Hok (bg_wf _ _ _ _ _ _ Hb) Hv)
    as (v1 & b' & Hload & Hok' & Hnote & Hidx & Ho1 & Ha1 & _). rewrite He in Ha1.
  assert (HSt : storable S).
  { destruct (good_parent files n p Hg Hp) as [_ Hgp]. exact (coins_storable files T HB p (in_tree_parent T HB n p Hn Hp) Hgp S HS). }
  destruct (disconnect_block (db_fetch_by_hash b') block (height n) tx0 rest S S' l v1 St (bg_wf _ _ _ _ _ _ Hb) ltac:(lia)
    (storable_heights S HSt)) as (v' & Hrun & He' & Ho'); [| exact Ha | exact Ho1 | exact Ha1 |].
  { intros op Hop. exact (bg_fresh _ _ _ _ _ _ Hb p S op (branch_self p) HS Hop). }
  exists v1, b', v'. split_and!; try done. unfold disconnect_view. rewrite bind_eq. cbn [get]. unfold lift, of_rule. now rewrite Hrun.
Qed.

Lemma verify_detach_run t St (Ht : in_tree T t) (Hgt : good_branch t) l : forall u f Su v (b : BC),
  u ∈ branch t -> down u l f -> chain_ok b t St -> coins_at u = Some Su -> over v St -> effective v St = Su ->
  exists r b' Sf, verify_detach l v b = (Ok r, b') /\ Forall2 detached_as l (fst r) /\ chain_ok b' t St /\
    notifications b' = notifications b /\ ch_index b' = ch_index b /\
    coins_at f = Some Sf /\ over (snd r) St /\ effective (snd r) St = Sf.
Proof.
  induction l as [| n l IH]; intros u f Su v b Hu Hd Hok HSu Hv He; cbn [down] in Hd.
  { subst u. exists ([], v), b, Su. split_and!; done. }
  destruct Hd as [-> (p & Hp & Hd)]. pose proof (good_ancestor files t u Hgt Hu) as Hgu.
  destruct (branch_tree T HB t u Ht Hu) as [Hut _].
  destruct (good_node u p Su Hgu Hp HSu) as (block & tx0 & rest & S & stxos & Hb & HS & Ha).
  destruct (detach_one b t St u p block tx0 rest S Su stxos v Hok Hut Hgu Hp Hb HS Ha Hv He)
    as (v1 & b1 & v2 & Hload & Hdis & Hok1 & Hnote1 & Hidx1 & Ho2 & He2).
  destruct (IH p f S v2 b1) as (r & b2 & Sf & Hrun & Hr & Hok2 & Hnote2 & Hidx2 & HSf & Hof & Hef); try done.
  { apply (branch_trans t u); [done |]. exact (branch_parent u p p Hp (branch_self p)). }
  exists ((block, stxos) :: fst r, snd r), b2, Sf. split_and!; try done; try congruence.
  - cbn [verify_detach]. rewrite bind_eq, (fetch_run b t u block (proj1 Hok) (bg_stored _ _ _ _ _ _ Hb)). cbn beta iota.
    rewrite bind_eq. unfold guard. rewrite (bool_decide_eq_true_2 (hash_of u = _)) by (symmetry; apply Hb). cbn [negb].
    unfold ret at 1. cbn beta iota. rewrite bind_eq, Hload. cbn beta iota. rewrite bind_eq. cbn [get]. rewrite bind_eq.
    unfold lift at 1. destruct Hok1 as (Hc1 & _ & _).
    rewrite (ca_journal _ _ _ b1 t Hc1 u p block tx0 rest S Su stxos Hu Hp Hb HS Ha). cbn [of_store relabel].
    rewrite bind_eq, Hdis. cbn beta iota. rewrite bind_eq, Hrun. reflexivity.
  - cbn [fst]. constructor; [| exact Hr]. exists p, tx0, rest, S, Su. done.
Qed.

(** ** Attaching to the view *)

(** The check keeps the chain whatever it finds, and a block that passes is
    applicable. *)
Lemma check_connect_run (b : BC) t St n p block tx0 rest S v :
  chain_ok b t St -> in_tree T n -> parent n = Some p -> block_good n p block tx0 rest -> coins_at p = Some S ->
  over v St -> effective v St = S ->
  let '(o, b') := check_connect net env n block v b in
  chain_ok b' t St /\ notifications b' = notifications b /\ ch_index b' = ch_index b /\
  (forall v', o = Ok v' -> over v' St /\ coins_at n = Some (effective v' St)).
Proof.
  intros (Hc & HSt & f & S0 & Hf & HS0 & Hcache & Hl & Hst) Hn Hp Hb HS Hv He. pose proof (bg_wf _ _ _ _ _ _ Hb) as Hwf.
  unfold check_connect, check_connect_at. set (s := mkConnState _ _ _ _ _). pose proof (ca_nodes _ _ _ b t Hc) as Hnodes.
  assert (HT : timed_tree (index_ (consts net b))) by (cbn; rewrite Hnodes; apply HW).
  assert (Hpar : match parent n with Some q => in_tree (index_ (consts net b)) q /\ height q < 2 ^ 31 - 1 | None => True end)
    by (cbn; rewrite Hnodes; exact (parent_in_range net env T HW n Hn)).
  assert (Hs : steady (consts net b) St S0 s s).
  { constructor; cbn; [exact Hcache | exact Hl | apply same_db_refl | rewrite Hnodes; apply Hc]. }
  pose proof (checkConnectBlock_steady (consts net b) HT (w_votes net env T HW) n Hpar block tx0 rest Hwf St S0 s s
    (net_fuel net) (sched env) (height n) Hs Hv) as [Hc' Hl' Hd' Ht'].
  destruct (checkConnectBlock (consts net b) (net_fuel net) (sched env) n block (height n) s) as [o s'] eqn:Hrun.
  cbn [snd] in *. split_and!; [| done | done |].
  - split; [| split; [done |]].
    + constructor; cbn; try apply Hc. cbn in Ht'. now rewrite Hnodes in Ht'.
    + exists f, S0. split_and!; try done. cbn. rewrite <- Hst. apply Hd'.
  - intros v' Ho. destruct o as [[] | |]; try discriminate. cbn in Ho. injection Ho as <-.
    destruct (checkConnectBlock_applies (consts net b) n block tx0 rest Hwf St S0 s s s' (net_fuel net) (sched env) (height n)
      (bg_sane _ _ _ _ _ _ Hb) Hs Hv Hrun) as (Ho' & l & Ha).
    split; [done |]. cbn in Ha. rewrite He in Ha. exact (coins_above files n p block tx0 rest S _ l Hp Hb HS Ha).
Qed.

(** Connecting a block that is known to be valid. *)
Lemma connect_view_run (b : BC) t St n p block tx0 rest S S' l v :
  chain_ok b t St -> block_good n p block tx0 rest -> coins_at p = Some S -> apply_txs (height n) (tx0 :: rest) S = Some (S', l) ->
  over v St -> effective v St = S ->
  exists v1 b' v', load_inputs block (height n) v b = (Ok v1, b') /\ connect_view block (height n) v1 b' = (Ok v', b') /\
    chain_ok b' t St /\ notifications b' = notifications b /\ ch_index b' = ch_index b /\ over v' St /\ effective v' St = S'.
Proof.
  intros Hok Hb HS Ha Hv He. pose proof (bg_wf _ _ _ _ _ _ Hb) as Hwf.
  destruct (load_inputs_run b t St block tx0 rest (height n) v Hok Hwf Hv) as (v1 & b' & Hload & Hok' & Hnote & Hidx & Ho1 & Ha1 & Hr).
  rewrite He in Ha1.
  assert (Hld : loaded ((tx0 :: rest) ≫= spends) v1 St).
  { refine (load_applicable block tx0 rest (height n) S S' l v1 St Hwf _ Ha Hr).
    intros op Hop. exact (bg_fresh _ _ _ _ _ _ Hb p S op (branch_self p) HS Hop). }
  destruct (connect_known block tx0 rest (height n) S S' l v1 None St Hwf Ha Ho1 Ha1 Hld) as (v' & Hrun & He' & Ho').
  exists v1, b', v'. split_and!; try done. unfold connect_view. now rewrite Hrun.
Qed.

(** A branch all of whose new blocks are known to be valid. *)
Definition all_valid (bi : blockIndex B) (l : list blockNode) : Prop :=
  Forall (fun n => KnownValid (NodeStatus n bi) = true) l.

Lemma verify_attach_run t St node (Hnode : in_tree T node) (Hgn : good_branch node) l : forall u Su v (b : BC),
  up u l node -> chain_ok b t St -> coins_at u = Some Su -> over v St -> effective v St = Su ->
  let '(o, b') := verify_attach net env l v b in
  chain_ok b' t St /\ notifications b' = notifications b /\
  match o with
  | Ok blocks => Forall2 (fun n block => stored_block n = Some block) l blocks /\ is_Some (coins_at node)
  | _ => ~ all_valid (ch_index b) l
  end.
Proof.
  induction l as [| n l IH]; intros u Su v b Hu Hok HSu Hv He; cbn [up verify_attach] in *.
  { subst u. cbn. split_and!; [exact Hok | done | constructor | eauto]. }
  destruct Hu as [Hp Hu]. pose proof (up_branch l n node Hu) as Hnb. destruct (branch_tree T HB node n Hnode Hnb) as [Hn _].
  pose proof (good_ancestor files node n Hgn Hnb) as Hg. destruct (good_parent files n u Hg Hp) as [(block & tx0 & rest & Hb) _].
  rewrite bind_eq, (fetch_run b t n block (proj1 Hok) (bg_stored _ _ _ _ _ _ Hb)). cbn beta iota. rewrite bind_eq. cbn [get].
  assert (Hrest : forall v' b1 Sn, chain_ok b1 t St -> notifications b1 = notifications b -> coins_at n = Some Sn ->
    over v' St -> effective v' St = Sn -> (all_valid (ch_index b) (n :: l) -> all_valid (ch_index b1) l) ->
    let '(o, b') := (blocks <- verify_attach net env l v';; ret (block :: blocks)) b1 in
    chain_ok b' t St /\ notifications b' = notifications b /\
    match o with
    | Ok blocks => Forall2 (fun n block => stored_block n = Some block) (n :: l) blocks /\ is_Some (coins_at node)
    | _ => ~ all_valid (ch_index b) (n :: l)
    end).
  { intros v' b1 Sn Hok1 Hnote1 HSn Hv' He' Hval. specialize (IH n Sn v' b1 Hu Hok1 HSn Hv' He'). rewrite bind_eq.
    destruct (verify_attach net env l v' b1) as [[blocks | e |] b2]; destruct IH as (Hok2 & Hnote2 & Hres);
      (split; [exact Hok2 | split; [congruence |]]).
    - destruct Hres as [Hbl HSnode]. split; [| done]. constructor; [apply Hb | exact Hbl].
    - tauto.
    - tauto. }
  rewrite bind_eq. destruct (KnownValid (NodeStatus n (ch_index b))) eqn:Hvalid.
  - destruct (ca_valid _ _ _ b t (proj1 Hok) n Hn Hvalid) as [Sn HSn].
    destruct (coins_below files n u block tx0 rest Sn Hp Hb HSn) as (S & stxos & HS & Ha). assert (S = Su) as -> by congruence.
    destruct (connect_view_run b t St n u block tx0 rest Su Sn stxos v Hok Hb HS Ha Hv He)
      as (v1 & b1 & v2 & Hload & Hconn & Hok1 & Hnote1 & Hidx1 & Ho2 & He2).
    rewrite bind_eq, Hload, Hconn. cbn beta iota. apply (Hrest v2 b1 Sn); try done.
    rewrite Hidx1. intros Hall. now apply Forall_cons in Hall as [_ Hall].
  - assert (Hnot : ~ all_valid (ch_index b) (n :: l)) by (intros Hall; apply Forall_cons in Hall as [Hx _]; congruence).
    pose proof (check_connect_run b t St n u block tx0 rest Su v Hok Hn Hp Hb HSu Hv He) as Hcheck.
    rewrite bind_eq. unfold mark_failed. destruct (check_connect net env n block v b) as [[v' | e |] b1];
      destruct Hcheck as (Hok1 & Hnote1 & _ & Hpass).
    + destruct (Hpass v' eq_refl) as [Ho' HSn].
      destruct (mark_all_run statusValid [n] b1 t St Hok1) as (b2 & Hmark & Hok2 & Hnote2); [now constructor | constructor; eauto |].
      rewrite bind_eq, Hmark. cbn beta iota. apply (Hrest v' b2 (effective v' St)); try done; first [congruence | tauto].
    + destruct (is_RuleError e); [| split_and!; done].
      destruct (mark_all_run statusValidateFailed [n] b1 t St Hok1) as (b2 & Hmark & Hok2 & Hnote2); [now constructor | done |].
      destruct (mark_all_run statusInvalidAncestor l b2 t St Hok2) as (b3 & Hmark3 & Hok3 & Hnote3); [| done |].
      { assert (Hsub : forall k x, up x k node -> Forall (in_tree T) k).
        { induction k as [| a k IHk]; intros x; cbn [up]; [constructor |]. intros [_ Hk]. constructor; [| eauto].
          now destruct (branch_tree T HB node a Hnode (up_branch k a node Hk)). }
        exact (Hsub l n Hu). }
      rewrite bind_eq, Hmark. cbn [snd]. rewrite Hmark3. cbn [snd]. split_and!; [done | congruence | done].
    + split_and!; done.
Qed.

(** ** The whole check *)

Lemma down_last l : forall t f d, down t l f -> last l = Some d -> parent d = Some f.
Proof.
  induction l as [| n l IH]; intros t f d; cbn [down]; [discriminate |]. intros [-> (p & Hp & Hd)].
  destruct l as [| m l]; [intros [= <-]; cbn in Hd; congruence |]. exact (IH p f d Hd).
Qed.

Lemma fresh_view_effective h (S : coins) : effective (SetBestHash h NewUtxoViewpoint) S = S.
Proof. apply map_eq. intros op. rewrite lookup_effective. unfold LookupEntry. cbn. now rewrite lookup_empty. Qed.

Section Reorganization.
Context (t node f : blockNode) (St : coins) (detachNodes attachNodes : list blockNode).
Context (Hnode : in_tree T node) (Hgn : good_branch node) (Hgt : good_branch t).
Context (Hd : down t detachNodes f) (Hu : up f attachNodes node).

Lemma same_fork_run : same_fork detachNodes attachNodes = Ok tt.
Proof.
  unfold same_fork. destruct attachNodes as [| a l]; [done |]. destruct (last detachNodes) as [d |] eqn:Hl; [| done].
  cbn [up] in Hu. destruct Hu as [-> _]. rewrite (down_last detachNodes t f d Hd Hl). now rewrite bool_decide_eq_true_2.
Qed.

Lemma verify_run (b : BC) : chain_ok b t St ->
  let '(o, b') := verifyReorganizationValidity net env detachNodes attachNodes b in
  chain_ok b' t St /\ notifications b' = notifications b /\
  match o with
  | Ok r => Forall2 detached_as detachNodes (fst r) /\ Forall2 (fun n block => stored_block n = Some block) attachNodes (snd r) /\
            is_Some (coins_at node)
  | _ => ~ all_valid (ch_index b) attachNodes
  end.
Proof.
  intros Hok. pose proof Hok as (Hc & HSt & _). pose proof (path_tip T _ t (ca_path _ _ _ b t Hc)) as Ht.
  unfold verifyReorganizationValidity. destruct (_ && _) eqn:Hempty.
  { apply andb_true_iff in Hempty as [->%Z.eqb_eq%zlen_0_nil ->%Z.eqb_eq%zlen_0_nil]. cbn [down up] in Hd, Hu. subst f.
    subst node. cbn. split_and!; [exact Hok | done | constructor | constructor | eauto]. }
  rewrite bind_eq, (theTip_run net env T files HW b t Hc). cbn beta iota.
  assert (Hfirst : (match detachNodes with d :: _ => guard (negb (bool_decide (hash_of d = hash_of t))) chain_assert | [] => ret tt end) b
    = (Ok tt, b)).
  { destruct detachNodes as [| d l]; [done |]. cbn [down] in Hd. destruct Hd as [-> _]. unfold guard. now rewrite bool_decide_eq_true_2. }
  rewrite bind_eq, Hfirst. cbn beta iota. rewrite bind_eq, same_fork_run. unfold lift at 1. cbn beta iota.
  destruct (verify_detach_run t St Ht Hgt detachNodes t f St (SetBestHash (hash_of t) NewUtxoViewpoint) b (branch_self t) Hd Hok HSt
    (over_empty _ _) (fresh_view_effective _ _)) as (r & b1 & Sf & Hrun & Hr & Hok1 & Hnote1 & Hidx1 & HSf & Hof & Hef).
  rewrite bind_eq, Hrun. cbn beta iota. rewrite bind_eq.
  pose proof (verify_attach_run t St node Hnode Hgn attachNodes f Sf (snd r) b1 Hu Hok1 HSf Hof Hef) as Hatt.
  destruct (verify_attach net env attachNodes (snd r) b1) as [[blocks | e |] b2]; destruct Hatt as (Hok2 & Hnote2 & Hres);
    (split; [exact Hok2 | split; [cbn; congruence |]]); [| now rewrite <- Hidx1 | now rewrite <- Hidx1].
  cbn [fst snd]. tauto.
Qed.

(** ** Detaching and attaching *)

Lemma detach_blocks_run l : forall u Su v (b : BC) blocks,
  in_tree T u -> good_branch u -> down u l f -> Forall2 detached_as l blocks -> chain_ok b u Su -> over v Su -> effective v Su = Su ->
  exists b' Sf, detach_blocks env l blocks v b = (Ok tt, b') /\ chain_ok b' f Sf /\
    notifications b' = notifications b ++ ((fun n => NTBlockDisconnected (hash_of n)) <$> l).
Proof.
  induction l as [| n l IH]; intros u Su v b blocks Hut Hgu Hdn Hbl Hok Hv He; cbn [down] in Hdn.
  { subst u. exists b, Su. split_and!; [done | done |]. now rewrite app_nil_r. }
  destruct Hdn as [-> (p & Hp & Hdn)]. apply Forall2_cons_inv_l in Hbl as ([block stxos] & blocks' & Hb & Hbl & ->).
  destruct Hb as (q & tx0 & rest & S & S' & Hq & Hb & HS & Ha). cbn [fst snd] in *. assert (q = p) as -> by congruence.
  assert (S' = Su) as -> by (pose proof (coins_above files u p block tx0 rest S S' stxos Hp Hb HS Ha); destruct Hok as (_ & HSu & _); congruence).
  destruct (detach_one b u Su u p block tx0 rest S Su stxos v Hok Hut Hgu Hp Hb HS Ha Hv He)
    as (v1 & b1 & v2 & Hload & Hdis & Hok1 & Hnote1 & _ & Ho2 & He2).
  destruct (disconnectBlock_run net env T files HW u p block tx0 rest S Su stxos Hut Hp Hb Hgu HS Ha v2 b1 Hok1 Ho2 He2)
    as (b2 & Hrun2 & Hok2 & [_ Hnote2]).
  destruct (commit_over v2 Su S Ho2 He2) as [Ho3 He3]. destruct (good_parent files u p Hgu Hp) as [_ Hgp].
  destruct (IH p S (commit v2) b2 blocks' (in_tree_parent T HB u p Hut Hp) Hgp Hdn Hbl Hok2 Ho3 He3) as (b3 & Sf & Hrun & Hok3 & Hnote3).
  exists b3, Sf. split_and!; [| done |].
  - cbn [detach_blocks]. rewrite bind_eq, Hload. cbn beta iota. rewrite bind_eq, Hdis. cbn beta iota. now rewrite bind_eq, Hrun2.
  - rewrite Hnote3, Hnote2, Hnote1, fmap_cons, <- app_assoc. reflexivity.
Qed.

Lemma attach_blocks_run l : forall u Su (b : BC) blocks,
  up u l node -> is_Some (coins_at node) -> Forall2 (fun n block => stored_block n = Some block) l blocks -> chain_ok b u Su ->
  exists b' Sn, attach_blocks net env l blocks b = (Ok tt, b') /\ chain_ok b' node Sn /\
    notifications b' = notifications b ++ ((fun n => NTBlockConnected (hash_of n)) <$> l).
Proof.
  induction l as [| n l IH]; intros u Su b blocks Hup Hsome Hbl Hok; cbn [up] in Hup.
  { subst u. exists b, Su. split_and!; [done | done |]. now rewrite app_nil_r. }
  destruct Hup as [Hp Hup]. apply Forall2_cons_inv_l in Hbl as (block & blocks' & Hst & Hbl & ->).
  pose proof (up_branch l n node Hup) as Hnb. destruct (branch_tree T HB node n Hnode Hnb) as [Hn _].
  pose proof (good_ancestor files node n Hgn Hnb) as Hg. destruct (good_parent files n u Hg Hp) as [(block' & tx0 & rest & Hb) _].
  assert (block' = block) as -> by (pose proof (bg_stored _ _ _ _ _ _ Hb); congruence).
  destruct (coins_ancestor files node n Hsome Hnb) as [Sn HSn].
  destruct (coins_below files n u block tx0 rest Sn Hp Hb HSn) as (S & stxos & HS & Ha).
  destruct Hok as (Hc & HSu & Hcache). assert (S = Su) as -> by congruence.
  destruct (connect_cache_run files n u block tx0 rest Su Sn stxos Hb Ha b Hcache) as (c & Hcon & Hcache').
  assert (Hc1 : chain_at net T files (with_cache c b) u) by (destruct Hc; now constructor).
  destruct (connectBlock_run net env T files HW n u block tx0 rest Su Sn stxos Hn Hp Hb Hg HS Ha (with_cache c b) Hc1 Hcache')
    as (b2 & Hrun2 & Hok2 & [_ Hnote2]).
  destruct (IH n Sn b2 blocks' Hup Hsome Hbl Hok2) as (b3 & S3 & Hrun & Hok3 & Hnote3). exists b3, S3. split_and!; [| done |].
  - cbn [attach_blocks]. rewrite bind_eq, Hcon. cbn beta iota. now rewrite bind_eq, Hrun2.
  - rewrite Hnote3, Hnote2, fmap_cons, <- app_assoc. reflexivity.
Qed.

(** The whole reorganization. *)
Lemma reorganizeChain_run (b : BC) : chain_ok b t St ->
  let '(o, b') := reorganizeChain net env detachNodes attachNodes b in
  match o with
  | Ok tt => (exists Sn, chain_ok b' node Sn) /\
      notifications b' = notifications b ++ ((fun n => NTBlockDisconnected (hash_of n)) <$> detachNodes)
                           ++ ((fun n => NTBlockConnected (hash_of n)) <$> attachNodes)
  | _ => chain_ok b' t St /\ notifications b' = notifications b /\ ~ all_valid (ch_index b) attachNodes
  end.
Proof.
  intros Hok. pose proof Hok as (Hc & HSt & _). pose proof (path_tip T _ t (ca_path _ _ _ b t Hc)) as Ht.
  unfold reorganizeChain. rewrite bind_eq. pose proof (verify_run b Hok) as Hv.
  destruct (verifyReorganizationValidity net env detachNodes attachNodes b) as [[r | e |] b1];
    destruct Hv as (Hok1 & Hnote1 & Hres); [| now split_and! | now split_and!].
  destruct Hres as (Hbl & Hst & Hsome). rewrite bind_eq, (theTip_run net env T files HW b1 t (proj1 Hok1)). cbn beta iota.
  destruct (detach_blocks_run detachNodes t St (SetBestHash (hash_of t) NewUtxoViewpoint) b1 (fst r) Ht Hgt Hd Hbl Hok1
    (over_empty _ _) (fresh_view_effective _ _)) as (b2 & Sf & Hrun2 & Hok2 & Hnote2).
  destruct (attach_blocks_run attachNodes f Sf b2 (snd r) Hu Hsome Hst Hok2) as (b3 & Sn & Hrun3 & Hok3 & Hnote3).
  rewrite bind_eq, Hrun2. cbn beta iota. rewrite Hrun3. split; [eauto |]. now rewrite Hnote3, Hnote2, Hnote1, <- app_assoc.
Qed.
End Reorganization.

(** ** A block that extends the chain *)

Section Extension.
Context (t node : blockNode) (block : MsgBlock) (tx0 : MsgTx) (rest : list MsgTx) (S : coins).
Context (Hnode : in_tree T node) (Hp : parent node = Some t) (Hg : block_good node t block tx0 rest) (Hgn : good_branch node).

Lemma mark_then_flush flags (b : BC) u Su :
  chain_ok b u Su -> (KnownValid flags = true -> is_Some (coins_at node)) ->
  exists b', (mark_all flags [node];; flushIndex) b = (Ok tt, b') /\ chain_ok b' u Su /\ notifications b' = notifications b.
Proof.
  intros Hok Hf. destruct (mark_all_run flags [node] b u Su Hok) as (b1 & Hm & Hok1 & Hn1); [now constructor | intros Hk; constructor; auto |].
  destruct (flushIndex_run b1 u Su Hok1) as (b2 & Hfl & Hok2 & Hn2 & _). exists b2. rewrite bind_eq, Hm, Hfl.
  split_and!; [done | done | congruence].
Qed.

Lemma check_extension_run (b : BC) : chain_ok b t S ->
  let '(o, b') := check_extension net env node block b in
  chain_ok b' t S /\ notifications b' = notifications b /\ (o = Ok tt -> is_Some (coins_at node)).
Proof.
  intros Hok. pose proof Hok as (_ & HS & _). unfold check_extension.
  pose proof (check_connect_run b t S node t block tx0 rest S (SetBestHash (PrevBlock (Header block)) NewUtxoViewpoint) Hok Hnode Hp Hg
    HS (over_empty _ _) (fresh_view_effective _ _)) as Hrun.
  destruct (check_connect net env node block _ b) as [[v' | e |] b1]; destruct Hrun as (Hok1 & Hn1 & _ & Hpass).
  - destruct (Hpass v' eq_refl) as [_ Hs].
    destruct (mark_then_flush statusValid b1 t S Hok1) as (b2 & -> & Hok2 & Hn2); [eauto |]. split_and!; [done | congruence | eauto].
  - destruct (is_RuleError e); [| now split_and!].
    destruct (mark_then_flush statusValidateFailed b1 t S Hok1) as (b2 & -> & Hok2 & Hn2); [done |].
    cbn [snd]. split_and!; [done | congruence | discriminate].
  - now split_and!.
Qed.

(** The coins of an applicable block are connected and the tip is moved. *)
Lemma extend_run (b : BC) : chain_ok b t S -> is_Some (coins_at node) ->
  exists stxos b1 b' S', connect_cache block (height node) b = (Ok stxos, b1) /\ connect_tip net env node block stxos b1 = (Ok tt, b') /\
    chain_ok b' node S' /\ notifications b' = notifications b ++ [NTBlockConnected (hash_of node)].
Proof.
  intros (Hc & HS & Hcache) [S' HS']. destruct (coins_below files node t block tx0 rest S' Hp Hg HS') as (S1 & l & HS1 & Ha).
  assert (S1 = S) as -> by congruence.
  destruct (connect_cache_run files node t block tx0 rest S S' l Hg Ha b Hcache) as (c & Hcon & Hcache').
  assert (Hc1 : chain_at net T files (with_cache c b) t) by (destruct Hc; now constructor).
  destruct (connectBlock_run net env T files HW node t block tx0 rest S S' l Hnode Hp Hg Hgn HS Ha (with_cache c b) Hc1 Hcache')
    as (b2 & Hrun & Hok2 & [_ Hn2]).
  exists l, (with_cache c b), b2, S'. split_and!; [done | | done | exact Hn2]. unfold connect_tip. now rewrite Hrun.
Qed.
End Extension.

(** ** The best chain *)

(** What is assumed of the block that is given: it is stored, its branch and the one
    of the tip are good, and it is applicable when it is to be added without a
    check. *)
Record offered (t node p : blockNode) (block : MsgBlock) (flags : Z) : Prop := {
  of_node : in_tree T node;
  of_parent : parent node = Some p;
  of_block : stored_block node = Some block;
  of_tip : good_branch t;
  of_branch : good_branch node;
  of_fast : has_flag flags BFFastAdd = true -> is_Some (coins_at node);
}.

Lemma offered_good t node p block flags : offered t node p block flags ->
  exists tx0 rest, block_good node p block tx0 rest.
Proof.
  intros Ho. destruct (good_parent files node p (of_branch _ _ _ _ _ Ho) (of_parent _ _ _ _ _ Ho)) as [(block' & tx0 & rest & Hb) _].
  exists tx0, rest. assert (block' = block) as <-; [| done]. pose proof (bg_stored _ _ _ _ _ _ Hb). pose proof (of_block _ _ _ _ _ Ho). congruence.
Qed.

Lemma offered_cases (b : BC) t S node p block flags : chain_ok b t S -> offered t node p block flags ->
  (p = t /\ node ∉ branch t) \/ p <> t.
Proof.
  intros Hok Ho. destruct (same_or_not T p t) as [-> | Hne]; [| | left | now right].
  - exact (in_tree_parent T HB node p (of_node _ _ _ _ _ Ho) (of_parent _ _ _ _ _ Ho)).
  - exact (path_tip T _ t (ca_path _ _ _ b t (proj1 Hok))).
  - split; [done |]. intros Hin. exact (branch_fresh T HB node t node (of_node _ _ _ _ _ Ho) (of_parent _ _ _ _ _ Ho) Hin eq_refl).
Qed.

Lemma connectBestChain_extends (b : BC) t S node block flags :
  chain_ok b t S -> offered t node t block flags ->
  let '(o, b') := connectBestChain net env node block flags b in
  match o with
  | Ok isMain => isMain = true /\ (exists S', chain_ok b' node S') /\ notifications b' = notifications b ++ [NTBlockConnected (hash_of node)]
  | _ => chain_ok b' t S /\ notifications b' = notifications b /\ KnownValid (NodeStatus node (ch_index b)) = false /\
         has_flag flags BFFastAdd = false
  end.
Proof.
  intros Hok Ho. destruct (offered_good _ _ _ _ _ Ho) as (tx0 & rest & Hg). destruct Ho as [Hnode Hp Hst Hgt Hgn Hfast].
  unfold connectBestChain. rewrite bind_eq, (theTip_run net env T files HW b t (proj1 Hok)). cbn beta iota. rewrite bind_eq. cbn [get].
  rewrite (bool_decide_eq_true_2 _ (bg_prev _ _ _ _ _ _ Hg)). set (fast := has_flag flags BFFastAdd || _). rewrite bind_eq.
  assert (Htail : forall b1, chain_ok b1 t S -> notifications b1 = notifications b -> is_Some (coins_at node) ->
    let '(o, b') := (stxos <- connect_cache block (height node);; connect_tip net env node block stxos;; b <- get;;
      (if fast || negb (KnownValid (NodeStatus node (ch_index b))) then mark_all statusValid [node];; flushIndex else ret tt);;
      ret true) b1 in
    exists S', o = Ok true /\ chain_ok b' node S' /\ notifications b' = notifications b ++ [NTBlockConnected (hash_of node)]).
  { intros b1 Hok1 Hn1 Hs. destruct (extend_run t node block tx0 rest S Hnode Hp Hg Hgn b1 Hok1 Hs)
      as (stxos & b2 & b3 & S' & Hcon & Htip & Hok3 & Hn3).
    rewrite bind_eq, Hcon. cbn beta iota. rewrite bind_eq, Htip. cbn beta iota. rewrite bind_eq. cbn [get].
    destruct (fast || _).
    - destruct (mark_then_flush node Hnode statusValid b3 node S' Hok3) as (b4 & Hrun & Hok4 & Hn4); [done |].
      rewrite bind_eq, Hrun. exists S'. split_and!; [done | done | congruence].
    - exists S'. split_and!; [done | done | congruence]. }
  destruct fast eqn:Hfastb.
  - assert (Hs : is_Some (coins_at node)).
    { apply orb_true_iff in Hfastb as [Hf | Hv]; [auto |]. exact (ca_valid _ _ _ b t (proj1 Hok) node Hnode Hv). }
    cbn [ret]. specialize (Htail b Hok eq_refl Hs). destruct (bind _ _ b) as [o b']. destruct Htail as (S' & -> & Hok' & Hn'). eauto.
  - apply orb_false_iff in Hfastb as [Hnofast Hnovalid].
    pose proof (check_extension_run t node block tx0 rest S Hnode Hp Hg b Hok) as Hrun.
    destruct (check_extension net env node block b) as [[[] | e |] b1]; destruct Hrun as (Hok1 & Hn1 & Hpass);
      [| now split_and! | now split_and!].
    specialize (Htail b1 Hok1 Hn1 (Hpass eq_refl)). destruct (bind _ _ b1) as [o b']. destruct Htail as (S' & -> & Hok' & Hn'). eauto.
Qed.

Lemma not_all_valid (bi : blockIndex B) l t node : in_tree T node -> forall f, up f l node -> Forall (fun a => a ∉ branch t) l ->
  ~ all_valid bi l -> exists a, a ∈ branch node /\ (a ∉ branch t) /\ KnownValid (NodeStatus a bi) = false.
Proof.
  intros Hn f Hu Hnew Hbad. unfold all_valid in Hbad. apply not_Forall_Exists in Hbad; [| intros x; apply _].
  apply Exists_exists in Hbad as (a & Ha & Hv). rewrite Forall_forall in Hnew. exists a.
  split_and!; [exact (proj1 (up_above T HB l f node Hn Hu a Ha)) | auto | now apply not_true_is_false].
Qed.

Lemma connectBestChain_side (b : BC) t S node p block flags :
  chain_ok b t S -> offered t node p block flags -> p <> t ->
  let '(o, b') := connectBestChain net env node block flags b in
  match o with
  | Ok false => b' = b /\ n_workSum (data node) <= n_workSum (data t)
  | Ok true => n_workSum (data t) < n_workSum (data node) /\
      ((none_invalid (ch_index b) t node /\ exists S', chain_ok b' node S') \/
       (chain_ok b' t S /\ notifications b' = notifications b /\
        exists a, a ∈ branch node /\ KnownInvalid (NodeStatus a (ch_index b)) = true))
  | _ => chain_ok b' t S /\ notifications b' = notifications b /\ none_invalid (ch_index b) t node /\
      exists a, a ∈ branch node /\ (a ∉ branch t) /\ KnownValid (NodeStatus a (ch_index b)) = false
  end.
Proof.
  intros Hok Ho Hne. destruct (offered_good _ _ _ _ _ Ho) as (tx0 & rest & Hg). destruct Ho as [Hnode Hp Hst Hgt Hgn Hfast].
  pose proof (path_tip T _ t (ca_path _ _ _ b t (proj1 Hok))) as Ht. pose proof (in_tree_parent T HB node p Hnode Hp) as Hpt.
  unfold connectBestChain. rewrite bind_eq, (theTip_run net env T files HW b t (proj1 Hok)). cbn beta iota. rewrite bind_eq. cbn [get].
  rewrite (bg_prev _ _ _ _ _ _ Hg), bool_decide_eq_false_2 by (intros Heq; apply Hne; unfold in_tree in *; congruence).
  destruct (Z.leb_spec (n_workSum (data node)) (n_workSum (data t))) as [Hle | Hgt'].
  { destruct (findFork_spec T HB (bestChain b) t node (ca_path _ _ _ b t (proj1 Hok)) (w_heights net env T HW t Ht) Hnode) as (f & -> & _).
    cbn. done. }
  destruct (getReorganizeNodes_run b t S node p Hok Hnode Hp) as (r & b1 & Hrun & Hok1 & Hn1 & Hr).
  rewrite bind_eq, Hrun. cbn beta iota. rewrite bind_eq. unfold flush_after.
  destruct Hr as [[-> Hinv] | (-> & Hnone & f & Hd & Hu & Hnew)].
  - cbn [fst snd]. pose proof (reorganizeChain_run t t t S [] [] Ht Hgt Hgt eq_refl eq_refl b1 Hok1) as Hre.
    destruct (reorganizeChain net env [] [] b1) as [[[] | e |] b2] eqn:Hre'; [| destruct Hre as (_ & _ & Hx); destruct Hx; constructor ..].
    destruct Hre as [[S' Hok2] Hn2]. destruct (flushIndex_run b2 t S') as (b3 & -> & Hok3 & Hn3 & _); [exact Hok2 |]. cbn [snd ret].
    assert (S' = S) as -> by (destruct Hok2 as (_ & Hx & _), Hok as (_ & Hy & _); congruence).
    split; [done |]. right. split_and!; [done | | done]. rewrite Hn3, Hn2, Hn1. cbn. now rewrite app_nil_r.
  - pose proof (reorganizeChain_run t node f S (fst r) (snd r) Hnode Hgn Hgt Hd Hu b Hok) as Hre.
    destruct (reorganizeChain net env (fst r) (snd r) b) as [[[] | e |] b2].
    + destruct Hre as [[S' Hok2] _]. destruct (flushIndex_run b2 node S' Hok2) as (b3 & -> & Hok3 & _). cbn [snd ret]. eauto.
    + destruct Hre as (Hok2 & Hn2 & Hbad). destruct (flushIndex_run b2 t S Hok2) as (b3 & -> & Hok3 & Hn3 & _). cbn [snd].
      split_and!; [done | congruence | done |]. exact (not_all_valid (ch_index b) (snd r) t node Hnode f Hu Hnew Hbad).
    + destruct Hre as (Hok2 & Hn2 & Hbad). split_and!; [done | done | done |].
      exact (not_all_valid (ch_index b) (snd r) t node Hnode f Hu Hnew Hbad).
Qed.
End Spec.
