(* ===== verification/BestChain.v ===== *)
(** What the best chain promises: the properties of [connectBestChain] and
    [reorganizeChain], and a tree of four blocks on which they are applied. *)

From stdpp Require Import gmap fin_maps.
From S2P Require Import Prelude Slices ScriptError Opcodes Tokenizer Vlq Compress WireCommon MsgTx MsgBlock Script Crypto SigHash SigCache EngineState SigCheck OpcodeExec Engine EngineInv BtcUtil Merkle WorkMath BlockIndex Difficulty TxRules Validate UtxoView Supply Bucket Chainio SizeHelper UtxoCache ChainView Threshold ScriptVal Connect ConnectSpec Votes ReorgView Chain ChainInv ChainSpec.
#[local] Open Scope Z_scope.

Section Claims.
Context `{PubKeysLaws} `{CryptoLaws} `{MapOrder} {B D : Type} `{BucketLaws B} `{BlockFiles D}.
Context (net : Network) (env : Env B) (T : gmap bytes blockNode) (files : D).

#[local] Abbreviation chain_ok := (chain_ok net T files).
#[local] Abbreviation offered := (offered T files).


(** C9: a known branch with more work becomes the best chain.  When no ancestor of
    the block is known to be invalid, every block of its branch that is not in the
    best chain is known to be valid, and the block extends the tip or has more
    work than it, [connectBestChain] succeeds whatever the caches hold, and the
    chain is right with the block as its tip. *)
Theorem known_branch_connects (b : BlockChain B D) t S node p block flags :
  world net env T -> chain_ok b t S -> offered t node p block flags ->
  p = t \/ n_workSum (data t) < n_workSum (data node) ->
  (forall a, a ∈ branch node -> KnownInvalid (NodeStatus a (ch_index b)) = false) ->
  (forall a, a ∈ branch node -> a ∉ branch t -> KnownValid (NodeStatus a (ch_index b)) = true) ->
  exists b' S', connectBestChain net env node block flags b = (Ok true, b') /\ chain_ok b' node S'.
Proof.
  intros HW Hok Ho Hwork Hinv Hval. destruct (offered_cases net env T files HW b t S node p block flags Hok Ho) as [[-> Hnew] | Hne].
  - pose proof (connectBestChain_extends net env T files HW b t S node block flags Hok Ho) as Hrun.
    assert (Hv : KnownValid (NodeStatus node (ch_index b)) = true)
      by exact (Hval node (branch_self node) Hnew).
    destruct (connectBestChain net env node block flags b) as [[m | e |] b']; [| destruct Hrun as (_ & _ & Hx & _); congruence ..].
    destruct Hrun as (-> & [S' Hok'] & _). eauto.
  - destruct Hwork as [| Hw]; [done |].
    pose proof (connectBestChain_side net env T files HW b t S node p block flags Hok Ho Hne) as Hrun.
    assert (Hno : ~ exists a, a ∈ branch node /\ (a ∉ branch t) /\ KnownValid (NodeStatus a (ch_index b)) = false).
    { intros (a & Ha & Hnew & Hv). rewrite Hval in Hv by done. discriminate. }
    destruct (connectBestChain net env node block flags b) as [[[|] | e |] b'].
    + destruct Hrun as (_ & [[_ [S' Hok']] | (_ & _ & a & Ha & Hi)]); [eauto |]. rewrite Hinv in Hi by done. discriminate.
    + destruct Hrun as [_ Hle]. lia.
    + now destruct Hrun as (_ & _ & _ & Hx).
    + now destruct Hrun as (_ & _ & _ & Hx).
Qed.

(** C10: a reorganization is done as a whole or not at all, when the two branches are
    good ([good_branch]: sane blocks with their transactions in order, and no
    transaction with the id of a coin that a block below leaves; the code does not
    enforce the order and the ids for every block, and a reorganization over a block
    that is not in order can fail half-way).  The nodes to detach lead
    from the tip down to a node, the ones to attach from there up to another tip.
    When [reorganizeChain] succeeds the chain is right with the other tip, and it
    has announced the blocks that it disconnected, the last one first, and then
    the blocks that it connected.  When it fails, whichever block fails and for
    whatever reason, the chain is right with the old tip and the old coins, and
    nothing was announced; then some block to attach was not known to be valid. *)
Theorem reorganization_atomic (b : BlockChain B D) t S node f detachNodes attachNodes :
  world net env T -> chain_ok b t S -> in_tree T node -> good_branch files t -> good_branch files node ->
  down t detachNodes f -> up f attachNodes node ->
  let '(o, b') := reorganizeChain net env detachNodes attachNodes b in
  match o with
  | Ok tt => (exists S', chain_ok b' node S') /\
      notifications b' = notifications b ++ ((fun n => NTBlockDisconnected (hash_of n)) <$> detachNodes)
                           ++ ((fun n => NTBlockConnected (hash_of n)) <$> attachNodes)
  | _ => chain_ok b' t S /\ notifications b' = notifications b /\
      ~ Forall (fun n => KnownValid (NodeStatus n (ch_index b)) = true) attachNodes
  end.
Proof.
  intros HW Hok Hnode Hgt Hgn Hd Hu.
  exact (reorganizeChain_run net env T files HW t node f S detachNodes attachNodes Hnode Hgn Hgt Hd Hu b Hok).
Qed.

(** C11: a block above an invalid one is reported to be on the main chain.  When a
    block of the branch that is not in the best chain is known to be invalid and
    the new block has more work than the tip, [connectBestChain] answers that the
    block is on the main chain, with no error, and the chain is right with its
    old tip and its old coins; nothing is announced. *)
Theorem invalid_side_chain_reported (b : BlockChain B D) t S node p block flags a :
  world net env T -> chain_ok b t S -> offered t node p block flags -> p <> t ->
  n_workSum (data t) < n_workSum (data node) ->
  a ∈ branch node -> a ∉ branch t -> KnownInvalid (NodeStatus a (ch_index b)) = true ->
  exists b', connectBestChain net env node block flags b = (Ok true, b') /\ chain_ok b' t S /\
    notifications b' = notifications b.
Proof.
  intros HW Hok Ho Hne Hw Ha Hnew Hi.
  pose proof (connectBestChain_side net env T files HW b t S node p block flags Hok Ho Hne) as Hrun.
  assert (Hno : ~ none_invalid (ch_index b) t node) by (intros Hx; rewrite (Hx a Ha Hnew) in Hi; discriminate).
  destruct (connectBestChain net env node block flags b) as [[[|] | e |] b'].
  - destruct Hrun as (_ & [[Hx _] | (Hok' & Hn & _)]); [done | eauto].
  - destruct Hrun as [_ Hle]. lia.
  - now destruct Hrun as (_ & _ & Hx & _).
  - now destruct Hrun as (_ & _ & Hx & _).
Qed.
End Claims.

(** * A tree of four blocks *)

#[local] Existing Instance Compress.toy_keys.
#[local] Existing Instance Compress.toy_keys_laws.

(** A decidable goal that is computed. *)
Ltac decided := apply (bool_decide_eq_true_1 _); vm_compute; reflexivity.

Section Sample.
#[local] Existing Instance toy_crypto.
#[local] Existing Instance toy_laws.
#[local] Existing Instance list_order.

Definition sample_coinbase (version : Z) : MsgTx :=
  mkMsgTx version [mkTxIn (mkOutPoint zeroHash MaxPrevOutIndex) [x01; x07] [] MaxTxInSequenceNum] [mkTxOut 1000 [x51]] 0.

Definition sample_block (version : Z) (prev : bytes) (time : Z) (txs : list MsgTx) : MsgBlock :=
  mkMsgBlock (mkBlockHeader version prev (default zeroHash (merkle_root (leaves false txs))) time 0x1d00ffff 0) txs.

(** Two blocks on the first one, and a block on the second of them that spends the
    coin that it made. *)
Definition block_g : MsgBlock := sample_block 1 zeroHash 1600000000 [sample_coinbase 1].
Definition block_a : MsgBlock := sample_block 2 (BlockHash (Header block_g)) 1600000600 [sample_coinbase 2].
Definition block_b : MsgBlock := sample_block 3 (BlockHash (Header block_g)) 1600001200 [sample_coinbase 3].
Definition spend_b : MsgTx := spend_tx 5 (mkOutPoint (TxHash (sample_coinbase 3)) 0) [900].
Definition block_c : MsgBlock := sample_block 4 (BlockHash (Header block_b)) 1600001800 [sample_coinbase 4; spend_b].

Definition node_g : blockNode := newBlockNode (Header block_g) None.
Definition node_a : blockNode := newBlockNode (Header block_a) (Some node_g).
Definition node_b : blockNode := newBlockNode (Header block_b) (Some node_g).
Definition node_c : blockNode := newBlockNode (Header block_c) (Some node_b).

Definition four_nodes : gmap bytes blockNode :=
  <[hash_of node_c := node_c]> (<[hash_of node_b := node_b]> (<[hash_of node_a := node_a]> {[hash_of node_g := node_g]})).

Definition four_files : gmap bytes bytes :=
  list_to_map [(hash_of node_g, block_Serialize block_g); (hash_of node_a, block_Serialize block_a);
               (hash_of node_b, block_Serialize block_b); (hash_of node_c, block_Serialize block_c)].

Definition sample_net : Network := mkNetwork MainNetParams MainNetVotes (hash_of node_g) [] 0 50.

Definition sample_env : Env (gmap bytes bytes) :=
  mkEnv 0 1600000000 (fun c => concat (map_to_list <$> maps (cachedEntries c))) (fun v => map_to_list (entries v)) (fun l => l).

(** The chain with the first block only, and a status for every other block. *)
Definition first_chain (status_a status_b status_c : Z) : BlockChain (gmap bytes bytes) (gmap bytes bytes) :=
  mkChain
    (mkBlockIndex four_nodes
       (list_to_map [(hash_of node_a, status_a); (hash_of node_b, status_b); (hash_of node_c, status_c)]) ∅ ∅)
    [Some node_g] (newUtxoCache ∅ (Some (hash_of node_g)) 1000000)
    (mkChainDB ∅ (mkIndex ∅ ∅) None four_files) (Some (newBestState node_g 0 0 1 1 0))
    (mkCaches (newThresholdCaches 5) (newThresholdCaches vbNumBits) false) (None, None) [].

(** Then the second block is connected. *)
Definition second_chain (status_b status_c : Z) := snd (connectBestChain sample_net sample_env node_a block_a 0 (first_chain 3 status_b status_c)).

(** Every node has a good branch. *)
Lemma in_order_apart txs : Forall (fun op => Hash op ∉ TxHash <$> txs) (txs ≫= spends) -> in_order txs.
Proof.
  intros Ha i tx op j tx' Hi Hop Hj Heq. exfalso. rewrite Forall_forall in Ha. apply (Ha op).
  - apply list_elem_of_bind. exists tx. split; [done |]. exact (list_elem_of_lookup_2 _ _ _ Hi).
  - rewrite Heq. apply list_elem_of_fmap. exists tx'. split; [done |]. exact (list_elem_of_lookup_2 _ _ _ Hj).
Qed.

Definition fresh_at (ids : list bytes) (m : blockNode) : bool :=
  match coins_at four_files m with
  | Some coins => forallb (fun q => negb (bool_decide (Hash (fst q) ∈ ids))) (map_to_list coins)
  | None => true
  end.

Lemma fresh_branch ids p : forallb (fresh_at ids) (branch p) = true ->
  forall m coins op, m ∈ branch p -> coins_at four_files m = Some coins -> is_Some (coins !! op) -> Hash op ∉ ids.
Proof.
  intros Hf m coins op Hm Hc [c Hop] Hin. rewrite forallb_forall in Hf. specialize (Hf m (proj1 (list_elem_of_In _ _) Hm)).
  unfold fresh_at in Hf. rewrite Hc, forallb_forall in Hf.
  specialize (Hf (op, c)). cbn [fst] in Hf. rewrite bool_decide_eq_true_2 in Hf by done.
  assert (negb true = true); [apply Hf | discriminate]. apply list_elem_of_In. now apply elem_of_map_to_list.
Qed.

Definition coin_fits (q : OutPoint * SpentTxOut) : bool :=
  (0 <=? Amount (snd q)) && (Amount (snd q) <=? 2 ^ 60) && (zlen (st_PkScript (snd q)) <? 2 ^ 62) &&
  (0 <=? st_Height (snd q)) && (st_Height (snd q) <? 2 ^ 31).

Definition op_fits (op : OutPoint) : bool := (zlen (Hash op) =? 32) && (0 <=? Index op) && (Index op <? 2 ^ 32).

Lemma coins_fit h txs : forallb (fun tx => forallb coin_fits (made tx h)) txs = true ->
  Forall (fun tx => Forall (fun q => coin_ok (snd q)) (made tx h)) txs.
Proof.
  intros Hf. apply Forall_forall. intros tx Htx%list_elem_of_In. apply Forall_forall. intros q Hq%list_elem_of_In.
  rewrite forallb_forall in Hf. specialize (Hf tx Htx). rewrite forallb_forall in Hf. specialize (Hf q Hq).
  unfold coin_fits in Hf. constructor; [lia | unfold len_ok; lia | lia].
Qed.

Lemma ops_fit ops : forallb op_fits ops = true -> Forall outpoint_ok ops.
Proof.
  intros Hf. apply Forall_forall. intros op Hop%list_elem_of_In. rewrite forallb_forall in Hf. specialize (Hf op Hop).
  unfold op_fits in Hf. unfold outpoint_ok. lia.
Qed.

Lemma txs_sane txs : forallb (fun tx => match CheckTransactionSanity tx with Ok tt => true | _ => false end) txs = true ->
  Forall tx_sane txs.
Proof.
  intros Hf. apply Forall_forall. intros tx Htx%list_elem_of_In. rewrite forallb_forall in Hf. specialize (Hf tx Htx).
  apply tx_sanity_Ok. now destruct (CheckTransactionSanity tx) as [[] | |].
Qed.

Ltac good_block :=
  constructor; [vm_compute; reflexivity | constructor | vm_compute; reflexivity ..| | |];
  [reflexivity | vm_compute; reflexivity | repeat constructor | decided | apply in_order_apart; decided
  | apply ops_fit; vm_compute; reflexivity | apply txs_sane; vm_compute; reflexivity
  | apply coins_fit; vm_compute; reflexivity | apply fresh_branch; vm_compute; reflexivity].

Lemma block_a_good : block_good four_files node_a node_g block_a (sample_coinbase 2) [].
Proof. good_block. Qed.

Lemma block_b_good : block_good four_files node_b node_g block_b (sample_coinbase 3) [].
Proof. good_block. Qed.

Lemma block_c_good : block_good four_files node_c node_b block_c (sample_coinbase 4) [spend_b].
Proof. good_block. Qed.

Lemma four_cases n : in_tree four_nodes n -> n ∈ [node_g; node_a; node_b; node_c].
Proof.
  unfold in_tree, four_nodes. repeat (intros [[_ <-] | [_ Hn]]%lookup_insert_Some; [repeat constructor |]; revert Hn).
  intros [_ <-]%lookup_singleton_Some. constructor.
Qed.

Lemma four_in : Forall (in_tree four_nodes) [node_g; node_a; node_b; node_c].
Proof. repeat constructor; vm_compute; reflexivity. Qed.

Lemma four_good : good_branch four_files node_a /\ good_branch four_files node_c.
Proof.
  assert (Hg : good_branch four_files node_g) by (split; [decided | done]).
  assert (Hb : good_branch four_files node_b) by (split; [decided | split; [eauto using block_b_good | exact Hg]]).
  split; (split; [decided | split; eauto using block_a_good, block_c_good]).
Qed.

Lemma four_tree : timed_tree four_nodes.
Proof.
  assert (Hg : node_ok node_g) by (now constructor).
  assert (Ha : node_ok node_a) by (apply newBlockNode_ok; [done | reflexivity]).
  assert (Hb : node_ok node_b) by (apply newBlockNode_ok; [done | reflexivity]).
  assert (Hc : node_ok node_c) by (apply newBlockNode_ok; [done | reflexivity]).
  constructor.
  - unfold four_nodes. apply (block_tree_child _ node_c node_b); try done; [| vm_compute; reflexivity ..].
    apply (block_tree_child _ node_b node_g); try done; [| vm_compute; reflexivity ..].
    apply (block_tree_child _ node_a node_g); try done; [| vm_compute; reflexivity ..].
    now apply block_tree_first.
  - intros n p Hn%four_cases Hp. repeat (apply elem_of_cons in Hn as [-> | Hn]; [first [discriminate | injection Hp as <-; vm_compute; reflexivity] |]).
    now apply elem_of_nil in Hn.
  - vm_compute. reflexivity.
Qed.

Lemma sample_world : world sample_net sample_env four_nodes.
Proof.
  constructor; [exact four_tree | split; [split; reflexivity |] | | done | intros c; unfold an_order; reflexivity | reflexivity].
  { repeat (apply Forall_cons; split; [vm_compute; discriminate |]). constructor. }
  intros n Hn%four_cases. repeat (apply elem_of_cons in Hn as [-> | Hn]; [reflexivity |]). now apply elem_of_nil in Hn.
Qed.

(** The chains of the witnesses. *)
Lemma first_chain_ok sa sb sc : chain_ok sample_net four_nodes four_files (first_chain sa sb sc) node_g ∅.
Proof.
  assert (Hm : cache_map (ch_utxoCache (first_chain sa sb sc)) = ∅)
    by (change (∅ ∪ ∅ = (∅ : gmap OutPoint (option UtxoEntry))); apply (left_id_L ∅ union)).
  split; [constructor | split; [reflexivity |]].
  - reflexivity.
  - constructor; [vm_compute; reflexivity | reflexivity |]. intros j Hj. change (height node_g) with 0 in Hj.
    assert (j = 0) as -> by lia. reflexivity.
  - reflexivity.
  - intros n p block tx0 rest S S' l Hn Hp. apply branch_cases in Hn as [-> | (q & Hq & _)]; discriminate.
  - eexists. reflexivity.
  - apply (empty_caches_ok four_nodes MainNetVotes).
  - intros n Hn%four_cases _. repeat (apply elem_of_cons in Hn as [-> | Hn]; [decided |]). now apply elem_of_nil in Hn.
  - exists node_g, ∅. split_and!; [apply branch_self | reflexivity | | now apply ledger_empty | reflexivity].
    constructor; [apply holds_empty | | rewrite Hm; apply map_Forall_empty].
    constructor; cbn; [done | done |]. split; [apply map_disjoint_empty_l | done].
Qed.

Lemma offered_a : offered four_nodes four_files node_g node_a node_g block_a 0.
Proof. constructor; [vm_compute; reflexivity | reflexivity | vm_compute; reflexivity | split; [decided | done] | apply four_good | discriminate]. Qed.

Lemma offered_c : offered four_nodes four_files node_a node_c node_b block_c 0.
Proof. constructor; [vm_compute; reflexivity | reflexivity | vm_compute; reflexivity | apply four_good | apply four_good | discriminate]. Qed.

Lemma second_chain_ok sb sc : exists S, chain_ok sample_net four_nodes four_files (second_chain sb sc) node_a S.
Proof.
  pose proof (connectBestChain_extends sample_net sample_env four_nodes four_files sample_world (first_chain 3 sb sc) node_g ∅ node_a
    block_a 0 (first_chain_ok 3 sb sc) offered_a) as Hrun. unfold second_chain.
  assert (Hv : KnownValid (NodeStatus node_a (ch_index (first_chain 3 sb sc))) = true) by (vm_compute; reflexivity).
  destruct (connectBestChain sample_net sample_env node_a block_a 0 (first_chain 3 sb sc)) as [[m | e |] b']; cbn [snd];
    [| destruct Hrun as (_ & _ & Hx & _); congruence ..].
  now destruct Hrun as (_ & Hok & _).
Qed.

(** The two ways to reach the last block from the second one. *)
Lemma c_new a : a ∈ branch node_c -> a ∉ branch node_a -> a = node_b \/ a = node_c.
Proof.
  change (branch node_c) with [node_c; node_b; node_g]. intros Ha Hn. repeat (apply elem_of_cons in Ha as [-> | Ha]; [first [now left | now right | destruct Hn; exact (branch_parent node_a node_g node_g eq_refl (branch_self node_g))] |]).
  now apply elem_of_nil in Ha.
Qed.

Lemma b_new : node_b ∉ branch node_a.
Proof.
  change (branch node_a) with [node_a; node_g]. intros Hb. repeat (apply elem_of_cons in Hb as [Heq | Hb];
    [apply (f_equal (fun n => hash_of n)) in Heq; vm_compute in Heq; discriminate |]). now apply elem_of_nil in Hb.
Qed.

Lemma c_work : n_workSum (data node_a) < n_workSum (data node_c).
Proof. vm_compute. reflexivity. Qed.


(** The new blocks are known to be valid. *)
Lemma known_branch_connects_witness :
  exists b' S', connectBestChain sample_net sample_env node_c block_c 0 (second_chain 3 3) = (Ok true, b') /\
    chain_ok sample_net four_nodes four_files b' node_c S'.
Proof.
  destruct (second_chain_ok 3 3) as [S Hok].
  apply (known_branch_connects sample_net sample_env four_nodes four_files (second_chain 3 3) node_a S node_c node_b block_c 0
    sample_world Hok offered_c).
  - right. exact c_work.
  - change (branch node_c) with [node_c; node_b; node_g]. intros a Ha. repeat (apply elem_of_cons in Ha as [-> | Ha]; [vm_compute; reflexivity |]). now apply elem_of_nil in Ha.
  - intros a Ha Hnew. destruct (c_new a Ha Hnew) as [-> | ->]; vm_compute; reflexivity.
Defined.

Lemma reorganization_atomic_witness :
  exists b' S', reorganizeChain sample_net sample_env [node_a] [node_b; node_c] (second_chain 3 3) = (Ok tt, b') /\
    chain_ok sample_net four_nodes four_files b' node_c S' /\
    notifications b' = [NTBlockConnected (hash_of node_a); NTBlockDisconnected (hash_of node_a);
                        NTBlockConnected (hash_of node_b); NTBlockConnected (hash_of node_c)].
Proof.
  destruct (second_chain_ok 3 3) as [S Hok].
  assert (Hd : down node_a [node_a] node_g) by (split; [reflexivity | exists node_g; now split]).
  assert (Hu : up node_g [node_b; node_c] node_c) by now split_and!.
  pose proof (reorganization_atomic sample_net sample_env four_nodes four_files (second_chain 3 3) node_a S node_c node_g
    [node_a] [node_b; node_c] sample_world Hok (of_node _ _ _ _ _ _ _ offered_c) (proj1 four_good) (proj2 four_good) Hd Hu) as Hrun.
  assert (Hvalid : Forall (fun n => KnownValid (NodeStatus n (ch_index (second_chain 3 3))) = true) [node_b; node_c])
    by (apply Forall_cons; split; [vm_compute; reflexivity |]; apply Forall_cons; split; [| constructor]; vm_compute; reflexivity).
  assert (Hold : notifications (second_chain 3 3) = [NTBlockConnected (hash_of node_a)]) by (vm_compute; reflexivity).
  destruct (reorganizeChain sample_net sample_env [node_a] [node_b; node_c] (second_chain 3 3)) as [[[] | e |] b'];
    [| now destruct Hrun as (_ & _ & Hx) ..].
  destruct Hrun as [[S' Hok'] Hn]. rewrite Hold in Hn. exists b', S'. exact (conj eq_refl (conj Hok' Hn)).
Defined.

(** The last block is known to be valid, above one that is known not to be. *)
Lemma invalid_side_chain_reported_witness :
  exists b' S, connectBestChain sample_net sample_env node_c block_c 0 (second_chain 5 3) = (Ok true, b') /\
    chain_ok sample_net four_nodes four_files b' node_a S.
Proof.
  destruct (second_chain_ok 5 3) as [S Hok].
  destruct (invalid_side_chain_reported sample_net sample_env four_nodes four_files (second_chain 5 3) node_a S node_c node_b block_c 0
    node_b sample_world Hok offered_c) as (b' & Hrun & Hok' & _).
  - intros Heq. apply b_new. rewrite Heq. apply branch_self.
  - exact c_work.
  - exact (branch_parent node_c node_b node_b eq_refl (branch_self node_b)).
  - exact b_new.
  - vm_compute. reflexivity.
  - exists b', S. exact (conj Hrun Hok').
Defined.
End Sample.
