(* ===== verification/Orphans.v ===== *)
(** The pool of orphans (src/btcd/blockchain/chain.go): blocks whose parent is not
    known yet, by their hash and by the hash of their parent.

    An orphan never changes, so that a pointer to one is its value.  The order in
    which Go ranges over the map is an argument. *)

From stdpp Require Import gmap fin_maps.
From S2P Require Import Prelude MsgBlock Crypto BtcUtil.
#[local] Open Scope Z_scope.

Definition maxOrphanBlocks : Z := 100.

Record orphanBlock := mkOrphan { orphan_block : MsgBlock; expiration : Z }.

Definition parent_hash (o : orphanBlock) : bytes := PrevBlock (Header (orphan_block o)).

Record OrphanPool := mkPool {
  orphans : gmap bytes orphanBlock;
  prevOrphans : gmap bytes (list orphanBlock);
  oldestOrphan : option orphanBlock;
}.

Definition empty_pool : OrphanPool := mkPool ∅ ∅ None.

(** One hour in nanoseconds. *)
Definition orphan_life : Z := 60 * 60 * 1000000000.

Section Pool.
Context `{Crypto}.

Definition orphan_hash (o : orphanBlock) : bytes := BlockHash (Header (orphan_block o)).

Definition IsKnownOrphan (hash : bytes) (p : OrphanPool) : bool := bool_decide (is_Some (orphans p !! hash)).

(** A chain of orphans has no more than there are. *)
Fixpoint orphan_root (fuel : nat) (p : OrphanPool) (orphanRoot prevHash : bytes) : bytes :=
  match fuel with
  | O => orphanRoot
  | S fuel' =>
      match orphans p !! prevHash with
      | None => orphanRoot
      | Some orphan => orphan_root fuel' p prevHash (parent_hash orphan)
      end
  end.

Definition GetOrphanRoot (hash : bytes) (p : OrphanPool) : bytes :=
  orphan_root (S (size (orphans p))) p hash hash.

(** The orphans with a parent, in the order in which they came. *)
Definition children (p : OrphanPool) (prevHash : bytes) : list orphanBlock := default [] (prevOrphans p !! prevHash).

Definition other_hash (hash : bytes) (o : orphanBlock) : bool := negb (bool_decide (orphan_hash o = hash)).

Definition removeOrphanBlock (orphan : orphanBlock) (p : OrphanPool) : OrphanPool :=
  let left := List.filter (other_hash (orphan_hash orphan)) (children p (parent_hash orphan)) in
  mkPool (delete (orphan_hash orphan) (orphans p))
    (if zlen left =? 0 then delete (parent_hash orphan) (prevOrphans p)
     else <[parent_hash orphan := left]> (prevOrphans p))
    (oldestOrphan p).

(** The loop over the orphans: expired ones go, and the oldest one is kept. *)
Fixpoint clean_up (now : Z) (l : list (bytes * orphanBlock)) (p : OrphanPool) : OrphanPool :=
  match l with
  | [] => p
  | (_, oBlock) :: l' =>
      clean_up now l'
        (if now >? expiration oBlock then removeOrphanBlock oBlock p
         else match oldestOrphan p with
              | Some old => if expiration oBlock <? expiration old then mkPool (orphans p) (prevOrphans p) (Some oBlock) else p
              | None => mkPool (orphans p) (prevOrphans p) (Some oBlock)
              end)
  end.

(** Removing a nil orphan panics. *)
Definition make_room (p : OrphanPool) : outcome Empty_set OrphanPool :=
  if Z.of_nat (size (orphans p)) + 1 >? maxOrphanBlocks then
    match oldestOrphan p with
    | Some old => let p' := removeOrphanBlock old p in Ok (mkPool (orphans p') (prevOrphans p') None)
    | None => Panic
    end
  else Ok p.

Definition insert_orphan (oBlock : orphanBlock) (p : OrphanPool) : OrphanPool :=
  mkPool (<[orphan_hash oBlock := oBlock]> (orphans p))
    (<[parent_hash oBlock := children p (parent_hash oBlock) ++ [oBlock]]> (prevOrphans p)) (oldestOrphan p).

Definition addOrphanBlock (order : list (bytes * orphanBlock)) (now : Z) (block : MsgBlock) (p : OrphanPool)
  : outcome Empty_set OrphanPool :=
  let! p := make_room (clean_up now order p) in
  Ok (insert_orphan (mkOrphan block (now + orphan_life)) p).

(** * The invariant *)

(** Blocks among which those with the same hash have the same parent. *)
Definition told_apart (U : MsgBlock -> Prop) : Prop :=
  forall b1 b2, U b1 -> U b2 -> BlockHash (Header b1) = BlockHash (Header b2) -> PrevBlock (Header b1) = PrevBlock (Header b2).

Section Invariant.
Context (U : MsgBlock -> Prop) (HU : told_apart U).

(** The two maps have the same orphans, each at its hashes. *)
Record pool_ok (p : OrphanPool) : Prop := {
  po_hash h o : orphans p !! h = Some o -> orphan_hash o = h;
  po_children prev o : o ∈ children p prev <-> orphans p !! orphan_hash o = Some o /\ parent_hash o = prev;
  po_nonempty prev : prevOrphans p !! prev <> Some [];
  po_known h o : orphans p !! h = Some o -> U (orphan_block o);
  po_old o : oldestOrphan p = Some o -> U (orphan_block o);
}.

(** There is at most one more than the limit, and then no oldest one. *)
Definition pool_bounded (p : OrphanPool) : Prop :=
  Z.of_nat (size (orphans p)) <= maxOrphanBlocks + 1 /\
  (Z.of_nat (size (orphans p)) = maxOrphanBlocks + 1 -> oldestOrphan p = None).

Lemma children_insert p prev l prev' orphans' old : children (mkPool orphans' (<[prev := l]> (prevOrphans p)) old) prev' =
  if decide (prev = prev') then l else children p prev'.
Proof. unfold children. cbn [prevOrphans]. rewrite lookup_insert. now case_decide. Qed.

Lemma children_delete p prev prev' orphans' old : children (mkPool orphans' (delete prev (prevOrphans p)) old) prev' =
  if decide (prev = prev') then [] else children p prev'.
Proof. unfold children. cbn [prevOrphans]. rewrite lookup_delete. now case_decide. Qed.

Lemma children_remove o p prev : children (removeOrphanBlock o p) prev =
  if decide (parent_hash o = prev) then List.filter (other_hash (orphan_hash o)) (children p (parent_hash o)) else children p prev.
Proof.
  unfold removeOrphanBlock. set (left := List.filter _ _). destruct (zlen left =? 0) eqn:Hz.
  - rewrite children_delete. case_decide; [| done]. destruct left; [done | discriminate].
  - apply children_insert.
Qed.

Lemma orphans_remove o p h o' : orphans (removeOrphanBlock o p) !! h = Some o' <-> orphans p !! h = Some o' /\ h <> orphan_hash o.
Proof. unfold removeOrphanBlock. cbn [orphans]. rewrite lookup_delete_Some. intuition congruence. Qed.

(** Any orphan may be removed, in the pool or not. *)
Lemma remove_ok o p : U (orphan_block o) -> pool_ok p -> pool_ok (removeOrphanBlock o p).
Proof.
  intros Ho [Hhash Hch Hne Hk Hold]. constructor.
  - intros h o' [Hl _]%orphans_remove. auto.
  - intros prev o'. rewrite children_remove, orphans_remove. case_decide as Hp.
    + subst prev. rewrite list_elem_of_In, filter_In, <- list_elem_of_In, Hch. unfold other_hash.
      rewrite negb_true_iff, bool_decide_eq_false. tauto.
    + rewrite Hch. split; [| tauto]. intros [Ho' Hp']. split; [split; [done |] | done]. intros Heq.
      apply Hp. rewrite <- Hp'. symmetry. exact (HU _ _ (Hk _ _ Ho') Ho Heq).
  - intros prev. unfold removeOrphanBlock. set (left := List.filter _ _). cbn [prevOrphans].
    destruct (zlen left =? 0) eqn:Hz.
    + rewrite lookup_delete_Some. intros [_ Hx]. exact (Hne prev Hx).
    + rewrite lookup_insert_Some. intros [[_ Hx] | [_ Hx]]; [rewrite Hx in Hz; discriminate | exact (Hne prev Hx)].
  - intros h o' [Hl _]%orphans_remove. eauto.
  - exact Hold.
Qed.

Lemma remove_size o p :
  size (orphans (removeOrphanBlock o p)) = if decide (is_Some (orphans p !! orphan_hash o)) then pred (size (orphans p)) else size (orphans p).
Proof.
  unfold removeOrphanBlock. cbn [orphans]. case_decide as Ho; [now apply map_size_delete_Some |].
  apply eq_None_not_Some in Ho. now rewrite delete_id.
Qed.

Lemma set_old_ok p o : pool_ok p -> (forall o', o = Some o' -> U (orphan_block o')) -> pool_ok (mkPool (orphans p) (prevOrphans p) o).
Proof. intros [Hhash Hch Hne Hk Hold] Ho. now constructor. Qed.

(** What the loop leaves: a smaller pool, and an oldest orphan if one is left. *)
Lemma clean_up_ok now l : forall p, pool_ok p -> Forall (fun q => U (orphan_block (snd q))) l ->
  let p' := clean_up now l p in
  pool_ok p' /\ orphans p' ⊆ orphans p /\
  (oldestOrphan p' = None -> oldestOrphan p = None /\ Forall (fun q => orphans p' !! orphan_hash (snd q) = None) l).
Proof.
  induction l as [| [h o] l IH]; intros p Hp Hl; cbn [clean_up]; [split_and!; auto |].
  apply Forall_cons in Hl as [Ho Hl]. cbn [snd] in Ho.
  set (p1 := if now >? expiration o then _ else _).
  assert (H1 : pool_ok p1 /\ orphans p1 ⊆ orphans p /\
    (oldestOrphan p1 = None -> oldestOrphan p = None /\ orphans p1 !! orphan_hash o = None)).
  { unfold p1. destruct (now >? expiration o).
    - split_and!; [now apply remove_ok | apply delete_subseteq |]. intros Hn. split; [exact Hn | apply lookup_delete_eq].
    - destruct (oldestOrphan p) as [old |] eqn:Hold.
      + destruct (expiration o <? expiration old); [| split_and!; [done | done | congruence]].
        split_and!; [apply set_old_ok; [done | now intros o' [= <-]] | done | discriminate].
      + split_and!; [apply set_old_ok; [done | now intros o' [= <-]] | done | discriminate]. }
  destruct H1 as (Hp1 & Hs1 & Hn1). clearbody p1. destruct (IH p1 Hp1 Hl) as (Hp2 & Hs2 & Hn2). split_and!; [done | etransitivity; eauto |].
  intros Hn. destruct (Hn2 Hn) as [Hn' Hgone]. destruct (Hn1 Hn') as [Hn'' Hg]. split; [done |].
  constructor; [| exact Hgone]. cbn [snd]. exact (lookup_weaken_None _ _ _ Hg Hs2).
Qed.

(** An order in which the loop ranges over the map. *)
Definition orphan_order (order : list (bytes * orphanBlock)) (p : OrphanPool) : Prop := order ≡ₚ map_to_list (orphans p).

Lemma order_known order p : pool_ok p -> orphan_order order p -> Forall (fun q => U (orphan_block (snd q))) order.
Proof.
  intros Hp Ho. apply Forall_forall. intros [h o] Hq. cbn [snd]. rewrite Ho, elem_of_map_to_list in Hq. exact (po_known p Hp h o Hq).
Qed.

Lemma clean_up_old order now p h : pool_ok p -> orphan_order order p ->
  oldestOrphan (clean_up now order p) = None -> orphans (clean_up now order p) !! h = None.
Proof.
  intros Hp Ho Hn. destruct (clean_up_ok now order p Hp (order_known order p Hp Ho)) as (_ & Hsub & Hold).
  destruct (Hold Hn) as [_ Hgone]. destruct (orphans (clean_up now order p) !! h) as [o |] eqn:Hl; [| done]. exfalso.
  pose proof (lookup_weaken _ _ _ _ Hl Hsub) as Hlp. rewrite Forall_forall in Hgone.
  assert (Hin : (h, o) ∈ order) by (rewrite Ho; now apply elem_of_map_to_list).
  specialize (Hgone (h, o) Hin). cbn [snd] in Hgone. rewrite (po_hash p Hp h o Hlp), Hl in Hgone. discriminate.
Qed.

Lemma map_size_le (m1 m2 : gmap bytes orphanBlock) : m1 ⊆ m2 -> (size m1 <= size m2)%nat.
Proof. apply map_subseteq_size. Qed.

(** A new oldest orphan is in the pool. *)
Lemma clean_up_live now l : forall p,
  NoDup ((fun q => orphan_hash (snd q)) <$> l) -> Forall (fun q => orphans p !! orphan_hash (snd q) = Some (snd q)) l ->
  (forall o, oldestOrphan p = Some o ->
     orphans p !! orphan_hash o = Some o /\ (orphan_hash o ∉ (fun q => orphan_hash (snd q)) <$> l)) ->
  forall o, oldestOrphan (clean_up now l p) = Some o -> is_Some (orphans (clean_up now l p) !! orphan_hash o).
Proof.
  induction l as [| [h x] l IH]; intros p Hnd Hin Hlive; cbn [clean_up].
  { intros o Ho. exists o. now apply Hlive. }
  rewrite fmap_cons in Hnd. apply NoDup_cons in Hnd as [Hx Hnd]. apply Forall_cons in Hin as [Hxin Hin]. cbn [snd] in *.
  assert (Hkeep : forall q, q ∈ l -> orphan_hash (snd q) <> orphan_hash x).
  { intros q Hq Heq. apply Hx. rewrite <- Heq. apply list_elem_of_fmap. eauto. }
  apply IH; [done | |].
  - rewrite Forall_forall in Hin |- *. intros q Hq. specialize (Hin q Hq). specialize (Hkeep q Hq).
    destruct (now >? expiration x); [now apply orphans_remove |].
    destruct (oldestOrphan p); [destruct (expiration x <? expiration _) |]; exact Hin.
  - assert (Hself : forall o, Some x = Some o -> orphans p !! orphan_hash o = Some o /\
      (orphan_hash o ∉ (fun q => orphan_hash (snd q)) <$> l)) by (intros o [= <-]; now split).
    destruct (now >? expiration x).
    + intros o Ho. destruct (Hlive o Ho) as [Hop Hout]. rewrite fmap_cons, not_elem_of_cons in Hout. cbn [snd] in Hout.
      split; [now apply orphans_remove | apply Hout].
    + destruct (oldestOrphan p) as [old |] eqn:Hold; [destruct (expiration x <? expiration old) |]; [exact Hself | | exact Hself].
      rewrite Hold. intros o Ho. destruct (Hlive o Ho) as [Hop Hout]. rewrite fmap_cons, not_elem_of_cons in Hout. now split.
Qed.

Lemma order_hashes order p : pool_ok p -> orphan_order order p ->
  NoDup ((fun q => orphan_hash (snd q)) <$> order) /\ Forall (fun q => orphans p !! orphan_hash (snd q) = Some (snd q)) order.
Proof.
  intros Hp Ho. assert (Hin : Forall (fun q : bytes * orphanBlock => orphan_hash (snd q) = fst q /\ orphans p !! fst q = Some (snd q)) order).
  { apply Forall_forall. intros [h o] Hq. rewrite Ho, elem_of_map_to_list in Hq. cbn [fst snd]. split; [exact (po_hash p Hp h o Hq) | done]. }
  split; [| eapply Forall_impl; [exact Hin |]; intros q [-> Hq]; exact Hq].
  rewrite (list_fmap_ext _ fst) by (intros i q Hq; rewrite Forall_forall in Hin; apply (Hin q); eapply list_elem_of_lookup_2; eauto).
  rewrite Ho. apply NoDup_fst_map_to_list.
Qed.

(** Making room never panics; the pool is left with room, or with room for one
    above the limit when the orphan to remove had gone already. *)
Lemma make_room_ok order now p : pool_ok p -> pool_bounded p -> orphan_order order p ->
  exists p', make_room (clean_up now order p) = Ok p' /\ pool_ok p' /\ orphans p' ⊆ orphans p /\
    Z.of_nat (size (orphans p')) <= maxOrphanBlocks /\ (Z.of_nat (size (orphans p')) = maxOrphanBlocks -> oldestOrphan p' = None).
Proof.
  intros Hp [Hb Hfull] Ho. pose proof (clean_up_ok now order p Hp (order_known order p Hp Ho)) as (Hp1 & Hsub & Hold).
  pose proof (clean_up_old order now p) as Hgone. set (p1 := clean_up now order p) in *. pose proof (map_size_le _ _ Hsub) as Hs.
  unfold make_room. destruct (Z.gtb_spec (Z.of_nat (size (orphans p1)) + 1) maxOrphanBlocks) as [Hlt | Hle].
  - destruct (oldestOrphan p1) as [old |] eqn:Hold1.
    + eexists. split; [reflexivity |]. pose proof (remove_ok old p1 (po_old p1 Hp1 old Hold1) Hp1) as Hr.
      split_and!; [now apply set_old_ok | etransitivity; [apply delete_subseteq | exact Hsub] | | done].
      change (orphans (mkPool _ _ _)) with (orphans (removeOrphanBlock old p1)). rewrite remove_size. unfold maxOrphanBlocks in *. case_decide as Hlive; [lia |].
      destruct (decide (Z.of_nat (size (orphans p1)) = 101)) as [Heq |]; [| lia]. exfalso. apply Hlive.
      destruct (order_hashes order p Hp Ho) as [Hnd Hin]. apply (clean_up_live now order p Hnd Hin); [| done].
      intros o. rewrite Hfull by lia. discriminate.
    + exfalso. assert (Hnone : orphans p1 = ∅) by (apply map_empty; intros h; now apply Hgone).
      rewrite Hnone, map_size_empty in Hlt. unfold maxOrphanBlocks in Hlt. lia.
  - exists p1. split_and!; try done; lia.
Qed.

Lemma insert_ok o p : pool_ok p -> U (orphan_block o) -> orphans p !! orphan_hash o = None -> pool_ok (insert_orphan o p).
Proof.
  intros [Hhash Hch Hne Hk Hold] Ho Hnew. unfold insert_orphan.
  constructor; cbn [orphans prevOrphans oldestOrphan].
  - intros h o' [[<- <-] | [_ Hl]]%lookup_insert_Some; auto.
  - intros prev o'. rewrite children_insert. case_decide as Hp.
    + subst prev. rewrite elem_of_app, list_elem_of_singleton, Hch, lookup_insert_Some. split.
      * intros [[Hl Hp] | ->]; [| auto]. split; [right; split; [intros Heq; congruence | done] | done].
      * intros [[[Heq1 ->] | [_ Hl]] Hp]; auto.
    + rewrite Hch, lookup_insert_Some. split; [intros [Hl Hp']; split; [right; split; [congruence | done] | done] |].
      intros [[[_ <-] | [_ Hl]] Hp']; [done | auto].
  - intros prev [[_ Hx] | [_ Hx]]%lookup_insert_Some; [now apply app_eq_nil in Hx as [_ Hx] | exact (Hne prev Hx)].
  - intros h o' [[_ <-] | [_ Hl]]%lookup_insert_Some; [done | eauto].
  - exact Hold.
Qed.

(** Adding a block that is not in the pool. *)
Lemma addOrphanBlock_ok order now block p :
  pool_ok p -> pool_bounded p -> orphan_order order p -> U block -> orphans p !! BlockHash (Header block) = None ->
  exists p', addOrphanBlock order now block p = Ok p' /\ pool_ok p' /\ pool_bounded p' /\
    orphans p' !! BlockHash (Header block) = Some (mkOrphan block (now + orphan_life)) /\
    forall h o, orphans p' !! h = Some o -> h = BlockHash (Header block) \/ orphans p !! h = Some o.
Proof.
  intros Hp Hb Ho Hu Hnew. destruct (make_room_ok order now p Hp Hb Ho) as (p1 & Hrun & Hp1 & Hsub & Hs & Hn).
  unfold addOrphanBlock. rewrite Hrun. cbn [obind]. set (o := mkOrphan block (now + orphan_life)).
  pose proof (lookup_weaken_None _ _ _ Hnew Hsub) as Hnew1.
  exists (insert_orphan o p1). split; [reflexivity |]. split_and!.
  - now apply insert_ok.
  - unfold insert_orphan, pool_bounded. cbn [orphans oldestOrphan]. rewrite map_size_insert_None by exact Hnew1.
    split; [lia |]. intros Hx. apply Hn. lia.
  - apply lookup_insert_eq.
  - unfold insert_orphan. cbn [orphans]. intros h o' [[<- _] | [_ Hl]]%lookup_insert_Some; [now left | right]. exact (lookup_weaken _ _ _ _ Hl Hsub).
Qed.

(** Removing keeps the bound. *)
Lemma remove_bounded o p : pool_bounded p -> pool_bounded (removeOrphanBlock o p).
Proof.
  intros [Hb Hf]. unfold pool_bounded. rewrite remove_size. change (oldestOrphan (removeOrphanBlock o p)) with (oldestOrphan p).
  case_decide; split; lia || (intros Hx; apply Hf; lia).
Qed.

Lemma empty_pool_ok : pool_ok empty_pool /\ pool_bounded empty_pool.
Proof.
  split; [constructor; unfold empty_pool; cbn [orphans prevOrphans oldestOrphan] |].
  - intros h o Hl. now rewrite lookup_empty in Hl.
  - intros prev o. unfold children. cbn [prevOrphans]. rewrite !lookup_empty. cbn.
    split; [intros Hx%elem_of_nil; done | intros [Hx _]; discriminate].
  - intros prev. now rewrite lookup_empty.
  - intros h o Hl. now rewrite lookup_empty in Hl.
  - discriminate.
  - unfold pool_bounded, empty_pool. cbn [orphans]. rewrite map_size_empty. unfold maxOrphanBlocks. lia.
Qed.
End Invariant.
End Pool.
