(* ===== verification/Process.v ===== *)
(** Accepting blocks (src/btcd/blockchain/process.go, src/btcd/blockchain/accept.go,
    the context of a block of src/btcd/blockchain/validate.go and the checkpoints of
    src/btcd/blockchain/checkpoints.go).

    The state is the one of the chain with the pool of orphans and the checkpoint
    that was reached last.  A wrapped block is its message. *)

From stdpp Require Import gmap.
From S2P Require Import Prelude Slices ScriptError Opcodes Tokenizer Vlq Compress WireCommon MsgTx MsgBlock Script Crypto SigHash SigCache EngineState SigCheck OpcodeExec Engine EngineInv BtcUtil Merkle WorkMath BlockIndex Difficulty TxRules Validate UtxoView Supply Bucket Chainio SizeHelper UtxoCache ChainView Threshold ScriptVal Connect Chain Orphans.
#[local] Open Scope Z_scope.

Record FullChain (B D : Type) := mkFull {
  the_chain : BlockChain B D;
  pool : OrphanPool;
  checkpointNode : option blockNode;
  nextCheckpoint : option (Z * bytes);
}.
Arguments mkFull {B D}.
Arguments the_chain {B D}.
Arguments pool {B D}.
Arguments checkpointNode {B D}.
Arguments nextCheckpoint {B D}.

Section Operations.
Context `{PubKeys} `{Crypto} `{MapOrder} {B D : Type} `{Bucket B} `{BlockFiles D}.
Context (net : Network) (env : Env B) (orphan_range : OrphanPool -> list (bytes * orphanBlock)).

Abbreviation CH := (M (BlockChain B D) ChainError).
Abbreviation FC := (M (FullChain B D) ChainError).

Definition with_chain (b : BlockChain B D) (s : FullChain B D) : FullChain B D :=
  mkFull b (pool s) (checkpointNode s) (nextCheckpoint s).
Definition with_pool (p : OrphanPool) (s : FullChain B D) : FullChain B D :=
  mkFull (the_chain s) p (checkpointNode s) (nextCheckpoint s).
Definition with_checkpoint (n : option blockNode) (c : option (Z * bytes)) (s : FullChain B D) : FullChain B D :=
  mkFull (the_chain s) (pool s) n c.

Definition on_chain {A} : CH A -> FC A := part (fun e => e) the_chain with_chain.
Definition broken_rule {A} (c : RuleCode) : FC A := fail (OfConnect (ConnRule (ruleError c))).
Definition rule_guard (b : bool) (c : RuleCode) : FC unit := guard b (OfConnect (ConnRule (ruleError c))).

(** ** Checkpoints *)

Definition verifyCheckpoint (height : Z) (hash : bytes) : bool :=
  match List.find (fun c => fst c =? height) (net_checkpoints net) with
  | Some c => bool_decide (snd c = hash)
  | None => true
  end.

(** The last checkpoint that is in the best chain, with the one after it; the
    checkpoints are given from the last one back. *)
Fixpoint last_known (b : BlockChain B D) (back : list (Z * bytes)) (next : option (Z * bytes))
  : option (blockNode * option (Z * bytes)) :=
  match back with
  | [] => None
  | c :: back' =>
      match LookupNode (snd c) (ch_index b) with
      | Some node => if contains (bestChain b) node then Some (node, next) else last_known b back' (Some c)
      | None => last_known b back' (Some c)
      end
  end.

Fixpoint checkpoint_after (hash : bytes) (back : list (Z * bytes)) (next : option (Z * bytes)) : option (Z * bytes) :=
  match back with
  | [] => None
  | c :: back' => if bool_decide (snd c = hash) then next else checkpoint_after hash back' (Some c)
  end.

Definition findPreviousCheckpoint : FC (option blockNode) :=
  match net_checkpoints net with
  | [] => ret None
  | first :: _ =>
      let back := reverse (net_checkpoints net) in
      s <- get;;
      match checkpointNode s, nextCheckpoint s with
      | None, None =>
          match last_known (the_chain s) back None with
          | Some (node, next) => put (with_checkpoint (Some node) next s);; ret (Some node)
          | None => put (with_checkpoint None (Some first) s);; ret None
          end
      | known, None => ret known
      | known, Some next =>
          t <- on_chain theTip;;
          if height t <? fst next then ret known else
          match LookupNode (snd next) (ch_index (the_chain s)) with
          | None => fail chain_assert
          | Some node => put (with_checkpoint (Some node) (checkpoint_after (snd next) back None) s);; ret (Some node)
          end
      end
  end.

(** ** The context of a block *)

Definition chain_ctx (previous : checked (option blockNode)) : ChainCtx blockNode :=
  mkChainCtx blockNode (net_params net) verifyCheckpoint previous.

(** The header in its context.  The previous checkpoint is looked for when all the
    other checks have passed. *)
Definition header_context (header : BlockHeader) (prevNode : blockNode) (flags : Z) : FC unit := fun s =>
  let '(cp, s') := findPreviousCheckpoint s in
  let previous := match cp with Ok n => Ok n | Err _ => Err AssertError | Panic => Panic end in
  (of_rule (CheckBlockHeaderContext header prevNode flags (chain_ctx previous) false),
   if is_ok (CheckBlockHeaderContext header prevNode flags (chain_ctx (Ok None)) false) then s' else s).

Definition vote_state (prevNode : blockNode) (id : nat) : FC ThresholdState :=
  s <- get;;
  on_chain (on_caches (deploymentState (index_nodes (ch_index (the_chain s))) (net_votes net) (Some prevNode) id)).

Definition checkBlockContext (block : MsgBlock) (prevNode : blockNode) (flags : Z) : FC unit :=
  let header := Header block in
  header_context header prevNode flags;;
  if has_flag flags BFFastAdd then ret tt else
  csvState <- vote_state prevNode DeploymentCSV;;
  blockTime <- (if bool_decide (csvState = ThresholdActive) then on_chain (median_time (Some prevNode))
                else ret (Timestamp header));;
  let blockHeight := int32 (height prevNode + 1) in
  rule_guard (negb (forallb (fun tx => IsFinalizedTransaction tx blockHeight blockTime) (Transactions block))) ErrUnfinalizedTx;;
  (if ShouldHaveSerializedBlockHeight header && (blockHeight >=? BIP0034Height (net_params net)) then
     lift (of_rule (let! coinbaseTx := index (Transactions block) 0 in CheckSerializedHeight coinbaseTx blockHeight))
   else ret tt);;
  segwitState <- vote_state prevNode DeploymentSegwit;;
  if bool_decide (segwitState = ThresholdActive) then
    lift (of_rule (ValidateWitnessCommitment block));;
    rule_guard (GetBlockWeight block >? MaxBlockWeight) ErrBlockWeightTooHigh
  else ret tt.

(** ** Accepting a block *)

Definition HasBlock (d : D) (hash : bytes) : bool := match FetchBlock d hash with Some _ => true | None => false end.

Definition dbStoreBlock (block : MsgBlock) (d : ChainDB B D) : ChainDB B D :=
  let hash := BlockHash (Header block) in
  if HasBlock (blockFiles d) hash then d
  else mkChainDB (spendBucket d) (chainIndex d) (bestState d) (StoreBlock hash (block_Serialize block) (blockFiles d)).

Definition maybeAcceptBlock (block : MsgBlock) (flags : Z) : FC bool :=
  s <- get;;
  let bi := ch_index (the_chain s) in
  match LookupNode (PrevBlock (Header block)) bi with
  | None => broken_rule ErrPreviousBlockUnknown
  | Some prevNode =>
      rule_guard (KnownInvalid (NodeStatus prevNode bi)) ErrInvalidAncestorBlock;;
      checkBlockContext block prevNode flags;;
      on_chain (db_Update (on_db (fun d => Ok (dbStoreBlock block d))));;
      let newNode := newBlockNode (Header block) (Some prevNode) in
      on_chain (on_index (AddNode newNode statusDataStored));;
      on_chain flushIndex;;
      isMainChain <- on_chain (connectBestChain net env newNode block flags);;
      on_chain (sendNotification (NTBlockAccepted (BlockHash (Header block))));;
      ret isMainChain
  end.

(** ** Processing a block *)

Definition blockExists (hash : bytes) (s : FullChain B D) : outcome ChainError bool :=
  let b := the_chain s in
  if HaveBlock hash (ch_index b) then Ok true
  else if negb (HasBlock (blockFiles (ch_db b)) hash) then Ok false
  else match dbFetchHeightByHash hash (chainIndex (ch_db b)) with
       | Ok _ => Ok true
       | Err errNotInMainChain => Ok false
       | Err e => Err (OfConnect (ConnStore e))
       | Panic => Panic
       end.

Definition HaveBlock_ (hash : bytes) (s : FullChain B D) : outcome ChainError bool :=
  let! exists_ := blockExists hash s in Ok (exists_ || IsKnownOrphan hash (pool s)).

(** The orphans of the first hash are taken until there is none; the hash of each
    that is accepted is added at the end. *)
Fixpoint processOrphans (fuel : nat) (processHashes : list bytes) (flags : Z) : FC unit :=
  match processHashes with
  | [] => ret tt
  | processHash :: rest =>
      match fuel with
      | O => fail (OfConnect ConnFuel)
      | S fuel' =>
          s <- get;;
          match children (pool s) processHash with
          | [] => processOrphans fuel' rest flags
          | orphan :: _ =>
              put (with_pool (removeOrphanBlock orphan (pool s)) s);;
              maybeAcceptBlock (orphan_block orphan) flags;;
              processOrphans fuel' (processHash :: rest ++ [orphan_hash orphan]) flags
          end
      end
  end.

(** Every step takes an orphan from the pool or a hash from the list. *)
Definition orphan_fuel (p : OrphanPool) : nat := 2 * size (orphans p) + 1.

(** [Sub] of times saturates. *)
Definition duration_since (t1 t0 : Z) : Z := Z.max (- 2 ^ 63) (Z.min (2 ^ 63 - 1) ((t1 - t0) * Second)).

(** The rules after the last checkpoint. *)
Definition check_checkpoint (header : BlockHeader) (checkpoint : option blockNode) (flags : Z) : FC unit :=
  match checkpoint with
  | None => ret tt
  | Some node =>
      let checkpointTime := n_timestamp (data node) in
      rule_guard (Timestamp header <? checkpointTime) ErrCheckpointTimeTooOld;;
      if has_flag flags BFFastAdd then ret tt else
      match calcEasiestDifficulty (net_params net) (n_bits (data node)) (duration_since (Timestamp header) checkpointTime) with
      | Some bits => rule_guard (CompactToBig (Bits header) >? CompactToBig bits) ErrDifficultyTooLow
      | None => fail (OfConnect ConnFuel)
      end
  end.

Definition ProcessBlock (block : MsgBlock) (flags : Z) : FC (bool * bool) :=
  let header := Header block in
  let blockHash := BlockHash header in
  s <- get;;
  exists_ <- lift (blockExists blockHash s);;
  rule_guard exists_ ErrDuplicateBlock;;
  rule_guard (IsKnownOrphan blockHash (pool s)) ErrDuplicateBlock;;
  lift (of_rule (checkBlockSanity block (PowLimit (net_params net)) (AdjustedTime env) flags));;
  checkpoint <- findPreviousCheckpoint;;
  check_checkpoint header checkpoint flags;;
  s <- get;;
  prevHashExists <- lift (blockExists (PrevBlock header) s);;
  if negb prevHashExists then
    p <- lift (of_viewed (addOrphanBlock (orphan_range (pool s)) (now env) block (pool s)));;
    put (with_pool p s);;
    ret (false, true)
  else
    isMainChain <- maybeAcceptBlock block flags;;
    s <- get;;
    processOrphans (orphan_fuel (pool s)) [blockHash] flags;;
    ret (isMainChain, false).

(** ** A template of a block *)

(** [bh] is the height that the wrapped block was given. *)
Definition CheckConnectBlockTemplate (block : MsgBlock) (bh : Z) : FC unit :=
  t <- on_chain theTip;;
  let header := Header block in
  rule_guard (negb (bool_decide (hash_of t = PrevBlock header))) ErrPrevBlockNotBest;;
  lift (of_rule (checkBlockSanity block (PowLimit (net_params net)) (AdjustedTime env) BFNoPoWCheck));;
  checkBlockContext block t BFNoPoWCheck;;
  on_chain (check_connect_at net env bh (newBlockNode header (Some t)) block (SetBestHash (hash_of t) NewUtxoViewpoint));;
  ret tt.
End Operations.
