(* ===== verification/TreeSpec.v ===== *)
(** Growing the tree of blocks: the state of the chain when a block is stored and
    added to the index.

    The blocks are taken from a set in which a hash belongs to one block only, and
    in which a block has its transactions in order and repeats no transaction of a
    block below it.  The last two are rules of the network that the code does not
    enforce for every block (see [universe]).  Then the branch of every node has the
    properties that the best chain asks for, and they are not lost when the tree
    grows. *)

From stdpp Require Import gmap fin_maps.
From S2P Require Import Prelude Slices ScriptError Opcodes Tokenizer Vlq Compress WireCommon MsgTx MsgBlock Script Crypto SigHash SigCache EngineState SigCheck OpcodeExec Engine EngineInv BtcUtil Merkle WorkMath BlockIndex Difficulty TxRules Validate UtxoView Supply Bucket Chainio SizeHelper UtxoCache ChainView Threshold ScriptVal Connect ConnectSpec Votes ReorgView Chain ChainInv.
#[local] Open Scope Z_scope.

(** * A set of blocks *)

Section Universe.
Context `{PubKeysLaws} `{CryptoLaws} {D : Type} `{BlockFiles D}.

Definition tx_ids (b : MsgBlock) : list bytes := TxHash <$> Transactions b.

(** The second block names the first as its parent. *)
Definition follows (U : MsgBlock -> Prop) (b1 b2 : MsgBlock) : Prop :=
  U b1 /\ U b2 /\ PrevBlock (Header b2) = BlockHash (Header b1).

(** What is assumed of the blocks.  [u_sane] and [u_format] are what the decoder and
    [checkBlockSanity] establish before a block is stored.  [u_hash] excludes
    collisions of the hash, and [u_zero] the hash that stands for no block.

    The other two are not established by the code for every block.  [u_ids]: a block
    has no transaction with the id of one in a block below it; [checkBIP0030] allows
    ids that come again when all their outputs are spent, and is not asked above the
    BIP 34 height.  Blocks of different branches may have transactions in common.
    [u_order]: an input that refers to a transaction of its own block refers to an
    earlier one; [findInputsToFetch] lets a block pass that breaks this rule when its
    outputs are in the view beforehand: below the BIP 34 height, where
    [checkBIP0030] loads them, and in a reorganization that confirms a detached
    transaction again. *)
Record universe (U : MsgBlock -> Prop) : Prop := {
  u_hash b1 b2 : U b1 -> U b2 -> BlockHash (Header b1) = BlockHash (Header b2) -> b1 = b2;
  u_ids b1 b2 id : tc (follows U) b1 b2 -> id ∈ tx_ids b1 -> id ∉ tx_ids b2;
  u_order b : U b -> in_order (Transactions b);
  u_sane b : U b -> exists powLimit adjustedTime flags, checkBlockSanity b powLimit adjustedTime flags = Ok tt;
  u_format b : U b -> block_ok WitnessEncoding b;
  u_zero b : U b -> BlockHash (Header b) <> replicate 32 x00;
}.

(** What a block of the set is read back as. *)
Lemma u_read U b : universe U -> U b -> exists blk, NewBlockFromBytes (block_Serialize b) = Ok blk /\ msgBlock blk = b.
Proof.
  intros HU Hb. destruct (proj1 block_memo_transparent b [] (u_format U HU b Hb)) as (blk & Hr & _ & Hm & _).
  rewrite app_nil_r in Hr. eauto.
Qed.

Lemma sane_scripts tx : tx_sane tx -> Forall (fun o => zlen (PkScript o) <= MaxBlockBaseSize) (TxOuts tx).
Proof.
  intros Hs. pose proof (base_size tx Hs). pose proof (script_sizes tx).
  pose proof (zsum_nonneg zlen (SignatureScript <$> TxIns tx) zlen_nonneg).
  pose proof (zsum_member zlen (PkScript <$> TxOuts tx) zlen_nonneg) as Hm. rewrite Forall_fmap in Hm.
  eapply Forall_impl; [exact Hm |]. cbn. intros o Ho. lia.
Qed.

Lemma outpoints_snd hash outs : forall i, snd <$> outpoints_from hash i outs = outs.
Proof. induction outs as [| o outs IH]; intros i; [done |]. cbn [outpoints_from]. rewrite fmap_cons, IH. done. Qed.

Lemma outs_of_outputs tx : snd <$> tx_outputs tx = TxOuts tx.
Proof. apply outpoints_snd. Qed.

(** The coins that a sane transaction makes can be stored. *)
Lemma sane_made tx h : tx_sane tx -> 0 < h < 2 ^ 31 -> Forall (fun q => coin_ok (snd q)) (made tx h).
Proof.
  intros Hs Hh. apply Forall_forall. intros [op c] Hq. apply list_elem_of_omap in Hq as ([op' o] & Hin & Hc).
  unfold coin_of in Hc. cbn [fst snd] in Hc. destruct (unspendable (PkScript o)); [discriminate |]. injection Hc as <- <-.
  apply (list_elem_of_fmap_2 snd) in Hin. cbn [snd] in Hin. rewrite outs_of_outputs in Hin.
  pose proof (amounts tx Hs) as Ha. pose proof (sane_scripts tx Hs) as Hl. rewrite Forall_forall in Ha, Hl.
  specialize (Ha o Hin). specialize (Hl o Hin). unfold amount_ok in Ha.
  assert (MaxSatoshi < 2 ^ 60 /\ MaxBlockBaseSize < 2 ^ 60) as [] by (split; reflexivity).
  constructor; cbn; [lia | unfold len_ok; lia | lia].
Qed.

(** The form that applying and connecting a block ask for. *)
Lemma u_form U b : universe U -> U b -> exists tx0 rest, well_formed b tx0 rest /\ Forall tx_sane (tx0 :: rest) /\
  forall h, 0 < h < 2 ^ 31 -> Forall (fun tx => Forall (fun q => coin_ok (snd q)) (made tx h)) (tx0 :: rest).
Proof.
  intros HU Hb. destruct (u_sane U HU b Hb) as (powLimit & now & flags & Hok%block_sanity_spec).
  destruct (one_coinbase b _ _ _ Hok) as (tx0 & rest & Htxs & Hcb & Hrest). exists tx0, rest.
  pose proof (sane_txs b _ _ _ Hok) as Hs. pose proof (distinct_txs b _ _ _ Hok) as Hd. pose proof (u_order U HU b Hb) as Ho.
  destruct (u_format U HU b Hb) as (_ & _ & Hf). rewrite Htxs in Hs, Hd, Ho, Hf. split_and!; [constructor | |]; try done.
  - apply Forall_cons in Hf as [_ Hf]. apply Forall_bind. eapply Forall_impl; [exact Hf |]. intros tx Htx.
    destruct Htx as (_ & _ & _ & _ & Hins & _). apply Forall_fmap, Forall_forall. intros ti Hti. rewrite Forall_forall in Hins.
    exact (proj1 (Hins ti Hti)).
  - intros h Hh. eapply Forall_impl; [exact Hs |]. intros tx Htx. now apply sane_made.
Qed.

Context (U : MsgBlock -> Prop) (HU : universe U).

(** The blocks that are stored for a tree. *)
Definition in_universe (files : D) (T : gmap bytes blockNode) : Prop :=
  forall n, in_tree T n -> is_Some (stored_block files n) /\
    forall p, parent n = Some p -> exists block, stored_block files n = Some block /\ U block /\
      BlockHash (Header block) = hash_of n /\ PrevBlock (Header block) = hash_of p.

Lemma made_ids tx h op c : (op, c) ∈ made tx h -> Hash op = TxHash tx.
Proof. intros Hin. apply outs_hash. rewrite <- (made_outs tx h). apply list_elem_of_fmap. now exists (op, c). Qed.

Lemma apply_tx_ids h tx S S' l op : apply_tx h tx S = Some (S', l) -> is_Some (S' !! op) -> is_Some (S !! op) \/ Hash op = TxHash tx.
Proof.
  assert (Hadd : forall S0, is_Some (add_coins (made tx h) S0 !! op) -> is_Some (S0 !! op) \/ Hash op = TxHash tx).
  { intros S0. destruct (decide (op ∈ (made tx h).*1)) as [Hin | Hout].
    - right. apply list_elem_of_fmap in Hin as ([op' c] & -> & Hin). exact (made_ids tx h op' c Hin).
    - rewrite lookup_add_coins_notin by done. now left. }
  unfold apply_tx. destruct (IsCoinBaseTx tx); [intros [= <- _]; apply Hadd |].
  destruct (decide _); [| discriminate]. destruct (lookups _ _); [| discriminate]. intros [= <- _] Hs.
  destruct (Hadd _ Hs) as [Hd | Hid]; [left | now right]. rewrite lookup_del_coins in Hd. destruct (decide _); [now destruct Hd | done].
Qed.

Lemma apply_txs_ids h txs : forall S S' l op, apply_txs h txs S = Some (S', l) -> is_Some (S' !! op) ->
  is_Some (S !! op) \/ Hash op ∈ TxHash <$> txs.
Proof.
  induction txs as [| tx txs IH]; intros S S' l op Ha Hs; cbn [apply_txs] in Ha; [injection Ha as <- _; now left |].
  destruct (apply_tx h tx S) as [[S1 l1] |] eqn:H1t; [| discriminate]. cbn in Ha.
  destruct (apply_txs h txs S1) as [[S2 l2] |] eqn:H2t; [| discriminate]. injection Ha as <- _.
  rewrite fmap_cons, elem_of_cons. destruct (IH S1 S2 l2 op H2t Hs) as [H1s | Hin]; [| auto].
  destruct (apply_tx_ids h tx S S1 l1 op H1t H1s); auto.
Qed.

Section Tree.
Context (files : D) (T : gmap bytes blockNode) (HT : block_tree T) (Hin : in_universe files T).

(** Every coin was made by a block of the branch. *)
Lemma coins_ids n : in_tree T n -> forall S op, coins_at files n = Some S -> is_Some (S !! op) ->
  exists m block, m ∈ branch n /\ U block /\ BlockHash (Header block) = hash_of m /\ Hash op ∈ tx_ids block.
Proof.
  induction n as [n IH] using node_ind. intros Hn S op HS Hop. destruct (parent n) as [p |] eqn:Hp.
  - destruct (Hin n Hn) as [_ Hblock]. destruct (Hblock p Hp) as (block & Hst & Hu & Hh & _).
    assert (Heq : coins_at files n = Sp ← coins_at files p; fst <$> apply_txs (height n) (Transactions block) Sp).
    { destruct n as [p' a d]. cbn [parent] in Hp. subst p'. cbn [coins_at].
      destruct (coins_at files p) as [Sp |]; [| done]. cbn [mbind option_bind]. now rewrite Hst. }
    rewrite Heq in HS. destruct (coins_at files p) as [Sp |] eqn:HSp; [| discriminate]. cbn [mbind option_bind] in HS.
    destruct (apply_txs _ _ Sp) as [[S1 l] |] eqn:Ha; [| discriminate]. injection HS as <-.
    destruct (apply_txs_ids _ _ _ _ _ op Ha Hop) as [Hold | Hnew].
    + destruct (IH p eq_refl (in_tree_parent T HT n p Hn Hp) Sp op HSp Hold) as (m & b & Hm & Hrest).
      exists m, b. split; [| exact Hrest]. exact (branch_parent n p m Hp Hm).
    + exists n, block. split_and!; [apply branch_self | done | done | exact Hnew].
  - rewrite coins_first in HS by done. injection HS as <-. rewrite lookup_empty in Hop. now destruct Hop.
Qed.

(** A block is below another when its node is in the branch of the parent. *)
Lemma branch_linked p : in_tree T p -> forall block m b,
  U block -> PrevBlock (Header block) = hash_of p -> m ∈ branch p -> U b -> BlockHash (Header b) = hash_of m ->
  tc (follows U) b block.
Proof.
  induction p as [p IH] using node_ind. intros Hp block m b Hu Hprev Hm Hub Hb. apply branch_cases in Hm as [-> | (q & Hq & Hm)].
  - apply tc_once. split_and!; [done | done | congruence].
  - destruct (Hin p Hp) as [_ Hblock]. destruct (Hblock q Hq) as (bp & _ & Hup & Hhp & Hpp).
    apply (tc_r b bp block); [exact (IH q Hq (in_tree_parent T HT p q Hp Hq) bp m b Hup Hpp Hm Hub Hb) |].
    split_and!; [done | done | congruence].
Qed.

(** The branch of every node is good. *)
Lemma universe_good n : in_tree T n -> good_branch files n.
Proof.
  induction n as [n IH] using node_ind. intros Hn. destruct (Hin n Hn) as [Hst Hblock].
  assert (Hgoal : match parent n with
                  | Some p => (exists block tx0 rest, block_good files n p block tx0 rest) /\ good_branch files p
                  | None => True end).
  { destruct (parent n) as [p |] eqn:Hp; [| done]. pose proof (in_tree_parent T HT n p Hn Hp) as Hpt. split; [| exact (IH p eq_refl Hpt)].
    destruct (Hblock p eq_refl) as (block & Hb & Hu & Hh & Hprev). destruct (u_form U block HU Hu) as (tx0 & rest & Hwf & Hsane & Hmade).
    exists block, tx0, rest. constructor; try done; [now apply Hmade; apply (child_height T HT n p) |].
    intros m S op Hm HS Hop. rewrite <- (wf_txs _ _ _ Hwf). destruct (branch_tree T HT p m Hpt Hm) as [Hmt _].
    destruct (coins_ids m Hmt S op HS Hop) as (x & b & Hx & Hub & Hbx & Hbid).
    apply (u_ids U HU b block); [| exact Hbid].
    exact (branch_linked p Hpt block x b Hu Hprev (branch_trans p m x Hm Hx) Hub Hbx). }
  destruct n as [p a d]. split; [exact Hst | exact Hgoal].
Qed.
End Tree.
End Universe.

(** * A tree and one more node *)

Lemma in_grown (T : gmap bytes blockNode) n m : T !! hash_of n = None ->
  in_tree (<[hash_of n := n]> T) m <-> m = n \/ in_tree T m.
Proof.
  intros Hnew. unfold in_tree. rewrite lookup_insert_Some. split; [intros [[_ ->] | [_ Hm]]; auto |].
  intros [-> | Hm]; [now left | right]. split; [congruence | done].
Qed.

Section Grow.
Context `{PubKeysLaws} `{CryptoLaws} `{MapOrder} {B D : Type} `{BucketLaws B} `{BlockFiles D}.
Context (net : Network) (env : Env B) (U : MsgBlock -> Prop) (HU : universe U).
Context (T : gmap bytes blockNode) (files files' : D) (n p : blockNode) (block : MsgBlock).
Context (HW : world net env T) (Hp : parent n = Some p) (Hpt : in_tree T p) (Hnew : T !! hash_of n = None).
Context (Hfiles : forall h, h <> hash_of n -> FetchBlock files' h = FetchBlock files h).

#[local] Abbreviation T' := (<[hash_of n := n]> T).
#[local] Abbreviation HB := (timed_block_tree T (w_tree net env T HW)).

Lemma stored_same m : in_tree T m -> stored_block files' m = stored_block files m.
Proof. intros Hm. unfold stored_block. rewrite Hfiles; [done |]. unfold in_tree in Hm. congruence. Qed.

Lemma coins_same m : in_tree T m -> coins_at files' m = coins_at files m.
Proof.
  induction m as [m IH] using node_ind. intros Hm. destruct (parent m) as [q |] eqn:Hq; [| now rewrite !coins_first].
  pose proof (IH q eq_refl (in_tree_parent T HB m q Hm Hq)) as Heq. pose proof (stored_same m Hm) as Hs.
  destruct m as [q' a d]. cbn [parent] in Hq. subst q'. cbn [coins_at]. now rewrite Heq, Hs.
Qed.

Lemma block_good_same m q b tx0 rest : in_tree T m -> parent m = Some q ->
  block_good files' m q b tx0 rest -> block_good files m q b tx0 rest.
Proof.
  intros Hm Hq [Hst Hwf Hh Hprev Hsane Hmade Hfresh]. constructor; try done; [now rewrite <- stored_same |].
  intros x S op Hx HS. apply (Hfresh x S op Hx). rewrite coins_same; [done |].
  exact (proj1 (branch_tree T HB q x (in_tree_parent T HB m q Hm Hq) Hx)).
Qed.

(** ** The invariant *)

Lemma caches_grown s : caches_ok (net_votes net) T s -> caches_ok (net_votes net) T' s.
Proof.
  intros Hs id r Hid. destruct (Hs id r Hid) as (Hslot & Hv & Hk). split_and!; [done | |].
  - intros m st [-> | Hm]%(in_grown T n _ Hnew) Hl; [| now apply Hv]. destruct (Hk (hash_of n)) as [x Hx]; [eauto | congruence].
  - intros h Hh. destruct (Hk h Hh) as [x Hx]. destruct (decide (hash_of n = h)) as [<- | Hne]; [exists n; apply lookup_insert_eq |].
    exists x. now rewrite lookup_insert_ne.
Qed.

(** The chain when the node is in the index with its block in the files. *)
Lemma chain_grown (b b' : BlockChain B D) t S :
  chain_ok net T files b t S ->
  index_nodes (ch_index b') = T' -> (forall m, in_tree T m -> NodeStatus m (ch_index b') = NodeStatus m (ch_index b)) ->
  KnownValid (NodeStatus n (ch_index b')) = false -> blockFiles (ch_db b') = files' ->
  bestChain b' = bestChain b -> ch_utxoCache b' = ch_utxoCache b -> spendBucket (ch_db b') = spendBucket (ch_db b) ->
  stateSnapshot b' = stateSnapshot b -> ch_thresholds b' = ch_thresholds b ->
  chain_ok net T' files' b' t S.
Proof using HW Hnew Hfiles.
  intros ([Hnodes Hpath Hf Hj Hsn Hv Hval] & HS & Hcache) Hn' Hst Hnv Hf' Hbest Hutxo Hspend Hsnap Hth.
  pose proof (path_tip T _ t Hpath) as Ht. split; [constructor | split].
  - exact Hn'.
  - rewrite Hbest. destruct Hpath as [_ Hlen Hat]. constructor; [apply (in_grown T n _ Hnew); auto | done | done].
  - exact Hf'.
  - rewrite Hspend. intros m q blk tx0 rest S0 S' l Hm Hq Hb HS0 Ha. destruct (branch_tree T HB t m Ht Hm) as [Hmt _].
    rewrite coins_same in HS0 by exact (in_tree_parent T HB m q Hmt Hq).
    exact (Hj m q blk tx0 rest S0 S' l Hm Hq (block_good_same m q blk tx0 rest Hmt Hq Hb) HS0 Ha).
  - now rewrite Hsnap.
  - rewrite Hth. now apply caches_grown.
  - intros m [-> | Hm]%(in_grown T n _ Hnew) Hk; [congruence |]. rewrite Hst in Hk by done. rewrite coins_same by done. now apply Hval.
  - now rewrite coins_same.
  - rewrite Hutxo. destruct Hcache as (f & S0 & Hfb & HS0 & Hrest). exists f, S0. split_and!; try apply Hrest; [done |].
    rewrite coins_same; [done |]. exact (proj1 (branch_tree T HB t f Ht Hfb)).
Qed.

(** ** The world *)

Lemma world_grown : node_ok n -> Threshold.median_time p < n_timestamp (data n) -> hash_of n <> replicate 32 x00 -> height n < 2 ^ 31 - 1 ->
  world net env T'.
Proof using HW Hp Hpt Hnew.
  intros Hok Hlate Hzero Hh. destruct HW as [[Htree Hlater Hz] Hvotes Hheights Hprune Hco Hvo].
  constructor; try done; [constructor |].
  - exact (block_tree_child T n p Htree Hp Hpt Hok Hnew).
  - intros m q [-> | Hm]%(in_grown T n _ Hnew) Hq; [assert (q = p) as -> by congruence; done | eauto].
  - now rewrite lookup_insert_ne.
  - intros m [-> | Hm]%(in_grown T n _ Hnew); [done | auto].
Qed.

Lemma stored_grown : in_universe U files T -> U block -> BlockHash (Header block) = hash_of n ->
  PrevBlock (Header block) = hash_of p -> stored_block files' n = Some block -> in_universe U files' T'.
Proof using Hp Hpt Hnew Hfiles.
  intros Hin Hu Hh Hprev Hst m [-> | Hm]%(in_grown T n _ Hnew).
  - split; [exists block; exact Hst |]. intros q Hq. exists block. assert (q = p) as -> by congruence. done.
  - rewrite stored_same by done. exact (Hin m Hm).
Qed.
End Grow.
