(* ===== verification/ProcessSpec.v ===== *)
(** Processing blocks: from any state in which the chain and the pool of orphans
    are right, a block leads to such a state, whatever becomes of it and of the
    orphans above it, and the work of the tip does not decrease. *)

From stdpp Require Import gmap fin_maps.
From S2P Require Import Prelude Slices ScriptError Opcodes Tokenizer Vlq Compress WireCommon MsgTx MsgBlock Script Crypto SigHash SigCache EngineState SigCheck OpcodeExec Engine EngineInv BtcUtil Merkle WorkMath BlockIndex Difficulty TxRules Validate UtxoView Supply Bucket Chainio SizeHelper UtxoCache ChainView Threshold ScriptVal Connect ConnectSpec Votes ReorgView Chain ChainInv ChainSpec Orphans Process TreeSpec.
#[local] Open Scope Z_scope.

Section Spec.
Context `{PubKeysLaws} `{CryptoLaws} `{MapOrder} {B D : Type} `{BucketLaws B} `{BlockFilesLaws D}.
Context (net : Network) (env : Env B) (orphan_range : OrphanPool -> list (bytes * orphanBlock)).
Context (Hrange : forall p, orphan_order (orphan_range p) p) (U : MsgBlock -> Prop) (HU : universe U).

#[local] Abbreviation FS := (FullChain B D).
#[local] Abbreviation FC := (M FS ChainError).

(** The chain and the pool are right. *)
Record full_ok (s : FS) (T : gmap bytes blockNode) (files : D) (t : blockNode) (S : coins) : Prop := {
  fo_world : world net env T;
  fo_chain : chain_ok net T files (the_chain s) t S;
  fo_stored : in_universe U files T;
  fo_files b raw : U b -> FetchBlock files (BlockHash (Header b)) = Some raw ->
    exists blk, NewBlockFromBytes raw = Ok blk /\ msgBlock blk = b;
  fo_apart h : is_Some (orphans (pool s) !! h) -> T !! h = None;
  fo_pool : pool_ok U (pool s);
  fo_bound : pool_bounded (pool s);
}.

Lemma universe_apart : told_apart U.
Proof. intros b1 b2 H1b H2b Heq. now rewrite (u_hash U HU b1 b2 H1b H2b Heq). Qed.

(** Another part of the state changes. *)
Lemma full_same s s' T files t S : full_ok s T files t S -> the_chain s' = the_chain s -> pool s' = pool s -> full_ok s' T files t S.
Proof. intros [Hw Hc Hst Hf Ha Hp Hb] Hc' Hp'. constructor; try done; [now rewrite Hc' | now rewrite Hp' ..]. Qed.

Lemma full_chain s b T files t S t' S' :
  full_ok s T files t S -> chain_ok net T files b t' S' -> full_ok (with_chain b s) T files t' S'.
Proof. intros [Hw Hc Hst Hf Ha Hp Hb] Hc'. now constructor. Qed.

(** ** Checkpoints and context *)

Definition keeps (s s' : FS) : Prop := the_chain s' = the_chain s /\ pool s' = pool s.

Lemma on_chain_tip (s : FS) :
  on_chain theTip s = (match tip (bestChain (the_chain s)) with Some t => Ok t | None => Panic end, s).
Proof. unfold on_chain, part, theTip. rewrite bind_eq. cbn [get]. destruct s as [b ? ? ?]. cbn. now destruct (tip (bestChain b)). Qed.

Lemma find_checkpoint_keeps s : keeps s (snd (findPreviousCheckpoint net s)).
Proof.
  unfold findPreviousCheckpoint. destruct (net_checkpoints net) as [| first cs]; [done |]. rewrite bind_eq. cbn [get].
  destruct (checkpointNode s) as [kn |] eqn:Hk, (nextCheckpoint s) as [nx |] eqn:Hx; [| done | |].
  3: destruct (last_known _ _ _) as [[x nxt] |]; split; reflexivity.
  all: rewrite bind_eq, on_chain_tip; destruct (tip (bestChain (the_chain s))) as [t |]; [| done];
    destruct (height t <? fst nx); [done |]; destruct (LookupNode _ _); split; reflexivity.
Qed.

(** A chain that differs in its caches of votes. *)
Definition votes_only (b b' : BlockChain B D) : Prop := exists caches, b' = with_checks caches (ch_scripts b) b.

Lemma votes_only_refl b : votes_only b b.
Proof. exists (ch_thresholds b). now destruct b. Qed.

Lemma votes_only_trans b1 b2 b3 : votes_only b1 b2 -> votes_only b2 b3 -> votes_only b1 b3.
Proof. intros [c1 ->] [c2 ->]. now exists c2. Qed.

(** What a check in context does: it may change the caches of votes and the
    checkpoint. *)
Definition checks_only (T : gmap bytes blockNode) (s s' : FS) : Prop :=
  votes_only (the_chain s) (the_chain s') /\ pool s' = pool s /\
  (caches_ok (net_votes net) T (ch_thresholds (the_chain s)) -> caches_ok (net_votes net) T (ch_thresholds (the_chain s'))).

Lemma checks_only_refl T s : checks_only T s s.
Proof. split_and!; [apply votes_only_refl | done | done]. Qed.

Lemma checks_only_trans T s1 s2 s3 : checks_only T s1 s2 -> checks_only T s2 s3 -> checks_only T s1 s3.
Proof.
  intros (Hv1 & Hp1 & Hc1) (Hv2 & Hp2 & Hc2).
  split_and!; [exact (votes_only_trans _ _ _ Hv1 Hv2) | congruence | auto].
Qed.

Lemma checks_only_full T s s' files t S : checks_only T s s' -> full_ok s T files t S -> full_ok s' T files t S.
Proof.
  intros ([caches Hc] & Hp & Hok) [Hw (Hch & HS & Hcache) Hst Hf Ha Hpool Hb]. constructor; try done; [| now rewrite Hp ..].
  rewrite Hc in *. cbn in Hok. split; [| split; [done | exact Hcache]]. destruct Hch. constructor; try done. cbn. auto.
Qed.

Lemma checks_bind T {A C} (m : FC A) (k : A -> FC C) s :
  checks_only T s (snd (m s)) -> (forall a s', checks_only T s s' -> checks_only T s' (snd (k a s'))) ->
  checks_only T s (snd (bind m k s)).
Proof.
  intros Hm Hk. rewrite bind_eq. destruct (m s) as [[a | e |] s1]; cbn [snd] in *; try done.
  exact (checks_only_trans T s s1 _ Hm (Hk a s1 Hm)).
Qed.

(** Statements that leave the state. *)
Lemma checks_pure T {A} (m : FC A) s : snd (m s) = s -> checks_only T s (snd (m s)).
Proof. intros ->. apply checks_only_refl. Qed.

Lemma on_chain_lift {A} (o : outcome ChainError A) (s : FS) : snd (on_chain (lift o) s) = s.
Proof. now destruct s. Qed.

Lemma vote_state_checks T s prev id : world net env T -> index_nodes (ch_index (the_chain s)) = T -> in_tree T prev ->
  checks_only T s (snd (vote_state net prev id s)).
Proof.
  intros HW Hnodes Hn. unfold vote_state. rewrite bind_eq. cbn [get]. rewrite Hnodes. unfold on_chain, on_caches, part.
  destruct (deploymentState T (net_votes net) (Some prev) id (ch_thresholds (the_chain s))) as [o caches] eqn:Hrun. cbn [snd].
  split_and!; [now exists caches | done |]. cbn. intros Hok. unfold deploymentState in Hrun.
  destruct (_ <? _)%nat eqn:Hid; [now injection Hrun as _ <- |].
  destruct (Deployments (net_votes net) !! id) as [d |] eqn:Hd; [| now injection Hrun as _ <-].
  destruct (deploymentState_caches T (w_tree net env T HW) (net_votes net) (w_votes net env T HW)
    (unknownRulesWarned (ch_thresholds (the_chain s))) id d (Some prev) (ch_thresholds (the_chain s)) Hd (conj Hok eq_refl))
    as (s' & Hrun' & Hs' & _); [split; [done | now apply (w_heights net env T HW)] |].
  unfold deploymentState in Hrun'. rewrite Hid, Hd, Hrun in Hrun'. now injection Hrun' as _ ->.
Qed.

Lemma header_context_checks T s header prev flags : checks_only T s (snd (header_context net header prev flags s)).
Proof.
  unfold header_context. pose proof (find_checkpoint_keeps s) as Hk. destruct (findPreviousCheckpoint net s) as [cp s'].
  cbn [snd] in *. destruct (is_ok _); [| apply checks_only_refl]. destruct Hk as [Hc Hp].
  split_and!; [rewrite Hc; apply votes_only_refl | done | now rewrite Hc].
Qed.

(** A header that passes in its context is later than the median. *)
Lemma header_context_late (s s' : FS) header prev flags : has_flag flags BFFastAdd = false ->
  header_context net header prev flags s = (Ok tt, s') -> Threshold.median_time prev < Timestamp header.
Proof.
  intros Hflags. unfold header_context. destruct (findPreviousCheckpoint net s) as [cp s1]. intros [= Ho _].
  unfold CheckBlockHeaderContext in Ho. rewrite Hflags in Ho. cbn [negb] in Ho.
  destruct (calcNextRequiredDifficulty _ _ _) as [d | |]; try discriminate. cbn [obind] in Ho.
  destruct (negb (Bits header =? d)); [discriminate |]. cbn [check obind] in Ho.
  destruct (median_time_spec prev) as [Hm _]. rewrite Hm in Ho. cbn [obind] in Ho.
  destruct (Z.gtb_spec (Timestamp header) (Threshold.median_time prev)); [done | discriminate].
Qed.

Lemma context_run T s block prev flags : world net env T -> index_nodes (ch_index (the_chain s)) = T -> in_tree T prev ->
  let '(o, s') := checkBlockContext net block prev flags s in
  checks_only T s s' /\
  (o = Ok tt -> has_flag flags BFFastAdd = false -> Threshold.median_time prev < Timestamp (Header block)).
Proof.
  intros HW Hnodes Hn. destruct (checkBlockContext net block prev flags s) as [o s'] eqn:Hrun.
  assert (Hsame : forall s1, checks_only T s s1 -> index_nodes (ch_index (the_chain s1)) = T)
    by (intros s1 ([c ->] & _); exact Hnodes).
  split.
  - replace s' with (snd (checkBlockContext net block prev flags s)) by now rewrite Hrun. clear Hrun. unfold checkBlockContext.
    apply checks_bind; [apply header_context_checks |]. intros _ s1 H1s. destruct (has_flag flags BFFastAdd); [apply checks_only_refl |].
    apply checks_bind; [now apply vote_state_checks; [| apply Hsame |] |]. intros csv s2 H2s.
    apply checks_bind; [apply checks_pure; case_bool_decide; [apply on_chain_lift | done] |]. intros bt s3 H3s.
    apply checks_bind; [apply checks_pure; unfold rule_guard, guard; now destruct (negb _) |]. intros _ s4 H4s.
    apply checks_bind; [apply checks_pure; now destruct (ShouldHaveSerializedBlockHeight _ && _) |]. intros _ s5 H5s.
    apply checks_bind; [apply vote_state_checks; [done | | done] |].
    { eapply Hsame. eauto 10 using checks_only_trans. }
    intros sw s6 H6s. case_bool_decide; [| apply checks_only_refl].
    apply checks_bind; [now apply checks_pure |]. intros _ s7 H7s. apply checks_pure. unfold rule_guard, guard. now destruct (_ >? _).
  - intros -> Hflags. unfold checkBlockContext in Hrun. rewrite bind_eq in Hrun.
    destruct (header_context net (Header block) prev flags s) as [[[] | |] s1] eqn:Hh; try discriminate.
    exact (header_context_late s s1 _ _ _ Hflags Hh).
Qed.

(** ** Accepting a block *)

(** No height comes near its limit when some more blocks are added. *)
Definition room (T : gmap bytes blockNode) (k : Z) : Prop := forall n, in_tree T n -> height n + k < 2 ^ 31 - 1.

Lemma room_less T k k' : room T k -> k' <= k -> room T k'.
Proof. intros Hr Hk n Hn. specialize (Hr n Hn). lia. Qed.

Lemma on_chain_run {A} (m : M (BlockChain B D) ChainError A) (s : FS) o b : m (the_chain s) = (o, b) ->
  on_chain m s = (o, with_chain b s).
Proof. intros Hm. unfold on_chain, part. rewrite Hm. now destruct o. Qed.

Lemma best_step T files (b : BlockChain B D) t S node p block flags : world net env T ->
  chain_ok net T files b t S -> offered T files t node p block flags ->
  exists o b' t' S', connectBestChain net env node block flags b = (o, b') /\ chain_ok net T files b' t' S' /\
    (t' = t \/ (t' = node /\ (p = t \/ n_workSum (data t) < n_workSum (data node)))).
Proof.
  intros HW Hok Ho. destruct (connectBestChain net env node block flags b) as [o b'] eqn:Hrun. exists o, b'.
  destruct (offered_cases net env T files HW b t S node p block flags Hok Ho) as [[-> _] | Hne].
  - pose proof (connectBestChain_extends net env T files HW b t S node block flags Hok Ho) as Hx. rewrite Hrun in Hx.
    destruct o as [m | e |]; [destruct Hx as (_ & [S' Hok'] & _); exists node, S'; split_and!; auto | exists t, S; destruct Hx as (Hx & _); split_and!; auto ..].
  - pose proof (connectBestChain_side net env T files HW b t S node p block flags Hok Ho Hne) as Hx. rewrite Hrun in Hx.
    destruct o as [[|] | e |].
    + destruct Hx as (Hw & [[_ [S' Hok']] | (Hok' & _)]); [exists node, S'; split_and!; auto | exists t, S; split_and!; auto].
    + destruct Hx as [-> _]. exists t, S. split_and!; auto.
    + exists t, S. destruct Hx as (Hx & _). split_and!; auto.
    + exists t, S. destruct Hx as (Hx & _). split_and!; auto.
Qed.

(** A node for a new block with the block in the files. *)
Lemma store_run T files (s : FS) t S block prev flags k :
  has_flag flags BFFastAdd = false -> full_ok s T files t S -> U block -> T !! BlockHash (Header block) = None -> orphans (pool s) !! BlockHash (Header block) = None ->
  in_tree T prev -> PrevBlock (Header block) = hash_of prev -> Threshold.median_time prev < Timestamp (Header block) -> room T (k + 1) -> 0 <= k ->
  let node := newBlockNode (Header block) (Some prev) in
  let T' := <[hash_of node := node]> T in
  exists files' s', (on_chain (db_Update (on_db (fun d => Ok (dbStoreBlock block d))));;
      on_chain (on_index (AddNode node statusDataStored));; on_chain flushIndex) s = (Ok tt, s') /\
    full_ok s' T' files' t S /\ pool s' = pool s /\ room T' k /\ offered T' files' t node prev block flags.
Proof.
  intros Hflags Hfull Hu Hnew Hno Hprev Hph Hlate Hroom Hk node T'. pose proof Hfull as [HW Hok Hst Hf Ha Hp Hb].
  pose proof (timed_block_tree T (w_tree net env T HW)) as HB. pose proof (Hroom prev Hprev) as Hroomp.
  pose proof (in_tree_ok T HB prev Hprev) as Hprevok. destruct (node_ok_height prev Hprevok) as [Hh0 _].
  assert (Hnode : node_ok node) by (apply newBlockNode_ok; [done | lia]).
  assert (Hpar : parent node = Some prev) by done. assert (Hhash : hash_of node = BlockHash (Header block)) by done.
  assert (Hheight : height node = height prev + 1) by (unfold node, newBlockNode; rewrite height_Node; cbn [n_height]; apply int32_small; lia).
  pose proof Hok as ([_ _ Hcf _ _ _ _] & _ & _). set (b := the_chain s) in *.
  set (d' := dbStoreBlock block (ch_db b)). set (files' := blockFiles d').
  assert (Hd : spendBucket d' = spendBucket (ch_db b)) by (unfold d', dbStoreBlock; now destruct (HasBlock _ _)).
  assert (Hsame : forall h, h <> hash_of node -> FetchBlock files' h = FetchBlock files h).
  { intros h Hne. unfold files', d', dbStoreBlock. rewrite Hcf. destruct (HasBlock _ _); [now rewrite Hcf |]. cbn [blockFiles].
    rewrite Chain.fetch_stored, decide_False; [done | congruence]. }
  assert (Hread : exists raw blk, FetchBlock files' (hash_of node) = Some raw /\ NewBlockFromBytes raw = Ok blk /\ msgBlock blk = block).
  { unfold files', d', dbStoreBlock. rewrite Hcf, Hhash. unfold HasBlock. destruct (FetchBlock files _) as [raw |] eqn:Hraw.
    - destruct (Hf block raw Hu Hraw) as (blk & Hx & Hy). rewrite Hcf. eauto.
    - cbn [blockFiles]. rewrite Chain.fetch_stored, decide_True by done. destruct (u_read U block HU Hu) as (blk & Hx & Hy). eauto. }
  assert (Hstored : stored_block files' node = Some block).
  { unfold stored_block. destruct Hread as (raw & blk & -> & -> & ->). done. }
  set (b1 := with_index (flushToDB (AddNode node statusDataStored (ch_index b))) (with_chain_db d' b)).
  pose proof (world_grown net env T node prev HW Hpar Hprev Hnew Hnode Hlate (u_zero U HU block Hu) ltac:(lia)) as HW'.
  pose proof (stored_grown U T files files' node prev block Hpar Hprev Hnew Hsame Hst Hu (eq_sym Hhash) Hph Hstored) as Hst'.
  assert (Hok1 : chain_ok net T' files' b1 t S).
  { apply (chain_grown net env T files files' node HW Hnew Hsame b b1 t S Hok); try done.
    - unfold b1, with_index, flushToDB, AddNode. cbn. now rewrite (ca_nodes _ _ _ b t (proj1 Hok)).
    - intros m Hm. unfold NodeStatus, b1. cbn. rewrite lookup_insert_ne; [done |]. unfold in_tree in Hm. congruence.
    - unfold NodeStatus, b1. cbn. rewrite lookup_insert_eq. reflexivity. }
  assert (Hroom' : room T' k).
  { intros m [-> | Hm]%(in_grown T node _ Hnew); [lia |]. specialize (Hroom m Hm). lia. }
  exists files', (with_chain b1 s). split_and!; [reflexivity | | done | done |].
  - constructor; try done.
    + intros b2 raw Hu2 Hraw. destruct (decide (BlockHash (Header b2) = hash_of node)) as [Heq | Hne].
      * assert (b2 = block) as -> by (apply (u_hash U HU); [done | done | congruence]).
        destruct Hread as (raw' & blk & Hr & Hx & Hy). rewrite Heq, Hr in Hraw. injection Hraw as <-. eauto.
      * rewrite Hsame in Hraw by done. eauto.
    + intros h Hh. unfold T'. rewrite lookup_insert_ne; [now apply Ha |]. intros <-. rewrite Hhash in Hh. cbn [pool with_chain] in Hh.
      rewrite Hno in Hh. now destruct Hh.
  - pose proof (timed_block_tree T' (w_tree net env T' HW')) as HB'. pose proof (path_tip T _ t (ca_path _ _ _ b t (proj1 Hok))) as Ht.
    constructor; try done; [apply (in_grown T node _ Hnew); auto | | | congruence].
    + apply (universe_good U HU files' T' HB' Hst'). apply (in_grown T node _ Hnew); auto.
    + apply (universe_good U HU files' T' HB' Hst'). apply (in_grown T node _ Hnew); auto.
Qed.

Lemma seq3 {A} (m1 m2 m3 : FC unit) (k : FC A) s s' : (m1;; m2;; m3) s = (Ok tt, s') -> (m1;; m2;; m3;; k) s = k s'.
Proof.
  rewrite !bind_eq. destruct (m1 s) as [[[] | |] s1]; try discriminate. rewrite !bind_eq.
  destruct (m2 s1) as [[[] | |] s2]; try discriminate. rewrite bind_eq. now intros ->.
Qed.

Lemma notified_ok T files (b : BlockChain B D) t S n : chain_ok net T files b t S -> chain_ok net T files (notified n b) t S.
Proof. intros ([] & HS & Hcache). split; [now constructor | split; [done | exact Hcache]]. Qed.

(** What every step gives: a state that is right for a larger tree, with a tip that
    does not have less work. *)
Definition leads (T : gmap bytes blockNode) (t : blockNode) (k : Z) (s' : FS) (T' : gmap bytes blockNode) : Prop :=
  T ⊆ T' /\ room T' k /\ exists files' t' S', full_ok s' T' files' t' S' /\ n_workSum (data t) <= n_workSum (data t').

Lemma CalcWork_nonneg bits : 0 <= CalcWork bits.
Proof. unfold CalcWork. destruct (Z.leb_spec (CompactToBig bits) 0); [done |]. apply Z.div_pos; [now vm_compute | lia]. Qed.

Lemma accept_run T files (s : FS) t S block flags k :
  full_ok s T files t S -> U block -> has_flag flags BFFastAdd = false -> T !! BlockHash (Header block) = None ->
  orphans (pool s) !! BlockHash (Header block) = None -> room T (k + 1) -> 0 <= k ->
  let '(o, s') := maybeAcceptBlock net env block flags s in
  pool s' = pool s /\ exists T', leads T t k s' T' /\ (T' = T \/ exists n, T' = <[BlockHash (Header block) := n]> T) /\
    (forall isMain, o = Ok isMain -> is_Some (T' !! BlockHash (Header block))).
Proof.
  intros Hfull Hu Hflags Hnew Hno Hroom Hk. pose proof Hfull as [HW Hok _ _ _ _ _].
  pose proof (ca_nodes _ _ _ _ t (proj1 Hok)) as Hnodes.
  assert (Hstay : forall s', pool s' = pool s -> full_ok s' T files t S -> pool s' = pool s /\ exists T', leads T t k s' T' /\
    (T' = T \/ exists n, T' = <[BlockHash (Header block) := n]> T) /\ (forall isMain : bool, False -> is_Some (T' !! BlockHash (Header block)))).
  { intros s' Hp Hs. split; [done |]. exists T. split_and!; [| now left | done].
    split_and!; [done | apply (room_less T (k + 1)); [done | lia] |]. exists files, t, S. split; [done | lia]. }
  unfold maybeAcceptBlock. rewrite bind_eq. cbn [get]. unfold LookupNode. rewrite Hnodes.
  destruct (T !! PrevBlock (Header block)) as [prev |] eqn:Hprev.
  2: { destruct (Hstay s eq_refl Hfull) as (Hp & T' & Hl & HT & _). split; [done |]. exists T'. split_and!; [done | done | discriminate]. }
  pose proof (timed_block_tree T (w_tree net env T HW)) as HB. pose proof (tree_hash T HB _ _ Hprev) as Hph.
  assert (Hpt : in_tree T prev) by (unfold in_tree; now rewrite Hph).
  rewrite bind_eq. unfold rule_guard at 1, guard. destruct (KnownInvalid _).
  { cbn. destruct (Hstay s eq_refl Hfull) as (Hp & T' & Hl & HT & _). split; [done |]. exists T'. split_and!; [done | done | discriminate]. }
  cbn [ret]. rewrite bind_eq. pose proof (context_run T s block prev flags HW Hnodes Hpt) as Hctx.
  destruct (checkBlockContext net block prev flags s) as [o s1]. destruct Hctx as [Hch Hlate].
  pose proof (checks_only_full T s s1 files t S Hch Hfull) as Hfull1. destruct Hch as (_ & Hp1 & _).
  assert (Hfail : pool s1 = pool s /\ exists T', leads T t k s1 T' /\ (T' = T \/ exists n, T' = <[BlockHash (Header block) := n]> T)).
  { destruct (Hstay s1 Hp1 Hfull1) as (Hp & T' & Hl & HT & _). eauto. }
  destruct o as [[] | e |]; [clear Hfail | destruct Hfail as (Hp & T' & Hl & HT); split; [done |]; exists T'; split_and!; [done | done | discriminate] ..].
  destruct (store_run T files s1 t S block prev flags k Hflags Hfull1 Hu Hnew ltac:(congruence) Hpt (eq_sym Hph) (Hlate eq_refl Hflags) Hroom Hk)
    as (files' & s2 & Hstore & Hfull2 & Hp2 & Hroom2 & Hoff). cbv zeta. rewrite (seq3 _ _ _ _ _ _ Hstore).
  set (node := newBlockNode (Header block) (Some prev)) in *. set (T' := <[hash_of node := node]> T) in *.
  destruct (best_step T' files' (the_chain s2) t S node prev block flags (fo_world _ _ _ _ _ Hfull2) (fo_chain _ _ _ _ _ Hfull2) Hoff)
    as (o & b' & t' & S' & Hrun & Hok' & Ht').
  assert (Hwork : n_workSum (data t) <= n_workSum (data t')).
  { destruct Ht' as [-> | [-> [-> | Hlt]]]; [lia | | lia]. pose proof (CalcWork_nonneg (Bits (Header block))). unfold node, newBlockNode. cbn. lia. }
  assert (Hres : forall b2, chain_ok net T' files' b2 t' S' -> pool (with_chain b2 s2) = pool s /\ leads T t k (with_chain b2 s2) T').
  { intros b2 Hok2. split; [cbn; congruence |]. split_and!; [now apply insert_subseteq | done |]. exists files', t', S'.
    split; [now apply (full_chain s2 b2 T' files' t S t' S') | done]. }
  assert (HT' : is_Some (T' !! BlockHash (Header block))) by (exists node; apply lookup_insert_eq).
  rewrite bind_eq, (on_chain_run _ s2 _ _ Hrun). destruct o as [m | e |].
  - rewrite bind_eq, (on_chain_run (sendNotification (NTBlockAccepted (BlockHash (Header block)))) _ (Ok tt) _ eq_refl).
    destruct (Hres (notified (NTBlockAccepted (BlockHash (Header block))) b') (notified_ok T' files' b' t' S' _ Hok')) as [Hp Hl].
    split; [exact Hp |]. exists T'. split_and!; [exact Hl | right; now exists node | done].
  - destruct (Hres b' Hok') as [Hp Hl]. split; [exact Hp |]. exists T'. split_and!; [exact Hl | right; now exists node | discriminate].
  - destruct (Hres b' Hok') as [Hp Hl]. split; [exact Hp |]. exists T'. split_and!; [exact Hl | right; now exists node | discriminate].
Qed.

(** ** Orphans *)

Lemma leads_refl T files (s : FS) t S k : full_ok s T files t S -> room T k -> leads T t k s T.
Proof. intros Hs Hr. split_and!; [done | done |]. exists files, t, S. split; [done | lia]. Qed.

(** An orphan that is taken from the pool. *)
Lemma take_orphan T files (s : FS) t S hash orphan rest :
  full_ok s T files t S -> children (pool s) hash = orphan :: rest ->
  let s1 := with_pool (removeOrphanBlock orphan (pool s)) s in
  full_ok s1 T files t S /\ U (orphan_block orphan) /\ T !! orphan_hash orphan = None /\
  orphans (pool s1) !! orphan_hash orphan = None /\ size (orphans (pool s)) = Datatypes.S (size (orphans (pool s1))).
Proof.
  intros Hs Hch s1. pose proof Hs as [Hw Hc Hst Hf Ha Hp Hb].
  assert (Hin : orphans (pool s) !! orphan_hash orphan = Some orphan).
  { apply (po_children U _ Hp hash orphan). rewrite Hch. constructor. }
  pose proof (po_known U _ Hp _ _ Hin) as Hu. split_and!; [| done | apply Ha; eauto | apply lookup_delete_eq |].
  - constructor; try done.
    + intros h [o Ho]. apply orphans_remove in Ho as [Ho _]. apply Ha. eauto.
    + now apply (remove_ok U universe_apart).
    + now apply remove_bounded.
  - change (orphans (pool s1)) with (orphans (removeOrphanBlock orphan (pool s))). rewrite remove_size, decide_True by eauto.
    assert (size (orphans (pool s)) <> 0%nat); [| lia]. intros Hz%map_size_empty_inv. rewrite Hz, lookup_empty in Hin. discriminate.
Qed.

Lemma processOrphans_run flags : has_flag flags BFFastAdd = false -> forall fuel hashes T files (s : FS) t S k,
  full_ok s T files t S -> room T (k + Z.of_nat (size (orphans (pool s)))) -> 0 <= k ->
  exists T', leads T t k (snd (processOrphans net env fuel hashes flags s)) T'.
Proof.
  intros Hflags. induction fuel as [| fuel IH]; intros hashes T files s t S k Hs Hr Hk; destruct hashes as [| hash hashes];
    cbn [processOrphans]; [exists T; apply (leads_refl T files s t S); [done | apply (room_less _ _ _ Hr); lia] .. | ].
  rewrite bind_eq. cbn [get]. destruct (children (pool s) hash) as [| orphan rest] eqn:Hch; [now apply (IH hashes T files s t S k) |].
  destruct (take_orphan T files s t S hash orphan rest Hs Hch) as (Hs1 & Hu & Hnew & Hno & Hsize).
  rewrite bind_eq. cbn [put]. set (s1 := with_pool _ s) in *. rewrite bind_eq.
  pose proof (accept_run T files s1 t S (orphan_block orphan) flags (k + Z.of_nat (size (orphans (pool s1)))) Hs1 Hu Hflags Hnew Hno
    ltac:(apply (room_less _ _ _ Hr); lia) ltac:(lia)) as Hacc.
  destruct (maybeAcceptBlock net env (orphan_block orphan) flags s1) as [o s2]. destruct Hacc as (Hp2 & T2 & Hl2 & _ & _).
  destruct Hl2 as (Hsub & Hr2 & files2 & t2 & S2 & Hs2 & Hw2).
  assert (Hstop : exists T', leads T t k s2 T').
  { exists T2. split_and!; [done | apply (room_less _ _ _ Hr2); lia |]. eauto. }
  destruct o as [m | e |]; [| exact Hstop ..]. rewrite <- Hp2 in Hr2.
  destruct (IH (hash :: hashes ++ [orphan_hash orphan]) T2 files2 s2 t2 S2 k Hs2 Hr2 Hk) as (T3 & Hsub3 & Hr3 & files3 & t3 & S3 & Hs3 & Hw3).
  exists T3. split_and!; [etransitivity; eauto | done |]. exists files3, t3, S3. split; [done | lia].
Qed.

(** ** Processing a block *)

Lemma not_there T (s : FS) hash : index_nodes (ch_index (the_chain s)) = T -> blockExists hash s = Ok false -> T !! hash = None.
Proof.
  intros Hnodes. unfold blockExists, HaveBlock. rewrite Hnodes. destruct (T !! hash); [rewrite bool_decide_eq_true_2 by eauto; discriminate | done].
Qed.

(** A block that is new to the state, once it has passed the checks. *)
Lemma process_rest_run T files (s : FS) t S block flags k exists_ :
  full_ok s T files t S -> U block -> has_flag flags BFFastAdd = false -> T !! BlockHash (Header block) = None ->
  orphans (pool s) !! BlockHash (Header block) = None -> room T (k + 1 + Z.of_nat (size (orphans (pool s)))) -> 0 <= k ->
  let '(o, s') := (if negb exists_ then
      p <- lift (of_viewed (addOrphanBlock (orphan_range (pool s)) (now env) block (pool s)));; put (with_pool p s);; ret (false, true)
    else
      isMainChain <- maybeAcceptBlock net env block flags;; s <- get;;
      processOrphans net env (orphan_fuel (pool s)) [BlockHash (Header block)] flags;; ret (isMainChain, false)) s in
  exists T', leads T t k s' T' /\
    match o with
    | Ok (isMain, true) => T' = T /\ isMain = false /\ IsKnownOrphan (BlockHash (Header block)) (pool s') = true
    | Ok (_, false) => is_Some (T' !! BlockHash (Header block))
    | _ => True
    end.
Proof.
  intros Hs Hu Hflags Hnew Hno Hr Hk. destruct exists_; cbn [negb].
  - rewrite bind_eq. pose proof (accept_run T files s t S block flags (k + Z.of_nat (size (orphans (pool s)))) Hs Hu Hflags Hnew Hno
      ltac:(apply (room_less _ _ _ Hr); lia) ltac:(lia)) as Hacc.
    destruct (maybeAcceptBlock net env block flags s) as [o s1]. destruct Hacc as (Hp1 & T1 & Hl1 & _ & Hin).
    destruct Hl1 as (Hsub & Hr1 & files1 & t1 & S1 & Hs1 & Hw1).
    assert (Hstop : exists T', leads T t k s1 T' /\ True).
    { exists T1. split; [| done]. split_and!; [done | apply (room_less _ _ _ Hr1); lia |]. eauto. }
    destruct o as [m | e |]; [| exact Hstop ..]. rewrite bind_eq. cbn [get]. rewrite bind_eq. rewrite <- Hp1 in Hr1.
    destruct (processOrphans_run flags Hflags (orphan_fuel (pool s1)) [BlockHash (Header block)] T1 files1 s1 t1 S1 k Hs1 Hr1 Hk)
      as (T2 & Hsub2 & Hr2 & files2 & t2 & S2 & Hs2 & Hw2).
    assert (Hl2 : forall s2, s2 = snd (processOrphans net env (orphan_fuel (pool s1)) [BlockHash (Header block)] flags s1) -> leads T t k s2 T2).
    { intros s2 ->. split_and!; [etransitivity; eauto | done |]. exists files2, t2, S2. split; [done | lia]. }
    destruct (processOrphans net env _ _ flags s1) as [[[] | e |] s2]; exists T2; (split; [now apply Hl2 |]); [| done ..].
    destruct (Hin m eq_refl) as [n Hn]. exists n. exact (lookup_weaken _ _ _ _ Hn Hsub2).
  - pose proof Hs as [Hw Hc Hst Hf Ha Hp Hb]. rewrite bind_eq.
    destruct (addOrphanBlock_ok U universe_apart (orphan_range (pool s)) (now env) block (pool s) Hp Hb (Hrange _) Hu Hno)
      as (p' & -> & Hp' & Hb' & Hin & Hout). cbn. exists T. split.
    + apply (leads_refl T files _ t S); [| apply (room_less _ _ _ Hr); lia]. constructor; try done.
      intros h [o Ho]. cbn [pool with_pool] in Ho. destruct (Hout h o Ho) as [-> | Hold]; [done | apply Ha; eauto].
    + split_and!; [done | done |]. unfold IsKnownOrphan. apply bool_decide_eq_true_2. eauto.
Qed.

Lemma ProcessBlock_run T files (s : FS) t S block flags k :
  full_ok s T files t S ->
  (checkBlockSanity block (PowLimit (net_params net)) (AdjustedTime env) flags = Ok tt -> U block) -> has_flag flags BFFastAdd = false ->
  room T (k + 1 + Z.of_nat (size (orphans (pool s)))) -> 0 <= k ->
  let '(o, s') := ProcessBlock net env orphan_range block flags s in
  exists T', leads T t k s' T' /\
    match o with
    | Ok (isMain, true) => T' = T /\ isMain = false /\ IsKnownOrphan (BlockHash (Header block)) (pool s') = true
    | Ok (_, false) => is_Some (T' !! BlockHash (Header block))
    | _ => True
    end.
Proof.
  intros Hs Hu Hflags Hr Hk. pose proof (ca_nodes _ _ _ _ t (proj1 (fo_chain _ _ _ _ _ Hs))) as Hnodes.
  assert (Hstop : forall s1, keeps s s1 -> exists T', leads T t k s1 T' /\ True).
  { intros s1 [Hc Hp]. exists T. split; [| done]. apply (leads_refl T files s1 t S); [now apply (full_same s) |].
    apply (room_less _ _ _ Hr). lia. }
  pose proof (Hstop s (conj eq_refl eq_refl)) as Hstop0.
  unfold ProcessBlock. rewrite bind_eq. cbn [get]. rewrite bind_eq. unfold lift at 1.
  destruct (blockExists (BlockHash (Header block)) s) as [[|] | e |] eqn:Hex; [exact Hstop0 | | exact Hstop0 ..].
  pose proof (not_there T s _ Hnodes Hex) as Hnew. rewrite bind_eq. cbn [rule_guard guard ret]. rewrite bind_eq. unfold rule_guard at 1, guard.
  destruct (IsKnownOrphan _ (pool s)) eqn:Hko; [exact Hstop0 |]. cbn [ret]. rewrite bind_eq. unfold lift at 1.
  apply bool_decide_eq_false in Hko. apply eq_None_not_Some in Hko.
  destruct (checkBlockSanity block _ _ flags) as [[] | e |]; cbn [of_rule]; [| exact Hstop0 ..]. specialize (Hu eq_refl). rewrite bind_eq.
  pose proof (find_checkpoint_keeps s) as Hkeep. destruct (findPreviousCheckpoint net s) as [[cp | e |] s1]; cbn [snd] in Hkeep;
    [| exact (Hstop s1 Hkeep) ..]. rewrite bind_eq.
  assert (Hpure : snd (check_checkpoint net (Header block) cp flags s1) = s1).
  { unfold check_checkpoint. destruct cp as [n |]; [| done]. rewrite bind_eq. unfold rule_guard at 1, guard.
    destruct (_ <? _); [done |]. cbn [ret]. destruct (has_flag flags BFFastAdd); [done |].
    destruct (calcEasiestDifficulty _ _ _); [| done]. unfold rule_guard, guard. now destruct (_ >? _). }
  destruct (check_checkpoint net (Header block) cp flags s1) as [[[] | e |] s2]; cbn [snd] in Hpure; subst s2; [| exact (Hstop s1 Hkeep) ..].
  rewrite bind_eq. cbn [get]. rewrite bind_eq. unfold lift at 1.
  destruct (blockExists (PrevBlock (Header block)) s1) as [ex | e |]; [| exact (Hstop s1 Hkeep) ..].
  pose proof Hkeep as [Hc1 Hp1]. apply (process_rest_run T files s1 t S); [now apply (full_same s) | done | done | done | now rewrite Hp1 | now rewrite Hp1 | done].
Qed.

(** A block that is not sane is refused. *)
Lemma ProcessBlock_insane (s : FS) block flags :
  let '(o, s') := ProcessBlock net env orphan_range block flags s in
  checkBlockSanity block (PowLimit (net_params net)) (AdjustedTime env) flags <> Ok tt -> s' = s /\ is_ok o = false.
Proof.
  destruct (ProcessBlock net env orphan_range block flags s) as [o s'] eqn:Hrun. intros Hno. unfold ProcessBlock in Hrun.
  rewrite bind_eq in Hrun. cbn [get] in Hrun. rewrite bind_eq in Hrun. unfold lift at 1 in Hrun.
  destruct (blockExists _ s) as [[|] | e |]; cbn in Hrun; [now injection Hrun as <- <- | | now injection Hrun as <- <- ..].
  unfold rule_guard, guard in Hrun. destruct (IsKnownOrphan _ _); cbn in Hrun; [now injection Hrun as <- <- |].
  destruct (checkBlockSanity block _ _ flags) as [[] | e |]; cbn in Hrun; [done | now injection Hrun as <- <- ..].
Qed.

(** ** The orphans come to an end *)

Lemma on_chain_pool {A} (m : M (BlockChain B D) ChainError A) (s : FS) : pool (snd (on_chain m s)) = pool s.
Proof. unfold on_chain, part. now destruct (m (the_chain s)). Qed.

Lemma pool_bind {A C} (m : FC A) (k : A -> FC C) s :
  pool (snd (m s)) = pool s -> (forall a s', pool s' = pool s -> pool (snd (k a s')) = pool s') -> pool (snd (bind m k s)) = pool s.
Proof.
  intros Hm Hk. rewrite bind_eq. destruct (m s) as [[a | e |] s1]; cbn [snd] in *; try done. rewrite Hk by done. exact Hm.
Qed.

Lemma header_context_pool header prev flags (s : FS) : pool (snd (header_context net header prev flags s)) = pool s.
Proof.
  unfold header_context. pose proof (find_checkpoint_keeps s) as [_ Hp]. destruct (findPreviousCheckpoint net s) as [cp s'].
  cbn [snd] in *. now destruct (is_ok _).
Qed.

Lemma vote_state_pool prev id (s : FS) : pool (snd (vote_state net prev id s)) = pool s.
Proof. unfold vote_state. rewrite bind_eq. cbn [get]. apply on_chain_pool. Qed.

(** Accepting a block, in whatever state, does not touch the pool. *)
Lemma accept_pool block flags (s : FS) : pool (snd (maybeAcceptBlock net env block flags s)) = pool s.
Proof.
  unfold maybeAcceptBlock. rewrite bind_eq. cbn [get]. destruct (LookupNode _ _) as [prev |]; [| done].
  apply pool_bind; [unfold rule_guard, guard; now destruct (KnownInvalid _) |]. intros _ s1 _.
  apply pool_bind.
  { unfold checkBlockContext. apply pool_bind; [apply header_context_pool |]. intros _ s2 _. destruct (has_flag flags BFFastAdd); [done |].
    apply pool_bind; [apply vote_state_pool |]. intros csv s3 _.
    apply pool_bind; [case_bool_decide; [apply on_chain_pool | done] |]. intros bt s4 _.
    apply pool_bind; [unfold rule_guard, guard; now destruct (negb _) |]. intros _ s5 _.
    apply pool_bind; [now destruct (ShouldHaveSerializedBlockHeight _ && _) |]. intros _ s6 _.
    apply pool_bind; [apply vote_state_pool |]. intros sw s7 _. case_bool_decide; [| done].
    apply pool_bind; [done |]. intros _ s8 _. unfold rule_guard, guard. now destruct (_ >? _). }
  intros _ s2 _. apply pool_bind; [apply on_chain_pool |]. intros _ s3 _. apply pool_bind; [apply on_chain_pool |]. intros _ s4 _.
  apply pool_bind; [apply on_chain_pool |]. intros _ s5 _. apply pool_bind; [apply on_chain_pool |]. intros m s6 _.
  apply pool_bind; [apply on_chain_pool |]. done.
Qed.

(** The loop without a number of steps: what it ends with, if it ends. *)
Inductive takes (flags : Z) : list bytes -> FS -> outcome ChainError unit * FS -> Prop :=
  | takes_done s : takes flags [] s (Ok tt, s)
  | takes_next hash rest s r : children (pool s) hash = [] -> takes flags rest s r -> takes flags (hash :: rest) s r
  | takes_orphan hash rest s orphan l m s' r :
      children (pool s) hash = orphan :: l ->
      maybeAcceptBlock net env (orphan_block orphan) flags (with_pool (removeOrphanBlock orphan (pool s)) s) = (Ok m, s') ->
      takes flags (hash :: rest ++ [orphan_hash orphan]) s' r -> takes flags (hash :: rest) s r
  | takes_error hash rest s orphan l e s' :
      children (pool s) hash = orphan :: l ->
      maybeAcceptBlock net env (orphan_block orphan) flags (with_pool (removeOrphanBlock orphan (pool s)) s) = (Err e, s') ->
      takes flags (hash :: rest) s (Err e, s')
  | takes_panic hash rest s orphan l s' :
      children (pool s) hash = orphan :: l ->
      maybeAcceptBlock net env (orphan_block orphan) flags (with_pool (removeOrphanBlock orphan (pool s)) s) = (Panic, s') ->
      takes flags (hash :: rest) s (Panic, s').

(** Each step takes an orphan out of the pool or a hash off the list. *)
Lemma processOrphans_takes flags : forall fuel hashes (s : FS),
  pool_ok U (pool s) -> (2 * size (orphans (pool s)) + length hashes <= fuel)%nat ->
  takes flags hashes s (processOrphans net env fuel hashes flags s).
Proof.
  induction fuel as [| fuel IH]; intros hashes s Hp Hf; destruct hashes as [| hash hashes]; cbn [length] in *;
    try lia; try apply takes_done.
  cbn [processOrphans]. rewrite !bind_eq. cbn [get].
  destruct (children (pool s) hash) as [| orphan rest] eqn:Hch; [apply takes_next; [done | apply IH; [done | lia]] |].
  assert (Hin : orphans (pool s) !! orphan_hash orphan = Some orphan).
  { apply (po_children U _ Hp hash orphan). rewrite Hch. constructor. }
  pose proof (remove_ok U universe_apart orphan (pool s) (po_known U _ Hp _ _ Hin) Hp) as Hp1.
  assert (Hsize : size (orphans (pool s)) = Datatypes.S (size (orphans (removeOrphanBlock orphan (pool s))))).
  { rewrite remove_size, decide_True by eauto. assert (size (orphans (pool s)) <> 0%nat); [| lia].
    intros Hz%map_size_empty_inv. rewrite Hz, lookup_empty in Hin. discriminate. }
  rewrite !bind_eq. cbn [put]. rewrite !bind_eq. pose proof (accept_pool (orphan_block orphan) flags (with_pool (removeOrphanBlock orphan (pool s)) s)) as Hpool.
  destruct (maybeAcceptBlock net env (orphan_block orphan) flags _) as [[m | e |] s2] eqn:Hrun; cbn [snd pool with_pool] in Hpool.
  - eapply takes_orphan; [exact Hch | exact Hrun |]. apply IH; rewrite Hpool; [done |]. cbn [length]. rewrite length_app. cbn [length]. lia.
  - eapply takes_error; eassumption.
  - eapply takes_panic; eassumption.
Qed.

Lemma takes_unique flags hashes s r1 : takes flags hashes s r1 -> forall r2, takes flags hashes s r2 -> r1 = r2.
Proof. induction 1; intros r2 Hr; inversion Hr; subst; simplify_eq; try congruence; auto; match goal with IH : forall r, takes _ _ _ r -> _ |- _ => apply IH; simplify_eq; congruence || assumption end. Qed.
End Spec.
