(* ===== verification/Processing.v ===== *)
(** What processing a block promises, on any state of the chain, with two blocks
    about which it gives the wrong answer. *)

From stdpp Require Import gmap fin_maps.
From S2P Require Import Prelude Slices ScriptError Opcodes Tokenizer Vlq Compress WireCommon MsgTx MsgBlock Script Crypto SigHash SigCache EngineState SigCheck OpcodeExec Engine EngineInv BtcUtil Merkle WorkMath BlockIndex Difficulty TxRules Validate UtxoView Supply Bucket Chainio SizeHelper UtxoCache ChainView Threshold ScriptVal Connect ConnectSpec Votes ReorgView Chain ChainInv ChainSpec BestChain Orphans Process TreeSpec ProcessSpec.
#[local] Open Scope Z_scope.

Section Claims.
Context `{PubKeysLaws} `{CryptoLaws} `{MapOrder} {B D : Type} `{BucketLaws B} `{BlockFilesLaws D}.
Context (net : Network) (env : Env B) (orphan_range : OrphanPool -> list (bytes * orphanBlock)) (U : MsgBlock -> Prop).


(** C5: taking the orphans above a block ends.  In any state whose two maps of
    orphans agree, the loop without a number of steps has one end, whether or not
    the orphans are accepted, and with the number of steps that [ProcessBlock]
    allows, or with more, the loop has this end. *)
Theorem orphans_end (s : FullChain B D) hash flags fuel :
  universe U -> pool_ok U (pool s) -> (orphan_fuel (pool s) <= fuel)%nat ->
  exists r, takes net env flags [hash] s r /\ (forall r', takes net env flags [hash] s r' -> r' = r) /\
    processOrphans net env fuel [hash] flags s = r /\ processOrphans net env (orphan_fuel (pool s)) [hash] flags s = r.
Proof.
  intros HU Hp Hf. assert (Ht : forall n, (orphan_fuel (pool s) <= n)%nat -> takes net env flags [hash] s (processOrphans net env n [hash] flags s)).
  { intros n Hn. apply (processOrphans_takes net env U HU); [done |]. unfold orphan_fuel in *. cbn [length]. lia. }
  exists (processOrphans net env (orphan_fuel (pool s)) [hash] flags s).
  split_and!; [now apply Ht | | | done]; intros; (eapply takes_unique; [| now apply Ht]); [eassumption | now apply Ht].
Qed.
End Claims.

(** * Three blocks *)

Section Sample.
#[local] Existing Instance Compress.toy_keys.
#[local] Existing Instance Compress.toy_keys_laws.
#[local] Existing Instance toy_crypto.
#[local] Existing Instance toy_laws.
#[local] Existing Instance list_order.

Definition three_blocks (b : MsgBlock) : Prop := b ∈ [block_a; block_b; block_c].

Definition one_node : gmap bytes blockNode := {[hash_of node_g := node_g]}.
Definition one_file : gmap bytes bytes := {[hash_of node_g := block_Serialize block_g]}.

Definition start_chain : FullChain (gmap bytes bytes) (gmap bytes bytes) :=
  mkFull
    (mkChain (mkBlockIndex one_node ∅ ∅ ∅) [Some node_g] (newUtxoCache ∅ (Some (hash_of node_g)) 1000000)
       (mkChainDB ∅ (mkIndex ∅ ∅) None one_file) (Some (newBestState node_g 0 0 1 1 0))
       (mkCaches (newThresholdCaches 5) (newThresholdCaches vbNumBits) false) (None, None) [])
    empty_pool None None.

Definition sample_range (p : OrphanPool) : list (bytes * orphanBlock) := map_to_list (orphans p).

Definition process (b : MsgBlock) (s : FullChain (gmap bytes bytes) (gmap bytes bytes)) :=
  ProcessBlock sample_net sample_env sample_range b BFNoPoWCheck s.

Definition tip_hash (s : FullChain (gmap bytes bytes) (gmap bytes bytes)) : option bytes :=
  hash_of <$> tip (bestChain (the_chain s)).

(** ** The three blocks are a set of blocks *)

Lemma fmap_apart {A K} (f : A -> K) l x y : NoDup (f <$> l) -> x ∈ l -> y ∈ l -> f x = f y -> x = y.
Proof.
  intros Hnd Hx Hy Heq. apply list_elem_of_lookup in Hx as [i Hi], Hy as [j Hj].
  assert (i = j) as -> by (eapply (NoDup_lookup (f <$> l)); [done | now rewrite list_lookup_fmap, Hi | now rewrite list_lookup_fmap, Hj, Heq]).
  congruence.
Qed.

Definition three_list : list MsgBlock := [block_a; block_b; block_c].

(** No block names a block of the list as its parent, but c names b. *)
Lemma three_follows b1 b2 : tc (follows three_blocks) b1 b2 -> b1 = block_b /\ b2 = block_c.
Proof.
  assert (Hone : forall x y, follows three_blocks x y -> x = block_b /\ y = block_c).
  { assert (Hall : forallb (fun x => forallb (fun y => negb (bool_decide (PrevBlock (Header y) = BlockHash (Header x))) ||
      bool_decide (Version (default (sample_coinbase 0) (head (Transactions x))) = 3 /\
                   Version (default (sample_coinbase 0) (head (Transactions y))) = 4)) three_list) three_list = true)
      by (vm_compute; reflexivity).
    intros x y (Hx & Hy & Hp). rewrite forallb_forall in Hall. specialize (Hall x (proj1 (list_elem_of_In _ _) Hx)).
    rewrite forallb_forall in Hall. specialize (Hall y (proj1 (list_elem_of_In _ _) Hy)).
    rewrite bool_decide_eq_true_2 in Hall by done. apply bool_decide_eq_true in Hall as [Hvx Hvy].
    unfold three_blocks in Hx, Hy. rewrite !elem_of_cons in Hx, Hy.
    destruct Hx as [-> | [-> | [-> | []%elem_of_nil]]], Hy as [-> | [-> | [-> | []%elem_of_nil]]]; (discriminate Hvx || discriminate Hvy || done). }
  induction 1 as [x y Hxy | x y z Hxy _ IH]; [now apply Hone |].
  destruct (Hone x y Hxy) as [_ ->], IH as [Heq _]. now apply (f_equal (fun b => length (Transactions b))) in Heq.
Qed.

Lemma three_universe : universe three_blocks.
Proof.
  constructor.
  - intros b1 b2. apply (fmap_apart (fun b => BlockHash (Header b))). decided.
  - intros b1 b2 id [-> ->]%three_follows Hin.
    assert (Hd : Forall (fun i => i ∉ tx_ids block_c) (tx_ids block_b)) by decided. rewrite Forall_forall in Hd. now apply Hd.
  - intros b Hb. unfold three_blocks in Hb. rewrite !elem_of_cons in Hb.
    destruct Hb as [-> | [-> | [-> | []%elem_of_nil]]]; apply in_order_apart; decided.
  - intros b Hb. exists (PowLimit MainNetParams), 1700000000, BFNoPoWCheck. unfold three_blocks in Hb. rewrite !elem_of_cons in Hb.
    destruct Hb as [-> | [-> | [-> | []%elem_of_nil]]]; vm_compute; reflexivity.
  - intros b Hb. unfold three_blocks in Hb. rewrite !elem_of_cons in Hb.
    destruct Hb as [-> | [-> | [-> | []%elem_of_nil]]]; repeat (split || constructor); try discriminate; reflexivity.
  - intros b Hb. repeat (apply elem_of_cons in Hb as [-> | Hb]; [decided |]). now apply elem_of_nil in Hb.
Qed.

Lemma start_ok : full_ok sample_net sample_env three_blocks start_chain one_node one_file node_g ∅.
Proof.
  pose proof sample_world as HW4. assert (Hone : forall n, in_tree one_node n -> n = node_g).
  { intros n Hn. unfold in_tree, one_node in Hn. now apply lookup_singleton_Some in Hn as [_ <-]. }
  constructor.
  - constructor; try apply HW4.
    + constructor; [apply block_tree_first; [now constructor | done] | intros n p ->%Hone; discriminate | vm_compute; reflexivity].
    + intros n ->%Hone. reflexivity.
  - split; [constructor | split; [reflexivity |]].
    + reflexivity.
    + constructor; [vm_compute; reflexivity | reflexivity |]. intros j Hj. change (height node_g) with 0 in Hj. assert (j = 0) as -> by lia. reflexivity.
    + reflexivity.
    + intros n p block tx0 rest S S' l Hn Hp. apply branch_cases in Hn as [-> | (q & Hq & _)]; discriminate.
    + eexists. reflexivity.
    + apply (empty_caches_ok one_node MainNetVotes).
    + intros n ->%Hone _. decided.
    + destruct (first_chain_ok 0 0 0) as (_ & _ & f & S0 & Hf & HS0 & Hc & Hl & Hst). exists node_g, ∅.
      split_and!; [apply branch_self | reflexivity | | | reflexivity].
      all: apply branch_cases in Hf as [-> | (q & Hq & _)]; [| discriminate]; injection HS0 as <-; done.
  - intros n ->%Hone. split; [decided | discriminate].
  - intros b raw Hb Hraw. assert (Hno : FetchBlock one_file (BlockHash (Header b)) = None); [| congruence]. clear Hraw.
    repeat (apply elem_of_cons in Hb as [-> | Hb]; [vm_compute; reflexivity |]). now apply elem_of_nil in Hb.
  - intros h [o Ho]. change ((∅ : gmap bytes orphanBlock) !! h = Some o) in Ho. now rewrite lookup_empty in Ho.
  - apply (empty_pool_ok three_blocks).
  - apply (empty_pool_ok three_blocks).
Qed.

(** A block on the second one that is not later than it. *)
Definition early_block : MsgBlock := sample_block 6 (BlockHash (Header block_b)) 1500000000 [sample_coinbase 6].

Definition outcome_of {A} (r : outcome ChainError A * FullChain (gmap bytes bytes) (gmap bytes bytes)) := fst r.

(** Two wrong answers.  A tree has the blocks a and b on the first one; c is
    above b.  When c has come before b as an orphan and a is the tip, processing b
    moves the tip to c, so that b is on the main chain, and answers that it is not:
    the answer is the one from before the orphans were taken.  When a bad block
    above b has come before c, processing b on the first block makes b the tip and
    fails with the error of the bad block; c stays an orphan although its parent
    is in the best chain, and giving c again is refused as a duplicate. *)
Example process_answers :
  let s1 := snd (process block_c (snd (process block_a start_chain))) in
  let s2 := snd (process block_c (snd (process early_block start_chain))) in
  outcome_of (process block_b s1) = Ok (false, false) /\
  tip_hash (snd (process block_b s1)) = Some (BlockHash (Header block_c)) /\
  outcome_of (process block_b s2) = Err (OfConnect (ConnRule (ruleError ErrTimeTooOld))) /\
  tip_hash (snd (process block_b s2)) = Some (BlockHash (Header block_b)) /\
  IsKnownOrphan (BlockHash (Header block_c)) (pool (snd (process block_b s2))) = true /\
  outcome_of (process block_c (snd (process block_b s2))) = Err (OfConnect (ConnRule (ruleError ErrDuplicateBlock))).
Proof. cbv zeta. split_and!; vm_compute; reflexivity. Qed.

(** Orphans without a parent. *)
Definition stray (version : Z) : MsgBlock := sample_block version (replicate 32 xff) 1600000000 [sample_coinbase version].

(** The pool grows over its limit: the oldest orphan that is remembered, c, has gone
    when its parent came, and removing it again makes no room. *)
Example orphans_over_limit :
  let s := snd (process block_b (snd (process (stray 100) (snd (process block_c start_chain))))) in
  let s' := foldl (fun s i => snd (process (stray (101 + Z.of_nat i)) s)) s (seq 0 100) in
  oldestOrphan (pool s) <> None /\ size (orphans (pool s)) = 1%nat /\ Z.of_nat (size (orphans (pool s'))) = maxOrphanBlocks + 1.
Proof. cbv zeta. split_and!; [vm_compute; discriminate | vm_compute; reflexivity ..]. Qed.

Lemma start_room : room one_node (0 + 1 + Z.of_nat (size (orphans (pool start_chain)))).
Proof. intros n Hn. unfold in_tree, one_node in Hn. apply lookup_singleton_Some in Hn as [_ <-]. reflexivity. Qed.

Lemma orphan_c_ok : pool_ok three_blocks (pool (snd (process block_c start_chain))).
Proof.
  assert (Hu : three_blocks block_c) by (do 3 constructor).
  pose proof (ProcessBlock_run sample_net sample_env sample_range (fun p => reflexivity (map_to_list (orphans p))) three_blocks
    three_universe one_node one_file start_chain node_g ∅ block_c BFNoPoWCheck 0 start_ok (fun _ => Hu) eq_refl start_room (Z.le_refl 0)) as Hrun.
  change (ProcessBlock _ _ _ _ _ _) with (process block_c start_chain) in Hrun. destruct (process block_c start_chain) as [o s'].
  destruct Hrun as (T' & (_ & _ & files' & t' & S' & Hs & _) & _). exact (fo_pool _ _ _ _ _ _ _ _ Hs).
Qed.


Lemma orphans_end_witness :
  let s := snd (process block_c start_chain) in
  exists r, takes sample_net sample_env BFNoPoWCheck [BlockHash (Header block_b)] s r /\
    processOrphans sample_net sample_env 3 [BlockHash (Header block_b)] BFNoPoWCheck s = r.
Proof.
  intros s. destruct (orphans_end sample_net sample_env three_blocks s (BlockHash (Header block_b)) BFNoPoWCheck 3) as (r & Hr & _ & Hrun & _).
  - exact three_universe.
  - exact orphan_c_ok.
  - apply (bool_decide_eq_true_1 _). vm_compute. reflexivity.
  - exists r. exact (conj Hr Hrun).
Defined.
End Sample.
