(* ===== verification/Commands.v ===== *)
(** Commands on blocks (src/btcd/blockchain/chain.go, src/btcd/blockchain/blockindex.go):
    the tips of the branches, and the commands that invalidate a block and that
    reconsider one.

    The order in which Go ranges over a map of nodes is an argument. *)

From stdpp Require Import gmap.
From S2P Require Import Prelude Slices ScriptError Opcodes Tokenizer Vlq Compress WireCommon MsgTx MsgBlock Script Crypto SigHash SigCache EngineState SigCheck OpcodeExec Engine EngineInv BtcUtil Merkle WorkMath BlockIndex Difficulty TxRules Validate UtxoView Supply Bucket Chainio SizeHelper UtxoCache ChainView Threshold ScriptVal Connect Chain.
#[local] Open Scope Z_scope.

(** * Tips *)

Inductive TipStatus : Set := StatusUnknown | StatusActive | StatusInvalid | StatusValidFork.

Record ChainTip := mkChainTip {
  ct_Height : Z;
  ct_BlockHash : bytes;
  BranchLen : Z;
  ct_Status : TipStatus;
}.

(** Nodes by hash, in the order of a range. *)
Abbreviation nodes_range := (gmap bytes blockNode -> list (bytes * blockNode)).

Section Tips.
Context (range : nodes_range).

(** The nodes that are not in the best chain, and the parents of these.  The first
    block has none. *)
Fixpoint collect_orphans (nodes : chainView) (l : list (bytes * blockNode)) (orphans orphanParent : gmap bytes blockNode)
  : viewed (gmap bytes blockNode * gmap bytes blockNode) :=
  match l with
  | [] => Ok (orphans, orphanParent)
  | (hash, node) :: l' =>
      if contains nodes node then collect_orphans nodes l' orphans orphanParent
      else match parent node with
           | None => Panic
           | Some p => collect_orphans nodes l' (<[hash := node]> orphans) (<[hash_of p := p]> orphanParent)
           end
  end.

Fixpoint collect_tips (l : list (bytes * blockNode)) (orphanParent : gmap bytes blockNode) : list blockNode :=
  match l with
  | [] => []
  | (hash, orphan) :: l' =>
      (if bool_decide (is_Some (orphanParent !! hash)) then [] else [orphan]) ++ collect_tips l' (delete hash orphanParent)
  end.

Definition InactiveTips {B} (nodes : chainView) (bi : blockIndex B) : viewed (list blockNode) :=
  obind (collect_orphans nodes (range (index_nodes bi)) ∅ ∅)
    (fun '(orphans, orphanParent) => Ok (collect_tips (range orphans) orphanParent)).
End Tips.

(** * The commands *)

Inductive CommandError : Set :=
| UnknownBlock
| GenesisBlock
| OfChain (e : ChainError).

Section Marks.
Context {B : Type}.

(** From [n] back to the node: what is not invalid yet gets an invalid ancestor.
    These nodes are listed. *)
Fixpoint invalidate_to (node n : blockNode) (bi : blockIndex B) : blockIndex B * list blockNode :=
  match n with
  | Node p _ _ =>
      if same_node n node then (bi, [])
      else
        let known := KnownInvalid (NodeStatus n bi) in
        let bi := if known then bi
                  else UnsetStatusFlags n statusValid (SetStatusFlags n statusInvalidAncestor bi) in
        let '(bi, l) := match p with Some p' => invalidate_to node p' bi | None => (bi, []) end in
        (bi, if known then l else n :: l)
  end.

Fixpoint invalidate_tips (node : blockNode) (tips : list blockNode) (bi : blockIndex B) : blockIndex B :=
  match tips with
  | [] => bi
  | tip :: tips' =>
      invalidate_tips node tips'
        (if negb (IsAncestor tip (Some node)) then bi else fst (invalidate_to node tip bi))
  end.

(** The first tip with the most work that is not invalid. *)
Fixpoint best_tip (bi : blockIndex B) (tips : list blockNode) (bestTip : option blockNode) : option blockNode :=
  match tips with
  | [] => bestTip
  | tip :: tips' =>
      best_tip bi tips'
        (if KnownInvalid (NodeStatus tip bi) then bestTip
         else match bestTip with
              | None => Some tip
              | Some best => if n_workSum (data tip) >? n_workSum (data best) then Some tip else bestTip
              end)
  end.

Fixpoint clear_to (node n : blockNode) (bi : blockIndex B) : blockIndex B :=
  match n with
  | Node p _ _ =>
      if same_node n node then bi
      else
        let bi := UnsetStatusFlags n statusInvalidAncestor bi in
        match p with Some p' => clear_to node p' bi | None => bi end
  end.

(** The last tip above the node, or the node. *)
Fixpoint reconsider_tips (node : blockNode) (tips : list blockNode) (bi : blockIndex B) (reconsiderTip : option blockNode)
  : blockIndex B * option blockNode :=
  match tips with
  | [] => (bi, reconsiderTip)
  | tip :: tips' =>
      if negb (IsAncestor tip (Some node)) then
        reconsider_tips node tips' bi (if same_node tip node then Some node else reconsiderTip)
      else reconsider_tips node tips' (clear_to node tip bi) (Some tip)
  end.
End Marks.

Section Operations.
Context `{PubKeys} `{Crypto} `{MapOrder} {B D : Type} `{Bucket B} `{BlockFiles D}.
Context (net : Network) (env : Env B) (range : nodes_range).

Abbreviation BC := (BlockChain B D).
Abbreviation CM := (M BC CommandError).

Definition run_chain {A} (m : M BC ChainError A) : CM A := fun b => let '(o, b') := m b in (relabel OfChain o, b').
Definition inactive_tips : CM (list blockNode) :=
  run_chain (b <- get;; lift (of_viewed (InactiveTips range (bestChain b) (ch_index b)))).

(** [append(tips, b.bestChain.Tip())]: a nil tip panics when its status is read. *)
Definition all_tips : CM (list blockNode) :=
  tips <- inactive_tips;; t <- run_chain theTip;; ret (tips ++ [t]).

Definition tip_status (b : BC) (tip : blockNode) : TipStatus :=
  if contains (bestChain b) tip then StatusActive
  else if KnownInvalid (NodeStatus tip (ch_index b)) then StatusInvalid
  else if HaveData (NodeStatus tip (ch_index b)) then StatusValidFork
  else StatusUnknown.

Definition chain_tip (b : BC) (tip : blockNode) : viewed ChainTip :=
  match findFork (bestChain b) (Some tip) with
  | Some f => Ok (mkChainTip (height tip) (hash_of tip) (int32 (height tip - height f)) (tip_status b tip))
  | None => Panic
  end.

Definition ChainTips : CM (list ChainTip) :=
  tips <- all_tips;;
  b <- get;;
  run_chain (mapM (fun tip => lift (of_viewed (chain_tip b tip))) tips).

Definition InvalidateBlock (hash : bytes) : CM unit :=
  b <- get;;
  match LookupNode hash (ch_index b) with
  | None => fail UnknownBlock
  | Some node =>
      if height node =? 0 then fail GenesisBlock else
      if KnownInvalid (NodeStatus node (ch_index b)) then ret tt else
      run_chain (on_index (SetStatusFlags node statusValidateFailed));;
      run_chain (on_index (UnsetStatusFlags node statusValid));;
      if negb (contains (bestChain b) node) then
        tips <- inactive_tips;;
        run_chain (on_index (invalidate_tips node tips));;
        run_chain flushIndex
      else
        b <- get;;
        let '(bi, detachNodes) :=
          match tip (bestChain b) with Some t => invalidate_to node t (ch_index b) | None => (ch_index b, []) end in
        put (with_index bi b);;
        run_chain (reorganizeChain net env (detachNodes ++ [node]) []);;
        run_chain flushIndex;;
        tips <- all_tips;;
        b <- get;;
        match best_tip (ch_index b) tips None, tip (bestChain b) with
        | None, _ => panic
        | Some best, t =>
            if is_node t best then ret tt
            else run_chain (r <- getReorganizeNodes best;; flush_after (reorganizeChain net env (fst r) (snd r)))
        end
  end.

Definition ReconsiderBlock (hash : bytes) : CM unit :=
  b <- get;;
  match LookupNode hash (ch_index b) with
  | None => fail UnknownBlock
  | Some reconsiderNode =>
      if KnownValid (NodeStatus reconsiderNode (ch_index b)) then ret tt else
      run_chain (on_index (UnsetStatusFlags reconsiderNode statusInvalidAncestor));;
      run_chain (on_index (UnsetStatusFlags reconsiderNode statusValidateFailed));;
      tips <- all_tips;;
      b <- get;;
      let '(bi, reconsiderTip) := reconsider_tips reconsiderNode tips (ch_index b) None in
      put (with_index bi b);;
      t <- run_chain theTip;;
      match reconsiderTip with
      | None => panic
      | Some best =>
          if n_workSum (data best) <=? n_workSum (data t) then ret tt else
          r <- run_chain (getReorganizeNodes best);;
          fun b =>
            match run_chain (flush_after (verifyReorganizationValidity net env (fst r) (snd r))) b with
            | (Ok _, b') => run_chain (reorganizeChain net env (fst r) (snd r)) b'
            | (Err _, b') => (Ok tt, b')
            | (Panic, b') => (Panic, b')
            end
      end
  end.
End Operations.
