(* ===== verification/CommandSpec.v ===== *)
(** What the commands on blocks rely on: the tips of a tree, the marks of a branch,
    and that a reorganization never clears a mark. *)

From stdpp Require Import gmap fin_maps.
From S2P Require Import Prelude Slices ScriptError Opcodes Tokenizer Vlq Compress WireCommon MsgTx MsgBlock Script Crypto SigHash SigCache EngineState SigCheck OpcodeExec Engine EngineInv BtcUtil Merkle WorkMath BlockIndex Difficulty TxRules Validate UtxoView Supply Bucket Chainio SizeHelper UtxoCache ChainView Threshold ScriptVal Connect ConnectSpec Votes ReorgView Chain ChainInv ChainSpec Commands.
#[local] Open Scope Z_scope.

(** * The tips of a tree *)

Section Tips.
Context (T : gmap bytes blockNode) (HT : block_tree T) (nodes : chainView) (t : blockNode).
Context (Hpath : is_path T nodes t) (Hbound : height t < 2 ^ 31 - 1).
Context (range : nodes_range) (Hrange : forall m, range m ≡ₚ map_to_list m).

Lemma contains_branch n : in_tree T n -> contains nodes n = true <-> n ∈ branch t.
Proof.
  intros Hn. pose proof (path_tip T nodes t Hpath) as Ht. rewrite (contains_path T HT nodes t n Hpath Hbound Hn). split.
  - intros [_ Hat]. exact (back_branch _ _ _ Hat).
  - intros Hb. split; [exact (proj2 (branch_tree T HT t n Ht Hb)) | exact (branch_at T HT t n Ht Hb)].
Qed.

(** A node that is not in the best chain has a parent. *)
Lemma off_parent n : in_tree T n -> n ∉ branch t -> exists p, parent n = Some p /\ in_tree T p.
Proof.
  intros Hn Hoff. pose proof (path_tip T nodes t Hpath) as Ht.
  destruct (parent n) as [p |] eqn:Hp; [exists p; split; [done | exact (in_tree_parent T HT n p Hn Hp)] |]. destruct Hoff.
  assert (Hz : height n = 0) by (apply root_height; [now apply (in_tree_ok T HT) | done]).
  pose proof (in_tree_root T HT t n Ht Hn) as Heq. rewrite <- Hz in Heq at 2. rewrite at_height_self in Heq.
  exact (back_branch _ _ _ Heq).
Qed.

Definition off (n : blockNode) : Prop := contains nodes n = false.

Lemma off_branch n : in_tree T n -> off n <-> n ∉ branch t.
Proof. intros Hn. unfold off. rewrite <- (contains_branch n Hn). symmetry. apply not_true_iff_false. Qed.

Lemma collect_orphans_run l : forall o p,
  (forall h n, (h, n) ∈ l -> T !! h = Some n) -> o ⊆ T ->
  exists o' p', collect_orphans nodes l o p = Ok (o', p') /\ o' ⊆ T /\
    (forall h n, o' !! h = Some n <-> o !! h = Some n \/ ((h, n) ∈ l /\ off n)) /\
    (forall h, is_Some (p' !! h) <-> is_Some (p !! h) \/ exists g n q, (g, n) ∈ l /\ off n /\ parent n = Some q /\ hash_of q = h).
Proof.
  induction l as [| [g n] l IH]; intros o p Hl Ho; cbn [collect_orphans].
  { exists o, p. split_and!; [done | done | |]; intros h.
    - intros n. split; [auto | intros [Hx | [Hx%elem_of_nil _]]; done].
    - split; [auto | intros [Hx | (g & n & q & Hx%elem_of_nil & _)]; done]. }
  assert (Hg : T !! g = Some n) by (apply Hl; constructor).
  assert (Hn : in_tree T n) by (unfold in_tree; now rewrite (tree_hash T HT g n Hg)).
  destruct (contains nodes n) eqn:Hc.
  - destruct (IH o p) as (o' & p' & Hrun & Ho' & Hin & Hpar); [intros h m Hm; apply Hl; now constructor | done |].
    exists o', p'. split_and!; [done | done | |].
    + intros h m. rewrite Hin, elem_of_cons. intuition. unfold off in *. congruence.
    + intros h. rewrite Hpar. split; [intros [| (h' & m & q & Hm & Hrest)]; [auto | right; exists h', m, q; split; [now constructor | done]] |].
      intros [| (h' & m & q & Hm & Hm2 & Hrest)]; [auto |]. apply elem_of_cons in Hm as [[= -> ->] | Hm]; [unfold off in *; congruence | right; eauto 8].
  - destruct (off_parent n Hn (proj1 (off_branch n Hn) Hc)) as (q & Hq & _). rewrite Hq.
    destruct (IH (<[g := n]> o) (<[hash_of q := q]> p)) as (o' & p' & Hrun & Ho' & Hin & Hpar).
    + intros h m Hm. apply Hl. now constructor.
    + apply insert_subseteq_l; done.
    + exists o', p'. split_and!; [done | done | |].
      * intros h m. rewrite Hin, lookup_insert_Some, elem_of_cons. split; [intros [[[<- <-] | [_ Hx]] | Hx]; intuition |].
        intros [Hx | [[[= -> ->] | Hx] Hoff]]; [| auto | auto]. left. destruct (decide (g = h)) as [<- |]; [left | auto].
        pose proof (lookup_weaken _ _ _ _ Hx Ho). split; [done | congruence].
      * intros h. rewrite Hpar. destruct (decide (hash_of q = h)) as [<- | Hne].
        -- rewrite lookup_insert_eq. split; [| eauto]. intros _. right. exists g, n, q. split_and!; [constructor | done | done | done].
        -- rewrite lookup_insert_ne by done. split.
           ++ intros [| (h' & m & q' & Hm & Hrest)]; [auto | right; exists h', m, q'; split; [now constructor | done]].
           ++ intros [| (h' & m & q' & Hm & Hm2 & Hm3 & Hm4)]; [auto |]. apply elem_of_cons in Hm as [[= -> ->] | Hm]; [congruence | right; eauto 8].
Qed.

Lemma collect_tips_run l : forall par, NoDup (fst <$> l) ->
  forall n, n ∈ collect_tips l par <-> exists h, (h, n) ∈ l /\ par !! h = None.
Proof.
  induction l as [| [g m] l IH]; intros par Hnd n; cbn [collect_tips].
  { split; [intros Hx%elem_of_nil; done | intros (h & Hx%elem_of_nil & _); done]. }
  rewrite fmap_cons in Hnd. apply NoDup_cons in Hnd as [Hg Hnd]. cbn [fst] in Hg. rewrite elem_of_app, (IH _ Hnd n).
  assert (Hrest : (exists h, (h, n) ∈ l /\ delete g par !! h = None) <-> exists h, (h, n) ∈ l /\ par !! h = None).
  { split; intros (h & Hh & Hp); exists h; (split; [done |]);
      (assert (g <> h) by (intros ->; apply Hg; change h with (fst (h, n)); now apply list_elem_of_fmap_2)).
    - now rewrite lookup_delete_ne in Hp.
    - now rewrite lookup_delete_ne. }
  rewrite Hrest. case_bool_decide as Hs.
  - split; [intros [Hx%elem_of_nil | (h & Hh & Hp)]; [done | exists h; split; [now constructor | done]] |].
    intros (h & Hh & Hp). apply elem_of_cons in Hh as [[= -> ->] | Hh]; [| eauto]. rewrite Hp in Hs. now destruct Hs.
  - apply eq_None_not_Some in Hs. split.
    + intros [Hx%list_elem_of_singleton | (h & Hh & Hp)]; [subst; exists g; split; [constructor | done] | exists h; split; [now constructor | done]].
    + intros (h & Hh & Hp). apply elem_of_cons in Hh as [[= -> ->] | Hh]; [left; now apply list_elem_of_singleton | eauto].
Qed.

(** A node above which there is none. *)
Definition leaf (n : blockNode) : Prop := forall m, in_tree T m -> parent m <> Some n.

(** The inactive tips are the leaves that are not in the best chain. *)
Lemma InactiveTips_run {B} (bi : blockIndex B) : index_nodes bi = T ->
  exists tips, InactiveTips range nodes bi = Ok tips /\ forall n, n ∈ tips <-> in_tree T n /\ (n ∉ branch t) /\ leaf n.
Proof.
  intros Hbi. unfold InactiveTips. rewrite Hbi.
  assert (HrT : forall h n, (h, n) ∈ range T <-> T !! h = Some n) by (intros h n; now rewrite Hrange, elem_of_map_to_list).
  destruct (collect_orphans_run (range T) ∅ ∅) as (o & p & Hrun & Ho & Hin & Hpar); [intros h n; apply HrT | apply map_empty_subseteq |].
  rewrite Hrun. cbn [obind]. eexists. split; [reflexivity |]. intros n.
  rewrite collect_tips_run by (rewrite Hrange; apply NoDup_fst_map_to_list).
  assert (Hoin : forall h m, o !! h = Some m <-> T !! h = Some m /\ off m).
  { intros h m. rewrite Hin, lookup_empty, HrT. split; [intros [Hx | Hx]; [discriminate | done] | auto]. }
  assert (Hpin : forall h, is_Some (p !! h) <-> exists m q, in_tree T m /\ off m /\ parent m = Some q /\ hash_of q = h).
  { intros h. rewrite Hpar, lookup_empty. split.
    - intros [[? Hx] | (g & m & q & Hm & Hrest)]; [discriminate |]. apply HrT in Hm. exists m, q. split; [| done]. unfold in_tree.
      now rewrite (tree_hash T HT g m Hm).
    - intros (m & q & Hm & Hrest). right. exists (hash_of m), m, q. split; [now apply HrT | done]. }
  split.
  - intros (h & Hh & Hp). rewrite Hrange, elem_of_map_to_list, Hoin in Hh. destruct Hh as [Hh Hoff].
    pose proof (tree_hash T HT h n Hh) as Hhash. assert (Hn : in_tree T n) by (unfold in_tree; now rewrite Hhash).
    split_and!; [done | now apply off_branch |]. intros m Hm Hpm. apply eq_None_not_Some in Hp. apply Hp, Hpin. exists m, n.
    split_and!; [done | | done | done]. apply off_branch; [done |]. intros Hb. apply (proj1 (off_branch n Hn) Hoff).
    apply (branch_trans t m n Hb). exact (branch_parent m n n Hpm (branch_self n)).
  - intros (Hn & Hoff & Hleaf). exists (hash_of n). split; [rewrite Hrange, elem_of_map_to_list, Hoin; split; [done | now apply off_branch] |].
    apply eq_None_not_Some. intros (m & q & Hm & _ & Hq & Heq)%Hpin. apply (Hleaf m Hm). rewrite Hq. f_equal.
    pose proof (in_tree_parent T HT m q Hm Hq). unfold in_tree in *. congruence.
Qed.

Lemma branch_linear n a b : a ∈ branch n -> b ∈ branch n -> a ∈ branch b \/ b ∈ branch a.
Proof.
  induction n as [n IH] using node_ind. intros [-> | (p & Hp & Ha)]%branch_cases Hb; [now right |].
  apply branch_cases in Hb as [-> | (q & Hq & Hb)]; [left; exact (branch_parent n p a Hp Ha) |].
  assert (q = p) as -> by congruence. eauto.
Qed.

Lemma branch_dec n m : in_tree T n -> in_tree T m -> m ∈ branch n \/ m ∉ branch n.
Proof.
  induction n as [n IH] using node_ind. intros Hn Hm. destruct (same_or_not T n m Hn Hm) as [-> | Hne]; [left; apply branch_self |].
  destruct (parent n) as [p |] eqn:Hp.
  - destruct (IH p eq_refl (in_tree_parent T HT n p Hn Hp) Hm) as [Hin | Hout]; [left; exact (branch_parent n p m Hp Hin) | right].
    intros [-> | (q & Hq & Hx)]%branch_cases; [done |]. congruence.
  - right. intros [-> | (q & Hq & _)]%branch_cases; [done | congruence].
Qed.

Definition child_of (n : blockNode) (q : bytes * blockNode) : bool :=
  match parent (snd q) with Some p => bool_decide (hash_of p = hash_of n) | None => false end.

(** Above every node there is a leaf. *)
Lemma leaf_above n : in_tree T n -> exists x, in_tree T x /\ leaf x /\ n ∈ branch x.
Proof.
  intros Hn. remember (Z.to_nat (2 ^ 31 - height n)) as k eqn:Hk. revert n Hn Hk.
  induction k as [k IH] using lt_wf_ind. intros n Hn ->.
  destruct (existsb (child_of n) (map_to_list T)) eqn:Hex.
  - apply existsb_exists in Hex as ([h m] & Hm%list_elem_of_In & Hc). apply elem_of_map_to_list in Hm. unfold child_of in Hc. cbn [snd] in Hc.
    assert (Hmt : in_tree T m) by (unfold in_tree; now rewrite (tree_hash T HT h m Hm)).
    destruct (parent m) as [p |] eqn:Hp; [| discriminate]. apply bool_decide_eq_true in Hc.
    assert (p = n) as -> by (pose proof (in_tree_parent T HT m p Hmt Hp); unfold in_tree in *; congruence).
    destruct (child_height T HT m n Hmt Hp) as [Hb Hh].
    destruct (IH (Z.to_nat (2 ^ 31 - height m)) ltac:(lia) m Hmt eq_refl) as (x & Hx & Hl & Hbx). exists x. split_and!; [done | done |].
    apply (branch_trans x m n Hbx). exact (branch_parent m n n Hp (branch_self n)).
  - exists n. split_and!; [done | | apply branch_self]. intros m Hm Hp. apply not_true_iff_false in Hex. apply Hex, existsb_exists.
    exists (hash_of m, m). split; [apply list_elem_of_In; now apply elem_of_map_to_list |]. unfold child_of. cbn [snd]. rewrite Hp.
    now apply bool_decide_eq_true.
Qed.

Lemma IsAncestor_spec n m : in_tree T n -> in_tree T m -> IsAncestor n (Some m) = true <-> m ∈ branch n /\ n <> m.
Proof.
  intros Hn Hm. pose proof (in_tree_ok T HT n Hn) as Hok. pose proof (node_ok_height m (in_tree_ok T HT m Hm)) as Hmh.
  unfold IsAncestor. destruct (Z.le_gt_cases (height m) (height n)) as [Hle | Hgt].
  - rewrite (Ancestor_back n Hok) by lia. destruct (at_height_Some T HT n (height m) Hn ltac:(lia)) as (a & Ha & Hat & Hah).
    unfold at_height in Ha. rewrite Ha, Hah. pose proof (back_branch _ _ _ Ha) as Hab.
    destruct (Z.eqb_spec (height n) (height m)) as [Heq | Hne].
    + split; [discriminate |]. intros [Hb Hnm]. destruct Hnm. pose proof (branch_at T HT n m Hn Hb) as Hx.
      rewrite <- Heq, at_height_self in Hx. now injection Hx.
    + unfold Equals. rewrite bool_decide_eq_true. split.
      * intros Hd. assert (a = m) as -> by (unfold in_tree in *; congruence). split; [done | congruence].
      * intros [Hb _]. pose proof (branch_at T HT n m Hn Hb) as Hx. unfold at_height in Hx. congruence.
  - unfold Ancestor. replace (_ || _) with true by lia. split; [discriminate |]. intros [Hb _].
    destruct (branch_tree T HT n m Hn Hb). lia.
Qed.
End Tips.

(** * Marks *)

Lemma bit_set st i : 0 <= i -> negb (Z.land st (2 ^ i) =? 0) = Z.testbit st i.
Proof.
  intros Hi. destruct (Z.eqb_spec (Z.land st (2 ^ i)) 0) as [Hz | Hz]; cbn [negb].
  - apply (f_equal (fun z => Z.testbit z i)) in Hz. rewrite Z.land_spec, Z.bits_0, Z.pow2_bits_true, andb_true_r in Hz by done. done.
  - symmetry. apply not_false_is_true. intros Hb. apply Hz. apply Z.bits_inj'. intros j Hj.
    rewrite Z.land_spec, Z.bits_0, Z.pow2_bits_eqb by done. destruct (Z.eqb_spec i j) as [<- |]; [now rewrite Hb | apply andb_false_r].
Qed.

Lemma KnownInvalid_bits st : KnownInvalid st = Z.testbit st 2 || Z.testbit st 3.
Proof.
  rewrite <- !bit_set by done. unfold KnownInvalid. change (Z.lor statusValidateFailed statusInvalidAncestor) with (Z.lor (2 ^ 2) (2 ^ 3)).
  rewrite Z.land_lor_distr_r. destruct (Z.eqb_spec (Z.land st (2 ^ 2)) 0) as [-> | H2]; [now rewrite Z.lor_0_l |].
  cbn [negb orb]. apply negb_true_iff, Z.eqb_neq. intros Hx%Z.lor_eq_0_l. done.
Qed.

Section Marks.
Context `{CryptoLaws} {B D : Type} `{BlockFiles D} (T : gmap bytes blockNode) (HT : block_tree T) (files : D).
#[local] Abbreviation BI := (blockIndex B).
#[local] Abbreviation invalid n bi := (KnownInvalid (NodeStatus n bi)).

Lemma status_set (bi : BI) n m st : in_tree T n -> in_tree T m ->
  (n = m /\ NodeStatus m (set_status n st bi) = st) \/ (n <> m /\ NodeStatus m (set_status n st bi) = NodeStatus m bi).
Proof.
  intros Hn Hm. unfold NodeStatus, set_status. cbn [statuses mark_dirty]. destruct (decide (hash_of n = hash_of m)) as [Heq | Hne].
  - left. split; [unfold in_tree in *; congruence |]. now rewrite Heq, lookup_insert_eq.
  - right. split; [congruence |]. now rewrite lookup_insert_ne.
Qed.

(** What changing one status may do: the nodes stay, and what is known to be valid
    was so before. *)
Definition changed (bi bi' : BI) : Prop :=
  index_nodes bi' = index_nodes bi /\ (valid_ok T files bi -> valid_ok T files bi').

#[local] Instance changed_pre : PreOrder changed.
Proof. split; [intros bi; now split | intros b1 b2 b3 [Hn1 Hv1] [Hn2 Hv2]; split; [congruence | auto]]. Qed.

Lemma set_changed n flags (bi : BI) : in_tree T n -> KnownValid flags = false -> changed bi (SetStatusFlags n flags bi).
Proof. intros Hn Hf. split; [done |]. intros Hv. apply (set_flags_valid T files); [done | done | congruence]. Qed.

Lemma unset_changed n flags (bi : BI) : in_tree T n -> changed bi (UnsetStatusFlags n flags bi).
Proof.
  intros Hn. split; [done |]. intros Hv m Hm. unfold UnsetStatusFlags.
  destruct (status_set bi n m (Z.land (NodeStatus n bi) (Z.lnot flags)) Hn Hm) as [[-> ->] | [_ ->]]; [| now apply Hv].
  rewrite KnownValid_bit, Z.land_spec, <- KnownValid_bit. intros [Hk _]%andb_true_iff. now apply Hv.
Qed.

(** A mark of an invalid block is never cleared. *)
Definition grows (bi bi' : BI) : Prop := forall m, invalid m bi = true -> invalid m bi' = true.

#[local] Instance grows_pre : PreOrder grows.
Proof. split; [intros bi m; auto | intros b1 b2 b3 Hg1 Hg2 m Hm; auto]. Qed.

Lemma status_other (bi : BI) n m st : hash_of n <> hash_of m -> NodeStatus m (set_status n st bi) = NodeStatus m bi.
Proof. intros Hne. unfold NodeStatus, set_status. cbn [statuses mark_dirty]. now rewrite lookup_insert_ne. Qed.

Lemma status_self (bi : BI) n m st : hash_of n = hash_of m -> NodeStatus m (set_status n st bi) = st.
Proof. intros Heq. unfold NodeStatus, set_status. cbn [statuses mark_dirty]. now rewrite Heq, lookup_insert_eq. Qed.

Lemma set_grows n flags (bi : BI) : grows bi (SetStatusFlags n flags bi).
Proof.
  intros m Hm. unfold SetStatusFlags. destruct (decide (hash_of n = hash_of m)) as [Heq | Hne]; [| now rewrite status_other].
  rewrite status_self by done. replace (NodeStatus n bi) with (NodeStatus m bi) by (unfold NodeStatus; now rewrite Heq).
  rewrite KnownInvalid_bits, !Z.lor_spec in *. apply orb_true_iff in Hm as [-> | ->]; rewrite ?orb_true_l, ?orb_true_r; done.
Qed.

Lemma unset_valid_grows n (bi : BI) : grows bi (UnsetStatusFlags n statusValid bi).
Proof.
  intros m Hm. unfold UnsetStatusFlags. destruct (decide (hash_of n = hash_of m)) as [Heq | Hne]; [| now rewrite status_other].
  rewrite status_self by done. replace (NodeStatus n bi) with (NodeStatus m bi) by (unfold NodeStatus; now rewrite Heq).
  rewrite KnownInvalid_bits, !Z.land_spec in *. change (Z.testbit (Z.lnot statusValid) 2) with true.
  change (Z.testbit (Z.lnot statusValid) 3) with true. now rewrite !andb_true_r.
Qed.

Lemma set_invalid n flags (bi : BI) : KnownInvalid flags = true -> invalid n (SetStatusFlags n flags bi) = true.
Proof.
  intros Hf. unfold SetStatusFlags. rewrite status_self by done. rewrite KnownInvalid_bits, !Z.lor_spec in *.
  apply orb_true_iff in Hf as [-> | ->]; rewrite ?orb_true_l, ?orb_true_r; done.
Qed.

Definition mark_one (n : blockNode) (bi : BI) : BI :=
  if invalid n bi then bi else UnsetStatusFlags n statusValid (SetStatusFlags n statusInvalidAncestor bi).

Lemma mark_one_spec n (bi : BI) : in_tree T n ->
  changed bi (mark_one n bi) /\ grows bi (mark_one n bi) /\ invalid n (mark_one n bi) = true /\
  forall m, hash_of m <> hash_of n -> NodeStatus m (mark_one n bi) = NodeStatus m bi.
Proof.
  intros Hn. unfold mark_one. destruct (invalid n bi) eqn:Hi; [split_and!; try done; reflexivity |]. split_and!.
  - etransitivity; [now apply (set_changed n statusInvalidAncestor) | now apply unset_changed].
  - etransitivity; [apply set_grows | apply unset_valid_grows].
  - apply unset_valid_grows. now apply set_invalid.
  - intros m Hm. unfold UnsetStatusFlags, SetStatusFlags. rewrite !status_other; done.
Qed.

Lemma invalidate_to_eq node n (bi : BI) : invalidate_to node n bi =
  if same_node n node then (bi, []) else
  let '(bi', l) := match parent n with Some p => invalidate_to node p (mark_one n bi) | None => (mark_one n bi, []) end in
  (bi', if invalid n bi then l else n :: l).
Proof. destruct n as [p a d]. cbn [invalidate_to parent]. unfold mark_one. destruct (same_node _ node); [done |]. now destruct (invalid _ bi). Qed.

(** Marking from a node back to one of its ancestors. *)
Lemma invalidate_to_run node n : forall (bi : BI), in_tree T n -> in_tree T node -> node ∈ branch n ->
  let '(bi', l) := invalidate_to node n bi in
  changed bi bi' /\ grows bi bi' /\
  (forall m, m ∈ branch n -> m ∉ branch node -> invalid m bi' = true) /\
  (forall m, in_tree T m -> m ∈ branch node \/ m ∉ branch n -> NodeStatus m bi' = NodeStatus m bi) /\
  ((forall m, m ∈ branch n -> m ∉ branch node -> invalid m bi = false) -> down n l node).
Proof.
  induction n as [n IH] using node_ind. intros bi Hn Hnode Hb. rewrite invalidate_to_eq.
  destruct (same_node n node) eqn:Hs.
  { apply (same_node_eq T) in Hs as ->; [| done | done]. split_and!; try done; reflexivity. }
  assert (Hne : n <> node) by (intros ->; now rewrite (proj2 (same_node_eq T node node Hn Hn) eq_refl) in Hs).
  destruct (branch_cases n node Hb) as [-> | (p & Hp & Hbp)]; [done |].
  destruct (mark_one_spec n bi Hn) as (Hc1 & Hg1 & Hi1 & Ho1). pose proof (in_tree_parent T HT n p Hn Hp) as Hpt.
  specialize (IH p Hp (mark_one n bi) Hpt Hnode Hbp). rewrite Hp. destruct (invalidate_to node p (mark_one n bi)) as [bi' l].
  destruct IH as (Hc2 & Hg2 & Hi2 & Ho2 & Hd2).
  assert (Hout : n ∉ branch node). { intros Hx. destruct (branch_tree T HT node n Hnode Hx) as [_ Hle].
    destruct (branch_tree T HT p node Hpt Hbp) as [_ Hle2]. pose proof (child_height T HT n p Hn Hp). lia. }
  assert (Hfresh : forall m, in_tree T m -> m <> n -> hash_of m <> hash_of n) by (intros m Hm Hmn; unfold in_tree in *; congruence).
  split_and!.
  - etransitivity; eassumption.
  - etransitivity; eassumption.
  - intros m [-> | (q & Hq & Hm)]%branch_cases Hmn; [now apply Hg2 |]. assert (q = p) as -> by congruence. auto.
  - intros m Hm Hor. rewrite Ho2; [apply Ho1, Hfresh; [done |] | done |].
    + intros ->. destruct Hor as [Hx | Hx]; [done | apply Hx, branch_self].
    + destruct Hor as [Hx | Hx]; [now left | right]. contradict Hx. exact (branch_parent n p m Hp Hx).
  - intros Hclean. rewrite (Hclean n (branch_self n) Hout). cbn [down]. split; [done |]. exists p. split; [done |]. apply Hd2.
    intros m Hm Hmn. rewrite Ho1; [exact (Hclean m (branch_parent n p m Hp Hm) Hmn) |].
    exact (branch_fresh T HT n p m Hn Hp Hm).
Qed.

Lemma invalidate_tips_run node tips : forall (bi : BI), in_tree T node -> Forall (in_tree T) tips ->
  let bi' := invalidate_tips node tips bi in
  changed bi bi' /\ grows bi bi' /\
  (forall m, in_tree T m -> node ∉ branch m -> NodeStatus m bi' = NodeStatus m bi) /\
  forall x m, x ∈ tips -> m ∈ branch x -> node ∈ branch m -> m <> node -> invalid m bi' = true.
Proof.
  induction tips as [| x tips IH]; intros bi Hnode Hl; cbn [invalidate_tips].
  { split_and!; [reflexivity | reflexivity | done |]. intros x m Hx%elem_of_nil. done. }
  apply Forall_cons in Hl as [Hx Hl]. set (bi1 := if negb _ then bi else _).
  assert (Hstep : changed bi bi1 /\ grows bi bi1 /\
    (forall m, in_tree T m -> node ∉ branch m -> NodeStatus m bi1 = NodeStatus m bi) /\ forall m, m ∈ branch x -> node ∈ branch m -> m <> node -> invalid m bi1 = true).
  { unfold bi1. destruct (IsAncestor x (Some node)) eqn:Ha; cbn [negb].
    - apply (IsAncestor_spec T HT) in Ha as [Hb _]; [| done | done].
      pose proof (invalidate_to_run node x bi Hx Hnode Hb) as Hrun. destruct (invalidate_to node x bi) as [bi' l].
      destruct Hrun as (Hc & Hg & Hi & Ho & _). cbn [fst]. split_and!; [done | done | |].
      { intros m Hm Hnm. apply Ho; [done |]. destruct (branch_dec T HT x m Hx Hm) as [Hxm | Hxm]; [left | now right].
        destruct (branch_linear x m node Hxm Hb); done. }
      intros m Hm Hnm Hne. apply Hi; [done |].
      intros Hmn. apply Hne. destruct (branch_tree T HT x m Hx Hm) as [Hmt _]. destruct (branch_tree T HT m node Hmt Hnm) as [_ Hle].
      pose proof (branch_at T HT node m Hnode Hmn) as Hat. destruct (branch_tree T HT node m Hnode Hmn) as [_ Hle2].
      replace (height m) with (height node) in Hat by lia. rewrite at_height_self in Hat. now injection Hat.
    - split_and!; [reflexivity | reflexivity | done |]. intros m Hm Hnm Hne. exfalso. apply not_true_iff_false in Ha. apply Ha.
      apply (IsAncestor_spec T HT); [done | done |]. split; [exact (branch_trans x m node Hm Hnm) |]. intros ->.
      destruct (branch_tree T HT node m Hx Hm) as [Hmt Hle]. destruct (branch_cases m node Hnm) as [-> | (q & Hq & Hnq)]; [done |].
      pose proof (child_height T HT m q Hmt Hq). destruct (branch_tree T HT q node (in_tree_parent T HT m q Hmt Hq) Hnq). lia. }
  destruct Hstep as (Hc1 & Hg1 & Ho1 & Hi1). clearbody bi1. destruct (IH bi1 Hnode Hl) as (Hc2 & Hg2 & Ho2 & Hi2).
  split_and!; [etransitivity; eassumption | etransitivity; eassumption | intros m Hm Hnm; now rewrite Ho2, Ho1 |]. intros y m [-> | Hy]%elem_of_cons Hm Hnm Hne; [apply Hg2; auto | eauto].
Qed.

(** The marks of some blocks stay. *)
Definition same_marks (P : blockNode -> Prop) (bi bi' : BI) : Prop := forall m, P m -> invalid m bi' = invalid m bi.

#[local] Instance same_marks_pre P : PreOrder (same_marks P).
Proof. split; [intros bi m; auto | intros b1 b2 b3 Hs1 Hs2 m Hm; rewrite Hs2, Hs1 by done; reflexivity]. Qed.

Lemma same_marks_index P bi bi' : index_same bi bi' -> same_marks P bi bi'.
Proof. intros [_ Heq] m _. unfold NodeStatus. now rewrite Heq. Qed.

Lemma set_valid_marks P n bi : same_marks P bi (SetStatusFlags n statusValid bi).
Proof.
  intros m _. unfold SetStatusFlags. destruct (decide (hash_of n = hash_of m)) as [Heq | Hne]; [| now rewrite status_other].
  rewrite status_self by done. replace (NodeStatus n bi) with (NodeStatus m bi) by (unfold NodeStatus; now rewrite Heq).
  rewrite !KnownInvalid_bits, !Z.lor_spec. change (Z.testbit statusValid 2) with false. change (Z.testbit statusValid 3) with false.
  now rewrite !orb_false_r.
Qed.

Lemma set_other_marks P n flags bi : (forall m, P m -> hash_of n <> hash_of m) -> same_marks P bi (SetStatusFlags n flags bi).
Proof. intros Hn m Hm. unfold SetStatusFlags. now rewrite status_other by auto. Qed.

(** The best tip: the first one with the most work among those that are not invalid. *)
Lemma best_tip_run (bi : BI) tips : forall best,
  (forall x, best = Some x -> invalid x bi = false) ->
  match best_tip bi tips best with
  | Some y => invalid y bi = false /\ (y ∈ tips \/ best = Some y) /\
      (forall x, best = Some x -> n_workSum (data x) <= n_workSum (data y)) /\
      forall x, x ∈ tips -> invalid x bi = false -> n_workSum (data x) <= n_workSum (data y)
  | None => best = None /\ forall x, x ∈ tips -> invalid x bi = true
  end.
Proof.
  induction tips as [| x tips IH]; intros best Hbest; cbn [best_tip].
  { destruct best as [y |]; split_and!; auto; try (intros z Hz%elem_of_nil; done). intros z [= ->]. done. }
  match goal with |- context [best_tip bi tips ?b] => set (best' := b) end. specialize (IH best').
  assert (Hb : (forall z, best' = Some z -> invalid z bi = false /\ (z = x \/ best = Some z)) /\
    (invalid x bi = false -> exists z, best' = Some z /\ n_workSum (data x) <= n_workSum (data z)) /\
    (forall z, best = Some z -> exists z', best' = Some z' /\ n_workSum (data z) <= n_workSum (data z'))).
  { unfold best'. destruct (invalid x bi) eqn:Hi; [split_and!; [auto | done | intros z ->; eauto using Z.le_refl] |].
    destruct best as [z |].
    - destruct (Z.gtb_spec (n_workSum (data x)) (n_workSum (data z))); split_and!; intros; simplify_eq; eauto using Z.le_refl, Z.lt_le_incl.
    - split_and!; intros; simplify_eq; eauto using Z.le_refl. }
  destruct Hb as (Hb1 & Hb2 & Hb3). clearbody best'. specialize (IH ltac:(intros z Hz; exact (proj1 (Hb1 z Hz)))).
  destruct (best_tip bi tips best') as [y |].
  - destruct IH as (Hy & Hin & Hw & Hall). split_and!; [done | | |].
    + destruct Hin as [Hin | Hin]; [left; now constructor |]. destruct (Hb1 y Hin) as [_ [-> | Hz]]; [left; constructor | now right].
    + intros z Hz. destruct (Hb3 z Hz) as (z' & Hz' & Hle). specialize (Hw z' Hz'). lia.
    + intros z [-> | Hz]%elem_of_cons Hi; [| auto]. destruct (Hb2 Hi) as (z' & Hz' & Hle). specialize (Hw z' Hz'). lia.
  - destruct IH as [-> Hall]. split.
    + destruct best as [z |]; [| done]. destruct (Hb3 z eq_refl) as (z' & Hz' & _). discriminate.
    + intros z [-> | Hz]%elem_of_cons; [| auto]. apply not_false_is_true. intros Hi. destruct (Hb2 Hi) as (z' & Hz' & _). discriminate.
Qed.
(** ** Clearing *)

Lemma clear_to_eq node n (bi : BI) : clear_to node n bi =
  if same_node n node then bi else
  match parent n with Some p => clear_to node p (UnsetStatusFlags n statusInvalidAncestor bi) | None => UnsetStatusFlags n statusInvalidAncestor bi end.
Proof. destruct n as [p a d]. reflexivity. Qed.

Lemma clear_to_changed node n : forall (bi : BI), in_tree T n -> changed bi (clear_to node n bi).
Proof.
  induction n as [n IH] using node_ind. intros bi Hn. rewrite clear_to_eq. destruct (same_node n node); [reflexivity |].
  destruct (parent n) as [p |] eqn:Hp; [| now apply unset_changed].
  etransitivity; [now apply (unset_changed n statusInvalidAncestor) | apply IH; [done | exact (in_tree_parent T HT n p Hn Hp)]].
Qed.

Lemma reconsider_tips_run node tips : in_tree T node -> Forall (in_tree T) tips -> forall (bi : BI) best,
  (forall y, best = Some y -> in_tree T y /\ node ∈ branch y) ->
  let '(bi', best') := reconsider_tips node tips bi best in
  changed bi bi' /\ (forall y, best' = Some y -> (in_tree T y /\ node ∈ branch y) /\ (best = Some y \/ y ∈ tips)) /\
  (is_Some best \/ (exists y, y ∈ tips /\ node ∈ branch y) -> is_Some best').
Proof.
  intros Hnode. induction tips as [| x tips IH]; intros Hl bi best Hbest; cbn [reconsider_tips].
  { split_and!; [reflexivity | intros y Hy; split; [exact (Hbest y Hy) | now left] |]. intros [Hs | (y & Hy%elem_of_nil & _)]; [exact Hs | done]. }
  apply Forall_cons in Hl as [Hx Hl]. specialize (IH Hl). destruct (IsAncestor x (Some node)) eqn:Ha; cbn [negb].
  - apply (IsAncestor_spec T HT) in Ha as [Hb _]; [| done | done].
    specialize (IH (clear_to node x bi) (Some x) ltac:(intros y [= <-]; done)).
    destruct (reconsider_tips node tips (clear_to node x bi) (Some x)) as [bi' best']. destruct IH as (Hc & Hy & Hs).
    split_and!; [etransitivity; [exact (clear_to_changed node x bi Hx) | exact Hc] | | eauto].
    intros y Hby. destruct (Hy y Hby) as [Hin [[= ->] | Hyt]]; (split; [done | right]); now constructor.
  - specialize (IH bi (if same_node x node then Some node else best)).
    assert (Hnext : forall y, (if same_node x node then Some node else best) = Some y -> in_tree T y /\ node ∈ branch y).
    { intros y. destruct (same_node x node); [intros [= <-]; split; [done | apply branch_self] | apply Hbest]. }
    specialize (IH Hnext). destruct (reconsider_tips node tips bi _) as [bi' best']. destruct IH as (Hc & Hy & Hs).
    split_and!; [done | |].
    { intros y Hby. destruct (Hy y Hby) as [Hin [Hb | Hyt]]; (split; [exact Hin |]); [| right; now constructor].
      destruct (same_node x node) eqn:Hsame; [| now left]. injection Hb as ->. right.
      assert (x = y) as -> by (now apply (same_node_eq T)). constructor. }
    intros Hor. apply Hs. destruct (same_node x node) eqn:Hsame; [left; eauto |].
    destruct Hor as [Hor | (y & [-> | Hin]%elem_of_cons & Hb)]; [now left | | right; eauto]. exfalso.
    apply not_true_iff_false in Ha. apply Ha, (IsAncestor_spec T HT); [done | done |]. split; [done |].
    intros ->. now rewrite (proj2 (same_node_eq T node node Hx Hx) eq_refl) in Hsame.
Qed.
End Marks.

(** * The index in a reorganization *)

Create HintDb steps.

Section Steps.
Context `{PubKeysLaws} `{CryptoLaws} `{MapOrder} {B D : Type} `{BucketLaws B} `{BlockFiles D}.
Context (net : Network) (env : Env B) (R : blockIndex B -> blockIndex B -> Prop).
Context (Rpre : PreOrder R) (Rsame : forall bi bi', index_same bi bi' -> R bi bi').

#[local] Abbreviation BC := (BlockChain B D).
#[local] Abbreviation CH := (M BC ChainError).

(** A computation that changes the index only in a given way. *)
Definition steps {A} (m : CH A) : Prop := forall b, R (ch_index b) (ch_index (snd (m b))).

Lemma steps_stay {A} (m : CH A) : (forall b, ch_index (snd (m b)) = ch_index b) -> steps m.
Proof. intros Hm b. rewrite Hm. reflexivity. Qed.

Lemma steps_bind {A C} (m : CH A) (k : A -> CH C) : steps m -> (forall a, steps (k a)) -> steps (bind m k).
Proof.
  intros Hm Hk b. rewrite bind_eq. specialize (Hm b). destruct (m b) as [[a | e |] b']; cbn [snd] in *; [| done ..].
  etransitivity; [exact Hm | apply Hk].
Qed.

Lemma steps_ret {A} (a : A) : steps (ret a).
Proof. now apply steps_stay. Qed.

Lemma steps_fail {A} e : steps (fail (A := A) e).
Proof. now apply steps_stay. Qed.

Lemma steps_panic {A} : steps (panic (A := A)).
Proof. now apply steps_stay. Qed.

Lemma steps_get : steps get.
Proof. now apply steps_stay. Qed.

Lemma steps_lift {A} (o : outcome ChainError A) : steps (lift o).
Proof. now apply steps_stay. Qed.

Lemma steps_guard c e : steps (guard c e).
Proof. apply steps_stay. intros b. unfold guard. now destruct c. Qed.

Lemma steps_utxoCache {A} (m : M (utxoCache B) StoreError A) : steps (on_utxoCache m).
Proof. apply steps_stay. intros b. unfold on_utxoCache, part. now destruct (m (ch_utxoCache b)) as [[a | e |] c]. Qed.

Lemma steps_caches {A} (m : M Caches ThresholdError A) : steps (on_caches m).
Proof. apply steps_stay. intros b. unfold on_caches, part. now destruct (m (ch_thresholds b)) as [[a | e |] c]. Qed.

Lemma steps_on_db f : steps (on_db f).
Proof.
  apply steps_stay. intros b. unfold on_db. rewrite bind_eq. cbn [get]. rewrite bind_eq. unfold lift. now destruct (of_store (f (ch_db b))).
Qed.

Lemma steps_db_Update {A} (m : CH A) : steps m -> steps (db_Update m).
Proof. intros Hm b. specialize (Hm b). unfold db_Update. now destruct (m b) as [[a | e |] b']. Qed.

Lemma steps_flushIndex : steps flushIndex.
Proof. intros b. now apply Rsame. Qed.

Lemma steps_setBest n : steps (setBest n).
Proof.
  apply steps_stay. intros b. unfold setBest. rewrite bind_eq. cbn [get]. rewrite bind_eq. unfold lift. now destruct (of_viewed _).
Qed.

Lemma steps_snapshot s : steps (modify (with_snapshot s)).
Proof. now apply steps_stay. Qed.

Lemma steps_notify n : steps (sendNotification n).
Proof. now apply steps_stay. Qed.

Lemma steps_check_connect bh n block v : steps (check_connect_at net env bh n block v).
Proof. apply steps_stay. intros b. unfold check_connect_at. now destruct (checkConnectBlock _ _ _ _ _ _ _). Qed.

Lemma steps_connect_cache block h : steps (connect_cache block h).
Proof. apply steps_stay. intros b. unfold connect_cache. now destruct (cache_connectTransactions _ _ _) as [o [c l]]. Qed.

Lemma steps_connect_view block h v : steps (connect_view block h v).
Proof. apply steps_stay. intros b. unfold connect_view. now destruct (connectTransactions _ _ _) as [o [v' l]]. Qed.

#[local] Hint Resolve steps_ret steps_fail steps_panic steps_get steps_lift steps_guard steps_utxoCache steps_caches steps_on_db
  steps_db_Update steps_flushIndex steps_setBest steps_snapshot steps_notify steps_check_connect steps_connect_cache steps_connect_view : steps.

(** Down to the single statements. *)
#[local] Ltac step_on :=
  repeat first
    [ solve [auto with steps]
    | match goal with
      | |- steps (bind _ _) => apply steps_bind; [| intro]
      | |- steps (match ?x with _ => _ end) => destruct x
      | |- steps (if ?x then _ else _) => destruct x
      end ].

Lemma steps_theTip : steps theTip.
Proof. unfold theTip. step_on. Qed.

Lemma steps_fetch n : steps (fetch_block n).
Proof. unfold fetch_block. step_on. Qed.

Lemma steps_disconnect_view block h l v : steps (disconnect_view block h l v).
Proof. unfold disconnect_view. step_on. Qed.

Lemma steps_load block h v : steps (load_inputs block h v).
Proof. apply steps_utxoCache. Qed.

#[local] Hint Resolve steps_theTip steps_fetch steps_disconnect_view steps_load : steps.

Lemma steps_flushCache mode state : steps (flushCache env mode state).
Proof. unfold flushCache. step_on. Qed.

Lemma steps_put_view v : steps (put_view env v).
Proof. unfold put_view. step_on. Qed.

#[local] Hint Resolve steps_flushCache steps_put_view : steps.

Lemma steps_prune state : steps (prune net env state).
Proof. unfold prune. step_on. Qed.

Lemma steps_snapshot_of n block total : steps (snapshot_of n block total).
Proof. unfold snapshot_of, Chain.median_time. step_on. Qed.

Lemma steps_total : steps curTotalTxns.
Proof. unfold curTotalTxns. step_on. Qed.

Lemma steps_warn n : steps (warn_current net env n).
Proof. unfold warn_current. step_on. Qed.

#[local] Hint Resolve steps_prune steps_snapshot_of steps_total steps_warn : steps.

Lemma steps_connectBlock n block l : steps (connectBlock net env n block l).
Proof. unfold connectBlock. step_on. apply steps_db_Update. step_on. Qed.

Lemma steps_disconnectBlock n block v : steps (disconnectBlock env n block v).
Proof. unfold disconnectBlock. step_on. apply steps_db_Update. step_on. Qed.

#[local] Hint Resolve steps_connectBlock steps_disconnectBlock : steps.

Lemma steps_detach_blocks l : forall blocks v, steps (detach_blocks env l blocks v).
Proof. induction l as [| n l IH]; intros blocks v; cbn [detach_blocks]; step_on. Qed.

Lemma steps_attach_blocks l : forall blocks, steps (attach_blocks net env l blocks).
Proof. induction l as [| n l IH]; intros blocks; cbn [attach_blocks]; step_on. Qed.

Lemma steps_verify_detach l : forall v, steps (verify_detach l v).
Proof. induction l as [| n l IH]; intros v; cbn [verify_detach]; step_on. Qed.

(** Blocks that may be marked. *)
Definition may_mark (l : list blockNode) : Prop := forall n, n ∈ l -> forall flags bi, R bi (SetStatusFlags n flags bi).

Lemma may_mark_cons n l : may_mark (n :: l) -> may_mark [n] /\ may_mark l.
Proof. intros Hm. split; intros m Hx; apply Hm; [apply list_elem_of_singleton in Hx as -> |]; now constructor. Qed.

Lemma steps_mark_all flags l : may_mark l -> steps (mark_all flags l).
Proof.
  intros Hm b. change (R (ch_index b) (marked flags l (ch_index b))).
  generalize (ch_index b). induction l as [| n l IH]; intros bi; [reflexivity |].
  etransitivity; [apply (Hm n (list_elem_of_here _ _) flags) | apply IH, (may_mark_cons n l Hm)].
Qed.

Lemma steps_mark_failed n l m : may_mark (n :: l) -> steps m -> steps (mark_failed n l m).
Proof.
  intros [Hn Hl]%may_mark_cons Hm b. specialize (Hm b). unfold mark_failed. destruct (m b) as [[v | e |] b']; [done | | done].
  destruct (is_RuleError e); [| done]. etransitivity; [exact Hm |]. cbn [snd].
  refine (steps_bind _ _ _ _ b'); [| intros _]; now apply steps_mark_all.
Qed.

Lemma steps_verify_attach l : may_mark l -> forall v, steps (verify_attach net env l v).
Proof.
  induction l as [| n l IH]; intros Hm v; cbn [verify_attach]; [apply steps_ret |]. pose proof (may_mark_cons n l Hm) as [Hn Hl].
  unfold check_connect. step_on; try apply steps_mark_all; try apply steps_mark_failed; auto with steps.
Qed.

Lemma steps_verify detachNodes attachNodes : may_mark attachNodes -> steps (verifyReorganizationValidity net env detachNodes attachNodes).
Proof.
  intros Hm. unfold verifyReorganizationValidity. step_on; auto using steps_verify_detach, steps_verify_attach.
Qed.

Lemma steps_reorganize detachNodes attachNodes : may_mark attachNodes -> steps (reorganizeChain net env detachNodes attachNodes).
Proof.
  intros Hm. unfold reorganizeChain.
  step_on; auto using steps_verify, steps_detach_blocks, steps_attach_blocks.
Qed.

Lemma steps_getReorganizeNodes n : (forall l, may_mark l) -> steps (getReorganizeNodes n).
Proof. intros Hm. unfold getReorganizeNodes. step_on; now apply steps_mark_all. Qed.

Lemma steps_flush_after {A} (m : CH A) : steps m -> steps (flush_after m).
Proof.
  intros Hm b. specialize (Hm b). unfold flush_after. destruct (m b) as [[a | e |] b']; cbn [snd] in *; [| | done];
    (etransitivity; [exact Hm | exact (steps_flushIndex b')]).
Qed.

(** What is known when a computation succeeds. *)
Definition steps_ok {A} (m : CH A) : Prop := forall b a b', m b = (Ok a, b') -> R (ch_index b) (ch_index b').

Lemma steps_ok_of {A} (m : CH A) : steps m -> steps_ok m.
Proof. intros Hm b a b' Hrun. specialize (Hm b). now rewrite Hrun in Hm. Qed.

Lemma steps_ok_bind {A C} (m : CH A) (k : A -> CH C) : steps_ok m -> (forall a, steps_ok (k a)) -> steps_ok (bind m k).
Proof.
  intros Hm Hk b c b'. rewrite bind_eq. destruct (m b) as [[a | e |] b1] eqn:Hrun; [| discriminate ..]. intros Hrest.
  etransitivity; [exact (Hm _ _ _ Hrun) | exact (Hk a _ _ _ Hrest)].
Qed.

(** On success blocks are only marked as valid. *)
Context (Rvalid : forall n bi, R bi (SetStatusFlags n statusValid bi)).

Lemma steps_ok_verify_attach l : forall v, steps_ok (verify_attach net env l v).
Proof.
  induction l as [| n l IH]; intros v; cbn [verify_attach]; [apply steps_ok_of, steps_ret |].
  apply steps_ok_bind; [apply steps_ok_of; auto with steps | intros block]. apply steps_ok_bind; [apply steps_ok_of, steps_get | intros b0].
  apply steps_ok_bind; [| intros v1; apply steps_ok_bind; [apply IH | intros blocks; apply steps_ok_of, steps_ret]].
  destruct (KnownValid _); [apply steps_ok_of; step_on |]. apply steps_ok_bind.
  - intros b a b' Hrun. unfold mark_failed in Hrun. pose proof (steps_check_connect (height n) n block v b) as Hc.
    unfold check_connect in Hrun. destruct (check_connect_at _ _ _ _ _ _ b) as [[v' | e |] b1]; [| destruct (is_RuleError e); discriminate | discriminate].
    now injection Hrun as _ <-.
  - intros v1. apply steps_ok_of. apply steps_bind; [| intros _; apply steps_ret].
    intros b. exact (Rvalid n (ch_index b)).
Qed.

Lemma steps_ok_reorganize detachNodes attachNodes : steps_ok (reorganizeChain net env detachNodes attachNodes).
Proof.
  unfold reorganizeChain. apply steps_ok_bind; [| intros r; apply steps_ok_of; step_on; auto using steps_detach_blocks, steps_attach_blocks].
  unfold verifyReorganizationValidity. destruct (_ && _); [apply steps_ok_of, steps_ret |].
  apply steps_ok_bind; [apply steps_ok_of, steps_theTip | intros t].
  apply steps_ok_bind; [apply steps_ok_of; step_on | intros _]. apply steps_ok_bind; [apply steps_ok_of, steps_lift | intros _].
  apply steps_ok_bind; [apply steps_ok_of, steps_verify_detach | intros r].
  apply steps_ok_bind; [apply steps_ok_verify_attach | intros blocks; apply steps_ok_of, steps_ret].
Qed.
End Steps.

(** * Single steps of the commands *)

Lemma down_app l l' : forall t f g, down t l f -> down f l' g -> down t (l ++ l') g.
Proof.
  induction l as [| n l IH]; intros t f g; cbn [app down]; [now intros -> |]. intros [-> (p & Hp & Hd)] Hd'. split; [done |]. eauto.
Qed.

Section Steps2.
Context `{PubKeysLaws} `{CryptoLaws} `{MapOrder} {B D : Type} `{BucketLaws B} `{BlockFiles D}.
Context (net : Network) (env : Env B) (range : nodes_range) (T : gmap bytes blockNode) (files : D) (HW : world net env T).
Context (Hrange : forall m, range m ≡ₚ map_to_list m) (Hgood : forall n, in_tree T n -> good_branch files n).

#[local] Abbreviation BC := (BlockChain B D).
#[local] Abbreviation chain_ok := (chain_ok net T files).
#[local] Abbreviation HB := (timed_block_tree T (w_tree net env T HW)).
#[local] Abbreviation invalid n b := (KnownInvalid (NodeStatus n (ch_index b))).
#[local] Existing Instance changed_pre.
#[local] Existing Instance grows_pre.
#[local] Existing Instance same_marks_pre.

Lemma run_chain_eq {A} (m : M BC ChainError A) b : run_chain m b = (relabel OfChain (fst (m b)), snd (m b)).
Proof. unfold run_chain. now destruct (m b). Qed.

Lemma with_index_ok (b : BC) t S bi : chain_ok b t S -> changed T files (ch_index b) bi -> chain_ok (with_index bi b) t S.
Proof.
  intros (Hc & HS & Hcache) [Hn Hv]. split; [| split; [done | exact Hcache]].
  constructor; cbn; try apply Hc; [rewrite Hn; apply Hc | apply Hv, Hc].
Qed.

Lemma tip_in_tree (b : BC) t S : chain_ok b t S -> in_tree T t.
Proof. intros (Hc & _ & _). exact (path_tip T _ t (ca_path _ _ _ b t Hc)). Qed.

Lemma contains_run (b : BC) t S n : chain_ok b t S -> in_tree T n -> contains (bestChain b) n = true <-> n ∈ branch t.
Proof.
  intros Hok. pose proof (tip_in_tree b t S Hok) as Ht.
  apply (contains_branch T HB (bestChain b) t (ca_path _ _ _ b t (proj1 Hok)) (w_heights net env T HW t Ht)).
Qed.

Lemma inactive_tips_run (b : BC) t S : chain_ok b t S ->
  exists tips, inactive_tips range b = (Ok tips, b) /\ forall n, n ∈ tips <-> in_tree T n /\ (n ∉ branch t) /\ leaf T n.
Proof.
  intros Hok. pose proof (tip_in_tree b t S Hok) as Ht. destruct (InactiveTips_run T HB (bestChain b) t (ca_path _ _ _ b t (proj1 Hok))
    (w_heights net env T HW t Ht) range Hrange (ch_index b) (ca_nodes _ _ _ b t (proj1 Hok))) as (tips & Hrun & Hin).
  exists tips. split; [| exact Hin]. unfold inactive_tips. rewrite run_chain_eq, bind_eq. cbn [get]. now rewrite Hrun.
Qed.

Lemma all_tips_run (b : BC) t S : chain_ok b t S ->
  exists tips, all_tips range b = (Ok (tips ++ [t]), b) /\ forall n, n ∈ tips <-> in_tree T n /\ (n ∉ branch t) /\ leaf T n.
Proof.
  intros Hok. destruct (inactive_tips_run b t S Hok) as (tips & Hrun & Hin). exists tips. split; [| exact Hin].
  unfold all_tips. rewrite bind_eq, Hrun. cbn beta iota. rewrite bind_eq, run_chain_eq, (theTip_run net env T files HW b t (proj1 Hok)). done.
Qed.

(** The best chain goes back to the parent of one of its nodes. *)
Lemma back_run (b : BC) t S node p :
  chain_ok b t S -> node ∈ branch t -> parent node = Some p ->
  (forall a, a ∈ branch t -> a ∉ branch node -> invalid a b = false) ->
  let '(bi, l) := invalidate_to node t (ch_index b) in
  exists b' S', reorganizeChain net env (l ++ [node]) [] (with_index bi b) = (Ok tt, b') /\ chain_ok b' p S' /\ index_same bi (ch_index b').
Proof.
  intros Hok Hb Hp Hclean. pose proof (tip_in_tree b t S Hok) as Ht. destruct (branch_tree T HB t node Ht Hb) as [Hn _].
  pose proof (in_tree_parent T HB node p Hn Hp) as Hpt.
  pose proof (invalidate_to_run T HB files node t (ch_index b) Ht Hn Hb) as Hrun. destruct (invalidate_to node t (ch_index b)) as [bi l].
  destruct Hrun as (Hc & _ & _ & _ & Hd). specialize (Hd Hclean).
  pose proof (reorganizeChain_run net env T files HW t p p S (l ++ [node]) [] Hpt (Hgood p Hpt) (Hgood t Ht)) as Hre.
  specialize (Hre (down_app l [node] t node p Hd (conj eq_refl (ex_intro _ p (conj Hp eq_refl)))) eq_refl (with_index bi b)
    (with_index_ok b t S bi Hok Hc)).
  assert (Hs : steps index_same (reorganizeChain net env (l ++ [node]) [])).
  { apply steps_reorganize; [| auto | intros n Hx%elem_of_nil; done]. split; [now split | intros b1 b2 b3 [Hn1 Hs1] [Hn2 Hs2]; split; congruence]. }
  specialize (Hs (with_index bi b)). destruct (reorganizeChain net env (l ++ [node]) [] (with_index bi b)) as [[[] | e |] b'];
    [| destruct Hre as (_ & _ & Hx); destruct Hx; constructor ..].
  destruct Hre as [[S' Hok'] _]. exists b', S'. done.
Qed.

(** What is above a fork is not in the other branch. *)
Lemma above_fork t n f a : in_tree T t -> in_tree T n -> (forall j, common t n j -> j <= height f) ->
  a ∈ branch n -> height f < height a -> a ∉ branch t.
Proof.
  intros Ht Hn Hmax Ha Hlt Hat. destruct (branch_tree T HB t a Ht Hat) as [Hat2 Hle]. destruct (branch_tree T HB n a Hn Ha) as [_ Hle2].
  pose proof (node_ok_height a (in_tree_ok T HB a Hat2)). specialize (Hmax (height a)).
  assert (height a <= height f); [| lia]. apply Hmax. split_and!; [lia | done | done |].
  now rewrite (branch_at T HB t a Ht Hat), (branch_at T HB n a Hn Ha).
Qed.

Lemma attach_above (bi : blockIndex B) f n : in_tree T f -> in_tree T n -> f ∈ branch n -> forall acc x,
  x ∈ snd (attach_from bi n (Some f) acc) -> (x ∈ branch n /\ height f < height x) \/ x ∈ acc.
Proof.
  intros Hf. revert n. induction n as [n IH] using node_ind. intros Hn Hfn acc x.
  assert (Heq : attach_from bi n (Some f) acc =
    if is_node (Some f) n then (false, acc) else if KnownInvalid (NodeStatus n bi) then (true, acc)
    else match parent n with Some p' => attach_from bi p' (Some f) (n :: acc) | None => (false, n :: acc) end) by now destruct n.
  rewrite Heq. destruct (is_node (Some f) n) eqn:Hsame; [auto |]. destruct (KnownInvalid _); [auto |].
  destruct (branch_cases n f Hfn) as [-> | (p & Hp & Hfp)].
  { rewrite (proj2 (is_node_eq T n n Hn Hn) eq_refl) in Hsame. discriminate. }
  rewrite Hp. pose proof (in_tree_parent T HB n p Hn Hp) as Hpt. destruct (branch_tree T HB p f Hpt Hfp) as [_ Hle].
  pose proof (child_height T HB n p Hn Hp). intros [[Hx Hlt] | Hx]%(IH p Hp Hpt Hfp).
  - left. split; [exact (branch_parent n p x Hp Hx) | done].
  - apply elem_of_cons in Hx as [-> | Hx]; [left; split; [apply branch_self | lia] | now right].
Qed.

(** The marks of the best chain stay. *)
Lemma nodes_same_marks (b : BC) t S best p :
  chain_ok b t S -> in_tree T best -> best ∉ branch t -> parent best = Some p ->
  same_marks (fun m => m ∈ branch t) (ch_index b) (ch_index (snd (getReorganizeNodes best b))).
Proof.
  intros Hok Hbest Hoff Hp. pose proof (tip_in_tree b t S Hok) as Ht.
  assert (Hother : forall n, in_tree T n -> (n ∉ branch t) -> forall m, m ∈ branch t -> hash_of n <> hash_of m).
  { intros n Hn Hout m Hm Heq. destruct (branch_tree T HB t m Ht Hm) as [Hmt _]. apply Hout. unfold in_tree in *. congruence. }
  assert (Hmarks : forall flags l, (forall n, n ∈ l -> in_tree T n /\ (n ∉ branch t)) ->
    steps (same_marks (fun m => m ∈ branch t)) (mark_all flags l : M BC ChainError unit)).
  { intros flags l Hl. apply steps_mark_all; [apply same_marks_pre |]. intros n Hn fl bi. destruct (Hl n Hn).
    apply set_other_marks. now apply Hother. }
  unfold getReorganizeNodes. rewrite bind_eq. cbn [get]. rewrite bind_eq, Hp. unfold lift at 1. cbn beta iota.
  destruct (KnownInvalid _).
  { rewrite bind_eq. pose proof (Hmarks statusInvalidAncestor [best]) as Hm. specialize (Hm ltac:(intros n ->%list_elem_of_singleton; done) b).
    now destruct (mark_all statusInvalidAncestor [best] b) as [[[] | e |] b1]. }
  destruct (findFork_spec T HB (bestChain b) t best (ca_path _ _ _ b t (proj1 Hok)) (w_heights net env T HW t Ht) Hbest) as (f & -> & Hcom & Hat & Hmax).
  assert (Hfn : f ∈ branch best). { destruct Hcom as (_ & _ & Heq). rewrite Heq in Hat. exact (back_branch _ _ _ Hat). }
  pose proof (attach_above (ch_index b) f best (proj1 (branch_tree T HB best f Hbest Hfn)) Hbest Hfn []) as Hl.
  destruct (attach_from (ch_index b) best (Some f) []) as [[|] l]; [| reflexivity].
  rewrite bind_eq. specialize (Hmarks statusInvalidAncestor l). unfold steps in Hmarks.
  assert (Hm : forall n, n ∈ l -> in_tree T n /\ (n ∉ branch t)).
  { intros n [[Hn Hlt] | Hn%elem_of_nil]%Hl; [| done]. split; [exact (proj1 (branch_tree T HB best n Hbest Hn)) |].
    exact (above_fork t best f n Ht Hbest Hmax Hn Hlt). }
  specialize (Hmarks Hm b). now destruct (mark_all statusInvalidAncestor l b) as [[[] | e |] b1].
Qed.

(** No block of the best chain is known to be invalid. *)
Definition unmarked (b : BC) (t : blockNode) : Prop := forall a, a ∈ branch t -> invalid a b = false.

Definition switch (best : blockNode) : M BC ChainError unit :=
  r <- getReorganizeNodes best;; flush_after (reorganizeChain net env (fst r) (snd r)).

Lemma switch_grows best (b : BC) : grows (ch_index b) (ch_index (snd (switch best b))).
Proof.
  assert (Hsame : forall bi bi' : blockIndex B, index_same bi bi' -> grows bi bi')
    by (intros bi bi' [_ Heq] m; unfold NodeStatus; now rewrite Heq).
  assert (Hm : forall l, may_mark (B := B) grows l) by (intros l n _ flags bi; apply set_grows).
  revert b. change (steps grows (switch best)). unfold switch.
  apply steps_bind; [apply grows_pre | apply steps_getReorganizeNodes; auto; apply grows_pre |].
  intros r. apply steps_flush_after; [apply grows_pre | exact Hsame |]. apply steps_reorganize; auto. apply grows_pre.
Qed.

Lemma reorganize_nothing (b : BC) t S : chain_ok b t S -> reorganizeChain net env [] [] b = (Ok tt, b).
Proof.
  intros Hok. unfold reorganizeChain. rewrite bind_eq.
  assert (Hv : verifyReorganizationValidity net env [] [] b = (Ok ([], []), b)) by reflexivity. rewrite Hv. cbn beta iota.
  now rewrite bind_eq, (theTip_run net env T files HW b t (proj1 Hok)).
Qed.

(** A switch to another tip. *)
Lemma switch_run (b : BC) t S best p :
  chain_ok b t S -> unmarked b t -> in_tree T best -> best ∉ branch t -> parent best = Some p ->
  let '(o, b') := switch best b in
  exists t' S', chain_ok b' t' S' /\ unmarked b' t' /\
    ((t' = t /\ S' = S) \/ (t' = best /\ none_invalid (ch_index b) t best)) /\
    (o = Ok tt -> t' = best \/ exists a, a ∈ branch best /\ invalid a b = true).
Proof.
  intros Hok Hun Hbest Hoff Hp. pose proof (tip_in_tree b t S Hok) as Ht.
  pose proof (nodes_same_marks b t S best p Hok Hbest Hoff Hp) as Hsame. unfold switch. rewrite bind_eq.
  destruct (getReorganizeNodes_run net env T files HW b t S best p Hok Hbest Hp) as (r & b1 & Hrun & Hok1 & _ & Hr). rewrite Hrun in *.
  cbn [snd] in Hsame. unfold flush_after. destruct Hr as [[-> Hinv] | (-> & Hnone & f & Hd & Hu & Hnew)]; cbn [fst snd] in *.
  - rewrite (reorganize_nothing b1 t S Hok1). destruct (flushIndex_run net T files b1 t S Hok1) as (b3 & Hfl & Hok3 & _ & Hst3).
    rewrite Hfl. cbn [snd]. exists t, S. split_and!; [done | | auto | auto]. intros a Ha. unfold NodeStatus. rewrite Hst3. change (invalid a b1 = false). rewrite (Hsame a Ha). exact (Hun a Ha).
  - pose proof (reorganizeChain_run net env T files HW t best f S (fst r) (snd r) Hbest (Hgood best Hbest) (Hgood t Ht) Hd Hu b Hok) as Hre.
    assert (Hfail : same_marks (fun m => m ∈ branch t) (ch_index b) (ch_index (snd (reorganizeChain net env (fst r) (snd r) b)))).
    { apply steps_reorganize; [apply same_marks_pre | apply same_marks_index |]. intros n Hn flags bi. apply set_other_marks.
      intros m Hm Heq. rewrite Forall_forall in Hnew. apply (Hnew n Hn). destruct (branch_tree T HB t m Ht Hm) as [Hmt _].
      destruct (up_above T HB (snd r) f best Hbest Hu n Hn) as [Hnb _]. destruct (branch_tree T HB best n Hbest Hnb) as [Hnt _].
      unfold in_tree in *. congruence. }
    assert (Hsucc : steps_ok (same_marks (fun _ => True)) (reorganizeChain net env (fst r) (snd r) : M BC ChainError unit)).
    { apply steps_ok_reorganize; [apply same_marks_pre | apply same_marks_index |]. intros n bi. apply set_valid_marks. }
    specialize (Hsucc b). destruct (reorganizeChain net env (fst r) (snd r) b) as [[[] | e |] b2]; cbn [snd] in Hfail.
    + destruct Hre as [[S' Hok2] _]. destruct (flushIndex_run net T files b2 best S' Hok2) as (b3 & Hfl & Hok3 & _ & Hst3). rewrite Hfl. cbn [snd].
      exists best, S'. split_and!; [done | | auto | auto]. intros a Ha. unfold NodeStatus. rewrite Hst3.
      change (invalid a b2 = false). rewrite (Hsucc tt b2 eq_refl a I). destruct (invalid a b) eqn:Hi; [| done]. exfalso.
      assert (Hout : a ∉ branch t) by (intros Hat; rewrite (Hun a Hat) in Hi; discriminate).
      rewrite (Hnone a Ha Hout) in Hi. discriminate.
    + destruct Hre as (Hok2 & _). destruct (flushIndex_run net T files b2 t S Hok2) as (b3 & Hfl & Hok3 & _ & Hst3). rewrite Hfl. cbn [snd].
      exists t, S. split_and!; [done | | auto | discriminate]. intros a Ha. unfold NodeStatus. rewrite Hst3. change (invalid a b2 = false).
      rewrite (Hfail a Ha). exact (Hun a Ha).
    + destruct Hre as (Hok2 & _). exists t, S. split_and!; [done | | auto | discriminate]. intros a Ha. rewrite (Hfail a Ha). exact (Hun a Ha).
Qed.

(** ** What has been verified *)

Definition valid_grows (bi bi' : blockIndex B) : Prop :=
  forall m, KnownValid (NodeStatus m bi) = true -> KnownValid (NodeStatus m bi') = true.

#[local] Instance valid_grows_pre : PreOrder valid_grows.
Proof. split; [intros bi m; auto | intros b1 b2 b3 Hg1 Hg2 m Hm; auto]. Qed.

Lemma set_valid_grows n flags bi : valid_grows bi (SetStatusFlags n flags bi).
Proof.
  intros m Hm. unfold SetStatusFlags. destruct (decide (hash_of n = hash_of m)) as [Heq | Hne]; [| now rewrite status_other].
  rewrite status_self by done. replace (NodeStatus n bi) with (NodeStatus m bi) by (unfold NodeStatus; now rewrite Heq).
  rewrite KnownValid_bit, Z.lor_spec, <- KnownValid_bit, Hm. reflexivity.
Qed.

Lemma verify_attach_valid l : forall v (b : BC) blocks b', verify_attach net env l v b = (Ok blocks, b') -> all_valid (ch_index b') l.
Proof.
  induction l as [| n l IH]; intros v b blocks b' Hrun; [constructor |]. cbn [verify_attach] in Hrun.
  rewrite bind_eq in Hrun. destruct (fetch_block (Some n) b) as [[block | e |] b1] eqn:Hf; [| discriminate ..].
  rewrite bind_eq in Hrun. cbn [get] in Hrun. rewrite bind_eq in Hrun.
  set (m := if KnownValid _ then _ else _) in Hrun. destruct (m b1) as [[v1 | e |] b2] eqn:Hm; [| discriminate ..].
  rewrite bind_eq in Hrun. destruct (verify_attach net env l v1 b2) as [[blocks1 | e |] b3] eqn:Hrest; [| discriminate ..].
  injection Hrun as _ <-. constructor; [| exact (IH _ _ _ _ Hrest)].
  pose proof (steps_verify_attach net env valid_grows valid_grows_pre l (fun x _ => set_valid_grows x) v1 b2) as Hg.
  rewrite Hrest in Hg. apply Hg. cbn [snd]. clear IH Hrest Hg. subst m. destruct (KnownValid (NodeStatus n (ch_index b1))) eqn:Hv.
  - assert (Hs : steps valid_grows (v0 <- load_inputs block (height n) v;; connect_view block (height n) v0 : M BC ChainError UtxoViewpoint)).
    { apply steps_bind; [apply valid_grows_pre | apply steps_load; apply valid_grows_pre | intros v0; apply steps_connect_view, valid_grows_pre]. }
    specialize (Hs b1). rewrite Hm in Hs. now apply Hs.
  - rewrite bind_eq in Hm. destruct (mark_failed _ _ _ b1) as [[v0 | e |] b4]; [| discriminate ..]. rewrite bind_eq in Hm.
    injection Hm as _ <-. cbn. unfold SetStatusFlags. rewrite status_self by done. rewrite KnownValid_bit, Z.lor_spec. apply orb_true_r.
Qed.

Lemma verify_valid detachNodes attachNodes (b : BC) r b' :
  verifyReorganizationValidity net env detachNodes attachNodes b = (Ok r, b') -> all_valid (ch_index b') attachNodes.
Proof.
  unfold verifyReorganizationValidity. destruct (_ && _) eqn:Hempty.
  { apply andb_true_iff in Hempty as [_ ->%Z.eqb_eq%zlen_0_nil]. intros _. constructor. }
  intros Hrun. rewrite bind_eq in Hrun. destruct (theTip b) as [[t | e |] b1]; [| discriminate ..].
  rewrite bind_eq in Hrun. destruct (_ b1) as [[[] | e |] b2]; [| discriminate ..].
  rewrite bind_eq in Hrun. destruct (lift _ b2) as [[[] | e |] b3]; [| discriminate ..].
  rewrite bind_eq in Hrun. destruct (verify_detach _ _ b3) as [[x | e |] b4]; [| discriminate ..].
  rewrite bind_eq in Hrun. destruct (verify_attach _ _ _ _ b4) as [[blocks | e |] b5] eqn:Hatt; [| discriminate ..].
  injection Hrun as _ <-. exact (verify_attach_valid _ _ _ _ _ Hatt).
Qed.
End Steps2.
