(* ===== verification/Invalidation.v ===== *)
(** What the commands that invalidate and reconsider a block promise, and runs on
    small trees in which they do something else. *)

From stdpp Require Import gmap fin_maps.
From S2P Require Import Prelude Slices ScriptError Opcodes Tokenizer Vlq Compress WireCommon MsgTx MsgBlock Script Crypto SigHash SigCache EngineState SigCheck OpcodeExec Engine EngineInv BtcUtil Merkle WorkMath BlockIndex Difficulty TxRules Validate UtxoView Supply Bucket Chainio SizeHelper UtxoCache ChainView Threshold ScriptVal Connect ConnectSpec Votes ReorgView Chain ChainInv ChainSpec BestChain Orphans Process TreeSpec ProcessSpec Processing Commands CommandSpec.
#[local] Open Scope Z_scope.

Section Runs.
Context `{PubKeysLaws} `{CryptoLaws} `{MapOrder} {B D : Type} `{BucketLaws B} `{BlockFiles D}.
Context (net : Network) (env : Env B) (range : nodes_range) (T : gmap bytes blockNode) (files : D) (HW : world net env T).
Context (Hrange : forall m, range m ≡ₚ map_to_list m) (Hgood : forall n, in_tree T n -> good_branch files n).

#[local] Abbreviation BC := (BlockChain B D).
#[local] Abbreviation chain_ok := (chain_ok net T files).
#[local] Abbreviation HB := (timed_block_tree T (w_tree net env T HW)).
#[local] Existing Instance grows_pre.
#[local] Abbreviation invalid n b := (KnownInvalid (NodeStatus n (ch_index b))).




Lemma leaf_last t x : in_tree T t -> x ∈ branch t -> leaf T x -> x = t.
Proof.
  induction t as [t IH] using node_ind. intros Ht Hx Hl. destruct (branch_cases t x Hx) as [-> | (p & Hp & Hxp)]; [done |]. exfalso.
  assert (x = p) as -> by (apply IH; [done | exact (in_tree_parent T HB t p Ht Hp) | done | done]). exact (Hl t Ht Hp).
Qed.




(** Another tip is adopted when its branch passes the checks. *)
Definition adopt (best : blockNode) : M BC CommandError unit :=
  r <- run_chain (getReorganizeNodes best);;
  fun b =>
    match run_chain (flush_after (verifyReorganizationValidity net env (fst r) (snd r))) b with
    | (Ok _, b') => run_chain (reorganizeChain net env (fst r) (snd r)) b'
    | (Err _, b') => (Ok tt, b')
    | (Panic, b') => (Panic, b')
    end.

Lemma adopt_run (b : BC) t S y p : chain_ok b t S -> in_tree T y -> parent y = Some p ->
  let '(o, b') := adopt y b in
  (o = Ok tt \/ o = Panic) /\
  ((chain_ok b' t S /\ notifications b' = notifications b) \/ (o = Ok tt /\ exists S', chain_ok b' y S')).
Proof.
  intros Hok Hy Hp. pose proof (tip_in_tree net T files b t S Hok) as Ht. unfold adopt. rewrite bind_eq, run_chain_eq.
  destruct (getReorganizeNodes_run net env T files HW b t S y p Hok Hy Hp) as (r & b1 & Hrun & Hok1 & Hn1 & Hr). rewrite Hrun.
  cbn [fst snd relabel]. rewrite run_chain_eq. unfold flush_after. destruct Hr as [[-> _] | (-> & _ & f & Hd & Hu & _)]; cbn [fst snd].
  - assert (Hv : verifyReorganizationValidity net env [] [] b1 = (Ok ([], []), b1)) by reflexivity. rewrite Hv.
    destruct (flushIndex_run net T files b1 t S Hok1) as (b2 & Hfl & Hok2 & Hn2 & _). rewrite Hfl. cbn [fst snd relabel].
    rewrite run_chain_eq, (reorganize_nothing net env T files HW b2 t S Hok2). split; [now left |]. left. split; [done | cbn; congruence].
  - pose proof (verify_run net env T files HW t y f S (fst r) (snd r) Hy (Hgood y Hy) (Hgood t Ht) Hd Hu b Hok) as Hver.
    pose proof (verify_valid net env (fst r) (snd r) b) as Hval.
    destruct (verifyReorganizationValidity net env (fst r) (snd r) b) as [[x | e |] b2]; destruct Hver as (Hok2 & Hn2 & _);
      [| | cbn; split; [now right | now left]];
      destruct (flushIndex_run net T files b2 t S Hok2) as (b3 & Hfl & Hok3 & Hn3 & Hst3); rewrite Hfl; cbn [fst snd relabel];
      [| split; [now left |]; left; split; [done | congruence]].
    pose proof (reorganizeChain_run net env T files HW t y f S (fst r) (snd r) Hy (Hgood y Hy) (Hgood t Ht) Hd Hu b3 Hok3) as Hre.
    assert (Hvalid : all_valid (ch_index b3) (snd r)).
    { eapply Forall_impl; [exact (Hval x b2 eq_refl) |]. intros m. unfold NodeStatus. now rewrite Hst3. }
    rewrite run_chain_eq. destruct (reorganizeChain net env (fst r) (snd r) b3) as [[[] | e |] b4]; [| now destruct Hre as (_ & _ & Hx) ..].
    destruct Hre as [HS' _]. cbn [fst snd relabel]. split; [now left | now right].
Qed.
End Runs.

Section Claims.
Context `{PubKeysLaws} `{CryptoLaws} `{MapOrder} {B D : Type} `{BucketLaws B} `{BlockFiles D}.
Context (net : Network) (env : Env B) (range : nodes_range) (T : gmap bytes blockNode) (files : D).
#[local] Abbreviation invalid n b := (KnownInvalid (NodeStatus n (ch_index b))).



(** C8: reconsidering a block.  In a right chain whose branches are all good
    ([good_branch], as for invalidating a block) the command refuses an unknown
    block.  For a known block it does not return an error, but it may panic, as the
    scripts of a block can make it do.  It leaves a chain that is right: with the
    tip, the coins and the notifications as they were, whatever the answer; or,
    only if it succeeds, with a new tip that has more work than the old one and is
    above the block or the block itself. *)
Theorem reconsider_block (b : BlockChain B D) t S hash :
  world net env T -> (forall m, range m ≡ₚ map_to_list m) -> (forall n, in_tree T n -> good_branch files n) ->
  chain_ok net T files b t S ->
  let '(o, b') := ReconsiderBlock net env range hash b in
  match T !! hash with
  | None => o = Err UnknownBlock /\ b' = b
  | Some node =>
      (o = Ok tt \/ o = Panic) /\
      ((chain_ok net T files b' t S /\ notifications b' = notifications b) \/
       (o = Ok tt /\ exists t' S', chain_ok net T files b' t' S' /\ n_workSum (data t) < n_workSum (data t') /\ node ∈ branch t'))
  end.
Proof.
  intros HW Hrange Hgood Hok. pose proof (timed_block_tree T (w_tree net env T HW)) as HT.
  pose proof (tip_in_tree net T files b t S Hok) as Ht. unfold ReconsiderBlock. rewrite bind_eq. cbn [get]. unfold LookupNode at 1.
  rewrite (ca_nodes _ _ _ b t (proj1 Hok)). destruct (T !! hash) as [node |] eqn:Hlook; [| done].
  pose proof (tree_hash T HT hash node Hlook) as Hhash. subst hash. rename Hlook into Hn.
  destruct (KnownValid _); [split; [now left | left; done] |].
  do 2 (rewrite bind_eq, run_chain_eq; cbn [fst snd on_index modify relabel]). change (with_index _ (with_index ?f b)) with
    (with_index (UnsetStatusFlags node statusValidateFailed (ch_index (with_index f b))) b). cbn [ch_index with_index].
  destruct (unset_changed T files node statusInvalidAncestor (ch_index b) Hn) as [Hn1 Hv1].
  destruct (unset_changed T files node statusValidateFailed (UnsetStatusFlags node statusInvalidAncestor (ch_index b)) Hn) as [Hn2 Hv2].
  match goal with |- context [with_index ?bi b] => set (b1 := with_index bi b);
    assert (Hok1 : chain_ok net T files b1 t S) by (apply with_index_ok; [done | split; [congruence | auto]]) end.
  destruct (all_tips_run net env range T files HW Hrange b1 t S Hok1) as (tips & Hrun & Htips).
  rewrite bind_eq, Hrun. cbn beta iota. rewrite bind_eq. cbn [get].
  pose proof (reconsider_tips_run (B := B) T HT files node (tips ++ [t]) Hn) as Hrec.
  assert (Hall : Forall (in_tree T) (tips ++ [t])).
  { apply Forall_app. split; [apply Forall_forall; intros x Hx%Htips; apply Hx | now constructor]. }
  specialize (Hrec Hall (ch_index b1) None ltac:(discriminate)).
  destruct (reconsider_tips node (tips ++ [t]) (ch_index b1) None) as [bi best]. destruct Hrec as (Hc & Hbest & Hsome).
  rewrite bind_eq. cbn [put]. pose proof (with_index_ok net T files b1 t S bi Hok1 Hc) as Hok2. rewrite bind_eq, run_chain_eq.
  rewrite (theTip_run net env T files HW _ t (proj1 Hok2)). cbn [fst snd relabel]. destruct Hsome as [y Hy].
  { right. destruct (leaf_above T HT node Hn) as (x & Hx & Hl & Hbx). exists x. split; [| done]. apply elem_of_app.
    destruct (branch_dec T HT t x Ht Hx) as [Hxt | Hxt]; [right | left; now apply Htips].
    apply list_elem_of_singleton. exact (leaf_last net env T HW t x Ht Hxt Hl). }
  rewrite Hy. destruct (Hbest y Hy) as [[Hyt Hyb] Hyin]. destruct (Z.leb_spec (n_workSum (data y)) (n_workSum (data t))) as [Hle | Hlt].
  { split; [now left | left]. split; [exact Hok2 | done]. }
  destruct Hyin as [| Hyin]; [discriminate |]. apply elem_of_app in Hyin as [(_ & Hyo & _)%Htips | ->%list_elem_of_singleton]; [| lia].
  destruct (off_parent T HT (bestChain b) t (ca_path _ _ _ b t (proj1 Hok)) y Hyt Hyo) as (p & Hp & _).
  pose proof (adopt_run net env T files HW Hgood _ t S y p Hok2 Hyt Hp) as Hado. fold (adopt net env y).
  destruct (adopt net env y _) as [o b']. destruct Hado as [Ho [[Hok' Hn'] | [Ho' [S' Hok']]]]; (split; [exact Ho |]); [now left | right].
  split; [done |]. exists y, S'. done.
Qed.
End Claims.

(** * Runs *)

Section Sample.
#[local] Existing Instance Compress.toy_keys.
#[local] Existing Instance Compress.toy_keys_laws.
#[local] Existing Instance toy_crypto.
#[local] Existing Instance toy_laws.
#[local] Existing Instance list_order.

Abbreviation SmallChain := (BlockChain (gmap bytes bytes) (gmap bytes bytes)).

Definition ranged (m : gmap bytes blockNode) : list (bytes * blockNode) := map_to_list m.
Definition ranged_back (m : gmap bytes blockNode) : list (bytes * blockNode) := reverse (map_to_list m).

Definition invalidated (b : MsgBlock) (s : SmallChain) := InvalidateBlock sample_net sample_env ranged (BlockHash (Header b)) s.
Definition reconsidered (range : nodes_range) (b : MsgBlock) (s : SmallChain) :=
  ReconsiderBlock sample_net sample_env range (BlockHash (Header b)) s.

(** Two more blocks: d is on b, as c is, and e is on d. *)
Definition block_d : MsgBlock := sample_block 6 (BlockHash (Header block_b)) 1600001800 [sample_coinbase 6].
Definition block_e : MsgBlock := sample_block 7 (BlockHash (Header block_d)) 1600002400 [sample_coinbase 7].

(** The chain after some blocks. *)
Definition chain_after (l : list MsgBlock) : SmallChain := the_chain (foldl (fun s b => snd (process b s)) start_chain l).

Definition ends_at (r : outcome CommandError unit * SmallChain) (b : MsgBlock) : bool :=
  is_ok (fst r) && bool_decide (hash_of <$> tip (bestChain (snd r)) = Some (BlockHash (Header b))).

Definition node_of (b : MsgBlock) (s : SmallChain) : option blockNode := LookupNode (BlockHash (Header b)) (ch_index s).

(** Runs of the commands.  Invalidating the tip c of g, b, c with the side branch
    a makes a the tip, although b, its parent, is in the best chain and has the same
    work: among tips with equal work the last one that is looked at is the one of
    the best chain.  When c and d are both above b, invalidating b leaves the first
    block as the tip although the branch of a is valid and has more work: d is not
    marked, is taken for the best tip, and turns out to have an invalid ancestor.
    When b is invalidated with the tips c and e above it, e having more work,
    reconsidering b makes e the tip or c, depending on the order of a map.
    Invalidating c and reconsidering it gives the tip c again. *)
Example command_answers :
  ends_at (invalidated block_c (chain_after [block_a; block_b; block_c])) block_a = true /\
  ends_at (invalidated block_b (chain_after [block_a; block_b; block_c; block_d])) block_g = true /\
  (exists n, node_of block_a (chain_after [block_a; block_b; block_c; block_d]) = Some n /\
     KnownValid (NodeStatus n (ch_index (snd (invalidated block_b (chain_after [block_a; block_b; block_c; block_d]))))) = true /\
     n_workSum (data node_g) < n_workSum (data n)) /\
  (let s := snd (invalidated block_b (chain_after [block_a; block_b; block_c; block_d; block_e])) in
   ends_at (reconsidered ranged block_b s) block_e = true /\ ends_at (reconsidered ranged_back block_b s) block_c = true) /\
  ends_at (reconsidered ranged block_c (snd (invalidated block_c (chain_after [block_a; block_b; block_c])))) block_c = true.
Proof.
  split_and!; [vm_compute; reflexivity | vm_compute; reflexivity | |
    cbv zeta; split; vm_compute; reflexivity | vm_compute; reflexivity].
  exists node_a. split_and!; vm_compute; reflexivity.
Qed.

Lemma four_all_good n : in_tree four_nodes n -> good_branch four_files n.
Proof.
  intros Hn%four_cases. destruct four_good as [Ha Hc].
  pose proof (branch_self node_a) as Haa. pose proof (branch_self node_c) as Hcc.
  pose proof (branch_parent node_a node_g node_g eq_refl (branch_self node_g)) as Hga.
  pose proof (branch_parent node_c node_b node_b eq_refl (branch_self node_b)) as Hbc.
  repeat (apply elem_of_cons in Hn as [-> | Hn]; [first [apply (good_ancestor four_files node_a _ Ha); assumption | apply (good_ancestor four_files node_c _ Hc); assumption] |]). now apply elem_of_nil in Hn.
Qed.



Lemma reconsider_block_witness :
  let '(o, b') := ReconsiderBlock sample_net sample_env ranged (hash_of node_c) (second_chain 1 5) in
  exists S', chain_ok sample_net four_nodes four_files b' node_c S'.
Proof.
  destruct (second_chain_ok 1 5) as [S Hok].
  pose proof (reconsider_block sample_net sample_env ranged four_nodes four_files (second_chain 1 5) node_a S (hash_of node_c)
    sample_world (fun m => reflexivity (map_to_list m)) four_all_good Hok) as Hrun.
  assert (Htip : tip (bestChain (snd (ReconsiderBlock sample_net sample_env ranged (hash_of node_c) (second_chain 1 5)))) = Some node_c)
    by (vm_compute; reflexivity).
  destruct (ReconsiderBlock sample_net sample_env ranged (hash_of node_c) (second_chain 1 5)) as [o b']. cbn [snd] in Htip.
  assert (Hlook : four_nodes !! hash_of node_c = Some node_c) by (vm_compute; reflexivity). rewrite Hlook in Hrun.
  pose proof (timed_block_tree _ four_tree) as HT.
  destruct Hrun as (_ & [[Hok' _] | (_ & t' & S' & Hok' & _)]).
  - exfalso. rewrite (tip_path four_nodes HT _ _ (ca_path _ _ _ _ _ (proj1 Hok'))) in Htip. apply Some_inj in Htip.
    apply (f_equal (fun n => hash_of n)) in Htip. vm_compute in Htip. discriminate.
  - rewrite (tip_path four_nodes HT _ _ (ca_path _ _ _ _ _ (proj1 Hok'))) in Htip. apply Some_inj in Htip. subst t'. exists S'. exact Hok'.
Defined.
End Sample.
