(* ===== verification/Queries.v ===== *)
(** Questions about the best chain (src/btcd/blockchain/chain.go): headers and heights
    by hash, ranges of hashes, and what is sent to a peer that gives a locator.

    They only read the view of the best chain and the index of blocks. *)

From stdpp Require Import gmap fin_maps.
From S2P Require Import Prelude Slices ScriptError Opcodes Tokenizer Vlq Compress WireCommon MsgTx MsgBlock Script Crypto SigHash SigCache EngineState SigCheck OpcodeExec Engine EngineInv BtcUtil Merkle WorkMath BlockIndex Difficulty TxRules Validate UtxoView Supply Bucket Chainio SizeHelper UtxoCache ChainView Threshold ScriptVal Connect ConnectSpec Votes ReorgView Chain ChainInv ChainSpec CommandSpec.
#[local] Open Scope Z_scope.

Definition MaxBlockHeadersPerMsg : Z := 2000.

Inductive QueryError : Set :=
| NotKnown
| NotValidated
| NotInMainChain
| NegativeStart
| EndBeforeStart
| StartAfterEnd
| TooMany.

Abbreviation queried := (outcome QueryError).

Section Queries.
Context {B : Type} (bestChain : chainView) (bi : blockIndex B).

Definition HeaderByHash (hash : bytes) : queried BlockHeader :=
  match LookupNode hash bi with Some node => Ok (node_Header node) | None => Err NotKnown end.

Definition MainChainHasBlock (hash : bytes) : bool :=
  match LookupNode hash bi with Some node => contains bestChain node | None => false end.

Definition BlockLocatorFromHash (hash : bytes) : viewed (list bytes) := blockLocator bestChain (LookupNode hash bi).
Definition LatestBlockLocator : viewed (list bytes) := blockLocator bestChain None.

Definition BlockHeightByHash (hash : bytes) : queried Z :=
  match LookupNode hash bi with
  | Some node => if contains bestChain node then Ok (height node) else Err NotInMainChain
  | None => Err NotInMainChain
  end.

Definition BlockHashByHeight (blockHeight : Z) : queried bytes :=
  match nodeByHeight bestChain blockHeight with Some node => Ok (hash_of node) | None => Err NotInMainChain end.

(** The hash of a node that must be there. *)
Definition the_hash (n : option blockNode) : queried bytes :=
  match n with Some node => Ok (hash_of node) | None => Panic end.

(** [n] hashes from a height upwards. *)
Fixpoint hashes_from (n : nat) (h : Z) : queried (list bytes) :=
  match n with
  | O => Ok []
  | S n' =>
      let! hash := the_hash (nodeByHeight bestChain h) in
      let! l := hashes_from n' (int32 (h + 1)) in
      Ok (hash :: l)
  end.

Definition HeightRange (startHeight endHeight : Z) : queried (list bytes) :=
  if startHeight <? 0 then Err NegativeStart else
  if endHeight <? startHeight then Err EndBeforeStart else
  if startHeight =? endHeight then Ok [] else
  match tip bestChain with
  | None => Panic
  | Some t =>
      let latestHeight := height t in
      if startHeight >? latestHeight then Ok [] else
      let endHeight := if endHeight >? int32 (latestHeight + 1) then int32 (latestHeight + 1) else endHeight in
      hashes_from (Z.to_nat (endHeight - startHeight)) startHeight
  end.

(** [n] hashes from a node backwards, the last one first. *)
Fixpoint hashes_back (n : nat) (node : option blockNode) (hashes : list bytes) : queried (list bytes) :=
  match n with
  | O => Ok hashes
  | S n' =>
      match node with
      | None => Panic
      | Some node => hashes_back n' (parent node) (hash_of node :: hashes)
      end
  end.

Definition valid_node (hash : bytes) : queried blockNode :=
  match LookupNode hash bi with
  | None => Err NotKnown
  | Some node => if KnownValid (NodeStatus node bi) then Ok node else Err NotValidated
  end.

Definition HeightToHashRange (startHeight : Z) (endHash : bytes) (maxResults : Z) : queried (list bytes) :=
  let! endNode := valid_node endHash in
  let endHeight := height endNode in
  if startHeight <? 0 then Err NegativeStart else
  if startHeight >? endHeight then Err StartAfterEnd else
  let resultsLength := int32 (endHeight - startHeight + 1) in
  if resultsLength >? maxResults then Err TooMany else
  hashes_back (Z.to_nat resultsLength) (Some endNode) [].

(** From an index down to one; the node of the round before is where to look from. *)
Fixpoint interval_loop (n : nat) (interval : Z) (node : blockNode) (hashes : list bytes) : queried (list bytes) :=
  match n with
  | O => Ok hashes
  | S n' =>
      let blockHeight := int32 (int64 (Z.of_nat n * interval)) in
      match (if contains bestChain node then nodeByHeight bestChain blockHeight else Ancestor node blockHeight) with
      | None => Panic
      | Some node => interval_loop n' interval node (hash_of node :: hashes)
      end
  end.

(** Dividing by zero and making a slice of a negative length panic. *)
Definition IntervalBlockHashes (endHash : bytes) (interval : Z) : queried (list bytes) :=
  let! endNode := valid_node endHash in
  if interval =? 0 then Panic else
  let resultsLength := Z.quot (height endNode) interval in
  if resultsLength <? 0 then Panic else
  interval_loop (Z.to_nat resultsLength) interval endNode [].

(** ** Locating *)

(** The first block of a locator that is in the best chain. *)
Fixpoint first_known (locator : list bytes) : option blockNode :=
  match locator with
  | [] => None
  | hash :: locator' =>
      match LookupNode hash bi with
      | Some node => if contains bestChain node then Some node else first_known locator'
      | None => first_known locator'
      end
  end.

(** A nil tip panics when its height is read. *)
Definition locateInventory (locator : list bytes) (hashStop : bytes) (maxEntries : Z) : queried (option blockNode * Z) :=
  let stopNode := LookupNode hashStop bi in
  match locator with
  | [] => Ok match stopNode with None => (None, 0) | Some n => (Some n, 1) end
  | _ =>
      let startNode := match first_known locator with Some n => Some n | None => genesis bestChain end in
      match next bestChain startNode with
      | None => Ok (None, 0)
      | Some startNode =>
          match tip bestChain with
          | None => Panic
          | Some t =>
              let total := uint32 (int32 (height t - height startNode) + 1) in
              let total :=
                match stopNode with
                | Some n => if contains bestChain n && (height n >=? height startNode)
                            then uint32 (int32 (height n - height startNode) + 1) else total
                | None => total
                end in
              Ok (Some startNode, if total >? maxEntries then maxEntries else total)
          end
      end
  end.

(** What is wanted of a number of nodes, one after the other in the best chain. *)
Fixpoint walk {A} (f : blockNode -> A) (n : nat) (node : option blockNode) : queried (list A) :=
  match n with
  | O => Ok []
  | S n' =>
      match node with
      | None => Panic
      | Some m =>
          let! l := walk f n' (next bestChain node) in
          Ok (f m :: l)
      end
  end.

Definition located {A} (f : blockNode -> A) (locator : list bytes) (hashStop : bytes) (max : Z) : queried (list A) :=
  obind (locateInventory locator hashStop max) (fun '(node, total) => walk f (Z.to_nat total) node).

Definition locateBlocks : list bytes -> bytes -> Z -> queried (list bytes) := located (fun n => hash_of n).
Definition locateHeaders : list bytes -> bytes -> Z -> queried (list BlockHeader) := located node_Header.

Definition LocateBlocks : list bytes -> bytes -> Z -> queried (list bytes) := locateBlocks.
Definition LocateHeaders (locator : list bytes) (hashStop : bytes) : queried (list BlockHeader) :=
  locateHeaders locator hashStop MaxBlockHeadersPerMsg.
End Queries.

(** * What they answer *)

(** The nodes of a branch from a height upwards. *)
Definition segment (t : blockNode) (h count : Z) : list blockNode := omap (at_height t) (seqZ h count).

Section Spec.
Context {B : Type} (T : gmap bytes blockNode) (HT : block_tree T) (nodes : chainView) (bi : blockIndex B) (t : blockNode).
Context (Hpath : is_path T nodes t) (Hbound : height t < 2 ^ 31 - 1) (Hbi : index_nodes bi = T).

#[local] Abbreviation Ht := (path_tip T nodes t Hpath).

Lemma segment_step h n m : at_height t h = Some m -> segment t h (Z.of_nat (S n)) = m :: segment t (h + 1) (Z.of_nat n).
Proof.
  intros Hm. unfold segment. rewrite (seqZ_cons h) by lia. rewrite Nat2Z.inj_succ, Z.pred_succ. cbn [omap list_omap]. now rewrite Hm.
Qed.

(** Going up the view. *)
Lemma hashes_from_run n : forall h, 0 <= h -> h + Z.of_nat n <= height t + 1 ->
  hashes_from nodes n h = Ok ((fun m => hash_of m) <$> segment t h (Z.of_nat n)).
Proof.
  induction n as [| n IH]; intros h Hh Hn; [done |]. destruct (at_height_Some T HT t h Ht ltac:(lia)) as (m & Hm & _ & _).
  cbn [hashes_from]. rewrite (nodeByHeight_path T HT nodes t h Hpath Hbound). replace ((0 <=? h) && (h <=? height t)) with true by lia.
  rewrite Hm. cbn [the_hash obind]. rewrite int32_small, IH by lia. cbn [obind]. now rewrite (segment_step h n m Hm).
Qed.

Lemma walk_run {A} (f : blockNode -> A) n : forall h, 0 <= h -> h + Z.of_nat n <= height t + 1 ->
  walk nodes f n (at_height t h) = Ok (f <$> segment t h (Z.of_nat n)).
Proof.
  induction n as [| n IH]; intros h Hh Hn; [done |]. destruct (at_height_Some T HT t h Ht ltac:(lia)) as (m & Hm & Hmt & Hmh).
  cbn [walk]. rewrite Hm. destruct n as [| n].
  - cbn [walk obind]. now rewrite (segment_step h 0 m Hm).
  - rewrite (next_path T HT nodes t m Hpath Hbound Hmt), Hmh.
    + replace (h <? height t) with true by lia. rewrite IH by lia. cbn [obind]. now rewrite (segment_step h (S n) m Hm).
    + apply (contains_path T HT nodes t m Hpath Hbound Hmt). rewrite Hmh. split; [lia | done].
Qed.

(** Going back from a node. *)
Lemma segment_below u v lo n : (forall j, lo <= j < lo + Z.of_nat n -> at_height u j = at_height v j) ->
  segment u lo (Z.of_nat n) = segment v lo (Z.of_nat n).
Proof.
  intros Heq. unfold segment. apply list_omap_ext. apply Forall2_same_length_lookup_2; [done |]. intros i x y Hx Hy.
  assert (x = y) as <- by congruence. apply Heq. apply list_elem_of_lookup_2, elem_of_seqZ in Hx. lia.
Qed.

Lemma segment_last u lo n m : at_height u (lo + Z.of_nat n) = Some m ->
  segment u lo (Z.of_nat (S n)) = segment u lo (Z.of_nat n) ++ [m].
Proof. intros Hm. unfold segment. rewrite seqZ_S, omap_app. cbn [omap list_omap]. now rewrite Hm. Qed.

Lemma hashes_back_run n : forall u hashes, in_tree T u -> Z.of_nat n <= height u + 1 ->
  hashes_back n (Some u) hashes = Ok (((fun m => hash_of m) <$> segment u (height u + 1 - Z.of_nat n) (Z.of_nat n)) ++ hashes).
Proof.
  induction n as [| n IH]; intros u hashes Hu Hn; [done |]. cbn [hashes_back].
  rewrite (segment_last u _ n u) by (rewrite <- (at_height_self u); f_equal; lia). rewrite fmap_app, <- app_assoc. cbn [fmap list_fmap app].
  destruct n as [| n]; [done |]. destruct (parent u) as [p |] eqn:Hp.
  - destruct (child_height T HT u p Hu Hp) as [_ Hh]. rewrite (IH p) by (try exact (in_tree_parent T HT u p Hu Hp); lia).
    rewrite Hh. replace (height u - 1 + 1 - Z.of_nat (S n)) with (height u + 1 - Z.of_nat (S (S n))) by lia.
    rewrite (segment_below p u); [done |]. intros j Hj. symmetry. apply (at_height_parent T HT u p j Hu Hp); lia.
  - apply root_height in Hp; [lia | exact (in_tree_ok T HT u Hu)].
Qed.

(** The multiples of an interval. *)
Lemma interval_run n interval u : in_tree T u -> height u < 2 ^ 31 - 1 -> 0 < interval -> Z.of_nat n * interval <= height u ->
  forall v hashes, (v = u \/ at_height u (height v) = Some v) -> in_tree T v -> Z.of_nat n * interval <= height v ->
  interval_loop nodes n interval v hashes =
    Ok (((fun m => hash_of m) <$> omap (fun k => at_height u (k * interval)) (seqZ 1 (Z.of_nat n))) ++ hashes).
Proof.
  intros Hu Hb Hi. induction n as [| n IH]; intros Hn v hashes Hv Hvt Hvh; [done |]. cbn [interval_loop].
  rewrite (int64_small (Z.of_nat (S n) * interval)), int32_small by lia. set (h := Z.of_nat (S n) * interval) in *.
  assert (Hat : at_height u (height v) = Some v) by (destruct Hv as [-> |]; [apply at_height_self | done]).
  destruct (branch_tree T HT u v Hu (back_branch _ _ _ Hat)) as [_ Hle].
  destruct (at_height_Some T HT u h Hu ltac:(lia)) as (m & Hm & Hmt & Hmh).
  assert (Hvm : at_height v h = Some m) by (rewrite <- Hm; symmetry; apply (at_height_trans T HT u v h (height v)); done || lia).
  assert (Hfound : (if contains nodes v then nodeByHeight nodes h else Ancestor v h) = Some m).
  { destruct (contains nodes v) eqn:Hc.
    - apply (contains_path T HT nodes t v Hpath Hbound Hvt) in Hc as [Hlt Htv].
      rewrite (nodeByHeight_path T HT nodes t h Hpath Hbound). replace ((0 <=? h) && (h <=? height t)) with true by lia.
      rewrite (at_height_trans T HT t v h (height v) Ht) by (done || lia). exact Hvm.
    - rewrite (Ancestor_back v (in_tree_ok T HT v Hvt)) by lia. exact Hvm. }
  rewrite Hfound. rewrite (IH ltac:(lia) m) by (try right; rewrite ?Hmh; done || lia).
  rewrite seqZ_S, omap_app, fmap_app, <- app_assoc. replace (1 + Z.of_nat n) with (Z.of_nat (S n)) by lia.
  cbn [omap list_omap]. fold h. rewrite Hm. done.
Qed.

Lemma segment_length u n : forall h, in_tree T u -> 0 <= h -> h + Z.of_nat n <= height u + 1 -> length (segment u h (Z.of_nat n)) = n.
Proof.
  induction n as [| n IH]; intros h Hu Hh Hn; [done |]. destruct (at_height_Some T HT u (h + Z.of_nat n) Hu ltac:(lia)) as (m & Hm & _).
  rewrite (segment_last u h n m Hm), length_app, IH by (done || lia). cbn. lia.
Qed.

(** ** Locators *)

Lemma known_branch hash n : T !! hash = Some n -> contains nodes n = true <-> n ∈ branch t.
Proof.
  intros Hn. apply (contains_branch T HT nodes t Hpath Hbound). unfold in_tree. now rewrite (tree_hash T HT hash n Hn).
Qed.

Lemma first_known_run locator :
  match first_known nodes bi locator with
  | Some n => in_tree T n /\ n ∈ branch t /\
      exists l1 l2, locator = l1 ++ hash_of n :: l2 /\ forall h m, h ∈ l1 -> T !! h = Some m -> m ∉ branch t
  | None => forall h m, h ∈ locator -> T !! h = Some m -> m ∉ branch t
  end.
Proof.
  induction locator as [| hash l IH]; cbn [first_known]; [intros h m Hh%elem_of_nil; done |].
  unfold LookupNode in *. rewrite Hbi in *. assert (Hskip : (forall n, T !! hash = Some n -> contains nodes n = false) ->
    match first_known nodes bi l with
    | Some n => in_tree T n /\ n ∈ branch t /\
        exists l1 l2, hash :: l = l1 ++ hash_of n :: l2 /\ forall h m, h ∈ l1 -> T !! h = Some m -> m ∉ branch t
    | None => forall h m, h ∈ hash :: l -> T !! h = Some m -> m ∉ branch t
    end).
  { intros Hout. assert (Hno : forall m, T !! hash = Some m -> m ∉ branch t).
    { intros m Hm Hb. apply (known_branch hash m Hm) in Hb. rewrite (Hout m Hm) in Hb. discriminate. }
    destruct (first_known nodes bi l) as [n |].
    - destruct IH as (Hn & Hb & l1 & l2 & -> & Hl1). split_and!; [done | done |]. exists (hash :: l1), l2. split; [done |].
      intros h m [-> | Hh]%elem_of_cons; [apply Hno | now apply Hl1].
    - intros h m [-> | Hh]%elem_of_cons; [apply Hno | now apply IH]. }
  destruct (T !! hash) as [n |] eqn:Hn; [| apply Hskip; discriminate].
  destruct (contains nodes n) eqn:Hc; [| apply Hskip; now intros m [= <-]]. pose proof (tree_hash T HT hash n Hn) as Hhash.
  split_and!; [unfold in_tree; now rewrite Hhash | now apply (known_branch hash n Hn) |]. exists [], l. split; [now rewrite Hhash |].
  intros h m Hx%elem_of_nil. done.
Qed.

Lemma genesis_path : genesis nodes = at_height t 0.
Proof.
  pose proof (node_ok_height t (in_tree_ok T HT t Ht)). destruct Hpath as [_ _ Hat]. specialize (Hat 0 ltac:(lia)). change (Z.to_nat 0) with 0%nat in Hat.
  unfold genesis. rewrite head_lookup, Hat. reflexivity.
Qed.

(** Where a reply starts. *)
Definition start_of (locator : list bytes) (start : Z) : Prop :=
  (exists n l1 l2, in_tree T n /\ n ∈ branch t /\ height n = start /\ locator = l1 ++ hash_of n :: l2 /\
     forall h m, h ∈ l1 -> T !! h = Some m -> m ∉ branch t) \/
  (start = 0 /\ forall h m, h ∈ locator -> T !! h = Some m -> m ∉ branch t).

(** The height at which a reply stops if it is not limited. *)
Definition stop_at (hashStop : bytes) (start : Z) : Z :=
  match T !! hashStop with
  | Some n => if contains nodes n && (height n >? start) then height n else height t
  | None => height t
  end.

Lemma locate_run {A} (f : blockNode -> A) locator hashStop max : 0 <= max -> locator <> [] ->
  exists start, start_of locator start /\ 0 <= start <= height t /\
    let count := Z.min max (stop_at hashStop start - start) in
    0 <= count <= height t - start /\ located nodes bi f locator hashStop max = Ok (f <$> segment t (start + 1) count).
Proof.
  intros Hmax Hne. pose proof (node_ok_height t (in_tree_ok T HT t Ht)) as Hth.
  assert (Hstart : exists n, match first_known nodes bi locator with Some n => Some n | None => genesis nodes end = Some n /\
    in_tree T n /\ n ∈ branch t /\ start_of locator (height n)).
  { pose proof (first_known_run locator) as Hfirst. destruct (first_known nodes bi locator) as [n |].
    - destruct Hfirst as (Hn & Hb & l1 & l2 & Hl). exists n. split_and!; [done | done | done |]. left. exists n, l1, l2. tauto.
    - rewrite genesis_path. destruct (at_height_Some T HT t 0 Ht ltac:(lia)) as (n & Hn & Hnt & Hnh). exists n.
      split_and!; [done | done | exact (back_branch _ _ _ Hn) |]. right. split; [done | exact Hfirst]. }
  destruct Hstart as (n & Hs & Hn & Hb & Hstart). destruct (branch_tree T HT t n Ht Hb) as [_ Hle].
  pose proof (node_ok_height n (in_tree_ok T HT n Hn)) as Hnh. exists (height n). split_and!; [done | lia | lia |].
  assert (Hstop : height n <= stop_at hashStop (height n) <= height t).
  { unfold stop_at. destruct (T !! hashStop) as [x |] eqn:Hx; [| lia]. destruct (contains nodes x) eqn:Hc; [| cbn; lia].
    apply (known_branch hashStop x Hx) in Hc. destruct (branch_tree T HT t x Ht Hc). destruct (Z.gtb_spec (height x) (height n)); cbn [andb]; lia. }
  cbv zeta. split; [lia |]. unfold located, locateInventory. destruct locator as [| h0 l0]; [done |]. rewrite Hs.
  rewrite (next_path T HT nodes t n Hpath Hbound Hn) by (now apply (contains_branch T HT nodes t Hpath Hbound)).
  destruct (Z.ltb_spec (height n) (height t)) as [Hlt | Hge].
  2:{ cbn [obind]. assert (height n = height t) as Heq by lia. unfold stop_at in *. replace (Z.min max _) with 0; [done |].
      destruct (T !! hashStop) as [x |]; [destruct (contains nodes x && _) |]; lia. }
  destruct (at_height_Some T HT t (height n + 1) Ht ltac:(lia)) as (c & Hc & Hct & Hch). rewrite Hc, (tip_path T HT nodes t Hpath).
  cbn [obind]. rewrite <- Hc.
  match goal with |- walk _ _ (Z.to_nat (if ?total >? max then max else _)) _ = _ =>
    assert (Htotal : total = stop_at hashStop (height n) - height n) end.
  { unfold stop_at, LookupNode. rewrite Hbi, Hch. destruct (T !! hashStop) as [x |] eqn:Hx.
    - destruct (contains nodes x) eqn:Hcx; cbn [andb].
      + apply (known_branch hashStop x Hx) in Hcx. destruct (branch_tree T HT t x Ht Hcx) as [Hxt Hxle].
        destruct (Z.geb_spec (height x) (height n + 1)), (Z.gtb_spec (height x) (height n)); try lia;
          rewrite int32_small, uint32_small by lia; lia.
      + rewrite int32_small, uint32_small by lia. lia.
    - rewrite int32_small, uint32_small by lia. lia. }
  rewrite Htotal. set (d := stop_at hashStop (height n) - height n) in *.
  assert (Hif : (if d >? max then max else d) = Z.min max d) by (destruct (Z.gtb_spec d max); lia). rewrite Hif.
  rewrite (walk_run f (Z.to_nat (Z.min max d)) (height n + 1)) by lia. rewrite Z2Nat.id by lia. done.
Qed.
End Spec.

Section Claims.
Context {B : Type} (T : gmap bytes blockNode) (nodes : chainView) (bi : blockIndex B) (t : blockNode).
Context (HT : block_tree T) (Hpath : is_path T nodes t) (Hbi : index_nodes bi = T).
Context (Hheights : forall n, in_tree T n -> height n < 2 ^ 31 - 1).

#[local] Abbreviation Ht := (path_tip T nodes t Hpath).

Lemma valid_node_run hash :
  valid_node bi hash =
  match T !! hash with
  | Some n => if KnownValid (NodeStatus n bi) then Ok n else Err NotValidated
  | None => Err NotKnown
  end.
Proof. unfold valid_node, LookupNode. now rewrite Hbi. Qed.

Lemma height_range_run start stop : stop < 2 ^ 31 ->
  HeightRange nodes start stop =
    if start <? 0 then Err NegativeStart else if stop <? start then Err EndBeforeStart
    else Ok ((fun m => hash_of m) <$> segment t start (Z.max 0 (Z.min stop (height t + 1) - start))).
Proof.
  intros Hstop. pose proof (Hheights t Ht) as Hb. pose proof (node_ok_height t (in_tree_ok T HT t Ht)) as Hh. unfold HeightRange.
  destruct (Z.ltb_spec start 0); [done |]. destruct (Z.ltb_spec stop start); [done |]. rewrite (tip_path T HT nodes t Hpath).
  destruct (Z.eqb_spec start stop) as [-> | Hne]; [now replace (Z.max 0 _) with 0 by lia |].
  destruct (Z.gtb_spec start (height t)); [now replace (Z.max 0 _) with 0 by lia |]. rewrite int32_small by lia.
  replace (if stop >? height t + 1 then height t + 1 else stop) with (Z.min stop (height t + 1)) by (destruct (Z.gtb_spec stop (height t + 1)); lia).
  rewrite (hashes_from_run T HT nodes t Hpath Hb) by lia. do 3 f_equal. lia.
Qed.

Lemma height_hash_run hash h : BlockHeightByHash nodes bi hash = Ok h <-> BlockHashByHeight nodes h = Ok hash.
Proof.
  pose proof (Hheights t Ht) as Hb. unfold BlockHeightByHash, BlockHashByHeight, LookupNode. rewrite Hbi, (nodeByHeight_path T HT nodes t h Hpath Hb).
  split.
  - destruct (T !! hash) as [n |] eqn:Hn; [| discriminate]. destruct (contains nodes n) eqn:Hc; [| discriminate]. intros [= <-].
    pose proof (tree_hash T HT hash n Hn) as Hhash. assert (Hnt : in_tree T n) by (unfold in_tree; now rewrite Hhash).
    apply (contains_path T HT nodes t n Hpath Hb Hnt) in Hc as [Hle Hat]. pose proof (node_ok_height n (in_tree_ok T HT n Hnt)).
    replace ((0 <=? height n) && (height n <=? height t)) with true by lia. now rewrite Hat, Hhash.
  - destruct (Z.leb_spec 0 h), (Z.leb_spec h (height t)); cbn [andb]; try discriminate.
    destruct (at_height_Some T HT t h Ht ltac:(lia)) as (n & Hn & Hnt & Hnh). rewrite Hn. intros [= <-]. unfold in_tree in Hnt. rewrite Hnt.
    rewrite (proj2 (contains_path T HT nodes t n Hpath Hb Hnt)); [congruence |]. rewrite Hnh. split; [lia | done].
Qed.
End Claims.

(** C26: ranges of hashes.  The view is the branch of the tip in the tree of the index.
    A hash has a height in the best chain exactly if the block at the height has
    the hash.  A range of heights gives the hashes of the best chain from the first
    height to the one before the last, or to the tip if that is below; a height
    and the hash of a block that is known to be valid give the hashes of the
    branch of that block, also when it is not in the best chain, unless there
    are more than was allowed; an interval gives the hashes of that branch at its
    positive multiples.  Blocks that are unknown or not validated and heights out
    of order are refused; nothing panics. *)
Theorem range_queries {B} (bi : blockIndex B) T nodes t :
  block_tree T -> is_path T nodes t -> index_nodes bi = T -> (forall n, in_tree T n -> height n < 2 ^ 31 - 1) ->
  (forall hash h, BlockHeightByHash nodes bi hash = Ok h <-> BlockHashByHeight nodes h = Ok hash) /\
  (forall start stop, stop < 2 ^ 31 -> HeightRange nodes start stop =
     if start <? 0 then Err NegativeStart else if stop <? start then Err EndBeforeStart
     else Ok ((fun m => hash_of m) <$> segment t start (Z.max 0 (Z.min stop (height t + 1) - start)))) /\
  (forall start hash max, HeightToHashRange bi start hash max =
     match T !! hash with
     | None => Err NotKnown
     | Some n =>
         if negb (KnownValid (NodeStatus n bi)) then Err NotValidated
         else if start <? 0 then Err NegativeStart else if start >? height n then Err StartAfterEnd
         else if height n - start + 1 >? max then Err TooMany
         else Ok ((fun m => hash_of m) <$> segment n start (height n - start + 1))
     end) /\
  (forall hash interval, 0 < interval -> IntervalBlockHashes nodes bi hash interval =
     match T !! hash with
     | None => Err NotKnown
     | Some n =>
         if negb (KnownValid (NodeStatus n bi)) then Err NotValidated
         else Ok ((fun m => hash_of m) <$> omap (fun k => at_height n (k * interval)) (seqZ 1 (height n / interval)))
     end).
Proof.
  intros HT Hpath Hbi Hheights. pose proof (Hheights t (path_tip T nodes t Hpath)) as Hb. split_and!.
  - exact (height_hash_run T nodes bi t HT Hpath Hbi Hheights).
  - exact (height_range_run T nodes t HT Hpath Hheights).
  - intros start hash max. unfold HeightToHashRange. rewrite (valid_node_run T bi Hbi). destruct (T !! hash) as [n |] eqn:Hn; [| done].
    assert (Hnt : in_tree T n) by (unfold in_tree; now rewrite (tree_hash T HT hash n Hn)). pose proof (Hheights n Hnt) as Hnb.
    pose proof (node_ok_height n (in_tree_ok T HT n Hnt)). destruct (KnownValid _); [| done]. cbn [obind negb].
    destruct (Z.ltb_spec start 0); [done |]. destruct (Z.gtb_spec start (height n)); [done |]. rewrite int32_small by lia.
    destruct (_ >? max); [done |]. rewrite (hashes_back_run T HT) by (done || lia). rewrite app_nil_r. do 3 f_equal; lia.
  - intros hash interval Hi. unfold IntervalBlockHashes. rewrite (valid_node_run T bi Hbi). destruct (T !! hash) as [n |] eqn:Hn; [| done].
    assert (Hnt : in_tree T n) by (unfold in_tree; now rewrite (tree_hash T HT hash n Hn)). pose proof (Hheights n Hnt) as Hnb.
    pose proof (node_ok_height n (in_tree_ok T HT n Hnt)) as Hnh. destruct (KnownValid _); [| done]. cbn [obind negb].
    rewrite (proj2 (Z.eqb_neq interval 0)) by lia. rewrite Z.quot_div_nonneg by lia. pose proof (Z.div_pos (height n) interval ltac:(lia) Hi).
    rewrite (proj2 (Z.ltb_ge _ 0)) by lia. pose proof (Z.mul_div_le (height n) interval Hi).
    rewrite (interval_run T HT nodes t Hpath Hb _ interval n Hnt Hnb Hi) by (try (now left); try done; rewrite ?Z2Nat.id; lia).
    rewrite app_nil_r, Z2Nat.id by lia. done.
Qed.

(** C25: what a peer is sent.  With a locator, the reply lists what is asked for (hashes
    or headers) of consecutive blocks of the best chain.  It starts above the
    first block of the locator that is in the best chain, or above the first block
    if none is, and it ends at the stop block, if that is in the best chain and
    higher, or at the tip, or when the limit is reached.  If all blocks of the
    locator that are known belong to the branch of some block, so does the block
    below the reply: a peer that asks with a locator of its own tip misses no
    block before the reply.  Without a locator the reply is the stop block, if it
    is known, whatever the limit. *)
Theorem locate_blocks {A B} (f : blockNode -> A) (bi : blockIndex B) T nodes t locator hashStop max :
  block_tree T -> is_path T nodes t -> index_nodes bi = T -> height t < 2 ^ 31 - 1 -> 0 <= max ->
  (locator = [] -> located nodes bi f locator hashStop max = Ok (match T !! hashStop with Some n => [f n] | None => [] end)) /\
  (locator <> [] ->
   exists start, start_of T t locator start /\ 0 <= start <= height t /\
     (forall n, in_tree T n -> (forall h m, h ∈ locator -> T !! h = Some m -> m ∈ branch n) ->
        start <= height n /\ at_height n start = at_height t start) /\
     let count := Z.min max (stop_at T nodes t hashStop start - start) in
     0 <= count <= height t - start /\ zlen (segment t (start + 1) count) = count /\
     located nodes bi f locator hashStop max = Ok (f <$> segment t (start + 1) count)).
Proof.
  intros HT Hpath Hbi Hb Hmax. pose proof (path_tip T nodes t Hpath) as Ht. split.
  { intros ->. unfold located, locateInventory, LookupNode. rewrite Hbi. destruct (T !! hashStop) as [n |]; reflexivity. }
  intros Hne. destruct (locate_run T HT nodes bi t Hpath Hb Hbi f locator hashStop max Hmax Hne) as (start & Hs & Hr & Hc & Hrun).
  exists start. split_and!; [done | lia | lia | | cbv zeta; split_and!; [lia | lia | | done]].
  - intros n Hn Hall. pose proof (node_ok_height n (in_tree_ok T HT n Hn)). destruct Hs as [(m & l1 & l2 & Hm & Hmb & <- & -> & _) | [-> _]].
    + assert (Hmn : m ∈ branch n) by (apply (Hall (hash_of m) m); [apply elem_of_app; right; constructor | done]).
      split; [exact (proj2 (branch_tree T HT n m Hn Hmn)) |].
      now rewrite (branch_at T HT n m Hn Hmn), (branch_at T HT t m Ht Hmb).
    + split; [lia |]. exact (in_tree_root T HT n t Hn Ht).
  - unfold zlen. set (count := Z.min max _) in *. rewrite <- (Z2Nat.id count) at 1 by lia.
    rewrite (segment_length T HT t (Z.to_nat count) (start + 1) Ht) by lia. lia.
Qed.

(** * Four blocks: g, a on g, b on a, and c on g; b is the tip *)

Definition example_g : blockNode := example_node None [x00] 0.
Definition example_a : blockNode := example_node (Some example_g) [x01] 1.
Definition example_b : blockNode := example_node (Some example_a) [x02] 2.
Definition example_view : chainView := [Some example_g; Some example_a; Some example_b].

(** The side block and the tip are known to be valid. *)
Definition example_blocks : blockIndex unit :=
  mkBlockIndex example_index {[ [x02] := statusValid; [x03] := statusValid ]} ∅ tt.

Lemma example_path : is_path example_index example_view example_b.
Proof.
  constructor; [reflexivity | reflexivity |]. intros j Hj. change (height example_b) with 2 in Hj.
  assert (j = 0 \/ j = 1 \/ j = 2) as [-> | [-> | ->]] by lia; reflexivity.
Qed.

Lemma example_heights n : in_tree example_index n -> height n < 2 ^ 31 - 1.
Proof.
  unfold in_tree, example_index, example_tree. cbn [foldl].
  repeat (intros [[_ <-] | [_ Hn]]%lookup_insert_Some; [reflexivity |]; revert Hn). now rewrite lookup_empty.
Qed.

Lemma range_queries_witness :
  HeightRange example_view 1 9 = Ok [[x01]; [x02]] /\ HeightToHashRange example_blocks 0 [x03] 5 = Ok [[x00]; [x03]] /\
  IntervalBlockHashes example_view example_blocks [x02] 2 = Ok [[x02]].
Proof.
  destruct (range_queries example_blocks example_index example_view example_b example_index_tree example_path eq_refl example_heights)
    as (_ & Hrange & Hback & Hinterval).
  split_and!; [rewrite Hrange by lia | rewrite Hback | rewrite Hinterval by lia]; reflexivity.
Defined.

(** A peer whose tip is c is sent a and b. *)
Lemma locate_blocks_witness :
  exists start, 0 <= start <= 2 /\ LocateBlocks example_view example_blocks [[x03]; [x00]] [] 500 = Ok [[x01]; [x02]].
Proof.
  destruct (locate_blocks (fun n => hash_of n) example_blocks example_index example_view example_b [[x03]; [x00]] [] 500
    example_index_tree example_path eq_refl ltac:(reflexivity) ltac:(lia)) as [_ Hloc].
  destruct (Hloc ltac:(discriminate)) as (start & _ & Hs & _). exists start. split; [exact Hs | reflexivity].
Defined.
