(* ===== verification/Float64.v ===== *)
(** Numbers of type float64, as the policy of the memory pool uses them
    (src/btcd/mempool/mempool.go, src/btcd/mining/policy.go).

    A float64 is a [spec_float] of 53 bits: every operation rounds the exact
    result to the nearest even.  [Pow] is the function of Go's library for a base
    between 1/2 and 1 and an exponent that is a converted integer, as the only
    caller has them. *)

From Stdlib Require Import ZArith SpecFloat.
From S2P Require Import Prelude.
#[local] Open Scope Z_scope.

Abbreviation float64 := spec_float.

Definition prec : Z := 53.
Definition emax : Z := 1024.

(** [float64(z)] *)
Definition of_int (z : Z) : float64 := binary_normalize prec emax z 0 false.

Definition fadd (x y : float64) : float64 := SFadd prec emax x y.
Definition fmul (x y : float64) : float64 := SFmul prec emax x y.
Definition fdiv (x y : float64) : float64 := SFdiv prec emax x y.

(** Comparisons are false when one side is not a number. *)
Definition fleb (x y : float64) : bool := SFleb x y.
Definition fgeb (x y : float64) : bool := SFleb y x.
Definition fltb (x y : float64) : bool := SFltb x y.

(** The integer that a float64 without a fraction stands for. *)
Definition to_int (x : float64) : Z :=
  match x with
  | S754_finite s m e => cond_Zopp s (Z.shiftl (Z.pos m) e)
  | _ => 0
  end.

(** The loop of [math.Pow]: the factor so far with its exponent, the square with
    its exponent, the rest of the power. *)
Fixpoint pow_loop (fuel : nat) (a1 : float64) (ae : Z) (x1 : float64) (xe : Z) (i : Z) : float64 * Z :=
  match fuel with
  | O => (a1, ae)
  | S fuel' =>
      if i =? 0 then (a1, ae) else
      if (xe <? -4096) || (4096 <? xe) then (a1, ae + xe) else
      let '(a1, ae) := if Z.odd i then (fmul a1 x1, ae + xe) else (a1, ae) in
      let x1 := fmul x1 x1 in
      let xe := Z.shiftl xe 1 in
      let '(x1, xe) := if fltb x1 (fdiv (of_int 1) (of_int 2)) then (fadd x1 x1, xe - 1) else (x1, xe) in
      pow_loop fuel' a1 ae x1 xe (Z.shiftr i 1)
  end.

(** [math.Pow(x, float64(n))] *)
Definition Pow (x : float64) (n : Z) : float64 :=
  let y := of_int n in
  let yi := Z.abs (to_int y) in
  if yi =? 0 then of_int 1 else
  if to_int y =? 1 then x else
  if yi >=? 2 ^ 63 then (if to_int y >? 0 then of_int 0 else S754_infinity false) else
  let '(x1, xe) := SFfrexp prec emax x in
  let '(a1, ae) := pow_loop 64 (of_int 1) 0 x1 xe yi in
  if to_int y <? 0 then SFldexp prec emax (fdiv (of_int 1) a1) (- ae) else SFldexp prec emax a1 ae.

(** The constant 1.0-1.0/600.0, which is exact before it is rounded. *)
Definition decay : float64 := fdiv (of_int 599) (of_int 600).
