(* ===== verification/Policy.v ===== *)
(** What the memory pool relays (src/btcd/mempool/policy.go), the priority of a
    transaction (src/btcd/mining/policy.go) and the errors of the pool
    (src/btcd/mempool/error.go).

    The reference definitions, in PolicySpec, are the conditions of the doc comments: the fee
    per thousand bytes, the outputs that cost more to spend than a third of it,
    and what makes a transaction standard. *)

From stdpp Require Import gmap.
From S2P Require Import Prelude Slices ScriptError Opcodes Tokenizer WireCommon MsgTx MsgBlock Script Crypto BtcUtil OpcodeExec ScriptBuilder Merkle Difficulty TxRules UtxoView Float64.
#[local] Open Scope Z_scope.

(** * Errors *)

(** The codes of a reject message (src/btcd/wire/msgreject.go). *)
Inductive RejectCode : Set :=
| RejectMalformed
| RejectInvalid
| RejectObsolete
| RejectDuplicate
| RejectNonstandard
| RejectDust
| RejectInsufficientFee
| RejectCheckpoint.

#[global] Instance RejectCode_eq_dec : EqDecision RejectCode.
Proof. solve_decision. Defined.

(** An error of the pool: a rule of the pool or a rule of the chain in a
    [RuleError], or an error that is passed on as it is.  The fuel of the script
    engine may be spent. *)
Inductive PoolError : Set :=
| TxRuleError (c : RejectCode)
| chainRuleError (c : RuleCode)
| otherErr
| PoolFuel.

#[global] Instance PoolError_eq_dec : EqDecision PoolError.
Proof. solve_decision. Defined.

Abbreviation pooled := (outcome PoolError).

Definition reject {A} (c : RejectCode) : pooled A := Err (TxRuleError c).
Definition reject_if (b : bool) (c : RejectCode) : pooled unit := if b then reject c else Ok tt.

(** The code of a rule of the chain. *)
Definition reject_of_rule (c : RuleCode) : RejectCode :=
  match c with
  | ErrDuplicateBlock => RejectDuplicate
  | ErrBlockVersionTooOld => RejectObsolete
  | ErrCheckpointTimeTooOld | ErrDifficultyTooLow | ErrBadCheckpoint | ErrForkTooOld => RejectCheckpoint
  | _ => RejectInvalid
  end.

Definition extractRejectCode (e : PoolError) : option RejectCode :=
  match e with
  | TxRuleError c => Some c
  | chainRuleError c => Some (reject_of_rule c)
  | _ => None
  end.

(** Without the text; no error at all has a code too. *)
Definition ErrToRejectErr (e : option PoolError) : RejectCode :=
  match e ≫= extractRejectCode with Some c => c | None => RejectInvalid end.

(** A rule of the chain is wrapped, another error is passed on. *)
Definition of_rule (e : RuleError) : PoolError :=
  match e with ruleError c => chainRuleError c | _ => otherErr end.

Definition from_chain {A} (o : checked A) : pooled A :=
  match o with Ok a => Ok a | Err e => Err (of_rule e) | Panic => Panic end.

(** An error gets a code when it has none. *)
Definition with_code {A} (o : pooled A) : pooled A :=
  match o with
  | Err e => reject (default RejectNonstandard (extractRejectCode e))
  | _ => o
  end.

(** * Fees *)

Definition maxStandardP2SHSigOps : Z := 15.
Definition maxStandardTxWeight : Z := 400000.
Definition maxStandardSigScriptSize : Z := 1650.
Definition DefaultMinRelayTxFee : Z := 1000.
Definition maxStandardMultiSigKeys : Z := 3.

Definition calcMinRequiredTxRelayFee (serializedSize minRelayTxFee : Z) : Z :=
  let minFee := Z.quot (int64 (serializedSize * minRelayTxFee)) 1000 in
  let minFee := if (minFee =? 0) && (minRelayTxFee >? 0) then minRelayTxFee else minFee in
  if (minFee <? 0) || (minFee >? MaxSatoshi) then MaxSatoshi else minFee.

Definition GetDustThreshold (txOut : TxOut) : pooled Z :=
  let totalSize := TxOut_SerializeSize txOut + 41 in
  let! w := counted (IsWitnessProgram (PkScript txOut)) in
  let totalSize := if w then totalSize + 107 / WitnessScaleFactor else totalSize + 107 in
  Ok (int64 (3 * totalSize)).

Definition IsDust (txOut : TxOut) (minRelayTxFee : Z) : pooled bool :=
  let! u := counted (IsUnspendable (PkScript txOut)) in
  if (u : bool) then Ok true else
  let! t := GetDustThreshold txOut in
  if t =? 0 then Panic else
  Ok (Z.quot (int64 (Value txOut * 1000)) t <? minRelayTxFee).

(** A weight that is rounded up to the size it stands for. *)
Definition GetTxVirtualSize (tx : MsgTx) : Z :=
  Z.quot (int64 (GetTransactionWeight tx + (WitnessScaleFactor - 1))) WitnessScaleFactor.

(** * Standard transactions *)

(** An input without an entry panics. *)
Fixpoint checkInputsStandard_loop (ins : list TxIn) (utxoView : UtxoViewpoint) : pooled unit :=
  match ins with
  | [] => Ok tt
  | txIn :: ins' =>
      match LookupEntry utxoView (PreviousOutPoint txIn) with
      | None => Panic
      | Some entry =>
          let originPkScript := pkScript entry in
          let! class := counted (GetScriptClass originPkScript) in
          let! _ :=
            match class with
            | ScriptHashTy =>
                let! numSigOps := counted (GetPreciseSigOpCount (SignatureScript txIn) originPkScript) in
                reject_if (numSigOps >? maxStandardP2SHSigOps) RejectNonstandard
            | NonStandardTy => reject RejectNonstandard
            | _ => Ok tt
            end in
          checkInputsStandard_loop ins' utxoView
      end
  end.

Definition checkInputsStandard (tx : MsgTx) (utxoView : UtxoViewpoint) : pooled unit :=
  checkInputsStandard_loop (TxIns tx) utxoView.

Definition checkPkScriptStandard (pkScript : bytes) (scriptClass : ScriptClass) : pooled unit :=
  match scriptClass with
  | MultiSigTy =>
      match CalcMultiSigStats pkScript with
      | Panic => Panic
      | Err _ => reject RejectNonstandard
      | Ok (numPubKeys, numSigs) =>
          let! _ := reject_if (numPubKeys <? 1) RejectNonstandard in
          let! _ := reject_if (numPubKeys >? maxStandardMultiSigKeys) RejectNonstandard in
          let! _ := reject_if (numSigs <? 1) RejectNonstandard in
          reject_if (numSigs >? numPubKeys) RejectNonstandard
      end
  | NonStandardTy => reject RejectNonstandard
  | _ => Ok tt
  end.

(** Every signature script is short and pushes only. *)
Fixpoint standard_inputs (ins : list TxIn) : pooled unit :=
  match ins with
  | [] => Ok tt
  | txIn :: ins' =>
      let! _ := reject_if (zlen (SignatureScript txIn) >? maxStandardSigScriptSize) RejectNonstandard in
      let! p := counted (IsPushOnlyScript (SignatureScript txIn)) in
      let! _ := reject_if (negb p) RejectNonstandard in
      standard_inputs ins'
  end.

(** The number of outputs that only carry data. *)
Fixpoint standard_outputs (outs : list TxOut) (minRelayTxFee numNullDataOutputs : Z) : pooled Z :=
  match outs with
  | [] => Ok numNullDataOutputs
  | txOut :: outs' =>
      let! scriptClass := counted (GetScriptClass (PkScript txOut)) in
      let! _ := with_code (checkPkScriptStandard (PkScript txOut) scriptClass) in
      if bool_decide (scriptClass = NullDataTy) then standard_outputs outs' minRelayTxFee (numNullDataOutputs + 1) else
      let! d := IsDust txOut minRelayTxFee in
      let! _ := reject_if d RejectDust in
      standard_outputs outs' minRelayTxFee numNullDataOutputs
  end.

Definition CheckTransactionStandard (tx : MsgTx) (height medianTimePast minRelayTxFee maxTxVersion : Z) : pooled unit :=
  let! _ := reject_if ((Version tx >? maxTxVersion) || (Version tx <? 1)) RejectNonstandard in
  let! _ := reject_if (negb (IsFinalizedTransaction tx height medianTimePast)) RejectNonstandard in
  let! _ := reject_if (GetTransactionWeight tx >? maxStandardTxWeight) RejectNonstandard in
  let! _ := standard_inputs (TxIns tx) in
  let! numNullDataOutputs := standard_outputs (TxOuts tx) minRelayTxFee 0 in
  reject_if (numNullDataOutputs >? 1) RejectNonstandard.

(** * Priority *)

(** The height of an output that is not mined yet. *)
Definition UnminedHeight : Z := 0x7fffffff.

(** [btcutil.SatoshiPerBitcoin * 144.0 / 250] *)
Definition MinHighPriority : float64 := of_int 57600000.

Fixpoint input_value_age (ins : list TxIn) (utxoView : UtxoViewpoint) (nextBlockHeight : Z) (totalInputAge : float64)
  : float64 :=
  match ins with
  | [] => totalInputAge
  | txIn :: ins' =>
      let total :=
        match LookupEntry utxoView (PreviousOutPoint txIn) with
        | Some entry =>
            if IsSpent entry then totalInputAge else
            let originHeight := blockHeight entry in
            let inputAge := if originHeight =? UnminedHeight then 0 else int32 (nextBlockHeight - originHeight) in
            fadd totalInputAge (of_int (int64 (amount entry * inputAge)))
        | None => totalInputAge
        end in
      input_value_age ins' utxoView nextBlockHeight total
  end.

Definition calcInputValueAge (tx : MsgTx) (utxoView : UtxoViewpoint) (nextBlockHeight : Z) : float64 :=
  input_value_age (TxIns tx) utxoView nextBlockHeight (of_int 0).

Definition CalcPriority (tx : MsgTx) (utxoView : UtxoViewpoint) (nextBlockHeight : Z) : float64 :=
  let overhead := zsum (fun txIn => 41 + Z.min 110 (zlen (SignatureScript txIn))) (TxIns tx) in
  let serializedTxSize := SerializeSize tx in
  if overhead >=? serializedTxSize then of_int 0 else
  fdiv (calcInputValueAge tx utxoView nextBlockHeight) (of_int (serializedTxSize - overhead)).
