(* ===== verification/Mempool.v ===== *)
(** The memory pool (src/btcd/mempool/mempool.go): transactions that are not
    mined yet, and orphans, whose inputs are not known yet.

    A transaction is its message; a method is a state transformer on [TxPool],
    and runs under the lock of the pool.  What the pool asks of the chain is in
    its [Config].  The world answers two questions, by the number of calls made
    so far: what time it is, and in which order a map is ranged over.  Ranging
    over a map from which entries are deleted visits, in that order, the entries
    that are still there.

    The recursion of [removeOrphan], [removeTransaction], [signalsReplacement],
    [txAncestors] and [txDescendants] and the loop of [processOrphans] have fuel
    that is computed from the sizes of the maps; PoolEnds shows that it is
    never spent.  The address index and the fee estimator are optional, and are
    left out. *)

From stdpp Require Import gmap.
From S2P Require Import Prelude Slices ScriptError Opcodes Tokenizer WireCommon MsgTx MsgBlock Script Crypto SigHash SigCache EngineState SigCheck OpcodeExec ScriptBuilder Engine BtcUtil Merkle Difficulty TxRules UtxoView Threshold ScriptVal Connect Float64 Policy.
#[local] Open Scope Z_scope.

(** * The world *)

Class World : Type := {
  clock : nat -> Z;
  shuffle : forall A, nat -> list A -> list A;
}.
Arguments shuffle {_ A}.

Class WorldLaws `{World} : Prop := shuffle_perm : forall A n (l : list A), shuffle n l ≡ₚ l.

(** Times are in nanoseconds. *)
Definition seconds (n : Z) : Z := n * 10 ^ 9.
Definition unix (t : Z) : Z := t / 10 ^ 9.

(** * State *)

Definition DefaultBlockPrioritySize : Z := 50000.
Definition orphanTTL : Z := seconds (15 * 60).
Definition orphanExpireScanInterval : Z := seconds (5 * 60).
Definition MaxRBFSequence : Z := 0xfffffffd.
Definition MaxReplacementEvictions : Z := 100.
Definition MinStandardTxNonWitnessSize : Z := 65.

Record PoolPolicy := mkPolicy {
  MaxTxVersion : Z;
  DisableRelayPriority : bool;
  AcceptNonStd : bool;
  FreeTxRelayLimit : float64;
  MaxOrphanTxs : Z;
  MaxOrphanTxSize : Z;
  MaxSigOpCostPerTx : Z;
  MinRelayTxFee : Z;
  RejectReplacement : bool;
}.

(** What the pool is told about the chain, when it asks. *)
Record Config := mkConfig {
  policy : PoolPolicy;
  cfg_Params : Params;
  FetchUtxoView : MsgTx -> checked UtxoViewpoint;
  BestHeight : Z;
  MedianTimePast : Z;
  CalcSequenceLock : MsgTx -> UtxoViewpoint -> checked SequenceLock;
  IsDeploymentActive : nat -> checked bool;
}.

Record TxDesc := mkTxDesc {
  Tx : MsgTx;
  Added : Z;
  d_Height : Z;
  Fee : Z;
  FeePerKB : Z;
  StartingPriority : float64;
}.

Record orphanTx := mkOrphanTx {
  o_tx : MsgTx;
  o_tag : Z;
  o_expiration : Z;
}.

Abbreviation redeemers := (gmap bytes MsgTx).

Record TxPool := mkTxPool {
  lastUpdated : Z;
  pool : gmap bytes TxDesc;
  orphans : gmap bytes orphanTx;
  orphansByPrev : gmap OutPoint redeemers;
  outpoints : gmap OutPoint MsgTx;
  pennyTotal : float64;
  lastPennyUnix : Z;
  nextExpireScan : Z;
  script_caches : option SigCache * option HashCache;
  calls : nat;
}.

Definition set_pool (l : Z) (p : gmap bytes TxDesc) (op : gmap OutPoint MsgTx) (mp : TxPool) : TxPool :=
  mkTxPool l p (orphans mp) (orphansByPrev mp) op (pennyTotal mp) (lastPennyUnix mp) (nextExpireScan mp)
    (script_caches mp) (calls mp).

Definition set_orphans (o : gmap bytes orphanTx) (by_prev : gmap OutPoint redeemers) (mp : TxPool) : TxPool :=
  mkTxPool (lastUpdated mp) (pool mp) o by_prev (outpoints mp) (pennyTotal mp) (lastPennyUnix mp) (nextExpireScan mp)
    (script_caches mp) (calls mp).

Definition set_penny (total : float64) (last : Z) (mp : TxPool) : TxPool :=
  mkTxPool (lastUpdated mp) (pool mp) (orphans mp) (orphansByPrev mp) (outpoints mp) total last (nextExpireScan mp)
    (script_caches mp) (calls mp).

Definition set_scan (t : Z) (mp : TxPool) : TxPool :=
  mkTxPool (lastUpdated mp) (pool mp) (orphans mp) (orphansByPrev mp) (outpoints mp) (pennyTotal mp) (lastPennyUnix mp) t
    (script_caches mp) (calls mp).

Definition set_caches (c : option SigCache * option HashCache) (mp : TxPool) : TxPool :=
  mkTxPool (lastUpdated mp) (pool mp) (orphans mp) (orphansByPrev mp) (outpoints mp) (pennyTotal mp) (lastPennyUnix mp)
    (nextExpireScan mp) c (calls mp).

Definition called (mp : TxPool) : TxPool :=
  mkTxPool (lastUpdated mp) (pool mp) (orphans mp) (orphansByPrev mp) (outpoints mp) (pennyTotal mp) (lastPennyUnix mp)
    (nextExpireScan mp) (script_caches mp) (S (calls mp)).

Abbreviation PM := (M TxPool PoolError).

(** A loop that a body may leave; it threads what it accumulates. *)
Fixpoint loop {A X} (f : A -> X -> PM (X * bool)) (l : list A) (x : X) : PM X :=
  match l with
  | [] => ret x
  | a :: l' => r <- f a x;; if snd r : bool then ret (fst r) else loop f l' (fst r)
  end.

(** A loop for its effect alone. *)
Fixpoint each {A} (f : A -> PM unit) (l : list A) : PM unit :=
  match l with
  | [] => ret tt
  | a :: l' => f a;; each f l'
  end.

(** [prevOut := wire.OutPoint{Hash: h}] with each index of a transaction *)
Definition outs_of `{Crypto} (tx : MsgTx) : list OutPoint := (tx_outputs tx).*1.

Section Pool.
Context `{Crypto} `{MapOrder} `{World}.
Context (cfg : Config).

Definition Now : PM Z := fun mp => (Ok (clock (calls mp)), called mp).

Definition ordered {A} (l : list A) : PM (list A) := fun mp => (Ok (shuffle (calls mp) l), called mp).

(** [for _, orphan := range mp.orphansByPrev[op]] *)
Definition by_prev (mp : TxPool) (op : OutPoint) : redeemers := default ∅ (orphansByPrev mp !! op).

Definition range_by_prev {X} (op : OutPoint) (f : MsgTx -> X -> PM (X * bool)) (x : X) : PM X :=
  mp <- get;;
  order <- ordered (map_to_list (by_prev mp op)).*1;;
  loop (fun h x =>
    mp <- get;;
    match by_prev mp op !! h with
    | Some orphan => f orphan x
    | None => ret (x, false)
    end) order x.

Definition each_by_prev (op : OutPoint) (f : MsgTx -> PM unit) : PM unit :=
  range_by_prev op (fun orphan u => f orphan;; ret (tt, false)) tt.

(** [for _, otx := range mp.orphans] *)
Definition each_orphan (f : orphanTx -> PM unit) : PM unit :=
  mp <- get;;
  order <- ordered (map_to_list (orphans mp)).*1;;
  each (fun h =>
    mp <- get;;
    match orphans mp !! h with
    | Some otx => f otx
    | None => ret tt
    end) order.

(** * Orphans *)

(** The reference of an orphan under an outpoint, and the entry of the outpoint
    when there is none left. *)
Definition unindex_one (txHash : bytes) (idx : gmap OutPoint redeemers) (op : OutPoint) : gmap OutPoint redeemers :=
  match idx !! op with
  | None => idx
  | Some m =>
      let m := delete txHash m in
      if (size m =? 0)%nat then delete op idx else <[op := m]> idx
  end.

Definition unindex (txHash : bytes) (ins : list TxIn) (idx : gmap OutPoint redeemers) : gmap OutPoint redeemers :=
  foldl (unindex_one txHash) idx (PreviousOutPoint <$> ins).

Fixpoint removeOrphan_rec (fuel : nat) (tx : MsgTx) (removeRedeemers : bool) : PM unit :=
  match fuel with
  | O => fail PoolFuel
  | S fuel' =>
      let txHash := TxHash tx in
      mp <- get;;
      match orphans mp !! txHash with
      | None => ret tt
      | Some otx =>
          put (set_orphans (orphans mp) (unindex txHash (TxIns (o_tx otx)) (orphansByPrev mp)) mp);;
          (if removeRedeemers then
             each (fun prevOut => each_by_prev prevOut (fun orphan => removeOrphan_rec fuel' orphan true)) (outs_of tx)
           else ret tt);;
          modify (fun mp => set_orphans (delete txHash (orphans mp)) (orphansByPrev mp) mp)
      end
  end.

Definition removeOrphan (tx : MsgTx) (removeRedeemers : bool) : PM unit :=
  mp <- get;; removeOrphan_rec (S (size (orphans mp))) tx removeRedeemers.

Definition RemoveOrphan (tx : MsgTx) : PM unit := removeOrphan tx false.

(** The number of orphans with the tag that were met. *)
Definition RemoveOrphansByTag (tag : Z) : PM Z :=
  mp <- get;;
  order <- ordered (map_to_list (orphans mp)).*1;;
  loop (fun h numEvicted =>
    mp <- get;;
    match orphans mp !! h with
    | Some otx =>
        if o_tag otx =? tag then removeOrphan (o_tx otx) true;; ret (uint64 (numEvicted + 1), false)
        else ret (numEvicted, false)
    | None => ret (numEvicted, false)
    end) order 0.

Definition limitNumOrphans : PM unit :=
  now <- Now;;
  mp <- get;;
  (if nextExpireScan mp <? now then
     each_orphan (fun otx => if o_expiration otx <? now then removeOrphan (o_tx otx) true else ret tt);;
     modify (set_scan (now + orphanExpireScanInterval))
   else ret tt);;
  mp <- get;;
  if Z.of_nat (size (orphans mp)) + 1 <=? MaxOrphanTxs (policy cfg) then ret tt else
  order <- ordered (map_to_list (orphans mp)).*1;;
  match order with
  | [] => ret tt
  | h :: _ =>
      match orphans mp !! h with
      | Some otx => removeOrphan (o_tx otx) false
      | None => ret tt
      end
  end.

Definition index_one (tx : MsgTx) (idx : gmap OutPoint redeemers) (op : OutPoint) : gmap OutPoint redeemers :=
  <[op := <[TxHash tx := tx]> (default ∅ (idx !! op))]> idx.

Definition addOrphan (tx : MsgTx) (tag : Z) : PM unit :=
  if MaxOrphanTxs (policy cfg) <=? 0 then ret tt else
  limitNumOrphans;;
  now <- Now;;
  modify (fun mp =>
    set_orphans (<[TxHash tx := mkOrphanTx tx tag (now + orphanTTL)]> (orphans mp))
      (foldl (index_one tx) (orphansByPrev mp) (PreviousOutPoint <$> TxIns tx)) mp).

Definition maybeAddOrphan (tx : MsgTx) (tag : Z) : PM unit :=
  lift (reject_if (SerializeSize tx >? MaxOrphanTxSize (policy cfg)) RejectNonstandard);;
  addOrphan tx tag.

Definition removeOrphanDoubleSpends (tx : MsgTx) : PM unit :=
  each (fun txIn => each_by_prev (PreviousOutPoint txIn) (fun orphan => removeOrphan orphan true)) (TxIns tx).

Definition isTransactionInPool (hash : bytes) (mp : TxPool) : bool := bool_decide (is_Some (pool mp !! hash)).
Definition isOrphanInPool (hash : bytes) (mp : TxPool) : bool := bool_decide (is_Some (orphans mp !! hash)).
Definition haveTransaction (hash : bytes) (mp : TxPool) : bool := isTransactionInPool hash mp || isOrphanInPool hash mp.

(** * Transactions *)

(** [for i := uint32(0); i < uint32(len(tx.MsgTx().TxOut)); i++] *)
Definition out_indexes (tx : MsgTx) : list OutPoint :=
  (fun i => mkOutPoint (TxHash tx) i) <$> seqZ 0 (uint32 (zlen (TxOuts tx))).

Fixpoint removeTransaction_rec (fuel : nat) (tx : MsgTx) (removeRedeemers : bool) : PM unit :=
  match fuel with
  | O => fail PoolFuel
  | S fuel' =>
      let txHash := TxHash tx in
      (if removeRedeemers then
         each (fun prevOut =>
           mp <- get;;
           match outpoints mp !! prevOut with
           | Some txRedeemer => removeTransaction_rec fuel' txRedeemer true
           | None => ret tt
           end) (out_indexes tx)
       else ret tt);;
      mp <- get;;
      match pool mp !! txHash with
      | None => ret tt
      | Some txDesc =>
          now <- Now;;
          modify (fun mp => set_pool (unix now) (delete txHash (pool mp))
                              (foldl (fun m txIn => delete (PreviousOutPoint txIn) m) (outpoints mp) (TxIns (Tx txDesc))) mp)
      end
  end.

Definition removeTransaction (tx : MsgTx) (removeRedeemers : bool) : PM unit :=
  mp <- get;; removeTransaction_rec (S (size (pool mp))) tx removeRedeemers.

Definition RemoveTransaction (tx : MsgTx) (removeRedeemers : bool) : PM unit := removeTransaction tx removeRedeemers.

Definition RemoveDoubleSpends (tx : MsgTx) : PM unit :=
  each (fun txIn =>
    mp <- get;;
    match outpoints mp !! PreviousOutPoint txIn with
    | Some txRedeemer =>
        if negb (bool_decide (TxHash txRedeemer = TxHash tx)) then removeTransaction txRedeemer true else ret tt
    | None => ret tt
    end) (TxIns tx).

(** A size of nothing makes the fee rate panic. *)
Definition fee_rate (fee size : Z) : pooled Z := if size =? 0 then Panic else Ok (Z.quot (int64 (fee * 1000)) size).

Definition addTransaction (utxoView : UtxoViewpoint) (tx : MsgTx) (height fee : Z) : PM TxDesc :=
  added <- Now;;
  feePerKB <- lift (fee_rate fee (GetTxVirtualSize tx));;
  let txD := mkTxDesc tx added height fee feePerKB (CalcPriority tx utxoView height) in
  now <- Now;;
  modify (fun mp => set_pool (unix now) (<[TxHash tx := txD]> (pool mp))
                      (foldl (fun m txIn => <[PreviousOutPoint txIn := tx]> m) (outpoints mp) (TxIns tx)) mp);;
  ret txD.

(** ** Replacement *)

(** The inputs of a transaction; [visit] is the recursive call. *)
Fixpoint signals_loop (visit : MsgTx -> gset bytes -> pooled (bool * gset bytes)) (p : gmap bytes TxDesc) (ins : list TxIn)
    (cache : gset bytes) : pooled (bool * gset bytes) :=
  match ins with
  | [] => Ok (false, cache)
  | txIn :: ins' =>
      if Sequence txIn <=? MaxRBFSequence then Ok (true, cache) else
      let hash := Hash (PreviousOutPoint txIn) in
      match p !! hash with
      | None => signals_loop visit p ins' cache
      | Some unconfirmedAncestor =>
          if bool_decide (hash ∈ cache) then signals_loop visit p ins' cache else
          let! r := visit (Tx unconfirmedAncestor) cache in
          if fst r : bool then Ok (true, snd r) else signals_loop visit p ins' ({[hash]} ∪ snd r)
      end
  end.

Fixpoint signalsReplacement_rec (fuel : nat) (p : gmap bytes TxDesc) (tx : MsgTx) (cache : gset bytes)
  : pooled (bool * gset bytes) :=
  match fuel with
  | O => Err PoolFuel
  | S fuel' => signals_loop (signalsReplacement_rec fuel' p) p (TxIns tx) cache
  end.

Definition signalsReplacement (mp : TxPool) (tx : MsgTx) : pooled bool :=
  let! r := signalsReplacement_rec (S (size (pool mp))) (pool mp) tx ∅ in Ok (fst r).

Fixpoint pool_double_spend (mp : TxPool) (ins : list TxIn) (isReplacement : bool) : pooled bool :=
  match ins with
  | [] => Ok isReplacement
  | txIn :: ins' =>
      match outpoints mp !! PreviousOutPoint txIn with
      | None => pool_double_spend mp ins' isReplacement
      | Some conflict =>
          if RejectReplacement (policy cfg) then reject RejectDuplicate else
          let! s := signalsReplacement mp conflict in
          if (s : bool) then pool_double_spend mp ins' true else reject RejectDuplicate
      end
  end.

Definition checkPoolDoubleSpend (mp : TxPool) (tx : MsgTx) : pooled bool := pool_double_spend mp (TxIns tx) false.

Abbreviation family := (gmap bytes MsgTx).

(** The caches of ancestors and descendants, and the call that fills them. *)
Definition memoized (visit : MsgTx -> gmap bytes family -> pooled (family * gmap bytes family)) (tx : MsgTx)
    (cache : gmap bytes family) : pooled (family * gmap bytes family) :=
  match cache !! TxHash tx with
  | Some more => Ok (more, cache)
  | None => let! r := visit tx cache in Ok (fst r, <[TxHash tx := fst r]> (snd r))
  end.

Fixpoint ancestors_loop (visit : MsgTx -> gmap bytes family -> pooled (family * gmap bytes family)) (p : gmap bytes TxDesc)
    (ins : list TxIn) (ancestors : family) (cache : gmap bytes family) : pooled (family * gmap bytes family) :=
  match ins with
  | [] => Ok (ancestors, cache)
  | txIn :: ins' =>
      match p !! Hash (PreviousOutPoint txIn) with
      | None => ancestors_loop visit p ins' ancestors cache
      | Some parent =>
          let ancestors := <[TxHash (Tx parent) := Tx parent]> ancestors in
          let! r := memoized visit (Tx parent) cache in
          ancestors_loop visit p ins' (fst r ∪ ancestors) (snd r)
      end
  end.

Fixpoint txAncestors_rec (fuel : nat) (p : gmap bytes TxDesc) (tx : MsgTx) (cache : gmap bytes family)
  : pooled (family * gmap bytes family) :=
  match fuel with
  | O => Err PoolFuel
  | S fuel' => ancestors_loop (txAncestors_rec fuel' p) p (TxIns tx) ∅ cache
  end.

Definition txAncestors (mp : TxPool) (tx : MsgTx) : pooled family :=
  let! r := txAncestors_rec (S (size (pool mp))) (pool mp) tx ∅ in Ok (fst r).

(** The values are stored under their own hashes. *)
Definition store_all (more into : family) : family := foldr (fun t m => <[TxHash t := t]> m) into (map_to_list more).*2.

Fixpoint descendants_loop (visit : MsgTx -> gmap bytes family -> pooled (family * gmap bytes family))
    (spent : gmap OutPoint MsgTx) (ops : list OutPoint) (descendants : family) (cache : gmap bytes family)
  : pooled (family * gmap bytes family) :=
  match ops with
  | [] => Ok (descendants, cache)
  | op :: ops' =>
      match spent !! op with
      | None => descendants_loop visit spent ops' descendants cache
      | Some descendant =>
          let descendants := <[TxHash descendant := descendant]> descendants in
          let! r := memoized visit descendant cache in
          descendants_loop visit spent ops' (store_all (fst r) descendants) (snd r)
      end
  end.

Fixpoint txDescendants_rec (fuel : nat) (spent : gmap OutPoint MsgTx) (tx : MsgTx) (cache : gmap bytes family)
  : pooled (family * gmap bytes family) :=
  match fuel with
  | O => Err PoolFuel
  | S fuel' => descendants_loop (txDescendants_rec fuel' spent) spent (outs_of tx) ∅ cache
  end.

Definition txDescendants (mp : TxPool) (tx : MsgTx) : pooled family :=
  let! r := txDescendants_rec (S (size (pool mp))) (outpoints mp) tx ∅ in Ok (fst r).

Fixpoint conflicts_loop (mp : TxPool) (ins : list TxIn) (conflicts : family) : pooled family :=
  match ins with
  | [] => Ok conflicts
  | txIn :: ins' =>
      match outpoints mp !! PreviousOutPoint txIn with
      | None => conflicts_loop mp ins' conflicts
      | Some conflict =>
          let! more := txDescendants mp conflict in
          conflicts_loop mp ins' (more ∪ <[TxHash conflict := conflict]> conflicts)
      end
  end.

Definition txConflicts (mp : TxPool) (tx : MsgTx) : pooled family := conflicts_loop mp (TxIns tx) ∅.

Definition CheckSpend (op : OutPoint) (mp : TxPool) : option MsgTx := outpoints mp !! op.
Definition FetchTransaction (txHash : bytes) (mp : TxPool) : option MsgTx := Tx <$> pool mp !! txHash.

(** The fees and the parents of the conflicts, in the order they are met. *)
Fixpoint conflict_fees (p : gmap bytes TxDesc) (txFeeRate : Z) (conflicts : list (bytes * MsgTx)) (conflictsFee : Z)
    (conflictsParents : gset bytes) : pooled (Z * gset bytes) :=
  match conflicts with
  | [] => Ok (conflictsFee, conflictsParents)
  | (hash, conflict) :: rest =>
      match p !! hash with
      | None => Panic
      | Some d =>
          let! _ := reject_if (txFeeRate <=? FeePerKB d) RejectInsufficientFee in
          conflict_fees p txFeeRate rest (int64 (conflictsFee + Fee d))
            (conflictsParents ∪ list_to_set ((fun txIn => Hash (PreviousOutPoint txIn)) <$> TxIns conflict))
      end
  end.

(** No unconfirmed input but those of the conflicts. *)
Fixpoint no_new_parents (p : gmap bytes TxDesc) (conflictsParents : gset bytes) (ins : list TxIn) : pooled unit :=
  match ins with
  | [] => Ok tt
  | txIn :: ins' =>
      let hash := Hash (PreviousOutPoint txIn) in
      if bool_decide (hash ∈ conflictsParents) then no_new_parents p conflictsParents ins'
      else if bool_decide (is_Some (p !! hash)) then reject RejectInvalid
      else no_new_parents p conflictsParents ins'
  end.

(** One of the ancestors is a conflict. *)
Definition meets (ancestors conflicts : family) : bool :=
  existsb (fun h => bool_decide (is_Some (conflicts !! h))) (map_to_list ancestors).*1.

Definition validateReplacement (tx : MsgTx) (txFee : Z) : PM family :=
  mp <- get;;
  conflicts <- lift (txConflicts mp tx);;
  lift (reject_if (Z.of_nat (size conflicts) >? MaxReplacementEvictions) RejectNonstandard);;
  ancestors <- lift (txAncestors mp tx);;
  lift (reject_if (meets ancestors conflicts) RejectInvalid);;
  let txSize := GetTxVirtualSize tx in
  txFeeRate <- lift (fee_rate txFee txSize);;
  order <- ordered (map_to_list conflicts);;
  r <- lift (conflict_fees (pool mp) txFeeRate order 0 ∅);;
  let minFee := calcMinRequiredTxRelayFee txSize (MinRelayTxFee (policy cfg)) in
  lift (reject_if (txFee <? int64 (fst r + minFee)) RejectInsufficientFee);;
  lift (no_new_parents (pool mp) (snd r) (TxIns tx));;
  ret conflicts.

(** * Acceptance *)

(** Inputs that the chain does not have are looked up in the pool. *)
Definition add_pool_input (p : gmap bytes TxDesc) (utxoView : UtxoViewpoint) (txIn : TxIn) : UtxoViewpoint :=
  let prevOut := PreviousOutPoint txIn in
  match unspent_entry utxoView prevOut with
  | Some _ => utxoView
  | None =>
      match p !! Hash prevOut with
      | Some poolTxDesc => AddTxOut (Tx poolTxDesc) (Index prevOut) UnminedHeight utxoView
      | None => utxoView
      end
  end.

Definition fetchInputUtxos (mp : TxPool) (tx : MsgTx) : checked UtxoViewpoint :=
  let! utxoView := FetchUtxoView cfg tx in
  Ok (foldl (add_pool_input (pool mp)) utxoView (TxIns tx)).

(** The error of the deployment is passed on. *)
Definition validateSegWitDeployment (tx : MsgTx) : pooled unit :=
  if negb (HasWitness tx) then Ok tt else
  match IsDeploymentActive cfg DeploymentSegwit with
  | Err _ => Err otherErr
  | Panic => Panic
  | Ok segwitActive => reject_if (negb segwitActive) RejectNonstandard
  end.

(** None of the outputs is in the chain already; their keys are dropped. *)
Fixpoint not_in_chain (ops : list OutPoint) (utxoView : UtxoViewpoint) : pooled UtxoViewpoint :=
  match ops with
  | [] => Ok utxoView
  | prevOut :: ops' =>
      match unspent_entry utxoView prevOut with
      | Some _ => reject RejectDuplicate
      | None => not_in_chain ops' (RemoveEntry prevOut utxoView)
      end
  end.

Definition missing_parents (order : list (OutPoint * option UtxoEntry)) : list bytes :=
  omap (fun '(outpoint, entry) =>
    match entry with
    | Some e => if IsSpent e then Some (Hash outpoint) else None
    | None => Some (Hash outpoint)
    end) order.

Definition validateStandardness (tx : MsgTx) (nextBlockHeight medianTimePast : Z) (utxoView : UtxoViewpoint) : pooled unit :=
  if AcceptNonStd (policy cfg) then Ok tt else
  let! _ := with_code (CheckTransactionStandard tx nextBlockHeight medianTimePast (MinRelayTxFee (policy cfg))
                         (MaxTxVersion (policy cfg))) in
  with_code (checkInputsStandard tx utxoView).

Definition validateSigCost (tx : MsgTx) (utxoView : UtxoViewpoint) : pooled unit :=
  let! sigOpCost := from_chain (GetSigOpCost tx false utxoView true true) in
  reject_if (negb (sigOpCost <=? MaxSigOpCostPerTx (policy cfg))) RejectNonstandard.

Definition validateRelayFeeMet (tx : MsgTx) (txFee txSize : Z) (utxoView : UtxoViewpoint) (nextBlockHeight : Z)
    (isNew rateLimit : bool) : PM unit :=
  let minFee := calcMinRequiredTxRelayFee txSize (MinRelayTxFee (policy cfg)) in
  if (txSize >=? DefaultBlockPrioritySize - 1000) && (txFee <? minFee) then fail (TxRuleError RejectInsufficientFee) else
  if txFee >=? minFee then ret tt else
  if negb isNew && negb rateLimit then ret tt else
  lift (reject_if (isNew && negb (DisableRelayPriority (policy cfg)) &&
                   fleb (CalcPriority tx utxoView nextBlockHeight) MinHighPriority) RejectInsufficientFee);;
  now <- Now;;
  let nowUnix := unix now in
  mp <- get;;
  let total := fmul (pennyTotal mp) (Pow decay (int64 (nowUnix - lastPennyUnix mp))) in
  modify (set_penny total nowUnix);;
  if fgeb total (fmul (fmul (FreeTxRelayLimit (policy cfg)) (of_int 10)) (of_int 1000))
  then fail (TxRuleError RejectInsufficientFee)
  else modify (set_penny (fadd total (of_int txSize)) nowUnix).

(** [txscript.StandardVerifyFlags] *)
Definition StandardVerifyFlags : Z :=
  foldr Z.lor 0
    [ScriptBip16; ScriptVerifyDERSignatures; ScriptVerifyStrictEncoding; ScriptVerifyMinimalData; ScriptStrictMultiSig;
     ScriptDiscourageUpgradableNops; ScriptVerifyCleanStack; ScriptVerifyNullFail; ScriptVerifyCheckLockTimeVerify;
     ScriptVerifyCheckSequenceVerify; ScriptVerifyLowS; ScriptStrictMultiSig; ScriptVerifyWitness;
     ScriptVerifyDiscourageUpgradeableWitnessProgram; ScriptVerifyMinimalIf; ScriptVerifyWitnessPubKeyType;
     ScriptVerifyTaproot; ScriptVerifyDiscourageUpgradeableTaprootVersion; ScriptVerifyDiscourageOpSuccess;
     ScriptVerifyDiscourageUpgradeablePubkeyType; ScriptVerifyConstScriptCode].

Definition of_val {A} (o : outcome ValError A) : pooled A :=
  match o with
  | Ok a => Ok a
  | Err (ValRule e) => Err (of_rule e)
  | Err ValFuel => Err PoolFuel
  | Panic => Panic
  end.

(** The fuel of the script engine, and the order in which inputs are validated. *)
Context (fuel : nat) (sched : list txValidateItem -> list txValidateItem).

Definition validate_scripts (tx : MsgTx) (utxoView : UtxoViewpoint) : PM unit := fun mp =>
  let '(o, c) := ValidateTransactionScripts fuel sched tx utxoView StandardVerifyFlags (script_caches mp) in
  (of_val o, set_caches c mp).

Record MempoolAcceptResult := mkAccept {
  TxFee : Z;
  TxSize : Z;
  Conflicts : gmap bytes MsgTx;
  MissingParents : list bytes;
  r_utxoView : UtxoViewpoint;
  r_bestHeight : Z;
}.

Definition checkMempoolAcceptance (tx : MsgTx) (isNew rateLimit rejectDupOrphans : bool) : PM MempoolAcceptResult :=
  let txHash := TxHash tx in
  lift (validateSegWitDeployment tx);;
  mp <- get;;
  lift (reject_if (isTransactionInPool txHash mp || (rejectDupOrphans && isOrphanInPool txHash mp)) RejectDuplicate);;
  lift (reject_if (SerializeSizeStripped tx <? MinStandardTxNonWitnessSize) RejectNonstandard);;
  lift (from_chain (CheckTransactionSanity tx));;
  lift (reject_if (IsCoinBaseTx tx) RejectInvalid);;
  let bestHeight := BestHeight cfg in
  let nextBlockHeight := int32 (bestHeight + 1) in
  let medianTimePast := MedianTimePast cfg in
  isReplacement <- lift (checkPoolDoubleSpend mp tx);;
  utxoView <- lift (from_chain (fetchInputUtxos mp tx));;
  utxoView <- lift (not_in_chain (outs_of tx) utxoView);;
  order <- ordered (map_to_list (entries utxoView));;
  match missing_parents order with
  | h :: l => ret (mkAccept 0 0 ∅ (h :: l) NewUtxoViewpoint 0)
  | [] =>
      txFee <- lift (from_chain (CheckTransactionInputs tx nextBlockHeight utxoView (cfg_Params cfg)));;
      lift (validateStandardness tx nextBlockHeight medianTimePast utxoView);;
      sequenceLock <- lift (from_chain (CalcSequenceLock cfg tx utxoView));;
      lift (reject_if (negb (SequenceLockActive sequenceLock nextBlockHeight medianTimePast)) RejectNonstandard);;
      lift (validateSigCost tx utxoView);;
      let txSize := GetTxVirtualSize tx in
      validateRelayFeeMet tx txFee txSize utxoView nextBlockHeight isNew rateLimit;;
      conflicts <- (if isReplacement : bool then validateReplacement tx txFee else ret ∅);;
      validate_scripts tx utxoView;;
      ret (mkAccept txFee txSize conflicts [] utxoView bestHeight)
  end.

Definition CheckMempoolAcceptance (tx : MsgTx) : PM MempoolAcceptResult := checkMempoolAcceptance tx true true true.

(** The log looks at the fee rate of a conflict before it is removed. *)
Definition remove_conflict (q : bytes * MsgTx) : PM unit :=
  mp <- get;;
  if bool_decide (is_Some (pool mp !! TxHash q.2)) then removeTransaction q.2 false else panic.

(** A transaction was added, or its parents are missing. *)
Definition maybeAcceptTransaction (tx : MsgTx) (isNew rateLimit rejectDupOrphans : bool)
  : PM (list bytes * option TxDesc) :=
  r <- checkMempoolAcceptance tx isNew rateLimit rejectDupOrphans;;
  match MissingParents r with
  | h :: l => ret (h :: l, None)
  | [] =>
      order <- ordered (map_to_list (Conflicts r));;
      each remove_conflict order;;
      txD <- addTransaction (r_utxoView r) tx (r_bestHeight r) (TxFee r);;
      ret ([], Some txD)
  end.

Definition MaybeAcceptTransaction (tx : MsgTx) (isNew rateLimit : bool) : PM (list bytes * option TxDesc) :=
  maybeAcceptTransaction tx isNew rateLimit true.

(** ** Orphans whose parents have come *)

(** The orphans of one output: the accepted transactions, the ones to process. *)
Definition try_orphan (tx : MsgTx) (x : list TxDesc * list MsgTx) : PM ((list TxDesc * list MsgTx) * bool) :=
  fun mp =>
  match maybeAcceptTransaction tx true true false mp with
  | (Panic, mp) => (Panic, mp)
  | (Err PoolFuel, mp) => (Err PoolFuel, mp)
  | (Err _, mp) => (removeOrphan tx true;; ret (x, true)) mp
  | (Ok (_ :: _, _), mp) => (Ok (x, false), mp)
  | (Ok ([], None), mp) => (Panic, mp)
  | (Ok ([], Some txD), mp) => (removeOrphan tx false;; ret ((fst x ++ [txD], snd x ++ [tx]), true)) mp
  end.

Definition process_outputs (processItem : MsgTx) (x : list TxDesc * list MsgTx) : PM (list TxDesc * list MsgTx) :=
  loop (fun prevOut x => x <- range_by_prev prevOut try_orphan x;; ret (x, false)) (outs_of processItem) x.

Fixpoint process_list (steps : nat) (accepted : list TxDesc) (processList : list MsgTx) : PM (list TxDesc) :=
  match processList with
  | [] => ret accepted
  | processItem :: rest =>
      match steps with
      | O => fail PoolFuel
      | S steps' =>
          r <- process_outputs processItem (accepted, rest);;
          process_list steps' (fst r) (snd r)
      end
  end.

Definition processOrphans (acceptedTx : MsgTx) : PM (list TxDesc) :=
  mp <- get;;
  acceptedTxns <- process_list (S (size (orphans mp))) [] [acceptedTx];;
  removeOrphanDoubleSpends acceptedTx;;
  each (fun txD => removeOrphanDoubleSpends (Tx txD)) acceptedTxns;;
  ret acceptedTxns.

Definition ProcessOrphans (acceptedTx : MsgTx) : PM (list TxDesc) := processOrphans acceptedTx.

Definition ProcessTransaction (tx : MsgTx) (allowOrphan rateLimit : bool) (tag : Z) : PM (list TxDesc) :=
  r <- maybeAcceptTransaction tx true rateLimit true;;
  match fst r with
  | [] =>
      newTxs <- processOrphans tx;;
      match snd r with
      | Some txD => ret (txD :: newTxs)
      | None => panic
      end
  | _ :: _ =>
      if negb allowOrphan then fail (TxRuleError RejectDuplicate) else
      maybeAddOrphan tx tag;;
      ret []
  end.

(** ** Questions *)

Definition Count (mp : TxPool) : Z := Z.of_nat (size (pool mp)).
Definition TxHashes : PM (list bytes) := mp <- get;; ordered (map_to_list (pool mp)).*1.
Definition TxDescs : PM (list TxDesc) := mp <- get;; ordered (map_to_list (pool mp)).*2.
Definition LastUpdated (mp : TxPool) : Z := seconds (lastUpdated mp).
End Pool.

(** [now] is the time of the call. *)
Definition New (now : Z) (caches : option SigCache * option HashCache) : TxPool :=
  mkTxPool 0 ∅ ∅ ∅ ∅ (of_int 0) 0 (now + orphanExpireScanInterval) caches 0.
