(* ===== verification/PolicySpec.v ===== *)
(** What the policy of the memory pool promises: which fees it asks for, which
    outputs are dust and which transactions are standard. *)

From stdpp Require Import gmap.
From S2P Require Import Prelude Slices ScriptError Opcodes Tokenizer WireCommon MsgTx MsgBlock Script Crypto BtcUtil OpcodeExec ScriptBuilder Merkle Difficulty TxRules UtxoView ScriptVal Connect Float64 Policy Mempool.
#[local] Open Scope Z_scope.

(** * Checks in a row *)

Lemma reject_if_iff b c : reject_if b c = Ok tt <-> b = false.
Proof. by destruct b. Qed.

Lemma seq_iff {A B} (o : pooled A) (k : A -> pooled B) r : obind o k = Ok r <-> exists a, o = Ok a /\ k a = Ok r.
Proof. destruct o; cbn; naive_solver. Qed.

Lemma counted_iff {A} (o : res A) (a : A) : (counted o : pooled A) = Ok a <-> o = Ok a.
Proof. destruct o; cbn; naive_solver. Qed.

Lemma with_code_iff {A} (o : pooled A) a : with_code o = Ok a <-> o = Ok a.
Proof. destruct o; cbn; naive_solver. Qed.

Lemma check_iff {B} b c (k : unit -> pooled B) r : obind (reject_if b c) k = Ok r <-> b = false /\ k tt = Ok r.
Proof. destruct b; cbn; naive_solver. Qed.

(** * Fees *)

(** The fee for a size, in proportion to the rate per thousand bytes and rounded
    down; a size that would cost nothing costs the rate. *)
Definition relay_fee (size rate : Z) : Z :=
  if (size * rate <? 1000) then rate else Z.min MaxSatoshi (size * rate / 1000).

Lemma relay_fee_exact size rate :
  0 <= size -> 0 <= rate <= MaxSatoshi -> size * rate < 2 ^ 63 -> calcMinRequiredTxRelayFee size rate = relay_fee size rate.
Proof.
  intros Hs Hr Hb. unfold calcMinRequiredTxRelayFee, relay_fee. assert (0 < MaxSatoshi) by reflexivity.
  rewrite int64_small by nia. rewrite Z.quot_div_nonneg by nia.
  pose proof (Z.div_pos (size * rate) 1000 ltac:(nia) ltac:(lia)) as Hq. destruct (Z.ltb_spec (size * rate) 1000) as [Hlt | Hge].
  - rewrite Z.div_small by nia. cbn [Z.eqb andb]. rewrite !Z.gtb_ltb. destruct (Z.ltb_spec 0 rate); cbn.
    + destruct (Z.ltb_spec rate 0); [lia |]. cbn. destruct (Z.ltb_spec MaxSatoshi rate); lia.
    + destruct (Z.ltb_spec MaxSatoshi 0); lia.
  - assert (1 <= size * rate / 1000) by (apply Z.div_le_lower_bound; lia).
    destruct (Z.eqb_spec (size * rate / 1000) 0); [lia |]. cbn [andb].
    destruct (Z.ltb_spec (size * rate / 1000) 0); [lia |]. cbn [orb]. rewrite Z.gtb_ltb.
    destruct (Z.ltb_spec MaxSatoshi (size * rate / 1000)); lia.
Qed.

(** * Dust *)

(** The size of an output and of the input that spends it. *)
Definition spend_size (o : TxOut) (witness : bool) : Z := TxOut_SerializeSize o + 41 + (if witness then 26 else 107).

(** An output that can be spent, for less than a third of the rate. *)
Definition pays (o : TxOut) (rate : Z) : Prop :=
  IsUnspendable (PkScript o) = Ok false /\
  exists w, IsWitnessProgram (PkScript o) = Ok w /\ 3 * spend_size o w * rate <= 1000 * Value o.

Definition fits (o : TxOut) : Prop := amount_ok (Value o) /\ zlen (PkScript o) < 2 ^ 40.

Lemma spend_size_bounds o w : fits o -> 0 < spend_size o w < 2 ^ 41.
Proof.
  intros [_ Hl]. unfold spend_size, TxOut_SerializeSize. pose proof (zlen_nonneg (PkScript o)).
  pose proof (VarIntSerializeSize_range (zlen (PkScript o))). destruct w; lia.
Qed.

Lemma IsDust_pays o rate : fits o -> IsDust o rate = Ok false <-> pays o rate.
Proof.
  intros Hf. unfold IsDust, pays. rewrite seq_iff. setoid_rewrite counted_iff.
  assert (Hmax : MaxSatoshi * 1000 < 2 ^ 62) by reflexivity. destruct Hf as [Hv Hl] eqn:Hf'. clear Hf'. unfold amount_ok in Hv.
  assert (Ht : forall w, (if w : bool then TxOut_SerializeSize o + 41 + 107 / WitnessScaleFactor else TxOut_SerializeSize o + 41 + 107) = spend_size o w)
    by (by intros []).
  split.
  - intros (u & Hu & Hr). destruct u; [done |]. split; [done |]. apply seq_iff in Hr as (t & Ht' & Hr).
    unfold GetDustThreshold in Ht'. apply seq_iff in Ht' as (w & Hw & Ht'). apply counted_iff in Hw. injection Ht' as <-.
    exists w. split; [done |]. pose proof (spend_size_bounds o w Hf) as Hb. rewrite Ht in Hr. rewrite !int64_small in Hr by lia.
    destruct (Z.eqb_spec (3 * spend_size o w) 0); [done |]. injection Hr as Hr. apply Z.ltb_ge in Hr.
    rewrite Z.quot_div_nonneg in Hr by lia. pose proof (Z.mul_div_le (Value o * 1000) (3 * spend_size o w) ltac:(lia)). nia.
  - intros (Hu & w & Hw & Hle). exists false. split; [done |]. apply seq_iff. pose proof (spend_size_bounds o w Hf) as Hb.
    exists (3 * spend_size o w). split.
    + unfold GetDustThreshold. apply seq_iff. exists w. rewrite counted_iff. split; [done |]. rewrite Ht, int64_small by lia. done.
    + destruct (Z.eqb_spec (3 * spend_size o w) 0); [lia |]. f_equal. apply Z.ltb_ge. rewrite int64_small, Z.quot_div_nonneg by lia.
      apply Z.div_le_lower_bound; lia.
Qed.

(** * Standard transactions *)

Definition standard_multisig (script : bytes) : Prop :=
  exists numPubKeys numSigs, CalcMultiSigStats script = Ok (numPubKeys, numSigs) /\ 1 <= numSigs <= numPubKeys /\ numPubKeys <= 3.

(** An output carries data, or it has a known form and pays. *)
Inductive standard_output (rate : Z) (o : TxOut) : bool -> Prop :=
| carries_data : GetScriptClass (PkScript o) = Ok NullDataTy -> standard_output rate o true
| known_form c : GetScriptClass (PkScript o) = Ok c -> c <> NonStandardTy -> c <> NullDataTy ->
    (c = MultiSigTy -> standard_multisig (PkScript o)) -> pays o rate -> standard_output rate o false.

Lemma pk_script_iff script c : checkPkScriptStandard script c = Ok tt <->
  c <> NonStandardTy /\ (c = MultiSigTy -> standard_multisig script).
Proof.
  unfold checkPkScriptStandard, standard_multisig. destruct c; try (split; [by intros _ | done]); [by split; [| intros []] |].
  destruct (CalcMultiSigStats script) as [[n m] | e |].
  - rewrite !check_iff, reject_if_iff, !Z.gtb_ltb, !Z.ltb_ge. unfold maxStandardMultiSigKeys. split.
    + intros (Hn & Hn3 & Hm & Hmn). split; [done |]. intros _. exists n, m. split; [done | lia].
    + intros [_ Hs]. destruct (Hs eq_refl) as (? & ? & [= <- <-] & Hb). lia.
  - split; [done |]. intros [_ Hs]. by destruct (Hs eq_refl) as (? & ? & ? & _).
  - split; [done |]. intros [_ Hs]. by destruct (Hs eq_refl) as (? & ? & ? & _).
Qed.

Definition data_outputs (l : list bool) : Z := zsum (fun b : bool => if b then 1 else 0) l.

Lemma outputs_iff rate outs : forall n k, Forall fits outs ->
  standard_outputs outs rate n = Ok k <-> exists l, Forall2 (standard_output rate) outs l /\ k = n + data_outputs l.
Proof.
  induction outs as [| o outs IH]; intros n k Hf; cbn [standard_outputs].
  { split; [intros [= <-]; exists []; split; [constructor | cbn; lia] |]. intros (l & Hl & ->). apply Forall2_nil_inv_l in Hl as ->. f_equal. cbn. lia. }
  apply Forall_cons in Hf as [Ho Hf]. rewrite seq_iff. setoid_rewrite counted_iff. setoid_rewrite seq_iff. setoid_rewrite with_code_iff.
  split.
  - intros (c & Hc & [] & Hpk & Hr). apply pk_script_iff in Hpk as [Hns Hms]. case_bool_decide as Hn.
    + apply IH in Hr as (l & Hl & ->); [| done]. exists (true :: l). split; [constructor; [constructor; congruence | done] |].
      unfold data_outputs. rewrite zsum_cons. lia.
    + apply seq_iff in Hr as (d & Hd & Hr). apply check_iff in Hr as [-> Hr]. apply IsDust_pays in Hd; [| done].
      apply IH in Hr as (l & Hl & ->); [| done]. exists (false :: l). split; [constructor; [by econstructor | done] |].
      unfold data_outputs. rewrite zsum_cons. lia.
  - intros (l & Hl & ->). apply Forall2_cons_inv_l in Hl as (b & l' & Hb & Hl & ->). unfold data_outputs. rewrite zsum_cons.
    fold (data_outputs l'). destruct Hb as [Hc | c Hc Hns Hnd Hms Hp].
    + exists NullDataTy. split; [done |]. exists tt. split; [done |]. rewrite bool_decide_true by done. apply IH; [done |].
      exists l'. split; [done | lia].
    + exists c. split; [done |]. exists tt. split; [by apply pk_script_iff |]. rewrite bool_decide_false by done. apply seq_iff.
      exists false. split; [by apply IsDust_pays |]. apply check_iff. split; [done |]. apply IH; [done |]. exists l'. split; [done | lia].
Qed.

Definition standard_script (s : bytes) : Prop := zlen s <= 1650 /\ IsPushOnlyScript s = Ok true.

Lemma inputs_iff ins : standard_inputs ins = Ok tt <-> Forall (fun ti => standard_script (SignatureScript ti)) ins.
Proof.
  induction ins as [| ti ins IH]; cbn [standard_inputs]; [by split |].
  rewrite check_iff, seq_iff, Forall_cons, <- IH. setoid_rewrite counted_iff. setoid_rewrite check_iff. unfold standard_script, maxStandardSigScriptSize.
  rewrite Z.gtb_ltb, Z.ltb_ge. split.
  - intros (Hl & p & Hp & Hn & Hr). destruct p; [done | done].
  - intros ((Hl & Hp) & Hr). split; [done |]. by exists true.
Qed.

Record standard_tx (tx : MsgTx) (height medianTime rate maxVersion : Z) : Prop := {
  sd_version : 1 <= Version tx <= maxVersion;
  sd_final : IsFinalizedTransaction tx height medianTime = true;
  sd_weight : GetTransactionWeight tx <= 400000;
  sd_inputs : Forall (fun ti => standard_script (SignatureScript ti)) (TxIns tx);
  sd_outputs : exists l, Forall2 (standard_output rate) (TxOuts tx) l /\ data_outputs l <= 1;
}.

Lemma standard_iff tx height medianTime rate maxVersion :
  Forall fits (TxOuts tx) ->
  CheckTransactionStandard tx height medianTime rate maxVersion = Ok tt <-> standard_tx tx height medianTime rate maxVersion.
Proof.
  intros Hf. unfold CheckTransactionStandard. rewrite !check_iff, seq_iff, orb_false_iff, negb_false_iff, !Z.gtb_ltb, !Z.ltb_ge.
  unfold maxStandardTxWeight. setoid_rewrite seq_iff. setoid_rewrite reject_if_iff. split.
  - intros ([Hv1 Hv2] & Hfin & Hw & [] & Hi & n & Hn & Hd). apply inputs_iff in Hi. apply outputs_iff in Hn as (l & Hl & ->); [| done].
    split; [lia | done | done | done |]. exists l. split; [done | lia].
  - intros [Hv Hfin Hw Hi (l & Hl & Hd)]. split_and!; [lia | lia | done | lia |]. exists tt. split; [by apply inputs_iff |].
    exists (data_outputs l). rewrite outputs_iff by done. split; [by exists l | lia].
Qed.

(** ** Inputs *)

(** What is spent has a known form, and a script that is hashed has few operations. *)
Definition standard_input (v : UtxoViewpoint) (ti : TxIn) : Prop :=
  exists e c, LookupEntry v (PreviousOutPoint ti) = Some e /\ GetScriptClass (pkScript e) = Ok c /\ c <> NonStandardTy /\
    (c = ScriptHashTy -> exists n, GetPreciseSigOpCount (SignatureScript ti) (pkScript e) = Ok n /\ n <= 15).

Lemma inputs_standard_iff tx v : checkInputsStandard tx v = Ok tt <-> Forall (standard_input v) (TxIns tx).
Proof.
  unfold checkInputsStandard. induction (TxIns tx) as [| ti ins IH]; cbn [checkInputsStandard_loop]; [by split |].
  rewrite Forall_cons, <- IH. unfold standard_input. destruct (LookupEntry v _) as [e |]; [| by split; [| intros [(? & ? & ? & _) _]]].
  rewrite seq_iff. setoid_rewrite counted_iff. setoid_rewrite seq_iff. split.
  - intros (c & Hc & [] & Hcase & Hr). split; [| done]. exists e, c. split_and!; [done | done | by intros -> |].
    intros ->. apply seq_iff in Hcase as (n & Hn & Hle). exists n. rewrite counted_iff in Hn. split; [done |].
    apply reject_if_iff in Hle. unfold maxStandardP2SHSigOps in Hle. lia.
  - intros [(e' & c & [= <-] & Hc & Hns & Hsh) Hr]. exists c. split; [done |]. exists tt. split; [| done].
    destruct c; try done. destruct (Hsh eq_refl) as (n & Hn & Hle). apply seq_iff. exists n. rewrite counted_iff. split; [done |].
    apply reject_if_iff. unfold maxStandardP2SHSigOps. lia.
Qed.
