(* ===== verification/OrphanPool.v ===== *)
(** The orphans of the memory pool: the index by outpoints, and what removing an
    orphan with its redeemers removes.

    [orphans_ok D] relates the index to the orphans while the orphans [D] are
    being removed: these are no longer indexed.  The reference is the closure of
    "spends an output of": [prunes] says that no more than the closure is removed,
    and that what stays spends nothing of what went. *)

From stdpp Require Import gmap relations.
From S2P Require Import Prelude Slices ScriptError WireCommon MsgTx MsgBlock Crypto BtcUtil Difficulty SigCache TxRules UtxoView ScriptVal Connect Float64 Policy Mempool.
#[local] Open Scope Z_scope.

(** * The index *)

Definition lookup_by (idx : gmap OutPoint redeemers) (op : OutPoint) : redeemers := default ∅ (idx !! op).

Definition no_empty (idx : gmap OutPoint redeemers) : Prop := forall op m, idx !! op = Some m -> m <> ∅.

Lemma unindex_one_spec h idx op :
  no_empty idx ->
  no_empty (unindex_one h idx op) /\
  forall op' h', lookup_by (unindex_one h idx op) op' !! h' =
    if decide (op' = op /\ h' = h) then None else lookup_by idx op' !! h'.
Proof.
  intros Hn. unfold unindex_one, lookup_by. destruct (idx !! op) as [m |] eqn:Hm.
  2: { split; [done |]. intros op' h'. case_decide as Hd; [| done]. destruct Hd as [-> ->]. now rewrite Hm. }
  destruct (Nat.eqb_spec (size (delete h m)) 0) as [Hz | Hz].
  - apply map_size_empty_inv in Hz. split.
    + intros op' m' Hl. apply lookup_delete_Some in Hl as [_ Hl]. now apply Hn in Hl.
    + intros op' h'. destruct (decide (op' = op)) as [-> | Hne].
      * rewrite lookup_delete_eq, Hm. cbn [default]. rewrite lookup_empty.
        case_decide as Hd; [done |]. assert (h' <> h) by (intros ->; now destruct Hd).
        cbn. now rewrite <- (lookup_delete_ne m h h') by done; rewrite Hz.
      * rewrite lookup_delete_ne by done. now rewrite decide_False by naive_solver.
  - split.
    + intros op' m' Hl. apply lookup_insert_Some in Hl as [[<- <-] | [_ Hl]]; [| now apply Hn in Hl].
      intros He. apply Hz. now rewrite He, map_size_empty.
    + intros op' h'. destruct (decide (op' = op)) as [-> | Hne].
      * rewrite lookup_insert_eq, Hm. cbn. destruct (decide (h' = h)) as [-> | Hne].
        -- rewrite decide_True by done. apply lookup_delete_eq.
        -- rewrite decide_False by naive_solver. now rewrite lookup_delete_ne.
      * rewrite lookup_insert_ne by done. now rewrite decide_False by naive_solver.
Qed.

Lemma unindex_spec h ins : forall idx,
  no_empty idx ->
  no_empty (unindex h ins idx) /\
  forall op h', lookup_by (unindex h ins idx) op !! h' =
    if decide (op ∈ PreviousOutPoint <$> ins /\ h' = h) then None else lookup_by idx op !! h'.
Proof.
  unfold unindex. induction ins as [| ti ins IH]; intros idx Hn.
  { split; [done |]. intros op h'. rewrite decide_False; [done |]. intros [Hin _]. now apply elem_of_nil in Hin. }
  cbn [fmap list_fmap foldl]. destruct (unindex_one_spec h idx (PreviousOutPoint ti) Hn) as [Hn1 Hl1].
  destruct (IH _ Hn1) as [Hn2 Hl2]. split; [done |]. intros op h'. rewrite Hl2, Hl1.
  repeat case_decide; rewrite ?elem_of_cons in *; naive_solver.
Qed.

Section Index.
Context `{Crypto}.

Lemma index_one_spec tx idx op :
  no_empty idx ->
  no_empty (index_one tx idx op) /\
  forall op' h', lookup_by (index_one tx idx op) op' !! h' =
    if decide (op' = op /\ h' = TxHash tx) then Some tx else lookup_by idx op' !! h'.
Proof.
  intros Hn. unfold index_one, lookup_by. split.
  - intros op' m Hl. apply lookup_insert_Some in Hl as [[<- <-] | [_ Hl]]; [apply insert_non_empty | now apply Hn in Hl].
  - intros op' h'. destruct (decide (op' = op)) as [-> | Hne].
    + rewrite lookup_insert_eq. cbn [default]. destruct (decide (h' = TxHash tx)) as [-> | Hne].
      * rewrite decide_True by done. cbn. apply lookup_insert_eq.
      * rewrite decide_False by naive_solver. cbn. now rewrite lookup_insert_ne.
    + rewrite lookup_insert_ne by done. now rewrite decide_False by naive_solver.
Qed.

Lemma index_all_spec tx ops : forall idx,
  no_empty idx ->
  no_empty (foldl (index_one tx) idx ops) /\
  forall op h', lookup_by (foldl (index_one tx) idx ops) op !! h' =
    if decide (op ∈ ops /\ h' = TxHash tx) then Some tx else lookup_by idx op !! h'.
Proof.
  induction ops as [| op0 ops IH]; intros idx Hn; cbn [foldl].
  { split; [done |]. intros op h'. rewrite decide_False; [done |]. intros [Hin _]. now apply elem_of_nil in Hin. }
  destruct (index_one_spec tx idx op0 Hn) as [Hn1 Hl1].
  destruct (IH _ Hn1) as [Hn2 Hl2]. split; [done |]. intros op h'. rewrite Hl2, Hl1.
  repeat case_decide; rewrite ?elem_of_cons in *; naive_solver.
Qed.
End Index.

(** * Orphans *)

(** What the methods on orphans leave alone. *)
Definition main_part (mp : TxPool) :=
  (lastUpdated mp, pool mp, outpoints mp, pennyTotal mp, lastPennyUnix mp, script_caches mp).

Section Orphans.
Context `{Crypto} `{MapOrder} `{WorldLaws}.

(** The transactions that are ever made. *)
Context (U : MsgTx -> Prop).

Record orphans_ok (D : gset bytes) (mp : TxPool) : Prop := {
  oo_known : forall h o, orphans mp !! h = Some o -> TxHash (o_tx o) = h /\ U (o_tx o);
  oo_index : forall op h t, by_prev mp op !! h = Some t <->
    (h ∉ D) /\ op ∈ inputs t /\ exists o, orphans mp !! h = Some o /\ o_tx o = t;
  oo_no_empty : no_empty (orphansByPrev mp);
  oo_leaving : forall h, h ∈ D -> is_Some (orphans mp !! h);
}.

(** An orphan spends an output of another one. *)
Definition redeems (os : gmap bytes orphanTx) (h h' : bytes) : Prop :=
  exists o o' op, os !! h = Some o /\ os !! h' = Some o' /\ op ∈ outs_of (o_tx o) /\ op ∈ inputs (o_tx o').

Record prunes (D : gset bytes) (roots : bytes -> Prop) (mp mp' : TxPool) : Prop := {
  pr_main : main_part mp' = main_part mp;
  pr_scan : nextExpireScan mp' = nextExpireScan mp;
  pr_sub : orphans mp' ⊆ orphans mp;
  pr_from : forall h, is_Some (orphans mp !! h) -> orphans mp' !! h = None ->
    exists r, roots r /\ rtc (redeems (orphans mp)) r h;
  pr_closed : forall h o h' o' op, orphans mp !! h = Some o -> orphans mp' !! h = None ->
    orphans mp' !! h' = Some o' -> h' ∉ D -> op ∈ outs_of (o_tx o) -> op ∉ inputs (o_tx o');
}.

Lemma redeems_mono os os' h h' : os' ⊆ os -> redeems os' h h' -> redeems os h h'.
Proof.
  intros Hs (o & o' & op & Ho & Ho' & Hin). exists o, o', op. split_and!; [| | naive_solver ..]; eapply lookup_weaken; eauto.
Qed.

Lemma redeems_rtc os os' h h' : os' ⊆ os -> rtc (redeems os') h h' -> rtc (redeems os) h h'.
Proof. intros Hs. apply rtc_subrel. intros ? ?. now apply redeems_mono. Qed.

Lemma prunes_refl D R mp : prunes D R mp mp.
Proof. split; [done | done | done | intros h [? ?] ?; congruence | intros; congruence]. Qed.

Lemma prunes_trans D (R1 R2 R : bytes -> Prop) mp mp1 mp2 :
  prunes D R1 mp mp1 -> prunes D R2 mp1 mp2 -> (forall r, R1 r -> R r) ->
  (forall r, R2 r -> exists r', R r' /\ rtc (redeems (orphans mp)) r' r) ->
  prunes D R mp mp2.
Proof.
  intros P1 P2 Hr1 Hr2. split.
  - rewrite (pr_main _ _ _ _ P2). apply P1.
  - rewrite (pr_scan _ _ _ _ P2). apply P1.
  - etrans; [apply P2 | apply P1].
  - intros h Hh Hg. destruct (orphans mp1 !! h) as [o |] eqn:Hm.
    + destruct (pr_from _ _ _ _ P2 h) as (r & Hr & Hc); [eauto | done |].
      destruct (Hr2 r Hr) as (r' & Hr' & Hc'). exists r'. split; [done |]. etrans; [exact Hc' |].
      eapply redeems_rtc; [apply P1 | done].
    + destruct (pr_from _ _ _ _ P1 h Hh Hm) as (r & Hr & Hc). eauto.
  - intros h o h' o' op Hh Hg Hh' Hd Hop. destruct (orphans mp1 !! h) as [o1 |] eqn:Hm.
    + rewrite (lookup_weaken _ _ _ _ Hm (pr_sub _ _ _ _ P1)) in Hh. injection Hh as ->.
      eapply (pr_closed _ _ _ _ P2); eauto.
    + eapply (pr_closed _ _ _ _ P1); eauto. eapply lookup_weaken; [done | apply P2].
Qed.

(** A call to the world changes nothing else. *)
Lemma called_ok D mp : orphans_ok D mp -> orphans_ok D (called mp).
Proof. intros []. now split. Qed.

Lemma called_prunes D R mp mp' : prunes D R mp mp' -> prunes D R mp (called mp').
Proof. intros []. now split. Qed.

(** ** Loops *)

Lemma each_ind {A} (f : A -> PM unit) (I : TxPool -> Prop) l : forall mp,
  I mp -> (forall a mp, a ∈ l -> I mp -> exists mp', f a mp = (Ok tt, mp') /\ I mp') ->
  exists mp', each f l mp = (Ok tt, mp') /\ I mp'.
Proof.
  induction l as [| a l IH]; intros mp Hi Hf; cbn [each]; [now exists mp |].
  destruct (Hf a mp) as (mp1 & Hr & Hi1); [constructor | done |]. rewrite (bind_Ok _ _ _ _ _ Hr).
  apply IH; [done |]. intros b mp2 Hb. apply Hf. now constructor.
Qed.

(** What holds of the elements that are done keeps holding. *)
Lemma each_all {A} (f : A -> PM unit) (I : TxPool -> Prop) (P : A -> TxPool -> Prop) l : forall mp,
  I mp ->
  (forall a mp, a ∈ l -> I mp -> exists mp', f a mp = (Ok tt, mp') /\ I mp' /\ P a mp' /\ forall b, P b mp -> P b mp') ->
  exists mp', each f l mp = (Ok tt, mp') /\ I mp' /\ forall a, a ∈ l \/ P a mp -> P a mp'.
Proof.
  induction l as [| a l IH]; intros mp Hi Hf; cbn [each].
  { exists mp. split_and!; [done | done |]. intros a [Ha | Ha]; [now apply elem_of_nil in Ha | done]. }
  destruct (Hf a mp) as (mp1 & Hr & Hi1 & Hp & Hk); [constructor | done |]. rewrite (bind_Ok _ _ _ _ _ Hr).
  destruct (IH mp1 Hi1) as (mp2 & Hr2 & Hi2 & Hp2); [intros b mp2 Hb; apply Hf; now constructor |].
  exists mp2. split_and!; [done | done |]. intros b [Hb | Hb].
  - apply elem_of_cons in Hb as [-> | Hb]; auto.
  - auto.
Qed.

Lemma each_by_prev_ind op (f : MsgTx -> PM unit) (I : TxPool -> Prop) mp :
  I mp -> (forall mp, I mp -> I (called mp)) ->
  (forall h t mp, I mp -> by_prev mp op !! h = Some t ->
     exists mp', f t mp = (Ok tt, mp') /\ I mp' /\ by_prev mp' op !! h = None /\ by_prev mp' op ⊆ by_prev mp op) ->
  exists mp', each_by_prev op f mp = (Ok tt, mp') /\ I mp' /\ by_prev mp' op = ∅.
Proof.
  intros Hi Hc Hf. unfold each_by_prev, range_by_prev. rewrite (bind_Ok get _ mp mp mp) by done.
  unfold ordered. erewrite bind_Ok by reflexivity.
  set (keys := (map_to_list (by_prev mp op)).*1).
  assert (Hkeys : forall h t, by_prev (called mp) op !! h = Some t -> h ∈ shuffle (calls mp) keys).
  { intros h t Ht. rewrite (shuffle_perm _ _ keys). apply list_elem_of_fmap. exists (h, t). split; [done |]. now apply elem_of_map_to_list. }
  generalize dependent (shuffle (calls mp) keys). intros l Hl. apply Hc in Hi. generalize dependent (called mp). clear keys mp.
  induction l as [| h l IH]; intros mp Hi Hkeys.
  { exists mp. split_and!; [done | done |]. apply map_empty. intros h. apply eq_None_not_Some. intros [t Ht].
    apply Hkeys in Ht. now apply elem_of_nil in Ht. }
  cbn [loop]. rewrite bind_assoc, (bind_Ok get _ mp mp mp) by done.
  destruct (by_prev mp op !! h) as [t |] eqn:Ht.
  - destruct (Hf h t mp Hi Ht) as (mp1 & Hr & Hi1 & Hg & Hs). rewrite bind_assoc, (bind_Ok _ _ _ _ _ Hr).
    rewrite (bind_Ok (ret _) _ mp1 (tt, false) mp1) by done. cbn [snd fst]. apply IH; [done |].
    intros h' t' Ht'. pose proof (lookup_weaken _ _ _ _ Ht' Hs) as Ht0. apply Hkeys in Ht0.
    apply elem_of_cons in Ht0 as [-> | ?]; [congruence | done].
  - rewrite (bind_Ok (ret _) _ mp (tt, false) mp) by done. cbn [snd fst]. apply IH; [done |].
    intros h' t' Ht'. pose proof Ht' as Ht0. apply Hkeys in Ht0. apply elem_of_cons in Ht0 as [-> | ?]; [congruence | done].
Qed.

(** ** Removing *)

(** The orphan is taken out of the index: it leaves. *)
Lemma unindex_ok D mp h o :
  orphans_ok D mp -> orphans mp !! h = Some o -> h ∉ D ->
  orphans_ok ({[h]} ∪ D) (set_orphans (orphans mp) (unindex h (TxIns (o_tx o)) (orphansByPrev mp)) mp).
Proof.
  intros Hok Ho Hd. destruct (unindex_spec h (TxIns (o_tx o)) _ (oo_no_empty _ _ Hok)) as [Hn Hl].
  split; cbn [orphans orphansByPrev set_orphans].
  - apply (oo_known _ _ Hok).
  - intros op h' t. change (by_prev (set_orphans ?a ?b ?m) op) with (lookup_by b op). rewrite Hl.
    change (lookup_by (orphansByPrev mp) op) with (by_prev mp op).
    pose proof (oo_index _ _ Hok op h' t) as Hidx. case_decide as Hc.
    + destruct Hc as [_ ->]. split; [done |]. set_solver.
    + rewrite Hidx. split; [| set_solver]. intros (Hd' & Hin & o' & Ho' & Ht).
      split_and!; [| done | by exists o']. intros [->%elem_of_singleton | ?]%elem_of_union; [| done].
      rewrite Ho in Ho'. injection Ho' as <-. subst t. now apply Hc.
  - done.
  - intros h' [->%elem_of_singleton | Hh']%elem_of_union; [by exists o | by apply (oo_leaving _ _ Hok)].
Qed.

(** The orphan that leaves is gone. *)
Lemma drop_ok D mp h :
  orphans_ok ({[h]} ∪ D) mp -> h ∉ D -> orphans_ok D (set_orphans (delete h (orphans mp)) (orphansByPrev mp) mp).
Proof.
  intros Hok Hd. split; cbn [orphans orphansByPrev set_orphans].
  - intros h' o Ho. apply lookup_delete_Some in Ho as [_ Ho]. by apply (oo_known _ _ Hok).
  - intros op h' t. change (by_prev (set_orphans ?a ?b ?m) op) with (by_prev mp op). rewrite (oo_index _ _ Hok).
    setoid_rewrite lookup_delete_Some. set_solver.
  - apply (oo_no_empty _ _ Hok).
  - intros h' Hh'. rewrite lookup_delete_ne by set_solver. apply (oo_leaving _ _ Hok). set_solver.
Qed.

Lemma leaving_size D mp : orphans_ok D mp -> (size D <= size (orphans mp))%nat.
Proof.
  intros Hok. rewrite <- size_dom. apply subseteq_size. intros h Hh. apply elem_of_dom, (oo_leaving _ _ Hok), Hh.
Qed.

Lemma by_prev_shrinks D mp mp' op :
  orphans_ok D mp -> orphans_ok D mp' -> orphans mp' ⊆ orphans mp -> by_prev mp' op ⊆ by_prev mp op.
Proof.
  intros Hok Hok' Hs. apply map_subseteq_spec. intros h t Ht. apply (oo_index _ _ Hok') in Ht as (Hd & Hin & o & Ho & Hot).
  apply (oo_index _ _ Hok). split_and!; [done | done |]. exists o. split; [by eapply lookup_weaken | done].
Qed.

(** The orphan that is removed is the one that is stored. *)
Definition stored (tx : MsgTx) (mp : TxPool) : Prop := forall o, orphans mp !! TxHash tx = Some o -> o_tx o = tx.

Lemma indexed_stored D mp op h t :
  orphans_ok D mp -> by_prev mp op !! h = Some t ->
  TxHash t = h /\ (h ∉ D) /\ op ∈ inputs t /\ stored t mp /\ exists o, orphans mp !! h = Some o /\ o_tx o = t.
Proof.
  intros Hok Ht. apply (oo_index _ _ Hok) in Ht as (Hd & Hin & o & Ho & Hot).
  destruct (oo_known _ _ Hok _ _ Ho) as [Hh _]. rewrite Hot in Hh. split_and!; [done | done | done | | by exists o].
  intros o' Ho'. rewrite Hh, Ho in Ho'. by injection Ho' as <-.
Qed.

(** Both loops of a removal, given what the recursive call does. *)
Lemma remove_redeemers fuel D mp0 tx o mp :
  orphans mp0 !! TxHash tx = Some o -> o_tx o = tx ->
  (forall t mp, orphans_ok D mp -> TxHash t ∉ D -> stored t mp -> (size (orphans mp) < fuel + size D)%nat ->
     exists mp', removeOrphan_rec fuel t true mp = (Ok tt, mp') /\ orphans_ok D mp' /\
       prunes D (eq (TxHash t)) mp mp' /\ orphans mp' !! TxHash t = None) ->
  orphans_ok D mp -> (size (orphans mp0) < fuel + size D)%nat ->
  prunes D (redeems (orphans mp0) (TxHash tx)) mp0 mp ->
  exists mp', each (fun prevOut => each_by_prev prevOut (fun orphan => removeOrphan_rec fuel orphan true)) (outs_of tx) mp
      = (Ok tt, mp') /\
    orphans_ok D mp' /\ prunes D (redeems (orphans mp0) (TxHash tx)) mp0 mp' /\
    forall op, op ∈ outs_of tx -> by_prev mp' op = ∅.
Proof.
  intros Ho Htx IH Hok Hsize Hp.
  edestruct (each_all (fun prevOut => each_by_prev prevOut (fun orphan => removeOrphan_rec fuel orphan true))
    (fun mp => orphans_ok D mp /\ prunes D (redeems (orphans mp0) (TxHash tx)) mp0 mp)
    (fun op mp => by_prev mp op = ∅) (outs_of tx) mp) as (mp' & Hr & [Hok' Hp'] & Hall); [done | |].
  2: { exists mp'. split_and!; auto. }
  intros op mp1 Hop [Hok1 Hp1].
  destruct (each_by_prev_ind op (fun orphan => removeOrphan_rec fuel orphan true)
    (fun mp => orphans_ok D mp /\ prunes D (redeems (orphans mp0) (TxHash tx)) mp0 mp /\ orphans mp ⊆ orphans mp1) mp1)
    as (mp2 & Hr & (Hok2 & Hp2 & Hs2) & He); [done | | |].
  - intros m (Hm1 & Hm2 & Hm3). split_and!; [by apply called_ok | by apply called_prunes | done].
  - intros h t m (Hm1 & Hm2 & Hm3) Ht. destruct (indexed_stored _ _ _ _ _ Hm1 Ht) as (Hh & Hd & Hin & Hst & o' & Ho' & Hot).
    rewrite <- Hh in Hd. destruct (IH t m Hm1 Hd Hst) as (m' & Hr & Hok' & Hpr & Hg).
    { pose proof (map_subseteq_size _ _ (pr_sub _ _ _ _ Hm2)). lia. }
    exists m'. split_and!; [done | done | | | | by eapply by_prev_shrinks; eauto; apply Hpr].
    + eapply prunes_trans; [exact Hm2 | exact Hpr | done |]. intros r <-. exists (TxHash t). split; [| done].
      exists o, o', op. rewrite Hh. split_and!; [done | eapply lookup_weaken; [done | apply Hm2] | by rewrite Htx | by rewrite Hot].
    + etrans; [apply Hpr | done].
    + rewrite <- Hh. apply eq_None_not_Some. intros [t' Ht']. apply (oo_index _ _ Hok') in Ht' as (_ & _ & o2 & Ho2 & _). congruence.
  - exists mp2. split_and!; [done | done | done | done |]. intros b Hb.
    pose proof (by_prev_shrinks _ _ _ b Hok1 Hok2 Hs2) as Hsub. rewrite Hb in Hsub. apply map_empty. intros h. apply eq_None_not_Some. intros [t Ht]. by apply (lookup_weaken _ _ _ _ Ht) in Hsub.
Qed.

Lemma removeOrphan_rec_spec fuel : forall D tx mp,
  orphans_ok D mp -> TxHash tx ∉ D -> stored tx mp -> (size (orphans mp) < fuel + size D)%nat ->
  exists mp', removeOrphan_rec fuel tx true mp = (Ok tt, mp') /\ orphans_ok D mp' /\
    prunes D (eq (TxHash tx)) mp mp' /\ orphans mp' !! TxHash tx = None.
Proof.
  induction fuel as [| fuel IH]; intros D tx mp Hok Hd Hst Hsize.
  { pose proof (leaving_size _ _ Hok). lia. }
  cbn [removeOrphan_rec]. rewrite (bind_Ok get _ mp mp mp) by done.
  destruct (orphans mp !! TxHash tx) as [o |] eqn:Ho.
  2: { exists mp. split_and!; [done | done | apply prunes_refl | done]. }
  pose proof (Hst o Ho) as Htx. set (mp1 := set_orphans _ _ mp). rewrite (bind_Ok (put mp1) _ mp tt mp1) by done.
  pose proof (unindex_ok _ _ _ _ Hok Ho Hd) as Hok1. fold mp1 in Hok1.
  destruct (remove_redeemers fuel ({[TxHash tx]} ∪ D) mp1 tx o mp1) as (mp2 & Hr & Hok2 & Hp2 & He); [done | done | | done | | |].
  - intros t m Hm Ht. apply IH; done.
  - rewrite size_union, size_singleton by set_solver. cbn [mp1 orphans set_orphans]. lia.
  - apply prunes_refl.
  - rewrite (bind_Ok _ _ _ _ _ Hr). eexists. split; [reflexivity |]. split_and!.
    + by apply drop_ok.
    + split; cbn [modify set_orphans main_part orphans nextExpireScan].
      * apply (pr_main _ _ _ _ Hp2).
      * apply (pr_scan _ _ _ _ Hp2).
      * etrans; [apply delete_subseteq | apply (pr_sub _ _ _ _ Hp2)].
      * intros h Hh Hg. exists (TxHash tx). split; [done |]. apply lookup_delete_None in Hg as [<- | Hg]; [done |].
        destruct (pr_from _ _ _ _ Hp2 h Hh Hg) as (r & Hr1 & Hc). eapply rtc_l; [exact Hr1 | exact Hc].
      * intros h oh h' oh' op Hh Hg Hh' Hd' Hop Hin. apply lookup_delete_Some in Hh' as [Hne Hh'].
        assert (Hd1 : h' ∉ {[TxHash tx]} ∪ D) by set_solver.
        apply lookup_delete_None in Hg as [<- | Hg].
        -- assert (oh = o) as -> by congruence. rewrite Htx in Hop. specialize (He op Hop).
           assert (Hx : by_prev mp2 op !! h' = Some (o_tx oh')) by (apply (oo_index _ _ Hok2); split_and!; [done | done | by exists oh']).
           by rewrite He, lookup_empty in Hx.
        -- by eapply (pr_closed _ _ _ _ Hp2); eauto.
    + cbn [set_orphans orphans]. apply lookup_delete_eq.
Qed.

(** ** Whole methods *)

Abbreviation orphans_fine := (orphans_ok ∅).

(** Orphans may have gone, and nothing else has changed but the next scan. *)
Record trims (mp mp' : TxPool) : Prop := {
  tr_ok : orphans_fine mp';
  tr_main : main_part mp' = main_part mp;
  tr_sub : orphans mp' ⊆ orphans mp;
}.

Lemma trims_refl mp : orphans_fine mp -> trims mp mp.
Proof. by split. Qed.

Lemma trims_trans mp1 mp2 mp3 : trims mp1 mp2 -> trims mp2 mp3 -> trims mp1 mp3.
Proof. intros [? ? ?] [? ? ?]. split; [done | congruence | by etrans]. Qed.

Lemma trims_called mp mp' : trims mp mp' -> trims mp (called mp').
Proof. intros []. split; [by apply called_ok | done | done]. Qed.

(** A removal with redeemers removes the closure, and nothing more. *)
Lemma removeOrphan_closure tx mp :
  orphans_fine mp -> stored tx mp ->
  exists mp', removeOrphan tx true mp = (Ok tt, mp') /\ trims mp mp' /\ nextExpireScan mp' = nextExpireScan mp /\
    forall h o, orphans mp' !! h = Some o <->
      orphans mp !! h = Some o /\ ~ rtc (redeems (orphans mp)) (TxHash tx) h.
Proof.
  intros Hok Hst. unfold removeOrphan. rewrite (bind_Ok get _ mp mp mp) by done.
  destruct (removeOrphan_rec_spec (S (size (orphans mp))) ∅ tx mp) as (mp' & Hr & Hok' & Hp & Hg);
    [done | set_solver | done | lia |].
  exists mp'. split_and!; [done | split; [done | apply Hp | apply Hp] | apply Hp |].
  assert (Hgone : forall h, rtc (redeems (orphans mp)) (TxHash tx) h -> orphans mp' !! h = None).
  { intros h Hc. apply rtc_ind_r with (P := fun h => orphans mp' !! h = None) in Hc; [done | done |].
    intros h1 h2 _ (o1 & o2 & op & Ho1 & Ho2 & Hop & Hin) Hg1. apply eq_None_not_Some. intros [o2' Ho2'].
    pose proof (lookup_weaken _ _ _ _ Ho2' (pr_sub _ _ _ _ Hp)) as Hx. rewrite Ho2 in Hx. injection Hx as <-.
    by eapply (pr_closed _ _ _ _ Hp h1 o1 h2 o2 op). }
  intros h o. split.
  - intros Ho. split; [by eapply lookup_weaken; [done | apply Hp] |]. intros Hc%Hgone. congruence.
  - intros [Ho Hn]. destruct (orphans mp' !! h) as [o' |] eqn:Ho'.
    + pose proof (lookup_weaken _ _ _ _ Ho' (pr_sub _ _ _ _ Hp)). congruence.
    + destruct (pr_from _ _ _ _ Hp h) as (r & <- & Hc); [by exists o | done | done].
Qed.

Lemma removeOrphan_one tx mp :
  orphans_fine mp ->
  exists mp', removeOrphan tx false mp = (Ok tt, mp') /\ trims mp mp' /\ orphans mp' = delete (TxHash tx) (orphans mp) /\
    nextExpireScan mp' = nextExpireScan mp.
Proof.
  intros Hok. unfold removeOrphan. rewrite (bind_Ok get _ mp mp mp) by done. cbn [removeOrphan_rec].
  rewrite (bind_Ok get _ mp mp mp) by done. destruct (orphans mp !! TxHash tx) as [o |] eqn:Ho.
  - eexists. split; [reflexivity |]. split_and!; [| done | done].
    pose proof (unindex_ok ∅ mp (TxHash tx) o Hok Ho ltac:(set_solver)) as Hok1. apply drop_ok in Hok1; [| set_solver].
    split; [done | done |]. cbn. apply delete_subseteq.
  - exists mp. split_and!; [done | by apply trims_refl | by rewrite delete_id | done].
Qed.

Lemma removeOrphan_trims tx mp :
  orphans_fine mp -> stored tx mp -> exists mp', removeOrphan tx true mp = (Ok tt, mp') /\ trims mp mp' /\ orphans mp' !! TxHash tx = None.
Proof.
  intros Hok Hst. destruct (removeOrphan_closure tx mp Hok Hst) as (mp' & Hr & Ht & _ & Hc).
  exists mp'. split_and!; [done | done |]. apply eq_None_not_Some. intros [o Ho]. apply Hc in Ho as [_ Hn]. by apply Hn.
Qed.

Lemma fine_stored mp h o : orphans_fine mp -> orphans mp !! h = Some o -> TxHash (o_tx o) = h /\ stored (o_tx o) mp.
Proof.
  intros Hok Ho. destruct (oo_known _ _ Hok _ _ Ho) as [Hh _]. split; [done |]. intros o' Ho'. rewrite Hh, Ho in Ho'. by injection Ho' as <-.
Qed.

(** A loop over the orphans that trims at every step. *)
Lemma loop_trims {X} (f : bytes -> X -> PM (X * bool)) l : forall x mp,
  orphans_fine mp ->
  (forall h x mp, orphans_fine mp -> exists y mp', f h x mp = (Ok (y, false), mp') /\ trims mp mp') ->
  exists x' mp', loop f l x mp = (Ok x', mp') /\ trims mp mp'.
Proof.
  induction l as [| h l IH]; intros x mp Hok Hf; cbn [loop].
  { exists x, mp. split; [done | by apply trims_refl]. }
  destruct (Hf h x mp Hok) as (y & mp1 & Hr & Ht). rewrite (bind_Ok _ _ _ _ _ Hr). cbn [fst snd].
  destruct (IH y mp1) as (x' & mp2 & Hr2 & Ht2); [apply Ht | done |]. exists x', mp2. split; [done | by eapply trims_trans].
Qed.

Lemma each_trims {A} (f : A -> PM unit) l mp :
  orphans_fine mp ->
  (forall a mp, orphans_fine mp -> exists mp', f a mp = (Ok tt, mp') /\ trims mp mp') ->
  exists mp', each f l mp = (Ok tt, mp') /\ trims mp mp'.
Proof.
  intros Hok Hf. destruct (each_ind f (trims mp) l mp) as (mp' & Hr & Ht); [by apply trims_refl | | by exists mp'].
  intros a m _ Hm. destruct (Hf a m) as (m' & Hr & Ht); [apply Hm |]. exists m'. split; [done | by eapply trims_trans].
Qed.

Lemma RemoveOrphansByTag_trims tag mp :
  orphans_fine mp -> exists n mp', RemoveOrphansByTag tag mp = (Ok n, mp') /\ trims mp mp'.
Proof.
  intros Hok. unfold RemoveOrphansByTag. rewrite (bind_Ok get _ mp mp mp) by done. unfold ordered. erewrite bind_Ok by reflexivity.
  match goal with |- context [loop ?f ?l ?x ?m] =>
    destruct (loop_trims f l x m) as (n & mp' & Hr & Ht); [by apply called_ok | | exists n, mp'; split; [exact Hr |]] end.
  - intros h x m Hm. rewrite (bind_Ok get _ m m m) by done. destruct (orphans m !! h) as [o |] eqn:Ho.
    2: { eexists _, m. split; [done | by apply trims_refl]. }
    destruct (o_tag o =? tag); [| eexists _, m; split; [done | by apply trims_refl]].
    destruct (fine_stored _ _ _ Hm Ho) as [_ Hst]. destruct (removeOrphan_trims _ _ Hm Hst) as (m' & Hr & Ht & _).
    rewrite (bind_Ok _ _ _ _ _ Hr). by eexists _, m'.
  - eapply trims_trans; [| done]. by apply trims_called, trims_refl.
Qed.

(** The scan for expired orphans. *)
Lemma expire_trims now mp :
  orphans_fine mp ->
  exists mp', each_orphan (fun otx => if o_expiration otx <? now then removeOrphan (o_tx otx) true else ret tt) mp
    = (Ok tt, mp') /\ trims mp mp'.
Proof.
  intros Hok. unfold each_orphan. rewrite (bind_Ok get _ mp mp mp) by done. unfold ordered. erewrite bind_Ok by reflexivity.
  match goal with |- context [each ?f ?l ?m] => destruct (each_trims f l m) as (mp' & Hr & Ht) end; [by apply called_ok | |].
  - intros h m Hm. rewrite (bind_Ok get _ m m m) by done. destruct (orphans m !! h) as [o |] eqn:Ho.
    2: { exists m. split; [done | by apply trims_refl]. }
    destruct (o_expiration o <? now); [| exists m; split; [done | by apply trims_refl]].
    destruct (fine_stored _ _ _ Hm Ho) as [_ Hst]. destruct (removeOrphan_trims _ _ Hm Hst) as (m' & Hr & Ht & _). by exists m'.
  - exists mp'. split; [exact Hr |]. eapply trims_trans; [| done]. by apply trims_called, trims_refl.
Qed.

Context (cfg : Config).
Abbreviation max_orphans := (MaxOrphanTxs (policy cfg)).

(** There is room for another orphan afterwards. *)
Lemma limitNumOrphans_trims mp :
  orphans_fine mp -> 0 < max_orphans -> Z.of_nat (size (orphans mp)) <= max_orphans ->
  exists mp', limitNumOrphans cfg mp = (Ok tt, mp') /\ trims mp mp' /\ Z.of_nat (size (orphans mp')) + 1 <= max_orphans.
Proof.
  intros Hok Hmax Hsize. unfold limitNumOrphans. unfold Now at 1. erewrite bind_Ok by reflexivity.
  set (now := clock (calls mp)). rewrite (bind_Ok get _ _ (called mp) (called mp)) by done.
  assert (Hscan : exists mp1, (if nextExpireScan (called mp) <? now then
      each_orphan (fun otx => if o_expiration otx <? now then removeOrphan (o_tx otx) true else ret tt);;
      modify (set_scan (now + orphanExpireScanInterval)) else ret tt) (called mp) = (Ok tt, mp1) /\ trims mp mp1).
  { pose proof (called_ok _ _ Hok) as Hok0. destruct (_ <? now).
    - destruct (expire_trims now (called mp) Hok0) as (mp1 & Hr & [? ? ?]). rewrite (bind_Ok _ _ _ _ _ Hr).
      eexists. split; [reflexivity |]. split; [by split; apply tr_ok0 | done | done].
    - eexists. split; [reflexivity |]. by apply trims_called, trims_refl. }
  destruct Hscan as (mp1 & Hr1 & Ht1). rewrite (bind_Ok _ _ _ _ _ Hr1). rewrite (bind_Ok get _ mp1 mp1 mp1) by done.
  pose proof (map_subseteq_size _ _ (tr_sub _ _ Ht1)) as Hs1.
  destruct (Z.leb_spec (Z.of_nat (size (orphans mp1)) + 1) max_orphans) as [Hle | Hgt]; [by exists mp1 |].
  unfold ordered. erewrite bind_Ok by reflexivity. pose proof (called_ok _ _ (tr_ok _ _ Ht1)) as Hok1.
  pose proof (shuffle_perm _ (calls mp1) (map_to_list (orphans mp1)).*1) as Hperm.
  destruct (shuffle (calls mp1) _) as [| h l].
  { apply Permutation_length in Hperm. rewrite length_fmap, length_map_to_list in Hperm. cbn in Hperm. lia. }
  assert (Hin : h ∈ (map_to_list (orphans mp1)).*1) by (rewrite <- Hperm; constructor).
  apply list_elem_of_fmap in Hin as ([h' o] & Hh & Ho). cbn in Hh. subst h'. apply elem_of_map_to_list in Ho. rewrite Ho.
  destruct (fine_stored _ _ _ (tr_ok _ _ Ht1) Ho) as [Hh _].
  destruct (removeOrphan_one (o_tx o) _ Hok1) as (mp2 & Hr2 & Ht2 & Hd & _). exists mp2. split_and!; [done | |].
  - eapply trims_trans; [by apply trims_called | done].
  - rewrite Hd, Hh. cbn [orphans called]. rewrite (map_size_delete_Some _ _ (mk_is_Some _ _ Ho)). lia.
Qed.

(** A new orphan is indexed under all outpoints it spends. *)
Lemma insert_orphan_ok tx tag t mp :
  orphans_fine mp -> orphans mp !! TxHash tx = None -> U tx ->
  orphans_fine (set_orphans (<[TxHash tx := mkOrphanTx tx tag t]> (orphans mp))
                  (foldl (index_one tx) (orphansByPrev mp) (PreviousOutPoint <$> TxIns tx)) mp).
Proof.
  intros Hok Hnew Hu. destruct (index_all_spec tx (PreviousOutPoint <$> TxIns tx) _ (oo_no_empty _ _ Hok)) as [Hn Hl].
  split; cbn [orphans orphansByPrev set_orphans].
  - intros h o Ho. apply lookup_insert_Some in Ho as [[<- <-] | [_ Ho]]; [done | by apply (oo_known _ _ Hok)].
  - intros op h t'. change (by_prev (set_orphans ?a ?b ?m) op) with (lookup_by b op). rewrite Hl.
    change (lookup_by (orphansByPrev mp) op) with (by_prev mp op). pose proof (oo_index _ _ Hok op h t') as Hidx.
    destruct (decide (h = TxHash tx)) as [-> | Hne].
    + setoid_rewrite lookup_insert_eq. case_decide as Hc.
      * destruct Hc as [Hin _]. split; [intros [= <-]; split_and!; [set_solver | done | by eexists] |].
        by intros (_ & _ & o & [= <-] & <-).
      * rewrite Hidx. split; [intros (_ & _ & o & Ho & _); congruence |]. intros (_ & Hin & o & [= <-] & <-). by destruct Hc.
    + rewrite decide_False by naive_solver. rewrite Hidx. by setoid_rewrite lookup_insert_ne.
  - done.
  - set_solver.
Qed.

Definition room (mp : TxPool) : Prop := Z.of_nat (size (orphans mp)) <= Z.max 0 max_orphans.

Lemma addOrphan_ok tx tag mp :
  orphans_fine mp -> room mp -> orphans mp !! TxHash tx = None -> U tx ->
  exists mp', addOrphan cfg tx tag mp = (Ok tt, mp') /\ orphans_fine mp' /\ room mp' /\ main_part mp' = main_part mp /\
    (0 < max_orphans -> is_Some (orphans mp' !! TxHash tx)) /\
    forall h, h <> TxHash tx -> orphans mp' !! h = None \/ orphans mp' !! h = orphans mp !! h.
Proof.
  intros Hok Hroom Hnew Hu. unfold addOrphan. destruct (Z.leb_spec max_orphans 0) as [Hz | Hz].
  { exists mp. split_and!; [done | done | done | done | lia | by right]. }
  destruct (limitNumOrphans_trims mp) as (mp1 & Hr & Ht & Hs); [done | done | unfold room in Hroom; lia |].
  rewrite (bind_Ok _ _ _ _ _ Hr). unfold Now. erewrite bind_Ok by reflexivity. eexists. split; [reflexivity |].
  assert (Hnew1 : orphans mp1 !! TxHash tx = None).
  { apply eq_None_not_Some. intros [o Ho]. pose proof (lookup_weaken _ _ _ _ Ho (tr_sub _ _ Ht)). congruence. }
  split_and!.
  - apply (insert_orphan_ok tx tag _ (called mp1)); [by apply called_ok, Ht | done | done].
  - unfold room. cbn. rewrite map_size_insert_None by done. lia.
  - apply Ht.
  - intros _. cbn. rewrite lookup_insert_eq. by eexists.
  - intros h Hh. cbn. rewrite lookup_insert_ne by done. destruct (orphans mp1 !! h) as [o |] eqn:Ho; [| by left].
    right. by rewrite (lookup_weaken _ _ _ _ Ho (tr_sub _ _ Ht)).
Qed.

(** No orphan spends what the transaction spends. *)
Lemma removeOrphanDoubleSpends_trims tx mp :
  orphans_fine mp ->
  exists mp', removeOrphanDoubleSpends tx mp = (Ok tt, mp') /\ trims mp mp' /\
    forall h o op, orphans mp' !! h = Some o -> op ∈ inputs tx -> op ∉ inputs (o_tx o).
Proof.
  intros Hok. unfold removeOrphanDoubleSpends.
  destruct (each_all (fun txIn => each_by_prev (PreviousOutPoint txIn) (fun orphan => removeOrphan orphan true))
    (trims mp) (fun txIn mp => by_prev mp (PreviousOutPoint txIn) = ∅) (TxIns tx) mp) as (mp' & Hr & Ht & Hall);
    [by apply trims_refl | |].
  - intros ti m _ Hm.
    destruct (each_by_prev_ind (PreviousOutPoint ti) (fun orphan => removeOrphan orphan true) (trims m) m) as (m' & Hr & Ht & He).
    + apply trims_refl, Hm.
    + intros. by apply trims_called.
    + intros h t m1 Hm1 Hx. destruct (indexed_stored _ _ _ _ _ (tr_ok _ _ Hm1) Hx) as (Hh & _ & _ & Hst & _).
      destruct (removeOrphan_trims t m1 (tr_ok _ _ Hm1) Hst) as (m2 & Hr & Ht2 & Hg). exists m2. split_and!; [done | by eapply trims_trans | |].
      * apply eq_None_not_Some. intros [t' Ht']. apply (oo_index _ _ (tr_ok _ _ Ht2)) in Ht' as (_ & _ & o & Ho & _). congruence.
      * eapply by_prev_shrinks; [apply Hm1 | apply Ht2 | apply Ht2].
    + exists m'. split_and!; [done | by eapply trims_trans | done |]. intros ti' Hb.
      pose proof (by_prev_shrinks _ _ _ (PreviousOutPoint ti') (tr_ok _ _ Hm) (tr_ok _ _ Ht) (tr_sub _ _ Ht)) as Hsub.
      rewrite Hb in Hsub. apply map_empty. intros h. apply eq_None_not_Some. intros [t Hx]. by apply (lookup_weaken _ _ _ _ Hx) in Hsub.
  - exists mp'. split_and!; [done | done |]. intros h o op Ho Hop Hin. apply list_elem_of_fmap in Hop as (ti & -> & Hti).
    assert (Hx : by_prev mp' (PreviousOutPoint ti) !! h = Some (o_tx o)).
    { apply (oo_index _ _ (tr_ok _ _ Ht)). split_and!; [set_solver | done | by exists o]. }
    rewrite Hall in Hx by by left. by rewrite lookup_empty in Hx.
Qed.
End Orphans.
