(* ===== verification/PoolRemoval.v ===== *)
(** The transactions of the memory pool: the index of the outpoints they spend, and
    what removing a transaction with its redeemers removes.

    [pool_ok] is the invariant of the two maps: no two transactions of the pool
    spend the same outpoint.  A recursion along spent outputs ends because a
    transaction contains the hashes of the ones it spends: [universe] assumes
    this as a rank of hashes. *)

From stdpp Require Import gmap relations.
From S2P Require Import Prelude Slices ScriptError WireCommon MsgTx MsgBlock Crypto BtcUtil Difficulty SigCache TxRules UtxoView ScriptVal Connect Float64 Policy Mempool OrphanPool.
#[local] Open Scope Z_scope.

(** * Outputs *)

Section Outputs.
Context `{Crypto}.

Lemma outpoints_from_seq h outs : forall i, (outpoints_from h i outs).*1 = (fun j => mkOutPoint h (uint32 j)) <$> seqZ i (zlen outs).
Proof.
  induction outs as [| o outs IH]; intros i; [done |]. cbn [outpoints_from fmap list_fmap fst].
  unfold zlen. cbn [length]. rewrite seqZ_cons by lia. cbn [fmap list_fmap]. f_equal. change (list_fmap ?a ?b ?f ?l) with (f <$> l).
  rewrite IH. unfold zlen. do 2 f_equal; lia.
Qed.

Lemma outpoints_from_lookup h outs : forall i k o,
  outs !! k = Some o -> outpoints_from h i outs !! k = Some (mkOutPoint h (uint32 (i + Z.of_nat k)), o).
Proof.
  induction outs as [| x outs IH]; intros i k o Hk; [done |]. destruct k as [| k]; cbn [outpoints_from lookup list_lookup] in *.
  - injection Hk as ->. by rewrite Z.add_0_r.
  - rewrite (IH _ _ _ Hk). do 4 f_equal. lia.
Qed.

Lemma out_indexes_outs tx : zlen (TxOuts tx) < 2 ^ 32 -> out_indexes tx = outs_of tx.
Proof.
  intros Hl. unfold out_indexes, outs_of, tx_outputs. rewrite outpoints_from_seq.
  assert (Hz : 0 <= zlen (TxOuts tx)) by (unfold zlen; lia).
  assert (uint32 (zlen (TxOuts tx)) = zlen (TxOuts tx)) as -> by (unfold wrapU; now rewrite Z.mod_small).
  apply list_fmap_ext. intros i z Hi. apply lookup_seqZ in Hi as [-> Hi]. f_equal. unfold wrapU. rewrite Z.mod_small; lia.
Qed.

Lemma outs_of_hash tx op : op ∈ outs_of tx -> Hash op = TxHash tx.
Proof.
  unfold outs_of, tx_outputs. rewrite outpoints_from_seq. intros (z & -> & _)%list_elem_of_fmap. done.
Qed.

Lemma foldl_delete_lookup (ins : list TxIn) : forall (m : gmap OutPoint MsgTx) op,
  foldl (fun m ti => delete (PreviousOutPoint ti) m) m ins !! op =
  if decide (op ∈ PreviousOutPoint <$> ins) then None else m !! op.
Proof.
  induction ins as [| ti ins IH]; intros m op; cbn [foldl fmap list_fmap].
  { rewrite decide_False; [done |]. apply not_elem_of_nil. }
  rewrite IH. destruct (decide (op = PreviousOutPoint ti)) as [-> | Hne].
  - rewrite (decide_True (P := PreviousOutPoint ti ∈ _ :: _)) by constructor. rewrite lookup_delete_eq. by case_decide.
  - rewrite lookup_delete_ne by done. repeat case_decide; rewrite ?elem_of_cons in *; naive_solver.
Qed.

Lemma foldl_insert_lookup (tx : MsgTx) (ins : list TxIn) : forall (m : gmap OutPoint MsgTx) op,
  foldl (fun m ti => <[PreviousOutPoint ti := tx]> m) m ins !! op =
  if decide (op ∈ PreviousOutPoint <$> ins) then Some tx else m !! op.
Proof.
  induction ins as [| ti ins IH]; intros m op; cbn [foldl fmap list_fmap].
  { rewrite decide_False; [done |]. apply not_elem_of_nil. }
  rewrite IH. destruct (decide (op = PreviousOutPoint ti)) as [-> | Hne].
  - rewrite (decide_True (P := PreviousOutPoint ti ∈ _ :: _)) by constructor. rewrite lookup_insert_eq. by case_decide.
  - rewrite lookup_insert_ne by done. repeat case_decide; rewrite ?elem_of_cons in *; naive_solver.
Qed.
End Outputs.

(** The transactions that are ever made: a hash determines what is spent and what
    is made, the hashes that a transaction contains come before its own, and it
    fits into memory. *)
Record universe `{Crypto} (U : MsgTx -> Prop) (rank : bytes -> nat) : Prop := {
  u_rank : forall tx op, U tx -> op ∈ inputs tx -> (rank (Hash op) < rank (TxHash tx))%nat;
  u_hash : forall tx tx', U tx -> U tx' -> TxHash tx = TxHash tx' -> inputs tx = inputs tx' /\ TxOuts tx = TxOuts tx';
  u_outs : forall tx, U tx -> zlen (TxOuts tx) < 2 ^ 32;
  u_size : forall tx, U tx -> SerializeSize tx < 2 ^ 60;
}.

(** What the methods on the pool leave alone. *)
Definition side_part (mp : TxPool) :=
  (orphans mp, orphansByPrev mp, pennyTotal mp, lastPennyUnix mp, nextExpireScan mp, script_caches mp).

Section Pool.
Context `{Crypto} `{MapOrder} `{World}.
Context (U : MsgTx -> Prop) (rank : bytes -> nat) (HU : universe U rank).

Record pool_ok (mp : TxPool) : Prop := {
  po_known : forall h d, pool mp !! h = Some d -> TxHash (Tx d) = h /\ U (Tx d);
  po_spent : forall op t, outpoints mp !! op = Some t <->
    op ∈ inputs t /\ exists d, pool mp !! TxHash t = Some d /\ Tx d = t;
}.

(** A transaction of the pool spends an output of another one. *)
Definition spends (p : gmap bytes TxDesc) (h h' : bytes) : Prop :=
  exists d d' op, p !! h = Some d /\ p !! h' = Some d' /\ op ∈ outs_of (Tx d) /\ op ∈ inputs (Tx d').

(** The transaction, those that spend an output of it, and so on. *)
Definition spends_tx (p : gmap bytes TxDesc) (tx : MsgTx) (h : bytes) : Prop :=
  exists d op, p !! h = Some d /\ op ∈ outs_of tx /\ op ∈ inputs (Tx d).

Definition descends (p : gmap bytes TxDesc) (tx : MsgTx) (h : bytes) : Prop :=
  h = TxHash tx \/ exists r, spends_tx p tx r /\ rtc (spends p) r h.

Record cuts (roots : bytes -> Prop) (mp mp' : TxPool) : Prop := {
  ct_ok : pool_ok mp';
  ct_side : side_part mp' = side_part mp;
  ct_sub : pool mp' ⊆ pool mp;
  ct_from : forall h, is_Some (pool mp !! h) -> pool mp' !! h = None -> roots h;
  ct_closed : forall h d h' d' op, pool mp !! h = Some d -> pool mp' !! h = None -> pool mp' !! h' = Some d' ->
    op ∈ outs_of (Tx d) -> op ∉ inputs (Tx d');
}.

Lemma spends_mono p p' h h' : p' ⊆ p -> spends p' h h' -> spends p h h'.
Proof. intros Hs (d & d' & op & Hd & Hd' & Hin). exists d, d', op. split_and!; [| | naive_solver ..]; eapply lookup_weaken; eauto. Qed.

Lemma spends_tx_mono p p' tx h : p' ⊆ p -> spends_tx p' tx h -> spends_tx p tx h.
Proof. intros Hs (d & op & Hd & Hin). exists d, op. split; [eapply lookup_weaken; eauto | done]. Qed.

Lemma descends_mono p p' tx h : p' ⊆ p -> descends p' tx h -> descends p tx h.
Proof.
  intros Hs [-> | (r & Hr & Hc)]; [by left | right]. exists r. split; [by eapply spends_tx_mono |].
  eapply rtc_subrel; [| exact Hc]. intros ? ?. by apply spends_mono.
Qed.

Lemma cuts_refl R mp : pool_ok mp -> cuts R mp mp.
Proof. intros Hok. split; [done | done | done | intros h [? ?] ?; congruence | intros; congruence]. Qed.

Lemma cuts_trans (R1 R2 R : bytes -> Prop) mp mp1 mp2 :
  cuts R1 mp mp1 -> cuts R2 mp1 mp2 -> (forall h, R1 h -> R h) -> (forall h, R2 h -> R h) -> cuts R mp mp2.
Proof.
  intros C1 C2 Hr1 Hr2. split.
  - apply C2.
  - rewrite (ct_side _ _ _ C2). apply C1.
  - etrans; [apply C2 | apply C1].
  - intros h Hh Hg. destruct (pool mp1 !! h) as [d |] eqn:Hm.
    + apply Hr2, (ct_from _ _ _ C2); [by exists d | done].
    + by apply Hr1, (ct_from _ _ _ C1).
  - intros h d h' d' op Hd Hg Hd' Hop. destruct (pool mp1 !! h) as [d1 |] eqn:Hm.
    + rewrite (lookup_weaken _ _ _ _ Hm (ct_sub _ _ _ C1)) in Hd. injection Hd as ->. by eapply (ct_closed _ _ _ C2); eauto.
    + eapply (ct_closed _ _ _ C1); eauto. eapply lookup_weaken; [done | apply C2].
Qed.

Lemma cuts_weaken (R R' : bytes -> Prop) mp mp' : cuts R mp mp' -> (forall h, R h -> R' h) -> cuts R' mp mp'.
Proof. intros [] Hr. split; auto. Qed.

(** ** One transaction *)

Definition drop_desc (h : bytes) (d : TxDesc) (now : Z) (mp : TxPool) : TxPool :=
  set_pool now (delete h (pool mp)) (foldl (fun m ti => delete (PreviousOutPoint ti) m) (outpoints mp) (TxIns (Tx d))) mp.

Lemma drop_desc_ok h d now mp : pool_ok mp -> pool mp !! h = Some d -> pool_ok (drop_desc h d now mp).
Proof.
  intros Hok Hd. destruct (po_known _ Hok _ _ Hd) as [Hh _]. split; cbn [drop_desc pool outpoints set_pool].
  - intros h' d' Hd'. apply lookup_delete_Some in Hd' as [_ Hd']. by apply (po_known _ Hok).
  - intros op t. rewrite foldl_delete_lookup. fold (inputs (Tx d)). pose proof (po_spent _ Hok op t) as Hsp. case_decide as Hc.
    + split; [done |]. intros (Hin & d' & Hd' & Ht). exfalso. apply lookup_delete_Some in Hd' as [Hne Hd'].
      assert (Hs : outpoints mp !! op = Some (Tx d)) by (apply (po_spent _ Hok); split; [done |]; exists d; by rewrite Hh).
      assert (Hs' : outpoints mp !! op = Some t) by (apply Hsp; split; [done |]; by exists d'). apply Hne. congruence.
    + rewrite Hsp. split; intros (Hin & d' & Hd' & Ht); (split; [done |]; exists d').
      * rewrite lookup_delete_Some. split_and!; [| done | done]. intros Heq.
        assert (d' = d) as -> by congruence. by rewrite <- Ht in Hin.
      * by apply lookup_delete_Some in Hd' as [_ Hd'].
Qed.

Lemma called_pool_ok mp : pool_ok mp -> pool_ok (called mp).
Proof. intros []. by split. Qed.

(** ** The recursion *)

(** The transactions that may spend, directly or not, one of this rank. *)
Definition above (r : nat) (p : gmap bytes TxDesc) : nat := size (filter (fun '(h, _) => (r < rank h)%nat) p).

Lemma above_le r p : (above r p <= size p)%nat.
Proof. apply map_subseteq_size, map_filter_subseteq. Qed.

Lemma above_mono r p p' : p' ⊆ p -> (above r p' <= above r p)%nat.
Proof. intros Hs. by apply map_subseteq_size, map_filter_subseteq_mono. Qed.

Lemma above_lt r h d p : p !! h = Some d -> (r < rank h)%nat -> (above (rank h) p < above r p)%nat.
Proof.
  intros Hd Hr. apply map_subset_size. apply map_subset_alt. split.
  - apply map_subseteq_spec. intros h' d' Hd'. apply map_lookup_filter_Some in Hd' as [Hd' Hl].
    apply map_lookup_filter_Some. split; [done | lia].
  - exists h. split; [apply map_lookup_filter_None; right; intros ? _; lia |].
    exists d. by apply map_lookup_filter_Some.
Qed.

Lemma spender op t mp : pool_ok mp -> outpoints mp !! op = Some t ->
  op ∈ inputs t /\ U t /\ (rank (Hash op) < rank (TxHash t))%nat /\ exists d, pool mp !! TxHash t = Some d /\ Tx d = t.
Proof.
  intros Hok Ht. apply (po_spent _ Hok) in Ht as (Hin & d & Hd & Htx). destruct (po_known _ Hok _ _ Hd) as [_ Hu].
  rewrite Htx in Hu. split_and!; [done | done | by apply (u_rank _ _ HU) | by exists d].
Qed.

(** Nothing of the pool spends what the transaction makes. *)
Definition unspent_outs (tx : MsgTx) (mp : TxPool) : Prop :=
  forall op, op ∈ outs_of tx -> outpoints mp !! op = None.

Lemma cuts_outpoints R mp mp' op : pool_ok mp -> cuts R mp mp' -> outpoints mp !! op = None -> outpoints mp' !! op = None.
Proof.
  intros Hok Hc Hn. apply eq_None_not_Some. intros [t Ht]. apply (po_spent _ (ct_ok _ _ _ Hc)) in Ht as (Hin & d & Hd & Htx).
  assert (outpoints mp !! op = Some t); [| congruence]. apply (po_spent _ Hok). split; [done |]. exists d.
  split; [by eapply lookup_weaken; [| apply Hc] | done].
Qed.

Definition descends_strictly (p : gmap bytes TxDesc) (tx : MsgTx) (h : bytes) : Prop :=
  exists r, spends_tx p tx r /\ rtc (spends p) r h.

(** What descends from a transaction that spends an output. *)
Lemma descends_step p tx t d op h :
  p !! TxHash t = Some d -> Tx d = t -> op ∈ outs_of tx -> op ∈ inputs t -> descends p t h -> descends_strictly p tx h.
Proof.
  intros Hd Htx Hop Hin Hh. exists (TxHash t). split; [exists d, op; by rewrite Htx |].
  destruct Hh as [-> | (r & (dr & op' & Hdr & Hop' & Hin') & Hc)]; [done |].
  eapply rtc_l; [| exact Hc]. exists d, dr, op'. by rewrite Htx.
Qed.

Lemma removeTransaction_rec_spec fuel : forall tx mp,
  pool_ok mp -> U tx -> (above (rank (TxHash tx)) (pool mp) < fuel)%nat ->
  exists mp', removeTransaction_rec fuel tx true mp = (Ok tt, mp') /\ cuts (descends (pool mp) tx) mp mp' /\
    pool mp' !! TxHash tx = None /\ unspent_outs tx mp'.
Proof.
  induction fuel as [| fuel IH]; intros tx mp Hok Hu Hf; [lia |]. cbn [removeTransaction_rec].
  rewrite out_indexes_outs by (by apply (u_outs _ _ HU)).
  set (body := fun prevOut => bind get _).
  destruct (each_all body (cuts (descends_strictly (pool mp) tx) mp) (fun op m => outpoints m !! op = None) (outs_of tx) mp)
    as (mp1 & Hr1 & Hc1 & Hall); [by apply cuts_refl | |].
  { intros op m Hop Hm. unfold body. rewrite (bind_Ok get _ m m m) by done. pose proof (ct_ok _ _ _ Hm) as Hokm.
    destruct (outpoints m !! op) as [t |] eqn:Ht; [| by exists m].
    destruct (spender _ _ _ Hokm Ht) as (Hin & Hut & Hrk & d & Hd & Htx). rewrite (outs_of_hash _ _ Hop) in Hrk.
    destruct (IH t m Hokm Hut) as (m' & Hr & Hc & Hg & Hun).
    { pose proof (above_lt _ _ _ _ Hd Hrk). pose proof (above_mono (rank (TxHash tx)) _ _ (ct_sub _ _ _ Hm)). lia. }
    exists m'. split_and!; [done | | |].
    - eapply cuts_trans; [exact Hm | exact Hc | done |]. intros h Hh. apply (descends_mono _ _ _ _ (ct_sub _ _ _ Hm)) in Hh.
      eapply descends_step; [eapply lookup_weaken; [exact Hd | apply Hm] | done | done | done | done].
    - apply eq_None_not_Some. intros [t' Ht']. apply (po_spent _ (ct_ok _ _ _ Hc)) in Ht' as (Hin' & d' & Hd' & Htx').
      assert (outpoints m !! op = Some t').
      { apply (po_spent _ Hokm). split; [done |]. exists d'. split; [eapply lookup_weaken; [done | apply Hc] | done]. }
      assert (t' = t) as -> by congruence. congruence.
    - intros op' Hn. by eapply cuts_outpoints. }
  rewrite (bind_Ok _ _ _ _ _ Hr1), (bind_Ok get _ mp1 mp1 mp1) by done. pose proof (ct_ok _ _ _ Hc1) as Hok1.
  assert (Hun1 : unspent_outs tx mp1) by (intros op Hop; apply Hall; by left).
  assert (Hw : forall h, descends_strictly (pool mp) tx h -> descends (pool mp) tx h) by (intros h Hh; by right).
  destruct (pool mp1 !! TxHash tx) as [d |] eqn:Hd.
  2: { exists mp1. split_and!; [done | by eapply cuts_weaken | done | done]. }
  unfold Now. erewrite bind_Ok by reflexivity. eexists. split; [reflexivity |].
  pose proof (drop_desc_ok _ d (unix (clock (calls mp1))) (called mp1) (called_pool_ok _ Hok1) Hd) as Hok2.
  destruct (po_known _ Hok1 _ _ Hd) as [Hh Hud].
  destruct (u_hash _ _ HU (Tx d) tx Hud Hu Hh) as [_ Houts].
  assert (Hoo : outs_of (Tx d) = outs_of tx) by (unfold outs_of, tx_outputs; by rewrite Hh, Houts).
  split_and!.
  - split; [exact Hok2 | apply Hc1 | etrans; [apply delete_subseteq | apply Hc1] | |].
    + intros h Hs Hg. cbn [pool set_pool called] in Hg. apply lookup_delete_None in Hg as [<- | Hg]; [by left |]. by apply Hw, (ct_from _ _ _ Hc1).
    + intros h d1 h' d' op Hd1 Hg Hd' Hop Hin. cbn [pool set_pool called] in Hg, Hd'. apply lookup_delete_Some in Hd' as [Hne Hd'].
      apply lookup_delete_None in Hg as [<- | Hg]; [| by eapply (ct_closed _ _ _ Hc1); eauto].
      assert (d1 = d) as -> by (pose proof (lookup_weaken _ _ _ _ Hd (ct_sub _ _ _ Hc1)); congruence).
      rewrite Hoo in Hop. specialize (Hun1 op Hop).
      assert (outpoints mp1 !! op = Some (Tx d')); [| congruence]. apply (po_spent _ Hok1).
      destruct (po_known _ Hok1 _ _ Hd') as [Hh' _]. split; [done |]. exists d'. by rewrite Hh'.
  - cbn. apply lookup_delete_eq.
  - intros op Hop. cbn. rewrite foldl_delete_lookup. case_decide; [done | by apply Hun1].
Qed.

(** ** Whole methods *)

Lemma removeTransaction_cuts tx mp :
  pool_ok mp -> U tx ->
  exists mp', removeTransaction tx true mp = (Ok tt, mp') /\ cuts (descends (pool mp) tx) mp mp' /\
    pool mp' !! TxHash tx = None /\ unspent_outs tx mp'.
Proof.
  intros Hok Hu. unfold removeTransaction. rewrite (bind_Ok get _ mp mp mp) by done.
  apply removeTransaction_rec_spec; [done | done |]. pose proof (above_le (rank (TxHash tx)) (pool mp)). lia.
Qed.

(** A removal with redeemers removes the transaction and all that descends from it. *)
Lemma removeTransaction_closure tx mp :
  pool_ok mp -> U tx ->
  exists mp', removeTransaction tx true mp = (Ok tt, mp') /\ pool_ok mp' /\ side_part mp' = side_part mp /\
    forall h d, pool mp' !! h = Some d <-> pool mp !! h = Some d /\ ~ descends (pool mp) tx h.
Proof.
  intros Hok Hu. destruct (removeTransaction_cuts tx mp Hok Hu) as (mp' & Hr & Hc & Hg & Hun).
  exists mp'. split_and!; [done | apply Hc | apply Hc |]. intros h d. split.
  - intros Hd. split; [eapply lookup_weaken; [done | apply Hc] |]. intros [-> | (r & (dr & op & Hdr & Hop & Hin) & Hr2)]; [congruence |].
    assert (Hgr : pool mp' !! r = None).
    { apply eq_None_not_Some. intros [d' Hd']. pose proof (lookup_weaken _ _ _ _ Hd' (ct_sub _ _ _ Hc)) as Hx.
      assert (d' = dr) as -> by congruence. destruct (po_known _ Hok _ _ Hdr) as [Hh _].
      specialize (Hun op Hop). assert (outpoints mp' !! op = Some (Tx dr)); [| congruence].
      apply (po_spent _ (ct_ok _ _ _ Hc)). split; [done |]. exists dr. by rewrite Hh. }
    assert (pool mp' !! h = None); [| congruence]. clear Hd Hdr Hin.
    induction Hr2 as [r | r r1 h (d1 & d2 & op1 & Hd1 & Hd2 & Hop1 & Hin1) _ IH]; [done |]. apply IH.
    apply eq_None_not_Some. intros [d2' Hd2']. pose proof (lookup_weaken _ _ _ _ Hd2' (ct_sub _ _ _ Hc)) as Hx.
    assert (d2' = d2) as -> by congruence. exact (ct_closed _ _ _ Hc r d1 r1 d2 op1 Hd1 Hgr Hd2' Hop1 Hin1).
  - intros [Hd Hn]. destruct (pool mp' !! h) as [d' |] eqn:Hd'.
    + pose proof (lookup_weaken _ _ _ _ Hd' (ct_sub _ _ _ Hc)). congruence.
    + exfalso. apply Hn, (ct_from _ _ _ Hc); [by exists d | done].
Qed.

Lemma removeTransaction_one tx mp :
  pool_ok mp ->
  exists mp', removeTransaction tx false mp = (Ok tt, mp') /\ pool_ok mp' /\ side_part mp' = side_part mp /\
    pool mp' = delete (TxHash tx) (pool mp).
Proof.
  intros Hok. unfold removeTransaction. rewrite (bind_Ok get _ mp mp mp) by done. cbn [removeTransaction_rec].
  rewrite (bind_Ok (ret tt) _ mp tt mp), (bind_Ok get _ mp mp mp) by done. destruct (pool mp !! TxHash tx) as [d |] eqn:Hd.
  - unfold Now. erewrite bind_Ok by reflexivity. eexists. split; [reflexivity |]. split_and!; [| done | done].
    by apply (drop_desc_ok _ d _ (called mp)); [apply called_pool_ok |].
  - exists mp. split_and!; [done | done | done | by rewrite delete_id].
Qed.

(** The outpoints follow the transactions. *)
Lemma outpoints_sub mp mp' op t :
  pool_ok mp -> pool_ok mp' -> pool mp' ⊆ pool mp ->
  outpoints mp' !! op = Some t <-> outpoints mp !! op = Some t /\ is_Some (pool mp' !! TxHash t).
Proof.
  intros Hok Hok' Hs. rewrite (po_spent _ Hok'), (po_spent _ Hok). split.
  - intros (Hin & d & Hd & Ht). split; [| by exists d]. split; [done |]. exists d. split; [by eapply lookup_weaken | done].
  - intros [(Hin & d & Hd & Ht) [d' Hd']]. split; [done |]. exists d'. split; [done |].
    pose proof (lookup_weaken _ _ _ _ Hd' Hs). congruence.
Qed.

(** What spends an outpoint of the transaction, other than itself, is cut off. *)
Definition rivals (mp : TxPool) (tx : MsgTx) (h : bytes) : Prop :=
  exists op t, op ∈ inputs tx /\ outpoints mp !! op = Some t /\ TxHash t <> TxHash tx /\ descends (pool mp) t h.

Lemma RemoveDoubleSpends_cuts tx mp :
  pool_ok mp ->
  exists mp', RemoveDoubleSpends tx mp = (Ok tt, mp') /\ cuts (rivals mp tx) mp mp' /\
    forall op t, op ∈ inputs tx -> outpoints mp' !! op = Some t -> TxHash t = TxHash tx.
Proof.
  intros Hok. unfold RemoveDoubleSpends. set (body := fun txIn => bind get _).
  destruct (each_all body (cuts (rivals mp tx) mp)
    (fun ti m => forall t, outpoints m !! PreviousOutPoint ti = Some t -> TxHash t = TxHash tx) (TxIns tx) mp)
    as (mp' & Hr & Hc & Hall); [by apply cuts_refl | |].
  2: { exists mp'. split_and!; [done | done |]. intros op t Hop Ht. apply list_elem_of_fmap in Hop as (ti & -> & Hti). by eapply Hall; [left |]. }
  intros ti m Hti Hm. unfold body. rewrite (bind_Ok get _ m m m) by done. pose proof (ct_ok _ _ _ Hm) as Hokm.
  destruct (outpoints m !! PreviousOutPoint ti) as [t |] eqn:Ht; [| exists m; naive_solver].
  destruct (bool_decide_reflect (TxHash t = TxHash tx)) as [He | Hne]; cbn [negb]; [exists m; naive_solver |].
  destruct (spender _ _ _ Hokm Ht) as (Hin & Hut & _ & d & Hd & Htx).
  destruct (removeTransaction_cuts t m Hokm Hut) as (m' & Hr & Hc & Hg & _). exists m'. split_and!; [done | | |].
  - eapply cuts_trans; [exact Hm | exact Hc | done |]. intros h Hh. exists (PreviousOutPoint ti), t. split_and!; [| | done |].
    + by apply list_elem_of_fmap_2.
    + apply (po_spent _ Hok). split; [done |]. exists d. split; [eapply lookup_weaken; [done | apply Hm] | done].
    + eapply descends_mono; [apply Hm | done].
  - intros t' Ht'. apply (po_spent _ (ct_ok _ _ _ Hc)) in Ht' as (Hin' & d' & Hd' & Htx').
    assert (outpoints m !! PreviousOutPoint ti = Some t').
    { apply (po_spent _ Hokm). split; [done |]. exists d'. split; [eapply lookup_weaken; [done | apply Hc] | done]. }
    congruence.
  - intros ti' Hk t' Ht'. apply (po_spent _ (ct_ok _ _ _ Hc)) in Ht' as (Hin' & d' & Hd' & Htx'). apply (Hk t').
    apply (po_spent _ Hokm). split; [done |]. exists d'. split; [eapply lookup_weaken; [done | apply Hc] | done].
Qed.

(** ** A new transaction *)

Lemma insert_tx_ok txD now mp :
  pool_ok mp -> U (Tx txD) -> pool mp !! TxHash (Tx txD) = None -> (forall op, op ∈ inputs (Tx txD) -> outpoints mp !! op = None) ->
  pool_ok (set_pool now (<[TxHash (Tx txD) := txD]> (pool mp))
             (foldl (fun m ti => <[PreviousOutPoint ti := Tx txD]> m) (outpoints mp) (TxIns (Tx txD))) mp).
Proof.
  intros Hok Hu Hnew Hfree. set (tx := Tx txD) in *. split; cbn [pool outpoints set_pool].
  - intros h d Hd. apply lookup_insert_Some in Hd as [[<- <-] | [_ Hd]]; [done | by apply (po_known _ Hok)].
  - intros op t. rewrite foldl_insert_lookup. fold (inputs tx). case_decide as Hc.
    + split; [intros [= <-]; split; [done |]; exists txD; by rewrite lookup_insert_eq |].
      intros (Hin & d & Hd & Ht). apply lookup_insert_Some in Hd as [[_ <-] | [_ Hd]]; [by rewrite <- Ht |].
      specialize (Hfree op Hc). assert (outpoints mp !! op = Some t); [| congruence]. apply (po_spent _ Hok). split; [done | by exists d].
    + rewrite (po_spent _ Hok). split; intros (Hin & d & Hd & Ht); (split; [done |]; exists d; split; [| done]).
      * rewrite lookup_insert_ne; [done |]. intros Heq. congruence.
      * apply lookup_insert_Some in Hd as [[_ <-] | [_ Hd]]; [| done]. by rewrite <- Ht in Hin.
Qed.
End Pool.
