(* ===== verification/Replacement.v ===== *)
(** Replacement in the memory pool: which transactions signal that they can be
    replaced, the ancestors and descendants of a transaction, and the conditions
    under which a transaction replaces the ones it conflicts with.

    The recursions of the code share a cache of the answers so far.  The reference
    definitions are inductive: [signals], [ancestor] and the [descends] of
    PoolRemoval; a cache is right when it agrees with them. *)

From stdpp Require Import gmap relations.
From S2P Require Import Prelude Slices ScriptError WireCommon MsgTx MsgBlock Crypto BtcUtil Difficulty SigCache TxRules UtxoView ScriptVal Connect Float64 Policy Mempool OrphanPool PoolRemoval.
#[local] Open Scope Z_scope.

(** It signals itself, or one of its unconfirmed ancestors does. *)
Inductive signals (p : gmap bytes TxDesc) : MsgTx -> Prop :=
| signals_own tx ti : ti ∈ TxIns tx -> Sequence ti <= MaxRBFSequence -> signals p tx
| signals_inherited tx ti d :
    ti ∈ TxIns tx -> p !! Hash (PreviousOutPoint ti) = Some d -> signals p (Tx d) -> signals p tx.

(** The hashes of the unconfirmed ancestors. *)
Inductive ancestor (p : gmap bytes TxDesc) : MsgTx -> bytes -> Prop :=
| ancestor_parent tx op d : op ∈ inputs tx -> p !! Hash op = Some d -> ancestor p tx (Hash op)
| ancestor_more tx op d h : op ∈ inputs tx -> p !! Hash op = Some d -> ancestor p (Tx d) h -> ancestor p tx h.

Section Replacement.
Context `{Crypto} `{MapOrder} `{World}.
Context (U : MsgTx -> Prop) (rank : bytes -> nat) (HU : universe U rank).

(** ** Going down the ranks *)

Definition below (r : nat) (p : gmap bytes TxDesc) : nat := size (filter (fun '(h, _) => (rank h < r)%nat) p).

Lemma below_le r p : (below r p <= size p)%nat.
Proof. apply map_subseteq_size, map_filter_subseteq. Qed.

Lemma below_lt r h d p : p !! h = Some d -> (rank h < r)%nat -> (below (rank h) p < below r p)%nat.
Proof.
  intros Hd Hr. apply map_subset_size. apply map_subset_alt. split.
  - apply map_subseteq_spec. intros h' d' Hd'. apply map_lookup_filter_Some in Hd' as [Hd' Hl].
    apply map_lookup_filter_Some. split; [done | lia].
  - exists h. split; [apply map_lookup_filter_None; right; intros ? _; lia |].
    exists d. by apply map_lookup_filter_Some.
Qed.

Context (p : gmap bytes TxDesc) (Hp : forall h d, p !! h = Some d -> TxHash (Tx d) = h /\ U (Tx d)).

(** A parent in the pool has a smaller rank. *)
Lemma parent_below tx op d :
  U tx -> op ∈ inputs tx -> p !! Hash op = Some d ->
  U (Tx d) /\ TxHash (Tx d) = Hash op /\ (below (rank (TxHash (Tx d))) p < below (rank (TxHash tx)) p)%nat.
Proof.
  intros Hu Hin Hd. destruct (Hp _ _ Hd) as [Hh Hud]. split_and!; [done | done |]. rewrite Hh.
  eapply below_lt; [done |]. by apply (u_rank _ _ HU).
Qed.

(** ** Signals *)

Definition quiet_cache (cache : gset bytes) : Prop := forall h d, h ∈ cache -> p !! h = Some d -> ~ signals p (Tx d).

Definition some_signal (ins : list TxIn) : Prop :=
  exists ti, ti ∈ ins /\ (Sequence ti <= MaxRBFSequence \/
    exists d, p !! Hash (PreviousOutPoint ti) = Some d /\ signals p (Tx d)).

Lemma some_signal_cons ti ins :
  some_signal (ti :: ins) <-> (Sequence ti <= MaxRBFSequence \/
    exists d, p !! Hash (PreviousOutPoint ti) = Some d /\ signals p (Tx d)) \/ some_signal ins.
Proof. unfold some_signal. setoid_rewrite elem_of_cons. naive_solver. Qed.

Lemma signals_some tx : signals p tx <-> some_signal (TxIns tx).
Proof.
  split.
  { intros [tx' ti Hin Hs | tx' ti d Hin Hd Hs]; exists ti; (split; [done |]); [by left | right; by exists d]. }
  intros (ti & Hin & [Hs | (d & Hd & Hs)]).
  - by eapply signals_own.
  - by eapply signals_inherited.
Qed.

Lemma signals_loop_spec visit ins : forall cache,
  quiet_cache cache ->
  (forall ti d cache, ti ∈ ins -> p !! Hash (PreviousOutPoint ti) = Some d -> quiet_cache cache ->
     exists b cache', visit (Tx d) cache = Ok (b, cache') /\ (b = true <-> signals p (Tx d)) /\ quiet_cache cache') ->
  exists b cache', signals_loop visit p ins cache = Ok (b, cache') /\ (b = true <-> some_signal ins) /\ quiet_cache cache'.
Proof.
  induction ins as [| ti ins IH]; intros cache Hc Hv; cbn [signals_loop].
  { exists false, cache. split_and!; [done | | done]. split; [done |]. intros (ti & Hin & _). by apply elem_of_nil in Hin. }
  setoid_rewrite some_signal_cons.
  assert (Hv' : forall ti d cache, ti ∈ ins -> p !! Hash (PreviousOutPoint ti) = Some d -> quiet_cache cache ->
     exists b cache', visit (Tx d) cache = Ok (b, cache') /\ (b = true <-> signals p (Tx d)) /\ quiet_cache cache')
    by (intros ti2 **; apply Hv with ti2; [by constructor | done | done]).
  destruct (Z.leb_spec (Sequence ti) MaxRBFSequence) as [Hs | Hs]; [exists true, cache; naive_solver |].
  destruct (p !! Hash (PreviousOutPoint ti)) as [d |] eqn:Hd.
  2: { destruct (IH cache Hc Hv') as (b & cache' & Hr & Hb & Hc'). exists b, cache'. split_and!; [done | | done].
       rewrite Hb. split; [by right |]. intros [[? | (? & ? & _)] | ?]; [lia | done | done]. }
  destruct (bool_decide_reflect (Hash (PreviousOutPoint ti) ∈ cache)) as [Hin | Hin].
  { destruct (IH cache Hc Hv') as (b & cache' & Hr & Hb & Hc'). exists b, cache'. split_and!; [done | | done].
    rewrite Hb. split; [by right |]. intros [[? | (d' & [= <-] & Hsig)] | ?]; [lia | | done]. by apply (Hc _ _ Hin Hd) in Hsig. }
  destruct (Hv ti d cache) as (b1 & c1 & Hr1 & Hb1 & Hc1); [constructor | done | done |]. rewrite Hr1. cbn [obind fst snd].
  destruct b1; [exists true, c1; naive_solver |].
  destruct (IH ({[Hash (PreviousOutPoint ti)]} ∪ c1)) as (b & cache' & Hr & Hb & Hc'); [| done |].
  - intros h d' [->%elem_of_singleton | Hh]%elem_of_union Hd'; [| by apply Hc1 with h]. assert (d' = d) as -> by congruence. naive_solver.
  - exists b, cache'. split_and!; [done | | done]. rewrite Hb. split; [by right |].
    intros [[? | (d' & [= <-] & Hsig)] | ?]; [lia | naive_solver | done].
Qed.

Lemma signals_rec_spec fuel : forall tx cache,
  U tx -> (below (rank (TxHash tx)) p < fuel)%nat -> quiet_cache cache ->
  exists b cache', signalsReplacement_rec fuel p tx cache = Ok (b, cache') /\ (b = true <-> signals p tx) /\ quiet_cache cache'.
Proof.
  induction fuel as [| fuel IH]; intros tx cache Hu Hf Hc; [lia |]. cbn [signalsReplacement_rec]. setoid_rewrite signals_some.
  apply signals_loop_spec; [done |]. intros ti d c Hti Hd Hc1.
  destruct (parent_below tx (PreviousOutPoint ti) d) as (Hud & _ & Hlt); [done | by apply list_elem_of_fmap_2 | done |].
  apply IH; [done | lia | done].
Qed.

(** ** Families *)

(** A map from hashes to the transactions of the pool that have them. *)
Definition family_is (F : gmap bytes MsgTx) (P : bytes -> Prop) : Prop :=
  forall h t, F !! h = Some t <-> P h /\ exists d, p !! h = Some d /\ Tx d = t.

Lemma family_hash F P h t : family_is F P -> F !! h = Some t -> TxHash t = h.
Proof. intros Hf Ht. apply Hf in Ht as (_ & d & Hd & <-). by apply Hp. Qed.

Lemma family_empty : family_is ∅ (fun _ => False).
Proof using p. intros h t. rewrite lookup_empty. split; [done | by intros [[] _]]. Qed.

Lemma family_union F1 F2 P1 P2 : family_is F1 P1 -> family_is F2 P2 -> family_is (F1 ∪ F2) (fun h => P1 h \/ P2 h).
Proof using p.
  intros Hf1 Hf2 h t. rewrite lookup_union_Some_raw, (Hf1 h t), (Hf2 h t). split.
  - intros [[Hh Hd] | [_ [Hh Hd]]]; (split; [| done]); [by left | by right].
  - intros [[Hh | Hh] Hd]; [by left |]. destruct (F1 !! h) as [t1 |] eqn:Ht1; [| by right].
    left. apply Hf1 in Ht1 as (Hh1 & d1 & Hd1 & Ht1). split; [done | exact Hd].
Qed.

Lemma family_insert F P d : family_is F P -> p !! TxHash (Tx d) = Some d ->
  family_is (<[TxHash (Tx d) := Tx d]> F) (fun h => h = TxHash (Tx d) \/ P h).
Proof.
  intros Hf Hd h t. rewrite lookup_insert_Some, (Hf h t). split.
  - intros [[<- <-] | [_ [Hh Ht]]]; [split; [by left | by exists d] | by split; [right |]].
  - intros [[-> | Hh] (d' & Hd' & Ht)]; [left; split; [done | congruence] |].
    destruct (decide (TxHash (Tx d) = h)) as [He | Hne]; [left; split; [done | congruence] | right; naive_solver].
Qed.

Lemma family_iff F P Q : family_is F P -> (forall h, is_Some (p !! h) -> P h <-> Q h) -> family_is F Q.
Proof using p. intros Hf He h t. rewrite (Hf h t). split; intros (Hh & d & Hd & Ht); (split; [by apply He; [by exists d |] | by exists d]). Qed.

Lemma family_unique F F' P : family_is F P -> family_is F' P -> F = F'.
Proof using p. intros Hf Hf'. apply map_eq. intros h. apply option_eq. intros t. by rewrite (Hf h t), (Hf' h t). Qed.

Lemma store_all_union more into : (forall h t, more !! h = Some t -> TxHash t = h) -> store_all more into = more ∪ into.
Proof.
  intros Hm. unfold store_all. rewrite <- (list_to_map_to_list more) at 2.
  assert (Hl : Forall (fun q => TxHash q.2 = q.1) (map_to_list more)).
  { apply Forall_forall. intros [h t] Hin. by apply Hm, elem_of_map_to_list. }
  induction (map_to_list more) as [| [h t] l IH]; cbn [fmap list_fmap foldr list_to_map]; [by rewrite (left_id_L ∅ (∪)) |].
  apply Forall_cons in Hl as [Hh Hl]. cbn [fst snd] in *. rewrite <- insert_union_l, <- IH by done. by rewrite Hh.
Qed.

(** ** Memoized calls *)

Section Memo.
Context (R : MsgTx -> bytes -> Prop).

Definition right_cache (cache : gmap bytes (gmap bytes MsgTx)) : Prop :=
  forall h F d, cache !! h = Some F -> p !! h = Some d -> family_is F (R (Tx d)).

Definition visits (visit : MsgTx -> gmap bytes (gmap bytes MsgTx) -> pooled (gmap bytes MsgTx * gmap bytes (gmap bytes MsgTx)))
    (t : MsgTx) : Prop :=
  forall cache, right_cache cache ->
  exists F cache', visit t cache = Ok (F, cache') /\ family_is F (R t) /\ right_cache cache'.

Lemma memoized_visits visit d : p !! TxHash (Tx d) = Some d -> visits visit (Tx d) -> visits (memoized visit) (Tx d).
Proof.
  intros Hd Hv cache Hc. unfold memoized. destruct (cache !! TxHash (Tx d)) as [F |] eqn:Hm.
  - exists F, cache. split_and!; [done | by eapply Hc | done].
  - destruct (Hv cache Hc) as (F & c' & Hr & Hf & Hc'). rewrite Hr. cbn [obind fst snd]. eexists _, _. split_and!; [done | done |].
    intros h F' d' HF' Hd'. apply lookup_insert_Some in HF' as [[<- <-] | [_ HF']]; [| by eapply Hc'].
    assert (d' = d) as -> by congruence. done.
Qed.

Lemma right_cache_empty : right_cache ∅.
Proof. intros h F d HF. by rewrite lookup_empty in HF. Qed.
End Memo.

(** ** Ancestors *)

Abbreviation family := (gmap bytes MsgTx).

Definition parents_of (ops : list OutPoint) (h : bytes) : Prop :=
  exists op d, op ∈ ops /\ p !! Hash op = Some d /\ (h = Hash op \/ ancestor p (Tx d) h).

Lemma ancestor_parents tx h : ancestor p tx h <-> parents_of (inputs tx) h.
Proof.
  split; [intros [tx' op d Hin Hd | tx' op d h' Hin Hd Ha]; exists op, d; naive_solver |].
  intros (op & d & Hin & Hd & [-> | Ha]); [by eapply ancestor_parent | by eapply ancestor_more].
Qed.

Lemma ancestors_loop_spec visit ins : forall anc cache P,
  family_is anc P -> right_cache (ancestor p) cache ->
  (forall ti d, ti ∈ ins -> p !! Hash (PreviousOutPoint ti) = Some d -> visits (ancestor p) visit (Tx d)) ->
  exists F cache', ancestors_loop visit p ins anc cache = Ok (F, cache') /\
    family_is F (fun h => P h \/ parents_of (PreviousOutPoint <$> ins) h) /\ right_cache (ancestor p) cache'.
Proof.
  induction ins as [| ti ins IH]; intros anc cache P Hf Hc Hv; cbn [ancestors_loop].
  { exists anc, cache. split_and!; [done | | done]. eapply family_iff; [exact Hf |]. intros h _.
    split; [by left |]. intros [? | (op & d & Hin & _)]; [done | by apply elem_of_nil in Hin]. }
  assert (Hv' : forall ti d, ti ∈ ins -> p !! Hash (PreviousOutPoint ti) = Some d -> visits (ancestor p) visit (Tx d))
    by (intros ti2 d2 Hin; apply Hv; by constructor).
  destruct (p !! Hash (PreviousOutPoint ti)) as [d |] eqn:Hd.
  2: { destruct (IH anc cache P Hf Hc Hv') as (F & c' & Hr & HF & Hc'). exists F, c'. split_and!; [done | | done].
       eapply family_iff; [exact HF |]. intros h _. apply or_iff_compat_l. cbn [fmap list_fmap].
       split; intros (op & d & Hin & Hd' & Hh); exists op, d; (split_and!; [| done | done]); [by constructor |].
       apply elem_of_cons in Hin as [-> | Hin]; [congruence | done]. }
  destruct (Hp _ _ Hd) as [Hh _].
  destruct (memoized_visits (ancestor p) visit d) with cache as (F1 & c1 & Hr1 & HF1 & Hc1);
    [by rewrite Hh | apply Hv with ti; [constructor | done] | done |].
  rewrite Hr1. cbn [obind fst snd].
  assert (Hins : family_is (<[TxHash (Tx d) := Tx d]> anc) (fun h => h = TxHash (Tx d) \/ P h)) by (apply family_insert; [done | by rewrite Hh]).
  destruct (IH _ c1 _ (family_union _ _ _ _ HF1 Hins) Hc1 Hv') as (F & c' & Hr & HF & Hc'). exists F, c'. split_and!; [done | | done].
  eapply family_iff; [exact HF |]. intros h _. rewrite Hh. cbn [fmap list_fmap]. unfold parents_of. setoid_rewrite elem_of_cons. naive_solver.
Qed.

Lemma txAncestors_rec_spec fuel : forall tx,
  U tx -> (below (rank (TxHash tx)) p < fuel)%nat -> visits (ancestor p) (txAncestors_rec fuel p) tx.
Proof.
  induction fuel as [| fuel IH]; intros tx Hu Hf cache Hc; [lia |]. cbn [txAncestors_rec].
  destruct (ancestors_loop_spec (txAncestors_rec fuel p) (TxIns tx) ∅ cache (fun _ => False)) as (F & c' & Hr & HF & Hc');
    [apply family_empty | done | |].
  - intros ti d Hti Hd. destruct (parent_below tx (PreviousOutPoint ti) d) as (Hud & _ & Hlt); [done | by apply list_elem_of_fmap_2 | done |].
    apply IH; [done | lia].
  - exists F, c'. split_and!; [done | | done]. eapply family_iff; [exact HF |]. intros h _. rewrite ancestor_parents. unfold inputs. naive_solver.
Qed.
End Replacement.

Section Whole.
Context `{Crypto} `{MapOrder} `{World}.
Context (U : MsgTx -> Prop) (rank : bytes -> nat) (HU : universe U rank).

Lemma signalsReplacement_spec mp tx :
  pool_ok U mp -> U tx -> exists b, signalsReplacement mp tx = Ok b /\ (b = true <-> signals (pool mp) tx).
Proof.
  intros Hok Hu. unfold signalsReplacement.
  destruct (signals_rec_spec U rank HU (pool mp) (po_known _ _ Hok) (S (size (pool mp))) tx ∅) as (b & c & Hr & Hb & _);
    [done | pose proof (below_le rank (rank (TxHash tx)) (pool mp)); lia | by intros ? ? ?%elem_of_empty |].
  exists b. by rewrite Hr.
Qed.

Lemma txAncestors_spec mp tx :
  pool_ok U mp -> U tx -> exists F, txAncestors mp tx = Ok F /\ family_is (pool mp) F (ancestor (pool mp) tx).
Proof.
  intros Hok Hu. unfold txAncestors.
  destruct (txAncestors_rec_spec U rank HU (pool mp) (po_known _ _ Hok) (S (size (pool mp))) tx) with (∅ : gmap bytes (gmap bytes MsgTx)) as (F & c & Hr & HF & _);
    [done | pose proof (below_le rank (rank (TxHash tx)) (pool mp)); lia | apply right_cache_empty |].
  exists F. by rewrite Hr.
Qed.

(** ** Descendants *)

Section Descendants.
Context (mp : TxPool) (Hok : pool_ok U mp).
Abbreviation family := (gmap bytes MsgTx).
Abbreviation below_tx := (descends_strictly (pool mp)).

Definition children_of (ops : list OutPoint) (h : bytes) : Prop :=
  exists op t, op ∈ ops /\ outpoints mp !! op = Some t /\ descends (pool mp) t h.

Lemma children_nil h : ~ children_of [] h.
Proof. intros (op & t & Hin & _). by apply elem_of_nil in Hin. Qed.

Lemma children_cons_None op ops h : outpoints mp !! op = None -> children_of (op :: ops) h <-> children_of ops h.
Proof.
  intros Hn. unfold children_of. split; intros (op2 & t2 & Hin & Ht & Hh); exists op2, t2; (split_and!; [| done | done]).
  - apply elem_of_cons in Hin as [-> | Hin]; [congruence | done].
  - by constructor.
Qed.

Lemma children_cons_Some op t ops h : outpoints mp !! op = Some t ->
  children_of (op :: ops) h <-> (h = TxHash t \/ below_tx t h) \/ children_of ops h.
Proof.
  intros Hs. change (h = TxHash t \/ below_tx t h) with (descends (pool mp) t h). split.
  - intros (op2 & t2 & Hin & Ht & Hh). apply elem_of_cons in Hin as [-> | Hin]; [left; congruence | right; by exists op2, t2].
  - intros [Hh | (op2 & t2 & Hin & Ht & Hh)]; [exists op, t | exists op2, t2]; (split_and!; [by constructor | done | done]).
Qed.

Lemma children_descend tx h : is_Some (pool mp !! h) -> children_of (outs_of tx) h <-> below_tx tx h.
Proof.
  intros Hh. split.
  - intros (op & t & Hop & Ht & Hd). apply (po_spent _ _ Hok) in Ht as (Hin & d & Hpd & Htx). by eapply descends_step.
  - intros (r & (d & op & Hd & Hop & Hin) & Hc). destruct (po_known _ _ Hok _ _ Hd) as [Hr _]. exists op, (Tx d). split_and!; [done | |].
    + apply (po_spent _ _ Hok). split; [done |]. exists d. by rewrite Hr.
    + apply rtc_inv in Hc as [<- | (r1 & (d0 & d1 & op1 & Hd0 & Hd1 & Hop1 & Hin1) & Hc)]; [by left |]. right. exists r1.
      assert (d0 = d) as -> by congruence. split; [by exists d1, op1 | done].
Qed.

Lemma descendants_loop_spec visit ops : forall F0 cache P,
  family_is (pool mp) F0 P -> right_cache (pool mp) below_tx cache ->
  (forall op t, op ∈ ops -> outpoints mp !! op = Some t -> visits (pool mp) below_tx visit t) ->
  exists F cache', descendants_loop visit (outpoints mp) ops F0 cache = Ok (F, cache') /\
    family_is (pool mp) F (fun h => P h \/ children_of ops h) /\ right_cache (pool mp) below_tx cache'.
Proof.
  induction ops as [| op ops IH]; intros F0 cache P Hf Hc Hv; cbn [descendants_loop].
  { exists F0, cache. split_and!; [done | | done]. eapply family_iff; [exact Hf |]. intros h _.
    split; [by left |]. intros [? | []%children_nil]; done. }
  assert (Hv' : forall op t, op ∈ ops -> outpoints mp !! op = Some t -> visits (pool mp) below_tx visit t)
    by (intros op2 t2 Hin; apply Hv; by constructor).
  destruct (outpoints mp !! op) as [t |] eqn:Ht.
  2: { destruct (IH F0 cache P Hf Hc Hv') as (F & c' & Hr & HF & Hc'). exists F, c'. split_and!; [done | | done].
       eapply family_iff; [exact HF |]. intros h _. by rewrite children_cons_None. }
  pose proof Ht as (Hin & d & Hd & Htx)%(po_spent _ _ Hok).
  destruct (memoized_visits (pool mp) below_tx visit d) with cache as (F1 & c1 & Hr1 & HF1 & Hc1);
    [by rewrite Htx | rewrite Htx; apply Hv with op; [constructor | done] | done |].
  rewrite Htx in Hr1, HF1. rewrite Hr1. cbn [obind fst snd].
  rewrite store_all_union by (intros h t'; apply (family_hash U (pool mp) (po_known _ _ Hok) _ _ _ _ HF1)).
  assert (Hins : family_is (pool mp) (<[TxHash t := t]> F0) (fun h => h = TxHash t \/ P h)).
  { rewrite <- Htx. apply (family_insert U (pool mp) (po_known _ _ Hok)); [done | by rewrite Htx]. }
  destruct (IH _ c1 _ (family_union (pool mp) _ _ _ _ HF1 Hins) Hc1 Hv') as (F & c' & Hr & HF & Hc'). exists F, c'. split_and!; [done | | done].
  eapply family_iff; [exact HF |]. intros h _. rewrite (children_cons_Some _ _ _ _ Ht). tauto.
Qed.

Lemma txDescendants_rec_spec fuel : forall tx,
  (above rank (rank (TxHash tx)) (pool mp) < fuel)%nat ->
  visits (pool mp) below_tx (txDescendants_rec fuel (outpoints mp)) tx.
Proof.
  induction fuel as [| fuel IH]; intros tx Hf cache Hc; [lia |]. cbn [txDescendants_rec].
  destruct (descendants_loop_spec (txDescendants_rec fuel (outpoints mp)) (outs_of tx) ∅ cache (fun _ => False)) as (F & c' & Hr & HF & Hc');
    [apply family_empty | done | |].
  - intros op t Hop Ht. destruct (spender _ _ HU _ _ _ Hok Ht) as (Hin & Hut & Hrk & d & Hd & Htx). rewrite (outs_of_hash _ _ Hop) in Hrk.
    apply IH. pose proof (above_lt rank _ _ _ _ Hd Hrk). lia.
  - exists F, c'. split_and!; [done | | done]. eapply family_iff; [exact HF |]. intros h Hh. rewrite <- children_descend by done. tauto.
Qed.

Lemma txDescendants_spec tx : exists F, txDescendants mp tx = Ok F /\ family_is (pool mp) F (below_tx tx).
Proof.
  unfold txDescendants.
  destruct (txDescendants_rec_spec (S (size (pool mp))) tx) with (∅ : gmap bytes (gmap bytes MsgTx)) as (F & c & Hr & HF & _);
    [pose proof (above_le rank (rank (TxHash tx)) (pool mp)); lia | apply right_cache_empty |].
  exists F. by rewrite Hr.
Qed.

(** What spends the same outpoints, and what descends from it. *)
Definition conflict (tx : MsgTx) : bytes -> Prop := children_of (inputs tx).

Lemma conflicts_loop_spec ins : forall F0 P,
  family_is (pool mp) F0 P ->
  exists F, conflicts_loop mp ins F0 = Ok F /\ family_is (pool mp) F (fun h => P h \/ children_of (PreviousOutPoint <$> ins) h).
Proof.
  induction ins as [| ti ins IH]; intros F0 P Hf; cbn [conflicts_loop fmap list_fmap].
  { exists F0. split; [done |]. eapply family_iff; [exact Hf |]. intros h _.
    split; [by left |]. intros [? | []%children_nil]; done. }
  destruct (outpoints mp !! PreviousOutPoint ti) as [t |] eqn:Ht.
  2: { destruct (IH F0 P Hf) as (F & Hr & HF). exists F. split; [done |].
       eapply family_iff; [exact HF |]. intros h _. by rewrite children_cons_None. }
  pose proof Ht as (Hin & d & Hd & Htx)%(po_spent _ _ Hok).
  destruct (txDescendants_spec t) as (F1 & Hr1 & HF1). rewrite Hr1. cbn [obind].
  assert (Hins : family_is (pool mp) (<[TxHash t := t]> F0) (fun h => h = TxHash t \/ P h)).
  { rewrite <- Htx. apply (family_insert U (pool mp) (po_known _ _ Hok)); [done | by rewrite Htx]. }
  destruct (IH _ _ (family_union (pool mp) _ _ _ _ HF1 Hins)) as (F & Hr & HF). exists F. split; [done |].
  eapply family_iff; [exact HF |]. intros h _. rewrite (children_cons_Some _ _ _ _ Ht). tauto.
Qed.

Lemma txConflicts_spec tx : exists F, txConflicts mp tx = Ok F /\ family_is (pool mp) F (conflict tx).
Proof.
  destruct (conflicts_loop_spec (TxIns tx) ∅ _ (family_empty _)) as (F & Hr & HF). exists F. split; [done |].
  eapply family_iff; [exact HF |]. intros h _. unfold conflict, inputs. tauto.
Qed.
End Descendants.

(** ** The conditions of a replacement *)

Definition fee_of (p : gmap bytes TxDesc) (q : bytes * MsgTx) : Z := match p !! q.1 with Some d => Fee d | None => 0 end.

Definition total_fee (p : gmap bytes TxDesc) (F : gmap bytes MsgTx) : Z := zsum (fee_of p) (map_to_list F).

Definition fees_ok (p : gmap bytes TxDesc) : Prop := forall h d, p !! h = Some d -> amount_ok (Fee d).

(** All conflicts go, they are few, none of them is an ancestor, each pays a lower
    rate, together they pay less by the relay fee of the transaction, and no
    unconfirmed input is new. *)
Record replaces (cfg : Config) (mp : TxPool) (tx : MsgTx) (txFee : Z) (F : gmap bytes MsgTx) : Prop := {
  rp_conflicts : family_is (pool mp) F (conflict mp tx);
  rp_few : Z.of_nat (size F) <= MaxReplacementEvictions;
  rp_apart : forall h, is_Some (F !! h) -> ~ ancestor (pool mp) tx h;
  rp_rate : forall h d, is_Some (F !! h) -> pool mp !! h = Some d ->
    FeePerKB d < Z.quot (txFee * 1000) (GetTxVirtualSize tx);
  rp_fee : total_fee (pool mp) F + calcMinRequiredTxRelayFee (GetTxVirtualSize tx) (MinRelayTxFee (policy cfg)) <= txFee;
  rp_parents : forall op, op ∈ inputs tx -> is_Some (pool mp !! Hash op) ->
    exists h t op', F !! h = Some t /\ op' ∈ inputs t /\ Hash op' = Hash op;
}.

Lemma relay_fee_ok size fee : amount_ok (calcMinRequiredTxRelayFee size fee).
Proof.
  unfold calcMinRequiredTxRelayFee, amount_ok. assert (0 < MaxSatoshi) by reflexivity.
  match goal with |- context [if (?a <? 0) || _ then _ else _] => generalize a; intros m end.
  destruct (Z.ltb_spec m 0); cbn [orb]; [lia |]. rewrite Z.gtb_ltb. destruct (Z.ltb_spec MaxSatoshi m); lia.
Qed.

Definition known_family (p : gmap bytes TxDesc) (l : list (bytes * MsgTx)) : Prop := Forall (fun q => is_Some (p !! q.1)) l.

Lemma fee_sum_bounds p l : fees_ok p -> known_family p l -> 0 <= zsum (fee_of p) l <= zlen l * MaxSatoshi.
Proof.
  intros Hf. unfold zlen. induction l as [| q l IH]; intros Hl; [cbn; lia |]. apply Forall_cons in Hl as [[d Hd] Hl].
  rewrite zsum_cons. specialize (IH Hl). assert (fee_of p q = Fee d) as -> by (unfold fee_of; by rewrite Hd).
  specialize (Hf _ _ Hd). unfold amount_ok in Hf. cbn [length]. lia.
Qed.

Lemma conflict_fees_spec p rate l : forall fee parents,
  fees_ok p -> known_family p l -> 0 <= fee -> fee + zlen l * MaxSatoshi < 2 ^ 62 ->
  conflict_fees p rate l fee parents =
  if forallb (fun q => match p !! q.1 with Some d => FeePerKB d <? rate | None => true end) l
  then Ok (fee + zsum (fee_of p) l, foldl (fun s q => s ∪ list_to_set (Hash <$> inputs q.2)) parents l)
  else reject RejectInsufficientFee.
Proof.
  induction l as [| [h t] l IH]; intros fee parents Hf Hl H0f Hb; cbn [conflict_fees forallb foldl].
  { cbn. by rewrite Z.add_0_r. }
  apply Forall_cons in Hl as [[d Hd] Hl]. cbn [fst snd] in *. rewrite Hd. pose proof (Hf _ _ Hd) as Hfd. unfold amount_ok in Hfd.
  unfold zlen in *. cbn [length] in Hb. assert (0 < MaxSatoshi) by reflexivity.
  destruct (Z.leb_spec rate (FeePerKB d)) as [Hle | Hlt]; cbn [reject_if obind].
  { destruct (Z.ltb_spec (FeePerKB d) rate); [lia | done]. }
  destruct (Z.ltb_spec (FeePerKB d) rate); [| lia]. cbn [andb]. rewrite int64_small by lia. rewrite IH by (done || lia).
  destruct (forallb _ l); [| done]. do 2 f_equal.
  - rewrite zsum_cons. assert (fee_of p (h, t) = Fee d) as -> by (unfold fee_of; cbn; by rewrite Hd). lia.
  - unfold inputs. by rewrite <- list_fmap_compose.
Qed.

Lemma no_new_parents_spec p parents ins :
  no_new_parents p parents ins =
  if decide (Forall (fun ti => Hash (PreviousOutPoint ti) ∈ parents \/ p !! Hash (PreviousOutPoint ti) = None) ins)
  then Ok tt else reject RejectInvalid.
Proof.
  induction ins as [| ti ins IH]; cbn [no_new_parents]; [done |]. rewrite IH. clear IH.
  assert (Hstep : Hash (PreviousOutPoint ti) ∈ parents \/ p !! Hash (PreviousOutPoint ti) = None ->
    (if decide (Forall (fun ti => Hash (PreviousOutPoint ti) ∈ parents \/ p !! Hash (PreviousOutPoint ti) = None) ins)
     then Ok tt else reject RejectInvalid) =
    (if decide (Forall (fun ti => Hash (PreviousOutPoint ti) ∈ parents \/ p !! Hash (PreviousOutPoint ti) = None) (ti :: ins))
     then Ok tt else (reject RejectInvalid : pooled unit))).
  { intros Hti. destruct (decide (Forall _ ins)) as [Hf | Hf].
    - rewrite decide_True; [done | by constructor].
    - rewrite decide_False; [done | rewrite Forall_cons; tauto]. }
  destruct (bool_decide_reflect (Hash (PreviousOutPoint ti) ∈ parents)) as [Hin | Hin]; [by auto |].
  destruct (p !! Hash (PreviousOutPoint ti)) as [d |] eqn:Hd.
  - rewrite bool_decide_true by eauto. rewrite decide_False; [done |]. rewrite Forall_cons. intros [[? | ?] _]; congruence.
  - rewrite bool_decide_false by (intros [? ?]; congruence). by auto.
Qed.

Lemma parents_elem l : forall parents x,
  x ∈ foldl (fun (s : gset bytes) q => s ∪ list_to_set (Hash <$> inputs (q : bytes * MsgTx).2)) parents l <->
  x ∈ parents \/ exists q op, q ∈ l /\ op ∈ inputs q.2 /\ Hash op = x.
Proof.
  induction l as [| q l IH]; intros parents x; cbn [foldl].
  { split; [by left |]. intros [? | (q & op & Hq & _)]; [done | by apply elem_of_nil in Hq]. }
  rewrite IH, elem_of_union, elem_of_list_to_set, list_elem_of_fmap. setoid_rewrite elem_of_cons. naive_solver.
Qed.

Lemma zsum_perm {A} (f : A -> Z) l l' : l ≡ₚ l' -> zsum f l = zsum f l'.
Proof. induction 1; rewrite ?zsum_cons; lia. Qed.

Context `{!WorldLaws}.

Lemma meets_spec mp tx F A :
  family_is (pool mp) F (conflict mp tx) -> family_is (pool mp) A (ancestor (pool mp) tx) ->
  meets A F = false <-> forall h, is_Some (F !! h) -> ~ ancestor (pool mp) tx h.
Proof.
  intros HF HA. unfold meets. rewrite existsb_false, Forall_forall. setoid_rewrite bool_decide_eq_false. split.
  - intros Hall h [t Ht] Ha. apply (Hall h); [| by exists t]. pose proof Ht as (_ & d & Hd & Htx)%HF.
    apply list_elem_of_fmap. exists (h, t). split; [done |]. apply elem_of_map_to_list, HA. split; [done | by exists d].
  - intros Hall h Hh Hs. apply list_elem_of_fmap in Hh as ([h' t] & -> & Ht).
    apply elem_of_map_to_list, HA in Ht as [Ha _]. by eapply Hall.
Qed.

(** The order in which the conflicts are met. *)
Section Order.
Context (mp : TxPool) (F : gmap bytes MsgTx) (order : list (bytes * MsgTx)) (Hord : order ≡ₚ map_to_list F).

Lemma order_elem h t : (h, t) ∈ order <-> F !! h = Some t.
Proof. rewrite Hord. apply elem_of_map_to_list. Qed.

Definition lower_rates (rate : Z) : bool :=
  forallb (fun q => match pool mp !! q.1 with Some d => FeePerKB d <? rate | None => true end) order.

Lemma lower_rates_spec rate :
  lower_rates rate = true <-> forall h d, is_Some (F !! h) -> pool mp !! h = Some d -> FeePerKB d < rate.
Proof.
  unfold lower_rates. rewrite forallb_forall. split.
  - intros Hall h d [t Ht] Hd. specialize (Hall (h, t)). cbn in Hall. rewrite Hd in Hall.
    apply Z.ltb_lt, Hall, list_elem_of_In. by apply order_elem.
  - intros Hall [h t] Hq. apply list_elem_of_In, order_elem in Hq. cbn. destruct (pool mp !! h) as [d |] eqn:Hd; [| done].
    apply Z.ltb_lt. eapply Hall; eauto.
Qed.

Definition all_parents : gset bytes := foldl (fun s q => s ∪ list_to_set (Hash <$> inputs q.2)) ∅ order.

Lemma all_parents_spec tx :
  no_new_parents (pool mp) all_parents (TxIns tx) = Ok tt <->
  forall op, op ∈ inputs tx -> is_Some (pool mp !! Hash op) -> exists h t op', F !! h = Some t /\ op' ∈ inputs t /\ Hash op' = Hash op.
Proof.
  rewrite no_new_parents_spec.
  transitivity (Forall (fun ti => Hash (PreviousOutPoint ti) ∈ all_parents \/ pool mp !! Hash (PreviousOutPoint ti) = None) (TxIns tx));
    [by case_decide |].
  unfold all_parents. rewrite Forall_forall. setoid_rewrite parents_elem. split.
  - intros Hall op Hop Hs. apply list_elem_of_fmap in Hop as (ti & -> & Hti).
    destruct (Hall ti Hti) as [[Hx | ([h t] & op' & Hq & Hop' & Hh)] | Hn]; [by apply elem_of_empty in Hx | | destruct Hs; congruence].
    exists h, t, op'. split_and!; [by apply order_elem | done | done].
  - intros Hall ti Hti. destruct (pool mp !! Hash (PreviousOutPoint ti)) as [d |] eqn:Hd; [left; right | by right].
    destruct (Hall (PreviousOutPoint ti)) as (h & t & op' & Hh & Hop' & Heq); [by apply list_elem_of_fmap_2 | by exists d |].
    exists (h, t), op'. split_and!; [by apply order_elem | done | done].
Qed.
End Order.

(** The fees of at most as many conflicts as are allowed, in any order. *)
Lemma conflict_fees_order mp tx F order rate :
  fees_ok (pool mp) -> family_is (pool mp) F (conflict mp tx) -> order ≡ₚ map_to_list F ->
  Z.of_nat (size F) <= MaxReplacementEvictions ->
  0 <= total_fee (pool mp) F <= 100 * MaxSatoshi /\
  conflict_fees (pool mp) rate order 0 ∅ =
    if lower_rates mp order rate then Ok (total_fee (pool mp) F, all_parents order) else reject RejectInsufficientFee.
Proof.
  intros Hfees HF Hord Hfew.
  assert (Hkn : known_family (pool mp) order).
  { apply Forall_forall. intros [h t] Hq. apply (order_elem _ _ Hord), HF in Hq as (_ & d & Hd & _). by exists d. }
  assert (Hlen : 0 <= zlen order <= 100).
  { unfold zlen. rewrite (Permutation_length Hord), length_map_to_list. unfold MaxReplacementEvictions in Hfew. lia. }
  pose proof (fee_sum_bounds _ _ Hfees Hkn) as Hsum. assert (0 < MaxSatoshi) by reflexivity.
  assert (MaxSatoshi * 100 < 2 ^ 62) by reflexivity.
  assert (total_fee (pool mp) F = zsum (fee_of (pool mp)) order) as -> by (symmetry; by apply zsum_perm).
  split; [nia |]. rewrite conflict_fees_spec; [done | done | done | lia | nia].
Qed.

Definition rejects (e : PoolError) : Prop := exists c, e = TxRuleError c.

(** A replacement passes exactly under the conditions, and says which transactions
    go; otherwise it is rejected. *)
Lemma validateReplacement_spec cfg mp tx txFee :
  pool_ok U mp -> fees_ok (pool mp) -> U tx -> amount_ok txFee -> 0 < GetTxVirtualSize tx ->
  exists o mp', validateReplacement cfg tx txFee mp = (o, mp') /\ (mp' = mp \/ mp' = called mp) /\
    (forall F, o = Ok F <-> replaces cfg mp tx txFee F) /\ o <> Panic /\ forall e, o = Err e -> rejects e.
Proof.
  intros Hok Hfees Hu Hfee Hv.
  destruct (txConflicts_spec mp Hok tx) as (F & HrF & HF). destruct (txAncestors_spec mp tx Hok Hu) as (A & HrA & HA).
  assert (Huniq : forall F', replaces cfg mp tx txFee F' -> F' = F) by (intros F' HF'; eapply family_unique; [apply HF' | done]).
  assert (Hno : forall e mp', (mp' = mp \/ mp' = called mp) -> rejects e -> ~ replaces cfg mp tx txFee F ->
    (mp' = mp \/ mp' = called mp) /\ (forall F', Err e = Ok F' <-> replaces cfg mp tx txFee F') /\ @Err PoolError (gmap bytes MsgTx) e <> Panic /\
    forall e', @Err PoolError (gmap bytes MsgTx) e = Err e' -> rejects e').
  { intros e mp' Hmp He Hn. split_and!; [done | | done | by intros e' [= <-]]. intros F'. split; [done |].
    intros HF'. by rewrite (Huniq F' HF') in HF'. }
  unfold validateReplacement. rewrite (bind_Ok get _ mp mp mp) by done. rewrite HrF, (bind_Ok (lift (Ok F)) _ mp F mp) by done.
  destruct (Z.of_nat (size F) >? MaxReplacementEvictions) eqn:Hfew.
  { eexists _, mp. split; [reflexivity |]. apply Hno; [by left | by eexists |]. intros [_ Hf _ _ _ _]. lia. }
  rewrite (bind_Ok (lift (reject_if false _)) _ mp tt mp), HrA, (bind_Ok (lift (Ok A)) _ mp A mp) by done.
  pose proof (meets_spec mp tx F A HF HA) as Hmeet. destruct (meets A F).
  { eexists _, mp. split; [reflexivity |]. apply Hno; [by left | by eexists |]. intros HR. by pose proof (proj2 Hmeet (rp_apart _ _ _ _ _ HR)). }
  rewrite (bind_Ok (lift (reject_if false _)) _ mp tt mp) by done.
  assert (Hms : MaxSatoshi * 1000 < 2 ^ 62) by reflexivity. assert (Hms2 : MaxSatoshi * 101 < 2 ^ 62) by reflexivity. unfold amount_ok in Hfee.
  assert (fee_rate txFee (GetTxVirtualSize tx) = Ok (Z.quot (txFee * 1000) (GetTxVirtualSize tx))) as ->.
  { unfold fee_rate. rewrite int64_small by lia. destruct (Z.eqb_spec (GetTxVirtualSize tx) 0); [lia | done]. }
  rewrite (bind_Ok (lift (Ok _)) _ mp (Z.quot (txFee * 1000) (GetTxVirtualSize tx)) mp) by done.
  unfold ordered at 1. erewrite bind_Ok by reflexivity. set (order := shuffle (calls mp) (map_to_list F)).
  assert (Hord : order ≡ₚ map_to_list F) by apply shuffle_perm.
  destruct (conflict_fees_order mp tx F order (Z.quot (txFee * 1000) (GetTxVirtualSize tx)) Hfees HF Hord) as [Hb Hcf]; [lia |].
  change (pool (called mp)) with (pool mp). rewrite Hcf.
  pose proof (lower_rates_spec mp F order Hord (Z.quot (txFee * 1000) (GetTxVirtualSize tx))) as Hrate. destruct (lower_rates _ _ _).
  2: { eexists _, (called mp). split; [reflexivity |]. apply Hno; [by right | by eexists |]. intros HR. by pose proof (proj2 Hrate (rp_rate _ _ _ _ _ HR)). }
  rewrite (bind_Ok (lift (Ok _)) _ (called mp) (total_fee (pool mp) F, all_parents order) (called mp)) by done. cbn [fst snd].
  pose proof (relay_fee_ok (GetTxVirtualSize tx) (MinRelayTxFee (policy cfg))) as Hmin. unfold amount_ok in Hmin.
  rewrite int64_small by lia.
  destruct (Z.ltb_spec txFee (total_fee (pool mp) F + calcMinRequiredTxRelayFee (GetTxVirtualSize tx) (MinRelayTxFee (policy cfg)))) as [Hlt | Hge].
  { eexists _, (called mp). split; [reflexivity |]. apply Hno; [by right | by eexists |]. intros HR. apply rp_fee in HR. lia. }
  rewrite (bind_Ok (lift (reject_if false _)) _ (called mp) tt (called mp)) by done.
  pose proof (all_parents_spec mp F order Hord tx) as Hpar. rewrite no_new_parents_spec in Hpar |- *. case_decide as Hd.
  2: { eexists _, (called mp). split; [reflexivity |]. apply Hno; [by right | by eexists |]. intros HR. by pose proof (proj2 Hpar (rp_parents _ _ _ _ _ HR)). }
  exists (Ok F), (called mp). split_and!; [done | by right | | done | done]. intros F'. split; [intros [= <-] | intros HF'; by rewrite (Huniq F' HF')].
  split; [done | lia | by apply Hmeet | by apply Hrate | done | by apply Hpar].
Qed.
End Whole.
