(* ===== verification/PoolAccept.v ===== *)
(** Acceptance into the memory pool: what a transaction has passed when
    [checkMempoolAcceptance] says so, and what adding it does to the pool.

    The checks change nothing but the rate limiter and the caches of the scripts
    ([calm]); an accepted transaction is well-formed, its inputs are coins of the
    chain or outputs of the pool, and it conflicts with nothing or replaces all it
    conflicts with ([passed]). *)

From stdpp Require Import gmap relations.
From S2P Require Import Prelude Slices ScriptError WireCommon MsgTx MsgBlock Crypto BtcUtil Difficulty SigCache TxRules Compress Bucket Chainio UtxoView UtxoCache ScriptVal Connect ConnectSpec Float64 Policy Mempool OrphanPool PoolRemoval Replacement.
#[local] Open Scope Z_scope.

(** * What the checks leave alone *)

Definition core (mp : TxPool) :=
  (lastUpdated mp, pool mp, orphans mp, orphansByPrev mp, outpoints mp, nextExpireScan mp).

Definition calm {A} (m : PM A) : Prop := forall mp, core (snd (m mp)) = core mp.

Lemma calm_bind {A B} (m : PM A) (k : A -> PM B) : calm m -> (forall a, calm (k a)) -> calm (bind m k).
Proof.
  intros Hm Hk mp. rewrite bind_eq. specialize (Hm mp). destruct (m mp) as [[a | e |] mp1]; cbn [snd] in *; [| done | done].
  now rewrite (Hk a mp1).
Qed.

Lemma calm_ret {A} (a : A) : calm (ret a). Proof. done. Qed.
Lemma calm_fail {A} e : calm (fail e : PM A). Proof. done. Qed.
Lemma calm_panic {A} : calm (panic : PM A). Proof. done. Qed.
Lemma calm_lift {A} (o : pooled A) : calm (lift o). Proof. done. Qed.
Lemma calm_get : calm get. Proof. done. Qed.
Lemma calm_penny t l : calm (modify (set_penny t l)). Proof. done. Qed.

Lemma calm_if {A} (b : bool) (m k : PM A) : calm m -> calm k -> calm (if b then m else k).
Proof. now destruct b. Qed.

Create HintDb calm discriminated.
#[export] Hint Resolve calm_ret calm_fail calm_panic calm_lift calm_get calm_penny calm_if : calm.

Ltac calm_tac := repeat first [ apply calm_bind; [| intros ?] | solve [eauto with calm] | apply calm_if ].

Section Calm.
Context `{Crypto} `{MapOrder} `{World} (cfg : Config) (fuel : nat) (sched : list txValidateItem -> list txValidateItem).

Lemma calm_now : calm Now. Proof. done. Qed.
Lemma calm_ordered {A} (l : list A) : calm (ordered l). Proof. done. Qed.
#[local] Hint Resolve calm_now calm_ordered : calm.

Lemma calm_relay tx txFee txSize v h isNew rateLimit : calm (validateRelayFeeMet cfg tx txFee txSize v h isNew rateLimit).
Proof. unfold validateRelayFeeMet. calm_tac. Qed.

Lemma calm_replacement tx txFee : calm (validateReplacement cfg tx txFee).
Proof. unfold validateReplacement. calm_tac. Qed.

Lemma calm_scripts tx v : calm (validate_scripts fuel sched tx v).
Proof. intros mp. unfold validate_scripts. by destruct (ValidateTransactionScripts _ _ _ _ _ _). Qed.
#[local] Hint Resolve calm_relay calm_replacement calm_scripts : calm.

Lemma calm_check tx isNew rateLimit rdo : calm (checkMempoolAcceptance cfg fuel sched tx isNew rateLimit rdo).
Proof.
  unfold checkMempoolAcceptance. calm_tac. destruct (missing_parents _); calm_tac.
Qed.
End Calm.

(** * What has been passed *)

Section Passed.
Context `{Crypto} `{MapOrder} `{WorldLaws} (cfg : Config) (fuel : nat) (sched : list txValidateItem -> list txValidateItem).
Context (U : MsgTx -> Prop) (rank : bytes -> nat) (HU : universe U rank).

Definition next_height : Z := int32 (BestHeight cfg + 1).

(** The first checks, which an orphan has passed too. *)
Record sound_tx (mp : TxPool) (tx : MsgTx) (rejectDupOrphans : bool) : Prop := {
  st_new : pool mp !! TxHash tx = None;
  st_new_orphan : rejectDupOrphans = true -> orphans mp !! TxHash tx = None;
  st_size : MinStandardTxNonWitnessSize <= SerializeSizeStripped tx;
  st_sane : tx_sane tx;
  st_no_coinbase : IsCoinBaseTx tx = false;
}.

(** The view that the inputs are looked up in. *)
Definition input_view (mp : TxPool) (tx : MsgTx) (v : UtxoViewpoint) : Prop :=
  exists v0, fetchInputUtxos cfg mp tx = Ok v0 /\ not_in_chain (outs_of tx) v0 = Ok v.

Record passed (mp : TxPool) (tx : MsgTx) (r : MempoolAcceptResult) : Prop := {
  pa_view : input_view mp tx (r_utxoView r);
  pa_unspent : forall op e, entries (r_utxoView r) !! op = Some e -> exists u, e = Some u /\ IsSpent u = false;
  pa_fee : CheckTransactionInputs tx next_height (r_utxoView r) (cfg_Params cfg) = Ok (TxFee r);
  pa_standard : validateStandardness cfg tx next_height (MedianTimePast cfg) (r_utxoView r) = Ok tt;
  pa_locks : exists l, CalcSequenceLock cfg tx (r_utxoView r) = Ok l /\
    SequenceLockActive l next_height (MedianTimePast cfg) = true;
  pa_sig_cost : validateSigCost cfg tx (r_utxoView r) = Ok tt;
  pa_signals : forall op t, op ∈ inputs tx -> outpoints mp !! op = Some t ->
    RejectReplacement (policy cfg) = false /\ signals (pool mp) t;
  pa_conflicts :
    ((forall op, op ∈ inputs tx -> outpoints mp !! op = None) /\ Conflicts r = ∅) \/
    replaces cfg mp tx (TxFee r) (Conflicts r);
  pa_scripts : exists c c', ValidateTransactionScripts fuel sched tx (r_utxoView r) StandardVerifyFlags c = (Ok tt, c');
  pa_size : TxSize r = GetTxVirtualSize tx;
  pa_height : r_bestHeight r = BestHeight cfg;
}.

Lemma reject_if_Ok b c u : reject_if b c = Ok u <-> b = false.
Proof. by destruct b, u. Qed.

Lemma from_chain_Ok {A} (o : checked A) a : from_chain o = Ok a <-> o = Ok a.
Proof. destruct o; cbn; naive_solver. Qed.

(** Every conflict signals, and there is one when the answer is yes. *)
Lemma double_spend_spec mp ins : forall b b',
  pool_ok U mp -> pool_double_spend cfg mp ins b = Ok b' ->
  (b' = false -> b = false /\ forall op, op ∈ PreviousOutPoint <$> ins -> outpoints mp !! op = None) /\
  forall op t, op ∈ PreviousOutPoint <$> ins -> outpoints mp !! op = Some t ->
    RejectReplacement (policy cfg) = false /\ signals (pool mp) t.
Proof.
  induction ins as [| ti ins IH]; intros b b' Hok; cbn [pool_double_spend fmap list_fmap].
  { intros [= <-]. split; [intros ->; split; [done | intros op Hop; by apply elem_of_nil in Hop] | intros op t Hop; by apply elem_of_nil in Hop]. }
  destruct (outpoints mp !! PreviousOutPoint ti) as [t |] eqn:Ht.
  - destruct (RejectReplacement (policy cfg)) eqn:Hrr; [done |].
    destruct (spender _ _ HU _ _ _ Hok Ht) as (_ & Hut & _ & _).
    destruct (signalsReplacement_spec U rank HU mp t Hok Hut) as (s & Hs & Hsig). rewrite Hs. cbn [obind].
    destruct s; [| done]. intros Hr. destruct (IH _ _ Hok Hr) as [Hf Hall]. split; [intros Hb; by destruct (Hf Hb) |].
    intros op t' Hop Ht'. apply elem_of_cons in Hop as [-> | Hop]; [| by eapply Hall].
    assert (t' = t) as -> by congruence. split; [done | by apply Hsig].
  - intros Hr. destruct (IH _ _ Hok Hr) as [Hf Hall]. split.
    + intros Hb. destruct (Hf Hb) as [-> Hn]. split; [done |]. intros op Hop. apply elem_of_cons in Hop as [-> | Hop]; [done | by apply Hn].
    + intros op t' Hop Ht'. apply elem_of_cons in Hop as [-> | Hop]; [congruence | by eapply Hall].
Qed.

Lemma replaces_same mp mp' tx fee F :
  pool mp' = pool mp -> outpoints mp' = outpoints mp -> replaces cfg mp' tx fee F -> replaces cfg mp tx fee F.
Proof.
  intros Hp Ho [Hc]. rewrite Hp in *. split; try done. eapply family_iff; [exact Hc |]. intros h _.
  unfold conflict, children_of. by rewrite Hp, Ho.
Qed.

(** A transaction that is not too small has a size to divide by. *)
Lemma vsize_pos tx : U tx -> MinStandardTxNonWitnessSize <= SerializeSizeStripped tx -> 0 < GetTxVirtualSize tx.
Proof.
  intros Hu Hs. pose proof (u_size _ _ HU tx Hu) as Hsize. unfold MinStandardTxNonWitnessSize in Hs.
  assert (Hle : SerializeSizeStripped tx <= SerializeSize tx).
  { unfold SerializeSizeStripped, SerializeSize. destruct (HasWitness tx); [| lia].
    assert (Hn : 0 <= zsum (fun ti => TxWitness_SerializeSize (Witness ti)) (TxIns tx)); [| lia].
    apply zsum_nonneg. intros ti. unfold TxWitness_SerializeSize. pose proof (VarIntSerializeSize_range (zlen (Witness ti))).
    assert (0 <= zsum (fun w => VarIntSerializeSize (zlen w) + zlen w) (Witness ti)); [| lia].
    apply zsum_nonneg. intros w. pose proof (VarIntSerializeSize_range (zlen w)). assert (0 <= zlen w) by (unfold zlen; lia). lia. }
  unfold GetTxVirtualSize, GetTransactionWeight, WitnessScaleFactor.
  rewrite (int64_small (SerializeSizeStripped tx * _ + _)) by lia. rewrite int64_small by lia. apply Z.quot_str_pos. lia.
Qed.

(** A statement that only checks. *)
Ltac lift_unit Hr Hx := let s := fresh "s" in
  apply bind_inv_Ok in Hr as ([] & s & Hx & Hr); unfold lift in Hx; injection Hx as Hx <-.
Ltac lift_val Hr x Hx := let s := fresh "s" in
  apply bind_inv_Ok in Hr as (x & s & Hx & Hr); unfold lift in Hx; injection Hx as Hx <-.

Lemma input_view_pool mp mp' tx v : pool mp' = pool mp -> input_view mp' tx v -> input_view mp tx v.
Proof. intros Hp (v0 & Hv0 & Hv). exists v0. split; [| done]. unfold fetchInputUtxos in *. by rewrite <- Hp. Qed.

Lemma missing_none order : missing_parents order = [] -> forall op e, (op, e) ∈ order -> exists u, e = Some u /\ IsSpent u = false.
Proof.
  induction order as [| [o x] order IH]; intros Hm op e Hin; [by apply elem_of_nil in Hin |].
  unfold missing_parents in Hm. cbn [omap list_omap] in Hm. apply elem_of_cons in Hin as [[= -> ->] | Hin].
  - destruct x as [u |]; [| done]. destruct (IsSpent u) eqn:Hs; [done | by exists u].
  - apply (IH) with op; [| done]. destruct x as [u |]; [destruct (IsSpent u) |]; done.
Qed.

(** The later checks, one after the other. *)
Lemma late_checks mp0 mp tx isReplacement v isNew rateLimit r mp' :
  core mp = core mp0 -> pool_ok U mp0 -> fees_ok (pool mp0) -> U tx -> sound_tx mp0 tx false ->
  pool_double_spend cfg mp0 (TxIns tx) false = Ok isReplacement -> input_view mp0 tx v ->
  (forall op e, entries v !! op = Some e -> exists u, e = Some u /\ IsSpent u = false) ->
  (txFee <- lift (from_chain (CheckTransactionInputs tx next_height v (cfg_Params cfg)));;
   lift (validateStandardness cfg tx next_height (MedianTimePast cfg) v);;
   sequenceLock <- lift (from_chain (CalcSequenceLock cfg tx v));;
   lift (reject_if (negb (SequenceLockActive sequenceLock next_height (MedianTimePast cfg))) RejectNonstandard);;
   lift (validateSigCost cfg tx v);;
   validateRelayFeeMet cfg tx txFee (GetTxVirtualSize tx) v next_height isNew rateLimit;;
   conflicts <- (if isReplacement : bool then validateReplacement cfg tx txFee else ret ∅);;
   validate_scripts fuel sched tx v;;
   ret (mkAccept txFee (GetTxVirtualSize tx) conflicts [] v (BestHeight cfg))) mp = (Ok r, mp') ->
  passed mp0 tx r /\ MissingParents r = [] /\ amount_ok (TxFee r).
Proof.
  intros Hcore Hok Hfees Hu Hst Hds Hv Hun Hr.
  lift_val Hr fee Hfee. apply from_chain_Ok in Hfee. lift_unit Hr Hstd. lift_val Hr lock Hlock. apply from_chain_Ok in Hlock.
  lift_unit Hr Hact. apply reject_if_Ok, negb_false_iff in Hact. lift_unit Hr Hsig.
  apply bind_inv_Ok in Hr as ([] & mp1 & Hrelay & Hr). pose proof (calm_relay cfg tx fee (GetTxVirtualSize tx) v next_height isNew rateLimit mp) as Hc1.
  rewrite Hrelay in Hc1. cbn [snd] in Hc1. apply bind_inv_Ok in Hr as (F & mp2 & HF & Hr).
  apply bind_inv_Ok in Hr as ([] & mp3 & Hs & Hr). injection Hr as <- <-.
  destruct (CheckTransactionInputs_spec tx next_height v (cfg_Params cfg) fee (st_sane _ _ _ Hst) (st_no_coinbase _ _ _ Hst) Hfee)
    as (_ & _ & _ & Hamt & _).
  rewrite Hcore in Hc1. injection Hc1 as _ Hp1 _ _ Ho1 _.
  destruct (double_spend_spec _ _ _ _ Hok Hds) as [Hfree Hall].
  split_and!; [| done | done]. split; cbn [r_utxoView TxFee Conflicts TxSize r_bestHeight]; try done.
  - by eexists.
  - destruct isReplacement.
    + right. destruct (validateReplacement_spec U rank HU cfg mp1 tx fee) as (o & mp4 & Hrun & _ & Hiff & _);
        [| by rewrite Hp1 | done | done | apply vsize_pos; [done | apply Hst] |].
      * split; intros *; rewrite ?Hp1, ?Ho1; apply Hok.
      * rewrite Hrun in HF. injection HF as -> ->. eapply replaces_same; [exact Hp1 | exact Ho1 | by apply Hiff].
    + left. injection HF as <- <-. split; [by apply Hfree | done].
  - unfold validate_scripts in Hs. destruct (ValidateTransactionScripts _ _ _ _ _ _) as [[[] | e |] c'] eqn:Hscr; cbn [of_val] in Hs.
    + by eexists _, _.
    + by destruct e.
    + done.
Qed.

Lemma check_inv tx isNew rateLimit rdo mp r mp' :
  pool_ok U mp -> fees_ok (pool mp) -> U tx ->
  checkMempoolAcceptance cfg fuel sched tx isNew rateLimit rdo mp = (Ok r, mp') ->
  core mp' = core mp /\ sound_tx mp tx rdo /\
  ((exists h l, MissingParents r = h :: l) \/ MissingParents r = [] /\ passed mp tx r /\ amount_ok (TxFee r)).
Proof.
  intros Hok Hfees Hu Hr. pose proof (calm_check cfg fuel sched tx isNew rateLimit rdo mp) as Hcalm. rewrite Hr in Hcalm.
  split; [done |]. clear Hcalm. unfold checkMempoolAcceptance in Hr. lift_unit Hr Hsw. rewrite (bind_Ok get _ mp mp mp) in Hr by done.
  lift_unit Hr Hdup. apply reject_if_Ok, orb_false_iff in Hdup as [Hin Horph].
  lift_unit Hr Hsize. apply reject_if_Ok, Z.ltb_ge in Hsize. lift_unit Hr Hsane. apply from_chain_Ok, tx_sanity_Ok in Hsane.
  lift_unit Hr Hcb. apply reject_if_Ok in Hcb.
  lift_val Hr isReplacement Hds. lift_val Hr v0 Hv0. apply from_chain_Ok in Hv0. lift_val Hr v Hv.
  unfold isTransactionInPool in Hin. apply bool_decide_eq_false, eq_None_not_Some in Hin.
  assert (Hst : sound_tx mp tx rdo).
  { split; try done. intros ->. cbn [andb] in Horph. unfold isOrphanInPool in Horph. by apply bool_decide_eq_false, eq_None_not_Some in Horph. }
  split; [done |]. unfold ordered at 1 in Hr. rewrite bind_eq in Hr.
  pose proof (shuffle_perm _ (calls mp) (map_to_list (entries v))) as Hperm.
  destruct (missing_parents (shuffle (calls mp) (map_to_list (entries v)))) as [| h l] eqn:Hmiss.
  - right. apply (late_checks mp) in Hr; [naive_solver | done | done | done | done | | exact Hds | by eexists |].
    + destruct Hst. by split.
    + intros op e He. apply (missing_none _ Hmiss op). rewrite Hperm. by apply elem_of_map_to_list.
  - left. injection Hr as <- _. by exists h, l.
Qed.

(** * Adding *)

(** The maps of orphans, and the scan for expired ones. *)
Definition orphan_part (mp : TxPool) := (orphans mp, orphansByPrev mp, nextExpireScan mp).

Lemma side_orphan mp mp' : side_part mp' = side_part mp -> orphan_part mp' = orphan_part mp.
Proof. unfold side_part, orphan_part. congruence. Qed.

Lemma remove_conflicts l : forall mp,
  pool_ok U mp -> NoDup l.*1 -> (forall h t, (h, t) ∈ l -> TxHash t = h /\ is_Some (pool mp !! h)) ->
  exists mp', each remove_conflict l mp = (Ok tt, mp') /\ pool_ok U mp' /\ side_part mp' = side_part mp /\
    forall h, pool mp' !! h = if decide (h ∈ l.*1) then None else pool mp !! h.
Proof.
  induction l as [| [h t] l IH]; intros mp Hok Hnd Hl; cbn [each].
  { exists mp. split_and!; [done | done | done |]. intros h. rewrite decide_False; [done | by intros ?%elem_of_nil]. }
  rewrite fmap_cons in *. apply NoDup_cons in Hnd as [Hni Hnd]. cbn [fst] in *.
  destruct (Hl h t) as [Hh Hs]; [constructor |].
  destruct (removeTransaction_one U t mp Hok) as (mp1 & Hr & Hok1 & Hside & Hp).
  assert (Hrun : remove_conflict (h, t) mp = (Ok tt, mp1)).
  { unfold remove_conflict. rewrite (bind_Ok get _ mp mp mp) by done. cbn [snd]. rewrite bool_decide_true by (by rewrite Hh). done. }
  rewrite (bind_Ok _ _ _ _ _ Hrun). destruct (IH mp1 Hok1 Hnd) as (mp' & Hr' & Hok' & Hside' & Hp').
  - intros h' t' Hin. destruct (Hl h' t') as [Hh' Hs']; [by constructor |]. split; [done |]. rewrite Hp, Hh.
    rewrite lookup_delete_ne; [done |]. intros <-. apply Hni. apply list_elem_of_fmap. by exists (h, t').
  - exists mp'. split_and!; [done | done | congruence |]. intros h'. rewrite Hp', Hp, Hh.
    destruct (decide (h' = h)) as [-> | Hne].
    + rewrite (decide_True (P := h ∈ _ :: _)) by constructor. rewrite lookup_delete_eq. by case_decide.
    + rewrite lookup_delete_ne by done. repeat case_decide; rewrite ?elem_of_cons in *; naive_solver.
Qed.

Record desc_of (tx : MsgTx) (r : MempoolAcceptResult) (txD : TxDesc) : Prop := {
  de_tx : Tx txD = tx;
  de_fee : Fee txD = TxFee r;
  de_rate : FeePerKB txD = Z.quot (TxFee r * 1000) (GetTxVirtualSize tx);
  de_height : d_Height txD = BestHeight cfg;
}.

(** The conflicts have gone and the transaction has come. *)
Record added (mp mp' : TxPool) (tx : MsgTx) (r : MempoolAcceptResult) (txD : TxDesc) : Prop := {
  ad_ok : pool_ok U mp';
  ad_orphans : orphan_part mp' = orphan_part mp;
  ad_desc : desc_of tx r txD;
  ad_pool : forall h, pool mp' !! h =
    if decide (h = TxHash tx) then Some txD else if decide (is_Some (Conflicts r !! h)) then None else pool mp !! h;
}.

Lemma addTransaction_spec v tx height fee mp :
  pool_ok U mp -> U tx -> pool mp !! TxHash tx = None -> (forall op, op ∈ inputs tx -> outpoints mp !! op = None) ->
  amount_ok fee -> 0 < GetTxVirtualSize tx ->
  exists txD mp', addTransaction v tx height fee mp = (Ok txD, mp') /\ pool_ok U mp' /\ side_part mp' = side_part mp /\
    pool mp' = <[TxHash tx := txD]> (pool mp) /\ Tx txD = tx /\ Fee txD = fee /\
    FeePerKB txD = Z.quot (fee * 1000) (GetTxVirtualSize tx) /\ d_Height txD = height.
Proof.
  intros Hok Hu Hnew Hfree Hfee Hv. unfold addTransaction. unfold Now at 1. erewrite bind_Ok by reflexivity.
  assert (Hms : MaxSatoshi * 1000 < 2 ^ 62) by reflexivity. unfold amount_ok in Hfee.
  assert (fee_rate fee (GetTxVirtualSize tx) = Ok (Z.quot (fee * 1000) (GetTxVirtualSize tx))) as ->.
  { unfold fee_rate. rewrite int64_small by lia. destruct (Z.eqb_spec (GetTxVirtualSize tx) 0); [lia | done]. }
  erewrite (bind_Ok (lift _)) by reflexivity. unfold Now at 1. erewrite bind_Ok by reflexivity.
  rewrite bind_eq. cbn [modify]. eexists _, _. split; [reflexivity |]. cbn [Tx Fee FeePerKB d_Height].
  split_and!; [| done | done | done | done | done | done].
  set (txD := mkTxDesc tx _ height fee _ _).
  by apply (insert_tx_ok U txD _ (called (called mp))); [apply called_pool_ok, called_pool_ok | | |].
Qed.

Lemma conflicts_in_pool mp tx r :
  passed mp tx r -> forall h t, Conflicts r !! h = Some t -> exists d, pool mp !! h = Some d /\ Tx d = t.
Proof.
  intros Hp. destruct (pa_conflicts _ _ _ Hp) as [[_ ->] | HR]; [intros h t Ht; by rewrite lookup_empty in Ht |].
  intros h t Ht. by apply (rp_conflicts _ _ _ _ _ HR) in Ht as [_ Ht].
Qed.

(** Without the conflicts nothing spends the inputs. *)
Lemma freed mp mp2 tx r :
  pool_ok U mp -> pool_ok U mp2 -> passed mp tx r ->
  (forall h, pool mp2 !! h = if decide (is_Some (Conflicts r !! h)) then None else pool mp !! h) ->
  forall op, op ∈ inputs tx -> outpoints mp2 !! op = None.
Proof.
  intros Hok Hok2 Hp Hp2 op Hop. apply eq_None_not_Some. intros [t Ht].
  apply (po_spent _ _ Hok2) in Ht as (Hint & d & Hd & Htx). rewrite Hp2 in Hd. case_decide as Hd2; [done |].
  assert (Ho : outpoints mp !! op = Some t) by (apply (po_spent _ _ Hok); split; [done | by exists d]).
  destruct (pa_conflicts _ _ _ Hp) as [[Hf _] | HR]; [specialize (Hf op Hop); congruence |].
  apply Hd2. exists t. apply (rp_conflicts _ _ _ _ _ HR). split; [| by exists d]. exists op, t. split_and!; [done | done | by left].
Qed.

(** What follows the checks succeeds: the conflicts go, and the transaction comes. *)
Lemma adopt_spec tx rdo r mp mp1 :
  pool_ok U mp -> U tx -> core mp1 = core mp -> sound_tx mp tx rdo -> passed mp tx r -> amount_ok (TxFee r) ->
  exists txD mp', (order <- ordered (map_to_list (Conflicts r));; each remove_conflict order;;
    txD <- addTransaction (r_utxoView r) tx (r_bestHeight r) (TxFee r);; ret (@nil bytes, Some txD)) mp1 = (Ok ([], Some txD), mp') /\
    added mp mp' tx r txD.
Proof.
  intros Hok Hu Hcalm Hst Hp Hfee. injection Hcalm as Hlu Hpool Horph Hby Hout Hscan.
  assert (Hok1 : pool_ok U mp1) by (split; intros *; rewrite ?Hpool, ?Hout; apply Hok).
  unfold ordered at 1. erewrite bind_Ok by reflexivity. set (order := shuffle _ _).
  assert (Hord : order ≡ₚ map_to_list (Conflicts r)) by apply shuffle_perm.
  assert (Hin : forall h t, (h, t) ∈ order <-> Conflicts r !! h = Some t) by (intros h t; rewrite Hord; apply elem_of_map_to_list).
  assert (Hel : forall h, h ∈ order.*1 <-> is_Some (Conflicts r !! h)).
  { intros h. rewrite list_elem_of_fmap. split; [intros ([h' t] & -> & Hx); apply Hin in Hx; by exists t |].
    intros [t Ht]. exists (h, t). split; [done | by apply Hin]. }
  pose proof (conflicts_in_pool _ _ _ Hp) as Hfam.
  destruct (remove_conflicts order (called mp1)) as (mp2 & Hr2 & Hok2 & Hside2 & Hp2); [by apply called_pool_ok | | |].
  { rewrite Hord. apply NoDup_fst_map_to_list. }
  { intros h t Hx. apply Hin, Hfam in Hx as (d & Hd & Htx). cbn [called pool]. rewrite Hpool.
    split; [| by exists d]. rewrite <- Htx. by apply (po_known _ _ Hok). }
  rewrite bind_eq, Hr2.
  assert (Hp2' : forall h, pool mp2 !! h = if decide (is_Some (Conflicts r !! h)) then None else pool mp !! h).
  { intros h. rewrite Hp2. cbn [called pool]. rewrite Hpool. destruct (decide (h ∈ order.*1)) as [Hx | Hx];
      [by rewrite decide_True by by apply Hel | by rewrite decide_False by by rewrite <- Hel]. }
  pose proof (freed _ _ _ _ Hok Hok2 Hp Hp2') as Hcl.
  destruct (addTransaction_spec (r_utxoView r) tx (r_bestHeight r) (TxFee r) mp2 Hok2 Hu) as (txD & mp3 & Hr3 & Hok3 & Hside3 & Hp3 & Htx & Hf3 & Hrate & Hh3);
    [| done | done | apply vsize_pos; [done | apply Hst] |].
  { rewrite Hp2'. case_decide; [done | apply Hst]. }
  rewrite bind_eq, Hr3. exists txD, mp3. split; [done |].
  split; [done | | split; [done | done | done |] |].
  - rewrite (side_orphan _ _ Hside3), (side_orphan _ _ Hside2). unfold orphan_part. cbn [called orphans orphansByPrev nextExpireScan]. congruence.
  - rewrite Hh3. apply Hp.
  - intros h. rewrite Hp3. destruct (decide (h = TxHash tx)) as [-> | Hne]; [apply lookup_insert_eq |].
    by rewrite lookup_insert_ne, Hp2' by done.
Qed.

(** The outcomes: the pool is as before, or the transaction has been added. *)
Definition accepts (mp mp' : TxPool) (tx : MsgTx) (rdo : bool) (txD : TxDesc) : Prop :=
  exists r, sound_tx mp tx rdo /\ passed mp tx r /\ amount_ok (TxFee r) /\ added mp mp' tx r txD.

Lemma accept_spec tx isNew rateLimit rdo mp o mp' :
  pool_ok U mp -> fees_ok (pool mp) -> U tx ->
  maybeAcceptTransaction cfg fuel sched tx isNew rateLimit rdo mp = (o, mp') ->
  (core mp' = core mp /\ (forall q, o = Ok q -> sound_tx mp tx rdo /\ exists h l, q = (h :: l, None))) \/
  exists txD, o = Ok ([], Some txD) /\ accepts mp mp' tx rdo txD.
Proof.
  intros Hok Hfees Hu Hr. unfold maybeAcceptTransaction in Hr. rewrite bind_eq in Hr.
  pose proof (calm_check cfg fuel sched tx isNew rateLimit rdo mp) as Hcalm.
  destruct (checkMempoolAcceptance cfg fuel sched tx isNew rateLimit rdo mp) as [[r | e |] mp1] eqn:Hc; cbn [snd] in Hcalm.
  2, 3: left; injection Hr as <- <-; split; [done | by intros q].
  destruct (check_inv _ _ _ _ _ _ _ Hok Hfees Hu Hc) as (_ & Hst & [(h & l & Hm) | (Hm & Hp & Hfee)]); rewrite Hm in Hr.
  { left. injection Hr as <- <-. split; [done |]. intros q [= <-]. split; [done |]. by exists h, l. }
  right. destruct (adopt_spec tx rdo r mp mp1 Hok Hu Hcalm Hst Hp Hfee) as (txD & mp2 & Hrun & Had).
  rewrite Hrun in Hr. injection Hr as <- <-. exists txD. split; [done |]. by exists r.
Qed.

(** An error is one of the checks. *)
Lemma accept_error tx isNew rateLimit rdo mp e mp' :
  pool_ok U mp -> fees_ok (pool mp) -> U tx ->
  maybeAcceptTransaction cfg fuel sched tx isNew rateLimit rdo mp = (Err e, mp') ->
  checkMempoolAcceptance cfg fuel sched tx isNew rateLimit rdo mp = (Err e, mp').
Proof.
  intros Hok Hfees Hu Hr. unfold maybeAcceptTransaction in Hr. rewrite bind_eq in Hr.
  pose proof (calm_check cfg fuel sched tx isNew rateLimit rdo mp) as Hcalm.
  destruct (checkMempoolAcceptance cfg fuel sched tx isNew rateLimit rdo mp) as [[r | e' |] mp1] eqn:Hc; cbn [snd] in Hcalm;
    [| by injection Hr as -> -> | done].
  destruct (check_inv _ _ _ _ _ _ _ Hok Hfees Hu Hc) as (_ & Hst & [(h & l & Hm) | (Hm & Hp & Hfee)]); rewrite Hm in Hr; [done |].
  destruct (adopt_spec tx rdo r mp mp1 Hok Hu Hcalm Hst Hp Hfee) as (txD & mp2 & Hrun & Had). by rewrite Hrun in Hr.
Qed.
End Passed.
