(* ===== verification/PoolOps.v ===== *)
(** The invariant of the memory pool and the operations that keep it.

    [mempool_ok] joins the invariants of the transactions and of the orphans: they
    are apart, the fees are amounts, and there are no more orphans than the policy
    allows.  Every operation keeps it, whatever its outcome.  [J] is any property
    of the transactions that acceptance keeps, so that the same lemmas serve the
    properties that depend on the chain. *)

From stdpp Require Import gmap relations.
From S2P Require Import Prelude Slices ScriptError WireCommon MsgTx MsgBlock Crypto BtcUtil Difficulty SigCache TxRules UtxoView ScriptVal Connect Float64 Policy Mempool OrphanPool PoolRemoval Replacement PoolAccept.
#[local] Open Scope Z_scope.

(** A loop in which every step keeps [I], and every outcome leaves [K]. *)
Lemma loop_inv {A X} (f : A -> X -> PM (X * bool)) (I : X -> TxPool -> Prop) (K : TxPool -> Prop) l :
  (forall x mp, I x mp -> K mp) ->
  (forall a x mp o mp', a ∈ l -> I x mp -> f a x mp = (o, mp') -> K mp' /\ forall x' b, o = Ok (x', b) -> I x' mp') ->
  forall x mp o mp', I x mp -> loop f l x mp = (o, mp') -> K mp' /\ forall x', o = Ok x' -> I x' mp'.
Proof.
  intros HK. induction l as [| a l IH]; intros Hf x mp o mp' Hi Hr; cbn [loop] in Hr.
  { injection Hr as <- <-. split; [by apply HK in Hi | by intros x' [= <-]]. }
  rewrite bind_eq in Hr. destruct (f a x mp) as [[[x1 b] | e |] mp1] eqn:Hfa.
  - destruct (Hf a x mp (Ok (x1, b)) mp1) as [HK1 Hi1]; [constructor | done | done |]. specialize (Hi1 x1 b eq_refl).
    cbn [fst snd] in Hr. destruct b.
    + injection Hr as <- <-. split; [done | by intros x' [= <-]].
    + eapply (IH ltac:(intros; eapply Hf; [by constructor | done | done])); eauto.
  - injection Hr as <- <-. destruct (Hf a x mp (Err e) mp1) as [HK1 _]; [constructor | done | done |]. by split.
  - injection Hr as <- <-. destruct (Hf a x mp Panic mp1) as [HK1 _]; [constructor | done | done |]. by split.
Qed.

Section Ops.
Context `{Crypto} `{MapOrder} `{WorldLaws} (fuel : nat) (sched : list txValidateItem -> list txValidateItem).
Context (U : MsgTx -> Prop) (rank : bytes -> nat) (HU : universe U rank).

(** The number of orphans that the policy allows. *)
Definition limit (cfg : Config) : Z := MaxOrphanTxs (policy cfg).

(** The transactions are well-formed, and none is a coinbase. *)
Definition sane_pool (p : gmap bytes TxDesc) : Prop :=
  forall h d, p !! h = Some d -> tx_sane (Tx d) /\ IsCoinBaseTx (Tx d) = false.

Record mempool_ok (max : Z) (mp : TxPool) : Prop := {
  mo_pool : pool_ok U mp;
  mo_fees : fees_ok (pool mp);
  mo_sane : sane_pool (pool mp);
  mo_orphans : orphans_ok U ∅ mp;
  mo_apart : forall h, is_Some (pool mp !! h) -> orphans mp !! h = None;
  mo_room : Z.of_nat (size (orphans mp)) <= Z.max 0 max;
}.

Lemma no_lookup {K A} `{Countable K} (k : K) (a : A) : (∅ : gmap K A) !! k = Some a -> False.
Proof. by rewrite lookup_empty. Qed.

Lemma New_ok max now caches : mempool_ok max (New now caches).
Proof.
  split; cbn [New pool orphans].
  - split; [intros h d []%no_lookup |]. intros op t. cbn. split; [intros []%no_lookup | intros (_ & d & []%no_lookup & _)].
  - intros h d []%no_lookup.
  - intros h d []%no_lookup.
  - split; [intros h o []%no_lookup | | intros op m []%no_lookup | intros h []%elem_of_empty].
    intros op h t. unfold by_prev. cbn. split; [intros []%no_lookup | intros (_ & _ & o & []%no_lookup & _)].
  - intros h [? []%no_lookup].
  - rewrite map_size_empty. lia.
Qed.

(** The invariant reads the maps. *)
Lemma orphans_ok_same mp mp' :
  orphans mp' = orphans mp -> orphansByPrev mp' = orphansByPrev mp -> orphans_ok U ∅ mp -> orphans_ok U ∅ mp'.
Proof.
  intros Ho Hb [H1' H2' H3' H4']. split; [by rewrite Ho | | by rewrite Hb | by rewrite Ho].
  intros op h t. rewrite Ho. unfold by_prev in *. rewrite Hb. apply H2'.
Qed.

Lemma pool_ok_same mp mp' : pool mp' = pool mp -> outpoints mp' = outpoints mp -> pool_ok U mp -> pool_ok U mp'.
Proof. intros Hp Ho [H1' H2']. split; intros *; rewrite ?Hp, ?Ho; [apply H1' | apply H2']. Qed.

Lemma calm_ok max mp mp' : core mp' = core mp -> mempool_ok max mp -> mempool_ok max mp'.
Proof.
  intros Hc [Hp Hf Hsn Ho Ha Hr]. injection Hc as _ Hpool Horph Hby Hout _. split; rewrite ?Hpool, ?Horph; try done.
  - by eapply pool_ok_same.
  - by eapply orphans_ok_same.
Qed.

Lemma trims_ok max mp mp' : trims U mp mp' -> mempool_ok max mp -> mempool_ok max mp'.
Proof.
  intros [Hok Hm Hs] [Hp Hf Hsn Ho Ha Hr]. injection Hm as _ Hpool Hout _ _ _. split; rewrite ?Hpool; try done.
  - by eapply pool_ok_same.
  - intros h Hh. apply eq_None_not_Some. intros [o Hx]. pose proof (lookup_weaken _ _ _ _ Hx Hs). specialize (Ha h Hh). congruence.
  - pose proof (map_subseteq_size _ _ Hs). lia.
Qed.

Lemma cuts_ok max R mp mp' : cuts U R mp mp' -> mempool_ok max mp -> mempool_ok max mp'.
Proof.
  intros Hc [Hp Hf Hsn Ho Ha Hr]. pose proof (ct_side _ _ _ _ Hc) as Hs. injection Hs as Horph Hby _ _ _ _.
  split; rewrite ?Horph; try done.
  - apply Hc.
  - intros h d Hd. eapply Hf, lookup_weaken; [exact Hd | apply Hc].
  - intros h d Hd. eapply Hsn, lookup_weaken; [exact Hd | apply Hc].
  - by eapply orphans_ok_same.
  - intros h [d Hd]. apply Ha. exists d. eapply lookup_weaken; [exact Hd | apply Hc].
Qed.

(** Adding a transaction that is no orphan. *)
Lemma accepts_ok cfg max mp mp' tx rdo txD :
  mempool_ok max mp -> accepts cfg fuel sched U mp mp' tx rdo txD ->
  pool_ok U mp' /\ fees_ok (pool mp') /\ sane_pool (pool mp') /\ orphans_ok U ∅ mp' /\ orphans mp' = orphans mp /\
  forall h, h <> TxHash tx -> is_Some (pool mp' !! h) -> orphans mp' !! h = None.
Proof.
  intros [Hp Hf Hsn Ho Ha Hr] (r & Hst & Hpa & Hfee & Had). pose proof (ad_orphans _ _ _ _ _ _ _ Had) as Hs. injection Hs as Horph Hby _.
  split_and!; [apply Had | | | by eapply orphans_ok_same | done |].
  - intros h d Hd. rewrite (ad_pool _ _ _ _ _ _ _ Had) in Hd. case_decide.
    + injection Hd as <-. by rewrite (de_fee _ _ _ _ (ad_desc _ _ _ _ _ _ _ Had)).
    + case_decide; [done | by eapply Hf].
  - intros h d Hd. rewrite (ad_pool _ _ _ _ _ _ _ Had) in Hd. case_decide.
    + injection Hd as <-. rewrite (de_tx _ _ _ _ (ad_desc _ _ _ _ _ _ _ Had)). split; apply Hst.
    + case_decide; [done | by eapply Hsn].
  - intros h Hne Hh. rewrite Horph. apply Ha. rewrite (ad_pool _ _ _ _ _ _ _ Had), decide_False in Hh by done.
    case_decide; [by destruct Hh | done].
Qed.

(** ** Orphans whose parents have come *)

Context (cfg : Config) (max : Z) (J : gmap bytes TxDesc -> Prop).
Context (HJ : forall mp mp' tx rdo txD, mempool_ok max mp -> J (pool mp) -> U tx ->
  accepts cfg fuel sched U mp mp' tx rdo txD -> J (pool mp')).

Definition fine (mp : TxPool) : Prop := mempool_ok max mp /\ J (pool mp).

Lemma calm_fine mp mp' : core mp' = core mp -> fine mp -> fine mp'.
Proof. intros Hc [Hok Hj]. split; [by eapply calm_ok |]. injection Hc as _ -> _ _ _ _. done. Qed.

Lemma trims_fine mp mp' : trims U mp mp' -> fine mp -> fine mp'.
Proof. intros Ht [Hok Hj]. split; [by eapply trims_ok |]. pose proof (tr_main _ _ _ Ht) as Hm. by injection Hm as _ -> _ _ _ _. Qed.

(** The accepted transactions and the ones to process grow together, and each
    takes an orphan. *)
Inductive grown (x : list TxDesc * list MsgTx) (n : nat) : list TxDesc * list MsgTx -> nat -> Prop :=
| grown_not n' : (n' <= n)%nat -> grown x n x n'
| grown_more y m txD n' : grown x n y m -> (n' < m)%nat -> grown x n (fst y ++ [txD], snd y ++ [Tx txD]) n'.

Lemma grown_le x n y m : grown x n y m -> (m + length (snd y) <= n + length (snd x))%nat.
Proof. induction 1 as [n' Hn | y m txD n' _ IH Hn]; [lia |]. cbn [snd]. rewrite length_app. cbn [length]. lia. Qed.

Lemma grown_weaken x n y m m' : grown x n y m -> (m' <= m)%nat -> grown x n y m'.
Proof. intros Hg Hm. destruct Hg; [apply grown_not; lia | eapply grown_more; [eassumption | lia]]. Qed.

Lemma try_orphan_spec t o x mp r mp' :
  fine mp -> orphans mp !! TxHash t = Some o -> o_tx o = t -> try_orphan cfg fuel sched t x mp = (r, mp') ->
  fine mp' /\ orphans mp' ⊆ orphans mp /\
  forall y b, r = Ok (y, b) -> y = x \/ exists txD, y = (fst x ++ [txD], snd x ++ [Tx txD]) /\
    (size (orphans mp') < size (orphans mp))%nat.
Proof.
  intros Hf Ho Ht Hr. destruct Hf as [Hok Hj]. destruct (oo_known _ _ _ (mo_orphans _ _ Hok) _ _ Ho) as [_ Hu]. rewrite Ht in Hu.
  unfold try_orphan in Hr. destruct (maybeAcceptTransaction cfg fuel sched t true true false mp) as [q mp1] eqn:Ha.
  destruct (accept_spec cfg fuel sched U rank HU _ _ _ _ _ _ _ (mo_pool _ _ Hok) (mo_fees _ _ Hok) Hu Ha) as [[Hc Hq] | (txD & -> & Hacc)].
  - assert (Hf1 : fine mp1) by (eapply calm_fine; [exact Hc | by split]).
    assert (Horph : orphans mp1 = orphans mp) by (by injection Hc).
    assert (Hsame : forall r' mp2, (r, mp2) = (r', mp1) -> (forall y b, r' = Ok (y, b) -> y = x) ->
      fine mp2 /\ orphans mp2 ⊆ orphans mp /\ forall y b, r = Ok (y, b) -> y = x \/ exists txD, y = (fst x ++ [txD], snd x ++ [Tx txD]) /\
        (size (orphans mp2) < size (orphans mp))%nat).
    { intros r' mp2 [= -> ->] Hy. rewrite Horph. split_and!; [done | done | intros y b Hyb; left; eauto]. }
    assert (Hrem : forall mp2, (removeOrphan t true;; ret (x, true)) mp1 = (r, mp2) ->
      fine mp2 /\ orphans mp2 ⊆ orphans mp /\ forall y b, r = Ok (y, b) -> y = x \/ exists txD, y = (fst x ++ [txD], snd x ++ [Tx txD]) /\
        (size (orphans mp2) < size (orphans mp))%nat).
    { intros mp2 Hrun. destruct (removeOrphan_trims U t mp1) as (mp3 & Hr3 & Htr & _).
      - apply Hf1.
      - intros o' Ho'. rewrite Horph in Ho'. congruence.
      - rewrite bind_eq, Hr3 in Hrun. injection Hrun as <- <-. split_and!; [by eapply trims_fine | | intros y b [= <- _]; by left].
        etrans; [apply Htr | by rewrite Horph]. }
    destruct q as [[[| h l] [txD |]] | e |]; try (destruct (Hq _ eq_refl) as (_ & h' & l' & [=])); subst.
    + eapply Hsame; [by rewrite Hr | by intros y b [= <-]].
    + destruct e; try by apply Hrem. eapply Hsame; [by rewrite Hr | done].
    + eapply Hsame; [by rewrite Hr | done].
  - destruct (accepts_ok _ _ _ _ _ _ _ Hok Hacc) as (Hp1 & Hf1 & Hs1 & Ho1 & Horph & Hap). pose proof (HJ _ _ _ _ _ Hok Hj Hu Hacc) as Hj1.
    destruct (removeOrphan_one U t mp1 Ho1) as (mp2 & Hr2 & Htr & Hdel & _). rewrite bind_eq, Hr2 in Hr. injection Hr as <- <-.
    pose proof (tr_main _ _ _ Htr) as Hm. injection Hm as _ Hpool Hout _ _ _. split_and!.
    + split; [| by rewrite Hpool]. split; rewrite ?Hpool; try done.
      * by eapply pool_ok_same.
      * apply Htr.
      * intros h Hh. rewrite Hdel. destruct (decide (h = TxHash t)) as [-> | Hne]; [apply lookup_delete_eq |].
        rewrite lookup_delete_ne by done. by apply Hap.
      * rewrite Hdel, Horph. pose proof (map_subseteq_size _ _ (delete_subseteq (orphans mp) (TxHash t))). pose proof (mo_room _ _ Hok). lia.
    + rewrite Hdel, Horph. apply delete_subseteq.
    + intros y b [= <- _]. right. exists txD. destruct Hacc as (r & _ & _ & _ & Had). rewrite (de_tx _ _ _ _ (ad_desc _ _ _ _ _ _ _ Had)).
      split; [done |]. rewrite Hdel, Horph, (map_size_delete_Some _ _ (mk_is_Some _ _ Ho)).
      assert (size (orphans mp) <> 0%nat); [| lia]. intros Hz%map_size_empty_inv. by rewrite Hz in Ho.
Qed.

Definition growing (x : list TxDesc * list MsgTx) (n : nat) (y : list TxDesc * list MsgTx) (mp : TxPool) : Prop :=
  fine mp /\ grown x n y (size (orphans mp)).

Lemma range_by_prev_grows op x0 n x mp r mp' :
  growing x0 n x mp -> range_by_prev op (try_orphan cfg fuel sched) x mp = (r, mp') ->
  fine mp' /\ forall y, r = Ok y -> growing x0 n y mp'.
Proof.
  intros Hi Hr. unfold range_by_prev in Hr. rewrite (bind_Ok get _ mp mp mp) in Hr by done. unfold ordered in Hr.
  erewrite bind_Ok in Hr by reflexivity. eapply (loop_inv _ (growing x0 n) fine) in Hr; [exact Hr | by intros y m [Hm _] | |].
  2: { destruct Hi as [Hf Hg]. split; [by apply (calm_fine mp) | done]. }
  intros h y m q m' _ [Hm Hg] Hstep. rewrite (bind_Ok get _ m m m) in Hstep by done.
  destruct (by_prev m op !! h) as [t |] eqn:Ht.
  2: { injection Hstep as <- <-. split; [done |]. by intros y' b [= <- _]. }
  destruct (indexed_stored U _ _ _ _ _ (mo_orphans _ _ (proj1 Hm)) Ht) as (Hh & _ & _ & _ & o & Ho & Hot). rewrite <- Hh in Ho.
  destruct (try_orphan_spec _ _ _ _ _ _ Hm Ho Hot Hstep) as (Hf' & Hs & Hcase). split; [done |].
  intros y' b Hq. split; [done |]. pose proof (map_subseteq_size _ _ Hs).
  destruct (Hcase _ _ Hq) as [-> | (txD & -> & Hlt)]; [by eapply grown_weaken | by eapply grown_more].
Qed.

Lemma process_outputs_grows t x mp r mp' :
  fine mp -> process_outputs cfg fuel sched t x mp = (r, mp') ->
  fine mp' /\ forall y, r = Ok y -> growing x (size (orphans mp)) y mp'.
Proof.
  intros Hf Hr. unfold process_outputs in Hr.
  eapply (loop_inv _ (growing x (size (orphans mp))) fine) in Hr; [exact Hr | by intros y m [Hm _] | |].
  2: { split; [done | by apply grown_not]. }
  intros op y m q m' _ Hi Hstep. rewrite bind_eq in Hstep.
  destruct (range_by_prev op (try_orphan cfg fuel sched) y m) as [q1 m1] eqn:Hrange.
  destruct (range_by_prev_grows _ _ _ _ _ _ _ Hi Hrange) as [Hf1 Hg1].
  destruct q1 as [y1 | |]; injection Hstep as <- <-; (split; [done |]); [intros y' b [= <- _]; by apply Hg1 | done | done].
Qed.

(** The loop keeps the invariant, and its steps are enough unless the engine runs
    out of fuel: each that is left stands for an orphan or an item. *)
Lemma process_list_fine steps : forall acc todo mp r mp',
  fine mp -> process_list cfg fuel sched steps acc todo mp = (r, mp') -> fine mp'.
Proof.
  induction steps as [| steps IH]; intros acc todo mp r mp' Hf Hr; destruct todo as [| t todo]; cbn [process_list] in Hr;
    try (injection Hr as <- <-; done).
  rewrite bind_eq in Hr. destruct (process_outputs cfg fuel sched t (acc, todo) mp) as [q m1] eqn:Hout.
  destruct (process_outputs_grows _ _ _ _ _ Hf Hout) as [Hf1 Hg1].
  destruct q as [y | |]; [| injection Hr as <- <-; done ..]. destruct (Hg1 y eq_refl) as [Hm _]. by eapply IH in Hr.
Qed.

Lemma removeOrphanDoubleSpends_fine t mp :
  fine mp -> exists mp', removeOrphanDoubleSpends t mp = (Ok tt, mp') /\ fine mp'.
Proof.
  intros Hf. destruct (removeOrphanDoubleSpends_trims U t mp (mo_orphans _ _ (proj1 Hf))) as (mp' & Hr & Ht & _).
  exists mp'. split; [done | by eapply trims_fine].
Qed.

Lemma processOrphans_fine t mp r mp' : fine mp -> processOrphans cfg fuel sched t mp = (r, mp') -> fine mp'.
Proof.
  intros Hf Hr. unfold processOrphans in Hr. rewrite (bind_Ok get _ mp mp mp) in Hr by done. rewrite bind_eq in Hr.
  destruct (process_list cfg fuel sched _ [] [t] mp) as [q m1] eqn:Hl. apply process_list_fine in Hl; [| done].
  destruct q as [acc | |]; [| injection Hr as <- <-; done ..].
  destruct (removeOrphanDoubleSpends_fine t m1 Hl) as (m2 & Hr2 & Hf2). rewrite bind_eq, Hr2 in Hr.
  destruct (each_ind (fun txD => removeOrphanDoubleSpends (Tx txD)) fine acc m2) as (m3 & Hr3 & Hf3); [done | |].
  { intros a m _ Hm. by apply removeOrphanDoubleSpends_fine. }
  rewrite bind_eq, Hr3 in Hr. by injection Hr as <- <-.
Qed.

(** ** Operations *)

Lemma maybeAccept_fine tx isNew rateLimit mp r mp' :
  fine mp -> U tx -> maybeAcceptTransaction cfg fuel sched tx isNew rateLimit true mp = (r, mp') ->
  fine mp' /\ ((core mp' = core mp /\ forall q, r = Ok q -> sound_tx mp tx true /\ exists h l, q = (h :: l, None)) \/
               exists txD, r = Ok ([], Some txD) /\ accepts cfg fuel sched U mp mp' tx true txD).
Proof.
  intros [Hok Hj] Hu Hr. destruct (accept_spec cfg fuel sched U rank HU _ _ _ _ _ _ _ (mo_pool _ _ Hok) (mo_fees _ _ Hok) Hu Hr)
    as [[Hc Hq] | (txD & -> & Hacc)].
  - split; [by eapply calm_fine; [exact Hc | split] | by left].
  - destruct (accepts_ok _ _ _ _ _ _ _ Hok Hacc) as (Hp1 & Hf1 & Hs1 & Ho1 & Horph & Hap). split; [| right; by exists txD].
    split; [| by eapply HJ]. split; try done.
    + intros h Hh. destruct (decide (h = TxHash tx)) as [-> | Hne]; [| by apply Hap].
      rewrite Horph. destruct Hacc as (r & Hst & _). by apply (st_new_orphan _ _ _ Hst).
    + rewrite Horph. apply Hok.
Qed.

Lemma maybeAddOrphan_fine tx tag mp r mp' :
  limit cfg = max -> fine mp -> U tx -> sound_tx mp tx true -> maybeAddOrphan cfg tx tag mp = (r, mp') -> fine mp'.
Proof.
  intros Hmax [Hok Hj] Hu Hst Hr. unfold maybeAddOrphan in Hr. rewrite bind_eq in Hr. cbn [lift] in Hr.
  destruct (SerializeSize tx >? _); cbn [reject_if] in Hr; [injection Hr as <- <-; by split |].
  destruct (addOrphan_ok U cfg tx tag mp) as (mp2 & Hr2 & Ho2 & Hroom & Hm & _ & Hsub);
    [apply Hok | unfold room; rewrite <- Hmax in Hok; apply Hok | by apply (st_new_orphan _ _ _ Hst) | done |].
  rewrite Hr2 in Hr. injection Hr as <- <-. injection Hm as _ Hpool Hout _ _ _. split; [| by rewrite Hpool].
  split; rewrite ?Hpool; try apply Hok.
  - eapply pool_ok_same; [exact Hpool | exact Hout | apply Hok].
  - done.
  - intros h Hh. destruct (decide (h = TxHash tx)) as [-> | Hne].
    + destruct Hh as [d Hd]. pose proof (st_new _ _ _ Hst). congruence.
    + destruct (Hsub h Hne) as [Hn | ->]; [done | by apply (mo_apart _ _ Hok)].
  - unfold room in Hroom. fold (limit cfg) in Hroom. by rewrite Hmax in Hroom.
Qed.

Lemma ProcessTransaction_fine tx allowOrphan rateLimit tag mp r mp' :
  limit cfg = max -> fine mp -> U tx -> ProcessTransaction cfg fuel sched tx allowOrphan rateLimit tag mp = (r, mp') -> fine mp'.
Proof.
  intros Hmax Hf Hu Hr. unfold ProcessTransaction in Hr. rewrite bind_eq in Hr.
  destruct (maybeAcceptTransaction cfg fuel sched tx true rateLimit true mp) as [q m1] eqn:Ha.
  destruct (maybeAccept_fine _ _ _ _ _ _ Hf Hu Ha) as [Hf1 [[Hc Hq] | (txD & -> & _)]].
  - destruct q as [y | |]; [| injection Hr as <- <-; done ..]. destruct (Hq y eq_refl) as (Hst & h & l & ->). cbn [fst] in Hr.
    destruct (negb allowOrphan); [by injection Hr as <- <- |]. rewrite bind_eq in Hr.
    destruct (maybeAddOrphan cfg tx tag m1) as [q2 m2] eqn:Hadd. apply maybeAddOrphan_fine in Hadd; [| done | done | done |].
    + destruct q2; injection Hr as <- <-; done.
    + injection Hc as _ Hp Ho _ _ _. destruct Hst. split; rewrite ?Hp, ?Ho; done.
  - cbn [fst snd] in Hr. rewrite bind_eq in Hr. destruct (processOrphans cfg fuel sched tx m1) as [q2 m2] eqn:Hpo.
    apply processOrphans_fine in Hpo; [| done]. destruct q2; injection Hr as <- <-; done.
Qed.
End Ops.
