(* ===== verification/PoolSync.v ===== *)
(** How the memory pool follows the chain: the part of
    [handleBlockchainNotification] (src/btcd/netsync/manager.go) that updates the
    pool when a block is connected or disconnected while the node is current.
    What is announced to peers is the result; the fee estimator is left out. *)

From stdpp Require Import gmap.
From S2P Require Import Prelude Slices ScriptError WireCommon MsgTx MsgBlock Crypto BtcUtil Difficulty SigCache TxRules UtxoView ScriptVal Connect Float64 Policy Mempool.
#[local] Open Scope Z_scope.

Section Sync.
Context `{Crypto} `{MapOrder} `{World} (cfg : Config) (fuel : nat) (sched : list txValidateItem -> list txValidateItem).

(** One transaction of a connected block. *)
Definition confirm_tx (tx : MsgTx) : PM (list TxDesc) :=
  RemoveTransaction tx false;;
  RemoveDoubleSpends tx;;
  RemoveOrphan tx;;
  ProcessOrphans cfg fuel sched tx.

Fixpoint confirm_txs (txs : list MsgTx) : PM (list TxDesc) :=
  match txs with
  | [] => ret []
  | tx :: txs' => acceptedTxs <- confirm_tx tx;; rest <- confirm_txs txs';; ret (acceptedTxs ++ rest)
  end.

(** [block.Transactions()[1:]] *)
Definition BlockConnected (block : MsgBlock) : PM (list TxDesc) :=
  match Transactions block with
  | [] => panic
  | _ :: txs => confirm_txs txs
  end.

(** One transaction of a disconnected block: without an error it is left as it
    is, also when its parents are missing. *)
Definition restore_tx (tx : MsgTx) : PM unit := fun mp =>
  match MaybeAcceptTransaction cfg fuel sched tx false false mp with
  | (Ok _, mp) => (Ok tt, mp)
  | (Err PoolFuel, mp) => (Err PoolFuel, mp)
  | (Err _, mp) => RemoveTransaction tx true mp
  | (Panic, mp) => (Panic, mp)
  end.

Definition BlockDisconnected (block : MsgBlock) : PM unit :=
  match Transactions block with
  | [] => panic
  | _ :: txs => each restore_tx txs
  end.
End Sync.
