(* ===== verification/PoolChain.v ===== *)
(** The memory pool on top of a ledger: where the inputs of its transactions come
    from, what the handler of a connected block does to it, and why a miner can
    take it as it is.

    [speaks_for] is what the pool relies on: the function of its configuration
    that fetches a view answers for one ledger.  [supported] says that every input
    of the pool is a coin of the ledger or an output of the pool. *)

From stdpp Require Import gmap relations sorting.
From S2P Require Import Prelude Slices ScriptError WireCommon MsgTx MsgBlock Crypto BtcUtil Difficulty SigCache TxRules Compress Bucket Chainio UtxoView Supply UtxoCache ScriptVal Connect ConnectSpec Float64 Policy Mempool OrphanPool PoolRemoval Replacement PoolAccept PoolOps PoolSync.
#[local] Open Scope Z_scope.

Section Ledger.
Context `{Crypto} `{MapOrder} `{WorldLaws}.
Context (U : MsgTx -> Prop) (rank : bytes -> nat) (HU : universe U rank).

(** The coin that an output of the pool will be, at the height of what is not mined. *)
Definition pool_coin (p : gmap bytes TxDesc) (op : OutPoint) : option SpentTxOut :=
  d ← p !! Hash op;
  o ← znth (TxOuts (Tx d)) (Index op);
  snd <$> coin_of (IsCoinBaseTx (Tx d)) UnminedHeight (op, o).

Definition avail (L : coins) (p : gmap bytes TxDesc) (op : OutPoint) : option SpentTxOut :=
  match L !! op with Some c => Some c | None => pool_coin p op end.

(** The view that the configuration fetches says what the ledger has at the inputs
    and outputs of the transaction. *)
Record speaks_for (cfg : Config) (L : coins) : Prop := {
  sf_coin : forall tx v op, U tx -> IsCoinBaseTx tx = false -> FetchUtxoView cfg tx = Ok v ->
    op ∈ inputs tx \/ op ∈ outs_of tx -> entry_coin v op = L !! op;
}.

(** ** The view of the inputs *)

Lemma entry_coin_effective v op : entry_coin v op = effective v ∅ !! op.
Proof.
  rewrite lookup_effective, lookup_empty. unfold entry_coin, unspent_entry. destruct (LookupEntry v op) as [e |]; [| done].
  by destruct (IsSpent e).
Qed.

Lemma unspent_coin v op : unspent_entry v op = None <-> entry_coin v op = None.
Proof. unfold entry_coin. by destruct (unspent_entry v op). Qed.

Lemma AddTxOut_coin tx idx h v op :
  entry_coin (AddTxOut tx idx h v) op =
  if decide (op = mkOutPoint (TxHash tx) idx)
  then match znth (TxOuts tx) idx ≫= (fun o => snd <$> coin_of (IsCoinBaseTx tx) h (op, o)) with
       | Some c => Some c
       | None => entry_coin v op
       end
  else entry_coin v op.
Proof.
  rewrite !entry_coin_effective. unfold AddTxOut. destruct (znth (TxOuts tx) idx) as [o |]; cbn [mbind option_bind]; [| by case_decide].
  rewrite addTxOut_effective. unfold coin_of. cbn [fst snd]. destruct (unspendable (PkScript o)); [by case_decide |].
  cbn [fst snd fmap option_fmap option_map]. case_decide as Hd; [subst; apply lookup_insert_eq | by apply lookup_insert_ne].
Qed.

Lemma add_pool_input_coin p v ti op :
  (forall h d, p !! h = Some d -> TxHash (Tx d) = h) ->
  entry_coin (add_pool_input p v ti) op =
  match entry_coin v op with
  | Some c => Some c
  | None => if decide (op = PreviousOutPoint ti) then pool_coin p op else None
  end.
Proof.
  intros Hh. unfold add_pool_input. destruct (unspent_entry v (PreviousOutPoint ti)) as [u |] eqn:Hu.
  { destruct (entry_coin v op) eqn:He; [done |]. case_decide as Hd; [| done]. subst op. apply unspent_coin in He. congruence. }
  apply unspent_coin in Hu. unfold pool_coin. destruct (p !! Hash (PreviousOutPoint ti)) as [d |] eqn:Hd.
  - rewrite AddTxOut_coin. rewrite (Hh _ _ Hd). destruct (PreviousOutPoint ti) as [h i] eqn:Hop. cbn [Hash Index] in *.
    destruct (decide (op = mkOutPoint h i)) as [-> | Hne]; [| by destruct (entry_coin v op)].
    rewrite Hu. cbn [Hash Index]. rewrite Hd. cbn [mbind option_bind]. by destruct (znth _ _ ≫= _).
  - destruct (entry_coin v op) eqn:He; [done |]. case_decide as Hd2; [| done]. subst op. by rewrite Hd.
Qed.

Lemma input_coins p ins : forall v op,
  (forall h d, p !! h = Some d -> TxHash (Tx d) = h) ->
  entry_coin (foldl (add_pool_input p) v ins) op =
  match entry_coin v op with
  | Some c => Some c
  | None => if decide (op ∈ PreviousOutPoint <$> ins) then pool_coin p op else None
  end.
Proof.
  induction ins as [| ti ins IH]; intros v op Hh; cbn [foldl fmap list_fmap].
  { destruct (entry_coin v op); [done |]. rewrite decide_False; [done | by intros ?%elem_of_nil]. }
  rewrite IH, add_pool_input_coin by done. destruct (entry_coin v op) as [c |]; [done |].
  destruct (decide (op = PreviousOutPoint ti)) as [-> | Hne].
  - rewrite (decide_True (P := PreviousOutPoint ti ∈ _ :: _)) by constructor. destruct (pool_coin p _); [done | by case_decide].
  - repeat case_decide; rewrite ?elem_of_cons in *; naive_solver.
Qed.

(** The outputs of the transaction are not unspent, and their keys are dropped. *)
Lemma not_in_chain_spec ops : forall v v', not_in_chain ops v = Ok v' ->
  (forall op, op ∈ ops -> entry_coin v op = None) /\
  (forall op, entry_coin v' op = entry_coin v op) /\
  forall op, entries v' !! op = if decide (op ∈ ops) then None else entries v !! op.
Proof.
  induction ops as [| op0 ops IH]; intros v v' Hr; cbn [not_in_chain] in Hr.
  { injection Hr as <-. split_and!; [intros op Hop; by apply elem_of_nil in Hop | done |].
    intros op. rewrite decide_False; [done | by intros ?%elem_of_nil]. }
  destruct (unspent_entry v op0) as [u |] eqn:Hu; [done |]. apply unspent_coin in Hu.
  assert (Hsame : forall op, entry_coin (RemoveEntry op0 v) op = entry_coin v op).
  { intros op. destruct (decide (op = op0)) as [-> | Hne].
    - rewrite Hu. unfold entry_coin, unspent_entry, LookupEntry, RemoveEntry. cbn [entries]. by rewrite lookup_delete_eq.
    - unfold entry_coin, unspent_entry, LookupEntry, RemoveEntry. cbn [entries]. by rewrite lookup_delete_ne. }
  destruct (IH _ _ Hr) as (Hn & Hc & Hk). split_and!.
  - intros op Hop. apply elem_of_cons in Hop as [-> | Hop]; [done |]. rewrite <- Hsame. by apply Hn.
  - intros op. by rewrite Hc, Hsame.
  - intros op. rewrite Hk. unfold RemoveEntry. cbn [entries]. destruct (decide (op = op0)) as [-> | Hne].
    + rewrite (decide_True (P := op0 ∈ _ :: _)) by constructor. case_decide; [done | apply lookup_delete_eq].
    + rewrite lookup_delete_ne by done. repeat case_decide; rewrite ?elem_of_cons in *; naive_solver.
Qed.

(** At an input, the view says where the coin is. *)
Lemma input_view_coin cfg L mp tx v op :
  speaks_for cfg L -> pool_ok U mp -> U tx -> IsCoinBaseTx tx = false -> input_view cfg mp tx v -> op ∈ inputs tx ->
  entry_coin v op = avail L (pool mp) op.
Proof.
  intros Hsf Hok Hu Hcb (v0 & Hv0 & Hv) Hop. destruct (not_in_chain_spec _ _ _ Hv) as (_ & -> & _).
  unfold fetchInputUtxos in Hv0. destruct (FetchUtxoView cfg tx) as [vc | |] eqn:Hf; try done. injection Hv0 as <-.
  rewrite input_coins by (intros h d Hd; by apply (po_known _ _ Hok)). fold (inputs tx). rewrite decide_True by done.
  rewrite (sf_coin _ _ Hsf tx vc op Hu Hcb Hf) by by left. done.
Qed.

(** What is spent is available, and the fee is what it leaves. *)
Lemma passed_inputs cfg fuel sched L mp tx rdo r :
  speaks_for cfg L -> pool_ok U mp -> U tx -> sound_tx mp tx rdo -> passed cfg fuel sched mp tx r ->
  exists l, Forall2 (fun op c => avail L (pool mp) op = Some c) (inputs tx) l /\
    TxFee r = worth l - paid tx /\ amount_ok (TxFee r) /\ Forall (mature (cfg_Params cfg) (next_height cfg)) l.
Proof.
  intros Hsf Hok Hu Hst Hp.
  destruct (CheckTransactionInputs_spec tx _ _ _ _ (st_sane _ _ _ Hst) (st_no_coinbase _ _ _ Hst) (pa_fee _ _ _ _ _ _ Hp)) as (l & Hl & Hfee & Hok2 & Hm).
  exists l. split_and!; [| done | done | done]. apply Forall2_same_length_lookup. split; [by eapply Forall2_length |].
  intros i op c Hi Hc. pose proof (Forall2_lookup_lr _ _ _ _ _ _ Hl Hi Hc) as He.
  rewrite <- He. symmetry. eapply input_view_coin; [done | done | done | apply Hst | apply Hp | by eapply list_elem_of_lookup_2].
Qed.

(** ** Supported pools *)

(** Every input is available, or one of the transactions [R] spends it. *)
Definition supported_but (R : list MsgTx) (L : coins) (p : gmap bytes TxDesc) : Prop :=
  forall h d op, p !! h = Some d -> op ∈ inputs (Tx d) -> is_Some (avail L p op) \/ exists b, b ∈ R /\ op ∈ inputs b.

Definition supported (L : coins) (p : gmap bytes TxDesc) : Prop :=
  forall h d op, p !! h = Some d -> op ∈ inputs (Tx d) -> is_Some (avail L p op).

Lemma supported_nil L p : supported L p <-> supported_but [] L p.
Proof.
  split; [intros Hs h d op Hd Hop; left; by eapply Hs |]. intros Hs h d op Hd Hop.
  destruct (Hs h d op Hd Hop) as [? | (b & Hb & _)]; [done | by apply elem_of_nil in Hb].
Qed.

(** The outpoints of the coins of a transaction. *)
Lemma outs_spendable_only tx : outs tx = omap (fun q => if unspendable (PkScript q.2) then None else Some q.1) (tx_outputs tx).
Proof.
  unfold outs, made. induction (tx_outputs tx) as [| [op o] l IH]; [done |]. cbn [omap list_omap]. unfold coin_of at 1. cbn [fst snd].
  destruct (unspendable (PkScript o)); [done |]. rewrite fmap_cons. by f_equal.
Qed.

Lemma outs_same tx tx' : TxHash tx = TxHash tx' -> TxOuts tx = TxOuts tx' -> outs tx = outs tx'.
Proof. intros Hh Ho. rewrite !outs_spendable_only. unfold tx_outputs. by rewrite Hh, Ho. Qed.

Lemma outs_outs_of tx op : op ∈ outs tx -> op ∈ outs_of tx.
Proof.
  rewrite outs_spendable_only, list_elem_of_omap. intros ([o x] & Hin & Hx). cbn [fst snd] in Hx. destruct (unspendable _); [done |].
  injection Hx as ->. apply list_elem_of_fmap. by exists (op, x).
Qed.

(** A coin of the pool is an output of one of its transactions. *)
Lemma pool_coin_Some mp op c : pool_ok U mp -> pool_coin (pool mp) op = Some c ->
  exists d, pool mp !! Hash op = Some d /\ op ∈ outs (Tx d) /\ forall p', p' !! Hash op = Some d -> pool_coin p' op = Some c.
Proof.
  intros Hok. unfold pool_coin. destruct (pool mp !! Hash op) as [d |] eqn:Hd; [| done]. cbn [mbind option_bind]. intros Hc. exists d.
  split_and!; [done | | by intros p' ->]. destruct (po_known _ _ Hok _ _ Hd) as [Hh Hu].
  destruct (znth (TxOuts (Tx d)) (Index op)) as [o |] eqn:Ho; [| done]. cbn [mbind option_bind] in Hc. unfold coin_of in Hc. cbn [fst snd] in Hc.
  destruct (unspendable (PkScript o)) eqn:Hun; [done |]. rewrite outs_spendable_only. apply list_elem_of_omap. exists (op, o).
  cbn [fst snd]. rewrite Hun. split; [| done]. unfold znth in Ho. destruct (decide (0 <= Index op)) as [Hi | Hi]; [| done].
  pose proof (lookup_lt_Some _ _ _ Ho) as Hlt. pose proof (u_outs _ _ HU _ Hu) as Hz. unfold zlen in Hz. unfold tx_outputs. rewrite Hh.
  apply list_elem_of_lookup. exists (Z.to_nat (Index op)). rewrite (outpoints_from_lookup _ _ _ _ _ Ho). destruct op as [oh oi]. cbn [Hash Index] in *.
  do 3 f_equal. unfold wrapU. rewrite Z.mod_small; lia.
Qed.

Lemma cuts_supported R L S mp mp' : pool_ok U mp -> cuts U S mp mp' -> supported_but R L (pool mp) -> supported_but R L (pool mp').
Proof.
  intros Hok Hc Hs h d op Hd Hop. pose proof (lookup_weaken _ _ _ _ Hd (ct_sub _ _ _ _ Hc)) as Hd0.
  destruct (Hs h d op Hd0 Hop) as [Hav | Hr]; [left | by right]. unfold avail in *. destruct (L !! op); [done |].
  destruct Hav as [c Hcn]. destruct (pool_coin_Some _ _ _ Hok Hcn) as (d2 & Hd2 & Hout & Hp). exists c. apply Hp.
  destruct (pool mp' !! Hash op) as [d3 |] eqn:Hd3.
  - pose proof (lookup_weaken _ _ _ _ Hd3 (ct_sub _ _ _ _ Hc)). congruence.
  - exfalso. by eapply (ct_closed _ _ _ _ Hc (Hash op) d2 h d op); [| | | apply outs_outs_of |].
Qed.

(** What conflicts is closed under spending. *)
Lemma conflict_closed mp tx h h' : pool_ok U mp -> conflict mp tx h -> spends (pool mp) h h' -> conflict mp tx h'.
Proof.
  intros Hok (op & t & Hop & Ht & Hd) Hs. exists op, t. split_and!; [done | done |]. right.
  pose proof Ht as (_ & dt & Hdt & Htx)%(po_spent _ _ Hok). pose proof Hs as (d & d' & op' & Hpd & Hpd' & Ho & Hi).
  destruct Hd as [-> | (r & Hr & Hc)].
  - exists h'. split; [| done]. exists d', op'. assert (d = dt) as -> by congruence. by rewrite <- Htx.
  - exists r. split; [done |]. by eapply rtc_r.
Qed.

(** Neither the maker of an input of what stays nor that of an input of what comes
    is among the conflicts. *)
Lemma maker_stays cfg fuel sched mp tx r h d op d2 :
  pool_ok U mp -> passed cfg fuel sched mp tx r -> pool mp !! Hash op = Some d2 -> op ∈ outs_of (Tx d2) ->
  (h = TxHash tx /\ op ∈ inputs tx) \/ (pool mp !! h = Some d /\ Conflicts r !! h = None /\ op ∈ inputs (Tx d)) ->
  Conflicts r !! Hash op = None.
Proof.
  intros Hok Hp Hd2 Hout Hcase. destruct (pa_conflicts _ _ _ _ _ _ Hp) as [[_ ->] | HR]; [apply lookup_empty |].
  apply eq_None_not_Some. intros Hs. destruct Hcase as [[-> Hin] | (Hd & Hn & Hin)].
  - apply (rp_apart _ _ _ _ _ HR) in Hs. apply Hs. by eapply ancestor_parent.
  - destruct Hs as [t Ht]. apply (rp_conflicts _ _ _ _ _ HR) in Ht as (Hcf & _).
    assert (Hcf' : conflict mp tx h) by (eapply conflict_closed; [done | exact Hcf |]; by exists d2, d, op).
    assert (Conflicts r !! h = Some (Tx d)); [| congruence]. apply (rp_conflicts _ _ _ _ _ HR). split; [done | by exists d].
Qed.

Lemma accepts_supported cfg fuel sched R L mp mp' tx rdo txD :
  speaks_for cfg L -> pool_ok U mp -> U tx -> accepts cfg fuel sched U mp mp' tx rdo txD ->
  supported_but R L (pool mp) -> supported_but R L (pool mp').
Proof.
  intros Hsf Hok Hu (r & Hst & Hp & Hfee & Had) Hs h d op Hd Hop.
  assert (Hstay : forall d2, (h = TxHash tx /\ op ∈ inputs tx) \/ (pool mp !! h = Some d /\ Conflicts r !! h = None /\ op ∈ inputs (Tx d)) ->
    pool mp !! Hash op = Some d2 -> op ∈ outs_of (Tx d2) -> pool mp' !! Hash op = Some d2).
  { intros d2 Hcase Hd2 Hout. pose proof (maker_stays _ _ _ _ _ _ _ _ _ _ Hok Hp Hd2 Hout Hcase) as Hn.
    rewrite (ad_pool _ _ _ _ _ _ _ Had). rewrite decide_False; [| intros Heq; rewrite Heq, (st_new _ _ _ Hst) in Hd2; done].
    rewrite decide_False; [done |]. by apply eq_None_not_Some. }
  assert (Hav : (h = TxHash tx /\ op ∈ inputs tx) \/ (pool mp !! h = Some d /\ Conflicts r !! h = None /\ op ∈ inputs (Tx d)) ->
    is_Some (avail L (pool mp) op) -> is_Some (avail L (pool mp') op)).
  { intros Hcase. unfold avail. destruct (L !! op); [done |]. intros [c Hc]. destruct (pool_coin_Some _ _ _ Hok Hc) as (d2 & Hd2 & Hout & Hpc).
    exists c. apply Hpc, Hstay; [done | done | by apply outs_outs_of]. }
  rewrite (ad_pool _ _ _ _ _ _ _ Had) in Hd. case_decide as Hh.
  - injection Hd as <-. rewrite (de_tx _ _ _ _ (ad_desc _ _ _ _ _ _ _ Had)) in Hop. left. apply Hav; [by left |].
    destruct (passed_inputs _ _ _ _ _ _ _ _ Hsf Hok Hu Hst Hp) as (l & Hl & _). apply list_elem_of_lookup in Hop as [i Hi].
    destruct (Forall2_lookup_l _ _ _ _ _ Hl Hi) as (c & _ & Hc). by exists c.
  - case_decide as Hcf; [done |]. apply eq_None_not_Some in Hcf.
    destruct (Hs h d op Hd Hop) as [Hx | Hx]; [left; apply Hav; [by right | done] | by right].
Qed.

(** ** A connected block *)

(** Coins stay until they are spent; what a transaction makes is there. *)
Lemma apply_tx_keeps h tx S S1 l op : apply_tx h tx S = Some (S1, l) ->
  (is_Some (S !! op) -> is_Some (S1 !! op) \/ IsCoinBaseTx tx = false /\ op ∈ inputs tx) /\ (op ∈ outs tx -> is_Some (S1 !! op)).
Proof.
  assert (Hadd : forall (l : list (OutPoint * SpentTxOut)) (B : coins), (is_Some (B !! op) \/ op ∈ l.*1) -> is_Some (add_coins l B !! op)).
  { clear. induction l as [| [o c] l IH]; intros B Hb; [destruct Hb as [? | Hb]; [done | by apply elem_of_nil in Hb] |].
    rewrite add_coins_cons. cbn [fst snd]. apply IH. rewrite fmap_cons, elem_of_cons in Hb. cbn [fst] in Hb.
    destruct (decide (op = o)) as [-> | Hne]; [left; rewrite lookup_insert_eq; by eexists |]. rewrite lookup_insert_ne by done. naive_solver. }
  unfold apply_tx. destruct (IsCoinBaseTx tx).
  - intros [= <- <-]. split; [left; apply Hadd; by left | intros Ho; apply Hadd; right; by rewrite made_outs].
  - destruct (decide _); [| done]. destruct (lookups S (inputs tx)); [| done]. cbn [mbind option_bind]. intros [= <- <-]. split.
    + intros Hs. destruct (decide (op ∈ inputs tx)) as [Hi | Hi]; [by right | left]. apply Hadd. left.
      rewrite lookup_del_coins. by rewrite decide_False.
    + intros Ho. apply Hadd. right. by rewrite made_outs.
Qed.

Lemma apply_txs_coin h txs : forall S S' l op, apply_txs h txs S = Some (S', l) ->
  is_Some (S !! op) -> is_Some (S' !! op) \/ exists b, b ∈ txs /\ op ∈ inputs b.
Proof.
  induction txs as [| tx txs IH]; intros S S' l op Ha Hs; cbn [apply_txs] in Ha; [injection Ha as <- <-; by left |].
  destruct (apply_tx h tx S) as [[S1 l1] |] eqn:H1t; cbn [mbind option_bind] in Ha; [| done].
  destruct (apply_txs h txs S1) as [[S2 l2] |] eqn:H2t; cbn [mbind option_bind] in Ha; [| done]. injection Ha as <- <-.
  destruct (apply_tx_keeps _ _ _ _ _ op H1t) as [Hk _]. destruct (Hk Hs) as [Hs1 | [_ Hi]].
  - destruct (IH _ _ _ _ H2t Hs1) as [? | (b & Hb & Hin)]; [by left | right]. exists b. split; [by constructor | done].
  - right. exists tx. split; [by constructor | done].
Qed.

(** A ledger that becomes another one with a block supports what the first did, but
    for what the block spends. *)
Lemma block_supports h tx0 rest L L' l p :
  IsCoinBaseTx tx0 = true -> apply_txs h (tx0 :: rest) L = Some (L', l) -> supported L p -> supported_but rest L' p.
Proof.
  intros Hcb Ha Hs k d op Hd Hop. specialize (Hs k d op Hd Hop). unfold avail in *. destruct (L' !! op) eqn:Hl'; [by left |].
  destruct (L !! op) as [c |] eqn:Hl; [right | by left]. cbn [apply_txs] in Ha. unfold apply_tx in Ha at 1. rewrite Hcb in Ha.
  cbn [mbind option_bind] in Ha. destruct (apply_txs h rest _) as [[S2 l2] |] eqn:H2t; cbn [mbind option_bind] in Ha; [| done].
  injection Ha as <- <-. destruct (apply_txs_coin _ _ _ _ _ op H2t) as [[c' Hc'] | Hb]; [| congruence | done].
  assert (Hcoin : apply_tx h tx0 L = Some (add_coins (made tx0 h) L, [])) by (unfold apply_tx; by rewrite Hcb).
  destruct (apply_tx_keeps _ _ _ _ _ op Hcoin) as [Hk _]. destruct Hk as [? | [Hn _]]; [by exists c | done | congruence].
Qed.

(** A transaction of the pool that is in the ledger now. *)
Lemma confirmed_supported R L b mp :
  pool_ok U mp -> U b -> (forall op, op ∈ outs b -> is_Some (L !! op) \/ exists b', b' ∈ R /\ op ∈ inputs b') ->
  supported_but R L (pool mp) -> supported_but R L (delete (TxHash b) (pool mp)).
Proof.
  intros Hok Hub Hout Hs k d op Hd Hop. apply lookup_delete_Some in Hd as [Hne Hd].
  destruct (Hs k d op Hd Hop) as [Hav | Hr]; [| by right]. unfold avail in *. destruct (L !! op) as [c |] eqn:Hl; [by left |].
  destruct Hav as [c Hc]. destruct (pool_coin_Some _ _ _ Hok Hc) as (d2 & Hd2 & Ho & Hp).
  destruct (decide (Hash op = TxHash b)) as [Heq | Hneq].
  - destruct (po_known _ _ Hok _ _ Hd2) as [Hh Hu2]. rewrite Heq in Hh. destruct (u_hash _ _ HU _ _ Hu2 Hub Hh) as [_ Houts].
    rewrite (outs_same _ _ Hh Houts) in Ho. destruct (Hout op Ho) as [[? ?] | ?]; [congruence | by right].
  - left. exists c. apply Hp. by rewrite lookup_delete_ne.
Qed.

(** The double spends of a transaction that is in the ledger are gone. *)
Lemma rivals_supported R L b mp mp' :
  pool_ok U mp -> pool mp !! TxHash b = None -> cuts U (rivals mp b) mp mp' ->
  (forall op t, op ∈ inputs b -> outpoints mp' !! op = Some t -> TxHash t = TxHash b) ->
  supported_but (b :: R) L (pool mp) -> supported_but R L (pool mp').
Proof.
  intros Hok Hn Hc Hfree Hs. pose proof (cuts_supported _ _ _ _ _ Hok Hc Hs) as Hs'. intros h d op Hd Hop.
  destruct (Hs' h d op Hd Hop) as [? | (b' & Hb' & Hin)]; [by left |]. apply elem_of_cons in Hb' as [-> | Hb']; [| right; by exists b'].
  exfalso. pose proof (ct_ok _ _ _ _ Hc) as Hok'. destruct (po_known _ _ Hok' _ _ Hd) as [Hh _].
  assert (Ht : outpoints mp' !! op = Some (Tx d)) by (apply (po_spent _ _ Hok'); split; [done | exists d; by rewrite Hh]).
  apply (Hfree _ _ Hin) in Ht. rewrite Hh in Ht. subst h. pose proof (lookup_weaken _ _ _ _ Hd (ct_sub _ _ _ _ Hc)). congruence.
Qed.

(** A transaction of a connected block, up to the orphans that may follow it. *)
Lemma confirm_prefix cfg sched max b (mp : TxPool) :
  U b -> mempool_ok U max mp ->
  exists m1 m2 m3 : TxPool, (forall fuel, confirm_tx cfg fuel sched b mp = processOrphans cfg fuel sched b m3) /\
    mempool_ok U max m1 /\ pool m1 = delete (TxHash b) (pool mp) /\
    cuts U (rivals m1 b) m1 m2 /\ (forall op t, op ∈ inputs b -> outpoints m2 !! op = Some t -> TxHash t = TxHash b) /\
    trims U m2 m3.
Proof.
  intros Hub Hok. destruct (removeTransaction_one U b mp (mo_pool _ _ _ Hok)) as (m1 & Hr1 & Hok1 & Hside & Hp1).
  assert (Hm1 : mempool_ok U max m1).
  { injection Hside as Ho Hb _ _ _ _. destruct Hok as [H1' H2' H3' H4' H5' H6']. split; rewrite ?Hp1, ?Ho; try done.
    - intros h d Hd. apply lookup_delete_Some in Hd as [_ Hd]. by eapply H2'.
    - intros h d Hd. apply lookup_delete_Some in Hd as [_ Hd]. by eapply H3'.
    - by eapply orphans_ok_same.
    - intros h [d Hd]. apply lookup_delete_Some in Hd as [_ Hd]. apply H5'. by exists d. }
  destruct (RemoveDoubleSpends_cuts U rank HU b m1 Hok1) as (m2 & Hr2 & Hc2 & Hfree).
  destruct (removeOrphan_one U b m2) as (m3 & Hr3 & Ht3 & _); [by eapply mo_orphans, cuts_ok |].
  exists m1, m2, m3. split_and!; [intros fuel | done ..]. unfold confirm_tx, RemoveTransaction, RemoveOrphan.
  by rewrite bind_eq, Hr1, bind_eq, Hr2, bind_eq, Hr3.
Qed.

Section Confirm.
Context (cfg : Config) (fuel : nat) (sched : list txValidateItem -> list txValidateItem) (max : Z) (L : coins).
Context (Hsf : speaks_for cfg L).

Lemma supported_accepts R mp mp' tx rdo txD :
  mempool_ok U max mp -> supported_but R L (pool mp) -> U tx -> accepts cfg fuel sched U mp mp' tx rdo txD -> supported_but R L (pool mp').
Proof. intros Hok Hs Hu Ha. by eapply accepts_supported; [done | apply Hok | | |]. Qed.

Abbreviation fine_but R := (fine U max (supported_but R L)).

Lemma confirm_tx_fine R b mp r mp' :
  U b -> (forall op, op ∈ outs b -> is_Some (L !! op) \/ exists b', b' ∈ R /\ op ∈ inputs b') ->
  fine_but (b :: R) mp -> confirm_tx cfg fuel sched b mp = (r, mp') -> fine_but R mp'.
Proof.
  intros Hub Hout [Hok Hs] Hr. destruct (confirm_prefix cfg sched _ _ _ Hub Hok) as (m1 & m2 & m3 & Hrun & Hm1 & Hp1 & Hc2 & Hfree & Ht3).
  rewrite Hrun in Hr. assert (Hs1 : supported_but (b :: R) L (pool m1)).
  { rewrite Hp1. apply confirmed_supported; [apply Hok | done | | done]. intros op Hop.
    destruct (Hout op Hop) as [? | (b' & Hb' & Hin)]; [by left | right; exists b'; split; [by constructor | done]]. }
  assert (Hf2 : fine_but R m2).
  { split; [by eapply cuts_ok |]. eapply rivals_supported; [apply Hm1 | by rewrite Hp1, lookup_delete_eq | exact Hc2 | done | done]. }
  eapply (processOrphans_fine fuel sched U rank HU cfg max) in Hr; [exact Hr | | by eapply trims_fine].
  intros. by eapply supported_accepts.
Qed.

Lemma confirm_txs_fine h txs : forall S l mp r mp',
  Forall U txs -> apply_txs h txs S = Some (L, l) -> fine_but txs mp ->
  confirm_txs cfg fuel sched txs mp = (Ok r, mp') -> fine_but [] mp'.
Proof.
  induction txs as [| b txs IH]; intros S l mp r mp' Hu Ha Hf Hr; cbn [confirm_txs] in Hr; [by injection Hr as <- <- |].
  apply Forall_cons in Hu as [Hub Hu]. cbn [apply_txs] in Ha. destruct (apply_tx h b S) as [[S1 l1] |] eqn:H1t; cbn [mbind option_bind] in Ha; [| done].
  destruct (apply_txs h txs S1) as [[S2 l2] |] eqn:H2t; cbn [mbind option_bind] in Ha; [| done]. injection Ha as -> <-.
  rewrite bind_eq in Hr. destruct (confirm_tx cfg fuel sched b mp) as [q m1] eqn:Hc.
  apply (confirm_tx_fine txs) in Hc; [| done | | done].
  - destruct q as [acc | |]; [| done ..]. rewrite bind_eq in Hr. destruct (confirm_txs cfg fuel sched txs m1) as [q2 m2] eqn:Hc2.
    destruct q2 as [acc2 | |]; [| done ..]. injection Hr as <- <-. by eapply IH.
  - intros op Hop. destruct (apply_tx_keeps _ _ _ _ _ op H1t) as [_ Hm]. by eapply apply_txs_coin; [exact H2t | apply Hm].
Qed.
End Confirm.
End Ledger.
