(* ===== verification/PoolMine.v ===== *)
(** What connected and disconnected blocks leave of the memory pool, and the pool as
    a block that could be mined.

    A pool that is [supported] by a ledger can be mined on top of it as it is: in
    the order of their ranks its transactions apply one after the other. *)

From stdpp Require Import gmap relations sorting.
From S2P Require Import Prelude Slices ScriptError WireCommon MsgTx MsgBlock Crypto BtcUtil Difficulty SigCache TxRules Compress Bucket Chainio UtxoView Supply UtxoCache ScriptVal Connect ConnectSpec Float64 Policy Mempool OrphanPool PoolRemoval Replacement PoolAccept PoolOps PoolSync PoolChain.
#[local] Open Scope Z_scope.

Section Mine.
Context `{Crypto} `{MapOrder} `{WorldLaws}.
Context (U : MsgTx -> Prop) (rank : bytes -> nat) (HU : universe U rank).

(** ** Blocks *)

Section Blocks.
Context (cfg : Config) (fuel : nat) (sched : list txValidateItem -> list txValidateItem) (max : Z).

Lemma BlockConnected_supported h block tx0 rest L L' l mp r mp' :
  Transactions block = tx0 :: rest -> IsCoinBaseTx tx0 = true -> Forall U rest -> speaks_for U cfg L' ->
  apply_txs h (Transactions block) L = Some (L', l) -> mempool_ok U max mp -> supported L (pool mp) ->
  BlockConnected cfg fuel sched block mp = (Ok r, mp') -> mempool_ok U max mp' /\ supported L' (pool mp').
Proof.
  intros Hb Hcb Hu Hsf Ha Hok Hs Hr. unfold BlockConnected in Hr. rewrite Hb in Ha, Hr.
  pose proof (block_supports _ _ _ _ _ _ _ Hcb Ha Hs) as Hs0. cbn [apply_txs] in Ha.
  destruct (apply_tx h tx0 L) as [[S1 l1] |]; cbn [mbind option_bind] in Ha; [| done].
  destruct (apply_txs h rest S1) as [[S2 l2] |] eqn:H2t; cbn [mbind option_bind] in Ha; [| done]. injection Ha as -> _.
  eapply (confirm_txs_fine U rank HU cfg fuel sched max L' Hsf) in Hr; [| done | done | by split].
  destruct Hr as [Hok' Hs']. split; [done | by apply supported_nil].
Qed.

(** Whatever the outcome, the invariant holds. *)
Lemma process_orphans_ok t mp r mp' :
  mempool_ok U max mp -> processOrphans cfg fuel sched t mp = (r, mp') -> mempool_ok U max mp'.
Proof. intros Hok Hr. by eapply (processOrphans_fine fuel sched U rank HU cfg max (fun _ => True)) in Hr as [? _]. Qed.

Lemma confirm_txs_ok txs : forall mp r mp',
  Forall U txs -> mempool_ok U max mp -> confirm_txs cfg fuel sched txs mp = (r, mp') -> mempool_ok U max mp'.
Proof.
  induction txs as [| b txs IH]; intros mp r mp' Hu Hok Hr; cbn [confirm_txs] in Hr; [by injection Hr as <- <- |].
  apply Forall_cons in Hu as [Hub Hu]. rewrite bind_eq in Hr.
  destruct (confirm_prefix U rank HU cfg sched _ _ _ Hub Hok) as (m1 & m2 & m3 & Hrun & Hm1 & _ & Hc2 & _ & Ht3).
  rewrite Hrun in Hr. destruct (processOrphans cfg fuel sched b m3) as [q m4] eqn:Hpo.
  apply process_orphans_ok in Hpo; [| eapply trims_ok; [exact Ht3 |]; by eapply cuts_ok].
  destruct q as [acc | |]; [| injection Hr as <- <-; done ..]. rewrite bind_eq in Hr.
  destruct (confirm_txs cfg fuel sched txs m4) as [q2 m5] eqn:Hc. apply IH in Hc; [| done | done].
  destruct q2; injection Hr as <- <-; done.
Qed.

Lemma BlockConnected_ok block mp r mp' :
  Forall U (tail (Transactions block)) -> mempool_ok U max mp ->
  BlockConnected cfg fuel sched block mp = (r, mp') -> mempool_ok U max mp'.
Proof.
  unfold BlockConnected. destruct (Transactions block) as [| tx0 rest]; cbn [tail]; intros Hu Hok Hr;
    [by injection Hr as <- <- | by eapply confirm_txs_ok].
Qed.

Lemma MaybeAccept_ok tx isNew rateLimit mp r mp' :
  U tx -> mempool_ok U max mp -> MaybeAcceptTransaction cfg fuel sched tx isNew rateLimit mp = (r, mp') -> mempool_ok U max mp'.
Proof.
  intros Hu Hok Hr. eapply (maybeAccept_fine fuel sched U rank HU cfg max (fun _ => True)) in Hr as [[? _] _]; done.
Qed.

Lemma RemoveTransaction_ok tx redeemers mp r mp' :
  U tx -> mempool_ok U max mp -> RemoveTransaction tx redeemers mp = (r, mp') -> mempool_ok U max mp'.
Proof.
  intros Hu Hok Hr. unfold RemoveTransaction in Hr. destruct redeemers.
  - destruct (removeTransaction_cuts U rank HU tx mp (mo_pool _ _ _ Hok) Hu) as (m & Hrun & Hc & _).
    rewrite Hrun in Hr. injection Hr as <- <-. by eapply cuts_ok.
  - destruct (removeTransaction_one U tx mp (mo_pool _ _ _ Hok)) as (m1 & Hr1 & Hok1 & Hside & Hp1).
    rewrite Hr1 in Hr. injection Hr as <- <-.
    injection Hside as Ho Hb _ _ _ _. destruct Hok as [H1' H2' H3' H4' H5' H6']. split; rewrite ?Hp1, ?Ho; try done.
    + intros h d Hd. apply lookup_delete_Some in Hd as [_ Hd]. by eapply H2'.
    + intros h d Hd. apply lookup_delete_Some in Hd as [_ Hd]. by eapply H3'.
    + by eapply orphans_ok_same.
    + intros h [d Hd]. apply lookup_delete_Some in Hd as [_ Hd]. apply H5'. by exists d.
Qed.

Lemma restore_tx_ok tx mp r mp' :
  U tx -> mempool_ok U max mp -> restore_tx cfg fuel sched tx mp = (r, mp') -> mempool_ok U max mp'.
Proof.
  intros Hu Hok Hr. unfold restore_tx in Hr. destruct (MaybeAcceptTransaction cfg fuel sched tx false false mp) as [q m] eqn:Ha.
  apply MaybeAccept_ok in Ha; [| done | done].
  destruct q as [y | e |]; [by injection Hr as <- <- | | by injection Hr as <- <-].
  destruct e; try (by eapply RemoveTransaction_ok in Hr); by injection Hr as <- <-.
Qed.

Lemma BlockDisconnected_ok block mp r mp' :
  Forall U (tail (Transactions block)) -> mempool_ok U max mp ->
  BlockDisconnected cfg fuel sched block mp = (r, mp') -> mempool_ok U max mp'.
Proof.
  unfold BlockDisconnected. destruct (Transactions block) as [| tx0 rest]; cbn [tail]; [intros _ Hok [= <- <-]; done |].
  revert mp. induction rest as [| tx rest IH]; intros mp Hu Hok Hr; cbn [each] in Hr; [by injection Hr as <- <- |].
  apply Forall_cons in Hu as [Hut Hu]. rewrite bind_eq in Hr. destruct (restore_tx cfg fuel sched tx mp) as [q m] eqn:Hq.
  apply restore_tx_ok in Hq; [| done | done]. destruct q; [by eapply IH | by injection Hr as <- <- ..].
Qed.
End Blocks.

(** ** A block of the pool *)

(** No two of the transactions spend the same outpoint; each input is in the ledger or
    made by one of them. *)
Record closed_txs (S : coins) (l : list MsgTx) : Prop := {
  cl_from : forall t op, t ∈ l -> op ∈ inputs t -> is_Some (S !! op) \/ exists t', t' ∈ l /\ op ∈ outs t';
  cl_apart : forall i j t t' op, l !! i = Some t -> l !! j = Some t' -> op ∈ inputs t -> op ∈ inputs t' -> i = j;
  cl_known : Forall (fun t => U t /\ NoDup (inputs t) /\ IsCoinBaseTx t = false) l;
}.

Definition before (t t' : MsgTx) : Prop := (rank (TxHash t) <= rank (TxHash t'))%nat.

Lemma before_first S t l : StronglySorted before (t :: l) -> closed_txs S (t :: l) ->
  Forall (fun op => is_Some (S !! op)) (inputs t).
Proof.
  intros Hs Hc. apply Forall_forall. intros op Hop. destruct (cl_from _ _ Hc t op) as [? | (t' & Ht' & Hout)]; [constructor | done | done |].
  exfalso. pose proof (cl_known _ _ Hc) as Hk. rewrite Forall_forall in Hk. destruct (Hk t) as [Hu _]; [constructor |].
  pose proof (u_rank _ _ HU t op Hu Hop) as Hlt. rewrite (outs_hash _ _ Hout) in Hlt.
  apply elem_of_cons in Ht' as [-> | Ht']; [lia |]. inversion Hs as [| ? ? _ Hall]; subst. rewrite Forall_forall in Hall.
  specialize (Hall _ Ht'). unfold before in Hall. lia.
Qed.

Lemma sorted_applies h l : forall S, StronglySorted before l -> closed_txs S l -> is_Some (apply_txs h l S).
Proof.
  induction l as [| t l IH]; intros S Hs Hc; cbn [apply_txs]; [by eexists |].
  pose proof (before_first _ _ _ Hs Hc) as Hin. pose proof (cl_known _ _ Hc) as Hk.
  apply Forall_cons in Hk as [(Hu & Hnd & Hcb) Hk]. destruct (apply_tx h t S) as [[S1 l1] |] eqn:Ha.
  2: { exfalso. unfold apply_tx in Ha. rewrite Hcb, decide_True in Ha by done. unfold lookups in Ha.
       destruct (list.mapM (fun op => S !! op) (inputs t)) eqn:Hm; [done |]. apply mapM_None, Exists_exists in Hm as (op & Hop & Hn).
       rewrite Forall_forall in Hin. destruct (Hin op Hop). congruence. }
  cbn [mbind option_bind]. inversion Hs as [| ? ? Hs' _]; subst. destruct (IH S1 Hs') as [[S2 l2] Hr].
  2: { rewrite Hr. by eexists. }
  split; [| | done].
  - intros t' op Ht' Hop. destruct (apply_tx_keeps _ _ _ _ _ op Ha) as [Hkeep Hmade].
    destruct (cl_from _ _ Hc t' op) as [Hx | (t2 & Ht2 & Hout)]; [by constructor | done | |].
    + destruct (Hkeep Hx) as [? | [_ Hi]]; [by left |]. exfalso. apply list_elem_of_lookup in Ht' as [i Hi'].
      pose proof (cl_apart _ _ Hc 0%nat (Datatypes.S i) t t' op eq_refl Hi' Hi Hop). done.
    + apply elem_of_cons in Ht2 as [-> | Ht2]; [left; by apply Hmade | right; by exists t2].
  - intros i j t1 t2 op H1i H2i Hi Hj. pose proof (cl_apart _ _ Hc (Datatypes.S i) (Datatypes.S j) t1 t2 op H1i H2i Hi Hj). lia.
Qed.

#[local] Instance before_dec : RelDecision before.
Proof. intros t t'. unfold before. apply _. Defined.

#[local] Instance before_trans : Transitive before.
Proof. intros t1 t2 t3. unfold before. lia. Qed.

#[local] Instance before_total : Total before.
Proof. intros t1 t2. unfold before. lia. Qed.

(** The pool can be mined as it is, in some order. *)
Lemma pool_minable max L mp h :
  mempool_ok U max mp -> supported L (pool mp) ->
  exists order, order ≡ₚ Tx <$> (map_to_list (pool mp)).*2 /\ is_Some (apply_txs h order L).
Proof.
  intros Hok Hs. set (l := Tx <$> _). exists (merge_sort before l). split; [apply merge_sort_Permutation |].
  assert (Hin : forall t, t ∈ l <-> exists k d, pool mp !! k = Some d /\ Tx d = t).
  { intros t. unfold l. rewrite list_elem_of_fmap. setoid_rewrite list_elem_of_fmap. split.
    - intros (d & -> & [k d'] & -> & Hd). apply elem_of_map_to_list in Hd. by exists k, d'.
    - intros (k & d & Hd & <-). exists d. split; [done |]. exists (k, d). split; [done | by apply elem_of_map_to_list]. }
  assert (Hm : forall t, t ∈ merge_sort before l <-> t ∈ l) by (intros t; by rewrite merge_sort_Permutation).
  assert (Hnd : NoDup (TxHash <$> merge_sort before l)).
  { rewrite merge_sort_Permutation. unfold l. rewrite <- !list_fmap_compose.
    assert (Heq : (((TxHash ∘ Tx) ∘ snd) <$> map_to_list (pool mp)) = (map_to_list (pool mp)).*1).
    { apply list_fmap_ext. intros i [k d] Hi. apply list_elem_of_lookup_2, elem_of_map_to_list in Hi. cbn. by apply (po_known _ _ (mo_pool _ _ _ Hok)). }
    rewrite Heq. apply NoDup_fst_map_to_list. }
  apply sorted_applies.
  - apply (StronglySorted_merge_sort before).
  - split.
    + intros t op Ht Hop. apply Hm, Hin in Ht as (k & d & Hd & <-). pose proof (Hs _ _ _ Hd Hop) as Hav. unfold avail in Hav.
      destruct (L !! op); [by left | right]. destruct Hav as [c Hc].
      destruct (pool_coin_Some U rank HU _ _ _ (mo_pool _ _ _ Hok) Hc) as (d2 & Hd2 & Hout & _). exists (Tx d2).
      split; [| done]. apply Hm, Hin. by exists (Hash op), d2.
    + intros i j t t' op Hi Hj Hop Hop'. eapply (NoDup_lookup _ _ _ (TxHash t) Hnd); rewrite list_lookup_fmap, ?Hi, ?Hj; [done |]. cbn. f_equal.
      apply list_elem_of_lookup_2 in Hi, Hj. apply Hm, Hin in Hi as (k & d & Hd & <-). apply Hm, Hin in Hj as (k' & d' & Hd' & <-).
      pose proof (po_spent _ _ (mo_pool _ _ _ Hok)) as Hsp. destruct (po_known _ _ (mo_pool _ _ _ Hok) _ _ Hd) as [Hk _].
      destruct (po_known _ _ (mo_pool _ _ _ Hok) _ _ Hd') as [Hk' _].
      assert (outpoints mp !! op = Some (Tx d)) by (apply Hsp; split; [done |]; exists d; by rewrite Hk).
      assert (outpoints mp !! op = Some (Tx d')) by (apply Hsp; split; [done |]; exists d'; by rewrite Hk'). congruence.
    + apply Forall_forall. intros t Ht. apply Hm, Hin in Ht as (k & d & Hd & <-).
      destruct (mo_sane _ _ _ Hok _ _ Hd) as [Hsn Hcb]. split_and!; [by apply (po_known _ _ (mo_pool _ _ _ Hok)) in Hd as [_ ?] | | done].
      apply Hsn.
Qed.
End Mine.

(** ** The chain as the pool sees it *)

Section Chain.
Context `{PubKeysLaws} `{Crypto} {B : Type} `{BucketLaws B}.

(** [BlockChain.FetchUtxoView] (src/btcd/blockchain/utxoviewpoint.go) *)
Definition fetch_tx_view (tx : MsgTx) : M (utxoCache B) StoreError UtxoViewpoint :=
  let needed := outs_of tx ++ (if IsCoinBaseTx tx then [] else inputs tx) in
  fetchUtxosFromCache needed NewUtxoViewpoint.

(** What the pool is told while the cache is this one; an error of the database is
    no broken rule. *)
Definition view_from (c : utxoCache B) (tx : MsgTx) : checked UtxoViewpoint :=
  match fst (fetch_tx_view tx c) with Ok v => Ok v | Err _ => Err AssertError | Panic => Panic end.

(** A cache speaks for its ledger, and goes on to when it has been asked. *)
Lemma cache_speaks U cfg c S0 :
  (forall tx, U tx -> Forall outpoint_ok (outs_of tx ++ inputs tx)) ->
  cache_ok c S0 -> FetchUtxoView cfg = view_from c -> speaks_for U cfg (ledger c S0).
Proof.
  intros Hok Hc Hcfg. split. intros tx v op Hu Hcb Hv Hop. rewrite Hcfg in Hv. unfold view_from, fetch_tx_view in Hv. rewrite Hcb in Hv.
  destruct (fetchUtxosFromCache _ _ c) as [[v' | |] c'] eqn:Hf; try done. injection Hv as ->.
  destruct (load_needed c S0 _ _ _ _ Hc (Hok tx Hu) Hf) as (_ & _ & _ & Hl). specialize (Hl op).
  rewrite decide_True in Hl by (apply elem_of_app; tauto). destruct Hl as (e & He & Hsay). rewrite <- Hsay.
  unfold entry_coin, unspent_entry, LookupEntry. rewrite He. destruct e as [e |]; [| done]. cbn. by destruct (IsSpent e).
Qed.

Lemma fetch_keeps tx c S0 o c' :
  IsCoinBaseTx tx = false -> Forall outpoint_ok (outs_of tx ++ inputs tx) -> cache_ok c S0 ->
  fetch_tx_view tx c = (Ok o, c') -> cache_ok c' S0 /\ ledger c' S0 = ledger c S0.
Proof.
  intros Hcb Hok Hc Hr. unfold fetch_tx_view in Hr. rewrite Hcb in Hr.
  by destruct (load_needed c S0 _ _ _ _ Hc Hok Hr) as (_ & ? & ? & _).
Qed.
End Chain.
