(* ===== verification/PoolEnds.v ===== *)
(** The methods of the memory pool end: with enough fuel for the script engine they
    have one outcome, and the fuel that is computed from the maps is never spent. *)

From stdpp Require Import gmap relations.
From S2P Require Import Prelude Slices ScriptError WireCommon MsgTx MsgBlock Crypto SigHash EngineInv EngineRuns BtcUtil Difficulty SigCache TxRules UtxoView ScriptVal Connect ConnectSpec Float64 Policy Mempool OrphanPool PoolRemoval Replacement PoolAccept PoolOps PoolSync PoolChain PoolMine.
#[local] Open Scope Z_scope.

(** * Computations with fuel *)

(** From some fuel on the outcome is the same, and it is not a lack of fuel. *)
Definition ends {A} (m : nat -> PM A) (mp : TxPool) : Prop :=
  exists f0 r mp', (forall f, (f0 <= f)%nat -> m f mp = (r, mp')) /\ r <> Err PoolFuel.

Lemma ends_const {A} (m : PM A) mp : fst (m mp) <> Err PoolFuel -> ends (fun _ => m) mp.
Proof. intros Hm. exists 0%nat, (fst (m mp)), (snd (m mp)). split; [by intros f _; destruct (m mp) | done]. Qed.

Lemma ends_bind {A B} (m : nat -> PM A) (k : nat -> A -> PM B) mp :
  ends m mp -> (forall f a mp', m f mp = (Ok a, mp') -> ends (fun f => k f a) mp') ->
  ends (fun f => bind (m f) (k f)) mp.
Proof.
  intros (f0 & r & mp1 & Hm & Hr) Hk. destruct r as [a | e |].
  - destruct (Hk f0 a mp1 (Hm f0 ltac:(lia))) as (f1 & r & mp2 & Hk1 & Hr1). exists (Nat.max f0 f1), r, mp2. split; [| done].
    intros f Hf. rewrite bind_eq, Hm by lia. apply Hk1. lia.
  - exists f0, (Err e), mp1. split; [intros f Hf; by rewrite bind_eq, Hm | congruence].
  - exists f0, Panic, mp1. split; [intros f Hf; by rewrite bind_eq, Hm | done].
Qed.

Lemma ends_lift {A B} (o : pooled A) (k : nat -> A -> PM B) mp :
  o <> Err PoolFuel -> (forall a, o = Ok a -> ends (fun f => k f a) mp) -> ends (fun f => bind (lift o) (k f)) mp.
Proof.
  intros Ho Hk. apply (ends_bind (fun _ => lift o) k); [by apply ends_const |]. intros _ a mp' [= -> <-]. by apply Hk.
Qed.

Lemma ends_get {B} (k : nat -> TxPool -> PM B) mp : ends (fun f => k f mp) mp -> ends (fun f => bind get (k f)) mp.
Proof. intros Hk. exact Hk. Qed.

Lemma ends_ordered {A B} `{World} (l : list A) (k : nat -> list A -> PM B) mp :
  ends (fun f => k f (shuffle (calls mp) l)) (called mp) -> ends (fun f => bind (ordered l) (k f)) mp.
Proof. intros Hk. exact Hk. Qed.

Lemma ends_loop {A X} (f : nat -> A -> X -> PM (X * bool)) (I : TxPool -> Prop) l : forall x mp,
  I mp -> (forall a x m, a ∈ l -> I m -> ends (fun n => f n a x) m) ->
  (forall n a x m o m', a ∈ l -> I m -> f n a x m = (o, m') -> I m') ->
  ends (fun n => loop (f n) l x) mp.
Proof.
  induction l as [| a l IH]; intros x mp Hi He Hk; cbn [loop]; [by apply ends_const |].
  apply (ends_bind (fun n => f n a x)); [apply He; [constructor | done] |]. intros n [x' b] mp' Hr. cbn [fst snd].
  destruct b; [by apply ends_const |]. apply IH; [eapply Hk; [constructor | done | done] | |].
  - intros a' y m Ha Hm. apply He; [by constructor | done].
  - intros n' a' y m o m' Ha Hm Hf. eapply Hk; [by constructor | done | done].
Qed.

(** * The checks *)

Lemma of_rule_fuel e : of_rule e <> PoolFuel.
Proof. by destruct e. Qed.

Lemma from_chain_fuel {A} (o : checked A) : from_chain o <> Err PoolFuel.
Proof. destruct o; cbn; [done | | done]. intros [= He]. by eapply of_rule_fuel. Qed.

Lemma reject_if_fuel b c : reject_if b c <> Err PoolFuel.
Proof. by destruct b. Qed.

Lemma with_code_fuel {A} (o : pooled A) : with_code o <> Err PoolFuel.
Proof. by destruct o. Qed.

Lemma obind_fuel {A B} (o : pooled A) (k : A -> pooled B) :
  o <> Err PoolFuel -> (forall a, k a <> Err PoolFuel) -> obind o k <> Err PoolFuel.
Proof. intros Ho Hk. destruct o; cbn; [by apply Hk | congruence | done]. Qed.

Lemma not_in_chain_fuel ops : forall v, not_in_chain ops v <> Err PoolFuel.
Proof. induction ops as [| op ops IH]; intros v; cbn [not_in_chain]; [done |]. by destruct (unspent_entry v op). Qed.

Create HintDb fuel discriminated.
#[export] Hint Resolve from_chain_fuel reject_if_fuel with_code_fuel obind_fuel not_in_chain_fuel : fuel.

Section Ends.
Context `{Crypto} `{!CryptoLaws} `{MapOrder} `{WorldLaws} (sched : list txValidateItem -> list txValidateItem).
Context (Hsched : forall l, sched l ≡ₚ l).
Context (U : MsgTx -> Prop) (rank : bytes -> nat) (HU : universe U rank) (HW : forall tx, U tx -> witnesses_ok tx).

Lemma segwit_fuel cfg tx : validateSegWitDeployment cfg tx <> Err PoolFuel.
Proof. unfold validateSegWitDeployment. destruct (negb _); [done |]. destruct (IsDeploymentActive _ _); [apply reject_if_fuel | done ..]. Qed.

Lemma standardness_fuel cfg tx h t v : validateStandardness cfg tx h t v <> Err PoolFuel.
Proof. unfold validateStandardness. destruct (AcceptNonStd _); auto with fuel. Qed.

Lemma sig_cost_fuel cfg tx v : validateSigCost cfg tx v <> Err PoolFuel.
Proof. unfold validateSigCost. auto with fuel. Qed.

Lemma double_spend_fuel cfg mp ins : forall b, pool_ok U mp -> pool_double_spend cfg mp ins b <> Err PoolFuel.
Proof.
  induction ins as [| ti ins IH]; intros b Hok; cbn [pool_double_spend]; [done |].
  destruct (outpoints mp !! PreviousOutPoint ti) as [t |] eqn:Ht; [| by apply IH].
  destruct (RejectReplacement _); [done |]. destruct (spender _ _ HU _ _ _ Hok Ht) as (_ & Hut & _ & _).
  destruct (signalsReplacement_spec U rank HU mp t Hok Hut) as (s & -> & _). cbn [obind]. destruct s; [by apply IH | done].
Qed.

Lemma relay_fuel cfg tx fee size v h isNew rateLimit mp :
  fst (validateRelayFeeMet cfg tx fee size v h isNew rateLimit mp) <> Err PoolFuel.
Proof.
  unfold validateRelayFeeMet. destruct (_ && _); [done |]. destruct (fee >=? _); [done |]. destruct (_ && _); [done |].
  rewrite bind_eq. unfold lift. destruct (reject_if _ _) as [[] | e |] eqn:He; [| | done].
  - rewrite bind_eq. cbn. by destruct (fgeb _ _).
  - cbn. intros [= ->]. by apply reject_if_fuel in He.
Qed.

Lemma scripts_end tx v mp : witnesses_ok tx -> ends (fun f => validate_scripts f sched tx v) mp.
Proof.
  intros Hw. unfold validate_scripts, ValidateTransactionScripts.
  set (active := segwit_active _ && _).
  destruct (if active then cache_hashes tx v (snd (script_caches mp)) else Ok (snd (script_caches mp))) as [hc | e |] eqn:Hhc.
  2, 3: exists 0%nat; eexists _, _; split; [intros f _; rewrite bind_eq; cbn [get]; rewrite bind_eq; unfold lift; rewrite Hhc; reflexivity |].
  2: { cbn [of_val]. destruct e as [e |]; [intros [= He]; by eapply of_rule_fuel | exfalso].
       destruct active; [| done]. unfold cache_hashes in Hhc. destruct (snd (script_caches mp)); [| done].
       destruct (ContainsHashes _ _); [done |]. destruct (AddSigHashes _ _ _) as [| e |] eqn:Ha; [done | | done].
       injection Hhc as ->. unfold AddSigHashes in Ha. by destruct (NewTxSigHashes _ _). }
  2: done.
  set (items := sched (items_from 0 (TxIns tx) tx (if active then hc ≫= GetSigHashes (TxHash tx) else None))).
  destruct (validate_all_ends StandardVerifyFlags v items (fst (script_caches mp))) as (f0 & [o sc] & Hr & Hn & _).
  { unfold items. rewrite Hsched. apply Forall_forall. intros item Hin. apply items_from_spec in Hin as (j & ti & _ & _ & ->). done. }
  exists f0. eexists _, _. split.
  - intros f Hf. rewrite bind_eq. cbn [get]. rewrite bind_eq. unfold lift. rewrite Hhc, bind_eq. cbn [put].
    unfold zoom. cbn [fst snd]. fold items. rewrite (Hr f Hf). reflexivity.
  - cbn [fst of_val] in *. destruct o as [a | [e |] |]; cbn; [done | intros [= He]; by eapply of_rule_fuel | done | done].
Qed.

Lemma check_ends cfg tx isNew rateLimit rdo mp :
  pool_ok U mp -> fees_ok (pool mp) -> U tx ->
  ends (fun f => checkMempoolAcceptance cfg f sched tx isNew rateLimit rdo) mp.
Proof.
  intros Hok Hfees Hu. unfold checkMempoolAcceptance. cbv zeta.
  apply ends_lift; [apply segwit_fuel | intros _ _]. apply ends_get.
  apply ends_lift; [apply reject_if_fuel | intros _ _].
  apply ends_lift; [apply reject_if_fuel | intros [] Hsize]. apply reject_if_Ok, Z.ltb_ge in Hsize.
  apply ends_lift; [apply from_chain_fuel | intros [] Hsane]. apply from_chain_Ok, tx_sanity_Ok in Hsane.
  apply ends_lift; [apply reject_if_fuel | intros [] Hcb]. apply reject_if_Ok in Hcb.
  apply ends_lift; [by apply double_spend_fuel | intros isReplacement _].
  apply ends_lift; [apply from_chain_fuel | intros v0 _]. apply ends_lift; [apply not_in_chain_fuel | intros v _].
  apply ends_ordered. destruct (missing_parents _); [| by apply ends_const].
  apply ends_lift; [apply from_chain_fuel | intros fee Hfee]. apply from_chain_Ok in Hfee.
  apply ends_lift; [apply standardness_fuel | intros _ _]. apply ends_lift; [apply from_chain_fuel | intros lock _].
  apply ends_lift; [apply reject_if_fuel | intros _ _]. apply ends_lift; [apply sig_cost_fuel | intros _ _].
  apply ends_bind; [apply ends_const, relay_fuel | intros _ [] mp1 Hrelay].
  pose proof (calm_relay cfg tx fee (GetTxVirtualSize tx) v (int32 (BestHeight cfg + 1)) isNew rateLimit (called mp)) as Hc1.
  rewrite Hrelay in Hc1. injection Hc1 as _ Hp1 _ _ Ho1 _. apply ends_bind.
  - apply ends_const. destruct isReplacement; [| done].
    destruct (CheckTransactionInputs_spec tx _ v (cfg_Params cfg) fee Hsane Hcb Hfee) as (_ & _ & _ & Hamt & _).
    destruct (validateReplacement_spec U rank HU cfg mp1 tx fee) as (o & mp2 & Hrun & _ & _ & _ & He);
      [split; intros *; rewrite ?Hp1, ?Ho1; apply Hok | by rewrite Hp1 | done | done | by apply (vsize_pos U rank HU) |].
    rewrite Hrun. cbn [fst]. intros ->. by destruct (He _ eq_refl).
  - intros _ F mp2 _. apply ends_bind; [by apply scripts_end, HW |]. intros _ [] mp3 _. by apply ends_const.
Qed.

Lemma accept_ends cfg tx isNew rateLimit rdo mp :
  pool_ok U mp -> fees_ok (pool mp) -> U tx ->
  ends (fun f => maybeAcceptTransaction cfg f sched tx isNew rateLimit rdo) mp.
Proof.
  intros Hok Hfees Hu. destruct (check_ends cfg tx isNew rateLimit rdo mp Hok Hfees Hu) as (f0 & r & mp1 & Hc & Hr).
  destruct (maybeAcceptTransaction cfg f0 sched tx isNew rateLimit rdo mp) as [o mp2] eqn:Ho. exists f0, o, mp2. split.
  - intros f Hf. rewrite <- Ho. unfold maybeAcceptTransaction. rewrite !bind_eq. rewrite (Hc f Hf), (Hc f0 ltac:(lia)). reflexivity.
  - intros ->. apply (accept_error cfg f0 sched U rank HU) in Ho; [| done ..]. rewrite (Hc f0 ltac:(lia)) in Ho. by injection Ho.
Qed.

(** * Orphans *)

Section Orphans.
Context (cfg : Config) (max : Z).

Abbreviation ok := (mempool_ok U max).
#[local] Abbreviation always := (fun _ : gmap bytes TxDesc => True).

Lemma fine_ok mp : fine U max always mp <-> ok mp.
Proof. unfold fine. tauto. Qed.

Lemma try_orphan_ends t o x mp :
  ok mp -> orphans mp !! TxHash t = Some o -> o_tx o = t -> ends (fun f => try_orphan cfg f sched t x) mp.
Proof.
  intros Hok Ho Ht. destruct (oo_known _ _ _ (mo_orphans _ _ _ Hok) _ _ Ho) as [_ Hu]. rewrite Ht in Hu.
  destruct (accept_ends cfg t true true false mp (mo_pool _ _ _ Hok) (mo_fees _ _ _ Hok) Hu) as (f0 & q & mp1 & Ha & Hq).
  destruct (try_orphan cfg f0 sched t x mp) as [r mp2] eqn:Hr. exists f0, r, mp2. split.
  { intros f Hf. rewrite <- Hr. unfold try_orphan. by rewrite (Ha f Hf), (Ha f0 ltac:(lia)). }
  intros ->. unfold try_orphan in Hr. rewrite (Ha f0 ltac:(lia)) in Hr. specialize (Ha f0 ltac:(lia)).
  destruct (accept_spec cfg f0 sched U rank HU _ _ _ _ _ _ _ (mo_pool _ _ _ Hok) (mo_fees _ _ _ Hok) Hu Ha)
    as [[Hc _] | (txD & -> & Hacc)].
  - assert (Hf1 : ok mp1) by (by eapply calm_ok).
    assert (Horph : orphans mp1 = orphans mp) by (by injection Hc).
    assert (Hrem : (removeOrphan t true;; ret (x, true)) mp1 <> (Err PoolFuel, mp2)).
    { destruct (removeOrphan_trims U t mp1) as (mp3 & Hr3 & _); [apply Hf1 | intros o' Ho'; rewrite Horph in Ho'; congruence |].
      by rewrite bind_eq, Hr3. }
    destruct q as [[[| h l] [txD |]] | e |]; try done; [| by destruct e].
    destruct (removeOrphan_one U t mp1 (mo_orphans _ _ _ Hf1)) as (mp3 & Hr3 & _). by rewrite bind_eq, Hr3 in Hr.
  - destruct (accepts_ok f0 sched U _ _ _ _ _ _ _ Hok Hacc) as (_ & _ & _ & Ho1 & _).
    destruct (removeOrphan_one U t mp1 Ho1) as (mp3 & Hr3 & _). by rewrite bind_eq, Hr3 in Hr.
Qed.

Lemma try_orphan_ok f t o x mp r mp' :
  ok mp -> orphans mp !! TxHash t = Some o -> o_tx o = t -> try_orphan cfg f sched t x mp = (r, mp') -> ok mp'.
Proof.
  intros Hok Ho Ht Hr.
  destruct (try_orphan_spec f sched U rank HU cfg max always ltac:(done) t o x mp r mp' (proj2 (fine_ok mp) Hok) Ho Ht Hr) as [Hf _].
  apply Hf.
Qed.

Lemma range_by_prev_ends op x mp : ok mp -> ends (fun f => range_by_prev op (try_orphan cfg f sched) x) mp.
Proof.
  intros Hok. unfold range_by_prev. apply ends_get, ends_ordered. apply (ends_loop _ ok).
  - by apply (calm_ok U max mp).
  - intros h y m _ Hm. apply ends_get. destruct (by_prev m op !! h) as [t |] eqn:Ht; [| by apply ends_const].
    destruct (indexed_stored U _ _ _ _ _ (mo_orphans _ _ _ Hm) Ht) as (Hh & _ & _ & _ & o & Ho & Hot). rewrite <- Hh in Ho.
    by eapply try_orphan_ends.
  - intros f h y m q m' _ Hm Hstep. rewrite (bind_Ok get _ m m m) in Hstep by done.
    destruct (by_prev m op !! h) as [t |] eqn:Ht; [| by injection Hstep as <- <-].
    destruct (indexed_stored U _ _ _ _ _ (mo_orphans _ _ _ Hm) Ht) as (Hh & _ & _ & _ & o & Ho & Hot). rewrite <- Hh in Ho.
    by eapply try_orphan_ok.
Qed.

Lemma process_outputs_ends t x mp : ok mp -> ends (fun f => process_outputs cfg f sched t x) mp.
Proof.
  intros Hok. unfold process_outputs. apply (ends_loop _ ok); [done | |].
  - intros op y m _ Hm. apply ends_bind; [by apply range_by_prev_ends |]. intros f y' m' _. by apply ends_const.
  - intros f op y m q m' _ Hm Hstep. rewrite bind_eq in Hstep.
    destruct (range_by_prev op (try_orphan cfg f sched) y m) as [q1 m1] eqn:Hrange.
    eapply (range_by_prev_grows f sched U rank HU cfg max always ltac:(done) op y (size (orphans m))) in Hrange as [Hf1 _];
      [| split; [by apply fine_ok | by apply grown_not]].
    apply fine_ok in Hf1. destruct q1; by injection Hstep as <- <-.
Qed.

(** Each step takes an item, and each new item has taken an orphan. *)
Lemma process_list_ends steps : forall acc todo mp,
  ok mp -> (size (orphans mp) + length todo <= steps)%nat -> ends (fun f => process_list cfg f sched steps acc todo) mp.
Proof.
  induction steps as [| steps IH]; intros acc todo mp Hok Hs; destruct todo as [| t todo]; cbn [process_list];
    try (by apply ends_const); cbn [length] in Hs; [lia |].
  apply (ends_bind (fun f => process_outputs cfg f sched t (acc, todo))); [by apply process_outputs_ends |].
  intros f y mp1 Hout.
  destruct (process_outputs_grows f sched U rank HU cfg max always ltac:(done) t (acc, todo) mp (Ok y) mp1) as [_ Hg];
    [by apply fine_ok | done |].
  destruct (Hg y eq_refl) as [Hf1 Hgr]. apply grown_le in Hgr. cbn [snd] in Hgr. apply IH; [apply Hf1 | lia].
Qed.

Lemma processOrphans_ends t mp : ok mp -> ends (fun f => processOrphans cfg f sched t) mp.
Proof.
  intros Hok. unfold processOrphans. apply ends_get.
  apply ends_bind; [apply process_list_ends; [done | cbn [length]; lia] |]. intros f acc m1 Hl. apply ends_const.
  apply (process_list_fine f sched U rank HU cfg max always ltac:(done)) in Hl; [| by apply fine_ok].
  destruct (removeOrphanDoubleSpends_fine U max always t m1 Hl) as (m2 & Hr2 & Hf2). rewrite bind_eq, Hr2.
  destruct (each_ind (fun txD => removeOrphanDoubleSpends (Tx txD)) (fine U max always) acc m2) as (m3 & Hr3 & Hf3); [done | |].
  { intros a m _ Hm. by apply removeOrphanDoubleSpends_fine. }
  by rewrite bind_eq, Hr3.
Qed.

Lemma maybeAddOrphan_fuel tx tag mp : ok mp -> U tx -> sound_tx mp tx true -> limit cfg = max -> fst (maybeAddOrphan cfg tx tag mp) <> Err PoolFuel.
Proof.
  intros Hok Hu Hst Hmax. unfold maybeAddOrphan. rewrite bind_eq. cbn [lift].
  destruct (SerializeSize tx >? _); cbn [reject_if]; [done |].
  destruct (addOrphan_ok U cfg tx tag mp) as (mp2 & Hr2 & _);
    [apply Hok | unfold room; rewrite <- Hmax in Hok; apply Hok | by apply (st_new_orphan _ _ _ Hst) | done |].
  by rewrite Hr2.
Qed.

(** ** Whole methods *)

Lemma ProcessTransaction_ends tx allowOrphan rateLimit tag mp :
  limit cfg = max -> ok mp -> U tx -> ends (fun f => ProcessTransaction cfg f sched tx allowOrphan rateLimit tag) mp.
Proof.
  intros Hmax Hok Hu. unfold ProcessTransaction.
  apply ends_bind; [apply accept_ends; [apply Hok | apply Hok | done] |]. intros f y mp1 Ha.
  destruct (maybeAccept_fine f sched U rank HU cfg max always ltac:(done) _ _ _ _ _ _ (proj2 (fine_ok mp) Hok) Hu Ha)
    as [Hf1 [[Hc Hq] | (txD & Hy & Hacc)]]; apply fine_ok in Hf1.
  - destruct (Hq y eq_refl) as (Hst & h & l & ->). cbn [fst]. destruct (negb allowOrphan); [by apply ends_const |].
    apply ends_bind; [apply ends_const, maybeAddOrphan_fuel; try done | intros _ [] m _; by apply ends_const].
    injection Hc as _ Hp Ho _ _ _. destruct Hst. split; rewrite ?Hp, ?Ho; done.
  - injection Hy as ->. cbn [fst snd]. apply ends_bind; [by apply processOrphans_ends |]. intros _ acc m _. by apply ends_const.
Qed.

Lemma confirm_prefix_any b mp :
  U b -> ok mp -> exists m3, ok m3 /\ forall f, confirm_tx cfg f sched b mp = processOrphans cfg f sched b m3.
Proof.
  intros Hub Hok. destruct (confirm_prefix U rank HU cfg sched max b mp Hub Hok) as (m1 & m2 & m3 & Hrun & Hm1 & _ & Hc2 & _ & Ht3).
  exists m3. split; [| done]. eapply trims_ok; [done | by eapply cuts_ok].
Qed.

Lemma confirm_txs_end txs : forall mp, Forall U txs -> ok mp -> ends (fun f => confirm_txs cfg f sched txs) mp.
Proof.
  induction txs as [| b txs IH]; intros mp Hu Hok; cbn [confirm_txs]; [by apply ends_const |].
  apply Forall_cons in Hu as [Hub Hu]. apply (ends_bind (fun f => confirm_tx cfg f sched b)).
  - destruct (confirm_prefix_any b mp Hub Hok) as (m3 & Hm3 & Hrun). destruct (processOrphans_ends b m3 Hm3) as (f0 & r & m & Hr & Hn).
    exists f0, r, m. split; [intros f Hf; by rewrite Hrun, Hr | done].
  - intros f acc mp1 Hc. destruct (confirm_prefix_any b mp Hub Hok) as (m3 & Hm3 & Hrun). rewrite Hrun in Hc.
    eapply (processOrphans_fine f sched U rank HU cfg max always ltac:(done)) in Hc; [| by apply fine_ok]. apply fine_ok in Hc.
    apply (ends_bind (fun f => confirm_txs cfg f sched txs)); [by apply IH |]. intros _ acc2 m _. by apply ends_const.
Qed.

Lemma BlockConnected_ends block mp :
  Forall U (tail (Transactions block)) -> ok mp -> ends (fun f => BlockConnected cfg f sched block) mp.
Proof.
  unfold BlockConnected. destruct (Transactions block) as [| tx0 rest]; cbn [tail]; intros Hu Hok; [by apply ends_const |].
  by apply confirm_txs_end.
Qed.

Lemma restore_tx_ends tx mp : U tx -> ok mp -> ends (fun f => restore_tx cfg f sched tx) mp.
Proof.
  intros Hu Hok. destruct (accept_ends cfg tx false false true mp (mo_pool _ _ _ Hok) (mo_fees _ _ _ Hok) Hu) as (f0 & q & mp1 & Ha & Hq).
  destruct (restore_tx cfg f0 sched tx mp) as [r mp2] eqn:Hr. exists f0, r, mp2. split.
  { intros f Hf. rewrite <- Hr. unfold restore_tx, MaybeAcceptTransaction. by rewrite (Ha f Hf), (Ha f0 ltac:(lia)). }
  intros ->. unfold restore_tx, MaybeAcceptTransaction in Hr. rewrite (Ha f0 ltac:(lia)) in Hr.
  assert (Hok1 : ok mp1) by (by eapply (MaybeAccept_ok U rank HU cfg f0 sched max tx false false); [| | apply (Ha f0 ltac:(lia))]).
  destruct (removeTransaction_cuts U rank HU tx mp1 (mo_pool _ _ _ Hok1) Hu) as (m & Hrun & _).
  destruct q as [y | e |]; [done | | done]. destruct e; try done; unfold RemoveTransaction in Hr; by rewrite Hrun in Hr.
Qed.

Lemma BlockDisconnected_ends block mp :
  Forall U (tail (Transactions block)) -> ok mp -> ends (fun f => BlockDisconnected cfg f sched block) mp.
Proof.
  unfold BlockDisconnected. destruct (Transactions block) as [| tx0 rest]; cbn [tail]; intros Hu Hok; [by apply ends_const |].
  revert mp Hok. induction rest as [| tx rest IH]; intros mp Hok; cbn [each]; [by apply ends_const |].
  apply Forall_cons in Hu as [Hut Hu].
  apply (ends_bind (fun f => restore_tx cfg f sched tx) (fun f _ => each (restore_tx cfg f sched) rest)); [by apply restore_tx_ends |].
  intros f [] mp1 Hr. apply IH; [done |]. by eapply (restore_tx_ok U rank HU).
Qed.
End Orphans.
End Ends.
