(* ===== verification/PoolProps.v ===== *)
(** What the memory pool guarantees: the invariant of every pool that its methods
    reach, with the end of every method, what accepting a transaction means, when a
    transaction replaces others, and how the pool follows the chain. *)

From stdpp Require Import gmap relations.
From S2P Require Import Prelude Slices ScriptError WireCommon MsgTx MsgBlock Script Crypto SigHash EngineInv EngineRuns BtcUtil Difficulty SigCache TxRules Compress Bucket Chainio Validate UtxoView Supply UtxoCache Threshold ScriptVal Connect ConnectSpec Float64 Policy PolicySpec Mempool OrphanPool PoolRemoval Replacement PoolAccept PoolOps PoolSync PoolChain PoolMine PoolEnds.
#[local] Open Scope Z_scope.

(** * Runs of methods *)

Section Steps.
Context `{Crypto} `{MapOrder} `{WorldLaws} (U : MsgTx -> Prop) (max : Z).

(** A method of the pool or the handler of a block is run, with any outcome; the
    configuration answers for the chain of the moment, and the policy keeps the
    limit of orphans. *)
Inductive pool_step : TxPool -> TxPool -> Prop :=
| step_process cfg fuel sched tx allowOrphan rateLimit tag mp o mp' :
    limit cfg = max -> U tx -> ProcessTransaction cfg fuel sched tx allowOrphan rateLimit tag mp = (o, mp') -> pool_step mp mp'
| step_accept cfg fuel sched tx isNew rateLimit mp o mp' :
    U tx -> MaybeAcceptTransaction cfg fuel sched tx isNew rateLimit mp = (o, mp') -> pool_step mp mp'
| step_check cfg fuel sched tx mp o mp' :
    CheckMempoolAcceptance cfg fuel sched tx mp = (o, mp') -> pool_step mp mp'
| step_process_orphans cfg fuel sched tx mp o mp' :
    ProcessOrphans cfg fuel sched tx mp = (o, mp') -> pool_step mp mp'
| step_remove tx removeRedeemers mp o mp' :
    U tx -> RemoveTransaction tx removeRedeemers mp = (o, mp') -> pool_step mp mp'
| step_double_spends tx mp o mp' : RemoveDoubleSpends tx mp = (o, mp') -> pool_step mp mp'
| step_remove_orphan tx mp o mp' : RemoveOrphan tx mp = (o, mp') -> pool_step mp mp'
| step_remove_tag tag mp o mp' : RemoveOrphansByTag tag mp = (o, mp') -> pool_step mp mp'
| step_connected cfg fuel sched block mp o mp' :
    Forall U (tail (Transactions block)) -> BlockConnected cfg fuel sched block mp = (o, mp') -> pool_step mp mp'
| step_disconnected cfg fuel sched block mp o mp' :
    Forall U (tail (Transactions block)) -> BlockDisconnected cfg fuel sched block mp = (o, mp') -> pool_step mp mp'.

Definition pool_reach : TxPool -> TxPool -> Prop := rtc pool_step.

Context (rank : bytes -> nat) (HU : universe U rank).

Lemma pool_step_ok mp mp' : pool_step mp mp' -> mempool_ok U max mp -> mempool_ok U max mp'.
Proof.
  intros Hs Hok. destruct Hs as [cfg fuel sched tx ? ? ? mp o mp' Hl Hu Hr | ? ? ? ? ? ? ? ? ? Hu Hr | cfg fuel sched tx mp o mp' Hr
    | ? ? ? ? ? ? ? Hr | ? ? ? ? ? Hu Hr | tx mp o mp' Hr | tx mp o mp' Hr | tag mp o mp' Hr | ? ? ? ? ? ? ? Hu Hr | ? ? ? ? ? ? ? Hu Hr].
  - eapply (ProcessTransaction_fine fuel sched U rank HU cfg max (fun _ => True)) in Hr as [? _]; done.
  - by eapply (MaybeAccept_ok U rank HU).
  - eapply calm_ok; [| exact Hok]. pose proof (calm_check cfg fuel sched tx true true true mp) as Hc.
    unfold CheckMempoolAcceptance in Hr. by rewrite Hr in Hc.
  - by eapply (process_orphans_ok U rank HU).
  - by eapply (RemoveTransaction_ok U rank HU).
  - destruct (RemoveDoubleSpends_cuts U rank HU tx mp (mo_pool _ _ _ Hok)) as (m & Hrun & Hc & _). rewrite Hrun in Hr.
    injection Hr as <- <-. by eapply cuts_ok.
  - destruct (removeOrphan_one U tx mp (mo_orphans _ _ _ Hok)) as (m & Hrun & Ht & _). unfold RemoveOrphan in Hr. rewrite Hrun in Hr.
    injection Hr as <- <-. by eapply trims_ok.
  - destruct (RemoveOrphansByTag_trims U tag mp (mo_orphans _ _ _ Hok)) as (n & m & Hrun & Ht). rewrite Hrun in Hr.
    injection Hr as <- <-. by eapply trims_ok.
  - by eapply (BlockConnected_ok U rank HU).
  - by eapply (BlockDisconnected_ok U rank HU).
Qed.

Lemma pool_reach_ok now caches mp : pool_reach (New now caches) mp -> mempool_ok U max mp.
Proof.
  unfold pool_reach. intros Hr. assert (Hn : mempool_ok U max (New now caches)) by apply New_ok.
  induction Hr as [m | m m1 m' Hs _ IH]; [done |]. apply IH. by eapply pool_step_ok.
Qed.
End Steps.

(** * What a check has looked at *)

(** The scripts of all inputs run without an error. *)
Lemma validated_scripts `{Crypto} `{MapOrder} fuel sched tx v flags c c' :
  (forall l, sched l ≡ₚ l) -> ValidateTransactionScripts fuel sched tx v flags c = (Ok tt, c') -> scripts_pass flags v [tx].
Proof.
  intros Hsched Hr. unfold ValidateTransactionScripts in Hr. apply bind_inv_Ok in Hr as (st & s0 & [= <- <-] & Hr).
  apply bind_inv_Ok in Hr as (hc & s1 & Hhc & Hr). apply bind_inv_Ok in Hr as ([] & s2 & _ & Hr).
  match type of Hr with context [items_from 0 (TxIns tx) tx ?x] => set (h := x) in Hr end. unfold zoom in Hr.
  destruct (validate_all fuel flags v (sched (items_from 0 (TxIns tx) tx h)) (fst s2)) as [o sc] eqn:Hv.
  injection Hr as -> _. apply validate_all_passes in Hv. rewrite Hsched, Forall_forall in Hv.
  intros tx' i ti Htx Hi Hti. apply list_elem_of_singleton in Htx as ->. exists h. apply Hv, items_from_spec. by exists i, ti.
Qed.

(** The outputs of a sane transaction are amounts with scripts that are not long. *)
Lemma sane_fits tx : tx_sane tx -> Forall fits (TxOuts tx).
Proof.
  intros Hs. pose proof (amounts _ Hs) as Ha. pose proof (base_size _ Hs) as Hb. unfold SerializeSizeStripped, baseSize in Hb.
  assert (Hm : Forall (fun s => TxOut_SerializeSize s <= zsum TxOut_SerializeSize (TxOuts tx)) (TxOuts tx)).
  { apply zsum_member. intros o. unfold TxOut_SerializeSize. pose proof (VarIntSerializeSize_range (zlen (PkScript o))).
    pose proof (zlen_nonneg (PkScript o)). lia. }
  rewrite Forall_forall in Ha, Hm. apply Forall_forall. intros o Ho. split; [by apply Ha |]. specialize (Hm _ Ho).
  unfold TxOut_SerializeSize at 1 in Hm. pose proof (VarIntSerializeSize_range (zlen (PkScript o))).
  pose proof (VarIntSerializeSize_range (zlen (TxIns tx))). pose proof (VarIntSerializeSize_range (zlen (TxOuts tx))).
  assert (0 <= zsum TxIn_SerializeSize (TxIns tx)).
  { apply zsum_nonneg. intros i. unfold TxIn_SerializeSize. pose proof (VarIntSerializeSize_range (zlen (SignatureScript i))).
    pose proof (zlen_nonneg (SignatureScript i)). lia. }
  assert (MaxBlockBaseSize < 2 ^ 40) by reflexivity. lia.
Qed.

Lemma standardness_Ok cfg tx h t v : tx_sane tx -> validateStandardness cfg tx h t v = Ok tt -> AcceptNonStd (policy cfg) = false ->
  standard_tx tx h t (MinRelayTxFee (policy cfg)) (MaxTxVersion (policy cfg)) /\ Forall (standard_input v) (TxIns tx).
Proof.
  intros Hs Hr Hn. unfold validateStandardness in Hr. rewrite Hn in Hr. apply seq_iff in Hr as ([] & H1' & H2').
  rewrite with_code_iff in H1', H2'. apply standard_iff in H1'; [| by apply sane_fits].
  split; [done | by apply inputs_standard_iff].
Qed.

(** The outputs of the pool that spend what the transaction spends have to signal. *)
Lemma double_spend_iff `{Crypto} `{MapOrder} `{World} U rank cfg mp ins : forall b b',
  universe U rank -> pool_ok U mp ->
  pool_double_spend cfg mp ins b = Ok b' <->
  (forall op t, op ∈ PreviousOutPoint <$> ins -> outpoints mp !! op = Some t ->
     RejectReplacement (policy cfg) = false /\ signals (pool mp) t) /\
  (b' = true <-> b = true \/ exists op, op ∈ PreviousOutPoint <$> ins /\ is_Some (outpoints mp !! op)).
Proof.
  induction ins as [| ti ins IH]; intros b b' HU Hok; cbn [pool_double_spend fmap list_fmap].
  { split; [intros [= <-] | intros [_ Hb]].
    - split; [intros op t Hop; by apply elem_of_nil in Hop |]. split; [by left | intros [? | (op & Hop & _)]; [done | by apply elem_of_nil in Hop]].
    - f_equal. apply eq_bool_prop_intro. rewrite !Is_true_true, Hb. split; [by left | intros [? | (op & Hop & _)]; [done | by apply elem_of_nil in Hop]]. }
  destruct (outpoints mp !! PreviousOutPoint ti) as [t |] eqn:Ht.
  - destruct (spender _ _ HU _ _ _ Hok Ht) as (_ & Hut & _ & _).
    destruct (signalsReplacement_spec U rank HU mp t Hok Hut) as (s & Hs & Hsig). destruct (RejectReplacement (policy cfg)) eqn:Hrr.
    { split; [done |]. intros [Hall _]. destruct (Hall (PreviousOutPoint ti) t); [constructor | done | done]. }
    rewrite Hs. cbn [obind]. destruct s.
    2: { split; [done |]. intros [Hall _]. destruct (Hall (PreviousOutPoint ti) t) as [_ Hx%Hsig]; [constructor | done | done]. }
    rewrite (IH true b' HU Hok). split; intros [Hall Hb].
    + split; [| split; [intros _; right; exists (PreviousOutPoint ti); split; [constructor | by exists t] | intros _; apply Hb; by left]].
      intros op t' Hop Ht'. apply elem_of_cons in Hop as [-> | Hop]; [| by eapply Hall]. assert (t' = t) as -> by congruence.
      split; [done | by apply Hsig].
    + split; [intros op t' Hop; apply Hall; by constructor |]. split; [by left |]. intros _. apply Hb. right.
      exists (PreviousOutPoint ti). split; [constructor | by exists t].
  - rewrite (IH b b' HU Hok). split; intros [Hall Hb]; (split; [intros op t' Hop Ht' |]).
    + apply elem_of_cons in Hop as [-> | Hop]; [congruence | by eapply Hall].
    + rewrite Hb. split; (intros [? | (op & Hop & Hs)]; [by left | right; exists op; split; [| done]]); [by constructor |].
      apply elem_of_cons in Hop as [-> | Hop]; [by destruct Hs; congruence | done].
    + apply (Hall op); [by constructor | done].
    + rewrite Hb. split; (intros [? | (op & Hop & Hs)]; [by left | right; exists op; split; [| done]]); [| by constructor].
      apply elem_of_cons in Hop as [-> | Hop]; [by destruct Hs; congruence | done].
Qed.

(** ** An accepted transaction *)

Section Accepted.
Context `{Crypto} `{MapOrder} `{WorldLaws}.

(** It is new and sane, it spends what the ledger or the pool has, its scripts run
    under the standard rules, and it is standard if the policy says so.  Whatever
    spends the same has signalled that it can be replaced, and goes with all that
    depends on it. *)
Record accepted (cfg : Config) (L : coins) (mp mp' : TxPool) (tx : MsgTx) (d : TxDesc) : Prop := {
  ac_new : pool mp !! TxHash tx = None /\ orphans mp !! TxHash tx = None;
  ac_sane : tx_sane tx /\ IsCoinBaseTx tx = false /\ MinStandardTxNonWitnessSize <= SerializeSizeStripped tx;
  ac_desc : Tx d = tx /\ FeePerKB d = Z.quot (Fee d * 1000) (GetTxVirtualSize tx) /\ d_Height d = BestHeight cfg;
  ac_inputs : exists l, Forall2 (fun op c => avail L (pool mp) op = Some c) (inputs tx) l /\
    Fee d = worth l - paid tx /\ amount_ok (Fee d) /\ Forall (mature (cfg_Params cfg) (next_height cfg)) l;
  ac_view : exists v, (forall op, op ∈ inputs tx -> entry_coin v op = avail L (pool mp) op) /\
    scripts_pass StandardVerifyFlags v [tx] /\
    (AcceptNonStd (policy cfg) = false ->
       standard_tx tx (next_height cfg) (MedianTimePast cfg) (MinRelayTxFee (policy cfg)) (MaxTxVersion (policy cfg)) /\
       Forall (standard_input v) (TxIns tx));
  ac_signals : forall op t, op ∈ inputs tx -> outpoints mp !! op = Some t ->
    RejectReplacement (policy cfg) = false /\ signals (pool mp) t;
  ac_pool : forall h d', pool mp' !! h = Some d' <->
    (h = TxHash tx /\ d' = d) \/ (h <> TxHash tx /\ pool mp !! h = Some d' /\ ~ conflict mp tx h);
  ac_orphans : orphans mp' = orphans mp /\ orphansByPrev mp' = orphansByPrev mp;
}.

Context (U : MsgTx -> Prop) (rank : bytes -> nat) (HU : universe U rank).

Lemma conflicts_exact cfg fuel sched mp tx r h :
  passed cfg fuel sched mp tx r -> is_Some (pool mp !! h) -> is_Some (Conflicts r !! h) <-> conflict mp tx h.
Proof.
  intros Hp [d Hd]. destruct (pa_conflicts _ _ _ _ _ _ Hp) as [[Hf ->] | HR].
  - rewrite lookup_empty. split; [by intros [? ?] |]. intros (op & t & Hop & Ht & _). specialize (Hf op Hop). congruence.
  - split; [intros [t Ht]; by apply (rp_conflicts _ _ _ _ _ HR) in Ht as [? _] |]. intros Hc. exists (Tx d).
    apply (rp_conflicts _ _ _ _ _ HR). split; [done | by exists d].
Qed.

Lemma accepts_accepted cfg fuel sched L mp mp' tx d :
  (forall l, sched l ≡ₚ l) -> speaks_for U cfg L -> pool_ok U mp -> U tx -> accepts cfg fuel sched U mp mp' tx true d ->
  accepted cfg L mp mp' tx d.
Proof.
  intros Hsched Hsf Hok Hu (r & Hst & Hp & Hfee & Had). pose proof (ad_desc _ _ _ _ _ _ _ Had) as [Htx Hf Hrate Hht].
  pose proof (ad_orphans _ _ _ _ _ _ _ Had) as Ho. injection Ho as Ho Hb _. split.
  - split; [apply Hst | by apply (st_new_orphan _ _ _ Hst)].
  - split_and!; apply Hst.
  - rewrite Hf. split_and!; done.
  - rewrite Hf. by eapply passed_inputs.
  - exists (r_utxoView r). split_and!.
    + intros op Hop. eapply input_view_coin; [done | done | done | apply Hst | apply Hp | done].
    + destruct (pa_scripts _ _ _ _ _ _ Hp) as (c & c' & Hs). by eapply validated_scripts.
    + apply standardness_Ok; [apply Hst | apply Hp].
  - apply (pa_signals _ _ _ _ _ _ Hp).
  - intros h d'. rewrite (ad_pool _ _ _ _ _ _ _ Had). destruct (decide (h = TxHash tx)) as [-> | Hne].
    { split; [intros [= <-]; by left | intros [[_ ->] | [? _]]; done]. }
    destruct (pool mp !! h) as [d0 |] eqn:Hd.
    + pose proof (conflicts_exact _ _ _ _ _ _ h Hp (mk_is_Some _ _ Hd)) as Hc. case_decide; split; naive_solver.
    + case_decide; split; naive_solver.
  - done.
Qed.
End Accepted.

(** * Properties *)

(** C30: the invariant of the memory pool, and the end of its methods.  Take any
    sequence of calls of its methods and of the handlers of blocks, on a new pool,
    with any outcomes, at any time and in any order of the maps, while the chain
    answers differently from call to call; the transactions are such that hashes do
    not collide and no transaction contains its own hash ([universe]).  Then each
    transaction of the pool is stored under its hash, is sane, is no coinbase, pays
    a fee that is an amount, and is not an orphan at the same time; the index of
    spent outpoints is exactly that of the inputs of the pool, so that no two
    transactions spend the same output; the orphans are stored under their hashes,
    and indexed exactly by their inputs; and there are not more of them than the
    policy allows.  From there every call of [ProcessTransaction] and every handler
    of a block ends: with enough steps for the script engine it has one outcome,
    and the fuel computed from the sizes of the maps is never used up. *)
Theorem mempool_invariant `{Crypto} `{!CryptoLaws} `{MapOrder} `{WorldLaws} U rank max now caches mp :
  universe U rank -> pool_reach U max (New now caches) mp ->
  (forall h d, pool mp !! h = Some d ->
     TxHash (Tx d) = h /\ tx_sane (Tx d) /\ IsCoinBaseTx (Tx d) = false /\ amount_ok (Fee d) /\ orphans mp !! h = None) /\
  (forall op t, outpoints mp !! op = Some t <-> op ∈ inputs t /\ exists d, pool mp !! TxHash t = Some d /\ Tx d = t) /\
  (forall h h' d d' op, pool mp !! h = Some d -> pool mp !! h' = Some d' ->
     op ∈ inputs (Tx d) -> op ∈ inputs (Tx d') -> h = h') /\
  (forall h o, orphans mp !! h = Some o -> TxHash (o_tx o) = h) /\
  (forall op h t, by_prev mp op !! h = Some t <-> op ∈ inputs t /\ exists o, orphans mp !! h = Some o /\ o_tx o = t) /\
  Z.of_nat (size (orphans mp)) <= Z.max 0 max /\
  (forall cfg sched, limit cfg = max -> (forall l, sched l ≡ₚ l) -> (forall tx, U tx -> witnesses_ok tx) ->
     (forall tx allowOrphan rateLimit tag, U tx ->
        ends (fun f => ProcessTransaction cfg f sched tx allowOrphan rateLimit tag) mp) /\
     (forall block, Forall U (tail (Transactions block)) ->
        ends (fun f => BlockConnected cfg f sched block) mp /\ ends (fun f => BlockDisconnected cfg f sched block) mp)).
Proof.
  intros HU Hr. pose proof (pool_reach_ok U max rank HU now caches mp Hr) as Hok.
  pose proof (po_known _ _ (mo_pool _ _ _ Hok)) as Hkn. pose proof (po_spent _ _ (mo_pool _ _ _ Hok)) as Hsp. split_and!.
  - intros h d Hd. destruct (mo_sane _ _ _ Hok _ _ Hd). split_and!;
      [by apply Hkn | done | done | by eapply mo_fees | by eapply mo_apart].
  - exact Hsp.
  - intros h h' d d' op Hd Hd' Hop Hop'. destruct (Hkn _ _ Hd) as [Hh _], (Hkn _ _ Hd') as [Hh' _].
    assert (outpoints mp !! op = Some (Tx d)) by (apply Hsp; split; [done | exists d; by rewrite Hh]).
    assert (outpoints mp !! op = Some (Tx d')) by (apply Hsp; split; [done | exists d'; by rewrite Hh']). congruence.
  - intros h o Ho. by apply (oo_known _ _ _ (mo_orphans _ _ _ Hok)).
  - intros op h t. rewrite (oo_index _ _ _ (mo_orphans _ _ _ Hok)). split; [naive_solver | split; [by apply not_elem_of_empty | done]].
  - apply Hok.
  - intros cfg sched Hl Hs Hw. split; [intros; by eapply (ProcessTransaction_ends sched Hs U rank HU Hw cfg max) |].
    intros block Hb. split; [by eapply (BlockConnected_ends sched Hs U rank HU Hw cfg max) |
      by eapply (BlockDisconnected_ends sched Hs U rank HU Hw cfg max)].
Qed.

(** C31: what the memory pool accepts.  In a pool that its methods have reached,
    while the view that the chain gives for a transaction is that of a ledger,
    [MaybeAcceptTransaction] either accepts the transaction ([accepted]): it
    is new, sane and no coinbase; each of its inputs is a coin of the ledger or an
    output of the pool, its fee is what it leaves of them, and coinbases among them
    are mature; its scripts run without an error under the standard rules; it is
    standard in its inputs and outputs if the policy asks for that; all that spends
    the same outputs signals that it can be replaced, and the policy allows that;
    and the pool gains exactly the transaction and loses exactly what spends the
    same outputs, with all that descends from it.  Or it answers that parents are
    missing, or fails, and the pool and its orphans are as before. *)
Theorem transaction_acceptance `{Crypto} `{MapOrder} `{WorldLaws} U rank max now caches cfg L fuel sched tx isNew rateLimit mp :
  universe U rank -> pool_reach U max (New now caches) mp -> speaks_for U cfg L -> (forall l, sched l ≡ₚ l) -> U tx ->
  let '(o, mp') := MaybeAcceptTransaction cfg fuel sched tx isNew rateLimit mp in
  let same := pool mp' = pool mp /\ outpoints mp' = outpoints mp /\ orphans mp' = orphans mp /\ orphansByPrev mp' = orphansByPrev mp in
  match o with
  | Ok ([], Some d) => accepted cfg L mp mp' tx d
  | Ok (_ :: _, None) => same
  | Ok _ => False
  | _ => same
  end.
Proof.
  intros HU Hr Hsf Hsched Hu. pose proof (pool_reach_ok U max rank HU now caches mp Hr) as Hok.
  destruct (MaybeAcceptTransaction cfg fuel sched tx isNew rateLimit mp) as [o mp'] eqn:Ha. cbv zeta.
  destruct (accept_spec cfg fuel sched U rank HU _ _ _ _ _ _ _ (mo_pool _ _ _ Hok) (mo_fees _ _ _ Hok) Hu Ha) as [[Hc Hq] | (d & -> & Hacc)].
  - injection Hc as _ Hp Ho Hb Hout _. assert (Hsame : pool mp' = pool mp /\ outpoints mp' = outpoints mp /\
      orphans mp' = orphans mp /\ orphansByPrev mp' = orphansByPrev mp) by done.
    destruct o as [q | |]; [| done ..]. by destruct (Hq _ eq_refl) as (_ & h & l & ->).
  - eapply (accepts_accepted U); try done. apply Hok.
Qed.

(** C32: replacement.  In a pool that its methods have reached, the search through
    the unconfirmed ancestors, with its cache, decides whether a transaction signals
    that it can be replaced: one of its inputs does, or an ancestor in the pool.
    The check for double spends passes exactly if all transactions of the pool that
    spend the same outputs signal and the policy allows replacing, and it says
    whether there are any.  [validateReplacement] passes exactly under the
    conditions of [replaces], and then says which transactions go: those that spend
    the same outputs and all that descends from them; at most 100 of them; none is
    an ancestor of the new one; each pays a lower fee per size; together they pay
    less, by the fee for relaying the new one; and the new one spends nothing
    unconfirmed but outputs of transactions that theirs spent from.  In all other
    cases it rejects the transaction, and it never panics. *)
Theorem replacement_rules `{Crypto} `{MapOrder} `{WorldLaws} U rank max now caches cfg tx txFee mp :
  universe U rank -> pool_reach U max (New now caches) mp ->
  U tx -> amount_ok txFee -> MinStandardTxNonWitnessSize <= SerializeSizeStripped tx ->
  (forall t, U t -> exists b, signalsReplacement mp t = Ok b /\ (b = true <-> signals (pool mp) t)) /\
  (forall b, checkPoolDoubleSpend cfg mp tx = Ok b <->
     (forall op t, op ∈ inputs tx -> outpoints mp !! op = Some t -> RejectReplacement (policy cfg) = false /\ signals (pool mp) t) /\
     (b = true <-> exists op, op ∈ inputs tx /\ is_Some (outpoints mp !! op))) /\
  exists o mp', validateReplacement cfg tx txFee mp = (o, mp') /\ (mp' = mp \/ mp' = called mp) /\
    (forall F, o = Ok F <-> replaces cfg mp tx txFee F) /\ o <> Panic /\ forall e, o = Err e -> rejects e.
Proof.
  intros HU Hr Hu Hfee Hsize. pose proof (pool_reach_ok U max rank HU now caches mp Hr) as Hok. split_and!.
  - intros t Ht. by apply (signalsReplacement_spec U rank HU); [apply Hok |].
  - intros b. unfold checkPoolDoubleSpend. rewrite (double_spend_iff U rank _ _ _ _ _ HU (mo_pool _ _ _ Hok)). fold (inputs tx).
    split; intros [Hall Hb]; (split; [done |]); rewrite Hb; [split; [by intros [? | ?] | by right] | split; [by right | by intros [? | ?]]].
  - apply (validateReplacement_spec U rank HU); [apply Hok | apply Hok | done | done | by apply (vsize_pos U rank HU)].
Qed.

(** C29: the memory pool follows the chain.  A pool that its methods have reached is
    supported by a ledger when every input of it is a coin of the ledger or an output
    of the pool.  Such a pool could be mined as it is: in some order all its
    transactions apply to the ledger one after the other.  Processing a
    transaction keeps the pool supported, whatever the outcome, while the chain
    answers for the ledger.  When a block that applies to the ledger has been
    connected and the chain answers for the ledger after it, the handler of the
    block, if it does not panic in a script, leaves a pool that is supported by
    the new ledger. *)
Theorem pool_follows_chain `{Crypto} `{MapOrder} `{WorldLaws} U rank max now caches mp L :
  universe U rank -> pool_reach U max (New now caches) mp -> supported L (pool mp) ->
  (forall h, exists order, order ≡ₚ Tx <$> (map_to_list (pool mp)).*2 /\ is_Some (apply_txs h order L)) /\
  (forall cfg fuel sched tx allowOrphan rateLimit tag, limit cfg = max -> speaks_for U cfg L -> U tx ->
     supported L (pool (snd (ProcessTransaction cfg fuel sched tx allowOrphan rateLimit tag mp)))) /\
  (forall cfg fuel sched h block tx0 rest L' l r mp',
     Transactions block = tx0 :: rest -> IsCoinBaseTx tx0 = true -> Forall U rest ->
     apply_txs h (Transactions block) L = Some (L', l) -> speaks_for U cfg L' ->
     BlockConnected cfg fuel sched block mp = (Ok r, mp') -> supported L' (pool mp')).
Proof.
  intros HU Hr Hs. pose proof (pool_reach_ok U max rank HU now caches mp Hr) as Hok. split_and!.
  - intros h. by eapply (pool_minable U rank HU).
  - intros cfg fuel sched tx allowOrphan rateLimit tag Hl Hsf Hu.
    destruct (ProcessTransaction cfg fuel sched tx allowOrphan rateLimit tag mp) as [o mp'] eqn:Hp. cbn [snd].
    eapply (ProcessTransaction_fine fuel sched U rank HU cfg max (supported L)) in Hp as [_ Hp]; [done | | done | by split | done].
    intros m m' t rdo d Hm Hj Ht Ha. apply supported_nil. apply supported_nil in Hj. by eapply (supported_accepts U rank HU).
  - intros cfg fuel sched h block tx0 rest L' l r mp' Hb Hcb Hu Ha Hsf Hrun.
    eapply (BlockConnected_supported U rank HU cfg fuel sched max) in Hrun as [_ ?]; done.
Qed.

(** * Samples *)

(** A chain that answers for a ledger. *)
Definition ledger_view `{Crypto} (L : coins) (tx : MsgTx) : checked UtxoViewpoint :=
  Ok (mkView (list_to_map ((fun op => (op, entry_of <$> L !! op)) <$> (outs_of tx ++ inputs tx))) []).

Lemma listed_lookup {A} (f : OutPoint -> A) op l :
  op ∈ l -> (list_to_map ((fun op => (op, f op)) <$> l) : gmap OutPoint A) !! op = Some (f op).
Proof.
  induction l as [| x l IH]; [by intros ?%elem_of_nil |]. cbn [fmap list_fmap list_to_map foldr]. intros Hin.
  destruct (decide (op = x)) as [-> | Hne]; [by rewrite lookup_insert_eq |]. rewrite lookup_insert_ne by done.
  apply IH. by apply elem_of_cons in Hin as [-> | Hin].
Qed.

Lemma ledger_speaks `{Crypto} U cfg L : FetchUtxoView cfg = ledger_view L -> speaks_for U cfg L.
Proof.
  intros Hv. split. intros tx v op _ _ Hr Hop. rewrite Hv in Hr. injection Hr as <-.
  unfold entry_coin, unspent_entry, LookupEntry. cbn [entries]. rewrite listed_lookup by (apply elem_of_app; tauto).
  destruct (L !! op) as [c |]; [| done]. cbn. assert (IsSpent (entry_of c) = false) as -> by by destruct c as [a s h []].
  cbn. by rewrite stxo_of_entry_of.
Qed.

Section Sample.
#[local] Existing Instance toy_crypto.
#[local] Existing Instance toy_laws.
#[local] Existing Instance list_order.

(** A clock that stands still, and maps that are ranged over in their own order. *)
#[local] Instance still : World := {| clock := fun _ => seconds 1600000000; shuffle := fun _ _ l => l |}.

#[local] Instance still_laws : WorldLaws.
Proof. by intros A n l. Qed.

Definition sample_policy : PoolPolicy := mkPolicy 2 true true (of_int 15) 10 100000 80000 1000 false.

Definition sample_config (L : coins) : Config :=
  mkConfig sample_policy MainNetParams (ledger_view L) 299999 1600000000 (fun _ _ => Ok (mkSequenceLock (-1) (-1)))
    (fun _ => Ok false).

(** A transaction, one that spends an output of it, and one that spends the same
    output as the first for a higher fee. *)
Definition parent_tx : MsgTx := spend_tx 2 old_outpoint [500; 400].
Definition child_tx : MsgTx := spend_tx 3 (mkOutPoint (TxHash parent_tx) 0) [300; 100].
Definition bump_tx : MsgTx := spend_tx 4 old_outpoint [100; 100].

Definition sample_txs (tx : MsgTx) : Prop := tx ∈ [parent_tx; child_tx; bump_tx].

Lemma sample_parent : sample_txs parent_tx. Proof. by left. Qed.
Lemma sample_child : sample_txs child_tx. Proof. by right; left. Qed.
Lemma sample_bump : sample_txs bump_tx. Proof. by right; right; left. Qed.

Definition sample_rank (h : bytes) : nat :=
  if decide (h = TxHash child_tx) then 2 else if decide (h ∈ TxHash <$> [parent_tx; bump_tx]) then 1 else 0.

Definition in_turn : list txValidateItem -> list txValidateItem := fun l => l.

(** The child comes first, as an orphan, and then its parent. *)
Definition pool_0 : TxPool := New 0 (None, None).
Definition sample_process (tx : MsgTx) := ProcessTransaction (sample_config one_coin_set) 50 in_turn tx true false 0.
Definition pool_1 : TxPool := snd (sample_process child_tx pool_0).
Definition pool_2 : TxPool := snd (sample_process parent_tx pool_1).

Definition hashes (mp : TxPool) : list bytes * list bytes := ((map_to_list (pool mp)).*1, (map_to_list (orphans mp)).*1).

Example sample_run :
  hashes pool_1 = ([], [TxHash child_tx]) /\ (length (fst (hashes pool_2)), snd (hashes pool_2)) = (2%nat, []).
Proof. split; vm_compute; reflexivity. Qed.

Lemma sample_universe : universe sample_txs sample_rank.
Proof.
  split.
  - intros tx op Htx Hop. unfold sample_txs in Htx. rewrite !elem_of_cons, elem_of_nil in Htx.
    destruct Htx as [-> | [-> | [-> | []]]]; apply list_elem_of_singleton in Hop as ->; vm_compute; lia.
  - intros tx tx' Htx Htx' Hh. unfold sample_txs in Htx, Htx'. rewrite !elem_of_cons, elem_of_nil in Htx, Htx'.
    destruct Htx as [-> | [-> | [-> | []]]], Htx' as [-> | [-> | [-> | []]]]; try done; vm_compute in Hh; discriminate.
  - intros tx Htx. unfold sample_txs in Htx. rewrite !elem_of_cons, elem_of_nil in Htx.
    destruct Htx as [-> | [-> | [-> | []]]]; reflexivity.
  - intros tx Htx. unfold sample_txs in Htx. rewrite !elem_of_cons, elem_of_nil in Htx.
    destruct Htx as [-> | [-> | [-> | []]]]; reflexivity.
Qed.

Lemma sample_step tx mp : sample_txs tx -> pool_step sample_txs 10 mp (snd (sample_process tx mp)).
Proof.
  intros Htx. destruct (sample_process tx mp) as [o mp'] eqn:Hr. cbn [snd].
  by apply (step_process sample_txs 10 (sample_config one_coin_set) 50 in_turn tx true false 0 mp o mp').
Qed.

Lemma sample_reach : pool_reach sample_txs 10 pool_0 pool_2.
Proof.
  eapply rtc_l; [apply (sample_step child_tx), sample_child |].
  eapply rtc_l; [apply (sample_step parent_tx), sample_parent | apply rtc_refl].
Qed.

(** What is in the pool, by its hashes. *)
Lemma in_pool mp tx : isTransactionInPool (TxHash tx) mp = true -> exists d, pool mp !! TxHash tx = Some d.
Proof. intros [d Hd]%bool_decide_eq_true. by exists d. Qed.

Lemma sample_speaks U L : speaks_for U (sample_config L) L.
Proof. by apply ledger_speaks. Qed.

(** The orphan has been taken in, and is an orphan no more. *)
Lemma mempool_invariant_witness :
  isOrphanInPool (TxHash child_tx) pool_1 = true /\
  (exists d, pool pool_2 !! TxHash child_tx = Some d /\ Tx d = child_tx /\ orphans pool_2 !! TxHash child_tx = None) /\
  CheckSpend old_outpoint pool_2 = Some parent_tx /\
  ends (fun f => ProcessTransaction (sample_config one_coin_set) f in_turn bump_tx true true 0) pool_2.
Proof.
  destruct (mempool_invariant sample_txs sample_rank 10 0 (None, None) pool_2 sample_universe sample_reach)
    as (Hp & Ho & _ & _ & _ & _ & He).
  assert (Hc : CheckSpend old_outpoint pool_2 = Some parent_tx) by (vm_compute; reflexivity).
  assert (Hs : CheckSpend (mkOutPoint (TxHash parent_tx) 0) pool_2 = Some child_tx) by (vm_compute; reflexivity).
  split_and!; [vm_compute; reflexivity | | exact Hc |].
  - apply Ho in Hs as (_ & d & Hd & Htx). exists d. split_and!; [exact Hd | exact Htx |]. by apply (Hp _ d).
  - destruct (He (sample_config one_coin_set) in_turn) as [Hproc _];
      [reflexivity | reflexivity | | exact (Hproc bump_tx true true 0 sample_bump)].
    intros tx Htx. unfold sample_txs in Htx. rewrite !elem_of_cons, elem_of_nil in Htx.
    destruct Htx as [-> | [-> | [-> | []]]]; (apply Forall_singleton; split; [reflexivity | apply Forall_nil_2]).
Defined.

Definition fee_of_accepted (o : pooled (list bytes * option TxDesc)) : option Z :=
  match o with Ok ([], Some d) => Some (Fee d) | _ => None end.

(** The third transaction replaces the other two. *)
Lemma transaction_acceptance_witness :
  exists d mp', MaybeAcceptTransaction (sample_config one_coin_set) 50 in_turn bump_tx true true pool_2 = (Ok ([], Some d), mp') /\
    Fee d = 800 /\ accepted (sample_config one_coin_set) one_coin_set pool_2 mp' bump_tx d /\
    hashes mp' = ([TxHash bump_tx], []).
Proof.
  pose proof (transaction_acceptance sample_txs sample_rank 10 0 (None, None) (sample_config one_coin_set) one_coin_set 50 in_turn
    bump_tx true true pool_2 sample_universe sample_reach (sample_speaks _ _) ltac:(done) sample_bump) as Ha.
  assert (Hf : (fun q => (fee_of_accepted (fst q), hashes (snd q)))
    (MaybeAcceptTransaction (sample_config one_coin_set) 50 in_turn bump_tx true true pool_2) = (Some 800, ([TxHash bump_tx], [])))
    by (vm_compute; reflexivity).
  destruct (MaybeAcceptTransaction (sample_config one_coin_set) 50 in_turn bump_tx true true pool_2) as [o mp'].
  cbn [fst snd] in Hf.
  pose proof (f_equal snd Hf) as Hh. apply (f_equal fst) in Hf. cbn [fst snd] in *. destruct o as [[[| h l] [d |]] | |]; try discriminate. exists d, mp'.
  injection Hf as Hf. split_and!; [reflexivity | exact Hf | exact Ha | exact Hh].
Defined.

(** Two transactions go, and their fees are 200. *)
Lemma replacement_rules_witness :
  (exists F, replaces (sample_config one_coin_set) pool_2 bump_tx 800 F /\ size F = 2%nat) /\
  (forall F, ~ replaces (sample_config one_coin_set) pool_2 bump_tx 250 F) /\
  signals (pool pool_2) child_tx.
Proof.
  assert (Hrun : forall fee, amount_ok fee -> exists o mp', validateReplacement (sample_config one_coin_set) bump_tx fee pool_2 = (o, mp') /\
    forall F, o = Ok F <-> replaces (sample_config one_coin_set) pool_2 bump_tx fee F).
  { intros fee Hfee. destruct (replacement_rules sample_txs sample_rank 10 0 (None, None) (sample_config one_coin_set) bump_tx fee pool_2
      sample_universe sample_reach) as (_ & _ & o & mp' & Hr & _ & HF & _);
      [exact sample_bump | exact Hfee | vm_compute; discriminate | exists o, mp'; split; [exact Hr | exact HF]]. }
  split_and!.
  - destruct (Hrun 800) as (o & mp' & Hr & HF); [split; vm_compute; discriminate |].
    assert (Hs : (fun q => match fst q with Ok F => size F | _ => 0%nat end)
      (validateReplacement (sample_config one_coin_set) bump_tx 800 pool_2) = 2%nat) by (vm_compute; reflexivity).
    rewrite Hr in Hs. cbn [fst] in Hs.
    destruct o as [F | |]; try discriminate Hs. exists F. split; [exact (proj1 (HF F) eq_refl) | exact Hs].
  - destruct (Hrun 250) as (o & mp' & Hr & HF); [split; vm_compute; discriminate |].
    assert (Hs : is_ok (fst (validateReplacement (sample_config one_coin_set) bump_tx 250 pool_2)) = false) by (vm_compute; reflexivity).
    rewrite Hr in Hs. cbn [fst] in Hs.
    intros F HR. pose proof (proj2 (HF F) HR) as Ho. rewrite Ho in Hs. discriminate Hs.
  - destruct (replacement_rules sample_txs sample_rank 10 0 (None, None) (sample_config one_coin_set) bump_tx 800 pool_2
      sample_universe sample_reach) as (Hs & _);
      [exact sample_bump | split; vm_compute; discriminate | vm_compute; discriminate |].
    destruct (Hs child_tx) as (b & Hb & Hsig); [exact sample_child |]. apply Hsig.
    assert (Hc : signalsReplacement pool_2 child_tx = Ok true) by (vm_compute; reflexivity).
    rewrite Hc in Hb. by injection Hb as <-.
Defined.

(** A block with the parent is connected: the child is left, and can be mined. *)
Definition sample_block : MsgBlock := block_of [coinbase_of 2500000100; parent_tx].
Definition next_ledger : coins := default ∅ (fst <$> apply_txs 300000 (Transactions sample_block) one_coin_set).
Definition pool_3 := BlockConnected (sample_config next_ledger) 50 in_turn sample_block pool_2.

Lemma pool_follows_chain_witness :
  supported one_coin_set (pool pool_2) /\ supported next_ledger (pool (snd pool_3)) /\
  hashes (snd pool_3) = ([TxHash child_tx], []) /\
  exists order, order ≡ₚ Tx <$> (map_to_list (pool pool_2)).*2 /\ is_Some (apply_txs 300000 order one_coin_set).
Proof.
  assert (Hstep : forall tx mp, sample_txs tx -> pool_reach sample_txs 10 pool_0 mp -> supported one_coin_set (pool mp) ->
    pool_reach sample_txs 10 pool_0 (snd (sample_process tx mp)) /\ supported one_coin_set (pool (snd (sample_process tx mp)))).
  { intros tx mp Htx Hr Hs. split.
    - eapply rtc_r; [exact Hr |]. exact (sample_step tx mp Htx).
    - destruct (pool_follows_chain sample_txs sample_rank 10 0 (None, None) mp one_coin_set sample_universe Hr Hs) as (_ & Hp & _).
      apply Hp; [reflexivity | apply sample_speaks | exact Htx]. }
  destruct (Hstep child_tx pool_0 sample_child (rtc_refl _ _)) as [Hr1 Hs1]; [by intros h d op []%no_lookup |].
  destruct (Hstep parent_tx pool_1 sample_parent Hr1 Hs1) as [Hr2 Hs2].
  destruct (pool_follows_chain sample_txs sample_rank 10 0 (None, None) pool_2 one_coin_set sample_universe Hr2 Hs2) as (Hm & _ & Hb).
  split_and!; [exact Hs2 | | vm_compute; reflexivity | exact (Hm 300000)].
  assert (Ha : (fun o : option (coins * list SpentTxOut) => bool_decide (is_Some o))
    (apply_txs 300000 (Transactions sample_block) one_coin_set) = true) by (vm_compute; reflexivity).
  assert (Hn : next_ledger = default ∅ (fst <$> apply_txs 300000 (Transactions sample_block) one_coin_set)) by reflexivity.
  assert (Ho : is_ok (fst pool_3) = true) by (vm_compute; reflexivity).
  destruct (apply_txs 300000 (Transactions sample_block) one_coin_set) as [[L' l] |] eqn:Happ; [| discriminate Ha].
  cbn [fmap option_fmap option_map fst default] in Hn. unfold id in Hn. subst L'.
  destruct pool_3 as [o mp'] eqn:Hrun. cbn [fst snd] in *. destruct o as [r | |]; [| discriminate Ho ..].
  apply (Hb (sample_config next_ledger) 50%nat in_turn 300000 sample_block (coinbase_of 2500000100) [parent_tx] next_ledger l r mp');
    [reflexivity | reflexivity | apply Forall_singleton, sample_parent | exact Happ | apply sample_speaks | exact Hrun].
Defined.

(** The handler of a disconnected block can leave a transaction in the pool without
    its parent.  Of three transactions that spend from each other, the first two
    are in a block; the first has more signature operations than the policy allows.
    When the block is disconnected the first is refused, the second is not taken
    because its parent is missing, which is no error, and the third stays although
    the output that it spends is nowhere. *)
Definition costly_tx : MsgTx :=
  mkMsgTx 5 [mkTxIn old_outpoint [] [] 0] [mkTxOut 500 [x51]; mkTxOut 400 [xac; xac]] 0.
Definition middle_tx : MsgTx := spend_tx 6 (mkOutPoint (TxHash costly_tx) 0) [300; 100].
Definition last_tx : MsgTx := spend_tx 7 (mkOutPoint (TxHash middle_tx) 0) [200; 20].

Definition strict_config (L : coins) : Config :=
  mkConfig (mkPolicy 2 true true (of_int 15) 10 100000 4 1000 false) MainNetParams (ledger_view L) 299999 1600000000
    (fun _ _ => Ok (mkSequenceLock (-1) (-1))) (fun _ => Ok false).

Example stranded_transaction :
  let block := block_of [coinbase_of 2500000100; costly_tx; middle_tx] in
  let L' := default ∅ (fst <$> apply_txs 300000 (Transactions block) one_coin_set) in
  let mp := snd (MaybeAcceptTransaction (strict_config L') 50 in_turn last_tx true true pool_0) in
  let mp' := snd (BlockDisconnected (strict_config one_coin_set) 50 in_turn block mp) in
  hashes mp = ([TxHash last_tx], []) /\ hashes mp' = ([TxHash last_tx], []) /\
  Amount <$> avail L' (pool mp) (mkOutPoint (TxHash middle_tx) 0) = Some 300 /\
  avail one_coin_set (pool mp') (mkOutPoint (TxHash middle_tx) 0) = None.
Proof. cbv zeta. split_and!; vm_compute; reflexivity. Qed.
End Sample.
